(* ===== verification/_CoqProject ===== *)
-Q . S2P
Prelude.v
GoStrings.v
Config.v
Float.v
Fee.v
Prog.v
Sdk.v
TxStore.v
Tx.v
Txm.v
Broadcast.v
Confirm.v
TxmSafe.v
TxmProgress.v
TxmOutcome.v
Demo.v
TxmProps.v
Xdr.v
ScVal.v
GoBytes.v
ScValProps.v
TypeConverters.v
TypeConvertersProps.v
InvokerAdapter.v
StellarService.v
Ccv.v
Bindings.v
Transmitter.v
SourceReader.v
Poller.v
DestinationReader.v
DemoCcv.v
BindingsProps.v
TransmitterProps.v
SourceReaderProps.v
PollerLive.v
CcvProps.v
Codec.v
CodecProps.v
Client.v
ClientProps.v
CommitteeVerifierClient.v
FeeQuoterClient.v
VersionedVerifierResolverClient.v
OnRampClient.v
RmnProxyClient.v
RmnRemoteClient.v
OffRampClient.v
RouterClient.v
RampRegistryClient.v
ExampleCcipReceiverClient.v
TokenAdminRegistryClient.v
LockReleasePoolClient.v
BurnMintPoolClient.v
TokenPoolClient.v
TokenLockBoxClient.v
SiloedLockReleasePoolClient.v
McmsClient.v
TimelockClient.v
ContractsProps.v
Deployer.v
DeployerProps.v
Chain.v
ChainProps.v
Accessors.v
AccessorProps.v
ExtraArgs.v
ExtraArgsProps.v
ServiceProps.v
Operations.v
Ownership.v
OwnershipProps.v
Mcms.v
McmsProps.v
Lanes.v
LanesProps.v
Rollout.v
RolloutProps.v
CcvChain.v
CcvChainProps.v
