(* ===== verification/Prelude.v ===== *)
(** * Chainlink Stellar: a verification library

    The library models the Go code of the Chainlink integration for the Stellar network and
    proves what makes it correct. Paths are relative to [src/]. Nine subsystems are modelled:
    the transaction manager ([relayer/txm]); the conversions of Soroban values
    ([bindings/scval], [relayer/type_converters.go]); the manager's clients, which are the
    invoker adapter and the chain service ([relayer/stellar_service.go]); the readers, the
    poller and the transmitter of cross-chain messages ([ccv]), with the accessors that build
    them; the deployer that they call through ([deployment/deployer.go]); the
    configuration and wiring of the relayer ([relayer/config], [relayer/chain], [cmd]);
    the generated bindings of the eighteen contracts ([bindings/contracts]) with the
    templates of their generator ([bindings/generator]); the deployment: the
    operations on the contracts ([deployment/operations]) with the sequences and adapters that
    deploy the governance contracts and hand contracts over to them, deploy the protocol,
    configure its lanes and fees, and curse ([deployment/mcmsutil], [deployment/ownership],
    [deployment/ccip], [deployment/sequences], [deployment/adapters]); and the chain of the
    development environment, which connects what was deployed and sends messages
    ([ccv/chain]).

    ** The program

    The transaction manager accepts requests to invoke a contract ([Enqueue],
    [EnqueueAndWait]), registers each as a [StellarTx] and queues it on a bounded channel.
    A broadcast goroutine takes it through simulation, restoration of archived ledger
    entries, assembly, signing and submission, with a sequence number from the account's
    [TxStore] and a fee from [FeeStrategy] and [feeTracker]. A confirm goroutine polls the
    transactions in flight; it finalizes, fails or re-queues each. A prune goroutine forgets
    the ones that ended long ago. The goroutines and the callers share the map of
    transactions, the transactions themselves, the channel, the stores and the fee cache,
    each behind its own lock. The relayer converts Soroban values between its domain types
    and the SDK's, in contract arguments, event filters and events; the generated bindings
    use the helpers of [scval]. The chain service answers a remote caller: it forwards reads
    to a node and submits through the manager; the invoker adapter does the same for the
    generated bindings. The plugin's factory decodes a configuration, and builds the pool of
    nodes, the manager and the chain from it.

    For the cross-chain protocol, a source reader fetches the messages that the OnRamp
    emitted; a transmitter sends a message with its verifications to the OffRamp; a
    destination reader answers which messages were executed, with the help of a poller that
    keeps the OffRamp's events of the last hours in a cache. All three call contracts through
    a deployer, which simulates, restores, assembles, signs and sends transactions of its
    own, one at a time, without the manager. An accessor holds the three for a chain; it
    builds them when a keystore is injected, from a configuration that is merged from a file,
    the job and the deployed addresses.

    The bindings of a contract are a package of types, each with its conversions to and from
    Soroban values, and a client with a method for each function and a waiting helper for
    each event. The generator writes them from the contract's interface with one template per
    kind of declaration; the components above call some of them.

    A deployment runs in an external framework. Each call of a binding, and each upload of a
    contract, is an operation; the framework executes it, or answers with the report of an
    earlier execution on the same input. A sequence is a program over operations, and returns
    the addresses of what it deployed and the batches of calls that are left to governance:
    an MCMS contract, whose signers vote, proposes them to a timelock, which executes them.
    Adapters give the shared tooling of all chains these sequences, with what they read from
    the datastore of addresses. The sequence that deploys the protocol drives a host, which
    holds the contracts deployed so far. The chain of the development environment is such a
    host; it is built again from the datastore later, connects its ramps, its router and its
    pool to the other chains, sends messages through the router and waits for their events.

    ** The files

    Foundations:
    - [Prelude]: Go results, machine integers, pointers, loops that collect results, the
      hint database [go] and tactics, minima of finite sets.
    - [GoStrings]: the [strings] functions the code calls, on byte strings; Unicode beyond
      ASCII is a parameter.
    - [Float]: IEEE doubles (Stdlib's [spec_float] at 53 and 1024 bits), [math.Ceil],
      [math.Pow] on integer exponents, and conversion to int64; what Go leaves to the
      platform, a conversion out of range, is a parameter.
    - [Prog]: programs as trees of atomic steps on a state, with outside calls, blocking
      waits and panics; run alone ([run]), under arbitrary interference ([irun]), or
      interleaved in a pool ([pool_step], [reachable]); and five ways to reason about
      them: [safe] (rely and guarantee), [wp] (weakest preconditions), [nb] (progress),
      [sat] (what is called) and [spend] (how often).
    - [Sdk], [Xdr]: the third-party packages as data types and parameters, with their
      documented behaviour as laws ([SdkLaws], [XdrLaws]); [ext] lists the outside calls
      of the transaction manager. The module [DemoXdr], [Demo] and [DemoCcv] are concrete instances, a
      configuration and an execution, for the witnesses.
      [Prog] also has programs run against an oracle, with the history of their calls
      ([hrun]), and rules for what is known of the history ([traced]) and that an answer
      comes ([total]).
    - [GoBytes]: big-endian bytes, [math/big] and slices.

    Components, one definition per Go function, named as in the source:
    - [Config]: [txm/config.go]. [Fee]: [txm/fee.go] in the module [Fee], and
      [txm/fee_tracker.go] in [FeeTracker], with their theorems.
    - [TxStore]: [txm/txstore.go], modules [TxStore] (one account) and [AccountStore].
      Every method holds the store's lock, so a method is a function on the state.
    - [Tx]: [txm/tx.go] and the state of [StellarTxm] as the record [World]: a heap of
      transactions ([loc] is a pointer), the map from ids to pointers, the channel as a
      list with its capacity in the configuration, the account stores, the fee tracker and
      its lock, and the metrics emitted so far, in order. In the module [FailedResult] of the
      file, [txm/failed_result.go].
    - [Txm]: the API, the status updates and eviction under backpressure, of [txm/txm.go].
    - [Broadcast]: [txm/broadcast.go], [txm/restore.go] and the broadcast half of
      [txm/txm.go]. The submit loop of [simulateAssembleSignAndSend] is [submit_loop], a
      turn of it [submit_turn]. A [select] on a timer and the context is the call [ESleep].
    - [Confirm]: the confirm and prune halves of [txm/txm.go], and [Start].
    - [ScVal]: [bindings/scval/scval.go]. [TypeConverters]: [relayer/type_converters.go].
    - [InvokerAdapter]: [txm/invoker_adapter.go], with the class [TxManager], what the
      manager promises its clients, and its instance [stellar_txm]. [StellarService]:
      [relayer/stellar_service.go], with the manager as an argument of that class.
    - [Ccv]: the outside calls and the invoker of the readers, as a class. [Bindings]: the
      functions of [bindings/contracts/offramp] and [rmn_remote] that they call.
      [SourceReader], [Transmitter], [DestinationReader], [Poller]: the files of that name
      in [ccv/source_reader], [ccv/contract_transmitter] and [ccv/destination_reader]. The
      poller's goroutine is [poller_goroutine], its state the cursor and the cache.
    - [Deployer]: [deployment/deployer.go] and the keystore's signer of [ccv/accessors]. Its
      state is the heap of the operations that transactions share and the account's sequence.
    - [Chain]: [relayer/config/config.go], [txm/network.go], [relayer/chain/*.go] and the
      factory in [cmd/chainlink-stellar/main.go], in the modules [RelayerConfig],
      [MultiNodeClient] and [Chain].
    - [Accessors]: [ccv/accessors/*.go], in the modules [AccessorConfig] (the merge) and
      [Accessor] (the state machine of keystore injections).
    - [Codec], [Client]: what the code emitted by [bindings/generator/codegen.go] and
      [client_codegen.go] does, as definitions on the parsed data of a contract: a type is a
      [codec], a function a [method], an event a parser and a loop ([WaitFor]).
      [CommitteeVerifierClient], [FeeQuoterClient], ..., [TimelockClient] (eighteen files):
      the data of each package of [bindings/contracts], and its functions, as the templates
      on the data. [ContractsProps] collects them and checks the data by computation.
    - [ExtraArgs]: [ccv/common/*.go], the extra arguments of the OnRamp's bindings, and the
      payload of a governance call.
    - [Operations]: [deployment/operations], one definition per operation, prefixed with the
      name of its package. The input and the output are lists of values, in the order of the
      fields of their structures.
    - [Ownership]: in the module [Ownable], the trait of that name of the Rust contracts
      ([contracts/common/authorization]) and the timelock's execution of a batch: what the
      sequences rely on; in the module [Ownership], [deployment/ownership/*.go],
      [sequences/transfer_ownership.go] and [adapters/stellar_transfer_ownership_adapter.go].
      The framework is the class [Cldf], and [Host] runs a deployer's calls in its world.
    - [Mcms]: [deployment/mcmsutil] in the module [McmsUtil], [sequences/mcms.go] and
      [adapters/stellar_mcms_reader.go] in [McmsSequences]. The class [CcipUtils] has the
      shared tooling: versions, names of contract types, the lookup of a reference, and the
      signer configuration.
    - [Lanes]: [deployment/ccip/stellarutil] in the module [StellarUtil]; in [Lanes], the
      references of the datastore and the configurations of lanes ([deployment/ccip]) with the
      adapter of the chain. Classes: [LaneSdk] (hexadecimal texts and families), [Datastore],
      [ContractKinds] (the names of the shared tooling).
    - [Rollout]: [sequences/stellar_ccip_full_deploy.go] with its host and the test pools in
      the module [FullDeploy], [sequences/fee.go] and its adapters in [Fees],
      [sequences/curse.go] and its adapter in [Curse] (the class [FastCurse] is the shared
      changeset), and in [RmnRemote] the Rust contract that curses are put on.
    - [CcvChain]: [ccv/chain/chain.go], [composable.go], [evm_stellar_token_transfer.go],
      [impl_factory.go] and [stellar_ccip_host.go]. The fields that change are the record
      [ChainFields], ids and clients by name. The class [DevenvSdk] has key pairs from seeds
      and assets, [EvmTooling] the operations on pools of EVM chains.

    Granularity: one atomic step is one critical section, one channel operation, one
    read or write of a shared field outside a lock, or one outside call. Between two steps
    any other goroutine may run. One lock is held across an outside call, that of the fee
    tracker: it is the flag [feeLock], on which others block.

    ** The theorems

    Transaction manager, whole system ([TxmSafe], [TxmProgress] and [TxmOutcome] hold the
    invariant and the lemmas, [TxmProps] the theorems):
    - safety: any interleaving of any number of callers and loops, with any answers from
      outside, keeps [Inv] and the monotone relation [Rel] and never panics
      ([txm_interleavings_safe]);
    - outcomes: a broadcast that runs alone terminates in one of four states
      ([broadcast_outcome_complete]), a poll never drops a transaction
      ([check_one_outcome], [success_finalizes], [expired_is_retried_or_failed]), a call
      of Enqueue registers or evicts ([enqueue_registers_or_evicts]), pruning is exact
      ([prune_exact]);
    - bounds: submissions per broadcast ([submissions_bounded]); what goes on the wire has
      the reserved sequence ([wire_sequence_is_reserved]) and the resource fee once
      ([resource_fee_counted_once]);
    - decisions: which failed simulations and which failed transactions are retried
      ([simulation_retry_decision], [classify_retryable_iff]);
    - defects, as theorems about concrete executions: [client_failure_can_strand],
      [finalized_status_overwritten], [enqueue_after_close_panics].
    Parts:
    - the sequence store loses no number, refines an abstract allocator in every operation,
      on every argument ([store_refines_slots]: the release of a fresh number, which makes it
      fresh and given back at once, and the wrap of int64 are cases of it), proposes the least
      free number, and has a deterministic snapshot; a released fresh number collides
      ([TxStoreProps]);
    - fees are capped and bumps exact and increasing; the default schedule overflows at
      attempt 97 ([FeeProps]); the fee cache limits the rate of calls and answers with the
      newest snapshot ([FeeTrackerProps]); the configuration resolves completely and
      idempotently ([ConfigProps]).
    Soroban values:
    - [ScValProps]: addresses, i128, struct maps, hexadecimal ids, and which readers can
      panic on what;
    - [TypeConvertersProps]: the two representations of values convert into each other
      without loss, every value off the wire converts, and requests and events are
      accepted exactly under stated conditions.
    Clients of the manager ([ServiceProps]): a submission enqueues exactly the requested
    call, over any manager ([submit_enqueues_request]); over this one, the race on the
    status can reach the caller ([finalized_reported_fatal]), in an execution of the
    service, the broadcast loop and the confirm loop from a new manager.
    Cross-chain messages:
    - [BindingsProps]: loops over map entries, field by field, and the lane configuration;
      [TransmitterProps]: signatures in the compact form equal a reference and come back from
      the aggregator's; [SourceReaderProps]: what a fetch returns, exactly, and messages out
      of their events; [PollerLive]: the windows of the poller tile the
      ledgers, what is cached are executions, and an execution becomes visible in one poll
      of a node that answers; [CcvProps]: a message that is transmitted is read back as
      executed; and what is missed when a node fails ([missed_event_lost]).
    - [DeployerProps]: a value that a call returns is on the chain; what is sent, also to deploy
      a contract, is signed, fresh and for the network; how often and at which fee, and when
      the fee overflows ([deployer_well_formed]). The lemmas have the operations that may be
      sent as a parameter, which the transfer of the native coin instantiates.
    - [AccessorProps]: the factory is created, or fails, exactly as a reference says that is
      written apart from the code: for each field the texts that it is taken from, the
      preferred ones first ([configs_merged_exactly]); what an accessor serves is that configuration, under any
      keystores; the source reader does not recover from a failed one.
    - [ExtraArgsProps]: extra arguments and payloads come back from their encodings, and
      address bytes agree with the address values.
    Generated bindings ([CodecProps] and [ClientProps] for any contract whose data are
    supported, [ContractsProps] for the eighteen): every value of a generated type is written
    to a value that does not depend on the order of Go's maps and is read back from it
    ([generated_types_roundtrip]); a method makes one call, with its arguments, and returns
    what the contract returned ([generated_method_one_call], [generated_results_roundtrip]);
    events are read back, and waiting for one returns the first wanted one and ends
    ([generated_event_parsed], [generated_wait_first], [generated_wait_ends]); no reader
    panics; names and codes are well formed ([generated_names]); and the templates agree with
    the bindings that [Bindings] translates from the Go files line by line
    ([bindings_agree]).
    Deployment:
    - [OwnershipProps]: an owner changes only with its consent ([ownable_consent]); transfer,
      timelock, acceptance and timelock again, in this order, give every listed contract to
      the proposed owner and change no other ([ownership_handover]), over any framework that
      satisfies [WorldLaws]: an operation without a report runs its handler, one with a report
      answers with it; what failures leave behind ([ownership_failures]) and when nothing is
      sent ([governance_only_reads]); and, of a second acceptance, that an earlier report can
      mask it ([accept_report_masks]).
    - [McmsProps]: what the framework is asked for in a first and in a repeated deployment of
      the governance contracts, exactly ([first_deployment], [repeated_deployment]), what is
      lost when a late check fails ([late_admin_check]), that the reader finds what was
      deployed ([reader_finds_deployment]), and that signers reach the contract
      ([signers_reach_contract]).
    - [LanesProps]: lanes are built exactly when every remote chain has its ramps, and every
      field of both configurations is given by name ([lane_configs_exact]); the signers of a chain, in any order of Go's maps
      ([committee_signers]); what is recorded is found ([recorded_is_found], over any datastore
      that satisfies [DatastoreLaws]); remote selectors, fee aggregators, and the types of
      references that the hand-over of ownership skips ([remote_selectors_exact],
      [fee_aggregator_from_hex], [recorded_types_have_no_owner]).
    - [RolloutProps]: a full deployment never panics, and deploys, initialises and uses each
      contract in order, under any answers ([full_deployment]); the test pools after it find
      what they need ([pools_after_deployment]); curses on the contract, exactly
      ([rmn_curses_exact]), and a curse that is lost when it is put again in one bundle
      ([repeated_curse_is_lost], under [CurseWorldLaws]); connected chains and fee settings, in
      any order of Go's maps ([connected_chains_exact], [fees_exact]). [KindLaws] says that the
      names of contracts are distinct.
    Development environment ([CcvChainProps]): the chain that the factory builds from what a
    full deployment leaves has its contracts, but not the RMN proxy ([chain_from_deployment]);
    connecting a chain makes exactly the calls of its lanes and pools, in order, with the
    arguments spelled out ([post_connect_exact]); the pool of an EVM chain that is chosen
    ([evm_pool_chosen]); a message is paid with the low 64 bits of the fee that was quoted
    ([send_pays_quoted_fee]); a native transfer, down to the transaction that the deployer
    sends, pays 10000000 times what was asked, since the SDK reads its text as lumens
    ([native_transfer_exact], which has the SDK's reading as a parameter); funding and fee
    aggregators ([funding_ends], [fee_aggregators_filled]).
    Wiring ([ChainProps]): a raw configuration is accepted exactly under stated conditions,
    and a relayer that the factory returns is wired as configured, with the manager in its
    invariant.

    ** Bounds and fuel

    Loops of the source that end by a counter are recursions on that counter. The submit
    loop has fuel [submit_fuel], the configured attempts plus two: a turn counts an attempt
    or is the only one that restores, and running out of fuel is a panic, which
    [txm_interleavings_safe] excludes. The three goroutine loops run forever in Go; the
    models take the number of turns as an argument, and the theorems hold for every number.
    The drain of the channel takes at most [batch] transactions more, for every [batch], and
    counts a closed channel as empty: [Close] closes it after the loops have ended. The poll of a restore ends at a deadline: the number of its ticks is
    the call [EPolls]; so is the wait of the deployer for a transaction ([DTicks]), and the
    turns of the poller's goroutine are again an argument. The loop that waits for an event
    has fuel, and [generated_wait_ends] says how much is enough.

    Integers are [Z] with the wrap-around of their Go type written out ([int64], [uint64],
    [uint32]) wherever an operation can leave the range. Durations and times are
    nanoseconds.

    ** What is not modelled

    Logging; the Prometheus and OpenTelemetry back end (the calls are recorded); the bodies
    of the SDK, of the keystore, of RPC nodes and of strkey and XDR coding (parameters);
    goroutine scheduling fairness, so nothing is said on when a loop runs; the multinode pool
    of the framework; the lifecycle calls of the relayer and of the chain, which forward to
    it and to the manager; the texts that the bindings generator prints and the regular
    expressions with which it reads Rust interfaces (the data of the contracts are
    definitions, which were compared with the Go files field by field). Of the
    deployment, the adapters that translate the configurations of aggregators, indexers,
    verifiers, executors and tokens between types of the shared tooling, and the creation of
    test tokens over HTTP; of [ccv/chain], the configuration loader, the provider factory, the
    registration, the modifiers of containers and the nodes' TOML text. The Rust contracts, but
    for what is named above and [decode_invoke_payload], and the test tooling are out of
    scope. *)

From stdpp Require Import base gmap sets list strings pretty.

(** ** Go results

    A Go function that returns [(T, error)] is modelled by a [result T]: either a
    value, or the text its [Error()] method gives ([fmt.Errorf] with a [%w] verb
    concatenates texts, so a wrapped error is a longer text). *)

Inductive result (A : Type) : Type :=
| Ok (a : A)
| Err (e : string).
Arguments Ok {A} a.
Arguments Err {A} e.

#[export] Instance result_ret : MRet result := @Ok.
#[export] Instance result_bind : MBind result := λ A B f m,
  match m with Ok a => f a | Err e => Err e end.
#[export] Instance result_fmap : FMap result := λ A B f m,
  match m with Ok a => Ok (f a) | Err e => Err e end.

Definition is_ok {A} (m : result A) : bool :=
  match m with Ok _ => true | Err _ => false end.

(** [fmt.Errorf("<ctx>: %w", err)]: keep a value, prefix an error's text. *)
Definition wrap_err {A} (ctx : string) (m : result A) : result A :=
  match m with Ok a => Ok a | Err e => Err (ctx +:+ ": " +:+ e) end.

(** A Go [nil]-able value read as a result, with the text of the nil case. *)
Definition of_option {A} (e : string) (o : option A) : result A :=
  match o with Some a => Ok a | None => Err e end.

(** A [for i, x := range l] loop that builds a slice and returns on the first error. *)
Fixpoint imapM_from {A B} (f : nat → A → result B) (i : nat) (l : list A) : result (list B) :=
  match l with
  | [] => Ok []
  | x :: l' =>
      match f i x with
      | Err e => Err e
      | Ok y => match imapM_from f (S i) l' with Err e => Err e | Ok ys => Ok (y :: ys) end
      end
  end.
Definition imapM {A B} (f : nat → A → result B) (l : list A) : result (list B) :=
  imapM_from f 0 l.

(** ** Machine integers

    A [w]-bit Go integer is a [Z]; every operation that can leave the range writes
    out the wrap-around with one of these. *)

Definition uwrap (w z : Z) : Z := z mod 2 ^ w.
Definition swrap (w z : Z) : Z := (z + 2 ^ (w - 1)) mod 2 ^ w - 2 ^ (w - 1).

Definition uint8 (z : Z) : Z := uwrap 8 z.
Definition uint32 (z : Z) : Z := uwrap 32 z.
Definition uint64 (z : Z) : Z := uwrap 64 z.
Definition int32 (z : Z) : Z := swrap 32 z.
Definition int64 (z : Z) : Z := swrap 64 z.

Definition max_uint32 : Z := 4294967295.
Definition min_int64 : Z := -9223372036854775808.
Definition max_int64 : Z := 9223372036854775807.
Definition max_uint64 : Z := 18446744073709551615.

Definition is_uint32 (z : Z) : bool := (0 <=? z)%Z && (z <=? max_uint32)%Z.
Definition is_uint64 (z : Z) : bool := (0 <=? z)%Z && (z <=? max_uint64)%Z.
Definition is_int64 (z : Z) : bool := (min_int64 <=? z)%Z && (z <=? max_int64)%Z.

Definition sum_list_with_Z {A} (f : A → Z) (l : list A) : Z :=
  foldr (λ x acc, (f x + acc)%Z) 0%Z l.

(** ** Pointers

    A Go pointer to a mutable object that several structures share is a [loc], the
    key of that object in an explicit heap. *)

Definition loc : Set := positive.
#[export] Instance loc_eq_dec : EqDecision loc := _.
#[export] Instance loc_countable : Countable loc := _.

(** ** Automation *)

Create HintDb go discriminated.
Create Rewrite HintDb go.
#[export] Hint Constants Opaque : go.
#[export] Hint Variables Transparent : go.

(** Case analysis on every [match] and [if] of a hypothesis or of the goal. *)
Ltac case_step :=
  match goal with
  | H : context [ match ?x with _ => _ end ] |- _ => destruct x eqn:?
  | |- context [ match ?x with _ => _ end ] => destruct x eqn:?
  end.
Ltac case_all := repeat (case_step; simplify_eq/=; try done).

(** Boolean integer tests to propositions. *)
Ltac zbool :=
  repeat match goal with
  | H : (_ <? _)%Z = true |- _ => apply Z.ltb_lt in H
  | H : (_ <? _)%Z = false |- _ => apply Z.ltb_ge in H
  | H : (_ <=? _)%Z = true |- _ => apply Z.leb_le in H
  | H : (_ <=? _)%Z = false |- _ => apply Z.leb_gt in H
  | H : (_ =? _)%Z = true |- _ => apply Z.eqb_eq in H
  | H : (_ =? _)%Z = false |- _ => apply Z.eqb_neq in H
  | H : (_ && _) = true |- _ => apply andb_true_iff in H; destruct H
  end.

(** ** Integer lemmas *)

Section integers.
Local Open Scope Z_scope.

Lemma uwrap_range w z : 0 <= w → 0 <= uwrap w z < 2 ^ w.
Proof. intros Hw. apply Z.mod_pos_bound. lia. Qed.

Lemma uwrap_id w z : 0 <= z < 2 ^ w → uwrap w z = z.
Proof. intros. by apply Z.mod_small. Qed.

Lemma swrap_range w z : 0 < w → - 2 ^ (w - 1) <= swrap w z < 2 ^ (w - 1).
Proof.
  intros Hw. unfold swrap.
  pose proof (Z.mod_pos_bound (z + 2 ^ (w - 1)) (2 ^ w) ltac:(lia)).
  assert (2 ^ w = 2 * 2 ^ (w - 1)) by (rewrite <- Z.pow_succ_r by lia; f_equal; lia).
  lia.
Qed.

Lemma swrap_id w z : 0 < w → - 2 ^ (w - 1) <= z < 2 ^ (w - 1) → swrap w z = z.
Proof.
  intros Hw Hz. unfold swrap.
  assert (2 ^ w = 2 * 2 ^ (w - 1)) by (rewrite <- Z.pow_succ_r by lia; f_equal; lia).
  rewrite Z.mod_small by lia. lia.
Qed.

Lemma is_int64_spec z : is_int64 z = true ↔ - 2 ^ 63 <= z < 2 ^ 63.
Proof. unfold is_int64, min_int64, max_int64. rewrite andb_true_iff. lia. Qed.

Lemma is_uint32_spec z : is_uint32 z = true ↔ 0 <= z < 2 ^ 32.
Proof. unfold is_uint32, max_uint32. rewrite andb_true_iff. lia. Qed.

Lemma is_uint64_spec z : is_uint64 z = true ↔ 0 <= z < 2 ^ 64.
Proof. unfold is_uint64, max_uint64. rewrite andb_true_iff. lia. Qed.

Lemma int64_id z : is_int64 z = true → int64 z = z.
Proof. rewrite is_int64_spec. intros. by apply (swrap_id 64). Qed.

Lemma int64_range z : is_int64 (int64 z) = true.
Proof. apply is_int64_spec, (swrap_range 64). lia. Qed.

Lemma uint32_id z : is_uint32 z = true → uint32 z = z.
Proof. rewrite is_uint32_spec. apply (uwrap_id 32). Qed.

Lemma uint64_id z : is_uint64 z = true → uint64 z = z.
Proof. rewrite is_uint64_spec. apply (uwrap_id 64). Qed.

Lemma uint64_range z : is_uint64 (uint64 z) = true.
Proof. apply is_uint64_spec, (uwrap_range 64). lia. Qed.

Lemma uint32_range z : is_uint32 (uint32 z) = true.
Proof. apply is_uint32_spec, (uwrap_range 32). lia. Qed.

(** Two reinterpretations of the same 64 bits are inverse on an [int64]. *)
Lemma int64_uint64 z : is_int64 z = true → int64 (uint64 z) = z.
Proof.
  rewrite is_int64_spec. intros Hz. unfold int64, uint64, uwrap, swrap.
  rewrite Z.add_mod_idemp_l by lia. by apply (swrap_id 64).
Qed.

Lemma uint64_int64 z : is_uint64 z = true → uint64 (int64 z) = z.
Proof.
  rewrite is_uint64_spec. intros Hz. unfold int64, uint64, uwrap, swrap.
  rewrite Zminus_mod_idemp_l. replace (z + _ - _) with z by lia. by apply Z.mod_small.
Qed.
End integers.

#[export] Hint Resolve int64_range uint64_range uint32_range : go.
#[export] Hint Rewrite int64_uint64 uint64_int64 int64_id uint64_id uint32_id
  using (assumption || done) : go.

(** ** Lemmas on results *)

Lemma bind_Ok {A B} (f : A → result B) m b :
  m ≫= f = Ok b ↔ ∃ a, m = Ok a ∧ f a = Ok b.
Proof. destruct m; simpl; [naive_solver|]. split; [done|]. by intros (? & ? & ?). Qed.

Lemma wrap_err_Ok {A} c (m : result A) a : wrap_err c m = Ok a ↔ m = Ok a.
Proof. by destruct m. Qed.

Lemma of_option_Ok {A} e (o : option A) a : of_option e o = Ok a ↔ o = Some a.
Proof. destruct o; simpl; naive_solver. Qed.

Lemma imapM_from_length {A B} (f : nat → A → result B) i l ys :
  imapM_from f i l = Ok ys → length ys = length l.
Proof.
  revert i ys. induction l as [|x l IH]; intros i ys; simpl; [naive_solver|].
  destruct (f i x); [|done]. destruct (imapM_from f (S i) l) eqn:E; [|done].
  intros [= <-]. simpl. f_equal. eauto.
Qed.

(** A loop succeeds exactly when every iteration does, and collects the results. *)
Lemma imapM_from_Forall2 {A B} (f : nat → A → result B) (R : A → B → Prop) i l ys :
  (∀ j x y, x ∈ l → f j x = Ok y → R x y) →
  imapM_from f i l = Ok ys → Forall2 R l ys.
Proof.
  revert i ys. induction l as [|x l IH]; intros i ys HR; simpl.
  { intros [= <-]. constructor. }
  destruct (f i x) eqn:E; [|done]. destruct (imapM_from f (S i) l) eqn:E'; [|done].
  intros [= <-]. constructor.
  - eapply HR; [|done]. by left.
  - eapply IH; [|done]. intros. eapply HR; [|done]. by right.
Qed.

Lemma imapM_Forall2 {A B} (f : nat → A → result B) (R : A → B → Prop) l ys :
  (∀ j x y, x ∈ l → f j x = Ok y → R x y) →
  imapM f l = Ok ys → Forall2 R l ys.
Proof. apply imapM_from_Forall2. Qed.

Lemma imapM_from_map {A B} (f : nat → A → result B) (g : A → B) i l :
  (∀ j x, x ∈ l → f j x = Ok (g x)) → imapM_from f i l = Ok (g <$> l).
Proof.
  revert i. induction l as [|x l IH]; intros i Hf; simpl; [done|].
  rewrite Hf by (by left). rewrite IH; [done|]. intros. apply Hf. by right.
Qed.
Lemma imapM_from_ok {A B} (f : A → result B) i l :
  (∀ x, x ∈ l → is_ok (f x) = true) → is_ok (imapM_from (λ _, f) i l) = true.
Proof.
  revert i. induction l as [|x l IH]; intros i H; [done|]. cbn [imapM_from].
  pose proof (H x (list_elem_of_here _ _)) as Hx. destruct (f x); [|done].
  assert (is_ok (imapM_from (λ _, f) (S i) l) = true) as Hl by (apply IH; intros y Hy; apply H; by right).
  by destruct (imapM_from _ _ l).
Qed.
Lemma imapM_ok {A B} (f : A → result B) l :
  (∀ x, x ∈ l → is_ok (f x) = true) → is_ok (imapM (λ _, f) l) = true.
Proof. apply imapM_from_ok. Qed.
Lemma imapM_map {A B} (f : nat → A → result B) (g : A → B) l :
  (∀ j x, x ∈ l → f j x = Ok (g x)) → imapM f l = Ok (g <$> l).
Proof. apply imapM_from_map. Qed.

Lemma imapM_from_Forall2_iff {A B} (f : A → result B) i l ys :
  imapM_from (λ _, f) i l = Ok ys ↔ Forall2 (λ x y, f x = Ok y) l ys.
Proof.
  split; [by apply imapM_from_Forall2|]. intros H. revert i.
  induction H as [|x y l ys Hx _ IH]; intros i; [done|]. cbn [imapM_from]. by rewrite Hx, IH.
Qed.
Lemma imapM_Forall2_iff {A B} (f : A → result B) l ys :
  imapM (λ _, f) l = Ok ys ↔ Forall2 (λ x y, f x = Ok y) l ys.
Proof. apply imapM_from_Forall2_iff. Qed.

(** ** Finite sets of integers *)

(** The minimum of a start value and a set, the order of iteration being immaterial. *)
Definition set_min (d : Z) (X : gset Z) : Z := set_fold Z.min d X.

Lemma set_min_le_default d X : (set_min d X <= d)%Z.
Proof.
  unfold set_min. apply (set_fold_ind_L (λ b _, (b <= d)%Z)); [lia|]. intros; lia.
Qed.

Lemma set_min_le d X x : x ∈ X → (set_min d X <= x)%Z.
Proof.
  revert x. unfold set_min.
  apply (set_fold_ind_L (λ b X, ∀ x, x ∈ X → (b <= x)%Z)); [set_solver|].
  intros y Y b Hy IH x. rewrite elem_of_union, elem_of_singleton.
  intros [->|Hx]; [lia|]. specialize (IH x Hx). lia.
Qed.

Lemma set_min_elem d X : set_min d X = d ∨ set_min d X ∈ X.
Proof.
  unfold set_min. apply (set_fold_ind_L (λ b X, b = d ∨ b ∈ X)); [by left|].
  intros y Y b Hy IH. destruct (Z.min_spec y b) as [[_ ->]|[_ ->]]; set_solver.
Qed.
