(* ===== verification/GoStrings.v ===== *)
(** Go's [strings] functions on byte strings, as the modelled code uses them.
    A Go string is a [string] (one [ascii] per byte). *)

From Stdlib Require Import Ascii.
From stdpp Require Import base list strings.
From S2P Require Import Prelude.

(** [strings.ToLower] and the [%q] verb have an ASCII path; a string with other bytes
    goes through the Unicode tables, which are not in the repository. *)
Class UnicodeTables := {
  unicode_ToLower : string → string;
  unicode_Quote : string → string
}.

Section go_strings.
Context {UT : UnicodeTables}.

Definition is_ascii_byte (c : ascii) : bool := (N_of_ascii c <? 128)%N.

Definition lower_byte (c : ascii) : ascii :=
  let n := N_of_ascii c in
  if ((65 <=? n) && (n <=? 90))%N then ascii_of_N (n + 32) else c.

Fixpoint string_forall (p : ascii → bool) (s : string) : bool :=
  match s with
  | EmptyString => true
  | String c s' => p c && string_forall p s'
  end.

Fixpoint string_map (f : ascii → ascii) (s : string) : string :=
  match s with
  | EmptyString => EmptyString
  | String c s' => String (f c) (string_map f s')
  end.

Definition ToLower (s : string) : string :=
  if string_forall is_ascii_byte s then string_map lower_byte s else unicode_ToLower s.

(** The [%q] verb ([strconv.Quote]): printable ASCII is kept, but for the quote and the
    backslash, which are escaped. *)
Definition is_print_byte (c : ascii) : bool :=
  let n := N_of_ascii c in ((32 <=? n) && (n <=? 126))%N.
Definition dquote : ascii := ascii_of_N 34.
Fixpoint quote_body (s : string) : string :=
  match s with
  | EmptyString => EmptyString
  | String c s' =>
      if Ascii.eqb c dquote || Ascii.eqb c "\"%char
      then String "\"%char (String c (quote_body s'))
      else String c (quote_body s')
  end.
Definition Quote (s : string) : string :=
  if string_forall is_print_byte s
  then String dquote (quote_body s +:+ String dquote EmptyString)
  else unicode_Quote s.
End go_strings.

(** [strings.HasPrefix]. *)
Fixpoint HasPrefix (s p : string) : bool :=
  match p, s with
  | EmptyString, _ => true
  | String c p', String d s' => Ascii.eqb c d && HasPrefix s' p'
  | String _ _, EmptyString => false
  end.

(** [strings.Contains]. *)
Fixpoint Contains (s sub : string) : bool :=
  HasPrefix s sub ||
  match s with
  | EmptyString => false
  | String _ s' => Contains s' sub
  end.

Fixpoint string_drop (n : nat) (s : string) : string :=
  match n, s with
  | O, _ => s
  | S n', String _ s' => string_drop n' s'
  | S _, EmptyString => EmptyString
  end.

(** [strings.TrimPrefix]. *)
Definition TrimPrefix (s p : string) : string :=
  if HasPrefix s p then string_drop (String.length p) s else s.

(** [slices.ContainsFunc (strings.Contains s) hints]: the loops over hint lists. *)
Definition contains_any (s : string) (hints : list string) : bool :=
  existsb (Contains s) hints.

(** ** Facts *)

Lemma HasPrefix_spec s p : HasPrefix s p = true ↔ ∃ b, s = p +:+ b.
Proof.
  revert s. induction p as [|c p IH]; intros s; simpl.
  { split; [|by destruct s]. intros _. by exists s. }
  destruct s as [|d s]; [split; [done|by intros [? ?]]|]. simpl.
  rewrite andb_true_iff, Ascii.eqb_eq, IH. split.
  - intros [-> [b ->]]. by exists b.
  - intros [b Heq]. injection Heq as -> ->. split; [done|by exists b].
Qed.

Lemma Contains_spec s sub : Contains s sub = true ↔ ∃ a b, s = a +:+ sub +:+ b.
Proof.
  induction s as [|c s IH]; cbn [Contains]; rewrite orb_true_iff, HasPrefix_spec.
  - split.
    + intros [[b ->]|?]; [by exists "", b | done].
    + intros (a & b & E). left. exists b. by destruct a.
  - rewrite IH. split.
    + intros [[b ->]|(a & b & ->)]; [by exists "", b | by exists (String c a), b].
    + intros ([|x a] & b & E); simpl in E.
      * left. by exists b.
      * right. injection E as _ ->. by exists a, b.
Qed.

Lemma contains_any_spec s hints :
  contains_any s hints = true ↔ ∃ h, h ∈ hints ∧ Contains s h = true.
Proof.
  unfold contains_any. rewrite existsb_exists.
  split; intros (h & Hin & E); exists h; split; try done; by apply list_elem_of_In.
Qed.

Lemma string_drop_app a b : string_drop (String.length a) (a +:+ b) = b.
Proof. induction a; simpl; [by destruct b | done]. Qed.

Lemma TrimPrefix_app p s : TrimPrefix (p +:+ s) p = s.
Proof.
  unfold TrimPrefix. replace (HasPrefix (p +:+ s) p) with true; [apply string_drop_app|].
  symmetry. apply HasPrefix_spec. by exists s.
Qed.

Lemma TrimPrefix_none p s : HasPrefix s p = false → TrimPrefix s p = s.
Proof. unfold TrimPrefix. by intros ->. Qed.

Lemma string_forall_app p a b : string_forall p (a +:+ b) = string_forall p a && string_forall p b.
Proof. induction a as [|c a IH]; simpl; [done|]. by rewrite IH, andb_assoc. Qed.

(** No upper-case letter is left in a lower-cased ASCII text. *)
Definition not_upper (c : ascii) : bool :=
  negb ((65 <=? N_of_ascii c) && (N_of_ascii c <=? 90))%N.

Lemma lower_byte_not_upper c : not_upper (lower_byte c) = true.
Proof.
  unfold lower_byte. destruct ((65 <=? N_of_ascii c) && (N_of_ascii c <=? 90))%N eqn:E.
  - unfold not_upper. apply andb_true_iff in E as [E1 E2]. apply N.leb_le in E1, E2.
    rewrite N_ascii_embedding by lia.
    replace (N_of_ascii c + 32 <=? 90)%N with false; [by rewrite andb_false_r|].
    symmetry. apply N.leb_gt. lia.
  - unfold not_upper. by rewrite E.
Qed.

Lemma ToLower_no_upper `{UnicodeTables} s :
  string_forall is_ascii_byte s = true → string_forall not_upper (ToLower s) = true.
Proof.
  intros Hs. unfold ToLower. rewrite Hs. clear Hs. induction s as [|c s IH]; simpl; [done|].
  by rewrite lower_byte_not_upper.
Qed.
