(* ===== verification/Config.v ===== *)
(** The transaction manager's configuration: src/relayer/txm/config.go.

    [Config] has the pointer fields of the Go struct ([None] is a nil pointer),
    [Resolve] fills them, [deref_config] is the reading [*cfg.F] the rest of the
    manager does of every field (a nil field is a panic, [None]). *)

From Stdlib Require Import SpecFloat.
From stdpp Require Import base gmap list strings.
From S2P Require Import Prelude GoStrings.

Module Config.
Local Open Scope Z_scope.

(** Durations are nanoseconds. *)
Definition Millisecond : Z := 1000000.
Definition Second : Z := 1000000000.
Definition Minute : Z := 60 * Second.
Definition Hour : Z := 60 * Minute.

Definition builtinSimulationTerminalHints : list string :=
  ["error(contract"; "contract error"; "trapped"; "trap"; "malformed"; "bad auth";
   "invalid"; "unknown function"; "no such contract"].

Definition builtinSimulationRetryableHints : list string :=
  ["timeout"; "temporarily unavailable"; "try_again_later"; "too many requests";
   "rate limit"; "connection refused"; "connection reset"; "eof"; "bad_seq";
   "tx_bad_seq"; "sequence"; "stale"; "ledger"].

Record Config := mkConfig {
  BroadcastChanSize : option Z;
  ConfirmPollInterval : option Z;
  BaseInclusionFee : option Z;
  MaxInclusionFee : option Z;
  FeeBumpMultiplier : option spec_float;
  ResourceFeeBuffer : option Z;
  RestoreFeeBuffer : option Z;
  FeeStatsPollInterval : option Z;
  MaxSimulateAttempts : option Z;
  MaxSubmitRetryAttempts : option Z;
  SubmitRetryDelay : option Z;
  TxTimeoutSecs : option Z;
  LedgerBoundsOffset : option Z;
  MaxTxRetryAttempts : option Z;
  MaxGetClientRetryAttempts : option Z;
  MaxRestoreAttempts : option Z;
  SimulationTerminalHints : list string;
  SimulationRetryableHints : list string;
  PruneInterval : option Z;
  PruneTxExpiration : option Z
}.

(** The float64 constant 1.5. *)
Definition f64_1_5 : spec_float := S754_finite false 6755399441055744 (-52).

Definition DefaultConfigSet : Config := {|
  BroadcastChanSize := Some 100;
  ConfirmPollInterval := Some (3 * Second);
  BaseInclusionFee := Some 100;
  MaxInclusionFee := Some 100000;
  FeeBumpMultiplier := Some f64_1_5;
  ResourceFeeBuffer := Some 15000;
  RestoreFeeBuffer := Some 10000;
  FeeStatsPollInterval := Some (5 * Second);
  MaxSimulateAttempts := Some 3;
  MaxSubmitRetryAttempts := Some 10;
  SubmitRetryDelay := Some (3 * Second);
  TxTimeoutSecs := Some 300;
  LedgerBoundsOffset := Some 50;
  MaxTxRetryAttempts := Some 5;
  MaxGetClientRetryAttempts := Some 10;
  MaxRestoreAttempts := Some 3;
  SimulationTerminalHints := [];
  SimulationRetryableHints := [];
  PruneInterval := Some (10 * Minute);
  PruneTxExpiration := Some (2 * Hour)
|}.

(** One of the two dedup loops: [seen] and [out] are the loop's variables. *)
Fixpoint merge_loop (hs : list string) (seen : gset string) (out : list string)
  : gset string * list string :=
  match hs with
  | [] => (seen, out)
  | h :: hs' =>
      if decide (h ∈ seen) then merge_loop hs' seen out
      else merge_loop hs' ({[h]} ∪ seen) (out ++ [h])
  end.

Definition mergeSimulationHintLists (builtin extra : list string) : list string :=
  match extra with
  | [] => builtin
  | _ =>
      let '(seen, out) := merge_loop builtin ∅ [] in
      snd (merge_loop extra seen out)
  end.

(** [if c.F == nil { c.F = ptr( *DefaultConfigSet.F ) }]. *)
Definition fill {A} (o d : option A) : option A :=
  match o with Some v => Some v | None => d end.

Definition Resolve (c : Config) : Config := {|
  BroadcastChanSize := fill (BroadcastChanSize c) (BroadcastChanSize DefaultConfigSet);
  ConfirmPollInterval := fill (ConfirmPollInterval c) (ConfirmPollInterval DefaultConfigSet);
  BaseInclusionFee := fill (BaseInclusionFee c) (BaseInclusionFee DefaultConfigSet);
  MaxInclusionFee := fill (MaxInclusionFee c) (MaxInclusionFee DefaultConfigSet);
  FeeBumpMultiplier := fill (FeeBumpMultiplier c) (FeeBumpMultiplier DefaultConfigSet);
  ResourceFeeBuffer := fill (ResourceFeeBuffer c) (ResourceFeeBuffer DefaultConfigSet);
  RestoreFeeBuffer := fill (RestoreFeeBuffer c) (RestoreFeeBuffer DefaultConfigSet);
  FeeStatsPollInterval := fill (FeeStatsPollInterval c) (FeeStatsPollInterval DefaultConfigSet);
  MaxSimulateAttempts := fill (MaxSimulateAttempts c) (MaxSimulateAttempts DefaultConfigSet);
  MaxSubmitRetryAttempts :=
    fill (MaxSubmitRetryAttempts c) (MaxSubmitRetryAttempts DefaultConfigSet);
  SubmitRetryDelay := fill (SubmitRetryDelay c) (SubmitRetryDelay DefaultConfigSet);
  TxTimeoutSecs := fill (TxTimeoutSecs c) (TxTimeoutSecs DefaultConfigSet);
  LedgerBoundsOffset := fill (LedgerBoundsOffset c) (LedgerBoundsOffset DefaultConfigSet);
  MaxTxRetryAttempts := fill (MaxTxRetryAttempts c) (MaxTxRetryAttempts DefaultConfigSet);
  MaxGetClientRetryAttempts :=
    fill (MaxGetClientRetryAttempts c) (MaxGetClientRetryAttempts DefaultConfigSet);
  MaxRestoreAttempts := fill (MaxRestoreAttempts c) (MaxRestoreAttempts DefaultConfigSet);
  SimulationTerminalHints :=
    mergeSimulationHintLists builtinSimulationTerminalHints (SimulationTerminalHints c);
  SimulationRetryableHints :=
    mergeSimulationHintLists builtinSimulationRetryableHints (SimulationRetryableHints c);
  PruneInterval := fill (PruneInterval c) (PruneInterval DefaultConfigSet);
  PruneTxExpiration := fill (PruneTxExpiration c) (PruneTxExpiration DefaultConfigSet)
|}.

(** The values the manager reads with [*cfg.F]. *)
Record Resolved := mkResolved {
  broadcastChanSize : Z;
  confirmPollInterval : Z;
  baseInclusionFee : Z;
  maxInclusionFee : Z;
  feeBumpMultiplier : spec_float;
  resourceFeeBuffer : Z;
  restoreFeeBuffer : Z;
  feeStatsPollInterval : Z;
  maxSimulateAttempts : Z;
  maxSubmitRetryAttempts : Z;
  submitRetryDelay : Z;
  txTimeoutSecs : Z;
  ledgerBoundsOffset : Z;
  maxTxRetryAttempts : Z;
  maxGetClientRetryAttempts : Z;
  maxRestoreAttempts : Z;
  simulationTerminalHints : list string;
  simulationRetryableHints : list string;
  pruneInterval : Z;
  pruneTxExpiration : Z
}.

Definition deref_config (c : Config) : option Resolved :=
  a ← BroadcastChanSize c; b ← ConfirmPollInterval c; d ← BaseInclusionFee c;
  e ← MaxInclusionFee c; f ← FeeBumpMultiplier c; g ← ResourceFeeBuffer c;
  h ← RestoreFeeBuffer c; i ← FeeStatsPollInterval c; j ← MaxSimulateAttempts c;
  k ← MaxSubmitRetryAttempts c; l ← SubmitRetryDelay c; m ← TxTimeoutSecs c;
  n ← LedgerBoundsOffset c; o ← MaxTxRetryAttempts c; p ← MaxGetClientRetryAttempts c;
  q ← MaxRestoreAttempts c; r ← PruneInterval c; s ← PruneTxExpiration c;
  Some (mkResolved a b d e f g h i j k l m n o p q
          (SimulationTerminalHints c) (SimulationRetryableHints c) r s).

(** ** Facts *)

Lemma merge_loop_app hs hs' seen out :
  merge_loop (hs ++ hs') seen out =
  let '(seen', out') := merge_loop hs seen out in merge_loop hs' seen' out'.
Proof.
  revert seen out. induction hs as [|h hs IH]; intros seen out; simpl; [done|].
  case_decide; apply IH.
Qed.

(** The loop invariant: [seen] is the set of [out], [out] has no duplicate and is the
    old [out] followed by the new hints in their order of first occurrence. *)
Lemma merge_loop_spec hs seen out :
  seen = list_to_set out → NoDup out →
  let r := merge_loop hs seen out in
  fst r = list_to_set (snd r) ∧ NoDup (snd r) ∧
  (∀ h, h ∈ snd r ↔ h ∈ out ∨ h ∈ hs) ∧
  (∃ tl, snd r = out ++ tl ∧ sublist tl hs).
Proof.
  revert seen out. induction hs as [|h hs IH]; intros seen out Hs Hnd; simpl.
  { split_and!; [done|done|set_solver|]. exists []. by rewrite app_nil_r. }
  case_decide as Hin.
  - destruct (IH seen out Hs Hnd) as (H1 & H2 & H3 & tl & H4 & H5).
    split_and!; [done|done| |].
    + intros h'. rewrite H3. subst seen. set_solver.
    + exists tl. split; [done|]. by apply sublist_cons.
  - destruct (IH ({[h]} ∪ seen) (out ++ [h])) as (H1 & H2 & H3 & tl & H4 & H5).
    + subst seen. rewrite list_to_set_app_L. set_solver.
    + apply NoDup_app. split_and!; [done| |apply NoDup_singleton]. subst seen. set_solver.
    + split_and!; [done|done| |].
      * intros h'. rewrite H3. set_solver.
      * exists (h :: tl). split; [by rewrite H4, <- app_assoc|]. by apply sublist_skip.
Qed.

Lemma merge_loop_fresh hs out :
  NoDup (out ++ hs) →
  merge_loop hs (list_to_set out) out = (list_to_set (out ++ hs), out ++ hs).
Proof.
  revert out. induction hs as [|h hs IH]; intros out Hnd; simpl.
  { by rewrite app_nil_r. }
  assert (h ∉ out) as Hh.
  { intros Hin. apply NoDup_app in Hnd as (_ & Hd & _). apply (Hd h Hin). by left. }
  rewrite decide_False by set_solver.
  replace ({[h]} ∪ list_to_set out : gset string) with (list_to_set (out ++ [h]) : gset string)
    by (rewrite list_to_set_app_L; set_solver).
  rewrite IH, <- app_assoc; [done|]. by rewrite <- app_assoc.
Qed.

Lemma merge_loop_fresh_nil hs : NoDup hs → merge_loop hs ∅ [] = (list_to_set hs, hs).
Proof. apply (merge_loop_fresh hs []). Qed.

Lemma merge_loop_seen hs seen out :
  (∀ h, h ∈ hs → h ∈ seen) → merge_loop hs seen out = (seen, out).
Proof.
  intros Hx. induction hs as [|x hs IH]; simpl; [done|].
  rewrite decide_True by (apply Hx; by left). apply IH. intros. apply Hx. by right.
Qed.

(** With duplicate-free built-ins, as the two in the code are, the merge is the
    built-ins followed by a duplicate-free selection of the new hints. *)
Lemma merge_spec builtin extra :
  NoDup builtin →
  let out := mergeSimulationHintLists builtin extra in
  NoDup out ∧ (∀ h, h ∈ out ↔ h ∈ builtin ∨ h ∈ extra) ∧
  ∃ tl, out = builtin ++ tl ∧ sublist tl extra.
Proof.
  intros Hnd. unfold mergeSimulationHintLists.
  pose proof (merge_loop_fresh_nil builtin Hnd) as Hb.
  destruct extra as [|e extra].
  { split_and!; [done|set_solver|]. exists []. by rewrite app_nil_r. }
  rewrite Hb.
  destruct (merge_loop_spec (e :: extra) (list_to_set builtin) builtin eq_refl Hnd)
    as (_ & H2 & H3 & H4). done.
Qed.

Lemma merge_idemp builtin extra :
  NoDup builtin →
  mergeSimulationHintLists builtin (mergeSimulationHintLists builtin extra) =
  mergeSimulationHintLists builtin extra.
Proof.
  intros Hnd. destruct (merge_spec builtin extra Hnd) as (Hnd' & _ & tl & Hout & _).
  rewrite Hout in *. destruct (builtin ++ tl) as [|h l] eqn:E.
  { destruct builtin; done. }
  unfold mergeSimulationHintLists. rewrite <- E, merge_loop_fresh_nil by done. cbn.
  rewrite merge_loop_app, merge_loop_seen by set_solver.
  rewrite merge_loop_fresh by (by rewrite E). done.
Qed.

Lemma builtin_terminal_NoDup : NoDup builtinSimulationTerminalHints.
Proof. apply (bool_decide_unpack _). by vm_compute. Qed.
Lemma builtin_retryable_NoDup : NoDup builtinSimulationRetryableHints.
Proof. apply (bool_decide_unpack _). by vm_compute. Qed.

Lemma fill_Some {A} (o : option A) d : fill o (Some d) = Some (default d o).
Proof. by destruct o. Qed.
Lemma fill_idemp {A} (o d : option A) : fill (fill o d) d = fill o d.
Proof. by destruct o, d. Qed.
End Config.

Module ConfigProps.
Import Config.

(** [Resolve] leaves no nil field: every [*cfg.F] the manager does afterwards is
    defined, and each value read is the user's when it was set and the default's
    otherwise; the hint lists read are duplicate-free, begin with the built-ins and
    hold exactly the built-in and the user's hints. *)
Theorem Resolve_complete c :
  ∃ r, deref_config (Resolve c) = Some r ∧
    broadcastChanSize r = default 100%Z (BroadcastChanSize c) ∧
    maxInclusionFee r = default 100000%Z (MaxInclusionFee c) ∧
    feeBumpMultiplier r = default f64_1_5 (FeeBumpMultiplier c) ∧
    maxSubmitRetryAttempts r = default 10%Z (MaxSubmitRetryAttempts c) ∧
    maxSimulateAttempts r = default 3%Z (MaxSimulateAttempts c) ∧
    maxTxRetryAttempts r = default 5%Z (MaxTxRetryAttempts c) ∧
    pruneInterval r = default 600000000000%Z (PruneInterval c) ∧
    (∀ h, h ∈ simulationTerminalHints r ↔
       h ∈ builtinSimulationTerminalHints ∨ h ∈ SimulationTerminalHints c) ∧
    (∀ h, h ∈ simulationRetryableHints r ↔
       h ∈ builtinSimulationRetryableHints ∨ h ∈ SimulationRetryableHints c) ∧
    NoDup (simulationTerminalHints r) ∧ NoDup (simulationRetryableHints r).
Proof.
  unfold deref_config, Resolve. cbn -[mergeSimulationHintLists].
  rewrite !fill_Some. cbn -[mergeSimulationHintLists]. eexists; split; [done|].
  destruct (merge_spec _ (SimulationTerminalHints c) builtin_terminal_NoDup) as (? & ? & _).
  destruct (merge_spec _ (SimulationRetryableHints c) builtin_retryable_NoDup) as (? & ? & _).
  by split_and!.
Qed.

(** Resolving twice is resolving once: a [Config] that went through
    [Resolve] is a fixed point (no default is re-applied, no hint is duplicated). *)
Theorem Resolve_idempotent c : Resolve (Resolve c) = Resolve c.
Proof.
  unfold Resolve at 1. cbn [BroadcastChanSize ConfirmPollInterval BaseInclusionFee
    MaxInclusionFee FeeBumpMultiplier ResourceFeeBuffer RestoreFeeBuffer FeeStatsPollInterval
    MaxSimulateAttempts MaxSubmitRetryAttempts SubmitRetryDelay TxTimeoutSecs
    LedgerBoundsOffset MaxTxRetryAttempts MaxGetClientRetryAttempts MaxRestoreAttempts
    SimulationTerminalHints SimulationRetryableHints PruneInterval PruneTxExpiration Resolve].
  rewrite !merge_idemp by (apply builtin_terminal_NoDup || apply builtin_retryable_NoDup).
  rewrite !fill_idemp. reflexivity.
Qed.
End ConfigProps.
