(* ===== verification/Float.v ===== *)
(** Go's [float64] and the [math] functions the fee schedule uses, on the binary64
    operations of [SpecFloat] (round to nearest, ties to even). *)

From Stdlib Require Import SpecFloat ZArith Lia.
From stdpp Require Import base numbers.
From S2P Require Import Prelude.

Local Open Scope Z_scope.

(** The conversion of a float64 that does not fit an int64 "is implementation-dependent"
    (Go specification, conversions): what a platform gives is a parameter. *)
Class FloatConv := { f64_out_of_range : spec_float → Z }.

(** [float64(z)] of an integer. *)
Definition f64_of_Z (z : Z) : spec_float := binary_normalize 53 1024 z 0 false.

Definition f64_mul : spec_float → spec_float → spec_float := SFmul 53 1024.
Definition f64_one : spec_float := S754_finite false 4503599627370496 (-52).
Definition f64_half : spec_float := S754_finite false 4503599627370496 (-53).

(** The integer part of a finite float, towards zero. *)
Definition f64_trunc (f : spec_float) : option Z :=
  match f with
  | S754_zero _ => Some 0
  | S754_finite s m e =>
      let a := if 0 <=? e then Zpos m * 2 ^ e else Zpos m / 2 ^ (- e) in
      Some (if s then - a else a)
  | _ => None
  end.

(** [int64(f)]. *)
Definition f64_to_int64 `{FloatConv} (f : spec_float) : Z :=
  match f64_trunc f with
  | Some z => if is_int64 z then z else int64 (f64_out_of_range f)
  | None => int64 (f64_out_of_range f)
  end.

(** [math.Ceil]. *)
Definition Ceil (f : spec_float) : spec_float :=
  match f with
  | S754_finite s m e =>
      if 0 <=? e then f
      else
        let n := if s then Zneg m else Zpos m in
        binary_normalize 53 1024 (- ((- n) / 2 ^ (- e))) 0 s
  | _ => f
  end.

(** The loop of [math.Pow] for an integral exponent: [i] is the remaining exponent,
    [x1 * 2^xe] the current square, [a1 * 2^ae] the answer so far. [i] halves at each
    turn, so its bit length is enough fuel. *)
Fixpoint pow_loop (fuel : nat) (i : Z) (x1 : spec_float) (xe : Z) (a1 : spec_float) (ae : Z)
  : spec_float * Z :=
  match fuel with
  | O => (a1, ae)
  | S fuel' =>
      if i =? 0 then (a1, ae)
      else if (xe <? -4096) || (4096 <? xe) then (a1, ae + xe)
      else
        let '(a1, ae) := if Z.odd i then (f64_mul a1 x1, ae + xe) else (a1, ae) in
        let x1 := f64_mul x1 x1 in
        let xe := 2 * xe in
        if SFltb x1 f64_half
        then pow_loop fuel' (Z.shiftr i 1) (SFadd 53 1024 x1 x1) (xe - 1) a1 ae
        else pow_loop fuel' (Z.shiftr i 1) x1 xe a1 ae
  end.

(** [math.Pow(x, float64(y))] for an unsigned integer [y]: the cases of the special
    values first, in the order of the Go source. *)
Definition Pow_uint (x : spec_float) (y : Z) : spec_float :=
  let yf := f64_of_Z y in
  let yi := default 0 (f64_trunc yf) in
  if (yi =? 0) || SFeqb x f64_one then f64_one
  else if yi =? 1 then x
  else match x with
  | S754_nan => S754_nan
  | S754_zero s => S754_zero (s && (yi <? 2 ^ 53) && Z.odd yi)
  | S754_infinity s => S754_infinity (s && (yi <? 2 ^ 53) && Z.odd yi)
  | S754_finite s m e =>
      if 2 ^ 63 <=? yi then
        if SFeqb x (SFopp f64_one) then f64_one
        else if SFltb (SFabs x) f64_one then S754_zero false
        else S754_infinity false
      else
        let '(x1, xe) := SFfrexp 53 1024 x in
        let '(a1, ae) := pow_loop 64 yi x1 xe f64_one 0 in
        SFldexp 53 1024 a1 ae
  end.

(** ** Exact cases

    [norm q e] is the binary64 number [q * 2^e] for a [q] of at most 53 bits. *)

Definition digits (p : positive) : Z := Zpos (digits2_pos p).
Definition shiftl_pos (p : positive) (n : Z) : positive := Z.to_pos (Zpos p * 2 ^ n).
Definition norm (q : positive) (e : Z) : spec_float :=
  S754_finite false (shiftl_pos q (53 - digits q)) (e - (53 - digits q)).

Lemma digits_log2 p : digits p = Z.log2 (Zpos p) + 1.
Proof.
  unfold digits. induction p as [p IH|p IH|]; simpl digits2_pos; [| |done].
  - rewrite Pos2Z.inj_succ, IH.
    replace (Zpos p~1) with (2 * Zpos p + 1) by lia. rewrite Z.log2_succ_double by lia. lia.
  - rewrite Pos2Z.inj_succ, IH.
    replace (Zpos p~0) with (2 * Zpos p) by lia. rewrite Z.log2_double by lia. lia.
Qed.

Lemma digits_bounds p : 2 ^ (digits p - 1) <= Zpos p < 2 ^ digits p ∧ 0 < digits p.
Proof.
  rewrite digits_log2. pose proof (Z.log2_nonneg (Zpos p)).
  replace (Z.log2 (Zpos p) + 1 - 1) with (Z.log2 (Zpos p)) by lia.
  pose proof (Z.log2_spec (Zpos p) ltac:(lia)) as Hs. rewrite Z.add_1_r. lia.
Qed.

Lemma digits_le p n : 0 <= n → Zpos p < 2 ^ n → digits p <= n.
Proof. intros Hn Hp. rewrite digits_log2. apply Z.log2_lt_pow2 in Hp; lia. Qed.

Lemma shiftl_pos_Z p n : 0 <= n → Zpos (shiftl_pos p n) = Zpos p * 2 ^ n.
Proof. intros. unfold shiftl_pos. rewrite Z2Pos.id; [done|]. pose proof (Z.pow_pos_nonneg 2 n). nia. Qed.

Lemma digits_shiftl p n : 0 <= n → digits (shiftl_pos p n) = digits p + n.
Proof.
  intros Hn. rewrite !digits_log2, shiftl_pos_Z by done.
  rewrite Z.log2_mul_pow2 by lia. lia.
Qed.

Lemma iter_pos_iter {A} (f : A → A) n x : SpecFloat.iter_pos f n x = Pos.iter f x n.
Proof.
  revert x. induction n as [n IH|n IH|]; intros x; simpl; rewrite ?IH; [|done|done].
  by rewrite <- !Pos.iter_swap.
Qed.

Lemma iter_xO p d : Zpos (Pos.iter xO p d) = Zpos p * 2 ^ Zpos d.
Proof.
  revert p. induction d as [|d IH] using Pos.peano_ind; intros p; [simpl; lia|].
  rewrite Pos.iter_succ, Pos2Z.inj_xO, IH, Pos2Z.inj_succ, Z.pow_succ_r; lia.
Qed.

(** Shifting a multiple of [2^n] right by [n] loses nothing. *)
Lemma shr_iter_exact q n :
  Pos.iter shr_1 (Build_shr_record (Zpos (shiftl_pos q (Zpos n))) false false) n =
  Build_shr_record (Zpos q) false false.
Proof.
  revert q. induction n as [|n IH] using Pos.peano_ind; intros q.
  { simpl. replace (shiftl_pos q 1) with (q~0)%positive; [done|].
    apply Pos2Z.inj. rewrite shiftl_pos_Z by lia. lia. }
  rewrite <- Pos.add_1_l, Pos.add_comm, Pos.iter_add. cbn [Pos.iter].
  replace (shr_1 _) with (Build_shr_record (Zpos (shiftl_pos q (Zpos n))) false false).
  - apply IH.
  - replace (shiftl_pos q (Zpos (n + 1))) with ((shiftl_pos q (Zpos n))~0)%positive; [done|].
    apply Pos2Z.inj. rewrite Pos2Z.inj_xO, !shiftl_pos_Z by lia.
    rewrite Pos2Z.inj_add, Z.pow_add_r by lia. lia.
Qed.

Lemma shr_exact q e n :
  0 <= n →
  shr (Build_shr_record (Zpos (shiftl_pos q n)) false false) e n =
  (Build_shr_record (Zpos q) false false, e + n).
Proof.
  intros Hn. destruct n as [|n|n]; [|..|lia]; simpl.
  - f_equal; [|lia]. do 2 f_equal. apply Pos2Z.inj. rewrite shiftl_pos_Z; lia.
  - by rewrite iter_pos_iter, shr_iter_exact.
Qed.

(** Rounding [q * 2^k] at exponent [e] is exact when [q] has at most 53 bits, the
    product at least 53, and the exponent is that of a normal number. *)
Lemma round_exact q k e :
  digits q <= 53 <= digits q + k → -1021 <= digits q + k + e <= 1024 →
  binary_round_aux 53 1024 false (Zpos (shiftl_pos q k)) e loc_Exact = norm q (e + k).
Proof.
  intros Hq He. pose proof (proj2 (digits_bounds q)) as Hd.
  set (n := digits q + k - 53). set (q' := shiftl_pos q (53 - digits q)).
  assert (shiftl_pos q k = shiftl_pos q' n) as ->.
  { apply Pos2Z.inj. unfold q', n. rewrite !shiftl_pos_Z by lia.
    rewrite <- Z.mul_assoc, <- Z.pow_add_r by lia. do 2 f_equal. lia. }
  assert (digits q' = 53) as Hq' by (unfold q'; rewrite digits_shiftl; lia).
  unfold binary_round_aux, shr_fexp. cbn [shr_record_of_loc].
  assert (∀ p, Zdigits2 (Zpos p) = digits p) as Hdig by done.
  rewrite Hdig, digits_shiftl, Hq' by lia.
  unfold fexp, emin.
  replace (Z.max _ _ - e) with n by lia. rewrite shr_exact by lia.
  cbn [shr_m loc_of_shr_record round_nearest_even]. rewrite Hdig, Hq'.
  replace (Z.max _ _ - _) with 0 by lia. cbn [shr shr_m].
  rewrite (proj2 (Z.leb_le _ _)) by lia.
  unfold norm. fold q'. f_equal. unfold n. lia.
Qed.

Lemma f64_of_pos q : Zpos q < 2 ^ 53 → f64_of_Z (Zpos q) = norm q 0.
Proof.
  intros Hq. apply digits_le in Hq; [|lia]. pose proof (proj2 (digits_bounds q)).
  unfold f64_of_Z, binary_normalize, binary_round.
  fold (digits q).
  assert (shl_align q 0 (fexp 53 1024 (digits q + 0)) =
          (shiftl_pos q (53 - digits q), digits q - 53)) as ->.
  { unfold shl_align, fexp, emin.
    replace (Z.max _ _ - 0) with (digits q - 53) by lia.
    replace (Z.max _ _) with (digits q - 53) by lia.
    destruct (digits q - 53) eqn:E; [|lia|].
    - replace (53 - digits q) with 0 by lia. f_equal. apply Pos2Z.inj.
      rewrite shiftl_pos_Z by lia. lia.
    - f_equal. apply Pos2Z.inj. rewrite iter_xO, shiftl_pos_Z by lia. do 2 f_equal. lia. }
  rewrite round_exact by lia. f_equal. lia.
Qed.

Lemma norm_ceil q e : e < 0 → digits q <= 53 → - 1000 < e →
  Ceil (norm q e) = f64_of_Z (- ((- Zpos q) / 2 ^ (- e))).
Proof.
  intros He Hd ?. unfold Ceil, norm. rewrite (proj2 (Z.leb_gt _ _)) by lia.
  unfold f64_of_Z. f_equal. f_equal. rewrite shiftl_pos_Z by lia.
  replace (- (e - (53 - digits q))) with (- e + (53 - digits q)) by lia.
  rewrite Z.pow_add_r by lia. rewrite <- Z.mul_opp_l.
  apply Z.div_mul_cancel_r; lia.
Qed.

Lemma f64_to_int64_of_Z `{FloatConv} z : 0 < z < 2 ^ 53 → f64_to_int64 (f64_of_Z z) = z.
Proof.
  intros Hz. destruct z as [|q|q]; [lia| |lia]. rewrite f64_of_pos by lia.
  assert (digits q <= 53) by (apply digits_le; lia).
  assert (f64_trunc (norm q 0) = Some (Zpos q)) as E.
  { unfold f64_trunc, norm. pose proof (proj2 (digits_bounds q)).
    rewrite shiftl_pos_Z by lia. destruct (0 <=? _) eqn:E; zbool.
    - replace (0 - (53 - digits q)) with 0 by lia.
      replace (53 - digits q) with 0 by lia. f_equal. lia.
    - replace (- (0 - (53 - digits q))) with (53 - digits q) by lia.
      rewrite Z.div_mul by lia. done. }
  unfold f64_to_int64. rewrite E.
  replace (is_int64 (Zpos q)) with true; [done|]. symmetry. apply is_int64_spec. lia.
Qed.
