(* ===== verification/Fee.v ===== *)
(** Fee strategy: src/relayer/txm/fee.go; in the module [FeeTracker], the cache of fee
    statistics: src/relayer/txm/fee_tracker.go. Fees are int64 stroops. *)

From Stdlib Require Import SpecFloat Sorted ZArith Lia.
From stdpp Require Import base list numbers strings.
From S2P Require Import Prelude GoStrings Config Float.

Module Fee.
Import Config.
Local Open Scope Z_scope.

Record FeeStrategy := mkFeeStrategy {
  fsBaseInclusionFee : Z;
  fsMaxInclusionFee : Z;
  fsBumpMultiplier : spec_float;
  fsResourceFeeBuffer : Z
}.

Definition NewFeeStrategyFromConfig (cfg : Resolved) : FeeStrategy := {|
  fsBaseInclusionFee := baseInclusionFee cfg;
  fsMaxInclusionFee := maxInclusionFee cfg;
  fsBumpMultiplier := feeBumpMultiplier cfg;
  fsResourceFeeBuffer := resourceFeeBuffer cfg
|}.

Section fee.
Context {FC : FloatConv}.

Definition InclusionFee (f : FeeStrategy) (attempt : Z) : Z :=
  if attempt =? 0 then fsBaseInclusionFee f
  else
    let fee := f64_mul (f64_of_Z (fsBaseInclusionFee f))
                       (Pow_uint (fsBumpMultiplier f) attempt) in
    let result := f64_to_int64 (Ceil fee) in
    if fsMaxInclusionFee f <? result then fsMaxInclusionFee f else result.

Definition Calculate (f : FeeStrategy) (minResourceFee attempt : Z) : Z :=
  let inclusionFee := InclusionFee f attempt in
  let resourceFee := int64 (minResourceFee + fsResourceFeeBuffer f) in
  int64 (inclusionFee + resourceFee).

Definition CalculateRestoreFee (preambleMinResourceFee restoreFeeBuffer : Z) : Z :=
  int64 (preambleMinResourceFee + restoreFeeBuffer).

Definition SeedInclusionFee (f : FeeStrategy) (attempt networkPercentile : Z) : Z * bool :=
  let fee := InclusionFee f attempt in
  let networkFee := int64 networkPercentile in
  let fee := if fee <? networkFee then networkFee else fee in
  if fsMaxInclusionFee f <? fee then (fsMaxInclusionFee f, true) else (fee, false).

Definition BumpInclusionFee (f : FeeStrategy) (currentInclusionFee networkPercentile : Z)
  : Z * bool :=
  let bumped := f64_to_int64 (Ceil (f64_mul (f64_of_Z currentInclusionFee)
                                            (fsBumpMultiplier f))) in
  let networkFee := int64 networkPercentile in
  let bumped := if bumped <? networkFee then networkFee else bumped in
  if fsMaxInclusionFee f <? bumped then (fsMaxInclusionFee f, true) else (bumped, false).

(** The bids of one broadcast: each rejection for an insufficient fee bumps the
    current bid with the P90 read at that moment. *)
Fixpoint bump_all (f : FeeStrategy) (cur : Z) (p90s : list Z) : Z :=
  match p90s with
  | [] => cur
  | p :: ps => bump_all f (fst (BumpInclusionFee f cur p)) ps
  end.

(** ** Facts *)

Lemma Seed_spec f a p :
  SeedInclusionFee f a p =
  (Z.min (fsMaxInclusionFee f) (Z.max (InclusionFee f a) (int64 p)),
   fsMaxInclusionFee f <? Z.max (InclusionFee f a) (int64 p)).
Proof.
  unfold SeedInclusionFee. set (i := InclusionFee f a). set (n := int64 p).
  replace (if i <? n then n else i) with (Z.max i n) by (destruct (i <? n) eqn:?; zbool; lia).
  destruct (_ <? Z.max i n) eqn:?; zbool; f_equal; lia.
Qed.

(** [ceil(3z/2)], what a bump by 1.5 makes of a fee [z]. *)
Definition ceil_3_2 (z : Z) : Z := (3 * z + 1) / 2.

Lemma mul_1_5_exact q :
  Zpos q < 2 ^ 51 →
  f64_mul (f64_of_Z (Zpos q)) f64_1_5 = norm (3 * q) (-1).
Proof.
  intros Hq. rewrite f64_of_pos by lia.
  assert (digits q <= 51) by (apply digits_le; lia).
  assert (digits (3 * q) <= 53) by (apply digits_le; lia).
  pose proof (digits_bounds q). pose proof (digits_bounds (3 * q)).
  assert (digits q < digits (3 * q)).
  { assert (digits q - 1 < digits (3 * q) - 1); [|lia].
    rewrite !digits_log2. replace (Z.log2 (Zpos q) + 1 - 1) with (Z.log2 (Zpos q)) by lia.
    enough (Z.log2 (Zpos q) + 1 <= Z.log2 (Zpos (3 * q))) by lia.
    rewrite <- Z.log2_shiftl by lia. apply Z.log2_le_mono.
    rewrite Z.shiftl_mul_pow2 by lia. lia. }
  unfold f64_mul, SFmul, norm, f64_1_5. cbn [xorb].
  replace (shiftl_pos q (53 - digits q) * 6755399441055744)%positive
    with (shiftl_pos (3 * q) (104 - digits q)).
  - rewrite round_exact by lia. unfold norm. f_equal. lia.
  - apply Pos2Z.inj. rewrite Pos2Z.inj_mul, !shiftl_pos_Z by lia.
    replace (104 - digits q) with (51 + (53 - digits q)) by lia.
    rewrite Z.pow_add_r by lia. lia.
Qed.

Lemma bump_1_5 z : 0 < z < 2 ^ 51 →
  f64_to_int64 (Ceil (f64_mul (f64_of_Z z) f64_1_5)) = ceil_3_2 z.
Proof.
  intros Hz. destruct z as [|q|]; [lia| |lia].
  rewrite mul_1_5_exact by lia. rewrite norm_ceil; [|lia| |lia].
  2:{ apply digits_le; lia. }
  unfold ceil_3_2. replace (2 ^ - -1) with 2 by done.
  assert (- (- Zpos (3 * q) / 2) = (3 * Zpos q + 1) / 2) as ->.
  { pose proof (Z.div_mod (- Zpos (3 * q)) 2 ltac:(lia)).
    pose proof (Z.mod_pos_bound (- Zpos (3 * q)) 2 ltac:(lia)).
    apply (Z.div_unique _ _ _ (3 * Zpos q + 1 + 2 * (- Zpos (3 * q) / 2))); lia. }
  apply f64_to_int64_of_Z. split; [apply Z.div_str_pos; lia|].
  apply Z.div_lt_upper_bound; lia.
Qed.

Lemma Bump_spec f z p :
  fsBumpMultiplier f = f64_1_5 → 0 < z < 2 ^ 51 →
  BumpInclusionFee f z p =
  (Z.min (fsMaxInclusionFee f) (Z.max (ceil_3_2 z) (int64 p)),
   fsMaxInclusionFee f <? Z.max (ceil_3_2 z) (int64 p)).
Proof.
  intros Hm Hz. unfold BumpInclusionFee. rewrite Hm, bump_1_5 by done.
  set (i := ceil_3_2 z). set (n := int64 p).
  replace (if i <? n then n else i) with (Z.max i n) by (destruct (i <? n) eqn:?; zbool; lia).
  destruct (_ <? Z.max i n) eqn:?; zbool; f_equal; lia.
Qed.

Lemma ceil_3_2_mono a b : a <= b → ceil_3_2 a <= ceil_3_2 b.
Proof. intros. unfold ceil_3_2. apply Z.div_le_mono; lia. Qed.

Lemma ceil_3_2_gt a : 0 < a → a < ceil_3_2 a.
Proof.
  intros. unfold ceil_3_2. enough (a + 1 <= (3 * a + 1) / 2) by lia.
  apply Z.div_le_lower_bound; lia.
Qed.

Lemma iter_ceil_ge b k : 0 < b → b <= Nat.iter k ceil_3_2 b.
Proof.
  intros Hb. induction k as [|k IH]; simpl; [lia|].
  pose proof (ceil_3_2_gt (Nat.iter k ceil_3_2 b)). lia.
Qed.

(** The bids stay above the geometric sequence that starts at any lower fee. *)
Lemma bump_all_ge f ps a cur :
  fsBumpMultiplier f = f64_1_5 → fsMaxInclusionFee f < 2 ^ 51 →
  0 < a <= cur → cur <= fsMaxInclusionFee f →
  Z.min (fsMaxInclusionFee f) (Nat.iter (length ps) ceil_3_2 a) <= bump_all f cur ps
    <= fsMaxInclusionFee f.
Proof.
  intros Hm Hmax. revert a cur. induction ps as [|p ps IH]; intros a cur Ha Hc; cbn [length bump_all].
  { simpl. lia. }
  rewrite Bump_spec by (done || lia). cbn [fst].
  rewrite Nat.iter_succ_r.
  pose proof (ceil_3_2_gt a). pose proof (ceil_3_2_mono a cur).
  destruct (decide (ceil_3_2 a <= fsMaxInclusionFee f)).
  - apply IH; lia.
  - replace (Z.min (fsMaxInclusionFee f) (Z.max (ceil_3_2 cur) (int64 p)))
      with (fsMaxInclusionFee f) by lia.
    destruct (IH a (fsMaxInclusionFee f)) as [_ Hle]; [lia..|]. split; [|done].
    transitivity (fsMaxInclusionFee f); [lia|].
    destruct (IH (fsMaxInclusionFee f) (fsMaxInclusionFee f)) as [Hge _]; [lia..|].
    pose proof (iter_ceil_ge (fsMaxInclusionFee f) (length ps)). lia.
Qed.
End fee.
End Fee.

Module FeeProps.
Import Config Fee.
Local Open Scope Z_scope.

Definition DefaultFeeStrategy : FeeStrategy := mkFeeStrategy 100 100000 f64_1_5 15000.

Section props.
Context {FC : FloatConv}.

(** The starting bid is the larger of the geometric baseline and the network's
    percentile read as an int64, capped at the maximum, and the flag says exactly
    whether the cap was applied; it never exceeds the maximum. *)
Theorem seed_fee_capped f attempt p :
  SeedInclusionFee f attempt p =
    (Z.min (fsMaxInclusionFee f) (Z.max (InclusionFee f attempt) (int64 p)),
     fsMaxInclusionFee f <? Z.max (InclusionFee f attempt) (int64 p)) ∧
  fst (SeedInclusionFee f attempt p) <= fsMaxInclusionFee f.
Proof. rewrite Seed_spec. cbn [fst]. split; [done|lia]. Qed.

(** With the default multiplier the float computation of a bump is exact: for
    every fee below 2^51 the new bid is [ceil(3/2 * fee)] or the network's P90,
    whichever is larger, capped; below the cap a bump strictly raises the bid. *)
Theorem bump_fee_exact f cur p :
  fsBumpMultiplier f = f64_1_5 → 0 < cur < 2 ^ 51 →
  BumpInclusionFee f cur p =
    (Z.min (fsMaxInclusionFee f) (Z.max ((3 * cur + 1) / 2) (int64 p)),
     fsMaxInclusionFee f <? Z.max ((3 * cur + 1) / 2) (int64 p)) ∧
  (cur < fsMaxInclusionFee f → cur < fst (BumpInclusionFee f cur p)).
Proof.
  intros Hm Hc. rewrite Bump_spec by done. split; [done|]. cbn [fst].
  pose proof (ceil_3_2_gt cur). lia.
Qed.

(** Under the default strategy a transaction that keeps being refused for its
    fee bids the maximum after at most 18 bumps, from whatever seed of at least the
    base fee and whatever percentiles the network reports. *)
Theorem bumps_reach_cap cur p90s :
  100 <= cur <= 100000 → (18 <= length p90s)%nat →
  bump_all DefaultFeeStrategy cur p90s = 100000.
Proof.
  intros Hc Hl.
  destruct (bump_all_ge DefaultFeeStrategy p90s 100 cur) as [Hge Hle]; [done|done|simpl; lia..|].
  cbn [fsMaxInclusionFee DefaultFeeStrategy] in *.
  enough (100000 <= Nat.iter (length p90s) ceil_3_2 100) by lia.
  replace (length p90s) with ((length p90s - 18) + 18)%nat by lia.
  rewrite Nat.iter_add.
  assert (100000 <= Nat.iter 18 ceil_3_2 100) by (vm_compute; done).
  pose proof (iter_ceil_ge (Nat.iter 18 ceil_3_2 100) (length p90s - 18)). lia.
Qed.

(** The default geometric schedule is non-decreasing and stays between the base
    fee and the cap for attempts 0 to 96, and is at the cap from attempt 18 on. At
    attempt 97 the float exceeds the int64 range and Go leaves the conversion to the
    platform: where it yields the smallest int64 (amd64), the "fee" is that negative
    number, which the cap does not catch. *)
Theorem default_schedule :
  (∀ n, (n < 97)%nat →
     100 <= InclusionFee DefaultFeeStrategy (Z.of_nat n) <= 100000 ∧
     ((18 <= n)%nat → InclusionFee DefaultFeeStrategy (Z.of_nat n) = 100000) ∧
     ((S n < 97)%nat →
       InclusionFee DefaultFeeStrategy (Z.of_nat n)
         <= InclusionFee DefaultFeeStrategy (Z.of_nat (S n)))) ∧
  ((∀ x, f64_out_of_range x = min_int64) →
   InclusionFee DefaultFeeStrategy 97 = min_int64).
Proof.
  split.
  - intros n Hn.
    assert (forallb (λ n,
      let i := InclusionFee DefaultFeeStrategy (Z.of_nat n) in
      let j := InclusionFee DefaultFeeStrategy (Z.of_nat (S n)) in
      (100 <=? i) && (i <=? 100000) && ((n <? 18)%nat || (i =? 100000)) &&
      ((96 <=? n)%nat || (i <=? j)))
      (seq 0 97) = true) as Hall by (vm_compute; reflexivity).
    rewrite forallb_forall in Hall.
    assert (In n (seq 0 97)) as Hin by (apply in_seq; lia).
    specialize (Hall n Hin). clear Hin.
    apply andb_true_iff in Hall as [Hall Hm]. apply andb_true_iff in Hall as [Hr Hc].
    apply andb_true_iff in Hr as [H1 H2]. zbool.
    apply orb_true_iff in Hm, Hc. rewrite Nat.leb_le, Z.leb_le in Hm.
    rewrite Nat.ltb_lt, Z.eqb_eq in Hc. split_and!; lia.
  - intros Hoor. unfold InclusionFee. cbn [Z.eqb].
    assert (f64_trunc (Ceil (f64_mul (f64_of_Z (fsBaseInclusionFee DefaultFeeStrategy))
              (Pow_uint (fsBumpMultiplier DefaultFeeStrategy) 97))) =
            Some 12046257112154525696) as E by (vm_compute; reflexivity).
    unfold f64_to_int64. rewrite E, Hoor. reflexivity.
Qed.
End props.

Definition amd64 : FloatConv := {| f64_out_of_range := λ _, min_int64 |}.

Lemma bump_fee_exact_witness :
  (BumpInclusionFee (FC := amd64) DefaultFeeStrategy 225 400 =
    (Z.min 100000 (Z.max ((3 * 225 + 1) / 2) (int64 400)), false)).
Proof.
  refine (proj1 (bump_fee_exact (FC := amd64) DefaultFeeStrategy 225 400 _ _)); vm_compute; done.
Defined.

Lemma bumps_reach_cap_witness :
  bump_all (FC := amd64) DefaultFeeStrategy 100 (repeat 7 18) = 100000.
Proof. apply (bumps_reach_cap (FC := amd64)); [lia|rewrite repeat_length; lia]. Defined.

Lemma default_schedule_witness :
  InclusionFee (FC := amd64) DefaultFeeStrategy 97 = min_int64.
Proof. apply (proj2 (default_schedule (FC := amd64))). reflexivity. Defined.
End FeeProps.

(** * The Soroban fee-statistics cache: src/relayer/txm/fee_tracker.go. A call holds
    the mutex from start to end, so it is one step; [now] is what [time.Now()] gives
    and [resp] what [GetFeeStats] answers if the call asks it. *)

Module FeeTracker.
Local Open Scope Z_scope.

Record feeTracker := mkFeeTracker {
  pollInterval : Z;
  haveData : bool;
  fetchedAt : Z;
  p50 : Z;
  p90 : Z
}.

Definition newFeeTracker (pollInterval : Z) : feeTracker :=
  mkFeeTracker pollInterval false 0 0 0.

(** [t.pollInterval > 0 && t.haveData && now.Sub(t.fetchedAt) < t.pollInterval]. *)
Definition fresh (t : feeTracker) (now : Z) : bool :=
  (0 <? pollInterval t) && haveData t && (now - fetchedAt t <? pollInterval t).

Definition sorobanInclusionPercentiles (t : feeTracker) (now : Z) (resp : result (Z * Z))
  : feeTracker * result (Z * Z) :=
  if fresh t now then (t, Ok (p50 t, p90 t))
  else match resp with
  | Err fetchErr => if haveData t then (t, Ok (p50 t, p90 t)) else (t, Err fetchErr)
  | Ok (a, b) => (mkFeeTracker (pollInterval t) true now a b, Ok (a, b))
  end.

(** Whether the call reaches [client.GetFeeStats]. *)
Definition fetches (t : feeTracker) (now : Z) : bool := negb (fresh t now).

(** A sequence of calls: the results, and the successful fetches with their times,
    most recent first. *)
Fixpoint calls (t : feeTracker) (l : list (Z * result (Z * Z)))
  : list (result (Z * Z)) * list (Z * (Z * Z)) * feeTracker :=
  match l with
  | [] => ([], [], t)
  | (now, resp) :: l' =>
      let '(t', r) := sorobanInclusionPercentiles t now resp in
      let '(rs, fs, t'') := calls t' l' in
      (r :: rs,
       fs ++ (if fetches t now then match resp with Ok v => [(now, v)] | Err _ => [] end else []),
       t'')
  end.

(** Two fetches, the later first, are a poll interval apart. *)
Definition spaced (d : Z) (fs : list (Z * (Z * Z))) : Prop :=
  StronglySorted (λ later earlier, fst earlier + d <= fst later) fs.

(** ** Facts *)

Lemma fresh_spec t now :
  fresh t now = true ↔ 0 < pollInterval t ∧ haveData t = true ∧ now - fetchedAt t < pollInterval t.
Proof. unfold fresh. rewrite !andb_true_iff, !Z.ltb_lt. tauto. Qed.

Lemma pollInterval_const t now resp :
  pollInterval (fst (sorobanInclusionPercentiles t now resp)) = pollInterval t.
Proof. unfold sorobanInclusionPercentiles. by case_all. Qed.

Lemma StronglySorted_app_1 {A} (R : A → A → Prop) l1 l2 :
  StronglySorted R l1 → StronglySorted R l2 →
  Forall (λ x, Forall (R x) l2) l1 → StronglySorted R (l1 ++ l2).
Proof.
  induction 1 as [|x l1 Hs IH Hall]; intros H2 Hf; simpl; [done|].
  apply Forall_cons in Hf as [Hx Hf]. constructor; [by apply IH|]. apply Forall_app; auto.
Qed.

(** Every successful fetch of a run is later than the tracker's last one by the poll
    interval, and the fetches are spaced by it. *)
Lemma calls_spaced l t rs fs t' :
  calls t l = (rs, fs, t') → 0 < pollInterval t →
  StronglySorted Z.le (fst <$> l) →
  (haveData t = true → Forall (λ c, fst c + 0 >= fetchedAt t) l) →
  spaced (pollInterval t) fs ∧
  (haveData t = true → Forall (λ f, fetchedAt t + pollInterval t <= fst f) fs).
Proof.
  revert t rs fs. induction l as [|[now resp] l IH]; intros t rs fs; cbn [calls].
  { intros [= <- <- <-] _ _ _. split; [constructor|constructor]. }
  destruct (sorobanInclusionPercentiles t now resp) as [t1 r] eqn:Ec.
  destruct (calls t1 l) as [[rs1 fs1] t''] eqn:El. intros [= <- <- <-] Hp Hsort Hdata.
  cbn [fmap list_fmap fst] in Hsort. apply StronglySorted_inv in Hsort as [Hsort Hnow].
  pose proof (pollInterval_const t now resp) as Hpc. rewrite Ec in Hpc. cbn in Hpc.
  unfold sorobanInclusionPercentiles in Ec. unfold fetches.
  destruct (fresh t now) eqn:Ef; [|destruct resp as [[a b]|e]].
  - injection Ec as <- <-. cbn [negb]. rewrite app_nil_r. eapply IH; [done..|].
    intros Hd. specialize (Hdata Hd). by apply Forall_cons in Hdata as [_ ?].
  - injection Ec as <- <-. cbn [negb].
    destruct (IH _ _ _ El) as [Hs Hb]; [done|done| |].
    { intros _. apply Forall_forall. intros [n' r'] Hin. cbn.
      rewrite Forall_fmap, Forall_forall in Hnow. specialize (Hnow _ Hin). cbn in Hnow. lia. }
    cbn [pollInterval haveData fetchedAt] in *. specialize (Hb eq_refl). split.
    + apply StronglySorted_app_1; [done|repeat constructor|].
      eapply Forall_impl; [exact Hb|]. intros f Hf. repeat constructor. done.
    + intros Hd. specialize (Hdata Hd). apply Forall_cons in Hdata as [Hn _]. cbn in Hn.
      assert (fetchedAt t + pollInterval t <= now).
      { destruct (decide (now - fetchedAt t < pollInterval t)); [|lia].
        assert (fresh t now = true) by (apply fresh_spec; auto). congruence. }
      apply Forall_app. split; [|by repeat constructor].
      eapply Forall_impl; [exact Hb|]. cbn. intros. lia.
  - assert (t1 = t) as -> by (destruct (haveData t); by injection Ec as <- _).
    cbn [negb]. rewrite app_nil_r. eapply IH; [done..|].
    intros Hd. specialize (Hdata Hd). by apply Forall_cons in Hdata as [_ ?].
Qed.

(** The abstract tracker: the last successful fetch, if there is one. *)
Definition snapshot (t : feeTracker) : option (Z * Z) :=
  if haveData t then Some (p50 t, p90 t) else None.

Lemma call_snapshot t now resp :
  let '(t', r) := sorobanInclusionPercentiles t now resp in
  snapshot t' =
    (if fetches t now then match resp with Ok v => Some v | Err _ => snapshot t end
     else snapshot t) ∧
  r = match snapshot t' with
      | Some v => Ok v
      | None => match resp with Ok v => Ok v | Err e => Err e end
      end.
Proof.
  unfold sorobanInclusionPercentiles, fetches, snapshot.
  destruct (fresh t now) eqn:Ef; cbn [negb].
  { apply fresh_spec in Ef as (_ & -> & _). done. }
  destruct resp as [[a b]|e]; cbn [haveData p50 p90]; [done|].
  destruct (haveData t) eqn:Hd; by rewrite Hd.
Qed.
End FeeTracker.

Module FeeTrackerProps.
Import FeeTracker.
Local Open Scope Z_scope.

(** Refresh rate: with caching on and a clock that does not go back, the
    successful [GetFeeStats] calls of any sequence of uses are at least one poll
    interval apart, however often the transaction manager asks. *)
Theorem fee_stats_rate_limited d l :
  0 < d → StronglySorted Z.le (fst <$> l) →
  spaced d (snd (fst (calls (newFeeTracker d) l))).
Proof.
  intros Hd Hl. destruct (calls (newFeeTracker d) l) as [[rs fs] t'] eqn:E.
  by apply (calls_spaced l (newFeeTracker d) rs fs t').
Qed.

(** Stale-while-revalidate: a call answers with the newest percentiles it has
    ever fetched (the ones it just fetched when it refreshed), never the zero values;
    it fails only when the refresh fails and no fetch has succeeded before, and a
    failed refresh changes nothing. *)
Theorem fee_stats_refines_last_snapshot t now resp :
  let '(t', r) := sorobanInclusionPercentiles t now resp in
  snapshot t' =
    (if fetches t now then match resp with Ok v => Some v | Err _ => snapshot t end
     else snapshot t) ∧
  (r = match snapshot t' with Some v => Ok v | None => r end) ∧
  (is_ok r = false ↔ snapshot t = None ∧ is_ok resp = false) ∧
  (is_ok r = false → t' = t) ∧
  (pollInterval t <= 0 → fetches t now = true).
Proof.
  pose proof (call_snapshot t now resp) as Hs.
  destruct (sorobanInclusionPercentiles t now resp) as [t' r] eqn:E.
  destruct Hs as [Hs Hr]. split_and!.
  - done.
  - rewrite Hr at 1. by destruct (snapshot t') eqn:E'; [|rewrite Hr].
  - clear Hs Hr. unfold sorobanInclusionPercentiles, snapshot in *.
    destruct (fresh t now) eqn:Ef; [apply fresh_spec in Ef as (_ & Hd & _); rewrite Hd|];
      destruct (haveData t), resp as [[]|]; simplify_eq/=; naive_solver.
  - unfold sorobanInclusionPercentiles in E. case_all.
  - intros Hp. unfold fetches. destruct (fresh t now) eqn:Ef; [|done].
    apply fresh_spec in Ef. lia.
Qed.

Lemma fee_stats_rate_limited_witness :
  spaced 5 (snd (fst (calls (newFeeTracker 5)
    [(0, Err "down"); (1, Ok (100, 200)); (3, Ok (1, 2)); (6, Ok (150, 300))]))).
Proof. apply fee_stats_rate_limited; [lia|]. cbn. repeat constructor; lia. Defined.
End FeeTrackerProps.
