(* ===== verification/Prog.v ===== *)
(** Goroutines over a shared world.

    A goroutine is a tree of atomic steps on the shared state [W] (the body of one
    critical section, one channel operation, one unlocked access) and of calls to the
    outside (RPC client, keystore, clock, timers), whose answers are arbitrary values of
    the call's type. [run] executes one goroutine alone against an oracle; [reachable]
    interleaves any number of them; [safe] is the rely-guarantee triple with which a
    component proves its invariant under every interleaving ([safe_pool]). *)

From stdpp Require Import base list relations strings.
From S2P Require Import Prelude.

Inductive prog (W : Type) (E : Type → Type) (A : Type) : Type :=
| Ret (a : A)
| Panic (msg : string)
| Step {X : Type} (f : W → X * W) (k : X → prog W E A)
| Block {X : Type} (f : W → option (X * W)) (k : X → prog W E A)
| Call {X : Type} (e : E X) (k : X → prog W E A).
Arguments Ret {W E A} a.
Arguments Panic {W E A} msg.
Arguments Step {W E A X} f k.
Arguments Block {W E A X} f k.
Arguments Call {W E A X} e k.

Fixpoint prog_bind {W E A B} (p : prog W E A) (h : A → prog W E B) : prog W E B :=
  match p with
  | Ret a => h a
  | Panic msg => Panic msg
  | Step f k => Step f (λ x, prog_bind (k x) h)
  | Block f k => Block f (λ x, prog_bind (k x) h)
  | Call e k => Call e (λ x, prog_bind (k x) h)
  end.

#[export] Instance prog_mret W E : MRet (prog W E) := λ A a, Ret a.
#[export] Instance prog_mbind W E : MBind (prog W E) := λ A B h p, prog_bind p h.

Section combinators.
Context {W : Type} {E : Type → Type}.

(** One atomic step that reads, writes, or both. *)
Definition gets {X} (f : W → X) : prog W E X := Step (λ w, (f w, w)) Ret.
Definition modify (g : W → W) : prog W E unit := Step (λ w, (tt, g w)) Ret.
Definition atomic {X} (f : W → X * W) : prog W E X := Step f Ret.
Definition call {X} (e : E X) : prog W E X := Call e Ret.
(** A step that waits until it is enabled, and a mere wait. *)
Definition await {X} (f : W → option (X * W)) : prog W E X := Block f Ret.
Definition wait_until (ready : W → bool) : prog W E unit :=
  await (λ w, if ready w then Some (tt, w) else None).

(** [for _, x := range l { body }]. *)
Fixpoint for_each {X} (l : list X) (body : X → prog W E unit) : prog W E unit :=
  match l with
  | [] => Ret tt
  | x :: l' => body x ≫= λ _, for_each l' body
  end.

(** ** One goroutine alone *)

Inductive outcome (A : Type) := Done (a : A) | Panicked (msg : string) | Blocked.
Arguments Done {A} a.
Arguments Panicked {A} msg.
Arguments Blocked {A}.

(** An oracle answers the [n]-th call. *)
Definition oracle : Type := ∀ X : Type, nat → E X → X.

Fixpoint run {A} (env : oracle) (p : prog W E A) (n : nat) (w : W) : outcome A * nat * W :=
  match p with
  | Ret a => (Done a, n, w)
  | Panic msg => (Panicked msg, n, w)
  | Step f k => let '(x, w') := f w in run env (k x) n w'
  | Block f k =>
      match f w with Some (x, w') => run env (k x) n w' | None => (Blocked, n, w) end
  | Call e k => run env (k (env _ n e)) (S n) w
  end.

(** One goroutine among others: before each of its steps the others do [interf]; the
    calls it makes are listed. *)
Fixpoint irun {A} (interf : nat → W → W) (env : oracle) (p : prog W E A) (t n : nat) (w : W)
  : outcome A * list (sigT E) * W :=
  match p with
  | Ret a => (Done a, [], w)
  | Panic msg => (Panicked msg, [], w)
  | Step f k =>
      let '(x, w') := f (interf t w) in irun interf env (k x) (S t) n w'
  | Block f k =>
      let w1 := interf t w in
      match f w1 with
      | Some (x, w') => irun interf env (k x) (S t) n w'
      | None => (Blocked, [], w1)
      end
  | Call e k =>
      let '(o, tr, w') := irun interf env (k (env _ n e)) t (S n) w in
      (o, existT _ e :: tr, w')
  end.

(** ** Interleavings

    Goroutines that return a value of the same type [R]. *)

Section pool.
Context {R : Type}.

Inductive pool_step : W * list (prog W E R) → W * list (prog W E R) → Prop :=
| pool_Step i w ps X (f : W → X * W) k :
    ps !! i = Some (Step f k) →
    pool_step (w, ps) (snd (f w), <[i := k (fst (f w))]> ps)
| pool_Block i w ps X (f : W → option (X * W)) k x w' :
    ps !! i = Some (Block f k) → f w = Some (x, w') →
    pool_step (w, ps) (w', <[i := k x]> ps)
| pool_Call i w ps X (e : E X) k x :
    ps !! i = Some (Call e k) →
    pool_step (w, ps) (w, <[i := k x]> ps).

(** [reachable c0 c]: [c] is reached from [c0] by some interleaving. *)
Definition reachable : relation (W * list (prog W E R)) := rtc pool_step.

(** A schedule executed: which goroutine moves next (if it can), and an oracle. *)
Definition sched_step (env : oracle) (i : nat) (c : W * list (prog W E R) * nat)
  : option (W * list (prog W E R) * nat) :=
  let '(w, ps, n) := c in
  match ps !! i with
  | Some (Step f k) => let '(x, w') := f w in Some (w', <[i := k x]> ps, n)
  | Some (Block f k) =>
      match f w with Some (x, w') => Some (w', <[i := k x]> ps, n) | None => None end
  | Some (Call e k) => Some (w, <[i := k (env _ n e)]> ps, S n)
  | _ => None
  end.

Fixpoint sched (env : oracle) (sch : list nat) (c : W * list (prog W E R) * nat)
  : W * list (prog W E R) * nat :=
  match sch with
  | [] => c
  | i :: sch' => sched env sch' (match sched_step env i c with Some c' => c' | None => c end)
  end.

Lemma sched_step_reachable env i w ps n w' ps' n' :
  sched_step env i (w, ps, n) = Some (w', ps', n') → pool_step (w, ps) (w', ps').
Proof.
  unfold sched_step. destruct (ps !! i) as [p|] eqn:Hi; [|done].
  destruct p as [a|msg|X f k|X f k|X e k]; try done.
  - destruct (f w) as [x w2] eqn:Ef. intros [= <- <- <-].
    pose proof (pool_Step i w ps X f k Hi) as Hp. by rewrite Ef in Hp.
  - destruct (f w) as [[x w2]|] eqn:Ef; [|done]. intros [= <- <- <-].
    by eapply (pool_Block i).
  - intros [= <- <- <-]. by apply (pool_Call i w ps X e k).
Qed.

Lemma sched_reachable env sch w ps n :
  let c := sched env sch (w, ps, n) in reachable (w, ps) (fst (fst c), snd (fst c)).
Proof.
  revert w ps n. induction sch as [|i sch IH]; intros w ps n; cbn [sched]; [apply rtc_refl|].
  destruct (sched_step env i (w, ps, n)) as [[[w1 ps1] n1]|] eqn:E1; [|apply IH].
  eapply rtc_l; [by eapply sched_step_reachable|apply IH].
Qed.
End pool.

(** ** Rely-guarantee *)

Section safety.
Context (I : W → Prop) (R : relation W) `{!PreOrder R}.

(** [safe p w Q]: from world [w], with steps of other goroutines in [R] and keeping [I]
    in between, every step of [p] keeps [I] and is in [R], [p] never panics, and it
    returns in a world where [Q] holds. *)
Fixpoint safe {A} (p : prog W E A) (w : W) (Q : A → W → Prop) : Prop :=
  match p with
  | Ret a => Q a w
  | Panic _ => False
  | Step f k =>
      ∀ w', R w w' → I w' →
        I (snd (f w')) ∧ R w' (snd (f w')) ∧ safe (k (fst (f w'))) (snd (f w')) Q
  | Block f k =>
      ∀ w' x w'', R w w' → I w' → f w' = Some (x, w'') →
        I w'' ∧ R w' w'' ∧ safe (k x) w'' Q
  | Call e k => ∀ x, safe (k x) w Q
  end.

Definition stable {A} (Q : A → W → Prop) : Prop := ∀ a w w', R w w' → Q a w → Q a w'.

Lemma safe_future {A} (p : prog W E A) w w' Q :
  stable Q → R w w' → safe p w Q → safe p w' Q.
Proof.
  intros HQ. revert w w'. induction p as [a|msg|X f k IH|X f k IH|X e k IH];
    intros w w' Hr; cbn [safe].
  - by apply HQ.
  - done.
  - intros Hs w'' Hr'. apply Hs. by etrans.
  - intros Hs w'' x w3 Hr'. apply Hs. by etrans.
  - intros Hs x. by eapply IH.
Qed.

Lemma safe_bind {A B} (p : prog W E A) (h : A → prog W E B) w Q :
  safe p w (λ a w', safe (h a) w' Q) → safe (p ≫= h) w Q.
Proof.
  revert w. unfold mbind, prog_mbind.
  induction p as [a|msg|X f k IH|X f k IH|X e k IH]; intros w; cbn [safe prog_bind].
  - done.
  - done.
  - intros Hs w' Hr Hi. destruct (Hs w' Hr Hi) as (? & ? & ?). auto.
  - intros Hs w' x w'' Hr Hi Hf. destruct (Hs w' x w'' Hr Hi Hf) as (? & ? & ?). auto.
  - intros Hs x. auto.
Qed.

Lemma safe_mono {A} (p : prog W E A) w (Q Q' : A → W → Prop) :
  (∀ a w', R w w' → Q a w' → Q' a w') → safe p w Q → safe p w Q'.
Proof.
  revert w. induction p as [a|msg|X f k IH|X f k IH|X e k IH]; intros w HQ; cbn [safe].
  - apply HQ. done.
  - done.
  - intros Hs w' Hr Hi. destruct (Hs w' Hr Hi) as (? & ? & ?). split_and!; [done|done|].
    eapply IH; [|done]. intros a w'' Hr'. apply HQ. by etrans; [|etrans].
  - intros Hs w' x w'' Hr Hi Hf. destruct (Hs w' x w'' Hr Hi Hf) as (? & ? & ?).
    split_and!; [done|done|]. eapply IH; [|done]. intros a w3 Hr'. apply HQ.
    by etrans; [|etrans].
  - intros Hs x. eapply IH; [|done]. done.
Qed.

Lemma safe_for_each {X} (l : list X) body w (P : W → Prop) :
  (∀ a b, R a b → P a → P b) → P w →
  (∀ x w', x ∈ l → R w w' → P w' → safe (body x) w' (λ _, P)) →
  safe (for_each l body) w (λ _, P).
Proof.
  intros HP Hw Hb. revert w Hw Hb.
  induction l as [|x l IH]; intros w Hw Hb; cbn [for_each]; [done|].
  apply safe_bind. eapply safe_mono; [|apply Hb; [by left|done|done]].
  intros a w' Hr Hw'. cbn beta in *. apply IH; [done|].
  intros y w'' Hy Hr' Hw''. apply Hb; [by right|by etrans|done].
Qed.

(** Every world an interleaving of safe goroutines reaches satisfies the invariant and
    is related to the initial one, and no goroutine of it has panicked. *)
Theorem safe_pool {Y} w0 (ps0 : list (prog W E Y)) w ps :
  I w0 → (∀ i p, ps0 !! i = Some p → safe p w0 (λ _ _, True)) →
  reachable (w0, ps0) (w, ps) →
  I w ∧ R w0 w ∧ ∀ i p, ps !! i = Some p → safe p w (λ _ _, True).
Proof.
  intros HI Hps Hr.
  remember (w0, ps0) as c0 eqn:E0. remember (w, ps) as c eqn:Ec.
  revert w0 ps0 E0 HI Hps. induction Hr as [c|c0 c1 c Hstep Hr IH].
  { intros w0 ps0 -> HI Hps. injection Ec as <- <-. split_and!; done. }
  intros w0 ps0 -> HI Hps. specialize (IH Ec).
  assert (stable (λ (_ : Y) (_ : W), True)) as Hst by done.
  inversion Hstep as [i ? ? X f k Hi|i ? ? X f k x w1 Hi Hf|i ? ? X e k x Hi]; subst.
  - destruct (Hps i _ Hi w0 ltac:(done) HI) as (HI' & HR' & Hk).
    destruct (IH (snd (f w0)) (<[i:=k (fst (f w0))]> ps0)) as (? & ? & ?); [done..| |].
    { intros j p. destruct (decide (i = j)) as [<-|Hne].
      - rewrite list_lookup_insert_eq by (by eapply lookup_lt_Some). by intros [= <-].
      - rewrite list_lookup_insert_ne by done. intros Hj. eapply safe_future; eauto. }
    split_and!; [done|by etrans|done].
  - destruct (Hps i _ Hi w0 x w1 ltac:(done) HI Hf) as (HI' & HR' & Hk).
    destruct (IH w1 (<[i:=k x]> ps0)) as (? & ? & ?); [done..| |].
    { intros j p. destruct (decide (i = j)) as [<-|Hne].
      - rewrite list_lookup_insert_eq by (by eapply lookup_lt_Some). by intros [= <-].
      - rewrite list_lookup_insert_ne by done. intros Hj. eapply safe_future; eauto. }
    split_and!; [done|by etrans|done].
  - apply (IH w0 (<[i:=k x]> ps0)); [done..|].
    intros j p. destruct (decide (i = j)) as [<-|Hne].
    + rewrite list_lookup_insert_eq by (by eapply lookup_lt_Some). intros [= <-].
      apply (Hps i _ Hi).
    + rewrite list_lookup_insert_ne by done. apply Hps.
Qed.
End safety.

Lemma run_bind {A B} env (p : prog W E A) (h : A → prog W E B) n w :
  run env (p ≫= h) n w =
  match run env p n w with
  | (Done a, n', w') => run env (h a) n' w'
  | (Panicked msg, n', w') => (Panicked msg, n', w')
  | (Blocked, n', w') => (Blocked, n', w')
  end.
Proof.
  revert n w. unfold mbind, prog_mbind.
  induction p as [a|msg|X f k IH|X f k IH|X e k IH]; intros n w; cbn [run prog_bind].
  - done.
  - done.
  - destruct (f w) as [x w']. apply IH.
  - destruct (f w) as [[x w']|]; [apply IH|done].
  - apply IH.
Qed.

(** ** Sequential triples

    [wp p w Q]: run alone from [w], with any answers of the outside that [answer] allows,
    [p] does not panic, and ends in a world where [Q] holds if it is not blocked for ever. *)
Section sequential.
Context (answer : ∀ X, E X → X → Prop).

Fixpoint wp {A} (p : prog W E A) (w : W) (Q : A → W → Prop) : Prop :=
  match p with
  | Ret a => Q a w
  | Panic _ => False
  | Step f k => wp (k (fst (f w))) (snd (f w)) Q
  | Block f k => ∀ x w', f w = Some (x, w') → wp (k x) w' Q
  | Call e k => ∀ x, answer _ e x → wp (k x) w Q
  end.

Lemma wp_run {A} (p : prog W E A) (env : oracle) n w (Q : A → W → Prop) :
  (∀ X m e, answer X e (env X m e)) →
  wp p w Q →
  match run env p n w with
  | (Done a, _, w') => Q a w'
  | (Panicked _, _, _) => False
  | (Blocked, _, _) => True
  end.
Proof.
  intros Henv. revert n w.
  induction p as [a|msg|X f k IH|X f k IH|X e k IH]; intros n w; cbn [wp run].
  - done.
  - done.
  - intros Hs. destruct (f w) as [x w']. by apply IH.
  - intros Hs. destruct (f w) as [[x w']|] eqn:Eb; [|done]. by apply IH, Hs.
  - intros Hs. by apply IH, Hs.
Qed.

Lemma wp_bind {A B} (p : prog W E A) (h : A → prog W E B) w Q :
  wp p w (λ a w', wp (h a) w' Q) → wp (p ≫= h) w Q.
Proof.
  revert w. unfold mbind, prog_mbind.
  induction p as [a|msg|X f k IH|X f k IH|X e k IH]; intros w; cbn [wp prog_bind]; auto.
Qed.

Lemma wp_mono {A} (p : prog W E A) w (Q Q' : A → W → Prop) :
  (∀ a w', Q a w' → Q' a w') → wp p w Q → wp p w Q'.
Proof.
  intros HQ. revert w.
  induction p as [a|msg|X f k IH|X f k IH|X e k IH]; intros w; cbn [wp]; auto.
Qed.

Lemma wp_seq {A B} (p : prog W E A) (h : A → prog W E B) w P Q :
  wp p w P → (∀ a w', P a w' → wp (h a) w' Q) → wp (p ≫= h) w Q.
Proof. intros Hp Hh. apply wp_bind. by eapply wp_mono. Qed.

Lemma wp_and {A} (p : prog W E A) w (P Q : A → W → Prop) :
  wp p w P → wp p w Q → wp p w (λ a w', P a w' ∧ Q a w').
Proof.
  revert w. induction p as [a|msg|X f k IH|X f k IH|X e k IH]; intros w; cbn [wp]; auto.
Qed.

(** A goroutine that is safe among others is safe alone. *)
Lemma safe_wp {A} (I : W → Prop) (R : relation W) `{!PreOrder R} (p : prog W E A) w0 w Q :
  safe I R p w0 Q → R w0 w → I w → stable R Q → wp p w (λ a w', Q a w' ∧ I w' ∧ R w0 w').
Proof.
  revert w0 w. induction p as [a|msg|X f k IH|X f k IH|X e k IH]; intros w0 w; cbn [safe wp].
  - intros HQ HR HI Hst. split_and!; [by eapply Hst|done..].
  - done.
  - intros Hs HR HI Hst. destruct (Hs w HR HI) as (HI' & HR' & Hk).
    eapply wp_mono; [|by eapply IH]. intros a w' (? & ? & ?). split_and!; [done..|].
    by etrans; [|etrans].
  - intros Hs HR HI Hst x w' Hf. destruct (Hs w x w' HR HI Hf) as (HI' & HR' & Hk).
    eapply wp_mono; [|by eapply IH]. intros a w'' (? & ? & ?). split_and!; [done..|].
    by etrans; [|etrans].
  - intros Hs HR HI Hst x _. by eapply IH.
Qed.
End sequential.

(** ** Progress

    [nb p w Q]: run alone from [w], [p] never waits for a step that is not enabled, and
    [Q] holds in the worlds where it returns. *)
Fixpoint nb {A} (p : prog W E A) (w : W) (Q : W → Prop) : Prop :=
  match p with
  | Ret a => Q w
  | Panic _ => True
  | Step f k => nb (k (fst (f w))) (snd (f w)) Q
  | Block f k => ∃ x w', f w = Some (x, w') ∧ nb (k x) w' Q
  | Call e k => ∀ x, nb (k x) w Q
  end.

Lemma nb_run {A} (p : prog W E A) env n w Q :
  nb p w Q → match run env p n w with (Blocked, _, _) => False | _ => True end.
Proof.
  revert n w. induction p as [a|msg|X f k IH|X f k IH|X e k IH]; intros n w; cbn [nb run].
  - done.
  - done.
  - intros Hs. destruct (f w) as [x w']. by apply IH.
  - intros (x & w' & -> & Hs). by apply IH.
  - intros Hs. apply IH, Hs.
Qed.

(** With both, the run returns. *)
Lemma run_total {A} answer (p : prog W E A) (env : oracle) n w Q L :
  wp answer p w Q → nb p w L → (∀ X m e, answer X e (env X m e)) →
  ∃ x m w', run env p n w = (Done x, m, w') ∧ Q x w'.
Proof.
  intros Hwp Hnb Henv. pose proof (wp_run answer p env n w Q Henv Hwp) as H1.
  pose proof (nb_run p env n w L Hnb) as H2.
  destruct (run env p n w) as [[[x|msg|] m] w'] eqn:Er; [|done..]. by exists x, m, w'.
Qed.

Lemma nb_seq {A B} (p : prog W E A) (h : A → prog W E B) w P Q :
  nb p w P → (∀ a w', P w' → nb (h a) w' Q) → nb (p ≫= h) w Q.
Proof.
  intros Hp Hh. revert w Hp. unfold mbind, prog_mbind.
  induction p as [a|msg|X f k IH|X f k IH|X e k IH]; intros w; cbn [nb prog_bind]; auto.
  intros (x & w' & Hf & Hs). eauto.
Qed.

(** ** Properties of every call

    [sat P p Q]: whatever the world and the answers, every call of [p] satisfies [P], and
    its result [Q]. *)
Section calls.
Context (P : ∀ X, E X → Prop).

Fixpoint sat {A} (p : prog W E A) (Q : A → Prop) : Prop :=
  match p with
  | Ret a => Q a
  | Panic _ => True
  | Step f k => ∀ w, sat (k (fst (f w))) Q
  | Block f k => ∀ x, sat (k x) Q
  | Call e k => P _ e ∧ ∀ x, sat (k x) Q
  end.

Lemma sat_bind {A B} (p : prog W E A) (h : A → prog W E B) Q :
  sat p (λ a, sat (h a) Q) → sat (p ≫= h) Q.
Proof.
  unfold mbind, prog_mbind.
  induction p as [a|msg|X f k IH|X f k IH|X e k IH]; cbn [sat prog_bind]; auto.
  intros [? ?]. auto.
Qed.

Lemma sat_mono {A} (p : prog W E A) (Q Q' : A → Prop) :
  (∀ a, Q a → Q' a) → sat p Q → sat p Q'.
Proof.
  intros HQ. induction p as [a|msg|X f k IH|X f k IH|X e k IH]; cbn [sat]; auto.
  intros [? ?]. auto.
Qed.

Lemma sat_seq {A B} (p : prog W E A) (h : A → prog W E B) Q' Q :
  sat p Q' → (∀ a, Q' a → sat (h a) Q) → sat (p ≫= h) Q.
Proof. intros Hp Hh. apply sat_bind. by eapply sat_mono. Qed.

Lemma sat_irun {A} (p : prog W E A) Q interf env t c w :
  sat p Q → Forall (λ c, P _ (projT2 c)) (snd (fst (irun interf env p t c w))).
Proof.
  revert t c w. induction p as [a|msg|X f k IH|X f k IH|X e k IH]; intros t c w;
    cbn [sat irun].
  - constructor.
  - constructor.
  - intros Hk. specialize (Hk (interf t w)). destruct (f (interf t w)) as [x w']. by apply IH.
  - intros Hk. destruct (f _) as [[x w']|]; [by apply IH|constructor].
  - intros [He Hk]. specialize (IH (env X c e) t (S c) w (Hk _)).
    destruct (irun _ _ _ _ _ _) as [[o tr] w']. cbn. by constructor.
Qed.
End calls.

(** ** Call budgets

    [spend cost p n Q]: whatever the world and the answers, [p] makes calls of total
    cost at most [n], and returns [a] with a rest [m] of the budget such that [Q a m]. *)
Section budget.
Context (cost : ∀ X, E X → nat).

Fixpoint spend {A} (p : prog W E A) (n : nat) (Q : A → nat → Prop) : Prop :=
  match p with
  | Ret a => Q a n
  | Panic _ => True
  | Step f k => ∀ w, spend (k (fst (f w))) n Q
  | Block f k => ∀ x, spend (k x) n Q
  | Call e k => cost _ e ≤ n ∧ ∀ x, spend (k x) (n - cost _ e) Q
  end.

Definition trace_cost (tr : list (sigT E)) : nat :=
  sum_list ((λ c, cost _ (projT2 c)) <$> tr).

Lemma spend_bind {A B} (p : prog W E A) (h : A → prog W E B) n Q :
  spend p n (λ a m, spend (h a) m Q) → spend (p ≫= h) n Q.
Proof.
  revert n. unfold mbind, prog_mbind.
  induction p as [a|msg|X f k IH|X f k IH|X e k IH]; intros n; cbn [spend prog_bind]; auto.
  intros [? ?]. auto.
Qed.

Lemma spend_weaken {A} (p : prog W E A) n (Q Q' : A → nat → Prop) :
  spend p n Q → (∀ a m, Q a m → Q' a m) → spend p n Q'.
Proof.
  intros Hp HQ. revert n Hp.
  induction p as [a|msg|X f k IH|X f k IH|X e k IH]; intros n; cbn [spend]; auto.
  intros [? ?]. auto.
Qed.

Lemma spend_seq {A B} (p : prog W E A) (h : A → prog W E B) n Q' Q :
  spend p n Q' → (∀ a m, Q' a m → spend (h a) m Q) → spend (p ≫= h) n Q.
Proof. intros Hp Hh. apply spend_bind. by eapply spend_weaken. Qed.

Lemma spend_mono {A} (p : prog W E A) n n' (Q Q' : A → nat → Prop) :
  n ≤ n' → (∀ a m m', m ≤ m' → Q a m → Q' a m') → spend p n Q → spend p n' Q'.
Proof.
  intros Hn HQ. revert n n' Hn.
  induction p as [a|msg|X f k IH|X f k IH|X e k IH]; intros n n' Hn; cbn [spend]; eauto.
  intros [? Hk]. split; [lia|]. intros x. apply (IH x (n - cost X e)); [lia|apply Hk].
Qed.

Lemma spend_irun {A} (p : prog W E A) n Q interf env t c w :
  spend p n Q → trace_cost (snd (fst (irun interf env p t c w))) ≤ n.
Proof.
  revert n t c w. unfold trace_cost.
  induction p as [a|msg|X f k IH|X f k IH|X e k IH]; intros n t c w; cbn [spend irun].
  - simpl. lia.
  - simpl. lia.
  - intros Hk. specialize (Hk (interf t w)). destruct (f (interf t w)) as [x w']. eauto.
  - intros Hk. destruct (f _) as [[x w']|]; [by apply IH|simpl; lia].
  - intros [Hc Hk].
    specialize (IH (env X c e) (n - cost X e) t (S c) w (Hk _)).
    destruct (irun _ _ _ _ _ _) as [[o tr] w']. cbn in *. lia.
Qed.
End budget.
End combinators.
Arguments Done {A} a.
Arguments Panicked {A} msg.
Arguments Blocked {A}.

(** Programs with the history of their calls and answers.

    [hrun] runs a program alone against an oracle and records each call with its answer.
    [traced p w h Q]: from world [w] and history [h], whatever the answers, if [p] returns
    then [Q] holds of its result, its world and its history. [returns] and [total] say that
    it does return, when the answers are those allowed. *)

From stdpp Require Import base list strings.
From S2P Require Import Prelude.

Section history.
Context {W : Type} {E : Type → Type}.

Definition event : Type := sigT (λ X : Type, (E X * X)%type).
Definition hist : Type := list event.
Definition answered {X} (e : E X) (x : X) : event := existT X (e, x).

Fixpoint hrun {A} (env : oracle) (p : prog W E A) (n : nat) (w : W) : outcome A * hist * W :=
  match p with
  | Ret a => (Done a, [], w)
  | Panic msg => (Panicked msg, [], w)
  | Step f k => let '(x, w') := f w in hrun env (k x) n w'
  | Block f k =>
      match f w with Some (x, w') => hrun env (k x) n w' | None => (Blocked, [], w) end
  | Call e k =>
      let x := env _ n e in
      let '(o, h, w') := hrun env (k x) (S n) w in (o, answered e x :: h, w')
  end.

Fixpoint traced {A} (p : prog W E A) (w : W) (h : hist) (Q : A → W → hist → Prop) : Prop :=
  match p with
  | Ret a => Q a w h
  | Panic _ => True
  | Step f k => traced (k (fst (f w))) (snd (f w)) h Q
  | Block f k => ∀ x w', f w = Some (x, w') → traced (k x) w' h Q
  | Call e k => ∀ x, traced (k x) w (h ++ [answered e x]) Q
  end.

Lemma traced_bind {A B} (p : prog W E A) (f : A → prog W E B) w h Q :
  traced p w h (λ a w' h', traced (f a) w' h' Q) → traced (p ≫= f) w h Q.
Proof.
  revert w h. unfold mbind, prog_mbind.
  induction p as [a|msg|X g k IH|X g k IH|X e k IH]; intros w h; cbn [traced prog_bind]; auto.
Qed.

Lemma traced_mono {A} (p : prog W E A) w h (Q Q' : A → W → hist → Prop) :
  (∀ a w' h', Q a w' h' → Q' a w' h') → traced p w h Q → traced p w h Q'.
Proof.
  intros HQ. revert w h.
  induction p as [a|msg|X g k IH|X g k IH|X e k IH]; intros w h; cbn [traced]; auto.
Qed.

Lemma traced_seq {A B} (p : prog W E A) (f : A → prog W E B) w h P Q :
  traced p w h P → (∀ a w' h', P a w' h' → traced (f a) w' h' Q) → traced (p ≫= f) w h Q.
Proof. intros Hp Hf. apply traced_bind. by eapply traced_mono. Qed.

(** The history only grows. *)
Lemma traced_grows {A} (p : prog W E A) w h Q :
  traced p w h Q → traced p w h (λ a w' h', Q a w' h' ∧ ∃ h2, h' = h ++ h2).
Proof.
  assert (∀ h0, (∃ h2, h = h0 ++ h2) → traced p w h Q →
    traced p w h (λ a w' h', Q a w' h' ∧ ∃ h2, h' = h0 ++ h2)) as Hg.
  { intros h0. revert w h. induction p as [a|msg|X g k IH|X g k IH|X e k IH]; intros w h Hh; cbn [traced]; auto.
    destruct Hh as [h2 ->]. intros Ht x. apply IH; [|apply Ht]. eexists. by rewrite <- app_assoc. }
  apply Hg. exists []. by rewrite app_nil_r.
Qed.

(** The rules for the combinators. *)
Lemma traced_call {X A} (e : E X) (f : X → prog W E A) w h Q :
  (∀ x, traced (f x) w (h ++ [answered e x]) Q) → traced (call e ≫= f) w h Q.
Proof. done. Qed.
Lemma traced_gets {X A} (g : W → X) (f : X → prog W E A) w h Q :
  traced (f (g w)) w h Q → traced (gets g ≫= f) w h Q.
Proof. done. Qed.
Lemma traced_modify {A} (g : W → W) (f : unit → prog W E A) w h Q :
  traced (f tt) (g w) h Q → traced (modify g ≫= f) w h Q.
Proof. done. Qed.

Lemma traced_hrun {A} (p : prog W E A) env n w h Q :
  traced p w h Q →
  match hrun env p n w with (Done a, h', w') => Q a w' (h ++ h') | _ => True end.
Proof.
  revert n w h. induction p as [a|msg|X g k IH|X g k IH|X e k IH]; intros n w h; cbn [traced hrun].
  - by rewrite app_nil_r.
  - done.
  - intros Ht. destruct (g w) as [x w']. by apply IH.
  - intros Ht. destruct (g w) as [[x w']|]; [by apply IH, Ht|done].
  - intros Ht. specialize (IH (env X n e) (S n) w _ (Ht (env X n e))).
    destruct (hrun _ _ _ _) as [[[a| |] h'] w']; try done.
    by rewrite <- app_assoc in IH.
Qed.

(** [hrun] and [run] are the same execution. *)
Lemma hrun_run {A} env (p : prog W E A) n w :
  let '(o, h, w') := hrun env p n w in ∃ m, run env p n w = (o, m, w').
Proof.
  revert n w. induction p as [a|msg|X g k IH|X g k IH|X e k IH]; intros n w; cbn [hrun run].
  - eauto.
  - eauto.
  - destruct (g w) as [x w']. apply IH.
  - destruct (g w) as [[x w']|]; [apply IH|eauto].
  - specialize (IH (env X n e) (S n) w). by destruct (hrun _ _ _ _) as [[o h] w'].
Qed.

(** Every call of a history satisfies what every call of the program does. *)
Lemma sat_hrun (P : ∀ X, E X → Prop) {A} (p : prog W E A) Q env n w :
  sat P p Q → Forall (λ ev : event, P _ (fst (projT2 ev))) (snd (fst (hrun env p n w))).
Proof.
  revert n w. induction p as [a|msg|X g k IH|X g k IH|X e k IH]; intros n w; cbn [sat hrun].
  - constructor.
  - constructor.
  - intros Hk. specialize (Hk w). destruct (g w) as [x w']. by apply IH.
  - intros Hk. destruct (g w) as [[x w']|]; [by apply IH|constructor].
  - intros [He Hk]. specialize (IH (env X n e) (S n) w (Hk _)).
    destruct (hrun _ _ _ _) as [[o h] w']. cbn in *. by constructor.
Qed.
(** ** Programs that return

    [returns answer p w Q]: run alone from [w], with any answers that [answer] allows, [p]
    neither panics nor waits, and [Q] holds of its result and its world. *)
Fixpoint returns (answer : ∀ X, E X → X → Prop) {A} (p : prog W E A) (w : W) (Q : A → W → Prop)
  : Prop :=
  match p with
  | Ret a => Q a w
  | Panic _ => False
  | Step f k => returns answer (k (fst (f w))) (snd (f w)) Q
  | Block f k => ∃ x w', f w = Some (x, w') ∧ returns answer (k x) w' Q
  | Call e k => ∀ x, answer _ e x → returns answer (k x) w Q
  end.

Section returning.
Context (answer : ∀ X, E X → X → Prop).

Lemma returns_hrun {A} (p : prog W E A) env n w Q :
  (∀ X m e, answer X e (env X m e)) → returns answer p w Q →
  ∃ a h w', hrun env p n w = (Done a, h, w') ∧ Q a w'.
Proof.
  intros Henv. revert n w.
  induction p as [a|msg|X g k IH|X g k IH|X e k IH]; intros n w; cbn [returns hrun].
  - intros HQ. by exists a, [], w.
  - done.
  - intros Hs. destruct (g w) as [x w']. by apply IH.
  - intros (x & w' & -> & Hs). by apply IH.
  - intros Hs. destruct (IH _ (S n) w (Hs _ (Henv _ n e))) as (a & h & w' & -> & HQ).
    eauto 6.
Qed.

Lemma returns_mono {A} (p : prog W E A) w (Q Q' : A → W → Prop) :
  (∀ a w', Q a w' → Q' a w') → returns answer p w Q → returns answer p w Q'.
Proof.
  intros HQ. revert w.
  induction p as [a|msg|X g k IH|X g k IH|X e k IH]; intros w; cbn [returns]; auto.
  intros (x & w' & ? & ?). eauto.
Qed.

Lemma returns_seq {A B} (p : prog W E A) (f : A → prog W E B) w P Q :
  returns answer p w P → (∀ a w', P a w' → returns answer (f a) w' Q) →
  returns answer (p ≫= f) w Q.
Proof.
  intros Hp Hf. revert w Hp. unfold mbind, prog_mbind.
  induction p as [a|msg|X g k IH|X g k IH|X e k IH]; intros w; cbn [returns prog_bind]; auto.
  intros (x & w' & ? & ?). eauto.
Qed.
End returning.
(** ** Both: [total answer p w h Q] is [returns] and [traced] together. *)

Fixpoint total (answer : ∀ X, E X → X → Prop) {A} (p : prog W E A) (w : W) (h : hist)
    (Q : A → W → hist → Prop) : Prop :=
  match p with
  | Ret a => Q a w h
  | Panic _ => False
  | Step f k => total answer (k (fst (f w))) (snd (f w)) h Q
  | Block f k => ∃ x w', f w = Some (x, w') ∧ total answer (k x) w' h Q
  | Call e k => ∀ x, answer _ e x → total answer (k x) w (h ++ [answered e x]) Q
  end.

Section total.
Context (answer : ∀ X, E X → X → Prop).

Lemma total_hrun {A} (p : prog W E A) env n w h Q :
  (∀ X m e, answer X e (env X m e)) → total answer p w h Q →
  ∃ a h' w', hrun env p n w = (Done a, h', w') ∧ Q a w' (h ++ h').
Proof.
  intros Henv. revert n w h.
  induction p as [a|msg|X g k IH|X g k IH|X e k IH]; intros n w h; cbn [total hrun].
  - intros HQ. exists a, [], w. by rewrite app_nil_r.
  - done.
  - intros Hs. destruct (g w) as [x w']. by apply IH.
  - intros (x & w' & -> & Hs). by apply IH.
  - intros Hs. destruct (IH _ (S n) w _ (Hs _ (Henv _ n e))) as (a & h' & w' & -> & HQ).
    rewrite <- app_assoc in HQ. eauto 6.
Qed.

(** The answers of a history are those assumed. *)
Definition answers_in (h : hist) : Prop :=
  Forall (λ ev : event, let '(existT X (e, x)) := ev in answer X e x) h.
Lemma answers_nil : answers_in [].
Proof. constructor. Qed.
Lemma answers_snoc {X} (e : E X) x h : answers_in h → answer X e x → answers_in (h ++ [answered e x]).
Proof. intros Hh Hx. apply Forall_app. split; [done|]. by constructor. Qed.
Lemma answers_elem {X} (e : E X) x h : answers_in h → answered e x ∈ h → answer X e x.
Proof. intros Hh Hin. unfold answers_in in Hh. rewrite Forall_forall in Hh. apply (Hh _ Hin). Qed.
Lemma total_answers {A} (p : prog W E A) w h Q :
  total answer p w h Q → answers_in h →
  total answer p w h (λ a w' h', Q a w' h' ∧ answers_in h').
Proof.
  revert w h.
  induction p as [a|msg|X g k IH|X g k IH|X e k IH]; intros w h; cbn [total]; auto.
  - intros (x & w' & ? & ?) Hh. eauto.
  - intros Hp Hh x Hx. apply IH; [by apply Hp|by apply answers_snoc].
Qed.

Lemma total_mono {A} (p : prog W E A) w h (Q Q' : A → W → hist → Prop) :
  (∀ a w' h', Q a w' h' → Q' a w' h') → total answer p w h Q → total answer p w h Q'.
Proof.
  intros HQ. revert w h.
  induction p as [a|msg|X g k IH|X g k IH|X e k IH]; intros w h; cbn [total]; auto.
  intros (x & w' & ? & ?). eauto.
Qed.

Lemma total_seq {A B} (p : prog W E A) (f : A → prog W E B) w h P Q :
  total answer p w h P → (∀ a w' h', P a w' h' → total answer (f a) w' h' Q) →
  total answer (p ≫= f) w h Q.
Proof.
  intros Hp Hf. revert w h Hp. unfold mbind, prog_mbind.
  induction p as [a|msg|X g k IH|X g k IH|X e k IH]; intros w h; cbn [total prog_bind]; auto.
  intros (x & w' & ? & ?). eauto.
Qed.

Lemma total_call {X A} (e : E X) (f : X → prog W E A) w h Q :
  (∀ x, answer _ e x → total answer (f x) w (h ++ [answered e x]) Q) →
  total answer (call e ≫= f) w h Q.
Proof. done. Qed.
Lemma total_gets {X A} (g : W → X) (f : X → prog W E A) w h Q :
  total answer (f (g w)) w h Q → total answer (gets g ≫= f) w h Q.
Proof. done. Qed.
Lemma total_modify {A} (g : W → W) (f : unit → prog W E A) w h Q :
  total answer (f tt) (g w) h Q → total answer (modify g ≫= f) w h Q.
Proof. done. Qed.
End total.
Lemma total_sub (answer answer' : ∀ X, E X → X → Prop) {A} (p : prog W E A) w h Q :
  (∀ X e x, answer' X e x → answer X e x) → total answer p w h Q → total answer' p w h Q.
Proof.
  intros Hsub. revert w h.
  induction p as [a|msg|X g k IH|X g k IH|X e k IH]; intros w h; cbn [total]; auto.
  intros (x & w' & ? & ?). eauto.
Qed.
End history.
