(* ===== verification/Sdk.v ===== *)
(** What the transaction manager uses of code outside the repository.

    Class [Sdk] has the types and pure functions of the Stellar SDK (txnbuild, xdr,
    strkey) as parameters; [SdkLaws] states the documented behaviour some theorems rely
    on. The data types are the fields of the SDK's structs that the code reads or writes.
    [ext] lists the calls whose answer comes from outside: the RPC client, the keystore,
    clocks, timers and the context. *)

From stdpp Require Import base gmap list strings.
From S2P Require Import Prelude.

Local Open Scope Z_scope.

(** ** Enumerations: the constants the code names, and the rest *)

(** [xdr.TransactionResultCode]. *)
Inductive TransactionResultCode :=
| TxBadSeq | TxInsufficientFee | TxInternalError | TxOther (n : Z).

(** [xdr.OperationResultCode]. *)
Inductive OperationResultCode := OpInner | OpExceededWorkLimit | OpOther (n : Z).

(** [xdr.InvokeHostFunctionResultCode]. *)
Inductive InvokeHostFunctionResultCode :=
| IHFResourceLimitExceeded | IHFEntryArchived | IHFInsufficientRefundableFee | IHFOther (n : Z).

(** [stellarcore] submission statuses. *)
Inductive SubmitStatus :=
| TXStatusPending | TXStatusDuplicate | TXStatusTryAgainLater | TXStatusError
| TXStatusOther (s : string).

(** [protocolrpc] transaction statuses. *)
Inductive RpcTxStatus :=
| TransactionStatusSuccess | TransactionStatusFailed | TransactionStatusNotFound
| TransactionStatusOther (s : string).

(** [commontypes.TransactionStatus]. *)
Inductive TransactionStatus := Unknown | Pending | Unconfirmed | Finalized | Failed | Fatal.
#[export] Instance TransactionStatus_eq_dec : EqDecision TransactionStatus.
Proof. solve_decision. Defined.
#[export] Instance TransactionResultCode_eq_dec : EqDecision TransactionResultCode.
Proof. solve_decision. Defined.
#[export] Instance OperationResultCode_eq_dec : EqDecision OperationResultCode.
Proof. solve_decision. Defined.

(** ** XDR results *)

(** [xdr.OperationResultTr]: its type's name, and the invoke-host-function arm. *)
Record OperationResultTr := mkOperationResultTr {
  trType : string;
  trInvokeHostFunctionResult : option InvokeHostFunctionResultCode
}.
Record OperationResult := mkOperationResult {
  opCode : OperationResultCode;
  opTr : option OperationResultTr
}.
Record TransactionResult := mkTransactionResult {
  FeeCharged : Z;
  resultCode : TransactionResultCode;
  resultResults : option (list OperationResult)
}.

(** [xdr.LedgerEntryData]: an account with its sequence number, or another entry. *)
Inductive LedgerEntryData :=
| LedgerEntryAccount (SeqNum : Z)
| LedgerEntryOther (typ : string).

(** ** RPC responses *)

Record RestorePreamble := mkRestorePreamble {
  rpTransactionDataXDR : string;
  rpMinResourceFee : Z
}.
(** One simulated result: its return value, and [AuthXDR] (a nil-able pointer). *)
Record SimulateHostFunctionResult := mkSimResult {
  ReturnValueXDR : option string;
  AuthXDR : option (list string)
}.
Record SimulateTransactionResponse := mkSimResponse {
  simError : string;
  TransactionDataXDR : string;
  simMinResourceFee : Z;
  simResults : list SimulateHostFunctionResult;
  simRestorePreamble : option RestorePreamble
}.
Definition zeroSimResponse : SimulateTransactionResponse := mkSimResponse "" "" 0 [] None.

Record SendTransactionResponse := mkSendResponse {
  sendStatus : SubmitStatus;
  sendHash : string;
  sendErrorResultXDR : string
}.
Record GetTransactionResponse := mkGetTxResponse {
  getStatus : RpcTxStatus;
  getResultXDR : string;
  getResultMetaXDR : string;
  getLedgerCloseTime : Z
}.

(** ** txnbuild *)

Record SimpleAccount := mkSimpleAccount { AccountID : string; accSequence : Z }.

(** Types of the SDK that the code passes along without looking inside. *)
Class SdkTypes := {
  HostFunction : Type;
  AuthorizationEntry : Type;
  OtherOperation : Type;
  SorobanRest : Type;
  TimeBounds : Type;
  Transaction : Type
}.

Section data.
Context {ST : SdkTypes}.

(** [xdr.SorobanTransactionData]: the resource fee, and the rest. *)
Record SorobanTransactionData := mkSorobanData { sdRest : SorobanRest; ResourceFee : Z }.

(** [txnbuild.Operation]: the two operations the code builds or changes. *)
Inductive Operation :=
| InvokeHostFunction (hf : HostFunction) (sourceAccount : string)
    (auth : list AuthorizationEntry) (ext : option SorobanTransactionData)
| RestoreFootprint (sourceAccount : string) (ext : option SorobanTransactionData)
| OtherOp (o : OtherOperation).

(** [txnbuild.TransactionParams], as filled by the code. Operations are pointers that
    the built transaction keeps; their values are what it encodes. *)
Record TransactionParams := mkTransactionParams {
  SourceAccount : SimpleAccount;
  IncrementSequenceNum : bool;
  pOperations : list (loc * Operation);
  BaseFee : Z;
  pTimeBounds : TimeBounds;
  pLedgerBounds : option Z
}.
End data.

Definition MinBaseFee : Z := 100.

Record DecoratedSignature := mkDecoratedSignature { Hint : string; Signature : string }.

Class Sdk `{SdkTypes} := {
  NewTransaction : TransactionParams → result Transaction;
  (* accessors of a built transaction *)
  tx_Operations : Transaction → list loc;
  tx_SourceAccount : Transaction → SimpleAccount;
  tx_Timebounds : Transaction → TimeBounds;
  tx_MaxFee : Transaction → Z;
  tx_Base64 : Transaction → result string;
  tx_Hash : Transaction → string → result string;
  AddSignatureDecorated : Transaction → DecoratedSignature → result Transaction;
  (* strkey *)
  AddressToAccountId : string → result string;
  (* xdr base64 *)
  MarshalAccountKey : string → result string;
  UnmarshalSorobanData : string → result SorobanTransactionData;
  UnmarshalAuth : string → result AuthorizationEntry;
  UnmarshalTransactionResult : string → result TransactionResult;
  UnmarshalLedgerEntryData : string → result LedgerEntryData;
  (* String() of the enumerations *)
  TransactionResultCode_String : TransactionResultCode → string;
  OperationResultCode_String : OperationResultCode → string;
  InvokeHostFunctionResultCode_String : InvokeHostFunctionResultCode → string;
  TransactionStatus_String : TransactionStatus → string;
  SubmitStatus_String : SubmitStatus → string;
  RpcTxStatus_String : RpcTxStatus → string
}.

(** The resource fee an operation carries into the envelope fee. *)
Definition op_resource_fee `{SdkTypes} (o : Operation) : Z :=
  match o with
  | InvokeHostFunction _ _ _ (Some d) | RestoreFootprint _ (Some d) => ResourceFee d
  | _ => 0
  end.

(** Documented behaviour of txnbuild: the built transaction keeps the operations and
    bounds; its sequence is the account's, plus one if asked; a signature changes neither;
    its envelope fee is the base fee per operation plus the Soroban resource fee. *)
Class SdkLaws `{Sdk} : Prop := {
  new_operations p t : NewTransaction p = Ok t → tx_Operations t = fst <$> pOperations p;
  new_account p t : NewTransaction p = Ok t →
    tx_SourceAccount t = mkSimpleAccount (AccountID (SourceAccount p))
      (if IncrementSequenceNum p then int64 (accSequence (SourceAccount p) + 1)
       else accSequence (SourceAccount p));
  new_timebounds p t : NewTransaction p = Ok t → tx_Timebounds t = pTimeBounds p;
  new_fee p t : NewTransaction p = Ok t →
    tx_MaxFee t = BaseFee p * Z.of_nat (length (pOperations p)) +
                  sum_list_with_Z (op_resource_fee ∘ snd) (pOperations p);
  sign_account t d t' : AddSignatureDecorated t d = Ok t' → tx_SourceAccount t' = tx_SourceAccount t;
  sign_fee t d t' : AddSignatureDecorated t d = Ok t' → tx_MaxFee t' = tx_MaxFee t
}.

(** ** Calls to the outside

    [ECtxErr] is [ctx.Err()]; [ESleep d] a select between [time.After(d)] ([None]) and
    [ctx.Done()] (its error text); [ETick d] whether a timer of [d] fires before the stop
    channel is closed; [EChoose] the random choice of a select with several ready cases;
    [EPolls timeout interval] how many ticks of a ticker a deadline leaves time for;
    [EMapOrder] the order in which Go enumerates a map's keys; [EWaitSelect] which case
    of [EnqueueAndWait]'s select comes first. *)

(** A client handle as [getClient] returns it. *)
Definition RPCClient : Set := nat.

Inductive wait_outcome := WaitDone | WaitCtx | WaitStop.

Inductive ext `{SdkTypes} : Type → Type :=
| ENow : ext Z
| EUuid : ext string
| EGetClient : ext (result RPCClient)
| EGetFeeStats (c : RPCClient) : ext (result (Z * Z))
| EGetLatestLedger (c : RPCClient) : ext (result Z)
| ESimulateTransaction (c : RPCClient) (txXDR : string) : ext (result SimulateTransactionResponse)
| ESendTransaction (c : RPCClient) (txXDR : string) : ext (result SendTransactionResponse)
| EGetTransaction (c : RPCClient) (hash : string) : ext (result GetTransactionResponse)
| EGetLedgerEntries (c : RPCClient) (key : string) : ext (result (list string))
| EAccounts : ext (result (list string))
| ESign (address hash : string) : ext (result string)
| ECtxErr : ext (option string)
| ESleep (d : Z) : ext (option string)
| ETick (d : Z) : ext bool
| EChoose : ext bool
| ENewTimeout (secs : Z) : ext TimeBounds
| EPolls (timeout interval : Z) : ext nat
| EMapOrder (keys : list string) : ext (list string)
| EWaitSelect : ext wait_outcome.
