(* ===== verification/TxStore.v ===== *)
(** * TxStore: sequence numbers and in-flight transactions of one account

    Models [relayer/txm/txstore.go].  Module [TxStore] is the per-account store
    ([TxStore], [UnconfirmedTx] and their methods); Module [AccountStore] the map from
    account address to store.  Each method body is one critical section of the Go
    lock, hence one pure function of the store. *)

From stdpp Require Import base gmap sets list strings pretty sorting.
From S2P Require Import Prelude.

Module TxStore.

(** ** Data *)

Record UnconfirmedTx := mkUnconfirmedTx {
  Sequence : Z;          (* int64 *)
  Hash : string;
  MaxLedger : Z;         (* uint32 *)
  Tx : loc               (* *StellarTx *)
}.

Record TxStore := mkTxStore {
  nextSequence : Z;      (* int64 *)
  unconfirmedSequences : gmap Z UnconfirmedTx;
  failedSequences : gset Z;
  lastOnchainSequence : Z (* int64 *)
}.

#[export] Instance UnconfirmedTx_eq_dec : EqDecision UnconfirmedTx.
Proof. solve_decision. Defined.

(** ** Methods *)

Definition NewTxStore (initialSequence : Z) : TxStore :=
  {| nextSequence := initialSequence;
     unconfirmedSequences := ∅;
     failedSequences := ∅;
     lastOnchainSequence := initialSequence |}.

Definition ResyncNonce (nextExpectedSequence : Z) (s : TxStore) : TxStore :=
  let badFailedSeqs := filter (λ failedSeq, (failedSeq < nextExpectedSequence)%Z)
                              (failedSequences s) in
  {| nextSequence := if (nextSequence s <? nextExpectedSequence)%Z
                     then nextExpectedSequence else nextSequence s;
     unconfirmedSequences := unconfirmedSequences s;
     failedSequences := failedSequences s ∖ badFailedSeqs;
     lastOnchainSequence := nextExpectedSequence |}.

Definition GetLastResyncedNonce (s : TxStore) : Z := lastOnchainSequence s.

Definition GetNextSequence (s : TxStore) : Z :=
  set_min (nextSequence s) (failedSequences s).

Definition AddUnconfirmed (seq : Z) (hash : string) (maxLedger : Z) (tx : loc)
    (s : TxStore) : result TxStore :=
  match unconfirmedSequences s !! seq with
  | Some existing =>
      Err ("sequence used: tried to use sequence (" +:+ pretty seq +:+ ") for tx (" +:+ hash
             +:+ "), already used by (" +:+ Hash existing +:+ ")")
  | None =>
      let utx := {| Sequence := seq; Hash := hash; MaxLedger := maxLedger; Tx := tx |} in
      if decide (seq ∈ failedSequences s) then
        Ok {| nextSequence := nextSequence s;
              unconfirmedSequences := <[seq := utx]> (unconfirmedSequences s);
              failedSequences := failedSequences s ∖ {[seq]};
              lastOnchainSequence := lastOnchainSequence s |}
      else if (seq <? nextSequence s)%Z then
        Err ("tried to add an unconfirmed tx at an old sequence: expected "
               +:+ pretty (nextSequence s) +:+ ", got " +:+ pretty seq)
      else if (nextSequence s <? seq)%Z then
        Err ("tried to add an unconfirmed tx at a future sequence: expected "
               +:+ pretty (nextSequence s) +:+ ", got " +:+ pretty seq)
      else
        Ok {| nextSequence := int64 (nextSequence s + 1);
              unconfirmedSequences := <[seq := utx]> (unconfirmedSequences s);
              failedSequences := failedSequences s;
              lastOnchainSequence := lastOnchainSequence s |}
  end.

(** [failedSequences[seq] = struct{}{}] when [seq] is still ahead of the chain. *)
Definition recycle (seq : Z) (s : TxStore) : gset Z :=
  if (lastOnchainSequence s <=? seq)%Z
  then {[seq]} ∪ failedSequences s else failedSequences s.

Definition Confirm (seq : Z) (hash : string) (failed : bool) (s : TxStore) : result TxStore :=
  match unconfirmedSequences s !! seq with
  | None => Err ("no such unconfirmed sequence: " +:+ pretty seq)
  | Some unconfirmed =>
      if decide (Hash unconfirmed = hash) then
        Ok {| nextSequence := nextSequence s;
              unconfirmedSequences := delete seq (unconfirmedSequences s);
              failedSequences := if failed then recycle seq s else failedSequences s;
              lastOnchainSequence := lastOnchainSequence s |}
      else Err ("unexpected tx hash: expected " +:+ Hash unconfirmed +:+ ", got " +:+ hash)
  end.

Definition Release (seq : Z) (s : TxStore) : TxStore :=
  {| nextSequence := nextSequence s;
     unconfirmedSequences := delete seq (unconfirmedSequences s);
     failedSequences := recycle seq s;
     lastOnchainSequence := lastOnchainSequence s |}.

(** [sort.Slice(result, ...)] on the [Sequence] field. *)
Definition seq_le (a b : UnconfirmedTx) : Prop := (Sequence a <= Sequence b)%Z.
#[export] Instance seq_le_dec a b : Decision (seq_le a b).
Proof. unfold seq_le. apply _. Defined.

(** [maps.Values] enumerates the map in an unspecified order, which
    [GetUnconfirmed_order_independent] shows is immaterial. *)
Definition GetUnconfirmed (s : TxStore) : list UnconfirmedTx :=
  merge_sort seq_le (snd <$> map_to_list (unconfirmedSequences s)).

Definition InflightCount (s : TxStore) : nat := size (unconfirmedSequences s).

End TxStore.

Module AccountStore.
Import TxStore.

(** The stores are shared by pointer in Go; a pointer is never replaced nor removed, so
    the address that owns a store identifies it. *)
Definition NewAccountStore : gmap string TxStore := ∅.

Definition CreateTxStore (accountAddress : string) (initialSequence : Z)
    (c : gmap string TxStore) : result (gmap string TxStore) :=
  match c !! accountAddress with
  | Some _ => Err ("TxStore already exists: " +:+ accountAddress)
  | None => Ok (<[accountAddress := NewTxStore initialSequence]> c)
  end.

Definition GetTxStore (accountAddress : string) (c : gmap string TxStore) : option TxStore :=
  c !! accountAddress.

Definition GetTotalInflightCount (c : gmap string TxStore) : nat :=
  map_fold (λ _ store count, count + InflightCount store) 0 c.

Definition GetAllUnconfirmed (c : gmap string TxStore) : gmap string (list UnconfirmedTx) :=
  GetUnconfirmed <$> c.

End AccountStore.

(** ** Operation sequences

    The critical sections of the store, as data: any interleaving of the broadcast and
    the confirm goroutines is a list of these. *)

Module TxStoreRuns.
Import TxStore.

Inductive op :=
| OpAddUnconfirmed (seq : Z) (hash : string) (maxLedger : Z) (tx : loc)
| OpConfirm (seq : Z) (hash : string) (failed : bool)
| OpRelease (seq : Z)
| OpResyncNonce (nextExpectedSequence : Z).

Definition exec (o : op) (s : TxStore) : result TxStore :=
  match o with
  | OpAddUnconfirmed seq hash ml tx => AddUnconfirmed seq hash ml tx s
  | OpConfirm seq hash failed => Confirm seq hash failed s
  | OpRelease seq => Ok (Release seq s)
  | OpResyncNonce n => Ok (ResyncNonce n s)
  end.

(** The sequence an operation reports as used up by the network: a transaction that
    reached a ledger, successful or not, consumes its sequence. *)
Definition consumes (o : op) : gset Z :=
  match o with OpConfirm seq _ false => {[seq]} | _ => ∅ end.

(** The chain view only moves forward. *)
Definition forward (o : op) (s : TxStore) : bool :=
  match o with
  | OpResyncNonce n => (lastOnchainSequence s <=? n)%Z && is_int64 n
  | _ => true
  end.

(** ... and a sequence is released only after it was counted as allocated. *)
Definition disciplined (o : op) (s : TxStore) : bool :=
  match o with
  | OpRelease seq => (seq <? nextSequence s)%Z
  | OpAddUnconfirmed _ _ _ _ => (nextSequence s <? max_int64)%Z
  | OpConfirm _ _ _ => true
  | OpResyncNonce n => forward o s
  end.

(** Stores reachable from a new one by operations that satisfy [allowed], with the set
    of sequences consumed so far. *)
Inductive reachable (allowed : op → TxStore → bool) : TxStore → gset Z → Prop :=
| reach_new init : is_int64 init = true → reachable allowed (NewTxStore init) ∅
| reach_step o s s' used :
    reachable allowed s used → allowed o s = true → exec o s = Ok s' →
    reachable allowed s' (used ∪ consumes o).

(** The same, executed: the run of a list of operations, [None] when one is refused. *)
Fixpoint run (allowed : op → TxStore → bool) (ops : list op) (s : TxStore) (used : gset Z)
    : option (TxStore * gset Z) :=
  match ops with
  | [] => Some (s, used)
  | o :: ops' =>
      if allowed o s then
        match exec o s with Ok s' => run allowed ops' s' (used ∪ consumes o) | Err _ => None end
      else None
  end.

(** ** Abstract specification: what each sequence number is used for *)

Inductive slot := Free | InFlight (u : UnconfirmedTx) | Spent.

Definition slot_of (s : TxStore) (q : Z) : slot :=
  match unconfirmedSequences s !! q with
  | Some u => InFlight u
  | None => if decide (q ∈ failedSequences s ∨ (nextSequence s <= q)%Z) then Free else Spent
  end.

(** The state a sequence takes when its transaction is given up: one the chain is past is
    not offered again, unless [nextSequence] has not reached it yet. *)
Definition given_back (s : TxStore) (q : Z) : slot :=
  if (lastOnchainSequence s <=? q)%Z || (nextSequence s <=? q)%Z then Free else Spent.

(** ... and when its transaction is confirmed: [nextSequence] is all that records it. *)
Definition confirmed (s : TxStore) (q : Z) : slot :=
  if (nextSequence s <=? q)%Z then Free else Spent.

(** The arguments of the Go methods are machine integers. *)
Definition typed (o : op) : bool :=
  match o with OpResyncNonce n => is_int64 n | _ => true end.

Definition set_slot (f : Z → slot) (q : Z) (v : slot) : Z → slot :=
  λ q', if decide (q' = q) then v else f q'.

(** ** Invariants *)

(** Representation invariant, kept by every operation whatever its arguments. *)
Record wf (s : TxStore) : Prop := mkwf {
  wf_keys : ∀ q u, unconfirmedSequences s !! q = Some u → Sequence u = q;
  wf_disjoint : ∀ q, q ∈ failedSequences s → unconfirmedSequences s !! q = None;
  wf_recyclable : ∀ q, q ∈ failedSequences s → (lastOnchainSequence s <= q)%Z;
  wf_next : is_int64 (nextSequence s) = true;
  wf_onchain : is_int64 (lastOnchainSequence s) = true
}.

(** Everything handed out lies below [nextSequence]. *)
Record ordered (s : TxStore) : Prop := mkordered {
  ord_failed : ∀ q, q ∈ failedSequences s → (q < nextSequence s)%Z;
  ord_inflight : ∀ q u, unconfirmedSequences s !! q = Some u → (q < nextSequence s)%Z
}.

(** No sequence between the chain and [nextSequence] is lost. *)
Definition covered (s : TxStore) (used : gset Z) : Prop :=
  ∀ q, (lastOnchainSequence s <= q < nextSequence s)%Z →
    is_Some (unconfirmedSequences s !! q) ∨ q ∈ failedSequences s ∨ q ∈ used.

End TxStoreRuns.

(** ** Lemmas *)

Module TxStoreFacts.
Import TxStore TxStoreRuns.
Local Open Scope Z_scope.

Lemma AddUnconfirmed_Ok seq hash ml tx s s' :
  AddUnconfirmed seq hash ml tx s = Ok s' ↔
  unconfirmedSequences s !! seq = None ∧
  unconfirmedSequences s' = <[seq := mkUnconfirmedTx seq hash ml tx]> (unconfirmedSequences s) ∧
  lastOnchainSequence s' = lastOnchainSequence s ∧
  ((seq ∈ failedSequences s ∧ nextSequence s' = nextSequence s ∧
      failedSequences s' = failedSequences s ∖ {[seq]}) ∨
   (seq ∉ failedSequences s ∧ seq = nextSequence s ∧
      nextSequence s' = int64 (nextSequence s + 1) ∧ failedSequences s' = failedSequences s)).
Proof.
  unfold AddUnconfirmed. destruct s as [n un fa la], s' as [n' un' fa' la']; simpl.
  destruct (un !! seq) eqn:E; [naive_solver|].
  destruct (decide (seq ∈ fa)); [naive_solver|].
  destruct (Z.ltb_spec seq n); [naive_solver lia|].
  destruct (Z.ltb_spec n seq); [naive_solver lia|].
  split; [intros [= <- <- <- <-]; repeat split; right; repeat split; [done|lia]|].
  intros (_ & -> & -> & [?|(_ & -> & -> & ->)]); [naive_solver|done].
Qed.

Lemma Confirm_Ok seq hash failed s s' :
  Confirm seq hash failed s = Ok s' ↔
  ∃ u, unconfirmedSequences s !! seq = Some u ∧ Hash u = hash ∧
    s' = mkTxStore (nextSequence s) (delete seq (unconfirmedSequences s))
           (if failed then recycle seq s else failedSequences s) (lastOnchainSequence s).
Proof.
  unfold Confirm. destruct (unconfirmedSequences s !! seq) as [u|] eqn:E; [|naive_solver].
  case_decide; naive_solver.
Qed.

Lemma elem_of_recycle q seq s :
  q ∈ recycle seq s ↔ q ∈ failedSequences s ∨ (q = seq ∧ lastOnchainSequence s <= seq).
Proof. unfold recycle. destruct (Z.leb_spec (lastOnchainSequence s) seq); set_solver by lia. Qed.

Lemma elem_of_resync q n s :
  q ∈ failedSequences (ResyncNonce n s) ↔ q ∈ failedSequences s ∧ n <= q.
Proof.
  simpl. rewrite elem_of_difference, elem_of_filter.
  split; [intros [? Hn]; split; [done|]; destruct (decide (q < n)); [naive_solver|lia]|].
  intros [? ?]; split; [done|]. intros [? _]. lia.
Qed.

Lemma wf_new init : is_int64 init = true → wf (NewTxStore init).
Proof. intros. constructor; simpl; set_solver. Qed.

Lemma wf_exec o s s' :
  wf s → (∀ n, o = OpResyncNonce n → is_int64 n = true) → exec o s = Ok s' → wf s'.
Proof.
  intros [Hk Hd Hr Hn Hon] Hint. destruct o as [seq h ml tx|seq h f|seq|n]; simpl.
  - intros (Hfree & Hun & Hl & Hcase)%AddUnconfirmed_Ok.
    constructor; simpl; rewrite ?Hl, ?Hun.
    + intros q u. rewrite lookup_insert. case_decide; naive_solver.
    + intros q Hq. rewrite lookup_insert. destruct Hcase as [(?&?&E)|(?&?&?&E)];
        rewrite E in Hq; case_decide; set_solver.
    + intros q Hq. apply Hr. destruct Hcase as [(?&?&E)|(?&?&?&E)]; rewrite E in Hq; set_solver.
    + destruct Hcase as [(?&->&?)|(?&?&->&?)]; [done|auto with go].
    + done.
  - intros (u & Hu & Hh & ->)%Confirm_Ok. constructor; simpl; [| | |done..].
    + intros q v. rewrite lookup_delete. case_decide; naive_solver.
    + intros q Hq. rewrite lookup_delete. case_decide; [done|].
      destruct f; [apply elem_of_recycle in Hq|]; naive_solver.
    + intros q Hq. destruct f; [apply elem_of_recycle in Hq|]; naive_solver lia.
  - intros [= <-]. constructor; simpl; [| | |done..].
    + intros q v. rewrite lookup_delete. case_decide; naive_solver.
    + intros q Hq%elem_of_recycle. rewrite lookup_delete. case_decide; naive_solver.
    + intros q Hq%elem_of_recycle. naive_solver lia.
  - intros [= <-]. constructor.
    + apply Hk.
    + intros q [? _]%elem_of_resync. by apply Hd.
    + intros q [_ ?]%elem_of_resync. done.
    + simpl. case_match; [by apply Hint|done].
    + by apply Hint.
Qed.

Lemma ordered_exec o s s' :
  wf s → ordered s → disciplined o s = true → exec o s = Ok s' → ordered s'.
Proof.
  intros Hwf [Hf Hi] Hdisc. destruct o as [seq h ml tx|seq h f|seq|n]; simpl in *.
  - zbool. intros (Hfree & Hun & Hl & Hcase)%AddUnconfirmed_Ok.
    assert (Hnext : nextSequence s <= nextSequence s' ∧ seq < nextSequence s').
    { destruct Hcase as [(?&->&?)|(?&->&->&?)]; [specialize (Hf seq); naive_solver lia|].
      pose proof (wf_next s Hwf) as [? ?]%is_int64_spec. unfold max_int64 in *.
      rewrite int64_id; [lia|]. apply is_int64_spec. lia. }
    constructor.
    + intros q Hq. enough (q < nextSequence s) by lia. apply Hf.
      destruct Hcase as [(?&?&E)|(?&?&?&E)]; rewrite E in Hq; set_solver.
    + intros q u. rewrite Hun, lookup_insert. case_decide; [naive_solver lia|].
      intros ?%Hi. lia.
  - intros (u & Hu & Hh & ->)%Confirm_Ok. constructor; simpl.
    + intros q Hq. destruct f; [apply elem_of_recycle in Hq|]; naive_solver lia.
    + intros q v [_ ?]%lookup_delete_Some. eauto.
  - zbool. intros [= <-]. constructor; simpl.
    + intros q Hq%elem_of_recycle. naive_solver lia.
    + intros q v [_ ?]%lookup_delete_Some. eauto.
  - intros [= <-]. constructor.
    + intros q [?%Hf _]%elem_of_resync. simpl. destruct (Z.ltb_spec (nextSequence s) n); lia.
    + intros q u ?%Hi. simpl. destruct (Z.ltb_spec (nextSequence s) n); lia.
Qed.

Lemma covered_exec o s s' used :
  wf s → covered s used → forward o s = true → exec o s = Ok s' →
  covered s' (used ∪ consumes o).
Proof.
  intros Hwf Hc Hfw. unfold covered in *. destruct o as [seq h ml tx|seq h f|seq|n]; simpl in *.
  - intros (Hfree & -> & -> & Hcase)%AddUnconfirmed_Ok q Hq.
    destruct (decide (q = seq)) as [->|Hne]; [left; rewrite lookup_insert_eq; eauto|].
    rewrite lookup_insert_ne by done.
    assert (lastOnchainSequence s <= q < nextSequence s) as [?|[?|?]]%Hc; [|set_solver..].
    destruct Hcase as [(?&E&?)|(?&->&E&?)]; rewrite E in Hq; [done|].
    pose proof (wf_next s Hwf) as [? ?]%is_int64_spec.
    destruct (decide (nextSequence s + 1 < 2 ^ 63)).
    + rewrite int64_id in Hq; [lia|]. apply is_int64_spec. lia.
    + pose proof (wf_onchain s Hwf) as [? ?]%is_int64_spec.
      replace (nextSequence s) with (2 ^ 63 - 1) in Hq by lia.
      change (int64 (2 ^ 63 - 1 + 1)) with (- 2 ^ 63) in Hq. lia.
  - intros (u & Hu & Hh & ->)%Confirm_Ok q Hq. simpl in *.
    destruct (decide (q = seq)) as [->|Hne].
    + right. destruct f; [left; apply elem_of_recycle; naive_solver lia|set_solver].
    + rewrite lookup_delete_ne by done. destruct (Hc q Hq) as [?|[?|?]]; [by left| |set_solver].
      right; left. destruct f; [apply elem_of_recycle; by left|done].
  - intros [= <-] q Hq. simpl in *. destruct (decide (q = seq)) as [->|Hne].
    + right; left. apply elem_of_recycle. naive_solver lia.
    + rewrite lookup_delete_ne by done. rewrite elem_of_recycle, elem_of_union.
      destruct (Hc q Hq); naive_solver.
  - zbool. intros [= <-] q Hq. simpl in Hq. rewrite elem_of_resync. simpl.
    destruct (Z.ltb_spec (nextSequence s) n); [lia|].
    assert (lastOnchainSequence s <= q < nextSequence s) as Hq' by lia.
    destruct (Hc q Hq') as [?|[?|?]]; [by left|right; left; split; [done|lia]|set_solver].
Qed.

Lemma reachable_wf allowed s used :
  (∀ o s, allowed o s = true → forward o s = true) → reachable allowed s used → wf s.
Proof.
  intros Hall. induction 1 as [|o s s' used Hs IH Ho He]; [by apply wf_new|].
  eapply wf_exec; [done| |done]. intros n ->. apply Hall in Ho. simpl in Ho. by zbool.
Qed.

Lemma reachable_run allowed ops s used s' used' :
  run allowed ops s used = Some (s', used') → reachable allowed s used →
  reachable allowed s' used'.
Proof.
  revert s used. induction ops as [|o ops IH]; intros s used; simpl; [by intros [= <- <-]|].
  destruct (allowed o s) eqn:Ha; [|done]. destruct (exec o s) eqn:He; [|done].
  intros Hrun Hr. eapply IH; [done|]. by econstructor.
Qed.

Lemma disciplined_forward o s : disciplined o s = true → forward o s = true.
Proof. by destruct o. Qed.

End TxStoreFacts.

(** ** Properties *)

Module TxStoreProps.
Import TxStore TxStoreRuns TxStoreFacts AccountStore.
Local Open Scope Z_scope.

Lemma reachable_disciplined_inv s used : reachable disciplined s used → wf s ∧ ordered s.
Proof.
  intros Hr. split; [by eapply reachable_wf; [apply disciplined_forward|]|].
  induction Hr as [|o s s' used Hs IH Ho He]; [constructor; simpl; set_solver|].
  eapply ordered_exec; [by eapply reachable_wf; [apply disciplined_forward|]|done..].
Qed.

(** The effect of each operation on the slots. *)
Lemma add_slots seq h ml tx s s' :
  wf s → AddUnconfirmed seq h ml tx s = Ok s' →
  slot_of s seq = Free ∧ (seq ∈ failedSequences s ∨ seq = nextSequence s) ∧
  (seq ∉ failedSequences s → nextSequence s = max_int64 →
     nextSequence s' = - 2 ^ 63 ∧ unconfirmedSequences s' !! seq = Some (mkUnconfirmedTx seq h ml tx)) ∧
  (seq ∈ failedSequences s ∨ nextSequence s ≠ max_int64 → ∀ q,
     slot_of s' q = set_slot (slot_of s) seq (InFlight (mkUnconfirmedTx seq h ml tx)) q).
Proof.
  intros Hwf (Hfree & Hun & Hl & Hcase)%AddUnconfirmed_Ok.
  unfold slot_of, set_slot. rewrite Hfree, Hun, lookup_insert_eq.
  assert (Hin : seq ∈ failedSequences s ∨ seq = nextSequence s) by naive_solver.
  split; [rewrite decide_True; [done|naive_solver lia]|]. split; [done|]. split.
  { intros Hnin Hmax. destruct Hcase as [(?&_)|(_&_&->&_)]; [done|]. by rewrite Hmax. }
  intros Hok q.
  assert (Hnext : q ≠ seq →
    (q ∈ failedSequences s' ∨ nextSequence s' <= q ↔ q ∈ failedSequences s ∨ nextSequence s <= q)).
  { intros Hq. destruct Hcase as [(?&->&->)|(?&->&->&->)]; [set_solver|].
    pose proof (wf_next s Hwf) as [? ?]%is_int64_spec. unfold max_int64 in *.
    rewrite int64_id by (apply is_int64_spec; intuition lia). intuition lia. }
  rewrite lookup_insert. repeat case_decide; naive_solver.
Qed.

Lemma confirm_slots seq h f s s' :
  wf s → Confirm seq h f s = Ok s' →
  (∃ u, slot_of s seq = InFlight u ∧ Hash u = h) ∧
  ∀ q, slot_of s' q = set_slot (slot_of s) seq (if f then given_back s seq else confirmed s seq) q.
Proof.
  intros Hwf (u & Hu & Hh & ->)%Confirm_Ok. unfold slot_of. rewrite Hu. split; [eauto|].
  pose proof (wf_disjoint s Hwf seq) as Hdis.
  intros q. unfold set_slot, given_back, confirmed. cbn -[recycle]. rewrite lookup_delete.
  destruct (decide (q = seq)) as [->|Hne]; [rewrite decide_True by done|rewrite decide_False by done].
  - destruct f, (Z.leb_spec (lastOnchainSequence s) seq), (Z.leb_spec (nextSequence s) seq);
      case_decide as Hc; try done; rewrite ?elem_of_recycle in Hc; naive_solver lia.
  - destruct (unconfirmedSequences s !! q); [done|].
    apply decide_ext. destruct f; [rewrite elem_of_recycle|]; naive_solver.
Qed.

Lemma release_slots seq s :
  wf s → ∀ q, slot_of (Release seq s) q = set_slot (slot_of s) seq (given_back s seq) q.
Proof.
  intros Hwf q. pose proof (wf_recyclable s Hwf seq) as Hrec.
  unfold slot_of, set_slot, given_back. cbn -[recycle]. rewrite lookup_delete.
  destruct (decide (q = seq)) as [->|Hne]; [rewrite decide_True by done|rewrite decide_False by done].
  - destruct (Z.leb_spec (lastOnchainSequence s) seq), (Z.leb_spec (nextSequence s) seq);
      case_decide as Hc; try done; rewrite ?elem_of_recycle in Hc; naive_solver lia.
  - destruct (unconfirmedSequences s !! q); [done|].
    apply decide_ext. rewrite elem_of_recycle. naive_solver.
Qed.

Lemma resync_slots n s q :
  slot_of (ResyncNonce n s) q =
    match slot_of s q with Free => if n <=? q then Free else Spent | v => v end.
Proof.
  pose proof (elem_of_resync q n s) as Hre. unfold slot_of, ResyncNonce in *; simpl in *.
  destruct (unconfirmedSequences s !! q) eqn:Hq; [done|].
  destruct (Z.ltb_spec (nextSequence s) n), (Z.leb_spec n q);
    repeat case_decide; done || (exfalso; intuition lia).
Qed.

Lemma add_refused seq h ml tx s e :
  AddUnconfirmed seq h ml tx s = Err e →
  slot_of s seq ≠ Free ∨ (seq ∉ failedSequences s ∧ seq ≠ nextSequence s).
Proof.
  unfold AddUnconfirmed, slot_of. destruct (unconfirmedSequences s !! seq); [by left|].
  destruct (decide (seq ∈ failedSequences s)); [done|].
  destruct (Z.ltb_spec seq (nextSequence s)); [right; split; [done|lia]|].
  destruct (Z.ltb_spec (nextSequence s) seq); [right; split; [done|lia]|done].
Qed.

Lemma confirm_refused seq h f s e :
  Confirm seq h f s = Err e → ∀ u, slot_of s seq = InFlight u → Hash u ≠ h.
Proof.
  unfold Confirm, slot_of. destruct (unconfirmedSequences s !! seq) as [v|]; [|intros; by case_decide].
  case_decide; [done|]. naive_solver.
Qed.

(** A small run used as witness: two transactions sent, the first one expired. *)
Definition demo_ops : list op :=
  [OpAddUnconfirmed 11 "a" 100 1%positive; OpAddUnconfirmed 12 "b" 100 2%positive;
   OpConfirm 11 "a" true].
Definition demo_store : TxStore :=
  mkTxStore 13 {[12 := mkUnconfirmedTx 12 "b" 100 2%positive]} {[11]} 11.

Lemma demo_reachable : reachable disciplined demo_store ∅.
Proof.
  apply (reachable_run _ demo_ops (NewTxStore 11) ∅); [by vm_compute|by apply (reach_new _ 11)].
Qed.

(** C3. Along every run in which the view of the chain only moves forward, no sequence
    number is lost: each one between the last on-chain sequence and [nextSequence] is in
    flight, waiting to be reused, or was consumed by a transaction that reached a ledger.
    On Stellar a lost sequence would block the account. *)
Theorem no_sequence_lost s used : reachable forward s used → covered s used.
Proof.
  induction 1 as [|o s s' used Hs IH Ho He].
  - intros q. simpl. lia.
  - eapply covered_exec; [by eapply reachable_wf|done..].
Qed.

Lemma no_sequence_lost_witness : covered demo_store ∅.
Proof.
  apply no_sequence_lost, (reachable_run _ demo_ops (NewTxStore 11) ∅);
    [by vm_compute|by apply (reach_new _ 11)].
Defined.

(** C5. The store refines the abstract allocator in which every sequence number is free,
    in flight or spent, whatever operation is called with whatever arguments, the release
    of a fresh number included.  [AddUnconfirmed] takes a free number into flight exactly
    when that number is [nextSequence] or waits to be reused, and is refused otherwise;
    only at the largest int64 does the counter wrap.  [Confirm] is refused unless it names
    the transaction in flight at that number; a failed transaction gives its number back,
    a successful one spends it if [nextSequence] is past it (a number that was released
    before it was ever counted is not recorded and becomes free again).  [Release] gives
    any number back: it is free afterwards unless the chain and [nextSequence] are both
    past it.  [ResyncNonce] spends the free numbers behind the chain.  No operation
    changes any other number, and each keeps the representation invariant. *)
Theorem store_refines_slots o s :
  wf s → typed o = true →
  match o, exec o s with
  | OpAddUnconfirmed seq h ml tx, Ok s' =>
      wf s' ∧ slot_of s seq = Free ∧ (seq ∈ failedSequences s ∨ seq = nextSequence s) ∧
      (seq ∉ failedSequences s → nextSequence s = max_int64 →
         nextSequence s' = - 2 ^ 63 ∧ unconfirmedSequences s' !! seq = Some (mkUnconfirmedTx seq h ml tx)) ∧
      (seq ∈ failedSequences s ∨ nextSequence s ≠ max_int64 → ∀ q,
         slot_of s' q = set_slot (slot_of s) seq (InFlight (mkUnconfirmedTx seq h ml tx)) q)
  | OpAddUnconfirmed seq h ml tx, Err _ =>
      slot_of s seq ≠ Free ∨ (seq ∉ failedSequences s ∧ seq ≠ nextSequence s)
  | OpConfirm seq h failed, Ok s' =>
      wf s' ∧ (∃ u, slot_of s seq = InFlight u ∧ Hash u = h) ∧
      ∀ q, slot_of s' q =
        set_slot (slot_of s) seq (if failed then given_back s seq else confirmed s seq) q
  | OpConfirm seq h failed, Err _ => ∀ u, slot_of s seq = InFlight u → Hash u ≠ h
  | OpRelease seq, Ok s' =>
      wf s' ∧ ∀ q, slot_of s' q = set_slot (slot_of s) seq (given_back s seq) q
  | OpResyncNonce n, Ok s' =>
      wf s' ∧ ∀ q, slot_of s' q =
        match slot_of s q with Free => if n <=? q then Free else Spent | v => v end
  | _, Err _ => False
  end.
Proof.
  intros Hwf Ht.
  assert (Hwf' : ∀ s', exec o s = Ok s' → wf s').
  { intros s'. apply wf_exec; [done|]. intros n ->. exact Ht. }
  destruct o as [seq h ml tx|seq h f|seq|n]; destruct (exec _ s) as [s'|e] eqn:He; try done;
    try (split; [by apply Hwf'|]).
  - by apply add_slots.
  - by eapply add_refused.
  - by apply (confirm_slots seq h f).
  - by eapply confirm_refused.
  - injection He as <-. by apply release_slots.
  - injection He as <-. intros q. apply resync_slots.
Qed.

(** The use the broadcaster makes of [Release]: a number of [GetNextSequence] whose
    transaction is never sent. *)
Lemma store_refines_slots_witness :
  wf (Release 13 demo_store) ∧
  ∀ q, slot_of (Release 13 demo_store) q = set_slot (slot_of demo_store) 13 Free q.
Proof.
  apply (store_refines_slots (OpRelease 13) demo_store); [|done].
  apply (reachable_disciplined_inv _ _ demo_reachable).
Defined.

(** In a disciplined run [GetNextSequence] returns the least free sequence number,
    and [AddUnconfirmed] at that number succeeds: a broadcast is never stuck. *)
Theorem next_sequence_least_free s used h ml tx :
  reachable disciplined s used → nextSequence s < max_int64 →
  slot_of s (GetNextSequence s) = Free ∧
  (∀ q, q < GetNextSequence s → slot_of s q ≠ Free) ∧
  is_ok (AddUnconfirmed (GetNextSequence s) h ml tx s) = true.
Proof.
  intros [Hw [Hf Hi]]%reachable_disciplined_inv Hmax. unfold GetNextSequence.
  pose proof (set_min_le_default (nextSequence s) (failedSequences s)) as Hle.
  assert (Hfree : unconfirmedSequences s !! set_min (nextSequence s) (failedSequences s) = None).
  { destruct (set_min_elem (nextSequence s) (failedSequences s)) as [->|Hin];
      [|by apply (wf_disjoint s)].
    apply eq_None_not_Some. intros [u Hu]. apply Hi in Hu. lia. }
  split; [|split].
  - unfold slot_of. rewrite Hfree, decide_True; [done|].
    destruct (set_min_elem (nextSequence s) (failedSequences s)) as [->|?]; [right; lia|by left].
  - intros q Hq. unfold slot_of. destruct (unconfirmedSequences s !! q); [done|].
    rewrite decide_False; [done|]. intros [Hin|?]; [|lia].
    apply (set_min_le (nextSequence s)) in Hin. lia.
  - unfold AddUnconfirmed. rewrite Hfree. case_decide as Hin; [done|].
    destruct (set_min_elem (nextSequence s) (failedSequences s)) as [E|?]; [|done].
    rewrite E. by rewrite Z.ltb_irrefl.
Qed.

Lemma next_sequence_least_free_witness :
  slot_of demo_store (GetNextSequence demo_store) = Free ∧
  (∀ q, q < GetNextSequence demo_store → slot_of demo_store q ≠ Free) ∧
  is_ok (AddUnconfirmed (GetNextSequence demo_store) "c" 120 3%positive demo_store) = true.
Proof. eapply next_sequence_least_free; [apply demo_reachable|done]. Defined.

(** The discipline is needed, and [Release] as written does not enforce it: once the
    number [GetNextSequence] returned for a fresh transaction is released (the broadcaster
    does so when simulation, assembly or signing fails), the next transaction takes the
    same number without advancing [nextSequence], so the store then proposes that number
    a second time and refuses it as already used. *)
Theorem released_fresh_sequence_collides s h1 m1 t1 h2 m2 t2 :
  wf s → ordered s → failedSequences s = ∅ → lastOnchainSequence s <= nextSequence s →
  let seq := GetNextSequence s in
  let s1 := Release seq s in
  ∃ s2, AddUnconfirmed (GetNextSequence s1) h1 m1 t1 s1 = Ok s2 ∧
    GetNextSequence s2 = seq ∧
    is_ok (AddUnconfirmed (GetNextSequence s2) h2 m2 t2 s2) = false ∧
    unconfirmedSequences (Release seq s2) !! seq = None.
Proof.
  intros Hw [Hf Hi] Hempty Hle seq s1.
  assert (seq = nextSequence s) as Hseq by (unfold seq, GetNextSequence; by rewrite Hempty).
  assert (failedSequences s1 = {[seq]}) as Hf1.
  { unfold s1. cbn -[recycle]. unfold recycle. rewrite Hempty, Hseq.
    destruct (Z.leb_spec (lastOnchainSequence s) (nextSequence s)); [set_solver|lia]. }
  assert (Hn1 : GetNextSequence s1 = seq).
  { unfold GetNextSequence. rewrite Hf1. change (nextSequence s1) with (nextSequence s).
    rewrite Hseq. unfold set_min. rewrite set_fold_singleton. lia. }
  rewrite Hn1.
  exists (mkTxStore (nextSequence s)
            (<[seq := mkUnconfirmedTx seq h1 m1 t1]> (delete seq (unconfirmedSequences s)))
            (failedSequences s1 ∖ {[seq]}) (lastOnchainSequence s)).
  split.
  { apply AddUnconfirmed_Ok. cbn [unconfirmedSequences nextSequence failedSequences lastOnchainSequence].
    rewrite Hf1. split; [apply lookup_delete_eq|].
    repeat split. left. repeat split. set_solver. }
  split; [|split].
  - unfold GetNextSequence. simpl. replace (failedSequences s1 ∖ {[seq]}) with (∅ : gset Z)
      by (rewrite Hf1; set_solver). by rewrite Hseq.
  - unfold GetNextSequence. simpl. replace (failedSequences s1 ∖ {[seq]}) with (∅ : gset Z)
      by (rewrite Hf1; set_solver). unfold set_min. rewrite set_fold_empty, <- Hseq.
    unfold AddUnconfirmed. simpl. by rewrite lookup_insert_eq.
  - simpl. by rewrite lookup_delete_eq.
Qed.

Lemma released_fresh_sequence_collides_witness :
  let s := NewTxStore 10 in
  let s1 := Release 10 s in
  ∃ s2, AddUnconfirmed (GetNextSequence s1) "a" 100 1%positive s1 = Ok s2 ∧
    GetNextSequence s2 = 10 ∧
    is_ok (AddUnconfirmed (GetNextSequence s2) "b" 100 2%positive s2) = false ∧
    unconfirmedSequences (Release 10 s2) !! 10 = None.
Proof.
  apply (released_fresh_sequence_collides (NewTxStore 10)); [| |done|by vm_compute].
  - by apply wf_new.
  - constructor; simpl; set_solver.
Defined.

Lemma Permutation_sorted_unique (l1 l2 : list UnconfirmedTx) :
  NoDup (Sequence <$> l1) → StronglySorted seq_le l1 → StronglySorted seq_le l2 →
  l1 ≡ₚ l2 → l1 = l2.
Proof.
  revert l2. induction l1 as [|x l1 IH]; intros l2 Hnd Hs1 Hs2 Hp.
  { by apply Permutation_nil_l in Hp. }
  destruct l2 as [|y l2]; [by apply Permutation_nil_r in Hp|].
  inversion Hs1 as [|?? Hs1' Hx]; inversion Hs2 as [|?? Hs2' Hy]; subst.
  rewrite Forall_forall in Hx, Hy. apply NoDup_cons in Hnd as [Hnx Hnd].
  assert (x = y) as ->.
  { assert (y ∈ x :: l1) as Hin by (rewrite Hp; by left).
    apply elem_of_cons in Hin as [->|Hin]; [done|].
    assert (x ∈ y :: l2) as Hin' by (rewrite <- Hp; by left).
    apply elem_of_cons in Hin' as [->|Hin']; [done|].
    exfalso. apply Hnx. apply list_elem_of_fmap. exists y. split; [|done].
    specialize (Hx y Hin). specialize (Hy x Hin'). unfold seq_le in *. lia. }
  f_equal. apply IH; [done..|]. by apply Permutation_cons_inv in Hp.
Qed.

#[local] Instance seq_le_trans : Transitive seq_le.
Proof. intros a b c. unfold seq_le. lia. Qed.
#[local] Instance seq_le_total : Total seq_le.
Proof. intros a b. unfold seq_le. lia. Qed.

Lemma map_values_sequences s :
  wf s → Sequence <$> (snd <$> map_to_list (unconfirmedSequences s))
         = fst <$> map_to_list (unconfirmedSequences s).
Proof.
  intros Hw. rewrite <- list_fmap_compose. apply list_fmap_ext.
  intros i [q u] Hl. simpl. apply (wf_keys s Hw).
  apply elem_of_map_to_list. by eapply list_elem_of_lookup_2.
Qed.

(** Go enumerates a map in an unspecified order; the snapshot of the in-flight
    transactions does not depend on it.  Sorting any enumeration of the map gives
    [GetUnconfirmed], which lists every in-flight transaction once, by strictly
    increasing sequence. *)
Theorem unconfirmed_snapshot_deterministic s (values : list UnconfirmedTx) :
  wf s → values ≡ₚ (map_to_list (unconfirmedSequences s)).*2 →
  merge_sort seq_le values = GetUnconfirmed s ∧
  StronglySorted Z.lt (Sequence <$> GetUnconfirmed s) ∧
  (∀ u, u ∈ GetUnconfirmed s ↔ unconfirmedSequences s !! Sequence u = Some u).
Proof.
  intros Hw Hperm.
  assert (Hnd : NoDup (Sequence <$> GetUnconfirmed s)).
  { unfold GetUnconfirmed. rewrite merge_sort_Permutation, map_values_sequences by done.
    apply NoDup_fst_map_to_list. }
  assert (Hss : StronglySorted seq_le (GetUnconfirmed s)) by (apply StronglySorted_merge_sort; apply _).
  split; [|split].
  - symmetry. apply Permutation_sorted_unique; [done|done|apply StronglySorted_merge_sort; apply _|].
    unfold GetUnconfirmed. by rewrite !merge_sort_Permutation.
  - induction Hss as [|u l Hl IH Hu]; [constructor|]. simpl.
    apply NoDup_cons in Hnd as [Hnu Hnd]. constructor; [by apply IH|].
    rewrite Forall_fmap, Forall_forall. rewrite Forall_forall in Hu. intros v Hv. simpl.
    specialize (Hu v Hv). unfold seq_le in Hu.
    assert (Sequence u ≠ Sequence v) by (intros E; apply Hnu; rewrite E; by apply list_elem_of_fmap_2).
    lia.
  - intros u. unfold GetUnconfirmed. rewrite merge_sort_Permutation, list_elem_of_fmap. split.
    + intros ([q v] & -> & Hv%elem_of_map_to_list). simpl. by rewrite (wf_keys s Hw _ _ Hv).
    + intros Hu. exists (Sequence u, u). by rewrite elem_of_map_to_list.
Qed.

Lemma unconfirmed_snapshot_deterministic_witness :
  merge_sort seq_le [mkUnconfirmedTx 12 "b" 100 2%positive] = GetUnconfirmed demo_store ∧
  StronglySorted Z.lt (Sequence <$> GetUnconfirmed demo_store) ∧
  (∀ u, u ∈ GetUnconfirmed demo_store ↔
     unconfirmedSequences demo_store !! Sequence u = Some u).
Proof.
  apply unconfirmed_snapshot_deterministic; [|by vm_compute].
  apply (reachable_disciplined_inv _ _ demo_reachable).
Defined.

(** The total in-flight count is the number of records [GetAllUnconfirmed] hands out. *)
Lemma total_inflight_count (c : gmap string TxStore) :
  GetTotalInflightCount c
  = sum_list ((λ p : string * list UnconfirmedTx, length p.2) <$> map_to_list (GetAllUnconfirmed c)).
Proof.
  unfold GetTotalInflightCount, GetAllUnconfirmed.
  induction c as [|a s c Ha IH] using map_ind; [by rewrite fmap_empty, map_to_list_empty|].
  rewrite map_fold_insert_L by (lia || done). rewrite IH, fmap_insert.
  rewrite map_to_list_insert by (by rewrite lookup_fmap, Ha). rewrite fmap_cons. simpl sum_list.
  assert (length (GetUnconfirmed s) = InflightCount s) as ->; [|lia].
  unfold InflightCount, GetUnconfirmed.
  by rewrite merge_sort_Permutation, length_fmap, length_map_to_list.
Qed.

End TxStoreProps.
