(* ===== verification/Tx.v ===== *)
(** The transaction manager's data: src/relayer/txm/tx.go and the [StellarTxm] struct of
    src/relayer/txm/txm.go.

    A [*StellarTx] is a [loc] of [heap]; a txnbuild operation is shared by pointer
    ([assembleTransaction] writes into it), a [loc] of [opheap]. [World] is the memory all
    goroutines of one manager share; the metrics it emits are a log. *)

From stdpp Require Import base gmap list strings.
From S2P Require Import Prelude Sdk TxStore Fee Prog.

Module Tx.
Local Open Scope Z_scope.

(** [type ErrorReason string] and its constants. *)
Definition ErrorReason : Type := string.
Definition ErrorReasonSequenceNumber : ErrorReason := "sequence_number".
Definition ErrorReasonStoreCreate : ErrorReason := "store_create".
Definition ErrorReasonSimulation : ErrorReason := "simulation".
Definition ErrorReasonAssembly : ErrorReason := "assembly".
Definition ErrorReasonSigning : ErrorReason := "signing".
Definition ErrorReasonNoHash : ErrorReason := "no_hash".
Definition ErrorReasonStoreAdd : ErrorReason := "store_add".
Definition ErrorReasonUnknownSubmit : ErrorReason := "unknown_submit".
Definition ErrorReasonMaxRetries : ErrorReason := "max_retries".
Definition ErrorReasonRevert : ErrorReason := "revert".
Definition ErrorReasonRevertDecode : ErrorReason := ErrorReasonRevert +:+ "_decode_error".
Definition ErrorReasonTimedOut : ErrorReason := "timed_out".
Definition ErrorReasonBadSeq : ErrorReason := "bad_seq".
Definition ErrorReasonRestoreFailed : ErrorReason := "restore_failed".
Definition ErrorReasonTryAgainLater : ErrorReason := "try_again_later".
Definition ErrorReasonClientUnavailable : ErrorReason := "client_unavailable".
Definition ErrorReasonInsufficientFee : ErrorReason := "insufficient_fee".
Definition ErrorReasonInternalError : ErrorReason := "internal_error".
Definition ErrorReasonNilTx : ErrorReason := "nil_tx".
Definition ErrorReasonNilTxStore : ErrorReason := "nil_tx_store".
Definition ErrorReasonSubmitErrorUndecoded : ErrorReason := "submit_error_undecoded".

Inductive DropReason := ChannelFullOldestEvicted | ChannelFullNewRejected.
Definition DropReason_text (r : DropReason) : string :=
  match r with
  | ChannelFullOldestEvicted => "channel_full_oldest_evicted"
  | ChannelFullNewRejected => "channel_full_new_rejected"
  end.
Inductive RetryReason := ResourceExhaustion | TimedOut.
Inductive RetryBudget := RetryBudgetLifecycle | RetryBudgetInfra.
Inductive RestoreOutcome := RestoreInitiated | RestoreSuccess | RestoreFailed.

(** One constructor per method of the [TxmMetrics] interface. *)
Inductive metric :=
| IncrementBroadcastedTxs
| IncrementSuccessTxs
| SetPendingTxs (n : nat)
| IncrementErrorTxs (r : ErrorReason)
| IncrementRetryTxs (r : RetryReason)
| IncrementDroppedTxs (r : DropReason)
| IncrementMaxAttemptsReached (b : RetryBudget)
| IncrementRestore (o : RestoreOutcome)
| ObserveSimulationDuration (ms : Z)
| ObserveInclusionFee (fee : Z)
| ObserveResourceFee (fee : Z)
| RecordTimeUntilTxConfirmed (ns : Z).

Record StellarTx := mkStellarTx {
  ID : string;
  Timestamp : Z;   (* time.Time, nanoseconds *)
  FromAddress : string;
  Operations : list loc;   (* pointers, shared with the caller *)
  LedgerBoundsOffset : Z;   (* uint32, 0 = use config default *)
  Attempt : Z;   (* uint64 *)
  InfraAttempts : Z;   (* uint64 *)
  Status : TransactionStatus;
  TerminalTime : option Z;   (* None is the zero time *)
  BroadcastAt : option Z;   (* None is the zero time *)
  TxHash : string;
  Fee : option Z;   (* *big.Int *)
  LedgerCloseTime : Z;   (* int64 *)
  ResultXDR : string;
  ResultCode : string;
  ResultMetaXDR : string;
  txMaxLedger : Z;   (* uint32 *)
  txMinResourceFee : Z;   (* int64 *)
  DoneClosed : bool   (* whether the Done channel is closed *)
}.

(** Field assignments [tx.F = v]. *)
Definition set_Attempt (v : Z) (t : StellarTx) : StellarTx :=
  mkStellarTx (ID t) (Timestamp t) (FromAddress t) (Operations t) (LedgerBoundsOffset t) v
    (InfraAttempts t) (Status t) (TerminalTime t) (BroadcastAt t) (TxHash t) (Fee t)
    (LedgerCloseTime t) (ResultXDR t) (ResultCode t) (ResultMetaXDR t) (txMaxLedger t) (txMinResourceFee t) (DoneClosed t).
Definition set_InfraAttempts (v : Z) (t : StellarTx) : StellarTx :=
  mkStellarTx (ID t) (Timestamp t) (FromAddress t) (Operations t) (LedgerBoundsOffset t) (Attempt t)
    v (Status t) (TerminalTime t) (BroadcastAt t) (TxHash t) (Fee t)
    (LedgerCloseTime t) (ResultXDR t) (ResultCode t) (ResultMetaXDR t) (txMaxLedger t) (txMinResourceFee t) (DoneClosed t).
Definition set_Status (v : TransactionStatus) (t : StellarTx) : StellarTx :=
  mkStellarTx (ID t) (Timestamp t) (FromAddress t) (Operations t) (LedgerBoundsOffset t) (Attempt t)
    (InfraAttempts t) v (TerminalTime t) (BroadcastAt t) (TxHash t) (Fee t)
    (LedgerCloseTime t) (ResultXDR t) (ResultCode t) (ResultMetaXDR t) (txMaxLedger t) (txMinResourceFee t) (DoneClosed t).
Definition set_TerminalTime (v : option Z) (t : StellarTx) : StellarTx :=
  mkStellarTx (ID t) (Timestamp t) (FromAddress t) (Operations t) (LedgerBoundsOffset t) (Attempt t)
    (InfraAttempts t) (Status t) v (BroadcastAt t) (TxHash t) (Fee t)
    (LedgerCloseTime t) (ResultXDR t) (ResultCode t) (ResultMetaXDR t) (txMaxLedger t) (txMinResourceFee t) (DoneClosed t).
Definition set_BroadcastAt (v : option Z) (t : StellarTx) : StellarTx :=
  mkStellarTx (ID t) (Timestamp t) (FromAddress t) (Operations t) (LedgerBoundsOffset t) (Attempt t)
    (InfraAttempts t) (Status t) (TerminalTime t) v (TxHash t) (Fee t)
    (LedgerCloseTime t) (ResultXDR t) (ResultCode t) (ResultMetaXDR t) (txMaxLedger t) (txMinResourceFee t) (DoneClosed t).
Definition set_TxHash (v : string) (t : StellarTx) : StellarTx :=
  mkStellarTx (ID t) (Timestamp t) (FromAddress t) (Operations t) (LedgerBoundsOffset t) (Attempt t)
    (InfraAttempts t) (Status t) (TerminalTime t) (BroadcastAt t) v (Fee t)
    (LedgerCloseTime t) (ResultXDR t) (ResultCode t) (ResultMetaXDR t) (txMaxLedger t) (txMinResourceFee t) (DoneClosed t).
Definition set_Fee (v : option Z) (t : StellarTx) : StellarTx :=
  mkStellarTx (ID t) (Timestamp t) (FromAddress t) (Operations t) (LedgerBoundsOffset t) (Attempt t)
    (InfraAttempts t) (Status t) (TerminalTime t) (BroadcastAt t) (TxHash t) v
    (LedgerCloseTime t) (ResultXDR t) (ResultCode t) (ResultMetaXDR t) (txMaxLedger t) (txMinResourceFee t) (DoneClosed t).
Definition set_LedgerCloseTime (v : Z) (t : StellarTx) : StellarTx :=
  mkStellarTx (ID t) (Timestamp t) (FromAddress t) (Operations t) (LedgerBoundsOffset t) (Attempt t)
    (InfraAttempts t) (Status t) (TerminalTime t) (BroadcastAt t) (TxHash t) (Fee t)
    v (ResultXDR t) (ResultCode t) (ResultMetaXDR t) (txMaxLedger t) (txMinResourceFee t) (DoneClosed t).
Definition set_ResultXDR (v : string) (t : StellarTx) : StellarTx :=
  mkStellarTx (ID t) (Timestamp t) (FromAddress t) (Operations t) (LedgerBoundsOffset t) (Attempt t)
    (InfraAttempts t) (Status t) (TerminalTime t) (BroadcastAt t) (TxHash t) (Fee t)
    (LedgerCloseTime t) v (ResultCode t) (ResultMetaXDR t) (txMaxLedger t) (txMinResourceFee t) (DoneClosed t).
Definition set_ResultCode (v : string) (t : StellarTx) : StellarTx :=
  mkStellarTx (ID t) (Timestamp t) (FromAddress t) (Operations t) (LedgerBoundsOffset t) (Attempt t)
    (InfraAttempts t) (Status t) (TerminalTime t) (BroadcastAt t) (TxHash t) (Fee t)
    (LedgerCloseTime t) (ResultXDR t) v (ResultMetaXDR t) (txMaxLedger t) (txMinResourceFee t) (DoneClosed t).
Definition set_ResultMetaXDR (v : string) (t : StellarTx) : StellarTx :=
  mkStellarTx (ID t) (Timestamp t) (FromAddress t) (Operations t) (LedgerBoundsOffset t) (Attempt t)
    (InfraAttempts t) (Status t) (TerminalTime t) (BroadcastAt t) (TxHash t) (Fee t)
    (LedgerCloseTime t) (ResultXDR t) (ResultCode t) v (txMaxLedger t) (txMinResourceFee t) (DoneClosed t).
Definition set_txMaxLedger (v : Z) (t : StellarTx) : StellarTx :=
  mkStellarTx (ID t) (Timestamp t) (FromAddress t) (Operations t) (LedgerBoundsOffset t) (Attempt t)
    (InfraAttempts t) (Status t) (TerminalTime t) (BroadcastAt t) (TxHash t) (Fee t)
    (LedgerCloseTime t) (ResultXDR t) (ResultCode t) (ResultMetaXDR t) v (txMinResourceFee t) (DoneClosed t).
Definition set_txMinResourceFee (v : Z) (t : StellarTx) : StellarTx :=
  mkStellarTx (ID t) (Timestamp t) (FromAddress t) (Operations t) (LedgerBoundsOffset t) (Attempt t)
    (InfraAttempts t) (Status t) (TerminalTime t) (BroadcastAt t) (TxHash t) (Fee t)
    (LedgerCloseTime t) (ResultXDR t) (ResultCode t) (ResultMetaXDR t) (txMaxLedger t) v (DoneClosed t).
Definition set_DoneClosed (v : bool) (t : StellarTx) : StellarTx :=
  mkStellarTx (ID t) (Timestamp t) (FromAddress t) (Operations t) (LedgerBoundsOffset t) (Attempt t)
    (InfraAttempts t) (Status t) (TerminalTime t) (BroadcastAt t) (TxHash t) (Fee t)
    (LedgerCloseTime t) (ResultXDR t) (ResultCode t) (ResultMetaXDR t) (txMaxLedger t) (txMinResourceFee t) v.

Record TxRequest := mkTxRequest {
  reqID : string;
  reqFromAddress : string;
  reqOperations : list loc;
  reqLedgerBoundsOffset : Z
}.

Record TxResult := mkTxResult {
  resID : string;
  resHash : string;
  resStatus : TransactionStatus;
  resFee : option Z;
  resLedgerCloseTime : Z;
  resResultXDR : string;
  resResultMetaXDR : string;
  resError : option string
}.

Section world.
Context {ST : SdkTypes}.

Record World := mkWorld {
  heap : gmap loc StellarTx;
  opheap : gmap loc Operation;
  nextLoc : loc;
  transactions : gmap string loc;
  broadcastChan : list loc;
  chanClosed : bool;
  stopped : bool;
  running : Z;
  accountStore : gmap string TxStore.TxStore;
  feeTracker : FeeTracker.feeTracker;
  feeLock : bool;
  metrics : list metric
}.

Definition upd_heap (g : gmap loc StellarTx → gmap loc StellarTx) (w : World) : World :=
  mkWorld (g (heap w)) (opheap w) (nextLoc w) (transactions w) (broadcastChan w) (chanClosed w)
    (stopped w) (running w) (accountStore w) (feeTracker w) (feeLock w) (metrics w).
Definition upd_opheap (g : gmap loc Operation → gmap loc Operation) (w : World) : World :=
  mkWorld (heap w) (g (opheap w)) (nextLoc w) (transactions w) (broadcastChan w) (chanClosed w)
    (stopped w) (running w) (accountStore w) (feeTracker w) (feeLock w) (metrics w).
Definition upd_nextLoc (g : loc → loc) (w : World) : World :=
  mkWorld (heap w) (opheap w) (g (nextLoc w)) (transactions w) (broadcastChan w) (chanClosed w)
    (stopped w) (running w) (accountStore w) (feeTracker w) (feeLock w) (metrics w).
Definition upd_transactions (g : gmap string loc → gmap string loc) (w : World) : World :=
  mkWorld (heap w) (opheap w) (nextLoc w) (g (transactions w)) (broadcastChan w) (chanClosed w)
    (stopped w) (running w) (accountStore w) (feeTracker w) (feeLock w) (metrics w).
Definition upd_broadcastChan (g : list loc → list loc) (w : World) : World :=
  mkWorld (heap w) (opheap w) (nextLoc w) (transactions w) (g (broadcastChan w)) (chanClosed w)
    (stopped w) (running w) (accountStore w) (feeTracker w) (feeLock w) (metrics w).
Definition upd_chanClosed (g : bool → bool) (w : World) : World :=
  mkWorld (heap w) (opheap w) (nextLoc w) (transactions w) (broadcastChan w) (g (chanClosed w))
    (stopped w) (running w) (accountStore w) (feeTracker w) (feeLock w) (metrics w).
Definition upd_stopped (g : bool → bool) (w : World) : World :=
  mkWorld (heap w) (opheap w) (nextLoc w) (transactions w) (broadcastChan w) (chanClosed w)
    (g (stopped w)) (running w) (accountStore w) (feeTracker w) (feeLock w) (metrics w).
Definition upd_running (g : Z → Z) (w : World) : World :=
  mkWorld (heap w) (opheap w) (nextLoc w) (transactions w) (broadcastChan w) (chanClosed w)
    (stopped w) (g (running w)) (accountStore w) (feeTracker w) (feeLock w) (metrics w).
Definition upd_accountStore (g : gmap string TxStore.TxStore → gmap string TxStore.TxStore) (w : World) : World :=
  mkWorld (heap w) (opheap w) (nextLoc w) (transactions w) (broadcastChan w) (chanClosed w)
    (stopped w) (running w) (g (accountStore w)) (feeTracker w) (feeLock w) (metrics w).
Definition upd_feeTracker (g : FeeTracker.feeTracker → FeeTracker.feeTracker) (w : World) : World :=
  mkWorld (heap w) (opheap w) (nextLoc w) (transactions w) (broadcastChan w) (chanClosed w)
    (stopped w) (running w) (accountStore w) (g (feeTracker w)) (feeLock w) (metrics w).
Definition upd_feeLock (g : bool → bool) (w : World) : World :=
  mkWorld (heap w) (opheap w) (nextLoc w) (transactions w) (broadcastChan w) (chanClosed w)
    (stopped w) (running w) (accountStore w) (feeTracker w) (g (feeLock w)) (metrics w).
Definition upd_metrics (g : list metric → list metric) (w : World) : World :=
  mkWorld (heap w) (opheap w) (nextLoc w) (transactions w) (broadcastChan w) (chanClosed w)
    (stopped w) (running w) (accountStore w) (feeTracker w) (feeLock w) (g (metrics w)).

#[local] Abbreviation txm := (prog World ext).

(** [s.metrics.M(ctx, ...)]. *)
Definition emit (m : metric) : txm unit := modify (upd_metrics (λ l, l ++ [m])).

(** A write through a [*StellarTx] pointer. *)
Definition alter_tx (l : loc) (g : StellarTx → StellarTx) (w : World) : World :=
  upd_heap (alter g l) w.
Definition write_tx (l : loc) (g : StellarTx → StellarTx) : txm unit := modify (alter_tx l g).

(** A read through a pointer: a nil or wild pointer panics. *)
Definition read_tx (l : loc) : txm StellarTx :=
  gets (λ w, heap w !! l) ≫= λ o,
  match o with Some t => Ret t | None => Panic "nil pointer dereference" end.
End world.
Abbreviation txm := (prog World ext) (only parsing).

(** The text [ErrorReasonRevertDecode] has in metrics. *)
Example revert_decode_text : ErrorReasonRevertDecode = "revert_decode_error".
Proof. reflexivity. Qed.
End Tx.

(** * Classification of on-chain failures: src/relayer/txm/failed_result.go. *)

Module FailedResult.
Import Tx.

Section failed_result.
Context {ST : SdkTypes} {SD : Sdk}.

Record failedTxClassification := mkClassification {
  fcResultCode : ErrorReason;
  retryable : bool
}.

Definition isRetryableInvokeHostFunctionResult (code : InvokeHostFunctionResultCode) : bool :=
  match code with
  | IHFResourceLimitExceeded | IHFEntryArchived | IHFInsufficientRefundableFee => true
  | IHFOther _ => false
  end.

(** The body of the loop over the operation results: every branch returns. *)
Definition classify_op (opResult : OperationResult) : failedTxClassification :=
  if decide (opCode opResult ≠ OpInner) then
    mkClassification (OperationResultCode_String (opCode opResult))
      (bool_decide (opCode opResult = OpExceededWorkLimit))
  else match opTr opResult with
  | None => mkClassification (OperationResultCode_String (opCode opResult)) false
  | Some tr =>
      match trInvokeHostFunctionResult tr with
      | Some code =>
          mkClassification (InvokeHostFunctionResultCode_String code)
            (isRetryableInvokeHostFunctionResult code)
      | None => mkClassification (trType tr) false
      end
  end.

Definition classifyFailedTransactionResult (resultXDR : string) : failedTxClassification :=
  if decide (resultXDR = "") then mkClassification ErrorReasonRevert false
  else match UnmarshalTransactionResult resultXDR with
  | Err _ => mkClassification ErrorReasonRevertDecode false
  | Ok txResult =>
      let resultCode := TransactionResultCode_String (resultCode txResult) in
      match resultResults txResult with
      | None | Some [] => mkClassification resultCode false
      | Some (opResult :: _) => classify_op opResult
      end
  end.

(** An on-chain failure is retried exactly when the result decodes and its first
    operation exceeded the work limit, or was an invocation that ran out of resources,
    met an archived entry or had too small a refundable fee. An empty, undecodable or
    operation-less result is never retried. *)
Theorem classify_retryable_iff resultXDR :
  retryable (classifyFailedTransactionResult resultXDR) = true ↔
  resultXDR ≠ "" ∧
  ∃ r op rest, UnmarshalTransactionResult resultXDR = Ok r ∧ resultResults r = Some (op :: rest) ∧
    (opCode op = OpExceededWorkLimit ∨
     ∃ ty code, opCode op = OpInner ∧ opTr op = Some (mkOperationResultTr ty (Some code)) ∧
       (code = IHFResourceLimitExceeded ∨ code = IHFEntryArchived ∨
        code = IHFInsufficientRefundableFee)).
Proof.
  unfold classifyFailedTransactionResult. case_decide as He; [simpl; naive_solver|].
  destruct (UnmarshalTransactionResult resultXDR) as [r|e]; [|simpl; naive_solver].
  destruct r as [fee c [[|[oc tr] rest]|]]; simpl; [naive_solver| |naive_solver].
  unfold classify_op; simpl. case_decide as Hc; simpl.
  { rewrite bool_decide_eq_true. split.
    - intros ->. split; [done|]. eexists _, _, _. split_and!; [done..|]. by left.
    - intros (_ & ? & ? & ? & [= <-] & [= <- <-] & [?|(? & ? & ? & _)]); done. }
  subst oc. destruct tr as [[ty [code|]]|]; simpl.
  - split.
    + intros Hr. split; [done|]. eexists _, _, _. split_and!; [done..|]. right.
      exists ty, code. split_and!; [done..|]. destruct code; naive_solver.
    + intros (_ & ? & ? & ? & [= <-] & [= <- <-] & [?|(? & ? & _ & [= <- <-] & Hr)]); [done|].
      by destruct Hr as [->|[->| ->]].
  - split; [done|].
    intros (_ & ? & ? & ? & [= <-] & [= <- <-] & [?|(? & ? & _ & [=] & _)]); done.
  - split; [done|].
    intros (_ & ? & ? & ? & [= <-] & [= <- <-] & [?|(? & ? & _ & [=] & _)]); done.
Qed.
End failed_result.
End FailedResult.
