(* ===== verification/Txm.v ===== *)
(** The manager's entry points and transaction states: src/relayer/txm/txm.go.

    Enqueueing with its backpressure policy, the status queries, and the helpers through
    which every goroutine changes a transaction. A critical section of
    [transactionsLock] is one step. *)

From Stdlib Require Import SpecFloat.
From stdpp Require Import base gmap list strings pretty.
From S2P Require Import Prelude GoStrings Config Float Fee Prog Sdk TxStore Tx.

Module Txm.
Import Config Tx.
Local Open Scope Z_scope.

Section txm.
Context {ST : SdkTypes} {SD : Sdk} {UT : UnicodeTables} (cfg : Resolved).

(** ** Memory and channel operations *)

(** [&StellarTx{...}]. *)
Definition alloc_tx (t : StellarTx) : txm loc :=
  atomic (λ w, (nextLoc w, upd_nextLoc Pos.succ (upd_heap (insert (nextLoc w) t) w))).

(** [select { case s.broadcastChan <- tx: ...; default: ... }] *)
Definition try_send (l : loc) : txm bool :=
  atomic (λ w,
    if chanClosed w then (None, w)
    else if Z.of_nat (length (broadcastChan w)) <? broadcastChanSize cfg
    then (Some true, upd_broadcastChan (λ q, q ++ [l]) w)
    else (Some false, w)) ≫= λ o,
  match o with Some b => Ret b | None => Panic "send on closed channel" end.

(** [select { case tx = <-s.broadcastChan: ...; default: }] ([None]: empty, or the zero
    value of a closed channel). *)
Definition try_recv : txm (option loc) :=
  atomic (λ w, match broadcastChan w with
               | [] => (None, w)
               | l :: q => (Some l, upd_broadcastChan (λ _, q) w)
               end).

(** ** Transaction status helpers *)

Definition isTerminalStatus (status : TransactionStatus) : bool :=
  bool_decide (status = Finalized) || bool_decide (status = Failed).

Definition terminalPastRetention (t : StellarTx) (expiration now : Z) : bool :=
  if negb (isTerminalStatus (Status t)) then false
  else match TerminalTime t with
  | None => false
  | Some terminalTime => expiration <=? now - terminalTime
  end.

(** [closeDone]: [doneOnce] makes closing idempotent. *)
Definition closeDone (l : loc) : txm unit := write_tx l (set_DoneClosed true).

Definition maybeEvictTerminalTx (l : loc) (w : World) : World :=
  if 0 <? pruneInterval cfg then w
  else match heap w !! l with
  | Some t => upd_transactions (delete (ID t)) w
  | None => w
  end.

(** The critical section of [updateTransactionStatus]. *)
Definition status_section (l : loc) (status : TransactionStatus) (now : Z) (w : World) : World :=
  let w := alter_tx l (set_Status status) w in
  if isTerminalStatus status then
    let w := alter_tx l (λ t, match TerminalTime t with
                              | None => set_TerminalTime (Some now) t
                              | Some _ => t
                              end) w in
    maybeEvictTerminalTx l w
  else w.

Definition updateTransactionStatus (l : loc) (status : TransactionStatus) : txm unit :=
  now ← call ENow;
  modify (status_section l status now);;
  if isTerminalStatus status then closeDone l else Ret tt.

Definition markTxFailed (l : loc) (metricReason : ErrorReason) : txm unit :=
  updateTransactionStatus l Failed;;
  emit (IncrementErrorTxs metricReason).

Definition markBroadcastAt (l : loc) : txm unit :=
  now ← call ENow;
  write_tx l (set_BroadcastAt (Some now)).

Definition recordTimeUntilConfirmed (l : loc) : txm unit :=
  t ← read_tx l;
  match BroadcastAt t with
  | None => Ret tt
  | Some broadcastAt =>
      now ← call ENow;
      emit (RecordTimeUntilTxConfirmed (now - broadcastAt))
  end.

Definition updateTransactionHash (l : loc) (hash : string) : txm unit :=
  write_tx l (set_TxHash hash).
Definition updateTransactionFee (l : loc) (fee : Z) : txm unit :=
  write_tx l (set_Fee (Some fee)).
Definition updateTransactionLedgerCloseTime (l : loc) (ledgerCloseTime : Z) : txm unit :=
  if ledgerCloseTime <=? 0 then Ret tt else write_tx l (set_LedgerCloseTime ledgerCloseTime).
Definition updateTransactionResultXDR (l : loc) (resultXDR : string) : txm unit :=
  write_tx l (set_ResultXDR resultXDR).
Definition updateTransactionResultCode (l : loc) (code : string) : txm unit :=
  write_tx l (set_ResultCode code).
Definition updateTransactionResultMeta (l : loc) (meta : string) : txm unit :=
  write_tx l (set_ResultMetaXDR meta).
Definition incrementTransactionAttempt (l : loc) : txm unit :=
  write_tx l (λ t, set_Attempt (uint64 (Attempt t + 1)) t).
Definition getTransactionAttempt (l : loc) : txm Z := t ← read_tx l; Ret (Attempt t).
Definition incrementInfraAttempts (l : loc) : txm unit :=
  write_tx l (λ t, set_InfraAttempts (uint64 (InfraAttempts t + 1)) t).
Definition getInfraAttempts (l : loc) : txm Z := t ← read_tx l; Ret (InfraAttempts t).

(** ** Enqueue *)

Definition defaultFromAddress : txm (result string) :=
  r ← call EAccounts;
  match r with
  | Err e => Ret (Err ("keystore.Accounts: " +:+ e))
  | Ok [] => Ret (Err "keystore has no accounts")
  | Ok (a :: _) => Ret (Ok a)
  end.

(** [if cur, exists := s.transactions[dropped.ID]; exists && cur == dropped]. *)
Definition drop_section (dropped : loc) (w : World) : bool * World :=
  match heap w !! dropped with
  | Some t =>
      if decide (transactions w !! ID t = Some dropped)
      then (true, alter_tx dropped (set_ResultCode (DropReason_text ChannelFullOldestEvicted)) w)
      else (false, w)
  | None => (false, w)
  end.

Definition dropOldestForBackpressure (dropped : option loc) : txm unit :=
  match dropped with
  | None => Ret tt
  | Some dropped =>
      ok ← atomic (drop_section dropped);
      if negb ok then Ret tt
      else
        updateTransactionStatus dropped Failed;;
        emit (IncrementDroppedTxs ChannelFullOldestEvicted)
  end.

(** [if _, exists := s.transactions[tx.ID]; exists ...; s.transactions[tx.ID] = tx]. *)
Definition register_section (id : string) (l : loc) (w : World) : bool * World :=
  match transactions w !! id with
  | Some _ => (true, w)
  | None => (false, upd_transactions (insert id l) w)
  end.

Definition enqueueTransaction (l : loc) : txm (result string) :=
  t ← read_tx l;
  exists_ ← atomic (register_section (ID t) l);
  if (exists_ : bool) then
    closeDone l;;
    Ret (Ok (ID t))
  else
    sent ← try_send l;
    if (sent : bool) then Ret (Ok (ID t))
    else
      droppedTx ← try_recv;
      dropOldestForBackpressure droppedTx;;
      sent ← try_send l;
      if (sent : bool) then Ret (Ok (ID t))
      else
        modify (upd_transactions (delete (ID t)));;
        emit (IncrementDroppedTxs ChannelFullNewRejected);;
        Ret (Err ("broadcast channel full, tx " +:+ ID t +:+ " dropped")).

Definition new_tx (id : string) (now : Z) (fromAddr : string) (req : TxRequest) : StellarTx :=
  mkStellarTx id now fromAddr (reqOperations req) (reqLedgerBoundsOffset req)
    0 0 Pending None None "" None 0 "" "" "" 0 0 false.

Definition Enqueue (req : TxRequest) : txm (result string) :=
  txID ← (if decide (reqID req = "") then call EUuid else Ret (reqID req));
  if negb (Nat.eqb (length (reqOperations req)) 1)
  then Ret (Err "currently only single-operation transactions are supported")
  else
    fromAddr ← (if decide (reqFromAddress req = "") then defaultFromAddress
                else Ret (Ok (reqFromAddress req)));
    match fromAddr with
    | Err e => Ret (Err e)
    | Ok fromAddr =>
        match AddressToAccountId fromAddr with
        | Err e => Ret (Err ("invalid FromAddress " +:+ Quote fromAddr +:+ ": " +:+ e))
        | Ok _ =>
            now ← call ENow;
            l ← alloc_tx (new_tx txID now fromAddr req);
            enqueueTransaction l
        end
    end.

Definition txResultLocked (t : StellarTx) : TxResult :=
  mkTxResult (ID t) (TxHash t) (Status t) (Fee t) (LedgerCloseTime t) (ResultXDR t)
    (ResultMetaXDR t)
    (if decide (ResultCode t = "") then None
     else Some ("transaction result: " +:+ ResultCode t)).

Definition txResult (l : loc) : txm TxResult := t ← read_tx l; Ret (txResultLocked t).

Definition done_closed (l : loc) (w : World) : bool :=
  match heap w !! l with Some t => DoneClosed t | None => false end.

(** The select blocks until the case that comes first is ready. *)
Definition EnqueueAndWait (req : TxRequest) : txm (result TxResult) :=
  r ← Enqueue req;
  match r with
  | Err e => Ret (Err e)
  | Ok txID =>
      o ← gets (λ w, transactions w !! txID);
      match o with
      | None => Ret (Err ("transaction " +:+ txID +:+ " not found after enqueue"))
      | Some l =>
          c ← call EWaitSelect;
          match c with
          | WaitDone =>
              wait_until (done_closed l);;
              res ← txResult l;
              Ret (Ok res)
          | WaitCtx =>
              e ← call ECtxErr;
              Ret (Err ("context cancelled while waiting for tx " +:+ txID +:+ ": " +:+
                          default "<nil>" e))
          | WaitStop =>
              wait_until stopped;;
              Ret (Err ("txm stopped while waiting for tx " +:+ txID))
          end
      end
  end.

(** ** Status queries: one read-locked section each *)

Definition lookup_tx (w : World) (id : string) : option StellarTx :=
  transactions w !! id ≫= λ l, heap w !! l.

Definition GetStatus (id : string) (w : World) : TransactionStatus * option string :=
  if decide (id = "") then (Unknown, Some "empty transaction ID")
  else match lookup_tx w id with
  | None => (Unknown, Some "no such transaction")
  | Some t => (Status t, None)
  end.

Definition GetTransactionResult (id : string) (w : World) : result TxResult :=
  if decide (id = "") then Err "empty transaction ID"
  else match lookup_tx w id with
  | None => Err "no such transaction"
  | Some t => Ok (txResultLocked t)
  end.

Definition GetTransactionFee (id : string) (w : World) : result Z :=
  if decide (id = "") then Err "empty transaction ID"
  else match lookup_tx w id with
  | None => Err "no such transaction"
  | Some t =>
      if decide (Status t = Finalized) then
        match Fee t with
        | None => Err "transaction fee not available"
        | Some fee => Ok fee
        end
      else Err ("transaction not finalized, current status: " +:+
                  TransactionStatus_String (Status t))
  end.

Definition InflightCount (w : World) : nat * nat :=
  (length (broadcastChan w), AccountStore.GetTotalInflightCount (accountStore w)).

(** The fields a new manager starts with. *)
Definition empty_manager : World :=
  mkWorld ∅ ∅ 1%positive ∅ [] false false 0 AccountStore.NewAccountStore
    (FeeTracker.newFeeTracker (feeStatsPollInterval cfg)) false [].

(** [Close], run by [StopOnce]: [done.Wait] returns when every loop has ended. *)
Definition Close : txm unit :=
  modify (upd_stopped (λ _, true));;
  wait_until (λ w, running w =? 0);;
  modify (upd_chanClosed (λ _, true)).
End txm.

(** [New]: the resolved configuration, the network passphrase (looked up in the
    chain-selectors package, an argument here) and an empty manager. [None] would be the
    read of a nil field, which [Resolve_complete] excludes. *)
Definition New `{SdkTypes} (StellarPassphraseFromChainId : string → result string)
    (c : Config.Config) (chainID : string) : option (result (Resolved * string * World)) :=
  cfg ← deref_config (Resolve c);
  Some (match StellarPassphraseFromChainId chainID with
        | Err e => Err ("resolve network passphrase: " +:+ e)
        | Ok passphrase => Ok (cfg, passphrase, empty_manager cfg)
        end).
End Txm.
