(* ===== verification/Broadcast.v ===== *)
(** The broadcast pipeline: src/relayer/txm/broadcast.go, restore.go and the broadcast
    loop of txm.go: simulate, restore archived entries, assemble, sign, send, with the
    retries of each stage. *)

From Stdlib Require Import SpecFloat.
From stdpp Require Import base gmap list strings pretty sorting.
From S2P Require Import Prelude GoStrings Config Float Fee Prog Sdk TxStore Tx.
From S2P Require Import Txm.

Module Broadcast.
Import Config Tx Txm.
Local Open Scope Z_scope.

Section broadcast.
Context {ST : SdkTypes} {SD : Sdk} {UT : UnicodeTables} {FC : FloatConv} (cfg : Resolved) (networkPassphrase : string).

Definition feeStrat : Fee.FeeStrategy := Fee.NewFeeStrategyFromConfig cfg.

(** ** Access to shared objects *)

(** A [*TxStore] is the address of its account; the account store never drops one. *)
Definition store_get {X} (addr : string) (f : TxStore.TxStore → X) : txm X :=
  gets (λ w, option_map f (accountStore w !! addr)) ≫= λ o,
  match o with Some x => Ret x | None => Panic "nil pointer dereference" end.

Definition store_update (addr : string) (f : TxStore.TxStore → result TxStore.TxStore)
  : txm (result unit) :=
  atomic (λ w,
    match accountStore w !! addr with
    | None => (None, w)
    | Some s =>
        match f s with
        | Err e => (Some (Err e), w)
        | Ok s' => (Some (Ok tt), upd_accountStore (insert addr s') w)
        end
    end) ≫= λ o,
  match o with Some r => Ret r | None => Panic "nil pointer dereference" end.

Definition store_Release (addr : string) (seq : Z) : txm unit :=
  store_update addr (λ s, Ok (TxStore.Release seq s));; Ret tt.

(** The operations a [[]txnbuild.Operation] points to. *)
Definition read_ops (ls : list loc) : txm (list (loc * Operation)) :=
  gets (λ w, mapM (M:=option) (λ l, option_map (pair l) (opheap w !! l)) ls) ≫= λ o,
  match o with Some ops => Ret ops | None => Panic "nil pointer dereference" end.

(** The whole call holds the tracker's mutex, so that no other goroutine's use comes
    between its parts. *)
Definition sorobanInclusionPercentiles (client : RPCClient) : txm (result (Z * Z)) :=
  await (λ w, if feeLock w then None else Some (tt, upd_feeLock (λ _, true) w));;
  now ← call ENow;
  fresh ← gets (λ w, FeeTracker.fresh (feeTracker w) now);
  resp ← (if (fresh : bool) then Ret (Err "") else call (EGetFeeStats client));
  atomic (λ w,
    let '(t, r) := FeeTracker.sorobanInclusionPercentiles (feeTracker w) now resp in
    (r, upd_feeLock (λ _, false) (upd_feeTracker (λ _, t) w))).

(** [select { case <-time.After(SubmitRetryDelay): case <-ctx.Done(): }]. *)
Definition sleep_retry_delay : txm (option string) := call (ESleep (submitRetryDelay cfg)).

Definition releaseSeqAndFailTx (addr : string) (seq : Z) (l : loc) (r : ErrorReason) : txm unit :=
  store_Release addr seq;;
  updateTransactionStatus cfg l Failed;;
  emit (IncrementErrorTxs r).

(** ** broadcast.go *)

Definition buildPreliminaryTx (tx : option loc) (nextSubmitSeq maxLedger : Z)
  : txm (result Transaction) :=
  match tx with
  | None => Ret (Err "buildPreliminaryTx: tx is nil")
  | Some l =>
      t ← read_tx l;
      let currentSequence := Z.max 0 (int64 (nextSubmitSeq - 1)) in
      tb ← call (ENewTimeout (txTimeoutSecs cfg));
      ops ← read_ops (Operations t);
      Ret (NewTransaction (mkTransactionParams
        (mkSimpleAccount (FromAddress t) currentSequence) true ops MinBaseFee tb
        (Some maxLedger)))
  end.

Definition simulateTransaction (client : option RPCClient) (tx : option Transaction)
  : txm (result SimulateTransactionResponse) :=
  match client, tx with
  | None, _ => Ret (Err "client is nil")
  | Some _, None => Ret (Err "transaction is nil")
  | Some client, Some tx =>
      match tx_Base64 tx with
      | Err e => Ret (Err ("failed to base64 encode preliminary tx: " +:+ e))
      | Ok txXDR =>
          start ← call ENow;
          simResult ← call (ESimulateTransaction client txXDR);
          stop ← call ENow;
          emit (ObserveSimulationDuration (Z.quot (stop - start) Millisecond));;
          match simResult with
          | Err e => Ret (Err ("rpc simulate transaction failed: " +:+ e))
          | Ok sim =>
              if decide (simError sim = "") then Ret (Ok sim)
              else Ret (Err ("simulation error: " +:+ simError sim))
          end
      end
  end.

(** The decision of [isRetryableSimulationError] once [ctx.Err()] is known. *)
Definition retryable_message (terminal retryable : list string) (text : string) : bool :=
  let msg := ToLower text in
  if contains_any msg terminal then false else contains_any msg retryable.

Definition isRetryableSimulationError (err : option string) : txm bool :=
  match err with
  | None => Ret false
  | Some text =>
      ctxErr ← call ECtxErr;
      match ctxErr with
      | Some _ => Ret false
      | None =>
          Ret (retryable_message (simulationTerminalHints cfg)
                                 (simulationRetryableHints cfg) text)
      end
  end.

Definition shouldRetrySimulation (err : string) (attempt maxAttempts : Z) : txm bool :=
  if attempt + 1 <? maxAttempts then isRetryableSimulationError (Some err) else Ret false.

(** [for i, authXDR := range ...]: the first undecodable entry is an error. *)
Fixpoint decode_auths (auths : list string) : result (list AuthorizationEntry) :=
  match auths with
  | [] => Ok []
  | a :: auths' =>
      match UnmarshalAuth a with
      | Err e => Err ("failed to decode auth: " +:+ e)
      | Ok x => match decode_auths auths' with Err e => Err e | Ok xs => Ok (x :: xs) end
      end
  end.

(** [ihf.Ext = ...] and [ihf.Auth = ...] through the shared operation pointer. *)
Definition set_ext (d : SorobanTransactionData) (o : Operation) : Operation :=
  match o with
  | InvokeHostFunction hf src auth _ => InvokeHostFunction hf src auth (Some d)
  | _ => o
  end.
Definition set_auth (auth : list AuthorizationEntry) (o : Operation) : Operation :=
  match o with
  | InvokeHostFunction hf src _ ext => InvokeHostFunction hf src auth ext
  | _ => o
  end.
Definition write_op (l : loc) (g : Operation → Operation) : txm unit :=
  modify (upd_opheap (alter g l)).

(** The auth entries of the first simulation result, when there are some. *)
Definition sim_auths (sim : SimulateTransactionResponse) : list string :=
  match simResults sim with
  | r :: _ => default [] (AuthXDR r)
  | [] => []
  end.

(** The part of [assembleTransaction] under [sim.TransactionDataXDR != ""]: the resource
    fee, or an error. *)
Definition apply_simulation (op0 : loc) (sim : SimulateTransactionResponse) : txm (result Z) :=
  if decide (TransactionDataXDR sim = "") then Ret (Ok 0)
  else match UnmarshalSorobanData (TransactionDataXDR sim) with
  | Err e => Ret (Err ("failed to decode soroban data: " +:+ e))
  | Ok sorobanData =>
      let resourceFee := int64 (simMinResourceFee sim + Fee.fsResourceFeeBuffer feeStrat) in
      let sorobanData := mkSorobanData (sdRest sorobanData) resourceFee in
      op ← gets (λ w, opheap w !! op0);
      match op with
      | Some (InvokeHostFunction _ _ _ _) =>
          write_op op0 (set_ext sorobanData);;
          match sim_auths sim with
          | [] => Ret (Ok resourceFee)
          | auths =>
              match decode_auths auths with
              | Err e => Ret (Err e)
              | Ok auth => write_op op0 (set_auth auth);; Ret (Ok resourceFee)
              end
          end
      | _ => Ret (Ok resourceFee)
      end
  end.

Definition assembleTransaction (tx : option Transaction) (sim : SimulateTransactionResponse)
    (inclusionFee maxLedger : Z) : txm (result (Transaction * Z)) :=
  match tx with
  | None => Ret (Err "assembleTransaction: tx is nil")
  | Some tx =>
      match tx_Operations tx with
      | [] => Ret (Err "transaction has no operations")
      | op0 :: _ =>
          r ← apply_simulation op0 sim;
          match r with
          | Err e => Ret (Err e)
          | Ok resourceFee =>
              let sourceAccount := mkSimpleAccount (AccountID (tx_SourceAccount tx))
                                                   (accSequence (tx_SourceAccount tx)) in
              ops ← read_ops (tx_Operations tx);
              match NewTransaction (mkTransactionParams sourceAccount false ops inclusionFee
                                     (tx_Timebounds tx) (Some maxLedger)) with
              | Err e => Ret (Err ("failed to rebuild transaction with fee: " +:+ e))
              | Ok assembledTx => Ret (Ok (assembledTx, int64 (inclusionFee + resourceFee)))
              end
          end
      end
  end.

Definition signTransaction (tx : option Transaction) (fromAddress : string)
  : txm (result Transaction) :=
  match tx with
  | None => Ret (Err "signTransaction: tx is nil")
  | Some tx =>
      match tx_Hash tx networkPassphrase with
      | Err e => Ret (Err ("failed to hash transaction: " +:+ e))
      | Ok hash =>
          signature ← call (ESign fromAddress hash);
          match signature with
          | Err e => Ret (Err ("failed to sign transaction: " +:+ e))
          | Ok signature =>
              match AddressToAccountId fromAddress with
              | Err e => Ret (Err ("failed to parse fromAddress for hint: " +:+ e))
              | Ok ed25519 =>
                  let hint := string_drop 28 ed25519 in
                  match AddSignatureDecorated tx (mkDecoratedSignature hint signature) with
                  | Err e => Ret (Err ("failed to add signature: " +:+ e))
                  | Ok signedTx => Ret (Ok signedTx)
                  end
              end
          end
      end
  end.

Definition parseSubmitErrorResult (errorResultXDR : string) : option TransactionResultCode :=
  if decide (errorResultXDR = "") then None
  else match UnmarshalTransactionResult errorResultXDR with
  | Err _ => None
  | Ok r => Some (resultCode r)
  end.

Definition classifySubmitErrorCode (code : TransactionResultCode) : bool * ErrorReason :=
  match code with
  | TxBadSeq => (false, ErrorReasonBadSeq)
  | TxInsufficientFee => (false, ErrorReasonInsufficientFee)
  | TxInternalError => (false, ErrorReasonInternalError)
  | TxOther _ => (true, TransactionResultCode_String code)
  end.

(** [(accepted, fatalErr, retryReason)]. *)
Definition handleSendResult (tx : option loc) (submitResult : SendTransactionResponse)
    (seq : Z) (txStore : option string) (maxLedger : Z) : txm (bool * bool * ErrorReason) :=
  match tx, txStore with
  | None, _ => Ret (false, true, ErrorReasonNilTx)
  | Some _, None => Ret (false, true, ErrorReasonNilTxStore)
  | Some l, Some addr =>
      match sendStatus submitResult with
      | TXStatusPending | TXStatusDuplicate =>
          if decide (sendHash submitResult = "") then Ret (false, true, ErrorReasonNoHash)
          else
            err ← store_update addr (TxStore.AddUnconfirmed seq (sendHash submitResult) maxLedger l);
            match err with
            | Err _ => Ret (false, true, ErrorReasonStoreAdd)
            | Ok _ =>
                updateTransactionHash l (sendHash submitResult);;
                updateTransactionResultXDR l "";;
                updateTransactionResultMeta l "";;
                updateTransactionResultCode l "";;
                Ret (true, false, "")
            end
      | TXStatusTryAgainLater => Ret (false, false, ErrorReasonTryAgainLater)
      | TXStatusError =>
          match parseSubmitErrorResult (sendErrorResultXDR submitResult) with
          | None => Ret (false, true, ErrorReasonSubmitErrorUndecoded)
          | Some typedCode =>
              let '(fatal, reason) := classifySubmitErrorCode typedCode in
              Ret (false, fatal, reason)
          end
      | TXStatusOther _ => Ret (false, true, ErrorReasonUnknownSubmit)
      end
  end.

(** ** Sequence helpers (txm.go) *)

Definition getSequenceNumber (client : RPCClient) (address : string) : txm (result Z) :=
  if decide (address = "") then Ret (Err "address is required for sequence number lookup")
  else match AddressToAccountId address with
  | Err e => Ret (Err ("invalid stellar account address " +:+ Quote address +:+ ": " +:+ e))
  | Ok accountID =>
      match MarshalAccountKey accountID with
      | Err e => Ret (Err ("failed to marshal account key: " +:+ e))
      | Ok keyXDR =>
          resp ← call (EGetLedgerEntries client keyXDR);
          match resp with
          | Err e => Ret (Err ("failed to get ledger entries: " +:+ e))
          | Ok [] => Ret (Err ("account " +:+ address +:+ " not found on-chain"))
          | Ok (entryXDR :: _) =>
              if decide (entryXDR = "")
              then Ret (Err ("empty entry data for account " +:+ address))
              else match UnmarshalLedgerEntryData entryXDR with
              | Err e => Ret (Err ("failed to unmarshal account entry: " +:+ e))
              | Ok (LedgerEntryOther ty) =>
                  Ret (Err ("ledger entry for " +:+ address +:+
                              " is not an account entry (type=" +:+ ty +:+ ")"))
              | Ok (LedgerEntryAccount seqNum) => Ret (Ok (int64 seqNum))
              end
          end
      end
  end.

Definition resyncSequence (client : RPCClient) (l : loc) : txm (result unit) :=
  t ← read_tx l;
  seqNum ← getSequenceNumber client (FromAddress t);
  match seqNum with
  | Err e => Ret (Err ("failed to resync sequence for " +:+ FromAddress t +:+ ": " +:+ e))
  | Ok seqNum =>
      txStore ← gets (λ w, AccountStore.GetTxStore (FromAddress t) (accountStore w));
      match txStore with
      | None => Ret (Err ("no tx store for address " +:+ FromAddress t))
      | Some _ =>
          store_get (FromAddress t) TxStore.GetNextSequence;;
          store_get (FromAddress t) TxStore.GetLastResyncedNonce;;
          store_update (FromAddress t) (λ s, Ok (TxStore.ResyncNonce (int64 (seqNum + 1)) s));;
          store_get (FromAddress t) TxStore.GetNextSequence;;
          store_get (FromAddress t) TxStore.GetLastResyncedNonce;;
          Ret (Ok tt)
      end
  end.

Definition retryGetClientOrFail (l : loc) : txm unit :=
  incrementInfraAttempts l;;
  attempts ← getInfraAttempts l;
  if attempts <? maxGetClientRetryAttempts cfg then
    done ← sleep_retry_delay;
    match done with
    | Some _ => Ret tt
    | None =>
        sent ← try_send cfg l;
        if (sent : bool) then Ret tt else emit (IncrementDroppedTxs ChannelFullNewRejected)
    end
  else
    emit (IncrementMaxAttemptsReached RetryBudgetInfra);;
    markTxFailed cfg l ErrorReasonClientUnavailable.

(** ** restore.go *)

(** [n] is the number of ticks before the deadline's case is selected. *)
Fixpoint poll_restore_loop (n : nat) (client : RPCClient) (hash : string)
  : txm (result GetTransactionResponse) :=
  match n with
  | O =>
      e ← call ECtxErr;
      Ret (Err ("poll timed out for tx " +:+ hash +:+ ": " +:+ default "<nil>" e))
  | S n' =>
      resp ← call (EGetTransaction client hash);
      match resp with
      | Err _ => poll_restore_loop n' client hash
      | Ok r =>
          match getStatus r with
          | TransactionStatusSuccess | TransactionStatusFailed => Ret (Ok r)
          | _ => poll_restore_loop n' client hash
          end
      end
  end.

(** [time.NewTicker] panics on a non-positive interval. *)
Definition pollRestoreTransaction (client : RPCClient) (hash : string)
  : txm (result GetTransactionResponse) :=
  let timeout := int64 (txTimeoutSecs cfg * Second) in
  if confirmPollInterval cfg <=? 0 then Panic "non-positive interval for NewTicker"
  else
    n ← call (EPolls timeout (confirmPollInterval cfg));
    poll_restore_loop n client hash.

(** What one attempt of the restore loop decides: [inl e] goes on after a delay with
    [lastErr = e], [inr r] returns [r]. *)
Definition restore_attempt (client : RPCClient) (l : loc) (signedXDR : string)
  : txm (string + result unit) :=
  submitResult ← call (ESendTransaction client signedXDR);
  match submitResult with
  | Err e => Ret (inl ("failed to submit restore transaction: " +:+ e))
  | Ok submitResult =>
      match sendStatus submitResult with
      | TXStatusPending | TXStatusDuplicate =>
          resp ← pollRestoreTransaction client (sendHash submitResult);
          match resp with
          | Err e => Ret (inl ("restore transaction polling failed: " +:+ e))
          | Ok resp =>
              match getStatus resp with
              | TransactionStatusSuccess =>
                  emit (IncrementRestore RestoreSuccess);;
                  err ← resyncSequence client l;
                  match err with
                  | Err e => Ret (inr (Err ("failed to resync sequence after restore: " +:+ e)))
                  | Ok _ => Ret (inr (Ok tt))
                  end
              | st =>
                  emit (IncrementRestore RestoreFailed);;
                  Ret (inr (Err ("restore transaction failed on-chain: " +:+
                                   RpcTxStatus_String st)))
              end
          end
      | TXStatusTryAgainLater =>
          Ret (inl ("restore transaction rejected with " +:+
                      SubmitStatus_String TXStatusTryAgainLater))
      | TXStatusError =>
          emit (IncrementRestore RestoreFailed);;
          if decide (sendErrorResultXDR submitResult = "")
          then Ret (inr (Err ("restore transaction rejected with " +:+
                                SubmitStatus_String TXStatusError)))
          else Ret (inr (Err ("restore transaction rejected: " +:+
                                sendErrorResultXDR submitResult)))
      | st =>
          emit (IncrementRestore RestoreFailed);;
          Ret (inr (Err ("unexpected restore transaction status: " +:+ SubmitStatus_String st)))
      end
  end.

(** The loop, with [n] attempts left. *)
Fixpoint restore_loop (n : nat) (client : RPCClient) (l : loc) (signedXDR : string)
    (lastErr : option string) : txm (result unit) :=
  match n with
  | O =>
      emit (IncrementRestore RestoreFailed);;
      match lastErr with
      | Some e => Ret (Err ("restore attempts exhausted: " +:+ e))
      | None => Ret (Err "restore attempts exhausted")
      end
  | S n' =>
      r ← restore_attempt client l signedXDR;
      match r with
      | inr res => Ret res
      | inl e =>
          done ← sleep_retry_delay;
          match done with
          | Some ctxErr => Ret (Err ctxErr)
          | None => restore_loop n' client l signedXDR (Some e)
          end
      end
  end.

Definition handleRestore (client : RPCClient) (l : loc) (preamble : RestorePreamble) (seq : Z)
  : txm (result unit) :=
  t ← read_tx l;
  match UnmarshalSorobanData (rpTransactionDataXDR preamble) with
  | Err e => Ret (Err ("failed to decode restore preamble soroban data: " +:+ e))
  | Ok sorobanData =>
      let restoreOp := RestoreFootprint (FromAddress t) (Some sorobanData) in
      let currentSequence := Z.max 0 (int64 (seq - 1)) in
      let restoreFee := Fee.CalculateRestoreFee (rpMinResourceFee preamble)
                                                (restoreFeeBuffer cfg) in
      tb ← call (ENewTimeout (txTimeoutSecs cfg));
      op ← atomic (λ w, (nextLoc w,
                         upd_nextLoc Pos.succ (upd_opheap (insert (nextLoc w) restoreOp) w)));
      match NewTransaction (mkTransactionParams
              (mkSimpleAccount (FromAddress t) currentSequence) true [(op, restoreOp)]
              restoreFee tb None) with
      | Err e => Ret (Err ("failed to build restore transaction: " +:+ e))
      | Ok restoreTx =>
          signedTx ← signTransaction (Some restoreTx) (FromAddress t);
          match signedTx with
          | Err e => Ret (Err ("failed to sign restore transaction: " +:+ e))
          | Ok signedTx =>
              match tx_Base64 signedTx with
              | Err e => Ret (Err ("failed to encode signed restore transaction: " +:+ e))
              | Ok signedXDR =>
                  emit (IncrementRestore RestoreInitiated);;
                  restore_loop (Z.to_nat (maxRestoreAttempts cfg)) client l signedXDR None
              end
          end
      end
  end.

(** ** prepareAndSimulateWithRetry (txm.go) *)

Definition PrepResult : Type := result (Transaction * SimulateTransactionResponse * Z).

(** The loop body from attempt [attempt] on, with [n] attempts left. *)
Fixpoint prepare_loop (n : nat) (attempt maxAttempts : Z) (client : RPCClient) (l : loc)
    (seq : Z) (lastErr : option string) : txm PrepResult :=
  match n with
  | O => Ret (Err ("simulation attempts exhausted: " +:+ default "%!w(<nil>)" lastErr))
  | S n' =>
      latestLedger ← call (EGetLatestLedger client);
      match latestLedger with
      | Err e =>
          let err := "failed to get latest ledger: " +:+ e in
          if maxAttempts <=? attempt + 1 then Ret (Err err)
          else
            done ← sleep_retry_delay;
            match done with
            | Some ctxErr => Ret (Err ctxErr)
            | None => prepare_loop n' (attempt + 1) maxAttempts client l seq (Some err)
            end
      | Ok latest =>
          t ← read_tx l;
          let offset := if 0 <? LedgerBoundsOffset t then LedgerBoundsOffset t
                        else ledgerBoundsOffset cfg in
          let maxLedger := uint32 (latest + offset) in
          write_tx l (set_txMaxLedger maxLedger);;
          prelimTx ← buildPreliminaryTx (Some l) seq maxLedger;
          match prelimTx with
          | Err e => Ret (Err ("failed to build preliminary tx: " +:+ e))
          | Ok prelimTx =>
              simResult ← simulateTransaction (Some client) (Some prelimTx);
              match simResult with
              | Ok sim =>
                  t ← read_tx l;
                  Ret (Ok (prelimTx, sim, txMaxLedger t))
              | Err err =>
                  retry ← shouldRetrySimulation err attempt maxAttempts;
                  if negb retry then Ret (Err err)
                  else
                    done ← sleep_retry_delay;
                    match done with
                    | Some ctxErr => Ret (Err ctxErr)
                    | None => prepare_loop n' (attempt + 1) maxAttempts client l seq (Some err)
                    end
              end
          end
      end
  end.

Definition prepareAndSimulateWithRetry (client : RPCClient) (l : loc) (seq : Z)
  : txm PrepResult :=
  let maxAttempts := if maxSimulateAttempts cfg =? 0 then 1 else maxSimulateAttempts cfg in
  prepare_loop (Z.to_nat maxAttempts) 0 maxAttempts client l seq None.

(** ** simulateAssembleSignAndSend (txm.go) *)

(** The variables of its submit loop. *)
Record SubmitState := mkSubmitState {
  submitAttempt : Z;
  sSeq : Z;
  sInclusionFee : Z;
  restoreHandled : bool
}.

(** How a turn of the loop ends: [return], [break], or the next turn's variables. *)
Inductive turn := TurnReturn | TurnBreak | TurnNext (s : SubmitState).

Definition fail_turn (addr : string) (seq : Z) (l : loc) (r : ErrorReason) : txm turn :=
  releaseSeqAndFailTx addr seq l r;; Ret TurnReturn.

(** [select { case <-time.After(...): case <-ctx.Done(): txStore.Release(seq); return }]. *)
Definition backoff_or_release (addr : string) (seq : Z) (next : SubmitState) : txm turn :=
  done ← sleep_retry_delay;
  match done with
  | Some _ => store_Release addr seq;; Ret TurnReturn
  | None => Ret (TurnNext next)
  end.

(** After a response of SendTransaction. *)
Definition submit_response (client : RPCClient) (l : loc) (addr : string) (st : SubmitState)
    (submitResult : SendTransactionResponse) (maxLedger : Z) : txm turn :=
  let seq := sSeq st in
  let attempt' := submitAttempt st + 1 in
  r ← handleSendResult (Some l) submitResult seq (Some addr) maxLedger;
  let '(accepted, fatalErr, retryReason) := r : bool * bool * ErrorReason in
  if accepted then
    markBroadcastAt l;;
    emit IncrementBroadcastedTxs;;
    updateTransactionStatus cfg l Unconfirmed;;
    Ret TurnReturn
  else if fatalErr then fail_turn addr seq l retryReason
  else if decide (retryReason = ErrorReasonBadSeq) then
    resyncSequence client l;;
    seq' ← store_get addr TxStore.GetNextSequence;
    Ret (TurnNext (mkSubmitState attempt' seq' (sInclusionFee st) (restoreHandled st)))
  else if decide (retryReason = ErrorReasonInsufficientFee) then
    stats ← sorobanInclusionPercentiles client;
    let networkP90 := match stats with Ok (_, p90) => p90 | Err _ => 0 end in
    let '(bumped, _) := Fee.BumpInclusionFee feeStrat (sInclusionFee st) networkP90 in
    backoff_or_release addr seq (mkSubmitState attempt' seq bumped (restoreHandled st))
  else
    backoff_or_release addr seq (mkSubmitState attempt' seq (sInclusionFee st) (restoreHandled st)).

(** Assemble, sign, encode and send. *)
Definition assemble_and_send (client : RPCClient) (l : loc) (addr : string) (st : SubmitState)
    (prelimTx : Transaction) (simResult : SimulateTransactionResponse) (maxLedger : Z)
  : txm turn :=
  let seq := sSeq st in
  write_tx l (set_txMinResourceFee (simMinResourceFee simResult));;
  r ← assembleTransaction (Some prelimTx) simResult (sInclusionFee st) maxLedger;
  match r with
  | Err _ => fail_turn addr seq l ErrorReasonAssembly
  | Ok (assembledTx, totalFee) =>
      let resourceFee := Z.max 0 (int64 (totalFee - sInclusionFee st)) in
      emit (ObserveInclusionFee (sInclusionFee st));;
      emit (ObserveResourceFee resourceFee);;
      updateTransactionFee l totalFee;;
      t ← read_tx l;
      signedTx ← signTransaction (Some assembledTx) (FromAddress t);
      match signedTx with
      | Err _ => fail_turn addr seq l ErrorReasonSigning
      | Ok signedTx =>
          match tx_Base64 signedTx with
          | Err _ => fail_turn addr seq l ErrorReasonAssembly
          | Ok signedXDR =>
              submitResult ← call (ESendTransaction client signedXDR);
              match submitResult with
              | Err _ =>
                  let attempt' := submitAttempt st + 1 in
                  if maxSubmitRetryAttempts cfg <=? attempt' then Ret TurnBreak
                  else backoff_or_release addr seq
                         (mkSubmitState attempt' seq (sInclusionFee st) (restoreHandled st))
              | Ok submitResult => submit_response client l addr st submitResult maxLedger
              end
          end
      end
  end.

(** One turn of the submit loop. *)
Definition submit_turn (client : RPCClient) (l : loc) (addr : string) (st : SubmitState)
  : txm turn :=
  let seq := sSeq st in
  r ← prepareAndSimulateWithRetry client l seq;
  match r with
  | Err _ => fail_turn addr seq l ErrorReasonSimulation
  | Ok (prelimTx, simResult, maxLedger) =>
      match simRestorePreamble simResult with
      | Some preamble =>
          if restoreHandled st then fail_turn addr seq l ErrorReasonRestoreFailed
          else
            err ← handleRestore client l preamble seq;
            match err with
            | Err _ => fail_turn addr seq l ErrorReasonRestoreFailed
            | Ok _ =>
                seq' ← store_get addr TxStore.GetNextSequence;
                Ret (TurnNext (mkSubmitState (submitAttempt st) seq' (sInclusionFee st) true))
            end
      | None => assemble_and_send client l addr st prelimTx simResult maxLedger
      end
  end.

(** The loop and what follows it. A turn either counts an attempt or is the one that
    restores, so [MaxSubmitRetryAttempts + 2] turns are enough ([loop_never_out_of_fuel]). *)
Fixpoint submit_loop (fuel : nat) (client : RPCClient) (l : loc) (addr : string)
    (st : SubmitState) : txm unit :=
  match fuel with
  | O => Panic "out of fuel"
  | S fuel' =>
      if submitAttempt st <? maxSubmitRetryAttempts cfg then
        r ← submit_turn client l addr st;
        match r with
        | TurnReturn => Ret tt
        | TurnBreak => releaseSeqAndFailTx addr (sSeq st) l ErrorReasonMaxRetries
        | TurnNext st' => submit_loop fuel' client l addr st'
        end
      else releaseSeqAndFailTx addr (sSeq st) l ErrorReasonMaxRetries
  end.

Definition submit_fuel : nat := S (S (Z.to_nat (maxSubmitRetryAttempts cfg))).

(** The store of the account, created from the chain's sequence the first time. [None]:
    the transaction was failed. *)
Definition ensure_store (client : RPCClient) (l : loc) (addr : string) : txm bool :=
  txStore ← gets (λ w, AccountStore.GetTxStore addr (accountStore w));
  match txStore with
  | Some _ => Ret true
  | None =>
      seqNum ← getSequenceNumber client addr;
      match seqNum with
      | Err _ => markTxFailed cfg l ErrorReasonSequenceNumber;; Ret false
      | Ok seqNum =>
          created ← atomic (λ w,
            match AccountStore.CreateTxStore addr (int64 (seqNum + 1)) (accountStore w) with
            | Ok c => (true, upd_accountStore (λ _, c) w)
            | Err _ => (false, w)
            end);
          if (created : bool) then Ret true
          else markTxFailed cfg l ErrorReasonStoreCreate;; Ret false
      end
  end.

(** The seed of the inclusion fee: P50 on the first broadcast, P90 on a rebroadcast. *)
Definition seed_fee (client : RPCClient) (currentAttempt : Z) : txm Z :=
  stats ← sorobanInclusionPercentiles client;
  let networkPercentile :=
    match stats with
    | Ok (p50, p90) => if 0 <? currentAttempt then p90 else p50
    | Err _ => 0
    end in
  Ret (fst (Fee.SeedInclusionFee feeStrat currentAttempt networkPercentile)).

Definition simulateAssembleSignAndSend (l : loc) : txm unit :=
  client ← call EGetClient;
  match client with
  | Err _ => retryGetClientOrFail l
  | Ok client =>
      t ← read_tx l;
      let addr := FromAddress t in
      ok ← ensure_store client l addr;
      if negb ok then Ret tt
      else
        currentAttempt ← getTransactionAttempt l;
        (if 0 <? currentAttempt then resyncSequence client l;; Ret tt else Ret tt);;
        inclusionFee ← seed_fee client currentAttempt;
        seq ← store_get addr TxStore.GetNextSequence;
        submit_loop submit_fuel client l addr (mkSubmitState 0 seq inclusionFee false)
  end.

(** ** broadcastLoop (txm.go) *)

(** The inner loop that empties the channel: at most [n] more transactions. *)
Fixpoint drain (n : nat) (acc : list loc) : txm (list loc) :=
  match n with
  | O => Ret acc
  | S n' =>
      o ← try_recv;
      match o with
      | None => Ret acc
      | Some l => drain n' (acc ++ [l])
      end
  end.

(** [sort.Slice] by enqueue time (which does not say how ties are ordered). *)
Definition ts_le (a b : Z * loc) : Prop := fst a <= fst b.
#[export] Instance ts_le_dec a b : Decision (ts_le a b).
Proof. unfold ts_le. apply _. Defined.

Definition sort_by_timestamp (ls : list loc) : txm (list loc) :=
  o ← gets (λ w, mapM (M:=option) (λ l, option_map (λ t, (Timestamp t, l)) (heap w !! l)) ls);
  match o with
  | None => Panic "nil pointer dereference"
  | Some ps => Ret (snd <$> merge_sort ts_le ps)
  end.

(** One turn of the loop's select; [false] when the loop stops. *)
Definition broadcast_turn (batch : nat) : txm bool :=
  wait_until (λ w, stopped w || chanClosed w || negb (bool_decide (broadcastChan w = [])));;
  preferStop ← call EChoose;
  stop ← gets (λ w, stopped w && ((preferStop : bool) || bool_decide (broadcastChan w = [])));
  if (stop : bool) then Ret false
  else
    o ← try_recv;
    match o with
    | None => Ret true
    | Some initialTx =>
        broadcastTxs ← drain batch [initialTx];
        sorted ← sort_by_timestamp broadcastTxs;
        for_each sorted simulateAssembleSignAndSend;;
        Ret true
    end.

(** The first [turns] turns of the goroutine, each with batches of up to [S batch]. *)
Fixpoint broadcastLoop (turns batch : nat) : txm unit :=
  match turns with
  | O => Ret tt
  | S turns' =>
      go ← broadcast_turn batch;
      if (go : bool) then broadcastLoop turns' batch
      else modify (upd_running (λ n, n - 1))
  end.

(** ** Simulate (read-only) *)

Definition Simulate (req : TxRequest) : txm (result SimulateTransactionResponse) :=
  match reqOperations req with
  | [] => Ret (Err "Simulate: at least one operation is required")
  | _ =>
      fromAddr ← (if decide (reqFromAddress req = "") then
                    r ← defaultFromAddress;
                    Ret (wrap_err "Simulate" r)
                  else Ret (Ok (reqFromAddress req)));
      match fromAddr with
      | Err e => Ret (Err e)
      | Ok fromAddr =>
          client ← call EGetClient;
          match client with
          | Err e => Ret (Err ("Simulate: failed to get client: " +:+ e))
          | Ok client =>
              latestLedger ← call (EGetLatestLedger client);
              match latestLedger with
              | Err e => Ret (Err ("Simulate: failed to get latest ledger: " +:+ e))
              | Ok latest =>
                  let maxLedger := uint32 (latest + ledgerBoundsOffset cfg) in
                  dummyTx ← alloc_tx (mkStellarTx "" 0 fromAddr (reqOperations req) 0 0 0
                              Unknown None None "" None 0 "" "" "" 0 0 false);
                  prelimTx ← buildPreliminaryTx (Some dummyTx) 0 maxLedger;
                  match prelimTx with
                  | Err e => Ret (Err ("Simulate: failed to build tx: " +:+ e))
                  | Ok prelimTx => simulateTransaction (Some client) (Some prelimTx)
                  end
              end
          end
      end
  end.
End broadcast.
End Broadcast.
