(* ===== verification/Confirm.v ===== *)
(** The confirm and prune loops: src/relayer/txm/txm.go, from [confirmLoop] to
    [maybeRetry]. *)

From Stdlib Require Import SpecFloat.
From stdpp Require Import base gmap list strings.
From S2P Require Import Prelude GoStrings Config Float Fee Prog Sdk TxStore Tx.
From S2P Require Import Txm Broadcast.

Module Confirm.
Import Config Tx Txm Broadcast.
Local Open Scope Z_scope.

Section confirm.
Context {ST : SdkTypes} {SD : Sdk} {UT : UnicodeTables} {FC : FloatConv} (cfg : Resolved).

(** ** Retry *)

Definition maybeRetry (utx : TxStore.UnconfirmedTx) (reason : RetryReason) : txm bool :=
  currentAttempt ← getTransactionAttempt (TxStore.Tx utx);
  if maxTxRetryAttempts cfg <=? currentAttempt then Ret false
  else
    sent ← try_send cfg (TxStore.Tx utx);
    if (sent : bool) then emit (IncrementRetryTxs reason);; Ret true
    else emit (IncrementDroppedTxs ChannelFullNewRejected);; Ret false.

(** ** One unconfirmed transaction *)

Definition store_Confirm (addr : string) (utx : TxStore.UnconfirmedTx) (failed : bool)
  : txm (result unit) :=
  store_update addr (TxStore.Confirm (TxStore.Sequence utx) (TxStore.Hash utx) failed).

(** The fee the network charged replaces the estimate. *)
Definition record_fee (l : loc) (resultXDR : string) : txm unit :=
  if decide (resultXDR = "") then Ret tt
  else match UnmarshalTransactionResult resultXDR with
  | Err _ => Ret tt
  | Ok txResult => updateTransactionFee l (int64 (FeeCharged txResult))
  end.

(** [case protocolrpc.TransactionStatusSuccess]. *)
Definition on_success (addr : string) (utx : TxStore.UnconfirmedTx)
    (resp : GetTransactionResponse) : txm unit :=
  let l := TxStore.Tx utx in
  confirmErr ← store_Confirm addr utx false;
  match confirmErr with
  | Err _ => Ret tt
  | Ok _ =>
      updateTransactionResultXDR l (getResultXDR resp);;
      updateTransactionResultCode l "";;
      record_fee l (getResultXDR resp);;
      (if decide (getResultMetaXDR resp = "") then Ret tt
       else updateTransactionResultMeta l (getResultMetaXDR resp));;
      updateTransactionLedgerCloseTime l (getLedgerCloseTime resp);;
      emit IncrementSuccessTxs;;
      recordTimeUntilConfirmed l;;
      updateTransactionStatus cfg l Finalized
  end.

(** [case protocolrpc.TransactionStatusFailed]. *)
Definition on_failed (addr : string) (utx : TxStore.UnconfirmedTx)
    (resp : GetTransactionResponse) : txm unit :=
  let l := TxStore.Tx utx in
  confirmErr ← store_Confirm addr utx false;
  match confirmErr with
  | Err _ => Ret tt
  | Ok _ =>
      updateTransactionResultXDR l (getResultXDR resp);;
      let classification := FailedResult.classifyFailedTransactionResult (getResultXDR resp) in
      updateTransactionResultCode l (FailedResult.fcResultCode classification);;
      updateTransactionLedgerCloseTime l (getLedgerCloseTime resp);;
      if negb (FailedResult.retryable classification) then
        emit (IncrementErrorTxs (FailedResult.fcResultCode classification));;
        updateTransactionStatus cfg l Failed
      else
        incrementTransactionAttempt l;;
        retried ← maybeRetry utx ResourceExhaustion;
        if (retried : bool) then Ret tt
        else
          emit (IncrementMaxAttemptsReached RetryBudgetLifecycle);;
          emit (IncrementErrorTxs (FailedResult.fcResultCode classification));;
          updateTransactionStatus cfg l Failed
  end.

(** Expired: confirm as failed, recycle the sequence. *)
Definition on_expired (addr : string) (utx : TxStore.UnconfirmedTx) : txm unit :=
  let l := TxStore.Tx utx in
  confirmErr ← store_Confirm addr utx true;
  match confirmErr with
  | Err _ =>
      emit (IncrementErrorTxs ErrorReasonTimedOut);;
      updateTransactionStatus cfg l Failed
  | Ok _ =>
      incrementTransactionAttempt l;;
      retried ← maybeRetry utx TimedOut;
      if (retried : bool) then Ret tt
      else
        emit (IncrementMaxAttemptsReached RetryBudgetLifecycle);;
        emit (IncrementErrorTxs ErrorReasonTimedOut);;
        updateTransactionStatus cfg l Failed
  end.

(** NOT_FOUND or a transient RPC error: whether the transaction has expired. *)
Definition expired (client : RPCClient) (utx : TxStore.UnconfirmedTx) : txm bool :=
  latestLedger ← call (EGetLatestLedger client);
  now ← call ENow;
  t ← read_tx (TxStore.Tx utx);
  let txTimeout := int64 (txTimeoutSecs cfg * Second) in
  let wallClockExpired := txTimeout <? now - Timestamp t in
  match latestLedger with
  | Err _ => Ret wallClockExpired
  | Ok latest => Ret ((TxStore.MaxLedger utx <? latest) || wallClockExpired)
  end.

(** The body of the inner loop of [checkUnconfirmed]: whether the transaction still
    counts as pending. *)
Definition check_one (client : RPCClient) (addr : string) (utx : TxStore.UnconfirmedTx)
  : txm bool :=
  resp ← call (EGetTransaction client (TxStore.Hash utx));
  let expiry :=
    e ← expired client utx;
    if (e : bool) then on_expired addr utx;; Ret false else Ret true in
  match resp with
  | Err _ => expiry
  | Ok resp =>
      match getStatus resp with
      | TransactionStatusSuccess => on_success addr utx resp;; Ret false
      | TransactionStatusFailed => on_failed addr utx resp;; Ret false
      | _ => expiry
      end
  end.

Fixpoint check_list (client : RPCClient) (addr : string) (l : list TxStore.UnconfirmedTx)
    (totalPending : nat) : txm nat :=
  match l with
  | [] => Ret totalPending
  | utx :: l' =>
      pending ← check_one client addr utx;
      check_list client addr l' (if (pending : bool) then S totalPending else totalPending)
  end.

(** ** All accounts *)

(** An enumeration of a map: the order Go picks, which can be any. *)
Definition enumeration (keys order : list string) : list string :=
  if bool_decide (NoDup order ∧ Forall (.∈ keys) order ∧ Forall (.∈ order) keys)
  then order else keys.

Definition map_order (keys : list string) : txm (list string) :=
  order ← call (EMapOrder keys);
  Ret (enumeration keys order).

(** [AccountStore.GetAllUnconfirmed]: each store is read under its own lock. *)
Fixpoint snapshots (addrs : list string) (acc : gmap string (list TxStore.UnconfirmedTx))
  : txm (gmap string (list TxStore.UnconfirmedTx)) :=
  match addrs with
  | [] => Ret acc
  | a :: addrs' =>
      l ← store_get a TxStore.GetUnconfirmed;
      snapshots addrs' (<[a := l]> acc)
  end.

Definition GetAllUnconfirmed : txm (gmap string (list TxStore.UnconfirmedTx)) :=
  keys ← gets (λ w, (map_to_list (accountStore w)).*1);
  order ← map_order keys;
  snapshots order ∅.

(** The outer loop over the snapshot. *)
Fixpoint check_accounts (client : RPCClient) (all : gmap string (list TxStore.UnconfirmedTx))
    (addrs : list string) (totalPending : nat) : txm nat :=
  match addrs with
  | [] => Ret totalPending
  | a :: addrs' =>
      n ← check_list client a (default [] (all !! a)) totalPending;
      check_accounts client all addrs' n
  end.

Definition checkUnconfirmed : txm unit :=
  client ← call EGetClient;
  match client with
  | Err _ => Ret tt
  | Ok client =>
      allUnconfirmed ← GetAllUnconfirmed;
      order ← map_order (map_to_list allUnconfirmed).*1;
      totalPending ← check_accounts client allUnconfirmed order 0;
      emit (SetPendingTxs totalPending)
  end.

(** ** Loops *)

(** [select { case <-tick: ...; case <-s.stop: ... }]: [false] when the loop stops. *)
Definition tick_or_stop (d : Z) : txm bool :=
  ticked ← call (ETick d);
  if (ticked : bool) then Ret true
  else wait_until stopped;; Ret false.

(** The first [turns] turns of the goroutine. The timer's jitter is left to [ETick]. *)
Fixpoint confirm_turns (turns : nat) (tick : Z) : txm unit :=
  match turns with
  | O => Ret tt
  | S turns' =>
      go ← tick_or_stop tick;
      if (go : bool) then
        start ← call ENow;
        checkUnconfirmed;;
        now ← call ENow;
        confirm_turns turns' (Z.max 0 (confirmPollInterval cfg - (now - start)))
      else modify (upd_running (λ n, n - 1))
  end.
Definition confirmLoop (turns : nat) : txm unit := confirm_turns turns (confirmPollInterval cfg).

(** The scan of [pruneTerminal], under the lock; the clock is read once for all entries. *)
Definition prune_section (now : Z) (w : World) : World :=
  upd_transactions (filter (λ '(id, l),
    match heap w !! l with
    | Some t => terminalPastRetention t (pruneTxExpiration cfg) now
    | None => false
    end = false)) w.

Definition pruneTerminal : txm unit :=
  now ← call ENow;
  modify (prune_section now).

Fixpoint prune_turns (turns : nat) : txm unit :=
  match turns with
  | O => Ret tt
  | S turns' =>
      go ← tick_or_stop (pruneInterval cfg);
      if (go : bool) then pruneTerminal;; prune_turns turns'
      else modify (upd_running (λ n, n - 1))
  end.
Definition pruneLoop (turns : nat) : txm unit := pruneTerminal;; prune_turns turns.

End confirm.

Section start.
Context {ST : SdkTypes} {SD : Sdk} {UT : UnicodeTables} {FC : FloatConv} (cfg : Resolved) (networkPassphrase : string).

(** [Start], run by [StartOnce]: the goroutines it launches ([turns] bounds how much of
    each endless loop is unrolled), and their count in the wait group. *)
Definition Start (turns batch : nat) : list (txm unit) * (World → World) :=
  let pruneEnabled := 0 <? pruneInterval cfg in
  let loops := [broadcastLoop cfg networkPassphrase turns batch; confirmLoop cfg turns] in
  if pruneEnabled
  then (loops ++ [pruneLoop cfg turns], upd_running (λ n, n + 3))
  else (loops, upd_running (λ n, n + 2)).
End start.
End Confirm.
