(* ===== verification/TxmSafe.v ===== *)
(** The invariant of the transaction manager (module [TxmInv]), and rely-guarantee triples of
    every operation of it (module [TxmSafe]). *)

From Stdlib Require Import SpecFloat.
From stdpp Require Import base gmap list strings sorting.
From S2P Require Import Prelude GoStrings Config Float Fee Prog Sdk TxStore Tx Txm.
From S2P Require Import Broadcast Confirm.

(** The manager's global invariant and what every step guarantees to the others.

    [Inv] holds at every moment, whatever the interleaving; [Rel] relates the world before
    and after any number of steps. Each operation gets a rely-guarantee triple [safe]
    ([_safe] lemmas): it keeps [Inv], stays in [Rel], and does not panic. *)

Module TxmInv.
Import Config Tx Txm Broadcast Confirm.
Local Open Scope Z_scope.

(** What may happen to a transaction: its identity never changes, the time of its end is
    written once, and its Done channel is never reopened. *)
Record tx_le (t t' : StellarTx) : Prop := mk_tx_le {
  le_ID : ID t' = ID t;
  le_Timestamp : Timestamp t' = Timestamp t;
  le_FromAddress : FromAddress t' = FromAddress t;
  le_Operations : Operations t' = Operations t;
  le_TerminalTime : ∀ x, TerminalTime t = Some x → TerminalTime t' = Some x;
  le_Done : DoneClosed t = true → DoneClosed t' = true
}.

(** A transaction in a terminal status has the time of its end. *)
Definition terminal_ok (t : StellarTx) : Prop :=
  isTerminalStatus (Status t) = true → is_Some (TerminalTime t).

#[export] Instance tx_le_preorder : PreOrder tx_le.
Proof. split; [by intros t|]. intros a b c [] []. constructor; try congruence; auto. Qed.

Section inv.
Context {ST : SdkTypes} {SD : Sdk} {UT : UnicodeTables} {FC : FloatConv} (cfg : Resolved) (networkPassphrase : string).

Record Inv (w : World) : Prop := mkInv {
  inv_map : ∀ id l, transactions w !! id = Some l → ∃ t, heap w !! l = Some t ∧ ID t = id;
  inv_chan : Forall (λ l, is_Some (heap w !! l)) (broadcastChan w);
  inv_cap : Z.of_nat (length (broadcastChan w)) <= Z.max 0 (broadcastChanSize cfg);
  inv_open : chanClosed w = false;
  inv_stores : ∀ a s, accountStore w !! a = Some s → TxStoreRuns.wf s;
  inv_inflight : ∀ a s q u, accountStore w !! a = Some s →
    TxStore.unconfirmedSequences s !! q = Some u →
    ∃ t, heap w !! TxStore.Tx u = Some t ∧ FromAddress t = a;
  inv_terminal : ∀ l t, heap w !! l = Some t → terminal_ok t;
  inv_ops : ∀ l t o, heap w !! l = Some t → o ∈ Operations t → is_Some (opheap w !! o);
  inv_fresh : ∀ l, is_Some (heap w !! l) ∨ is_Some (opheap w !! l) → (l < nextLoc w)%positive
}.

Record Rel (w w' : World) : Prop := mkRel {
  rel_heap : ∀ l t, heap w !! l = Some t → ∃ t', heap w' !! l = Some t' ∧ tx_le t t';
  rel_ops : ∀ o, is_Some (opheap w !! o) → is_Some (opheap w' !! o);
  rel_stores : ∀ a, is_Some (accountStore w !! a) → is_Some (accountStore w' !! a)
}.

#[export] Instance Rel_preorder : PreOrder Rel.
Proof.
  split.
  - intros w. constructor; [|done..]. intros l t Hl. by exists t.
  - intros a b c [H1 H2 H3] [H4 H5 H6]. constructor; auto.
    intros l t Hl. destruct (H1 l t Hl) as (t1 & Hl1 & Hle1).
    destruct (H4 l t1 Hl1) as (t2 & Hl2 & Hle2). exists t2. split; [done|]. by etrans.
Qed.

(** ** Facts a goroutine keeps while others run *)

Definition has_tx (l : loc) (a : string) (w : World) : Prop :=
  ∃ t, heap w !! l = Some t ∧ FromAddress t = a.
Definition has_id (l : loc) (id : string) (w : World) : Prop :=
  ∃ t, heap w !! l = Some t ∧ ID t = id.
Definition has_store (a : string) (w : World) : Prop := is_Some (accountStore w !! a).
Definition has_ops (ls : list loc) (w : World) : Prop :=
  Forall (λ o, is_Some (opheap w !! o)) ls.

Lemma has_tx_Rel l a w w' : Rel w w' → has_tx l a w → has_tx l a w'.
Proof.
  intros HR (t & Hl & <-). destruct (rel_heap _ _ HR l t Hl) as (t' & Hl' & Hle).
  exists t'. split; [done|apply Hle].
Qed.
Lemma has_id_Rel l id w w' : Rel w w' → has_id l id w → has_id l id w'.
Proof.
  intros HR (t & Hl & <-). destruct (rel_heap _ _ HR l t Hl) as (t' & Hl' & Hle).
  exists t'. split; [done|apply Hle].
Qed.
Lemma has_store_Rel a w w' : Rel w w' → has_store a w → has_store a w'.
Proof. intros HR. apply HR. Qed.
Lemma has_ops_Rel ls w w' : Rel w w' → has_ops ls w → has_ops ls w'.
Proof. intros HR Ho. eapply Forall_impl; [exact Ho|]. intros o. apply HR. Qed.

(** ** Elementary updates *)

(** An update that touches neither the heaps, the map, the channel nor the stores. *)
Lemma keep_aux w w' :
  heap w' = heap w → opheap w' = opheap w → nextLoc w' = nextLoc w →
  transactions w' = transactions w → broadcastChan w' = broadcastChan w →
  chanClosed w' = chanClosed w → accountStore w' = accountStore w →
  Inv w → Inv w' ∧ Rel w w'.
Proof.
  intros E1 E2 E3 E4 E5 E6 E7 [].
  split; constructor; rewrite ?E1, ?E2, ?E3, ?E4, ?E5, ?E6, ?E7; auto.
  intros l t Hl. by exists t.
Qed.

Lemma heap_alter_lookup w l g l' t' :
  heap (alter_tx l g w) !! l' = Some t' →
  ∃ t, heap w !! l' = Some t ∧ (t' = t ∨ t' = g t).
Proof.
  simpl. destruct (decide (l = l')) as [<-|Hne].
  - rewrite lookup_alter_eq. intros (t & Ht & Hl)%fmap_Some. eauto.
  - rewrite lookup_alter_ne by done. eauto.
Qed.

Lemma Rel_alter w l g : (∀ t, tx_le t (g t)) → Rel w (alter_tx l g w).
Proof.
  intros Hg. constructor; [|done..]. intros l' t Hl. simpl.
  destruct (decide (l = l')) as [<-|Hne].
  - rewrite lookup_alter_eq, Hl. simpl. eauto.
  - rewrite lookup_alter_ne by done. by exists t.
Qed.

Lemma Inv_alter w l g :
  (∀ t, tx_le t (g t)) → (∀ t, terminal_ok t → terminal_ok (g t)) →
  Inv w → Inv (alter_tx l g w) ∧ Rel w (alter_tx l g w).
Proof.
  intros Hg Ht HI. pose proof (Rel_alter w l g Hg) as HR. split; [|done].
  assert (∀ l' a t, heap w !! l' = Some t → FromAddress t = a →
    ∃ t', heap (alter_tx l g w) !! l' = Some t' ∧ FromAddress t' = a) as Hfrom.
  { intros l' a t Hl Ha. apply (has_tx_Rel l' a w _ HR). by exists t. }
  constructor; try apply HI.
  - intros id l' Hid. destruct (inv_map w HI id l' Hid) as (t & Hl & <-).
    destruct (rel_heap _ _ HR l' t Hl) as (t' & ? & []). eauto.
  - eapply Forall_impl; [apply (inv_chan w HI)|]. intros l' [t Hl].
    destruct (rel_heap _ _ HR l' t Hl) as (t' & ? & _). eauto.
  - intros a s q u Hs Hu. destruct (inv_inflight w HI a s q u Hs Hu) as (t & Hl & Ha). eauto.
  - intros l' t' Hl'. apply heap_alter_lookup in Hl' as (t & Hl & [->| ->]).
    + by apply (inv_terminal w HI l').
    + apply Ht. by apply (inv_terminal w HI l').
  - intros l' t' o Hl' Ho. apply heap_alter_lookup in Hl' as (t & Hl & [->| ->]).
    + by apply (inv_ops w HI l' t).
    + rewrite (le_Operations _ _ (Hg t)) in Ho. by apply (inv_ops w HI l' t).
  - intros l' [[t' Hl']|Ho]; apply (inv_fresh w HI l'); [left|by right].
    apply heap_alter_lookup in Hl' as (t & Hl & _). eauto.
Qed.

(** A field of a transaction other than those [tx_le] and [terminal_ok] speak of. *)
Definition harmless (g : StellarTx → StellarTx) : Prop :=
  (∀ t, tx_le t (g t)) ∧ (∀ t, terminal_ok t → terminal_ok (g t)).

(** ** Changing the map of transactions *)

Lemma Inv_transactions w m :
  (∀ id l, m !! id = Some l → ∃ t, heap w !! l = Some t ∧ ID t = id) →
  Inv w → Inv (upd_transactions (λ _, m) w) ∧ Rel w (upd_transactions (λ _, m) w).
Proof.
  intros Hm HI. split; [|constructor; eauto; intros l t Hl; by exists t].
  destruct HI. by constructor.
Qed.

Lemma Inv_transactions_shrink w g :
  (∀ id l, g (transactions w) !! id = Some l → transactions w !! id = Some l) →
  Inv w → Inv (upd_transactions g w) ∧ Rel w (upd_transactions g w).
Proof.
  intros Hm HI. apply (Inv_transactions w (g (transactions w))); [|done].
  intros id l Hl. by apply (inv_map w HI), Hm.
Qed.

(** ** Changing the stores *)

Lemma Inv_stores w a s :
  TxStoreRuns.wf s →
  (∀ q u, TxStore.unconfirmedSequences s !! q = Some u → has_tx (TxStore.Tx u) a w) →
  Inv w → Inv (upd_accountStore (insert a s) w) ∧ Rel w (upd_accountStore (insert a s) w).
Proof.
  intros Hwf Hu HI. split.
  - constructor; try apply HI.
    + intros a' s'. simpl. rewrite lookup_insert. case_decide; [|apply HI]. by intros [= <-].
    + intros a' s' q u. simpl. rewrite lookup_insert. case_decide as Ha.
      * intros [= <-] Hq. subst a'. by apply (Hu q).
      * apply HI.
  - constructor; [|done|].
    + intros l t Hl. by exists t.
    + intros a' Ha'. simpl. rewrite lookup_insert. case_decide; [by eexists|done].
Qed.
End inv.

(** The manager [New] returns satisfies the invariant, so the theorems apply from the
    start. *)
Lemma New_inv {ST : SdkTypes} look c chainID cfg passphrase w :
  New look c chainID = Some (Ok (cfg, passphrase, w)) → Inv cfg w.
Proof.
  unfold New. intros (r & _ & Hr)%bind_Some. destruct (look chainID); [|done].
  injection Hr as <- <- <-. constructor; cbn; try (done || by constructor || lia).
  intros l [[t Ht]|[o Ho]]; done.
Qed.

(** Transport the facts of a goroutine along the steps of the others. *)
Ltac carry :=
  repeat match goal with
  | HR : Rel ?w ?w', H : has_tx _ _ ?w |- _ =>
      let H' := fresh H in pose proof (has_tx_Rel _ _ _ _ HR H) as H'; clear H; rename H' into H
  | HR : Rel ?w ?w', H : has_id _ _ ?w |- _ =>
      let H' := fresh H in pose proof (has_id_Rel _ _ _ _ HR H) as H'; clear H; rename H' into H
  | HR : Rel ?w ?w', H : has_store _ ?w |- _ =>
      let H' := fresh H in pose proof (has_store_Rel _ _ _ HR H) as H'; clear H; rename H' into H
  | HR : Rel ?w ?w', H : has_ops _ ?w |- _ =>
      let H' := fresh H in pose proof (has_ops_Rel _ _ _ HR H) as H'; clear H; rename H' into H
  end.

Create HintDb txm discriminated.
#[export] Hint Resolve has_tx_Rel has_id_Rel has_store_Rel has_ops_Rel : txm.

Ltac harmless_tac :=
  let t := fresh "t" in let Ht := fresh "Ht" in
  split; [intros t; constructor; simpl; auto
         |intros t Ht; unfold terminal_ok in *; simpl in *; auto].
End TxmInv.

Module TxmSafe.
Import Config Tx Txm Broadcast Confirm TxmInv.
Local Open Scope Z_scope.

#[export] Hint Constants Opaque : txm.

Section safe.
Context {ST : SdkTypes} {SD : Sdk} {UT : UnicodeTables} {FC : FloatConv}.
Context (cfg : Resolved) (networkPassphrase : string).

Abbreviation safe := (Prog.safe (E := ext) (Inv cfg) Rel).
Abbreviation T := (λ _ _, True).

(** ** Rules *)

Lemma safe_seq {A B} (p : txm A) (k : A → txm B) w P Q :
  safe p w P → (∀ a w', Rel w w' → P a w' → safe (k a) w' Q) → safe (p ≫= k) w Q.
Proof. intros Hp Hk. apply safe_bind. eapply safe_mono; [apply _|exact Hk|exact Hp]. Qed.

Lemma safe_weaken {A} (p : txm A) w P Q :
  safe p w P → (∀ a w', Rel w w' → P a w' → Q a w') → safe p w Q.
Proof. intros Hp HQ. eapply safe_mono; [apply _|exact HQ|exact Hp]. Qed.

Lemma safe_T {A} (p : txm A) w P : safe p w P → safe p w T.
Proof. intros Hp. by eapply safe_weaken. Qed.

Lemma call_safe {X} (e : ext X) w : safe (call e) w T.
Proof. by intros x. Qed.

Lemma gets_safe {X} (f : World → X) w (P : X → World → Prop) :
  (∀ w', Rel w w' → Inv cfg w' → P (f w') w') → safe (gets f) w P.
Proof. intros HP w' HR HI. cbn. split_and!; [done..|]. by apply HP. Qed.

Lemma gets_T {X} (f : World → X) w : safe (gets f) w T.
Proof. by apply gets_safe. Qed.

Lemma modify_safe (g : World → World) w :
  (∀ w', Rel w w' → Inv cfg w' → Inv cfg (g w') ∧ Rel w' (g w')) → safe (modify g) w T.
Proof. intros Hg w' HR HI. cbn. destruct (Hg w' HR HI). done. Qed.

Lemma atomic_safe {X} (f : World → X * World) w (P : X → World → Prop) :
  (∀ w', Rel w w' → Inv cfg w' →
     Inv cfg (f w').2 ∧ Rel w' (f w').2 ∧ P (f w').1 (f w').2) → safe (atomic f) w P.
Proof. intros Hf w' HR HI. cbn. by apply Hf. Qed.

Lemma wait_safe ready w : safe (wait_until ready) w T.
Proof. intros w' x w'' HR HI. destruct (ready w'); [|done]. intros [= <- <-]. done. Qed.

Lemma emit_safe m w : safe (emit m) w T.
Proof. apply modify_safe. intros w' _. by apply keep_aux. Qed.

Lemma write_tx_safe l g w : harmless g → safe (write_tx l g) w T.
Proof. intros [Hg Ht]. apply modify_safe. intros w' _. by apply Inv_alter. Qed.

Lemma read_tx_safe l a w :
  has_tx l a w →
  safe (read_tx l) w (λ t w', FromAddress t = a ∧ has_ops (Operations t) w' ∧ has_id l (ID t) w').
Proof.
  intros Hl. eapply safe_seq.
  - apply (gets_safe _ w (λ o w', ∃ t, o = Some t ∧ FromAddress t = a ∧
      has_ops (Operations t) w' ∧ has_id l (ID t) w')).
    intros w' HR HI. destruct (has_tx_Rel _ _ _ _ HR Hl) as (t & Ht & Ha).
    exists t. split_and!; [done..| |by exists t]. apply Forall_forall. intros o.
    by apply (inv_ops _ _ HI l).
  - intros o w' HR (t & -> & Ha & Hops & Hid). cbn. by split_and!.
Qed.

(** ** Stores *)

Definition store_ok (a : string) (w : World) (s : TxStore.TxStore) : Prop :=
  TxStoreRuns.wf s ∧
  ∀ q u, TxStore.unconfirmedSequences s !! q = Some u → has_tx (TxStore.Tx u) a w.

Lemma store_get_safe {X} a (f : TxStore.TxStore → X) w (P : X → World → Prop) :
  has_store a w → (∀ s w', Rel w w' → store_ok a w' s → P (f s) w') →
  safe (store_get a f) w P.
Proof.
  intros Ha HP. eapply safe_seq.
  - apply (gets_safe _ w (λ o w', ∃ x, o = Some x ∧ P x w')).
    intros w' HR HI. destruct (has_store_Rel _ _ _ HR Ha) as [s Hs]. rewrite Hs. cbn.
    eexists. split; [done|]. apply HP; [done|]. split; [by apply (inv_stores _ _ HI a)|].
    intros q u Hq. by apply (inv_inflight _ _ HI a s q).
  - intros o w' HR (x & -> & HP'). done.
Qed.

Lemma store_get_T {X} a (f : TxStore.TxStore → X) w :
  has_store a w → safe (store_get a f) w T.
Proof. intros Ha. by apply store_get_safe. Qed.

Lemma store_update_safe a f w :
  has_store a w →
  (∀ s s' w', Rel w w' → f s = Ok s' → store_ok a w' s → store_ok a w' s') →
  safe (store_update a f) w T.
Proof.
  intros Ha Hf. eapply safe_seq.
  - apply (atomic_safe _ w (λ o _, is_Some o)). intros w' HR HI.
    destruct (has_store_Rel _ _ _ HR Ha) as [s Hs]. rewrite Hs.
    destruct (f s) as [s'|e] eqn:Ef; cbn; [|by split_and!].
    destruct (Hf s s' w' HR Ef) as [Hwf Hin].
    { split; [by apply (inv_stores _ _ HI a)|]. intros q u Hq. by apply (inv_inflight _ _ HI a s q). }
    destruct (Inv_stores cfg w' a s' Hwf Hin HI). by split_and!.
  - by intros o w' HR [r ->].
Qed.

(** The operations of a store keep it well formed; the in-flight ones are old ones, or
    the one that is added. *)
Lemma exec_store_ok o a w s s' :
  (∀ n, o = TxStoreRuns.OpResyncNonce n → is_int64 n = true) →
  (∀ q h m l, o = TxStoreRuns.OpAddUnconfirmed q h m l → has_tx l a w) →
  TxStoreRuns.exec o s = Ok s' → store_ok a w s → store_ok a w s'.
Proof.
  intros Hn Hadd He [Hwf Hin]. split; [by eapply TxStoreFacts.wf_exec|].
  destruct o as [q h m l|q h f|q|n]; cbn [TxStoreRuns.exec] in He.
  - apply TxStoreFacts.AddUnconfirmed_Ok in He as (_ & Hun & _). rewrite Hun.
    intros q' u. rewrite lookup_insert. case_decide; [|apply Hin].
    intros [= <-]. by eapply Hadd.
  - apply TxStoreFacts.Confirm_Ok in He as (u & _ & _ & ->). cbn.
    intros q' v [_ Hv]%lookup_delete_Some. eauto.
  - injection He as <-. cbn. intros q' v [_ Hv]%lookup_delete_Some. eauto.
  - by injection He as <-.
Qed.

Lemma store_Release_safe a q w : has_store a w → safe (store_Release a q) w T.
Proof.
  intros Ha. eapply safe_seq; [|by intros].
  apply store_update_safe; [done|]. intros s s' w' HR Hs.
  by apply (exec_store_ok (TxStoreRuns.OpRelease q)).
Qed.

(** ** Txm.v *)

Lemma alloc_tx_safe t w :
  terminal_ok t → has_ops (Operations t) w →
  safe (alloc_tx t) w (λ l w', heap w' !! l = Some t ∧ has_tx l (FromAddress t) w').
Proof.
  intros Ht Hops. apply atomic_safe. intros w' HR HI. cbn -[insert lookup].
  assert (heap w' !! nextLoc w' = None) as Hfresh.
  { apply eq_None_not_Some. intros Hs. pose proof (inv_fresh _ _ HI (nextLoc w')). 
    assert (nextLoc w' < nextLoc w')%positive by (apply (inv_fresh _ _ HI); by left). lia. }
  assert (Rel w' (upd_nextLoc Pos.succ (upd_heap (insert (nextLoc w') t) w'))) as HR'.
  { constructor; [|done..]. intros l t' Hl. cbn. rewrite lookup_insert_ne by congruence. by exists t'. }
  split_and!; [| done | |].
  - constructor; try apply HI; cbn.
    + intros id l Hid. destruct (inv_map _ _ HI id l Hid) as (t' & Hl & He).
      rewrite lookup_insert_ne by congruence. eauto.
    + eapply Forall_impl; [apply HI|]. intros l [t' Hl].
      rewrite lookup_insert_ne by congruence. eauto.
    + intros a s q u Hs Hu. destruct (inv_inflight _ _ HI a s q u Hs Hu) as (t' & Hl & He).
      rewrite lookup_insert_ne by congruence. eauto.
    + intros l t'. rewrite lookup_insert. case_decide; [by intros [= <-]|apply HI].
    + intros l t' o. rewrite lookup_insert. case_decide; [|apply HI].
      intros [= <-] Ho. pose proof (has_ops_Rel _ _ _ HR Hops) as Hall.
      unfold has_ops in Hall. rewrite Forall_forall in Hall. by apply Hall.
    + intros l Hl. destruct (decide (l = nextLoc w')) as [->|Hne]; [lia|].
      rewrite lookup_insert_ne in Hl by done. pose proof (inv_fresh _ _ HI l Hl). lia.
  - cbn. by rewrite lookup_insert_eq.
  - exists t. cbn. by rewrite lookup_insert_eq.
Qed.

Lemma try_send_safe l a w : has_tx l a w → safe (try_send cfg l) w T.
Proof.
  intros Hl. eapply safe_seq.
  - apply (atomic_safe _ w (λ o _, is_Some o)). intros w' HR HI.
    rewrite (inv_open _ _ HI). destruct (_ <? _) eqn:Hlt; cbn; [|by split_and!].
    zbool. split_and!; [|by constructor; [intros l' t' ?; exists t'|..]|done].
    constructor; try apply HI; cbn.
    + apply Forall_app. split; [apply HI|]. constructor; [|constructor].
      destruct (has_tx_Rel _ _ _ _ HR Hl) as (t & Ht & _). by exists t.
    + rewrite length_app. cbn. lia.
  - by intros o w' HR [b ->].
Qed.

Lemma try_recv_safe w : safe try_recv w (λ o w', ∀ l, o = Some l → ∃ a, has_tx l a w').
Proof.
  apply atomic_safe. intros w' HR HI. destruct (broadcastChan w') as [|l q] eqn:Eq; cbn.
  { by split_and!. }
  pose proof (inv_chan _ _ HI) as Hc. pose proof (inv_cap _ _ HI) as Hcap.
  rewrite Eq in Hc, Hcap. cbn in Hcap. apply Forall_cons in Hc as [[t Ht] Hc].
  split_and!.
  - constructor; try apply HI; cbn; [done|lia].
  - by constructor; [intros l' t' ?; exists t'|..].
  - intros l' [= <-]. by exists (FromAddress t), t.
Qed.

Lemma status_section_ok l status now w :
  Inv cfg w →
  Inv cfg (status_section cfg l status now w) ∧ Rel w (status_section cfg l status now w).
Proof.
  intros HI. unfold status_section.
  destruct (isTerminalStatus status) eqn:Ht.
  - set (g := λ t, match TerminalTime (set_Status status t) with
                   | None => set_TerminalTime (Some now) (set_Status status t)
                   | Some _ => set_Status status t
                   end).
    assert (alter_tx l (λ t, match TerminalTime t with
                         | None => set_TerminalTime (Some now) t | Some _ => t end)
              (alter_tx l (set_Status status) w) = alter_tx l g w) as ->.
    { unfold alter_tx, upd_heap. cbn. f_equal. rewrite alter_alter_eq. done. }
    assert (Inv cfg (alter_tx l g w) ∧ Rel w (alter_tx l g w)) as [HI' HR'].
    { apply Inv_alter; [| |done]; unfold g, terminal_ok.
      - intros t. cbn. destruct (TerminalTime t) eqn:E; constructor; cbn; auto; congruence.
      - intros t _. cbn. destruct (TerminalTime t) eqn:E; cbn; [rewrite E|]; by eexists. }
    unfold maybeEvictTerminalTx. destruct (0 <? _); [done|].
    destruct (heap (alter_tx l g w) !! l); [|done].
    destruct (Inv_transactions_shrink cfg (alter_tx l g w) (delete (ID s))) as [HI2 HR2]; [|done|].
    { intros id l' [_ Hl]%lookup_delete_Some. done. }
    split; [done|]. by etrans.
  - apply Inv_alter; [| |done].
    + intros t. by constructor.
    + intros t _ Ht'. cbn in Ht'. congruence.
Qed.

Lemma updateTransactionStatus_safe l status w : safe (updateTransactionStatus cfg l status) w T.
Proof.
  eapply safe_seq; [apply call_safe|]. intros now w1 HR _.
  eapply safe_seq; [apply modify_safe; intros; by apply status_section_ok|].
  intros _ w2 HR2 _. destruct (isTerminalStatus status); [|done].
  apply write_tx_safe. harmless_tac.
Qed.

Hint Resolve call_safe gets_T wait_safe emit_safe write_tx_safe read_tx_safe store_get_T
  store_Release_safe try_send_safe try_recv_safe updateTransactionStatus_safe : txm.
Hint Extern 1 (harmless _) => harmless_tac : txm.

(** One step of a triple: a bind whose first part has a known triple, a branch, the end. *)
Ltac tri1 :=
  match goal with
  | |- Prog.safe _ _ (mbind _ _) _ _ =>
      eapply safe_seq; [solve [eauto 2 with txm] | let HR := fresh "HR" in intros ? ? HR ?; carry]
  | |- Prog.safe _ _ (Ret _) _ _ => cbn [Prog.safe]
  | |- Prog.safe _ _ (if ?b then _ else _) _ _ => destruct b eqn:?
  | |- Prog.safe _ _ (match ?x with _ => _ end) _ _ => destruct x eqn:?
  | |- Prog.safe _ _ (let '(_, _) := ?x in _) _ _ => destruct x eqn:?
  | |- Prog.safe _ _ _ _ _ => solve [eauto 2 with txm]
  end.
Ltac tri := repeat (cbn beta iota zeta in *; try done; tri1).

Lemma markTxFailed_safe l r w : safe (markTxFailed cfg l r) w T.
Proof. unfold markTxFailed. tri. Qed.

Lemma markBroadcastAt_safe l w : safe (markBroadcastAt l) w T.
Proof. unfold markBroadcastAt. tri. Qed.

Lemma recordTimeUntilConfirmed_safe l a w : has_tx l a w → safe (recordTimeUntilConfirmed l) w T.
Proof. intros. unfold recordTimeUntilConfirmed. tri. Qed.

Lemma getTransactionAttempt_safe l a w : has_tx l a w → safe (getTransactionAttempt l) w T.
Proof. intros. unfold getTransactionAttempt. tri. Qed.

Lemma getInfraAttempts_safe l a w : has_tx l a w → safe (getInfraAttempts l) w T.
Proof. intros. unfold getInfraAttempts. tri. Qed.

Lemma defaultFromAddress_safe w : safe defaultFromAddress w T.
Proof. unfold defaultFromAddress. tri. Qed.
Hint Resolve markTxFailed_safe markBroadcastAt_safe recordTimeUntilConfirmed_safe
  getTransactionAttempt_safe getInfraAttempts_safe defaultFromAddress_safe : txm.

Lemma dropOldestForBackpressure_safe o w : safe (dropOldestForBackpressure cfg o) w T.
Proof.
  unfold dropOldestForBackpressure. destruct o as [l|]; [|done].
  eapply safe_seq.
  { apply (atomic_safe _ w T). intros w' HR HI. unfold drop_section.
    destruct (heap w' !! l); [|by split_and!]. case_decide; [|by split_and!]. cbn [fst snd].
    destruct (Inv_alter cfg w' l (set_ResultCode (DropReason_text ChannelFullOldestEvicted)));
      [intros t; by constructor|by intros t Ht|done|done]. }
  intros ok w1 HR1 _. tri.
Qed.
Hint Resolve dropOldestForBackpressure_safe : txm.

Lemma register_section_safe l id w :
  has_id l id w → safe (atomic (register_section id l)) w T.
Proof.
  intros Hl. apply (atomic_safe _ w T). intros w' HR HI. unfold register_section.
  destruct (transactions w' !! id) eqn:Hid; [by split_and!|]. cbn [fst snd].
  destruct (Inv_transactions cfg w' (<[id:=l]> (transactions w'))); [|done|done].
  intros id' l'. rewrite lookup_insert. case_decide as Heq.
  - intros [= <-]. subst id'. by eapply has_id_Rel.
  - apply (inv_map _ _ HI).
Qed.
Hint Resolve register_section_safe : txm.

Lemma enqueueTransaction_safe l a w : has_tx l a w → safe (enqueueTransaction cfg l) w T.
Proof.
  intros Hl. unfold enqueueTransaction.
  eapply safe_seq; [by eapply read_tx_safe|]. intros t w1 HR1 (_ & _ & Hid). carry.
  eapply safe_seq; [by eapply register_section_safe|]. intros [] w2 HR2 _; carry.
  { unfold closeDone. tri. }
  eapply safe_seq; [by eapply try_send_safe|]. intros [] w3 HR3 _; carry; [tri|].
  eapply safe_seq; [apply try_recv_safe|]. intros o w4 HR4 _; carry.
  eapply safe_seq; [apply dropOldestForBackpressure_safe|]. intros _ w5 HR5 _; carry.
  eapply safe_seq; [by eapply try_send_safe|]. intros [] w6 HR6 _; carry; [tri|].
  eapply safe_seq.
  { apply modify_safe. intros w' HR HI. apply Inv_transactions_shrink; [|done].
    intros id l' [_ Hl']%lookup_delete_Some. done. }
  intros _ w7 HR7 _. tri.
Qed.

Lemma Enqueue_safe req w : has_ops (reqOperations req) w → safe (Enqueue cfg req) w T.
Proof.
  intros Hops. unfold Enqueue.
  eapply safe_seq; [by case_decide; tri|]. intros txID w1 HR1 _. carry.
  destruct (negb _); [tri|].
  eapply safe_seq; [by case_decide; tri|]. intros [fromAddr|e] w2 HR2 _; carry; [|tri].
  destruct (AddressToAccountId fromAddr); [|tri].
  eapply safe_seq; [apply call_safe|]. intros now w3 HR3 _. carry.
  eapply safe_seq; [by apply alloc_tx_safe|]. intros l w4 HR4 [_ Hl].
  by eapply enqueueTransaction_safe.
Qed.

Lemma txResult_safe l a w : has_tx l a w → safe (txResult l) w T.
Proof. intros. unfold txResult. tri. Qed.
Hint Resolve txResult_safe : txm.

Lemma EnqueueAndWait_safe req w : has_ops (reqOperations req) w → safe (EnqueueAndWait cfg req) w T.
Proof.
  intros Hops. unfold EnqueueAndWait.
  eapply safe_seq; [by apply Enqueue_safe|]. intros [txID|e] w1 HR1 _; [|tri].
  eapply safe_seq.
  { apply (gets_safe _ w1 (λ o w', ∀ l, o = Some l → ∃ a, has_tx l a w')).
    intros w' HR HI l Hl. destruct (inv_map _ _ HI txID l Hl) as (t & Ht & _).
    by exists (FromAddress t), t. }
  intros [l|] w2 HR2 Hl; [|tri]. destruct (Hl l eq_refl) as [a Ha].
  eapply safe_seq; [apply call_safe|]. intros [] w3 HR3 _; carry; tri.
Qed.
Hint Resolve enqueueTransaction_safe Enqueue_safe EnqueueAndWait_safe : txm.

(** ** Broadcast.v *)

Lemma sorobanInclusionPercentiles_safe c w : safe (sorobanInclusionPercentiles c) w T.
Proof.
  unfold sorobanInclusionPercentiles.
  eapply (safe_seq _ _ _ T).
  { intros w' x w'' HR HI. destruct (feeLock w'); [done|]. intros [= <- <-].
    destruct (keep_aux cfg w' (upd_feeLock (λ _, true) w')); done. }
  intros _ w1 HR1 _. eapply safe_seq; [apply call_safe|]. intros now w2 HR2 _.
  eapply safe_seq; [apply gets_T|]. intros fresh w3 HR3 _.
  eapply (safe_seq _ _ _ T); [destruct fresh; tri|]. intros resp w4 HR4 _.
  apply atomic_safe. intros w' HR HI.
  destruct (FeeTracker.sorobanInclusionPercentiles _ _ _) as [t r]. cbn [fst snd].
  destruct (keep_aux cfg w' (upd_feeLock (λ _, false) (upd_feeTracker (λ _, t) w'))); done.
Qed.

Lemma releaseSeqAndFailTx_safe a q l r w :
  has_store a w → safe (releaseSeqAndFailTx cfg a q l r) w T.
Proof. intros. unfold releaseSeqAndFailTx. tri. Qed.
Hint Resolve sorobanInclusionPercentiles_safe releaseSeqAndFailTx_safe : txm.

Lemma mapM_lookup_ops (h : gmap loc Operation) ls :
  Forall (λ o, is_Some (h !! o)) ls →
  ∃ ops, mapM (M:=option) (λ l, option_map (pair l) (h !! l)) ls = Some ops ∧ ops.*1 = ls.
Proof.
  induction 1 as [|l ls [o Ho] _ (ops & IH & Hfst)]; [by exists []|].
  exists ((l, o) :: ops). cbn. rewrite Ho, IH. cbn. by rewrite Hfst.
Qed.

Lemma read_ops_safe ls w :
  has_ops ls w → safe (read_ops ls) w (λ ops w', ops.*1 = ls ∧ has_ops ls w').
Proof.
  intros Hls. eapply safe_seq.
  - apply (gets_safe _ w (λ o w', ∃ ops, o = Some ops ∧ ops.*1 = ls ∧ has_ops ls w')).
    intros w' HR HI. pose proof (has_ops_Rel _ _ _ HR Hls) as Hls'.
    destruct (mapM_lookup_ops (opheap w') ls Hls') as (ops & -> & Hfst). by exists ops.
  - intros o w' HR (ops & -> & Hfst & Hops). by cbn.
Qed.

Lemma write_op_safe l g w : safe (write_op l g) w T.
Proof.
  apply modify_safe. intros w' HR HI.
  assert (∀ o, is_Some (alter g l (opheap w') !! o) ↔ is_Some (opheap w' !! o)) as Hdom.
  { intros o. rewrite !lookup_alter_is_Some. done. }
  split.
  - constructor; try apply HI; cbn.
    + intros l' t o Hl Ho. apply Hdom. by apply (inv_ops _ _ HI l' t).
    + intros l'. rewrite Hdom. apply (inv_fresh _ _ HI).
  - constructor; cbn; [intros l' t Hl; by exists t| |done]. intros o. by apply Hdom.
Qed.
Hint Resolve read_ops_safe write_op_safe : txm.

Lemma getSequenceNumber_safe c a w : safe (getSequenceNumber c a) w T.
Proof. unfold getSequenceNumber. tri. Qed.
Hint Resolve getSequenceNumber_safe : txm.

Lemma resyncSequence_safe c l a w : has_tx l a w → safe (resyncSequence c l) w T.
Proof.
  intros Hl. unfold resyncSequence.
  eapply safe_seq; [by eapply read_tx_safe|]. intros t w1 HR1 (Ha & _ & _). carry.
  eapply safe_seq; [apply getSequenceNumber_safe|]. intros [q|e] w2 HR2 _; carry; [|tri].
  eapply safe_seq.
  { apply (gets_safe _ w2 (λ o w', is_Some o → has_store (FromAddress t) w')).
    intros w' _ _ Hs. exact Hs. }
  intros [s|] w3 HR3 Hs; carry; [|tri]. specialize (Hs ltac:(by eexists)).
  eapply safe_seq; [by apply store_get_T|]. intros ? w4 HR4 _; carry.
  eapply safe_seq; [by apply store_get_T|]. intros ? w5 HR5 _; carry.
  eapply safe_seq.
  { apply store_update_safe; [done|]. intros s1 s2 w' HR He.
    apply (exec_store_ok (TxStoreRuns.OpResyncNonce (int64 (q + 1)))); [|done|done].
    intros n [= <-]. apply int64_range. }
  intros ? w6 HR6 _; carry. tri.
Qed.
Hint Resolve resyncSequence_safe : txm.

Lemma handleSendResult_safe l a res q m w :
  has_tx l a w → has_store a w → safe (handleSendResult (Some l) res q (Some a) m) w T.
Proof.
  intros Hl Ha. unfold handleSendResult.
  assert (∀ h, safe (store_update a (TxStore.AddUnconfirmed q h m l)) w T) as Hadd.
  { intros h. apply store_update_safe; [done|]. intros s s' w' HR He.
    apply (exec_store_ok (TxStoreRuns.OpAddUnconfirmed q h m l)); [done| |done].
    intros ? ? ? ? [= <- <- <- <-]. by eapply has_tx_Rel. }
  destruct (sendStatus res); [| |tri..].
  all: case_decide; [tri|]; eapply safe_seq; [apply Hadd|];
    intros [] w1 HR1 _; carry; unfold updateTransactionHash, updateTransactionResultXDR,
      updateTransactionResultMeta, updateTransactionResultCode; tri.
Qed.
Hint Resolve handleSendResult_safe : txm.

Lemma retryGetClientOrFail_safe l a w : has_tx l a w → safe (retryGetClientOrFail cfg l) w T.
Proof.
  intros Hl. unfold retryGetClientOrFail, incrementInfraAttempts, sleep_retry_delay. tri.
Qed.

Lemma simulateTransaction_safe c t w : safe (simulateTransaction c t) w T.
Proof. unfold simulateTransaction. tri. Qed.

Lemma shouldRetrySimulation_safe e i m w : safe (shouldRetrySimulation cfg e i m) w T.
Proof. unfold shouldRetrySimulation, isRetryableSimulationError. tri. Qed.

Lemma apply_simulation_safe op0 sim w : safe (apply_simulation cfg op0 sim) w T.
Proof. unfold apply_simulation. tri. Qed.

Lemma signTransaction_safe t a w : safe (signTransaction networkPassphrase t a) w T.
Proof. unfold signTransaction. tri. Qed.
Hint Resolve retryGetClientOrFail_safe simulateTransaction_safe shouldRetrySimulation_safe
  apply_simulation_safe signTransaction_safe : txm.

Lemma assembleTransaction_safe tx sim fee m w :
  has_ops (tx_Operations tx) w → safe (assembleTransaction cfg (Some tx) sim fee m) w T.
Proof. intros Hops. unfold assembleTransaction. destruct (tx_Operations tx) eqn:E; tri. Qed.
Hint Resolve assembleTransaction_safe : txm.

(** From here on the SDK keeps the operations of a transaction it builds, and the
    configured poll interval is positive (a ticker panics otherwise). *)
Context {SL : SdkLaws} (Hpoll : 0 < confirmPollInterval cfg).

Lemma buildPreliminaryTx_safe l a q m w :
  has_tx l a w →
  safe (buildPreliminaryTx cfg (Some l) q m) w
    (λ r w', ∀ tx, r = Ok tx → has_ops (tx_Operations tx) w').
Proof.
  intros Hl. unfold buildPreliminaryTx.
  eapply safe_seq; [by eapply read_tx_safe|]. intros t w1 HR1 (_ & Hops & _). carry.
  eapply safe_seq; [apply call_safe|]. intros tb w2 HR2 _. carry.
  eapply safe_seq; [by apply read_ops_safe|]. intros ops w3 HR3 [Hfst Hops']. cbn.
  intros tx Htx. apply new_operations in Htx. cbn in Htx. by rewrite Htx, Hfst.
Qed.

Definition prep_post (r : PrepResult) (w : World) : Prop :=
  ∀ tx sim m, r = Ok (tx, sim, m) → has_ops (tx_Operations tx) w.

Lemma prepare_loop_safe n i mx c l a q e w :
  has_tx l a w → safe (prepare_loop cfg n i mx c l q e) w prep_post.
Proof.
  revert i e w. induction n as [|n IH]; intros i e w Hl; cbn [prepare_loop]; [by intros ???|].
  eapply safe_seq; [apply call_safe|]. intros [latest|err] w1 HR1 _; carry.
  - eapply safe_seq; [by eapply read_tx_safe|]. intros t w2 HR2 _. carry.
    eapply safe_seq; [apply write_tx_safe; harmless_tac|]. intros _ w3 HR3 _. carry.
    eapply safe_seq; [by eapply buildPreliminaryTx_safe|]. intros [tx|err] w4 HR4 Htx; carry;
      [|by intros ???].
    specialize (Htx tx eq_refl).
    eapply safe_seq; [apply simulateTransaction_safe|]. intros [sim|err] w5 HR5 _; carry.
    + eapply safe_seq; [by eapply read_tx_safe|]. intros t' w6 HR6 _. carry.
      intros ??? [= <- <- <-]. done.
    + eapply safe_seq; [apply shouldRetrySimulation_safe|]. intros [] w6 HR6 _; carry;
        [|by intros ???].
      eapply safe_seq; [apply call_safe|]. intros [] w7 HR7 _; carry; [by intros ???|].
      by apply IH.
  - destruct (mx <=? i + 1); [by intros ???|].
    eapply safe_seq; [apply call_safe|]. intros [] w2 HR2 _; carry; [by intros ???|]. by apply IH.
Qed.

Lemma poll_restore_loop_safe n c h w : safe (poll_restore_loop n c h) w T.
Proof.
  revert w. induction n as [|n IH]; intros w; cbn [poll_restore_loop]; [tri|].
  eapply safe_seq; [apply call_safe|]. intros [r|e] w1 HR1 _; [|apply IH].
  destruct (getStatus r); [done|done|apply IH..].
Qed.

Lemma pollRestoreTransaction_safe c h w : safe (pollRestoreTransaction cfg c h) w T.
Proof.
  unfold pollRestoreTransaction. destruct (Z.leb_spec (confirmPollInterval cfg) 0); [lia|].
  eapply safe_seq; [apply call_safe|]. intros n w1 HR1 _. apply poll_restore_loop_safe.
Qed.
Hint Resolve pollRestoreTransaction_safe : txm.

Lemma restore_attempt_safe c l a x w : has_tx l a w → safe (restore_attempt cfg c l x) w T.
Proof. intros. unfold restore_attempt. tri. Qed.

Lemma restore_loop_safe n c l a x e w : has_tx l a w → safe (restore_loop cfg n c l x e) w T.
Proof.
  revert e w. induction n as [|n IH]; intros e w Hl; cbn [restore_loop]; [tri|].
  eapply safe_seq; [by eapply restore_attempt_safe|]. intros [err|r] w1 HR1 _; carry; [|done].
  eapply safe_seq; [apply call_safe|]. intros [] w2 HR2 _; carry; [done|]. by apply IH.
Qed.
Hint Resolve restore_loop_safe : txm.

Lemma alloc_op_safe o w :
  safe (atomic (λ w, (nextLoc w, upd_nextLoc Pos.succ (upd_opheap (insert (nextLoc w) o) w)))) w T.
Proof.
  apply (atomic_safe _ w T). intros w' HR HI. cbn [fst snd]. split_and!; [| |done].
  - constructor; try apply HI; cbn.
    + intros l t o' Hl Ho. rewrite lookup_insert. case_decide; [by eexists|].
      by apply (inv_ops _ _ HI l t).
    + intros l Hl. rewrite lookup_insert in Hl. case_decide; [lia|].
      pose proof (inv_fresh _ _ HI l Hl). lia.
  - constructor; cbn; [intros l t Hl; by exists t| |done].
    intros o'. rewrite lookup_insert. case_decide; [by eexists|done].
Qed.
Hint Resolve alloc_op_safe : txm.

Lemma handleRestore_safe c l a p q w :
  has_tx l a w → safe (handleRestore cfg networkPassphrase c l p q) w T.
Proof. intros. unfold handleRestore. tri. Qed.
Hint Resolve handleRestore_safe : txm.

(** Every turn of the submit loop counts an attempt, or is the first to restore. *)
Definition advances (st : SubmitState) (r : turn) : Prop :=
  match r with
  | TurnNext st' =>
      (submitAttempt st' = submitAttempt st + 1 ∧ restoreHandled st' = restoreHandled st) ∨
      (submitAttempt st' = submitAttempt st ∧ restoreHandled st = false ∧ restoreHandled st' = true)
  | _ => True
  end.

Lemma fail_turn_safe a q l r st w :
  has_store a w → safe (fail_turn cfg a q l r) w (λ r _, advances st r).
Proof. intros. unfold fail_turn. tri. Qed.

Lemma backoff_or_release_safe a q st st' w :
  has_store a w → advances st (TurnNext st') →
  safe (backoff_or_release cfg a q st') w (λ r _, advances st r).
Proof. intros. unfold backoff_or_release, sleep_retry_delay. tri. Qed.
Hint Resolve fail_turn_safe backoff_or_release_safe : txm.
Hint Extern 1 (advances _ _) => by left : txm.

Lemma submit_response_safe c l a st res m w :
  has_tx l a w → has_store a w →
  safe (submit_response cfg c l a st res m) w (λ r _, advances st r).
Proof.
  intros. unfold submit_response.
  eapply safe_seq; [by apply handleSendResult_safe|].
  intros [[accepted fatal] reason] w1 HR1 _; carry. destruct accepted; [tri|].
  destruct fatal; [tri|]. case_decide.
  { eapply safe_seq; [by eapply resyncSequence_safe|]. intros ? w2 HR2 _; carry.
    eapply safe_seq; [by apply store_get_T|]. intros q w3 HR3 _. by left. }
  case_decide; [|tri].
  eapply safe_seq; [apply sorobanInclusionPercentiles_safe|]. intros stats w2 HR2 _; carry.
  destruct (Fee.BumpInclusionFee _ _ _). apply backoff_or_release_safe; [done|by left].
Qed.
Hint Resolve submit_response_safe : txm.

Lemma assemble_and_send_safe c l a st tx sim m w :
  has_tx l a w → has_store a w → has_ops (tx_Operations tx) w →
  safe (assemble_and_send cfg networkPassphrase c l a st tx sim m) w (λ r _, advances st r).
Proof.
  intros. unfold assemble_and_send.
  eapply safe_seq; [apply write_tx_safe; harmless_tac|]. intros _ w1 HR1 _; carry.
  eapply safe_seq; [by apply assembleTransaction_safe|].
  intros [[tx' fee]|e] w2 HR2 _; carry; [|by apply fail_turn_safe].
  unfold updateTransactionFee. tri.
Qed.
Hint Resolve assemble_and_send_safe : txm.

Lemma submit_turn_safe c l a st w :
  has_tx l a w → has_store a w →
  safe (submit_turn cfg networkPassphrase c l a st) w (λ r _, advances st r).
Proof.
  intros. unfold submit_turn, prepareAndSimulateWithRetry.
  eapply safe_seq; [by eapply prepare_loop_safe|].
  intros [[[tx sim] m]|e] w1 HR1 Hpost; carry; [|by apply fail_turn_safe].
  specialize (Hpost tx sim m eq_refl).
  destruct (simRestorePreamble sim) as [p|]; [|by apply assemble_and_send_safe].
  destruct (restoreHandled st) eqn:Er; [by apply fail_turn_safe|].
  eapply safe_seq; [by eapply handleRestore_safe|].
  intros [] w2 HR2 _; carry; [|by apply fail_turn_safe].
  eapply safe_seq; [by apply store_get_T|]. intros q w3 HR3 _. by right.
Qed.

(** The turns a loop in state [st] can still make. *)
Definition turns_left (st : SubmitState) : nat :=
  Z.to_nat (maxSubmitRetryAttempts cfg - submitAttempt st) +
  (if restoreHandled st then 0 else 1).

Lemma loop_never_out_of_fuel fuel c l a st w :
  has_tx l a w → has_store a w → (turns_left st < fuel)%nat →
  safe (submit_loop cfg networkPassphrase fuel c l a st) w T.
Proof.
  revert st w. induction fuel as [|fuel IH]; intros st w Hl Ha Hf; [lia|]. cbn [submit_loop].
  destruct (Z.ltb_spec (submitAttempt st) (maxSubmitRetryAttempts cfg)); [|tri].
  eapply safe_seq; [by apply submit_turn_safe|]. intros [| |st'] w1 HR1 Hadv; carry; [done|tri|].
  apply IH; [done..|]. unfold turns_left in *.
  destruct Hadv as [[E1 E2]|(E1 & E2 & E3)]; rewrite ?E1, ?E2, ?E3 in *; lia.
Qed.

Lemma ensure_store_safe c l a w :
  has_tx l a w →
  safe (ensure_store cfg c l a) w (λ ok w', ok = true → has_store a w').
Proof.
  intros Hl. unfold ensure_store.
  eapply safe_seq.
  { apply (gets_safe _ w (λ o w', is_Some o → has_store a w')). intros w' _ _ Hs. exact Hs. }
  intros [s|] w1 HR1 Hs; carry. { intros _. apply Hs. by eexists. }
  eapply safe_seq; [apply getSequenceNumber_safe|]. intros [q|e] w2 HR2 _; carry; [|tri].
  eapply safe_seq.
  { apply (atomic_safe _ w2 (λ (b : bool) w', b = true → has_store a w')). intros w' HR HI.
    unfold AccountStore.CreateTxStore. destruct (accountStore w' !! a) eqn:Ea.
    { by split_and!. }
    cbn [fst snd].
    destruct (Inv_stores cfg w' a (TxStore.NewTxStore (int64 (q + 1)))) as [HI' HR'].
    - apply TxStoreFacts.wf_new, int64_range.
    - done.
    - done.
    - split_and!; [exact HI'|exact HR'|]. intros _. unfold has_store. cbn.
      rewrite lookup_insert_eq. by eexists. }
  intros [] w3 HR3 Hb; carry; [done|tri].
Qed.

Lemma seed_fee_safe c i w : safe (seed_fee cfg c i) w T.
Proof. unfold seed_fee. tri. Qed.

Lemma simulateAssembleSignAndSend_safe l a w :
  has_tx l a w → safe (simulateAssembleSignAndSend cfg networkPassphrase l) w T.
Proof.
  intros Hl. unfold simulateAssembleSignAndSend.
  eapply safe_seq; [apply call_safe|]. intros [c|e] w1 HR1 _; carry; [|tri].
  eapply safe_seq; [by eapply read_tx_safe|]. intros t w2 HR2 (Ha & _ & _); carry. rewrite Ha.
  eapply safe_seq; [by apply ensure_store_safe|]. intros [] w3 HR3 Hs; carry; [|done].
  specialize (Hs eq_refl). cbn [negb].
  eapply safe_seq; [by eapply getTransactionAttempt_safe|]. intros i w4 HR4 _; carry.
  eapply (safe_seq _ _ _ T); [destruct (0 <? i); tri|]. intros _ w5 HR5 _; carry.
  eapply safe_seq; [apply seed_fee_safe|]. intros fee w6 HR6 _; carry.
  eapply safe_seq; [by apply store_get_T|]. intros q w7 HR7 _; carry.
  apply loop_never_out_of_fuel; [done..|]. unfold turns_left, submit_fuel. cbn. lia.
Qed.
Hint Resolve simulateAssembleSignAndSend_safe : txm.

(** ** The broadcast loop *)

(** Every transaction of a list is in the heap. *)
Definition all_tx (ls : list loc) (w : World) : Prop := Forall (λ l, ∃ a, has_tx l a w) ls.

Lemma all_tx_Rel ls w w' : Rel w w' → all_tx ls w → all_tx ls w'.
Proof.
  intros HR Hls. eapply Forall_impl; [exact Hls|]. intros l [a Ha]. exists a. by eapply has_tx_Rel.
Qed.

Lemma drain_safe n acc w : all_tx acc w → safe (drain n acc) w (λ ls w', all_tx ls w').
Proof.
  revert acc w. induction n as [|n IH]; intros acc w Hacc; cbn [drain]; [done|].
  eapply safe_seq; [apply try_recv_safe|]. intros [l|] w1 HR1 Hl; [|by eapply all_tx_Rel].
  apply IH, Forall_app. split; [by eapply all_tx_Rel|]. constructor; [by apply Hl|constructor].
Qed.

Lemma mapM_timestamps (h : gmap loc StellarTx) ls :
  Forall (λ l, is_Some (h !! l)) ls →
  ∃ ps, mapM (M:=option) (λ l, option_map (λ t, (Timestamp t, l)) (h !! l)) ls = Some ps ∧
        ps.*2 = ls.
Proof.
  induction 1 as [|l ls [t Ht] _ (ps & IH & Hsnd)]; [by exists []|].
  exists ((Timestamp t, l) :: ps). cbn. rewrite Ht, IH. cbn. by rewrite Hsnd.
Qed.

Lemma sort_by_timestamp_safe ls w :
  all_tx ls w → safe (sort_by_timestamp ls) w (λ ls' w', all_tx ls' w').
Proof.
  intros Hls. eapply safe_seq.
  - apply (gets_safe _ w (λ o w', ∃ ps, o = Some ps ∧ all_tx ps.*2 w')).
    intros w' HR HI. pose proof (all_tx_Rel _ _ _ HR Hls) as Hls'.
    destruct (mapM_timestamps (heap w') ls) as (ps & -> & Hsnd).
    { eapply Forall_impl; [exact Hls'|]. intros l (a & t & Ht & _). by eexists. }
    exists ps. by rewrite Hsnd.
  - intros o w' HR (ps & -> & Hps). cbn. unfold all_tx in *.
    by rewrite merge_sort_Permutation.
Qed.

Lemma for_each_safe ls w :
  all_tx ls w →
  safe (for_each ls (simulateAssembleSignAndSend cfg networkPassphrase)) w T.
Proof.
  revert w. induction ls as [|l ls IH]; intros w Hls; cbn [for_each]; [done|].
  apply Forall_cons in Hls as [[a Ha] Hls].
  eapply safe_seq; [by eapply simulateAssembleSignAndSend_safe|]. intros _ w1 HR1 _.
  apply IH. by eapply all_tx_Rel.
Qed.

Lemma broadcast_turn_safe batch w : safe (broadcast_turn cfg networkPassphrase batch) w T.
Proof.
  unfold broadcast_turn.
  eapply safe_seq; [apply wait_safe|]. intros _ w1 HR1 _.
  eapply safe_seq; [apply call_safe|]. intros prefer w2 HR2 _.
  eapply safe_seq; [apply gets_T|]. intros [] w3 HR3 _; [done|].
  eapply safe_seq; [apply try_recv_safe|]. intros [l|] w4 HR4 Hl; [|done].
  eapply safe_seq; [apply drain_safe; constructor; [by apply Hl|constructor]|].
  intros ls w5 HR5 Hls.
  eapply safe_seq; [by apply sort_by_timestamp_safe|]. intros ls' w6 HR6 Hls'.
  eapply safe_seq; [by apply for_each_safe|]. done.
Qed.

Lemma stop_running_safe w : safe (modify (upd_running (λ n, n - 1))) w T.
Proof. apply modify_safe. intros w' _. by apply keep_aux. Qed.
Hint Resolve broadcast_turn_safe stop_running_safe : txm.

Lemma broadcastLoop_safe turns batch w :
  safe (broadcastLoop cfg networkPassphrase turns batch) w T.
Proof.
  revert w. induction turns as [|turns IH]; intros w; cbn [broadcastLoop]; [done|].
  eapply safe_seq; [apply broadcast_turn_safe|]. intros [] w1 HR1 _; [apply IH|tri].
Qed.

Lemma Simulate_safe req w : has_ops (reqOperations req) w → safe (Simulate cfg req) w T.
Proof.
  intros Hops. unfold Simulate. destruct (reqOperations req) as [|o os] eqn:Eo; [done|].
  eapply (safe_seq _ _ _ T); [case_decide; tri|]. intros [a|e] w1 HR1 _; carry; [|done].
  eapply safe_seq; [apply call_safe|]. intros [c|e] w2 HR2 _; carry; [|done].
  eapply safe_seq; [apply call_safe|]. intros [latest|e] w3 HR3 _; carry; [|done].
  eapply safe_seq; [apply alloc_tx_safe; [done|exact Hops]|]. intros l w4 HR4 [_ Hl]; carry.
  eapply safe_seq; [by eapply buildPreliminaryTx_safe|]. intros [tx|e] w5 HR5 _; tri.
Qed.

(** ** Confirm.v *)

Definition utx_ok (a : string) (w : World) (u : TxStore.UnconfirmedTx) : Prop :=
  has_tx (TxStore.Tx u) a w.

Lemma maybeRetry_safe a u r w : utx_ok a w u → safe (maybeRetry cfg u r) w T.
Proof. unfold utx_ok. intros. unfold maybeRetry. tri. Qed.

Lemma store_Confirm_safe a u f w : has_store a w → safe (store_Confirm a u f) w T.
Proof.
  intros Ha. apply store_update_safe; [done|]. intros s s' w' HR He.
  by apply (exec_store_ok (TxStoreRuns.OpConfirm (TxStore.Sequence u) (TxStore.Hash u) f)).
Qed.

Lemma record_fee_safe l x w : safe (record_fee l x) w T.
Proof. unfold record_fee, updateTransactionFee. tri. Qed.

Lemma updateTransactionLedgerCloseTime_safe l z w : safe (updateTransactionLedgerCloseTime l z) w T.
Proof. unfold updateTransactionLedgerCloseTime. tri. Qed.

Lemma updateTransactionResultXDR_safe l z w : safe (updateTransactionResultXDR l z) w T.
Proof. unfold updateTransactionResultXDR. tri. Qed.
Lemma updateTransactionResultCode_safe l z w : safe (updateTransactionResultCode l z) w T.
Proof. unfold updateTransactionResultCode. tri. Qed.
Lemma updateTransactionResultMeta_safe l z w : safe (updateTransactionResultMeta l z) w T.
Proof. unfold updateTransactionResultMeta. tri. Qed.
Lemma incrementTransactionAttempt_safe l w : safe (incrementTransactionAttempt l) w T.
Proof. unfold incrementTransactionAttempt. tri. Qed.
Hint Resolve store_Confirm_safe record_fee_safe updateTransactionLedgerCloseTime_safe
  updateTransactionResultXDR_safe updateTransactionResultCode_safe
  updateTransactionResultMeta_safe incrementTransactionAttempt_safe maybeRetry_safe : txm.

Lemma on_success_safe a u r w :
  has_store a w → utx_ok a w u → safe (on_success cfg a u r) w T.
Proof.
  unfold utx_ok. intros. unfold on_success.
  eapply safe_seq; [by apply store_Confirm_safe|]. intros [[]|e] w1 HR1 _; carry; [|done].
  eapply safe_seq; [apply updateTransactionResultXDR_safe|]. intros _ w2 HR2 _; carry.
  eapply safe_seq; [apply updateTransactionResultCode_safe|]. intros _ w3 HR3 _; carry.
  eapply safe_seq; [apply record_fee_safe|]. intros _ w4 HR4 _; carry.
  eapply (safe_seq _ _ _ T); [case_decide; tri|]. intros _ w5 HR5 _; carry.
  tri.
Qed.

Lemma on_failed_safe a u r w :
  has_store a w → utx_ok a w u → safe (on_failed cfg a u r) w T.
Proof. unfold utx_ok. intros. unfold on_failed. tri. Qed.

Lemma on_expired_safe a u w :
  has_store a w → utx_ok a w u → safe (on_expired cfg a u) w T.
Proof. unfold utx_ok. intros. unfold on_expired. tri. Qed.

Lemma expired_safe c a u w : utx_ok a w u → safe (expired cfg c u) w T.
Proof. unfold utx_ok. intros. unfold expired. tri. Qed.

Lemma check_one_safe c a u w :
  has_store a w → utx_ok a w u → safe (check_one cfg c a u) w T.
Proof.
  intros Ha Hu. unfold check_one. unfold utx_ok in Hu.
  eapply safe_seq; [apply call_safe|]. intros resp w1 HR1 _; carry.
  assert (safe (e ← expired cfg c u;
                if e : bool then on_expired cfg a u;; Ret false else Ret true) w1 T) as Hexp.
  { eapply safe_seq; [by eapply expired_safe|]. intros [] w2 HR2 _; carry; [|done].
    eapply safe_seq; [by apply on_expired_safe|]. done. }
  destruct resp as [r|e]; [|exact Hexp]. destruct (getStatus r); [| |exact Hexp..].
  - eapply safe_seq; [by apply on_success_safe|]. done.
  - eapply safe_seq; [by apply on_failed_safe|]. done.
Qed.

Lemma utx_ok_Rel a w w' u : Rel w w' → utx_ok a w u → utx_ok a w' u.
Proof. apply has_tx_Rel. Qed.

Lemma check_list_safe c a us n w :
  has_store a w → Forall (utx_ok a w) us → safe (check_list cfg c a us n) w T.
Proof.
  revert n w. induction us as [|u us IH]; intros n w Ha Hus; cbn [check_list]; [done|].
  apply Forall_cons in Hus as [Hu Hus].
  eapply safe_seq; [by apply check_one_safe|]. intros b w1 HR1 _; carry.
  apply IH; [done|]. eapply Forall_impl; [exact Hus|]. intros u'. by apply utx_ok_Rel.
Qed.

(** A snapshot whose transactions exist and belong to accounts that have a store. *)
Definition snapshot_ok (all : gmap string (list TxStore.UnconfirmedTx)) (w : World) : Prop :=
  map_Forall (λ a us, has_store a w ∧ Forall (utx_ok a w) us) all.

Lemma snapshot_ok_Rel all w w' : Rel w w' → snapshot_ok all w → snapshot_ok all w'.
Proof.
  intros HR Hall a us Hl. destruct (Hall a us Hl) as [Ha Hus]. split; [by eapply has_store_Rel|].
  eapply Forall_impl; [exact Hus|]. intros u. by apply utx_ok_Rel.
Qed.

Lemma snapshots_safe addrs acc w :
  Forall (λ a, has_store a w) addrs → snapshot_ok acc w →
  safe (snapshots addrs acc) w snapshot_ok.
Proof.
  revert acc w. induction addrs as [|a addrs IH]; intros acc w Haddrs Hacc; cbn [snapshots]; [done|].
  apply Forall_cons in Haddrs as [Ha Haddrs].
  eapply safe_seq.
  { apply (store_get_safe a _ w (λ us w', Forall (utx_ok a w') us)); [done|].
    intros s w' HR [Hwf Hus]. apply Forall_forall. intros u Hu.
    unfold TxStore.GetUnconfirmed in Hu. rewrite merge_sort_Permutation in Hu.
    apply list_elem_of_fmap in Hu as ([q v] & -> & Hv). apply elem_of_map_to_list in Hv.
    by apply (Hus q). }
  intros us w1 HR1 Hus. apply IH.
  - eapply Forall_impl; [exact Haddrs|]. intros b. by apply has_store_Rel.
  - apply map_Forall_insert_2; [|by eapply snapshot_ok_Rel]. split; [by eapply has_store_Rel|done].
Qed.

Lemma enumeration_in keys order a : a ∈ enumeration keys order → a ∈ keys.
Proof.
  unfold enumeration. case_bool_decide as Hp; [|done]. destruct Hp as (_ & Hin & _).
  rewrite Forall_forall in Hin. apply Hin.
Qed.

Lemma map_order_safe keys w : safe (map_order keys) w (λ ks _, ∀ a, a ∈ ks → a ∈ keys).
Proof.
  eapply safe_seq; [apply call_safe|]. intros order w1 HR1 _. intros a. apply enumeration_in.
Qed.

Lemma GetAllUnconfirmed_safe w : safe GetAllUnconfirmed w snapshot_ok.
Proof.
  unfold GetAllUnconfirmed. eapply safe_seq.
  { apply (gets_safe _ w (λ ks w', ∀ a, a ∈ ks → has_store a w')). intros w' HR HI a Ha.
    apply list_elem_of_fmap in Ha as ([a' s] & -> & Hs). apply elem_of_map_to_list in Hs.
    by exists s. }
  intros keys w1 HR1 Hkeys. eapply safe_seq; [apply map_order_safe|].
  intros order w2 HR2 Horder. apply snapshots_safe; [|by apply map_Forall_empty].
  apply Forall_forall. intros a Ha. by eapply has_store_Rel, Hkeys, Horder.
Qed.

Lemma check_accounts_safe c all addrs n w :
  snapshot_ok all w → safe (check_accounts cfg c all addrs n) w T.
Proof.
  revert n w. induction addrs as [|a addrs IH]; intros n w Hall; cbn [check_accounts]; [done|].
  eapply (safe_seq _ _ _ T).
  - destruct (all !! a) as [us|] eqn:Ea; cbn [default from_option]; [|done].
    destruct (Hall a us Ea). by apply check_list_safe.
  - intros m w1 HR1 _. apply IH. by eapply snapshot_ok_Rel.
Qed.

Lemma checkUnconfirmed_safe w : safe (checkUnconfirmed cfg) w T.
Proof.
  unfold checkUnconfirmed.
  eapply safe_seq; [apply call_safe|]. intros [c|e] w1 HR1 _; [|done].
  eapply safe_seq; [apply GetAllUnconfirmed_safe|]. intros all w2 HR2 Hall.
  eapply safe_seq; [apply map_order_safe|]. intros order w3 HR3 _.
  eapply safe_seq; [apply check_accounts_safe; by eapply snapshot_ok_Rel|]. intros n w4 HR4 _. tri.
Qed.

Lemma tick_or_stop_safe d w : safe (tick_or_stop d) w T.
Proof. unfold tick_or_stop. tri. Qed.
Hint Resolve tick_or_stop_safe checkUnconfirmed_safe : txm.

Lemma confirm_turns_safe turns d w : safe (confirm_turns cfg turns d) w T.
Proof.
  revert d w. induction turns as [|turns IH]; intros d w; cbn [confirm_turns]; [done|].
  eapply safe_seq; [apply tick_or_stop_safe|]. intros [] w1 HR1 _; [|tri].
  eapply safe_seq; [apply call_safe|]. intros start w2 HR2 _.
  eapply safe_seq; [apply checkUnconfirmed_safe|]. intros _ w3 HR3 _.
  eapply safe_seq; [apply call_safe|]. intros now w4 HR4 _. apply IH.
Qed.

Lemma pruneTerminal_safe w : safe (pruneTerminal cfg) w T.
Proof.
  unfold pruneTerminal. eapply safe_seq; [apply call_safe|]. intros now w1 HR1 _.
  apply modify_safe. intros w' _ HI. unfold prune_section.
  apply Inv_transactions_shrink; [|done]. intros id l Hl.
  by apply map_lookup_filter_Some in Hl as [Hl _].
Qed.

Lemma prune_turns_safe turns w : safe (prune_turns cfg turns) w T.
Proof.
  revert w. induction turns as [|turns IH]; intros w; cbn [prune_turns]; [done|].
  eapply safe_seq; [apply tick_or_stop_safe|]. intros [] w1 HR1 _; [|tri].
  eapply safe_seq; [apply pruneTerminal_safe|]. intros _ w2 HR2 _. apply IH.
Qed.

(** ** Goroutines *)

(** What may run concurrently in one manager: its three loops, each unrolled for any
    number of turns, callers of its API, and the signal that stops it. *)
Inductive goroutine :=
| GBroadcast (turns batch : nat)
| GConfirm (turns : nat)
| GPrune (turns : nat)
| GEnqueue (req : TxRequest)
| GEnqueueAndWait (req : TxRequest)
| GSimulate (req : TxRequest)
| GStop.

Definition goroutine_prog (g : goroutine) : txm unit :=
  match g with
  | GBroadcast turns batch => broadcastLoop cfg networkPassphrase turns batch
  | GConfirm turns => confirmLoop cfg turns
  | GPrune turns => pruneLoop cfg turns
  | GEnqueue req => Enqueue cfg req;; Ret tt
  | GEnqueueAndWait req => EnqueueAndWait cfg req;; Ret tt
  | GSimulate req => Simulate cfg req;; Ret tt
  | GStop => modify (upd_stopped (λ _, true))
  end.

(** The callers' operations are valid pointers. *)
Definition goroutine_ok (g : goroutine) (w : World) : Prop :=
  match g with
  | GEnqueue req | GEnqueueAndWait req | GSimulate req => has_ops (reqOperations req) w
  | _ => True
  end.

Lemma goroutine_safe g w : goroutine_ok g w → safe (goroutine_prog g) w T.
Proof.
  destruct g; cbn [goroutine_ok goroutine_prog]; intros Hg.
  - apply broadcastLoop_safe.
  - apply confirm_turns_safe.
  - eapply safe_seq; [apply pruneTerminal_safe|]. intros _ w1 HR1 _. apply prune_turns_safe.
  - eapply safe_seq; [by apply Enqueue_safe|]. done.
  - eapply safe_seq; [by apply EnqueueAndWait_safe|]. done.
  - eapply safe_seq; [by apply Simulate_safe|]. done.
  - apply modify_safe. intros w' _. by apply keep_aux.
Qed.

Lemma goroutines_safe gs w0 w ps :
  Inv cfg w0 → Forall (λ g, goroutine_ok g w0) gs →
  reachable (w0, goroutine_prog <$> gs) (w, ps) →
  Inv cfg w ∧ Rel w0 w ∧ Forall (λ p, ∀ msg, p ≠ Panic msg) ps.
Proof.
  intros HI Hgs Hr.
  destruct (safe_pool (Inv cfg) Rel w0 (goroutine_prog <$> gs) w ps) as (HI' & HR & Hps); [done| |done|].
  - intros i p Hp. apply list_lookup_fmap_Some in Hp as (g & -> & Hg).
    apply goroutine_safe. by eapply Forall_lookup_1 in Hgs.
  - split_and!; [done..|]. apply Forall_lookup_2. intros i p Hp msg ->.
    by specialize (Hps i _ Hp).
Qed.
End safe.
End TxmSafe.
