(* ===== verification/TxmProgress.v ===== *)
(** What the broadcast pipeline sends to the network (module [TxmCalls]), and that it comes to
    an end (module [TxmProgress]): the broadcast and the confirmation of a transaction never
    wait for ever when they run alone, since the only lock they hold across calls, the fee
    tracker's, is free again after each use. *)

From Stdlib Require Import SpecFloat.
From stdpp Require Import base gmap list strings.
From S2P Require Import Prelude GoStrings Config Float Fee Prog Sdk TxStore Tx Txm.
From S2P Require Import Broadcast Confirm.

(** What the broadcast pipeline sends to the network: how many submissions a broadcast
    can make, and with which sequence number. Both hold whatever the other goroutines do
    and whatever the outside answers. *)

Module TxmCalls.
Import Config Tx Txm Broadcast.
Local Open Scope Z_scope.

Create HintDb quiet discriminated.
#[export] Hint Constants Opaque : quiet.

Section calls.
Context {ST : SdkTypes} {SD : Sdk} {UT : UnicodeTables} {FC : FloatConv}.
Context (cfg : Resolved) (networkPassphrase : string).

Definition is_send (X : Type) (e : ext X) : bool :=
  match e with ESendTransaction _ _ => true | _ => false end.

Definition is_simulate (X : Type) (e : ext X) : bool :=
  match e with ESimulateTransaction _ _ => true | _ => false end.

(** A program that submits nothing. *)
Abbreviation quiet p Q := (sat (W := World) (E := ext) (λ X e, is_send X e = false) p Q).
Abbreviation T := (λ _, True).

Lemma quiet_call {X} (e : ext X) : is_send X e = false → quiet (call e) T.
Proof. done. Qed.
Lemma quiet_gets {X} (f : World → X) : quiet (gets f : txm X) T.
Proof. done. Qed.
Lemma quiet_modify f : quiet (modify f : txm unit) T.
Proof. done. Qed.
Lemma quiet_atomic {X} (f : World → X * World) : quiet (atomic f : txm X) T.
Proof. done. Qed.
Lemma quiet_await {X} (f : World → option (X * World)) : quiet (await f : txm X) T.
Proof. done. Qed.
Lemma quiet_T {A} (p : txm A) Q : quiet p Q → quiet p T.
Proof. intros. by eapply sat_mono. Qed.

Hint Resolve quiet_gets quiet_modify quiet_atomic quiet_await : quiet.
Hint Extern 2 (sat _ (call _) _) => apply quiet_call; reflexivity : quiet.

Ltac qt1 :=
  match goal with
  | |- sat _ (mbind _ _) _ => eapply sat_seq; [solve [eauto 2 with quiet] | intros ? ?]
  | |- sat _ (Ret _) _ => cbn [sat]
  | |- sat _ (Panic _) _ => exact Logic.I
  | |- sat _ (if ?b then _ else _) _ => destruct b eqn:?
  | |- sat _ (match ?x with _ => _ end) _ => destruct x eqn:?
  | |- sat _ (let '(_, _) := ?x in _) _ => destruct x eqn:?
  | |- sat _ _ _ => solve [eauto 2 with quiet]
  end.
Ltac qt := repeat (cbn beta iota zeta in *; try done; qt1).

Lemma quiet_emit m : quiet (emit m) T.
Proof. apply quiet_modify. Qed.
Lemma quiet_write_tx l g : quiet (write_tx l g) T.
Proof. apply quiet_modify. Qed.
Hint Resolve quiet_emit quiet_write_tx : quiet.
Lemma quiet_read_tx l : quiet (read_tx l) T.
Proof. unfold read_tx. qt. Qed.
Lemma quiet_store_get {X} a (f : TxStore.TxStore → X) : quiet (store_get a f) T.
Proof. unfold store_get. qt. Qed.
Lemma quiet_store_update a f : quiet (store_update a f) T.
Proof. unfold store_update. qt. Qed.
Lemma quiet_try_send l : quiet (try_send cfg l) T.
Proof. unfold try_send. qt. Qed.
Lemma quiet_read_ops ls : quiet (read_ops ls) T.
Proof. unfold read_ops. qt. Qed.
Hint Resolve quiet_read_tx quiet_store_get quiet_store_update quiet_try_send quiet_read_ops : quiet.
Lemma quiet_store_Release a q : quiet (store_Release a q) T.
Proof. unfold store_Release. qt. Qed.
Lemma quiet_updateStatus l s : quiet (updateTransactionStatus cfg l s) T.
Proof. unfold updateTransactionStatus, closeDone. qt. Qed.
Hint Resolve quiet_store_Release quiet_updateStatus : quiet.
Lemma quiet_releaseSeqAndFailTx a q l r : quiet (releaseSeqAndFailTx cfg a q l r) T.
Proof. unfold releaseSeqAndFailTx. qt. Qed.
Lemma quiet_markTxFailed l r : quiet (markTxFailed cfg l r) T.
Proof. unfold markTxFailed. qt. Qed.
Lemma quiet_percentiles c : quiet (sorobanInclusionPercentiles c) T.
Proof.
  unfold sorobanInclusionPercentiles.
  eapply sat_seq; [apply quiet_await|]. intros _ _. eapply sat_seq; [by apply quiet_call|].
  intros now _. eapply sat_seq; [apply quiet_gets|]. intros fresh _.
  eapply (sat_seq _ _ _ T); [destruct fresh; qt|]. intros. apply quiet_atomic.
Qed.
Lemma quiet_getSequenceNumber c a : quiet (getSequenceNumber c a) T.
Proof. unfold getSequenceNumber. qt. Qed.
Hint Resolve quiet_releaseSeqAndFailTx quiet_markTxFailed quiet_percentiles
  quiet_getSequenceNumber : quiet.
Lemma quiet_resyncSequence c l : quiet (resyncSequence c l) T.
Proof. unfold resyncSequence. qt. Qed.
Lemma quiet_simulateTransaction c t : quiet (simulateTransaction c t) T.
Proof. unfold simulateTransaction. qt. Qed.
Lemma quiet_shouldRetry e i m : quiet (shouldRetrySimulation cfg e i m) T.
Proof. unfold shouldRetrySimulation, isRetryableSimulationError. qt. Qed.
Lemma quiet_sleep : quiet (sleep_retry_delay cfg) T.
Proof. by apply quiet_call. Qed.
Lemma quiet_write_op l g : quiet (write_op l g) T.
Proof. apply quiet_modify. Qed.
Hint Resolve quiet_resyncSequence quiet_simulateTransaction quiet_shouldRetry quiet_sleep
  quiet_write_op : quiet.
Lemma quiet_apply_simulation o s : quiet (apply_simulation cfg o s) T.
Proof. unfold apply_simulation. qt. Qed.
Hint Resolve quiet_apply_simulation : quiet.
Lemma quiet_handleSendResult l res q a m : quiet (handleSendResult (Some l) res q (Some a) m) T.
Proof.
  unfold handleSendResult, updateTransactionHash, updateTransactionResultXDR,
    updateTransactionResultMeta, updateTransactionResultCode. qt.
Qed.
Lemma quiet_getInfraAttempts l : quiet (getInfraAttempts l) T.
Proof. unfold getInfraAttempts. qt. Qed.
Lemma quiet_getTransactionAttempt l : quiet (getTransactionAttempt l) T.
Proof. unfold getTransactionAttempt. qt. Qed.
Hint Resolve quiet_getInfraAttempts quiet_getTransactionAttempt : quiet.
Lemma quiet_retryGetClientOrFail l : quiet (retryGetClientOrFail cfg l) T.
Proof. unfold retryGetClientOrFail, incrementInfraAttempts. qt. Qed.
Lemma quiet_poll_restore_loop n c h : quiet (poll_restore_loop n c h) T.
Proof. induction n; cbn [poll_restore_loop]; qt. Qed.
Hint Resolve quiet_poll_restore_loop quiet_handleSendResult quiet_retryGetClientOrFail : quiet.
Lemma quiet_pollRestore c h : quiet (pollRestoreTransaction cfg c h) T.
Proof. unfold pollRestoreTransaction. qt. Qed.
Hint Resolve quiet_pollRestore : quiet.
Lemma quiet_fail_turn a q l r : quiet (fail_turn cfg a q l r) T.
Proof. unfold fail_turn. qt. Qed.
Lemma quiet_backoff a q st : quiet (backoff_or_release cfg a q st) T.
Proof. unfold backoff_or_release. qt. Qed.
Hint Resolve quiet_fail_turn quiet_backoff : quiet.
Lemma quiet_markBroadcastAt l : quiet (markBroadcastAt l) T.
Proof. unfold markBroadcastAt. qt. Qed.
Hint Resolve quiet_markBroadcastAt : quiet.
Lemma quiet_submit_response c l a st res m : quiet (submit_response cfg c l a st res m) T.
Proof. unfold submit_response. qt. Qed.
Lemma quiet_ensure_store c l a : quiet (ensure_store cfg c l a) T.
Proof. unfold ensure_store. qt. Qed.
Lemma quiet_seed_fee c i : quiet (seed_fee cfg c i) T.
Proof. unfold seed_fee. qt. Qed.
Hint Resolve quiet_submit_response quiet_ensure_store quiet_seed_fee : quiet.

(** ** The number of submissions *)

Definition send_cost (X : Type) (e : ext X) : nat := if is_send X e then 1 else 0.

(** The submissions of the user's transaction and of the restore are counted together:
    one per attempt left, and the restore's while it has not been done. *)
Definition sends_left (st : SubmitState) : nat :=
  Z.to_nat (maxSubmitRetryAttempts cfg - submitAttempt st) +
  (if restoreHandled st then 0 else Z.to_nat (maxRestoreAttempts cfg)).

Abbreviation spend p n Q := (Prog.spend (W := World) (E := ext) send_cost p n Q).

Lemma quiet_spend {A} (p : txm A) n Q : quiet p Q → spend p n (λ a m, Q a ∧ m = n).
Proof.
  induction p as [a|msg|X f k IH|X f k IH|X e k IH]; cbn [sat Prog.spend]; auto.
  intros [He Hk]. unfold send_cost. rewrite He. split; [lia|]. intros x.
  rewrite Nat.sub_0_r. apply IH, Hk.
Qed.

Lemma spend_quiet_seq {A B} (p : txm A) (h : A → txm B) n Q :
  quiet p T → (∀ a, spend (h a) n Q) → spend (p ≫= h) n Q.
Proof.
  intros Hp Hh. eapply spend_seq; [by apply quiet_spend|]. intros a m [_ ->]. apply Hh.
Qed.

Lemma quiet_prepare n i mx c l q e : quiet (prepare_loop cfg n i mx c l q e) T.
Proof.
  revert i e. induction n as [|n IH]; intros i e; cbn [prepare_loop]; [done|].
  unfold buildPreliminaryTx. qt.
  - eapply (sat_seq _ _ _ T); [qt|]. intros r _. qt.
Qed.
Hint Resolve quiet_prepare : quiet.

Lemma quiet_signTransaction t a : quiet (signTransaction networkPassphrase t a) T.
Proof. unfold signTransaction. qt. Qed.
Lemma quiet_assembleTransaction t s f m : quiet (assembleTransaction cfg t s f m) T.
Proof. unfold assembleTransaction. qt. Qed.
Hint Resolve quiet_signTransaction quiet_assembleTransaction : quiet.

Lemma spend_of_quiet {A} (p : txm A) n (Q : A → nat → Prop) :
  quiet p T → (∀ a, Q a n) → spend p n Q.
Proof. intros Hp HQ. eapply spend_weaken; [by apply quiet_spend|]. intros a m [_ ->]. apply HQ. Qed.

Lemma restore_attempt_spend c l x k :
  (1 ≤ k)%nat → spend (restore_attempt cfg c l x) k (λ _ m, m = (k - 1)%nat).
Proof.
  intros Hk. unfold restore_attempt. apply spend_bind. split; [exact Hk|].
  intros r. cbn [Prog.spend]. apply spend_of_quiet; [qt|done].
Qed.

Lemma restore_loop_spend n c l x e k :
  (n ≤ k)%nat → spend (restore_loop cfg n c l x e) k (λ _ m, (k - n ≤ m)%nat).
Proof.
  revert e k. induction n as [|n IH]; intros e k Hk; cbn [restore_loop].
  { apply spend_of_quiet; [qt|lia]. }
  eapply spend_seq; [apply restore_attempt_spend; lia|]. intros [err|r] m ->; [|cbn; lia].
  apply spend_quiet_seq; [apply quiet_sleep|]. intros []; [cbn; lia|].
  eapply spend_weaken; [apply IH; lia|]. cbn. lia.
Qed.

Lemma handleRestore_spend c l p q k :
  (Z.to_nat (maxRestoreAttempts cfg) ≤ k)%nat →
  spend (handleRestore cfg networkPassphrase c l p q) k
    (λ _ m, (k - Z.to_nat (maxRestoreAttempts cfg) ≤ m)%nat).
Proof.
  intros Hk. unfold handleRestore. apply spend_quiet_seq; [qt|]. intros t.
  destruct (UnmarshalSorobanData _); [|cbn; lia].
  apply spend_quiet_seq; [qt|]. intros tb. apply spend_quiet_seq; [qt|]. intros op.
  destruct (NewTransaction _); [|cbn; lia].
  apply spend_quiet_seq; [qt|]. intros [tx|e]; [|cbn; lia].
  destruct (tx_Base64 tx); [|cbn; lia].
  apply spend_quiet_seq; [qt|]. intros _. by apply restore_loop_spend.
Qed.

(** What a turn of the submit loop leaves of the budget. *)
Definition turn_budget (m : nat) (r : turn) : Prop :=
  match r with TurnNext st' => (sends_left st' ≤ m)%nat | _ => True end.

Lemma fail_turn_spend a q l r k : spend (fail_turn cfg a q l r) k (λ r m, turn_budget m r).
Proof.
  unfold fail_turn. apply spend_quiet_seq; [qt|]. done.
Qed.

Lemma backoff_spend a q st k :
  (sends_left st ≤ k)%nat → spend (backoff_or_release cfg a q st) k (λ r m, turn_budget m r).
Proof.
  intros Hk. unfold backoff_or_release. apply spend_quiet_seq; [qt|]. intros []; [|done].
  by apply spend_quiet_seq; [qt|].
Qed.

Lemma submit_response_spend c l a st res m k :
  (∀ q f, sends_left (mkSubmitState (submitAttempt st + 1) q f (restoreHandled st)) ≤ k)%nat →
  spend (submit_response cfg c l a st res m) k (λ r m, turn_budget m r).
Proof.
  intros Hk. unfold submit_response. apply spend_quiet_seq; [qt|].
  intros [[[] fatal] reason].
  { repeat (apply spend_quiet_seq; [qt|]; intros _). done. }
  destruct fatal; [apply fail_turn_spend|]. case_decide.
  { apply spend_quiet_seq; [qt|]; intros _. apply spend_quiet_seq; [qt|]; intros q. apply Hk. }
  case_decide; [|apply backoff_spend, Hk].
  apply spend_quiet_seq; [qt|]; intros stats. destruct (Fee.BumpInclusionFee _ _ _).
  apply backoff_spend, Hk.
Qed.

Lemma sends_left_next st q f :
  submitAttempt st < maxSubmitRetryAttempts cfg →
  S (sends_left (mkSubmitState (submitAttempt st + 1) q f (restoreHandled st))) = sends_left st.
Proof. intros Hlt. unfold sends_left. cbn. destruct (restoreHandled st); lia. Qed.

Lemma assemble_and_send_spend c l a st tx sim m k :
  submitAttempt st < maxSubmitRetryAttempts cfg → (sends_left st ≤ k)%nat →
  spend (assemble_and_send cfg networkPassphrase c l a st tx sim m) k
    (λ r m, turn_budget m r).
Proof.
  intros Hlt Hk. unfold assemble_and_send.
  apply spend_quiet_seq; [qt|]; intros _. apply spend_quiet_seq; [qt|]; intros [[tx' fee]|e];
    [|apply fail_turn_spend].
  apply spend_quiet_seq; [qt|]; intros _. apply spend_quiet_seq; [qt|]; intros _.
  apply spend_quiet_seq; [unfold updateTransactionFee; qt|]; intros _.
  apply spend_quiet_seq; [qt|]; intros t. apply spend_quiet_seq; [qt|]; intros [stx|e];
    [|apply fail_turn_spend].
  destruct (tx_Base64 stx); [|apply fail_turn_spend].
  assert (∀ q f, (sends_left (mkSubmitState (submitAttempt st + 1) q f (restoreHandled st))
                  ≤ k - 1)%nat) as Hnext.
  { intros q f. pose proof (sends_left_next st q f Hlt). lia. }
  apply spend_bind. split.
  { cbn. pose proof (sends_left_next st 0 0 Hlt). lia. }
  intros [res|e]; cbn [Prog.spend].
  - by apply submit_response_spend.
  - destruct (_ <=? _); [done|]. by apply backoff_spend.
Qed.

Lemma submit_turn_spend c l a st k :
  submitAttempt st < maxSubmitRetryAttempts cfg → (sends_left st ≤ k)%nat →
  spend (submit_turn cfg networkPassphrase c l a st) k (λ r m, turn_budget m r).
Proof.
  intros Hlt Hk. unfold submit_turn, prepareAndSimulateWithRetry.
  apply spend_quiet_seq; [apply quiet_prepare|]; intros [[[tx sim] m]|e]; [|apply fail_turn_spend].
  destruct (simRestorePreamble sim) as [p|]; [|by apply assemble_and_send_spend].
  destruct (restoreHandled st) eqn:Er; [apply fail_turn_spend|].
  unfold sends_left in Hk. rewrite Er in Hk.
  eapply spend_seq; [apply handleRestore_spend; lia|]. intros [[]|e] m' Hm; [|apply fail_turn_spend].
  apply spend_quiet_seq; [qt|]; intros q. cbn. unfold sends_left. cbn. lia.
Qed.

Lemma submit_loop_spend fuel c l a st k :
  (sends_left st ≤ k)%nat →
  spend (submit_loop cfg networkPassphrase fuel c l a st) k (λ _ _, True).
Proof.
  revert st k. induction fuel as [|fuel IH]; intros st k Hk; cbn [submit_loop]; [done|].
  destruct (Z.ltb_spec (submitAttempt st) (maxSubmitRetryAttempts cfg)).
  2:{ apply spend_of_quiet; [qt|done]. }
  eapply spend_seq; [by apply submit_turn_spend|]. intros [| |st'] m Hm; [done| |by apply IH].
  apply spend_of_quiet; [qt|done].
Qed.

Lemma broadcast_spend l :
  spend (simulateAssembleSignAndSend cfg networkPassphrase l)
    (Z.to_nat (maxSubmitRetryAttempts cfg) + Z.to_nat (maxRestoreAttempts cfg)) (λ _ _, True).
Proof.
  unfold simulateAssembleSignAndSend.
  apply spend_quiet_seq; [qt|]; intros [c|e]; [|apply spend_of_quiet; [qt|done]].
  apply spend_quiet_seq; [qt|]; intros t. apply spend_quiet_seq; [qt|]; intros []; [|done].
  cbn [negb].
  apply spend_quiet_seq; [qt|]; intros i.
  apply spend_quiet_seq; [destruct (0 <? i); qt|]; intros _.
  apply spend_quiet_seq; [qt|]; intros fee. apply spend_quiet_seq; [qt|]; intros q.
  apply submit_loop_spend. unfold sends_left. cbn. lia.
Qed.

(** ** The sequence number on the wire *)

Context {SL : SdkLaws}.

(** The account sequence a built transaction carries. *)
Definition wire_seq (tx : Transaction) : Z := accSequence (tx_SourceAccount tx).

(** A submission whose signed transaction carries [seq]. *)
Definition sends_seq (seq : Z) (X : Type) (e : ext X) : Prop :=
  match e with
  | ESendTransaction _ x => ∃ tx, tx_Base64 tx = Ok x ∧ wire_seq tx = seq
  | _ => True
  end.

Lemma quiet_sends_seq {A} (p : txm A) seq Q : quiet p Q → sat (sends_seq seq) p Q.
Proof.
  induction p as [a|msg|X f k IH|X f k IH|X e k IH]; cbn [sat]; auto.
  intros [He Hk]. split; [|auto]. by destruct e.
Qed.

Lemma int64_pred_succ seq : 1 <= seq → is_int64 seq = true →
  int64 (Z.max 0 (int64 (seq - 1)) + 1) = seq.
Proof.
  intros H1 H2. pose proof (proj1 (is_int64_spec seq) H2).
  rewrite (int64_id (seq - 1)) by (apply is_int64_spec; lia).
  rewrite int64_id; [lia|]. apply is_int64_spec. lia.
Qed.

Lemma buildPreliminaryTx_seq l seq m :
  1 <= seq → is_int64 seq = true →
  quiet (buildPreliminaryTx cfg (Some l) seq m) (λ r, ∀ tx, r = Ok tx → wire_seq tx = seq).
Proof.
  intros H1 H2. unfold buildPreliminaryTx.
  eapply sat_seq; [apply quiet_read_tx|]. intros t _.
  eapply sat_seq; [by apply quiet_call|]. intros tb _.
  eapply sat_seq; [apply quiet_read_ops|]. intros ops _. cbn [sat].
  intros tx Htx. unfold wire_seq. apply new_account in Htx. rewrite Htx. cbn.
  by apply int64_pred_succ.
Qed.

Definition prep_seq (seq : Z) (r : PrepResult) : Prop :=
  ∀ tx sim m, r = Ok (tx, sim, m) → wire_seq tx = seq.

Lemma prepare_loop_seq n i mx c l seq e :
  1 <= seq → is_int64 seq = true →
  quiet (prepare_loop cfg n i mx c l seq e) (prep_seq seq).
Proof.
  intros H1 H2. revert i e. induction n as [|n IH]; intros i e; cbn [prepare_loop]; [by intros ???|].
  eapply sat_seq; [by apply quiet_call|]. intros [latest|err] _.
  - eapply sat_seq; [apply quiet_read_tx|]. intros t _.
    eapply sat_seq; [apply quiet_write_tx|]. intros _ _.
    eapply sat_seq; [by apply buildPreliminaryTx_seq|]. intros [tx|err] Htx; [|by intros ???].
    specialize (Htx tx eq_refl).
    eapply sat_seq; [apply quiet_simulateTransaction|]. intros [sim|err] _.
    + eapply sat_seq; [apply quiet_read_tx|]. intros t' _. by intros ??? [= <- <- <-].
    + eapply sat_seq; [apply quiet_shouldRetry|]. intros [] _; [|by intros ???].
      eapply sat_seq; [by apply quiet_call|]. intros [] _; [by intros ???|]. apply IH.
  - destruct (mx <=? i + 1); [by intros ???|].
    eapply sat_seq; [by apply quiet_call|]. intros [] _; [by intros ???|]. apply IH.
Qed.

Lemma signTransaction_seq t a :
  quiet (signTransaction networkPassphrase (Some t) a)
    (λ r, ∀ t', r = Ok t' → wire_seq t' = wire_seq t).
Proof.
  unfold signTransaction. destruct (tx_Hash t networkPassphrase); [|done].
  eapply sat_seq; [by apply quiet_call|]. intros [sig|e] _; [|done].
  destruct (AddressToAccountId a); [|done].
  destruct (AddSignatureDecorated t _) eqn:E; cbn [sat]; [|done].
  intros t' [= <-]. unfold wire_seq. by rewrite (sign_account _ _ _ E).
Qed.

Lemma assembleTransaction_seq t sim fee m :
  quiet (assembleTransaction cfg (Some t) sim fee m)
    (λ r, ∀ t' f, r = Ok (t', f) → wire_seq t' = wire_seq t).
Proof.
  unfold assembleTransaction. destruct (tx_Operations t) as [|o os] eqn:E; [done|].
  eapply sat_seq; [apply quiet_apply_simulation|]. intros [fee'|e] _; [|done].
  eapply sat_seq; [apply quiet_read_ops|]. intros ops _.
  destruct (NewTransaction _) eqn:En; cbn [sat]; [|done].
  intros t' f [= <- <-]. unfold wire_seq. apply new_account in En. by rewrite En.
Qed.

Lemma restore_loop_sends n c l x tx seq e :
  tx_Base64 tx = Ok x → wire_seq tx = seq →
  sat (sends_seq seq) (restore_loop cfg n c l x e) T.
Proof.
  intros Hx Hs. revert e. induction n as [|n IH]; intros e; cbn [restore_loop].
  { apply quiet_sends_seq. qt. }
  eapply (sat_seq _ _ _ T).
  - unfold restore_attempt. apply sat_bind. split; [by exists tx|]. intros r. cbn [sat].
    apply quiet_sends_seq. qt.
  - intros [err|r] _; [|done].
    eapply (sat_seq _ _ _ T); [by apply quiet_sends_seq, quiet_sleep|]. intros [] _; [done|apply IH].
Qed.

Lemma handleRestore_sends c l p seq :
  1 <= seq → is_int64 seq = true →
  sat (sends_seq seq) (handleRestore cfg networkPassphrase c l p seq) T.
Proof.
  intros H1 H2. unfold handleRestore.
  eapply (sat_seq _ _ _ T); [apply quiet_sends_seq, quiet_read_tx|]. intros t _.
  destruct (UnmarshalSorobanData _); [|done].
  eapply (sat_seq _ _ _ T); [by apply quiet_sends_seq, quiet_call|]. intros tb _.
  eapply (sat_seq _ _ _ T); [by apply quiet_sends_seq, quiet_atomic|]. intros op _.
  destruct (NewTransaction _) as [tx|] eqn:En; [|done].
  assert (wire_seq tx = seq) as Hseq.
  { unfold wire_seq. apply new_account in En. rewrite En. cbn. by apply int64_pred_succ. }
  eapply sat_seq; [apply quiet_sends_seq, signTransaction_seq|]. intros [tx'|e] Htx; [|done].
  specialize (Htx tx' eq_refl). destruct (tx_Base64 tx') eqn:Eb; [|done].
  eapply (sat_seq _ _ _ T); [by apply quiet_sends_seq, quiet_emit|]. intros _ _.
  eapply restore_loop_sends; [done|]. congruence.
Qed.

Lemma assemble_and_send_sends c l a st tx sim m :
  wire_seq tx = sSeq st →
  sat (sends_seq (sSeq st)) (assemble_and_send cfg networkPassphrase c l a st tx sim m) T.
Proof.
  intros Htx. unfold assemble_and_send.
  eapply (sat_seq _ _ _ T); [by apply quiet_sends_seq, quiet_write_tx|]. intros _ _.
  eapply sat_seq; [apply quiet_sends_seq, assembleTransaction_seq|].
  intros [[tx1 fee]|e] H1; [|by apply quiet_sends_seq, quiet_fail_turn].
  specialize (H1 tx1 fee eq_refl).
  eapply (sat_seq _ _ _ T); [by apply quiet_sends_seq, quiet_emit|]. intros _ _.
  eapply (sat_seq _ _ _ T); [by apply quiet_sends_seq, quiet_emit|]. intros _ _.
  eapply (sat_seq _ _ _ T); [by apply quiet_sends_seq, quiet_write_tx|]. intros _ _.
  eapply (sat_seq _ _ _ T); [apply quiet_sends_seq, quiet_read_tx|]. intros t _.
  eapply sat_seq; [apply quiet_sends_seq, signTransaction_seq|].
  intros [tx2|e] H2; [|by apply quiet_sends_seq, quiet_fail_turn].
  specialize (H2 tx2 eq_refl).
  destruct (tx_Base64 tx2) eqn:Eb; [|by apply quiet_sends_seq, quiet_fail_turn].
  apply sat_bind. split; [exists tx2; split; [done|congruence]|].
  intros r. cbn [sat]. apply quiet_sends_seq. qt.
Qed.

Lemma submit_turn_sends c l a st :
  1 <= sSeq st → is_int64 (sSeq st) = true →
  sat (sends_seq (sSeq st)) (submit_turn cfg networkPassphrase c l a st) T.
Proof.
  intros H1 H2. unfold submit_turn, prepareAndSimulateWithRetry.
  eapply sat_seq; [by apply quiet_sends_seq, prepare_loop_seq|].
  intros [[[tx sim] m]|e] Hp; [|by apply quiet_sends_seq, quiet_fail_turn].
  specialize (Hp tx sim m eq_refl).
  destruct (simRestorePreamble sim) as [p|]; [|by apply assemble_and_send_sends].
  destruct (restoreHandled st); [by apply quiet_sends_seq, quiet_fail_turn|].
  eapply (sat_seq _ _ _ T); [by apply handleRestore_sends|]. intros [] _; [|].
  - apply quiet_sends_seq. qt.
  - by apply quiet_sends_seq, quiet_fail_turn.
Qed.
End calls.
End TxmCalls.

Module TxmProgress.
Import Config Tx Txm Broadcast Confirm.
Local Open Scope Z_scope.

Create HintDb nb discriminated.
#[export] Hint Constants Opaque : nb.

Section progress.
Context {ST : SdkTypes} {SD : Sdk} {UT : UnicodeTables} {FC : FloatConv}.
Context (cfg : Resolved) (networkPassphrase : string).

Definition unlocked (w : World) : Prop := feeLock w = false.
Abbreviation nb p w := (Prog.nb (W := World) (E := ext) p w unlocked).

Lemma nb_call {X} (e : ext X) w : unlocked w → nb (call e) w.
Proof. by intros Hw x. Qed.
Lemma nb_gets {X} (f : World → X) w : unlocked w → nb (gets f) w.
Proof. done. Qed.
Lemma nb_modify (g : World → World) w : unlocked w → feeLock (g w) = feeLock w → nb (modify g) w.
Proof. unfold unlocked. intros Hw Hg. cbn. congruence. Qed.
Lemma nb_atomic {X} (f : World → X * World) w :
  unlocked w → feeLock (f w).2 = feeLock w → nb (atomic f) w.
Proof. unfold unlocked. intros Hw Hg. cbn. congruence. Qed.

Hint Resolve nb_call nb_gets : nb.

Ltac nb1 :=
  match goal with
  | |- Prog.nb (mbind _ _) _ _ => eapply nb_seq; [solve [eauto 2 with nb] | intros ? ? ?]
  | |- Prog.nb (Ret _) _ _ => cbn [Prog.nb]; assumption
  | |- Prog.nb (Panic _) _ _ => exact Logic.I
  | |- Prog.nb (if ?b then _ else _) _ _ => destruct b eqn:?
  | |- Prog.nb (match ?x with _ => _ end) _ _ => destruct x eqn:?
  | |- Prog.nb (let '(_, _) := ?x in _) _ _ => destruct x eqn:?
  | |- Prog.nb _ _ _ => solve [eauto 2 with nb]
  end.
Ltac nbt := intros; repeat (cbn beta iota zeta in *; nb1).

Lemma nb_emit m w : unlocked w → nb (emit m) w.
Proof. intros. by apply nb_modify. Qed.
Lemma nb_write_tx l g w : unlocked w → nb (write_tx l g) w.
Proof. intros. by apply nb_modify. Qed.
Lemma nb_write_op l g w : unlocked w → nb (write_op l g) w.
Proof. intros. by apply nb_modify. Qed.
Hint Resolve nb_emit nb_write_tx nb_write_op : nb.
Lemma nb_read_tx l w : unlocked w → nb (read_tx l) w.
Proof. unfold read_tx. nbt. Qed.
Lemma nb_store_get {X} a (f : TxStore.TxStore → X) w : unlocked w → nb (store_get a f) w.
Proof. unfold store_get. nbt. Qed.
Lemma nb_store_update a f w : unlocked w → nb (store_update a f) w.
Proof.
  intros Hw. unfold store_update. eapply nb_seq.
  - apply nb_atomic; [done|]. destruct (accountStore w !! a) as [s|]; [|done]. by destruct (f s).
  - intros [] w' Hw'; [done|exact Logic.I].
Qed.
Lemma nb_try_send l w : unlocked w → nb (try_send cfg l) w.
Proof.
  intros Hw. unfold try_send. eapply nb_seq.
  - apply nb_atomic; [done|]. destruct (chanClosed w); [done|]. by destruct (_ <? _).
  - intros [] w' Hw'; [done|exact Logic.I].
Qed.
Lemma nb_read_ops ls w : unlocked w → nb (read_ops ls) w.
Proof. unfold read_ops. nbt. Qed.
Hint Resolve nb_read_tx nb_store_get nb_store_update nb_try_send nb_read_ops : nb.
Lemma nb_store_Release a q w : unlocked w → nb (store_Release a q) w.
Proof. unfold store_Release. nbt. Qed.
Lemma nb_status_section l s now w :
  unlocked w → nb (modify (status_section cfg l s now) : txm unit) w.
Proof.
  intros Hw. apply nb_modify; [done|]. unfold status_section, maybeEvictTerminalTx.
  destruct (isTerminalStatus s); [|done]. destruct (0 <? _); [done|]. by case_match.
Qed.
Hint Resolve nb_store_Release nb_status_section : nb.
Lemma nb_updateStatus l s w : unlocked w → nb (updateTransactionStatus cfg l s) w.
Proof. unfold updateTransactionStatus, closeDone. nbt. Qed.
Hint Resolve nb_updateStatus : nb.
Lemma nb_releaseSeqAndFailTx a q l r w : unlocked w → nb (releaseSeqAndFailTx cfg a q l r) w.
Proof. unfold releaseSeqAndFailTx. nbt. Qed.
Lemma nb_markTxFailed l r w : unlocked w → nb (markTxFailed cfg l r) w.
Proof. unfold markTxFailed. nbt. Qed.

(** The lock is free before, held during, and free after. *)
Lemma nb_percentiles c w : unlocked w → nb (sorobanInclusionPercentiles c) w.
Proof.
  intros Hw. unfold sorobanInclusionPercentiles.
  apply (nb_seq _ _ _ (λ _, True)).
  { exists tt, (upd_feeLock (λ _, true) w). by rewrite Hw. }
  intros _ w1 _. apply (nb_seq _ _ _ (λ _, True)); [done|]. intros now w2 _.
  apply (nb_seq _ _ _ (λ _, True)); [done|]. intros fresh w3 _.
  apply (nb_seq _ _ _ (λ _, True)); [by destruct fresh|]. intros resp w4 _.
  cbn. by destruct (FeeTracker.sorobanInclusionPercentiles _ _ _).
Qed.
Lemma nb_getSequenceNumber c a w : unlocked w → nb (getSequenceNumber c a) w.
Proof. unfold getSequenceNumber. nbt. Qed.
Hint Resolve nb_releaseSeqAndFailTx nb_markTxFailed nb_percentiles nb_getSequenceNumber : nb.
Lemma nb_resyncSequence c l w : unlocked w → nb (resyncSequence c l) w.
Proof. unfold resyncSequence. nbt. Qed.
Lemma nb_simulateTransaction c t w : unlocked w → nb (simulateTransaction c t) w.
Proof. unfold simulateTransaction. nbt. Qed.
Lemma nb_shouldRetry e i m w : unlocked w → nb (shouldRetrySimulation cfg e i m) w.
Proof. unfold shouldRetrySimulation, isRetryableSimulationError. nbt. Qed.
Lemma nb_sleep w : unlocked w → nb (sleep_retry_delay cfg) w.
Proof. apply nb_call. Qed.
Hint Resolve nb_resyncSequence nb_simulateTransaction nb_shouldRetry nb_sleep : nb.
Lemma nb_apply_simulation o s w : unlocked w → nb (apply_simulation cfg o s) w.
Proof. unfold apply_simulation. nbt. Qed.
Lemma nb_handleSendResult l res q a m w :
  unlocked w → nb (handleSendResult (Some l) res q (Some a) m) w.
Proof.
  unfold handleSendResult, updateTransactionHash, updateTransactionResultXDR,
    updateTransactionResultMeta, updateTransactionResultCode. nbt.
Qed.
Lemma nb_getInfraAttempts l w : unlocked w → nb (getInfraAttempts l) w.
Proof. unfold getInfraAttempts. nbt. Qed.
Lemma nb_getTransactionAttempt l w : unlocked w → nb (getTransactionAttempt l) w.
Proof. unfold getTransactionAttempt. nbt. Qed.
Hint Resolve nb_apply_simulation nb_handleSendResult nb_getInfraAttempts
  nb_getTransactionAttempt : nb.
Lemma nb_retryGetClientOrFail l w : unlocked w → nb (retryGetClientOrFail cfg l) w.
Proof. unfold retryGetClientOrFail, incrementInfraAttempts. nbt. Qed.
Lemma nb_poll_restore_loop n c h w : unlocked w → nb (poll_restore_loop n c h) w.
Proof. revert w. induction n; cbn [poll_restore_loop]; nbt. Qed.
Hint Resolve nb_retryGetClientOrFail nb_poll_restore_loop : nb.
Lemma nb_pollRestore c h w : unlocked w → nb (pollRestoreTransaction cfg c h) w.
Proof. unfold pollRestoreTransaction. nbt. Qed.
Hint Resolve nb_pollRestore : nb.
Lemma nb_restore_attempt c l x w : unlocked w → nb (restore_attempt cfg c l x) w.
Proof. unfold restore_attempt. nbt. Qed.
Hint Resolve nb_restore_attempt : nb.
Lemma nb_restore_loop n c l x e w : unlocked w → nb (restore_loop cfg n c l x e) w.
Proof. revert e w. induction n; cbn [restore_loop]; nbt. Qed.
Lemma nb_alloc_op (f : World → loc) g w :
  unlocked w → nb (atomic (λ w, (f w, upd_nextLoc Pos.succ (upd_opheap (g w) w)))) w.
Proof. intros. by apply nb_atomic. Qed.
Lemma nb_signTransaction t a w : unlocked w → nb (signTransaction networkPassphrase t a) w.
Proof. unfold signTransaction. nbt. Qed.
Hint Resolve nb_restore_loop nb_alloc_op nb_signTransaction : nb.
Lemma nb_handleRestore c l p q w : unlocked w → nb (handleRestore cfg networkPassphrase c l p q) w.
Proof. unfold handleRestore. nbt. Qed.
Lemma nb_assembleTransaction t s f m w : unlocked w → nb (assembleTransaction cfg t s f m) w.
Proof. unfold assembleTransaction. nbt. Qed.
Lemma nb_buildPreliminaryTx l q m w : unlocked w → nb (buildPreliminaryTx cfg l q m) w.
Proof. unfold buildPreliminaryTx. nbt. Qed.
Hint Resolve nb_handleRestore nb_assembleTransaction nb_buildPreliminaryTx : nb.
Lemma nb_prepare_loop n i mx c l q e w : unlocked w → nb (prepare_loop cfg n i mx c l q e) w.
Proof. revert i e w. induction n; cbn [prepare_loop]; nbt. Qed.
Lemma nb_fail_turn a q l r w : unlocked w → nb (fail_turn cfg a q l r) w.
Proof. unfold fail_turn. nbt. Qed.
Lemma nb_backoff a q st w : unlocked w → nb (backoff_or_release cfg a q st) w.
Proof. unfold backoff_or_release. nbt. Qed.
Lemma nb_markBroadcastAt l w : unlocked w → nb (markBroadcastAt l) w.
Proof. unfold markBroadcastAt. nbt. Qed.
Hint Resolve nb_prepare_loop nb_fail_turn nb_backoff nb_markBroadcastAt : nb.
Lemma nb_submit_response c l a st res m w : unlocked w → nb (submit_response cfg c l a st res m) w.
Proof. unfold submit_response. nbt. Qed.
Hint Resolve nb_submit_response : nb.
Lemma nb_assemble_and_send c l a st tx sim m w :
  unlocked w → nb (assemble_and_send cfg networkPassphrase c l a st tx sim m) w.
Proof. unfold assemble_and_send, updateTransactionFee. nbt. Qed.
Hint Resolve nb_assemble_and_send : nb.
Lemma nb_submit_turn c l a st w : unlocked w → nb (submit_turn cfg networkPassphrase c l a st) w.
Proof.
  intros Hw. unfold submit_turn, prepareAndSimulateWithRetry.
  eapply nb_seq; [by apply nb_prepare_loop|]. nbt.
Qed.
Hint Resolve nb_submit_turn : nb.
Lemma nb_submit_loop fuel c l a st w :
  unlocked w → nb (submit_loop cfg networkPassphrase fuel c l a st) w.
Proof. revert st w. induction fuel; cbn [submit_loop]; nbt. Qed.
Lemma nb_ensure_store c l a w : unlocked w → nb (ensure_store cfg c l a) w.
Proof.
  intros Hw. unfold ensure_store. eapply nb_seq; [by apply nb_gets|]. intros [] w1 H1; [done|].
  eapply nb_seq; [by apply nb_getSequenceNumber|]. intros [q|e] w2 H2; [|nbt].
  eapply nb_seq; [|nbt]. apply nb_atomic; [done|].
  by destruct (AccountStore.CreateTxStore _ _ _).
Qed.
Lemma nb_seed_fee c i w : unlocked w → nb (seed_fee cfg c i) w.
Proof. unfold seed_fee. nbt. Qed.
Hint Resolve nb_submit_loop nb_ensure_store nb_seed_fee : nb.

Lemma nb_broadcast l w : unlocked w → nb (simulateAssembleSignAndSend cfg networkPassphrase l) w.
Proof.
  intros Hw. unfold simulateAssembleSignAndSend.
  eapply nb_seq; [by apply nb_call|]. intros [c|e] w1 H1; [|nbt].
  eapply nb_seq; [by apply nb_read_tx|]. intros t w2 H2.
  eapply nb_seq; [by apply nb_ensure_store|]. intros [] w3 H3; [|done]. cbn [negb].
  eapply nb_seq; [by apply nb_getTransactionAttempt|]. intros i w4 H4.
  eapply nb_seq; [destruct (0 <? i); nbt|]. nbt.
Qed.

(** ** Enqueue *)

Lemma nb_try_recv w : unlocked w → nb try_recv w.
Proof. intros Hw. apply nb_atomic; [done|]. by destruct (broadcastChan w). Qed.
Lemma nb_drop_oldest o w : unlocked w → nb (dropOldestForBackpressure cfg o) w.
Proof.
  intros Hw. unfold dropOldestForBackpressure. destruct o as [l|]; [|done].
  eapply nb_seq; [|nbt]. apply nb_atomic; [done|]. unfold drop_section.
  destruct (heap w !! l); [|done]. by case_decide.
Qed.
Lemma nb_register id l w : unlocked w → nb (atomic (register_section id l)) w.
Proof.
  intros Hw. apply nb_atomic; [done|]. unfold register_section. by destruct (transactions w !! id).
Qed.
Lemma nb_unregister id w : unlocked w → nb (modify (upd_transactions (delete id)) : txm unit) w.
Proof. intros. by apply nb_modify. Qed.
Hint Resolve nb_try_recv nb_drop_oldest nb_register nb_unregister : nb.
Lemma nb_enqueueTransaction l w : unlocked w → nb (enqueueTransaction cfg l) w.
Proof. unfold enqueueTransaction, closeDone. nbt. Qed.

(** ** Confirmation *)

Lemma nb_maybeRetry u r w : unlocked w → nb (maybeRetry cfg u r) w.
Proof. unfold maybeRetry. nbt. Qed.
Lemma nb_store_Confirm a u f w : unlocked w → nb (store_Confirm a u f) w.
Proof. apply nb_store_update. Qed.
Lemma nb_record_fee l x w : unlocked w → nb (record_fee l x) w.
Proof. unfold record_fee, updateTransactionFee. nbt. Qed.
Lemma nb_ledgerCloseTime l z w : unlocked w → nb (updateTransactionLedgerCloseTime l z) w.
Proof. unfold updateTransactionLedgerCloseTime. nbt. Qed.
Lemma nb_recordTime l w : unlocked w → nb (recordTimeUntilConfirmed l) w.
Proof. unfold recordTimeUntilConfirmed. nbt. Qed.
Hint Resolve nb_maybeRetry nb_store_Confirm nb_record_fee nb_ledgerCloseTime nb_recordTime : nb.

Lemma nb_on_success a u r w : unlocked w → nb (on_success cfg a u r) w.
Proof.
  intros Hw. unfold on_success, updateTransactionResultXDR, updateTransactionResultCode,
    updateTransactionResultMeta.
  eapply nb_seq; [by apply nb_store_Confirm|]. intros [[]|e] w1 H1; [|done].
  eapply nb_seq; [by apply nb_write_tx|]. intros _ w2 H2.
  eapply nb_seq; [by apply nb_write_tx|]. intros _ w3 H3.
  eapply nb_seq; [by apply nb_record_fee|]. intros _ w4 H4.
  eapply nb_seq; [destruct (decide _); nbt|]. nbt.
Qed.
Lemma nb_on_failed a u r w : unlocked w → nb (on_failed cfg a u r) w.
Proof.
  unfold on_failed, updateTransactionResultXDR, updateTransactionResultCode,
    incrementTransactionAttempt. nbt.
Qed.
Lemma nb_on_expired a u w : unlocked w → nb (on_expired cfg a u) w.
Proof. unfold on_expired, incrementTransactionAttempt. nbt. Qed.
Lemma nb_expired c u w : unlocked w → nb (expired cfg c u) w.
Proof. unfold expired. nbt. Qed.
Hint Resolve nb_on_success nb_on_failed nb_on_expired nb_expired : nb.
Lemma nb_check_one c a u w : unlocked w → nb (check_one cfg c a u) w.
Proof. unfold check_one. nbt. Qed.
End progress.
End TxmProgress.
