(* ===== verification/TxmOutcome.v ===== *)
(** How a broadcast and a confirmation end, when no other goroutine interferes. *)

From Stdlib Require Import SpecFloat.
From stdpp Require Import base gmap list strings.
From S2P Require Import Prelude GoStrings Config Float Fee Prog Sdk TxStore Tx.
From S2P Require Import Txm Broadcast Confirm TxmSafe.

Module TxmOutcome.
Import Config Tx Txm Broadcast Confirm TxmInv TxmSafe.
Local Open Scope Z_scope.

Section outcome.
Context {ST : SdkTypes} {SD : Sdk} {UT : UnicodeTables} {FC : FloatConv}.
Context (cfg : Resolved) (networkPassphrase : string).
Context {SL : SdkLaws} (Hpoll : 0 < confirmPollInterval cfg).

(** The answers of a context that is not cancelled. *)
Definition uncancelled (X : Type) (e : ext X) : X → Prop :=
  match e in ext X return X → Prop with
  | ESleep _ => λ r, r = None
  | _ => λ _, True
  end.

Abbreviation wp p w Q := (Prog.wp (W := World) (E := ext) uncancelled p w Q).

(** ** Worlds at the end *)

(** In a terminal status, with its waiters released. *)
Definition terminated (l : loc) (st : TransactionStatus) (w : World) : Prop :=
  ∃ t, heap w !! l = Some t ∧ Status t = st ∧ DoneClosed t = true ∧ is_Some (TerminalTime t).

(** Recorded in its account's store under the hash the network gave. *)
Definition recorded (l : loc) (a : string) (w : World) : Prop :=
  ∃ t s u, heap w !! l = Some t ∧ accountStore w !! a = Some s ∧
    TxStore.unconfirmedSequences s !! TxStore.Sequence u = Some u ∧
    TxStore.Tx u = l ∧ TxStore.Hash u = TxHash t.

Definition in_flight (l : loc) (a : string) (w : World) : Prop :=
  recorded l a w ∧ ∃ t, heap w !! l = Some t ∧ Status t = Unconfirmed ∧ is_Some (BroadcastAt t).

Definition status_is (l : loc) (st : TransactionStatus) (w : World) : Prop :=
  ∃ t, heap w !! l = Some t ∧ Status t = st.

(** Queued for another broadcast. *)
Definition requeued (l : loc) (w : World) : Prop := ∃ q, broadcastChan w = q ++ [l].

Definition channel_full (w : World) : Prop :=
  broadcastChanSize cfg <= Z.of_nat (length (broadcastChan w)).

(** ** Rules *)

Lemma frame {A} (p : txm A) w Q :
  Prog.safe (Inv cfg) Rel p w Q → stable Rel Q → Inv cfg w →
  wp p w (λ a w', Q a w' ∧ Inv cfg w' ∧ Rel w w').
Proof. intros Hs Hst HI. eapply safe_wp; [apply _|exact Hs|done..]. Qed.

Lemma frame_T {A} (p : txm A) w :
  Prog.safe (Inv cfg) Rel p w (λ _ _, True) → Inv cfg w →
  wp p w (λ _ w', Inv cfg w' ∧ Rel w w').
Proof.
  intros Hs HI. eapply wp_mono; [|by eapply (frame p w (λ _ _, True))].
  by intros a w' (_ & ? & ?).
Qed.

(** A goal that also keeps the invariant. *)
Lemma frame_seq {A B} (p : txm A) (k : A → txm B) w Q :
  Prog.safe (Inv cfg) Rel p w (λ _ _, True) → Inv cfg w →
  (∀ a w', Inv cfg w' → Rel w w' → wp (k a) w' Q) → wp (p ≫= k) w Q.
Proof.
  intros Hs HI Hk. eapply wp_seq; [by apply frame_T|]. intros a w' [? ?]. by apply Hk.
Qed.

Definition mark_terminal (now : Z) (st : TransactionStatus) (t : StellarTx) : StellarTx :=
  match TerminalTime t with
  | None => set_TerminalTime (Some now) (set_Status st t)
  | Some _ => set_Status st t
  end.

Lemma status_section_terminal l st now w :
  isTerminalStatus st = true →
  let w' := status_section cfg l st now w in
  heap w' = alter (mark_terminal now st) l (heap w) ∧
  accountStore w' = accountStore w ∧ broadcastChan w' = broadcastChan w ∧
  opheap w' = opheap w.
Proof.
  intros Hst. unfold status_section. rewrite Hst. unfold maybeEvictTerminalTx.
  assert (∀ h : gmap loc StellarTx,
    alter (λ t, match TerminalTime t with None => set_TerminalTime (Some now) t | Some _ => t end)
      l (alter (set_Status st) l h) = alter (mark_terminal now st) l h) as Halter.
  { intros h. rewrite alter_alter_eq. apply alter_ext. intros t _. unfold mark_terminal. cbn.
    by destruct (TerminalTime t). }
  destruct (0 <? pruneInterval cfg); cbn.
  { by rewrite Halter. }
  match goal with |- context [match ?x with Some _ => _ | None => _ end] => destruct x end; cbn;
    by rewrite Halter.
Qed.

Lemma status_section_rest l st now w :
  let w' := status_section cfg l st now w in
  chanClosed w' = chanClosed w ∧
  (∀ t id k, heap w !! l = Some t → id ≠ ID t →
     transactions w !! id = Some k → transactions w' !! id = Some k).
Proof.
  unfold status_section, maybeEvictTerminalTx. destruct (isTerminalStatus st); [|done].
  destruct (0 <? pruneInterval cfg); [done|]. case_match eqn:El; [|done]. split; [done|].
  intros t id k Hl Hne Hk. cbn in *. rewrite !lookup_alter_eq, Hl in El. cbn in El.
  injection El as <-. rewrite lookup_delete_ne; [done|].
  destruct t as [? ? ? ? ? ? ? ? [?|] ? ? ? ? ? ? ? ? ? ?]; cbn in *; congruence.
Qed.

Lemma wp_update_terminal l st w Q :
  isTerminalStatus st = true → is_Some (heap w !! l) →
  (∀ w', terminated l st w' → accountStore w' = accountStore w →
     broadcastChan w' = broadcastChan w → (∀ l', l' ≠ l → heap w' !! l' = heap w !! l') →
     (∀ t, heap w !! l = Some t → ∃ t', heap w' !! l = Some t' ∧ Fee t' = Fee t ∧
        ResultXDR t' = ResultXDR t ∧ ResultCode t' = ResultCode t ∧
        ResultMetaXDR t' = ResultMetaXDR t ∧ LedgerCloseTime t' = LedgerCloseTime t ∧
        Attempt t' = Attempt t) →
     Q tt w') →
  wp (updateTransactionStatus cfg l st) w Q.
Proof.
  intros Hst [t Hl] HQ. unfold updateTransactionStatus. apply wp_bind. intros now _.
  cbn [Prog.wp]. rewrite Hst. cbn.
  destruct (status_section_terminal l st now w Hst) as (E1 & E2 & E3 & _).
  apply HQ; cbn; rewrite ?E1, ?E2, ?E3; [|done|done| |].
  - exists (set_DoneClosed true (mark_terminal now st t)). cbn.
    rewrite E1, !lookup_alter_eq, Hl. cbn. split_and!; [done| |done|].
    + unfold mark_terminal. by destruct (TerminalTime t).
    + unfold mark_terminal. destruct (TerminalTime t) eqn:Et; cbn; [rewrite Et|]; by eexists.
  - intros l' Hne. by rewrite !lookup_alter_ne.
  - intros t' [= <-]%(eq_trans (eq_sym Hl)). rewrite !lookup_alter_eq, Hl. cbn.
    eexists. split; [done|]. unfold mark_terminal. by destruct (TerminalTime t).
Qed.

Lemma wp_store_Release a q w s (Q : unit → World → Prop) :
  accountStore w !! a = Some s →
  Q tt (upd_accountStore (insert a (TxStore.Release q s)) w) → wp (store_Release a q) w Q.
Proof.
  intros Hs HQ. unfold store_Release, store_update. apply wp_bind, wp_bind.
  cbn [Prog.wp atomic]. rewrite Hs. exact HQ.
Qed.

Lemma wp_releaseSeqAndFailTx a q l r w (Q : unit → World → Prop) :
  has_tx l a w → has_store a w → (∀ w', terminated l Failed w' → Q tt w') →
  wp (releaseSeqAndFailTx cfg a q l r) w Q.
Proof.
  intros (t & Hl & Ha) [s Hs] HQ. unfold releaseSeqAndFailTx.
  apply wp_bind. eapply wp_store_Release; [done|].
  apply wp_bind. apply wp_update_terminal; [done|by exists t|].
  intros w' Hterm _ _ _ _. cbn [Prog.wp emit modify fst snd]. apply HQ.
  destruct Hterm as (t' & ? & ?). by exists t'.
Qed.

Lemma wp_fail_turn a q l r w (Q : turn → World → Prop) :
  has_tx l a w → has_store a w →
  (∀ w', terminated l Failed w' → Q TurnReturn w') →
  wp (fail_turn cfg a q l r) w Q.
Proof. intros Hl Ha HQ. unfold fail_turn. apply wp_bind. by apply wp_releaseSeqAndFailTx. Qed.

(** ** Broadcast *)

Lemma wp_handleSendResult l a res q m w :
  has_tx l a w → has_store a w →
  wp (handleSendResult (Some l) res q (Some a) m) w
    (λ r w', fst (fst r) = true → recorded l a w').
Proof.
  intros (t & Hl & Ha) [s Hs]. unfold handleSendResult.
  assert (wp (err ← store_update a (TxStore.AddUnconfirmed q (sendHash res) m l);
              match err with
              | Ok _ =>
                  updateTransactionHash l (sendHash res);; updateTransactionResultXDR l "";;
                  updateTransactionResultMeta l "";; updateTransactionResultCode l "";;
                  Ret (true, false, "")
              | Err _ => Ret (false, true, ErrorReasonStoreAdd)
              end) w (λ r w', fst (fst r) = true → recorded l a w')) as Hadd.
  { unfold store_update. apply wp_bind, wp_bind. cbn. rewrite Hs.
    destruct (TxStore.AddUnconfirmed _ _ _ _ _) as [s'|e] eqn:E; cbn; [|done]. intros _.
    apply TxStoreFacts.AddUnconfirmed_Ok in E as (_ & Hun & _).
    set (t' := set_ResultCode "" (set_ResultMetaXDR "" (set_ResultXDR "" (set_TxHash (sendHash res) t)))).
    exists t', s', (TxStore.mkUnconfirmedTx q (sendHash res) m l). cbn.
    rewrite !lookup_alter_eq, Hl, lookup_insert_eq, Hun. cbn. rewrite lookup_insert_eq.
    by split_and!. }
  destruct (sendStatus res); [| |done| |done].
  1,2: case_decide; [done|exact Hadd].
  destruct (parseSubmitErrorResult _) as [c|]; [|done].
  destruct (classifySubmitErrorCode c). done.
Qed.

Definition turn_outcome (l : loc) (a : string) (r : turn) (w : World) : Prop :=
  match r with TurnReturn => terminated l Failed w ∨ in_flight l a w | _ => True end.

Lemma wp_backoff a q l st w :
  wp (backoff_or_release cfg a q st) w (turn_outcome l a).
Proof.
  unfold backoff_or_release, sleep_retry_delay. apply wp_bind. intros x ->. done.
Qed.

Lemma wp_fail_turn_outcome a q l r w :
  has_tx l a w → has_store a w → wp (fail_turn cfg a q l r) w (turn_outcome l a).
Proof. intros. apply wp_fail_turn; [done..|]. intros w' ?. by left. Qed.

Lemma wp_accept l a w :
  recorded l a w →
  wp (markBroadcastAt l;; emit IncrementBroadcastedTxs;;
      updateTransactionStatus cfg l Unconfirmed;; Ret TurnReturn) w (turn_outcome l a).
Proof.
  intros (t & s & u & Hl & Hs & Hu & Htx & Hh). unfold markBroadcastAt, updateTransactionStatus.
  apply wp_bind, wp_bind. intros now _. cbn. intros now' _. right.
  set (t' := set_Status Unconfirmed (set_BroadcastAt (Some now) t)).
  assert (alter (set_Status Unconfirmed) l
            (alter (set_BroadcastAt (Some now)) l (heap w)) !! l = Some t') as Hl'.
  { by rewrite !lookup_alter_eq, Hl. }
  split.
  - exists t', s, u. cbn. by split_and!.
  - exists t'. cbn. split_and!; [done|done|by eexists].
Qed.

Lemma wp_submit_response c l a st res m w :
  has_tx l a w → has_store a w → Inv cfg w →
  wp (submit_response cfg c l a st res m) w (turn_outcome l a).
Proof.
  intros Hl Ha HI. unfold submit_response.
  eapply wp_seq.
  { apply wp_and; [by apply wp_handleSendResult|]. apply frame_T; [|done].
    by apply handleSendResult_safe. }
  intros [[accepted fatal] reason] w1 (Hrec & HI1 & HR1). cbn [fst] in Hrec. carry.
  destruct accepted; [by apply wp_accept, Hrec|].
  destruct fatal; [by apply wp_fail_turn_outcome|]. case_decide.
  { eapply frame_seq; [by eapply resyncSequence_safe|done|]. intros _ w2 HI2 HR2. carry.
    eapply frame_seq; [by apply store_get_T|done|]. intros q w3 _ _. done. }
  case_decide; [|apply wp_backoff].
  eapply frame_seq; [apply sorobanInclusionPercentiles_safe|done|]. intros stats w2 HI2 HR2.
  destruct (Fee.BumpInclusionFee _ _ _). apply wp_backoff.
Qed.

Lemma wp_assemble_and_send c l a st tx sim m w :
  has_tx l a w → has_store a w → has_ops (tx_Operations tx) w → Inv cfg w →
  wp (assemble_and_send cfg networkPassphrase c l a st tx sim m) w (turn_outcome l a).
Proof.
  intros Hl Ha Hops HI. unfold assemble_and_send.
  eapply frame_seq; [apply write_tx_safe; harmless_tac|done|]. intros _ w1 HI1 HR1. carry.
  eapply frame_seq; [by apply assembleTransaction_safe|done|].
  intros [[tx' fee]|e] w2 HI2 HR2; carry; [|by apply wp_fail_turn_outcome].
  eapply frame_seq; [apply emit_safe|done|]. intros _ w3 HI3 HR3. carry.
  eapply frame_seq; [apply emit_safe|done|]. intros _ w4 HI4 HR4. carry.
  eapply frame_seq; [apply write_tx_safe; harmless_tac|done|]. intros _ w5 HI5 HR5. carry.
  eapply frame_seq; [by eapply safe_T, read_tx_safe|done|]. intros t w6 HI6 HR6. carry.
  eapply frame_seq; [apply signTransaction_safe|done|].
  intros [stx|e] w7 HI7 HR7; carry; [|by apply wp_fail_turn_outcome].
  destruct (tx_Base64 stx); [|by apply wp_fail_turn_outcome].
  apply wp_bind. intros [res|e] _; cbn [Prog.wp].
  - by apply wp_submit_response.
  - destruct (_ <=? _); [done|apply wp_backoff].
Qed.

Lemma wp_submit_turn c l a st w :
  has_tx l a w → has_store a w → Inv cfg w →
  wp (submit_turn cfg networkPassphrase c l a st) w (turn_outcome l a).
Proof.
  intros Hl Ha HI. unfold submit_turn, prepareAndSimulateWithRetry.
  eapply wp_seq.
  { apply (frame _ w (prep_post)); [by eapply prepare_loop_safe| |done].
    intros r w1 w2 HR Hp tx sim m Hr. eapply has_ops_Rel; [done|]. by eapply Hp. }
  intros [[[tx sim] m]|e] w1 (Hpost & HI1 & HR1); carry; [|by apply wp_fail_turn_outcome].
  specialize (Hpost tx sim m eq_refl).
  destruct (simRestorePreamble sim) as [p|]; [|by apply wp_assemble_and_send].
  destruct (restoreHandled st); [by apply wp_fail_turn_outcome|].
  eapply frame_seq; [by eapply handleRestore_safe|done|].
  intros [] w2 HI2 HR2; carry; [|by apply wp_fail_turn_outcome].
  eapply frame_seq; [by apply store_get_T|done|]. intros q w3 _ _. done.
Qed.

Lemma wp_submit_loop fuel c l a st w :
  has_tx l a w → has_store a w → Inv cfg w → (turns_left cfg st < fuel)%nat →
  wp (submit_loop cfg networkPassphrase fuel c l a st) w
    (λ _ w', terminated l Failed w' ∨ in_flight l a w').
Proof.
  revert st w. induction fuel as [|fuel IH]; intros st w Hl Ha HI Hf; [lia|]. cbn [submit_loop].
  destruct (Z.ltb_spec (submitAttempt st) (maxSubmitRetryAttempts cfg)).
  2:{ apply wp_releaseSeqAndFailTx; [done..|]. by left. }
  eapply wp_seq.
  { apply wp_and; [by apply wp_submit_turn|].
    apply (frame _ w (λ r _, advances st r)); [by apply submit_turn_safe|by intros ????|done]. }
  intros [| |st'] w1 (Hout & Hadv & HI1 & HR1); carry; [done| |].
  - apply wp_releaseSeqAndFailTx; [done..|]. by left.
  - apply IH; [done..|]. unfold turns_left in *.
    destruct Hadv as [[E1 E2]|(E1 & E2 & E3)]; rewrite ?E1, ?E2, ?E3 in *; lia.
Qed.

(** How the broadcast of a transaction ends. *)
Definition broadcast_outcome (l : loc) (a : string) (st0 : TransactionStatus) (w : World) : Prop :=
  in_flight l a w ∨ terminated l Failed w ∨ (status_is l st0 w ∧ requeued l w) ∨
  (status_is l st0 w ∧ channel_full w).

Lemma wp_markTxFailed l r w Q :
  is_Some (heap w !! l) → (∀ w', terminated l Failed w' → Q tt w') →
  wp (markTxFailed cfg l r) w Q.
Proof.
  intros Hl HQ. unfold markTxFailed. apply wp_bind. apply wp_update_terminal; [done..|].
  intros w' Hterm _ _ _ _. cbn. apply HQ. destruct Hterm as (t' & ? & ?). by exists t'.
Qed.

Lemma wp_retryGetClientOrFail l a st0 w :
  has_tx l a w → status_is l st0 w → Inv cfg w →
  wp (retryGetClientOrFail cfg l) w (λ _ w', broadcast_outcome l a st0 w').
Proof.
  intros Hl (t & Ht & Hst) HI. unfold retryGetClientOrFail, incrementInfraAttempts, write_tx.
  apply wp_bind. cbn [Prog.wp modify fst snd].
  set (w1 := alter_tx l _ w). set (t1 := set_InfraAttempts (uint64 (InfraAttempts t + 1)) t).
  assert (heap w1 !! l = Some t1) as Ht1 by (unfold w1; cbn; by rewrite lookup_alter_eq, Ht).
  unfold getInfraAttempts, read_tx. apply wp_bind, wp_bind, wp_bind. cbn [Prog.wp gets fst snd].
  rewrite Ht1. cbn [Prog.wp].
  destruct (_ <? _).
  - unfold sleep_retry_delay. apply wp_bind. intros x ->. cbn [Prog.wp].
    unfold try_send. apply wp_bind, wp_bind. cbn [Prog.wp atomic].
    change (chanClosed w1) with (chanClosed w). rewrite (inv_open _ _ HI).
    destruct (Z.ltb_spec (Z.of_nat (length (broadcastChan w1))) (broadcastChanSize cfg)); cbn.
    + right; right; left. split; [by exists t1|]. by exists (broadcastChan w1).
    + right; right; right. split; [by exists t1|]. done.
  - apply wp_bind. cbn [Prog.wp emit modify fst snd]. apply wp_markTxFailed.
    { exists t1. done. }
    intros w' Hterm. right; left. done.
Qed.

Lemma wp_ensure_store c l a w :
  has_tx l a w → Inv cfg w →
  wp (ensure_store cfg c l a) w
    (λ ok w', (ok = false → terminated l Failed w') ∧ (ok = true → has_store a w')).
Proof.
  intros Hl HI. unfold ensure_store. apply wp_bind. cbn [Prog.wp gets fst snd].
  unfold AccountStore.GetTxStore. destruct (accountStore w !! a) as [s|] eqn:Es.
  { cbn. split; [done|]. intros _. by exists s. }
  eapply frame_seq; [apply getSequenceNumber_safe|done|]. intros [q|e] w2 HI2 HR2; carry.
  - apply wp_bind. cbn [Prog.wp atomic]. unfold AccountStore.CreateTxStore.
    destruct (accountStore w2 !! a) as [s|] eqn:Es2; cbn [fst snd].
    + apply wp_bind, wp_markTxFailed; [destruct Hl as (t & ? & _); by exists t|]. intros w' ?.
      by cbn.
    + cbn. split; [done|]. intros _. unfold has_store. cbn. rewrite lookup_insert_eq. by eexists.
  - apply wp_bind, wp_markTxFailed; [destruct Hl as (t & ? & _); by exists t|]. intros w' ?.
    by cbn.
Qed.

Lemma wp_broadcast l a st0 w :
  has_tx l a w → status_is l st0 w → Inv cfg w →
  wp (simulateAssembleSignAndSend cfg networkPassphrase l) w
    (λ _ w', broadcast_outcome l a st0 w').
Proof.
  intros Hl Hst HI. unfold simulateAssembleSignAndSend. apply wp_bind. intros [c|e] _; cbn [Prog.wp].
  2:{ by apply wp_retryGetClientOrFail. }
  eapply wp_seq.
  { apply (frame _ w (λ t _, FromAddress t = a)); [|by intros ????|done].
    eapply safe_weaken; [by apply read_tx_safe|]. by intros t w' _ (? & _ & _). }
  intros t w2 (Ha & HI2 & HR2); carry. rewrite Ha.
  eapply wp_seq.
  { apply wp_and; [by apply wp_ensure_store|]. apply frame_T; [|done].
    eapply safe_T. by apply ensure_store_safe. }
  intros [] w3 ((Hf & Hs) & HI3 & HR3); carry; cbn [negb].
  2:{ right; left. by apply Hf. }
  specialize (Hs eq_refl).
  eapply frame_seq; [by eapply getTransactionAttempt_safe|done|]. intros i w4 HI4 HR4; carry.
  eapply frame_seq; [|done|].
  { destruct (0 <? i); [|done]. eapply safe_seq; [by eapply resyncSequence_safe|]. done. }
  intros _ w5 HI5 HR5; carry.
  eapply frame_seq; [apply seed_fee_safe|done|]. intros fee w6 HI6 HR6; carry.
  eapply frame_seq; [by apply store_get_T|done|]. intros q w7 HI7 HR7; carry.
  eapply wp_mono; [|apply wp_submit_loop; [done..|unfold turns_left, submit_fuel; cbn; lia]].
  intros _ w' [?|?]; [right; by left|by left].
Qed.

(** ** Confirmation *)

(** What the steps of a confirmation look at: one transaction, the stores, the channel. *)
Record sees (l : loc) (t : StellarTx) (c : gmap string TxStore.TxStore) (q : list loc)
    (w : World) : Prop := mkSees {
  sees_tx : heap w !! l = Some t;
  sees_stores : accountStore w = c;
  sees_chan : broadcastChan w = q;
  sees_open : chanClosed w = false
}.

Lemma wp_write_tx l g t c q w (Q : unit → World → Prop) :
  sees l t c q w → (∀ w', sees l (g t) c q w' → Q tt w') → wp (write_tx l g) w Q.
Proof.
  intros [Ht Hc Hq Ho] HQ. apply HQ. constructor; [|done..]. cbn. by rewrite lookup_alter_eq, Ht.
Qed.

Lemma wp_emit m l t c q w (Q : unit → World → Prop) :
  sees l t c q w → (∀ w', sees l t c q w' → Q tt w') → wp (emit m) w Q.
Proof. intros [] HQ. apply HQ. by constructor. Qed.

Lemma wp_read_tx l t c q w (Q : StellarTx → World → Prop) :
  sees l t c q w → Q t w → wp (read_tx l) w Q.
Proof. intros [Ht _ _ _] HQ. unfold read_tx. apply wp_bind. cbn [Prog.wp gets fst snd]. by rewrite Ht. Qed.

Definition ended (now : Z) (st : TransactionStatus) (t : StellarTx) : StellarTx :=
  set_DoneClosed true (mark_terminal now st t).

Lemma wp_status_terminal l st t c q w (Q : unit → World → Prop) :
  isTerminalStatus st = true → sees l t c q w →
  (∀ now w', sees l (ended now st t) c q w' → Q tt w') →
  wp (updateTransactionStatus cfg l st) w Q.
Proof.
  intros Hst [Ht Hc Hq Ho] HQ. unfold updateTransactionStatus. apply wp_bind. intros now _.
  cbn [Prog.wp]. rewrite Hst. cbn.
  destruct (status_section_terminal l st now w Hst) as (E1 & E2 & E3 & _).
  apply (HQ now). constructor; cbn; [|congruence..|].
  - by rewrite E1, !lookup_alter_eq, Ht.
  - unfold status_section. rewrite Hst. unfold maybeEvictTerminalTx.
    destruct (0 <? _); [done|]. case_match; done.
Qed.

Lemma ended_spec now st t :
  Status (ended now st t) = st ∧ DoneClosed (ended now st t) = true ∧
  is_Some (TerminalTime (ended now st t)) ∧ ResultCode (ended now st t) = ResultCode t.
Proof. unfold ended, mark_terminal. destruct t as [? ? ? ? ? ? ? ? [?|] ? ? ? ? ? ? ? ? ? ?]; cbn; by split_and!. Qed.

Lemma ended_terminated l st now t c q w : sees l (ended now st t) c q w → terminated l st w.
Proof.
  intros [Ht _ _ _]. destruct (ended_spec now st t) as (? & ? & ? & _).
  exists (ended now st t). by split_and!.
Qed.

Lemma wp_store_Confirm a u f l t c q s w (Q : result unit → World → Prop) :
  sees l t c q w → c !! a = Some s →
  TxStore.unconfirmedSequences s !! TxStore.Sequence u = Some u →
  (∀ s' w', TxStore.Confirm (TxStore.Sequence u) (TxStore.Hash u) f s = Ok s' →
     sees l t (<[a := s']> c) q w' → Q (Ok tt) w') →
  wp (store_Confirm a u f) w Q.
Proof.
  intros [Ht Hc Hq Ho] Hs Hu HQ. unfold store_Confirm, store_update. apply wp_bind.
  cbn [Prog.wp atomic]. rewrite Hc, Hs.
  destruct (TxStore.Confirm _ _ _ _) as [s'|e] eqn:E.
  - cbn. apply (HQ s'); [done|]. constructor; cbn; [done|by rewrite Hc|done..].
  - unfold TxStore.Confirm in E. rewrite Hu, decide_True in E by done. done.
Qed.

(** [maybeRetry] puts the transaction back in the channel exactly when it has attempts
    left and the channel has room. *)
Definition can_retry (t : StellarTx) (q : list loc) : bool :=
  (Attempt t <? maxTxRetryAttempts cfg) &&
  (Z.of_nat (length q) <? broadcastChanSize cfg).

Lemma wp_maybeRetry u r t c q w (Q : bool → World → Prop) :
  sees (TxStore.Tx u) t c q w →
  (∀ w', sees (TxStore.Tx u) t c (if can_retry t q then q ++ [TxStore.Tx u] else q) w' →
     Q (can_retry t q) w') →
  wp (maybeRetry cfg u r) w Q.
Proof.
  intros Hw HQ. unfold maybeRetry, getTransactionAttempt. apply wp_bind, wp_bind.
  eapply wp_read_tx; [done|]. cbn [Prog.wp]. unfold can_retry in HQ. rewrite Z.ltb_antisym in HQ.
  destruct (maxTxRetryAttempts cfg <=? Attempt t); cbn in HQ; [by apply HQ|].
  destruct Hw as [Ht Hc Hq Ho]. unfold try_send. apply wp_bind, wp_bind. cbn [Prog.wp atomic].
  rewrite Ho, Hq. destruct (_ <? _); cbn; apply HQ; constructor; cbn; congruence.
Qed.

Lemma wp_weaken {A} (p : txm A) w (Q Q' : A → World → Prop) :
  wp p w Q → (∀ a w', Q a w' → Q' a w') → wp p w Q'.
Proof. intros Hp HQ. by eapply wp_mono. Qed.

(** The transaction a confirmation writes when the ledger has accepted it. *)
Definition confirmed_tx (now : Z) (resp : GetTransactionResponse) (t : StellarTx) : StellarTx :=
  let t := set_ResultCode "" (set_ResultXDR (getResultXDR resp) t) in
  let t := match (if decide (getResultXDR resp = "") then Err ""
                  else UnmarshalTransactionResult (getResultXDR resp)) with
           | Ok r => set_Fee (Some (int64 (FeeCharged r))) t
           | Err _ => t
           end in
  let t := if decide (getResultMetaXDR resp = "") then t
           else set_ResultMetaXDR (getResultMetaXDR resp) t in
  let t := if getLedgerCloseTime resp <=? 0 then t
           else set_LedgerCloseTime (getLedgerCloseTime resp) t in
  ended now Finalized t.

Lemma wp_on_success a u resp t c q s w (Q : unit → World → Prop) :
  sees (TxStore.Tx u) t c q w → c !! a = Some s →
  TxStore.unconfirmedSequences s !! TxStore.Sequence u = Some u →
  (∀ now s' w', TxStore.Confirm (TxStore.Sequence u) (TxStore.Hash u) false s = Ok s' →
     sees (TxStore.Tx u) (confirmed_tx now resp t) (<[a := s']> c) q w' → Q tt w') →
  wp (on_success cfg a u resp) w Q.
Proof.
  intros Hw Hs Hu HQ. unfold on_success. apply wp_bind. eapply wp_store_Confirm; [done..|].
  intros s' w1 Hconf H1. apply wp_bind. eapply wp_write_tx; [done|]. intros w2 H2.
  apply wp_bind. eapply wp_write_tx; [done|]. intros w3 H3. apply wp_bind.
  set (t3 := set_ResultCode "" _) in *.
  set (t4 := match (if decide (getResultXDR resp = "") then Err ""
                  else UnmarshalTransactionResult (getResultXDR resp)) with
           | Ok r => set_Fee (Some (int64 (FeeCharged r))) t3
           | Err _ => t3
           end).
  apply (wp_mono _ _ _ (λ _ w', sees (TxStore.Tx u) t4 (<[a := s']> c) q w')).
  2:{ unfold record_fee, t4. case_decide; [done|].
      destruct (UnmarshalTransactionResult _); [|done]. by eapply wp_write_tx. }
  intros _ w4 H4. apply wp_bind.
  set (t5 := if decide (getResultMetaXDR resp = "") then t4
             else set_ResultMetaXDR (getResultMetaXDR resp) t4).
  apply (wp_mono _ _ _ (λ _ w', sees (TxStore.Tx u) t5 (<[a := s']> c) q w')).
  2:{ unfold t5. case_decide; [done|]. by eapply wp_write_tx. }
  intros _ w5 H5. apply wp_bind.
  set (t6 := if getLedgerCloseTime resp <=? 0 then t5
             else set_LedgerCloseTime (getLedgerCloseTime resp) t5).
  apply (wp_mono _ _ _ (λ _ w', sees (TxStore.Tx u) t6 (<[a := s']> c) q w')).
  2:{ unfold updateTransactionLedgerCloseTime, t6. destruct (_ <=? 0); [done|]. by eapply wp_write_tx. }
  intros _ w6 H6. apply wp_bind. eapply wp_emit; [done|]. intros w7 H7. apply wp_bind.
  apply (wp_mono _ _ _ (λ _ w', sees (TxStore.Tx u) t6 (<[a := s']> c) q w')).
  2:{ unfold recordTimeUntilConfirmed. apply wp_bind. eapply wp_read_tx; [done|].
      destruct (BroadcastAt t6); [|done]. apply wp_bind. intros now _. by eapply wp_emit. }
  intros _ w8 H8. eapply wp_status_terminal; [done..|]. intros now w9 H9. by apply (HQ now s').
Qed.

(** The two ways a retryable failure ends. *)
Lemma wp_retry_or_fail u r (m : list metric) t c q w (Q : unit → World → Prop) k :
  sees (TxStore.Tx u) t c q w →
  (∀ w', can_retry t q = true → sees (TxStore.Tx u) t c (q ++ [TxStore.Tx u]) w' → Q tt w') →
  (∀ w', can_retry t q = false → sees (TxStore.Tx u) t c q w' → wp k w' Q) →
  wp (retried ← maybeRetry cfg u r; if (retried : bool) then Ret tt else k) w Q.
Proof.
  intros Hw HT HF. apply wp_bind. eapply wp_maybeRetry; [done|]. intros w' Hw'.
  destruct (can_retry t q) eqn:E; [by apply HT|by apply HF].
Qed.

Lemma wp_on_expired a u t c q s w (Q : unit → World → Prop) :
  sees (TxStore.Tx u) t c q w → c !! a = Some s →
  TxStore.unconfirmedSequences s !! TxStore.Sequence u = Some u →
  let t1 := set_Attempt (uint64 (Attempt t + 1)) t in
  (∀ s' w', TxStore.Confirm (TxStore.Sequence u) (TxStore.Hash u) true s = Ok s' →
     (can_retry t1 q = true ∧ sees (TxStore.Tx u) t1 (<[a := s']> c) (q ++ [TxStore.Tx u]) w') ∨
     (can_retry t1 q = false ∧
        ∃ now, sees (TxStore.Tx u) (ended now Failed t1) (<[a := s']> c) q w') →
     Q tt w') →
  wp (on_expired cfg a u) w Q.
Proof.
  intros Hw Hs Hu t1 HQ. unfold on_expired. apply wp_bind. eapply wp_store_Confirm; [done..|].
  intros s' w1 Hconf H1. apply wp_bind. eapply wp_write_tx; [done|]. fold t1. intros w2 H2.
  eapply (wp_retry_or_fail _ _ []); [done| |].
  - intros w3 E H3. apply (HQ s'); [done|]. by left.
  - intros w3 E H3. apply wp_bind. eapply wp_emit; [done|]. intros w4 H4.
    apply wp_bind. eapply wp_emit; [done|]. intros w5 H5.
    eapply wp_status_terminal; [done..|]. intros now w6 H6. apply (HQ s'); [done|]. right. eauto.
Qed.

(** The transaction after a failure on chain has been recorded. *)
Definition failed_tx (resp : GetTransactionResponse) (t : StellarTx) : StellarTx :=
  let t := set_ResultCode
             (FailedResult.fcResultCode
                (FailedResult.classifyFailedTransactionResult (getResultXDR resp)))
             (set_ResultXDR (getResultXDR resp) t) in
  if getLedgerCloseTime resp <=? 0 then t
  else set_LedgerCloseTime (getLedgerCloseTime resp) t.

Lemma wp_on_failed a u resp t c q s w (Q : unit → World → Prop) :
  sees (TxStore.Tx u) t c q w → c !! a = Some s →
  TxStore.unconfirmedSequences s !! TxStore.Sequence u = Some u →
  let retryable := FailedResult.retryable
                     (FailedResult.classifyFailedTransactionResult (getResultXDR resp)) in
  let t0 := failed_tx resp t in
  let t1 := set_Attempt (uint64 (Attempt t0 + 1)) t0 in
  (∀ s' w', TxStore.Confirm (TxStore.Sequence u) (TxStore.Hash u) false s = Ok s' →
     (retryable = false ∧ ∃ now, sees (TxStore.Tx u) (ended now Failed t0) (<[a := s']> c) q w') ∨
     (retryable = true ∧ can_retry t1 q = true ∧
        sees (TxStore.Tx u) t1 (<[a := s']> c) (q ++ [TxStore.Tx u]) w') ∨
     (retryable = true ∧ can_retry t1 q = false ∧
        ∃ now, sees (TxStore.Tx u) (ended now Failed t1) (<[a := s']> c) q w') →
     Q tt w') →
  wp (on_failed cfg a u resp) w Q.
Proof.
  intros Hw Hs Hu retryable t0 t1 HQ. unfold on_failed. apply wp_bind.
  eapply wp_store_Confirm; [done..|]. intros s' w1 Hconf H1.
  apply wp_bind. eapply wp_write_tx; [done|]. intros w2 H2.
  apply wp_bind. eapply wp_write_tx; [done|]. intros w3 H3. apply wp_bind.
  apply (wp_mono _ _ _ (λ _ w', sees (TxStore.Tx u) t0 (<[a := s']> c) q w')).
  2:{ unfold updateTransactionLedgerCloseTime, t0, failed_tx.
      destruct (_ <=? 0); [done|]. by eapply wp_write_tx. }
  intros _ w4 H4. fold retryable. destruct retryable; cbn [negb].
  - apply wp_bind. eapply wp_write_tx; [done|]. fold t1. intros w5 H5.
    eapply (wp_retry_or_fail _ _ []); [done| |].
    + intros w6 E H6. apply (HQ s'); [done|]. right. by left.
    + intros w6 E H6. apply wp_bind. eapply wp_emit; [done|]. intros w7 H7.
      apply wp_bind. eapply wp_emit; [done|]. intros w8 H8.
      eapply wp_status_terminal; [done..|]. intros now w9 H9. apply (HQ s'); [done|].
      right; right. eauto.
  - apply wp_bind. eapply wp_emit; [done|]. intros w5 H5.
    eapply wp_status_terminal; [done..|]. intros now w6 H6. apply (HQ s'); [done|]. left. eauto.
Qed.

(** Whether a confirmation left the transaction in flight, ended it, or queued it again. *)
Definition check_outcome (a : string) (u : TxStore.UnconfirmedTx) (s : TxStore.TxStore)
    (pending : bool) (w : World) : Prop :=
  if pending then accountStore w !! a = Some s
  else
    (∃ s', accountStore w !! a = Some s' ∧
       TxStore.unconfirmedSequences s' = delete (TxStore.Sequence u) (TxStore.unconfirmedSequences s)) ∧
    (terminated (TxStore.Tx u) Finalized w ∨ terminated (TxStore.Tx u) Failed w ∨
     requeued (TxStore.Tx u) w).

Lemma Confirm_unconfirmed q h f s s' :
  TxStore.Confirm q h f s = Ok s' →
  TxStore.unconfirmedSequences s' = delete q (TxStore.unconfirmedSequences s).
Proof. intros (u & _ & _ & ->)%TxStoreFacts.Confirm_Ok. done. Qed.

Lemma wp_check_one client a u t c q s w :
  sees (TxStore.Tx u) t c q w → c !! a = Some s →
  TxStore.unconfirmedSequences s !! TxStore.Sequence u = Some u →
  wp (check_one cfg client a u) w (λ pending w', check_outcome a u s pending w').
Proof.
  intros Hw Hs Hu. unfold check_one. apply wp_bind. intros resp _. cbn [Prog.wp].
  assert (∀ s' f l' t' q' w', TxStore.Confirm (TxStore.Sequence u) (TxStore.Hash u) f s = Ok s' →
    sees l' t' (<[a := s']> c) q' w' →
    ∃ s', accountStore w' !! a = Some s' ∧ TxStore.unconfirmedSequences s' =
      delete (TxStore.Sequence u) (TxStore.unconfirmedSequences s)) as Hstore.
  { intros s' f l' t' q' w' Hconf [_ Hc' _ _]. exists s'. rewrite Hc', lookup_insert_eq.
    split; [done|]. by eapply Confirm_unconfirmed. }
  assert (wp (e ← expired cfg client u;
              if e : bool then on_expired cfg a u;; Ret false else Ret true) w
            (λ pending w', check_outcome a u s pending w')) as Hexp.
  { apply wp_bind. unfold expired. apply wp_bind. intros r _. apply wp_bind. intros now _.
    apply wp_bind. eapply wp_read_tx; [done|].
    assert (∀ e : bool, wp (if e then on_expired cfg a u;; Ret false else Ret true) w
              (λ pending w', check_outcome a u s pending w')) as He.
    { intros [].
      - apply wp_bind. eapply wp_on_expired; [done..|]. intros s' w' Hconf [[_ H']|(_ & now' & H')];
          (split; [by eapply Hstore|]).
        + right; right. exists q. apply H'.
        + right; left. by eapply ended_terminated.
      - cbn. destruct Hw as [_ Hc _ _]. by rewrite Hc. }
    destruct r; cbn [Prog.wp]; apply He. }
  destruct resp as [resp|e]; [|exact Hexp]. destruct (getStatus resp); [| |exact Hexp..].
  - apply wp_bind. eapply wp_on_success; [done..|]. intros now s' w' Hconf H'.
    split; [by eapply Hstore|]. left. by eapply ended_terminated.
  - apply wp_bind. eapply wp_on_failed; [done..|]. intros s' w' Hconf Hcases.
    split; [by destruct Hcases as [(_ & ? & ?)|[(_ & _ & ?)|(_ & _ & ? & ?)]]; eapply Hstore|].
    destruct Hcases as [(_ & ? & ?)|[(_ & _ & H')|(_ & _ & ? & ?)]].
    + right; left. by eapply ended_terminated.
    + right; right. exists q. apply H'.
    + right; left. by eapply ended_terminated.
Qed.
End outcome.
End TxmOutcome.
