(* ===== verification/Demo.v ===== *)
(** A small concrete SDK, configuration and world, with which the theorems that take the
    SDK as a parameter are instantiated. *)

From Stdlib Require Import SpecFloat.
From stdpp Require Import base gmap list strings pretty.
From S2P Require Import Prelude GoStrings Config Float Fee Prog Sdk TxStore Tx.
From S2P Require Import Txm Broadcast Confirm TxmSafe.

Module Demo.
Import Config Tx Txm TxmInv TxmSafe.
Local Open Scope Z_scope.

Record DemoTransaction := mkDemoTransaction {
  d_ops : list loc;
  d_account : SimpleAccount;
  d_timebounds : Z;
  d_fee : Z;
  d_signatures : list DecoratedSignature
}.

#[export] Instance demo_types : SdkTypes := {|
  HostFunction := string;
  AuthorizationEntry := string;
  OtherOperation := unit;
  SorobanRest := string;
  TimeBounds := Z;
  Transaction := DemoTransaction
|}.

(** A transaction needs an operation and the minimum fee. *)
Definition demo_new (p : TransactionParams) : result DemoTransaction :=
  match pOperations p with
  | [] => Err "transaction has no operations"
  | _ =>
      if BaseFee p <? MinBaseFee then Err "base fee cannot be lower than network minimum"
      else Ok (mkDemoTransaction (pOperations p).*1
        (mkSimpleAccount (AccountID (SourceAccount p))
          (if IncrementSequenceNum p then int64 (accSequence (SourceAccount p) + 1)
           else accSequence (SourceAccount p)))
        (pTimeBounds p)
        (BaseFee p * Z.of_nat (length (pOperations p)) +
          sum_list_with_Z (op_resource_fee ∘ snd) (pOperations p))
        [])
  end.

Definition demo_unmarshal {A} (a : A) (s : string) : result A :=
  if decide (s = "bad") then Err "xdr: cannot decode" else Ok a.

#[export] Instance demo_sdk : Sdk := {|
  NewTransaction := demo_new;
  tx_Operations := d_ops;
  tx_SourceAccount := d_account;
  tx_Timebounds := d_timebounds;
  tx_MaxFee := d_fee;
  tx_Base64 t := Ok (pretty (accSequence (d_account t)) +:+ "/" +:+ pretty (d_fee t));
  tx_Hash t _ := Ok "hash";
  AddSignatureDecorated t d :=
    Ok (mkDemoTransaction (d_ops t) (d_account t) (d_timebounds t) (d_fee t)
          (d_signatures t ++ [d]));
  AddressToAccountId s := if decide (s = "") then Err "empty" else Ok s;
  MarshalAccountKey s := Ok s;
  UnmarshalSorobanData := demo_unmarshal (mkSorobanData "footprint" 700);
  UnmarshalAuth s := demo_unmarshal s s;
  UnmarshalTransactionResult s :=
    demo_unmarshal (mkTransactionResult 12345
      (if decide (s = "bad_seq") then TxBadSeq
       else if decide (s = "fee") then TxInsufficientFee else TxOther 0) (Some [])) s;
  UnmarshalLedgerEntryData := demo_unmarshal (LedgerEntryAccount 41);
  TransactionResultCode_String _ := "code";
  OperationResultCode_String _ := "op";
  InvokeHostFunctionResultCode_String _ := "ihf";
  TransactionStatus_String _ := "status";
  SubmitStatus_String _ := "submit";
  RpcTxStatus_String _ := "rpc"
|}.

#[export] Instance demo_unicode : UnicodeTables :=
  {| unicode_ToLower s := s; unicode_Quote s := s |}.
#[export] Instance demo_float : FloatConv := {| f64_out_of_range _ := min_int64 |}.

#[export] Instance demo_laws : SdkLaws.
Proof.
  split; cbn; unfold demo_new.
  - intros p t. destruct (pOperations p) eqn:E; [done|]. destruct (_ <? _); [done|].
    by intros [= <-].
  - intros p t. destruct (pOperations p) eqn:E; [done|]. destruct (_ <? _); [done|].
    by intros [= <-].
  - intros p t. destruct (pOperations p) eqn:E; [done|]. destruct (_ <? _); [done|].
    by intros [= <-].
  - intros p t. destruct (pOperations p) eqn:E; [done|]. destruct (_ <? _); [done|].
    intros [= <-]. by cbn.
  - by intros t d t' [= <-].
  - by intros t d t' [= <-].
Qed.

(** The default configuration, resolved. *)
Definition demo_cfg : Resolved :=
  match deref_config (Resolve DefaultConfigSet) with
  | Some r => r
  | None => mkResolved 0 0 0 0 f64_1_5 0 0 0 0 0 0 0 0 0 0 0 [] [] 0 0
  end.

Definition demo_op : Operation := InvokeHostFunction "call" "GALICE" [] None.
Definition demo_world : World := upd_nextLoc (λ _, 2%positive) (upd_opheap (insert 1%positive demo_op) (empty_manager demo_cfg)).
Definition demo_req : TxRequest := mkTxRequest "tx-1" "GALICE" [1%positive] 0.

Definition demo_sim : SimulateTransactionResponse :=
  mkSimResponse "" "data" 5000 [mkSimResult None (Some ["auth"])] None.

(** An outside in which everything works: the node accepts, the ledger includes. *)
Definition demo_env : oracle (E := ext) := λ X n e,
  match e in ext X return X with
  | ENow => 1000 + Z.of_nat n
  | EUuid => "uuid"
  | EGetClient => Ok 0%nat
  | EGetFeeStats _ => Ok (150, 300)
  | EGetLatestLedger _ => Ok 900
  | ESimulateTransaction _ _ => Ok demo_sim
  | ESendTransaction _ x => Ok (mkSendResponse TXStatusPending x "")
  | EGetTransaction _ _ => Ok (mkGetTxResponse TransactionStatusSuccess "result" "meta" 77)
  | EGetLedgerEntries _ _ => Ok ["entry"]
  | EAccounts => Ok ["GALICE"]
  | ESign _ _ => Ok "signature"
  | ECtxErr => None
  | ESleep _ => None
  | ETick _ => true
  | EChoose => false
  | ENewTimeout secs => secs
  | EPolls _ _ => 3%nat
  | EMapOrder keys => keys
  | EWaitSelect => WaitDone
  end.

Lemma demo_inv : Inv demo_cfg demo_world.
Proof.
  constructor; cbn.
  - done.
  - constructor.
  - done.
  - done.
  - done.
  - done.
  - done.
  - done.
  - intros l [[t Ht]|[o Ho]]; [done|].
    apply lookup_insert_Some in Ho as [[<- _]|[_ Ho]]; [done|done].
Qed.

Lemma demo_poll : 0 < confirmPollInterval demo_cfg.
Proof. done. Qed.

(** One transaction from enqueue to confirmation, each goroutine in turn. *)
Definition demo_goroutines : list goroutine := [GEnqueue demo_req; GBroadcast 1 4; GConfirm 1].
Definition demo_run : World * list (prog World ext unit) * nat :=
  sched demo_env (replicate 40 0%nat ++ replicate 120 1%nat ++ replicate 120 2%nat)
    (demo_world, goroutine_prog demo_cfg "passphrase" <$> demo_goroutines, 0%nat).

Example demo_run_finalized :
  (λ t, (Status t, DoneClosed t, Fee t, TxHash t)) <$> (heap (fst (fst demo_run)) !! 2%positive)
  = Some (Finalized, true, Some 12345, "42/20150").
Proof. vm_compute. reflexivity. Qed.
End Demo.
