(* ===== verification/TxmProps.v ===== *)
(** The properties of the transaction manager. *)

From Stdlib Require Import Ascii SpecFloat.
From stdpp Require Import base gmap list relations strings pretty.
From S2P Require Import Prelude GoStrings Config Float Fee Prog Sdk TxStore Tx.
From S2P Require Import Txm Broadcast Confirm TxmSafe TxmProgress TxmOutcome Demo.

Module TxmProps.
Import Config Tx Txm Broadcast Confirm TxmInv TxmSafe TxmCalls TxmProgress TxmOutcome Demo.
Local Open Scope Z_scope.

(** An outside that answers anything, but does not cancel the context. *)
Definition not_cancelled `{SdkTypes} (env : oracle (E := ext)) : Prop :=
  ∀ X m (e : ext X), uncancelled X e (env X m e).

Section props.
Context {ST : SdkTypes} {SD : Sdk} {UT : UnicodeTables} {FC : FloatConv}.
Context (cfg : Resolved) (networkPassphrase : string).

(** C1. Any number of callers of Enqueue, EnqueueAndWait and Simulate, broadcast loops,
    confirm loops and prune loops, interleaved step by step in any order with any answers
    of the RPC nodes and the keystore, never panic (no nil pointer, no endless submit
    loop) and keep the manager consistent: every registered id leads to the transaction
    that bears it, the channel never exceeds its capacity and holds existing
    transactions, every store is well formed and its in-flight records are transactions
    of its own account, and a terminal transaction has the time of its end. Meanwhile a
    transaction's identity never changes, the time of its end is written once, a closed
    Done channel stays closed, and no account loses its store. *)
Theorem txm_interleavings_safe {SL : SdkLaws} gs w0 w ps :
  0 < confirmPollInterval cfg →
  Inv cfg w0 → Forall (λ g, goroutine_ok g w0) gs →
  reachable (w0, goroutine_prog cfg networkPassphrase <$> gs) (w, ps) →
  Inv cfg w ∧ Rel w0 w ∧ Forall (λ p, ∀ msg, p ≠ Panic msg) ps.
Proof. intros Hpoll. by apply goroutines_safe. Qed.

(** C2. A broadcast that runs alone and is not cancelled terminates without panicking in
    one of four ways: the transaction is in flight (Unconfirmed, recorded in its account's
    store under the hash the node returned); or it is Failed with its waiters released;
    or it waits in the channel for another broadcast; or, the one way a transaction is
    left with nobody in charge of it, the channel was full when it had to be queued again
    after no RPC client could be had. *)
Theorem broadcast_outcome_complete {SL : SdkLaws} l a st0 w env n :
  0 < confirmPollInterval cfg →
  has_tx l a w → status_is l st0 w → Inv cfg w → feeLock w = false → not_cancelled env →
  ∃ m w', run env (simulateAssembleSignAndSend cfg networkPassphrase l) n w = (Done tt, m, w') ∧
    broadcast_outcome cfg l a st0 w'.
Proof.
  intros Hpoll Hl Hst HI Hlock Henv.
  destruct (run_total uncancelled (simulateAssembleSignAndSend cfg networkPassphrase l) env n w
    (λ _ w', broadcast_outcome cfg l a st0 w') unlocked) as ([] & m & w' & Hr & Ho).
  - by apply wp_broadcast.
  - by apply nb_broadcast.
  - exact Henv.
  - by exists m, w'.
Qed.

(** C4. The poll of an in-flight transaction, alone, terminates, and either leaves it
    exactly as recorded, or removes its record and then ends it (Finalized or Failed, time
    set, waiters released) or queues it for another broadcast: it never drops one. *)
Theorem check_one_outcome client a u t c q s w env n :
  sees (TxStore.Tx u) t c q w → c !! a = Some s →
  TxStore.unconfirmedSequences s !! TxStore.Sequence u = Some u →
  feeLock w = false → not_cancelled env →
  ∃ pending m w', run env (check_one cfg client a u) n w = (Done pending, m, w') ∧
    check_outcome a u s pending w'.
Proof.
  intros Hw Hs Hu Hlock Henv. eapply run_total; [by eapply wp_check_one| |exact Henv].
  by apply nb_check_one.
Qed.

(** An expired transaction has its sequence recycled, its attempt counted, and is
    broadcast again exactly when attempts are left and the channel has room; otherwise it
    is Failed. *)
Theorem expired_is_retried_or_failed a u t c q s w env n :
  sees (TxStore.Tx u) t c q w → c !! a = Some s →
  TxStore.unconfirmedSequences s !! TxStore.Sequence u = Some u →
  feeLock w = false → not_cancelled env →
  let t1 := set_Attempt (uint64 (Attempt t + 1)) t in
  ∃ m w' s', run env (on_expired cfg a u) n w = (Done tt, m, w') ∧
    TxStore.Confirm (TxStore.Sequence u) (TxStore.Hash u) true s = Ok s' ∧
    accountStore w' = <[a := s']> c ∧
    if can_retry cfg t1 q
    then heap w' !! TxStore.Tx u = Some t1 ∧ broadcastChan w' = q ++ [TxStore.Tx u]
    else terminated (TxStore.Tx u) Failed w' ∧ broadcastChan w' = q.
Proof.
  intros Hw Hs Hu Hlock Henv t1.
  edestruct (run_total uncancelled (on_expired cfg a u) env n w (λ _ w', ∃ s',
    TxStore.Confirm (TxStore.Sequence u) (TxStore.Hash u) true s = Ok s' ∧
    accountStore w' = <[a := s']> c ∧
    if can_retry cfg t1 q
    then heap w' !! TxStore.Tx u = Some t1 ∧ broadcastChan w' = q ++ [TxStore.Tx u]
    else terminated (TxStore.Tx u) Failed w' ∧ broadcastChan w' = q) unlocked)
    as ([] & m & w' & Hr & s' & Ho); [|by apply nb_on_expired|exact Henv|by exists m, w', s'].
  eapply wp_on_expired; [done..|]. intros s' w' Hc [[E [H1 H2 H3 H4]]|[E (now & Hs')]];
    exists s'; fold t1 in E; rewrite E; (split; [done|]).
  - done.
  - split; [apply Hs'|]. split; [by eapply ended_terminated|apply Hs'].
Qed.

(** A transaction found SUCCESS ends Finalized with the fee the ledger charged in
    place of the estimate (when the result decodes), the result and close time of the
    response, no result code, its waiters released; its sequence is spent, not recycled. *)
Theorem success_finalizes a u resp t c q s w env n :
  sees (TxStore.Tx u) t c q w → c !! a = Some s →
  TxStore.unconfirmedSequences s !! TxStore.Sequence u = Some u →
  feeLock w = false → not_cancelled env →
  ∃ m w' t', run env (on_success cfg a u resp) n w = (Done tt, m, w') ∧
    heap w' !! TxStore.Tx u = Some t' ∧ terminated (TxStore.Tx u) Finalized w' ∧
    Fee t' = (match (if decide (getResultXDR resp = "") then Err ""
                     else UnmarshalTransactionResult (getResultXDR resp)) with
              | Ok r => Some (int64 (FeeCharged r))
              | Err _ => Fee t
              end) ∧
    ResultXDR t' = getResultXDR resp ∧ ResultCode t' = "" ∧
    LedgerCloseTime t' = (if getLedgerCloseTime resp <=? 0 then LedgerCloseTime t
                          else getLedgerCloseTime resp) ∧
    accountStore w' = <[a := TxStore.mkTxStore (TxStore.nextSequence s)
      (delete (TxStore.Sequence u) (TxStore.unconfirmedSequences s))
      (TxStore.failedSequences s) (TxStore.lastOnchainSequence s)]> c.
Proof.
  intros Hw Hs Hu Hlock Henv.
  destruct (run_total uncancelled (on_success cfg a u resp) env n w (λ _ w', ∃ now s',
    TxStore.Confirm (TxStore.Sequence u) (TxStore.Hash u) false s = Ok s' ∧
    sees (TxStore.Tx u) (confirmed_tx now resp t) (<[a := s']> c) q w') unlocked)
    as ([] & m & w' & Hr & now & s' & Hc & Hsees);
    [|by apply nb_on_success|exact Henv|].
  { eapply wp_on_success; [done..|]. eauto. }
  exists m, w', (confirmed_tx now resp t).
  split; [done|]. split; [apply Hsees|]. split; [by eapply ended_terminated|].
  apply TxStoreFacts.Confirm_Ok in Hc as (u' & Hu' & _ & ->).
  destruct Hsees as [_ Hst _ _]. rewrite Hst.
  unfold confirmed_tx, ended, mark_terminal. destruct t as [? ? ? ? ? ? ? ? [?|] ? ? ? ? ? ? ? ? ? ?];
    repeat (cbn; case_match); cbn; by split_and!.
Qed.

(** C6. Whatever the nodes answer and whatever other goroutines do in between, one
    broadcast of a transaction calls SendTransaction at most MaxSubmitRetryAttempts times
    for the transaction and MaxRestoreAttempts times for a footprint restore. *)
Theorem submissions_bounded l interf env t n w :
  (trace_cost send_cost
     (irun interf env (simulateAssembleSignAndSend cfg networkPassphrase l) t n w).1.2
   ≤ Z.to_nat (maxSubmitRetryAttempts cfg) + Z.to_nat (maxRestoreAttempts cfg))%nat.
Proof. eapply spend_irun. apply broadcast_spend. Qed.

(** C7. Every transaction a turn of the submit loop sends, the user's or the restore's,
    carries on the wire exactly the sequence number the turn took from the store, although
    the code hands the SDK the number minus one and lets it increment. *)
Theorem wire_sequence_is_reserved {SL : SdkLaws} client l a st interf env t n w :
  1 <= sSeq st → is_int64 (sSeq st) = true →
  Forall (λ c, sends_seq (sSeq st) _ (projT2 c))
    (irun interf env (submit_turn cfg networkPassphrase client l a st) t n w).1.2.
Proof. intros H1 H2. eapply sat_irun. by apply submit_turn_sends. Qed.

(** Dropping the head of the channel: what it leaves unchanged, and what it does to the
    dropped transaction when that is still registered. *)
Lemma wp_drop_oldest old told w (Q : unit → World → Prop) :
  heap w !! old = Some told →
  (∀ w', broadcastChan w' = broadcastChan w → chanClosed w' = chanClosed w →
     (∀ id l, l ≠ old → transactions w !! id = Some l → transactions w' !! id = Some l) →
     (transactions w !! ID told = Some old →
        terminated old Failed w' ∧
        ∃ told', heap w' !! old = Some told' ∧
          ResultCode told' = DropReason_text ChannelFullOldestEvicted) →
     Q tt w') →
  Prog.wp (E := ext) uncancelled (dropOldestForBackpressure cfg (Some old)) w Q.
Proof.
  intros Hold HQ. unfold dropOldestForBackpressure. apply wp_bind. cbn [Prog.wp atomic].
  unfold drop_section. rewrite Hold. case_decide as Hreg; cbn [fst snd negb].
  2:{ by apply HQ. }
  set (w1 := alter_tx old _ w).
  set (t1 := set_ResultCode (DropReason_text ChannelFullOldestEvicted) told).
  assert (heap w1 !! old = Some t1) as H1 by (unfold w1; cbn; by rewrite lookup_alter_eq, Hold).
  apply wp_bind. unfold updateTransactionStatus. apply wp_bind. intros now _. cbn [Prog.wp].
  apply wp_bind. cbn [Prog.wp modify fst snd].
  destruct (status_section_terminal cfg old Failed now w1 eq_refl) as (E1 & E2 & E3 & _).
  set (w2 := status_section cfg old Failed now w1) in *.
  destruct (status_section_rest cfg old Failed now w1) as [Hopen Htx]. fold w2 in Hopen, Htx.
  cbn [isTerminalStatus]. apply HQ; cbn; [by rewrite E3|done| |].
  - intros id l Hne Hl. apply (Htx t1); [done| |done]. intros ->. cbn in Hl. congruence.
  - intros _. assert (heap w2 !! old = Some (mark_terminal now Failed t1)) as H2.
    { by rewrite E1, lookup_alter_eq, H1. }
    destruct (ended_spec now Failed t1) as (Hs1 & Hs2 & Hs3 & Hs4).
    assert (alter (set_DoneClosed true) old (heap w2) !! old = Some (ended now Failed t1)) as H3.
    { by rewrite lookup_alter_eq, H2. }
    split; exists (ended now Failed t1); [by split_and!|]. by rewrite Hs4.
Qed.

(** What enqueueing transaction [t] at [l] does to the world. *)
Definition enqueue_effect (l : loc) (t : StellarTx) (w w' : World) : Prop :=
  match transactions w !! ID t with
  | Some _ => transactions w' = transactions w ∧ broadcastChan w' = broadcastChan w
  | None =>
      transactions w' !! ID t = Some l ∧
      if Z.of_nat (length (broadcastChan w)) <? broadcastChanSize cfg
      then broadcastChan w' = broadcastChan w ++ [l]
      else ∃ old q, broadcastChan w = old :: q ∧ broadcastChan w' = q ++ [l] ∧
        ∀ told, heap w !! old = Some told → transactions w !! ID told = Some old →
          terminated old Failed w' ∧
          ∃ told', heap w' !! old = Some told' ∧
            ResultCode told' = DropReason_text ChannelFullOldestEvicted
  end.

Lemma wp_enqueue l t w :
  heap w !! l = Some t → Inv cfg w → 1 <= broadcastChanSize cfg → l ∉ broadcastChan w →
  Prog.wp (E := ext) uncancelled (enqueueTransaction cfg l) w
    (λ r w', r = Ok (ID t) ∧ enqueue_effect l t w w').
Proof.
  intros Hl HI Hcap Hnotin. unfold enqueueTransaction, read_tx, enqueue_effect.
  apply wp_bind, wp_bind. cbn [Prog.wp gets fst snd].
  rewrite Hl. cbn [Prog.wp]. apply wp_bind. cbn [Prog.wp atomic]. unfold register_section.
  destruct (transactions w !! ID t) as [l'|] eqn:Eid; cbn [fst snd].
  { apply wp_bind. by cbn. }
  unfold try_send. apply wp_bind, wp_bind. cbn [Prog.wp atomic].
  set (w1 := upd_transactions (insert (ID t) l) w).
  change (chanClosed w1) with (chanClosed w). rewrite (inv_open _ _ HI).
  change (broadcastChan w1) with (broadcastChan w).
  destruct (Z.ltb_spec (Z.of_nat (length (broadcastChan w))) (broadcastChanSize cfg)) as [Hlt|Hge].
  { cbn. split; [done|]. by rewrite lookup_insert_eq. }
  cbn [fst snd Prog.wp]. apply wp_bind. unfold try_recv. cbn [Prog.wp atomic].
  change (broadcastChan w1) with (broadcastChan w).
  destruct (broadcastChan w) as [|old q] eqn:Eq; [cbn in Hge; lia|]. cbn [fst snd].
  pose proof (inv_chan _ _ HI) as Hchan. rewrite Eq in Hchan.
  apply Forall_cons in Hchan as [[told Hold] _].
  apply wp_bind. eapply wp_drop_oldest; [exact Hold|].
  intros w2 Hq Hopen Htx Hdrop. cbn in Hq, Hopen.
  apply wp_bind, wp_bind. cbn [Prog.wp atomic].
  rewrite Hopen, (inv_open _ _ HI), Hq.
  pose proof (inv_cap _ _ HI) as Hcap'. rewrite Eq in Hcap'. cbn in Hcap'.
  destruct (Z.ltb_spec (Z.of_nat (length q)) (broadcastChanSize cfg)); [|lia].
  cbn. split; [done|]. assert (l ≠ old) as Hne.
  { intros ->. apply Hnotin. by left. }
  split; [apply Htx; [done|]; cbn; by rewrite lookup_insert_eq|].
  exists old, q. split_and!; [done|by rewrite Hq|]. intros told' Htold' Hreg.
  rewrite Hold in Htold'. injection Htold' as <-.
  destruct Hdrop as [(td & ? & ?) (td' & ? & ?)].
  { cbn. rewrite lookup_insert_ne; [done|]. congruence. }
  split; [by exists td|by exists td'].
Qed.

(** Enqueueing is idempotent in the id: when the id is registered the caller gets it
    back and neither the map nor the channel changes; otherwise the transaction is
    registered and becomes the last of the channel, and if the channel was full its head
    leaves it, Failed with the eviction as its result code and its waiters released when
    it is still the registered owner of its id. The caller is never refused. *)
Theorem enqueue_registers_or_evicts l t w env n :
  heap w !! l = Some t → Inv cfg w → 1 <= broadcastChanSize cfg → l ∉ broadcastChan w →
  feeLock w = false → not_cancelled env →
  ∃ m w', run env (enqueueTransaction cfg l) n w = (Done (Ok (ID t)), m, w') ∧
    enqueue_effect l t w w'.
Proof.
  intros Hl HI Hcap Hnotin Hlock Henv.
  destruct (run_total uncancelled (enqueueTransaction cfg l) env n w
    (λ r w', r = Ok (ID t) ∧ enqueue_effect l t w w') unlocked) as (x & m & w' & Hr & -> & Ho);
    [by apply wp_enqueue|by apply nb_enqueueTransaction|exact Henv|].
  by exists m, w'.
Qed.

(** The prune scan removes exactly the transactions in a terminal status whose end is
    at least the retention period ago: one in flight is never touched, however old. With
    pruning off, entering a terminal status removes the transaction in the same critical
    section. *)
Theorem prune_exact now w :
  Inv cfg w →
  (∀ id l, transactions (prune_section cfg now w) !! id = Some l ↔
     transactions w !! id = Some l ∧
     ∀ t e, heap w !! l = Some t → (Status t = Finalized ∨ Status t = Failed) →
       TerminalTime t = Some e → now - e < pruneTxExpiration cfg) ∧
  (pruneInterval cfg <= 0 → ∀ l t st, heap w !! l = Some t → isTerminalStatus st = true →
     transactions (status_section cfg l st now w) = delete (ID t) (transactions w)).
Proof.
  intros HI. split.
  - intros id l. cbn. rewrite map_lookup_filter_Some. apply and_iff_compat_l.
    assert (∀ st, isTerminalStatus st = true ↔ st = Finalized ∨ st = Failed) as Hterm.
    { intros st. unfold isTerminalStatus. by rewrite orb_true_iff, !bool_decide_eq_true. }
    destruct (heap w !! l) as [t|] eqn:Hl; [|naive_solver]. unfold terminalPastRetention.
    destruct (isTerminalStatus (Status t)) eqn:Et; cbn.
    + apply Hterm in Et. destruct (TerminalTime t) as [e|] eqn:Ee.
      * rewrite Z.leb_gt. split; [intros ? t' e' [= <-] _ ?; congruence|]. intros Hall. by eapply Hall.
      * split; [|done]. intros _ t' e [= <-] _ ?. congruence.
    + split; [|done]. intros _ t' e [= <-] Hst. apply Hterm in Hst. congruence.
  - intros Hp l t st Hl Hst. unfold status_section, maybeEvictTerminalTx. rewrite Hst.
    destruct (Z.ltb_spec 0 (pruneInterval cfg)); [lia|]. cbn.
    rewrite !lookup_alter_eq, Hl. cbn.
    by destruct t as [? ? ? ? ? ? ? ? [?|] ? ? ? ? ? ? ? ? ? ?].
Qed.

(** The operation of an invocation once the simulation is applied to it. *)
Definition simulated_op (sim : SimulateTransactionResponse) (hf : HostFunction) (src : string)
    (auth : list AuthorizationEntry) (D : SorobanTransactionData) (o : Operation) : Prop :=
  ∃ auth', o = InvokeHostFunction hf src auth' (Some D) ∧
    if decide (sim_auths sim = []) then auth' = auth else decode_auths (sim_auths sim) = Ok auth'.

Lemma wp_apply_simulation op0 hf src auth ext0 d sim w :
  opheap w !! op0 = Some (InvokeHostFunction hf src auth ext0) →
  TransactionDataXDR sim ≠ "" → UnmarshalSorobanData (TransactionDataXDR sim) = Ok d →
  let fee := int64 (simMinResourceFee sim + resourceFeeBuffer cfg) in
  Prog.wp (E := ext) uncancelled (apply_simulation cfg op0 sim) w (λ r w', ∀ f, r = Ok f →
    f = fee ∧ ∃ o, opheap w' !! op0 = Some o ∧
      simulated_op sim hf src auth (mkSorobanData (sdRest d) fee) o).
Proof.
  intros Hop Hx Hd fee. unfold apply_simulation. rewrite decide_False, Hd by done.
  apply wp_bind. cbn [Prog.wp gets fst snd]. rewrite Hop.
  apply wp_bind. cbn [Prog.wp write_op modify fst snd].
  set (D := mkSorobanData _ _). unfold simulated_op.
  destruct (sim_auths sim) as [|a auths] eqn:Ea.
  { cbn. intros f [= <-]. split; [done|]. rewrite lookup_alter_eq, Hop. cbn.
    eexists. split; [done|]. by exists auth. }
  destruct (decode_auths (a :: auths)) as [auth'|e] eqn:Edec; [|done].
  apply wp_bind. cbn. intros f [= <-]. split; [done|]. rewrite !lookup_alter_eq, Hop. cbn.
  eexists. split; [done|]. by exists auth'.
Qed.

(** The envelope is charged the resource fee once: the assembled transaction of an
    invocation carries the simulation's footprint with the minimum resource fee plus the
    buffer, its total fee is the inclusion fee plus that amount, the fee reported for the
    transaction is that total, and its sequence is the simulated one's. *)
Theorem resource_fee_counted_once {SL : SdkLaws} tx op0 hf src auth ext0 d sim fee m env n w :
  tx_Operations tx = [op0] →
  opheap w !! op0 = Some (InvokeHostFunction hf src auth ext0) →
  TransactionDataXDR sim ≠ "" → UnmarshalSorobanData (TransactionDataXDR sim) = Ok d →
  feeLock w = false → not_cancelled env →
  let resourceFee := int64 (simMinResourceFee sim + resourceFeeBuffer cfg) in
  ∃ r k w', run env (assembleTransaction cfg (Some tx) sim fee m) n w = (Done r, k, w') ∧
    ∀ t total, r = Ok (t, total) →
      tx_MaxFee t = fee + resourceFee ∧ total = int64 (tx_MaxFee t) ∧
      wire_seq t = wire_seq tx ∧
      ∃ o, opheap w' !! op0 = Some o ∧
        simulated_op sim hf src auth (mkSorobanData (sdRest d) resourceFee) o.
Proof.
  intros Hops Hop Hx Hd Hlock Henv resourceFee.
  eapply run_total; [|by apply nb_assembleTransaction|exact Henv].
  unfold assembleTransaction. rewrite Hops. apply wp_bind.
  eapply wp_mono; [|by eapply wp_apply_simulation]. cbn beta. intros [f|e] w1 Hf; [|done].
  destruct (Hf f eq_refl) as (-> & o & Ho & auth' & -> & Hauth). fold resourceFee in Ho.
  unfold read_ops. apply wp_bind, wp_bind. cbn [Prog.wp gets fst snd mapM].
  cbn -[lookup]. rewrite Ho. cbn -[lookup].
  destruct (NewTransaction _) as [t|e] eqn:En; cbn -[lookup]; [|done].
  intros t' total [= <- <-]. pose proof (new_fee _ _ En) as Hfee.
  pose proof (new_account _ _ En) as Hacc. cbn in Hfee, Hacc.
  split_and!.
  - rewrite Hfee. lia.
  - f_equal. rewrite Hfee. fold resourceFee. lia.
  - unfold wire_seq. by rewrite Hacc.
  - eexists. split; [exact Ho|]. by exists auth'.
Qed.

(** A failed simulation is retried exactly when its message, lower-cased, contains no
    terminal hint and contains a retryable hint: terminal hints win, and a message with
    no hint is not retried. Hints are compared as they are written, so, for a message in
    ASCII, a hint with a capital letter never matches. *)
Theorem simulation_retry_decision terminal retryable text :
  (retryable_message terminal retryable text = true ↔
     (∀ h, h ∈ terminal → Contains (ToLower text) h = false) ∧
     ∃ h, h ∈ retryable ∧ Contains (ToLower text) h = true) ∧
  (string_forall is_ascii_byte text = true →
     ∀ h a c b, h = a +:+ String c b → (65 <= N_of_ascii c <= 90)%N →
     Contains (ToLower text) h = false).
Proof.
  split.
  - unfold retryable_message. destruct (contains_any (ToLower text) terminal) eqn:Et.
    + apply contains_any_spec in Et as (h & Hin & Hc). split; [done|].
      intros [Hall _]. specialize (Hall h Hin). congruence.
    + rewrite contains_any_spec. split; [|by intros [_ ?]]. intros Hr. split; [|done].
      intros h Hin. apply not_true_is_false. intros Hc.
      assert (contains_any (ToLower text) terminal = true) by (apply contains_any_spec; eauto).
      congruence.
  - intros Hascii h a c b -> Hc. apply not_true_is_false. intros Hcont.
    apply Contains_spec in Hcont as (x & y & E).
    pose proof (ToLower_no_upper text Hascii) as Hlow.
    rewrite E, !string_forall_app in Hlow. cbn [string_forall] in Hlow.
    rewrite !andb_true_iff in Hlow. destruct Hlow as (_ & (_ & Hup & _) & _).
    unfold not_upper in Hup.
    rewrite (proj2 (N.leb_le 65 _)), (proj2 (N.leb_le _ 90)) in Hup by lia. done.
Qed.

(** The answers of an outside where no RPC client is available and nothing is cancelled. *)
Definition client_down (X : Type) (e : ext X) : X → Prop :=
  match e in ext X return X → Prop with
  | EGetClient => λ r, ∃ err, r = Err err
  | ESleep _ => λ r, r = None
  | _ => λ _, True
  end.

(** When no RPC client can be had and the channel is full at the end of the back-off,
    the transaction is left with nobody in charge of it although attempts remain: it keeps
    its status, its waiters stay blocked, it is in no queue, and only a metric tells. *)
Theorem client_failure_can_strand l t env n w :
  heap w !! l = Some t → Inv cfg w → feeLock w = false →
  (∀ X m (e : ext X), client_down X e (env X m e)) →
  uint64 (InfraAttempts t + 1) < maxGetClientRetryAttempts cfg →
  broadcastChanSize cfg <= Z.of_nat (length (broadcastChan w)) →
  ∃ m w', run env (simulateAssembleSignAndSend cfg networkPassphrase l) n w = (Done tt, m, w') ∧
    heap w' !! l = Some (set_InfraAttempts (uint64 (InfraAttempts t + 1)) t) ∧
    broadcastChan w' = broadcastChan w ∧ transactions w' = transactions w ∧
    accountStore w' = accountStore w ∧
    metrics w' = metrics w ++ [IncrementDroppedTxs ChannelFullNewRejected].
Proof.
  intros Hl HI Hlock Henv Hatt Hfull.
  destruct (run_total client_down (simulateAssembleSignAndSend cfg networkPassphrase l) env n w
    (λ _ w', heap w' !! l = Some (set_InfraAttempts (uint64 (InfraAttempts t + 1)) t) ∧
      broadcastChan w' = broadcastChan w ∧ transactions w' = transactions w ∧
      accountStore w' = accountStore w ∧
      metrics w' = metrics w ++ [IncrementDroppedTxs ChannelFullNewRejected]) unlocked)
    as ([] & m & w' & Hr & Ho); [|by apply nb_broadcast|done|by exists m, w'].
  unfold simulateAssembleSignAndSend. apply wp_bind. intros r [err ->]. cbn [Prog.wp].
  unfold retryGetClientOrFail, incrementInfraAttempts, write_tx.
  apply wp_bind. cbn [Prog.wp modify fst snd]. set (w1 := alter_tx l _ w).
  set (t1 := set_InfraAttempts (uint64 (InfraAttempts t + 1)) t).
  assert (heap w1 !! l = Some t1) as Ht1 by (unfold w1; cbn; by rewrite lookup_alter_eq, Hl).
  unfold getInfraAttempts, read_tx. apply wp_bind, wp_bind, wp_bind. cbn [Prog.wp gets fst snd].
  rewrite Ht1. cbn [Prog.wp]. change (InfraAttempts t1) with (uint64 (InfraAttempts t + 1)).
  rewrite (proj2 (Z.ltb_lt _ _)) by done.
  unfold sleep_retry_delay. apply wp_bind. intros x ->. cbn [Prog.wp].
  unfold try_send. apply wp_bind, wp_bind. cbn [Prog.wp atomic].
  change (chanClosed w1) with (chanClosed w). change (broadcastChan w1) with (broadcastChan w).
  rewrite (inv_open _ _ HI), (proj2 (Z.ltb_ge _ _)) by done. cbn. by split_and!.
Qed.
End props.

(** The order of two updates is lost between the loops: once the broadcaster has put
    the transaction in its store, the confirm loop can finalize it before the broadcaster
    sets its status. The status then goes back from Finalized to Unconfirmed, after the
    waiters were released, and for good: no store and no queue holds the transaction, and
    the prune scan, which looks at the status, keeps it. *)
Theorem finalized_status_overwritten :
  ∃ w ps, reachable (demo_world, goroutine_prog demo_cfg "passphrase" <$> demo_goroutines) (w, ps) ∧
    ps = replicate 3 (Ret tt) ∧
    (λ t, (Status t, DoneClosed t, bool_decide (is_Some (TerminalTime t))))
      <$> (heap w !! 2%positive) = Some (Unconfirmed, true, true) ∧
    broadcastChan w = [] ∧
    (λ s, bool_decide (TxStore.unconfirmedSequences s = ∅)) <$> (accountStore w !! "GALICE") = Some true ∧
    transactions w !! "tx-1" = Some 2%positive.
Proof.
  set (c := sched demo_env (replicate 40 0%nat ++ replicate 45 1%nat ++ replicate 120 2%nat ++
              replicate 120 1%nat)
    (demo_world, goroutine_prog demo_cfg "passphrase" <$> demo_goroutines, 0%nat)).
  exists (fst (fst c)), (snd (fst c)). split; [apply sched_reachable|].
  split_and!; vm_compute; reflexivity.
Qed.

(** Closing the manager closes the channel that Enqueue sends on: a call that comes
    after Close panics, having registered its transaction. *)
Theorem enqueue_after_close_panics :
  ∃ n w', run demo_env (Enqueue demo_cfg demo_req) 0 (upd_chanClosed (λ _, true) demo_world)
      = (Panicked "send on closed channel", n, w') ∧
    transactions w' !! "tx-1" = Some 2%positive.
Proof.
  destruct (run demo_env (Enqueue demo_cfg demo_req) 0 (upd_chanClosed (λ _, true) demo_world))
    as [[o n] w'] eqn:E.
  exists n, w'. revert E. vm_compute. intros [= <- <- <-]. done.
Qed.

(** ** Witnesses: the theorems at the moments of a concrete execution *)

Lemma demo_goroutines_ok : Forall (λ g, goroutine_ok g demo_world) demo_goroutines.
Proof.
  assert (has_ops [1%positive] demo_world).
  { constructor; [|constructor]. cbn. by eexists. }
  repeat constructor; done.
Qed.

(** The world after a schedule of the demonstration's goroutines. *)
Definition demo_at (sch : list nat) : World * list (prog World ext unit) :=
  fst (sched demo_env sch
    (demo_world, goroutine_prog demo_cfg "passphrase" <$> demo_goroutines, 0%nat)).
Definition demo_alloc : World := fst (demo_at (replicate 2 0%nat)).
Definition demo_queued : World := fst (demo_at (replicate 40 0%nat)).
Definition demo_sent : World := fst (demo_at (replicate 40 0%nat ++ replicate 120 1%nat)).

Lemma demo_at_inv sch : Inv demo_cfg (fst (demo_at sch)).
Proof.
  apply (goroutines_safe demo_cfg "passphrase" demo_poll demo_goroutines demo_world _ (snd (demo_at sch)));
    [apply demo_inv|apply demo_goroutines_ok|]. unfold demo_at.
  pose proof (sched_reachable demo_env sch demo_world
    (goroutine_prog demo_cfg "passphrase" <$> demo_goroutines) 0%nat) as Hr.
  cbn zeta in Hr. by destruct (sched _ _ _) as [[w ps] n].
Qed.

Lemma demo_not_cancelled : not_cancelled demo_env.
Proof. intros X m e. by destruct e. Qed.

Lemma txm_interleavings_safe_witness :
  Inv demo_cfg demo_sent ∧ Rel demo_world demo_sent ∧
  Forall (λ p, ∀ msg, p ≠ Panic msg) (snd (demo_at (replicate 40 0%nat ++ replicate 120 1%nat))).
Proof.
  apply (txm_interleavings_safe demo_cfg "passphrase" demo_goroutines demo_world);
    [done|apply demo_inv|apply demo_goroutines_ok|].
  unfold demo_sent, demo_at.
  pose proof (sched_reachable demo_env (replicate 40 0%nat ++ replicate 120 1%nat) demo_world
    (goroutine_prog demo_cfg "passphrase" <$> demo_goroutines) 0%nat) as Hr.
  cbn zeta in Hr. by destruct (sched _ _ _) as [[w ps] n].
Defined.

Lemma broadcast_outcome_complete_witness :
  ∃ m w', run demo_env (simulateAssembleSignAndSend demo_cfg "passphrase" 2%positive) 0 demo_queued
      = (Done tt, m, w') ∧
    broadcast_outcome demo_cfg 2%positive "GALICE" Pending w'.
Proof.
  apply (broadcast_outcome_complete demo_cfg "passphrase"); [apply demo_poll| | |apply demo_at_inv|by vm_compute|apply demo_not_cancelled].
  - eexists. split; [by vm_compute|reflexivity].
  - eexists. split; [by vm_compute|reflexivity].
Defined.

(** The transaction once sent, its store and its record. *)
Definition demo_tx : StellarTx :=
  match heap demo_sent !! 2%positive with
  | Some t => t | None => new_tx "" 0 "" demo_req end.
Definition demo_utx : TxStore.UnconfirmedTx := TxStore.mkUnconfirmedTx 42 "42/20150" 950 2%positive.
Definition demo_store : TxStore.TxStore :=
  default (TxStore.NewTxStore 0) (accountStore demo_sent !! "GALICE").

Lemma demo_sees : sees (TxStore.Tx demo_utx) demo_tx (accountStore demo_sent) [] demo_sent.
Proof. constructor; vm_compute; reflexivity. Qed.
Lemma demo_store_lookup : accountStore demo_sent !! "GALICE" = Some demo_store.
Proof. vm_compute. reflexivity. Qed.
Lemma demo_recorded :
  TxStore.unconfirmedSequences demo_store !! TxStore.Sequence demo_utx = Some demo_utx.
Proof. vm_compute. reflexivity. Qed.

Lemma check_one_outcome_witness :
  ∃ pending m w', run demo_env (check_one demo_cfg 0%nat "GALICE" demo_utx) 0 demo_sent
      = (Done pending, m, w') ∧ check_outcome "GALICE" demo_utx demo_store pending w'.
Proof.
  apply (check_one_outcome demo_cfg 0%nat "GALICE" demo_utx demo_tx (accountStore demo_sent) []);
    [apply demo_sees|apply demo_store_lookup|apply demo_recorded|by vm_compute|
     apply demo_not_cancelled].
Defined.

Lemma expired_is_retried_or_failed_witness :
  ∃ m w' s', run demo_env (on_expired demo_cfg "GALICE" demo_utx) 0 demo_sent = (Done tt, m, w') ∧
    TxStore.Confirm 42 "42/20150" true demo_store = Ok s' ∧
    accountStore w' = <["GALICE" := s']> (accountStore demo_sent) ∧
    if can_retry demo_cfg (set_Attempt (uint64 (Attempt demo_tx + 1)) demo_tx) []
    then heap w' !! 2%positive = Some (set_Attempt (uint64 (Attempt demo_tx + 1)) demo_tx) ∧
         broadcastChan w' = [2%positive]
    else terminated 2%positive Failed w' ∧ broadcastChan w' = [].
Proof.
  apply (expired_is_retried_or_failed demo_cfg "GALICE" demo_utx demo_tx (accountStore demo_sent) []);
    [apply demo_sees|apply demo_store_lookup|apply demo_recorded|by vm_compute|
     apply demo_not_cancelled].
Defined.

Definition demo_resp : GetTransactionResponse :=
  mkGetTxResponse TransactionStatusSuccess "result" "meta" 77.

Lemma success_finalizes_witness :
  ∃ m w' t', run demo_env (on_success demo_cfg "GALICE" demo_utx demo_resp) 0 demo_sent
      = (Done tt, m, w') ∧
    heap w' !! 2%positive = Some t' ∧ terminated 2%positive Finalized w' ∧
    Fee t' = Some 12345 ∧ ResultXDR t' = "result" ∧ ResultCode t' = "" ∧ LedgerCloseTime t' = 77.
Proof.
  destruct (success_finalizes demo_cfg "GALICE" demo_utx demo_resp demo_tx
    (accountStore demo_sent) [] demo_store demo_sent demo_env 0)
    as (m & w' & t' & H1 & H2 & H3 & H4 & H5 & H6 & H7 & _);
    [apply demo_sees|apply demo_store_lookup|apply demo_recorded|by vm_compute|
     apply demo_not_cancelled|].
  exists m, w', t'. cbn in H4. by split_and!.
Defined.

Lemma wire_sequence_is_reserved_witness :
  Forall (λ c, sends_seq 42 _ (projT2 c))
    (irun (λ _ w, w) demo_env (submit_turn demo_cfg "passphrase" 0%nat 2%positive "GALICE"
       (mkSubmitState 0 42 150 false)) 0 0 demo_queued).1.2.
Proof.
  apply (wire_sequence_is_reserved demo_cfg "passphrase" 0%nat 2%positive "GALICE"
    (mkSubmitState 0 42 150 false)); [cbn; lia|done].
Defined.

Lemma enqueue_registers_or_evicts_witness :
  ∃ m w', run demo_env (enqueueTransaction demo_cfg 2%positive) 0 demo_alloc
      = (Done (Ok "tx-1"), m, w') ∧
    enqueue_effect demo_cfg 2%positive (new_tx "tx-1" 1000 "GALICE" demo_req) demo_alloc w'.
Proof.
  apply (enqueue_registers_or_evicts demo_cfg 2%positive (new_tx "tx-1" 1000 "GALICE" demo_req));
    [by vm_compute|apply demo_at_inv|done| |by vm_compute|apply demo_not_cancelled].
  assert (broadcastChan demo_alloc = []) as -> by (by vm_compute). apply not_elem_of_nil.
Defined.

Lemma prune_exact_witness :
  transactions (prune_section demo_cfg 5000 demo_sent) !! "tx-1" = Some 2%positive.
Proof.
  apply (proj1 (prune_exact demo_cfg 5000 demo_sent (demo_at_inv _))). split; [by vm_compute|].
  intros t e Ht [Hs|Hs]; exfalso; revert Ht Hs; vm_compute; by intros [= <-].
Defined.

Lemma resource_fee_counted_once_witness :
  ∃ r k w', run demo_env (assembleTransaction demo_cfg
      (Some (mkDemoTransaction [1%positive] (mkSimpleAccount "GALICE" 42) 300 100 []))
      demo_sim 150 950) 0 demo_queued = (Done r, k, w') ∧
    ∀ t total, r = Ok (t, total) → tx_MaxFee t = 150 + 20000 ∧ total = 20150.
Proof.
  destruct (resource_fee_counted_once (ST := demo_types) demo_cfg
    (mkDemoTransaction [1%positive] (mkSimpleAccount "GALICE" 42) 300 100 []) 1%positive
    "call" "GALICE" [] None (mkSorobanData (ST := demo_types) "footprint" 700) demo_sim 150 950 demo_env 0 demo_queued)
    as (r & k & w' & H1 & H2);
    [done|by vm_compute|done|done|by vm_compute|apply demo_not_cancelled|].
  exists r, k, w'. split; [exact H1|]. intros t total Hr.
  destruct (H2 t total Hr) as (Hf & Ht & _). rewrite Hf in Ht. split; [exact Hf|]. by rewrite Ht.
Defined.

Lemma simulation_retry_decision_witness :
  Contains (ToLower "Connection TIMEOUT") "Timeout" = false.
Proof.
  apply (proj2 (simulation_retry_decision [] [] "Connection TIMEOUT")) with (a := "") (c := "T"%char)
    (b := "imeout"); [reflexivity|reflexivity|vm_compute; split; discriminate].
Defined.

(** The broadcaster has taken the first transaction when a second one fills a channel of
    size one. *)
Definition small_cfg : Resolved :=
  match deref_config (Resolve (mkConfig (Some 1) None None None None None None None None None
    None None None None None None [] [] None None)) with
  | Some r => r
  | None => demo_cfg
  end.
Definition down_env : oracle (E := ext) := λ X n e,
  match e in ext X return X with EGetClient => Err "no live nodes" | e' => demo_env _ n e' end.
Definition small_goroutines : list goroutine :=
  [GEnqueue demo_req; GBroadcast 1 0; GEnqueue (mkTxRequest "tx-2" "GALICE" [1%positive] 0)].
Definition small_run : World * list (prog World ext unit) :=
  fst (sched down_env (replicate 40 0%nat ++ replicate 5 1%nat ++ replicate 40 2%nat)
    (demo_world, goroutine_prog small_cfg "passphrase" <$> small_goroutines, 0%nat)).

Lemma small_inv : Inv small_cfg (fst small_run).
Proof.
  apply (goroutines_safe small_cfg "passphrase" ltac:(done) small_goroutines demo_world _ (snd small_run)).
  - destruct demo_inv. by constructor.
  - assert (has_ops [1%positive] demo_world).
    { constructor; [|constructor]. cbn. by eexists. }
    repeat constructor; done.
  - unfold small_run.
    pose proof (sched_reachable down_env (replicate 40 0%nat ++ replicate 5 1%nat ++ replicate 40 2%nat)
      demo_world (goroutine_prog small_cfg "passphrase" <$> small_goroutines) 0%nat) as Hr.
    cbn zeta in Hr. by destruct (sched _ _ _) as [[w ps] n].
Qed.

Lemma client_failure_can_strand_witness :
  ∃ t m w', run down_env (simulateAssembleSignAndSend small_cfg "passphrase" 2%positive) 0
      (fst small_run) = (Done tt, m, w') ∧
    heap w' !! 2%positive = Some t ∧ Status t = Pending ∧ DoneClosed t = false ∧
    broadcastChan w' = [3%positive].
Proof.
  destruct (client_failure_can_strand small_cfg "passphrase" 2%positive
    (new_tx "tx-1" 1000 "GALICE" demo_req) down_env 0 (fst small_run))
    as (m & w' & H1 & H2 & H3 & _);
    [by vm_compute|apply small_inv|by vm_compute| |by vm_compute|by vm_compute|].
  { intros X k e. destruct e; cbn; try done. by eexists. }
  eexists _, m, w'. split; [exact H1|]. split; [exact H2|]. split_and!; [done|done|].
  rewrite H3. by vm_compute.
Defined.
End TxmProps.
