(* ===== verification/Xdr.v ===== *)
(** Soroban values as the Go code sees them, shared by the conversions of
    [bindings/scval] and of the relayer.

    [gres] is a Go call that returns a value, an error or panics.  Module [Xdr] has the
    structs of the Stellar SDK's xdr package (a union is an inductive type; the pointer of
    the selected arm is an [option]) with the generated accessors the code calls; class
    [XdrSdk] has the functions of xdr and strkey as parameters, and [XdrLaws] their
    documented behaviour.  Module [Domain] has the structs of
    chainlink-common/pkg/types/chains/stellar. *)

From Stdlib Require Import Ascii.
From Stdlib Require Import Strings.Byte.
From stdpp Require Import base gmap list strings pretty.
From S2P Require Import Prelude.

Local Open Scope Z_scope.
Set Warnings "-register-all".

(** ** Results that may also be panics *)

Inductive gres (A : Type) : Type :=
| GVal (a : A)
| GErr (e : string)
| GPanic (msg : string).
Arguments GVal {A} a.
Arguments GErr {A} e.
Arguments GPanic {A} msg.

#[export] Instance gres_ret : MRet gres := @GVal.
#[export] Instance gres_bind : MBind gres := λ A B f m,
  match m with GVal a => f a | GErr e => GErr e | GPanic p => GPanic p end.
#[export] Instance gres_fmap : FMap gres := λ A B f m,
  match m with GVal a => GVal (f a) | GErr e => GErr e | GPanic p => GPanic p end.

Definition of_result {A} (r : result A) : gres A :=
  match r with Ok a => GVal a | Err e => GErr e end.

(** [fmt.Errorf("<ctx>: %w", err)]. *)
Definition gwrap {A} (ctx : string) (m : gres A) : gres A :=
  match m with GErr e => GErr (ctx +:+ ": " +:+ e) | _ => m end.

(** A [for i, x := range l] loop that builds a slice and returns on the first error. *)
Section gimapM.
Context {A B : Type} (f : nat → A → gres B).
Fixpoint gimapM_from (i : nat) (l : list A) : gres (list B) :=
  match l with
  | [] => GVal []
  | x :: l' => y ← f i x; ys ← gimapM_from (S i) l'; GVal (y :: ys)
  end.
Definition gimapM (l : list A) : gres (list B) := gimapM_from 0 l.
End gimapM.

(** Reading through a pointer. *)
Definition deref {A} (p : option A) : gres A :=
  match p with
  | Some a => GVal a
  | None => GPanic "invalid memory address or nil pointer dereference"
  end.

(** A pointer the code tests for nil, with the error of the nil case. *)
Definition nonnil {A} (e : string) (p : option A) : gres A :=
  match p with Some a => GVal a | None => GErr e end.

(** A byte slice. A nil slice and an empty one are the same [bytes]: the code never
    tells them apart. *)
Definition bytes : Type := list byte.
#[export] Instance byte_eq_dec : EqDecision byte := byte_eq_dec.

(** [copy] into an array of [n] bytes that starts out zero. *)
Definition copy_into (n : nat) (b : bytes) : bytes :=
  take n b ++ replicate (n - length b) x00.

(** ** The xdr package *)

Module Xdr.

Inductive AccountId :=
| PublicKeyTypeEd25519 (Ed25519 : option bytes)
| PublicKeyTypeOther (n : Z).
(** The field [accountID.Ed25519], nil in another arm. *)
Definition Ed25519 (a : AccountId) : option bytes :=
  match a with PublicKeyTypeEd25519 k => k | PublicKeyTypeOther _ => None end.

Inductive ClaimableBalanceId :=
| ClaimableBalanceIdTypeV0 (V0 : option bytes)
| ClaimableBalanceIdTypeOther (n : Z).

Record MuxedEd25519Account := mkMuxed { muxedId : Z; muxedEd25519 : bytes }.

Inductive ScAddress :=
| AddressTypeAccount (AccountId : option AccountId)
| AddressTypeContract (ContractId : option bytes)
| AddressTypeMuxedAccount (MuxedAccount : option MuxedEd25519Account)
| AddressTypeClaimableBalance (ClaimableBalanceId : option ClaimableBalanceId)
| AddressTypeLiquidityPool (LiquidityPoolId : option bytes)
| AddressTypeOther (n : Z).

Inductive ScErrorType :=
| SceContract | SceWasmVm | SceContext | SceStorage | SceObject | SceCrypto | SceEvents
| SceBudget | SceValue | SceAuth | SceOther (n : Z).
#[export] Instance ScErrorType_eq_dec : EqDecision ScErrorType.
Proof. solve_decision. Defined.

Record ScError := mkScError {
  seType : ScErrorType;
  seContractCode : option Z;
  seCode : option Z
}.

Inductive ContractExecutable :=
| ExecutableWasm (WasmHash : option bytes)
| ExecutableStellarAsset
| ExecutableOther (n : Z).

Record UInt128Parts := mkUInt128Parts { u128Hi : Z; u128Lo : Z }.
Record Int128Parts := mkInt128Parts { i128Hi : Z; i128Lo : Z }.
(** [HiHi] is signed in an [Int256Parts] and unsigned in a [UInt256Parts]. *)
Record Parts256 := mkParts256 { HiHi : Z; HiLo : Z; LoHi : Z; LoLo : Z }.

(** [ScVal]: [Vec] and [Map] are pointers to pointers; a map entry is its key and value;
    an instance is its executable and its storage. *)
Inductive ScVal :=
| ScvBool (B : option bool)
| ScvVoid
| ScvError (Error : option ScError)
| ScvU32 (U32 : option Z)
| ScvI32 (I32 : option Z)
| ScvU64 (U64 : option Z)
| ScvI64 (I64 : option Z)
| ScvTimepoint (Timepoint : option Z)
| ScvDuration (Duration : option Z)
| ScvU128 (U128 : option UInt128Parts)
| ScvI128 (I128 : option Int128Parts)
| ScvU256 (U256 : option Parts256)
| ScvI256 (I256 : option Parts256)
| ScvBytes (Bytes : option bytes)
| ScvString (Str : option string)
| ScvSymbol (Sym : option string)
| ScvVec (Vec : option (option (list ScVal)))
| ScvMap (Map : option (option (list (ScVal * ScVal))))
| ScvAddress (Address : option ScAddress)
| ScvContractInstance (Instance : option (ContractExecutable * option (list (ScVal * ScVal))))
| ScvLedgerKeyContractInstance
| ScvLedgerKeyNonce (NonceKey : option Z)
| ScvOther (n : Z).

(** The struct's zero value: its type is 0, which is [ScvBool]. *)
Definition zeroScVal : ScVal := ScvBool None.

Inductive ScValType :=
| TBool | TVoid | TError | TU32 | TI32 | TU64 | TI64 | TTimepoint | TDuration | TU128 | TI128
| TU256 | TI256 | TBytes | TString | TSymbol | TVec | TMap | TAddress | TContractInstance
| TLedgerKeyContractInstance | TLedgerKeyNonce | TOther (n : Z).
Definition scType (v : ScVal) : ScValType :=
  match v with
  | ScvBool _ => TBool | ScvVoid => TVoid | ScvError _ => TError | ScvU32 _ => TU32
  | ScvI32 _ => TI32 | ScvU64 _ => TU64 | ScvI64 _ => TI64 | ScvTimepoint _ => TTimepoint
  | ScvDuration _ => TDuration | ScvU128 _ => TU128 | ScvI128 _ => TI128 | ScvU256 _ => TU256
  | ScvI256 _ => TI256 | ScvBytes _ => TBytes | ScvString _ => TString | ScvSymbol _ => TSymbol
  | ScvVec _ => TVec | ScvMap _ => TMap | ScvAddress _ => TAddress
  | ScvContractInstance _ => TContractInstance
  | ScvLedgerKeyContractInstance => TLedgerKeyContractInstance
  | ScvLedgerKeyNonce _ => TLedgerKeyNonce | ScvOther n => TOther n
  end.

(** The generated [GetX] accessors: [ok] tells whether the union's switch selects the arm,
    whose pointer is then read. *)
Definition arm {A} (p : option A) : gres (option A) := Some <$> deref p.
Definition GetU64 (v : ScVal) : gres (option Z) :=
  match v with ScvU64 p => arm p | _ => GVal None end.
Definition GetU32 (v : ScVal) : gres (option Z) :=
  match v with ScvU32 p => arm p | _ => GVal None end.
Definition GetI128 (v : ScVal) : gres (option Int128Parts) :=
  match v with ScvI128 p => arm p | _ => GVal None end.
Definition GetU128 (v : ScVal) : gres (option UInt128Parts) :=
  match v with ScvU128 p => arm p | _ => GVal None end.
Definition GetBytes (v : ScVal) : gres (option bytes) :=
  match v with ScvBytes p => arm p | _ => GVal None end.
Definition GetStr (v : ScVal) : gres (option string) :=
  match v with ScvString p => arm p | _ => GVal None end.
Definition GetSym (v : ScVal) : gres (option string) :=
  match v with ScvSymbol p => arm p | _ => GVal None end.
Definition GetVec (v : ScVal) : gres (option (option (list ScVal))) :=
  match v with ScvVec p => arm p | _ => GVal None end.
Definition GetMap (v : ScVal) : gres (option (option (list (ScVal * ScVal)))) :=
  match v with ScvMap p => arm p | _ => GVal None end.
Definition GetB (v : ScVal) : gres (option bool) :=
  match v with ScvBool p => arm p | _ => GVal None end.
Definition GetAddress (v : ScVal) : gres (option ScAddress) :=
  match v with ScvAddress p => arm p | _ => GVal None end.
Definition GetEd25519 (a : AccountId) : gres (option bytes) :=
  match a with PublicKeyTypeEd25519 p => arm p | _ => GVal None end.
Definition GetV0 (c : ClaimableBalanceId) : gres (option bytes) :=
  match c with ClaimableBalanceIdTypeV0 p => arm p | _ => GVal None end.
(** What the XDR decoder produces: the pointer of the selected arm is set (the inner
    pointer of a vector or map may be nil, the storage of an instance too), and keys and
    hashes have 32 bytes. *)
Definition is_hash (p : option bytes) : bool :=
  match p with Some b => (length b =? 32)%nat | None => false end.
Definition set_ {A} (p : option A) : bool := match p with Some _ => true | None => false end.

Definition valid_address (a : ScAddress) : bool :=
  match a with
  | AddressTypeAccount (Some (PublicKeyTypeEd25519 k)) => is_hash k
  | AddressTypeContract h => is_hash h
  | AddressTypeMuxedAccount (Some m) => (length (muxedEd25519 m) =? 32)%nat
  | AddressTypeClaimableBalance (Some (ClaimableBalanceIdTypeV0 h)) => is_hash h
  | AddressTypeLiquidityPool h => is_hash h
  | _ => false
  end.
Definition valid_error (e : ScError) : bool :=
  match seType e with
  | SceContract => set_ (seContractCode e)
  | SceOther _ => false
  | _ => set_ (seCode e)
  end.
Definition valid_executable (e : ContractExecutable) : bool :=
  match e with ExecutableWasm h => is_hash h | ExecutableStellarAsset => true | _ => false end.

Fixpoint valid (v : ScVal) : bool :=
  let valid_entries := forallb (λ kv : ScVal * ScVal, valid (fst kv) && valid (snd kv)) in
  match v with
  | ScvBool p => set_ p
  | ScvVoid | ScvLedgerKeyContractInstance => true
  | ScvError (Some e) => valid_error e
  | ScvU32 p | ScvI32 p | ScvU64 p | ScvI64 p | ScvTimepoint p | ScvDuration p
  | ScvLedgerKeyNonce p => set_ p
  | ScvU128 p => set_ p
  | ScvI128 p => set_ p
  | ScvU256 p | ScvI256 p => set_ p
  | ScvBytes p => set_ p
  | ScvString p | ScvSymbol p => set_ p
  | ScvVec (Some None) | ScvMap (Some None) => true
  | ScvVec (Some (Some l)) => forallb valid l
  | ScvMap (Some (Some l)) => valid_entries l
  | ScvAddress (Some a) => valid_address a
  | ScvContractInstance (Some (e, st)) =>
      valid_executable e && match st with Some l => valid_entries l | None => true end
  | _ => false
  end.
End Xdr.

(** ** The stellar package of chainlink-common *)

Module Domain.

(** [ScAddress]: the field of the declared type. *)
Record MuxedEd25519Account := mkMuxed { ID : Z; Ed25519 : bytes }.
Inductive ScAddress :=
| ScAddressTypeAccountID (AccountID : bytes)
| ScAddressTypeContractID (ContractID : bytes)
| ScAddressTypeMuxedAccount (MuxedAccount : option MuxedEd25519Account)
| ScAddressTypeClaimableBalanceID (V0 : option bytes)
| ScAddressTypeLiquidityPoolID (LiquidityPoolID : bytes)
| ScAddressTypeOther (n : Z).

Inductive ScErrorType :=
| ScErrorTypeContract | ScErrorTypeWasmVM | ScErrorTypeContext | ScErrorTypeStorage
| ScErrorTypeObject | ScErrorTypeCrypto | ScErrorTypeEvents | ScErrorTypeBudget
| ScErrorTypeValue | ScErrorTypeAuth.
Record ScError := mkScError {
  Type_ : ScErrorType;
  ContractCode : option Z;
  Code : option Z
}.

Inductive ContractExecutable :=
| ContractExecutableTypeWasmHash (WasmHash : bytes)
| ContractExecutableTypeStellarAsset (StellarAsset : bool).

(** [ScVal]: the field of the declared type; the code never reads another one.  The values
    of a vector, and the keys and values of a map, are pointers. *)
Inductive ScVal :=
| ScValTypeBool (Bool : option bool)
| ScValTypeVoid
| ScValTypeError (Error : option ScError)
| ScValTypeU32 (U32 : option Z)
| ScValTypeI32 (I32 : option Z)
| ScValTypeU64 (U64 : option Z)
| ScValTypeI64 (I64 : option Z)
| ScValTypeTimepoint (Timepoint : option Z)
| ScValTypeDuration (Duration : option Z)
| ScValTypeU128 (U128 : option Xdr.UInt128Parts)
| ScValTypeI128 (I128 : option Xdr.Int128Parts)
| ScValTypeU256 (U256 : option Xdr.Parts256)
| ScValTypeI256 (I256 : option Xdr.Parts256)
| ScValTypeBytes (Bytes : bytes)
| ScValTypeString (String : option string)
| ScValTypeSymbol (Symbol : option string)
| ScValTypeVec (Vec : option (list (option ScVal)))
| ScValTypeMap (Map : option (list (option ScVal * option ScVal)))
| ScValTypeAddress (Address : option ScAddress)
| ScValTypeContractInstance
    (ContractInstance : option (ContractExecutable * list (option ScVal * option ScVal)))
| ScValTypeLedgerKeyContractInstance
| ScValTypeNonceKey (NonceKey : option Z)
| ScValTypeOther (n : Z).
End Domain.

(** ** Functions of the SDK, as parameters *)

Inductive VersionByte := VersionByteAccountID | VersionByteContract.

Class XdrSdk := {
  (* strkey *)
  Encode : VersionByte → bytes → result string;
  Decode : VersionByte → string → result bytes;
  (* xdr *)
  AddressToAccountId : string → result Xdr.AccountId;
  ScAddress_UnmarshalBinary : bytes → result Xdr.ScAddress;
  UnmarshalScVal : string → result Xdr.ScVal;
  (* the text of an enumeration's value under %v or %s, and of a declared type under %d *)
  ScValType_String : Xdr.ScValType → string;
  ScAddressType_String : Xdr.ScAddress → string;
  ScErrorType_String : Xdr.ScErrorType → string;
  ContractExecutableType_String : Xdr.ContractExecutable → string;
  domain_ScValType : Domain.ScVal → Z;
  domain_ScAddressType : Domain.ScAddress → Z;
  (* the conversion stellartypes.ScErrorCode(x) *)
  ScErrorCode : Z → Z
}.

(** Documented behaviour: a strkey decodes to what was encoded and starts with the letter of
    its version; the account id of a strkey is its key; the XDR of a contract address is the
    discriminant 1 and the 32 bytes of its id; the decoder sets the selected arms. *)
Class XdrLaws `{XdrSdk} : Prop := {
  Decode_Encode v b s : Encode v b = Ok s → Decode v s = Ok b;
  Encode_account b s : Encode VersionByteAccountID b = Ok s →
    ∃ s', s = String "G"%char s';
  Encode_contract b s : Encode VersionByteContract b = Ok s →
    ∃ s', s = String "C"%char s';
  Encode_total v b : length b = 32%nat → is_ok (Encode v b) = true;
  AddressToAccountId_Encode b s : length b = 32%nat → Encode VersionByteAccountID b = Ok s →
    AddressToAccountId s = Ok (Xdr.PublicKeyTypeEd25519 (Some b));
  Unmarshal_contract b : length b = 32%nat →
    ScAddress_UnmarshalBinary ([x00; x00; x00; x01] ++ b) = Ok (Xdr.AddressTypeContract (Some b));
  Unmarshal_valid s v : UnmarshalScVal s = Ok v → Xdr.valid v = true
}.

(** ** Lemmas *)

Lemma gimapM_from_GVal {A B} (f : nat → A → gres B) (g : A → B) i l :
  (∀ j x, x ∈ l → f j x = GVal (g x)) → gimapM_from f i l = GVal (g <$> l).
Proof.
  revert i. induction l as [|x l IH]; intros i Hf; simpl; [done|].
  rewrite Hf by (by left). simpl. rewrite IH; [done|]. intros. apply Hf. by right.
Qed.
Lemma gimapM_GVal {A B} (f : nat → A → gres B) (g : A → B) l :
  (∀ j x, x ∈ l → f j x = GVal (g x)) → gimapM f l = GVal (g <$> l).
Proof. apply gimapM_from_GVal. Qed.

Lemma gbind_GVal {A B} (f : A → gres B) m b :
  m ≫= f = GVal b ↔ ∃ a, m = GVal a ∧ f a = GVal b.
Proof. destruct m; simpl; split; naive_solver. Qed.

Lemma gwrap_GVal {A} c (m : gres A) a : gwrap c m = GVal a ↔ m = GVal a.
Proof. by destruct m. Qed.

(** A loop that succeeds relates each element to its result. *)
Lemma gimapM_from_Forall2 {A B} (f : nat → A → gres B) (R : A → B → Prop) i l ys :
  (∀ j x y, x ∈ l → f j x = GVal y → R x y) →
  gimapM_from f i l = GVal ys → Forall2 R l ys.
Proof.
  revert i ys. induction l as [|x l IH]; intros i ys HR; simpl.
  { intros [= <-]. constructor. }
  intros (y & Hy & (ys' & Hys & [= <-])%gbind_GVal)%gbind_GVal. constructor.
  - eapply HR; [by left|done].
  - eapply IH; [|done]. intros. eapply HR; [by right|done].
Qed.

(** A loop whose iterations succeed succeeds. *)
Lemma gimapM_succeeds {A B} (f : nat → A → gres B) (R : A → B → Prop) l :
  (∀ j x, x ∈ l → ∃ y, f j x = GVal y ∧ R x y) → ∃ ys, gimapM f l = GVal ys ∧ Forall2 R l ys.
Proof.
  unfold gimapM. generalize 0%nat as i. induction l as [|x l IH]; intros i Hf; cbn [gimapM_from].
  { exists []. split; [done|constructor]. }
  destruct (Hf i x) as (y & -> & Hy); [by left|].
  destruct (IH (S i)) as (ys & -> & Hys); [intros; apply Hf; by right|].
  exists (y :: ys). split; [done|by constructor].
Qed.

(** A loop panics only where an iteration does. *)
Lemma gimapM_from_no_panic {A B} (f : nat → A → gres B) i l :
  (∀ j x msg, x ∈ l → f j x ≠ GPanic msg) → ∀ msg, gimapM_from f i l ≠ GPanic msg.
Proof.
  revert i. induction l as [|x l IH]; intros i Hf msg; simpl; [done|].
  destruct (f i x) as [y|e|p] eqn:E; simpl; [|done|].
  - destruct (gimapM_from f (S i) l) eqn:E'; simpl; [done..|]. intros _.
    eapply (IH (S i)); [|done]. intros. apply Hf. by right.
  - intros _. eapply Hf; [by left|done].
Qed.

Lemma copy_into_id n b : length b = n → copy_into n b = b.
Proof. intros <-. unfold copy_into. by rewrite firstn_all, Nat.sub_diag, app_nil_r. Qed.

(** ** Induction through vectors, maps and instances *)

Section induction.
Context (P : Xdr.ScVal → Prop).
Hypothesis Hleaf : ∀ v,
  match v with
  | Xdr.ScvVec (Some (Some _)) | Xdr.ScvMap (Some (Some _))
  | Xdr.ScvContractInstance (Some (_, Some _)) => False
  | _ => True
  end → P v.
Hypothesis Hvec : ∀ l, Forall P l → P (Xdr.ScvVec (Some (Some l))).
Hypothesis Hmap : ∀ l, Forall (λ kv, P (fst kv) ∧ P (snd kv)) l → P (Xdr.ScvMap (Some (Some l))).
Hypothesis Hinst : ∀ e l, Forall (λ kv, P (fst kv) ∧ P (snd kv)) l →
  P (Xdr.ScvContractInstance (Some (e, Some l))).

Fixpoint ScVal_nested_ind (v : Xdr.ScVal) : P v :=
  let entries := fix entries (l : list (Xdr.ScVal * Xdr.ScVal))
      : Forall (λ kv, P (fst kv) ∧ P (snd kv)) l :=
    match l with
    | [] => Forall_nil_2 _
    | (k, w) :: l' =>
        Forall_cons_2 _ (k, w) l' (conj (ScVal_nested_ind k) (ScVal_nested_ind w)) (entries l')
    end in
  match v with
  | Xdr.ScvVec (Some (Some l)) =>
      Hvec l ((fix items (l : list Xdr.ScVal) : Forall P l :=
        match l with
        | [] => Forall_nil_2 _
        | w :: l' => Forall_cons_2 _ w l' (ScVal_nested_ind w) (items l')
        end) l)
  | Xdr.ScvMap (Some (Some l)) => Hmap l (entries l)
  | Xdr.ScvContractInstance (Some (e, Some l)) => Hinst e l (entries l)
  | v => Hleaf v I
  end.
End induction.

Section domain_induction.
Context (P : Domain.ScVal → Prop).
Definition P_opt (o : option Domain.ScVal) : Prop :=
  match o with Some w => P w | None => True end.
Hypothesis Hleaf : ∀ v,
  match v with
  | Domain.ScValTypeVec (Some _) | Domain.ScValTypeMap (Some _) => False
  | _ => True
  end → P v.
Hypothesis Hvec : ∀ l, Forall P_opt l → P (Domain.ScValTypeVec (Some l)).
Hypothesis Hmap : ∀ l, Forall (λ kv, P_opt (fst kv) ∧ P_opt (snd kv)) l →
  P (Domain.ScValTypeMap (Some l)).

Fixpoint domain_nested_ind (v : Domain.ScVal) : P v :=
  let opt (o : option Domain.ScVal) : P_opt o :=
    match o with Some w => domain_nested_ind w | None => I end in
  match v with
  | Domain.ScValTypeVec (Some l) =>
      Hvec l ((fix items (l : list (option Domain.ScVal)) : Forall P_opt l :=
        match l with
        | [] => Forall_nil_2 _
        | w :: l' => Forall_cons_2 _ w l' (opt w) (items l')
        end) l)
  | Domain.ScValTypeMap (Some l) =>
      Hmap l ((fix entries (l : list (option Domain.ScVal * option Domain.ScVal))
          : Forall (λ kv, P_opt (fst kv) ∧ P_opt (snd kv)) l :=
        match l with
        | [] => Forall_nil_2 _
        | (k, w) :: l' => Forall_cons_2 _ (k, w) l' (conj (opt k) (opt w)) (entries l')
        end) l)
  | v => Hleaf v I
  end.
End domain_induction.

(** A concrete instance of the SDK functions of [Xdr], for the witnesses: a strkey is a
    letter followed by the key. *)

From Stdlib Require Import Ascii.
From Stdlib Require Import Strings.Byte Strings.String.
From stdpp Require Import base gmap list strings pretty.
From S2P Require Import Prelude GoStrings.

Module DemoXdr.

Definition letter (v : VersionByte) : ascii :=
  match v with VersionByteAccountID => "G"%char | VersionByteContract => "C"%char end.

#[export] Instance demo_unicode : UnicodeTables :=
  {| unicode_ToLower := λ s, s; unicode_Quote := λ s, s |}.

Definition demo_decode (v : VersionByte) (s : string) : result bytes :=
  match s with
  | String c s' => if Ascii.eqb c (letter v) then Ok (String.list_byte_of_string s') else Err "bad version"
  | EmptyString => Err "empty"
  end.

#[export] Instance demo_xdr : XdrSdk := {|
  Encode := λ v b, Ok (String (letter v) (String.string_of_list_byte b));
  Decode := demo_decode;
  AddressToAccountId := λ s, Xdr.PublicKeyTypeEd25519 ∘ Some <$> demo_decode VersionByteAccountID s;
  ScAddress_UnmarshalBinary := λ b,
    if decide (take 4 b = [x00; x00; x00; x01]) then Ok (Xdr.AddressTypeContract (Some (drop 4 b)))
    else Err "not a contract";
  UnmarshalScVal := λ s, if decide (s = "") then Err "EOF" else Ok (Xdr.ScvSymbol (Some s));
  ScValType_String := λ _, "type";
  ScAddressType_String := λ _, "address type";
  ScErrorType_String := λ _, "error type";
  ContractExecutableType_String := λ _, "executable type";
  domain_ScValType := λ _, 0%Z;
  domain_ScAddressType := λ _, 0%Z;
  ScErrorCode := λ z, z
|}.

#[export] Instance demo_xdr_laws : XdrLaws.
Proof.
  constructor; cbn.
  - intros v b s [= <-]. cbn. by rewrite Ascii.eqb_refl, list_byte_of_string_of_list_byte.
  - intros b s [= <-]. eauto.
  - intros b s [= <-]. eauto.
  - done.
  - intros b s _ [= <-]. cbn. by rewrite list_byte_of_string_of_list_byte.
  - done.
  - intros s v. case_decide; [done|]. by intros [= <-].
Qed.

(** Two 32-byte keys. *)
Definition key1 : bytes := replicate 32 x41.
Definition key2 : bytes := replicate 32 x42.
End DemoXdr.
