(* ===== verification/ScVal.v ===== *)
(** [bindings/scval/scval.go]: conversions between Go values and Soroban values.

    One definition per function. An array [[N]byte] is a [bytes] of that length; a map
    enumerated by Go's [range] is a [gmap] whose keys come in the order of an argument
    where the code depends on it. *)

From Stdlib Require Import Ascii.
From Stdlib Require Import Strings.Byte.
From stdpp Require Import base gmap list strings pretty sorting.
From S2P Require Import Prelude GoStrings Xdr.
Import Xdr.

Local Open Scope Z_scope.

Module ScVal.

(** ** encoding/hex *)

Module Hex.
Definition nibble (c : ascii) : option N :=
  let n := N_of_ascii c in
  if ((48 <=? n) && (n <=? 57))%N then Some (n - 48)%N
  else if ((97 <=? n) && (n <=? 102))%N then Some (n - 87)%N
  else if ((65 <=? n) && (n <=? 70))%N then Some (n - 55)%N
  else None.

Definition byte_of_nibbles (a b : N) : byte := byte_of_ascii (ascii_of_N (16 * a + b)).

(** The digits of [%04X]. *)
Definition hex_digit (n : N) : ascii :=
  if (n <? 10)%N then ascii_of_N (48 + n) else ascii_of_N (55 + n).

(** [fmt.Sprintf("%#U", rune(c))] for a byte: its code point, and the character in UTF-8
    when it is printable. *)
Definition unicode_verb (c : ascii) : string :=
  let n := N_of_ascii c in
  let code := "U+00" +:+ String (hex_digit (n / 16)) (String (hex_digit (n mod 16)) "") in
  if ((32 <=? n) && (n <=? 126))%N then code +:+ " '" +:+ String c "'"
  else if ((161 <=? n) && negb (n =? 173))%N
  then code +:+ " '" +:+ String (ascii_of_N (192 + n / 64))
                         (String (ascii_of_N (128 + n mod 64)) "'")
  else code.

Definition InvalidByteError (c : ascii) : string :=
  "encoding/hex: invalid byte: " +:+ unicode_verb c.
Definition ErrLength : string := "encoding/hex: odd length hex string".

Fixpoint DecodeString (s : string) : result bytes :=
  match s with
  | EmptyString => Ok []
  | String p EmptyString =>
      match nibble p with None => Err (InvalidByteError p) | Some _ => Err ErrLength end
  | String p (String q s') =>
      match nibble p, nibble q with
      | None, _ => Err (InvalidByteError p)
      | Some _, None => Err (InvalidByteError q)
      | Some a, Some b => (byte_of_nibbles a b ::.) <$> DecodeString s'
      end
  end.
End Hex.

Section scval.
Context {UT : UnicodeTables} {XS : XdrSdk}.

(** ** Encoders *)

Definition Uint64ToScVal (v : Z) : ScVal := ScvU64 (Some v).
Definition Uint32ToScVal (v : Z) : ScVal := ScvU32 (Some v).
Definition BoolToScVal (v : bool) : ScVal := ScvBool (Some v).

Definition I128ToScVal (v : Z) : ScVal :=
  let hi := if v <? 0 then -1 else 0 in
  let lo := uint64 v in
  ScvI128 (Some (mkInt128Parts hi lo)).

Definition BytesToScVal (b : bytes) : ScVal := ScvBytes (Some b).
Definition Bytes4ToScVal (b : bytes) : ScVal := ScvBytes (Some b).
Definition Bytes16ToScVal (b : bytes) : ScVal := ScvBytes (Some b).
Definition Bytes32ToScVal (b : bytes) : ScVal := ScvBytes (Some b).

Definition BuildContractScAddress (contractIDBytes : bytes) : option ScAddress :=
  if negb (length contractIDBytes =? 32)%nat then None
  else
    match ScAddress_UnmarshalBinary ([x00; x00; x00; x01] ++ contractIDBytes) with
    | Err _ => None
    | Ok addr => Some addr
    end.

Definition ParseAddress (addr : string) : option ScAddress :=
  match addr with
  | EmptyString => None
  | String c _ =>
      if Ascii.eqb c "C" then
        match Decode VersionByteContract addr with
        | Err _ => None
        | Ok decoded => BuildContractScAddress decoded
        end
      else if Ascii.eqb c "G" then
        match Decode VersionByteAccountID addr with
        | Err _ => None
        | Ok decoded =>
            let pubKey := copy_into 32 decoded in
            Some (AddressTypeAccount (Some (PublicKeyTypeEd25519 (Some pubKey))))
        end
      else None
  end.

Definition AddressToScVal (addr : string) : ScVal := ScvAddress (ParseAddress addr).
Definition VoidScVal : ScVal := ScvVoid.
Definition OptionalAddressToScVal (addr : option string) : ScVal :=
  match addr with None => VoidScVal | Some addr => AddressToScVal addr end.
Definition VecToScVal (items : list ScVal) : ScVal := ScvVec (Some (Some items)).
Definition SymbolToScVal (sym : string) : ScVal := ScvSymbol (Some sym).
Definition SymbolToScValPtr (sym : string) : option ScVal := Some (ScvSymbol (Some sym)).
Definition StringToScVal (s : string) : ScVal := ScvString (Some s).

(** [keys] is the order in which [range fields] enumerates the map. *)
Definition struct_entries (keys : list string) (fields : gmap string ScVal)
  : list (ScVal * ScVal) :=
  (λ k, (ScvSymbol (Some k), default zeroScVal (fields !! k))) <$> merge_sort String.le keys.
Definition BuildStructScVal (keys : list string) (fields : gmap string ScVal) : gres ScVal :=
  GVal (ScvMap (Some (Some (struct_entries keys fields)))).

Definition U128ToScVal (parts : UInt128Parts) : ScVal := ScvU128 (Some parts).
(** The method [ToScVal] of the type [U128], a renamed [xdr.UInt128Parts]. *)
Definition U128 : Type := UInt128Parts.
Definition ToScVal (u : U128) : gres ScVal := GVal (U128ToScVal u).

Definition MustToScVal (val : gres ScVal) : gres ScVal :=
  match val with GErr err => GPanic err | _ => val end.

Definition AddressSliceToScVal (items : list string) : ScVal := VecToScVal (AddressToScVal <$> items).
(** [toScVal] is the method of the elements' type. *)
Definition StructSliceToScVal {T} (toScVal : T → gres ScVal) (items : list T) : gres ScVal :=
  VecToScVal <$> gimapM (λ _ item, MustToScVal (toScVal item)) items.
Definition BytesSliceToScVal (items : list bytes) : ScVal := VecToScVal (BytesToScVal <$> items).
Definition Bytes32SliceToScVal (items : list bytes) : ScVal := VecToScVal (Bytes32ToScVal <$> items).
Definition AddressBytes32SliceToScVal (items : list bytes) : ScVal := Bytes32SliceToScVal items.
Definition Bytes4SliceToScVal (items : list bytes) : ScVal := VecToScVal (Bytes4ToScVal <$> items).
Definition Bytes16SliceToScVal (items : list bytes) : ScVal := VecToScVal (Bytes16ToScVal <$> items).
Definition Uint64SliceToScVal (items : list Z) : ScVal := VecToScVal (Uint64ToScVal <$> items).
Definition Uint32SliceToScVal (items : list Z) : ScVal := VecToScVal (Uint32ToScVal <$> items).

(** ** Decoders *)

(** [x, ok := val.GetX(); if !ok { return ..., fmt.Errorf("<what>: %v", val.Type) }]. *)
Definition got {A} (what : string) (val : ScVal) (g : gres (option A)) : gres A :=
  r ← g; nonnil (what +:+ ": " +:+ ScValType_String (scType val)) r.

Definition SymbolFromScVal (val : ScVal) : gres string := got "not a symbol type" val (GetSym val).
Definition StringFromScVal (val : ScVal) : gres string := got "not a string type" val (GetStr val).
Definition Uint64FromScVal (val : ScVal) : gres Z := got "not a u64 type" val (GetU64 val).
Definition Uint32FromScVal (val : ScVal) : gres Z := got "not a u32 type" val (GetU32 val).
Definition BytesFromScVal (val : ScVal) : gres bytes := got "not a bytes type" val (GetBytes val).

(** The three fixed-size readers differ in [n] only. *)
Definition fixed_bytes (n : nat) (val : ScVal) : gres bytes :=
  b ← got "not a bytes type" val (GetBytes val);
  if negb (length b =? n)%nat
  then GErr ("expected " +:+ pretty n +:+ " bytes, got " +:+ pretty (length b))
  else GVal (copy_into n b).
Definition Bytes4FromScVal : ScVal → gres bytes := fixed_bytes 4.
Definition Bytes16FromScVal : ScVal → gres bytes := fixed_bytes 16.
Definition Bytes32FromScVal : ScVal → gres bytes := fixed_bytes 32.

Definition I128FromScVal (val : ScVal) : gres Z :=
  i128 ← got "not an i128 type" val (GetI128 val); GVal (int64 (i128Lo i128)).
Definition U128FromScVal (val : ScVal) : gres U128 := got "not a u128 type" val (GetU128 val).

Definition AddressFromScVal (val : ScVal) : gres string :=
  addr ← got "not an address type" val (GetAddress val);
  match addr with
  | AddressTypeAccount p =>
      accountID ← deref p;
      pubKey ← nonnil "account ID has no Ed25519 key" (Ed25519 accountID);
      of_result (Encode VersionByteAccountID pubKey)
  | AddressTypeContract p =>
      contractID ← deref p;
      of_result (Encode VersionByteContract contractID)
  | _ => GErr ("unsupported address type: " +:+ ScAddressType_String addr)
  end.

Definition OptionalAddressFromScVal (val : ScVal) : gres (option string) :=
  match val with
  | ScvVoid => GVal None
  | _ => addr ← AddressFromScVal val; GVal (Some addr)
  end.

Definition RawBytesFromAddressScVal (val : ScVal) : gres bytes :=
  r ← GetAddress val;
  match r with
  | None => GErr ("not an address (type=" +:+ ScValType_String (scType val) +:+ ")")
  | Some addr =>
      match addr with
      | AddressTypeAccount p =>
          accountID ← deref p;
          pubKey ← nonnil "account ID has no Ed25519 key" (Ed25519 accountID);
          GVal (copy_into 32 pubKey)
      | AddressTypeContract p => contractID ← deref p; GVal (copy_into 32 contractID)
      | _ => GErr ("unsupported address type: " +:+ ScAddressType_String addr)
      end
  end.

Definition BytesVecFromScVal (val : ScVal) : gres (list bytes) :=
  r ← GetVec val;
  match r with
  | Some (Some vec) =>
      gimapM (λ _ item,
        b ← GetBytes item;
        nonnil ("vec item is not bytes (type=" +:+ ScValType_String (scType item) +:+ ")") b) vec
  | _ => GErr "not a vec"
  end.

Definition AddressVecFromScVal (val : ScVal) : gres (list bytes) :=
  r ← GetVec val;
  match r with
  | Some (Some vec) =>
      gimapM (λ i item,
        gwrap ("failed to decode address at index " +:+ pretty i)
          (RawBytesFromAddressScVal item)) vec
  | _ => GErr ("not a vec type: " +:+ ScValType_String (scType val))
  end.

Definition HexToContractStrkey (hexAddr : string) : result string :=
  raw ← wrap_err ("decode hex address " +:+ Quote hexAddr)
          (Hex.DecodeString (TrimPrefix hexAddr "0x"));
  Encode VersionByteContract raw.
End scval.
End ScVal.
