(* ===== verification/GoBytes.v ===== *)
(** Byte slices: big-endian numbers, [big.Int], [encoding/hex] and slice updates, as the
    modelled code uses them. *)

From Stdlib Require Import Ascii.
From Stdlib Require Import Strings.Byte.
From stdpp Require Import base list strings.
From S2P Require Import Prelude GoStrings Xdr ScVal.

Local Open Scope Z_scope.

Definition byte_val (b : byte) : Z := Z.of_N (Byte.to_N b).
(** Truncation to a byte. *)
Definition byte_of (z : Z) : byte :=
  match Byte.of_N (Z.to_N (z mod 256)) with Some b => b | None => x00 end.

(** ** math/big *)

(** [new(big.Int).SetBytes(b)]. *)
Definition SetBytes (b : bytes) : Z := foldl (λ acc x, acc * 256 + byte_val x) 0 b.

(** The [n] low bytes of a number, most significant first. *)
Fixpoint be_bytes (n : nat) (z : Z) : bytes :=
  match n with O => [] | S n' => be_bytes n' (z / 256) ++ [byte_of z] end.

(** [x.Bytes()]: the absolute value in as few bytes as possible. *)
Definition byte_count (z : Z) : nat := if z =? 0 then 0%nat else Z.to_nat (Z.log2 z / 8 + 1).
Definition big_Bytes (z : Z) : bytes := be_bytes (byte_count (Z.abs z)) (Z.abs z).

(** [x.Uint64()]: the low 64 bits of the absolute value. *)
Definition big_Uint64 (z : Z) : Z := uint64 (Z.abs z).

(** [binary.BigEndian.Uint16], on a slice of two bytes. *)
Definition BigEndian_Uint16 (b : bytes) : Z := SetBytes b.

(** ** Slices *)

(** [b[off : off+n]]. *)
Definition slice (off n : nat) (b : bytes) : bytes := take n (drop off b).
(** [copy(b[off:], l)] where [l] fits. *)
Definition splice (off : nat) (l b : bytes) : bytes :=
  take off b ++ l ++ drop (off + length l) b.
(** [b[0] |= m]. *)
Definition or_head (m : Z) (b : bytes) : bytes :=
  match b with [] => [] | x :: b' => byte_of (Z.lor (byte_val x) m) :: b' end.

(** ** encoding/hex *)

Definition lower_hex_digit (n : N) : ascii :=
  ascii_of_N (if (n <? 10)%N then 48 + n else 87 + n).
(** [hex.EncodeToString], which is also the [%x] verb on bytes. *)
Fixpoint EncodeToString (b : bytes) : string :=
  match b with
  | [] => EmptyString
  | x :: b' =>
      String (lower_hex_digit (Byte.to_N x / 16))
        (String (lower_hex_digit (Byte.to_N x mod 16)) (EncodeToString b'))
  end.

(** ** Facts *)

Lemma byte_val_range b : 0 <= byte_val b < 256.
Proof. unfold byte_val. pose proof (Byte.to_N_bounded b). lia. Qed.

Lemma byte_of_val b : byte_of (byte_val b) = b.
Proof.
  unfold byte_of. rewrite Z.mod_small by apply byte_val_range.
  unfold byte_val. by rewrite N2Z.id, Byte.of_to_N.
Qed.

Lemma byte_val_of z : byte_val (byte_of z) = z mod 256.
Proof.
  unfold byte_of, byte_val. pose proof (Z.mod_pos_bound z 256 ltac:(lia)) as Hz.
  destruct (Byte.of_N (Z.to_N (z mod 256))) as [b|] eqn:E.
  - apply Byte.to_of_N in E. rewrite E. lia.
  - apply Byte.of_N_None_iff in E. lia.
Qed.

Lemma byte_of_mod z : byte_of (z mod 256) = byte_of z.
Proof. unfold byte_of. by rewrite Z.mod_mod by lia. Qed.

Lemma length_be_bytes n z : length (be_bytes n z) = n.
Proof. revert z. induction n as [|n IH]; intros z; cbn; [done|]. rewrite length_app, IH. cbn. lia. Qed.

Lemma SetBytes_snoc l x : SetBytes (l ++ [x]) = SetBytes l * 256 + byte_val x.
Proof. unfold SetBytes. by rewrite foldl_app. Qed.

Lemma SetBytes_range l : 0 <= SetBytes l < 256 ^ Z.of_nat (length l).
Proof.
  induction l as [|x l IH] using rev_ind; [done|].
  rewrite SetBytes_snoc, length_app. cbn [length]. pose proof (byte_val_range x).
  rewrite Nat2Z.inj_add, Z.pow_add_r by lia. change (256 ^ Z.of_nat 1) with 256. lia.
Qed.

Lemma be_bytes_SetBytes l : be_bytes (length l) (SetBytes l) = l.
Proof.
  induction l as [|x l IH] using rev_ind; [done|].
  rewrite length_app, Nat.add_comm, SetBytes_snoc. cbn [length Nat.add be_bytes].
  pose proof (byte_val_range x).
  rewrite Z.div_add_l, Z.div_small, Z.add_0_r, IH by lia.
  f_equal. f_equal. rewrite <- byte_of_mod, Z.add_comm, Z.mod_add, Z.mod_small by lia.
  apply byte_of_val.
Qed.

Lemma SetBytes_be_bytes n z : SetBytes (be_bytes n z) = z mod 256 ^ Z.of_nat n.
Proof.
  revert z. induction n as [|n IH]; intros z.
  { cbn. by rewrite Z.mod_1_r. }
  cbn [be_bytes]. rewrite SetBytes_snoc, IH, byte_val_of.
  rewrite Nat2Z.inj_succ, Z.pow_succ_r by lia.
  pose proof (Z.pow_pos_nonneg 256 (Z.of_nat n) ltac:(lia) ltac:(lia)).
  rewrite (Z.rem_mul_r z 256) by lia. lia.
Qed.

(** Left padding of the minimal bytes gives the fixed-width ones. *)
Lemma be_bytes_pad m n z : 0 <= z < 256 ^ Z.of_nat m → (m <= n)%nat →
  be_bytes n z = replicate (n - m) x00 ++ be_bytes m z.
Proof.
  revert n z. induction m as [|m IH]; intros n z Hz Hn.
  - cbn. rewrite app_nil_r, Nat.sub_0_r. assert (z = 0) as -> by (cbn in Hz; lia). clear Hz Hn.
    induction n as [|n IH]; [done|]. cbn [be_bytes replicate].
    rewrite Z.div_0_l, IH by lia. change (byte_of 0) with x00.
    rewrite replicate_cons_app. done.
  - destruct n as [|n]; [lia|]. cbn [be_bytes]. rewrite Nat.sub_succ, app_assoc. f_equal.
    apply IH; [|lia]. rewrite Nat2Z.inj_succ, Z.pow_succ_r in Hz by lia.
    split; [apply Z.div_pos; lia|]. apply Z.div_lt_upper_bound; lia.
Qed.

Lemma byte_count_bound z : 0 <= z → z < 256 ^ Z.of_nat (byte_count z).
Proof.
  intros Hz. unfold byte_count. destruct (Z.eqb_spec z 0) as [->|Hn]; [done|].
  pose proof (Z.log2_nonneg z). pose proof (Z.log2_spec z ltac:(lia)) as [_ Hlt].
  pose proof (Z.div_mod (Z.log2 z) 8 ltac:(lia)). pose proof (Z.mod_pos_bound (Z.log2 z) 8 ltac:(lia)).
  rewrite Z2Nat.id by lia. eapply Z.lt_le_trans; [exact Hlt|].
  change 256 with (2 ^ 8). rewrite <- Z.pow_mul_r by lia. apply Z.pow_le_mono_r; lia.
Qed.

Lemma byte_count_le z n : 0 <= z < 256 ^ Z.of_nat n → (byte_count z <= n)%nat.
Proof.
  intros Hz. unfold byte_count. destruct (Z.eqb_spec z 0) as [->|Hn]; [lia|].
  change 256 with (2 ^ 8) in Hz. rewrite <- Z.pow_mul_r in Hz by lia.
  pose proof (Z.log2_nonneg z).
  assert (Z.log2 z < 8 * Z.of_nat n) by (apply Z.log2_lt_pow2; lia).
  pose proof (Z.div_pos (Z.log2 z) 8 ltac:(lia) ltac:(lia)).
  apply Nat2Z.inj_le. rewrite Z2Nat.id by lia.
  assert (Z.log2 z / 8 < Z.of_nat n); [|lia]. apply Z.div_lt_upper_bound; lia.
Qed.

Lemma big_Bytes_pad n z : Z.abs z < 256 ^ Z.of_nat n →
  (length (big_Bytes z) <= n)%nat ∧
  replicate (n - length (big_Bytes z)) x00 ++ big_Bytes z = be_bytes n (Z.abs z).
Proof.
  intros Hz. unfold big_Bytes. rewrite length_be_bytes.
  pose proof (byte_count_le (Z.abs z) n ltac:(lia)). split; [done|].
  symmetry. apply be_bytes_pad; [|done]. split; [lia|]. apply byte_count_bound. lia.
Qed.

Lemma be_bytes_head n z : be_bytes (S n) z = byte_of (z / 256 ^ Z.of_nat n) :: be_bytes n z.
Proof.
  revert z. induction n as [|n IH]; intros z.
  - cbn. by rewrite Z.div_1_r.
  - change (be_bytes (S (S n)) z) with (be_bytes (S n) (z / 256) ++ [byte_of z]).
    rewrite IH. cbn [be_bytes app]. f_equal. f_equal.
    rewrite Z.div_div by (try apply Z.pow_pos_nonneg; lia). f_equal.
    rewrite Nat2Z.inj_succ, Z.pow_succ_r by lia. done.
Qed.

Lemma be_bytes_mod n z : be_bytes n (z mod 256 ^ Z.of_nat n) = be_bytes n z.
Proof.
  rewrite <- (length_be_bytes n z) at 1. by rewrite <- SetBytes_be_bytes, be_bytes_SetBytes.
Qed.

Lemma length_slice off n b : (off + n <= length b)%nat → length (slice off n b) = n.
Proof. intros. unfold slice. rewrite length_take, length_drop. lia. Qed.

Lemma length_splice off l b : (off + length l <= length b)%nat →
  length (splice off l b) = length b.
Proof. intros. unfold splice. rewrite !length_app, length_take, length_drop. lia. Qed.

(** [hex] reads back what it wrote. *)
Lemma DecodeString_Encode b : ScVal.Hex.DecodeString (EncodeToString b) = Ok b.
Proof.
  induction b as [|x b IH]; [done|]. cbn [EncodeToString ScVal.Hex.DecodeString].
  assert (∃ p q, ScVal.Hex.nibble (lower_hex_digit (Byte.to_N x / 16)) = Some p ∧
    ScVal.Hex.nibble (lower_hex_digit (Byte.to_N x mod 16)) = Some q ∧
    ScVal.Hex.byte_of_nibbles p q = x) as (p & q & -> & -> & Hx).
  { destruct x; by (eexists _, _; split_and!; [vm_compute; reflexivity..|]). }
  rewrite IH. cbn. by rewrite Hx.
Qed.
