(* ===== verification/ScValProps.v ===== *)
(** Properties of the conversions of [bindings/scval]: round trips, canonical struct maps,
    exactness bounds, and which calls can panic. *)

From Stdlib Require Import Ascii.
From Stdlib Require Import Strings.Byte.
From stdpp Require Import base gmap list strings pretty sorting.
From S2P Require Import Prelude GoStrings Xdr ScVal GoBytes.
Import Xdr ScVal.

Local Open Scope Z_scope.

Module ScValProps.

(** ** Reference definitions *)

(** The number an i128 denotes. *)
Definition i128_value (p : Int128Parts) : Z := i128Hi p * 2 ^ 64 + i128Lo p.
Definition i128_wf (p : Int128Parts) : bool := is_int64 (i128Hi p) && is_uint64 (i128Lo p).

(** The address value of a key. *)
Definition address_of (v : VersionByte) (key : bytes) : ScAddress :=
  match v with
  | VersionByteAccountID => AddressTypeAccount (Some (PublicKeyTypeEd25519 (Some key)))
  | VersionByteContract => AddressTypeContract (Some key)
  end.

(** ** Integers *)

Lemma i128_parts v : is_int64 v = true →
  (if v <? 0 then -1 else 0) * 2 ^ 64 + uint64 v = v.
Proof.
  rewrite is_int64_spec. intros Hv. unfold uint64, uwrap.
  destruct (Z.ltb_spec v 0).
  - rewrite <- (Z_mod_plus_full v 1), Z.mod_small; lia.
  - rewrite Z.mod_small; lia.
Qed.

(** An int64 becomes the i128 that denotes it, and comes back; reading an arbitrary i128
    gives its value exactly when that fits an int64, and otherwise silently its low 64
    bits. *)
Theorem i128_exact_on_int64 {XS : XdrSdk} :
  (∀ v, is_int64 v = true →
     ∃ p, I128ToScVal v = ScvI128 (Some p) ∧ i128_value p = v ∧ i128_wf p = true ∧
       I128FromScVal (I128ToScVal v) = GVal v) ∧
  (∀ p, i128_wf p = true →
     I128FromScVal (ScvI128 (Some p)) = GVal (int64 (i128_value p)) ∧
     (I128FromScVal (ScvI128 (Some p)) = GVal (i128_value p) ↔ is_int64 (i128_value p) = true)).
Proof.
  split.
  - intros v Hv. eexists. split; [done|]. unfold i128_value, i128_wf; cbn [i128Hi i128Lo].
    split; [by apply i128_parts|]. split.
    + rewrite uint64_range, andb_true_r. by destruct (v <? 0).
    + cbn. by rewrite int64_uint64.
  - intros [hi lo]. unfold i128_wf, i128_value. cbn [i128Hi i128Lo]. intros Hp.
    assert (int64 (hi * 2 ^ 64 + lo) = int64 lo) as E.
    { unfold int64, swrap. f_equal. rewrite <- (Z_mod_plus_full (lo + _) hi). f_equal. lia. }
    split; [by rewrite E|]. cbn. rewrite <- E. split.
    + intros [= <-]. apply int64_range.
    + intros Hi. by rewrite int64_id.
Qed.

(** ** Byte arrays *)

Lemma fixed_bytes_exact {XS : XdrSdk} n v b :
  fixed_bytes n v = GVal b ↔ v = ScvBytes (Some b) ∧ length b = n.
Proof.
  unfold fixed_bytes, got. split.
  - destruct v as [| | | | | | | | | | | | |[b'|]| | | | | | | | |]; try done. cbn.
    destruct (Nat.eqb_spec (length b') n) as [E|]; cbn; [|done].
    rewrite copy_into_id by done. by intros [= ->].
  - intros [-> <-]. cbn. by rewrite Nat.eqb_refl, copy_into_id.
Qed.

(** ** Addresses *)

Section addresses.
Context {XS : XdrSdk} {XL : XdrLaws}.

Lemma ParseAddress_Encode v key s :
  length key = 32%nat → Encode v key = Ok s → ParseAddress s = Some (address_of v key).
Proof.
  intros Hlen Henc. destruct v.
  - destruct (Encode_account key s Henc) as [s' ->]. cbn -[copy_into].
    by rewrite (Decode_Encode _ _ _ Henc), copy_into_id.
  - destruct (Encode_contract key s Henc) as [s' ->]. cbn.
    rewrite (Decode_Encode _ _ _ Henc). unfold BuildContractScAddress.
    by rewrite Hlen, (Unmarshal_contract key Hlen).
Qed.

Lemma AddressToScVal_Encode v key s :
  length key = 32%nat → Encode v key = Ok s →
  AddressToScVal s = ScvAddress (Some (address_of v key)).
Proof. intros. unfold AddressToScVal. by rewrite (ParseAddress_Encode v key). Qed.

Lemma AddressFromScVal_of v key :
  AddressFromScVal (ScvAddress (Some (address_of v key))) = of_result (Encode v key).
Proof. by destruct v. Qed.

Lemma RawBytes_of v key : length key = 32%nat →
  RawBytesFromAddressScVal (ScvAddress (Some (address_of v key))) = GVal key.
Proof. intros. destruct v; cbn -[copy_into]; by rewrite copy_into_id. Qed.

(** Every account or contract address with a 32-byte key has a strkey, and that strkey
    parses back to the same address value, to the same key, and through the optional
    form; a vector of such strkeys reads back as the vector of their keys. *)
Theorem address_roundtrip (l : list (VersionByte * bytes)) :
  Forall (λ a, length (snd a) = 32%nat) l →
  ∃ strkeys,
    Forall2 (λ a s,
      AddressFromScVal (ScvAddress (Some (address_of (fst a) (snd a)))) = GVal s ∧
      AddressToScVal s = ScvAddress (Some (address_of (fst a) (snd a))) ∧
      OptionalAddressFromScVal (OptionalAddressToScVal (Some s)) = GVal (Some s)) l strkeys ∧
    AddressVecFromScVal (AddressSliceToScVal strkeys) = GVal (snd <$> l).
Proof.
  intros Hl.
  assert (∃ ss, Forall2 (λ a s, Encode (fst a) (snd a) = Ok s) l ss) as [ss Hss].
  { induction Hl as [|[v k] l Hk Hl [ss IH]]; [by exists []|].
    pose proof (Encode_total v k Hk) as Ht. destruct (Encode v k) as [s|] eqn:E; [|done].
    exists (s :: ss). by constructor. }
  exists ss. split.
  - eapply Forall2_impl with (P := λ a s, length (snd a) = 32%nat ∧ Encode (fst a) (snd a) = Ok s).
    + clear -Hl Hss. induction Hss; inversion Hl; subst; constructor; auto.
    + intros [v k] s [Hk Henc]; cbn [fst snd] in *.
      assert (AddressFromScVal (ScvAddress (Some (address_of v k))) = GVal s) as Hf
        by (by rewrite AddressFromScVal_of, Henc).
      assert (AddressToScVal s = ScvAddress (Some (address_of v k))) as Ht
        by (by apply AddressToScVal_Encode).
      split_and!; [done..|]. cbn [OptionalAddressToScVal]. rewrite Ht. unfold OptionalAddressFromScVal. by rewrite Hf.
  - unfold AddressVecFromScVal, AddressSliceToScVal, VecToScVal. cbn [GetVec arm deref fmap gres_fmap].
    cbn [mbind gres_bind]. unfold gimapM. generalize 0%nat as i. clear -Hl Hss XL.
    induction Hss as [|[v k] s l ss Henc Hss IH]; intros i; [done|].
    inversion Hl as [|? ? Hk Hl']; subst. cbn [fst snd] in *. rewrite !fmap_cons. cbn [gimapM_from snd].
    rewrite (AddressToScVal_Encode v k s), RawBytes_of by done.
    cbn [gwrap mbind gres_bind]. rewrite (IH Hl'). done.
Qed.

(** An address that does not parse is not reported: the encoder yields an address value
    with a nil pointer, the same for every such string, and each of the readers panics on
    it instead of returning an error. *)
Theorem invalid_address_not_reported s :
  ParseAddress s = None →
  AddressToScVal s = AddressToScVal "" ∧ valid (AddressToScVal s) = false ∧
  (∃ m, AddressFromScVal (AddressToScVal s) = GPanic m) ∧
  (∃ m, RawBytesFromAddressScVal (AddressToScVal s) = GPanic m).
Proof. intros H. unfold AddressToScVal. rewrite H. cbn. split_and!; eauto. Qed.
End addresses.

(** ** Struct maps *)

(** Strictly increasing in the byte order of Go strings. *)
Definition string_lt (a b : string) : Prop := strict String.le a b.

Lemma sorted_strict l : NoDup l → StronglySorted String.le l → StronglySorted string_lt l.
Proof.
  induction 2 as [|x l Hl IH Hx]; [constructor|]. apply NoDup_cons in H as [Hnin Hnd].
  constructor; [auto|]. rewrite Forall_forall in *. intros y Hy. split; [by apply Hx|].
  intros Hyx. apply Hnin. by rewrite (anti_symm String.le x y (Hx y Hy) Hyx).
Qed.

Lemma struct_sorted_keys keys (fields : gmap string ScVal) :
  keys ≡ₚ (map_to_list fields).*1 →
  merge_sort String.le keys ≡ₚ (map_to_list fields).*1 ∧
  StronglySorted string_lt (merge_sort String.le keys).
Proof.
  intros Hk. assert (merge_sort String.le keys ≡ₚ (map_to_list fields).*1) as Hp
    by by rewrite merge_sort_Permutation.
  split; [done|]. apply sorted_strict.
  - rewrite Hp. apply NoDup_fst_map_to_list.
  - apply StronglySorted_merge_sort; apply _.
Qed.

Lemma struct_entries_spec {XS : XdrSdk} keys (fields : gmap string ScVal) :
  keys ≡ₚ (map_to_list fields).*1 →
  (∀ k v, (ScvSymbol (Some k), v) ∈ struct_entries keys fields ↔ fields !! k = Some v) ∧
  NoDup (struct_entries keys fields).*1.
Proof.
  intros Hk. destruct (struct_sorted_keys keys fields Hk) as [Hp _]. unfold struct_entries. split.
  - intros k v. rewrite list_elem_of_fmap. split.
    + intros (k' & [= <- ->] & Hin). rewrite Hp in Hin.
      apply list_elem_of_fmap in Hin as ([k2 v2] & [= <-] & Hin).
      apply elem_of_map_to_list in Hin. by rewrite Hin.
    + intros Hl. exists k. rewrite Hl. split; [done|]. rewrite Hp. apply list_elem_of_fmap.
      exists (k, v). split; [done|]. by apply elem_of_map_to_list.
  - rewrite <- list_fmap_compose. apply NoDup_fmap_2; [by intros ? ? [= ->]|].
    rewrite Hp. apply NoDup_fst_map_to_list.
Qed.

(** Whatever order Go enumerates the fields in, the struct value has its keys strictly
    increasing, as Soroban requires, holds exactly the given fields, and is the same
    value. *)
Theorem struct_map_canonical {XS : XdrSdk} keys keys' (fields : gmap string ScVal) :
  keys ≡ₚ (map_to_list fields).*1 → keys' ≡ₚ (map_to_list fields).*1 →
  ∃ entries, BuildStructScVal keys fields = GVal (ScvMap (Some (Some entries))) ∧
    BuildStructScVal keys' fields = GVal (ScvMap (Some (Some entries))) ∧
    (∃ ks, entries.*1 = (λ k, ScvSymbol (Some k)) <$> ks ∧ StronglySorted string_lt ks) ∧
    (∀ k v, (ScvSymbol (Some k), v) ∈ entries ↔ fields !! k = Some v).
Proof.
  intros Hk Hk'. destruct (struct_sorted_keys keys fields Hk) as [Hp Hs].
  assert (merge_sort String.le keys' = merge_sort String.le keys) as E.
  { apply (StronglySorted_unique String.le); [apply StronglySorted_merge_sort; apply _..|].
    rewrite !merge_sort_Permutation. by rewrite Hk, Hk'. }
  exists (struct_entries keys fields). split; [done|]. split.
  { unfold BuildStructScVal, struct_entries. by rewrite E. }
  split.
  - exists (merge_sort String.le keys). split; [|done].
    unfold struct_entries. rewrite <- list_fmap_compose. by apply list_fmap_ext.
  - apply struct_entries_spec, Hk.
Qed.

(** ** Panics *)

Lemma got_no_panic {XS : XdrSdk} {A} what v (g : gres (option A)) :
  (∀ m, g ≠ GPanic m) → ∀ m, got what v g ≠ GPanic m.
Proof. intros Hg m. unfold got. destruct g as [[a|]|e|p]; cbn; [done..|]. by destruct (Hg p). Qed.

Definition panics {A} (g : gres A) : bool := match g with GPanic _ => true | _ => false end.

Lemma valid_address_raw {XS : XdrSdk} v :
  valid v = true →
  panics (AddressFromScVal v) = false ∧ panics (RawBytesFromAddressScVal v) = false.
Proof.
  destruct v as [| | | | | | | | | | | | | | | | | |[a|]| | | |]; try done. cbn.
  destruct a as [[[[k|]|]|]|[h|]| | | |]; try done; cbn; intros _;
    (split; [|done]); by destruct (Encode _ _).
Qed.

Lemma gimapM_no_panic {A B} (f : nat → A → gres B) l :
  (∀ i x, x ∈ l → panics (f i x) = false) → panics (gimapM f l) = false.
Proof.
  intros Hf. pose proof (gimapM_from_no_panic f 0 l) as Hn. unfold gimapM.
  destruct (gimapM_from f 0 l) as [| |p]; [done..|]. exfalso. eapply Hn; [|done].
  intros j x m Hx E. specialize (Hf j x Hx). by rewrite E in Hf.
Qed.

Lemma valid_vec_readers {XS : XdrSdk} v :
  valid v = true →
  panics (BytesVecFromScVal v) = false ∧ panics (AddressVecFromScVal v) = false.
Proof.
  destruct v as [| | | | | | | | | | | | | | | |[[l|]|]| | | | | |]; try done. cbn [valid].
  rewrite forallb_forall. intros Hl. split; apply gimapM_no_panic; intros i x Hx;
    apply list_elem_of_In in Hx; specialize (Hl x Hx).
  - by destruct x as [| | | | | | | | | | | | |[b|]| | | | | | | | |].
  - pose proof (valid_address_raw x Hl) as [_ Hr]. by destruct (RawBytesFromAddressScVal x).
Qed.

(** Case analysis on the type of a value and on its pointer. *)
Ltac by_arm v :=
  destruct v; try done;
  match goal with p : option _ |- _ => destruct p; [|done] end; cbn;
  try (match goal with |- context [negb ?b] => destruct b end); done.

(** No reader panics on a value that came off the wire: it returns a value, or an error
    when the type is another one. *)
Theorem readers_never_panic {XS : XdrSdk} v :
  valid v = true →
  panics (SymbolFromScVal v) = false ∧ panics (StringFromScVal v) = false ∧
  panics (Uint64FromScVal v) = false ∧ panics (Uint32FromScVal v) = false ∧
  panics (BytesFromScVal v) = false ∧ panics (Bytes4FromScVal v) = false ∧
  panics (Bytes16FromScVal v) = false ∧ panics (Bytes32FromScVal v) = false ∧
  panics (I128FromScVal v) = false ∧ panics (U128FromScVal v) = false ∧
  panics (AddressFromScVal v) = false ∧ panics (OptionalAddressFromScVal v) = false ∧
  panics (RawBytesFromAddressScVal v) = false ∧ panics (BytesVecFromScVal v) = false ∧
  panics (AddressVecFromScVal v) = false.
Proof.
  intros Hv. pose proof (valid_address_raw v Hv) as [Ha Hr].
  pose proof (valid_vec_readers v Hv) as [Hb Hc].
  split_and!; try done; [by by_arm v..|].
  unfold OptionalAddressFromScVal. destruct v; try done.
  by destruct (AddressFromScVal (ScvAddress Address)).
Qed.

(** ** Hexadecimal *)

Lemma byte_of_nibbles_split x :
  Hex.byte_of_nibbles (Byte.to_N x / 16) (Byte.to_N x mod 16) = x.
Proof. by destruct x. Qed.

Lemma lower_hex_digit_inv n : (n < 16)%N → Hex.nibble (lower_hex_digit n) = Some n.
Proof.
  intros Hn. assert (forallb (λ k, bool_decide (Hex.nibble (lower_hex_digit (N.of_nat k)) = Some (N.of_nat k)))
    (seq 0 16) = true) as Hall by (vm_compute; reflexivity).
  rewrite forallb_forall in Hall. specialize (Hall (N.to_nat n)).
  rewrite bool_decide_eq_true, N2Nat.id in Hall. apply Hall, in_seq. lia.
Qed.

Lemma nibble_lower c n : Hex.nibble c = Some n → lower_byte c = lower_hex_digit n ∧ (n < 16)%N.
Proof.
  intros Hc. assert (forallb (λ c, match Hex.nibble c with
      | Some n => bool_decide (lower_byte c = lower_hex_digit n ∧ (n < 16)%N) | None => true end)
    (ascii_of_nat <$> seq 0 256) = true) as Hall by (vm_compute; reflexivity).
  rewrite forallb_forall in Hall. specialize (Hall c). rewrite Hc in Hall.
  rewrite bool_decide_eq_true in Hall. apply Hall, list_elem_of_In, list_elem_of_fmap.
  exists (nat_of_ascii c). split; [by rewrite ascii_nat_embedding|].
  apply elem_of_seq. pose proof (nat_ascii_bounded c). lia.
Qed.

Lemma nibble_lower_byte c : Hex.nibble (lower_byte c) = Hex.nibble c.
Proof.
  destruct (Hex.nibble c) as [n|] eqn:E.
  - destruct (nibble_lower c n E) as [-> Hn]. by apply lower_hex_digit_inv.
  - revert E. destruct c as [[] [] [] [] [] [] [] []]; vm_compute; congruence.
Qed.

Lemma hex_decode_lower s : is_ok (Hex.DecodeString (string_map lower_byte s)) = true →
  Hex.DecodeString (string_map lower_byte s) = Hex.DecodeString s.
Proof.
  induction s as [s IH] using (induction_ltof1 _ String.length). unfold ltof in IH.
  destruct s as [|p [|q s]]; [done|..]; cbn [string_map Hex.DecodeString];
    rewrite ?nibble_lower_byte.
  { by destruct (Hex.nibble p). }
  destruct (Hex.nibble p), (Hex.nibble q); try done. intros Hok.
  rewrite IH; [done|simpl; lia|]. by destruct (Hex.DecodeString (string_map lower_byte s)).
Qed.

Lemma byte_of_nibbles_to_N a b : (a < 16)%N → (b < 16)%N →
  Byte.to_N (Hex.byte_of_nibbles a b) = (16 * a + b)%N.
Proof.
  intros Ha Hb. unfold Hex.byte_of_nibbles.
  rewrite <- (N_ascii_embedding (16 * a + b)) at 2 by lia.
  generalize (ascii_of_N (16 * a + b)). intros c.
  destruct c as [[] [] [] [] [] [] [] []]; reflexivity.
Qed.

Lemma hex_decode_sound s : ∀ b, Hex.DecodeString s = Ok b → string_map lower_byte s = EncodeToString b.
Proof.
  induction s as [s IH] using (induction_ltof1 _ String.length). unfold ltof in IH. intros b.
  destruct s as [|p [|q s]]; cbn [string_map Hex.DecodeString].
  { by intros [= <-]. }
  { by destruct (Hex.nibble p). }
  destruct (Hex.nibble p) as [m|] eqn:Em, (Hex.nibble q) as [n|] eqn:En; try done.
  destruct (nibble_lower _ _ Em) as [-> Hm], (nibble_lower _ _ En) as [-> Hn].
  destruct (Hex.DecodeString s) as [b'|] eqn:E; [|done]. cbn. intros [= <-].
  rewrite (IH s) with (b := b') by (simpl; auto with lia). cbn [EncodeToString].
  rewrite byte_of_nibbles_to_N by done. do 2 f_equal.
  - f_equal. rewrite N.mul_comm, N.div_add_l, N.div_small; lia.
  - f_equal. f_equal. rewrite N.mul_comm, N.Div0.add_mod, N.Div0.mod_mul, N.mod_small; rewrite ?N.mod_small; lia.
Qed.

Lemma EncodeToString_no_0x b : HasPrefix (EncodeToString b) "0x" = false.
Proof.
  destruct b as [|x b]; [done|]. cbn [EncodeToString HasPrefix].
  assert (Ascii.eqb "x" (lower_hex_digit (Byte.to_N x mod 16)) = false) as -> by (by destruct x).
  by rewrite andb_false_r.
Qed.

(** The hex reader accepts exactly the hexadecimal spellings of a byte string, in either
    case, and a contract id is turned into its strkey with or without the 0x prefix. *)
Theorem hex_contract_strkey {UT : UnicodeTables} {XS : XdrSdk} s b :
  (Hex.DecodeString s = Ok b ↔ string_map lower_byte s = EncodeToString b) ∧
  HexToContractStrkey ("0x" +:+ EncodeToString b) = Encode VersionByteContract b ∧
  HexToContractStrkey (EncodeToString b) = Encode VersionByteContract b.
Proof.
  unfold HexToContractStrkey. rewrite TrimPrefix_app, TrimPrefix_none by apply EncodeToString_no_0x.
  rewrite DecodeString_Encode. split; [|done]. split.
  - apply hex_decode_sound.
  - intros E. rewrite <- hex_decode_lower; rewrite E; by rewrite DecodeString_Encode.
Qed.
(** ** Witnesses *)

Import DemoXdr.

Lemma address_roundtrip_witness :
  ∃ strkeys, AddressVecFromScVal (AddressSliceToScVal strkeys) = GVal [key1; key2].
Proof.
  destruct (address_roundtrip [(VersionByteAccountID, key1); (VersionByteContract, key2)])
    as (ss & _ & E); [repeat constructor|]. exists ss. exact E.
Defined.

Lemma invalid_address_not_reported_witness :
  AddressToScVal "not an address" = AddressToScVal "".
Proof. apply (invalid_address_not_reported "not an address"). reflexivity. Defined.

Definition demo_fields : gmap string ScVal :=
  <["b" := Uint64ToScVal 2]> (<["a" := BoolToScVal true]> ∅).

Lemma struct_map_canonical_witness :
  ∃ entries,
    BuildStructScVal ["b"; "a"] demo_fields = GVal (ScvMap (Some (Some entries))) ∧
    BuildStructScVal ["a"; "b"] demo_fields = GVal (ScvMap (Some (Some entries))).
Proof.
  destruct (struct_map_canonical ["b"; "a"] ["a"; "b"] demo_fields) as (es & H1 & H2 & _);
    [by vm_compute; repeat constructor..|]. exists es. exact (conj H1 H2).
Defined.

Lemma readers_never_panic_witness :
  panics (AddressFromScVal (ScvAddress (Some (address_of VersionByteContract key1)))) = false.
Proof. apply readers_never_panic. reflexivity. Defined.
End ScValProps.
