(* ===== verification/TypeConverters.v ===== *)
(** [relayer/type_converters.go]: Soroban values, event filters and events between the
    relayer's domain types and the SDK's.

    One definition per function. [convertScValFromDomain] and [convertScValToDomain] recurse
    through vectors and maps as the code does. Class [RpcSdk] has the constants and the
    cursor parser of the SDK's rpc protocol package and the constants of chainlink-common. *)

From Stdlib Require Import Strings.Byte.
From stdpp Require Import base gmap list strings pretty.
From S2P Require Import Prelude GoStrings Xdr ScVal.
Import Xdr.

Local Open Scope Z_scope.

Class RpcSdk := {
  (* protocols/rpc *)
  protocol_EventTypeSystem : string;
  protocol_EventTypeContract : string;
  WildCardExactOne : string;
  WildCardZeroOrMore : string;
  FormatBase64 : string;
  Cursor : Type;
  ParseCursor : string → result Cursor;
  (* chainlink-common *)
  SimulateAuthModeEnforce : string;
  SimulateAuthModeRecord : string;
  SimulateAuthModeRecordAllowNonroot : string
}.

Module TypeConverters.

(** ** Data *)

(** [stellartypes.EventType]; another value has the text that [%v] prints. *)
Inductive EventType := EventTypeSystem | EventTypeContract | EventTypeOther (text : string).

Record TopicSegment := mkTopicSegment { Wildcard : option string; Value : option Domain.ScVal }.
Definition TopicFilter : Type := list TopicSegment.
Record EventFilter := mkEventFilter {
  EventTypes : list EventType;
  ContractIDs : list string;
  Topics : list TopicFilter
}.
Record PaginationOptions := mkPagination { PageCursor : string; Limit : Z }.
Record GetEventsRequest := mkGetEventsRequest {
  StartLedger : Z;
  EndLedger : Z;
  Filters : list EventFilter;
  Pagination : option PaginationOptions
}.
Record EventInfo := mkEventInfo {
  eiEventType : EventType;
  eiLedger : Z;
  eiLedgerClosedAt : string;
  eiContractID : string;
  eiID : string;
  eiOperationIndex : Z;
  eiTransactionIndex : Z;
  eiTransactionHash : string;
  eiTopics : list Domain.ScVal;
  eiValue : Domain.ScVal
}.
Record GetEventsResponse := mkGetEventsResponse {
  Events : list EventInfo;
  evCursor : string;
  LatestLedger : Z;
  OldestLedger : Z;
  LatestLedgerCloseTime : Z;
  OldestLedgerCloseTime : Z
}.

(** The protocol package's side. *)
Record SegmentFilter := mkSegmentFilter { sfWildcard : option string; sfScVal : option ScVal }.
Record protocol_EventFilter := mkProtocolFilter {
  pfEventType : gset string;
  pfContractIDs : list string;
  pfTopics : list (list SegmentFilter)
}.
Record protocol_Pagination `{RpcSdk} := mkProtocolPagination { ppCursor : option Cursor; ppLimit : Z }.
Record protocol_GetEventsRequest `{RpcSdk} := mkProtocolRequest {
  prStartLedger : Z;
  prEndLedger : Z;
  prFilters : list protocol_EventFilter;
  prPagination : option protocol_Pagination;
  prFormat : string
}.
Record protocol_EventInfo := mkProtocolEvent {
  peEventType : string;
  peLedger : Z;
  peLedgerClosedAt : string;
  peContractID : string;
  peID : string;
  peOpIndex : Z;
  peTxIndex : Z;
  peTransactionHash : string;
  peTopicXDR : list string;
  peValueXDR : string
}.
Record protocol_GetEventsResponse := mkProtocolResponse {
  psEvents : list protocol_EventInfo;
  psCursor : string;
  psLatestLedger : Z;
  psOldestLedger : Z;
  psLatestLedgerCloseTime : Z;
  psOldestLedgerCloseTime : Z
}.

Section converters.
Context {XS : XdrSdk} {RS : RpcSdk}.

Definition errNilScValField (name : string) : string :=
  "scVal of declared type has nil " +:+ name +:+ " field".

(** ** Domain to XDR *)

Definition convertAddressToDomain (a : Domain.ScAddress) : gres ScAddress :=
  match a with
  | Domain.ScAddressTypeAccountID b =>
      if negb (length b =? 32)%nat
      then GErr ("account id must be 32 bytes, got " +:+ pretty (length b))
      else
        gAddr ← gwrap "encode account id" (of_result (Encode VersionByteAccountID b));
        accountID ← gwrap "build account address" (of_result (AddressToAccountId gAddr));
        GVal (AddressTypeAccount (Some accountID))
  | Domain.ScAddressTypeContractID b =>
      if negb (length b =? 32)%nat
      then GErr ("contract id must be 32 bytes, got " +:+ pretty (length b))
      else nonnil "failed to build contract address" (ScVal.BuildContractScAddress b)
  | _ => GErr ("unsupported ScAddress type " +:+ pretty (domain_ScAddressType a)
               +:+ " as contract argument")
  end.

(** [if v.F == nil { return errNilScValField("F") }], then the arm built from [*v.F]. *)
Definition field {A} (name : string) (mk : option A → ScVal) (p : option A) : gres ScVal :=
  match p with None => GErr (errNilScValField name) | Some a => GVal (mk (Some a)) end.

Fixpoint convertScValFromDomain (v : Domain.ScVal) : gres ScVal :=
  match v with
  | Domain.ScValTypeBool p => field "Bool" ScvBool p
  | Domain.ScValTypeVoid => GVal ScvVoid
  | Domain.ScValTypeU32 p => field "U32" ScvU32 p
  | Domain.ScValTypeI32 p => field "I32" ScvI32 p
  | Domain.ScValTypeU64 p => field "U64" ScvU64 p
  | Domain.ScValTypeI64 p => field "I64" ScvI64 p
  | Domain.ScValTypeTimepoint p => field "Timepoint" ScvTimepoint p
  | Domain.ScValTypeDuration p => field "Duration" ScvDuration p
  | Domain.ScValTypeU128 p => field "U128" ScvU128 p
  | Domain.ScValTypeI128 p => field "I128" ScvI128 p
  | Domain.ScValTypeU256 p => field "U256" ScvU256 p
  | Domain.ScValTypeI256 p => field "I256" ScvI256 p
  | Domain.ScValTypeBytes b => GVal (ScvBytes (Some b))
  | Domain.ScValTypeString p => field "String" ScvString p
  | Domain.ScValTypeSymbol p => field "Symbol" ScvSymbol p
  | Domain.ScValTypeVec None => GErr (errNilScValField "Vec")
  | Domain.ScValTypeVec (Some values) =>
      items ← gimapM (λ i e,
        match e with
        | None => GErr ("vec element " +:+ pretty i +:+ " is nil")
        | Some e => gwrap ("vec element " +:+ pretty i) (convertScValFromDomain e)
        end) values;
      GVal (ScvVec (Some (Some items)))
  | Domain.ScValTypeMap None => GErr (errNilScValField "Map")
  | Domain.ScValTypeMap (Some es) =>
      entries ← gimapM (λ i e,
        match e with
        | (Some key, Some val) =>
            k ← gwrap ("map entry " +:+ pretty i +:+ " key") (convertScValFromDomain key);
            v ← gwrap ("map entry " +:+ pretty i +:+ " val") (convertScValFromDomain val);
            GVal (k, v)
        | _ => GErr ("map entry " +:+ pretty i +:+ " has nil key or val")
        end) es;
      GVal (ScvMap (Some (Some entries)))
  | Domain.ScValTypeAddress None => GErr (errNilScValField "Address")
  | Domain.ScValTypeAddress (Some a) =>
      addr ← convertAddressToDomain a; GVal (ScvAddress (Some addr))
  | _ => GErr ("unsupported ScVal type " +:+ pretty (domain_ScValType v)
               +:+ " as contract argument")
  end.

Definition convertScValsToDomain (vals : list Domain.ScVal) : gres (list ScVal) :=
  gimapM (λ i v, gwrap ("arg[" +:+ pretty i +:+ "]") (convertScValFromDomain v)) vals.

(** ** XDR to domain *)

Definition convertScErrorTypeToDomain (value : ScErrorType) : gres Domain.ScErrorType :=
  match value with
  | SceContract => GVal Domain.ScErrorTypeContract
  | SceWasmVm => GVal Domain.ScErrorTypeWasmVM
  | SceContext => GVal Domain.ScErrorTypeContext
  | SceStorage => GVal Domain.ScErrorTypeStorage
  | SceObject => GVal Domain.ScErrorTypeObject
  | SceCrypto => GVal Domain.ScErrorTypeCrypto
  | SceEvents => GVal Domain.ScErrorTypeEvents
  | SceBudget => GVal Domain.ScErrorTypeBudget
  | SceValue => GVal Domain.ScErrorTypeValue
  | SceAuth => GVal Domain.ScErrorTypeAuth
  | SceOther _ => GErr ("unsupported sc error type: " +:+ ScErrorType_String value)
  end.

Definition convertScErrorToDomain (value : ScError) : gres Domain.ScError :=
  errorType ← convertScErrorTypeToDomain (seType value);
  if decide (seType value = SceContract) then
    code ← nonnil "contract error code is nil" (seContractCode value);
    GVal (Domain.mkScError errorType (Some code) None)
  else
    code ← nonnil "error code is nil" (seCode value);
    GVal (Domain.mkScError errorType None (Some (ScErrorCode code))).

Definition convertScAddressToDomain (value : ScAddress) : gres Domain.ScAddress :=
  match value with
  | AddressTypeAccount p =>
      accountId ← nonnil "account id is nil" p;
      r ← GetEd25519 accountId;
      ed25519 ← nonnil "account id ed25519 arm is not set" r;
      GVal (Domain.ScAddressTypeAccountID ed25519)
  | AddressTypeContract p =>
      hash ← nonnil "contract id is nil" p; GVal (Domain.ScAddressTypeContractID hash)
  | AddressTypeMuxedAccount p =>
      m ← nonnil "muxed account is nil" p;
      GVal (Domain.ScAddressTypeMuxedAccount (Some (Domain.mkMuxed (muxedId m) (muxedEd25519 m))))
  | AddressTypeClaimableBalance p =>
      c ← nonnil "claimable balance id is nil" p;
      r ← GetV0 c;
      v0 ← nonnil "claimable balance v0 arm is not set" r;
      GVal (Domain.ScAddressTypeClaimableBalanceID (Some v0))
  | AddressTypeLiquidityPool p =>
      hash ← nonnil "liquidity pool id is nil" p; GVal (Domain.ScAddressTypeLiquidityPoolID hash)
  | AddressTypeOther _ => GErr ("unsupported sc address type: " +:+ ScAddressType_String value)
  end.

Definition convertContractExecutableToDomain (value : ContractExecutable)
  : gres Domain.ContractExecutable :=
  match value with
  | ExecutableWasm p =>
      h ← nonnil "wasm hash is nil" p; GVal (Domain.ContractExecutableTypeWasmHash h)
  | ExecutableStellarAsset => GVal (Domain.ContractExecutableTypeStellarAsset true)
  | ExecutableOther _ =>
      GErr ("unsupported contract executable type: " +:+ ContractExecutableType_String value)
  end.

(** [convertScMapToDomain] and [convertScContractInstanceToDomain], which the converter of
    values calls and which call it. *)
Definition map_to_domain (convert : ScVal → gres Domain.ScVal) (m : list (ScVal * ScVal))
  : gres (list (option Domain.ScVal * option Domain.ScVal)) :=
  gimapM (λ i entry,
    key ← gwrap ("map[" +:+ pretty i +:+ "].key") (convert (fst entry));
    val ← gwrap ("map[" +:+ pretty i +:+ "].val") (convert (snd entry));
    GVal (Some key, Some val)) m.

Definition instance_to_domain (convert : ScVal → gres Domain.ScVal)
    (value : ContractExecutable * option (list (ScVal * ScVal)))
  : gres (Domain.ContractExecutable * list (option Domain.ScVal * option Domain.ScVal)) :=
  match value with
  | (e, st) =>
      executable ← gwrap "executable" (convertContractExecutableToDomain e);
      match st with
      | None => GVal (executable, [])
      | Some st =>
          storage ← gwrap "storage" (map_to_domain convert st); GVal (executable, storage)
      end
  end.

(** The arm's pointer is tested, then copied into the domain's field. *)
Definition copied {A} (name : string) (mk : option A → Domain.ScVal) (p : option A)
  : gres Domain.ScVal :=
  v ← nonnil (name +:+ " value is nil") p; GVal (mk (Some v)).

Fixpoint convertScValToDomain (value : ScVal) : gres Domain.ScVal :=
  match value with
  | ScvBool p => copied "bool" Domain.ScValTypeBool p
  | ScvVoid => GVal Domain.ScValTypeVoid
  | ScvError p =>
      e ← nonnil "error value is nil" p;
      converted ← convertScErrorToDomain e;
      GVal (Domain.ScValTypeError (Some converted))
  | ScvU32 p => copied "u32" Domain.ScValTypeU32 p
  | ScvI32 p => copied "i32" Domain.ScValTypeI32 p
  | ScvU64 p => copied "u64" Domain.ScValTypeU64 p
  | ScvI64 p => copied "i64" Domain.ScValTypeI64 p
  | ScvTimepoint p => copied "timepoint" Domain.ScValTypeTimepoint p
  | ScvDuration p => copied "duration" Domain.ScValTypeDuration p
  | ScvU128 p => copied "u128" Domain.ScValTypeU128 p
  | ScvI128 p => copied "i128" Domain.ScValTypeI128 p
  | ScvU256 p => copied "u256" Domain.ScValTypeU256 p
  | ScvI256 p => copied "i256" Domain.ScValTypeI256 p
  | ScvBytes p => b ← nonnil "bytes value is nil" p; GVal (Domain.ScValTypeBytes b)
  | ScvString p => copied "string" Domain.ScValTypeString p
  | ScvSymbol p => copied "symbol" Domain.ScValTypeSymbol p
  | ScvVec None => GErr "vec value is nil"
  | ScvVec (Some None) => GVal (Domain.ScValTypeVec (Some []))
  | ScvVec (Some (Some l)) =>
      values ← gimapM (λ i item,
        converted ← gwrap ("vec[" +:+ pretty i +:+ "]") (convertScValToDomain item);
        GVal (Some converted)) l;
      GVal (Domain.ScValTypeVec (Some values))
  | ScvMap None => GErr "map value is nil"
  | ScvMap (Some None) => GVal (Domain.ScValTypeMap (Some []))
  | ScvMap (Some (Some m)) =>
      entries ← map_to_domain convertScValToDomain m;
      GVal (Domain.ScValTypeMap (Some entries))
  | ScvAddress p =>
      a ← nonnil "address value is nil" p;
      converted ← convertScAddressToDomain a;
      GVal (Domain.ScValTypeAddress (Some converted))
  | ScvContractInstance None => GErr "contract instance value is nil"
  | ScvContractInstance (Some i) =>
      converted ← instance_to_domain convertScValToDomain i;
      GVal (Domain.ScValTypeContractInstance (Some converted))
  | ScvLedgerKeyContractInstance => GVal Domain.ScValTypeLedgerKeyContractInstance
  | ScvLedgerKeyNonce p =>
      n ← nonnil "nonce key value is nil" p; GVal (Domain.ScValTypeNonceKey (Some n))
  | ScvOther _ => GErr ("unsupported scval type: " +:+ ScValType_String (scType value))
  end.

Definition convertScMapToDomain := map_to_domain convertScValToDomain.
Definition convertScContractInstanceToDomain := instance_to_domain convertScValToDomain.

Definition decodeScValBase64ToDomain (encoded : string) : gres Domain.ScVal :=
  value ← of_result (UnmarshalScVal encoded); convertScValToDomain value.

(** ** Event filters *)

Definition convertSegment (i : nat) (segment : TopicSegment) : gres SegmentFilter :=
  let at_i := "segments[" +:+ pretty i +:+ "]: " in
  match Wildcard segment, Value segment with
  | Some _, Some _ => GErr (at_i +:+ "topic segment cannot set both wildcard and value")
  | None, None => GErr (at_i +:+ "topic segment must set either wildcard or value")
  | Some w, None =>
      if negb (bool_decide (w = WildCardExactOne)) && negb (bool_decide (w = WildCardZeroOrMore))
      then GErr (at_i +:+ "wildcard must be '*' or '**'")
      else GVal (mkSegmentFilter (Some w) None)
  | None, Some v =>
      value ← gwrap (at_i +:+ "value") (convertScValFromDomain v);
      GVal (mkSegmentFilter None (Some value))
  end.

Definition convertTopicFilterFromDomain (topic : TopicFilter) : gres (list SegmentFilter) :=
  match topic with
  | [] => GErr "topic filter must have at least one segment"
  | _ => gimapM convertSegment topic
  end.

Definition convertEventType (i : nat) (eventType : EventType) : gres string :=
  match eventType with
  | EventTypeSystem => GVal protocol_EventTypeSystem
  | EventTypeContract => GVal protocol_EventTypeContract
  | EventTypeOther text =>
      GErr ("eventTypes[" +:+ pretty i +:+ "]: unsupported event type: " +:+ text)
  end.

Definition convertEventFilterFromDomain (f : EventFilter) : gres protocol_EventFilter :=
  eventTypes ← gimapM convertEventType (EventTypes f);
  topics ← gimapM (λ i topic,
    gwrap ("topics[" +:+ pretty i +:+ "]") (convertTopicFilterFromDomain topic)) (Topics f);
  GVal (mkProtocolFilter (list_to_set eventTypes) (ContractIDs f) topics).

Definition convertPagination (p : PaginationOptions) : gres protocol_Pagination :=
  if decide (PageCursor p = "") then GVal (mkProtocolPagination _ None (uint64 (Limit p)))
  else
    cursor ← gwrap "pagination.cursor" (of_result (ParseCursor (PageCursor p)));
    GVal (mkProtocolPagination _ (Some cursor) (uint64 (Limit p))).

Definition convertGetEventsRequestsFromDomain (req : GetEventsRequest)
  : gres protocol_GetEventsRequest :=
  if negb (StartLedger req =? 0) && negb (EndLedger req =? 0) && (EndLedger req <? StartLedger req)
  then GErr ("invalid ledger range: startLedger (" +:+ pretty (StartLedger req)
             +:+ ") must be <= endLedger (" +:+ pretty (EndLedger req) +:+ ")")
  else
    filters ← gimapM (λ i f,
      gwrap ("filters[" +:+ pretty i +:+ "]") (convertEventFilterFromDomain f)) (Filters req);
    pagination ←
      match Pagination req with
      | None => GVal None
      | Some p => Some <$> convertPagination p
      end;
    GVal (mkProtocolRequest _ (StartLedger req) (EndLedger req) filters pagination FormatBase64).

(** ** Events *)

Definition convertEventInfoToDomain (event : protocol_EventInfo) : gres EventInfo :=
  if peLedger event <? 0
  then GErr ("ledger must be non-negative: " +:+ pretty (peLedger event))
  else
    eventType ←
      (if decide (peEventType event = protocol_EventTypeSystem) then GVal EventTypeSystem
       else if decide (peEventType event = protocol_EventTypeContract) then GVal EventTypeContract
       else GErr ("unsupported event type: " +:+ peEventType event));
    topics ← gimapM (λ i topicXDR,
      gwrap ("topics[" +:+ pretty i +:+ "]") (decodeScValBase64ToDomain topicXDR))
      (peTopicXDR event);
    if decide (peValueXDR event = "") then GErr "value is required"
    else
      value ← gwrap "value" (decodeScValBase64ToDomain (peValueXDR event));
      GVal (mkEventInfo eventType (uint32 (peLedger event)) (peLedgerClosedAt event)
              (peContractID event) (peID event) (peOpIndex event) (peTxIndex event)
              (peTransactionHash event) topics value).

Definition convertGetEventsResponseToDomain (resp : protocol_GetEventsResponse)
  : gres GetEventsResponse :=
  events ← gimapM (λ i event,
    gwrap ("events[" +:+ pretty i +:+ "]") (convertEventInfoToDomain event)) (psEvents resp);
  GVal (mkGetEventsResponse events (psCursor resp) (psLatestLedger resp) (psOldestLedger resp)
          (psLatestLedgerCloseTime resp) (psOldestLedgerCloseTime resp)).

(** ** Authorization modes *)

Definition validateSimulateAuthMode (mode : string) : result string :=
  if decide (mode = "") then Ok SimulateAuthModeRecord
  else if decide (mode = SimulateAuthModeEnforce ∨ mode = SimulateAuthModeRecord ∨
                  mode = SimulateAuthModeRecordAllowNonroot) then Ok mode
  else Err ("unsupported auth mode: " +:+ mode).
End converters.
End TypeConverters.
