(* ===== verification/TypeConvertersProps.v ===== *)
(** Properties of the relayer's type converters: round trips between the two
    representations of Soroban values, totality on values from the wire, and exact
    acceptance conditions of requests, filters and events. *)

From Stdlib Require Import Strings.Byte.
From stdpp Require Import base gmap list strings pretty.
From S2P Require Import Prelude GoStrings Xdr ScVal TypeConverters.
Import Xdr TypeConverters.

Local Open Scope Z_scope.

Module TypeConvertersProps.

(** ** Loops *)

(** A loop that undoes another one, element by element. *)
Lemma gimapM_undo {A B} (f : nat → A → gres B) (g : nat → B → gres A) l : ∀ i k ys,
  (∀ j j' x y, x ∈ l → f j x = GVal y → g j' y = GVal x) →
  gimapM_from f i l = GVal ys → gimapM_from g k ys = GVal l.
Proof.
  induction l as [|x l IH]; intros i k ys Hfg; simpl; [by intros [= <-]|].
  intros (y & Hy & (ys' & Hys & [= <-])%gbind_GVal)%gbind_GVal. cbn [gimapM_from].
  rewrite (Hfg i k x y (list_elem_of_here _ _) Hy). cbn.
  rewrite (IH (S i) (S k) ys'); [done|intros; eapply Hfg; [by right|done]|done].
Qed.

Lemma gimapM_Forall {A B} (f : nat → A → gres B) (Q : B → Prop) i l ys :
  (∀ j x y, x ∈ l → f j x = GVal y → Q y) → gimapM_from f i l = GVal ys → Forall Q ys.
Proof.
  intros Hf Hl. apply (gimapM_from_Forall2 f (λ _ y, Q y)) in Hl; [|done].
  clear Hf. by induction Hl; constructor.
Qed.

Lemma gimapM_total {A B} (f : nat → A → gres B) l : ∀ i,
  (∀ j x, x ∈ l → ∃ y, f j x = GVal y) → ∃ ys, gimapM_from f i l = GVal ys.
Proof.
  induction l as [|x l IH]; intros i Hf; simpl; [by eexists|].
  destruct (Hf i x (list_elem_of_here _ _)) as [y ->]. cbn.
  destruct (IH (S i)) as [ys ->]; [intros; apply Hf; by right|]. by eexists.
Qed.

(** A result that depends on a test: the value when it holds, an error otherwise. *)
Definition decided {A} (b : bool) (a : A) (g : gres A) : Prop :=
  if b then g = GVal a else ∃ e, g = GErr e.

Lemma gimapM_decided {A B C} (f : nat → A → gres B) (test : C → bool) (h : C → B) cs xs :
  Forall2 (λ c x, ∀ j, decided (test c) (h c) (f j x)) cs xs →
  ∀ i, decided (forallb test cs) (h <$> cs) (gimapM_from f i xs).
Proof.
  induction 1 as [|c x cs xs Hc Hcs IH]; intros i; [done|]. cbn [forallb fmap list_fmap gimapM_from].
  specialize (Hc i). unfold decided in *. destruct (test c).
  - rewrite Hc. cbn. specialize (IH (S i)). destruct (forallb test cs).
    + by rewrite IH.
    + destruct IH as [e ->]. by eexists.
  - destruct Hc as [e ->]. by eexists.
Qed.

Lemma decided_bind {A B} b b' (a : A) (c : B) g (f : A → gres B) :
  decided b a g → decided b' c (f a) → decided (b && b') c (g ≫= f).
Proof.
  unfold decided. destruct b; [|intros [e ->] _; by eexists]. intros -> Hf. cbn. by destruct b'.
Qed.

Lemma decided_wrap {A} b (a : A) ctx g : decided b a g → decided b a (gwrap ctx g).
Proof. unfold decided. destruct b; [by intros ->|]. intros [e ->]. by eexists. Qed.

Lemma gimapM_Forall2_GVal {A B} (f : nat → A → gres B) l ys :
  Forall2 (λ x y, ∀ j, f j x = GVal y) l ys → ∀ i, gimapM_from f i l = GVal ys.
Proof.
  induction 1 as [|x y l ys Hx Hl IH]; intros i; [done|]. cbn [gimapM_from].
  rewrite (Hx i). cbn. by rewrite (IH (S i)).
Qed.

(** ** Domain to XDR and back *)

Section roundtrip.
Context {XS : XdrSdk} {XL : XdrLaws} {RS : RpcSdk}.

Lemma address_from_to a x :
  convertAddressToDomain a = GVal x →
  valid_address x = true ∧ convertScAddressToDomain x = GVal a.
Proof.
  destruct a as [b|b| | | |]; cbn; [..|done|done|done|done];
    destruct (Nat.eqb_spec (length b) 32) as [Hb|]; cbn; try done.
  - destruct (Encode VersionByteAccountID b) as [s|] eqn:E; cbn; [|done].
    rewrite (AddressToAccountId_Encode b s Hb E). intros [= <-]. cbn. by rewrite Hb.
  - unfold ScVal.BuildContractScAddress. rewrite Hb. cbn.
    change (x00 :: x00 :: x00 :: x01 :: b) with ([x00; x00; x00; x01] ++ b).
    rewrite (Unmarshal_contract b Hb). intros [= <-]. cbn. by rewrite Hb.
Qed.

(** One element of a vector, one entry of a map. *)
Definition from_to (w : Domain.ScVal) : Prop := ∀ x,
  convertScValFromDomain w = GVal x → valid x = true ∧ convertScValToDomain x = GVal w.

Lemma vec_elem_from_to e j y : P_opt from_to e →
  match e with
  | None => GErr ("vec element " +:+ pretty (j : nat) +:+ " is nil")
  | Some e => gwrap ("vec element " +:+ pretty j) (convertScValFromDomain e)
  end = GVal y →
  valid y = true ∧
  ∀ ctx, (converted ← gwrap ctx (convertScValToDomain y); GVal (Some converted)) = GVal e.
Proof.
  destruct e as [e|]; [|done]. intros He Hy%gwrap_GVal. destruct (He y Hy) as [Hv Ht].
  split; [done|]. intros ctx. by rewrite Ht.
Qed.

Lemma map_elem_from_to e j y : P_opt from_to (fst e) ∧ P_opt from_to (snd e) →
  match e with
  | (Some key, Some val) =>
      k ← gwrap ("map entry " +:+ pretty (j : nat) +:+ " key") (convertScValFromDomain key);
      v ← gwrap ("map entry " +:+ pretty j +:+ " val") (convertScValFromDomain val);
      GVal (k, v)
  | _ => GErr ("map entry " +:+ pretty j +:+ " has nil key or val")
  end = GVal y →
  valid (fst y) && valid (snd y) = true ∧
  ∀ c c', (key ← gwrap c (convertScValToDomain (fst y));
           val ← gwrap c' (convertScValToDomain (snd y)); GVal (Some key, Some val)) = GVal e.
Proof.
  destruct e as [[k|] [w|]]; try done. cbn [fst snd]. intros [Hk Hw].
  intros (k' & Hk'%gwrap_GVal & (w' & Hw'%gwrap_GVal & [= <-])%gbind_GVal)%gbind_GVal.
  destruct (Hk k' Hk') as [Hvk Htk], (Hw w' Hw') as [Hvw Htw]. cbn.
  split; [by rewrite Hvk, Hvw|]. intros c c'. by rewrite Htk, Htw.
Qed.

(** By induction through vectors and maps. *)
Lemma scval_from_to_roundtrip_lemma v x :
  convertScValFromDomain v = GVal x → valid x = true ∧ convertScValToDomain x = GVal v.
Proof.
  revert x. induction v as [v Hv|l IH|l IH] using domain_nested_ind; intros x.
  - destruct v as [[]| | |[]|[]|[]|[]|[]|[]|[]|[]|[]|[]| |[]|[]|[]|[]|[a|]| | | |]; try done;
      try (by intros [= <-]). cbn.
    intros (y & Ha & [= <-])%gbind_GVal. destruct (address_from_to a y Ha) as [Hy Ha'].
    cbn. by rewrite Ha'.
  - cbn [convertScValFromDomain]. intros (ys & Hl & [= <-])%gbind_GVal.
    rewrite Forall_forall in IH. split.
    + cbn [valid]. apply Is_true_true, forallb_True.
      eapply gimapM_Forall; [|exact Hl]. intros j e y Hin Hy. apply Is_true_true.
      exact (proj1 (vec_elem_from_to e j y (IH e Hin) Hy)).
    + cbn [convertScValToDomain]. unfold gimapM. erewrite gimapM_undo; [done| |exact Hl]. intros j j' e y Hin Hy.
      apply (proj2 (vec_elem_from_to e j y (IH e Hin) Hy)).
  - cbn [convertScValFromDomain]. intros (ys & Hl & [= <-])%gbind_GVal.
    rewrite Forall_forall in IH. split.
    + cbn [valid]. apply Is_true_true, forallb_True.
      eapply gimapM_Forall; [|exact Hl]. intros j e y Hin Hy. apply Is_true_true.
      exact (proj1 (map_elem_from_to e j y (IH e Hin) Hy)).
    + cbn [convertScValToDomain]. unfold map_to_domain, gimapM. erewrite gimapM_undo; [done| |exact Hl]. intros j j' e y Hin Hy.
      apply (proj2 (map_elem_from_to e j y (IH e Hin) Hy)).
Qed.

(** C40. A domain value that is accepted as a contract argument becomes a well-formed XDR
    value that converts back to exactly the same domain value: nothing is lost or
    reinterpreted, at any depth of vectors and maps. *)
Theorem scval_from_to_roundtrip v x :
  convertScValFromDomain v = GVal x → valid x = true ∧ convertScValToDomain x = GVal v.
Proof. apply scval_from_to_roundtrip_lemma. Qed.

(** ** XDR to domain and back *)

(** The values the domain accepts back as contract arguments. *)
Definition argument_address (a : ScAddress) : bool :=
  match a with AddressTypeAccount _ | AddressTypeContract _ => true | _ => false end.
Fixpoint argument (x : ScVal) : bool :=
  match x with
  | ScvError _ | ScvContractInstance _ | ScvLedgerKeyContractInstance | ScvLedgerKeyNonce _
  | ScvOther _ => false
  | ScvAddress (Some a) => argument_address a
  | ScvVec (Some (Some l)) => forallb argument l
  | ScvMap (Some (Some l)) => forallb (λ kv : ScVal * ScVal, argument (fst kv) && argument (snd kv)) l
  | _ => true
  end.

(** An absent vector or map comes back as an empty one. *)
Fixpoint canon (x : ScVal) : ScVal :=
  match x with
  | ScvVec (Some None) => ScvVec (Some (Some []))
  | ScvVec (Some (Some l)) => ScvVec (Some (Some (canon <$> l)))
  | ScvMap (Some None) => ScvMap (Some (Some []))
  | ScvMap (Some (Some l)) =>
      ScvMap (Some (Some ((λ kv : ScVal * ScVal, (canon (fst kv), canon (snd kv))) <$> l)))
  | x => x
  end.

Definition to_from (x : ScVal) : Prop :=
  valid x = true →
  ∃ v, convertScValToDomain x = GVal v ∧ decided (argument x) (canon x) (convertScValFromDomain v).

Lemma address_to_from a :
  valid_address a = true →
  ∃ d, convertScAddressToDomain a = GVal d ∧
    decided (argument_address a) a (convertAddressToDomain d).
Proof.
  destruct a as [[[[k|]|]|]|[k|]|[m|]|[[[k|]|]|]|[k|]|]; try done; cbn;
    try (intros _; eexists; split; [done|by eexists]).
  - intros Hk%Nat.eqb_eq. eexists. split; [done|]. unfold decided. cbn. rewrite Hk. cbn.
    pose proof (Encode_total VersionByteAccountID k Hk) as Ht.
    destruct (Encode VersionByteAccountID k) as [s|] eqn:E; [|done]. cbn.
    by rewrite (AddressToAccountId_Encode k s Hk E).
  - intros Hk%Nat.eqb_eq. eexists. split; [done|]. unfold decided. cbn.
    unfold ScVal.BuildContractScAddress. rewrite Hk.
    change (x00 :: x00 :: x00 :: x01 :: k) with ([x00; x00; x00; x01] ++ k). cbn -[app].
    by rewrite (Unmarshal_contract k Hk).
Qed.

Lemma executable_to e : valid_executable e = true → ∃ d, convertContractExecutableToDomain e = GVal d.
Proof. destruct e as [[h|]| |]; try done; intros _; by eexists. Qed.

Lemma error_to e : valid_error e = true → ∃ d, convertScErrorToDomain e = GVal d.
Proof. destruct e as [[] [c|] [d|]]; try done; intros _; by eexists. Qed.

Lemma items_to_from l :
  Forall to_from l → forallb valid l = true →
  ∃ vs, Forall2 (λ x v, convertScValToDomain x = GVal v ∧
    decided (argument x) (canon x) (convertScValFromDomain v)) l vs.
Proof.
  induction 1 as [|x l Hx Hl IH]; [by exists []|]. cbn. intros [Hv Hvl]%andb_true_iff.
  destruct (Hx Hv) as (v & ?), (IH Hvl) as (vs & ?). exists (v :: vs). by constructor.
Qed.

Lemma entries_to_from l :
  Forall (λ kv, to_from (fst kv) ∧ to_from (snd kv)) l →
  forallb (λ kv : ScVal * ScVal, valid (fst kv) && valid (snd kv)) l = true →
  ∃ ds, map_to_domain convertScValToDomain l = GVal ds ∧
    Forall2 (λ kv d, ∃ k w, d = (Some k, Some w) ∧
      decided (argument (fst kv)) (canon (fst kv)) (convertScValFromDomain k) ∧
      decided (argument (snd kv)) (canon (snd kv)) (convertScValFromDomain w)) l ds.
Proof.
  intros Hl. unfold map_to_domain, gimapM. generalize 0%nat as i.
  induction Hl as [|[x y] l [Hx Hy] Hl IH]; intros i; [by exists []|].
  cbn [forallb fst snd gimapM_from]. intros [[Hvx Hvy]%andb_true_iff Hvl]%andb_true_iff.
  destruct (Hx Hvx) as (k & Hk & Hdk), (Hy Hvy) as (w & Hw & Hdw), (IH (S i) Hvl) as (ds & Hds & Hf).
  exists ((Some k, Some w) :: ds). cbn [fst snd] in *. rewrite Hk, Hw. cbn [gwrap mbind gres_bind].
  rewrite Hds. split; [done|]. constructor; [|done]. by exists k, w.
Qed.

Lemma leaf_to_from x :
  match x with
  | ScvVec (Some (Some _)) | ScvMap (Some (Some _)) | ScvContractInstance (Some (_, Some _)) => False
  | _ => True
  end → to_from x.
Proof.
  intros Hx Hv. destruct x as [[]| |[e|]|[]|[]|[]|[]|[]|[]|[]|[]|[]|[]|[]|[]|[]|[[|]|]|[[|]|]
    |[a|]|[[e [|]]|]| |[]|]; try done; try (eexists; split; [done|]; cbn; by eauto).
  - destruct (error_to e Hv) as [d Hd]. eexists. cbn. rewrite Hd. split; [done|]. by eexists.
  - destruct (address_to_from a Hv) as (d & Hd & Hf). eexists. cbn. rewrite Hd. split; [done|].
    cbn. rewrite <- (andb_true_r (argument_address a)). by eapply decided_bind.
  - cbn in Hv. rewrite andb_true_r in Hv. destruct (executable_to e Hv) as [d Hd].
    eexists. cbn. rewrite Hd. split; [done|]. by eexists.
Qed.

(** Every value that can come off the wire converts to the domain; converting it back
    gives the same value, an absent vector or map having become an empty one, when it is
    made of types that are legal contract arguments, and an error, never another value,
    when it is not. *)
Theorem scval_wire_to_domain x :
  valid x = true →
  ∃ v, convertScValToDomain x = GVal v ∧
    decided (argument x) (canon x) (convertScValFromDomain v).
Proof.
  change (to_from x). induction x as [x Hx|l IH|l IH|e l IH] using ScVal_nested_ind; intros Hv.
  - by apply leaf_to_from.
  - destruct (items_to_from l IH Hv) as (vs & Hvs).
    exists (Domain.ScValTypeVec (Some (Some <$> vs))).
    cbn [convertScValToDomain convertScValFromDomain argument canon].
    unfold gimapM. erewrite gimapM_Forall2_GVal; [split; [done|]|].
    + rewrite <- (andb_true_r (forallb argument l)). eapply decided_bind; [|done].
      apply gimapM_decided. apply Forall2_fmap_r. eapply Forall2_impl; [exact Hvs|].
      intros y v [_ Hd] j. by apply decided_wrap.
    + apply Forall2_fmap_r. eapply Forall2_impl; [exact Hvs|]. intros y v [Hy _] j. cbn. by rewrite Hy.
  - destruct (entries_to_from l IH Hv) as (ds & Hds & Hf).
    exists (Domain.ScValTypeMap (Some ds)).
    cbn [convertScValToDomain convertScValFromDomain argument canon]. rewrite Hds. split; [done|].
    rewrite <- (andb_true_r (forallb _ l)). eapply decided_bind; [|done].
    apply gimapM_decided. eapply Forall2_impl; [exact Hf|].
    intros [y z] d (k & w & -> & Hk & Hw) j. cbn [fst snd] in *.
    eapply decided_bind; [by apply decided_wrap|].
    rewrite <- (andb_true_r (argument z)). eapply decided_bind; [by apply decided_wrap|done].
  - cbn [valid] in Hv. apply andb_true_iff in Hv as [He Hv].
    destruct (executable_to e He) as [d Hd], (entries_to_from l IH Hv) as (ds & Hds & _).
    exists (Domain.ScValTypeContractInstance (Some (d, ds))).
    cbn [convertScValToDomain instance_to_domain]. rewrite Hd. cbn [gwrap mbind gres_bind].
    rewrite Hds. split; [done|]. by eexists.
Qed.
End roundtrip.

(** ** Event requests *)

Section requests.
Context {XS : XdrSdk} {RS : RpcSdk}.

Lemma gimapM_iff {A B} (f : nat → A → gres B) (R : A → B → Prop) l ys :
  (∀ j x y, f j x = GVal y ↔ R x y) → gimapM f l = GVal ys ↔ Forall2 R l ys.
Proof.
  intros Hf. split.
  - apply gimapM_from_Forall2. intros j x y _. apply Hf.
  - intros Hl. apply gimapM_Forall2_GVal. eapply Forall2_impl; [exact Hl|].
    intros x y Hx j. by apply Hf.
Qed.

(** A segment is one of the two wildcards, or a value that converts. *)
Definition segment_rel (s : TopicSegment) (f : SegmentFilter) : Prop :=
  (∃ w, s = mkTopicSegment (Some w) None ∧ f = mkSegmentFilter (Some w) None ∧
     (w = WildCardExactOne ∨ w = WildCardZeroOrMore)) ∨
  (∃ v x, s = mkTopicSegment None (Some v) ∧ f = mkSegmentFilter None (Some x) ∧
     convertScValFromDomain v = GVal x).

Definition filter_rel (f : EventFilter) (p : protocol_EventFilter) : Prop :=
  (∀ t, t ∈ EventTypes f → t = EventTypeSystem ∨ t = EventTypeContract) ∧
  (∀ s, s ∈ pfEventType p ↔
     (s = protocol_EventTypeSystem ∧ EventTypeSystem ∈ EventTypes f) ∨
     (s = protocol_EventTypeContract ∧ EventTypeContract ∈ EventTypes f)) ∧
  pfContractIDs p = ContractIDs f ∧
  Forall2 (λ t q, t ≠ [] ∧ Forall2 segment_rel t q) (Topics f) (pfTopics p).

Definition pagination_rel (p : option PaginationOptions) (q : option protocol_Pagination) : Prop :=
  match p, q with
  | None, None => True
  | Some p, Some q =>
      ppLimit q = uint64 (Limit p) ∧
      match ppCursor q with
      | None => PageCursor p = ""
      | Some c => PageCursor p ≠ "" ∧ ParseCursor (PageCursor p) = Ok c
      end
  | _, _ => False
  end.

Lemma segment_iff j s f : convertSegment j s = GVal f ↔ segment_rel s f.
Proof.
  unfold convertSegment, segment_rel. destruct s as [[w|] [v|]]; cbn.
  - split; [done|]. intros [(? & ? & _)|(? & ? & ? & _)]; done.
  - case_bool_decide as E1; case_bool_decide as E2; cbn; naive_solver.
  - rewrite gbind_GVal. setoid_rewrite gwrap_GVal. naive_solver.
  - split; [done|]. intros [(? & ? & _)|(? & ? & ? & _)]; done.
Qed.

Lemma topic_iff t q : convertTopicFilterFromDomain t = GVal q ↔ t ≠ [] ∧ Forall2 segment_rel t q.
Proof.
  destruct t as [|s t]; [naive_solver|]. cbn [convertTopicFilterFromDomain].
  rewrite (gimapM_iff _ segment_rel) by apply segment_iff. naive_solver.
Qed.

Definition event_type_rel (t : EventType) (s : string) : Prop :=
  (t = EventTypeSystem ∧ s = protocol_EventTypeSystem) ∨
  (t = EventTypeContract ∧ s = protocol_EventTypeContract).
Lemma event_type_iff j t s : convertEventType j t = GVal s ↔ event_type_rel t s.
Proof. unfold event_type_rel. destruct t; naive_solver. Qed.

Lemma event_types_set ts ss : Forall2 event_type_rel ts ss ↔
  (∀ t, t ∈ ts → t = EventTypeSystem ∨ t = EventTypeContract) ∧
  ss = (λ t, match t with EventTypeSystem => protocol_EventTypeSystem
                        | _ => protocol_EventTypeContract end) <$> ts.
Proof.
  unfold event_type_rel. split.
  - induction 1 as [|t s ts ss Ht Hts [IH1 IH2]]; [set_solver|]. split; [set_solver|].
    rewrite fmap_cons, <- IH2. by destruct Ht as [[-> ->]|[-> ->]].
  - intros [Ht ->]. apply Forall2_fmap_r. induction ts as [|t ts IH]; [constructor|].
    constructor; [|set_solver]. destruct (Ht t (list_elem_of_here _ _)) as [-> | ->]; auto.
Qed.

Lemma filter_iff f p : convertEventFilterFromDomain f = GVal p ↔ filter_rel f p.
Proof.
  unfold convertEventFilterFromDomain, filter_rel. rewrite gbind_GVal.
  setoid_rewrite (gimapM_iff _ _ _ _ event_type_iff). setoid_rewrite event_types_set.
  setoid_rewrite gbind_GVal.
  setoid_rewrite (gimapM_iff _ (λ t q, t ≠ [] ∧ Forall2 segment_rel t q)).
  2: { intros. rewrite gwrap_GVal. apply topic_iff. }
  split.
  - intros (ss & [Ht ->] & qs & Hq & [= <-]). cbn. split_and!; [done| |done..].
    intros s. rewrite elem_of_list_to_set, list_elem_of_fmap. split.
    + intros (t & -> & Hin). destruct (Ht t Hin) as [-> | ->]; auto.
    + intros [[-> ?]|[-> ?]]; [by exists EventTypeSystem|by exists EventTypeContract].
  - intros (Ht & Hs & Hc & Hq). eexists. split; [done|]. eexists. split; [exact Hq|].
    destruct p as [set ids topics]. cbn in *. subst. do 2 f_equal. apply set_eq. intros s.
    rewrite elem_of_list_to_set, list_elem_of_fmap, Hs. split.
    + intros (t & -> & Hin). destruct (Ht t Hin) as [-> | ->]; auto.
    + intros [[-> ?]|[-> ?]]; [by exists EventTypeSystem|by exists EventTypeContract].
Qed.

Lemma pagination_iff p q :
  match p with None => GVal None | Some p => Some <$> convertPagination p end = GVal q ↔
  pagination_rel p q.
Proof.
  destruct p as [[c lim]|]; [|destruct q; naive_solver]. unfold convertPagination, pagination_rel.
  cbn. case_decide as Hc; cbn.
  - split; [intros [= <-]; by cbn|]. destruct q as [[[c'|] lim']|]; cbn; naive_solver.
  - destruct (ParseCursor c) as [c'|] eqn:E; cbn.
    + split; [intros [= <-]; by cbn|]. destruct q as [[[c''|] lim']|]; cbn; naive_solver.
    + split; [done|]. destruct q as [[[c''|] lim']|]; cbn; naive_solver.
Qed.

(** A GetEvents request is accepted exactly when its ledger range is not reversed, its
    event types are the two supported ones, every topic filter is non-empty with segments
    that are one of the two wildcards or a convertible value (never both, never neither),
    and its cursor parses; the accepted request keeps the range, the contract ids and the
    order of filters, topics and segments, and asks for base64. *)
Theorem get_events_request_exact req out :
  convertGetEventsRequestsFromDomain req = GVal out ↔
  ¬ (StartLedger req ≠ 0 ∧ EndLedger req ≠ 0 ∧ EndLedger req < StartLedger req) ∧
  prStartLedger out = StartLedger req ∧ prEndLedger out = EndLedger req ∧
  Forall2 filter_rel (Filters req) (prFilters out) ∧
  pagination_rel (Pagination req) (prPagination out) ∧ prFormat out = FormatBase64.
Proof.
  unfold convertGetEventsRequestsFromDomain.
  destruct (negb (StartLedger req =? 0) && _ && _) eqn:E.
  - split; [done|]. intros (Hn & _). exfalso. apply Hn.
    apply andb_true_iff in E as [E ?%Z.ltb_lt]. rewrite andb_true_iff, !negb_true_iff, !Z.eqb_neq in E.
    naive_solver.
  - assert (¬ (StartLedger req ≠ 0 ∧ EndLedger req ≠ 0 ∧ EndLedger req < StartLedger req)) as Hn.
    { intros (H1 & H2 & H3). rewrite <- Z.eqb_neq in H1, H2. rewrite <- Z.ltb_lt in H3.
      by rewrite H1, H2, H3 in E. }
    rewrite gbind_GVal. setoid_rewrite (gimapM_iff _ filter_rel).
    2: { intros. rewrite gwrap_GVal. apply filter_iff. }
    setoid_rewrite gbind_GVal. setoid_rewrite pagination_iff.
    destruct out as [s e fs p fmt]. cbn. naive_solver.
Qed.
End requests.

(** ** Events *)

Section events.
Context {XS : XdrSdk} {XL : XdrLaws} {RS : RpcSdk}.

Definition decodable (s : string) : bool := is_ok (UnmarshalScVal s).
Definition event_ok (e : protocol_EventInfo) : bool :=
  (0 <=? peLedger e) &&
  (bool_decide (peEventType e = protocol_EventTypeSystem ∨
                peEventType e = protocol_EventTypeContract) &&
  (forallb decodable (peTopicXDR e) &&
  (negb (bool_decide (peValueXDR e = "")) && decodable (peValueXDR e)))).

(** The domain value of an encoded one. *)
Definition decodes_to (s : string) (v : Domain.ScVal) : Prop :=
  ∃ x, UnmarshalScVal s = Ok x ∧ convertScValToDomain x = GVal v.

Definition event_rel (e : protocol_EventInfo) (d : EventInfo) : Prop :=
  (eiEventType d = EventTypeSystem ↔ peEventType e = protocol_EventTypeSystem) ∧
  eiLedger d = peLedger e ∧ eiLedgerClosedAt d = peLedgerClosedAt e ∧
  eiContractID d = peContractID e ∧ eiID d = peID e ∧ eiOperationIndex d = peOpIndex e ∧
  eiTransactionIndex d = peTxIndex e ∧ eiTransactionHash d = peTransactionHash e ∧
  Forall2 decodes_to (peTopicXDR e) (eiTopics d) ∧ decodes_to (peValueXDR e) (eiValue d).

(** A computation that yields a related value when a test holds, an error otherwise. *)
Definition decided_rel {A} (b : bool) (R : A → Prop) (g : gres A) : Prop :=
  if b then ∃ a, g = GVal a ∧ R a else ∃ e, g = GErr e.

Lemma decided_rel_bind {A B} b b' (R : A → Prop) (Q : B → Prop) g (f : A → gres B) :
  decided_rel b R g → (∀ a, R a → decided_rel b' Q (f a)) → decided_rel (b && b') Q (g ≫= f).
Proof.
  unfold decided_rel. destruct b; [|intros [e ->] _; by eexists]. intros (a & -> & Ha) Hf. by apply Hf.
Qed.

Lemma decided_rel_wrap {A} b (R : A → Prop) ctx g : decided_rel b R g → decided_rel b R (gwrap ctx g).
Proof. unfold decided_rel. destruct b; [intros (a & -> & ?); by exists a|intros [e ->]; by eexists]. Qed.

Lemma gimapM_decided_rel {A B} (f : nat → A → gres B) (test : A → bool) (R : A → B → Prop) l :
  Forall (λ x, ∀ j, decided_rel (test x) (R x) (f j x)) l →
  ∀ i, decided_rel (forallb test l) (Forall2 R l) (gimapM_from f i l).
Proof.
  induction 1 as [|x l Hx Hl IH]; intros i; [by exists []|]. cbn [forallb gimapM_from].
  eapply decided_rel_bind; [apply Hx|]. intros y Hy.
  rewrite <- (andb_true_r (forallb test l)). eapply decided_rel_bind; [apply IH|].
  intros ys Hys. exists (y :: ys). split; [done|by constructor].
Qed.

Lemma decode_decided s : decided_rel (decodable s) (decodes_to s) (decodeScValBase64ToDomain s).
Proof.
  unfold decodable, decodes_to, decodeScValBase64ToDomain.
  destruct (UnmarshalScVal s) as [x|e] eqn:E; cbn; [|by eexists].
  destruct (scval_wire_to_domain x (Unmarshal_valid s x E)) as (v & Hv & _).
  exists v. split; [done|]. by exists x.
Qed.

Lemma event_decided e :
  peLedger e < 2 ^ 31 → decided_rel (event_ok e) (event_rel e) (convertEventInfoToDomain e).
Proof.
  intros Hmax. unfold event_ok, convertEventInfoToDomain.
  destruct (Z.ltb_spec (peLedger e) 0) as [Hneg|Hpos].
  { rewrite (proj2 (Z.leb_gt 0 (peLedger e)) Hneg). by eexists. }
  rewrite (proj2 (Z.leb_le 0 (peLedger e)) Hpos). cbn [andb].
  eapply (decided_rel_bind _ _ (λ t, t = EventTypeSystem ↔ peEventType e = protocol_EventTypeSystem)).
  { unfold decided_rel. case_bool_decide as Ht.
    - case_decide as H1; [by exists EventTypeSystem|]. destruct Ht as [?|Ht]; [done|].
      rewrite decide_True by done. by exists EventTypeContract.
    - rewrite !decide_False by tauto. by eexists. }
  intros t Ht. eapply decided_rel_bind.
  { apply gimapM_decided_rel. apply Forall_forall. intros s _ j. apply decided_rel_wrap, decode_decided. }
  intros topics Htopics. case_bool_decide as Hv.
  { rewrite decide_True by done. by eexists. }
  rewrite decide_False by done. cbn [negb andb].
  rewrite <- (andb_true_r (decodable (peValueXDR e))). eapply decided_rel_bind.
  { apply decided_rel_wrap, decode_decided. }
  intros v Hd. eexists. split; [done|]. unfold event_rel. cbn. split_and!; try done.
  apply uint32_id, is_uint32_spec. lia.
Qed.

(** A page of events converts exactly when every event has a non-negative ledger, one of
    the two event types, decodable topics and a decodable non-empty value; the result has
    the same events in the same order, each with the node's fields and the decoded values,
    and the page's cursor and ledger window. One bad event fails the page. *)
Theorem events_response_exact resp :
  Forall (λ e, peLedger e < 2 ^ 31) (psEvents resp) →
  decided_rel (forallb event_ok (psEvents resp))
    (λ r, Forall2 event_rel (psEvents resp) (Events r) ∧ evCursor r = psCursor resp ∧
       LatestLedger r = psLatestLedger resp ∧ OldestLedger r = psOldestLedger resp ∧
       LatestLedgerCloseTime r = psLatestLedgerCloseTime resp ∧
       OldestLedgerCloseTime r = psOldestLedgerCloseTime resp)
    (convertGetEventsResponseToDomain resp).
Proof.
  intros Hl. unfold convertGetEventsResponseToDomain. rewrite <- (andb_true_r (forallb _ _)).
  eapply decided_rel_bind.
  - apply gimapM_decided_rel. eapply Forall_impl; [exact Hl|]. intros e He j.
    by apply decided_rel_wrap, event_decided.
  - intros es Hes. eexists. split; [done|]. by cbn.
Qed.
End events.
(** ** Witnesses *)

Import DemoXdr.

#[export] Instance demo_rpc : RpcSdk := {|
  protocol_EventTypeSystem := "system";
  protocol_EventTypeContract := "contract";
  WildCardExactOne := "*";
  WildCardZeroOrMore := "**";
  FormatBase64 := "base64";
  Cursor := string;
  ParseCursor := λ s, Ok s;
  SimulateAuthModeEnforce := "enforce";
  SimulateAuthModeRecord := "record";
  SimulateAuthModeRecordAllowNonroot := "record_allow_nonroot"
|}.

Definition demo_value : Domain.ScVal :=
  Domain.ScValTypeVec (Some
    [Some (Domain.ScValTypeU64 (Some 7));
     Some (Domain.ScValTypeMap (Some
       [(Some (Domain.ScValTypeSymbol (Some "owner")),
         Some (Domain.ScValTypeAddress (Some (Domain.ScAddressTypeAccountID key1))))]));
     Some (Domain.ScValTypeI256 (Some (mkParts256 (-1) 2 3 4)))]).

Lemma scval_from_to_roundtrip_witness :
  ∃ x, convertScValFromDomain demo_value = GVal x ∧ convertScValToDomain x = GVal demo_value.
Proof.
  eexists. split; [vm_compute; reflexivity|].
  refine (proj2 (scval_from_to_roundtrip demo_value _ _)). vm_compute. reflexivity.
Defined.

(** A contract instance inside a vector: readable, but not a legal argument. *)
Definition demo_wire : ScVal :=
  ScvVec (Some (Some [ScvMap (Some None);
    ScvContractInstance (Some (ExecutableWasm (Some key1), Some [(ScvVoid, ScvBool (Some true))]))])).

Lemma scval_wire_to_domain_witness :
  ∃ v, convertScValToDomain demo_wire = GVal v ∧ ∃ e, convertScValFromDomain v = GErr e.
Proof. exact (scval_wire_to_domain demo_wire eq_refl). Defined.

Definition demo_event (typ : string) : protocol_EventInfo :=
  mkProtocolEvent typ 17 "now" "C1" "id" 0 1 "hash" ["transfer"] "amount".

Lemma events_response_exact_witness :
  decided_rel true
    (λ r, Forall2 event_rel [demo_event "contract"] (Events r) ∧ evCursor r = "c" ∧
       LatestLedger r = 20 ∧ OldestLedger r = 1 ∧ LatestLedgerCloseTime r = 5 ∧
       OldestLedgerCloseTime r = 2)
    (convertGetEventsResponseToDomain
      (mkProtocolResponse [demo_event "contract"] "c" 20 1 5 2)).
Proof.
  exact (events_response_exact (mkProtocolResponse [demo_event "contract"] "c" 20 1 5 2)
    ltac:(repeat constructor)).
Defined.
End TypeConvertersProps.
