(* ===== verification/InvokerAdapter.v ===== *)
(** [relayer/txm/invoker_adapter.go]: contract calls of the generated bindings, routed
    through the transaction manager.

    Class [TxManager] is the part of the manager its clients use ([InvokerTxManager] and
    [StellarTxManager] in the source); [stellar_txm] is the implementation by [Txm]. *)

From stdpp Require Import base gmap list strings pretty.
From S2P Require Import Prelude GoStrings Config Float Prog Sdk TxStore Tx Txm Broadcast.
From S2P Require Import Xdr ScVal TypeConverters.
Import Config Tx.

Local Open Scope Z_scope.

(** ** What the SDK adds here *)

(** [xdr.InvokeContractArgs], and the [xdr.HostFunction] that carries one. *)
Record InvokeContractArgs := mkInvokeContractArgs {
  ContractAddress : Xdr.ScAddress;
  FunctionName : string;
  Args : list Xdr.ScVal
}.
Class HostFunctions `{SdkTypes} := {
  InvokeContractFunction : InvokeContractArgs → HostFunction
}.

(** [xdr.TransactionMeta]: the arms are pointers; [SorobanMeta] is a pointer, and so is the
    return value of version 4. *)
Inductive TransactionMeta :=
| MetaV3 (V3 : option (option Xdr.ScVal))
| MetaV4 (V4 : option (option (option Xdr.ScVal)))
| MetaOther (V : Z).
Class MetaSdk := { UnmarshalTransactionMeta : string → result TransactionMeta }.

(** ** The manager as its clients see it *)

Class TxManager {ST : SdkTypes} := {
  EnqueueAndWait : TxRequest → txm (result (option TxResult));
  Simulate : TxRequest → txm (result SimulateTransactionResponse)
}.

(** [StellarTxm] never returns a nil result. *)
Definition txm_wait {ST : SdkTypes} {SD : Sdk} {UT : UnicodeTables} (cfg : Resolved)
    (req : TxRequest) : txm (result (option TxResult)) :=
  r ← Txm.EnqueueAndWait cfg req; Ret (Some <$> (r : result TxResult)).
Definition stellar_txm {ST : SdkTypes} {SD : Sdk} {UT : UnicodeTables} (cfg : Resolved)
  : TxManager := {| EnqueueAndWait := txm_wait cfg; Simulate := Broadcast.Simulate cfg |}.

Module InvokerAdapter.

Section adapter.
Context {ST : SdkTypes} {UT : UnicodeTables} {XS : XdrSdk} {HF : HostFunctions} {MS : MetaSdk}
  {RS : RpcSdk} {SD : Sdk}.

(** The adapter's fields, the client apart. *)
Record InvokerAdapter := mkInvokerAdapter {
  fromAddress : string;
  ledgerBoundsOffset : Z
}.

(** An option is a function on the adapter. *)
Definition InvokerAdapterOption : Type := InvokerAdapter → InvokerAdapter.
Definition WithInvokerFromAddress (a : string) : InvokerAdapterOption :=
  λ ad, mkInvokerAdapter a (ledgerBoundsOffset ad).
Definition WithInvokerLedgerBoundsOffset (offset : Z) : InvokerAdapterOption :=
  λ ad, mkInvokerAdapter (fromAddress ad) offset.

(** [hasTxm] and [hasGetClient]: whether the arguments are non-nil. *)
Definition NewInvokerAdapter (hasTxm hasGetClient : bool) (opts : list InvokerAdapterOption)
  : result InvokerAdapter :=
  if negb hasTxm then Err "txm is required"
  else if negb hasGetClient then Err "getClient is required"
  else Ok (foldl (λ ad opt, opt ad) (mkInvokerAdapter "" 0) opts).

Definition BuildInvokeContractOperation (contractID functionName : string)
    (args : list Xdr.ScVal) (fromAddress : string) : result Operation :=
  if decide (contractID = "") then Err "contractID is required"
  else if decide (functionName = "") then Err "functionName is required"
  else
    contractBytes ← wrap_err ("decode contract ID " +:+ Quote contractID)
                      (Decode VersionByteContract contractID);
    match ScVal.BuildContractScAddress contractBytes with
    | None => Err ("build contract address " +:+ Quote contractID)
    | Some contractAddr =>
        Ok (InvokeHostFunction
              (InvokeContractFunction (mkInvokeContractArgs contractAddr functionName args))
              fromAddress [] None)
    end.

(** The new operation's pointer. *)
Definition alloc_op (o : Operation) : txm loc :=
  atomic (λ w, (nextLoc w, upd_nextLoc Pos.succ (upd_opheap (insert (nextLoc w) o) w))).

Definition extractReturnValueFromTransactionMeta (meta : option TransactionMeta)
  : gres (option Xdr.ScVal) :=
  match meta with
  | None => GVal None
  | Some (MetaV4 p) =>
      v ← deref p;
      match v with None => GVal None | Some ReturnValue => GVal ReturnValue end
  | Some (MetaV3 p) =>
      v ← deref p;
      match v with None => GVal None | Some ReturnValue => GVal (Some ReturnValue) end
  | Some (MetaOther n) => GErr ("unsupported transaction meta version: " +:+ pretty n)
  end.

Definition extractReturnValueFromResultMetaXDR (resultMetaXDR : string)
  : gres (option Xdr.ScVal) :=
  if decide (resultMetaXDR = "") then GVal None
  else
    meta ← gwrap "decode result meta XDR" (of_result (UnmarshalTransactionMeta resultMetaXDR));
    extractReturnValueFromTransactionMeta (Some meta).

Definition extractReturnValueFromSimulationResult (res : SimulateTransactionResponse)
  : gres (option Xdr.ScVal) :=
  match simResults res with
  | [] => GVal None
  | r :: _ =>
      match ReturnValueXDR r with
      | None => GVal None
      | Some x =>
          if decide (x = "") then GVal None
          else
            v ← gwrap "decode simulation return value XDR" (of_result (UnmarshalScVal x));
            GVal (Some v)
      end
  end.

(** What [InvokeContract] makes of the manager's answer. *)
Definition invoke_answer (contractID functionName : string) (r : result (option TxResult))
  : gres (option Xdr.ScVal) :=
  let call := "invoke " +:+ contractID +:+ "." +:+ functionName in
  match r with
  | Err e => GErr (call +:+ ": " +:+ e)
  | Ok None => GErr (call +:+ ": nil transaction result")
  | Ok (Some res) =>
      match resError res with
      | Some e => GErr (call +:+ " tx " +:+ resID res +:+ " failed: " +:+ e)
      | None =>
          if decide (resStatus res = Finalized)
          then extractReturnValueFromResultMetaXDR (resResultMetaXDR res)
          else GErr (call +:+ " tx " +:+ resID res +:+ " ended with status " +:+
                       TransactionStatus_String (resStatus res))
      end
  end.

Definition InvokeContract {TM : TxManager} (a : InvokerAdapter) (contractID functionName : string)
    (args : list Xdr.ScVal) : txm (gres (option Xdr.ScVal)) :=
  match BuildInvokeContractOperation contractID functionName args (fromAddress a) with
  | Err e => Ret (GErr e)
  | Ok op =>
      l ← alloc_op op;
      r ← EnqueueAndWait (mkTxRequest "" (fromAddress a) [l] (ledgerBoundsOffset a));
      Ret (invoke_answer contractID functionName r)
  end.

Definition SimulateContract {TM : TxManager} (a : InvokerAdapter) (contractID functionName : string)
    (args : list Xdr.ScVal) : txm (gres (option Xdr.ScVal)) :=
  let call := "simulate " +:+ contractID +:+ "." +:+ functionName in
  match BuildInvokeContractOperation contractID functionName args (fromAddress a) with
  | Err e => Ret (GErr e)
  | Ok op =>
      l ← alloc_op op;
      r ← Simulate (mkTxRequest "" (fromAddress a) [l] (ledgerBoundsOffset a));
      Ret (match r with
           | Err e => GErr (call +:+ ": " +:+ e)
           | Ok res =>
               match simRestorePreamble res with
               | Some _ => GErr (call +:+
                   ": restore required before read-only simulation can return a value")
               | None => extractReturnValueFromSimulationResult res
               end
           end)
  end.

(** The topic filter of [GetEvents]: the topics as symbols, then any suffix. *)
Definition topic_filter (topics : list string) : list TypeConverters.SegmentFilter :=
  ((λ t, TypeConverters.mkSegmentFilter None (ScVal.SymbolToScValPtr t)) <$> topics) ++
  [TypeConverters.mkSegmentFilter (Some WildCardZeroOrMore) None].

(** [getClient] gives the node's GetEvents method. *)
Definition GetEvents
    (getClient : result (TypeConverters.protocol_GetEventsRequest →
                         result TypeConverters.protocol_GetEventsResponse))
    (contractID : string) (startLedger : Z) (topics : list string)
  : result (list TypeConverters.protocol_EventInfo) :=
  match getClient with
  | Err e => Err ("get events client: " +:+ e)
  | Ok client =>
      match client (TypeConverters.mkProtocolRequest _ startLedger 0
              [TypeConverters.mkProtocolFilter {[protocol_EventTypeContract]} [contractID]
                 [topic_filter topics]] None "") with
      | Err e => Err ("get events: " +:+ e)
      | Ok resp => Ok (TypeConverters.psEvents resp)
      end
  end.
End adapter.
End InvokerAdapter.
