(* ===== verification/StellarService.v ===== *)
(** [relayer/stellar_service.go]: the relayer's chain service.

    A read handler makes at most one call to a node: it is a function of [GetClient]'s
    answer, a record of the node's methods or an error. [SubmitTransaction] is a program
    over the transaction manager. A handler that can return both a response and an error
    returns a pair, whose response is [None] for the zero struct. *)

From stdpp Require Import base gmap list strings pretty.
From S2P Require Import Prelude GoStrings Config Float Prog Sdk TxStore Tx Xdr ScVal.
From S2P Require Import TypeConverters InvokerAdapter.
Import Config Tx.

Local Open Scope Z_scope.

(** [multinode.ErrNodeError]'s text and [txnbuild.NewTimebounds]. *)
Class ServiceSdk {ST : SdkTypes} := {
  ErrNodeError : string;
  NewTimebounds : Z → Z → TimeBounds
}.

Module StellarService.

(** ** Data: protocol and domain structs *)

Record LedgerEntryResult := mkLedgerEntryResult {
  KeyXDR : string;
  DataXDR : string;
  LastModifiedLedger : Z;
  ExtensionXDR : string;
  LiveUntilLedgerSeq : option Z
}.
Record GetLedgerEntriesResponse := mkGetLedgerEntriesResponse {
  Entries : list LedgerEntryResult;
  leLatestLedger : Z
}.
Record GetLatestLedgerResponse := mkGetLatestLedgerResponse {
  llHash : string;
  llProtocolVersion : Z;
  llSequence : Z;
  llLedgerCloseTime : Z;
  llLedgerHeaderXDR : string;
  llLedgerMetadataXDR : string
}.
Record LedgerInfo := mkLedgerInfo {
  liHash : string;
  liSequence : Z;
  liLedgerCloseTime : Z;
  liLedgerHeaderXDR : string;
  liLedgerMetadataXDR : string
}.
Record GetLedgersRequest := mkGetLedgersRequest {
  glStartLedger : Z;
  glPagination : option TypeConverters.PaginationOptions
}.
Record protocol_GetLedgersRequest := mkProtocolLedgers {
  plStartLedger : Z;
  plPagination : option (string * Z);
  plFormat : string
}.
Record GetLedgersResponse := mkGetLedgersResponse {
  glLedgers : list LedgerInfo;
  glLatestLedger : Z;
  glLatestLedgerCloseTime : Z;
  glOldestLedger : Z;
  glOldestLedgerCloseTime : Z;
  glCursor : string
}.
Record SimulateRequest := mkSimulateRequest {
  sqContractID : string;
  sqFunction : string;
  sqAuthMode : string;
  sqArgs : list Domain.ScVal;
  sqSourceAccount : string;
  sqInstructionLeeway : option Z
}.
(** The node's request, and its answer with the fields the manager does not use. *)
Record protocol_SimulateRequest := mkProtocolSimulate {
  psTransaction : string;
  psAuthMode : string;
  psFormat : string;
  psInstructionLeeway : option Z
}.
Record protocol_SimulateResponse := mkProtocolSimResponse {
  prSim : SimulateTransactionResponse;
  prLatestLedger : Z;
  prEventsXDR : list string
}.
Record SimulateResponse := mkSimulateResponse {
  srLedgerSequence : Z;
  srSuccess : bool;
  srError : string;
  srEventsXDR : list string;
  srTransactionDataXDR : string;
  srMinResourceFee : Z;
  srReturnValueXDR : string;
  srRequiredAuthXDR : list string;
  srRestorePreamble : option (string * Z)
}.
Record TransactionInfo := mkTransactionInfo { tiResponse : GetTransactionResponse; tiLedger : Z }.
Record GetTransactionReply := mkGetTransactionReply {
  FeeStroops : Z;
  grLedgerSequence : Z;
  grLedgerCloseTime : Z
}.
Record SubmitRequest := mkSubmitRequest {
  bqContractID : string;
  bqFunction : string;
  bqArgs : list Domain.ScVal;
  bqFromAddress : string;
  bqIdempotencyKey : string;
  bqLedgerBoundsOffset : Z
}.
Inductive TxStatus := TxFatal | TxFailed | TxSuccess.
Record SubmitReply := mkSubmitReply {
  brTxHash : string;
  brTxIdempotencyKey : string;
  brResultXDR : string;
  brResultMetaXDR : string;
  brTransactionFee : option Z;
  brBlockTimestamp : option Z;
  brTxStatus : TxStatus;
  brError : string
}.

Section service.
Context {ST : SdkTypes} {SD : Sdk} {UT : UnicodeTables} {XS : XdrSdk} {RS : RpcSdk}
  {HF : HostFunctions} {SV : ServiceSdk}.

(** The methods of a node's client that the service calls. *)
Record RpcClient := mkRpcClient {
  rpc_GetLedgerEntries : list string → result GetLedgerEntriesResponse;
  rpc_GetLatestLedger : result GetLatestLedgerResponse;
  rpc_GetLedgers : protocol_GetLedgersRequest → result GetLedgersResponse;
  rpc_SimulateTransaction : protocol_SimulateRequest → result protocol_SimulateResponse;
  rpc_GetEvents : TypeConverters.protocol_GetEventsRequest →
                  result TypeConverters.protocol_GetEventsResponse;
  rpc_GetTransaction : string → result TransactionInfo
}.

(** [fmt.Errorf("%w: %w", multinode.ErrNodeError, err)]. *)
Definition node_error {A} (r : result A) : result A := wrap_err ErrNodeError r.

(** ** Reads *)

(** [ks]: nil, or the answer of [Accounts]. *)
Definition GetSigningAccount (ks : option (result (list string))) : result string :=
  match ks with
  | None => Err "keystore is not configured"
  | Some r =>
      accounts ← wrap_err "keystore accounts" r;
      match accounts with
      | [] => Err "keystore has no accounts"
      | a :: _ => Ok a
      end
  end.

Definition GetLedgerEntries (GetClient : result RpcClient) (keys : list string)
  : result GetLedgerEntriesResponse :=
  rpc ← wrap_err "failed to get client" GetClient;
  resp ← rpc_GetLedgerEntries rpc keys;
  Ok (mkGetLedgerEntriesResponse
        ((λ e, mkLedgerEntryResult (KeyXDR e) (DataXDR e) (LastModifiedLedger e) (ExtensionXDR e)
                 (LiveUntilLedgerSeq e)) <$> Entries resp)
        (leLatestLedger resp)).

Definition GetLatestLedger (GetClient : result RpcClient) : result GetLatestLedgerResponse :=
  rpc ← wrap_err "failed to get client" GetClient;
  resp ← node_error (rpc_GetLatestLedger rpc);
  Ok (mkGetLatestLedgerResponse (llHash resp) (llProtocolVersion resp) (llSequence resp)
        (llLedgerCloseTime resp) (llLedgerHeaderXDR resp) (llLedgerMetadataXDR resp)).

Definition GetLedgers (GetClient : result RpcClient) (req : GetLedgersRequest)
  : result GetLedgersResponse :=
  rpc ← wrap_err "failed to get chain client" GetClient;
  let pagination :=
    (λ p, (TypeConverters.PageCursor p, uint64 (TypeConverters.Limit p))) <$> glPagination req in
  let protoReq := mkProtocolLedgers (glStartLedger req) pagination FormatBase64 in
  out ← wrap_err "failed to get ledgers" (node_error (rpc_GetLedgers rpc protoReq));
  Ok (mkGetLedgersResponse
        ((λ l, mkLedgerInfo (liHash l) (liSequence l) (liLedgerCloseTime l) (liLedgerHeaderXDR l)
                 (liLedgerMetadataXDR l)) <$> glLedgers out)
        (glLatestLedger out) (glLatestLedgerCloseTime out) (glOldestLedger out)
        (glOldestLedgerCloseTime out) (glCursor out)).

Definition GetEvents (GetClient : result RpcClient) (req : TypeConverters.GetEventsRequest)
  : gres TypeConverters.GetEventsResponse :=
  rpc ← of_result (wrap_err "failed to get chain client" GetClient);
  protocolReq ← gwrap "invalid get events request"
                  (TypeConverters.convertGetEventsRequestsFromDomain req);
  resp ← of_result (wrap_err "failed to get events" (node_error (rpc_GetEvents rpc protocolReq)));
  TypeConverters.convertGetEventsResponseToDomain resp.

Definition GetTransaction (GetClient : result RpcClient) (txHash : string)
  : result GetTransactionReply :=
  if decide (txHash = "") then Err "tx hash is required"
  else
    rpc ← wrap_err "failed to get client" GetClient;
    resp ← node_error (rpc_GetTransaction rpc txHash);
    let r := tiResponse resp in
    match getStatus r with
    | TransactionStatusNotFound => Err ("transaction not found: " +:+ txHash)
    | _ =>
        let feeStroops :=
          if decide (getResultXDR r = "") then 0
          else match UnmarshalTransactionResult (getResultXDR r) with
               | Ok txResult => uint64 (FeeCharged txResult)
               | Err _ => 0
               end in
        Ok (mkGetTransactionReply feeStroops (tiLedger resp) (getLedgerCloseTime r))
    end.

(** ** SimulateTransaction *)

Definition simulateTransactionTimeBound : Z := Minute.

(** The unsigned transaction of the simulation, in XDR. [now] is in nanoseconds. *)
Definition simulation_tx (now : Z) (contractAddr : Xdr.ScAddress) (function : string)
    (args : list Xdr.ScVal) (srcAddr : string) : result string :=
  let hostFn := InvokeContractFunction (mkInvokeContractArgs contractAddr function args) in
  tx ← wrap_err "failed to build transaction" (NewTransaction (mkTransactionParams
         (mkSimpleAccount srcAddr 0) true [(1%positive, InvokeHostFunction hostFn srcAddr [] None)]
         MinBaseFee (NewTimebounds 0 ((now + simulateTransactionTimeBound) / Second)) None));
  wrap_err "failed to encode transaction" (tx_Base64 tx).

(** The source account: the caller's, checked, or a placeholder of zeros. *)
Definition simulation_source (sourceAccount : string) : result string :=
  if decide (sourceAccount = "") then
    wrap_err "failed to build placeholder source account"
      (Encode VersionByteAccountID (replicate 32 Byte.x00))
  else
    wrap_err ("failed to decode source account " +:+ Quote sourceAccount)
      ((λ _, sourceAccount) <$> Decode VersionByteAccountID sourceAccount).

(** What becomes of the node's answer. *)
Definition simulation_response (simResult : protocol_SimulateResponse)
  : option SimulateResponse * option string :=
  let sim := prSim simResult in
  let success := bool_decide (simError sim = "") in
  let resp ret auth preamble :=
    mkSimulateResponse (prLatestLedger simResult) success (simError sim) (prEventsXDR simResult)
      (TransactionDataXDR sim) (simMinResourceFee sim) ret auth preamble in
  let preamble := (λ p, (rpTransactionDataXDR p, rpMinResourceFee p)) <$> simRestorePreamble sim in
  match simResults sim with
  | [] =>
      if success && negb (bool_decide (is_Some (simRestorePreamble sim)))
      then (Some (resp "" [] None), Some "simulation succeeded but returned no host function results")
      else (Some (resp "" [] preamble), None)
  | [r] => (Some (resp (default "" (ReturnValueXDR r)) (default [] (AuthXDR r)) preamble), None)
  | rs =>
      (Some (resp "" [] None),
       Some ("unexpected simulation result count: " +:+ pretty (length rs)))
  end.

(** The request to the node, or the error that precedes it. *)
Definition simulation_request (now : Z) (req : SimulateRequest) (authMode : string)
  : gres protocol_SimulateRequest :=
  contractBytes ← of_result (wrap_err ("failed to decode contract id " +:+ Quote (sqContractID req))
                    (Decode VersionByteContract (sqContractID req)));
  contractAddr ← nonnil ("failed to build contract address from contractID: " +:+ sqContractID req)
                   (ScVal.BuildContractScAddress contractBytes);
  args ← gwrap "failed to convert args" (TypeConverters.convertScValsToDomain (sqArgs req));
  srcAddr ← of_result (simulation_source (sqSourceAccount req));
  txXDR ← of_result (simulation_tx now contractAddr (sqFunction req) args srcAddr);
  GVal (mkProtocolSimulate txXDR authMode FormatBase64 (sqInstructionLeeway req)).

Definition SimulateTransaction (GetClient : result RpcClient) (now : Z) (req : SimulateRequest)
  : gres (option SimulateResponse * option string) :=
  if decide (sqContractID req = "") then GVal (None, Some "contract id is required")
  else if decide (sqFunction req = "") then GVal (None, Some "function is required")
  else
    let answer :=
      authMode ← of_result (TypeConverters.validateSimulateAuthMode (sqAuthMode req));
      rpc ← of_result (wrap_err "failed to get chain client" GetClient);
      simReq ← simulation_request now req authMode;
      simResult ← of_result (wrap_err "failed to simulate transaction"
                    (node_error (rpc_SimulateTransaction rpc simReq)));
      GVal (simulation_response simResult) in
    match answer with
    | GVal r => GVal r
    | GErr e => GVal (None, Some e)
    | GPanic m => GPanic m
    end.

(** ** SubmitTransaction *)

(** What becomes of the manager's result. *)
Definition submit_reply (res : TxResult) : SubmitReply * option string :=
  let fee :=
    match resFee res with
    | Some fee => if is_uint64 fee then Some fee else None
    | None => None
    end in
  let timestamp :=
    if 0 <? resLedgerCloseTime res
    then Some (uint64 (uint64 (resLedgerCloseTime res) * 1000000)) else None in
  let reply st err :=
    mkSubmitReply (resHash res) (resID res) (resResultXDR res) (resResultMetaXDR res) fee timestamp
      st err in
  match resStatus res with
  | Finalized => (reply TxSuccess "", None)
  | Failed =>
      if decide (resResultXDR res = "")
      then (reply TxFatal "", Some "submit transaction: pipeline failure")
      else (reply TxFailed (default "" (resError res)), None)
  | st =>
      (reply TxFatal "",
       Some ("submit transaction: unexpected terminal status " +:+ TransactionStatus_String st))
  end.

(** What becomes of its answer. *)
Definition submit_answer (r : result (option TxResult)) : option SubmitReply * option string :=
  match r with
  | Err e => (None, Some ("submit transaction: " +:+ e))
  | Ok None => (None, Some "submit transaction: nil result returned by TXM")
  | Ok (Some res) => let '(reply, err) := submit_reply res in (Some reply, err)
  end.

Definition SubmitTransaction (txMgr : option TxManager) (req : SubmitRequest)
  : txm (gres (option SubmitReply * option string)) :=
  let fail e := Ret (GVal (None, Some ("submit transaction: " +:+ e))) in
  match txMgr with
  | None => fail "txm is not configured"
  | Some TM =>
      if decide (bqContractID req = "") then fail "contractID is required"
      else if decide (bqFunction req = "") then fail "function is required"
      else
        match TypeConverters.convertScValsToDomain (bqArgs req) with
        | GPanic m => Ret (GPanic m)
        | GErr e => fail ("convert args: " +:+ e)
        | GVal xdrArgs =>
            match InvokerAdapter.BuildInvokeContractOperation (bqContractID req) (bqFunction req)
                    xdrArgs (bqFromAddress req) with
            | Err e => fail ("build operation: " +:+ e)
            | Ok op =>
                l ← InvokerAdapter.alloc_op op;
                r ← EnqueueAndWait (mkTxRequest (bqIdempotencyKey req) (bqFromAddress req) [l]
                      (bqLedgerBoundsOffset req));
                Ret (GVal (submit_answer r))
            end
        end
  end.
End service.
End StellarService.
