(* ===== verification/Ccv.v ===== *)
(** What the [ccv] components use of code outside the repository, and what they share.

    Class [CcvProtocol] has the message codec of chainlink-ccv's protocol package, class
    [CcvXdr] what they use of the SDK's xdr package beyond [Xdr], as parameters with
    documented laws. [ccv_ext] lists the calls whose answer comes from outside. A component
    that calls contracts does so through the class [Invoker], the interface of
    [bindings/invoker.go]. *)

From Stdlib Require Import Strings.Byte.
From stdpp Require Import base gmap list strings pretty.
From S2P Require Import Prelude GoStrings Prog Sdk Xdr ScVal GoBytes TypeConverters.
From S2P Require Import TxStore Tx InvokerAdapter StellarService.
Import Xdr.

Local Open Scope Z_scope.

(** ** chainlink-ccv/protocol and executor *)

Class CcvProtocol := {
  Message : Type;
  (** [Message.MessageID], [Message.Encode] and [DecodeMessage]. *)
  MessageID : Message → result bytes;
  EncodeMessage : Message → result bytes;
  DecodeMessage : bytes → result Message;
  SourceChainSelector : Message → Z;
  (** [executor.ErrMessageEncoding]'s text. *)
  ErrMessageEncoding : string
}.

(** Documented behaviour: decoding inverts encoding, an id is 32 bytes, a message that can be
    encoded has an id (the hash of its encoding), and so does a decoded one. *)
Class CcvLaws `{CcvProtocol} : Prop := {
  Decode_EncodeMessage m b : EncodeMessage m = Ok b → DecodeMessage b = Ok m;
  MessageID_length m i : MessageID m = Ok i → length i = 32%nat;
  MessageID_total m : is_ok (EncodeMessage m) = true ↔ is_ok (MessageID m) = true;
  MessageID_decoded b m : DecodeMessage b = Ok m → is_ok (MessageID m) = true
}.

(** [Message.MustMessageID] panics where [MessageID] fails. *)
Definition MustMessageID `{CcvProtocol} (m : Message) : gres bytes :=
  match MessageID m with Ok i => GVal i | Err e => GPanic e end.

(** Addresses, blobs and hashes are byte slices. *)
Definition UnknownAddress : Type := bytes.
Record AbstractAggregatedReport `{CcvProtocol} := mkReport {
  CCVS : list UnknownAddress;
  CCVData : list bytes;
  ReportMessage : Message
}.
Record ExecutionAttempt `{CcvProtocol} := mkAttempt {
  Report : AbstractAggregatedReport;
  TransactionGasLimit : Z
}.
Record ReceiptWithBlob := mkReceipt {
  Issuer : UnknownAddress;
  DestGasLimit : Z;
  DestBytesOverhead : Z;
  Blob : bytes;
  ExtraArgs : bytes;
  FeeTokenAmount : option Z
}.
Record MessageSentEvent `{CcvProtocol} := mkMessageSent {
  evMessageID : bytes;
  evMessage : Message;
  evReceipts : list ReceiptWithBlob;
  evBlockNumber : Z;
  evTxHash : bytes
}.
Record BlockHeader := mkBlockHeader {
  Number : Z;
  HeaderHash : bytes;
  ParentHash : bytes;
  Timestamp : Z
}.
Record CCVAddressInfo := mkCCVAddressInfo {
  RequiredCCVs : list UnknownAddress;
  OptionalCCVs : list UnknownAddress;
  OptionalThreshold : Z
}.

Arguments mkReport {_} _ _ _.
Arguments mkAttempt {_} _ _.
Arguments mkMessageSent {_} _ _ _ _ _.

(** ** More of the xdr package *)

(** The first operation's path in a transaction envelope: unions with their pointers. *)
Inductive EnvHostFunction :=
| HostInvokeContract (InvokeContract : option InvokeContractArgs)
| HostFunctionOther (n : Z).
Inductive OperationBody :=
| BodyInvokeHostFunction (Op : option EnvHostFunction)
| BodyOther (n : Z).
Inductive TransactionEnvelope :=
| EnvelopeTypeTxV0 (V0 : option (list OperationBody))
| EnvelopeTypeTx (V1 : option (list OperationBody))
| EnvelopeTypeTxFeeBump (FeeBump : option (option (list OperationBody)))
| EnvelopeTypeOther (n : Z).

(** What the decoder produces: the pointer of the selected arm is set, and the arguments
    are well formed. *)
Definition valid_body (b : OperationBody) : bool :=
  match b with
  | BodyInvokeHostFunction (Some (HostInvokeContract (Some a))) => forallb valid (Args a)
  | BodyInvokeHostFunction (Some (HostFunctionOther _)) | BodyOther _ => true
  | _ => false
  end.
Definition valid_envelope (e : TransactionEnvelope) : bool :=
  match e with
  | EnvelopeTypeTxV0 (Some l) | EnvelopeTypeTx (Some l) | EnvelopeTypeTxFeeBump (Some (Some l)) =>
      forallb valid_body l
  | EnvelopeTypeOther _ => true
  | _ => false
  end.

Class CcvXdr := {
  UnmarshalTransactionEnvelope : string → result TransactionEnvelope;
  (** [PreviousLedgerHash] of a decoded [xdr.LedgerHeader], and of the header entry of a
      decoded [xdr.LedgerCloseMeta] ([LedgerHeaderHistoryEntry]). *)
  UnmarshalLedgerHeader : string → result bytes;
  UnmarshalLedgerCloseMeta : string → result bytes;
  EnvelopeType_String : TransactionEnvelope → string;
  OperationType_String : OperationBody → string;
  HostFunctionType_String : EnvHostFunction → string
}.
Class CcvXdrLaws `{CcvXdr} : Prop := {
  UnmarshalEnvelope_valid s e : UnmarshalTransactionEnvelope s = Ok e → valid_envelope e = true
}.

(** ** Calls to the outside *)

(** [protocolrpc.GetTransactionResponse], the fields the poller reads. *)
Record TransactionReply := mkTransactionReply { trStatus : RpcTxStatus; trEnvelopeXDR : string }.

(** [CTick]: whether the ticker fires before the context is done. *)
Inductive ccv_ext `{RpcSdk} : Type → Type :=
| CNow : ccv_ext Z
| CTick : ccv_ext bool
| CGetLatestLedger : ccv_ext (result StellarService.GetLatestLedgerResponse)
| CGetLedgers (req : StellarService.protocol_GetLedgersRequest)
    : ccv_ext (result StellarService.GetLedgersResponse)
| CGetEvents (req : TypeConverters.protocol_GetEventsRequest)
    : ccv_ext (result TypeConverters.protocol_GetEventsResponse)
| CGetTransaction (hash : string) : ccv_ext (result TransactionReply)
| CInvoke (contractID functionName : string) (args : list ScVal) : ccv_ext (result (option ScVal))
| CSimulate (contractID functionName : string) (args : list ScVal)
    : ccv_ext (result (option ScVal)).

(** ** Programs whose result may be an error or a panic *)

Section gprog.
Context {W : Type} {E : Type → Type}.
(** [x, err := p; if err != nil { return ..., err }]; a panic ends the program. *)
Definition gthen {A B} (p : prog W E (gres A)) (h : A → prog W E (gres B)) : prog W E (gres B) :=
  r ← p;
  match r with
  | GVal a => h a
  | GErr e => Ret (GErr e)
  | GPanic m => Panic m
  end.
(** The same, with the error wrapped. *)
Definition gctx {A} (ctx : string) (p : prog W E (gres A)) : prog W E (gres A) :=
  r ← p; Ret (gwrap ctx r).
(** A call that fails with an error. *)
Definition gcall {A} (e : E (result A)) : prog W E (gres A) :=
  r ← call e; Ret (of_result r).
End gprog.
Section gprog_facts.
Context {W : Type} {E : Type → Type}.

Lemma traced_gthen {A B} (p : prog W E (gres A)) (f : A → prog W E (gres B)) w h P Q :
  traced p w h P →
  (∀ r w' h', P r w' h' →
     match r with GVal a => traced (f a) w' h' Q | GErr e => Q (GErr e) w' h' | GPanic _ => True end) →
  traced (gthen p f) w h Q.
Proof.
  intros Hp Hf. eapply traced_seq; [exact Hp|]. intros [a|e|m] w' h' HP; [|exact (Hf _ _ _ HP)|done].
  exact (Hf _ _ _ HP).
Qed.
Lemma traced_gctx {A} ctx (p : prog W E (gres A)) w h Q :
  traced p w h (λ r, Q (gwrap ctx r)) → traced (gctx ctx p) w h Q.
Proof. intros Hp. eapply traced_seq; [exact Hp|]. done. Qed.
Lemma traced_gcall {A} (e : E (result A)) w h (Q : gres A → W → hist → Prop) :
  (∀ r, Q (of_result r) w (h ++ [answered e r])) → traced (gcall e) w h Q.
Proof. done. Qed.

Lemma returns_gthen answer {A B} (p : prog W E (gres A)) (f : A → prog W E (gres B)) w P Q :
  returns answer p w P →
  (∀ r w', P r w' → match r with
                    | GVal a => returns answer (f a) w' Q
                    | GErr e => Q (GErr e) w'
                    | GPanic _ => False
                    end) →
  returns answer (gthen p f) w Q.
Proof.
  intros Hp Hf. eapply returns_seq; [exact Hp|]. intros [a|e|m] w' HP; [|exact (Hf _ _ HP)|].
  - exact (Hf _ _ HP).
  - by destruct (Hf _ _ HP).
Qed.
Lemma total_gthen answer {A B} (p : prog W E (gres A)) (f : A → prog W E (gres B)) w h P Q :
  total answer p w h P →
  (∀ r w' h', P r w' h' → match r with
                          | GVal a => total answer (f a) w' h' Q
                          | GErr e => Q (GErr e) w' h'
                          | GPanic _ => False
                          end) →
  total answer (gthen p f) w h Q.
Proof.
  intros Hp Hf. eapply total_seq; [exact Hp|]. intros [a|e|m] w' h' HP; [|exact (Hf _ _ _ HP)|].
  - exact (Hf _ _ _ HP).
  - by destruct (Hf _ _ _ HP).
Qed.
Lemma total_gctx answer {A} ctx (p : prog W E (gres A)) w h Q :
  total answer p w h (λ r, Q (gwrap ctx r)) → total answer (gctx ctx p) w h Q.
Proof. intros Hp. by eapply total_seq. Qed.
Lemma total_gctx_gthen answer {A B} ctx (p : prog W E (gres A)) (f : A → prog W E (gres B)) w h P Q :
  total answer p w h P →
  (∀ r w' h', P r w' h' → match r with
                          | GVal a => total answer (f a) w' h' Q
                          | GErr e => Q (GErr (ctx +:+ ": " +:+ e)) w' h'
                          | GPanic _ => False
                          end) →
  total answer (gthen (gctx ctx p) f) w h Q.
Proof.
  intros Hp Hf. apply (total_gthen _ _ _ _ _ (λ r w' h', ∃ r0, P r0 w' h' ∧ r = gwrap ctx r0)).
  - apply total_gctx. eapply total_mono; [|exact Hp]. eauto.
  - intros r w' h' (r0 & HP & ->). specialize (Hf _ _ _ HP). by destruct r0.
Qed.
Lemma total_gcall (answer : ∀ X, E X → X → Prop) {A} (e : E (result A)) w h (Q : gres A → W → hist → Prop) :
  (∀ r, answer _ e r → Q (of_result r) w (h ++ [answered e r])) → total answer (gcall e) w h Q.
Proof. done. Qed.
Lemma returns_gctx answer {A} ctx (p : prog W E (gres A)) w Q :
  returns answer p w (λ r, Q (gwrap ctx r)) → returns answer (gctx ctx p) w Q.
Proof. intros Hp. by eapply returns_seq. Qed.
Lemma returns_gctx_gthen answer {A B} ctx (p : prog W E (gres A)) (f : A → prog W E (gres B)) w P Q :
  returns answer p w P →
  (∀ r w', P r w' → match r with
                    | GVal a => returns answer (f a) w' Q
                    | GErr e => Q (GErr (ctx +:+ ": " +:+ e)) w'
                    | GPanic _ => False
                    end) →
  returns answer (gthen (gctx ctx p) f) w Q.
Proof.
  intros Hp Hf. apply (returns_gthen _ _ _ _ (λ r w', ∃ r0, P r0 w' ∧ r = gwrap ctx r0)).
  - apply returns_gctx. eapply returns_mono; [|exact Hp]. eauto.
  - intros r w' (r0 & HP & ->). specialize (Hf _ _ HP). by destruct r0.
Qed.
End gprog_facts.
Notation "x <-? p ; q" := (gthen p (λ x, q))
  (at level 20, p at level 100, q at level 200, right associativity).

(** ** [bindings.Invoker]

    Its [GetEvents] serves only the [WaitFor...] helpers of the generated clients. *)
Class Invoker (W : Type) (E : Type → Type) := {
  Invoke : string → string → list ScVal → prog W E (gres (option ScVal));
  SimulateCall : string → string → list ScVal → prog W E (gres (option ScVal))
}.

(** The invoker of the standalone services: each call is answered from outside. *)
#[export] Instance ccv_invoker {W} `{RpcSdk} : Invoker W ccv_ext := {|
  Invoke := λ c f args, gcall (CInvoke c f args);
  SimulateCall := λ c f args, gcall (CSimulate c f args)
|}.

(** The invoker of the relayer: [InvokerAdapter] over the transaction manager. *)
Definition adapter_invoker {ST : SdkTypes} {UT : UnicodeTables} {XS : XdrSdk}
    {HF : HostFunctions} {MS : MetaSdk} {SD : Sdk} {TM : TxManager} (a : InvokerAdapter.InvokerAdapter)
  : Invoker Tx.World ext := {|
  Invoke := InvokerAdapter.InvokeContract a;
  SimulateCall := InvokerAdapter.SimulateContract a
|}.
