(* ===== verification/Bindings.v ===== *)
(** The generated clients of the contracts that the [ccv] components call: the OffRamp
    ([bindings/contracts/offramp]) and the RMN Remote ([bindings/contracts/rmn_remote]),
    the functions in use. *)

From Stdlib Require Import Strings.Byte.
From stdpp Require Import base gmap list strings pretty.
From S2P Require Import Prelude GoStrings Prog Xdr ScVal TypeConverters Ccv.
Import Xdr.

Local Open Scope Z_scope.

(** ** Reading a struct *)

(** [for _, entry := range *scMap { key, ok := entry.Key.GetSym(); if !ok { continue };
    switch string(key) { ... } }]: [f] is the switch. *)
Section entries.
Context {S : Type} (f : string → ScVal → S → gres S).
Fixpoint for_entries (l : list (ScVal * ScVal)) (s : S) : gres S :=
  match l with
  | [] => GVal s
  | (k, v) :: l' =>
      key ← GetSym k;
      s' ← match key with Some key => f key v s | None => GVal s end;
      for_entries l' s'
  end.
End entries.

(** [x, err := m; if err == nil { use x }]: a panic is not an error. *)
Definition gtry {A} (m : gres A) : gres (option A) :=
  match m with GVal a => GVal (Some a) | GErr _ => GVal None | GPanic p => GPanic p end.

(** [v, ok := val.GetVec(); if !ok || v == nil { return error }]. *)
Definition got_vec (e : string) (val : ScVal) : gres (list ScVal) :=
  r ← GetVec val; match r with Some (Some l) => GVal l | _ => GErr e end.
Definition got_map (e : string) (val : ScVal) : gres (list (ScVal * ScVal)) :=
  r ← GetMap val; match r with Some (Some l) => GVal l | _ => GErr e end.

(** ** offramp *)

Module OffRamp.

Record SourceChainConfig := mkSourceChainConfig {
  DefaultCcvs : list string;
  IsEnabled : bool;
  LaneMandatedCcvs : list string;
  OnRamps : list bytes;
  Router : string
}.
Definition zeroSourceChainConfig : SourceChainConfig := mkSourceChainConfig [] false [] [] "".

(** The type [MessageExecutionState] is a uint32. *)
Definition MessageExecutionStateUntouched : Z := 0.
Definition MessageExecutionStateInProgress : Z := 1.
Definition MessageExecutionStateSuccess : Z := 2.
Definition MessageExecutionStateFailure : Z := 3.

Definition ExecutionStateChangedEventTopic : string := "offramp_1_7_ExecStateChanged".
Record ExecutionStateChangedEvent := mkExecutionStateChanged {
  escSourceChainSelector : Z;
  escSequenceNumber : Z;
  escMessageId : bytes;
  escState : Z;
  escReturnData : bytes;
  escLedger : Z;
  escTxHash : string
}.

Section offramp.
Context {UT : UnicodeTables} {XS : XdrSdk}.

(** [keys]: the order in which [range] enumerates the map of fields. *)
Definition SourceChainConfig_fields (s : SourceChainConfig) : gmap string ScVal :=
  <["default_ccvs" := ScVal.AddressSliceToScVal (DefaultCcvs s)]>
  (<["is_enabled" := ScVal.BoolToScVal (IsEnabled s)]>
  (<["lane_mandated_ccvs" := ScVal.AddressSliceToScVal (LaneMandatedCcvs s)]>
  (<["on_ramps" := ScVal.BytesSliceToScVal (OnRamps s)]>
  (<["router" := ScVal.AddressToScVal (Router s)]> ∅)))).
Definition SourceChainConfig_ToScVal (keys : list string) (s : SourceChainConfig) : gres ScVal :=
  ScVal.BuildStructScVal keys (SourceChainConfig_fields s).

(** The loop over a vector of addresses. *)
Definition addresses_of (l : list ScVal) : gres (list string) :=
  gimapM (λ _ item, ScVal.AddressFromScVal item) l.

Definition SourceChainConfig_field (key : string) (v : ScVal) (s : SourceChainConfig)
  : gres SourceChainConfig :=
  let 'mkSourceChainConfig d e m o r := s in
  if decide (key = "default_ccvs") then
    d' ← (l ← got_vec "default_ccvs is not a vec" v; addresses_of l);
    GVal (mkSourceChainConfig d' e m o r)
  else if decide (key = "is_enabled") then
    b ← GetB v; e' ← nonnil "is_enabled is not bool" b;
    GVal (mkSourceChainConfig d e' m o r)
  else if decide (key = "lane_mandated_ccvs") then
    m' ← (l ← got_vec "lane_mandated_ccvs is not a vec" v; addresses_of l);
    GVal (mkSourceChainConfig d e m' o r)
  else if decide (key = "on_ramps") then
    o' ← (l ← got_vec "on_ramps is not a vec" v;
          gimapM (λ _ item, b ← GetBytes item; nonnil "vec item is not bytes" b) l);
    GVal (mkSourceChainConfig d e m o' r)
  else if decide (key = "router") then
    r' ← gwrap "router" (ScVal.AddressFromScVal v);
    GVal (mkSourceChainConfig d e m o r')
  else GVal s.
Definition SourceChainConfigFromScVal (val : ScVal) : gres SourceChainConfig :=
  scMap ← got_map "not a map type" val;
  for_entries SourceChainConfig_field scMap zeroSourceChainConfig.

Definition MessageExecutionStateFromScVal (val : ScVal) : gres Z :=
  v ← GetU32 val; nonnil "expected u32 for MessageExecutionState enum" v.

Definition ExecutionStateChanged_field (key : string) (v : ScVal) (s : ExecutionStateChangedEvent)
  : gres ExecutionStateChangedEvent :=
  let 'mkExecutionStateChanged c n i st d l t := s in
  if decide (key = "source_chain_selector") then
    x ← gtry (ScVal.Uint64FromScVal v); GVal (mkExecutionStateChanged (default c x) n i st d l t)
  else if decide (key = "sequence_number") then
    x ← gtry (ScVal.Uint64FromScVal v); GVal (mkExecutionStateChanged c (default n x) i st d l t)
  else if decide (key = "message_id") then
    x ← gtry (ScVal.Bytes32FromScVal v); GVal (mkExecutionStateChanged c n (default i x) st d l t)
  else if decide (key = "state") then
    x ← gtry (MessageExecutionStateFromScVal v);
    GVal (mkExecutionStateChanged c n i (default st x) d l t)
  else if decide (key = "return_data") then
    x ← GetBytes v; GVal (mkExecutionStateChanged c n i st (default d x) l t)
  else GVal s.
Definition ParseExecutionStateChangedEvent (e : TypeConverters.protocol_EventInfo)
  : gres ExecutionStateChangedEvent :=
  eventVal ← gwrap "failed to decode event"
               (of_result (UnmarshalScVal (TypeConverters.peValueXDR e)));
  scMap ← got_map "event is not a map" eventVal;
  for_entries ExecutionStateChanged_field scMap
    (mkExecutionStateChanged 0 0 (replicate 32 x00) 0 []
       (uint32 (TypeConverters.peLedger e)) (TypeConverters.peTransactionHash e)).

(** *** Calls. A client is the invoker and the contract's id. *)

Section calls.
Context {W : Type} {E : Type → Type} {IV : Invoker W E}.

Definition execute_args (encodedMessage : bytes) (ccvs : list string)
    (verifierResults : list bytes) (gasLimitOverride : Z) : list ScVal :=
  [ScVal.BytesToScVal encodedMessage; ScVal.AddressSliceToScVal ccvs;
   ScVal.BytesSliceToScVal verifierResults; ScVal.Uint32ToScVal gasLimitOverride].
Definition Execute (contractID : string) (encodedMessage : bytes) (ccvs : list string)
    (verifierResults : list bytes) (gasLimitOverride : Z) : prog W E (gres unit) :=
  _ <-? gctx "failed to call execute"
          (Invoke contractID "execute"
             (execute_args encodedMessage ccvs verifierResults gasLimitOverride));
  Ret (GVal tt).

Definition GetExecutionState (contractID : string) (messageId : bytes) : prog W E (gres Z) :=
  r <-? gctx "failed to call get_execution_state"
          (SimulateCall contractID "get_execution_state" [ScVal.Bytes32ToScVal messageId]);
  match r with
  | None => Ret (GErr "no return value from get_execution_state")
  | Some v => Ret (MessageExecutionStateFromScVal v)
  end.

Definition GetSourceChainConfig (contractID : string) (sourceChainSelector : Z)
  : prog W E (gres SourceChainConfig) :=
  r <-? gctx "failed to call get_source_chain_config"
          (SimulateCall contractID "get_source_chain_config"
             [ScVal.Uint64ToScVal sourceChainSelector]);
  match r with
  | None => Ret (GErr "no return value from get_source_chain_config")
  | Some v => Ret (SourceChainConfigFromScVal v)
  end.
End calls.
End offramp.
End OffRamp.

(** ** rmn_remote *)

Module RmnRemote.
Section rmn.
Context {UT : UnicodeTables} {XS : XdrSdk} {W : Type} {E : Type → Type} {IV : Invoker W E}.
(** What becomes of the contract's answer. *)
Definition cursed_subjects_of (r : option ScVal) : gres (list bytes) :=
  match r with
  | None => GErr "no return value from get_cursed_subjects"
  | Some v =>
      vec ← got_vec "expected vec return type" v;
      gimapM (λ _ item, ScVal.Bytes16FromScVal item) vec
  end.
Definition GetCursedSubjects (contractID : string) : prog W E (gres (list bytes)) :=
  r <-? gctx "failed to call get_cursed_subjects"
          (SimulateCall contractID "get_cursed_subjects" []);
  Ret (cursed_subjects_of r).
End rmn.
End RmnRemote.
