(* ===== verification/Transmitter.v ===== *)
(** [ccv/contract_transmitter/contract_transmitter.go]: aggregated reports to calls of the
    OffRamp's [execute].

    The signatures in a verifier blob come in the aggregator's format, where the recovery id
    is always 27 and [S] may have been negated for it; the OffRamp expects EIP-2098, where
    the recovery id is the top bit of [S]. *)

From Stdlib Require Import Ascii.
From Stdlib Require Import Strings.Byte.
From stdpp Require Import base gmap list strings pretty.
From S2P Require Import Prelude GoStrings Prog Xdr ScVal GoBytes TypeConverters Ccv Bindings.
Import Xdr.

Local Open Scope Z_scope.

(** The order of the curve secp256k1, a constant of the dcrec library; its law is the part
    of its value that matters: it is odd, and it has 256 bits. *)
Class Secp256k1 := { secp256k1N : Z }.
Class Secp256k1Laws `{Secp256k1} : Prop := {
  secp256k1N_range : 2 ^ 255 < secp256k1N < 2 ^ 256;
  secp256k1N_odd : Z.odd secp256k1N = true
}.

Module Transmitter.
Section transmitter.
Context {UT : UnicodeTables} {XS : XdrSdk} {SP : Secp256k1}.

(** ** Signatures *)

Definition secp256k1HalfN : Z := Z.shiftr secp256k1N 1.
Definition headerLen : nat := 6.
Definition sigSize : nat := 64.

(** The loop's body: the word [S] of the [i]-th signature of [out]. *)
Definition convert_sig (i : nat) (out : bytes) : gres bytes :=
  let sOff := (headerLen + i * sigSize + 32)%nat in
  if (length out <? sOff + 32)%nat then GPanic "slice bounds out of range"
  else
    let s := SetBytes (slice sOff 32 out) in
    if secp256k1HalfN <? s then
      let padded := big_Bytes (secp256k1N - s) in
      if (32 <? length padded)%nat then GPanic "slice bounds out of range"
      else GVal (splice sOff (or_head 128 (replicate (32 - length padded) x00 ++ padded)) out)
    else GVal out.

(** [for i := range sigCount]: [n] signatures to go. *)
Fixpoint convert_sigs (n i : nat) (out : bytes) : gres bytes :=
  match n with
  | O => GVal out
  | S n' => out' ← convert_sig i out; convert_sigs n' (S i) out'
  end.

Definition convertVerifierBlobToEIP2098 (blob : bytes) : gres bytes :=
  if (length blob <? headerLen)%nat then GVal blob
  else
    let sigPayloadLen := Z.to_nat (BigEndian_Uint16 (slice 4 2 blob)) in
    if (sigPayloadLen =? 0)%nat || (length blob <? headerLen + sigPayloadLen)%nat then GVal blob
    else if negb (sigPayloadLen mod sigSize =? 0)%nat
    then GErr ("signature payload length " +:+ pretty sigPayloadLen +:+
               " is not a multiple of " +:+ pretty sigSize)
    else convert_sigs (sigPayloadLen / sigSize) 0 blob.

(** ** Reports *)

Context {CP : CcvProtocol} {W : Type} {E : Type → Type} {IV : Invoker W E}.

Definition DefaultGasLimitOverride : Z := 0.

(** [NewContractTransmitterWithClient]: the transmitter is its invoker and the OffRamp's
    id; [hasInvoker] and [hasLggr] tell whether the arguments are non-nil. *)
Definition NewContractTransmitterWithClient (hasInvoker : bool)
    (ccipOfframpAddress ccipStateChangedTopic : string) (hasLggr : bool) : result string :=
  if negb hasInvoker then Err "invoker is required"
  else if decide (ccipOfframpAddress = "") then Err "ccip offramp address is required"
  else if decide (ccipStateChangedTopic = "") then Err "ccip state changed topic is required"
  else if negb hasLggr then Err "logger is required"
  else Ok ccipOfframpAddress.

(** [errors.Join(ErrMessageEncoding, fmt.Errorf("<ctx>: %w", err))]: the texts, one a line. *)
Definition encoding_error {A} (ctx : string) (m : gres A) : gres A :=
  match m with
  | GErr e => GErr (ErrMessageEncoding +:+ String (ascii_of_N 10) (ctx +:+ ": " +:+ e))
  | _ => m
  end.

Definition ccv_strkey (i : nat) (ccv : UnknownAddress) : gres string :=
  encoding_error ("unable to submit txn: invalid CCV address at index " +:+ pretty i)
    (of_result (ScVal.HexToContractStrkey ("0x" +:+ EncodeToString ccv))).
Definition ccv_blob (i : nat) (blob : bytes) : gres bytes :=
  encoding_error ("unable to convert verifier blob " +:+ pretty i +:+ " to EIP-2098")
    (convertVerifierBlobToEIP2098 blob).

(** What precedes the call: its arguments. *)
Definition transmit_args (report : AbstractAggregatedReport)
  : gres (bytes * list string * list bytes) :=
  _ ← MustMessageID (ReportMessage report);
  encodedMsg ← encoding_error "unable to submit txn: invalid message encoding"
                 (of_result (EncodeMessage (ReportMessage report)));
  ccvs ← gimapM ccv_strkey (CCVS report);
  data ← gimapM ccv_blob (CCVData report);
  GVal (encodedMsg, ccvs, data).

Definition ConvertAndWriteMessageToChain (offramp : string) (report : AbstractAggregatedReport)
  : prog W E (gres unit) :=
  a <-? Ret (transmit_args report);
  let '(encodedMsg, ccvs, data) := a in
  OffRamp.Execute offramp encodedMsg ccvs data DefaultGasLimitOverride.
End transmitter.
End Transmitter.
