(* ===== verification/SourceReader.v ===== *)
(** [ccv/source_reader/source_reader.go]: CCIP messages and ledger headers, read from the
    OnRamp's events and from a node. *)

From Stdlib Require Import Ascii.
From Stdlib Require Import Strings.Byte.
From Stdlib Require Strings.String.
From stdpp Require Import base gmap list strings pretty.
From S2P Require Import Prelude GoStrings Prog Xdr ScVal GoBytes TypeConverters StellarService.
From S2P Require Import Ccv Bindings.
Import Xdr.

Local Open Scope Z_scope.

Module SourceReader.
Section reader.
Context {UT : UnicodeTables} {XS : XdrSdk} {RS : RpcSdk} {CP : CcvProtocol} {CX : CcvXdr}.

(** The reader's fields, the client and the invoker apart. *)
Record SourceReader := mkSourceReader {
  ccipOnrampAddress : string;
  ccipMessageSentTopic : string;
  rmnRemoteAddress : string
}.
(** [hasClient] and [hasLggr]: whether the arguments are non-nil. *)
Definition NewSourceReaderWithClient (hasClient : bool) (onramp topic rmn : string) (hasLggr : bool)
  : result SourceReader :=
  if negb hasClient then Err "rpc client is required"
  else if negb hasLggr then Err "logger is required"
  else if decide (onramp = "") then Err "ccip onramp address is required"
  else if decide (topic = "") then Err "ccip message sent topic is required"
  else if decide (rmn = "") then Err "rmn remote address is required"
  else Ok (mkSourceReader onramp topic rmn).

(** ** Events *)

(** [hi.Lsh(hi, 64); hi.Add(hi, lo)]. *)
Definition big_of_i128 (p : Int128Parts) : Z := Z.shiftl (i128Hi p) 64 + i128Lo p.

Definition parse_receipt_field (key : string) (v : ScVal) (r : ReceiptWithBlob)
  : gres ReceiptWithBlob :=
  let 'mkReceipt i g o b x f := r in
  if decide (key = "issuer") then
    raw ← gtry (ScVal.RawBytesFromAddressScVal v); GVal (mkReceipt (default i raw) g o b x f)
  else if decide (key = "dest_gas_limit") then
    u ← GetU32 v; GVal (mkReceipt i (default g u) o b x f)
  else if decide (key = "dest_bytes_overhead") then
    u ← GetU32 v; GVal (mkReceipt i g (default o u) b x f)
  else if decide (key = "fee_token_amount") then
    p ← GetI128 v;
    GVal (mkReceipt i g o b x (match p with Some p => Some (big_of_i128 p) | None => f end))
  else if decide (key = "extra_args") then
    e ← GetBytes v; GVal (mkReceipt i g o b (default x e) f)
  else GVal r.
Definition zeroReceipt : ReceiptWithBlob := mkReceipt [] 0 0 [] [] None.
Definition parseReceipt (val : ScVal) : gres ReceiptWithBlob :=
  m ← got_map "receipt is not a map" val;
  for_entries parse_receipt_field m zeroReceipt.

Definition parseReceipts (val : ScVal) : gres (list ReceiptWithBlob) :=
  vec ← got_vec "receipts is not a vec" val;
  gimapM (λ _ item, gwrap "parse receipt" (parseReceipt item)) vec.

(** The variables of the loop over the event's entries. *)
Record MessageSentVars := mkVars {
  destChainSelector : Z;
  sequenceNumber : Z;
  sender : string;
  messageID : bytes;
  feeToken : string;
  tokenAmountBeforeFees : option Z;
  encodedMessage : bytes;
  receipts : list ReceiptWithBlob;
  verifierBlobs : list bytes
}.
Definition zeroVars : MessageSentVars := mkVars 0 0 "" (replicate 32 x00) "" None [] [] [].

Definition message_sent_field (key : string) (v : ScVal) (s : MessageSentVars)
  : gres MessageSentVars :=
  let 'mkVars d n a i t b m r l := s in
  if decide (key = "dest_chain_selector") then
    x ← GetU64 v; GVal (mkVars (default d x) n a i t b m r l)
  else if decide (key = "sequence_number") then
    x ← GetU64 v; GVal (mkVars d (default n x) a i t b m r l)
  else if decide (key = "sender") then
    x ← gtry (ScVal.AddressFromScVal v); GVal (mkVars d n (default a x) i t b m r l)
  else if decide (key = "message_id") then
    x ← GetBytes v;
    GVal (mkVars d n a
            (match x with Some x => if (length x =? 32)%nat then copy_into 32 x else i | None => i end)
            t b m r l)
  else if decide (key = "fee_token") then
    x ← gtry (ScVal.AddressFromScVal v); GVal (mkVars d n a i (default t x) b m r l)
  else if decide (key = "token_amount_before_fees") then
    x ← GetI128 v;
    GVal (mkVars d n a i t (match x with Some x => Some (big_of_i128 x) | None => b end) m r l)
  else if decide (key = "encoded_message") then
    x ← GetBytes v; GVal (mkVars d n a i t b (default m x) r l)
  else if decide (key = "receipts") then
    x ← gtry (parseReceipts v); GVal (mkVars d n a i t b m (default r x) l)
  else if decide (key = "verifier_blobs") then
    x ← gtry (ScVal.BytesVecFromScVal v); GVal (mkVars d n a i t b m r (default l x))
  else GVal s.

(** [for i := range receipts { if i < len(verifierBlobs) { ... } }]. *)
Definition pair_blobs (rs : list ReceiptWithBlob) (blobs : list bytes) : list ReceiptWithBlob :=
  imap (λ i r,
    match blobs !! i with
    | Some b =>
        mkReceipt (Issuer r) (DestGasLimit r) (DestBytesOverhead r) b (ExtraArgs r) (FeeTokenAmount r)
    | None => r
    end) rs.

Definition decodeCCIPMessageSentEvent (e : TypeConverters.protocol_EventInfo)
  : gres MessageSentEvent :=
  eventVal ← gwrap "failed to decode event value"
               (of_result (UnmarshalScVal (TypeConverters.peValueXDR e)));
  scMap ← got_map "event value is not a map" eventVal;
  s ← for_entries message_sent_field scMap zeroVars;
  let rs := pair_blobs (receipts s) (verifierBlobs s) in
  msg ← gwrap "failed to decode encoded_message as MessageV1"
          (of_result (DecodeMessage (encodedMessage s)));
  GVal (mkMessageSent (messageID s) msg rs (uint64 (TypeConverters.peLedger e))
          (String.list_byte_of_string (TypeConverters.peTransactionHash e))).

(** The loop over the node's events: one that does not decode is skipped. *)
Fixpoint decode_events (events : list TypeConverters.protocol_EventInfo)
  : gres (list MessageSentEvent) :=
  match events with
  | [] => GVal []
  | e :: events' =>
      m ← gtry (decodeCCIPMessageSentEvent e);
      ms ← decode_events events';
      GVal (match m with Some m => m :: ms | None => ms end)
  end.

(** A [*big.Int] as a ledger sequence number. *)
Definition ledger_of (n : option Z) : gres Z :=
  n ← deref n;
  let seq := big_Uint64 n in
  if max_uint32 <? seq
  then GErr ("block number exceeds uint32 (ledger seq) range: " +:+ pretty seq)
  else GVal (uint32 seq).

(** The request for the events of [contract] under [topic] in a range of ledgers. *)
Definition event_request (contract topic : string) (fromLedger toLedger : Z)
  : TypeConverters.protocol_GetEventsRequest :=
  TypeConverters.mkProtocolRequest _ fromLedger toLedger
    [TypeConverters.mkProtocolFilter {[protocol_EventTypeContract]} [contract]
       [[TypeConverters.mkSegmentFilter None (ScVal.SymbolToScValPtr topic);
         TypeConverters.mkSegmentFilter (Some WildCardZeroOrMore) None]]]
    None "".

Definition FetchMessageSentEvents (s : SourceReader) (fromBlock toBlock : option Z)
  : prog unit ccv_ext (gres (list MessageSentEvent)) :=
  fromSeq <-? Ret (ledger_of fromBlock);
  let fromLedger := Z.max fromSeq 7 in
  toLedger <-? match toBlock with
               | Some _ => Ret (ledger_of toBlock)
               | None =>
                   latest <-? gctx "failed to get latest ledger" (gcall CGetLatestLedger);
                   Ret (GVal (StellarService.llSequence latest))
               end;
  events <-? gctx "failed to get events" (gcall (CGetEvents
               (event_request (ccipOnrampAddress s) (ccipMessageSentTopic s) fromLedger toLedger)));
  Ret (decode_events (TypeConverters.psEvents events)).

(** ** Headers *)

Definition toBytes32 (hexStr : string) : result bytes :=
  let hexStr :=
    if HasPrefix hexStr "0x" then hexStr else "0x" +:+ TrimPrefix hexStr "0X" in
  let h := TrimPrefix hexStr "0x" in
  let h := if Nat.odd (String.length h) then "0" +:+ h else h in
  if (64 <? String.length h)%nat then Err ("hex string too long: " +:+ hexStr)
  else
    decoded ← wrap_err "decode hex" (ScVal.Hex.DecodeString h);
    Ok (copy_into 32 decoded).

Definition buildBlockHeader (hashHex headerB64 : string) (sequence closeTime : Z)
  : result BlockHeader :=
  previous ← wrap_err "unmarshal ledger header" (UnmarshalLedgerHeader headerB64);
  hash ← wrap_err "parse ledger hash" (toBytes32 hashHex);
  Ok (mkBlockHeader (uint64 sequence) hash previous closeTime).
Definition buildBlockHeaderFromMeta (hashHex metadataB64 : string) (sequence closeTime : Z)
  : result BlockHeader :=
  previous ← wrap_err "unmarshal ledger metadata" (UnmarshalLedgerCloseMeta metadataB64);
  hash ← wrap_err "parse ledger hash" (toBytes32 hashHex);
  Ok (mkBlockHeader (uint64 sequence) hash previous closeTime).
Definition ledgerToBlockHeader (resp : StellarService.GetLatestLedgerResponse)
  : result BlockHeader :=
  buildBlockHeader (StellarService.llHash resp) (StellarService.llLedgerHeaderXDR resp)
    (StellarService.llSequence resp) (StellarService.llLedgerCloseTime resp).

(** One iteration of [GetBlocksHeaders]: the ledger's number and header. *)
Definition block_header_of (seq : Z) (resp : StellarService.GetLedgersResponse)
  : result BlockHeader :=
  match StellarService.glLedgers resp with
  | [] => Err ("ledger " +:+ pretty seq +:+ " not found")
  | ledger :: _ =>
      if negb (StellarService.liSequence ledger =? uint32 seq)
      then Err ("ledger seq mismatch: requested " +:+ pretty seq +:+ " got " +:+
                  pretty (StellarService.liSequence ledger))
      else
        wrap_err ("failed to build header for ledger " +:+ pretty seq)
          (buildBlockHeaderFromMeta (StellarService.liHash ledger)
             (StellarService.liLedgerMetadataXDR ledger) (StellarService.liSequence ledger)
             (StellarService.liLedgerCloseTime ledger))
  end.
Fixpoint headers_loop (ledgerNumber : list (option Z)) (headers : gmap Z BlockHeader)
  : prog unit ccv_ext (gres (gmap Z BlockHeader)) :=
  match ledgerNumber with
  | [] => Ret (GVal headers)
  | n :: rest =>
      seq <-? Ret (ledger_of n);
      resp <-? gctx ("failed to get ledger " +:+ pretty seq) (gcall (CGetLedgers
                 (StellarService.mkProtocolLedgers (uint32 seq) (Some ("", 1)) "")));
      h <-? Ret (of_result (block_header_of seq resp));
      headers_loop rest (<[seq := h]> headers)
  end.
Definition GetBlocksHeaders (ledgerNumber : list (option Z))
  : prog unit ccv_ext (gres (gmap Z BlockHeader)) :=
  headers_loop ledgerNumber ∅.

(** The two headers are one pointer. *)
Definition LatestAndFinalizedBlock : prog unit ccv_ext (gres (BlockHeader * BlockHeader)) :=
  latestLedger <-? gctx "failed to get latest ledger" (gcall CGetLatestLedger);
  header <-? Ret (gwrap "failed to build block header" (of_result (ledgerToBlockHeader latestLedger)));
  Ret (GVal (header, header)).
Definition LatestSafeBlock : prog unit ccv_ext (gres (option BlockHeader)) := Ret (GVal None).

Definition GetRMNCursedSubjects {W E} {IV : Invoker W E} (rmnRemote : string)
  : prog W E (gres (list bytes)) :=
  gctx "failed to get cursed subjects" (RmnRemote.GetCursedSubjects rmnRemote).
End reader.
End SourceReader.
