(* ===== verification/Poller.v ===== *)
(** [ccv/destination_reader/execution_attempt_poller.go]: the cache of execution attempts
    and the loop that fills it from the OffRamp's events. *)

From Stdlib Require Import Strings.Byte.
From stdpp Require Import base gmap list strings pretty.
From S2P Require Import Prelude GoStrings Prog Sdk Config Xdr ScVal TypeConverters InvokerAdapter.
From S2P Require Import StellarService Ccv Bindings SourceReader.
Import Config Xdr.

Local Open Scope Z_scope.

(** The expirable LRU of hashicorp/golang-lru without a size limit. The times are those of
    its clock; [ttl] is what [NewLRU] was given. *)
Class LruCache `{CcvProtocol} := {
  Cache : Type;
  NewLRU : Z → Cache;
  ttl : Cache → Z;
  cache_Get : Z → bytes → Cache → option (list ExecutionAttempt);
  cache_Add : Z → bytes → list ExecutionAttempt → Cache → Cache
}.
(** Documented behaviour: a new cache is empty; an entry is what was added last, and is there
    until its time to live is over; keys do not affect each other. *)
Class LruLaws `{LruCache} : Prop := {
  Get_NewLRU d t k : cache_Get t k (NewLRU d) = None;
  ttl_NewLRU d : 0 < d → ttl (NewLRU d) = d;
  ttl_Add t k v c : ttl (cache_Add t k v c) = ttl c;
  Get_Add_fresh t t' k v c : t' < t + ttl c → cache_Get t' k (cache_Add t k v c) = Some v;
  Get_Add_sound t t' k v v' c : cache_Get t' k (cache_Add t k v c) = Some v' → v' = v;
  Get_Add_other t t' k k' v c : k' ≠ k → cache_Get t' k' (cache_Add t k v c) = cache_Get t' k' c
}.

Module Poller.

Definition defaultStellarPollInterval : Z := 5 * Second.
Definition estimatedLedgerCloseTime : Z := 6 * Second.
Definition minStellarLedger : Z := 7.
Definition expectedExecuteArgCount : nat := 4.

Section poller.
Context {UT : UnicodeTables} {XS : XdrSdk} {SD : SdkTypes} {SK : Sdk} {RS : RpcSdk}
  {CP : CcvProtocol} {CX : CcvXdr} {LC : LruCache}.

(** The fields that change, and those that do not. *)
Record Poller := mkPoller {
  attemptCache : Cache;
  lastPolledLedger : Z;
  startLedger : Z
}.
Record PollerConfig := mkPollerConfig {
  offrampContractID : string;
  pollInterval : Z;
  lookbackWindow : Z
}.
Definition set_cache (f : Cache → Cache) (p : Poller) : Poller :=
  mkPoller (f (attemptCache p)) (lastPolledLedger p) (startLedger p).
Definition set_last (l : Z) (p : Poller) : Poller :=
  mkPoller (attemptCache p) l (startLedger p).
Definition set_start (l : Z) (p : Poller) : Poller :=
  mkPoller (attemptCache p) (lastPolledLedger p) l.

Definition NewStellarExecutionAttemptPoller (hasClient : bool) (offramp : string) (hasLggr : bool)
    (attemptCacheExpiration : Z) : result (PollerConfig * Poller) :=
  if negb hasClient then Err "rpc client cannot be nil"
  else if negb hasLggr then Err "logger cannot be nil"
  else if decide (offramp = "") then Err "offramp contract ID cannot be empty"
  else Ok (mkPollerConfig offramp defaultStellarPollInterval attemptCacheExpiration,
           mkPoller (NewLRU attemptCacheExpiration) 0 0).

(** ** From a transaction to an attempt *)

Definition extractInvokeContractArgs (envelopeXDR : string) : gres (list ScVal) :=
  envelope ← gwrap "failed to unmarshal transaction envelope"
               (of_result (UnmarshalTransactionEnvelope envelopeXDR));
  ops ← match envelope with
        | EnvelopeTypeTxV0 V0 => deref V0
        | EnvelopeTypeTx V1 => deref V1
        | EnvelopeTypeTxFeeBump FeeBump => inner ← deref FeeBump; deref inner
        | EnvelopeTypeOther _ =>
            GErr ("unsupported envelope type: " +:+ EnvelopeType_String envelope)
        end;
  match ops with
  | [] => GErr "transaction has no operations"
  | op :: _ =>
      match op with
      | BodyOther _ =>
          GErr ("first operation is not InvokeHostFunction (type=" +:+ OperationType_String op +:+ ")")
      | BodyInvokeHostFunction p =>
          hostFn ← deref p;
          match hostFn with
          | HostFunctionOther _ =>
              GErr ("host function is not InvokeContract (type=" +:+
                      HostFunctionType_String hostFn +:+ ")")
          | HostInvokeContract invokeArgs =>
              a ← nonnil "InvokeContract args are nil" invokeArgs;
              GVal (Args a)
          end
      end
  end.

Definition decodeExecuteArgsToAttempt (args : list ScVal) : gres ExecutionAttempt :=
  match args with
  | [arg0; arg1; arg2; arg3] =>
      encodedMsg ← gwrap "failed to decode encoded_message" (ScVal.BytesFromScVal arg0);
      ccvs ← gwrap "failed to decode ccvs" (ScVal.AddressVecFromScVal arg1);
      verifierResults ← gwrap "failed to decode verifier_results" (ScVal.BytesVecFromScVal arg2);
      u ← GetU32 arg3;
      gasLimitOverride ← nonnil "failed to decode gas_limit_override: not a u32" u;
      message ← gwrap "failed to decode message" (of_result (DecodeMessage encodedMsg));
      GVal (mkAttempt (mkReport ccvs verifierResults message) gasLimitOverride)
  | _ =>
      GErr ("expected " +:+ pretty expectedExecuteArgCount +:+ " args, got " +:+ pretty (length args))
  end.

(** The transaction behind an event, as an attempt. *)
Definition attempt_of (event : OffRamp.ExecutionStateChangedEvent) (txResp : TransactionReply)
  : gres ExecutionAttempt :=
  let hash := OffRamp.escTxHash event in
  match trStatus txResp with
  | TransactionStatusSuccess =>
      executeArgs ← gwrap ("failed to extract execute args from transaction " +:+ hash)
                      (extractInvokeContractArgs (trEnvelopeXDR txResp));
      attempt ← gwrap ("failed to decode execute args from transaction " +:+ hash)
                  (decodeExecuteArgsToAttempt executeArgs);
      attemptMsgID ← MustMessageID (ReportMessage (Report attempt));
      if decide (OffRamp.escMessageId event = attemptMsgID) then GVal attempt
      else GErr "computed message id does not match event message id"
  | st =>
      GErr ("transaction " +:+ hash +:+ " has non-success status: " +:+ RpcTxStatus_String st)
  end.

(** ** The loop *)

Definition processExecutionStateChanged (event : OffRamp.ExecutionStateChangedEvent)
  : prog Poller ccv_ext (gres unit) :=
  txResp <-? gctx ("failed to get transaction " +:+ OffRamp.escTxHash event)
               (gcall (CGetTransaction (OffRamp.escTxHash event)));
  attempt <-? Ret (attempt_of event txResp);
  let msgID := OffRamp.escMessageId event in
  now ← call CNow;
  attempts ← gets (λ p, default [] (cache_Get now msgID (attemptCache p)));
  now ← call CNow;
  modify (set_cache (cache_Add now msgID (attempts ++ [attempt])));;
  Ret (GVal tt).

(** The loop over the events: one that does not parse, or whose transaction does not yield
    an attempt, is skipped. *)
Fixpoint process_events (events : list TypeConverters.protocol_EventInfo)
  : prog Poller ccv_ext unit :=
  match events with
  | [] => Ret tt
  | e :: events' =>
      match OffRamp.ParseExecutionStateChangedEvent e with
      | GPanic m => Panic m
      | GErr _ => process_events events'
      | GVal parsed =>
          r ← processExecutionStateChanged parsed;
          match r with GPanic m => Panic m | _ => process_events events' end
      end
  end.

Definition poll_request (cfg : PollerConfig) (fromLedger toLedger : Z)
  : TypeConverters.protocol_GetEventsRequest :=
  SourceReader.event_request (offrampContractID cfg) OffRamp.ExecutionStateChangedEventTopic
    fromLedger toLedger.

Definition pollForEvents (cfg : PollerConfig) : prog Poller ccv_ext (gres unit) :=
  latest <-? gctx "failed to get latest ledger" (gcall CGetLatestLedger);
  let toLedger := StellarService.llSequence latest in
  last ← gets lastPolledLedger;
  if toLedger <=? last then Ret (GVal tt)
  else
    resp <-? gctx "failed to get events" (gcall (CGetEvents (poll_request cfg last toLedger)));
    process_events (TypeConverters.psEvents resp);;
    modify (set_last toLedger);;
    Ret (GVal tt).

(** [n] turns of the ticker loop. *)
Fixpoint runPolling (cfg : PollerConfig) (n : nat) : prog Poller ccv_ext unit :=
  match n with
  | O => Ret tt
  | S n' =>
      tick ← call CTick;
      if tick : bool then
        r ← pollForEvents cfg;
        match r with GPanic m => Panic m | _ => runPolling cfg n' end
      else Ret tt
  end.

(** ** Start *)

Definition start_ledger (lookbackWindow latest : Z) : Z :=
  let lookbackLedgers := uint32 (Z.quot lookbackWindow estimatedLedgerCloseTime) in
  if latest <=? lookbackLedgers then minStellarLedger
  else Z.max (latest - lookbackLedgers) minStellarLedger.
Definition getStartLedger (cfg : PollerConfig) : prog Poller ccv_ext (gres unit) :=
  latest <-? gctx "failed to get latest ledger" (gcall CGetLatestLedger);
  modify (set_start (start_ledger (lookbackWindow cfg) (StellarService.llSequence latest)));;
  Ret (GVal tt).

Definition runBackfill (cfg : PollerConfig) : prog Poller ccv_ext (gres unit) :=
  modify (λ p, set_last (startLedger p) p);;
  gctx "backfill failed" (pollForEvents cfg).

(** [Start], and then [n] turns of the goroutine it starts. *)
Definition Start (cfg : PollerConfig) : prog Poller ccv_ext (gres unit) :=
  _ <-? gctx "failed to calculate start ledger" (getStartLedger cfg);
  r ← runBackfill cfg;
  match r with
  | GPanic m => Panic m
  | GErr _ => modify (λ p, set_last (startLedger p) p);; Ret (GVal tt)
  | GVal _ => Ret (GVal tt)
  end.
Definition poller_goroutine (cfg : PollerConfig) (n : nat) : prog Poller ccv_ext (gres unit) :=
  _ <-? Start cfg; runPolling cfg n;; Ret (GVal tt).

(** ** Readers *)

Definition GetExecutionAttempts (message : Message)
  : prog Poller ccv_ext (gres (list ExecutionAttempt)) :=
  msgID <-? Ret (of_result (wrap_err "failed to get message ID" (MessageID message)));
  now ← call CNow;
  attempts ← gets (λ p, cache_Get now msgID (attemptCache p));
  Ret (GVal (default [] attempts)).
End poller.
End Poller.
