(* ===== verification/DestinationReader.v ===== *)
(** [ccv/destination_reader/destination_reader.go]: the state of messages on the OffRamp. *)

From Stdlib Require Import Strings.Byte.
From stdpp Require Import base gmap list strings pretty.
From S2P Require Import Prelude GoStrings Prog Sdk Xdr ScVal GoBytes TypeConverters.
From S2P Require Import Ccv Bindings SourceReader Poller.
Import Xdr.

Local Open Scope Z_scope.

Module DestinationReader.
Section reader.
Context {UT : UnicodeTables} {XS : XdrSdk} {SD : SdkTypes} {SK : Sdk} {RS : RpcSdk}
  {CP : CcvProtocol} {CX : CcvXdr} {LC : LruCache}.

(** The reader's fields, the invoker apart; the poller's state is the programs' world. *)
Record DestinationReader := mkDestinationReader {
  offrampClient : string;
  rmnRemoteAddress : string;
  executionAttemptPoller : Poller.PollerConfig
}.

Definition New (hasInvoker hasClient : bool) (offRampContractID rmnRemoteContractID : string)
    (hasLggr : bool) (attemptCacheExpiration : Z) : result (DestinationReader * Poller.Poller) :=
  if negb hasInvoker then Err "invoker is required"
  else if negb hasClient then Err "rpc client is required"
  else if decide (offRampContractID = "") then Err "offramp contract ID is required"
  else if decide (rmnRemoteContractID = "") then Err "rmn remote contract ID is required"
  else if negb hasLggr then Err "logger is required"
  else
    '(cfg, poller) ← wrap_err "failed to create execution attempt poller"
      (Poller.NewStellarExecutionAttemptPoller hasClient offRampContractID hasLggr
         attemptCacheExpiration);
    Ok (mkDestinationReader offRampContractID rmnRemoteContractID cfg, poller).

Definition Start (d : DestinationReader) : prog Poller.Poller ccv_ext (gres unit) :=
  gctx "failed to start execution attempt poller" (Poller.Start (executionAttemptPoller d)).

Section calls.
Context {W : Type} {E : Type → Type} {IV : Invoker W E}.

Definition GetMessageSuccess (d : DestinationReader) (message : Message) : prog W E (gres bool) :=
  msgID <-? Ret (of_result (wrap_err "failed to compute message ID" (MessageID message)));
  state <-? gctx ("failed to get execution state for message " +:+ EncodeToString msgID)
              (OffRamp.GetExecutionState (offrampClient d) msgID);
  Ret (GVal (state =? OffRamp.MessageExecutionStateSuccess)).

(** The body of both loops over configured addresses. *)
Definition ccv_address (addr : string) : gres UnknownAddress :=
  match ScVal.ParseAddress addr with
  | None => GErr ("failed to parse address: " +:+ addr)
  | Some parsedAddr =>
      deref (match parsedAddr with AddressTypeContract ContractId => ContractId | _ => None end)
  end.
Definition ccv_info (sourceConfig : OffRamp.SourceChainConfig) : gres CCVAddressInfo :=
  requiredCCVs ← gimapM (λ _ addr, ccv_address addr) (OffRamp.LaneMandatedCcvs sourceConfig);
  optionalCCVs ← gimapM (λ _ addr, ccv_address addr) (OffRamp.DefaultCcvs sourceConfig);
  let optionalThreshold := if (0 <? length optionalCCVs)%nat then 1 else 0 in
  GVal (mkCCVAddressInfo requiredCCVs optionalCCVs optionalThreshold).
Definition GetCCVSForMessage (d : DestinationReader) (message : Message)
  : prog W E (gres CCVAddressInfo) :=
  let sourceSelector := uint64 (SourceChainSelector message) in
  sourceConfig <-? gctx ("failed to get source chain config for selector " +:+ pretty sourceSelector)
                     (OffRamp.GetSourceChainConfig (offrampClient d) sourceSelector);
  info <-? Ret (ccv_info sourceConfig);
  Ret (GVal info).

Definition GetRMNCursedSubjects (d : DestinationReader) : prog W E (gres (list bytes)) :=
  gctx "failed to get cursed subjects" (RmnRemote.GetCursedSubjects (rmnRemoteAddress d)).
End calls.

Definition GetExecutionAttempts (d : DestinationReader) (message : Message)
  : prog Poller.Poller ccv_ext (gres (list ExecutionAttempt)) :=
  Poller.GetExecutionAttempts message.

(** The stubs. *)
Definition CheckHealth (chain : Z) : result unit := Ok tt.
Definition HasHonestAttempt (message : Message) : result bool := Ok false.
Definition IsReady (chain : Z) : bool := true.
End reader.
End DestinationReader.
