(* ===== verification/DemoCcv.v ===== *)
(** A concrete message codec, decoder, cache and curve, with which the theorems of the [ccv]
    components are instantiated. *)

From Stdlib Require Import Ascii.
From Stdlib Require Import Strings.Byte.
From Stdlib Require Strings.String.
From stdpp Require Import base gmap list strings pretty.
From S2P Require Import Prelude GoStrings Prog Sdk Xdr ScVal GoBytes Demo TypeConverters.
From S2P Require Import TypeConvertersProps InvokerAdapter StellarService Ccv Bindings.
From S2P Require Import Transmitter SourceReader Poller.
Import Xdr.

Local Open Scope Z_scope.

Module DemoCcv.

#[export] Instance demo_unicode : UnicodeTables := DemoXdr.demo_unicode.
#[export] Instance demo_types : SdkTypes := Demo.demo_types.
#[export] Instance demo_sdk : Sdk := Demo.demo_sdk.
#[export] Instance demo_rpc : RpcSdk := TypeConvertersProps.demo_rpc.

(** A message is its encoding, which is not empty; the id is its first 32 bytes. *)
Definition demo_decode (b : bytes) : result bytes :=
  match b with [] => Err "empty message" | _ => Ok b end.
#[export] Instance demo_protocol : CcvProtocol := {|
  Message := bytes;
  MessageID m := resize 32 x00 <$> demo_decode m;
  EncodeMessage := demo_decode;
  DecodeMessage := demo_decode;
  SourceChainSelector _ := 7;
  ErrMessageEncoding := "message encoding"
|}.
#[export] Instance demo_protocol_laws : CcvLaws.
Proof.
  constructor; cbn; unfold demo_decode.
  - by intros [|x m] b; [|intros [= <-]].
  - by intros [|x m] i; [|intros [= <-]; cbn; rewrite length_resize].
  - by intros [|x m].
  - by intros [|x b] m; [|intros [= <-]].
Qed.

(** A message, a CCV, and the event of an execution. *)
Definition demo_message : Message := [x01; x02; x03].
Definition demo_id : bytes := resize 32 x00 demo_message.
Definition demo_ccv : string := String "C" (String.string_of_list_byte DemoXdr.key1).
Definition demo_executed : ScVal := ScvMap (Some (Some
  [(ScVal.SymbolToScVal "message_id", ScVal.BytesToScVal demo_id);
   (ScVal.SymbolToScVal "sequence_number", ScVal.Uint64ToScVal 5);
   (ScVal.SymbolToScVal "state", ScVal.Uint32ToScVal 2)])).

(** A message sent, with one receipt. *)
Definition demo_receipt : ScVal := ScvMap (Some (Some
  [(ScVal.SymbolToScVal "dest_bytes_overhead", ScVal.Uint32ToScVal 64);
   (ScVal.SymbolToScVal "dest_gas_limit", ScVal.Uint32ToScVal 200);
   (ScVal.SymbolToScVal "extra_args", ScVal.BytesToScVal [x07]);
   (ScVal.SymbolToScVal "fee_token_amount", ScvI128 (Some (mkInt128Parts (-1) 5)));
   (ScVal.SymbolToScVal "issuer", ScvAddress (Some (AddressTypeContract (Some DemoXdr.key1))))])).
Definition demo_sent_entries : list (ScVal * ScVal) :=
  [(ScVal.SymbolToScVal "encoded_message", ScVal.BytesToScVal demo_message);
   (ScVal.SymbolToScVal "message_id", ScVal.BytesToScVal demo_id);
   (ScVal.SymbolToScVal "receipts", ScvVec (Some (Some [demo_receipt])));
   (ScVal.SymbolToScVal "verifier_blobs", ScvVec (Some (Some [ScVal.BytesToScVal [x09]])))].

#[export] Instance demo_xdr : XdrSdk := {|
  Encode := @Encode DemoXdr.demo_xdr;
  Decode := @Decode DemoXdr.demo_xdr;
  AddressToAccountId := @AddressToAccountId DemoXdr.demo_xdr;
  ScAddress_UnmarshalBinary := @ScAddress_UnmarshalBinary DemoXdr.demo_xdr;
  UnmarshalScVal s :=
    if decide (s = "executed") then Ok demo_executed
    else if decide (s = "sent") then Ok (ScvMap (Some (Some demo_sent_entries)))
    else Err "EOF";
  ScValType_String _ := "type";
  ScAddressType_String _ := "address type";
  ScErrorType_String _ := "error type";
  ContractExecutableType_String _ := "executable type";
  domain_ScValType _ := 0;
  domain_ScAddressType _ := 0;
  ScErrorCode z := z
|}.
#[export] Instance demo_xdr_laws : XdrLaws.
Proof.
  pose proof DemoXdr.demo_xdr_laws as [H1 H2 H3 H4 H5 H6 _]. constructor; try done.
  intros s v. cbn. by repeat case_decide; intros [= <-].
Qed.

(** The arguments that a transmission of the message sends. *)
Definition demo_args : list ScVal := OffRamp.execute_args demo_message [demo_ccv] [[x00; x09]] 0.

#[export] Instance demo_ccv_xdr : CcvXdr := {|
  UnmarshalTransactionEnvelope s :=
    if decide (s = "execute") then
      Ok (EnvelopeTypeTx (Some [BodyInvokeHostFunction (Some (HostInvokeContract (Some
            (mkInvokeContractArgs (AddressTypeContract (Some DemoXdr.key2)) "execute" demo_args))))]))
    else Err "EOF";
  UnmarshalLedgerHeader _ := Ok DemoXdr.key1;
  UnmarshalLedgerCloseMeta _ := Ok DemoXdr.key1;
  EnvelopeType_String _ := "envelope type";
  OperationType_String _ := "operation type";
  HostFunctionType_String _ := "host function type"
|}.
#[export] Instance demo_ccv_xdr_laws : CcvXdrLaws.
Proof. constructor. intros s e. cbn. by case_decide; intros [= <-]. Qed.

(** An association list, newest first, whose entries have the time at which they end. *)
Record DemoCache := mkDemoCache {
  demo_ttl : Z;
  demo_entries : list (bytes * (Z * list ExecutionAttempt))
}.
Fixpoint demo_find (t : Z) (k : bytes) (l : list (bytes * (Z * list ExecutionAttempt)))
  : option (list ExecutionAttempt) :=
  match l with
  | [] => None
  | (k', (end_, v)) :: l' =>
      if decide (k' = k) then if t <? end_ then Some v else None else demo_find t k l'
  end.
#[export] Instance demo_lru : LruCache := {|
  Cache := DemoCache;
  NewLRU d := mkDemoCache d [];
  ttl := demo_ttl;
  cache_Get t k c := demo_find t k (demo_entries c);
  cache_Add t k v c := mkDemoCache (demo_ttl c) ((k, (t + demo_ttl c, v)) :: demo_entries c)
|}.
#[export] Instance demo_lru_laws : LruLaws.
Proof.
  constructor; cbn; try done.
  - intros t t' k v c Ht. rewrite decide_True by done. by destruct (Z.ltb_spec t' (t + demo_ttl c)); [|lia].
  - intros t t' k v v' c. rewrite decide_True by done. by case_match; intros [= <-].
  - intros t t' k k' v c Hk. by rewrite decide_False.
Qed.

(** The order of secp256k1. *)
#[export] Instance secp256k1 : Secp256k1 :=
  {| secp256k1N := 2 ^ 256 - 432420386565659656852420866394968145599 |}.
#[export] Instance secp256k1_laws : Secp256k1Laws.
Proof. constructor; [split|]; by vm_compute. Qed.
End DemoCcv.
