(* ===== verification/BindingsProps.v ===== *)
(** Reading structs out of Soroban maps: the loops over entries as independent fields, and
    the round trip of the OffRamp's lane configuration. *)

From Stdlib Require Import Strings.Byte.
From stdpp Require Import base gmap list strings pretty sorting.
From S2P Require Import Prelude GoStrings Prog Xdr ScVal GoBytes ScValProps.
From S2P Require Import TypeConverters Ccv Bindings DemoCcv.
Import Xdr ScValProps.

Local Open Scope Z_scope.

Module BindingsProps.

(** ** One field of a loop over entries *)

(** The last readable entry under [key]. *)
Definition last_field {A} (key : string) (read : ScVal → option A) (d : A)
    (l : list (ScVal * ScVal)) : A :=
  foldl (λ acc kv, match fst kv with
                   | ScvSymbol (Some k) => if decide (k = key) then default acc (read (snd kv)) else acc
                   | _ => acc
                   end) d l.

Section fields.
Context {S : Type} (f : string → ScVal → S → gres S).

(** A component of the state that only entries under [key] change. *)
Lemma for_entries_field {A} (proj : S → A) key read l :
  (∀ v s s', f key v s = GVal s' → proj s' = default (proj s) (read v)) →
  (∀ k v s s', k ≠ key → f k v s = GVal s' → proj s' = proj s) →
  ∀ s s', for_entries f l s = GVal s' → proj s' = last_field key read (proj s) l.
Proof.
  intros Hhit Hmiss. induction l as [|[k v] l IH]; intros s s'; cbn [for_entries].
  { by intros [= ->]. }
  intros (key' & Hk & Hb)%gbind_GVal. apply gbind_GVal in Hb as (s1 & Hs1 & Hl).
  apply IH in Hl. rewrite Hl. cbn [last_field foldl fst snd]. fold (last_field key read).
  unfold last_field. f_equal. destruct k as [| | | | | | | | | | | | | | |[k|]| | | | | | |]; cbn in Hk; simplify_eq/=; try done.
  case_decide as E; [subst; by apply Hhit|by eapply Hmiss].
Qed.

(** The loop ends when each step does. *)
Lemma for_entries_total l :
  Forall (λ kv, match fst kv with
                | ScvSymbol None => False
                | ScvSymbol (Some k) => ∀ s, ∃ s', f k (snd kv) s = GVal s'
                | _ => True
                end) l →
  ∀ s, ∃ s', for_entries f l s = GVal s'.
Proof.
  induction 1 as [|[k v] l Hk Hl IH]; intros s; cbn [for_entries]; [by eexists|].
  destruct k as [| | | | | | | | | | | | | | |[k|]| | | | | | |]; cbn in Hk |- *; try done; try apply IH.
  destruct (Hk s) as [s1 ->]. apply IH.
Qed.

(** On a map off the wire the keys are set. *)
Lemma for_entries_valid l :
  (∀ k v s, valid v = true → ∃ s', f k v s = GVal s') →
  forallb (λ kv : ScVal * ScVal, valid (fst kv) && valid (snd kv)) l = true →
  ∀ s, ∃ s', for_entries f l s = GVal s'.
Proof.
  intros Hf Hl. apply for_entries_total. apply Forall_forall. intros [k v] Hin.
  rewrite forallb_forall in Hl. specialize (Hl (k, v) (proj1 (list_elem_of_In _ _) Hin)).
  cbn in Hl |- *. apply andb_true_iff in Hl as [Hk Hv].
  destruct k as [| | | | | | | | | | | | | | |[k|]| | | | | | |]; try done. intros s. by apply Hf.
Qed.
End fields.

(** ** Values off the wire are readable *)

Section total.
Context {UT : UnicodeTables} {XS : XdrSdk}.

Ltac accessor :=
  intros v Hv; destruct v; cbn in Hv |- *; unfold set_, arm in *; repeat case_match; try done; eauto.

Lemma GetU64_valid v : valid v = true → ∃ x, GetU64 v = GVal x.
Proof. revert v. accessor. Qed.
Lemma GetU32_valid v : valid v = true → ∃ x, GetU32 v = GVal x.
Proof. revert v. accessor. Qed.
Lemma GetB_valid v : valid v = true → ∃ x, GetB v = GVal x.
Proof. revert v. accessor. Qed.
Lemma GetI128_valid v : valid v = true → ∃ x, GetI128 v = GVal x.
Proof. revert v. accessor. Qed.
Lemma GetBytes_valid v : valid v = true → ∃ x, GetBytes v = GVal x.
Proof. revert v. accessor. Qed.
Lemma GetMap_valid v : valid v = true → ∃ x, GetMap v = GVal x.
Proof. revert v. accessor. Qed.
Lemma GetVec_valid v : valid v = true → ∃ x, GetVec v = GVal x.
Proof. revert v. accessor. Qed.

Lemma gtry_total {A} (g : gres A) : panics g = false → ∃ x, gtry g = GVal x.
Proof. destruct g; cbn; eauto; done. Qed.

(** A struct out of a map, and a list out of a vector. *)
Lemma struct_no_panic {S} (f : string → ScVal → S → gres S) err s0 v :
  (∀ k w s, valid w = true → ∃ s', f k w s = GVal s') → valid v = true →
  panics (m ← got_map err v; for_entries f m s0) = false.
Proof.
  intros Hf Hv. unfold got_map. destruct (GetMap_valid v Hv) as [[[l|]|] E]; rewrite E; try done.
  destruct v as [| | | | | | | | | | | | | | | | |[m|]| | | | |]; try done. cbn in E. injection E as ->.
  cbn [mbind gres_bind]. by destruct (for_entries_valid f l Hf Hv s0) as [s ->].
Qed.
Lemma vec_no_panic {A} (f : nat → ScVal → gres A) err v :
  (∀ i x, valid x = true → panics (f i x) = false) → valid v = true →
  panics (l ← got_vec err v; gimapM f l) = false.
Proof.
  intros Hf Hv. unfold got_vec. destruct (GetVec_valid v Hv) as [[[l|]|] E]; rewrite E; try done.
  destruct v as [| | | | | | | | | | | | | | | |[m|]| | | | | |]; try done. cbn in E. injection E as ->.
  apply gimapM_no_panic. intros i x Hx. apply Hf.
  change (forallb valid l = true) in Hv. rewrite forallb_forall in Hv.
  apply Hv, list_elem_of_In, Hx.
Qed.
End total.

(** Every step of the loops ends on a value off the wire. *)
Ltac field_total :=
  repeat (case_decide; [first
    [ destruct (GetU64_valid _ ltac:(eassumption)) as [? ->]
    | destruct (GetU32_valid _ ltac:(eassumption)) as [? ->]
    | destruct (GetI128_valid _ ltac:(eassumption)) as [? ->]
    | destruct (GetBytes_valid _ ltac:(eassumption)) as [? ->]
    | match goal with H : panics ?g = false |- context [gtry ?g] =>
        destruct (gtry_total g H) as [? ->] end ]; by eexists|]); by eexists.

Lemma last_field_none {A} key (read : ScVal → option A) l d :
  (∀ v, (ScvSymbol (Some key), v) ∉ l) → last_field key read d l = d.
Proof.
  unfold last_field. revert d. induction l as [|[k v] l IH]; intros d Hl; [done|]. cbn [foldl fst snd].
  rewrite IH by (set_solver). destruct k as [| | | | | | | | | | | | | | |[k|]| | | | | | |]; try done.
  case_decide as E; [|done]. subst. set_solver.
Qed.

Lemma last_field_unread {A} key (d : A) l : last_field key (λ _, None) d l = d.
Proof.
  unfold last_field. induction l as [|[k v] l IH]; [done|]. cbn [foldl fst snd].
  etrans; [|exact IH]. f_equal. by repeat case_match.
Qed.

(** With distinct keys it is the entry. *)
Lemma last_field_unique {A} key (read : ScVal → option A) l d v x :
  NoDup (fst <$> l) → (ScvSymbol (Some key), v) ∈ l → read v = Some x →
  last_field key read d l = x.
Proof.
  intros Hnd Hin Hx. apply list_elem_of_split in Hin as (l1 & l2 & ->).
  unfold last_field. rewrite foldl_app. cbn [foldl fst snd]. rewrite decide_True by done.
  rewrite Hx. cbn [default from_option]. apply (last_field_none key read l2). intros w Hw.
  rewrite fmap_app, NoDup_app in Hnd. destruct Hnd as (_ & _ & Hnd). cbn in Hnd.
  apply NoDup_cons_1_1 in Hnd. apply Hnd. apply list_elem_of_fmap. by exists (ScvSymbol (Some key), w).
Qed.

(** A readable value. *)
Definition gopt {A} (g : gres A) : option A := match g with GVal a => Some a | _ => None end.

(** ** The lane configuration *)

Section lane.
Context {UT : UnicodeTables} {XS : XdrSdk} {XL : XdrLaws}.
Import OffRamp ScValProps.

Lemma merge_sort_sorted keys ks :
  keys ≡ₚ ks → StronglySorted String.le ks → merge_sort String.le keys = ks.
Proof.
  intros Hp Hs. apply (StronglySorted_unique String.le); [apply StronglySorted_merge_sort; apply _|done|].
  by rewrite merge_sort_Permutation.
Qed.

(** A strkey of a 32-byte key. *)
Definition is_strkey (s : string) : Prop :=
  ∃ v key, length key = 32%nat ∧ Encode v key = Ok s.

Lemma address_there_and_back s : is_strkey s →
  ScVal.AddressFromScVal (ScVal.AddressToScVal s) = GVal s.
Proof.
  intros (v & key & Hk & He). rewrite (AddressToScVal_Encode v key) by done.
  by rewrite AddressFromScVal_of, He.
Qed.

Lemma addresses_there_and_back l : Forall is_strkey l →
  addresses_of (ScVal.AddressToScVal <$> l) = GVal l.
Proof.
  intros Hl. unfold addresses_of, gimapM. generalize 0%nat as i.
  induction Hl as [|s l Hs Hl IH]; intros i; [done|].
  cbn [fmap list_fmap gimapM_from]. rewrite address_there_and_back by done. cbn [mbind gres_bind].
  change (list_fmap _ _ _ l) with (ScVal.AddressToScVal <$> l). by rewrite IH.
Qed.

Lemma blobs_there_and_back (l : list bytes) :
  gimapM (λ _ item, b ← GetBytes item; nonnil "vec item is not bytes" b) (ScVal.BytesToScVal <$> l)
  = GVal l.
Proof.
  unfold gimapM. generalize 0%nat as i. induction l as [|b l IH]; intros i; [done|].
  cbn. change (list_fmap _ _ _ l) with (ScVal.BytesToScVal <$> l). by rewrite IH.
Qed.

(** The fields' names, which are in order. *)
Definition lane_keys : list string :=
  ["default_ccvs"; "is_enabled"; "lane_mandated_ccvs"; "on_ramps"; "router"].

(** The [switch] on a known key. *)
Ltac lane_step :=
  cbn [mbind gres_bind gres_fmap fmap]; repeat (rewrite decide_False by done); rewrite decide_True by done;
  cbn [mbind gres_bind GetB ScVal.BoolToScVal arm deref fmap gres_fmap nonnil].

(** The lane configuration of the OffRamp survives its encoding: whatever order Go
    enumerates the fields in, a configuration whose addresses are strkeys is written as a
    map with sorted keys that reads back as itself. *)
Theorem lane_config_roundtrip keys c :
  keys ≡ₚ lane_keys → Forall is_strkey (DefaultCcvs c ++ LaneMandatedCcvs c ++ [Router c]) →
  ∃ entries, SourceChainConfig_ToScVal keys c = GVal (ScvMap (Some (Some entries))) ∧
    entries.*1 = (λ k, ScvSymbol (Some k)) <$> lane_keys ∧
    SourceChainConfigFromScVal (ScvMap (Some (Some entries))) = GVal c.
Proof.
  intros Hk Ha. rewrite !Forall_app, Forall_singleton in Ha. destruct Ha as (Hd & Hm & Hr).
  assert (merge_sort String.le keys = lane_keys) as Es.
  { apply merge_sort_sorted; [done|]. repeat constructor; by apply (bool_decide_unpack _). }
  eexists. split; [done|]. unfold ScVal.struct_entries. rewrite Es. split; [done|].
  unfold lane_keys. cbn [fmap list_fmap].
  unfold SourceChainConfigFromScVal. cbn [got_map GetMap arm deref fmap gres_fmap mbind gres_bind].
  destruct c as [d e m o r]. cbn [DefaultCcvs LaneMandatedCcvs Router] in *.
  change (for_entries SourceChainConfig_field
    [(ScvSymbol (Some "default_ccvs"), ScVal.AddressSliceToScVal d);
     (ScvSymbol (Some "is_enabled"), ScVal.BoolToScVal e);
     (ScvSymbol (Some "lane_mandated_ccvs"), ScVal.AddressSliceToScVal m);
     (ScvSymbol (Some "on_ramps"), ScVal.BytesSliceToScVal o);
     (ScvSymbol (Some "router"), ScVal.AddressToScVal r)] zeroSourceChainConfig
    = GVal (mkSourceChainConfig d e m o r)).
  cbn [for_entries GetSym arm deref fmap gres_fmap mbind gres_bind].
  unfold SourceChainConfig_field, zeroSourceChainConfig. lane_step.
  cbn [got_vec ScVal.AddressSliceToScVal ScVal.VecToScVal GetVec arm deref fmap gres_fmap mbind gres_bind].
  rewrite (addresses_there_and_back d) by done. lane_step. lane_step.
  cbn [got_vec ScVal.AddressSliceToScVal ScVal.VecToScVal GetVec arm deref fmap gres_fmap mbind gres_bind].
  rewrite (addresses_there_and_back m) by done. lane_step.
  cbn [got_vec ScVal.BytesSliceToScVal ScVal.VecToScVal GetVec arm deref fmap gres_fmap mbind gres_bind].
  rewrite (blobs_there_and_back o). lane_step.
  by rewrite (address_there_and_back r) by done.
Qed.
End lane.
(** ** Witness *)

Import DemoCcv.

Definition demo_lane : OffRamp.SourceChainConfig :=
  OffRamp.mkSourceChainConfig [demo_ccv] true [] [[x01; x02]] demo_ccv.
Lemma demo_ccv_strkey : is_strkey demo_ccv.
Proof. by exists VersionByteContract, DemoXdr.key1. Qed.
Lemma lane_config_roundtrip_witness :
  ∃ entries, OffRamp.SourceChainConfig_ToScVal (reverse lane_keys) demo_lane = GVal (ScvMap (Some (Some entries))) ∧
    entries.*1 = (λ k, ScvSymbol (Some k)) <$> lane_keys ∧
    OffRamp.SourceChainConfigFromScVal (ScvMap (Some (Some entries))) = GVal demo_lane.
Proof.
  apply lane_config_roundtrip; [apply reverse_Permutation|]. repeat constructor; apply demo_ccv_strkey.
Defined.
End BindingsProps.
