(* ===== verification/TransmitterProps.v ===== *)
(** Properties of the contract transmitter: the conversion of signatures is the arithmetic
    one on every blob, and inverts the aggregator's normalisation. *)

From Stdlib Require Import Ascii.
From Stdlib Require Import Strings.Byte.
From stdpp Require Import base gmap list strings pretty.
From S2P Require Import Prelude GoStrings Prog Xdr ScVal GoBytes TypeConverters.
From S2P Require Import Ccv Bindings Transmitter DemoCcv.
Import Xdr Transmitter.

Local Open Scope Z_scope.

Module TransmitterProps.

(** ** Reference: signatures as numbers *)

Section reference.
Context {SP : Secp256k1}.

(** The word [S] in EIP-2098. *)
Definition compact_word (w : bytes) : bytes :=
  let s := SetBytes w in
  if secp256k1HalfN <? s then be_bytes 32 (Z.abs (secp256k1N - s) + 2 ^ 255) else w.
Definition compact_sig (c : bytes) : bytes := take 32 c ++ compact_word (drop 32 c).

(** The first [n] signatures of a payload. *)
Fixpoint chunks (n : nat) (l : bytes) : list bytes :=
  match n with O => [] | S n' => take sigSize l :: chunks n' (drop sigSize l) end.

(** The payload's length as the header declares it; nothing when the blob is shorter. *)
Definition payload_len (blob : bytes) : option nat :=
  let p := Z.to_nat (SetBytes (slice 4 2 blob)) in
  if bool_decide (headerLen + p <= length blob)%nat then Some p else None.
Definition convert_reference (blob : bytes) : gres bytes :=
  match payload_len blob with
  | None => GVal blob
  | Some p =>
      if decide (p mod sigSize = 0)%nat then
        GVal (take headerLen blob ++
              concat (compact_sig <$> chunks (p / sigSize) (drop headerLen blob)) ++
              drop (headerLen + p) blob)
      else GErr ("signature payload length " +:+ pretty p +:+
                 " is not a multiple of " +:+ pretty sigSize)
  end.

(** A signature is [R], [S] and the recovery id. The aggregator writes [v27 S v]. *)
Record Sig := mkSig { sigR : bytes; sigS : Z; sigV : bool }.
Definition v27 (s : Z) (v : bool) : Z := if v then secp256k1N - s else s.
Definition aggregator_sig (g : Sig) : bytes := sigR g ++ be_bytes 32 (v27 (sigS g) (sigV g)).
Definition eip2098_sig (g : Sig) : bytes :=
  sigR g ++ be_bytes 32 (sigS g + if sigV g then 2 ^ 255 else 0).
(** Reading an EIP-2098 signature, as the OffRamp does. *)
Definition eip2098_read (c : bytes) : Sig :=
  let w := SetBytes (drop 32 c) in mkSig (take 32 c) (w mod 2 ^ 255) (2 ^ 255 <=? w).
(** A low-S signature. *)
Definition canonical (g : Sig) : Prop :=
  length (sigR g) = 32%nat ∧ 0 <= sigS g <= secp256k1HalfN.
(** A blob of signatures in some format. *)
Definition blob_of (f : Sig → bytes) (version : bytes) (sigs : list Sig) (trailer : bytes) : bytes :=
  version ++ be_bytes 2 (64 * Z.of_nat (length sigs)) ++ concat (f <$> sigs) ++ trailer.
End reference.

Ltac sizes := unfold headerLen, sigSize in *; lia.

(** ** Lemmas *)

Section lemmas.
Context {SP : Secp256k1} {SL : Secp256k1Laws}.

Lemma halfN_twice : secp256k1N = 2 * secp256k1HalfN + 1.
Proof.
  unfold secp256k1HalfN. rewrite Z.shiftr_div_pow2 by done. change (2 ^ 1) with 2.
  rewrite <- Z.div2_div. pose proof (Z.div2_odd secp256k1N) as H. rewrite secp256k1N_odd in H. exact H.
Qed.

Lemma halfN_range : 2 ^ 254 <= secp256k1HalfN < 2 ^ 255.
Proof. pose proof secp256k1N_range. pose proof halfN_twice. lia. Qed.

Lemma or_head_top z : 0 <= z < 2 ^ 255 → or_head 128 (be_bytes 32 z) = be_bytes 32 (z + 2 ^ 255).
Proof.
  intros Hz. rewrite !(be_bytes_head 31). cbn [or_head].
  change (2 ^ 255) with (128 * 256 ^ Z.of_nat 31). rewrite Z.div_add by done.
  rewrite <- (be_bytes_mod 31 (z + _)), Z.mod_add, be_bytes_mod by done. f_equal.
  assert (0 <= z / 256 ^ Z.of_nat 31 < 128) as Hd.
  { split; [apply Z.div_pos; lia|]. apply Z.div_lt_upper_bound; [done|].
    change (256 ^ Z.of_nat 31 * 128) with (2 ^ 255). lia. }
  generalize dependent (z / 256 ^ Z.of_nat 31). intros x Hx.
  assert (x = byte_val (byte_of x)) as E by (rewrite byte_val_of, Z.mod_small; lia).
  rewrite <- E. rewrite E in Hx |- *. generalize dependent (byte_of x). intros b.
  clear. intros Hb. destruct b; try reflexivity; vm_compute in Hb; destruct Hb; discriminate.
Qed.

Lemma length_compact_word w : length w = 32%nat → length (compact_word w) = 32%nat.
Proof. intros. unfold compact_word. case_match; [apply length_be_bytes|done]. Qed.

Lemma length_compact_sig c : length c = 64%nat → length (compact_sig c) = 64%nat.
Proof.
  intros. unfold compact_sig. rewrite length_app, length_take, length_compact_word; [lia|].
  rewrite length_drop. lia.
Qed.

(** The loop's body works on the [i]-th signature. *)
Lemma convert_sig_at i pre c post :
  length pre = (headerLen + i * sigSize)%nat → length c = sigSize →
  convert_sig i (pre ++ c ++ post) = GVal (pre ++ compact_sig c ++ post).
Proof.
  intros Hp Hc. unfold convert_sig, sigSize in *.
  assert (length (take 32 c) = 32%nat) as Ht by (rewrite length_take; lia).
  assert (length (drop 32 c) = 32%nat) as Hd by (rewrite length_drop; lia).
  assert (pre ++ c ++ post = (pre ++ take 32 c) ++ drop 32 c ++ post) as ->.
  { by rewrite <- (app_assoc pre), (app_assoc (take 32 c)), take_drop. }
  unfold compact_sig. rewrite <- (app_assoc (take 32 c)), (app_assoc pre).
  set (p := pre ++ take 32 c).
  replace (headerLen + i * 64 + 32)%nat with (length p) by (unfold p; rewrite length_app; lia).
  set (w := drop 32 c) in *. clearbody p w. clear Hp Hc Ht.
  replace (length (p ++ w ++ post) <? length p + 32)%nat with false
    by (symmetry; apply Nat.ltb_ge; rewrite !length_app; lia).
  assert (slice (length p) 32 (p ++ w ++ post) = w) as ->.
  { unfold slice. rewrite drop_app_length, <- Hd. by rewrite take_app_length. }
  unfold compact_word. case_match; [|done].
  pose proof (SetBytes_range w) as Hw. rewrite Hd in Hw. pose proof secp256k1N_range. pose proof halfN_twice.
  assert (Z.abs (secp256k1N - SetBytes w) < 2 ^ 255).
  { zbool. change (256 ^ Z.of_nat 32) with (2 ^ 256) in Hw. lia. }
  destruct (big_Bytes_pad 32 (secp256k1N - SetBytes w)) as [Hl ->].
  { change (256 ^ Z.of_nat 32) with (2 ^ 256). lia. }
  replace (32 <? length (big_Bytes (secp256k1N - SetBytes w)))%nat with false
    by (symmetry; by apply Nat.ltb_ge).
  rewrite or_head_top by lia. f_equal. unfold splice. rewrite length_be_bytes, take_app_length. do 2 f_equal.
  rewrite <- Hd. by rewrite app_assoc, drop_app_length' by (rewrite length_app; lia).
Qed.

Lemma convert_sigs_chunks n i pre l post :
  length pre = (headerLen + i * sigSize)%nat → length l = (n * sigSize)%nat →
  convert_sigs n i (pre ++ l ++ post) = GVal (pre ++ concat (compact_sig <$> chunks n l) ++ post).
Proof.
  revert i pre l. induction n as [|n IH]; intros i pre l Hp Hl.
  { by destruct l. }
  assert (length (take sigSize l) = sigSize) as Ht by (rewrite length_take; sizes).
  cbn [convert_sigs chunks fmap list_fmap concat]. rewrite <- (take_drop sigSize l) at 1.
  rewrite <- app_assoc, convert_sig_at by done. cbn [mbind gres_bind].
  rewrite (app_assoc pre), IH.
  - by rewrite <- !app_assoc.
  - rewrite length_app, length_compact_sig; sizes.
  - rewrite length_drop. sizes.
Qed.

Lemma chunks_app n l post : length l = (n * sigSize)%nat → chunks n (l ++ post) = chunks n l.
Proof.
  revert l. induction n as [|n IH]; intros l Hl; [done|]. cbn [chunks].
  rewrite take_app_le, drop_app_le, IH by (rewrite ?length_drop; sizes). done.
Qed.

Lemma chunks_concat {A} (f : A → bytes) l post :
  (∀ x, x ∈ l → length (f x) = sigSize) → chunks (length l) (concat (f <$> l) ++ post) = f <$> l.
Proof.
  induction l as [|x l IH]; intros Hf; [done|].
  assert (length (f x) = sigSize) as Hx by (apply Hf; by left).
  cbn [length chunks fmap list_fmap concat]. rewrite <- app_assoc.
  rewrite take_app_length', drop_app_length' by done. f_equal. apply IH. intros. apply Hf. by right.
Qed.

Lemma length_concat_const {A} (f : A → bytes) n l :
  (∀ x, x ∈ l → length (f x) = n) → length (concat (f <$> l)) = (n * length l)%nat.
Proof.
  induction l as [|x l IH]; intros Hf; cbn; [lia|].
  rewrite length_app, Hf, IH by (set_solver). lia.
Qed.

Lemma length_v27_sig g : canonical g → length (aggregator_sig g) = sigSize.
Proof. intros [Hr _]. unfold aggregator_sig. by rewrite length_app, Hr, length_be_bytes. Qed.

Lemma compact_v27 g : canonical g → compact_sig (aggregator_sig g) = eip2098_sig g.
Proof.
  intros [Hr Hs]. unfold compact_sig, aggregator_sig, eip2098_sig.
  rewrite take_app_length', drop_app_length' by done. f_equal. unfold compact_word, v27.
  pose proof halfN_twice. pose proof secp256k1N_range. change (2 ^ 256) with (2 * 2 ^ 255) in *.
  rewrite SetBytes_be_bytes. change (256 ^ Z.of_nat 32) with (2 * 2 ^ 255).
  destruct (sigV g); cbv iota; rewrite Z.mod_small by lia.
  - replace (secp256k1HalfN <? secp256k1N - sigS g) with true by (symmetry; apply Z.ltb_lt; lia).
    do 2 f_equal. lia.
  - replace (secp256k1HalfN <? sigS g) with false by (symmetry; apply Z.ltb_ge; lia).
    by rewrite Z.add_0_r.
Qed.

Lemma eip2098_read_sig g : canonical g → eip2098_read (eip2098_sig g) = g.
Proof.
  intros [Hr Hs]. pose proof halfN_range. destruct g as [r s v]. unfold eip2098_read, eip2098_sig.
  cbn [sigR sigS sigV] in *. rewrite take_app_length', drop_app_length', SetBytes_be_bytes by done.
  change (256 ^ Z.of_nat 32) with (2 * 2 ^ 255).
  rewrite (Z.mod_small _ (2 * _)) by (destruct v; lia). f_equal.
  - destruct v; [|rewrite Z.add_0_r; apply Z.mod_small; lia].
    replace (s + 2 ^ 255) with (s + 1 * 2 ^ 255) by lia. rewrite Z.mod_add by done. apply Z.mod_small. lia.
  - destruct v; [apply Z.leb_le|apply Z.leb_gt]; lia.
Qed.

Lemma payload_len_blob f version sigs trailer :
  length version = 4%nat → 64 * Z.of_nat (length sigs) < 2 ^ 16 →
  (∀ g, g ∈ sigs → length (f g) = sigSize) →
  payload_len (blob_of f version sigs trailer) = Some (length sigs * sigSize)%nat.
Proof.
  intros Hv Hn Hf. unfold payload_len, blob_of.
  assert (∀ rest, slice 4 2 (version ++ be_bytes 2 (64 * Z.of_nat (length sigs)) ++ rest)
    = be_bytes 2 (64 * Z.of_nat (length sigs))) as ->.
  { intros rest. unfold slice. by rewrite drop_app_length', take_app_length' by done. }
  rewrite SetBytes_be_bytes. change (256 ^ Z.of_nat 2) with (2 ^ 16).
  rewrite Z.mod_small by lia.
  replace (Z.to_nat (64 * Z.of_nat (length sigs))) with (length sigs * sigSize)%nat by sizes.
  rewrite bool_decide_eq_true_2; [done|]. rewrite !length_app, length_be_bytes, Hv.
  rewrite (length_concat_const f sigSize) by done. sizes.
Qed.
End lemmas.

(** ** Theorems *)

Section theorems.
Context {SP : Secp256k1} {SL : Secp256k1Laws}.

Lemma convert_equals_reference blob :
  convertVerifierBlobToEIP2098 blob = convert_reference blob.
Proof.
  unfold convertVerifierBlobToEIP2098, convert_reference, payload_len, BigEndian_Uint16.
  set (p := Z.to_nat (SetBytes (slice 4 2 blob))). clearbody p.
  destruct (Nat.ltb_spec (length blob) headerLen) as [|Hh].
  { by rewrite bool_decide_eq_false_2 by lia. }
  destruct (Nat.eqb_spec p 0) as [->|Hp]; cbn [orb].
  { rewrite bool_decide_eq_true_2 by lia. rewrite decide_True by done. cbn [Nat.div sigSize fmap].
    rewrite Nat.add_0_r. cbn. by rewrite take_drop. }
  destruct (Nat.ltb_spec (length blob) (headerLen + p)) as [|Hl].
  { by rewrite bool_decide_eq_false_2 by lia. }
  rewrite bool_decide_eq_true_2 by lia.
  destruct (Nat.eqb_spec (p mod sigSize) 0) as [Hm|Hm]; [|by rewrite decide_False].
  rewrite decide_True by done. cbn [negb].
  assert (p = p / sigSize * sigSize)%nat as Hq.
  { rewrite (Nat.div_mod_eq p sigSize) at 1. rewrite Hm. sizes. }
  rewrite <- (take_drop headerLen blob) at 1. rewrite <- (take_drop p (drop headerLen blob)) at 1.
  rewrite convert_sigs_chunks.
  - rewrite drop_drop. do 4 f_equal. rewrite <- (take_drop p (drop headerLen blob)) at 2.
    symmetry. rewrite chunks_app; [done|]. rewrite length_take, length_drop. sizes.
  - rewrite length_take. sizes.
  - rewrite length_take, length_drop. sizes.
Qed.


Lemma length_compact_sigs n l : (n * sigSize <= length l)%nat →
  length (concat (compact_sig <$> chunks n l)) = (n * sigSize)%nat.
Proof.
  revert l. induction n as [|n IH]; intros l Hl; [done|]. cbn [chunks fmap list_fmap concat].
  rewrite length_app, length_compact_sig by (rewrite length_take; sizes).
  change (list_fmap _ _ compact_sig (chunks n (drop sigSize l))) with (compact_sig <$> chunks n (drop sigSize l)).
  rewrite IH by (rewrite length_drop; sizes). sizes.
Qed.

(** C11. On every blob, well formed or not, the in-place loop with its padding, masking and
    bounds computes the arithmetic conversion of each 64-byte signature of the declared
    payload, leaves the header and what follows the payload as they were, refuses a
    payload that is not a whole number of signatures, and never panics. A converted blob has
    the length of the original. *)
Theorem eip2098_equals_reference blob :
  convertVerifierBlobToEIP2098 blob = convert_reference blob ∧
  ∀ blob', convertVerifierBlobToEIP2098 blob = GVal blob' → length blob' = length blob.
Proof.
  split; [apply convert_equals_reference|]. intros blob'. rewrite convert_equals_reference.
  unfold convert_reference, payload_len. set (p := Z.to_nat _). clearbody p.
  destruct (decide (headerLen + p <= length blob)%nat) as [Hl|Hl].
  2:{ rewrite bool_decide_eq_false_2 by done. by intros [= <-]. }
  rewrite bool_decide_eq_true_2 by done. case_decide as Hm; [|done].
  assert (p = p / sigSize * sigSize)%nat as Hq.
  { rewrite (Nat.div_mod_eq p sigSize) at 1. rewrite Hm. sizes. }
  set (q := (p / sigSize)%nat) in *. clearbody q. intros [= <-].
  rewrite !length_app, length_take, length_compact_sigs, length_drop; [|rewrite length_drop]; sizes.
Qed.

(** The aggregator's blobs, in which the recovery id is 27 and [S] negated for it,
    become EIP-2098 blobs: same version, length, [R] words and trailer, and reading each
    converted signature gives back [R], the low [S] and the recovery id it was made with. *)
Theorem aggregator_to_eip2098 version sigs trailer :
  length version = 4%nat → 64 * Z.of_nat (length sigs) < 2 ^ 16 →
  (∀ g, g ∈ sigs → canonical g) →
  convertVerifierBlobToEIP2098 (blob_of aggregator_sig version sigs trailer) =
    GVal (blob_of eip2098_sig version sigs trailer) ∧
  (∀ g, g ∈ sigs → eip2098_read (eip2098_sig g) = g).
Proof.
  intros Hv Hn Hc. split; [|intros; by apply eip2098_read_sig, Hc].
  rewrite convert_equals_reference. unfold convert_reference.
  assert (∀ g, g ∈ sigs → length (aggregator_sig g) = sigSize) as Hf by (intros; by apply length_v27_sig, Hc).
  rewrite payload_len_blob by done. rewrite decide_True by apply Nat.Div0.mod_mul.
  rewrite Nat.div_mul by done. unfold blob_of. f_equal.
  set (hd := version ++ be_bytes 2 (64 * Z.of_nat (length sigs))).
  assert (length hd = headerLen) as Hh by (unfold hd; by rewrite length_app, Hv).
  rewrite !(app_assoc version). fold hd.
  rewrite take_app_length', drop_app_length' by done. rewrite chunks_concat by done.
  rewrite <- (drop_drop _ _ headerLen), drop_app_length' by done.
  rewrite drop_app_length' by (rewrite (length_concat_const _ sigSize) by done; lia).
  rewrite <- list_fmap_compose. rewrite (list_fmap_ext _ eip2098_sig sigs); [by rewrite app_assoc|].
  intros i g Hi. apply compact_v27, Hc. by eapply list_elem_of_lookup_2.
Qed.
End theorems.
(** ** Witnesses *)

Import DemoCcv.

Lemma eip2098_equals_reference_witness :
  let blob := [x00; x00; x00; x01; x00; x40] ++ replicate 64 xff ++ [x07] in
  convertVerifierBlobToEIP2098 blob = convert_reference blob ∧
  ∀ blob', convertVerifierBlobToEIP2098 blob = GVal blob' → length blob' = length blob.
Proof. exact (eip2098_equals_reference _). Defined.

Definition demo_sigs : list Sig :=
  [mkSig DemoXdr.key1 5 true; mkSig DemoXdr.key2 (2 ^ 200 + 1) false].
Lemma aggregator_to_eip2098_witness :
  convertVerifierBlobToEIP2098 (blob_of aggregator_sig [x00; x00; x00; x01] demo_sigs [x07]) =
    GVal (blob_of eip2098_sig [x00; x00; x00; x01] demo_sigs [x07]) ∧
  (∀ g, g ∈ demo_sigs → eip2098_read (eip2098_sig g) = g).
Proof.
  apply aggregator_to_eip2098; [done|done|]. apply Forall_forall. repeat constructor; by vm_compute.
Defined.
End TransmitterProps.
