(* ===== verification/SourceReaderProps.v ===== *)
(** Properties of the source reader: events are decoded to what the contract emitted, and
    headers are those of the requested ledgers. *)

From Stdlib Require Import Ascii.
From Stdlib Require Import Strings.Byte.
From Stdlib Require Strings.String.
From stdpp Require Import base gmap list strings pretty.
From S2P Require Import Prelude GoStrings Prog Xdr ScVal GoBytes ScValProps.
From S2P Require Import TypeConverters StellarService Ccv Bindings BindingsProps SourceReader DemoCcv.
Import Xdr SourceReader BindingsProps ScValProps.

Local Open Scope Z_scope.

Module SourceReaderProps.

(** ** Values off the wire are decoded without panic *)

Section total.
Context {UT : UnicodeTables} {XS : XdrSdk}.

Lemma parse_receipt_field_total k v r : valid v = true →
  ∃ r', parse_receipt_field k v r = GVal r'.
Proof.
  intros Hv. destruct r. unfold parse_receipt_field.
  destruct (valid_address_raw v Hv) as [_ Hr]. field_total.
Qed.

Lemma parseReceipt_no_panic v : valid v = true → panics (parseReceipt v) = false.
Proof. apply struct_no_panic, parse_receipt_field_total. Qed.

Lemma parseReceipts_no_panic v : valid v = true → panics (parseReceipts v) = false.
Proof.
  apply vec_no_panic. intros i x Hx. apply parseReceipt_no_panic in Hx. by destruct (parseReceipt x).
Qed.

Lemma message_sent_field_total k v s : valid v = true →
  ∃ s', message_sent_field k v s = GVal s'.
Proof.
  intros Hv. destruct s. unfold message_sent_field.
  destruct (valid_address_raw v Hv) as [Ha _].
  pose proof (parseReceipts_no_panic v Hv). destruct (valid_vec_readers v Hv) as [Hb _].
  field_total.
Qed.
End total.

(** ** What the contract emits *)

(** A receipt as a Soroban map, its entries in any order. *)
Definition receipt_value (v : ScVal) (r : ReceiptWithBlob) : Prop :=
  ∃ l kind p,
    v = ScvMap (Some (Some l)) ∧ NoDup l.*1 ∧
    (ScvSymbol (Some "issuer"), ScvAddress (Some (address_of kind (Issuer r)))) ∈ l ∧
    length (Issuer r) = 32%nat ∧
    (ScvSymbol (Some "dest_gas_limit"), ScvU32 (Some (DestGasLimit r))) ∈ l ∧
    (ScvSymbol (Some "dest_bytes_overhead"), ScvU32 (Some (DestBytesOverhead r))) ∈ l ∧
    (ScvSymbol (Some "fee_token_amount"), ScvI128 (Some p)) ∈ l ∧
    FeeTokenAmount r = Some (i128_value p) ∧
    (ScvSymbol (Some "extra_args"), ScvBytes (Some (ExtraArgs r))) ∈ l ∧
    Blob r = [].
Definition with_blob (b : bytes) (r : ReceiptWithBlob) : ReceiptWithBlob :=
  mkReceipt (Issuer r) (DestGasLimit r) (DestBytesOverhead r) b (ExtraArgs r) (FeeTokenAmount r).

Lemma big_of_i128_value p : big_of_i128 p = i128_value p.
Proof. unfold big_of_i128, i128_value. by rewrite Z.shiftl_mul_pow2. Qed.

Section decode.
Context {UT : UnicodeTables} {XS : XdrSdk}.

(** A step that reads or keeps one component. *)
Ltac field_hit :=
  let s := fresh in let s' := fresh in let H := fresh in
  intros ? s s' H; destruct s; unfold parse_receipt_field, message_sent_field in H; repeat case_decide; simplify_eq;
  repeat (apply gbind_GVal in H as (? & ? & H)); simplify_eq/=;
  repeat match goal with H : gtry ?g = _ |- _ => destruct g; simplify_eq/= end; try done.
Ltac field_miss :=
  let s := fresh in let s' := fresh in let H := fresh in
  intros ? ? s s' ? H; destruct s; unfold parse_receipt_field, message_sent_field in H; repeat case_decide; simplify_eq;
  repeat (apply gbind_GVal in H as (? & ? & H)); simplify_eq/=; done.

Ltac field_of proj Hl :=
  refine (for_entries_field _ proj _ _ _ _ _ _ _ Hl); [field_hit|field_miss].

Definition get_bytes (v : ScVal) : option bytes := match v with ScvBytes p => p | _ => None end.
Definition get_u32 (v : ScVal) : option Z := match v with ScvU32 p => p | _ => None end.
Definition get_i128 (v : ScVal) : option Int128Parts := match v with ScvI128 p => p | _ => None end.

Lemma GetBytes_get v x : GetBytes v = GVal x → x = get_bytes v.
Proof. destruct v; cbn; try by intros [= <-]. destruct Bytes; [by intros [= <-]|done]. Qed.
Lemma GetU32_get v x : GetU32 v = GVal x → x = get_u32 v.
Proof. destruct v; cbn; try by intros [= <-]. destruct U32; [by intros [= <-]|done]. Qed.
Lemma GetI128_get v x : GetI128 v = GVal x → x = get_i128 v.
Proof. destruct v; cbn; try by intros [= <-]. destruct I128; [by intros [= <-]|done]. Qed.

Lemma receipt_fields l r : for_entries parse_receipt_field l zeroReceipt = GVal r →
  Issuer r = last_field "issuer" (λ v, gopt (ScVal.RawBytesFromAddressScVal v)) [] l ∧
  DestGasLimit r = last_field "dest_gas_limit" get_u32 0 l ∧
  DestBytesOverhead r = last_field "dest_bytes_overhead" get_u32 0 l ∧
  ExtraArgs r = last_field "extra_args" get_bytes [] l ∧
  FeeTokenAmount r =
    last_field "fee_token_amount" (λ v, Some ∘ big_of_i128 <$> get_i128 v) None l ∧
  Blob r = [].
Proof.
  intros Hl. split_and!.
  - field_of Issuer Hl.
  - field_of DestGasLimit Hl.
    by erewrite <- GetU32_get.
  - field_of DestBytesOverhead Hl.
    by erewrite <- GetU32_get.
  - field_of ExtraArgs Hl.
    by erewrite <- GetBytes_get.
  - field_of FeeTokenAmount Hl.
    erewrite <- GetI128_get by done. by case_match.
  - rewrite <- (last_field_unread "" [] l). field_of Blob Hl.
Qed.

Definition get_id (v : ScVal) : option bytes :=
  b ← get_bytes v; if (length b =? 32)%nat then Some b else None.

Lemma message_fields l s : for_entries message_sent_field l zeroVars = GVal s →
  messageID s = last_field "message_id" get_id (replicate 32 x00) l ∧
  encodedMessage s = last_field "encoded_message" get_bytes [] l ∧
  receipts s = last_field "receipts" (λ v, gopt (parseReceipts v)) [] l ∧
  verifierBlobs s = last_field "verifier_blobs" (λ v, gopt (ScVal.BytesVecFromScVal v)) [] l.
Proof.
  intros Hl. split_and!.
  - field_of messageID Hl. unfold get_id. erewrite <- GetBytes_get by done.
    destruct x as [b|]; [|done]. cbn [mbind option_bind]. case_match eqn:E; [|done]. apply Nat.eqb_eq in E.
    by rewrite copy_into_id.
  - field_of encodedMessage Hl. by erewrite <- GetBytes_get.
  - field_of receipts Hl.
  - field_of verifierBlobs Hl.
Qed.

Lemma parseReceipt_value v r : valid v = true → receipt_value v r → parseReceipt v = GVal r.
Proof.
  intros Hv (l & kind & p & -> & Hnd & Hi & Hlen & Hg & Ho & Hf & Hfee & Hx & Hb).
  unfold parseReceipt. cbn [got_map GetMap arm deref fmap gres_fmap mbind gres_bind].
  destruct (for_entries_valid parse_receipt_field l parse_receipt_field_total Hv zeroReceipt) as [r' E].
  rewrite E. f_equal. destruct (receipt_fields _ _ E) as (E1 & E2 & E3 & E4 & E5 & E6).
  rewrite (last_field_unique _ _ _ _ _ (Issuer r) Hnd Hi) in E1 by (by rewrite RawBytes_of).
  rewrite (last_field_unique _ _ _ _ _ (DestGasLimit r) Hnd Hg) in E2 by done.
  rewrite (last_field_unique _ _ _ _ _ (DestBytesOverhead r) Hnd Ho) in E3 by done.
  rewrite (last_field_unique _ _ _ _ _ (ExtraArgs r) Hnd Hx) in E4 by done.
  rewrite (last_field_unique _ _ _ _ _ (FeeTokenAmount r) Hnd Hf) in E5
    by (by rewrite Hfee, <- big_of_i128_value).
  destruct r, r'. cbn in *. by subst.
Qed.

Lemma parseReceipts_value rs rs' :
  forallb valid rs = true → Forall2 receipt_value rs rs' →
  parseReceipts (ScvVec (Some (Some rs))) = GVal rs'.
Proof.
  intros Hv Hr. unfold parseReceipts. cbn [got_vec GetVec arm deref fmap gres_fmap mbind gres_bind].
  unfold gimapM. generalize 0%nat as i. revert Hv. induction Hr as [|v r rs rs' Hr Hrs IH]; intros Hv i; [done|].
  cbn in Hv. apply andb_true_iff in Hv as [Hv Hvs]. cbn [gimapM_from].
  rewrite (parseReceipt_value v r) by done. cbn. by rewrite IH.
Qed.

Lemma blobs_value (blobs : list bytes) :
  ScVal.BytesVecFromScVal (ScvVec (Some (Some (ScvBytes ∘ Some <$> blobs)))) = GVal blobs.
Proof.
  unfold ScVal.BytesVecFromScVal. cbn [GetVec arm deref fmap gres_fmap mbind gres_bind].
  unfold gimapM. generalize 0%nat as i. induction blobs as [|b blobs IH]; intros i; [done|].
  cbn. by rewrite IH.
Qed.

Lemma pair_blobs_spec rs blobs : Forall (λ r, Blob r = []) rs →
  pair_blobs rs blobs = imap (λ i r, with_blob (default [] (blobs !! i)) r) rs.
Proof.
  intros Hb. unfold pair_blobs. apply imap_ext. intros i r Hr.
  assert (Blob r = []) as E by (eapply Forall_lookup_1 in Hb; [exact Hb|done]).
  destruct (blobs !! i); [done|]. destruct r. cbn in *. by subst.
Qed.
End decode.

Section theorems.
Context {UT : UnicodeTables} {XS : XdrSdk} {XL : XdrLaws} {RS : RpcSdk} {CP : CcvProtocol} {CL : CcvLaws}.

(** C13. A message emitted by the OnRamp is read back exactly: whatever the order of the
    event's entries and of each receipt's, and whatever other entries there are, the decoded
    event has the emitted id, the message that was encoded, and the receipts in order, each
    with its verifier's blob. *)
Theorem message_sent_roundtrip e l id msg enc rs rs' blobs :
  UnmarshalScVal (TypeConverters.peValueXDR e) = Ok (ScvMap (Some (Some l))) → NoDup l.*1 →
  (ScvSymbol (Some "message_id"), ScvBytes (Some id)) ∈ l → length id = 32%nat →
  (ScvSymbol (Some "encoded_message"), ScvBytes (Some enc)) ∈ l → EncodeMessage msg = Ok enc →
  (ScvSymbol (Some "receipts"), ScvVec (Some (Some rs))) ∈ l → Forall2 receipt_value rs rs' →
  (ScvSymbol (Some "verifier_blobs"), ScvVec (Some (Some (ScvBytes ∘ Some <$> blobs)))) ∈ l →
  decodeCCIPMessageSentEvent e =
    GVal (mkMessageSent id msg (imap (λ i r, with_blob (default [] (blobs !! i)) r) rs')
            (uint64 (TypeConverters.peLedger e))
            (String.list_byte_of_string (TypeConverters.peTransactionHash e))).
Proof.
  intros Hu Hnd Hid Hlen Henc Hmsg Hrs Hrs' Hbl.
  pose proof (Unmarshal_valid _ _ Hu) as Hv. unfold decodeCCIPMessageSentEvent. rewrite Hu.
  cbn [of_result gwrap got_map GetMap arm deref fmap gres_fmap mbind gres_bind].
  destruct (for_entries_valid message_sent_field l message_sent_field_total Hv zeroVars) as [s E].
  rewrite E. cbn [mbind gres_bind]. destruct (message_fields _ _ E) as (E1 & E2 & E3 & E4).
  rewrite (last_field_unique _ _ _ _ _ id Hnd Hid) in E1 by (unfold get_id; cbn; by rewrite Hlen).
  rewrite (last_field_unique _ _ _ _ _ enc Hnd Henc) in E2 by done.
  rewrite (last_field_unique _ _ _ _ _ rs' Hnd Hrs) in E3.
  2: { rewrite (parseReceipts_value rs rs'); [done| |done]. change (valid (ScvVec (Some (Some rs))) = true).
       change (forallb (λ kv : ScVal * ScVal, valid (fst kv) && valid (snd kv)) l = true) in Hv.
       rewrite forallb_forall in Hv. apply list_elem_of_In, Hv in Hrs. by apply andb_true_iff in Hrs as [_ ?]. }
  rewrite (last_field_unique _ _ _ _ _ blobs Hnd Hbl) in E4 by (by rewrite blobs_value).
  rewrite E1, E2, E3, E4, (Decode_EncodeMessage _ _ Hmsg), pair_blobs_spec; [done|].
  clear -Hrs'. induction Hrs' as [|v r rs rs' Hr]; constructor; [|done]. by destruct Hr as (?&?&?&?&?&?&?&?&?&?&?&?&?).
Qed.

Lemma decode_no_panic e : panics (decodeCCIPMessageSentEvent e) = false.
Proof.
  unfold decodeCCIPMessageSentEvent.
  destruct (UnmarshalScVal (TypeConverters.peValueXDR e)) as [v|] eqn:Hu; [|done].
  pose proof (struct_no_panic _ "event value is not a map" zeroVars v message_sent_field_total (Unmarshal_valid _ _ Hu)) as Hn.
  cbn [of_result gwrap mbind gres_bind].
  destruct (got_map _ v) as [l| |]; [|done..]. cbn [mbind gres_bind] in Hn |- *.
  destruct (for_entries _ l zeroVars) as [s| |]; [|done..]. cbn [mbind gres_bind].
  by destruct (DecodeMessage (encodedMessage s)).
Qed.
End theorems.

(** ** Requests *)

Section requests.
Context {UT : UnicodeTables} {XS : XdrSdk} {XL : XdrLaws} {RS : RpcSdk} {CP : CcvProtocol} {CX : CcvXdr}.

Lemma ledger_of_exact n : 0 <= n <= max_uint32 → ledger_of (Some n) = GVal n.
Proof.
  intros Hn. unfold ledger_of, big_Uint64, max_uint32 in *. cbn [deref mbind gres_bind].
  rewrite Z.abs_eq by lia. rewrite uint64_id by (apply is_uint64_spec; lia).
  replace (4294967295 <? n) with false by (symmetry; apply Z.ltb_ge; lia).
  by rewrite uint32_id by (apply is_uint32_spec; lia).
Qed.
Lemma ledger_of_refused n : max_uint32 < n <= max_uint64 →
  ∃ e, ledger_of (Some n) = GErr e.
Proof.
  intros Hn. unfold ledger_of, big_Uint64, max_uint32, max_uint64 in *. cbn [deref mbind gres_bind].
  rewrite Z.abs_eq by lia. rewrite uint64_id by (apply is_uint64_spec; lia).
  replace (4294967295 <? n) with true by (symmetry; apply Z.ltb_lt; lia). eauto.
Qed.
Lemma ledger_of_wraps n k : 0 <= n → 0 <= k →
  ledger_of (Some (n + k * 2 ^ 64)) = ledger_of (Some n).
Proof.
  intros Hn Hk. unfold ledger_of, big_Uint64. cbn [deref mbind gres_bind].
  rewrite !Z.abs_eq by nia. unfold uint64, uwrap. by rewrite Z.mod_add.
Qed.

Lemma decode_events_omap events :
  decode_events events = GVal (omap (λ e, gopt (decodeCCIPMessageSentEvent e)) events).
Proof.
  induction events as [|e es IH]; [done|]. cbn [decode_events omap list_omap].
  pose proof (decode_no_panic e). destruct (decodeCCIPMessageSentEvent e); [| |done];
    cbn [gtry gopt mbind gres_bind]; rewrite IH; done.
Qed.

(** A fetch makes one request, for the ledgers asked for (never below 7) and the OnRamp's
    topic, and returns, in order, the messages of the events that decode; the others are
    skipped and nothing panics. A block number between 2^32 and 2^64 is refused before any
    request, but a larger one is taken modulo 2^64. *)
Theorem fetch_exact env n s from to :
  0 <= from → 0 <= to <= max_uint32 →
  (from <= max_uint32 →
   let req := event_request (ccipOnrampAddress s) (ccipMessageSentTopic s) (Z.max from 7) to in
   hrun env (FetchMessageSentEvents s (Some from) (Some to)) n tt =
     (Done (match env _ n (CGetEvents req) with
            | Ok resp => GVal (omap (λ e, gopt (decodeCCIPMessageSentEvent e)) (TypeConverters.psEvents resp))
            | Err e => GErr ("failed to get events: " +:+ e)
            end), [answered (CGetEvents req) (env _ n (CGetEvents req))], tt)) ∧
  (max_uint32 < from <= max_uint64 →
   ∃ e, hrun env (FetchMessageSentEvents s (Some from) (Some to)) n tt = (Done (GErr e), [], tt)) ∧
  (∀ k, 0 <= k →
   hrun env (FetchMessageSentEvents s (Some (from + k * 2 ^ 64)) (Some to)) n tt =
   hrun env (FetchMessageSentEvents s (Some from) (Some to)) n tt).
Proof.
  intros Hf Ht. split_and!.
  - intros Hm req. unfold FetchMessageSentEvents. rewrite !ledger_of_exact by lia.
    cbn. fold req. destruct (env _ n (CGetEvents req)) as [resp|e]; cbn; [|done].
    by rewrite decode_events_omap.
  - intros Hm. destruct (ledger_of_refused from Hm) as [e He]. exists e.
    unfold FetchMessageSentEvents. by rewrite He.
  - intros k Hk. unfold FetchMessageSentEvents. by rewrite ledger_of_wraps.
Qed.

End requests.

(** ** Headers *)

Section headers.
Context {UT : UnicodeTables} {XS : XdrSdk} {RS : RpcSdk} {CX : CcvXdr}.

Lemma string_length_Encode b : String.length (EncodeToString b) = (2 * length b)%nat.
Proof. induction b as [|x b IH]; [done|]. cbn. rewrite IH. lia. Qed.

(** A hash in hexadecimal is read back, with or without a prefix. *)
Lemma toBytes32_hex b : length b = 32%nat →
  toBytes32 (EncodeToString b) = Ok b ∧ toBytes32 ("0x" +:+ EncodeToString b) = Ok b ∧
  toBytes32 ("0X" +:+ EncodeToString b) = Ok b.
Proof.
  intros Hb.
  assert (∀ s, TrimPrefix (if HasPrefix s "0x" then s else "0x" +:+ TrimPrefix s "0X") "0x" = EncodeToString b →
    toBytes32 s = Ok b) as Hs.
  { intros s Ht. unfold toBytes32. rewrite Ht, string_length_Encode, Hb. cbn [Nat.odd Nat.even negb Nat.mul Nat.add].
    rewrite string_length_Encode, Hb, DecodeString_Encode. cbn -[copy_into]. by rewrite copy_into_id. }
  assert (HasPrefix (EncodeToString b) "0X" = false) as HX.
  { destruct b as [|x b']; [done|]. cbn [EncodeToString HasPrefix].
    assert (Ascii.eqb "X" (lower_hex_digit (Byte.to_N x mod 16)) = false) as -> by (by destruct x).
    by rewrite andb_false_r. }
  split_and!; apply Hs.
  - by rewrite EncodeToString_no_0x, TrimPrefix_app, TrimPrefix_none.
  - replace (HasPrefix ("0x" +:+ EncodeToString b) "0x") with true
      by (symmetry; apply HasPrefix_spec; by eexists). apply TrimPrefix_app.
  - change (HasPrefix ("0X" +:+ EncodeToString b) "0x") with false. by rewrite !TrimPrefix_app.
Qed.

Lemma toBytes32_length s b : toBytes32 s = Ok b → length b = 32%nat.
Proof.
  unfold toBytes32. case_match; [done|]. intros (d & Hd & [= <-])%bind_Ok.
  unfold copy_into. rewrite length_app, length_take, length_replicate. lia.
Qed.

(** What a header of ledger [seq] was built from: the node's answer to the request for that
    one ledger. *)
Definition header_from (h : hist) (seq : Z) (b : BlockHeader) : Prop :=
  ∃ resp ledger rest,
    answered (CGetLedgers (StellarService.mkProtocolLedgers seq (Some ("", 1)) "")) (Ok resp) ∈ h ∧
    StellarService.glLedgers resp = ledger :: rest ∧
    StellarService.liSequence ledger = seq ∧ Number b = seq ∧
    toBytes32 (StellarService.liHash ledger) = Ok (HeaderHash b) ∧
    UnmarshalLedgerCloseMeta (StellarService.liLedgerMetadataXDR ledger) = Ok (ParentHash b) ∧
    Timestamp b = StellarService.liLedgerCloseTime ledger.

Lemma header_from_app h h' seq b : header_from h seq b → header_from (h ++ h') seq b.
Proof.
  intros (resp & ledger & rest & Hin & Hr). exists resp, ledger, rest. split; [|done].
  apply elem_of_app. by left.
Qed.

Lemma block_header_of_Ok seq resp b : is_uint32 seq = true → block_header_of seq resp = Ok b →
  header_from [answered (CGetLedgers (StellarService.mkProtocolLedgers seq (Some ("", 1)) "")) (Ok resp)] seq b.
Proof.
  intros Hs. unfold block_header_of. destruct (StellarService.glLedgers resp) as [|ledger rest] eqn:El; [done|].
  rewrite uint32_id by done. destruct (Z.eqb_spec (StellarService.liSequence ledger) seq) as [E|]; [|done].
  cbn [negb]. rewrite wrap_err_Ok. unfold buildBlockHeaderFromMeta.
  intros (prev & Hp & (hash & Hh & [= <-])%bind_Ok)%bind_Ok.
  apply wrap_err_Ok in Hp, Hh. exists resp, ledger, rest. split; [by left|]. cbn.
  split_and!; try done. rewrite E. apply uint64_id, is_uint64_spec. apply is_uint32_spec in Hs. lia.
Qed.

Lemma ledger_of_GVal n seq : ledger_of n = GVal seq → ∃ z, n = Some z ∧ seq = big_Uint64 z ∧ is_uint32 seq = true.
Proof.
  unfold ledger_of. destruct n as [z|]; [|done]. cbn [deref mbind gres_bind].
  destruct (Z.ltb_spec max_uint32 (big_Uint64 z)) as [|Hm]; [done|]. intros [= <-].
  assert (is_uint32 (big_Uint64 z) = true) as Hi.
  { apply is_uint32_spec. unfold max_uint32 in Hm. unfold big_Uint64 in *.
    pose proof (uint64_range (Z.abs z)) as Hr. apply is_uint64_spec in Hr. lia. }
  exists z. by rewrite uint32_id.
Qed.

Lemma headers_loop_traced ns hs w h :
  (∀ seq b, hs !! seq = Some b → header_from h seq b) →
  traced (headers_loop ns hs) w h (λ r _ h',
    match r with
    | GVal hs' =>
        (∀ seq, is_Some (hs' !! seq) ↔ is_Some (hs !! seq) ∨ ∃ z, Some z ∈ ns ∧ seq = big_Uint64 z) ∧
        (∀ n, n ∈ ns → is_Some n) ∧
        (∀ seq b, hs' !! seq = Some b → header_from h' seq b)
    | _ => True
    end).
Proof.
  revert hs h. induction ns as [|n ns IH]; intros hs h Hh; cbn [headers_loop].
  { cbn. split_and!; [|set_solver|done]. intros seq. split; [by left|]. intros [?|(z & Hz & _)]; [done|set_solver]. }
  unfold gthen. cbn [mbind prog_mbind prog_bind].
  destruct (ledger_of n) as [seq|e|m] eqn:En; [|done|done].
  apply ledger_of_GVal in En as (z & -> & -> & Hu). set (seq := big_Uint64 z) in *.
  cbn [prog_bind gctx gcall call traced mbind prog_mbind]. intros [resp|e]; cbn [of_result gwrap prog_bind traced]; [|done].
  destruct (block_header_of seq resp) as [b|e] eqn:Eb; cbn [of_result prog_bind traced]; [|done].
  rewrite uint32_id in * by done. apply block_header_of_Ok in Eb; [|done].
  eapply traced_mono; [|apply IH].
  - intros [hs'|e|m] _ h'; [|done|done]. intros (Hd & Hs & Hf). split_and!; [|set_solver|done].
    intros s. rewrite Hd. destruct (decide (s = seq)) as [->|Hne].
    + rewrite lookup_insert_eq. split; [|eauto]. intros _. right. exists z. set_solver.
    + rewrite lookup_insert_ne by done. split; [|set_solver].
      intros [?|(z' & Hz & ->)]; [by left|right]. exists z'. set_solver.
  - intros s b'. destruct (decide (s = seq)) as [->|Hne].
    + rewrite lookup_insert_eq. intros [= <-]. destruct Eb as (r & l & rest & Hin & Hr).
      exists r, l, rest. split; [|done]. apply elem_of_app. by right.
    + rewrite lookup_insert_ne by done. intros Hl. by apply header_from_app, Hh.
Qed.

Lemma headers_loop_returns ns hs w :
  returns (λ _ _ _, True) (headers_loop (Some <$> ns) hs) w (λ r _, panics r = false).
Proof.
  revert hs. induction ns as [|z ns IH]; intros hs; cbn [fmap list_fmap headers_loop]; [done|].
  unfold gthen. cbn [mbind prog_mbind prog_bind].
  destruct (ledger_of (Some z)) as [seq|e|m] eqn:E; [|done|].
  - cbn [gctx gcall call prog_bind returns mbind prog_mbind]. intros [resp|e] _; cbn [of_result gwrap prog_bind returns]; [|done].
    destruct (block_header_of seq resp); cbn [of_result prog_bind returns]; [apply IH|done].
  - unfold ledger_of in E. cbn in E. by case_match.
Qed.

(** GetBlocksHeaders returns for any block numbers and whatever the node answers. When it
    succeeds it has exactly the requested block numbers, and the header under a number is
    that ledger's: it comes from the node's answer to the request for that ledger alone, with
    its sequence, hash, parent hash and close time. The hash is 32 bytes, those that the node
    wrote in hexadecimal with or without a prefix. *)
Theorem headers_match_request env ns n :
  (∃ r h, hrun env (GetBlocksHeaders (Some <$> ns)) n tt = (Done r, h, tt) ∧
     ∀ hs, r = GVal hs →
       (∀ seq, is_Some (hs !! seq) ↔ seq ∈ big_Uint64 <$> ns) ∧
       (∀ seq b, hs !! seq = Some b → header_from h seq b ∧ length (HeaderHash b) = 32%nat)) ∧
  (∀ b, length b = 32%nat → toBytes32 (EncodeToString b) = Ok b ∧
     toBytes32 ("0x" +:+ EncodeToString b) = Ok b ∧ toBytes32 ("0X" +:+ EncodeToString b) = Ok b).
Proof.
  split; [|apply toBytes32_hex].
  pose proof (headers_loop_traced (Some <$> ns) ∅ tt [] ltac:(set_solver)) as Ht.
  destruct (returns_hrun (λ _ _ _, True) _ env n tt _ (λ _ _ _, I) (headers_loop_returns ns ∅ tt)) as (r & h & [] & Hr & _).
  apply (traced_hrun _ env n) in Ht. rewrite Hr in Ht. exists r, h. split; [done|].
  intros hs ->. cbn [app] in Ht. destruct Ht as (Hd & _ & Hf). split.
  - intros seq. rewrite Hd, lookup_empty, list_elem_of_fmap. split.
    + intros [[? ?]|(z & Hz & ->)]; [done|]. apply list_elem_of_fmap in Hz as (z' & [= ->] & Hz). eauto.
    + intros (z & -> & Hz). right. exists z. split; [|done]. apply list_elem_of_fmap. eauto.
  - intros seq b Hl. split; [by apply Hf|]. destruct (Hf _ _ Hl) as (?&?&?&?&?&?&?&Hh&_).
    by eapply toBytes32_length.
Qed.
End headers.

(** ** Witnesses *)

Import DemoCcv.

Definition demo_sent : TypeConverters.protocol_EventInfo :=
  TypeConverters.mkProtocolEvent "contract" 120 "now" "onramp" "id" 0 1 "hash" [] "sent".
Lemma NoDup_symbols (ks : list string) : bool_decide (NoDup ks) = true →
  NoDup ((λ k, ScvSymbol (Some k)) <$> ks).
Proof. intros Hk%bool_decide_eq_true. apply NoDup_fmap_2; [|done]. by intros ? ? [= ->]. Qed.
Lemma message_sent_roundtrip_witness :
  decodeCCIPMessageSentEvent demo_sent =
    GVal (mkMessageSent demo_id demo_message
            [mkReceipt DemoXdr.key1 200 64 [x09] [x07] (Some (- 2 ^ 64 + 5))] 120
            (String.list_byte_of_string "hash")).
Proof.
  refine (message_sent_roundtrip demo_sent demo_sent_entries demo_id demo_message demo_message [demo_receipt]
    [mkReceipt DemoXdr.key1 200 64 [] [x07] (Some (- 2 ^ 64 + 5))] [[x09]] eq_refl _ _ eq_refl _ eq_refl _ _ _).
  - by apply (NoDup_symbols ["encoded_message"; "message_id"; "receipts"; "verifier_blobs"]).
  - right. left.
  - left.
  - do 2 right. left.
  - constructor; [|constructor]. eexists _, VersionByteContract, (mkInt128Parts (-1) 5). split; [done|].
    split; [by apply (NoDup_symbols ["dest_bytes_overhead"; "dest_gas_limit"; "extra_args";
                                     "fee_token_amount"; "issuer"])|].
    split; [do 4 right; left|]. split; [done|]. split; [right; left|]. split; [left|].
    split; [do 3 right; left|]. split; [done|]. split; [do 2 right; left|done].
  - do 3 right. left.
Defined.

Definition demo_oracle : oracle (E := ccv_ext) := λ X n e,
  match e in ccv_ext X return X with
  | CNow => 0
  | CTick => false
  | CGetEvents _ => Ok (TypeConverters.mkProtocolResponse [demo_sent] "" 0 0 0 0)
  | CGetLatestLedger | CGetLedgers _ | CGetTransaction _ => Err "unused"
  | CInvoke _ _ _ | CSimulate _ _ _ => Err "unused"
  end.
Lemma fetch_exact_witness :
  ∃ r h, hrun demo_oracle (FetchMessageSentEvents (mkSourceReader "onramp" "topic" "rmn") (Some 3) (Some 200)) 0 tt =
    (Done (GVal [r]), h, tt).
Proof.
  eexists _, _. erewrite (proj1 (fetch_exact demo_oracle 0 (mkSourceReader "onramp" "topic" "rmn") 3 200
    ltac:(lia) ltac:(unfold max_uint32; lia)) ltac:(unfold max_uint32; lia)).
  cbn -[decodeCCIPMessageSentEvent]. reflexivity.
Defined.
End SourceReaderProps.
