(* ===== verification/PollerLive.v ===== *)
(** Properties of the execution-attempt poller. Module [PollerProps]: its windows cover every
    ledger once, what it caches happened on chain, and what happened on chain it caches when
    the node answers. Module [PollerLive]: it returns, whatever the node answers, and when the
    node answers with an event and its transaction, the attempt is visible to readers. *)

From Stdlib Require Import Strings.Byte.
From stdpp Require Import base gmap list strings pretty.
From S2P Require Import Prelude GoStrings Config Prog Sdk Xdr ScVal GoBytes ScValProps.
From S2P Require Import TypeConverters InvokerAdapter StellarService Ccv Bindings SourceReader Poller.
From S2P Require Import DemoCcv BindingsProps.
Import Config Xdr Poller.

Local Open Scope Z_scope.

Module PollerProps.

Section props.
Context {UT : UnicodeTables} {XS : XdrSdk} {SD : SdkTypes} {SK : Sdk} {RS : RpcSdk}
  {CP : CcvProtocol} {CX : CcvXdr} {LC : LruCache}.

(** ** The windows of a history: the ledger ranges the node answered for *)

Definition window (ev : event (E := ccv_ext)) : option (Z * Z) :=
  let '(existT X (e, x)) := ev in
  match e in ccv_ext X return X → option (Z * Z) with
  | CGetEvents req => λ r,
      match r with
      | Ok _ => Some (TypeConverters.prStartLedger req, TypeConverters.prEndLedger req)
      | Err _ => None
      end
  | _ => λ _, None
  end x.
Definition windows (h : hist) : list (Z * Z) := omap window h.

(** [tiles a ws b]: consecutive, non-empty windows from [a] to [b]. *)
Fixpoint tiles (a : Z) (ws : list (Z * Z)) (b : Z) : Prop :=
  match ws with
  | [] => a = b
  | (s, e) :: ws' => s = a ∧ s < e ∧ tiles e ws' b
  end.

(** How often a ledger is covered. *)
Definition covers (l : Z) (w : Z * Z) : bool := (fst w <=? l) && (l <? snd w).
Definition times_covered (l : Z) (ws : list (Z * Z)) : nat := length (List.filter (covers l) ws).

Lemma tiles_le a ws b : tiles a ws b → a <= b.
Proof.
  revert a. induction ws as [|[s e] ws IH]; intros a; cbn; [lia|]. intros (-> & Hlt & Ht).
  apply IH in Ht. lia.
Qed.

Lemma tiles_app a ws b ws' c : tiles a ws b → tiles b ws' c → tiles a (ws ++ ws') c.
Proof.
  revert a. induction ws as [|[s e] ws IH]; intros a; cbn; [by intros ->|].
  intros (-> & ? & ?) ?. eauto.
Qed.

Lemma tiles_covered a ws b l : tiles a ws b →
  times_covered l ws = if bool_decide (a <= l < b) then 1%nat else 0%nat.
Proof.
  unfold times_covered. revert a. induction ws as [|[s e] ws IH]; intros a; cbn.
  { intros ->. by rewrite bool_decide_eq_false_2 by lia. }
  intros (-> & Hlt & Ht). pose proof (tiles_le _ _ _ Ht). specialize (IH _ Ht).
  unfold covers at 1. cbn [fst snd].
  destruct (Z.leb_spec a l), (Z.ltb_spec l e); cbn [andb length]; rewrite IH;
    repeat (case_bool_decide); try lia; done.
Qed.

Lemma windows_snoc h ev : windows (h ++ [ev]) = windows h ++ option_list (window ev).
Proof. unfold windows. rewrite omap_app. cbn. by destruct (window ev). Qed.

(** ** One poll *)

(** What a part of the program does to windows and cursors. *)
Definition keeps (w : Poller) (h : hist) (w' : Poller) (h' : hist) : Prop :=
  windows h' = windows h ∧ lastPolledLedger w' = lastPolledLedger w ∧ startLedger w' = startLedger w.

Lemma keeps_trans w h w1 h1 w2 h2 : keeps w h w1 h1 → keeps w1 h1 w2 h2 → keeps w h w2 h2.
Proof. unfold keeps. intuition congruence. Qed.

Lemma process_one_keeps ev w h :
  traced (processExecutionStateChanged ev) w h (λ _ w' h', keeps w h w' h').
Proof.
  unfold processExecutionStateChanged, gthen, gctx, gcall, call, gets, modify. cbn.
  assert (∀ r : result TransactionReply, keeps w h w (h ++ [answered (CGetTransaction (OffRamp.escTxHash ev)) r])) as H1.
  { intros r. unfold keeps. by rewrite windows_snoc, app_nil_r. }
  intros [tx|e]; cbn; [|apply H1]. destruct (attempt_of ev tx); cbn; [|apply H1|done].
  intros t1 t2. unfold keeps. rewrite !windows_snoc. cbn. by rewrite !app_nil_r.
Qed.

Lemma process_events_keeps es w h :
  traced (process_events es) w h (λ _ w' h', keeps w h w' h').
Proof.
  revert w h. induction es as [|e es IH]; intros w h; cbn [process_events]; [done|].
  destruct (OffRamp.ParseExecutionStateChangedEvent e) as [ev|err|m]; [|apply IH|done].
  eapply traced_seq; [apply process_one_keeps|]. intros [[]|err|m] w' h' Hk; [| |done];
    (eapply traced_mono; [|apply IH]; intros ? w2 h2 Hk'; by eapply keeps_trans).
Qed.

(** A part of the program that polls extends the tiling. *)
Definition progress (w : Poller) (h : hist) (w' : Poller) (h' : hist) : Prop :=
  startLedger w' = startLedger w ∧
  ∃ ws, windows h' = windows h ++ ws ∧ tiles (lastPolledLedger w) ws (lastPolledLedger w').

Lemma progress_none w h w' h' : keeps w h w' h' → progress w h w' h'.
Proof. intros (Hw & Hl & Hs). split; [done|]. exists []. by rewrite Hw, app_nil_r. Qed.

(** A failed poll leaves everything as it was. *)
Lemma poll_progress cfg w h :
  traced (pollForEvents cfg) w h (λ r w' h',
    progress w h w' h' ∧ match r with GErr _ => windows h' = windows h | _ => True end).
Proof.
  unfold pollForEvents, gthen, gctx, gcall, call, gets. cbn. intros [latest|e];
    cbn [of_result gwrap prog_bind traced fst snd].
  2:{ split; [|by rewrite windows_snoc, app_nil_r].
      apply progress_none. unfold keeps. by rewrite windows_snoc, app_nil_r. }
  set (h1 := h ++ [answered CGetLatestLedger (Ok latest)]).
  assert (windows h1 = windows h) as H1 by (by unfold h1; rewrite windows_snoc, app_nil_r).
  destruct (Z.leb_spec (StellarService.llSequence latest) (lastPolledLedger w)) as [Hle|Hlt];
    cbn [of_result gwrap prog_bind traced fst snd].
  { split; [|done]. by apply progress_none. }
  intros [resp|e]; cbn [of_result gwrap prog_bind traced fst snd].
  2:{ split; [|by rewrite windows_snoc, app_nil_r].
      apply progress_none. unfold keeps. by rewrite windows_snoc, app_nil_r. }
  eapply (traced_seq (process_events _)); [apply process_events_keeps|].
  intros u w2 h2 (Hw & Hl & Hs). apply traced_modify. cbn [traced]. split; [|done].
  split; [exact Hs|]. eexists [(_, _)]. rewrite Hw, windows_snoc, H1. cbn. split_and!; try done.
Qed.

Lemma progress_trans w h w1 h1 w2 h2 :
  progress w h w1 h1 → progress w1 h1 w2 h2 → progress w h w2 h2.
Proof.
  intros (Hs & ws & Hw & Ht) (Hs2 & ws2 & Hw2 & Ht2). split; [congruence|]. exists (ws ++ ws2).
  rewrite Hw2, Hw, app_assoc. split; [done|]. by eapply tiles_app.
Qed.

Lemma runPolling_progress cfg n w h :
  traced (runPolling cfg n) w h (λ _ w' h', progress w h w' h').
Proof.
  revert w h. induction n as [|n IH]; intros w h; cbn [runPolling].
  { by apply progress_none. }
  apply traced_call. intros tick.
  assert (progress w h w (h ++ [answered CTick tick])) as H0.
  { apply progress_none. unfold keeps. by rewrite windows_snoc, app_nil_r. }
  destruct tick; [|exact H0]. eapply traced_seq; [apply poll_progress|].
  intros r w1 h1 [H1 _]. destruct r as [u|e|m]; [| |done];
    (eapply traced_mono; [|apply IH]; intros ? w2 h2 H2; eapply progress_trans; [exact H0|];
     by eapply progress_trans).
Qed.

(** The history begins with the latest ledger, from which the start is computed; since then
    the windows tile. *)
Definition started (cfg : PollerConfig) {A} (r : gres A) (w : Poller) (h : hist) : Prop :=
  match r with
  | GVal _ => tiles (startLedger w) (windows h) (lastPolledLedger w) ∧
      ∃ latest h2, h = answered CGetLatestLedger (Ok latest) :: h2 ∧
        startLedger w = start_ledger (lookbackWindow cfg) (StellarService.llSequence latest)
  | _ => windows h = []
  end.

Lemma started_progress cfg {A B} (a : A) (b : B) w h w' h' :
  (∃ h2, h' = h ++ h2) → started cfg (GVal a) w h → progress w h w' h' →
  started cfg (GVal b) w' h'.
Proof.
  intros [h2 ->] (Hti & latest & h3 & -> & Hl) (Hs & ws & Hw & Ht). cbn [started].
  rewrite Hs, Hw. split; [by eapply tiles_app|]. by exists latest, (h3 ++ h2).
Qed.

Lemma Start_started cfg w : traced (Start cfg) w [] (started cfg).
Proof.
  unfold Start. eapply (traced_gthen _ _ _ _ (λ r w' h', match r with
    | GVal _ => ∃ latest, h' = [answered CGetLatestLedger (Ok latest)] ∧
        startLedger w' = start_ledger (lookbackWindow cfg) (StellarService.llSequence latest)
    | _ => windows h' = []
    end)).
  - unfold getStartLedger, gthen, gctx, gcall, call, modify. cbn.
    intros [latest|e]; cbn; [|done]. by exists latest.
  - intros [u|e|m] w1 h1; [|done|done]. intros (latest & -> & Hs).
    eapply (traced_seq (runBackfill cfg)) with (P := λ r w' h', match r with
      | GVal _ => started cfg (GVal tt) w' h' | GErr _ => started cfg (GVal tt) (set_last (startLedger w') w') h'
      | GPanic _ => True end).
    + unfold runBackfill. apply traced_modify, traced_gctx.
      eapply traced_mono; [|apply traced_grows, poll_progress].
      assert (started cfg (GVal tt) (set_last (startLedger w1) w1) [answered CGetLatestLedger (Ok latest)]) as H0.
      { split; [done|]. by exists latest, []. }
      intros [u'|e|m] w' h' [[Hp He] Hg]; [by eapply started_progress|cbn [gwrap]|done].
      destruct Hp as [Hs' _]. destruct Hg as [h2 ->]. split; [cbn in He |- *; by rewrite He|].
      exists latest, h2. split; [done|]. cbn in Hs' |- *. by rewrite Hs'.
    + intros [u'|e|m] w2 h2 H2; [exact H2| |done]. exact H2.
Qed.

Lemma goroutine_started cfg n w : traced (poller_goroutine cfg n) w [] (started cfg).
Proof.
  unfold poller_goroutine. eapply traced_gthen; [apply Start_started|].
  intros [u|e|m] w1 h1 H1; [|exact H1|done].
  eapply traced_seq; [apply traced_grows, runPolling_progress|].
  intros ? w2 h2 [Hp Hg]. by eapply started_progress.
Qed.

(** Every question about events is for the OffRamp's execution events. *)
Definition asks_offramp (cfg : PollerConfig) {X} (e : ccv_ext X) : Prop :=
  match e with CGetEvents req => ∃ from to, req = poll_request cfg from to | _ => True end.

Lemma sat_process_events cfg es : sat (@asks_offramp cfg) (process_events es) (λ _, True).
Proof.
  induction es as [|e es IH]; cbn [process_events]; [done|].
  destruct (OffRamp.ParseExecutionStateChangedEvent e) as [ev|err|m]; [|apply IH|done].
  apply (sat_seq _ _ _ (λ _, True)).
  - unfold processExecutionStateChanged, gthen, gctx, gcall. cbn. split; [done|].
    intros [tx|er]; cbn; [|done]. by destruct (attempt_of ev tx); cbn.
  - by intros [[]|er|m] _.
Qed.

Lemma sat_poll cfg : sat (@asks_offramp cfg) (pollForEvents cfg) (λ _, True).
Proof.
  unfold pollForEvents, gthen, gctx, gcall, call, gets. cbn. split; [done|].
  intros [latest|e]; cbn [of_result gwrap prog_bind sat fst snd]; [|done]. intros w.
  destruct (_ <=? _); cbn [of_result gwrap prog_bind sat fst snd]; [done|].
  split; [by eexists _, _|]. intros [resp|e]; cbn [of_result gwrap prog_bind sat fst snd]; [|done].
  eapply (sat_seq _ (process_events _)); [apply sat_process_events|]. done.
Qed.

Lemma sat_goroutine cfg n : sat (@asks_offramp cfg) (poller_goroutine cfg n) (λ _, True).
Proof.
  assert (sat (@asks_offramp cfg) (runPolling cfg n) (λ _, True)) as Hn.
  { induction n as [|n IH]; cbn [runPolling]; [done|]. split; [done|]. intros []; [|done].
    eapply (sat_seq _ (pollForEvents _)); [apply sat_poll|]. by intros [u|e|m] _. }
  unfold poller_goroutine, Start, runBackfill, gctx. eapply (sat_seq _ _ _ (λ _, True)).
  - unfold gthen at 1. eapply (sat_seq _ _ _ (λ _, True)).
    + unfold getStartLedger, gthen, gctx, gcall. cbn. split; [done|]. by intros [latest|e]; cbn.
    + intros [u|e|m] _; [|done..]. eapply (sat_seq _ _ _ (λ _, True)).
      * intros w. eapply (sat_seq _ (pollForEvents _)); [apply sat_poll|]. done.
      * by intros [u'|e|m] _.
  - intros [u|e|m] _; [|done..]. eapply (sat_seq _ (runPolling _ _)); [apply Hn|]. done.
Qed.

(** ** Where the cached attempts come from *)

(** [h] tells that [a] was executed under the id [k]. *)
Definition executed (h : hist) (k : bytes) (a : ExecutionAttempt) : Prop :=
  ∃ req resp e ev tx,
    answered (E := ccv_ext) (CGetEvents req) (Ok resp) ∈ h ∧
    e ∈ TypeConverters.psEvents resp ∧ OffRamp.ParseExecutionStateChangedEvent e = GVal ev ∧
    answered (E := ccv_ext) (CGetTransaction (OffRamp.escTxHash ev)) (Ok tx) ∈ h ∧
    attempt_of ev tx = GVal a ∧ OffRamp.escMessageId ev = k.
Definition sound (w : Poller) (h : hist) : Prop :=
  ∀ t k l a, cache_Get t k (attemptCache w) = Some l → a ∈ l → executed h k a.

Lemma executed_grows h h2 k a : executed h k a → executed (h ++ h2) k a.
Proof.
  intros (req & resp & e & ev & tx & ? & ? & ? & ? & ?).
  exists req, resp, e, ev, tx. rewrite !elem_of_app. tauto.
Qed.

Lemma sound_grows w h h2 : sound w h → sound w (h ++ h2).
Proof. intros Hs t k l a ? ?. by eapply executed_grows, Hs. Qed.

Lemma attempt_of_sound ev tx a : attempt_of ev tx = GVal a →
  trStatus tx = TransactionStatusSuccess ∧
  (∃ args, extractInvokeContractArgs (trEnvelopeXDR tx) = GVal args ∧
           decodeExecuteArgsToAttempt args = GVal a) ∧
  MessageID (ReportMessage (Report a)) = Ok (OffRamp.escMessageId ev).
Proof.
  unfold attempt_of. destruct (trStatus tx); [|done..]. intros Ha. split; [done|].
  destruct (extractInvokeContractArgs _) as [args| |]; [|done..]. cbn in Ha.
  destruct (decodeExecuteArgsToAttempt args) as [a'| |] eqn:Hd; [|done..]. cbn in Ha.
  unfold MustMessageID in Ha. destruct (MessageID _) as [i|] eqn:Hi; [|done]. cbn in Ha.
  case_decide; [|done]. injection Ha as <-. split; [by exists args|congruence].
Qed.

Section cached.
Context {LL : LruLaws}.

Lemma process_one_sound ev e req resp w h :
  sound w h → answered (E := ccv_ext) (CGetEvents req) (Ok resp) ∈ h →
  e ∈ TypeConverters.psEvents resp → OffRamp.ParseExecutionStateChangedEvent e = GVal ev →
  traced (processExecutionStateChanged ev) w h (λ _ w' h', sound w' h').
Proof.
  intros Hs Hq He Hp. unfold processExecutionStateChanged, gthen, gctx, gcall, call, gets, modify.
  pose proof (λ h2, sound_grows w h h2 Hs) as Hs2.
  cbn [prog_bind traced mbind prog_mbind]. intros [tx|er]; cbn [of_result gwrap prog_bind traced]; [|apply Hs2].
  destruct (attempt_of ev tx) as [a|er|m] eqn:Ha; [|apply Hs2|done].
  cbn [prog_bind traced fst snd]. intros t1 t2 t k l b Hg Hb.
  destruct (decide (k = OffRamp.escMessageId ev)) as [->|Hne].
  - cbn [attemptCache set_cache] in Hg. apply Get_Add_sound in Hg as ->.
    rewrite <- !app_assoc. apply elem_of_app in Hb as [Hb| ->%list_elem_of_singleton].
    + destruct (cache_Get t1 _ _) as [l0|] eqn:Hl0; cbn in Hb; [|by apply elem_of_nil in Hb].
      by eapply executed_grows, Hs.
    + exists req, resp, e, ev, tx. rewrite !elem_of_app. split_and!; auto.
      right; left. by apply list_elem_of_here.
  - cbn [attemptCache set_cache] in Hg. rewrite Get_Add_other in Hg by done. rewrite <- !app_assoc.
    by eapply Hs2.
Qed.

Lemma process_events_sound es req resp w h :
  sound w h → answered (E := ccv_ext) (CGetEvents req) (Ok resp) ∈ h →
  (∀ e, e ∈ es → e ∈ TypeConverters.psEvents resp) →
  traced (process_events es) w h (λ _ w' h', sound w' h').
Proof.
  revert w h. induction es as [|e es IH]; intros w h Hs Hq Hes; cbn [process_events]; [done|].
  assert (∀ e', e' ∈ es → e' ∈ TypeConverters.psEvents resp) as Hes'
    by (intros e' ?; apply Hes; by apply list_elem_of_further).
  destruct (OffRamp.ParseExecutionStateChangedEvent e) as [ev|err|m] eqn:Hp; [|by apply IH|done].
  eapply traced_seq.
  { apply traced_grows. eapply process_one_sound; try done. apply Hes, list_elem_of_here. }
  intros [[]|err|m] w' h' [Hs' [h2 ->]]; [| |done]; (apply IH; [done|by apply elem_of_app; left|done]).
Qed.

Lemma poll_sound cfg w h : sound w h → traced (pollForEvents cfg) w h (λ _ w' h', sound w' h').
Proof.
  intros Hs. pose proof (λ h2, sound_grows w h h2 Hs) as Hs2.
  unfold pollForEvents, gthen, gctx, gcall, call, gets. cbn. intros [latest|e];
    cbn [of_result gwrap prog_bind traced fst snd]; [|apply Hs2].
  destruct (_ <=? _); cbn [of_result gwrap prog_bind traced fst snd]; [apply Hs2|].
  intros [resp|e]; cbn [of_result gwrap prog_bind traced fst snd]; [|rewrite <- app_assoc; apply Hs2].
  eapply (traced_seq (process_events _)).
  { eapply process_events_sound; [rewrite <- app_assoc; apply Hs2| |done].
    apply elem_of_app; right. apply list_elem_of_here. }
  intros u w2 h2 Hs3. by apply traced_modify.
Qed.

Lemma runPolling_sound cfg n w h :
  sound w h → traced (runPolling cfg n) w h (λ _ w' h', sound w' h').
Proof.
  revert w h. induction n as [|n IH]; intros w h Hs; cbn [runPolling]; [done|].
  apply traced_call. intros tick.
  pose proof (sound_grows w h [answered CTick tick] Hs).
  destruct tick; [|done]. eapply traced_seq; [by apply poll_sound|].
  intros [u|e|m] w1 h1 H1; [by apply IH..|done].
Qed.

Lemma goroutine_sound cfg n w :
  sound w [] → traced (poller_goroutine cfg n) w [] (λ _ w' h', sound w' h').
Proof.
  intros Hs. unfold poller_goroutine, Start.
  eapply (traced_gthen _ _ _ _ (λ _ w' h', sound w' h')).
  - eapply (traced_gthen _ _ _ _ (λ _ w' h', sound w' h')).
    + unfold getStartLedger, gthen, gctx, gcall, call, modify. cbn.
      intros [latest|e]; cbn; intros t k l a Hg Ha; exact (executed_grows [] [_] k a (Hs t k l a Hg Ha)).
    + intros [u|e|m] w1 h1 H1; [|done|done].
      eapply (traced_seq (runBackfill cfg)) with (P := λ _ w' h', sound w' h').
      * unfold runBackfill. apply traced_modify, traced_gctx. by apply poll_sound.
      * by intros [u'|e|m] w2 h2 H2.
  - intros [u|e|m] w1 h1 H1; [|done..].
    eapply traced_seq; [by apply runPolling_sound|]. done.
Qed.
End cached.
End props.
End PollerProps.

Import Config Xdr ScValProps BindingsProps Poller PollerProps.

Module PollerLive.
Section live.
Context {UT : UnicodeTables} {XS : XdrSdk} {SD : SdkTypes} {SK : Sdk} {RS : RpcSdk}
  {CP : CcvProtocol} {CX : CcvXdr} {LC : LruCache}.

(** ** Nothing the node sends makes it panic *)

Section total.
Context {XL : XdrLaws} {CL : CcvLaws} {CXL : CcvXdrLaws}.

Lemma execution_field_total k v s : valid v = true →
  ∃ s', OffRamp.ExecutionStateChanged_field k v s = GVal s'.
Proof.
  intros Hv. destruct s. unfold OffRamp.ExecutionStateChanged_field.
  assert (panics (ScVal.Uint64FromScVal v) = false ∧ panics (ScVal.Bytes32FromScVal v) = false ∧
          panics (OffRamp.MessageExecutionStateFromScVal v) = false) as (? & ? & ?).
  { unfold OffRamp.MessageExecutionStateFromScVal, ScVal.Uint64FromScVal, ScVal.Bytes32FromScVal, ScVal.fixed_bytes, ScVal.got, nonnil.
    destruct (GetU64_valid v Hv) as [[x|] ->], (GetU32_valid v Hv) as [[y|] ->], (GetBytes_valid v Hv) as [[z|] ->];
      cbn; repeat split; by repeat case_match. }
  field_total.
Qed.

Lemma parse_no_panic e : panics (OffRamp.ParseExecutionStateChangedEvent e) = false.
Proof.
  unfold OffRamp.ParseExecutionStateChangedEvent.
  destruct (UnmarshalScVal (TypeConverters.peValueXDR e)) as [v|] eqn:Hu; [|done].
  apply struct_no_panic; [apply execution_field_total|by eapply Unmarshal_valid].
Qed.

Lemma extract_args_valid s :
  panics (extractInvokeContractArgs s) = false ∧
  ∀ args, extractInvokeContractArgs s = GVal args → forallb valid args = true.
Proof.
  unfold extractInvokeContractArgs.
  destruct (UnmarshalTransactionEnvelope s) as [e|] eqn:He; [|done]. apply UnmarshalEnvelope_valid in He.
  assert (∃ ops, forallb valid_body ops = true ∧ match e with
        | EnvelopeTypeTxV0 V0 => deref V0
        | EnvelopeTypeTx V1 => deref V1
        | EnvelopeTypeTxFeeBump FeeBump => inner ← deref FeeBump; deref inner
        | EnvelopeTypeOther _ =>
            GErr ("unsupported envelope type: " +:+ EnvelopeType_String e)
        end = GVal ops ∨ ∃ n, e = EnvelopeTypeOther n) as (ops & Hops).
  { destruct e as [[l|]|[l|]|[[l|]|]|n]; try done; [by exists l; left..|]. exists []. right. by exists n. }
  cbn [of_result gwrap mbind gres_bind]. destruct Hops as [[Hops ->]|[n ->]]; [|done]. cbn [mbind gres_bind].
  destruct ops as [|op ops]; [done|]. cbn in Hops. apply andb_true_iff in Hops as [Hop _].
  destruct op as [[[[a|]|n]|]|n]; try done. split; [done|]. by intros args [= <-].
Qed.

Lemma decode_args_no_panic args : forallb valid args = true →
  panics (decodeExecuteArgsToAttempt args) = false.
Proof.
  unfold decodeExecuteArgsToAttempt. intros Hv.
  destruct args as [|a0 [|a1 [|a2 [|a3 [|? ?]]]]]; try done. cbn [forallb] in Hv.
  repeat match goal with H : _ && _ = true |- _ => apply andb_true_iff in H as [? H] end.
  assert (panics (ScVal.BytesFromScVal a0) = false) as Hp0.
  { unfold ScVal.BytesFromScVal, ScVal.got. by destruct (GetBytes_valid a0 ltac:(done)) as [[z|] ->]. }
  destruct (valid_vec_readers a1 ltac:(done)) as [_ Hp1], (valid_vec_readers a2 ltac:(done)) as [Hp2 _].
  destruct (ScVal.BytesFromScVal a0), (ScVal.AddressVecFromScVal a1), (ScVal.BytesVecFromScVal a2); try done.
  cbn. destruct (GetU32_valid a3 ltac:(done)) as [[x|] ->]; [|done]. cbn. by destruct (DecodeMessage _).
Qed.

Lemma decode_args_message args a : decodeExecuteArgsToAttempt args = GVal a →
  ∃ b, DecodeMessage b = Ok (ReportMessage (Report a)).
Proof.
  unfold decodeExecuteArgsToAttempt. destruct args as [|a0 [|a1 [|a2 [|a3 [|? ?]]]]]; try done.
  intros Hd. repeat (apply gbind_GVal in Hd as (? & ? & Hd)).
  injection Hd as <-. cbn. match goal with H : gwrap _ (of_result ?r) = _ |- _ => destruct r eqn:E; [|done] end.
  cbn in *. simplify_eq. eauto.
Qed.

Lemma attempt_of_no_panic ev tx : panics (attempt_of ev tx) = false.
Proof.
  unfold attempt_of. destruct (trStatus tx); [|done..].
  destruct (extract_args_valid (trEnvelopeXDR tx)) as [Hn Hv].
  destruct (extractInvokeContractArgs _) as [args| |]; [|done..]. cbn [gwrap mbind gres_bind].
  pose proof (decode_args_no_panic args (Hv _ eq_refl)).
  destruct (decodeExecuteArgsToAttempt args) as [a| |] eqn:Hd; [|done..]. cbn [gwrap mbind gres_bind].
  destruct (decode_args_message _ _ Hd) as [b Hb]. apply MessageID_decoded in Hb.
  unfold MustMessageID. destruct (MessageID _); [|done]. cbn. by case_decide.
Qed.
Section returns.
Context (answer : ∀ X, ccv_ext X → X → Prop).

Lemma process_one_returns ev w :
  returns answer (processExecutionStateChanged ev) w (λ r _, panics r = false).
Proof.
  unfold processExecutionStateChanged, gthen, gctx, gcall, call, gets, modify.
  cbn [prog_bind returns mbind prog_mbind]. intros [tx|er] _; cbn [of_result gwrap prog_bind returns]; [|done].
  pose proof (attempt_of_no_panic ev tx). by destruct (attempt_of ev tx).
Qed.

Lemma process_events_returns es w : returns answer (process_events es) w (λ _ _, True).
Proof.
  revert w. induction es as [|e es IH]; intros w; cbn [process_events]; [done|].
  pose proof (parse_no_panic e). destruct (OffRamp.ParseExecutionStateChangedEvent e) as [ev|err|m]; [|apply IH|done].
  eapply returns_seq; [apply process_one_returns|]. intros [[]|err|m] w' Hr; [apply IH..|done].
Qed.

Lemma poll_returns cfg w : returns answer (pollForEvents cfg) w (λ r _, panics r = false).
Proof.
  unfold pollForEvents, gthen, gctx, gcall, call, gets.
  cbn [prog_bind returns mbind prog_mbind]. intros [latest|e] _; cbn [of_result gwrap prog_bind returns fst snd]; [|done].
  destruct (_ <=? _); cbn [of_result gwrap prog_bind returns fst snd]; [done|].
  intros [resp|e] _; cbn [of_result gwrap prog_bind returns fst snd]; [|done].
  eapply (returns_seq _ (process_events _)); [apply process_events_returns|]. done.
Qed.

Lemma runPolling_returns cfg n w : returns answer (runPolling cfg n) w (λ _ _, True).
Proof.
  revert w. induction n as [|n IH]; intros w; cbn [runPolling]; [done|]. intros [] _; [|done].
  eapply (returns_seq _ (pollForEvents _)); [apply poll_returns|]. intros [u|e|m] w' Hr; [apply IH..|done].
Qed.

Lemma goroutine_returns cfg n w : returns answer (poller_goroutine cfg n) w (λ r _, panics r = false).
Proof.
  unfold poller_goroutine, Start. eapply (returns_gthen _ _ _ _ (λ r _, panics r = false)).
  - eapply (returns_gthen _ _ _ _ (λ r _, panics r = false)).
    + unfold getStartLedger, gthen, gctx, gcall, call, modify. cbn. by intros [latest|e] _; cbn.
    + intros [u|e|m] w1 H1; [|done|done].
      eapply (returns_seq _ (runBackfill cfg) _ _ (λ r _, panics r = false)).
      * unfold runBackfill. cbn [modify prog_bind returns mbind prog_mbind fst snd].
        eapply returns_gctx, returns_mono; [|apply poll_returns]. by intros [] ?.
      * by intros [u'|e|m] w2 H2.
  - intros [u|e|m] w1 H1; [|done..]. eapply returns_seq; [apply runPolling_returns|]. done.
Qed.
End returns.
End total.
(** ** What the node answers becomes visible *)

Section visible.
Context {XL : XdrLaws} {CL : CcvLaws} {CXL : CcvXdrLaws} {LL : LruLaws}.
Context (latest : StellarService.GetLatestLedgerResponse)
  (request : TypeConverters.protocol_GetEventsRequest)
  (resp : TypeConverters.protocol_GetEventsResponse)
  (transaction : string → result TransactionReply) (t0 duration : Z).

(** A node with this latest ledger, these events and these transactions, while the clock
    shows times within [duration] of [t0]. *)
Definition serves {X} (e : ccv_ext X) : X → Prop :=
  match e in ccv_ext X return X → Prop with
  | CNow => λ t, t0 <= t < t0 + duration
  | CGetLatestLedger => λ r, r = Ok latest
  | CGetEvents req => λ r, req = request → r = Ok resp
  | CGetTransaction hash => λ r, r = transaction hash
  | _ => λ _, True
  end.

(** The attempt is in the cache as long as the clock shows these times. *)
Definition visible (k : bytes) (a : ExecutionAttempt) (w : Poller) : Prop :=
  ∀ t, t0 <= t < t0 + duration → ∃ l, cache_Get t k (attemptCache w) = Some l ∧ a ∈ l.
(** The attempt behind an event. *)
Definition behind (e : TypeConverters.protocol_EventInfo) (k : bytes) (a : ExecutionAttempt) : Prop :=
  ∃ ev tx, OffRamp.ParseExecutionStateChangedEvent e = GVal ev ∧
    transaction (OffRamp.escTxHash ev) = Ok tx ∧ attempt_of ev tx = GVal a ∧
    OffRamp.escMessageId ev = k.
(** Later worlds keep what is visible. *)
Definition retains (w w' : Poller) : Prop :=
  ttl (attemptCache w') = ttl (attemptCache w) ∧ lastPolledLedger w' = lastPolledLedger w ∧
  ∀ k a, visible k a w → visible k a w'.

Lemma add_visible w k v t a :
  ttl (attemptCache w) = duration → t0 <= t < t0 + duration → a ∈ v →
  visible k a (set_cache (cache_Add t k v) w).
Proof. intros Hd Ht Ha t' Ht'. exists v. split; [|done]. apply Get_Add_fresh. lia. Qed.

Lemma process_one_visible e ev w :
  ttl (attemptCache w) = duration → OffRamp.ParseExecutionStateChangedEvent e = GVal ev →
  returns (@serves) (processExecutionStateChanged ev) w (λ r w',
    panics r = false ∧ retains w w' ∧ ∀ k a, behind e k a → visible k a w').
Proof.
  intros Hd Hp. unfold processExecutionStateChanged, gthen, gctx, gcall, call, gets, modify.
  cbn [prog_bind returns mbind prog_mbind serves]. intros tx Htx.
  assert (∀ k a, behind e k a → ∃ tx', tx = Ok tx' ∧ attempt_of ev tx' = GVal a ∧
    OffRamp.escMessageId ev = k) as Hbe.
  { intros k a (ev' & tx' & Hp' & Ht' & Ha & Hk). rewrite Hp in Hp'. injection Hp' as <-.
    exists tx'. by rewrite Htx. }
  destruct tx as [tx|er]; cbn [of_result gwrap prog_bind returns].
  2:{ split_and!; [done..|]. by intros k a (? & ? & _)%Hbe. }
  pose proof (attempt_of_no_panic ev tx) as Hnp.
  destruct (attempt_of ev tx) as [a0|er|m] eqn:Ha0; [|split_and!; [done..|]|done].
  2:{ intros k a (? & [= <-] & ? & _)%Hbe. congruence. }
  cbn [prog_bind returns fst snd]. intros t1 Ht1 t2 Ht2. split_and!; [done| |].
  - split_and!; [apply ttl_Add|done|]. intros k a Hv. destruct (decide (k = OffRamp.escMessageId ev)) as [->|Hne].
    + apply add_visible; [done..|]. apply elem_of_app; left. by destruct (Hv t1 Ht1) as (l & -> & ?).
    + intros t Ht. cbn [attemptCache set_cache]. rewrite Get_Add_other by done. by apply Hv.
  - intros k a (tx' & [= <-] & Ha & <-)%Hbe. rewrite Ha0 in Ha. injection Ha as <-.
    apply add_visible; [done..|]. apply elem_of_app; right. apply list_elem_of_here.
Qed.

Lemma process_events_visible es w :
  ttl (attemptCache w) = duration →
  returns (@serves) (process_events es) w (λ _ w',
    retains w w' ∧ ∀ e k a, e ∈ es → behind e k a → visible k a w').
Proof.
  revert w. induction es as [|e es IH]; intros w Hd; cbn [process_events].
  { split; [done|]. intros e k a He. by apply elem_of_nil in He. }
  pose proof (parse_no_panic e) as Hn.
  destruct (OffRamp.ParseExecutionStateChangedEvent e) as [ev|er|m] eqn:Hp; [| |done].
  - eapply returns_seq; [by eapply process_one_visible|].
    intros r w1 (Hr & (Ht1 & Hl1 & Hv1) & Hb). destruct r as [u|er|m]; [| |done];
      (eapply returns_mono; [|apply IH; congruence]; intros _ w2 ((Ht2 & Hl2 & Hv2) & Hb2);
       split; [split_and!; [congruence..|auto]|];
       intros e' k a [->|He]%elem_of_cons Hbe; [by apply Hv2, Hb|by eapply Hb2]).
  - eapply returns_mono; [|by apply IH]. intros _ w2 (Hr & Hb2). split; [done|].
    intros e' k a [->|He]%elem_of_cons Hbe; [|by eapply Hb2].
    destruct Hbe as (? & ? & Hp' & _). congruence.
Qed.

Lemma poll_visible cfg w :
  ttl (attemptCache w) = duration → lastPolledLedger w < StellarService.llSequence latest →
  request = poll_request cfg (lastPolledLedger w) (StellarService.llSequence latest) →
  returns (@serves) (pollForEvents cfg) w (λ r w',
    r = GVal tt ∧ lastPolledLedger w' = StellarService.llSequence latest ∧
    ∀ e k a, e ∈ TypeConverters.psEvents resp → behind e k a → visible k a w').
Proof.
  intros Hd Hl Hr. unfold pollForEvents, gthen, gctx, gcall, call, gets.
  cbn [prog_bind returns mbind prog_mbind serves]. intros ? ->. cbn [of_result gwrap prog_bind returns fst snd].
  rewrite (proj2 (Z.leb_gt _ _)) by done. cbn [of_result gwrap prog_bind returns fst snd serves].
  intros ? ->; [|done]. cbn [of_result gwrap prog_bind returns fst snd].
  eapply (returns_seq _ (process_events _)); [by apply process_events_visible|].
  intros _ w' (_ & Hb). by split_and!.
Qed.
End visible.
(** ** Theorems *)

Lemma start_ledger_exact lookback latest : 0 <= lookback <= max_int64 →
  start_ledger lookback latest = Z.max minStellarLedger (latest - lookback / estimatedLedgerCloseTime).
Proof.
  intros Hl. unfold start_ledger, estimatedLedgerCloseTime, minStellarLedger, Second, max_int64 in *.
  rewrite Z.quot_div_nonneg by lia.
  pose proof (Z.div_pos lookback (6 * 1000000000)). pose proof (Z.div_le_upper_bound lookback (6 * 1000000000) 1537228673).
  rewrite uint32_id; [|apply is_uint32_spec; lia]. case_match eqn:E; [apply Z.leb_le in E|apply Z.leb_gt in E]; lia.
Qed.

Section theorems.
Context {XL : XdrLaws} {CL : CcvLaws} {CXL : CcvXdrLaws}.

(** C8. Start, its backfill and any number of turns of the polling loop return, whatever the
    node answers. When the start ledger could be computed, it is the latest ledger less the
    look-back window of six-second ledgers, never below 7; every request is for the
    OffRamp's execution events, and each ledger from the start up to the cursor is covered
    by exactly one answered request, and no other ledger by any. *)
Theorem poller_windows_tile cfg n env w :
  0 <= lookbackWindow cfg <= max_int64 →
  ∃ r h w', hrun env (poller_goroutine cfg n) 0 w = (Done r, h, w') ∧
    Forall (λ ev : event, asks_offramp cfg (fst (projT2 ev))) h ∧
    match r with
    | GVal _ =>
        (∃ latest, head h = Some (answered CGetLatestLedger (Ok latest)) ∧
           startLedger w' = Z.max 7 (StellarService.llSequence latest -
                                     lookbackWindow cfg / (6 * Second))) ∧
        startLedger w' <= lastPolledLedger w' ∧
        (∀ l, times_covered l (windows h) =
              if bool_decide (startLedger w' <= l < lastPolledLedger w') then 1%nat else 0%nat)
    | _ => windows h = []
    end.
Proof.
  intros Hlb. destruct (returns_hrun (λ _ _ _, True) (poller_goroutine cfg n) env 0 w
    (λ r _, panics r = false)) as (r & h & w' & Hr & Hn); [done|apply goroutine_returns|].
  exists r, h, w'. split; [done|]. split.
  - pose proof (sat_hrun _ _ _ env 0 w (sat_goroutine cfg n)) as Hs.
    by rewrite Hr in Hs.
  - pose proof (traced_hrun _ env 0 w [] _ (goroutine_started cfg n w)) as Ht. rewrite Hr in Ht.
    destruct r as [u|e|m]; cbn [started app] in Ht; [|done..].
    destruct Ht as (Hti & latest & h2 & -> & Hst). rewrite start_ledger_exact in Hst by done.
    split; [by exists latest|]. split; [by eapply tiles_le|]. intros l. by apply tiles_covered.
Qed.

Context {LL : LruLaws}.

(** C9. What a reader is told was executed: after Start and any number of turns, from an empty
    cache, every attempt returned for a message comes from a successful transaction that the
    node gave for an event of the OffRamp, whose invocation's arguments decode to the attempt,
    and its message has the id of the one asked for. *)
Theorem cached_attempts_are_executions cfg n env env' w d m :
  attemptCache w = NewLRU d →
  ∃ r h w', hrun env (poller_goroutine cfg n) 0 w = (Done r, h, w') ∧
    ∀ l h' w'', hrun env' (GetExecutionAttempts m) 0 w' = (Done (GVal l), h', w'') →
    ∀ a, a ∈ l →
      MessageID (ReportMessage (Report a)) = MessageID m ∧ is_ok (MessageID m) = true ∧
      ∃ req resp e ev tx args,
        answered (E := ccv_ext) (CGetEvents req) (Ok resp) ∈ h ∧
        e ∈ TypeConverters.psEvents resp ∧ OffRamp.ParseExecutionStateChangedEvent e = GVal ev ∧
        MessageID m = Ok (OffRamp.escMessageId ev) ∧
        answered (E := ccv_ext) (CGetTransaction (OffRamp.escTxHash ev)) (Ok tx) ∈ h ∧
        trStatus tx = TransactionStatusSuccess ∧
        extractInvokeContractArgs (trEnvelopeXDR tx) = GVal args ∧
        decodeExecuteArgsToAttempt args = GVal a.
Proof.
  intros Hd. destruct (returns_hrun (λ _ _ _, True) (poller_goroutine cfg n) env 0 w
    (λ r _, panics r = false)) as (r & h & w' & Hr & Hn); [done|apply goroutine_returns|].
  exists r, h, w'. split; [done|]. intros l h' w'' Hg a Ha.
  assert (sound w []) as Hs by (intros t k l0 b Hc; by rewrite Hd, Get_NewLRU in Hc).
  pose proof (traced_hrun _ env 0 w [] _ (goroutine_sound cfg n w Hs)) as Ht. rewrite Hr in Ht. cbn [app] in Ht.
  unfold GetExecutionAttempts, gthen, call, gets in Hg. cbn [mbind prog_mbind prog_bind] in Hg.
  destruct (MessageID m) as [k|e] eqn:Hk; cbn in Hg; [|done]. injection Hg as <- _ _.
  destruct (cache_Get (env' Z 0%nat CNow) k (attemptCache w')) as [l|] eqn:Hc; cbn in Ha; [|by apply elem_of_nil in Ha].
  destruct (Ht _ _ _ _ Hc Ha) as (req & resp & e & ev & tx & ? & ? & ? & ? & Hat & <-).
  destruct (attempt_of_sound _ _ _ Hat) as (? & (args & ? & ?) & ?).
  split; [done|]. split; [done|]. by exists req, resp, e, ev, tx, args.
Qed.

(** C10. When the node has a newer ledger and answers with its events and their transactions,
    one poll makes every execution of a message visible: the poll returns without error,
    moves the cursor, and a reader who asks for that message within the time to live of an
    entry gets the attempts of all its events, those that do not parse or decode apart. *)
Theorem poll_makes_executions_visible cfg latest resp transaction t0 n env w m k :
  let request := poll_request cfg (lastPolledLedger w) (StellarService.llSequence latest) in
  (∀ X i (e : ccv_ext X),
     serves latest request resp transaction t0 (ttl (attemptCache w)) e (env X i e)) →
  lastPolledLedger w < StellarService.llSequence latest → MessageID m = Ok k →
  ∃ l h w', hrun env (r ← pollForEvents cfg; a ← GetExecutionAttempts m; Ret (r, a)) n w =
      (Done (GVal tt, GVal l), h, w') ∧
    lastPolledLedger w' = StellarService.llSequence latest ∧
    ∀ e a, e ∈ TypeConverters.psEvents resp → behind transaction e k a → a ∈ l.
Proof.
  intros request Henv Hl Hk.
  edestruct (returns_hrun (@serves latest request resp transaction t0 (ttl (attemptCache w)))
    (r ← pollForEvents cfg; a ← GetExecutionAttempts m; Ret (r, a)) env n w
    (λ ra w', ∃ l, ra = (GVal tt, GVal l) ∧ lastPolledLedger w' = StellarService.llSequence latest ∧
       ∀ e a, e ∈ TypeConverters.psEvents resp → behind transaction e k a → a ∈ l))
    as (ra & h & w' & Hr & l & -> & Hlast & Hv); [exact Henv| |by exists l, h, w'].
  eapply returns_seq; [by apply poll_visible|]. intros r w1 (-> & Hl1 & Hv).
  unfold GetExecutionAttempts, gthen, call, gets. rewrite Hk.
  cbn [wrap_err of_result mbind prog_mbind prog_bind returns fst snd serves]. intros now Hnow.
  eexists. split; [done|]. split; [done|]. intros e a He Hb.
  by destruct (Hv e k a He Hb now Hnow) as (l & -> & ?).
Qed.
End theorems.
End live.

(** ** Witnesses *)

Import DemoCcv.

Definition demo_cfg : PollerConfig := mkPollerConfig "offramp" (5 * Second) (3600 * Second).
Definition demo_poller : Poller := mkPoller (NewLRU (3600 * Second)) 100 0.
Definition demo_event : TypeConverters.protocol_EventInfo :=
  TypeConverters.mkProtocolEvent "contract" 120 "now" "offramp" "id" 0 1 "hash" [] "executed".
Definition demo_ledger (n : Z) : StellarService.GetLatestLedgerResponse :=
  StellarService.mkGetLatestLedgerResponse "" 22 n 0 "" "".
Definition demo_response (es : list TypeConverters.protocol_EventInfo)
  : TypeConverters.protocol_GetEventsResponse := TypeConverters.mkProtocolResponse es "" 0 0 0 0.
Definition demo_reply : TransactionReply := mkTransactionReply TransactionStatusSuccess "execute".
Definition demo_attempt : ExecutionAttempt :=
  mkAttempt (mkReport [DemoXdr.key1] [[x00; x09]] demo_message) 0.

(** A node with one execution, in ledger 120, which does not answer for transactions while
    [fails]; a chain that grows by a ledger per call. *)
Definition growing (n : nat) : Z := 100 + Z.of_nat n.
Definition demo_node (ledger : nat → Z) (fails : nat → bool) : oracle (E := ccv_ext) := λ X n e,
  match e in ccv_ext X return X with
  | CNow => 0
  | CTick => true
  | CGetLatestLedger => Ok (demo_ledger (ledger n))
  | CGetEvents req => Ok (demo_response
      (if (TypeConverters.prStartLedger req <=? 120) && (120 <? TypeConverters.prEndLedger req)
       then [demo_event] else []))
  | CGetTransaction hash => if fails n then Err "timeout" else Ok demo_reply
  | CGetLedgers _ => Err "unused"
  | CInvoke _ _ _ | CSimulate _ _ _ => Err "unused"
  end.

Lemma poller_windows_tile_witness :
  ∃ r h w', hrun (demo_node growing (λ _, false)) (poller_goroutine demo_cfg 20) 0 demo_poller = (Done r, h, w') ∧
    Forall (λ ev : event, asks_offramp demo_cfg (fst (projT2 ev))) h ∧
    match r with
    | GVal _ =>
        (∃ latest, head h = Some (answered CGetLatestLedger (Ok latest)) ∧
           startLedger w' = Z.max 7 (StellarService.llSequence latest -
                                     lookbackWindow demo_cfg / (6 * Second))) ∧
        startLedger w' <= lastPolledLedger w' ∧
        (∀ l, times_covered l (windows h) =
              if bool_decide (startLedger w' <= l < lastPolledLedger w') then 1%nat else 0%nat)
    | _ => windows h = []
    end.
Proof. apply poller_windows_tile. vm_compute. by split. Defined.

Lemma cached_attempts_are_executions_witness :
  (∃ h w', hrun (demo_node growing (λ _, false)) (poller_goroutine demo_cfg 20) 0 demo_poller = (Done (GVal tt), h, w') ∧
    ∃ h' w'', hrun (demo_node growing (λ _, false)) (GetExecutionAttempts demo_message) 0 w' =
      (Done (GVal [demo_attempt]), h', w'')) ∧
  ∃ r h w', hrun (demo_node growing (λ _, false)) (poller_goroutine demo_cfg 20) 0 demo_poller = (Done r, h, w') ∧
    ∀ l h' w'', hrun (demo_node growing (λ _, false)) (GetExecutionAttempts demo_message) 0 w' =
      (Done (GVal l), h', w'') →
    ∀ a, a ∈ l →
      MessageID (ReportMessage (Report a)) = MessageID demo_message ∧ is_ok (MessageID demo_message) = true ∧
      ∃ req resp e ev tx args,
        answered (E := ccv_ext) (CGetEvents req) (Ok resp) ∈ h ∧
        e ∈ TypeConverters.psEvents resp ∧ OffRamp.ParseExecutionStateChangedEvent e = GVal ev ∧
        MessageID demo_message = Ok (OffRamp.escMessageId ev) ∧
        answered (E := ccv_ext) (CGetTransaction (OffRamp.escTxHash ev)) (Ok tx) ∈ h ∧
        trStatus tx = TransactionStatusSuccess ∧
        extractInvokeContractArgs (trEnvelopeXDR tx) = GVal args ∧
        decodeExecuteArgsToAttempt args = GVal a.
Proof.
  split.
  - eexists _, _. split; [vm_compute; reflexivity|]. eexists _, _. vm_compute. reflexivity.
  - by eapply (cached_attempts_are_executions demo_cfg 20 (demo_node growing (λ _, false)) (demo_node growing (λ _, false))
      demo_poller (3600 * Second) demo_message).
Defined.

Lemma poll_makes_executions_visible_witness :
  let env := demo_node (λ _, 200) (λ _, false) in
  ∃ l h w', hrun env (r ← pollForEvents demo_cfg; a ← GetExecutionAttempts demo_message; Ret (r, a))
      0 demo_poller = (Done (GVal tt, GVal l), h, w') ∧
    lastPolledLedger w' = 200 ∧
    ∀ e a, e ∈ [demo_event] → behind (λ _, Ok demo_reply) e demo_id a → a ∈ l.
Proof.
  intros env. refine (poll_makes_executions_visible demo_cfg (demo_ledger 200) (demo_response [demo_event])
    (λ _, Ok demo_reply) 0 0 env demo_poller demo_message demo_id _ _ _); [|done|done].
  intros X i e. destruct e; try done; cbn.
  by intros ->.
Defined.

(** An execution can be missed for good: the cursor moves past a ledger even when the
    transaction of one of its events could not be fetched. A node that answers for the
    transaction at any time later is never asked again, and after fifty turns a reader is
    told that the executed message was never attempted; without the outage it is told of the
    attempt. *)
Theorem missed_event_lost :
  let attempts fails :=
    fst (fst (hrun (demo_node growing fails)
      (poller_goroutine demo_cfg 50;; GetExecutionAttempts demo_message) 0 demo_poller)) in
  attempts (λ n, n <? 30)%nat = Done (GVal []) ∧ attempts (λ _, false) = Done (GVal [demo_attempt]).
Proof. split; vm_compute; reflexivity. Qed.
End PollerLive.
