(* ===== verification/CcvProps.v ===== *)
(** What the transmitter sends is what the poller reports, and what the destination reader
    answers. *)

From Stdlib Require Import Ascii.
From Stdlib Require Import Strings.Byte.
From stdpp Require Import base gmap list strings pretty.
From S2P Require Import Prelude GoStrings Prog Sdk Config Xdr ScVal GoBytes TypeConverters.
From S2P Require Import Xdr ScValProps InvokerAdapter StellarService Ccv Bindings BindingsProps.
From S2P Require Import Transmitter TransmitterProps SourceReader SourceReaderProps Poller DestinationReader DemoCcv.
Import Config Xdr ScValProps BindingsProps Transmitter TransmitterProps SourceReaderProps.

Local Open Scope Z_scope.

Module CcvProps.
Section props.
Context {UT : UnicodeTables} {XS : XdrSdk} {XL : XdrLaws} {SD : SdkTypes} {SK : Sdk} {RS : RpcSdk}
  {CP : CcvProtocol} {CL : CcvLaws} {CX : CcvXdr} {LC : LruCache}.

(** ** From a report to a transaction and back *)

(** A 32-byte contract id and its strkey. *)
Definition contract_key (key : bytes) (s : string) : Prop :=
  length key = 32%nat ∧ Encode VersionByteContract key = Ok s.

Lemma ccv_strkey_total i key : length key = 32%nat →
  ∃ s, ccv_strkey i key = GVal s ∧ contract_key key s.
Proof.
  intros Hk. pose proof (Encode_total VersionByteContract key Hk) as Ht.
  destruct (Encode VersionByteContract key) as [s|] eqn:E; [|done]. exists s. split; [|done].
  unfold ccv_strkey, ScVal.HexToContractStrkey.
  by rewrite TrimPrefix_app, DecodeString_Encode; cbn; rewrite E.
Qed.

Lemma contract_keys_read keys ss : Forall2 contract_key keys ss →
  ScVal.AddressVecFromScVal (ScVal.AddressSliceToScVal ss) = GVal keys.
Proof.
  intros Hs. unfold ScVal.AddressSliceToScVal, ScVal.AddressVecFromScVal, ScVal.VecToScVal.
  cbn [GetVec arm deref fmap gres_fmap mbind gres_bind]. unfold gimapM. generalize 0%nat as i.
  induction Hs as [|k s keys ss [Hk He] Hs IH]; intros i; [done|].
  cbn [fmap list_fmap gimapM_from]. rewrite (AddressToScVal_Encode _ _ _ Hk He), (RawBytes_of VersionByteContract k Hk).
  cbn [gwrap mbind gres_bind]. change (list_fmap _ _ _ ss) with (ScVal.AddressToScVal <$> ss). by rewrite IH.
Qed.

Section transmit.
Context {SP : Secp256k1} {SL : Secp256k1Laws}.

Lemma transmit_args_total report :
  is_ok (MessageID (ReportMessage report)) = true →
  Forall (λ k, length k = 32%nat) (CCVS report) →
  Forall (λ b, ∃ b', convertVerifierBlobToEIP2098 b = GVal b') (CCVData report) →
  ∃ enc ccvs data, transmit_args report = GVal (enc, ccvs, data) ∧
    EncodeMessage (ReportMessage report) = Ok enc ∧
    Forall2 contract_key (CCVS report) ccvs ∧
    Forall2 (λ b b', convertVerifierBlobToEIP2098 b = GVal b') (CCVData report) data.
Proof.
  intros Hid Hc Hd. unfold transmit_args, MustMessageID.
  pose proof (proj2 (MessageID_total _) Hid) as He.
  destruct (MessageID _) as [k|]; [|done]. destruct (EncodeMessage _) as [enc|]; [|done].
  edestruct (gimapM_succeeds ccv_strkey contract_key (CCVS report)) as (ccvs & -> & Hs).
  { intros j x Hx. apply ccv_strkey_total. by eapply Forall_forall in Hc. }
  edestruct (gimapM_succeeds ccv_blob (λ b b', convertVerifierBlobToEIP2098 b = GVal b') (CCVData report))
    as (data & -> & Hds).
  { intros j b Hb. eapply Forall_forall in Hd as [b' Hb']; [|exact Hb]. exists b'.
    unfold ccv_blob. by rewrite Hb'. }
  by exists enc, ccvs, data.
Qed.

Lemma transmit_args_refuses report :
  is_ok (MessageID (ReportMessage report)) = true →
  Forall (λ k, length k = 32%nat) (CCVS report) →
  Exists (λ b, gopt (convertVerifierBlobToEIP2098 b) = None) (CCVData report) →
  ∃ e, transmit_args report = GErr e.
Proof.
  intros Hid Hc Hx. unfold transmit_args, MustMessageID.
  pose proof (proj2 (MessageID_total _) Hid) as He.
  destruct (MessageID _) as [k|]; [|done]. destruct (EncodeMessage _) as [enc|]; [|done].
  edestruct (gimapM_succeeds ccv_strkey contract_key (CCVS report)) as (ccvs & -> & Hs).
  { intros j x Hx'. apply ccv_strkey_total. by eapply Forall_forall in Hc. }
  cbn [encoding_error of_result mbind gres_bind].
  assert (panics (gimapM ccv_blob (CCVData report)) = false) as Hn.
  { apply gimapM_no_panic. intros i b _. unfold ccv_blob. rewrite convert_equals_reference.
    unfold convert_reference. by repeat case_match. }
  destruct (gimapM ccv_blob (CCVData report)) as [data|e|m] eqn:E; [exfalso|by exists e|done].
  apply gimapM_from_Forall2 with (R := λ b _, is_Some (gopt (convertVerifierBlobToEIP2098 b))) in E.
  - apply Exists_exists in Hx as (b & Hb & Hbad). apply list_elem_of_lookup in Hb as [i Hb].
    destruct (Forall2_lookup_l _ _ _ _ _ E Hb) as (? & _ & [? Hgood]). congruence.
  - intros j b y _. unfold ccv_blob. destruct (convertVerifierBlobToEIP2098 b); cbn; [by eexists|done..].
Qed.

(** C12. The transmitter and the poller agree. A report whose message has an id, whose CCVs are
    32-byte contract ids and whose blobs convert is sent in one call of the OffRamp's execute;
    decoding that call's arguments gives back the message, the CCVs and the blobs as the
    EIP-2098 reference converts them, with gas limit 0. A report with a blob that does not
    convert is refused before any call. *)
Theorem transmit_then_poll {W} env n (w : W) offramp report :
  is_ok (MessageID (ReportMessage report)) = true →
  Forall (λ k, length k = 32%nat) (CCVS report) →
  (Forall (λ b, is_Some (gopt (convert_reference b))) (CCVData report) →
   ∃ args data,
     hrun env (ConvertAndWriteMessageToChain offramp report) n w =
       (Done (match env _ n (CInvoke offramp "execute" args) with
              | Ok _ => GVal tt
              | Err e => GErr ("failed to call execute: " +:+ e)
              end), [answered (CInvoke offramp "execute" args) (env _ n (CInvoke offramp "execute" args))], w) ∧
     Forall2 (λ b b', convert_reference b = GVal b') (CCVData report) data ∧
     Poller.decodeExecuteArgsToAttempt args =
       GVal (mkAttempt (mkReport (CCVS report) data (ReportMessage report)) 0)) ∧
  (Exists (λ b, gopt (convert_reference b) = None) (CCVData report) →
   ∃ e, hrun env (ConvertAndWriteMessageToChain offramp report) n w = (Done (GErr e), [], w)).
Proof.
  intros Hid Hc. split.
  - intros Hd. destruct (transmit_args_total report Hid Hc) as (enc & ccvs & data & Ha & He & Hs & Hds).
    { eapply Forall_impl; [exact Hd|]. intros b [b' Hb]. exists b'. rewrite convert_equals_reference.
      by destruct (convert_reference b); cbn in Hb; simplify_eq. }
    exists (OffRamp.execute_args enc ccvs data DefaultGasLimitOverride), data. split_and!.
    + unfold ConvertAndWriteMessageToChain. rewrite Ha. cbn.
      by destruct (env _ n _).
    + eapply Forall2_impl; [exact Hds|]. intros b b'. cbn beta. by rewrite convert_equals_reference.
    + unfold Poller.decodeExecuteArgsToAttempt, OffRamp.execute_args.
      rewrite (contract_keys_read _ _ Hs), (blobs_value data : ScVal.BytesVecFromScVal (ScVal.BytesSliceToScVal data) = GVal data). cbn.
      by rewrite (Decode_EncodeMessage _ _ He).
  - intros Hx. destruct (transmit_args_refuses report Hid Hc) as [e He].
    { eapply Exists_impl; [exact Hx|]. intros b Hb. by rewrite convert_equals_reference. }
    exists e. unfold ConvertAndWriteMessageToChain. by rewrite He.
Qed.
End transmit.

(** ** The destination reader *)

Section reader.
Import DestinationReader.

Lemma ccv_address_contract key s : contract_key key s → ccv_address s = GVal key.
Proof.
  intros [Hk He]. unfold ccv_address. by rewrite (ParseAddress_Encode _ _ _ Hk He).
Qed.
Lemma ccv_address_account key s : length key = 32%nat → Encode VersionByteAccountID key = Ok s →
  ∃ m, ccv_address s = GPanic m.
Proof.
  intros Hk He. unfold ccv_address. rewrite (ParseAddress_Encode _ _ _ Hk He). by eexists.
Qed.
Lemma ccv_addresses keys ss : Forall2 contract_key keys ss →
  gimapM (λ _ addr, ccv_address addr) ss = GVal keys.
Proof.
  intros Hs. unfold gimapM. generalize 0%nat as i.
  induction Hs as [|k s keys ss Hk Hs IH]; intros i; [done|]. cbn [gimapM_from].
  by rewrite (ccv_address_contract k s Hk), IH.
Qed.
Lemma ccv_addresses_panic keys ss s rest m : Forall2 contract_key keys ss →
  ccv_address s = GPanic m →
  gimapM (λ _ addr, ccv_address addr) (ss ++ s :: rest) = GPanic m.
Proof.
  intros Hs Hm. unfold gimapM. generalize 0%nat as i.
  induction Hs as [|k s' keys ss Hk Hs IH]; intros i; cbn [app gimapM_from]; [by rewrite Hm|].
  by rewrite (ccv_address_contract k s' Hk), IH.
Qed.

(** For a message, the reader asks the OffRamp once for the configuration of its source
    chain. The lane's mandated CCVs are the required ones and its default CCVs the optional
    ones, each by its contract id, in order, with threshold 1 exactly when there are optional
    ones. But the first CCV that is an account instead of a contract makes it panic. *)
Theorem ccvs_for_message_exact {W} (env : oracle) n (w : W) d msg v cfg mandated defaults :
  let query := CSimulate (offrampClient d) "get_source_chain_config"
                 [ScVal.Uint64ToScVal (uint64 (SourceChainSelector msg))] in
  env _ n query = Ok (Some v) → OffRamp.SourceChainConfigFromScVal v = GVal cfg →
  Forall2 contract_key mandated (OffRamp.LaneMandatedCcvs cfg) →
  (Forall2 contract_key defaults (OffRamp.DefaultCcvs cfg) →
   hrun env (GetCCVSForMessage d msg) n w =
     (Done (GVal (mkCCVAddressInfo mandated defaults (match defaults with [] => 0 | _ => 1 end))),
      [answered query (Ok (Some v))], w)) ∧
  (∀ ss key s rest, OffRamp.DefaultCcvs cfg = ss ++ s :: rest →
     (∃ keys, Forall2 contract_key keys ss) →
     length key = 32%nat → Encode VersionByteAccountID key = Ok s →
     ∃ m, hrun env (GetCCVSForMessage d msg) n w = (Panicked m, [answered query (Ok (Some v))], w)).
Proof.
  intros query Henv Hv Hm.
  assert (∀ x, ccv_info cfg = x → hrun env (GetCCVSForMessage d msg) n w =
    (match x with GVal i => Done (GVal i) | GErr e => Done (GErr e) | GPanic m => Panicked m end,
     [answered query (Ok (Some v))], w)) as Hrun.
  { intros x Hx. unfold GetCCVSForMessage, OffRamp.GetSourceChainConfig. cbn. fold query. rewrite Henv. cbn.
    rewrite Hv. cbn. rewrite Hx. by destruct x. }
  split.
  - intros Hd. rewrite (Hrun _ eq_refl). unfold ccv_info.
    rewrite (ccv_addresses _ _ Hm), (ccv_addresses _ _ Hd). cbn. by destruct defaults.
  - intros ss key s rest Hd [keys Hk] Hlen Hs. destruct (ccv_address_account _ _ Hlen Hs) as [m Ha].
    exists m. rewrite (Hrun _ eq_refl). unfold ccv_info. rewrite (ccv_addresses _ _ Hm), Hd.
    cbn [mbind gres_bind]. by rewrite (ccv_addresses_panic keys ss s rest m).
Qed.
End reader.
End props.
(** ** Witnesses *)

Import DemoCcv.

Definition demo_oracle (v : ScVal) : oracle (E := ccv_ext) := λ X n e,
  match e in ccv_ext X return X with
  | CNow => 0
  | CTick => false
  | CGetLatestLedger | CGetLedgers _ | CGetEvents _ | CGetTransaction _ => Err "unused"
  | CInvoke _ _ _ | CSimulate _ _ _ => Ok (Some v)
  end.
Definition demo_report : AbstractAggregatedReport :=
  mkReport [DemoXdr.key1] [[x01; x02]] demo_message.

Lemma transmit_then_poll_witness :
  ∃ args data,
    hrun (demo_oracle ScvVoid) (ConvertAndWriteMessageToChain "offramp" demo_report) 0 tt =
      (Done (GVal tt), [answered (CInvoke "offramp" "execute" args) (Ok (Some ScvVoid))], tt) ∧
    Forall2 (λ b b', convert_reference b = GVal b') [[x01; x02]] data ∧
    Poller.decodeExecuteArgsToAttempt args =
      GVal (mkAttempt (mkReport [DemoXdr.key1] data demo_message) 0).
Proof.
  exact (proj1 (transmit_then_poll (demo_oracle ScvVoid) 0 tt "offramp" demo_report eq_refl
    ltac:(by repeat constructor)) ltac:(repeat constructor; by eexists)).
Defined.

Definition demo_config : OffRamp.SourceChainConfig :=
  OffRamp.mkSourceChainConfig [demo_ccv] true [demo_ccv] [] demo_ccv.
Definition demo_config_value : ScVal :=
  match OffRamp.SourceChainConfig_ToScVal lane_keys demo_config with GVal v => v | _ => ScvVoid end.
Definition demo_reader : DestinationReader.DestinationReader :=
  DestinationReader.mkDestinationReader "offramp" "rmn" (Poller.mkPollerConfig "offramp" 1 1).

Lemma ccvs_for_message_exact_witness :
  hrun (demo_oracle demo_config_value) (DestinationReader.GetCCVSForMessage demo_reader demo_message) 0 tt =
    (Done (GVal (mkCCVAddressInfo [DemoXdr.key1] [DemoXdr.key1] 1)),
     [answered (CSimulate "offramp" "get_source_chain_config" [ScVal.Uint64ToScVal 7])
        (Ok (Some demo_config_value))], tt).
Proof.
  refine (proj1 (ccvs_for_message_exact (demo_oracle demo_config_value) 0 tt demo_reader demo_message
    demo_config_value demo_config [DemoXdr.key1] [DemoXdr.key1] eq_refl _ _) _);
    [vm_compute; reflexivity|by repeat constructor|by repeat constructor].
Defined.
End CcvProps.
