(* ===== verification/Codec.v ===== *)
(** What the generated bindings do: the semantics of the code that [bindings/generator]
    emits, for a contract given as the generator parses it.

    The generated files of a contract ([bindings/contracts/<pkg>/types.go] and [client.go])
    are instances of a handful of templates. The data of a contract (structs, enums, events
    and functions, with their fields and Rust types) are the records of [parser.go]; a
    template is a definition on those data, and says what the code it emits does when it
    runs. [Contracts] has the data of every contract. A Go struct is the list of its fields'
    values, in order; a pointer to a variant of an enum is an option. *)

From Stdlib Require Import Strings.Byte Ascii.
From stdpp Require Import base gmap list strings pretty.
From S2P Require Import Prelude GoStrings Prog Xdr ScVal GoBytes TypeConverters Ccv Bindings.
Import Xdr.

Local Open Scope Z_scope.

(** ** The data of a contract *)

(** A Rust type that the interfaces use; [RNamed] is a struct or an enum. *)
Inductive rty :=
| U64 | U32 | U128 | I128 | RBool | RAddress | RBytes | RString | RSymbol
| RBytesN (n : nat)
| ROption (t : rty)
| RVec (t : rty)
| RNamed (name : string).
#[export] Instance rty_eq_dec : EqDecision rty.
Proof. solve_decision. Defined.

(** [Field]: a name and a type; the positions of a tuple have no names. *)
Record Field := mkField { fieldName : string; fieldType : rty }.
Record Struct := mkStruct { structName : string; structFields : list Field }.
Inductive EnumVariantKind := EnumVariantUnit | EnumVariantTuple | EnumVariantStruct.
#[export] Instance kind_eq_dec : EqDecision EnumVariantKind.
Proof. solve_decision. Defined.
Record EnumVariant := mkVariant {
  variantName : string;
  Kind : EnumVariantKind;
  Value : Z;
  Payload : list Field
}.
Record Enum := mkEnum { enumName : string; Variants : list EnumVariant }.
Definition IsUnit (e : Enum) : bool :=
  forallb (λ v, bool_decide (Kind v = EnumVariantUnit)) (Variants e).
Record ErrorEnum := mkErrorEnum { errorName : string; ErrorVariants : list (string * Z) }.
Record Event := mkEvent { eventName : string; Topics : list string; eventFields : list Field }.
(** [Returns]: the type inside [Result], if it is one; [None] is a unit. *)
Inductive Return := RetVoid | RetType (t : rty) | RetTuple (ts : list rty).
Record Function := mkFunction { functionName : string; Inputs : list Field; Returns : Return }.
(** [Types]: the structs and the enums, each after those that it mentions. *)
Inductive TypeDecl := TStruct (s : Struct) | TEnum (e : Enum).
Record Contract := mkContract {
  contractName : string;
  Types : list TypeDecl;
  Functions : list Function;
  Errors : list ErrorEnum;
  Events : list Event
}.

(** ** Go values *)

(** Numbers of any width, texts (also addresses), byte slices and arrays, [*string], slices,
    structs, enums with one pointer per variant, and a pointer to a struct. *)
Inductive value :=
| VNum (z : Z)
| VBool (b : bool)
| VString (s : string)
| VBytes (b : bytes)
| VU128 (p : UInt128Parts)
| VOptString (s : option string)
| VSlice (l : list value)
| VStruct (fields : list value)
| VUnion (variants : list (option (list value)))
| VPtr (p : option value).

(** [ToScVal], [FromScVal] and the zero value of a generated type, and whether it is a
    struct. *)
Record codec := mkCodec {
  toScVal : value → gres ScVal;
  fromScVal : ScVal → gres value;
  zeroValue : value;
  isStruct : bool
}.

(** Code that does not compile, or a value of another Go type. *)
Definition ill_typed {A} : gres A := GPanic "does not compile".

(** ** Error codes *)

(** [camelToSpaces]: a space before each upper-case letter but the first, in lower case. *)
Definition is_upper (c : ascii) : bool := ((65 <=? N_of_ascii c) && (N_of_ascii c <=? 90))%N.
Fixpoint spaced (first : bool) (s : string) : string :=
  match s with
  | EmptyString => EmptyString
  | String c s' =>
      let rest := String c (spaced false s') in
      if negb first && is_upper c then String " " rest else rest
  end.
Definition camelToSpaces `{UnicodeTables} (s : string) : string := ToLower (spaced true s).
(** The map from the codes to the messages. *)
Definition error_message `{UnicodeTables} (e : ErrorEnum) (code : Z) : option string :=
  option_map (λ '(_, (name, _)), camelToSpaces name) (list_find (λ v, snd v = code) (ErrorVariants e)).

(** [switch string(key) { case "<field>": ... }] on the fields of a struct: [read] makes the
    field's value, from the one that it had. *)
Fixpoint fields_switch (read : Field → value → gres value) (fields : list Field) (key : string)
    (vs : list value) : gres (list value) :=
  match fields, vs with
  | f :: fields', x :: vs' =>
      if decide (key = fieldName f) then x' ← read f x; GVal (x' :: vs')
      else (x ::.) <$> fields_switch read fields' key vs'
  | _, _ => GVal vs
  end.

Section codec.
Context {UT : UnicodeTables} {XS : XdrSdk}.

(** ** Encoding *)

(** The slices of one Go type. *)
Definition nums_of (l : list value) : option (list Z) :=
  mapM (λ v, match v with VNum z => Some z | _ => None end) l.
Definition strings_of (l : list value) : option (list string) :=
  mapM (λ v, match v with VString s => Some s | _ => None end) l.
Definition blobs_of (l : list value) : option (list bytes) :=
  mapM (λ v, match v with VBytes b => Some b | _ => None end) l.
Definition slice {A} (f : A → ScVal) (l : option A) : gres ScVal :=
  match l with Some l => GVal (f l) | None => ill_typed end.

(** [env]: the types of the package. *)
Section types.
Context (env : string → option codec).

Definition named_to (name : string) (v : value) : gres ScVal :=
  match env name with Some c => toScVal c v | None => ill_typed end.
Definition named_from (name : string) (v : ScVal) : gres value :=
  match env name with Some c => fromScVal c v | None => ill_typed end.

(** The helpers of [scval] exist for three sizes. *)
Definition has_size (n : nat) : bool := bool_decide (n ∈ [4; 16; 32]%nat).

(** The emitted conversion of a field or an argument of type [t]. *)
Definition to_field (t : rty) (v : value) : gres ScVal :=
  match t, v with
  | U64, VNum z => GVal (ScVal.Uint64ToScVal z)
  | U32, VNum z => GVal (ScVal.Uint32ToScVal z)
  | U128, VU128 p => ScVal.MustToScVal (ScVal.ToScVal p)
  | I128, VNum z => GVal (ScVal.I128ToScVal z)
  | RBool, VBool b => GVal (ScVal.BoolToScVal b)
  | RAddress, VString s => GVal (ScVal.AddressToScVal s)
  | RBytes, VBytes b => GVal (ScVal.BytesToScVal b)
  | RString, VString s => GVal (ScVal.StringToScVal s)
  | RSymbol, VString s => GVal (ScVal.SymbolToScVal s)
  | ROption RAddress, VOptString o => GVal (ScVal.OptionalAddressToScVal o)
  | RBytesN n, VBytes b => if has_size n then GVal (ScVal.BytesToScVal b) else ill_typed
  | RVec U64, VSlice l => slice ScVal.Uint64SliceToScVal (nums_of l)
  | RVec U32, VSlice l => slice ScVal.Uint32SliceToScVal (nums_of l)
  | RVec RAddress, VSlice l => slice ScVal.AddressSliceToScVal (strings_of l)
  | RVec RBytes, VSlice l => slice ScVal.BytesSliceToScVal (blobs_of l)
  | RVec (RBytesN n), VSlice l =>
      if has_size n then slice ScVal.BytesSliceToScVal (blobs_of l) else ill_typed
  | RVec U128, VSlice l =>
      ScVal.StructSliceToScVal (λ v, match v with VU128 p => ScVal.ToScVal p | _ => ill_typed end) l
  | RVec (RNamed name), VSlice l => ScVal.StructSliceToScVal (named_to name) l
  | RNamed name, v => ScVal.MustToScVal (named_to name v)
  | _, _ => ill_typed
  end.

(** ** Decoding *)

Definition fixed_from (n : nat) (v : ScVal) : gres value :=
  if has_size n then VBytes <$> ScVal.fixed_bytes n v else ill_typed.

(** An item of a vector. *)
Definition from_item (t : rty) (item : ScVal) : gres value :=
  match t with
  | U64 => VNum <$> ScVal.Uint64FromScVal item
  | U32 => VNum <$> ScVal.Uint32FromScVal item
  | RAddress => VString <$> ScVal.AddressFromScVal item
  | RBytes => b ← GetBytes item; VBytes <$> nonnil "vec item is not bytes" b
  | RString => VString <$> ScVal.StringFromScVal item
  | U128 => VU128 <$> ScVal.U128FromScVal item
  | ROption RAddress => VOptString <$> ScVal.OptionalAddressFromScVal item
  | RBytesN n => fixed_from n item
  | RNamed name => named_from name item
  | _ => ill_typed
  end.

(** A field of a struct; [name] is in the text of its errors. *)
Definition from_field (name : string) (t : rty) (v : ScVal) : gres value :=
  match t with
  | U64 => VNum <$> gwrap name (ScVal.Uint64FromScVal v)
  | U32 => x ← GetU32 v; VNum <$> nonnil (name +:+ " is not u32") x
  | I128 => VNum <$> gwrap name (ScVal.I128FromScVal v)
  | RBool => x ← GetB v; VBool <$> nonnil (name +:+ " is not bool") x
  | RAddress => VString <$> gwrap name (ScVal.AddressFromScVal v)
  | RBytes => x ← GetBytes v; VBytes <$> nonnil (name +:+ " is not bytes") x
  | RString => VString <$> gwrap name (ScVal.StringFromScVal v)
  | RSymbol => VString <$> gwrap name (ScVal.SymbolFromScVal v)
  | U128 => VU128 <$> gwrap name (ScVal.U128FromScVal v)
  | ROption RAddress => VOptString <$> gwrap name (ScVal.OptionalAddressFromScVal v)
  | RBytesN n => gwrap name (fixed_from n v)
  | RVec t' => l ← got_vec (name +:+ " is not a vec") v; VSlice <$> gimapM (λ _, from_item t') l
  | RNamed n => gwrap name (named_from n v)
  | _ => ill_typed
  end.

(** An element of a variant's payload; [ctx] is in the text of its errors. *)
Definition from_payload (ctx : string) (t : rty) (v : ScVal) : gres value :=
  match t with
  | U32 => x ← GetU32 v; VNum <$> nonnil (ctx +:+ ": expected u32") x
  | U64 => VNum <$> gwrap ctx (ScVal.Uint64FromScVal v)
  | I128 => VNum <$> gwrap ctx (ScVal.I128FromScVal v)
  | U128 => VU128 <$> gwrap ctx (ScVal.U128FromScVal v)
  | RBool => x ← GetB v; VBool <$> nonnil (ctx +:+ ": expected bool") x
  | RAddress => VString <$> gwrap ctx (ScVal.AddressFromScVal v)
  | RBytes => x ← GetBytes v; VBytes <$> nonnil (ctx +:+ ": expected bytes") x
  | RString => VString <$> gwrap ctx (ScVal.StringFromScVal v)
  | RSymbol => VString <$> gwrap ctx (ScVal.SymbolFromScVal v)
  | RBytesN n => gwrap ctx (fixed_from n v)
  | RNamed n => gwrap ctx (named_from n v)
  | _ => ill_typed
  end.

(** The zero value of a Go type. *)
Definition zero_of (t : rty) : value :=
  match t with
  | U64 | U32 | I128 => VNum 0
  | U128 => VU128 (mkUInt128Parts 0 0)
  | RBool => VBool false
  | RAddress | RString | RSymbol => VString ""
  | RBytes => VBytes []
  | RBytesN n => VBytes (replicate n x00)
  | ROption _ => VOptString None
  | RVec _ => VSlice []
  | RNamed name => match env name with Some c => zeroValue c | None => VNum 0 end
  end.

(** ** A struct *)

(** [enumerate]: the order in which [range] enumerates a map's keys. *)
Context (enumerate : list string → list string).

Fixpoint struct_fields (fields : list Field) (vs : list value) : gres (gmap string ScVal) :=
  match fields, vs with
  | [], [] => GVal ∅
  | f :: fields', v :: vs' =>
      x ← to_field (fieldType f) v; m ← struct_fields fields' vs'; GVal (<[fieldName f := x]> m)
  | _, _ => ill_typed
  end.
Definition struct_to (s : Struct) (v : value) : gres ScVal :=
  match v with
  | VStruct vs =>
      m ← struct_fields (structFields s) vs;
      ScVal.BuildStructScVal (enumerate (fieldName <$> structFields s)) m
  | _ => ill_typed
  end.
(** The [switch] on the key: the field that it names is read. *)
Definition struct_switch (fields : list Field) (key : string) (v : ScVal) (vs : list value)
  : gres (list value) :=
  fields_switch (λ f _, from_field (fieldName f) (fieldType f) v) fields key vs.
Definition struct_zero (fields : list Field) : list value := zero_of ∘ fieldType <$> fields.
Definition struct_from (s : Struct) (val : ScVal) : gres value :=
  scMap ← got_map "not a map type" val;
  VStruct <$> for_entries (struct_switch (structFields s)) scMap (struct_zero (structFields s)).
Definition struct_codec (s : Struct) : codec :=
  mkCodec (struct_to s) (struct_from s) (VStruct (struct_zero (structFields s))) true.

(** ** An enum *)

(** With units only: a [uint32]. *)
Definition unit_codec (e : Enum) : codec := mkCodec
  (λ v, match v with VNum z => GVal (ScVal.Uint32ToScVal (uint32 z)) | _ => ill_typed end)
  (λ val, v ← GetU32 val; VNum <$> nonnil ("expected u32 for " +:+ enumName e +:+ " enum") v)
  (VNum 0) false.

(** With payloads: the pointers that are set are counted; the first one is encoded. *)
Definition set_count (vs : list (option (list value))) : nat := length (filter is_Some vs).
Fixpoint payload_to (fields : list Field) (vs : list value) : gres (list ScVal) :=
  match fields, vs with
  | [], [] => GVal []
  | f :: fields', v :: vs' => x ← to_field (fieldType f) v; xs ← payload_to fields' vs'; GVal (x :: xs)
  | _, _ => ill_typed
  end.
Fixpoint first_set (e : string) (variants : list EnumVariant) (vs : list (option (list value)))
  : gres ScVal :=
  match variants, vs with
  | v :: variants', p :: vs' =>
      match p with
      | Some payload =>
          items ← payload_to (Payload v) payload;
          GVal (ScVal.VecToScVal (ScVal.SymbolToScVal (variantName v) :: items))
      | None => first_set e variants' vs'
      end
  | _, _ => GErr (e +:+ ": unreachable")
  end.
Definition union_to (e : Enum) (v : value) : gres ScVal :=
  match v with
  | VUnion vs =>
      if negb (length vs =? length (Variants e))%nat then ill_typed
      else if negb (set_count vs =? 1)%nat
      then GErr (enumName e +:+ ": expected exactly one variant set, got " +:+ pretty (set_count vs))
      else first_set (enumName e) (Variants e) vs
  | _ => ill_typed
  end.

(** The payload's elements, one after the other, with their contexts. *)
Definition payload_context (e : string) (v : EnumVariant) (i : nat) (f : Field) : string :=
  e +:+ "::" +:+ variantName v +:+
    match Kind v with
    | EnumVariantStruct => "." +:+ fieldName f
    | _ => "[" +:+ pretty i +:+ "]"
    end.
Fixpoint payload_from (e : string) (v : EnumVariant) (i : nat) (fields : list Field) (l : list ScVal)
  : gres (list value) :=
  match fields, l with
  | f :: fields', x :: l' =>
      y ← from_payload (payload_context e v i f) (fieldType f) x;
      ys ← payload_from e v (S i) fields' l'; GVal (y :: ys)
  | _, _ => GVal []
  end.
(** The pointer to one variant's payload among [n]. *)
Definition only (n i : nat) (payload : list value) : value :=
  VUnion (<[i := Some payload]> (replicate n None)).
(** The [switch] on the tag; [i] counts the variants passed, of [n]. *)
Fixpoint union_switch (e : string) (n i : nat) (variants : list EnumVariant) (tag : string)
    (rest : list ScVal) : gres value :=
  match variants with
  | [] => GErr (e +:+ ": unknown variant " +:+ Quote tag)
  | v :: variants' =>
      if decide (tag = variantName v) then
        if negb (length rest =? length (Payload v))%nat
        then GErr (e +:+ "::" +:+ variantName v +:+ ": expected " +:+ pretty (S (length (Payload v))) +:+
                     " elements, got " +:+ pretty (S (length rest)))
        else only n i <$> payload_from e v 0 (Payload v) rest
      else union_switch e n (S i) variants' tag rest
  end.
(** An empty vector, which the decoder leaves nil, is not a vector. *)
Definition union_from (e : Enum) (val : ScVal) : gres value :=
  vec ← got_vec ("expected vec for " +:+ enumName e +:+ " enum") val;
  match vec with
  | [] => GErr ("expected vec for " +:+ enumName e +:+ " enum")
  | t :: rest =>
      tag ← gwrap (enumName e +:+ ": variant tag") (ScVal.SymbolFromScVal t);
      union_switch (enumName e) (length (Variants e)) 0 (Variants e) tag rest
  end.
Definition union_codec (e : Enum) : codec :=
  mkCodec (union_to e) (union_from e) (VUnion (replicate (length (Variants e)) None)) false.

Definition enum_codec (e : Enum) : codec := if IsUnit e then unit_codec e else union_codec e.
Definition decl_codec (d : TypeDecl) : codec :=
  match d with TStruct s => struct_codec s | TEnum e => enum_codec e end.
End types.

(** The types of a package, each in those before it. *)
Definition decl_name (d : TypeDecl) : string :=
  match d with TStruct s => structName s | TEnum e => enumName e end.
Fixpoint types_rev (enumerate : list string → list string) (ds : list TypeDecl) (name : string)
  : option codec :=
  match ds with
  | [] => None
  | d :: ds' =>
      if decide (name = decl_name d) then Some (decl_codec (types_rev enumerate ds') enumerate d)
      else types_rev enumerate ds' name
  end.
Definition package (enumerate : list string → list string) (c : Contract) : string → option codec :=
  types_rev enumerate (rev (Types c)).

(** ** An event *)

Section event.
Context (env : string → option codec).

(** The items of a slice: those that do not decode are left zero, or, in a slice of structs,
    left out. *)
Definition event_item (t : rty) (item : ScVal) : gres (option value) :=
  match t with
  | RBytes => b ← GetBytes item; GVal (option_map VBytes b)
  | RAddress | ROption RAddress | RBytesN _ | RNamed _ => gtry (from_item env t item)
  | _ => ill_typed
  end.
Definition leaves_out (t : rty) : bool :=
  match t with
  | RNamed n => match env n with Some c => isStruct c | None => false end
  | _ => false
  end.
Definition event_slice (t : rty) (l : list ScVal) : gres value :=
  items ← gimapM (λ _, event_item t) l;
  GVal (VSlice (if leaves_out t then omap id items else default (zero_of env t) <$> items)).
(** A field that does not decode keeps what it had. *)
Definition event_field (t : rty) (old : value) (v : ScVal) : gres value :=
  match t with
  | U32 => x ← GetU32 v; GVal (default old (option_map VNum x))
  | RBool => x ← GetB v; GVal (default old (option_map VBool x))
  | RBytes => x ← GetBytes v; GVal (default old (option_map VBytes x))
  | RVec t' =>
      r ← GetVec v;
      match r with Some (Some l) => event_slice t' l | _ => GVal old end
  | RString => ill_typed
  | _ => x ← gtry (from_field env "" t v); GVal (default old x)
  end.
Definition event_switch (fields : list Field) (key : string) (v : ScVal) (vs : list value)
  : gres (list value) :=
  fields_switch (λ f old, event_field (fieldType f) old v) fields key vs.
(** The event's fields, then its ledger and transaction. *)
Definition ParseEvent (ev : Event) (e : TypeConverters.protocol_EventInfo) : gres (list value * Z * string) :=
  eventVal ← gwrap "failed to decode event" (of_result (UnmarshalScVal (TypeConverters.peValueXDR e)));
  scMap ← got_map "event is not a map" eventVal;
  vs ← for_entries (event_switch (eventFields ev)) scMap (struct_zero env (eventFields ev));
  GVal (vs, uint32 (TypeConverters.peLedger e), TypeConverters.peTransactionHash e).
End event.
End codec.
