(* ===== verification/CodecProps.v ===== *)
(** The generated types survive the wire: for any package whose types are supported, what
    [ToScVal] writes [FromScVal] reads back, and no reader panics on a value off the wire. *)

From Stdlib Require Import Strings.Byte.
From stdpp Require Import base gmap list sorting strings pretty.
From S2P Require Import Prelude GoStrings Prog Xdr ScVal GoBytes ScValProps TypeConverters Ccv.
From S2P Require Import Bindings BindingsProps Codec.
Import Xdr ScValProps BindingsProps.

Local Open Scope Z_scope.

Module CodecProps.

(** ** Which types are supported *)

(** [known]: the types declared before. *)
Section supported.
Context (known : string → bool).

Definition item_ok (t : rty) : bool :=
  match t with
  | U64 | U32 | U128 | RAddress | RBytes => true
  | RBytesN n => has_size n
  | RNamed n => known n
  | _ => false
  end.
Definition payload_ok (t : rty) : bool :=
  match t with
  | RVec _ | ROption _ => false
  | RBytesN n => has_size n
  | RNamed n => known n
  | _ => true
  end.
Definition field_ok (t : rty) : bool :=
  match t with
  | ROption RAddress => true
  | RVec t' => item_ok t'
  | _ => payload_ok t
  end.
Definition decl_ok (d : TypeDecl) : bool :=
  match d with
  | TStruct s =>
      forallb (field_ok ∘ fieldType) (structFields s) &&
      bool_decide (NoDup (fieldName <$> structFields s))
  | TEnum e =>
      forallb (λ v, forallb (payload_ok ∘ fieldType) (Payload v)) (Variants e) &&
      bool_decide (NoDup (variantName <$> Variants e))
  end.
End supported.

Definition declared (ds : list TypeDecl) (name : string) : bool := bool_decide (name ∈ decl_name <$> ds).
Fixpoint types_ok (ds : list TypeDecl) : bool :=
  match ds with
  | [] => true
  | d :: ds' => negb (declared ds' (decl_name d)) && decl_ok (declared ds') d && types_ok ds'
  end.
Definition package_ok (c : Contract) : bool := types_ok (rev (Types c)).

(** ** Values of a Go type *)

Section typed.
Context {XS : XdrSdk}.

Section values.
Context (named : string → value → Prop).
Definition scalar_typed (t : rty) (v : value) : Prop :=
  match t, v with
  | U64, VNum z => is_uint64 z = true
  | U32, VNum z => is_uint32 z = true
  | I128, VNum z => is_int64 z = true
  | U128, VU128 _ | RBool, VBool _ | RBytes, VBytes _ | RString, VString _ | RSymbol, VString _ => True
  | RAddress, VString s => is_strkey s
  | ROption RAddress, VOptString o => match o with Some s => is_strkey s | None => True end
  | RBytesN n, VBytes b => length b = n
  | RNamed name, v => named name v
  | _, _ => False
  end.
Definition typed (t : rty) (v : value) : Prop :=
  match t, v with
  | RVec t', VSlice l => Forall (scalar_typed t') l
  | RVec _, _ => False
  | _, _ => scalar_typed t v
  end.
Definition fields_typed (fields : list Field) (vs : list value) : Prop :=
  Forall2 (λ f v, typed (fieldType f) v) fields vs.
(** An enum with payloads has one pointer set, to a payload of that variant. *)
Definition decl_typed (d : TypeDecl) (v : value) : Prop :=
  match d with
  | TStruct s => ∃ vs, v = VStruct vs ∧ fields_typed (structFields s) vs
  | TEnum e =>
      if IsUnit e then ∃ z, v = VNum z ∧ is_uint32 z = true
      else ∃ i var vs, Variants e !! i = Some var ∧ fields_typed (Payload var) vs ∧
             v = only (length (Variants e)) i vs
  end.
End values.

Fixpoint value_typed (ds : list TypeDecl) (name : string) (v : value) : Prop :=
  match ds with
  | [] => False
  | d :: ds' => if decide (name = decl_name d) then decl_typed (value_typed ds') d v else value_typed ds' name v
  end.
End typed.

(** ** The round trip *)

Section roundtrip.
Context {UT : UnicodeTables} {XS : XdrSdk} {XL : XdrLaws}.

Definition roundtrips (c : codec) (v : value) : Prop :=
  ∃ sc, toScVal c v = GVal sc ∧ fromScVal c sc = GVal v.

Section env.
Context (env : string → option codec) (named : string → value → Prop) (known : string → bool).
Context (Henv : ∀ n v, known n = true → named n v → ∃ c, env n = Some c ∧ roundtrips c v).

Lemma fixed_from_id n b : has_size n = true → length b = n →
  fixed_from n (ScvBytes (Some b)) = GVal (VBytes b).
Proof.
  intros Hs Hl. unfold fixed_from. rewrite Hs.
  by rewrite (proj2 (fixed_bytes_exact n (ScvBytes (Some b)) b)).
Qed.

Lemma named_roundtrip n v : known n = true → named n v →
  ∃ sc, named_to env n v = GVal sc ∧ named_from env n sc = GVal v.
Proof.
  intros Hk Hv. destruct (Henv n v Hk Hv) as (c & Hc & sc & Ht & Hf).
  exists sc. unfold named_to, named_from. by rewrite Hc.
Qed.

(** *** Slices *)

Lemma gimapM_back {A} (f : nat → ScVal → gres A) l scs :
  Forall2 (λ v sc, ∀ i, f i sc = GVal v) l scs → gimapM f scs = GVal l.
Proof.
  unfold gimapM. generalize 0%nat. intros i Hl. revert i.
  induction Hl as [|v sc l scs Hv _ IH]; intros i; [done|]. cbn [gimapM_from]. rewrite Hv. cbn [mbind gres_bind].
  by rewrite IH.
Qed.
Lemma items_back t l scs : Forall2 (λ v sc, from_item env t sc = GVal v) l scs →
  gimapM (λ _, from_item env t) scs = GVal l.
Proof. intros Hl. apply gimapM_back. eapply Forall2_impl; [exact Hl|]. by intros v sc Hv _. Qed.

(** A slice whose elements are [inj] of something is converted element by element. *)
Lemma slice_roundtrip {A} (inj : A → value) (proj : value → option A) (f : A → ScVal) t l :
  (∀ a, proj (inj a) = Some a) → (∀ v, scalar_typed named t v → ∃ a, v = inj a) →
  (∀ v a, scalar_typed named t v → v = inj a → from_item env t (f a) = GVal v) →
  Forall (scalar_typed named t) l →
  ∃ xs, mapM proj l = Some xs ∧ Forall2 (λ v sc, from_item env t sc = GVal v) l (f <$> xs).
Proof.
  intros Hp Hi Hf Hl. induction Hl as [|v l Hv Hl (xs & Hx & IH)]; [exists []; split; [done|constructor]|].
  destruct (Hi v Hv) as [a ->]. exists (a :: xs). split.
  - cbn. rewrite Hp. cbn. by rewrite Hx.
  - constructor; [|done]. by apply Hf.
Qed.

Lemma struct_slice_roundtrip (to : value → gres ScVal) t l :
  (∀ v, scalar_typed named t v → ∃ sc, to v = GVal sc ∧ from_item env t sc = GVal v) →
  Forall (scalar_typed named t) l →
  ∃ scs, ScVal.StructSliceToScVal to l = GVal (ScVal.VecToScVal scs) ∧
    Forall2 (λ v sc, from_item env t sc = GVal v) l scs.
Proof.
  intros Hto Hl. rewrite Forall_forall in Hl.
  destruct (gimapM_succeeds (λ _ : nat, λ item, ScVal.MustToScVal (to item)) (λ v sc, from_item env t sc = GVal v) l)
    as (scs & Hs & Hf).
  { intros _ v Hv. destruct (Hto v (Hl v Hv)) as (sc & Hsc & Hb). exists sc. by rewrite Hsc. }
  exists scs. unfold ScVal.StructSliceToScVal. by rewrite Hs.
Qed.

Lemma address_item s : is_strkey s → from_item env RAddress (ScVal.AddressToScVal s) = GVal (VString s).
Proof. intros Hs. cbn [from_item]. by rewrite address_there_and_back. Qed.

(** What a vector of supported items becomes. *)
Lemma vec_roundtrip t l : item_ok known t = true → Forall (scalar_typed named t) l →
  ∃ scs, to_field env (RVec t) (VSlice l) = GVal (ScVal.VecToScVal scs) ∧
    Forall2 (λ v sc, from_item env t sc = GVal v) l scs.
Proof.
  intros Ht Hl. destruct t as [| | | | | | | | |n| | |n]; try done; cbn [to_field].
  - destruct (slice_roundtrip VNum (λ v, match v with VNum z => Some z | _ => None end) ScVal.Uint64ToScVal U64 l)
      as (xs & Hx & Hxs); try done.
    { intros []; try done. by eexists. }
    { by intros v a _ ->. }
    unfold nums_of. rewrite Hx. by eexists.
  - destruct (slice_roundtrip VNum (λ v, match v with VNum z => Some z | _ => None end) ScVal.Uint32ToScVal U32 l)
      as (xs & Hx & Hxs); try done.
    { intros []; try done. by eexists. }
    { by intros v a _ ->. }
    unfold nums_of. rewrite Hx. by eexists.
  - apply struct_slice_roundtrip; [|done]. intros []; try done. intros _. by eexists.
  - destruct (slice_roundtrip VString (λ v, match v with VString z => Some z | _ => None end)
      ScVal.AddressToScVal RAddress l) as (xs & Hx & Hxs); try done.
    { intros []; try done. by eexists. }
    { intros v a Hv ->. by apply address_item. }
    unfold strings_of. rewrite Hx. by eexists.
  - destruct (slice_roundtrip VBytes (λ v, match v with VBytes z => Some z | _ => None end)
      ScVal.BytesToScVal RBytes l) as (xs & Hx & Hxs); try done.
    { intros []; try done. by eexists. }
    { by intros v a _ ->. }
    unfold blobs_of. rewrite Hx. by eexists.
  - destruct (slice_roundtrip VBytes (λ v, match v with VBytes z => Some z | _ => None end)
      ScVal.BytesToScVal (RBytesN n) l) as (xs & Hx & Hxs); try done.
    { intros []; try done. by eexists. }
    { intros v a Hv ->. cbn [from_item]. by apply fixed_from_id. }
    cbn in Ht. rewrite Ht. unfold blobs_of. rewrite Hx. by eexists.
  - apply struct_slice_roundtrip; [|done]. intros v Hv. by apply named_roundtrip.
Qed.

(** *** Fields and payloads *)

Lemma payload_roundtrip t v : payload_ok known t = true → typed named t v →
  ∃ sc, to_field env t v = GVal sc ∧ ∀ ctx, from_payload env ctx t sc = GVal v.
Proof.
  intros Ht Hv. destruct t as [| | | | | | | | |n|t|t|n]; try done.
  all: try (destruct v; try done; by eexists).
  - destruct v as [z| | | | | | | | |]; try done. exists (ScVal.I128ToScVal z). split; [done|]. intros ctx. cbn.
    by rewrite int64_uint64.
  - destruct v as [| |s| | | | | | |]; try done. exists (ScVal.AddressToScVal s). split; [done|]. intros ctx.
    cbn [from_payload]. by rewrite address_there_and_back.
  - destruct v as [| | |b| | | | | |]; try done. exists (ScVal.BytesToScVal b). cbn in Ht, Hv. cbn [to_field from_payload].
    rewrite Ht. split; [done|]. intros ctx.
    unfold ScVal.BytesToScVal. by rewrite fixed_from_id by done.
  - destruct (named_roundtrip n v) as (sc & Hsc & Hb); [done..|]. exists sc. cbn [from_payload].
    split; [|by rewrite Hb]. destruct v; cbn [to_field]; by rewrite Hsc.
Qed.

Lemma field_roundtrip t v : field_ok known t = true → typed named t v →
  ∃ sc, to_field env t v = GVal sc ∧ ∀ name, from_field env name t sc = GVal v.
Proof.
  intros Ht Hv. destruct t as [| | | | | | | | |n|t|t|n].
  12: { destruct v as [| | | | | |l| | |]; try done. destruct (vec_roundtrip t l) as (scs & Hs & Hb); [done..|].
        exists (ScVal.VecToScVal scs). split; [done|]. intros name.
        cbn [from_field ScVal.VecToScVal got_vec GetVec arm deref fmap gres_fmap mbind gres_bind].
        by rewrite (items_back t l scs). }
  11: { destruct t; try done. destruct v as [| | | | |[s|]| | | |]; try done.
        - exists (ScVal.AddressToScVal s). split; [done|]. intros name. cbn [from_field].
          change (ScVal.OptionalAddressFromScVal (ScVal.AddressToScVal s))
            with (a ← ScVal.AddressFromScVal (ScVal.AddressToScVal s); GVal (Some a)).
          by rewrite address_there_and_back.
        - by exists ScvVoid. }
  all: destruct (payload_roundtrip _ v Ht Hv) as (sc & Hsc & Hb); exists sc; split; [done|].
  all: intros name; specialize (Hb name); cbn [from_payload from_field] in Hb |- *; try done.
  all: cbn in Hv; destruct v; try done; by injection Hsc as <-.
Qed.

(** *** Structs *)

Context (enumerate : list string → list string) (Hperm : ∀ l, enumerate l ≡ₚ l).

Lemma NoDup_index {A B} (f : A → B) (l : list A) i j x y :
  NoDup (f <$> l) → l !! i = Some x → l !! j = Some y → f x = f y → i = j.
Proof.
  intros Hnd Hx Hy E. eapply NoDup_lookup; [exact Hnd|by rewrite list_lookup_fmap, Hx|].
  by rewrite list_lookup_fmap, Hy; cbn; rewrite E.
Qed.

(** The map of the fields holds every field's value, and nothing else. *)
Definition encodes (fields : list Field) (vs : list value) (kvs : list (string * ScVal)) : Prop :=
  kvs.*1 = fieldName <$> fields ∧
  ∀ k sc, (k, sc) ∈ kvs → ∃ i f v, fields !! i = Some f ∧ vs !! i = Some v ∧ fieldName f = k ∧
    from_field env k (fieldType f) sc = GVal v.

Lemma struct_fields_spec fields vs :
  forallb (field_ok known ∘ fieldType) fields = true → fields_typed named fields vs →
  ∃ kvs, struct_fields env fields vs = GVal (list_to_map kvs) ∧ encodes fields vs kvs.
Proof.
  intros Hok Hv. induction Hv as [|f v fields vs Hf Hv IH]; [exists []; split; [done|split; [done|set_solver]]|].
  cbn [forallb] in Hok. apply andb_true_iff in Hok as [Hokf Hok].
  destruct (field_roundtrip (fieldType f) v) as (sc & Hsc & Hb); [done..|].
  destruct (IH Hok) as (kvs & Hk & Hks & He). exists ((fieldName f, sc) :: kvs).
  cbn [struct_fields]. rewrite Hsc. cbn [mbind gres_bind]. rewrite Hk. split; [done|]. split; [cbn; by rewrite Hks|].
  intros k sc' [[= -> ->]|Hin]%elem_of_cons.
  - exists 0%nat, f, v. by repeat split.
  - destruct (He k sc' Hin) as (i & f' & v' & ?). by exists (S i), f', v'.
Qed.

(** Whatever the order of the entries, when the loop ends every field is set. [read]: what a
    field becomes on an entry's value. *)
Section loop.
Context (read : ScVal → Field → value → gres value).

Lemma fields_switch_hit fields i f sc v vs :
  NoDup (fieldName <$> fields) → fields !! i = Some f → length vs = length fields →
  (∀ old, read sc f old = GVal v) →
  fields_switch (read sc) fields (fieldName f) vs = GVal (<[i:=v]> vs).
Proof.
  revert i vs. induction fields as [|g fields IH]; intros i vs Hnd Hi Hl Hv; [done|].
  destruct vs as [|x vs]; [done|]. cbn [fields_switch]. destruct i as [|i].
  - injection Hi as ->. rewrite decide_True by done. by rewrite Hv.
  - cbn in Hi. rewrite decide_False.
    + rewrite (IH i vs); [done| |done|by injection Hl|done]. by apply NoDup_cons_1_2 in Hnd.
    + intros E. rewrite fmap_cons in Hnd. apply NoDup_cons_1_1 in Hnd. apply Hnd.
      rewrite <- E. apply list_elem_of_fmap. exists f. split; [done|]. by eapply list_elem_of_lookup_2.
Qed.

Lemma fields_loop fields goal kvs vs :
  NoDup (fieldName <$> fields) → length goal = length fields → length vs = length fields →
  (∀ k sc, (k, sc) ∈ kvs → ∃ i f v, fields !! i = Some f ∧ goal !! i = Some v ∧ fieldName f = k ∧
    ∀ old, read sc f old = GVal v) →
  (∀ i f, fields !! i = Some f → fieldName f ∈ kvs.*1 ∨ vs !! i = goal !! i) →
  for_entries (λ key sc, fields_switch (read sc) fields key)
    (prod_map ScVal.SymbolToScVal id <$> kvs) vs = GVal goal.
Proof.
  intros Hnd Hg. revert vs. induction kvs as [|[k sc] kvs IH]; intros vs Hl Hkv Hset.
  - cbn. f_equal. apply list_eq_same_length with (n := length fields); [done..|].
    intros i x y Hi Hx Hy. destruct (lookup_lt_is_Some_2 fields i) as [f Hf]; [lia|].
    destruct (Hset i f Hf) as [Hin|E]; [by apply elem_of_nil in Hin|congruence].
  - destruct (Hkv k sc) as (i & f & v & Hf & Hv & <- & Hb); [by left|].
    cbn. rewrite (fields_switch_hit fields i f sc v vs) by done.
    cbn [mbind gres_bind]. apply IH.
    + by rewrite length_insert.
    + intros k' sc' Hin. apply Hkv. by right.
    + intros j g Hj. destruct (Hset j g Hj) as [[E|Hin]%elem_of_cons|E]; [|by left|].
      * right. assert (j = i) as -> by by eapply NoDup_index. rewrite list_lookup_insert_eq; [done|].
        apply lookup_lt_Some in Hf. lia.
      * right. destruct (decide (i = j)) as [->|]; [|by rewrite list_lookup_insert_ne].
        rewrite list_lookup_insert_eq; [done|]. apply lookup_lt_Some in Hf. lia.
Qed.
End loop.

Lemma struct_roundtrip s vs :
  forallb (field_ok known ∘ fieldType) (structFields s) = true → NoDup (fieldName <$> structFields s) →
  fields_typed named (structFields s) vs → roundtrips (struct_codec env enumerate s) (VStruct vs).
Proof.
  intros Hok Hnd Hv. destruct (struct_fields_spec _ vs Hok Hv) as (kvs & Hk & Hks & He).
  unfold roundtrips. cbn [struct_codec toScVal fromScVal struct_to]. rewrite Hk. cbn [mbind gres_bind].
  eexists. split; [done|]. cbn [struct_from got_map GetMap arm deref fmap gres_fmap mbind gres_bind].
  assert (NoDup kvs.*1) as Hndk by by rewrite Hks.
  set (m := list_to_map kvs : gmap string ScVal).
  set (keys := merge_sort String.le (enumerate (fieldName <$> structFields s))).
  assert (keys ≡ₚ kvs.*1) as Hkeys by (unfold keys; by rewrite merge_sort_Permutation, Hperm, Hks).
  set (sorted := (λ k, (k, default zeroScVal (m !! k))) <$> keys).
  assert (ScVal.struct_entries (enumerate (fieldName <$> structFields s)) m
          = prod_map ScVal.SymbolToScVal id <$> sorted) as ->.
  { unfold ScVal.struct_entries, sorted. by rewrite <- list_fmap_compose. }
  assert (sorted.*1 = keys) as Hs1.
  { unfold sorted. rewrite <- list_fmap_compose. apply list_fmap_id. }
  unfold struct_switch.
  rewrite (fields_loop (λ sc f _, from_field env (fieldName f) (fieldType f) sc) _ vs sorted);
    [done|done| | | |].
  - symmetry. by eapply Forall2_length.
  - apply length_fmap.
  - intros k sc (k' & [= -> ->] & Hin)%list_elem_of_fmap. rewrite Hkeys in Hin.
    apply list_elem_of_fmap in Hin as ([k2 sc] & -> & Hin). cbn [fst].
    unfold m. rewrite (proj1 (elem_of_list_to_map kvs k2 sc Hndk) Hin). cbn [default from_option].
    destruct (He k2 sc Hin) as (i & f & v & Hf & Hvi & <- & Hb). by exists i, f, v.
  - intros i f Hf. left. rewrite Hs1, Hkeys, Hks. apply list_elem_of_fmap. exists f. split; [done|].
    by eapply list_elem_of_lookup_2.
Qed.

(** *** Enums *)

Lemma unit_roundtrip e z : is_uint32 z = true → roundtrips (unit_codec e) (VNum z).
Proof.
  intros Hz. exists (ScVal.Uint32ToScVal (uint32 z)). split; [done|]. cbn. by rewrite uint32_id.
Qed.

Lemma payload_list_roundtrip e v i fields vs :
  forallb (payload_ok known ∘ fieldType) fields = true → fields_typed named fields vs →
  ∃ items, payload_to env fields vs = GVal items ∧ length items = length fields ∧
    payload_from env e v i fields items = GVal vs.
Proof.
  intros Hok Hv. revert i. induction Hv as [|f x fields vs Hf Hv IH]; intros i; [by exists []|].
  cbn [forallb] in Hok. apply andb_true_iff in Hok as [Hokf Hok].
  destruct (payload_roundtrip (fieldType f) x) as (sc & Hsc & Hb); [done..|].
  destruct (IH Hok (S i)) as (items & Hi & Hl & Hbs). exists (sc :: items).
  cbn [payload_to payload_from]. rewrite Hsc, Hb. cbn [mbind gres_bind]. rewrite Hi, Hbs. cbn. by rewrite Hl.
Qed.

Lemma set_count_none n : set_count (replicate n None) = 0%nat.
Proof. induction n as [|n IH]; [done|]. unfold set_count in *. cbn [replicate]. by rewrite filter_cons_False by (by intros []). Qed.
Lemma set_count_only n i p : (i < n)%nat → set_count (<[i:=Some p]> (replicate n None)) = 1%nat.
Proof.
  revert i. induction n as [|n IH]; intros i Hi; [lia|]. unfold set_count in *. destruct i as [|i]; cbn [replicate].
  - cbn [insert list_insert]. rewrite filter_cons_True by done. cbn [length]. f_equal. apply set_count_none.
  - cbn [insert list_insert]. rewrite filter_cons_False by (by intros []). apply IH. lia.
Qed.

Lemma first_set_only e variants i v vs items :
  variants !! i = Some v → payload_to env (Payload v) vs = GVal items →
  first_set env e variants (<[i:=Some vs]> (replicate (length variants) None)) =
    GVal (ScVal.VecToScVal (ScVal.SymbolToScVal (variantName v) :: items)).
Proof.
  revert i. induction variants as [|w variants IH]; intros i Hi Hp; [done|]. destruct i as [|i].
  - injection Hi as ->. cbn. by rewrite Hp.
  - cbn. by apply IH.
Qed.

Lemma union_switch_hit e n j variants i v items :
  NoDup (variantName <$> variants) → variants !! i = Some v → length items = length (Payload v) →
  union_switch env e n j variants (variantName v) items =
    (only n (j + i) <$> payload_from env e v 0 (Payload v) items).
Proof.
  revert i j. induction variants as [|w variants IH]; intros i j Hnd Hi Hl; [done|]. cbn [union_switch].
  destruct i as [|i].
  - injection Hi as ->. rewrite decide_True by done. rewrite Hl, Nat.eqb_refl. cbn [negb]. by rewrite Nat.add_0_r.
  - cbn in Hi. rewrite decide_False.
    + rewrite (IH i); [|by apply NoDup_cons_1_2 in Hnd|done..]. by rewrite Nat.add_succ_r.
    + intros E. rewrite fmap_cons in Hnd. apply NoDup_cons_1_1 in Hnd. apply Hnd.
      rewrite <- E. apply list_elem_of_fmap. exists v. split; [done|]. by eapply list_elem_of_lookup_2.
Qed.

Lemma union_roundtrip e i v vs :
  forallb (λ v, forallb (payload_ok known ∘ fieldType) (Payload v)) (Variants e) = true →
  NoDup (variantName <$> Variants e) → Variants e !! i = Some v → fields_typed named (Payload v) vs →
  roundtrips (union_codec env e) (only (length (Variants e)) i vs).
Proof.
  intros Hok Hnd Hi Hv. rewrite forallb_forall in Hok.
  assert (v ∈ Variants e) as Hin by by eapply list_elem_of_lookup_2.
  apply list_elem_of_In, Hok in Hin.
  destruct (payload_list_roundtrip (enumName e) v 0 (Payload v) vs Hin Hv) as (items & Ht & Hl & Hb).
  exists (ScVal.VecToScVal (ScVal.SymbolToScVal (variantName v) :: items)). split.
  - cbn [union_codec toScVal only union_to]. rewrite length_insert, length_replicate, Nat.eqb_refl. cbn [negb].
    rewrite set_count_only by (by eapply lookup_lt_Some). cbn [Nat.eqb negb]. by apply first_set_only.
  - cbn. rewrite (union_switch_hit _ _ 0 _ i v items) by done. by rewrite Hb.
Qed.

Lemma decl_roundtrip d v : decl_ok known d = true → decl_typed named d v →
  roundtrips (decl_codec env enumerate d) v.
Proof.
  destruct d as [s|e]; cbn [decl_ok decl_typed decl_codec]; intros [Hok Hnd%bool_decide_eq_true]%andb_true_iff Hv.
  - destruct Hv as (vs & -> & Hv). by apply struct_roundtrip.
  - unfold enum_codec. destruct (IsUnit e).
    + destruct Hv as (z & -> & Hz). by apply unit_roundtrip.
    + destruct Hv as (i & var & vs & Hi & Hv & ->). by eapply union_roundtrip.
Qed.
End env.

Lemma types_roundtrip enumerate ds name v :
  (∀ l, enumerate l ≡ₚ l) → types_ok ds = true → value_typed ds name v →
  ∃ c, types_rev enumerate ds name = Some c ∧ roundtrips c v.
Proof.
  intros Hperm. revert name v. induction ds as [|d ds IH]; intros name v Hok Hv; [done|].
  cbn [types_ok] in Hok. apply andb_true_iff in Hok as [[Hd Hdok]%andb_true_iff Hok].
  cbn [value_typed types_rev] in Hv |- *. case_decide; [|by apply IH].
  eexists. split; [done|]. eapply decl_roundtrip; [|done..]. intros n w _ Hw. by apply IH.
Qed.

(** The structs among the types; what they write is a map. *)
Definition declared_struct (ds : list TypeDecl) (name : string) : bool :=
  existsb (λ d, match d with TStruct s => bool_decide (structName s = name) | TEnum _ => false end) ds.
Lemma types_struct enumerate ds name : types_ok ds = true → declared_struct ds name = true →
  ∃ c, types_rev enumerate ds name = Some c ∧ isStruct c = true ∧ ∀ v, toScVal c v ≠ GVal ScvVoid.
Proof.
  induction ds as [|d ds IH]; intros Hok Hn; [done|]. cbn [types_ok] in Hok.
  apply andb_true_iff in Hok as [[Hd _]%andb_true_iff Hok]. cbn [types_rev]. case_decide as E.
  - eexists. split; [done|]. assert (declared_struct ds name = false) as Hno.
    { apply not_true_is_false. intros Hin. apply negb_true_iff in Hd. unfold declared in Hd.
      apply bool_decide_eq_false in Hd. apply Hd. unfold declared_struct in Hin. rewrite existsb_exists in Hin.
      destruct Hin as ([s|e] & Hin & Hs); [|done]. apply bool_decide_eq_true in Hs. rewrite <- E, <- Hs.
      apply list_elem_of_fmap. exists (TStruct s). split; [done|]. by apply list_elem_of_In. }
    cbn [declared_struct existsb] in Hn. change (existsb _ ds) with (declared_struct ds name) in Hn.
    rewrite Hno, orb_false_r in Hn. destruct d as [s|e]; [|done]. split; [done|].
    intros []; cbn; try done. by destruct (struct_fields _ _ _).
  - apply IH; [done|]. cbn [declared_struct existsb] in Hn. apply orb_true_iff in Hn as [Hn|Hn]; [|done].
    destruct d as [s|e]; [|done]. apply bool_decide_eq_true in Hn. by destruct E.
Qed.
End roundtrip.

(** ** No reader panics on a value off the wire *)

Section safety.
Context {UT : UnicodeTables} {XS : XdrSdk}.

Definition safe (c : codec) : Prop := ∀ sc, valid sc = true → panics (fromScVal c sc) = false.

Lemma panics_gwrap {A} ctx (g : gres A) : panics (gwrap ctx g) = panics g.
Proof. by destruct g. Qed.
Lemma panics_fmap {A B} (f : A → B) (g : gres A) : panics (f <$> g) = panics g.
Proof. by destruct g. Qed.
Lemma panics_bind {A B} (f : A → gres B) (g : gres A) :
  panics g = false → (∀ a, panics (f a) = false) → panics (g ≫= f) = false.
Proof. intros Hg Hf. destruct g; cbn in *; [apply Hf|done..]. Qed.
Lemma panics_nonnil {A} e (p : option A) : panics (nonnil e p) = false.
Proof. by destruct p. Qed.

(** Case analysis on the value, its pointer and a length. *)
Ltac by_arm v :=
  destruct v; try done;
  match goal with p : option _ |- _ => destruct p; [|done] end; cbn;
  try (match goal with |- context [negb ?b] => destruct b end); done.

Lemma fixed_from_safe n v : has_size n = true → valid v = true → panics (fixed_from n v) = false.
Proof. intros Hn Hv. unfold fixed_from. rewrite Hn, panics_fmap. by_arm v. Qed.
Lemma optional_address_safe v : valid v = true → panics (ScVal.OptionalAddressFromScVal v) = false.
Proof.
  intros Hv. pose proof (valid_address_raw v Hv) as [Ha _].
  unfold ScVal.OptionalAddressFromScVal. destruct v; try done. cbn [mbind gres_bind].
  by destruct (ScVal.AddressFromScVal _).
Qed.

Section env.
Context (env : string → option codec) (known : string → bool).
Context (Henv : ∀ n, known n = true → ∃ c, env n = Some c ∧ safe c).

Lemma named_safe n v : known n = true → valid v = true → panics (named_from env n v) = false.
Proof. intros Hk Hv. destruct (Henv n Hk) as (c & Hc & Hs). unfold named_from. rewrite Hc. by apply Hs. Qed.

Ltac safe_reader v Hv :=
  first [ by apply fixed_from_safe | by apply named_safe | by apply optional_address_safe
        | exact (proj1 (valid_address_raw v Hv)) | by_arm v ].

Lemma item_safe t v : item_ok known t = true → valid v = true → panics (from_item env t v) = false.
Proof.
  intros Ht Hv. destruct t; try done; cbn [from_item]; rewrite ?panics_fmap; safe_reader v Hv.
Qed.
Lemma payload_safe ctx t v : payload_ok known t = true → valid v = true →
  panics (from_payload env ctx t v) = false.
Proof.
  intros Ht Hv. destruct t; try done; cbn [from_payload]; rewrite ?panics_fmap, ?panics_gwrap; safe_reader v Hv.
Qed.
Lemma field_safe name t v : field_ok known t = true → valid v = true →
  panics (from_field env name t v) = false.
Proof.
  intros Ht Hv. destruct t as [| | | | | | | | |n|t|t|n]; try done;
    cbn [from_field]; rewrite ?panics_fmap, ?panics_gwrap; try (safe_reader v Hv).
  - by destruct t; rewrite ?panics_fmap, ?panics_gwrap; try (safe_reader v Hv).
  - assert (panics (l ← got_vec (name +:+ " is not a vec") v; gimapM (λ _, from_item env t) l) = false) as Hp.
    { apply vec_no_panic; [|done]. intros _ x Hx. by apply item_safe. }
    destruct (got_vec _ v); try done. cbn [mbind gres_bind] in Hp |- *. by rewrite panics_fmap.
Qed.

Lemma for_entries_safe {S} (f : string → ScVal → S → gres S) l s :
  (∀ k v s, valid v = true → panics (f k v s) = false) →
  forallb (λ kv : ScVal * ScVal, valid (fst kv) && valid (snd kv)) l = true →
  panics (for_entries f l s) = false.
Proof.
  intros Hf. revert s. induction l as [|[k v] l IH]; intros s Hl; [done|]. cbn [for_entries].
  cbn [forallb fst snd] in Hl. apply andb_true_iff in Hl as [[Hk Hv]%andb_true_iff Hl].
  apply panics_bind; [by destruct k as [| | | | | | | | | | | | | | |[]| | | | | | |]|].
  intros [key|]; (apply panics_bind; [|intros ?; by apply IH]); [by apply Hf|done].
Qed.

Lemma fields_switch_safe read fields key vs :
  (∀ f old, f ∈ fields → panics (read f old) = false) → panics (fields_switch read fields key vs) = false.
Proof.
  intros Hr. revert vs. induction fields as [|f fields IH]; intros vs; [done|].
  destruct vs as [|x vs]; [done|]. cbn [fields_switch]. case_decide.
  - apply panics_bind; [apply Hr; by left|done].
  - rewrite panics_fmap. apply IH. intros g old Hg. apply Hr. by right.
Qed.
Lemma struct_switch_safe fields key v vs :
  forallb (field_ok known ∘ fieldType) fields = true → valid v = true →
  panics (struct_switch env fields key v vs) = false.
Proof.
  intros Hok Hv. rewrite forallb_forall in Hok. apply fields_switch_safe. intros f _ Hin.
  apply list_elem_of_In, Hok in Hin. by apply field_safe.
Qed.

Lemma payload_list_safe e v i fields l :
  forallb (payload_ok known ∘ fieldType) fields = true → forallb valid l = true →
  panics (payload_from env e v i fields l) = false.
Proof.
  revert i l. induction fields as [|f fields IH]; intros i l Hok Hl; [done|].
  destruct l as [|x l]; [done|]. cbn [forallb] in Hok, Hl.
  apply andb_true_iff in Hok as [Hf Hok]. apply andb_true_iff in Hl as [Hx Hl]. cbn [payload_from].
  apply panics_bind; [by apply payload_safe|]. intros y. apply panics_bind; [by apply IH|done].
Qed.

Lemma union_switch_safe e n i variants tag rest :
  forallb (λ v, forallb (payload_ok known ∘ fieldType) (Payload v)) variants = true →
  forallb valid rest = true → panics (union_switch env e n i variants tag rest) = false.
Proof.
  intros Hok Hr. revert i. induction variants as [|v variants IH]; intros i; [done|].
  cbn [forallb] in Hok. apply andb_true_iff in Hok as [Hv Hok]. cbn [union_switch].
  case_decide; [|by apply IH]. destruct (negb _); [done|]. rewrite panics_fmap. by apply payload_list_safe.
Qed.

Lemma decl_safe enumerate d : decl_ok known d = true → safe (decl_codec env enumerate d).
Proof.
  intros Hd sc Hsc. destruct d as [s|e]; cbn [decl_ok decl_codec] in *; apply andb_true_iff in Hd as [Hok _].
  - cbn [struct_codec fromScVal struct_from].
    destruct sc as [| | | | | | | | | | | | | | | | |[[l|]|]| | | | |]; try done.
    cbn [got_map GetMap arm deref fmap gres_fmap mbind gres_bind].
    change (panics (VStruct <$> for_entries (struct_switch env (structFields s)) l
                                  (struct_zero env (structFields s))) = false).
    rewrite panics_fmap. apply for_entries_safe; [|done]. intros k v vs Hv. by apply struct_switch_safe.
  - unfold enum_codec. destruct (IsUnit e); cbn [unit_codec union_codec fromScVal union_from]; [by_arm sc|].
    destruct sc as [| | | | | | | | | | | | | | | |[[[|t l]|]|]| | | | | |]; try done.
    cbn in Hsc. apply andb_true_iff in Hsc as [Ht Hl].
    change (panics (tag ← gwrap (enumName e +:+ ": variant tag") (ScVal.SymbolFromScVal t);
              union_switch env (enumName e) (length (Variants e)) 0 (Variants e) tag l) = false).
    apply panics_bind; [rewrite panics_gwrap; by_arm t|]. intros tag. by apply union_switch_safe.
Qed.
End env.

Lemma types_safe enumerate ds name : types_ok ds = true → declared ds name = true →
  ∃ c, types_rev enumerate ds name = Some c ∧ safe c.
Proof.
  revert name. induction ds as [|d ds IH]; intros name Hok Hn; unfold declared in Hn;
    apply bool_decide_eq_true in Hn; [by apply elem_of_nil in Hn|].
  cbn [types_ok] in Hok. apply andb_true_iff in Hok as [[_ Hdok]%andb_true_iff Hok].
  cbn [types_rev]. case_decide as E.
  - eexists. split; [done|]. eapply decl_safe; [|done]. intros n Hk. by apply IH.
  - apply IH; [done|]. unfold declared. apply bool_decide_eq_true. rewrite fmap_cons in Hn.
    by apply elem_of_cons in Hn as [->|].
Qed.
End safety.

(** ** The order in which Go enumerates a map does not matter, and a type of a package means
    the same among all of the package's types as among those before it *)

Section congruence.
Context {UT : UnicodeTables} {XS : XdrSdk}.

(** Codecs that behave in the same way. *)
Record codec_eq (c1 c2 : codec) : Prop := mkCodecEq {
  eq_to : ∀ v, toScVal c1 v = toScVal c2 v;
  eq_from : ∀ sc, fromScVal c1 sc = fromScVal c2 sc;
  eq_zero : zeroValue c1 = zeroValue c2;
  eq_struct : isStruct c1 = isStruct c2
}.
#[export] Instance codec_eq_equivalence : Equivalence codec_eq.
Proof.
  split.
  - by intros c.
  - intros c1 c2 []. by split.
  - intros c1 c2 c3 [Ht Hf Hz Hs] [Ht' Hf' Hz' Hs']. split; [| |congruence..].
    + intros v. by rewrite Ht.
    + intros sc. by rewrite Hf.
Qed.

Section envs.
Context (env1 env2 : string → option codec) (known : string → bool).
Context (Henv : ∀ n, known n = true → ∃ c1 c2, env1 n = Some c1 ∧ env2 n = Some c2 ∧ codec_eq c1 c2).

Lemma named_to_ext n v : known n = true → named_to env1 n v = named_to env2 n v.
Proof. intros Hk. destruct (Henv n Hk) as (c1 & c2 & E1 & E2 & []). unfold named_to. rewrite E1, E2. auto. Qed.
Lemma named_from_ext n v : known n = true → named_from env1 n v = named_from env2 n v.
Proof. intros Hk. destruct (Henv n Hk) as (c1 & c2 & E1 & E2 & []). unfold named_from. rewrite E1, E2. auto. Qed.

Lemma gimapM_ext {A B} (f g : nat → A → gres B) l : (∀ i x, f i x = g i x) → gimapM f l = gimapM g l.
Proof.
  intros Hfg. unfold gimapM. generalize 0%nat as i. induction l as [|x l IH]; intros i; [done|].
  cbn [gimapM_from]. by rewrite Hfg, IH.
Qed.
Lemma slice_ext {T} (f g : T → gres ScVal) l : (∀ x, f x = g x) →
  ScVal.StructSliceToScVal f l = ScVal.StructSliceToScVal g l.
Proof.
  intros Hfg. unfold ScVal.StructSliceToScVal. f_equal. apply gimapM_ext. intros _ x. by rewrite Hfg.
Qed.

Lemma to_field_ext t v : field_ok known t = true → to_field env1 t v = to_field env2 t v.
Proof.
  intros Ht. destruct t as [| | | | | | | | |n|t|[]|n]; try done; cbn [to_field].
  - destruct v; try done. apply slice_ext. intros x. by apply named_to_ext.
  - destruct v; by rewrite named_to_ext.
Qed.
Lemma from_item_ext t v : item_ok known t = true → from_item env1 t v = from_item env2 t v.
Proof. intros Ht. destruct t; try done. by apply named_from_ext. Qed.
Lemma from_payload_ext ctx t v : payload_ok known t = true → from_payload env1 ctx t v = from_payload env2 ctx t v.
Proof. intros Ht. destruct t; try done. cbn [from_payload]. by rewrite named_from_ext. Qed.
Lemma from_field_ext name t v : field_ok known t = true → from_field env1 name t v = from_field env2 name t v.
Proof.
  intros Ht. destruct t as [| | | | | | | | |n|t|t|n]; try done; cbn [from_field].
  - destruct (got_vec _ v); cbn [mbind gres_bind]; try done. f_equal. apply gimapM_ext. intros _ x.
    by apply from_item_ext.
  - by rewrite named_from_ext.
Qed.
Lemma zero_of_ext t : field_ok known t = true → zero_of env1 t = zero_of env2 t.
Proof.
  intros Ht. destruct t; try done. cbn [zero_of].
  destruct (Henv name Ht) as (c1 & c2 & E1 & E2 & []). by rewrite E1, E2.
Qed.
Lemma payload_field_ok t : payload_ok known t = true → field_ok known t = true.
Proof. by destruct t. Qed.

Context (enumerate1 enumerate2 : list string → list string).
Context (Hperm : ∀ l, enumerate1 l ≡ₚ enumerate2 l).

Lemma build_struct_ext keys m :
  ScVal.BuildStructScVal (enumerate1 keys) m = ScVal.BuildStructScVal (enumerate2 keys) m.
Proof.
  unfold ScVal.BuildStructScVal, ScVal.struct_entries. do 5 f_equal.
  apply merge_sort_sorted; [|apply StronglySorted_merge_sort; apply _].
  by rewrite merge_sort_Permutation, Hperm.
Qed.
Lemma struct_fields_ext fields vs : forallb (field_ok known ∘ fieldType) fields = true →
  struct_fields env1 fields vs = struct_fields env2 fields vs.
Proof.
  revert vs. induction fields as [|f fields IH]; intros [|v vs] Hok; [done..|].
  cbn [forallb] in Hok. apply andb_true_iff in Hok as [Hf Hok]. cbn [struct_fields].
  by rewrite (to_field_ext _ v Hf), IH.
Qed.
Lemma for_entries_ext {S} (f g : string → ScVal → S → gres S) l s : (∀ k v s, f k v s = g k v s) →
  for_entries f l s = for_entries g l s.
Proof.
  intros Hfg. revert s. induction l as [|[k v] l IH]; intros s; [done|]. cbn [for_entries].
  destruct (GetSym k) as [[key|]| |]; cbn [mbind gres_bind]; [|apply IH|done..].
  rewrite Hfg. destruct (g key v s); [apply IH|done..].
Qed.
Lemma fields_switch_ext read1 read2 fields key vs : (∀ f old, f ∈ fields → read1 f old = read2 f old) →
  fields_switch read1 fields key vs = fields_switch read2 fields key vs.
Proof.
  intros Hr. revert vs. induction fields as [|f fields IH]; intros [|v vs]; [done..|]. cbn [fields_switch].
  case_decide; [rewrite Hr by (by left); done|]. rewrite IH; [done|]. intros g old Hg. apply Hr. by right.
Qed.
Lemma struct_ext s : forallb (field_ok known ∘ fieldType) (structFields s) = true →
  codec_eq (struct_codec env1 enumerate1 s) (struct_codec env2 enumerate2 s).
Proof.
  intros Hok. assert (struct_zero env1 (structFields s) = struct_zero env2 (structFields s)) as Hz.
  { unfold struct_zero. apply list_fmap_ext. intros i f Hf. apply zero_of_ext.
    rewrite forallb_forall in Hok. apply Hok, list_elem_of_In. by eapply list_elem_of_lookup_2. }
  split; [| |cbn; by rewrite Hz|done].
  - intros [| | | | | | |vs| |]; try done. cbn. rewrite struct_fields_ext by done.
    destruct (struct_fields env2 (structFields s) vs); try done. apply build_struct_ext.
  - intros sc. cbn [struct_codec fromScVal]. unfold struct_from. destruct (got_map "not a map type" sc); try done.
    cbn [mbind gres_bind]. rewrite Hz. f_equal. apply for_entries_ext. intros k v vs. unfold struct_switch. apply fields_switch_ext. intros f _ Hf.
    rewrite forallb_forall in Hok. by apply from_field_ext, Hok, list_elem_of_In.
Qed.

Lemma payload_to_ext fields vs : forallb (payload_ok known ∘ fieldType) fields = true →
  payload_to env1 fields vs = payload_to env2 fields vs.
Proof.
  revert vs. induction fields as [|f fields IH]; intros [|v vs] Hok; [done..|].
  cbn [forallb] in Hok. apply andb_true_iff in Hok as [Hf%payload_field_ok Hok]. cbn [payload_to].
  by rewrite (to_field_ext _ v Hf), IH.
Qed.
Lemma payload_from_ext e v i fields l : forallb (payload_ok known ∘ fieldType) fields = true →
  payload_from env1 e v i fields l = payload_from env2 e v i fields l.
Proof.
  revert i l. induction fields as [|f fields IH]; intros i [|x l] Hok; [done..|].
  cbn [forallb] in Hok. apply andb_true_iff in Hok as [Hf Hok]. cbn [payload_from].
  by rewrite (from_payload_ext _ _ x Hf), IH.
Qed.
Lemma union_ext e : forallb (λ v, forallb (payload_ok known ∘ fieldType) (Payload v)) (Variants e) = true →
  codec_eq (union_codec env1 e) (union_codec env2 e).
Proof.
  intros Hok. split; [| |done..].
  - intros [| | | | | | | |vs|]; try done. cbn. repeat case_match; try done.
    revert vs H H0. generalize (Variants e) Hok. clear Hok.
    assert (∀ variants vs, forallb (λ v, forallb (payload_ok known ∘ fieldType) (Payload v)) variants = true →
      first_set env1 (enumName e) variants vs = first_set env2 (enumName e) variants vs) as Hf; [|auto].
    intros variants. induction variants as [|v variants IH]; intros [|[p|] vs] Hok; [done..| |].
    + cbn [forallb] in Hok. apply andb_true_iff in Hok as [Hv Hok]. cbn [first_set]. by rewrite payload_to_ext.
    + cbn [forallb] in Hok. apply andb_true_iff in Hok as [Hv Hok]. cbn [first_set]. by apply IH.
  - intros sc. cbn [union_codec fromScVal]. unfold union_from.
    destruct (got_vec ("expected vec for " +:+ enumName e +:+ " enum") sc) as [[|t rest]| |]; try done.
    cbn [mbind gres_bind].
    destruct (gwrap (enumName e +:+ ": variant tag") (ScVal.SymbolFromScVal t)) as [tag| |]; try done. cbn [mbind gres_bind].
    generalize (length (Variants e)) 0%nat. intros n. revert Hok. generalize (Variants e). intros variants.
    induction variants as [|v variants IH]; intros Hok i; [done|].
    cbn [forallb] in Hok. apply andb_true_iff in Hok as [Hv Hok]. cbn [union_switch].
    case_decide; [|by apply IH]. by rewrite payload_from_ext.
Qed.

Lemma decl_ext d : decl_ok known d = true →
  codec_eq (decl_codec env1 enumerate1 d) (decl_codec env2 enumerate2 d).
Proof.
  destruct d as [s|e]; cbn [decl_ok decl_codec]; intros [Hok _]%andb_true_iff; [by apply struct_ext|].
  unfold enum_codec. destruct (IsUnit e); [done|by apply union_ext].
Qed.
End envs.

Lemma types_order_irrelevant enumerate1 enumerate2 ds name :
  (∀ l, enumerate1 l ≡ₚ enumerate2 l) → types_ok ds = true → declared ds name = true →
  ∃ c1 c2, types_rev enumerate1 ds name = Some c1 ∧ types_rev enumerate2 ds name = Some c2 ∧ codec_eq c1 c2.
Proof.
  intros Hp. revert name. induction ds as [|d ds IH]; intros name Hok Hn; unfold declared in Hn;
    apply bool_decide_eq_true in Hn; [by apply elem_of_nil in Hn|].
  cbn [types_ok] in Hok. apply andb_true_iff in Hok as [[_ Hdok]%andb_true_iff Hok].
  cbn [types_rev]. case_decide as E.
  - do 2 eexists. do 2 (split; [done|]). eapply decl_ext; [|done..]. intros n Hk. by apply IH.
  - apply IH; [done|]. unfold declared. apply bool_decide_eq_true. rewrite fmap_cons in Hn.
    by apply elem_of_cons in Hn as [->|].
Qed.

Lemma types_rev_app enumerate ds0 ds n : types_ok (ds0 ++ ds) = true → declared ds n = true →
  types_ok ds = true ∧ types_rev enumerate (ds0 ++ ds) n = types_rev enumerate ds n.
Proof.
  induction ds0 as [|d ds0 IH]; intros Hok Hn; [done|]. cbn [app types_ok types_rev] in Hok |- *.
  apply andb_true_iff in Hok as [[Hd _]%andb_true_iff Hok]. destruct (IH Hok Hn) as [Hds E].
  rewrite decide_False; [done|]. intros ->. apply negb_true_iff in Hd. unfold declared in Hd, Hn.
  apply bool_decide_eq_false in Hd. apply bool_decide_eq_true in Hn. apply Hd. rewrite fmap_app.
  apply elem_of_app. by right.
Qed.
Lemma types_rev_decl enumerate ds d : types_ok ds = true → d ∈ ds →
  ∃ c, types_rev enumerate ds (decl_name d) = Some c ∧
    codec_eq c (decl_codec (types_rev enumerate ds) enumerate d).
Proof.
  intros Hok (ds0 & ds2 & ->)%list_elem_of_split.
  assert (declared (d :: ds2) (decl_name d) = true) as Hd by (apply bool_decide_eq_true; by left).
  destruct (types_rev_app enumerate ds0 (d :: ds2) (decl_name d) Hok Hd) as [Hok2 ->].
  cbn [types_ok types_rev] in Hok2 |- *. apply andb_true_iff in Hok2 as [[Hnd Hdok]%andb_true_iff Hok2].
  rewrite decide_True by done. eexists. split; [done|]. eapply decl_ext; [|done|exact Hdok].
  intros n Hn. assert (declared (d :: ds2) n = true) as Hn2.
  { unfold declared in *. apply bool_decide_eq_true. apply bool_decide_eq_true in Hn. by right. }
  destruct (types_safe enumerate ds2 n Hok2 Hn) as (c & Hc & _). exists c, c.
  split; [done|]. split; [|done]. destruct (types_rev_app enumerate ds0 (d :: ds2) n Hok Hn2) as [_ ->].
  cbn [types_rev]. rewrite decide_False; [done|]. intros ->. by rewrite Hn in Hnd.
Qed.
End congruence.
End CodecProps.
