(* ===== verification/Client.v ===== *)
(** The methods of the generated clients: the semantics of what
    [bindings/generator/client_codegen.go] emits for a function and for an event of a
    contract. A client is the invoker and the contract's id. *)

From Stdlib Require Import Strings.Byte.
From stdpp Require Import base gmap list strings pretty.
From S2P Require Import Prelude GoStrings Prog Xdr ScVal GoBytes TypeConverters Ccv Bindings Codec.
Import Xdr.

Local Open Scope Z_scope.

Module Client.

(** ** Calls *)

Section convert.
Context {UT : UnicodeTables} {XS : XdrSdk} (env : string → option codec).

(** [isReadOnlyFunction]: by the function's name. *)
Definition isReadOnlyFunction (fn : Function) : bool :=
  let name := ToLower (functionName fn) in
  HasPrefix name "get_" || HasPrefix name "is_" ||
  bool_decide (name = "owner") || bool_decide (name = "balance").

(** [getArgConverter] has no case for a string. *)
Definition to_arg (t : rty) (v : value) : gres ScVal :=
  match t with RString => ill_typed | _ => to_field env t v end.
Fixpoint args_to (inputs : list Field) (vs : list value) : gres (list ScVal) :=
  match inputs, vs with
  | [], [] => GVal []
  | f :: inputs', v :: vs' => x ← to_arg (fieldType f) v; xs ← args_to inputs' vs'; GVal (x :: xs)
  | _, _ => ill_typed
  end.

(** [generateReturnValueParsing]. *)
Definition from_return (t : rty) (result : ScVal) : gres value :=
  match t with
  | U64 => VNum <$> ScVal.Uint64FromScVal result
  | U32 => v ← GetU32 result; VNum <$> nonnil "expected u32 return type" v
  | I128 => VNum <$> ScVal.I128FromScVal result
  | RBool => v ← GetB result; VBool <$> nonnil "expected bool return type" v
  | RAddress => VString <$> ScVal.AddressFromScVal result
  | RBytes => v ← GetBytes result; VBytes <$> nonnil "expected bytes return type" v
  | RString => VString <$> ScVal.StringFromScVal result
  | RSymbol => VString <$> ScVal.SymbolFromScVal result
  | ROption RAddress => VOptString <$> ScVal.OptionalAddressFromScVal result
  | ROption (RNamed n) =>
      match env n with
      | Some c =>
          if isStruct c then
            match result with
            | ScvVoid => GVal (VPtr None)
            | _ => v ← fromScVal c result; GVal (VPtr (Some v))
            end
          else ill_typed
      | None => ill_typed
      end
  | U128 => VU128 <$> ScVal.U128FromScVal result
  | RBytesN n => fixed_from n result
  | RVec (ROption RAddress as t') | RVec (RAddress as t') | RVec (RBytes as t') | RVec (U64 as t')
  | RVec (RBytesN _ as t') | RVec (RNamed _ as t') =>
      vec ← got_vec "expected vec return type" result;
      VSlice <$> gimapM (λ _, from_item env t') vec
  | RNamed n => named_from env n result
  | _ => ill_typed
  end.

(** [generateTupleElementParsing]; [i] is the element's index. *)
Definition tuple_context (i : nat) : string := "tuple[" +:+ pretty i +:+ "]".
Definition tuple_item (i : nat) (t : rty) (j : nat) (item : ScVal) : gres value :=
  let ctx := tuple_context i +:+ "[" +:+ pretty j +:+ "]" in
  match t with
  | U64 => VNum <$> gwrap ctx (ScVal.Uint64FromScVal item)
  | U32 => v ← GetU32 item; VNum <$> nonnil (ctx +:+ ": expected u32") v
  | RAddress => VString <$> gwrap ctx (ScVal.AddressFromScVal item)
  | RBytes => v ← GetBytes item; VBytes <$> nonnil (ctx +:+ ": expected bytes") v
  | RNamed n => gwrap ctx (named_from env n item)
  | _ => ill_typed
  end.
Definition tuple_element (i : nat) (t : rty) (elem : ScVal) : gres value :=
  let ctx := tuple_context i in
  match t with
  | U32 => v ← GetU32 elem; VNum <$> nonnil (ctx +:+ ": expected u32") v
  | U64 => VNum <$> gwrap ctx (ScVal.Uint64FromScVal elem)
  | I128 => VNum <$> gwrap ctx (ScVal.I128FromScVal elem)
  | RBool => v ← GetB elem; VBool <$> nonnil (ctx +:+ ": expected bool") v
  | RAddress => VString <$> gwrap ctx (ScVal.AddressFromScVal elem)
  | RBytes => v ← GetBytes elem; VBytes <$> nonnil (ctx +:+ ": expected bytes") v
  | RBytesN n => gwrap ctx (fixed_from n elem)
  | RVec t' =>
      vec ← got_vec (ctx +:+ ": expected vec") elem;
      VSlice <$> gimapM (tuple_item i t') vec
  | RNamed n => gwrap ctx (named_from env n elem)
  | _ => ill_typed
  end.
Fixpoint tuple_elements (i : nat) (ts : list rty) (vec : list ScVal) : gres (list value) :=
  match ts, vec with
  | t :: ts', x :: vec' =>
      v ← tuple_element i t x; vs ← tuple_elements (S i) ts' vec'; GVal (v :: vs)
  | _, _ => GVal []
  end.

(** What a method makes of the answer; the results without the error. *)
Definition results_of (fn : Function) (result : option ScVal) : gres (list value) :=
  match Returns fn with
  | RetVoid => GVal []
  | returns =>
      match result with
      | None => GErr ("no return value from " +:+ functionName fn)
      | Some result =>
          match returns with
          | RetTuple ts =>
              vec ← got_vec "expected vec for tuple return" result;
              if negb (length vec =? length ts)%nat
              then GErr ("expected " +:+ pretty (length ts) +:+ " elements, got " +:+ pretty (length vec))
              else tuple_elements 0 ts vec
          | RetType t => v ← from_return t result; GVal [v]
          | RetVoid => GVal []
          end
      end
  end.
End convert.

(** [generateMethod]. *)
Section method.
Context {UT : UnicodeTables} {XS : XdrSdk} {W : Type} {E : Type → Type} {IV : Invoker W E}.

Definition method (env : string → option codec) (contractID : string) (fn : Function) (vs : list value)
  : prog W E (gres (list value)) :=
  args <-? Ret (args_to env (Inputs fn) vs);
  result <-? gctx ("failed to call " +:+ functionName fn)
               (if isReadOnlyFunction fn
                then SimulateCall contractID (functionName fn) args
                else Invoke contractID (functionName fn) args);
  Ret (results_of env fn result).
End method.

(** ** Waiting for an event *)

(** [bindings.Invoker.GetEvents], the clock, and the [select]: the next tick, or the error
    of the context that is done. *)
Inductive wait_ext : Type → Type :=
| GetEvents (contractID : string) (startLedger : Z) (topics : list string)
    : wait_ext (gres (list TypeConverters.protocol_EventInfo))
| Now : wait_ext Z
| Select : wait_ext (option string).

Section wait.
Context {UT : UnicodeTables} {XS : XdrSdk}.
Context (env : string → option codec) (contractID : string) (ev : Event).

(** A parsed event: its fields, its ledger and its transaction. *)
Definition parsed_event : Type := list value * Z * string.

(** [filter == nil || filter(parsed)]. *)
Definition wanted (filter : option (parsed_event → bool)) (p : parsed_event) : bool :=
  match filter with None => true | Some f => f p end.
Fixpoint first_wanted (filter : option (parsed_event → bool)) (l : list TypeConverters.protocol_EventInfo)
  : gres (option parsed_event) :=
  match l with
  | [] => GVal None
  | e :: l' =>
      parsed ← gtry (ParseEvent env ev e);
      match parsed with
      | Some p => if wanted filter p then GVal (Some p) else first_wanted filter l'
      | None => first_wanted filter l'
      end
  end.

(** The [for] loop; [None] when [fuel] ticks were not enough. *)
Fixpoint wait_loop (fuel : nat) (topic : string) (startLedger startTime timeout : Z)
    (filter : option (parsed_event → bool)) : prog unit wait_ext (option (gres parsed_event)) :=
  match fuel with
  | O => Ret None
  | S fuel =>
      done ← call Select;
      match done with
      | Some err => Ret (Some (GErr err))
      | None =>
          now ← call Now;
          if timeout <? now - startTime then Ret (Some (GErr "timeout waiting for event"))
          else
            events ← call (GetEvents contractID startLedger [topic]);
            match events with
            | GPanic m => Panic m
            | GErr _ => wait_loop fuel topic startLedger startTime timeout filter
            | GVal l =>
                match first_wanted filter l with
                | GPanic m => Panic m
                | GVal (Some p) => Ret (Some (GVal p))
                | _ => wait_loop fuel topic startLedger startTime timeout filter
                end
            end
      end
  end.
(** The topic's constant is emitted for an event that has topics. *)
Definition WaitFor (fuel : nat) (startLedger timeout : Z) (filter : option (parsed_event → bool))
  : prog unit wait_ext (option (gres parsed_event)) :=
  match Topics ev with
  | [] => Panic "does not compile"
  | topic :: _ => startTime ← call Now; wait_loop fuel topic startLedger startTime timeout filter
  end.
End wait.
End Client.
