(* ===== verification/ClientProps.v ===== *)
(** The generated clients: a method makes exactly the call that it names, with its arguments
    encoded and the answer decoded; events are read back; the waiting loop ends. *)

From Stdlib Require Import Strings.Byte.
From stdpp Require Import base gmap list strings pretty.
From S2P Require Import Prelude GoStrings Prog Xdr ScVal GoBytes ScValProps TypeConverters Ccv.
From S2P Require Import Bindings BindingsProps Codec CodecProps Client.
Import Xdr ScValProps BindingsProps CodecProps.

Local Open Scope Z_scope.

Module ClientProps.
Import Client.

(** ** Which functions are supported *)

Section supported.
Context (known : string → bool).
Definition arg_ok (t : rty) : bool := negb (bool_decide (t = RString)) && field_ok known t.
(** [struct_known]: the structs among them. *)
Context (struct_known : string → bool).
Definition return_ok (t : rty) : bool :=
  match t with
  | ROption RAddress => true
  | ROption (RNamed n) => struct_known n
  | ROption _ => false
  | RVec (ROption RAddress | RAddress | RBytes | U64) => true
  | RVec (RBytesN n) => has_size n
  | RVec (RNamed n) => known n
  | RVec _ => false
  | _ => payload_ok known t
  end.
Definition element_ok (t : rty) : bool :=
  match t with
  | RString | RSymbol | U128 | ROption _ => false
  | RVec (U64 | U32 | RAddress | RBytes) => true
  | RVec (RNamed n) => known n
  | RVec _ => false
  | _ => payload_ok known t
  end.
Definition function_ok (fn : Function) : bool :=
  forallb (arg_ok ∘ fieldType) (Inputs fn) &&
  match Returns fn with
  | RetVoid => true
  | RetType t => return_ok t
  | RetTuple ts => forallb element_ok ts
  end.
Definition event_field_ok (t : rty) : bool :=
  match t with
  | RString => false
  | RVec (RBytes | RAddress | ROption RAddress) => true
  | RVec (RBytesN n) => has_size n
  | RVec (RNamed n) => known n
  | RVec _ => false
  | _ => field_ok known t
  end.
Definition event_ok (ev : Event) : bool :=
  forallb (event_field_ok ∘ fieldType) (eventFields ev) &&
  bool_decide (NoDup (fieldName <$> eventFields ev)) && negb (bool_decide (Topics ev = [])).
End supported.

Section calls.
Context {UT : UnicodeTables} {XS : XdrSdk} {XL : XdrLaws}.
Context (env : string → option codec) (named : string → value → Prop) (known struct_known : string → bool).
Context (Henv : ∀ n v, known n = true → named n v → ∃ c, env n = Some c ∧ roundtrips c v).

(** ** Arguments *)

(** The arguments on the wire, each of which reads back as its value. *)
Definition carries (inputs : list Field) (vs : list value) (args : list ScVal) : Prop :=
  Forall3 (λ f v sc, ∀ name, from_field env name (fieldType f) sc = GVal v) inputs vs args.

Lemma args_carry inputs vs :
  forallb (arg_ok known ∘ fieldType) inputs = true → fields_typed named inputs vs →
  ∃ args, args_to env inputs vs = GVal args ∧ carries inputs vs args.
Proof.
  intros Hok Hv. induction Hv as [|f v inputs vs Hf Hv IH]; [exists []; split; [done|constructor]|].
  cbn [forallb] in Hok. apply andb_true_iff in Hok as [[Hs Hokf]%andb_true_iff Hok].
  destruct (field_roundtrip env named known Henv (fieldType f) v) as (sc & Hsc & Hb); [done..|].
  destruct (IH Hok) as (args & Ha & Hc). exists (sc :: args). cbn [args_to].
  assert (to_arg env (fieldType f) v = to_field env (fieldType f) v) as ->.
  { cbn in Hs. by destruct (fieldType f). }
  rewrite Hsc. cbn [mbind gres_bind]. rewrite Ha. split; [done|]. by constructor.
Qed.

(** ** Results *)

(** What a contract writes for a result: as for a field, but a missing struct is a void, and
    a list may hold missing addresses. *)
Definition reply_typed (t : rty) (v : value) : Prop :=
  match t, v with
  | ROption (RNamed n), VPtr None => True
  | ROption (RNamed n), VPtr (Some w) => named n w
  | ROption (RNamed n), _ => False
  | _, _ => typed named t v
  end.
Definition reply (t : rty) (v : value) : gres ScVal :=
  match t, v with
  | ROption (RNamed n), VPtr None => GVal ScvVoid
  | ROption (RNamed n), VPtr (Some w) => named_to env n w
  | RVec (ROption RAddress), VSlice l =>
      slice (λ l, ScVal.VecToScVal (ScVal.OptionalAddressToScVal <$> l))
        (mapM (λ v, match v with VOptString o => Some o | _ => None end) l)
  | _, _ => to_field env t v
  end.
Definition replies_typed (fn : Function) (vs : list value) : Prop :=
  match Returns fn with
  | RetVoid => vs = []
  | RetType t => ∃ v, vs = [v] ∧ reply_typed t v
  | RetTuple ts => Forall2 (typed named) ts vs
  end.
(** [answers fn vs result]: [result] is what the contract returns for the results [vs]. *)
Definition answers (fn : Function) (vs : list value) (result : option ScVal) : Prop :=
  match Returns fn with
  | RetVoid => True
  | RetType t => ∃ v sc, vs = [v] ∧ reply t v = GVal sc ∧ result = Some sc
  | RetTuple ts => ∃ scs, Forall3 (λ t v sc, to_field env t v = GVal sc) ts vs scs ∧
                     result = Some (ScVal.VecToScVal scs)
  end.

Context (Hstruct : ∀ n, struct_known n = true →
  known n = true ∧ ∃ c, env n = Some c ∧ isStruct c = true ∧ ∀ v, toScVal c v ≠ GVal ScvVoid).

(** The types that a result and a field have in common are read in the same way. *)
Lemma return_payload t v sc : payload_ok known t = true → (∀ ctx, from_payload env ctx t sc = GVal v) →
  from_return env t sc = GVal v.
Proof.
  intros Ht Hv. specialize (Hv "").
  destruct t; try done; cbn [from_payload from_return] in Hv |- *; try done.
  all: try (match type of Hv with (_ <$> gwrap _ ?g) = _ => by destruct g end).
  all: try (match type of Hv with gwrap _ ?g = _ => by destruct g end).
  all: match type of Hv with (?g ≫= _) = _ => destruct g as [[]| |] end; done.
Qed.

Lemma optional_address_item s : scalar_typed named (ROption RAddress) (VOptString s) →
  from_item env (ROption RAddress) (ScVal.OptionalAddressToScVal s) = GVal (VOptString s).
Proof.
  destruct s as [s|]; [|done]. intros Hs. cbn [from_item].
  change (ScVal.OptionalAddressFromScVal (ScVal.OptionalAddressToScVal (Some s)))
    with (a ← ScVal.AddressFromScVal (ScVal.AddressToScVal s); GVal (Some a)).
  by rewrite address_there_and_back.
Qed.

Lemma vec_return t l scs : return_ok known struct_known (RVec t) = true →
  Forall2 (λ v sc, from_item env t sc = GVal v) l scs →
  from_return env (RVec t) (ScVal.VecToScVal scs) = GVal (VSlice l).
Proof.
  intros Ht Hl. pose proof (items_back env t l scs Hl) as Hb.
  assert (from_return env (RVec t) (ScVal.VecToScVal scs) =
          (VSlice <$> gimapM (λ _, from_item env t) scs)) as ->.
  { destruct t as [| | | | | | | | | |[]| |]; done. }
  by rewrite Hb.
Qed.

Lemma return_roundtrip t v : return_ok known struct_known t = true → reply_typed t v →
  ∃ sc, reply t v = GVal sc ∧ from_return env t sc = GVal v.
Proof.
  intros Ht Hv. destruct t as [| | | | | | | | |n|t|t|n].
  12: { destruct v as [| | | | | |l| | |]; try done.
        destruct (decide (t = ROption RAddress)) as [->|Hne].
        - destruct (slice_roundtrip env named VOptString (λ v, match v with VOptString o => Some o | _ => None end)
            ScVal.OptionalAddressToScVal (ROption RAddress) l) as (xs & Hx & Hxs); try done.
          { intros []; try done. by eexists. }
          { intros v a Hs ->. by apply optional_address_item. }
          cbn [reply slice]. rewrite Hx. eexists. split; [done|]. by apply vec_return.
        - destruct (vec_roundtrip env named known Henv t l) as (scs & Hs & Hb).
          { by destruct t as [| | | | | | | | | |[]| |]. }
          { done. }
          exists (ScVal.VecToScVal scs). split; [|by apply vec_return].
          by destruct t as [| | | | | | | | | |[]| |]. }
  11: { destruct t as [| | | | |  | | | | | | |n]; try done.
        - destruct v as [| | | | |[s|]| | | |]; try done.
          + exists (ScVal.AddressToScVal s). split; [done|].
            pose proof (optional_address_item (Some s) Hv) as Hb. done.
          + by exists ScvVoid.
        - destruct (Hstruct n Ht) as (Hk & c & Hc & Hs & Hvoid).
          destruct v as [| | | | | | | | |[w|]]; try done.
          + destruct (named_roundtrip env named known Henv n w) as (sc & Hsc & Hb); [done..|].
            exists sc. split; [done|]. cbn [from_return]. rewrite Hc, Hs.
            unfold named_from in Hb. rewrite Hc in Hb. rewrite Hb.
            destruct sc; try done. unfold named_to in Hsc. rewrite Hc in Hsc. by destruct (Hvoid w).
          + exists ScvVoid. split; [done|]. cbn [from_return]. by rewrite Hc, Hs. }
  all: destruct (payload_roundtrip env named known Henv _ v Ht Hv) as (sc & Hsc & Hb); exists sc; split;
    [done|by apply return_payload].
Qed.

Lemma tuple_item_back i t j v sc : element_ok known (RVec t) = true → from_item env t sc = GVal v →
  tuple_item env i t j sc = GVal v.
Proof.
  intros Ht Hv. destruct t; try done; cbn [from_item tuple_item] in Hv |- *.
  all: try (match type of Hv with (_ <$> ?g) = _ => by destruct g end).
  - by destruct sc; try done; match goal with p : option _ |- _ => by destruct p end.
  - by destruct (GetBytes sc) as [[]| |].
  - by rewrite Hv.
Qed.

Lemma element_roundtrip i t v sc : element_ok known t = true → typed named t v →
  to_field env t v = GVal sc → tuple_element env i t sc = GVal v.
Proof.
  intros Ht Hv Hsc. destruct t as [| | | | | | | | |n|t|t|n]; try done.
  8: { destruct v as [| | | | | |l| | |]; try done.
        destruct (vec_roundtrip env named known Henv t l) as (scs & Hs & Hb); [by destruct t|done|].
        rewrite Hs in Hsc. injection Hsc as <-.
        assert (gimapM (tuple_item env i t) scs = GVal l) as Hg.
        { apply gimapM_back. eapply Forall2_impl; [exact Hb|]. intros w sc Hw j. by apply tuple_item_back. }
        change (tuple_element env i (RVec t) (ScVal.VecToScVal scs))
          with (VSlice <$> gimapM (tuple_item env i t) scs). by rewrite Hg. }
  all: destruct (payload_roundtrip env named known Henv _ v Ht Hv) as (sc' & Hsc' & Hb);
    rewrite Hsc' in Hsc; injection Hsc as <-; exact (Hb (tuple_context i)).
Qed.

Lemma tuple_roundtrip i ts vs scs : forallb (element_ok known) ts = true → Forall2 (typed named) ts vs →
  Forall3 (λ t v sc, to_field env t v = GVal sc) ts vs scs → tuple_elements env i ts scs = GVal vs.
Proof.
  intros Ht Hv Hs. revert i Ht Hv. induction Hs as [|t v sc ts vs scs Hsc Hs IH]; intros i Ht Hv; [done|].
  cbn [forallb] in Ht. apply andb_true_iff in Ht as [Ht Hts]. apply Forall2_cons in Hv as [Hv Hvs].
  cbn [tuple_elements]. rewrite (element_roundtrip i t v sc) by done. cbn [mbind gres_bind].
  by rewrite (IH (S i)).
Qed.

Lemma elements_written ts vs : forallb (element_ok known) ts = true → Forall2 (typed named) ts vs →
  ∃ scs, Forall3 (λ t v sc, to_field env t v = GVal sc) ts vs scs.
Proof.
  intros Ht Hv. induction Hv as [|t v ts vs Hv Hvs IH]; [exists []; constructor|].
  cbn [forallb] in Ht. apply andb_true_iff in Ht as [Ht Hts]. destruct (IH Hts) as (scs & Hs).
  assert (field_ok known t = true) as Hok by by destruct t as [| | | | | | | | | | |[]|].
  destruct (field_roundtrip env named known Henv t v Hok Hv) as (sc & Hsc & _).
  exists (sc :: scs). by constructor.
Qed.

(** What the contract answers is what the method returns. *)
Lemma results_roundtrip fn vs : function_ok known struct_known fn = true → replies_typed fn vs →
  (∃ result, answers fn vs result) ∧ ∀ result, answers fn vs result → results_of env fn result = GVal vs.
Proof.
  unfold function_ok, replies_typed, answers, results_of. intros [_ Hok]%andb_true_iff Hv.
  destruct (Returns fn) as [|t|ts].
  - split; [by exists None|]. by subst.
  - destruct Hv as (v & -> & Hv). destruct (return_roundtrip t v Hok Hv) as (sc & Hsc & Hb). split.
    + by exists (Some sc), v, sc.
    + intros result (v' & sc' & [= <-] & Hsc' & ->). rewrite Hsc in Hsc'. injection Hsc' as <-. by rewrite Hb.
  - split.
    + destruct (elements_written ts vs Hok Hv) as (scs & Hs). by eexists _, scs.
    + intros result (scs & Hs & ->). cbn [got_vec ScVal.VecToScVal GetVec arm deref fmap gres_fmap mbind gres_bind].
      assert (length scs = length ts) as -> by (symmetry; by eapply Forall3_length_lr).
      rewrite Nat.eqb_refl. cbn [negb]. by eapply tuple_roundtrip.
Qed.

(** ** A method is one call *)

Section method.
Context {W : Type} {E : Type → Type} {IV : Invoker W E}.

(** The call, a transaction or a simulation. *)
Definition the_call (contractID : string) (fn : Function) (args : list ScVal) : prog W E (gres (option ScVal)) :=
  (if isReadOnlyFunction fn then SimulateCall else Invoke) contractID (functionName fn) args.

Lemma method_one_call contractID fn vs :
  forallb (arg_ok known ∘ fieldType) (Inputs fn) = true → fields_typed named (Inputs fn) vs →
  ∃ args, carries (Inputs fn) vs args ∧
    method env contractID fn vs =
      (result <-? gctx ("failed to call " +:+ functionName fn) (the_call contractID fn args);
       Ret (results_of env fn result)).
Proof.
  intros Hok Hv. destruct (args_carry (Inputs fn) vs Hok Hv) as (args & Ha & Hc).
  exists args. split; [done|]. unfold method. rewrite Ha. unfold the_call. by destruct (isReadOnlyFunction fn).
Qed.
End method.

(** ** Events *)

Lemma event_item_back t v sc : event_field_ok known (RVec t) = true → from_item env t sc = GVal v →
  event_item env t sc = GVal (Some v).
Proof.
  intros Ht Hv. unfold event_item. destruct t as [| | | | | | | | | |[]| |]; try done; try by rewrite Hv.
  cbn [from_item] in Hv. by destruct (GetBytes sc) as [[b|]| |]; try done; injection Hv as <-.
Qed.

Lemma event_slice_back t l scs : event_field_ok known (RVec t) = true →
  Forall2 (λ v sc, from_item env t sc = GVal v) l scs → event_slice env t scs = GVal (VSlice l).
Proof.
  intros Ht Hl. unfold event_slice. assert (gimapM (λ _, event_item env t) scs = GVal (Some <$> l)) as ->.
  { apply gimapM_back. apply Forall2_fmap_l. eapply Forall2_impl; [exact Hl|]. intros v sc Hv _. by apply event_item_back. }
  cbn [mbind gres_bind]. do 2 f_equal. clear Hl.
  destruct (leaves_out env t); induction l as [|v l IH]; [done| |done|]; cbn; by f_equal.
Qed.

Lemma event_field_back t v sc old : event_field_ok known t = true → typed named t v → reply t v = GVal sc →
  event_field env t old sc = GVal v.
Proof.
  intros Ht Hv Hsc. destruct t as [| | | | | | | | |n|t|t|n]; try done.
  11: { destruct v as [| | | | | |l| | |]; try done.
        destruct (decide (t = ROption RAddress)) as [->|Hne].
        - destruct (slice_roundtrip env named VOptString (λ v, match v with VOptString o => Some o | _ => None end)
            ScVal.OptionalAddressToScVal (ROption RAddress) l) as (xs & Hx & Hxs); try done.
          { intros []; try done. by eexists. }
          { intros v a Hs ->. by apply optional_address_item. }
          cbn [reply slice] in Hsc. rewrite Hx in Hsc. injection Hsc as <-. by apply event_slice_back.
        - destruct (vec_roundtrip env named known Henv t l) as (scs & Hs & Hb).
          { by destruct t as [| | | | | | | | | |[]| |]. }
          { done. }
          assert (reply (RVec t) (VSlice l) = to_field env (RVec t) (VSlice l)) as E
            by by destruct t as [| | | | | | | | | |[]| |].
          rewrite E, Hs in Hsc. injection Hsc as <-. by apply event_slice_back. }
  10: { destruct t; try done. destruct v as [| | | | |[s|]| | | |]; try done; injection Hsc as <-; [|done].
        pose proof (optional_address_item (Some s) Hv) as Hb. cbn [event_field from_field].
        cbn [from_item] in Hb. by destruct (ScVal.OptionalAddressFromScVal _); try done; injection Hb as ->. }
  all: destruct (payload_roundtrip env named known Henv _ v Ht Hv) as (sc' & Hsc' & Hb);
    cbn [reply] in Hsc; rewrite Hsc' in Hsc; injection Hsc as ->; specialize (Hb "");
    cbn [from_payload event_field from_field] in Hb |- *; try (by rewrite Hb).
  all: match type of Hb with (?g ≫= _) = _ => destruct g as [[]| |] end; try done; by injection Hb as <-.
Qed.

(** The entries of an event that carries [vs], in any order. *)
Definition emits (fields : list Field) (vs : list value) (kvs : list (string * ScVal)) : Prop :=
  kvs.*1 ≡ₚ fieldName <$> fields ∧
  ∀ k sc, (k, sc) ∈ kvs → ∃ i f v, fields !! i = Some f ∧ vs !! i = Some v ∧ fieldName f = k ∧
    reply (fieldType f) v = GVal sc.

Lemma event_parsed ev e vs kvs :
  event_ok known ev = true → fields_typed named (eventFields ev) vs → emits (eventFields ev) vs kvs →
  UnmarshalScVal (TypeConverters.peValueXDR e) =
    Ok (ScvMap (Some (Some (prod_map ScVal.SymbolToScVal id <$> kvs)))) →
  ParseEvent env ev e = GVal (vs, uint32 (TypeConverters.peLedger e), TypeConverters.peTransactionHash e).
Proof.
  unfold event_ok. intros [[Hok Hnd%bool_decide_eq_true]%andb_true_iff _]%andb_true_iff Hv [Hks Hkv] He.
  unfold ParseEvent. rewrite He. cbn [of_result gwrap mbind gres_bind got_map GetMap arm deref fmap gres_fmap].
  change (list_fmap _ _ (prod_map ScVal.SymbolToScVal id) kvs) with (prod_map ScVal.SymbolToScVal id <$> kvs).
  rewrite forallb_forall in Hok.
  unfold event_switch.
  rewrite (fields_loop (λ sc f old, event_field env (fieldType f) old sc) _ vs kvs);
    [done|done|symmetry; by eapply Forall2_length|apply length_fmap| |].
  - intros k sc Hin. destruct (Hkv k sc Hin) as (i & f & v & Hf & Hvi & Hn & Hr).
    exists i, f, v. repeat split; try done. intros old.
    assert (typed named (fieldType f) v) as Htv by by eapply (Forall2_lookup_lr _ _ _ _ _ _ Hv).
    apply event_field_back; [|done..]. apply Hok, list_elem_of_In. by eapply list_elem_of_lookup_2.
  - intros i f Hf. left. rewrite Hks. apply list_elem_of_fmap. exists f. split; [done|].
    by eapply list_elem_of_lookup_2.
Qed.
End calls.

(** ** Panics *)

Section safety.
Context {UT : UnicodeTables} {XS : XdrSdk} {XL : XdrLaws}.
Context (env : string → option codec) (known struct_known : string → bool).
Context (Henv : ∀ n, known n = true → ∃ c, env n = Some c ∧ safe c).
Context (Hstruct : ∀ n, struct_known n = true →
  known n = true ∧ ∃ c, env n = Some c ∧ isStruct c = true ∧ ∀ v, toScVal c v ≠ GVal ScvVoid).

Lemma return_payload_safe t v : payload_ok known t = true → valid v = true →
  panics (from_return env t v) = false.
Proof.
  intros Ht Hv. pose proof (payload_safe env known Henv "" t v Ht Hv) as Hp.
  destruct t; try done; cbn [from_payload from_return] in Hp |- *;
    rewrite ?panics_fmap, ?panics_gwrap in Hp; rewrite ?panics_fmap; try done.
  all: match goal with |- panics (?g ≫= _) = _ => destruct g as [[]| |] end; done.
Qed.

Lemma items_safe err t v : (∀ x, valid x = true → panics (from_item env t x) = false) → valid v = true →
  panics (l ← got_vec err v; VSlice <$> gimapM (λ _, from_item env t) l) = false.
Proof.
  intros Ht Hv. assert (panics (l ← got_vec err v; gimapM (λ _, from_item env t) l) = false) as Hp
    by (apply vec_no_panic; eauto).
  destruct (got_vec err v); try done. cbn [mbind gres_bind] in Hp |- *. by rewrite panics_fmap.
Qed.

Lemma return_safe t v : return_ok known struct_known t = true → valid v = true →
  panics (from_return env t v) = false.
Proof.
  intros Ht Hv. destruct t as [| | | | | | | | |n|t|t|n]; try (by apply return_payload_safe).
  - destruct t as [| | | | | | | | |n|t|t|n]; try done.
    + cbn [from_return]. rewrite panics_fmap. by apply optional_address_safe.
    + destruct (Hstruct n Ht) as (Hk & _). destruct (Henv n Hk) as (c & Hc & Hsafe).
      destruct (Hstruct n Ht) as (_ & c' & Hc' & Hs & _). cbn [from_return]. rewrite Hc' in Hc |- *.
      injection Hc as ->. rewrite Hs. pose proof (Hsafe v Hv) as Hp.
      destruct v; try done; (apply panics_bind; [exact Hp|done]).
  - assert (panics (l ← got_vec "expected vec return type" v; VSlice <$> gimapM (λ _, from_item env t) l) = false) as Hp.
    { apply items_safe; [|done]. intros x Hx.
      destruct t as [| | | | | | | | | |[]| |]; try done; try (by eapply item_safe).
      cbn [from_item]. rewrite panics_fmap. by apply optional_address_safe. }
    by destruct t as [| | | | | | | | | |[]| |].
Qed.

Lemma tuple_item_safe i t j v : element_ok known (RVec t) = true → valid v = true →
  panics (tuple_item env i t j v) = false.
Proof.
  intros Ht Hv. assert (payload_ok known t = true) as Hok by by destruct t.
  set (ctx := tuple_context i +:+ "[" +:+ pretty j +:+ "]").
  pose proof (payload_safe env known Henv ctx t v Hok Hv) as Hp. by destruct t.
Qed.
Lemma element_safe i t v : element_ok known t = true → valid v = true →
  panics (tuple_element env i t v) = false.
Proof.
  intros Ht Hv. destruct t as [| | | | | | | | |n|t|t|n]; try done.
  8: { cbn [tuple_element].
       assert (panics (l ← got_vec (tuple_context i +:+ ": expected vec") v; gimapM (tuple_item env i t) l) = false) as Hp.
       { apply vec_no_panic; [|done]. intros j x Hx. by apply tuple_item_safe. }
       destruct (got_vec _ v); try done. cbn [mbind gres_bind] in Hp |- *. by rewrite panics_fmap. }
  all: exact (payload_safe env known Henv (tuple_context i) _ v Ht Hv).
Qed.

Lemma tuple_safe i ts vec : forallb (element_ok known) ts = true → forallb valid vec = true →
  panics (tuple_elements env i ts vec) = false.
Proof.
  revert i vec. induction ts as [|t ts IH]; intros i vec Ht Hv; [done|]. destruct vec as [|x vec]; [done|].
  cbn [forallb] in Ht, Hv. apply andb_true_iff in Ht as [Ht Hts]. apply andb_true_iff in Hv as [Hx Hv].
  cbn [tuple_elements]. apply panics_bind; [by apply element_safe|]. intros v.
  apply panics_bind; [by apply IH|done].
Qed.

(** A method does not panic on an answer off the wire. *)
Lemma results_safe fn result : function_ok known struct_known fn = true →
  match result with Some v => valid v = true | None => True end → panics (results_of env fn result) = false.
Proof.
  unfold function_ok, results_of. intros [_ Hok]%andb_true_iff Hv.
  destruct (Returns fn) as [|t|ts], result as [v|]; try done.
  - apply panics_bind; [by apply return_safe|done].
  - destruct v as [| | | | | | | | | | | | | | | |[[l|]|]| | | | | |]; try done.
    cbn [got_vec GetVec arm deref fmap gres_fmap mbind gres_bind]. destruct (negb _); [done|]. by apply tuple_safe.
Qed.

(** An event that does not decode is an error, never a panic; on a map it is never an error:
    what does not decode is left as it was. *)
Definition defined {A} (g : gres A) : Prop := ∃ a, g = GVal a.
Lemma gtry_defined {A} (g : gres A) : panics g = false → defined (gtry g).
Proof. apply gtry_total. Qed.
Lemma defined_bind {A B} (f : A → gres B) g : defined g → (∀ a, defined (f a)) → defined (g ≫= f).
Proof. intros [a ->] Hf. apply Hf. Qed.

Lemma event_item_defined t v : event_field_ok known (RVec t) = true → valid v = true →
  defined (event_item env t v).
Proof.
  intros Ht Hv. destruct t as [| | | | | | | | | |[]| |]; try done; cbn [event_item].
  all: try (apply gtry_defined; by eapply item_safe).
  - destruct (GetBytes_valid v Hv) as [b ->]. by eexists.
  - apply gtry_defined. cbn [from_item]. rewrite panics_fmap. by apply optional_address_safe.
Qed.

Lemma event_field_defined t old v : event_field_ok known t = true → valid v = true →
  defined (event_field env t old v).
Proof.
  intros Ht Hv. destruct t as [| | | | | | | | |n|t|t|n]; try done.
  11: { cbn [event_field]. destruct (GetVec_valid v Hv) as [[[l|]|] E]; rewrite E; try by eexists.
        destruct v as [| | | | | | | | | | | | | | | |[m|]| | | | | |]; try done. cbn in E. injection E as ->.
        cbn [mbind gres_bind]. apply defined_bind; [|by eexists].
        cbn [valid] in Hv. rewrite forallb_forall in Hv. unfold gimapM. generalize 0%nat as j.
        induction l as [|x l IH]; intros j; [by eexists|]. cbn [gimapM_from].
        apply defined_bind; [apply event_item_defined; [done|apply Hv; by left]|]. intros y.
        apply defined_bind; [apply IH; intros z Hz; apply Hv; by right|by eexists]. }
  2: { cbn [event_field]. destruct (GetU32_valid v Hv) as [x ->]. by eexists. }
  4: { cbn [event_field]. destruct (GetB_valid v Hv) as [x ->]. by eexists. }
  5: { cbn [event_field]. destruct (GetBytes_valid v Hv) as [x ->]. by eexists. }
  all: apply defined_bind; [|by eexists]; apply gtry_defined; by eapply field_safe.
Qed.

Lemma fields_switch_defined read fields key vs :
  (∀ f old, f ∈ fields → defined (read f old)) → defined (fields_switch read fields key vs).
Proof.
  intros Hr. revert vs. induction fields as [|f fields IH]; intros vs; [by eexists|].
  destruct vs as [|x vs]; [by eexists|]. cbn [fields_switch]. case_decide.
  - apply defined_bind; [apply Hr; by left|by eexists].
  - destruct (IH ltac:(intros g old Hg; apply Hr; by right) vs) as [vs' ->]. by eexists.
Qed.

Lemma event_defined ev e l : event_ok known ev = true →
  UnmarshalScVal (TypeConverters.peValueXDR e) = Ok (ScvMap (Some (Some l))) →
  ∃ vs, ParseEvent env ev e = GVal (vs, uint32 (TypeConverters.peLedger e), TypeConverters.peTransactionHash e).
Proof.
  unfold event_ok. intros [[Hok _]%andb_true_iff _]%andb_true_iff He. rewrite forallb_forall in Hok.
  pose proof (Unmarshal_valid _ _ He) as Hl. unfold ParseEvent. rewrite He.
  cbn [of_result gwrap mbind gres_bind got_map GetMap arm deref fmap gres_fmap].
  destruct (for_entries_valid (event_switch env (eventFields ev)) l) with (s := struct_zero env (eventFields ev))
    as [vs Hvs]; [|exact Hl|].
  - intros k v vs Hv. apply fields_switch_defined. intros f old Hf. apply event_field_defined; [|done].
    apply Hok. by apply list_elem_of_In.
  - rewrite Hvs. by eexists.
Qed.

Lemma event_safe ev e : event_ok known ev = true → panics (ParseEvent env ev e) = false.
Proof.
  intros Hok. unfold ParseEvent. destruct (UnmarshalScVal (TypeConverters.peValueXDR e)) as [v|] eqn:He; [|done].
  cbn [of_result gwrap mbind gres_bind]. pose proof (Unmarshal_valid _ _ He) as Hv.
  destruct v as [| | | | | | | | | | | | | | | | |[[l|]|]| | | | |]; try done.
  destruct (event_defined ev e l Hok He) as [vs E]. unfold ParseEvent in E. rewrite He in E.
  cbn [of_result gwrap mbind gres_bind] in E. by rewrite E.
Qed.
End safety.

(** ** Waiting *)

Section waiting.
Context {UT : UnicodeTables} {XS : XdrSdk}.
Context (env : string → option codec) (contractID : string) (ev : Event).
Context (filter : option (parsed_event → bool)).

(** An event that the loop passes over. *)
Definition skipped (e : TypeConverters.protocol_EventInfo) : Prop :=
  ∀ p, ParseEvent env ev e = GVal p → wanted filter p = false.
(** [p] is the first wanted one of a listing. *)
Definition first_of (l : list TypeConverters.protocol_EventInfo) (p : parsed_event) : Prop :=
  ∃ l1 e l2, l = l1 ++ e :: l2 ∧ Forall skipped l1 ∧ ParseEvent env ev e = GVal p ∧ wanted filter p = true.

Lemma first_wanted_some l p : first_wanted env ev filter l = GVal (Some p) → first_of l p.
Proof.
  induction l as [|e l IH]; [done|]. cbn [first_wanted].
  destruct (ParseEvent env ev e) as [p'|err|m] eqn:Hp; cbn [gtry mbind gres_bind]; [|intros H|done].
  - destruct (wanted filter p') eqn:Hw.
    + intros [= ->]. by exists [], e, l.
    + intros H. destruct (IH H) as (l1 & e1 & l2 & -> & Hs & ?). exists (e :: l1), e1, l2. split; [done|].
      split; [|done]. constructor; [|done]. intros p1. rewrite Hp. by intros [= <-].
  - destruct (IH H) as (l1 & e1 & l2 & -> & Hs & ?). exists (e :: l1), e1, l2. split; [done|].
    split; [|done]. constructor; [|done]. intros p1. by rewrite Hp.
Qed.
Lemma first_wanted_none l : first_wanted env ev filter l = GVal None → Forall skipped l.
Proof.
  induction l as [|e l IH]; [by constructor|]. cbn [first_wanted].
  destruct (ParseEvent env ev e) as [p'|err|m] eqn:Hp; cbn [gtry mbind gres_bind]; [|intros H|done].
  - destruct (wanted filter p') eqn:Hw; [done|]. intros H. constructor; [|by apply IH].
    intros p1. rewrite Hp. by intros [= <-].
  - constructor; [|by apply IH]. intros p1. by rewrite Hp.
Qed.
Lemma first_wanted_safe l : (∀ e, panics (ParseEvent env ev e) = false) →
  panics (first_wanted env ev filter l) = false.
Proof.
  intros Hs. induction l as [|e l IH]; [done|]. cbn [first_wanted]. specialize (Hs e).
  destruct (ParseEvent env ev e) as [p'|err|m]; cbn [gtry mbind gres_bind]; try done. by destruct (wanted filter p').
Qed.

(** The listings so far had nothing wanted. *)
Definition listing (x : event (E := wait_ext)) : option (list TypeConverters.protocol_EventInfo) :=
  match x with
  | existT _ (e, a) =>
      match e in wait_ext X return X → option (list TypeConverters.protocol_EventInfo) with
      | GetEvents _ _ _ => λ r, match r with GVal l => Some l | _ => None end
      | _ => λ _, None
      end a
  end.
Definition nothing_wanted (h : hist) : Prop := ∀ x l, x ∈ h → listing x = Some l → Forall skipped l.
Lemma nothing_wanted_snoc h x :
  nothing_wanted h → (∀ l, listing x = Some l → Forall skipped l) → nothing_wanted (h ++ [x]).
Proof.
  intros Hh Hx y l [Hin|Hin]%elem_of_app; [by eapply Hh|]. apply list_elem_of_singleton in Hin as ->. apply Hx.
Qed.

(** What the loop returns, with the history of its calls. *)
Definition wait_result (startLedger : Z) (topic : string) (r : option (gres parsed_event)) (h : hist) : Prop :=
  match r with
  | Some (GVal p) => ∃ h0 l, h = h0 ++ [answered (GetEvents contractID startLedger [topic]) (GVal l)] ∧
      nothing_wanted h0 ∧ first_of l p
  | _ => nothing_wanted h
  end.

Lemma wait_loop_first fuel topic startLedger startTime timeout w h :
  nothing_wanted h →
  traced (wait_loop env contractID ev fuel topic startLedger startTime timeout filter) w h
    (λ r _ h', wait_result startLedger topic r h').
Proof.
  revert h. induction fuel as [|fuel IH]; intros h Hh; [exact Hh|]. cbn [wait_loop].
  apply traced_call. intros [err|]; [by apply nothing_wanted_snoc|]. apply traced_call. intros now.
  assert (nothing_wanted ((h ++ [answered Select None]) ++ [answered Now now])) as Hh1
    by (apply nothing_wanted_snoc; [by apply nothing_wanted_snoc|done]).
  case_match; [done|]. apply traced_call. intros [l|err|m]; [|apply IH; by apply nothing_wanted_snoc|done].
  destruct (first_wanted env ev filter l) as [[p|]|err|m] eqn:Hf; [| | |done].
  - eexists _, l. repeat split; [done|]. by apply first_wanted_some.
  - apply IH. apply nothing_wanted_snoc; [done|]. intros l' [= <-]. by apply first_wanted_none.
  - exfalso. clear -Hf. induction l as [|e l IH]; [done|]. cbn [first_wanted] in Hf.
    destruct (ParseEvent env ev e); cbn [gtry mbind gres_bind] in Hf; try done.
    destruct (wanted filter a); [done|by apply IH].
Qed.

Lemma wait_first fuel startLedger timeout w topic :
  head (Topics ev) = Some topic →
  traced (WaitFor env contractID ev fuel startLedger timeout filter) w []
    (λ r _ h, wait_result startLedger topic r h).
Proof.
  intros Ht. unfold WaitFor. destruct (Topics ev) as [|t ts]; [done|]. injection Ht as ->.
  apply traced_call. intros start. apply wait_loop_first.
  apply (nothing_wanted_snoc []); [by intros x l Hin%elem_of_nil|done].
Qed.

(** The loop ends: the clock advances by at least [period] from a turn to the next. *)
Section ends.
Context (answer : oracle (E := wait_ext)) (period : Z).
Context (Hclock : ∀ i j, (i + 3 <= j)%nat → answer Z i Now + period <= answer Z j Now).
Context (Hparse : ∀ e, panics (ParseEvent env ev e) = false).
Context (Hlisting : ∀ n id start topics, panics (answer _ n (GetEvents id start topics)) = false).

Lemma wait_loop_ends fuel topic startLedger startTime timeout n :
  0 <= period → timeout < answer Z (S n) Now - startTime + period * Z.of_nat fuel →
  ∃ r n', run answer (wait_loop env contractID ev (S fuel) topic startLedger startTime timeout filter) n tt =
            (Done (Some r), n', tt).
Proof.
  intros Hp. revert n. induction fuel as [|fuel IH]; intros n Ht; cbn [wait_loop run call mbind prog_mbind prog_bind].
  all: destruct (answer (option string) n Select) as [err|]; [by do 2 eexists|].
  all: cbn [prog_bind run].
  { rewrite (proj2 (Z.ltb_lt _ _)) by lia. by do 2 eexists. }
  destruct (Z.ltb_spec timeout (answer Z (S n) Now - startTime)); [by do 2 eexists|]. cbn [prog_bind run].
  assert (∃ r n', run answer (wait_loop env contractID ev (S fuel) topic startLedger startTime timeout filter)
            (S (S (S n))) tt = (Done (Some r), n', tt)) as (r & n' & Hr).
  { apply IH. pose proof (Hclock (S n) (S (S (S (S n)))) ltac:(lia)). lia. }
  pose proof (Hlisting (S (S n)) contractID startLedger [topic]) as Hl.
  destruct (answer _ (S (S n)) (GetEvents contractID startLedger [topic])) as [l|err|m]; [|by exists r, n'|done].
  pose proof (first_wanted_safe l Hparse) as Hf.
  destruct (first_wanted env ev filter l) as [[p|]|err|m]; [by do 2 eexists|by exists r, n'|by exists r, n'|done].
Qed.

Lemma wait_ends fuel startLedger timeout :
  Topics ev ≠ [] → 0 < period → timeout < period * Z.of_nat fuel → (∀ i j, (i <= j)%nat → answer Z i Now <= answer Z j Now) →
  ∃ r n', run answer (WaitFor env contractID ev (S fuel) startLedger timeout filter) 0 tt = (Done (Some r), n', tt).
Proof.
  intros Ht Hp Hf Hmono. unfold WaitFor. destruct (Topics ev) as [|topic ts]; [done|].
  cbn [run call mbind prog_mbind prog_bind].
  destruct (wait_loop_ends fuel topic startLedger (answer Z 0%nat Now) timeout 1) as (r & n' & Hr).
  - lia.
  - pose proof (Hmono 0%nat 2%nat ltac:(lia)). lia.
  - by exists r, n'.
Qed.
End ends.
End waiting.
End ClientProps.
