(* ===== verification/CommitteeVerifierClient.v ===== *)
(** [bindings/contracts/committee_verifier]: the generated types, errors, events and methods of the CommitteeVerifier
    contract. The data are what the generator parsed; each function is the template of
    [Codec] or [Client] that emits it, on its data. *)

From stdpp Require Import base list strings.
From S2P Require Import Prelude GoStrings Prog Xdr ScVal TypeConverters Ccv Codec Client.
Import Xdr.

Local Open Scope Z_scope.

(** ** Types *)

Definition FeeResponse : Struct := mkStruct "FeeResponse"
  [mkField "dest_bytes_overhead" U32; mkField "dest_gas_limit" U32; mkField "fee" U32].
Definition DynamicConfig : Struct := mkStruct "DynamicConfig"
  [mkField "allowlist_admin" (ROption RAddress); mkField "fee_aggregator" (ROption RAddress)].
Definition RemoteChainConfig : Struct := mkStruct "RemoteChainConfig"
  [mkField "allowlist_enabled" RBool; mkField "fee_usd_cents" U32; mkField "gas_for_verification" U32;
   mkField "payload_size_bytes" U32; mkField "remote_chain_selector" U64;
   mkField "router" (ROption RAddress)].
Definition AllowListEntry : Struct := mkStruct "AllowListEntry"
  [mkField "allowlist" (RVec RAddress); mkField "allowlist_enabled" RBool].
Definition AllowListUpdate : Struct := mkStruct "AllowListUpdate"
  [mkField "added_allowlisted_senders" (RVec RAddress); mkField "allowlist_enabled" RBool;
   mkField "dest_chain_selector" U64; mkField "removed_allowlisted_senders" (RVec RAddress)].
Definition TokenAmount : Struct := mkStruct "TokenAmount" [mkField "amount" I128; mkField "token" RAddress].
Definition GenericExtraArgsV3 : Struct := mkStruct "GenericExtraArgsV3"
  [mkField "block_confirmations" U32; mkField "ccv_args" (RVec RBytes); mkField "ccvs" (RVec RAddress);
   mkField "executor" RAddress; mkField "executor_args" RBytes; mkField "gas_limit" U32;
   mkField "token_args" RBytes; mkField "token_receiver" RBytes].
Definition AnyToStellarMessage : Struct := mkStruct "AnyToStellarMessage"
  [mkField "data" RBytes; mkField "dest_token_amounts" (RVec (RNamed "TokenAmount"));
   mkField "message_id" (RBytesN 32); mkField "sender" RBytes; mkField "source_chain_selector" U64].
Definition StellarToAnyMessage : Struct := mkStruct "StellarToAnyMessage"
  [mkField "data" RBytes; mkField "extra_args" RBytes; mkField "fee_token" RAddress;
   mkField "receiver" RBytes; mkField "token_amounts" (RVec (RNamed "TokenAmount"))].
Definition SignatureQuorumConfig : Struct := mkStruct "SignatureQuorumConfig"
  [mkField "signers" (RVec (RBytesN 32)); mkField "source_chain_selector" U64; mkField "threshold" U32].

(** ** Errors *)

Definition CCIPError : ErrorEnum := mkErrorEnum "CCIPError"
  [("NotInitialized", 1); ("AlreadyInitialized", 2); ("Unauthorized", 3); ("NotOwner", 4);
   ("NoPendingOwner", 5); ("CallerNotAuthorized", 6); ("CallerAlreadyAuthorized", 7); ("CallerNotFound", 8);
   ("RoleNotGranted", 9); ("FeatureNotEnabled", 10); ("RoleAlreadyGranted", 11); ("CannotRenounceRole", 12);
   ("InvalidVersionTag", 13); ("InvalidSignatureLength", 14); ("InvalidSignature", 15);
   ("InvalidSignatureCount", 16); ("InvalidSignatureThreshold", 17); ("InvalidSignaturePubkey", 18);
   ("SourceSignersNotConfigured", 19); ("InvalidVerifierResults", 20); ("ReentrantCall", 21);
   ("TokenNotSupported", 22); ("FeeTokenNotSupported", 23); ("NoGasPriceAvailable", 24);
   ("DestinationChainNotEnabled", 25); ("InvalidExtraArgsTag", 26); ("InvalidExtraArgsData", 27);
   ("MessageGasLimitTooHigh", 28); ("MessageTooLarge", 29); ("UnsupportedNumberOfTokens", 30);
   ("InvalidDestChainConfig", 31); ("MessageFeeTooHigh", 32); ("InvalidStaticConfig", 33);
   ("InvalidTokenReceiver", 34); ("SourceTokenDataTooLarge", 35); ("InvalidDestBytesOverhead", 36);
   ("DestinationChainNotSupported", 37); ("MustBeCalledByRouter", 38); ("RouterMustSetOriginalSender", 39);
   ("CannotSendZeroTokens", 40); ("CanOnlySendOneTokenPerMessage", 41); ("UnsupportedToken", 42);
   ("InvalidDestChainAddress", 43); ("FeeExceedsMaxAllowed", 44); ("InsufficientFeeTokenAmount", 45);
   ("TokenReceiverNotAllowed", 46); ("CursedByRMN", 47); ("RemoteChainNotSupported", 48);
   ("SenderNotAllowed", 49); ("InvalidTokenAmount", 50); ("InvalidReceiverAddress", 51);
   ("InvalidConfig", 52); ("InvalidVerifierResultsLength", 53); ("InboundImplementationNotFound", 54);
   ("OutboundImplementationNotFound", 55); ("InvalidAddress", 56); ("InvalidChainSelector", 57);
   ("InvalidVersion", 58); ("InvalidCCVVersion", 59); ("OffRampAlreadyExists", 60); ("OffRampMismatch", 61);
   ("BadRMNSignal", 62); ("UnsupportedDestinationChain", 63); ("AlreadyCursed", 64); ("ConfigNotSet", 65);
   ("DuplicateOnchainPublicKey", 66); ("InvalidSignerOrder", 67); ("NotEnoughSigners", 68);
   ("NotCursed", 69); ("OutOfOrderSignatures", 70); ("ThresholdNotMet", 71); ("UnexpectedSigner", 72);
   ("ZeroValueNotAllowed", 73); ("SourceChainNotEnabled", 100); ("InvalidSourceChainConfig", 101);
   ("InvalidOnRampAddress", 102); ("InvalidOffRampAddress", 103); ("InvalidMessageDestination", 104);
   ("MessageAlreadyExecuted", 105); ("InvalidExecutionState", 106); ("CCVLengthMismatch", 107);
   ("CCVQuorumNotMet", 108); ("ReceiverError", 109); ("GasLimitOverrideTooLow", 110);
   ("InvalidReceiverLength", 111); ("TokenHandlingError", 112); ("MessageDecodingError", 113);
   ("ReceiverDoesNotExist", 114); ("ReceiverNotWasmContract", 115); ("RequiredCCVMissing", 116);
   ("OnlyRegistryModuleOrOwner", 201); ("OnlyAdministrator", 202); ("OnlyPendingAdministrator", 203);
   ("TokenAlreadyRegistered", 204); ("InvalidTokenPoolToken", 205); ("PoolTokenMismatch", 301);
   ("ChainNotSupported", 302); ("CallerIsNotRamp", 303); ("InsufficientPoolLiquidity", 304);
   ("InvalidRemotePoolAddress", 305); ("InvalidRemoteChainConfig", 306); ("InvalidRemoteChainDecimals", 307);
   ("DecimalAmountOverflow", 308); ("InvalidPoolTokenDecimals", 309); ("BucketOverfilled", 310);
   ("TokenMaxCapacityExceeded", 311); ("TokenRateLimitReached", 312); ("InvalidRateLimitRate", 313);
   ("DisabledNonZeroRateLimit", 314); ("InvalidRequestedFinality", 315);
   ("RequestedFinalityCanOnlyHaveOneMode", 316); ("InvalidChainForClient", 317);
   ("RouterNotConfigured", 318); ("InvalidFeeCalculation", 801); ("InvalidFeeTokenConversion", 802);
   ("ZeroFeeAggregatorNotAllowed", 803)].

(** ** Events *)

Definition ConfigSetEvent : Event := mkEvent "ConfigSetEvent" ["ccv_ConfigSet"]
  [mkField "dynamic_config" (RNamed "DynamicConfig")].
Definition SignatureConfigSetEvent : Event := mkEvent "SignatureConfigSetEvent" ["ccv_SignatureConfigSet"]
  [mkField "source_chain_selector" U64; mkField "signers" (RVec (RBytesN 32)); mkField "threshold" U32].
Definition RemoteChainConfigSetEvent : Event := mkEvent "RemoteChainConfigSetEvent" ["ccv_RemoteChainConfigSet"]
  [mkField "remote_chain_selector" U64; mkField "router" (ROption RAddress);
   mkField "allowlist_enabled" RBool].
Definition AllowListSendersAddedEvent : Event := mkEvent "AllowListSendersAddedEvent" ["ccv_AllowListSendersAdded"]
  [mkField "dest_chain_selector" U64; mkField "sender" RAddress].
Definition AllowListStateChangedEvent : Event := mkEvent "AllowListStateChangedEvent" ["ccv_AllowListStateChanged"]
  [mkField "dest_chain_selector" U64; mkField "allowlist_enabled" RBool].
Definition AllowListSendersRemovedEvent : Event := mkEvent "AllowListSendersRemovedEvent" ["ccv_AllowListSendersRemoved"]
  [mkField "dest_chain_selector" U64; mkField "sender" RAddress].
Definition StorageAdminTransferredEvent : Event := mkEvent "StorageAdminTransferredEvent" ["ccv_StorageAdminTransferred"]
  [mkField "from" RAddress; mkField "to" RAddress].
Definition StorageAdminTransferReqEvent : Event := mkEvent "StorageAdminTransferReqEvent" ["ccv_StorageAdminTransferReq"]
  [mkField "from" RAddress; mkField "to" RAddress].
Definition StorageLocationsUpdatedEvent : Event := mkEvent "StorageLocationsUpdatedEvent" ["ccv_StorageLocationsUpdated"]
  [mkField "old_locations" (RVec RBytes); mkField "new_locations" (RVec RBytes)].
Definition RoleGrantedEvent : Event := mkEvent "RoleGrantedEvent" ["auth_RoleGranted"]
  [mkField "role" RSymbol; mkField "account" RAddress; mkField "sender" RAddress].
Definition RoleRevokedEvent : Event := mkEvent "RoleRevokedEvent" ["auth_RoleRevoked"]
  [mkField "role" RSymbol; mkField "account" RAddress; mkField "sender" RAddress].
Definition AuthorizedCallerAddedEvent : Event := mkEvent "AuthorizedCallerAddedEvent" ["auth_CallerAdded"]
  [mkField "caller" RAddress].
Definition AuthorizedCallerRemovedEvent : Event := mkEvent "AuthorizedCallerRemovedEvent" ["auth_CallerRemoved"]
  [mkField "caller" RAddress].
Definition OwnershipTransferStartedEvent : Event := mkEvent "OwnershipTransferStartedEvent" ["auth_OwnerTransferStart"]
  [mkField "previous_owner" RAddress; mkField "new_owner" RAddress].

(** ** Functions *)

Definition owner : Function := mkFunction "owner" [] (RetType (ROption RAddress)).
Definition get_fee : Function := mkFunction "get_fee"
  [mkField "dest_chain_selector" U64; mkField "message" RBytes; mkField "extra_args" RBytes;
   mkField "block_confirmations" U32] (RetType (RNamed "FeeResponse")).
Definition is_owner : Function := mkFunction "is_owner" [mkField "addr" RAddress] (RetType RBool).
Definition init_owner : Function := mkFunction "init_owner" [mkField "owner" RAddress] RetVoid.
Definition initialize : Function := mkFunction "initialize"
  [mkField "owner" RAddress; mkField "dynamic_config" (RNamed "DynamicConfig");
   mkField "storage_locations" (RVec RBytes); mkField "rmn_proxy" RAddress;
   mkField "version_tag" (RBytesN 4)] RetVoid.
Definition version_tag : Function := mkFunction "version_tag" [] (RetType (RBytesN 4)).
Definition require_owner : Function := mkFunction "require_owner" [] (RetType RAddress).
Definition set_new_owner : Function := mkFunction "set_new_owner" [mkField "new_owner" RAddress] RetVoid.
Definition verify_message : Function := mkFunction "verify_message"
  [mkField "source_chain_selector" U64; mkField "message_hash" (RBytesN 32);
   mkField "verifier_results" RBytes] RetVoid.
Definition is_in_allowlist : Function := mkFunction "is_in_allowlist"
  [mkField "key" U64; mkField "addr" RAddress] (RetType RBool).
Definition accept_ownership : Function := mkFunction "accept_ownership" [] RetVoid.
Definition type_and_version : Function := mkFunction "type_and_version" [] (RetType RString).
Definition get_pending_owner : Function := mkFunction "get_pending_owner" [] (RetType (ROption RAddress)).
Definition get_dynamic_config : Function := mkFunction "get_dynamic_config"
  [] (RetType (RNamed "DynamicConfig")).
Definition set_dynamic_config : Function := mkFunction "set_dynamic_config"
  [mkField "dynamic_config" (RNamed "DynamicConfig")] RetVoid.
Definition transfer_ownership : Function := mkFunction "transfer_ownership"
  [mkField "new_owner" RAddress] RetVoid.
Definition extract_version_tag : Function := mkFunction "extract_version_tag"
  [mkField "verifier_results" RBytes] (RetType (RBytesN 4)).
Definition forward_to_verifier : Function := mkFunction "forward_to_verifier"
  [mkField "dest_chain_selector" U64; mkField "sender" RAddress; mkField "message_id" (RBytesN 32);
   mkField "fee_token" RAddress; mkField "fee_token_amount" I128;
   mkField "verifier_args" RBytes] (RetType RBytes).
Definition get_allowlist_entry : Function := mkFunction "get_allowlist_entry"
  [mkField "key" U64] (RetType (ROption (RNamed "AllowListEntry"))).
Definition validate_signatures : Function := mkFunction "validate_signatures"
  [mkField "source_chain_selector" U64; mkField "signed_hash" (RBytesN 32);
   mkField "signatures" RBytes] RetVoid.
Definition withdraw_fee_tokens : Function := mkFunction "withdraw_fee_tokens"
  [mkField "fee_tokens" (RVec RAddress)] RetVoid.
Definition get_signature_config : Function := mkFunction "get_signature_config"
  [mkField "source_chain_selector" U64] (RetType (RNamed "SignatureQuorumConfig")).
Definition is_allowlist_enabled : Function := mkFunction "is_allowlist_enabled"
  [mkField "key" U64] (RetType RBool).
Definition require_in_allowlist : Function := mkFunction "require_in_allowlist"
  [mkField "key" U64; mkField "address" RAddress] RetVoid.
Definition extract_signature_len : Function := mkFunction "extract_signature_len"
  [mkField "verifier_results" RBytes] (RetType U32).
Definition get_storage_locations : Function := mkFunction "get_storage_locations" [] (RetType (RVec RBytes)).
Definition apply_allowlist_updates : Function := mkFunction "apply_allowlist_updates"
  [mkField "updates" (RVec (RNamed "AllowListUpdate"))] RetVoid.
Definition apply_signature_configs : Function := mkFunction "apply_signature_configs"
  [mkField "source_chains_to_remove" (RVec U64);
   mkField "signature_configs" (RVec (RNamed "SignatureQuorumConfig"))] RetVoid.
Definition get_remote_chain_config : Function := mkFunction "get_remote_chain_config"
  [mkField "remote_chain_selector" U64] (RetType (RNamed "RemoteChainConfig")).
Definition update_storage_locations : Function := mkFunction "update_storage_locations"
  [mkField "new_locations" (RVec RBytes)] RetVoid.
Definition cancel_ownership_transfer : Function := mkFunction "cancel_ownership_transfer" [] RetVoid.
Definition get_all_signature_configs : Function := mkFunction "get_all_signature_configs"
  [] (RetType (RVec (RNamed "SignatureQuorumConfig"))).
Definition get_storage_locations_admin : Function := mkFunction "get_storage_locations_admin"
  [] (RetType RAddress).
Definition get_pending_storage_loc_admin : Function := mkFunction "get_pending_storage_loc_admin"
  [] (RetType (ROption RAddress)).
Definition accept_storage_locations_admin : Function := mkFunction "accept_storage_locations_admin"
  [] RetVoid.
Definition apply_remote_chain_cfg_updates : Function := mkFunction "apply_remote_chain_cfg_updates"
  [mkField "remote_chain_config_args" (RVec (RNamed "RemoteChainConfig"))] RetVoid.
Definition transfer_storage_locations_admin : Function := mkFunction "transfer_storage_locations_admin"
  [mkField "to" RAddress] RetVoid.

(** The contract; a type comes after those that it mentions. *)
Definition contract : Contract := mkContract "CommitteeVerifier"
  [TStruct FeeResponse; TStruct DynamicConfig; TStruct RemoteChainConfig; TStruct AllowListEntry;
   TStruct AllowListUpdate; TStruct TokenAmount; TStruct GenericExtraArgsV3; TStruct AnyToStellarMessage;
   TStruct StellarToAnyMessage; TStruct SignatureQuorumConfig]
  [owner; get_fee; is_owner; init_owner; initialize; version_tag; require_owner; set_new_owner;
   verify_message; is_in_allowlist; accept_ownership; type_and_version; get_pending_owner;
   get_dynamic_config; set_dynamic_config; transfer_ownership; extract_version_tag; forward_to_verifier;
   get_allowlist_entry; validate_signatures; withdraw_fee_tokens; get_signature_config; is_allowlist_enabled;
   require_in_allowlist; extract_signature_len; get_storage_locations; apply_allowlist_updates;
   apply_signature_configs; get_remote_chain_config; update_storage_locations; cancel_ownership_transfer;
   get_all_signature_configs; get_storage_locations_admin; get_pending_storage_loc_admin;
   accept_storage_locations_admin; apply_remote_chain_cfg_updates; transfer_storage_locations_admin]
  [CCIPError]
  [ConfigSetEvent; SignatureConfigSetEvent; RemoteChainConfigSetEvent; AllowListSendersAddedEvent;
   AllowListStateChangedEvent; AllowListSendersRemovedEvent; StorageAdminTransferredEvent;
   StorageAdminTransferReqEvent; StorageLocationsUpdatedEvent; RoleGrantedEvent; RoleRevokedEvent;
   AuthorizedCallerAddedEvent; AuthorizedCallerRemovedEvent; OwnershipTransferStartedEvent].

(** ** The emitted code *)

Section client.
Context {UT : UnicodeTables} {XS : XdrSdk} (enumerate : list string → list string).
Definition types : string → option codec := package enumerate contract.

Definition FeeResponse_ToScVal : value → gres ScVal := toScVal (struct_codec types enumerate FeeResponse).
Definition FeeResponseFromScVal : ScVal → gres value := fromScVal (struct_codec types enumerate FeeResponse).
Definition DynamicConfig_ToScVal : value → gres ScVal := toScVal (struct_codec types enumerate DynamicConfig).
Definition DynamicConfigFromScVal : ScVal → gres value := fromScVal (struct_codec types enumerate DynamicConfig).
Definition RemoteChainConfig_ToScVal : value → gres ScVal := toScVal (struct_codec types enumerate RemoteChainConfig).
Definition RemoteChainConfigFromScVal : ScVal → gres value := fromScVal (struct_codec types enumerate RemoteChainConfig).
Definition AllowListEntry_ToScVal : value → gres ScVal := toScVal (struct_codec types enumerate AllowListEntry).
Definition AllowListEntryFromScVal : ScVal → gres value := fromScVal (struct_codec types enumerate AllowListEntry).
Definition AllowListUpdate_ToScVal : value → gres ScVal := toScVal (struct_codec types enumerate AllowListUpdate).
Definition AllowListUpdateFromScVal : ScVal → gres value := fromScVal (struct_codec types enumerate AllowListUpdate).
Definition TokenAmount_ToScVal : value → gres ScVal := toScVal (struct_codec types enumerate TokenAmount).
Definition TokenAmountFromScVal : ScVal → gres value := fromScVal (struct_codec types enumerate TokenAmount).
Definition GenericExtraArgsV3_ToScVal : value → gres ScVal := toScVal (struct_codec types enumerate GenericExtraArgsV3).
Definition GenericExtraArgsV3FromScVal : ScVal → gres value := fromScVal (struct_codec types enumerate GenericExtraArgsV3).
Definition AnyToStellarMessage_ToScVal : value → gres ScVal := toScVal (struct_codec types enumerate AnyToStellarMessage).
Definition AnyToStellarMessageFromScVal : ScVal → gres value := fromScVal (struct_codec types enumerate AnyToStellarMessage).
Definition StellarToAnyMessage_ToScVal : value → gres ScVal := toScVal (struct_codec types enumerate StellarToAnyMessage).
Definition StellarToAnyMessageFromScVal : ScVal → gres value := fromScVal (struct_codec types enumerate StellarToAnyMessage).
Definition SignatureQuorumConfig_ToScVal : value → gres ScVal := toScVal (struct_codec types enumerate SignatureQuorumConfig).
Definition SignatureQuorumConfigFromScVal : ScVal → gres value := fromScVal (struct_codec types enumerate SignatureQuorumConfig).
Definition CCIPErrorMessage : Z → option string := error_message CCIPError.

(** The methods, on a client for the contract [contractID]. *)
Section methods.
Context {W : Type} {E : Type → Type} {IV : Invoker W E} (contractID : string).
Definition CommitteeVerifierClient_Owner : list value → prog W E (gres (list value)) :=
  Client.method types contractID owner.
Definition CommitteeVerifierClient_GetFee : list value → prog W E (gres (list value)) :=
  Client.method types contractID get_fee.
Definition CommitteeVerifierClient_IsOwner : list value → prog W E (gres (list value)) :=
  Client.method types contractID is_owner.
Definition CommitteeVerifierClient_InitOwner : list value → prog W E (gres (list value)) :=
  Client.method types contractID init_owner.
Definition CommitteeVerifierClient_Initialize : list value → prog W E (gres (list value)) :=
  Client.method types contractID initialize.
Definition CommitteeVerifierClient_VersionTag : list value → prog W E (gres (list value)) :=
  Client.method types contractID version_tag.
Definition CommitteeVerifierClient_RequireOwner : list value → prog W E (gres (list value)) :=
  Client.method types contractID require_owner.
Definition CommitteeVerifierClient_SetNewOwner : list value → prog W E (gres (list value)) :=
  Client.method types contractID set_new_owner.
Definition CommitteeVerifierClient_VerifyMessage : list value → prog W E (gres (list value)) :=
  Client.method types contractID verify_message.
Definition CommitteeVerifierClient_IsInAllowlist : list value → prog W E (gres (list value)) :=
  Client.method types contractID is_in_allowlist.
Definition CommitteeVerifierClient_AcceptOwnership : list value → prog W E (gres (list value)) :=
  Client.method types contractID accept_ownership.
Definition CommitteeVerifierClient_TypeAndVersion : list value → prog W E (gres (list value)) :=
  Client.method types contractID type_and_version.
Definition CommitteeVerifierClient_GetPendingOwner : list value → prog W E (gres (list value)) :=
  Client.method types contractID get_pending_owner.
Definition CommitteeVerifierClient_GetDynamicConfig : list value → prog W E (gres (list value)) :=
  Client.method types contractID get_dynamic_config.
Definition CommitteeVerifierClient_SetDynamicConfig : list value → prog W E (gres (list value)) :=
  Client.method types contractID set_dynamic_config.
Definition CommitteeVerifierClient_TransferOwnership : list value → prog W E (gres (list value)) :=
  Client.method types contractID transfer_ownership.
Definition CommitteeVerifierClient_ExtractVersionTag : list value → prog W E (gres (list value)) :=
  Client.method types contractID extract_version_tag.
Definition CommitteeVerifierClient_ForwardToVerifier : list value → prog W E (gres (list value)) :=
  Client.method types contractID forward_to_verifier.
Definition CommitteeVerifierClient_GetAllowlistEntry : list value → prog W E (gres (list value)) :=
  Client.method types contractID get_allowlist_entry.
Definition CommitteeVerifierClient_ValidateSignatures : list value → prog W E (gres (list value)) :=
  Client.method types contractID validate_signatures.
Definition CommitteeVerifierClient_WithdrawFeeTokens : list value → prog W E (gres (list value)) :=
  Client.method types contractID withdraw_fee_tokens.
Definition CommitteeVerifierClient_GetSignatureConfig : list value → prog W E (gres (list value)) :=
  Client.method types contractID get_signature_config.
Definition CommitteeVerifierClient_IsAllowlistEnabled : list value → prog W E (gres (list value)) :=
  Client.method types contractID is_allowlist_enabled.
Definition CommitteeVerifierClient_RequireInAllowlist : list value → prog W E (gres (list value)) :=
  Client.method types contractID require_in_allowlist.
Definition CommitteeVerifierClient_ExtractSignatureLen : list value → prog W E (gres (list value)) :=
  Client.method types contractID extract_signature_len.
Definition CommitteeVerifierClient_GetStorageLocations : list value → prog W E (gres (list value)) :=
  Client.method types contractID get_storage_locations.
Definition CommitteeVerifierClient_ApplyAllowlistUpdates : list value → prog W E (gres (list value)) :=
  Client.method types contractID apply_allowlist_updates.
Definition CommitteeVerifierClient_ApplySignatureConfigs : list value → prog W E (gres (list value)) :=
  Client.method types contractID apply_signature_configs.
Definition CommitteeVerifierClient_GetRemoteChainConfig : list value → prog W E (gres (list value)) :=
  Client.method types contractID get_remote_chain_config.
Definition CommitteeVerifierClient_UpdateStorageLocations : list value → prog W E (gres (list value)) :=
  Client.method types contractID update_storage_locations.
Definition CommitteeVerifierClient_CancelOwnershipTransfer : list value → prog W E (gres (list value)) :=
  Client.method types contractID cancel_ownership_transfer.
Definition CommitteeVerifierClient_GetAllSignatureConfigs : list value → prog W E (gres (list value)) :=
  Client.method types contractID get_all_signature_configs.
Definition CommitteeVerifierClient_GetStorageLocationsAdmin : list value → prog W E (gres (list value)) :=
  Client.method types contractID get_storage_locations_admin.
Definition CommitteeVerifierClient_GetPendingStorageLocAdmin : list value → prog W E (gres (list value)) :=
  Client.method types contractID get_pending_storage_loc_admin.
Definition CommitteeVerifierClient_AcceptStorageLocationsAdmin : list value → prog W E (gres (list value)) :=
  Client.method types contractID accept_storage_locations_admin.
Definition CommitteeVerifierClient_ApplyRemoteChainCfgUpdates : list value → prog W E (gres (list value)) :=
  Client.method types contractID apply_remote_chain_cfg_updates.
Definition CommitteeVerifierClient_TransferStorageLocationsAdmin : list value → prog W E (gres (list value)) :=
  Client.method types contractID transfer_storage_locations_admin.
End methods.

Definition ParseConfigSetEvent := ParseEvent types ConfigSetEvent.
Definition WaitForConfigSetEvent (contractID : string) := Client.WaitFor types contractID ConfigSetEvent.
Definition ParseSignatureConfigSetEvent := ParseEvent types SignatureConfigSetEvent.
Definition WaitForSignatureConfigSetEvent (contractID : string) := Client.WaitFor types contractID SignatureConfigSetEvent.
Definition ParseRemoteChainConfigSetEvent := ParseEvent types RemoteChainConfigSetEvent.
Definition WaitForRemoteChainConfigSetEvent (contractID : string) := Client.WaitFor types contractID RemoteChainConfigSetEvent.
Definition ParseAllowListSendersAddedEvent := ParseEvent types AllowListSendersAddedEvent.
Definition WaitForAllowListSendersAddedEvent (contractID : string) := Client.WaitFor types contractID AllowListSendersAddedEvent.
Definition ParseAllowListStateChangedEvent := ParseEvent types AllowListStateChangedEvent.
Definition WaitForAllowListStateChangedEvent (contractID : string) := Client.WaitFor types contractID AllowListStateChangedEvent.
Definition ParseAllowListSendersRemovedEvent := ParseEvent types AllowListSendersRemovedEvent.
Definition WaitForAllowListSendersRemovedEvent (contractID : string) := Client.WaitFor types contractID AllowListSendersRemovedEvent.
Definition ParseStorageAdminTransferredEvent := ParseEvent types StorageAdminTransferredEvent.
Definition WaitForStorageAdminTransferredEvent (contractID : string) := Client.WaitFor types contractID StorageAdminTransferredEvent.
Definition ParseStorageAdminTransferReqEvent := ParseEvent types StorageAdminTransferReqEvent.
Definition WaitForStorageAdminTransferReqEvent (contractID : string) := Client.WaitFor types contractID StorageAdminTransferReqEvent.
Definition ParseStorageLocationsUpdatedEvent := ParseEvent types StorageLocationsUpdatedEvent.
Definition WaitForStorageLocationsUpdatedEvent (contractID : string) := Client.WaitFor types contractID StorageLocationsUpdatedEvent.
Definition ParseRoleGrantedEvent := ParseEvent types RoleGrantedEvent.
Definition WaitForRoleGrantedEvent (contractID : string) := Client.WaitFor types contractID RoleGrantedEvent.
Definition ParseRoleRevokedEvent := ParseEvent types RoleRevokedEvent.
Definition WaitForRoleRevokedEvent (contractID : string) := Client.WaitFor types contractID RoleRevokedEvent.
Definition ParseAuthorizedCallerAddedEvent := ParseEvent types AuthorizedCallerAddedEvent.
Definition WaitForAuthorizedCallerAddedEvent (contractID : string) := Client.WaitFor types contractID AuthorizedCallerAddedEvent.
Definition ParseAuthorizedCallerRemovedEvent := ParseEvent types AuthorizedCallerRemovedEvent.
Definition WaitForAuthorizedCallerRemovedEvent (contractID : string) := Client.WaitFor types contractID AuthorizedCallerRemovedEvent.
Definition ParseOwnershipTransferStartedEvent := ParseEvent types OwnershipTransferStartedEvent.
Definition WaitForOwnershipTransferStartedEvent (contractID : string) := Client.WaitFor types contractID OwnershipTransferStartedEvent.
End client.
