(* ===== verification/FeeQuoterClient.v ===== *)
(** [bindings/contracts/fee_quoter]: the generated types, errors, events and methods of the FeeQuoter
    contract. The data are what the generator parsed; each function is the template of
    [Codec] or [Client] that emits it, on its data. *)

From stdpp Require Import base list strings.
From S2P Require Import Prelude GoStrings Prog Xdr ScVal TypeConverters Ccv Codec Client.
Import Xdr.

Local Open Scope Z_scope.

(** ** Types *)

Definition TokenAmount : Struct := mkStruct "TokenAmount" [mkField "amount" I128; mkField "token" RAddress].
Definition StellarToAnyMessage : Struct := mkStruct "StellarToAnyMessage"
  [mkField "data" RBytes; mkField "extra_args" RBytes; mkField "fee_token" RAddress;
   mkField "receiver" RBytes; mkField "token_amounts" (RVec (RNamed "TokenAmount"))].
Definition AllowListEntry : Struct := mkStruct "AllowListEntry"
  [mkField "allowlist" (RVec RAddress); mkField "allowlist_enabled" RBool].
Definition AllowListUpdate : Struct := mkStruct "AllowListUpdate"
  [mkField "added_allowlisted_senders" (RVec RAddress); mkField "allowlist_enabled" RBool;
   mkField "dest_chain_selector" U64; mkField "removed_allowlisted_senders" (RVec RAddress)].
Definition GenericExtraArgsV3 : Struct := mkStruct "GenericExtraArgsV3"
  [mkField "block_confirmations" U32; mkField "ccv_args" (RVec RBytes); mkField "ccvs" (RVec RAddress);
   mkField "executor" RAddress; mkField "executor_args" RBytes; mkField "gas_limit" U32;
   mkField "token_args" RBytes; mkField "token_receiver" RBytes].
Definition AnyToStellarMessage : Struct := mkStruct "AnyToStellarMessage"
  [mkField "data" RBytes; mkField "dest_token_amounts" (RVec (RNamed "TokenAmount"));
   mkField "message_id" (RBytesN 32); mkField "sender" RBytes; mkField "source_chain_selector" U64].
Definition GasPriceUpdate : Struct := mkStruct "GasPriceUpdate"
  [mkField "dest_chain_selector" U64; mkField "usd_per_unit_gas" U128].
Definition TokenPriceUpdate : Struct := mkStruct "TokenPriceUpdate"
  [mkField "token" RAddress; mkField "usd_per_token" U128].
Definition PriceUpdates : Struct := mkStruct "PriceUpdates"
  [mkField "gas_price_updates" (RVec (RNamed "GasPriceUpdate"));
   mkField "token_price_updates" (RVec (RNamed "TokenPriceUpdate"))].
Definition StaticConfig : Struct := mkStruct "StaticConfig"
  [mkField "link_token" RAddress; mkField "max_fee_juels_per_msg" I128].
Definition GasQuoteResult : Struct := mkStruct "GasQuoteResult"
  [mkField "fee_token_price" U128; mkField "gas_cost_usd_cents" U128; mkField "premium_multiplier" U32;
   mkField "total_gas" U32].
Definition DestChainConfig : Struct := mkStruct "DestChainConfig"
  [mkField "default_token_dest_gas" U32; mkField "default_token_fee_usd" U32;
   mkField "default_tx_gas_limit" U32; mkField "dest_gas_overhead" U32;
   mkField "dest_gas_per_payload_byte" U32; mkField "is_enabled" RBool; mkField "link_premium_percent" U32;
   mkField "max_data_bytes" U32; mkField "max_per_msg_gas_limit" U32; mkField "network_fee_usd_cents" U32].
Definition MessageFeeResult : Struct := mkStruct "MessageFeeResult"
  [mkField "fee_token_amount" I128; mkField "fee_token_price" U128; mkField "fee_usd_cents" U128].
Definition TimestampedPrice : Struct := mkStruct "TimestampedPrice"
  [mkField "timestamp" U64; mkField "value" U128].
Definition TokenTransferFeeConfig : Struct := mkStruct "TokenTransferFeeConfig"
  [mkField "dest_bytes_overhead" U32; mkField "dest_gas_overhead" U32; mkField "fee_usd_cents" U32;
   mkField "is_enabled" RBool].
Definition TokenFeeConfigArgs : Struct := mkStruct "TokenFeeConfigArgs"
  [mkField "config" (RNamed "TokenTransferFeeConfig"); mkField "dest_chain_selector" U64;
   mkField "token" RAddress].
Definition DestChainConfigArgs : Struct := mkStruct "DestChainConfigArgs"
  [mkField "config" (RNamed "DestChainConfig"); mkField "dest_chain_selector" U64].
Definition TokenTransferFeeResult : Struct := mkStruct "TokenTransferFeeResult"
  [mkField "dest_bytes_overhead" U32; mkField "dest_gas_overhead" U32; mkField "fee_usd_cents" U32].
Definition TokenFeeConfigRemoveArgs : Struct := mkStruct "TokenFeeConfigRemoveArgs"
  [mkField "dest_chain_selector" U64; mkField "token" RAddress].

(** ** Errors *)

Definition CCIPError : ErrorEnum := mkErrorEnum "CCIPError"
  [("NotInitialized", 1); ("AlreadyInitialized", 2); ("Unauthorized", 3); ("NotOwner", 4);
   ("NoPendingOwner", 5); ("CallerNotAuthorized", 6); ("CallerAlreadyAuthorized", 7); ("CallerNotFound", 8);
   ("RoleNotGranted", 9); ("FeatureNotEnabled", 10); ("RoleAlreadyGranted", 11); ("CannotRenounceRole", 12);
   ("InvalidVersionTag", 13); ("InvalidSignatureLength", 14); ("InvalidSignature", 15);
   ("InvalidSignatureCount", 16); ("InvalidSignatureThreshold", 17); ("InvalidSignaturePubkey", 18);
   ("SourceSignersNotConfigured", 19); ("InvalidVerifierResults", 20); ("ReentrantCall", 21);
   ("TokenNotSupported", 22); ("FeeTokenNotSupported", 23); ("NoGasPriceAvailable", 24);
   ("DestinationChainNotEnabled", 25); ("InvalidExtraArgsTag", 26); ("InvalidExtraArgsData", 27);
   ("MessageGasLimitTooHigh", 28); ("MessageTooLarge", 29); ("UnsupportedNumberOfTokens", 30);
   ("InvalidDestChainConfig", 31); ("MessageFeeTooHigh", 32); ("InvalidStaticConfig", 33);
   ("InvalidTokenReceiver", 34); ("SourceTokenDataTooLarge", 35); ("InvalidDestBytesOverhead", 36);
   ("DestinationChainNotSupported", 37); ("MustBeCalledByRouter", 38); ("RouterMustSetOriginalSender", 39);
   ("CannotSendZeroTokens", 40); ("CanOnlySendOneTokenPerMessage", 41); ("UnsupportedToken", 42);
   ("InvalidDestChainAddress", 43); ("FeeExceedsMaxAllowed", 44); ("InsufficientFeeTokenAmount", 45);
   ("TokenReceiverNotAllowed", 46); ("CursedByRMN", 47); ("RemoteChainNotSupported", 48);
   ("SenderNotAllowed", 49); ("InvalidTokenAmount", 50); ("InvalidReceiverAddress", 51);
   ("InvalidConfig", 52); ("InvalidVerifierResultsLength", 53); ("InboundImplementationNotFound", 54);
   ("OutboundImplementationNotFound", 55); ("InvalidAddress", 56); ("InvalidChainSelector", 57);
   ("InvalidVersion", 58); ("InvalidCCVVersion", 59); ("OffRampAlreadyExists", 60); ("OffRampMismatch", 61);
   ("BadRMNSignal", 62); ("UnsupportedDestinationChain", 63); ("AlreadyCursed", 64); ("ConfigNotSet", 65);
   ("DuplicateOnchainPublicKey", 66); ("InvalidSignerOrder", 67); ("NotEnoughSigners", 68);
   ("NotCursed", 69); ("OutOfOrderSignatures", 70); ("ThresholdNotMet", 71); ("UnexpectedSigner", 72);
   ("ZeroValueNotAllowed", 73); ("SourceChainNotEnabled", 100); ("InvalidSourceChainConfig", 101);
   ("InvalidOnRampAddress", 102); ("InvalidOffRampAddress", 103); ("InvalidMessageDestination", 104);
   ("MessageAlreadyExecuted", 105); ("InvalidExecutionState", 106); ("CCVLengthMismatch", 107);
   ("CCVQuorumNotMet", 108); ("ReceiverError", 109); ("GasLimitOverrideTooLow", 110);
   ("InvalidReceiverLength", 111); ("TokenHandlingError", 112); ("MessageDecodingError", 113);
   ("ReceiverDoesNotExist", 114); ("ReceiverNotWasmContract", 115); ("RequiredCCVMissing", 116);
   ("OnlyRegistryModuleOrOwner", 201); ("OnlyAdministrator", 202); ("OnlyPendingAdministrator", 203);
   ("TokenAlreadyRegistered", 204); ("InvalidTokenPoolToken", 205); ("PoolTokenMismatch", 301);
   ("ChainNotSupported", 302); ("CallerIsNotRamp", 303); ("InsufficientPoolLiquidity", 304);
   ("InvalidRemotePoolAddress", 305); ("InvalidRemoteChainConfig", 306); ("InvalidRemoteChainDecimals", 307);
   ("DecimalAmountOverflow", 308); ("InvalidPoolTokenDecimals", 309); ("BucketOverfilled", 310);
   ("TokenMaxCapacityExceeded", 311); ("TokenRateLimitReached", 312); ("InvalidRateLimitRate", 313);
   ("DisabledNonZeroRateLimit", 314); ("InvalidRequestedFinality", 315);
   ("RequestedFinalityCanOnlyHaveOneMode", 316); ("InvalidChainForClient", 317);
   ("RouterNotConfigured", 318); ("InvalidFeeCalculation", 801); ("InvalidFeeTokenConversion", 802);
   ("ZeroFeeAggregatorNotAllowed", 803)].

(** ** Events *)

Definition RoleGrantedEvent : Event := mkEvent "RoleGrantedEvent" ["auth_RoleGranted"]
  [mkField "role" RSymbol; mkField "account" RAddress; mkField "sender" RAddress].
Definition RoleRevokedEvent : Event := mkEvent "RoleRevokedEvent" ["auth_RoleRevoked"]
  [mkField "role" RSymbol; mkField "account" RAddress; mkField "sender" RAddress].
Definition AuthorizedCallerAddedEvent : Event := mkEvent "AuthorizedCallerAddedEvent" ["auth_CallerAdded"]
  [mkField "caller" RAddress].
Definition AuthorizedCallerRemovedEvent : Event := mkEvent "AuthorizedCallerRemovedEvent" ["auth_CallerRemoved"]
  [mkField "caller" RAddress].
Definition OwnershipTransferStartedEvent : Event := mkEvent "OwnershipTransferStartedEvent" ["auth_OwnerTransferStart"]
  [mkField "previous_owner" RAddress; mkField "new_owner" RAddress].
Definition FeeTokenAddedEvent : Event := mkEvent "FeeTokenAddedEvent" ["fq_FeeTokenAdded"]
  [mkField "fee_token" RAddress].
Definition DestChainAddedEvent : Event := mkEvent "DestChainAddedEvent" ["fq_DestChainAdded"]
  [mkField "dest_chain_selector" U64; mkField "is_enabled" RBool; mkField "max_data_bytes" U32].
Definition FeeTokenRemovedEvent : Event := mkEvent "FeeTokenRemovedEvent" ["fq_FeeTokenRemoved"]
  [mkField "fee_token" RAddress].
Definition UsdPerTokenUpdatedEvent : Event := mkEvent "UsdPerTokenUpdatedEvent" ["fq_UsdPerTokenUpdated"]
  [mkField "token" RAddress; mkField "value" U128; mkField "timestamp" U64].
Definition UsdPerUnitGasUpdatedEvent : Event := mkEvent "UsdPerUnitGasUpdatedEvent" ["fq_UsdPerUnitGasUpdated"]
  [mkField "dest_chain_selector" U64; mkField "value" U128; mkField "timestamp" U64].
Definition TokenFeeConfigDeletedEvent : Event := mkEvent "TokenFeeConfigDeletedEvent" ["fq_TknTransferFeeDeleted"]
  [mkField "dest_chain_selector" U64; mkField "token" RAddress].
Definition TokenFeeConfigUpdatedEvent : Event := mkEvent "TokenFeeConfigUpdatedEvent" ["fq_TknTransferFeeUpdated"]
  [mkField "dest_chain_selector" U64; mkField "token" RAddress; mkField "fee_usd_cents" U32;
   mkField "dest_gas_overhead" U32; mkField "dest_bytes_overhead" U32].
Definition DestChainConfigUpdatedEvent : Event := mkEvent "DestChainConfigUpdatedEvent" ["fq_DestChainConfigUpdated"]
  [mkField "dest_chain_selector" U64; mkField "is_enabled" RBool; mkField "max_data_bytes" U32].

(** ** Functions *)

Definition owner : Function := mkFunction "owner" [] (RetType (ROption RAddress)).
Definition is_owner : Function := mkFunction "is_owner" [mkField "addr" RAddress] (RetType RBool).
Definition init_owner : Function := mkFunction "init_owner" [mkField "owner" RAddress] RetVoid.
Definition initialize : Function := mkFunction "initialize"
  [mkField "owner" RAddress; mkField "static_config" (RNamed "StaticConfig");
   mkField "authorized_callers" (RVec RAddress)] RetVoid.
Definition require_owner : Function := mkFunction "require_owner" [] (RetType RAddress).
Definition set_new_owner : Function := mkFunction "set_new_owner" [mkField "new_owner" RAddress] RetVoid.
Definition update_prices : Function := mkFunction "update_prices"
  [mkField "updater" RAddress; mkField "price_updates" (RNamed "PriceUpdates")] RetVoid.
Definition get_fee_tokens : Function := mkFunction "get_fee_tokens" [] (RetType (RVec RAddress)).
Definition get_message_fee : Function := mkFunction "get_message_fee"
  [mkField "dest_chain_selector" U64;
   mkField "message" (RNamed "StellarToAnyMessage")] (RetType (RNamed "MessageFeeResult")).
Definition get_token_price : Function := mkFunction "get_token_price"
  [mkField "token" RAddress] (RetType (RNamed "TimestampedPrice")).
Definition accept_ownership : Function := mkFunction "accept_ownership" [] RetVoid.
Definition get_token_prices : Function := mkFunction "get_token_prices"
  [mkField "tokens" (RVec RAddress)] (RetType (RVec (RNamed "TimestampedPrice"))).
Definition type_and_version : Function := mkFunction "type_and_version" [] (RetType RString).
Definition get_pending_owner : Function := mkFunction "get_pending_owner" [] (RetType (ROption RAddress)).
Definition get_static_config : Function := mkFunction "get_static_config"
  [] (RetType (RNamed "StaticConfig")).
Definition remove_fee_tokens : Function := mkFunction "remove_fee_tokens"
  [mkField "tokens" (RVec RAddress)] RetVoid.
Definition quote_gas_for_exec : Function := mkFunction "quote_gas_for_exec"
  [mkField "dest_chain_selector" U64; mkField "non_calldata_gas" U32; mkField "calldata_size" U32;
   mkField "fee_token" RAddress] (RetType (RNamed "GasQuoteResult")).
Definition transfer_ownership : Function := mkFunction "transfer_ownership"
  [mkField "new_owner" RAddress] RetVoid.
Definition convert_token_amount : Function := mkFunction "convert_token_amount"
  [mkField "from_token" RAddress; mkField "from_token_amount" I128;
   mkField "to_token" RAddress] (RetType I128).
Definition get_all_dest_configs : Function := mkFunction "get_all_dest_configs"
  [] (RetTuple [RVec U64; RVec (RNamed "DestChainConfig")]).
Definition get_token_fee_config : Function := mkFunction "get_token_fee_config"
  [mkField "dest_chain_selector" U64; mkField "token" RAddress] (RetType (RNamed "TokenTransferFeeConfig")).
Definition get_dest_chain_config : Function := mkFunction "get_dest_chain_config"
  [mkField "dest_chain_selector" U64] (RetType (RNamed "DestChainConfig")).
Definition get_token_transfer_fee : Function := mkFunction "get_token_transfer_fee"
  [mkField "dest_chain_selector" U64; mkField "token" RAddress] (RetType (RNamed "TokenTransferFeeResult")).
Definition apply_token_fee_configs : Function := mkFunction "apply_token_fee_configs"
  [mkField "config_args" (RVec (RNamed "TokenFeeConfigArgs"));
   mkField "remove_args" (RVec (RNamed "TokenFeeConfigRemoveArgs"))] RetVoid.
Definition apply_dest_chain_configs : Function := mkFunction "apply_dest_chain_configs"
  [mkField "config_args" (RVec (RNamed "DestChainConfigArgs"))] RetVoid.
Definition get_dest_chain_gas_price : Function := mkFunction "get_dest_chain_gas_price"
  [mkField "dest_chain_selector" U64] (RetType (RNamed "TimestampedPrice")).
Definition cancel_ownership_transfer : Function := mkFunction "cancel_ownership_transfer" [] RetVoid.
Definition get_validated_token_price : Function := mkFunction "get_validated_token_price"
  [mkField "token" RAddress] (RetType U128).

(** The contract; a type comes after those that it mentions. *)
Definition contract : Contract := mkContract "FeeQuoter"
  [TStruct TokenAmount; TStruct StellarToAnyMessage; TStruct AllowListEntry; TStruct AllowListUpdate;
   TStruct GenericExtraArgsV3; TStruct AnyToStellarMessage; TStruct GasPriceUpdate; TStruct TokenPriceUpdate;
   TStruct PriceUpdates; TStruct StaticConfig; TStruct GasQuoteResult; TStruct DestChainConfig;
   TStruct MessageFeeResult; TStruct TimestampedPrice; TStruct TokenTransferFeeConfig;
   TStruct TokenFeeConfigArgs; TStruct DestChainConfigArgs; TStruct TokenTransferFeeResult;
   TStruct TokenFeeConfigRemoveArgs]
  [owner; is_owner; init_owner; initialize; require_owner; set_new_owner; update_prices; get_fee_tokens;
   get_message_fee; get_token_price; accept_ownership; get_token_prices; type_and_version; get_pending_owner;
   get_static_config; remove_fee_tokens; quote_gas_for_exec; transfer_ownership; convert_token_amount;
   get_all_dest_configs; get_token_fee_config; get_dest_chain_config; get_token_transfer_fee;
   apply_token_fee_configs; apply_dest_chain_configs; get_dest_chain_gas_price; cancel_ownership_transfer;
   get_validated_token_price]
  [CCIPError]
  [RoleGrantedEvent; RoleRevokedEvent; AuthorizedCallerAddedEvent; AuthorizedCallerRemovedEvent;
   OwnershipTransferStartedEvent; FeeTokenAddedEvent; DestChainAddedEvent; FeeTokenRemovedEvent;
   UsdPerTokenUpdatedEvent; UsdPerUnitGasUpdatedEvent; TokenFeeConfigDeletedEvent;
   TokenFeeConfigUpdatedEvent; DestChainConfigUpdatedEvent].

(** ** The emitted code *)

Section client.
Context {UT : UnicodeTables} {XS : XdrSdk} (enumerate : list string → list string).
Definition types : string → option codec := package enumerate contract.

Definition TokenAmount_ToScVal : value → gres ScVal := toScVal (struct_codec types enumerate TokenAmount).
Definition TokenAmountFromScVal : ScVal → gres value := fromScVal (struct_codec types enumerate TokenAmount).
Definition StellarToAnyMessage_ToScVal : value → gres ScVal := toScVal (struct_codec types enumerate StellarToAnyMessage).
Definition StellarToAnyMessageFromScVal : ScVal → gres value := fromScVal (struct_codec types enumerate StellarToAnyMessage).
Definition AllowListEntry_ToScVal : value → gres ScVal := toScVal (struct_codec types enumerate AllowListEntry).
Definition AllowListEntryFromScVal : ScVal → gres value := fromScVal (struct_codec types enumerate AllowListEntry).
Definition AllowListUpdate_ToScVal : value → gres ScVal := toScVal (struct_codec types enumerate AllowListUpdate).
Definition AllowListUpdateFromScVal : ScVal → gres value := fromScVal (struct_codec types enumerate AllowListUpdate).
Definition GenericExtraArgsV3_ToScVal : value → gres ScVal := toScVal (struct_codec types enumerate GenericExtraArgsV3).
Definition GenericExtraArgsV3FromScVal : ScVal → gres value := fromScVal (struct_codec types enumerate GenericExtraArgsV3).
Definition AnyToStellarMessage_ToScVal : value → gres ScVal := toScVal (struct_codec types enumerate AnyToStellarMessage).
Definition AnyToStellarMessageFromScVal : ScVal → gres value := fromScVal (struct_codec types enumerate AnyToStellarMessage).
Definition GasPriceUpdate_ToScVal : value → gres ScVal := toScVal (struct_codec types enumerate GasPriceUpdate).
Definition GasPriceUpdateFromScVal : ScVal → gres value := fromScVal (struct_codec types enumerate GasPriceUpdate).
Definition TokenPriceUpdate_ToScVal : value → gres ScVal := toScVal (struct_codec types enumerate TokenPriceUpdate).
Definition TokenPriceUpdateFromScVal : ScVal → gres value := fromScVal (struct_codec types enumerate TokenPriceUpdate).
Definition PriceUpdates_ToScVal : value → gres ScVal := toScVal (struct_codec types enumerate PriceUpdates).
Definition PriceUpdatesFromScVal : ScVal → gres value := fromScVal (struct_codec types enumerate PriceUpdates).
Definition StaticConfig_ToScVal : value → gres ScVal := toScVal (struct_codec types enumerate StaticConfig).
Definition StaticConfigFromScVal : ScVal → gres value := fromScVal (struct_codec types enumerate StaticConfig).
Definition GasQuoteResult_ToScVal : value → gres ScVal := toScVal (struct_codec types enumerate GasQuoteResult).
Definition GasQuoteResultFromScVal : ScVal → gres value := fromScVal (struct_codec types enumerate GasQuoteResult).
Definition DestChainConfig_ToScVal : value → gres ScVal := toScVal (struct_codec types enumerate DestChainConfig).
Definition DestChainConfigFromScVal : ScVal → gres value := fromScVal (struct_codec types enumerate DestChainConfig).
Definition MessageFeeResult_ToScVal : value → gres ScVal := toScVal (struct_codec types enumerate MessageFeeResult).
Definition MessageFeeResultFromScVal : ScVal → gres value := fromScVal (struct_codec types enumerate MessageFeeResult).
Definition TimestampedPrice_ToScVal : value → gres ScVal := toScVal (struct_codec types enumerate TimestampedPrice).
Definition TimestampedPriceFromScVal : ScVal → gres value := fromScVal (struct_codec types enumerate TimestampedPrice).
Definition TokenTransferFeeConfig_ToScVal : value → gres ScVal := toScVal (struct_codec types enumerate TokenTransferFeeConfig).
Definition TokenTransferFeeConfigFromScVal : ScVal → gres value := fromScVal (struct_codec types enumerate TokenTransferFeeConfig).
Definition TokenFeeConfigArgs_ToScVal : value → gres ScVal := toScVal (struct_codec types enumerate TokenFeeConfigArgs).
Definition TokenFeeConfigArgsFromScVal : ScVal → gres value := fromScVal (struct_codec types enumerate TokenFeeConfigArgs).
Definition DestChainConfigArgs_ToScVal : value → gres ScVal := toScVal (struct_codec types enumerate DestChainConfigArgs).
Definition DestChainConfigArgsFromScVal : ScVal → gres value := fromScVal (struct_codec types enumerate DestChainConfigArgs).
Definition TokenTransferFeeResult_ToScVal : value → gres ScVal := toScVal (struct_codec types enumerate TokenTransferFeeResult).
Definition TokenTransferFeeResultFromScVal : ScVal → gres value := fromScVal (struct_codec types enumerate TokenTransferFeeResult).
Definition TokenFeeConfigRemoveArgs_ToScVal : value → gres ScVal := toScVal (struct_codec types enumerate TokenFeeConfigRemoveArgs).
Definition TokenFeeConfigRemoveArgsFromScVal : ScVal → gres value := fromScVal (struct_codec types enumerate TokenFeeConfigRemoveArgs).
Definition CCIPErrorMessage : Z → option string := error_message CCIPError.

(** The methods, on a client for the contract [contractID]. *)
Section methods.
Context {W : Type} {E : Type → Type} {IV : Invoker W E} (contractID : string).
Definition FeeQuoterClient_Owner : list value → prog W E (gres (list value)) :=
  Client.method types contractID owner.
Definition FeeQuoterClient_IsOwner : list value → prog W E (gres (list value)) :=
  Client.method types contractID is_owner.
Definition FeeQuoterClient_InitOwner : list value → prog W E (gres (list value)) :=
  Client.method types contractID init_owner.
Definition FeeQuoterClient_Initialize : list value → prog W E (gres (list value)) :=
  Client.method types contractID initialize.
Definition FeeQuoterClient_RequireOwner : list value → prog W E (gres (list value)) :=
  Client.method types contractID require_owner.
Definition FeeQuoterClient_SetNewOwner : list value → prog W E (gres (list value)) :=
  Client.method types contractID set_new_owner.
Definition FeeQuoterClient_UpdatePrices : list value → prog W E (gres (list value)) :=
  Client.method types contractID update_prices.
Definition FeeQuoterClient_GetFeeTokens : list value → prog W E (gres (list value)) :=
  Client.method types contractID get_fee_tokens.
Definition FeeQuoterClient_GetMessageFee : list value → prog W E (gres (list value)) :=
  Client.method types contractID get_message_fee.
Definition FeeQuoterClient_GetTokenPrice : list value → prog W E (gres (list value)) :=
  Client.method types contractID get_token_price.
Definition FeeQuoterClient_AcceptOwnership : list value → prog W E (gres (list value)) :=
  Client.method types contractID accept_ownership.
Definition FeeQuoterClient_GetTokenPrices : list value → prog W E (gres (list value)) :=
  Client.method types contractID get_token_prices.
Definition FeeQuoterClient_TypeAndVersion : list value → prog W E (gres (list value)) :=
  Client.method types contractID type_and_version.
Definition FeeQuoterClient_GetPendingOwner : list value → prog W E (gres (list value)) :=
  Client.method types contractID get_pending_owner.
Definition FeeQuoterClient_GetStaticConfig : list value → prog W E (gres (list value)) :=
  Client.method types contractID get_static_config.
Definition FeeQuoterClient_RemoveFeeTokens : list value → prog W E (gres (list value)) :=
  Client.method types contractID remove_fee_tokens.
Definition FeeQuoterClient_QuoteGasForExec : list value → prog W E (gres (list value)) :=
  Client.method types contractID quote_gas_for_exec.
Definition FeeQuoterClient_TransferOwnership : list value → prog W E (gres (list value)) :=
  Client.method types contractID transfer_ownership.
Definition FeeQuoterClient_ConvertTokenAmount : list value → prog W E (gres (list value)) :=
  Client.method types contractID convert_token_amount.
Definition FeeQuoterClient_GetAllDestConfigs : list value → prog W E (gres (list value)) :=
  Client.method types contractID get_all_dest_configs.
Definition FeeQuoterClient_GetTokenFeeConfig : list value → prog W E (gres (list value)) :=
  Client.method types contractID get_token_fee_config.
Definition FeeQuoterClient_GetDestChainConfig : list value → prog W E (gres (list value)) :=
  Client.method types contractID get_dest_chain_config.
Definition FeeQuoterClient_GetTokenTransferFee : list value → prog W E (gres (list value)) :=
  Client.method types contractID get_token_transfer_fee.
Definition FeeQuoterClient_ApplyTokenFeeConfigs : list value → prog W E (gres (list value)) :=
  Client.method types contractID apply_token_fee_configs.
Definition FeeQuoterClient_ApplyDestChainConfigs : list value → prog W E (gres (list value)) :=
  Client.method types contractID apply_dest_chain_configs.
Definition FeeQuoterClient_GetDestChainGasPrice : list value → prog W E (gres (list value)) :=
  Client.method types contractID get_dest_chain_gas_price.
Definition FeeQuoterClient_CancelOwnershipTransfer : list value → prog W E (gres (list value)) :=
  Client.method types contractID cancel_ownership_transfer.
Definition FeeQuoterClient_GetValidatedTokenPrice : list value → prog W E (gres (list value)) :=
  Client.method types contractID get_validated_token_price.
End methods.

Definition ParseRoleGrantedEvent := ParseEvent types RoleGrantedEvent.
Definition WaitForRoleGrantedEvent (contractID : string) := Client.WaitFor types contractID RoleGrantedEvent.
Definition ParseRoleRevokedEvent := ParseEvent types RoleRevokedEvent.
Definition WaitForRoleRevokedEvent (contractID : string) := Client.WaitFor types contractID RoleRevokedEvent.
Definition ParseAuthorizedCallerAddedEvent := ParseEvent types AuthorizedCallerAddedEvent.
Definition WaitForAuthorizedCallerAddedEvent (contractID : string) := Client.WaitFor types contractID AuthorizedCallerAddedEvent.
Definition ParseAuthorizedCallerRemovedEvent := ParseEvent types AuthorizedCallerRemovedEvent.
Definition WaitForAuthorizedCallerRemovedEvent (contractID : string) := Client.WaitFor types contractID AuthorizedCallerRemovedEvent.
Definition ParseOwnershipTransferStartedEvent := ParseEvent types OwnershipTransferStartedEvent.
Definition WaitForOwnershipTransferStartedEvent (contractID : string) := Client.WaitFor types contractID OwnershipTransferStartedEvent.
Definition ParseFeeTokenAddedEvent := ParseEvent types FeeTokenAddedEvent.
Definition WaitForFeeTokenAddedEvent (contractID : string) := Client.WaitFor types contractID FeeTokenAddedEvent.
Definition ParseDestChainAddedEvent := ParseEvent types DestChainAddedEvent.
Definition WaitForDestChainAddedEvent (contractID : string) := Client.WaitFor types contractID DestChainAddedEvent.
Definition ParseFeeTokenRemovedEvent := ParseEvent types FeeTokenRemovedEvent.
Definition WaitForFeeTokenRemovedEvent (contractID : string) := Client.WaitFor types contractID FeeTokenRemovedEvent.
Definition ParseUsdPerTokenUpdatedEvent := ParseEvent types UsdPerTokenUpdatedEvent.
Definition WaitForUsdPerTokenUpdatedEvent (contractID : string) := Client.WaitFor types contractID UsdPerTokenUpdatedEvent.
Definition ParseUsdPerUnitGasUpdatedEvent := ParseEvent types UsdPerUnitGasUpdatedEvent.
Definition WaitForUsdPerUnitGasUpdatedEvent (contractID : string) := Client.WaitFor types contractID UsdPerUnitGasUpdatedEvent.
Definition ParseTokenFeeConfigDeletedEvent := ParseEvent types TokenFeeConfigDeletedEvent.
Definition WaitForTokenFeeConfigDeletedEvent (contractID : string) := Client.WaitFor types contractID TokenFeeConfigDeletedEvent.
Definition ParseTokenFeeConfigUpdatedEvent := ParseEvent types TokenFeeConfigUpdatedEvent.
Definition WaitForTokenFeeConfigUpdatedEvent (contractID : string) := Client.WaitFor types contractID TokenFeeConfigUpdatedEvent.
Definition ParseDestChainConfigUpdatedEvent := ParseEvent types DestChainConfigUpdatedEvent.
Definition WaitForDestChainConfigUpdatedEvent (contractID : string) := Client.WaitFor types contractID DestChainConfigUpdatedEvent.
End client.
