(* ===== verification/VersionedVerifierResolverClient.v ===== *)
(** [bindings/contracts/versioned_verifier_resolver]: the generated types, errors, events and methods of the VersionedVerifierResolver
    contract. The data are what the generator parsed; each function is the template of
    [Codec] or [Client] that emits it, on its data. *)

From stdpp Require Import base list strings.
From S2P Require Import Prelude GoStrings Prog Xdr ScVal TypeConverters Ccv Codec Client.
Import Xdr.

Local Open Scope Z_scope.

(** ** Types *)

Definition InboundImplementationArgs : Struct := mkStruct "InboundImplementationArgs"
  [mkField "verifier" RAddress; mkField "version" (RBytesN 4)].
Definition OutboundImplementationArgs : Struct := mkStruct "OutboundImplementationArgs"
  [mkField "dest_chain_selector" U64; mkField "verifier" RAddress].
Definition InboundImplementationUpdate : Struct := mkStruct "InboundImplementationUpdate"
  [mkField "verifier" (ROption RAddress); mkField "version" (RBytesN 4)].
Definition OutboundImplementationUpdate : Struct := mkStruct "OutboundImplementationUpdate"
  [mkField "dest_chain_selector" U64; mkField "verifier" (ROption RAddress)].
Definition AllowListEntry : Struct := mkStruct "AllowListEntry"
  [mkField "allowlist" (RVec RAddress); mkField "allowlist_enabled" RBool].
Definition AllowListUpdate : Struct := mkStruct "AllowListUpdate"
  [mkField "added_allowlisted_senders" (RVec RAddress); mkField "allowlist_enabled" RBool;
   mkField "dest_chain_selector" U64; mkField "removed_allowlisted_senders" (RVec RAddress)].
Definition TokenAmount : Struct := mkStruct "TokenAmount" [mkField "amount" I128; mkField "token" RAddress].
Definition GenericExtraArgsV3 : Struct := mkStruct "GenericExtraArgsV3"
  [mkField "block_confirmations" U32; mkField "ccv_args" (RVec RBytes); mkField "ccvs" (RVec RAddress);
   mkField "executor" RAddress; mkField "executor_args" RBytes; mkField "gas_limit" U32;
   mkField "token_args" RBytes; mkField "token_receiver" RBytes].
Definition AnyToStellarMessage : Struct := mkStruct "AnyToStellarMessage"
  [mkField "data" RBytes; mkField "dest_token_amounts" (RVec (RNamed "TokenAmount"));
   mkField "message_id" (RBytesN 32); mkField "sender" RBytes; mkField "source_chain_selector" U64].
Definition StellarToAnyMessage : Struct := mkStruct "StellarToAnyMessage"
  [mkField "data" RBytes; mkField "extra_args" RBytes; mkField "fee_token" RAddress;
   mkField "receiver" RBytes; mkField "token_amounts" (RVec (RNamed "TokenAmount"))].

(** ** Errors *)

Definition CCIPError : ErrorEnum := mkErrorEnum "CCIPError"
  [("NotInitialized", 1); ("AlreadyInitialized", 2); ("Unauthorized", 3); ("NotOwner", 4);
   ("NoPendingOwner", 5); ("CallerNotAuthorized", 6); ("CallerAlreadyAuthorized", 7); ("CallerNotFound", 8);
   ("RoleNotGranted", 9); ("FeatureNotEnabled", 10); ("RoleAlreadyGranted", 11); ("CannotRenounceRole", 12);
   ("InvalidVersionTag", 13); ("InvalidSignatureLength", 14); ("InvalidSignature", 15);
   ("InvalidSignatureCount", 16); ("InvalidSignatureThreshold", 17); ("InvalidSignaturePubkey", 18);
   ("SourceSignersNotConfigured", 19); ("InvalidVerifierResults", 20); ("ReentrantCall", 21);
   ("TokenNotSupported", 22); ("FeeTokenNotSupported", 23); ("NoGasPriceAvailable", 24);
   ("DestinationChainNotEnabled", 25); ("InvalidExtraArgsTag", 26); ("InvalidExtraArgsData", 27);
   ("MessageGasLimitTooHigh", 28); ("MessageTooLarge", 29); ("UnsupportedNumberOfTokens", 30);
   ("InvalidDestChainConfig", 31); ("MessageFeeTooHigh", 32); ("InvalidStaticConfig", 33);
   ("InvalidTokenReceiver", 34); ("SourceTokenDataTooLarge", 35); ("InvalidDestBytesOverhead", 36);
   ("DestinationChainNotSupported", 37); ("MustBeCalledByRouter", 38); ("RouterMustSetOriginalSender", 39);
   ("CannotSendZeroTokens", 40); ("CanOnlySendOneTokenPerMessage", 41); ("UnsupportedToken", 42);
   ("InvalidDestChainAddress", 43); ("FeeExceedsMaxAllowed", 44); ("InsufficientFeeTokenAmount", 45);
   ("TokenReceiverNotAllowed", 46); ("CursedByRMN", 47); ("RemoteChainNotSupported", 48);
   ("SenderNotAllowed", 49); ("InvalidTokenAmount", 50); ("InvalidReceiverAddress", 51);
   ("InvalidConfig", 52); ("InvalidVerifierResultsLength", 53); ("InboundImplementationNotFound", 54);
   ("OutboundImplementationNotFound", 55); ("InvalidAddress", 56); ("InvalidChainSelector", 57);
   ("InvalidVersion", 58); ("InvalidCCVVersion", 59); ("OffRampAlreadyExists", 60); ("OffRampMismatch", 61);
   ("BadRMNSignal", 62); ("UnsupportedDestinationChain", 63); ("AlreadyCursed", 64); ("ConfigNotSet", 65);
   ("DuplicateOnchainPublicKey", 66); ("InvalidSignerOrder", 67); ("NotEnoughSigners", 68);
   ("NotCursed", 69); ("OutOfOrderSignatures", 70); ("ThresholdNotMet", 71); ("UnexpectedSigner", 72);
   ("ZeroValueNotAllowed", 73); ("SourceChainNotEnabled", 100); ("InvalidSourceChainConfig", 101);
   ("InvalidOnRampAddress", 102); ("InvalidOffRampAddress", 103); ("InvalidMessageDestination", 104);
   ("MessageAlreadyExecuted", 105); ("InvalidExecutionState", 106); ("CCVLengthMismatch", 107);
   ("CCVQuorumNotMet", 108); ("ReceiverError", 109); ("GasLimitOverrideTooLow", 110);
   ("InvalidReceiverLength", 111); ("TokenHandlingError", 112); ("MessageDecodingError", 113);
   ("ReceiverDoesNotExist", 114); ("ReceiverNotWasmContract", 115); ("RequiredCCVMissing", 116);
   ("OnlyRegistryModuleOrOwner", 201); ("OnlyAdministrator", 202); ("OnlyPendingAdministrator", 203);
   ("TokenAlreadyRegistered", 204); ("InvalidTokenPoolToken", 205); ("PoolTokenMismatch", 301);
   ("ChainNotSupported", 302); ("CallerIsNotRamp", 303); ("InsufficientPoolLiquidity", 304);
   ("InvalidRemotePoolAddress", 305); ("InvalidRemoteChainConfig", 306); ("InvalidRemoteChainDecimals", 307);
   ("DecimalAmountOverflow", 308); ("InvalidPoolTokenDecimals", 309); ("BucketOverfilled", 310);
   ("TokenMaxCapacityExceeded", 311); ("TokenRateLimitReached", 312); ("InvalidRateLimitRate", 313);
   ("DisabledNonZeroRateLimit", 314); ("InvalidRequestedFinality", 315);
   ("RequestedFinalityCanOnlyHaveOneMode", 316); ("InvalidChainForClient", 317);
   ("RouterNotConfigured", 318); ("InvalidFeeCalculation", 801); ("InvalidFeeTokenConversion", 802);
   ("ZeroFeeAggregatorNotAllowed", 803)].

(** ** Events *)

Definition InboundImplSetEvent : Event := mkEvent "InboundImplSetEvent" ["vvr_InboundImplSet"]
  [mkField "version" (RBytesN 4); mkField "verifier" RAddress].
Definition OutboundImplSetEvent : Event := mkEvent "OutboundImplSetEvent" ["vvr_OutboundImplSet"]
  [mkField "dest_chain_selector" U64; mkField "verifier" RAddress].
Definition FeeAggregatorSetEvent : Event := mkEvent "FeeAggregatorSetEvent" ["vvr_FeeAggregatorSet"]
  [mkField "fee_aggregator" RAddress].
Definition InboundImplRemovedEvent : Event := mkEvent "InboundImplRemovedEvent" ["vvr_InboundImplRemoved"]
  [mkField "version" (RBytesN 4)].
Definition OutboundImplRemovedEvent : Event := mkEvent "OutboundImplRemovedEvent" ["vvr_OutboundImplRemoved"]
  [mkField "dest_chain_selector" U64].
Definition OwnershipTransferredEvent : Event := mkEvent "OwnershipTransferredEvent" ["vvr_OwnerTransferred"]
  [mkField "new_owner" RAddress].
Definition RoleGrantedEvent : Event := mkEvent "RoleGrantedEvent" ["auth_RoleGranted"]
  [mkField "role" RSymbol; mkField "account" RAddress; mkField "sender" RAddress].
Definition RoleRevokedEvent : Event := mkEvent "RoleRevokedEvent" ["auth_RoleRevoked"]
  [mkField "role" RSymbol; mkField "account" RAddress; mkField "sender" RAddress].
Definition AuthorizedCallerAddedEvent : Event := mkEvent "AuthorizedCallerAddedEvent" ["auth_CallerAdded"]
  [mkField "caller" RAddress].
Definition AuthorizedCallerRemovedEvent : Event := mkEvent "AuthorizedCallerRemovedEvent" ["auth_CallerRemoved"]
  [mkField "caller" RAddress].
Definition OwnershipTransferStartedEvent : Event := mkEvent "OwnershipTransferStartedEvent" ["auth_OwnerTransferStart"]
  [mkField "previous_owner" RAddress; mkField "new_owner" RAddress].

(** ** Functions *)

Definition owner : Function := mkFunction "owner" [] (RetType (ROption RAddress)).
Definition is_owner : Function := mkFunction "is_owner" [mkField "addr" RAddress] (RetType RBool).
Definition init_owner : Function := mkFunction "init_owner" [mkField "owner" RAddress] RetVoid.
Definition initialize : Function := mkFunction "initialize"
  [mkField "owner" RAddress; mkField "fee_aggregator" RAddress] RetVoid.
Definition require_owner : Function := mkFunction "require_owner" [] (RetType RAddress).
Definition set_new_owner : Function := mkFunction "set_new_owner" [mkField "new_owner" RAddress] RetVoid.
Definition accept_ownership : Function := mkFunction "accept_ownership" [] RetVoid.
Definition type_and_version : Function := mkFunction "type_and_version" [] (RetType RString).
Definition get_pending_owner : Function := mkFunction "get_pending_owner" [] (RetType (ROption RAddress)).
Definition get_fee_aggregator : Function := mkFunction "get_fee_aggregator" [] (RetType RAddress).
Definition set_fee_aggregator : Function := mkFunction "set_fee_aggregator"
  [mkField "fee_aggregator" RAddress] RetVoid.
Definition transfer_ownership : Function := mkFunction "transfer_ownership"
  [mkField "new_owner" RAddress] RetVoid.
Definition withdraw_fee_tokens : Function := mkFunction "withdraw_fee_tokens"
  [mkField "fee_tokens" (RVec RAddress)] RetVoid.
Definition cancel_ownership_transfer : Function := mkFunction "cancel_ownership_transfer" [] RetVoid.
Definition apply_inbound_impl_updates : Function := mkFunction "apply_inbound_impl_updates"
  [mkField "implementations" (RVec (RNamed "InboundImplementationUpdate"))] RetVoid.
Definition get_inbound_implementation : Function := mkFunction "get_inbound_implementation"
  [mkField "verifier_results" RBytes] (RetType RAddress).
Definition apply_outbound_impl_updates : Function := mkFunction "apply_outbound_impl_updates"
  [mkField "implementations" (RVec (RNamed "OutboundImplementationUpdate"))] RetVoid.
Definition get_outbound_implementation : Function := mkFunction "get_outbound_implementation"
  [mkField "dest_chain_selector" U64; mkField "extra_args" RBytes] (RetType RAddress).
Definition get_all_inbound_implementations : Function := mkFunction "get_all_inbound_implementations"
  [] (RetType (RVec (RNamed "InboundImplementationArgs"))).
Definition get_all_outbound_implementations : Function := mkFunction "get_all_outbound_implementations"
  [] (RetType (RVec (RNamed "OutboundImplementationArgs"))).

(** The contract; a type comes after those that it mentions. *)
Definition contract : Contract := mkContract "VersionedVerifierResolver"
  [TStruct InboundImplementationArgs; TStruct OutboundImplementationArgs;
   TStruct InboundImplementationUpdate; TStruct OutboundImplementationUpdate; TStruct AllowListEntry;
   TStruct AllowListUpdate; TStruct TokenAmount; TStruct GenericExtraArgsV3; TStruct AnyToStellarMessage;
   TStruct StellarToAnyMessage]
  [owner; is_owner; init_owner; initialize; require_owner; set_new_owner; accept_ownership; type_and_version;
   get_pending_owner; get_fee_aggregator; set_fee_aggregator; transfer_ownership; withdraw_fee_tokens;
   cancel_ownership_transfer; apply_inbound_impl_updates; get_inbound_implementation;
   apply_outbound_impl_updates; get_outbound_implementation; get_all_inbound_implementations;
   get_all_outbound_implementations]
  [CCIPError]
  [InboundImplSetEvent; OutboundImplSetEvent; FeeAggregatorSetEvent; InboundImplRemovedEvent;
   OutboundImplRemovedEvent; OwnershipTransferredEvent; RoleGrantedEvent; RoleRevokedEvent;
   AuthorizedCallerAddedEvent; AuthorizedCallerRemovedEvent; OwnershipTransferStartedEvent].

(** ** The emitted code *)

Section client.
Context {UT : UnicodeTables} {XS : XdrSdk} (enumerate : list string → list string).
Definition types : string → option codec := package enumerate contract.

Definition InboundImplementationArgs_ToScVal : value → gres ScVal := toScVal (struct_codec types enumerate InboundImplementationArgs).
Definition InboundImplementationArgsFromScVal : ScVal → gres value := fromScVal (struct_codec types enumerate InboundImplementationArgs).
Definition OutboundImplementationArgs_ToScVal : value → gres ScVal := toScVal (struct_codec types enumerate OutboundImplementationArgs).
Definition OutboundImplementationArgsFromScVal : ScVal → gres value := fromScVal (struct_codec types enumerate OutboundImplementationArgs).
Definition InboundImplementationUpdate_ToScVal : value → gres ScVal := toScVal (struct_codec types enumerate InboundImplementationUpdate).
Definition InboundImplementationUpdateFromScVal : ScVal → gres value := fromScVal (struct_codec types enumerate InboundImplementationUpdate).
Definition OutboundImplementationUpdate_ToScVal : value → gres ScVal := toScVal (struct_codec types enumerate OutboundImplementationUpdate).
Definition OutboundImplementationUpdateFromScVal : ScVal → gres value := fromScVal (struct_codec types enumerate OutboundImplementationUpdate).
Definition AllowListEntry_ToScVal : value → gres ScVal := toScVal (struct_codec types enumerate AllowListEntry).
Definition AllowListEntryFromScVal : ScVal → gres value := fromScVal (struct_codec types enumerate AllowListEntry).
Definition AllowListUpdate_ToScVal : value → gres ScVal := toScVal (struct_codec types enumerate AllowListUpdate).
Definition AllowListUpdateFromScVal : ScVal → gres value := fromScVal (struct_codec types enumerate AllowListUpdate).
Definition TokenAmount_ToScVal : value → gres ScVal := toScVal (struct_codec types enumerate TokenAmount).
Definition TokenAmountFromScVal : ScVal → gres value := fromScVal (struct_codec types enumerate TokenAmount).
Definition GenericExtraArgsV3_ToScVal : value → gres ScVal := toScVal (struct_codec types enumerate GenericExtraArgsV3).
Definition GenericExtraArgsV3FromScVal : ScVal → gres value := fromScVal (struct_codec types enumerate GenericExtraArgsV3).
Definition AnyToStellarMessage_ToScVal : value → gres ScVal := toScVal (struct_codec types enumerate AnyToStellarMessage).
Definition AnyToStellarMessageFromScVal : ScVal → gres value := fromScVal (struct_codec types enumerate AnyToStellarMessage).
Definition StellarToAnyMessage_ToScVal : value → gres ScVal := toScVal (struct_codec types enumerate StellarToAnyMessage).
Definition StellarToAnyMessageFromScVal : ScVal → gres value := fromScVal (struct_codec types enumerate StellarToAnyMessage).
Definition CCIPErrorMessage : Z → option string := error_message CCIPError.

(** The methods, on a client for the contract [contractID]. *)
Section methods.
Context {W : Type} {E : Type → Type} {IV : Invoker W E} (contractID : string).
Definition VersionedVerifierResolverClient_Owner : list value → prog W E (gres (list value)) :=
  Client.method types contractID owner.
Definition VersionedVerifierResolverClient_IsOwner : list value → prog W E (gres (list value)) :=
  Client.method types contractID is_owner.
Definition VersionedVerifierResolverClient_InitOwner : list value → prog W E (gres (list value)) :=
  Client.method types contractID init_owner.
Definition VersionedVerifierResolverClient_Initialize : list value → prog W E (gres (list value)) :=
  Client.method types contractID initialize.
Definition VersionedVerifierResolverClient_RequireOwner : list value → prog W E (gres (list value)) :=
  Client.method types contractID require_owner.
Definition VersionedVerifierResolverClient_SetNewOwner : list value → prog W E (gres (list value)) :=
  Client.method types contractID set_new_owner.
Definition VersionedVerifierResolverClient_AcceptOwnership : list value → prog W E (gres (list value)) :=
  Client.method types contractID accept_ownership.
Definition VersionedVerifierResolverClient_TypeAndVersion : list value → prog W E (gres (list value)) :=
  Client.method types contractID type_and_version.
Definition VersionedVerifierResolverClient_GetPendingOwner : list value → prog W E (gres (list value)) :=
  Client.method types contractID get_pending_owner.
Definition VersionedVerifierResolverClient_GetFeeAggregator : list value → prog W E (gres (list value)) :=
  Client.method types contractID get_fee_aggregator.
Definition VersionedVerifierResolverClient_SetFeeAggregator : list value → prog W E (gres (list value)) :=
  Client.method types contractID set_fee_aggregator.
Definition VersionedVerifierResolverClient_TransferOwnership : list value → prog W E (gres (list value)) :=
  Client.method types contractID transfer_ownership.
Definition VersionedVerifierResolverClient_WithdrawFeeTokens : list value → prog W E (gres (list value)) :=
  Client.method types contractID withdraw_fee_tokens.
Definition VersionedVerifierResolverClient_CancelOwnershipTransfer : list value → prog W E (gres (list value)) :=
  Client.method types contractID cancel_ownership_transfer.
Definition VersionedVerifierResolverClient_ApplyInboundImplUpdates : list value → prog W E (gres (list value)) :=
  Client.method types contractID apply_inbound_impl_updates.
Definition VersionedVerifierResolverClient_GetInboundImplementation : list value → prog W E (gres (list value)) :=
  Client.method types contractID get_inbound_implementation.
Definition VersionedVerifierResolverClient_ApplyOutboundImplUpdates : list value → prog W E (gres (list value)) :=
  Client.method types contractID apply_outbound_impl_updates.
Definition VersionedVerifierResolverClient_GetOutboundImplementation : list value → prog W E (gres (list value)) :=
  Client.method types contractID get_outbound_implementation.
Definition VersionedVerifierResolverClient_GetAllInboundImplementations : list value → prog W E (gres (list value)) :=
  Client.method types contractID get_all_inbound_implementations.
Definition VersionedVerifierResolverClient_GetAllOutboundImplementations : list value → prog W E (gres (list value)) :=
  Client.method types contractID get_all_outbound_implementations.
End methods.

Definition ParseInboundImplSetEvent := ParseEvent types InboundImplSetEvent.
Definition WaitForInboundImplSetEvent (contractID : string) := Client.WaitFor types contractID InboundImplSetEvent.
Definition ParseOutboundImplSetEvent := ParseEvent types OutboundImplSetEvent.
Definition WaitForOutboundImplSetEvent (contractID : string) := Client.WaitFor types contractID OutboundImplSetEvent.
Definition ParseFeeAggregatorSetEvent := ParseEvent types FeeAggregatorSetEvent.
Definition WaitForFeeAggregatorSetEvent (contractID : string) := Client.WaitFor types contractID FeeAggregatorSetEvent.
Definition ParseInboundImplRemovedEvent := ParseEvent types InboundImplRemovedEvent.
Definition WaitForInboundImplRemovedEvent (contractID : string) := Client.WaitFor types contractID InboundImplRemovedEvent.
Definition ParseOutboundImplRemovedEvent := ParseEvent types OutboundImplRemovedEvent.
Definition WaitForOutboundImplRemovedEvent (contractID : string) := Client.WaitFor types contractID OutboundImplRemovedEvent.
Definition ParseOwnershipTransferredEvent := ParseEvent types OwnershipTransferredEvent.
Definition WaitForOwnershipTransferredEvent (contractID : string) := Client.WaitFor types contractID OwnershipTransferredEvent.
Definition ParseRoleGrantedEvent := ParseEvent types RoleGrantedEvent.
Definition WaitForRoleGrantedEvent (contractID : string) := Client.WaitFor types contractID RoleGrantedEvent.
Definition ParseRoleRevokedEvent := ParseEvent types RoleRevokedEvent.
Definition WaitForRoleRevokedEvent (contractID : string) := Client.WaitFor types contractID RoleRevokedEvent.
Definition ParseAuthorizedCallerAddedEvent := ParseEvent types AuthorizedCallerAddedEvent.
Definition WaitForAuthorizedCallerAddedEvent (contractID : string) := Client.WaitFor types contractID AuthorizedCallerAddedEvent.
Definition ParseAuthorizedCallerRemovedEvent := ParseEvent types AuthorizedCallerRemovedEvent.
Definition WaitForAuthorizedCallerRemovedEvent (contractID : string) := Client.WaitFor types contractID AuthorizedCallerRemovedEvent.
Definition ParseOwnershipTransferStartedEvent := ParseEvent types OwnershipTransferStartedEvent.
Definition WaitForOwnershipTransferStartedEvent (contractID : string) := Client.WaitFor types contractID OwnershipTransferStartedEvent.
End client.
