(* ===== verification/OnRampClient.v ===== *)
(** [bindings/contracts/onramp]: the generated types, errors, events and methods of the OnRamp
    contract. The data are what the generator parsed; each function is the template of
    [Codec] or [Client] that emits it, on its data. *)

From stdpp Require Import base list strings.
From S2P Require Import Prelude GoStrings Prog Xdr ScVal TypeConverters Ccv Codec Client.
Import Xdr.

Local Open Scope Z_scope.

(** ** Types *)

Definition TokenAmount : Struct := mkStruct "TokenAmount" [mkField "amount" I128; mkField "token" RAddress].
Definition StellarToAnyMessage : Struct := mkStruct "StellarToAnyMessage"
  [mkField "data" RBytes; mkField "extra_args" RBytes; mkField "fee_token" RAddress;
   mkField "receiver" RBytes; mkField "token_amounts" (RVec (RNamed "TokenAmount"))].
Definition AllowListEntry : Struct := mkStruct "AllowListEntry"
  [mkField "allowlist" (RVec RAddress); mkField "allowlist_enabled" RBool].
Definition AllowListUpdate : Struct := mkStruct "AllowListUpdate"
  [mkField "added_allowlisted_senders" (RVec RAddress); mkField "allowlist_enabled" RBool;
   mkField "dest_chain_selector" U64; mkField "removed_allowlisted_senders" (RVec RAddress)].
Definition GenericExtraArgsV3 : Struct := mkStruct "GenericExtraArgsV3"
  [mkField "block_confirmations" U32; mkField "ccv_args" (RVec RBytes); mkField "ccvs" (RVec RAddress);
   mkField "executor" RAddress; mkField "executor_args" RBytes; mkField "gas_limit" U32;
   mkField "token_args" RBytes; mkField "token_receiver" RBytes].
Definition AnyToStellarMessage : Struct := mkStruct "AnyToStellarMessage"
  [mkField "data" RBytes; mkField "dest_token_amounts" (RVec (RNamed "TokenAmount"));
   mkField "message_id" (RBytesN 32); mkField "sender" RBytes; mkField "source_chain_selector" U64].
Definition Receipt : Struct := mkStruct "Receipt"
  [mkField "dest_bytes_overhead" U32; mkField "dest_gas_limit" U32; mkField "extra_args" RBytes;
   mkField "fee_token_amount" I128; mkField "issuer" RAddress].
Definition StaticConfig : Struct := mkStruct "StaticConfig"
  [mkField "chain_selector" U64; mkField "max_usd_cents_per_message" U32; mkField "rmn_proxy" RAddress;
   mkField "token_admin_registry" RAddress].
Definition DynamicConfig : Struct := mkStruct "DynamicConfig"
  [mkField "fee_aggregator" RAddress; mkField "fee_quoter" RAddress].
Definition DestChainConfig : Struct := mkStruct "DestChainConfig"
  [mkField "address_bytes_length" U32; mkField "base_execution_gas_cost" U32;
   mkField "default_ccvs" (RVec RAddress); mkField "default_executor" RAddress;
   mkField "execution_fee_usd_cents" U32; mkField "lane_mandated_ccvs" (RVec RAddress);
   mkField "message_network_fee_usd_cents" U32; mkField "message_number" U64; mkField "off_ramp" RBytes;
   mkField "router" RAddress; mkField "token_network_fee_usd_cents" U32;
   mkField "token_receiver_allowed" RBool].
Definition DestChainConfigArgs : Struct := mkStruct "DestChainConfigArgs"
  [mkField "address_bytes_length" U32; mkField "base_execution_gas_cost" U32;
   mkField "default_ccvs" (RVec RAddress); mkField "default_executor" RAddress;
   mkField "dest_chain_selector" U64; mkField "execution_fee_usd_cents" U32;
   mkField "lane_mandated_ccvs" (RVec RAddress); mkField "message_network_fee_usd_cents" U32;
   mkField "off_ramp" RBytes; mkField "router" RAddress; mkField "token_network_fee_usd_cents" U32;
   mkField "token_receiver_allowed" RBool].

(** ** Errors *)

Definition CCIPError : ErrorEnum := mkErrorEnum "CCIPError"
  [("NotInitialized", 1); ("AlreadyInitialized", 2); ("Unauthorized", 3); ("NotOwner", 4);
   ("NoPendingOwner", 5); ("CallerNotAuthorized", 6); ("CallerAlreadyAuthorized", 7); ("CallerNotFound", 8);
   ("RoleNotGranted", 9); ("FeatureNotEnabled", 10); ("RoleAlreadyGranted", 11); ("CannotRenounceRole", 12);
   ("InvalidVersionTag", 13); ("InvalidSignatureLength", 14); ("InvalidSignature", 15);
   ("InvalidSignatureCount", 16); ("InvalidSignatureThreshold", 17); ("InvalidSignaturePubkey", 18);
   ("SourceSignersNotConfigured", 19); ("InvalidVerifierResults", 20); ("ReentrantCall", 21);
   ("TokenNotSupported", 22); ("FeeTokenNotSupported", 23); ("NoGasPriceAvailable", 24);
   ("DestinationChainNotEnabled", 25); ("InvalidExtraArgsTag", 26); ("InvalidExtraArgsData", 27);
   ("MessageGasLimitTooHigh", 28); ("MessageTooLarge", 29); ("UnsupportedNumberOfTokens", 30);
   ("InvalidDestChainConfig", 31); ("MessageFeeTooHigh", 32); ("InvalidStaticConfig", 33);
   ("InvalidTokenReceiver", 34); ("SourceTokenDataTooLarge", 35); ("InvalidDestBytesOverhead", 36);
   ("DestinationChainNotSupported", 37); ("MustBeCalledByRouter", 38); ("RouterMustSetOriginalSender", 39);
   ("CannotSendZeroTokens", 40); ("CanOnlySendOneTokenPerMessage", 41); ("UnsupportedToken", 42);
   ("InvalidDestChainAddress", 43); ("FeeExceedsMaxAllowed", 44); ("InsufficientFeeTokenAmount", 45);
   ("TokenReceiverNotAllowed", 46); ("CursedByRMN", 47); ("RemoteChainNotSupported", 48);
   ("SenderNotAllowed", 49); ("InvalidTokenAmount", 50); ("InvalidReceiverAddress", 51);
   ("InvalidConfig", 52); ("InvalidVerifierResultsLength", 53); ("InboundImplementationNotFound", 54);
   ("OutboundImplementationNotFound", 55); ("InvalidAddress", 56); ("InvalidChainSelector", 57);
   ("InvalidVersion", 58); ("InvalidCCVVersion", 59); ("OffRampAlreadyExists", 60); ("OffRampMismatch", 61);
   ("BadRMNSignal", 62); ("UnsupportedDestinationChain", 63); ("AlreadyCursed", 64); ("ConfigNotSet", 65);
   ("DuplicateOnchainPublicKey", 66); ("InvalidSignerOrder", 67); ("NotEnoughSigners", 68);
   ("NotCursed", 69); ("OutOfOrderSignatures", 70); ("ThresholdNotMet", 71); ("UnexpectedSigner", 72);
   ("ZeroValueNotAllowed", 73); ("SourceChainNotEnabled", 100); ("InvalidSourceChainConfig", 101);
   ("InvalidOnRampAddress", 102); ("InvalidOffRampAddress", 103); ("InvalidMessageDestination", 104);
   ("MessageAlreadyExecuted", 105); ("InvalidExecutionState", 106); ("CCVLengthMismatch", 107);
   ("CCVQuorumNotMet", 108); ("ReceiverError", 109); ("GasLimitOverrideTooLow", 110);
   ("InvalidReceiverLength", 111); ("TokenHandlingError", 112); ("MessageDecodingError", 113);
   ("ReceiverDoesNotExist", 114); ("ReceiverNotWasmContract", 115); ("RequiredCCVMissing", 116);
   ("OnlyRegistryModuleOrOwner", 201); ("OnlyAdministrator", 202); ("OnlyPendingAdministrator", 203);
   ("TokenAlreadyRegistered", 204); ("InvalidTokenPoolToken", 205); ("PoolTokenMismatch", 301);
   ("ChainNotSupported", 302); ("CallerIsNotRamp", 303); ("InsufficientPoolLiquidity", 304);
   ("InvalidRemotePoolAddress", 305); ("InvalidRemoteChainConfig", 306); ("InvalidRemoteChainDecimals", 307);
   ("DecimalAmountOverflow", 308); ("InvalidPoolTokenDecimals", 309); ("BucketOverfilled", 310);
   ("TokenMaxCapacityExceeded", 311); ("TokenRateLimitReached", 312); ("InvalidRateLimitRate", 313);
   ("DisabledNonZeroRateLimit", 314); ("InvalidRequestedFinality", 315);
   ("RequestedFinalityCanOnlyHaveOneMode", 316); ("InvalidChainForClient", 317);
   ("RouterNotConfigured", 318); ("InvalidFeeCalculation", 801); ("InvalidFeeTokenConversion", 802);
   ("ZeroFeeAggregatorNotAllowed", 803)].

(** ** Events *)

Definition RoleGrantedEvent : Event := mkEvent "RoleGrantedEvent" ["auth_RoleGranted"]
  [mkField "role" RSymbol; mkField "account" RAddress; mkField "sender" RAddress].
Definition RoleRevokedEvent : Event := mkEvent "RoleRevokedEvent" ["auth_RoleRevoked"]
  [mkField "role" RSymbol; mkField "account" RAddress; mkField "sender" RAddress].
Definition AuthorizedCallerAddedEvent : Event := mkEvent "AuthorizedCallerAddedEvent" ["auth_CallerAdded"]
  [mkField "caller" RAddress].
Definition AuthorizedCallerRemovedEvent : Event := mkEvent "AuthorizedCallerRemovedEvent" ["auth_CallerRemoved"]
  [mkField "caller" RAddress].
Definition OwnershipTransferStartedEvent : Event := mkEvent "OwnershipTransferStartedEvent" ["auth_OwnerTransferStart"]
  [mkField "previous_owner" RAddress; mkField "new_owner" RAddress].
Definition ConfigSetEvent : Event := mkEvent "ConfigSetEvent" ["onramp_1_7_ConfigSet"]
  [mkField "static_config" (RNamed "StaticConfig"); mkField "dynamic_config" (RNamed "DynamicConfig")].
Definition CCIPMessageSentEvent : Event := mkEvent "CCIPMessageSentEvent" ["onramp_1_7_CCIPMessageSent"]
  [mkField "dest_chain_selector" U64; mkField "sequence_number" U64; mkField "sender" RAddress;
   mkField "message_id" (RBytesN 32); mkField "fee_token" RAddress; mkField "token_amount_before_fees" I128;
   mkField "encoded_message" RBytes; mkField "receipts" (RVec (RNamed "Receipt"));
   mkField "verifier_blobs" (RVec RBytes)].
Definition DestChainConfigSetEvent : Event := mkEvent "DestChainConfigSetEvent" ["onramp_1_7_DestChainConfigSet"]
  [mkField "dest_chain_selector" U64; mkField "message_number" U64;
   mkField "config" (RNamed "DestChainConfig")].
Definition OwnershipTransferredEvent : Event := mkEvent "OwnershipTransferredEvent" ["onramp_1_7_OwnershipTransferred"]
  [mkField "new_owner" RAddress].

(** ** Functions *)

Definition init : Function := mkFunction "init" [mkField "rmn_proxy" RAddress] RetVoid.
Definition owner : Function := mkFunction "owner" [] (RetType (ROption RAddress)).
Definition get_fee : Function := mkFunction "get_fee"
  [mkField "dest_chain_selector" U64; mkField "message" (RNamed "StellarToAnyMessage")] (RetType I128).
Definition is_owner : Function := mkFunction "is_owner" [mkField "addr" RAddress] (RetType RBool).
Definition is_cursed : Function := mkFunction "is_cursed" [] (RetType RBool).
Definition init_owner : Function := mkFunction "init_owner" [mkField "owner" RAddress] RetVoid.
Definition initialize : Function := mkFunction "initialize"
  [mkField "owner" RAddress; mkField "static_config" (RNamed "StaticConfig");
   mkField "dynamic_config" (RNamed "DynamicConfig")] RetVoid.
Definition require_owner : Function := mkFunction "require_owner" [] (RetType RAddress).
Definition set_new_owner : Function := mkFunction "set_new_owner" [mkField "new_owner" RAddress] RetVoid.
Definition accept_ownership : Function := mkFunction "accept_ownership" [] RetVoid.
Definition type_and_version : Function := mkFunction "type_and_version" [] (RetType RString).
Definition get_pending_owner : Function := mkFunction "get_pending_owner" [] (RetType (ROption RAddress)).
Definition get_static_config : Function := mkFunction "get_static_config"
  [] (RetType (RNamed "StaticConfig")).
Definition is_subject_cursed : Function := mkFunction "is_subject_cursed"
  [mkField "subject" (RBytesN 16)] (RetType RBool).
Definition get_dynamic_config : Function := mkFunction "get_dynamic_config"
  [] (RetType (RNamed "DynamicConfig")).
Definition require_not_cursed : Function := mkFunction "require_not_cursed" [] RetVoid.
Definition set_dynamic_config : Function := mkFunction "set_dynamic_config"
  [mkField "dynamic_config" (RNamed "DynamicConfig")] RetVoid.
Definition transfer_ownership : Function := mkFunction "transfer_ownership"
  [mkField "new_owner" RAddress] RetVoid.
Definition forward_from_router : Function := mkFunction "forward_from_router"
  [mkField "dest_chain_selector" U64; mkField "message" (RNamed "StellarToAnyMessage");
   mkField "fee_token_amount" I128; mkField "original_sender" RAddress] (RetType (RBytesN 32)).
Definition withdraw_fee_tokens : Function := mkFunction "withdraw_fee_tokens"
  [mkField "fee_tokens" (RVec RAddress)] RetVoid.
Definition get_dest_chain_config : Function := mkFunction "get_dest_chain_config"
  [mkField "dest_chain_selector" U64] (RetType (RNamed "DestChainConfig")).
Definition get_pool_by_source_token : Function := mkFunction "get_pool_by_source_token"
  [mkField "source_token" RAddress] (RetType RAddress).
Definition require_chain_not_cursed : Function := mkFunction "require_chain_not_cursed"
  [mkField "chain_selector" U64] RetVoid.
Definition cancel_ownership_transfer : Function := mkFunction "cancel_ownership_transfer" [] RetVoid.
Definition get_all_dest_chain_configs : Function := mkFunction "get_all_dest_chain_configs"
  [] (RetTuple [RVec U64; RVec (RNamed "DestChainConfig")]).
Definition require_subject_not_cursed : Function := mkFunction "require_subject_not_cursed"
  [mkField "subject" (RBytesN 16)] RetVoid.
Definition apply_dest_chain_config_updates : Function := mkFunction "apply_dest_chain_config_updates"
  [mkField "dest_chain_config_args" (RVec (RNamed "DestChainConfigArgs"))] RetVoid.
Definition get_expected_next_message_number : Function := mkFunction "get_expected_next_message_number"
  [mkField "dest_chain_selector" U64] (RetType U64).

(** The contract; a type comes after those that it mentions. *)
Definition contract : Contract := mkContract "OnRamp"
  [TStruct TokenAmount; TStruct StellarToAnyMessage; TStruct AllowListEntry; TStruct AllowListUpdate;
   TStruct GenericExtraArgsV3; TStruct AnyToStellarMessage; TStruct Receipt; TStruct StaticConfig;
   TStruct DynamicConfig; TStruct DestChainConfig; TStruct DestChainConfigArgs]
  [init; owner; get_fee; is_owner; is_cursed; init_owner; initialize; require_owner; set_new_owner;
   accept_ownership; type_and_version; get_pending_owner; get_static_config; is_subject_cursed;
   get_dynamic_config; require_not_cursed; set_dynamic_config; transfer_ownership; forward_from_router;
   withdraw_fee_tokens; get_dest_chain_config; get_pool_by_source_token; require_chain_not_cursed;
   cancel_ownership_transfer; get_all_dest_chain_configs; require_subject_not_cursed;
   apply_dest_chain_config_updates; get_expected_next_message_number]
  [CCIPError]
  [RoleGrantedEvent; RoleRevokedEvent; AuthorizedCallerAddedEvent; AuthorizedCallerRemovedEvent;
   OwnershipTransferStartedEvent; ConfigSetEvent; CCIPMessageSentEvent; DestChainConfigSetEvent;
   OwnershipTransferredEvent].

(** ** The emitted code *)

Section client.
Context {UT : UnicodeTables} {XS : XdrSdk} (enumerate : list string → list string).
Definition types : string → option codec := package enumerate contract.

Definition TokenAmount_ToScVal : value → gres ScVal := toScVal (struct_codec types enumerate TokenAmount).
Definition TokenAmountFromScVal : ScVal → gres value := fromScVal (struct_codec types enumerate TokenAmount).
Definition StellarToAnyMessage_ToScVal : value → gres ScVal := toScVal (struct_codec types enumerate StellarToAnyMessage).
Definition StellarToAnyMessageFromScVal : ScVal → gres value := fromScVal (struct_codec types enumerate StellarToAnyMessage).
Definition AllowListEntry_ToScVal : value → gres ScVal := toScVal (struct_codec types enumerate AllowListEntry).
Definition AllowListEntryFromScVal : ScVal → gres value := fromScVal (struct_codec types enumerate AllowListEntry).
Definition AllowListUpdate_ToScVal : value → gres ScVal := toScVal (struct_codec types enumerate AllowListUpdate).
Definition AllowListUpdateFromScVal : ScVal → gres value := fromScVal (struct_codec types enumerate AllowListUpdate).
Definition GenericExtraArgsV3_ToScVal : value → gres ScVal := toScVal (struct_codec types enumerate GenericExtraArgsV3).
Definition GenericExtraArgsV3FromScVal : ScVal → gres value := fromScVal (struct_codec types enumerate GenericExtraArgsV3).
Definition AnyToStellarMessage_ToScVal : value → gres ScVal := toScVal (struct_codec types enumerate AnyToStellarMessage).
Definition AnyToStellarMessageFromScVal : ScVal → gres value := fromScVal (struct_codec types enumerate AnyToStellarMessage).
Definition Receipt_ToScVal : value → gres ScVal := toScVal (struct_codec types enumerate Receipt).
Definition ReceiptFromScVal : ScVal → gres value := fromScVal (struct_codec types enumerate Receipt).
Definition StaticConfig_ToScVal : value → gres ScVal := toScVal (struct_codec types enumerate StaticConfig).
Definition StaticConfigFromScVal : ScVal → gres value := fromScVal (struct_codec types enumerate StaticConfig).
Definition DynamicConfig_ToScVal : value → gres ScVal := toScVal (struct_codec types enumerate DynamicConfig).
Definition DynamicConfigFromScVal : ScVal → gres value := fromScVal (struct_codec types enumerate DynamicConfig).
Definition DestChainConfig_ToScVal : value → gres ScVal := toScVal (struct_codec types enumerate DestChainConfig).
Definition DestChainConfigFromScVal : ScVal → gres value := fromScVal (struct_codec types enumerate DestChainConfig).
Definition DestChainConfigArgs_ToScVal : value → gres ScVal := toScVal (struct_codec types enumerate DestChainConfigArgs).
Definition DestChainConfigArgsFromScVal : ScVal → gres value := fromScVal (struct_codec types enumerate DestChainConfigArgs).
Definition CCIPErrorMessage : Z → option string := error_message CCIPError.

(** The methods, on a client for the contract [contractID]. *)
Section methods.
Context {W : Type} {E : Type → Type} {IV : Invoker W E} (contractID : string).
Definition OnRampClient_Init : list value → prog W E (gres (list value)) :=
  Client.method types contractID init.
Definition OnRampClient_Owner : list value → prog W E (gres (list value)) :=
  Client.method types contractID owner.
Definition OnRampClient_GetFee : list value → prog W E (gres (list value)) :=
  Client.method types contractID get_fee.
Definition OnRampClient_IsOwner : list value → prog W E (gres (list value)) :=
  Client.method types contractID is_owner.
Definition OnRampClient_IsCursed : list value → prog W E (gres (list value)) :=
  Client.method types contractID is_cursed.
Definition OnRampClient_InitOwner : list value → prog W E (gres (list value)) :=
  Client.method types contractID init_owner.
Definition OnRampClient_Initialize : list value → prog W E (gres (list value)) :=
  Client.method types contractID initialize.
Definition OnRampClient_RequireOwner : list value → prog W E (gres (list value)) :=
  Client.method types contractID require_owner.
Definition OnRampClient_SetNewOwner : list value → prog W E (gres (list value)) :=
  Client.method types contractID set_new_owner.
Definition OnRampClient_AcceptOwnership : list value → prog W E (gres (list value)) :=
  Client.method types contractID accept_ownership.
Definition OnRampClient_TypeAndVersion : list value → prog W E (gres (list value)) :=
  Client.method types contractID type_and_version.
Definition OnRampClient_GetPendingOwner : list value → prog W E (gres (list value)) :=
  Client.method types contractID get_pending_owner.
Definition OnRampClient_GetStaticConfig : list value → prog W E (gres (list value)) :=
  Client.method types contractID get_static_config.
Definition OnRampClient_IsSubjectCursed : list value → prog W E (gres (list value)) :=
  Client.method types contractID is_subject_cursed.
Definition OnRampClient_GetDynamicConfig : list value → prog W E (gres (list value)) :=
  Client.method types contractID get_dynamic_config.
Definition OnRampClient_RequireNotCursed : list value → prog W E (gres (list value)) :=
  Client.method types contractID require_not_cursed.
Definition OnRampClient_SetDynamicConfig : list value → prog W E (gres (list value)) :=
  Client.method types contractID set_dynamic_config.
Definition OnRampClient_TransferOwnership : list value → prog W E (gres (list value)) :=
  Client.method types contractID transfer_ownership.
Definition OnRampClient_ForwardFromRouter : list value → prog W E (gres (list value)) :=
  Client.method types contractID forward_from_router.
Definition OnRampClient_WithdrawFeeTokens : list value → prog W E (gres (list value)) :=
  Client.method types contractID withdraw_fee_tokens.
Definition OnRampClient_GetDestChainConfig : list value → prog W E (gres (list value)) :=
  Client.method types contractID get_dest_chain_config.
Definition OnRampClient_GetPoolBySourceToken : list value → prog W E (gres (list value)) :=
  Client.method types contractID get_pool_by_source_token.
Definition OnRampClient_RequireChainNotCursed : list value → prog W E (gres (list value)) :=
  Client.method types contractID require_chain_not_cursed.
Definition OnRampClient_CancelOwnershipTransfer : list value → prog W E (gres (list value)) :=
  Client.method types contractID cancel_ownership_transfer.
Definition OnRampClient_GetAllDestChainConfigs : list value → prog W E (gres (list value)) :=
  Client.method types contractID get_all_dest_chain_configs.
Definition OnRampClient_RequireSubjectNotCursed : list value → prog W E (gres (list value)) :=
  Client.method types contractID require_subject_not_cursed.
Definition OnRampClient_ApplyDestChainConfigUpdates : list value → prog W E (gres (list value)) :=
  Client.method types contractID apply_dest_chain_config_updates.
Definition OnRampClient_GetExpectedNextMessageNumber : list value → prog W E (gres (list value)) :=
  Client.method types contractID get_expected_next_message_number.
End methods.

Definition ParseRoleGrantedEvent := ParseEvent types RoleGrantedEvent.
Definition WaitForRoleGrantedEvent (contractID : string) := Client.WaitFor types contractID RoleGrantedEvent.
Definition ParseRoleRevokedEvent := ParseEvent types RoleRevokedEvent.
Definition WaitForRoleRevokedEvent (contractID : string) := Client.WaitFor types contractID RoleRevokedEvent.
Definition ParseAuthorizedCallerAddedEvent := ParseEvent types AuthorizedCallerAddedEvent.
Definition WaitForAuthorizedCallerAddedEvent (contractID : string) := Client.WaitFor types contractID AuthorizedCallerAddedEvent.
Definition ParseAuthorizedCallerRemovedEvent := ParseEvent types AuthorizedCallerRemovedEvent.
Definition WaitForAuthorizedCallerRemovedEvent (contractID : string) := Client.WaitFor types contractID AuthorizedCallerRemovedEvent.
Definition ParseOwnershipTransferStartedEvent := ParseEvent types OwnershipTransferStartedEvent.
Definition WaitForOwnershipTransferStartedEvent (contractID : string) := Client.WaitFor types contractID OwnershipTransferStartedEvent.
Definition ParseConfigSetEvent := ParseEvent types ConfigSetEvent.
Definition WaitForConfigSetEvent (contractID : string) := Client.WaitFor types contractID ConfigSetEvent.
Definition ParseCCIPMessageSentEvent := ParseEvent types CCIPMessageSentEvent.
Definition WaitForCCIPMessageSentEvent (contractID : string) := Client.WaitFor types contractID CCIPMessageSentEvent.
Definition ParseDestChainConfigSetEvent := ParseEvent types DestChainConfigSetEvent.
Definition WaitForDestChainConfigSetEvent (contractID : string) := Client.WaitFor types contractID DestChainConfigSetEvent.
Definition ParseOwnershipTransferredEvent := ParseEvent types OwnershipTransferredEvent.
Definition WaitForOwnershipTransferredEvent (contractID : string) := Client.WaitFor types contractID OwnershipTransferredEvent.
End client.
