(* ===== verification/RmnRemoteClient.v ===== *)
(** [bindings/contracts/rmn_remote]: the generated types, errors, events and methods of the RmnRemote
    contract. The data are what the generator parsed; each function is the template of
    [Codec] or [Client] that emits it, on its data. *)

From stdpp Require Import base list strings.
From S2P Require Import Prelude GoStrings Prog Xdr ScVal TypeConverters Ccv Codec Client.
Import Xdr.

Local Open Scope Z_scope.


(** ** Events *)

Definition AuthorizedCallerAddedEvent : Event := mkEvent "AuthorizedCallerAddedEvent" ["auth_CallerAdded"]
  [mkField "caller" RAddress].
Definition AuthorizedCallerRemovedEvent : Event := mkEvent "AuthorizedCallerRemovedEvent" ["auth_CallerRemoved"]
  [mkField "caller" RAddress].
Definition OwnershipTransferStartedEvent : Event := mkEvent "OwnershipTransferStartedEvent" ["auth_OwnerTransferStart"]
  [mkField "previous_owner" RAddress; mkField "new_owner" RAddress].
Definition CursedEvent : Event := mkEvent "CursedEvent" ["rmn_Cursed"]
  [mkField "subjects" (RVec (RBytesN 16))].
Definition UncursedEvent : Event := mkEvent "UncursedEvent" ["rmn_Uncursed"]
  [mkField "subjects" (RVec (RBytesN 16))].

(** ** Functions *)

Definition curse : Function := mkFunction "curse"
  [mkField "caller" RAddress; mkField "subjects" (RVec (RBytesN 16))] RetVoid.
Definition owner : Function := mkFunction "owner" [] (RetType (ROption RAddress)).
Definition uncurse : Function := mkFunction "uncurse" [mkField "subjects" (RVec (RBytesN 16))] RetVoid.
Definition is_owner : Function := mkFunction "is_owner" [mkField "addr" RAddress] (RetType RBool).
Definition is_cursed : Function := mkFunction "is_cursed" [] (RetType RBool).
Definition init_owner : Function := mkFunction "init_owner" [mkField "owner" RAddress] RetVoid.
Definition initialize : Function := mkFunction "initialize"
  [mkField "owner" RAddress; mkField "curse_admins" (RVec RAddress)] RetVoid.
Definition require_owner : Function := mkFunction "require_owner" [] (RetType RAddress).
Definition set_new_owner : Function := mkFunction "set_new_owner" [mkField "new_owner" RAddress] RetVoid.
Definition accept_ownership : Function := mkFunction "accept_ownership" [] RetVoid.
Definition get_curse_admins : Function := mkFunction "get_curse_admins" [] (RetType (RVec RAddress)).
Definition type_and_version : Function := mkFunction "type_and_version" [] (RetType RString).
Definition get_pending_owner : Function := mkFunction "get_pending_owner" [] (RetType (ROption RAddress)).
Definition transfer_ownership : Function := mkFunction "transfer_ownership"
  [mkField "new_owner" RAddress] RetVoid.
Definition get_cursed_subjects : Function := mkFunction "get_cursed_subjects"
  [] (RetType (RVec (RBytesN 16))).
Definition is_cursed_by_subject : Function := mkFunction "is_cursed_by_subject"
  [mkField "subject" (RBytesN 16)] (RetType RBool).
Definition apply_curse_admin_updates : Function := mkFunction "apply_curse_admin_updates"
  [mkField "added_admins" (RVec RAddress); mkField "removed_admins" (RVec RAddress)] RetVoid.
Definition cancel_ownership_transfer : Function := mkFunction "cancel_ownership_transfer" [] RetVoid.

(** The contract; a type comes after those that it mentions. *)
Definition contract : Contract := mkContract "RmnRemote"
  []
  [curse; owner; uncurse; is_owner; is_cursed; init_owner; initialize; require_owner; set_new_owner;
   accept_ownership; get_curse_admins; type_and_version; get_pending_owner; transfer_ownership;
   get_cursed_subjects; is_cursed_by_subject; apply_curse_admin_updates; cancel_ownership_transfer]
  []
  [AuthorizedCallerAddedEvent; AuthorizedCallerRemovedEvent; OwnershipTransferStartedEvent; CursedEvent;
   UncursedEvent].

(** ** The emitted code *)

Section client.
Context {UT : UnicodeTables} {XS : XdrSdk} (enumerate : list string → list string).
Definition types : string → option codec := package enumerate contract.


(** The methods, on a client for the contract [contractID]. *)
Section methods.
Context {W : Type} {E : Type → Type} {IV : Invoker W E} (contractID : string).
Definition RmnRemoteClient_Curse : list value → prog W E (gres (list value)) :=
  Client.method types contractID curse.
Definition RmnRemoteClient_Owner : list value → prog W E (gres (list value)) :=
  Client.method types contractID owner.
Definition RmnRemoteClient_Uncurse : list value → prog W E (gres (list value)) :=
  Client.method types contractID uncurse.
Definition RmnRemoteClient_IsOwner : list value → prog W E (gres (list value)) :=
  Client.method types contractID is_owner.
Definition RmnRemoteClient_IsCursed : list value → prog W E (gres (list value)) :=
  Client.method types contractID is_cursed.
Definition RmnRemoteClient_InitOwner : list value → prog W E (gres (list value)) :=
  Client.method types contractID init_owner.
Definition RmnRemoteClient_Initialize : list value → prog W E (gres (list value)) :=
  Client.method types contractID initialize.
Definition RmnRemoteClient_RequireOwner : list value → prog W E (gres (list value)) :=
  Client.method types contractID require_owner.
Definition RmnRemoteClient_SetNewOwner : list value → prog W E (gres (list value)) :=
  Client.method types contractID set_new_owner.
Definition RmnRemoteClient_AcceptOwnership : list value → prog W E (gres (list value)) :=
  Client.method types contractID accept_ownership.
Definition RmnRemoteClient_GetCurseAdmins : list value → prog W E (gres (list value)) :=
  Client.method types contractID get_curse_admins.
Definition RmnRemoteClient_TypeAndVersion : list value → prog W E (gres (list value)) :=
  Client.method types contractID type_and_version.
Definition RmnRemoteClient_GetPendingOwner : list value → prog W E (gres (list value)) :=
  Client.method types contractID get_pending_owner.
Definition RmnRemoteClient_TransferOwnership : list value → prog W E (gres (list value)) :=
  Client.method types contractID transfer_ownership.
Definition RmnRemoteClient_GetCursedSubjects : list value → prog W E (gres (list value)) :=
  Client.method types contractID get_cursed_subjects.
Definition RmnRemoteClient_IsCursedBySubject : list value → prog W E (gres (list value)) :=
  Client.method types contractID is_cursed_by_subject.
Definition RmnRemoteClient_ApplyCurseAdminUpdates : list value → prog W E (gres (list value)) :=
  Client.method types contractID apply_curse_admin_updates.
Definition RmnRemoteClient_CancelOwnershipTransfer : list value → prog W E (gres (list value)) :=
  Client.method types contractID cancel_ownership_transfer.
End methods.

Definition ParseAuthorizedCallerAddedEvent := ParseEvent types AuthorizedCallerAddedEvent.
Definition WaitForAuthorizedCallerAddedEvent (contractID : string) := Client.WaitFor types contractID AuthorizedCallerAddedEvent.
Definition ParseAuthorizedCallerRemovedEvent := ParseEvent types AuthorizedCallerRemovedEvent.
Definition WaitForAuthorizedCallerRemovedEvent (contractID : string) := Client.WaitFor types contractID AuthorizedCallerRemovedEvent.
Definition ParseOwnershipTransferStartedEvent := ParseEvent types OwnershipTransferStartedEvent.
Definition WaitForOwnershipTransferStartedEvent (contractID : string) := Client.WaitFor types contractID OwnershipTransferStartedEvent.
Definition ParseCursedEvent := ParseEvent types CursedEvent.
Definition WaitForCursedEvent (contractID : string) := Client.WaitFor types contractID CursedEvent.
Definition ParseUncursedEvent := ParseEvent types UncursedEvent.
Definition WaitForUncursedEvent (contractID : string) := Client.WaitFor types contractID UncursedEvent.
End client.
