(* ===== verification/OffRampClient.v ===== *)
(** [bindings/contracts/offramp]: the generated types, errors, events and methods of the OffRamp
    contract. The data are what the generator parsed; each function is the template of
    [Codec] or [Client] that emits it, on its data. *)

From stdpp Require Import base list strings.
From S2P Require Import Prelude GoStrings Prog Xdr ScVal TypeConverters Ccv Codec Client.
Import Xdr.

Local Open Scope Z_scope.

(** ** Types *)

Definition AllowListEntry : Struct := mkStruct "AllowListEntry"
  [mkField "allowlist" (RVec RAddress); mkField "allowlist_enabled" RBool].
Definition AllowListUpdate : Struct := mkStruct "AllowListUpdate"
  [mkField "added_allowlisted_senders" (RVec RAddress); mkField "allowlist_enabled" RBool;
   mkField "dest_chain_selector" U64; mkField "removed_allowlisted_senders" (RVec RAddress)].
Definition TokenAmount : Struct := mkStruct "TokenAmount" [mkField "amount" I128; mkField "token" RAddress].
Definition GenericExtraArgsV3 : Struct := mkStruct "GenericExtraArgsV3"
  [mkField "block_confirmations" U32; mkField "ccv_args" (RVec RBytes); mkField "ccvs" (RVec RAddress);
   mkField "executor" RAddress; mkField "executor_args" RBytes; mkField "gas_limit" U32;
   mkField "token_args" RBytes; mkField "token_receiver" RBytes].
Definition AnyToStellarMessage : Struct := mkStruct "AnyToStellarMessage"
  [mkField "data" RBytes; mkField "dest_token_amounts" (RVec (RNamed "TokenAmount"));
   mkField "message_id" (RBytesN 32); mkField "sender" RBytes; mkField "source_chain_selector" U64].
Definition StellarToAnyMessage : Struct := mkStruct "StellarToAnyMessage"
  [mkField "data" RBytes; mkField "extra_args" RBytes; mkField "fee_token" RAddress;
   mkField "receiver" RBytes; mkField "token_amounts" (RVec (RNamed "TokenAmount"))].
Definition StaticConfig : Struct := mkStruct "StaticConfig"
  [mkField "chain_selector" U64; mkField "rmn_proxy" RAddress; mkField "token_admin_registry" RAddress].
Definition SourceChainConfig : Struct := mkStruct "SourceChainConfig"
  [mkField "default_ccvs" (RVec RAddress); mkField "is_enabled" RBool;
   mkField "lane_mandated_ccvs" (RVec RAddress); mkField "on_ramps" (RVec RBytes);
   mkField "router" RAddress].
Definition SourceChainConfigArgs : Struct := mkStruct "SourceChainConfigArgs"
  [mkField "default_ccvs" (RVec RAddress); mkField "is_enabled" RBool;
   mkField "lane_mandated_ccvs" (RVec RAddress); mkField "on_ramps" (RVec RBytes); mkField "router" RAddress;
   mkField "source_chain_selector" U64].
Definition DataKey : Enum := mkEnum "DataKey" [
  mkVariant "ExecState" EnumVariantTuple 0 [mkField "" (RBytesN 32)]].
Definition MessageExecutionState : Enum := mkEnum "MessageExecutionState" [
  mkVariant "Untouched" EnumVariantUnit 0 [];
  mkVariant "InProgress" EnumVariantUnit 1 [];
  mkVariant "Success" EnumVariantUnit 2 [];
  mkVariant "Failure" EnumVariantUnit 3 []].

(** ** Errors *)

Definition CCIPError : ErrorEnum := mkErrorEnum "CCIPError"
  [("NotInitialized", 1); ("AlreadyInitialized", 2); ("Unauthorized", 3); ("NotOwner", 4);
   ("NoPendingOwner", 5); ("CallerNotAuthorized", 6); ("CallerAlreadyAuthorized", 7); ("CallerNotFound", 8);
   ("RoleNotGranted", 9); ("FeatureNotEnabled", 10); ("RoleAlreadyGranted", 11); ("CannotRenounceRole", 12);
   ("InvalidVersionTag", 13); ("InvalidSignatureLength", 14); ("InvalidSignature", 15);
   ("InvalidSignatureCount", 16); ("InvalidSignatureThreshold", 17); ("InvalidSignaturePubkey", 18);
   ("SourceSignersNotConfigured", 19); ("InvalidVerifierResults", 20); ("ReentrantCall", 21);
   ("TokenNotSupported", 22); ("FeeTokenNotSupported", 23); ("NoGasPriceAvailable", 24);
   ("DestinationChainNotEnabled", 25); ("InvalidExtraArgsTag", 26); ("InvalidExtraArgsData", 27);
   ("MessageGasLimitTooHigh", 28); ("MessageTooLarge", 29); ("UnsupportedNumberOfTokens", 30);
   ("InvalidDestChainConfig", 31); ("MessageFeeTooHigh", 32); ("InvalidStaticConfig", 33);
   ("InvalidTokenReceiver", 34); ("SourceTokenDataTooLarge", 35); ("InvalidDestBytesOverhead", 36);
   ("DestinationChainNotSupported", 37); ("MustBeCalledByRouter", 38); ("RouterMustSetOriginalSender", 39);
   ("CannotSendZeroTokens", 40); ("CanOnlySendOneTokenPerMessage", 41); ("UnsupportedToken", 42);
   ("InvalidDestChainAddress", 43); ("FeeExceedsMaxAllowed", 44); ("InsufficientFeeTokenAmount", 45);
   ("TokenReceiverNotAllowed", 46); ("CursedByRMN", 47); ("RemoteChainNotSupported", 48);
   ("SenderNotAllowed", 49); ("InvalidTokenAmount", 50); ("InvalidReceiverAddress", 51);
   ("InvalidConfig", 52); ("InvalidVerifierResultsLength", 53); ("InboundImplementationNotFound", 54);
   ("OutboundImplementationNotFound", 55); ("InvalidAddress", 56); ("InvalidChainSelector", 57);
   ("InvalidVersion", 58); ("InvalidCCVVersion", 59); ("OffRampAlreadyExists", 60); ("OffRampMismatch", 61);
   ("BadRMNSignal", 62); ("UnsupportedDestinationChain", 63); ("AlreadyCursed", 64); ("ConfigNotSet", 65);
   ("DuplicateOnchainPublicKey", 66); ("InvalidSignerOrder", 67); ("NotEnoughSigners", 68);
   ("NotCursed", 69); ("OutOfOrderSignatures", 70); ("ThresholdNotMet", 71); ("UnexpectedSigner", 72);
   ("ZeroValueNotAllowed", 73); ("SourceChainNotEnabled", 100); ("InvalidSourceChainConfig", 101);
   ("InvalidOnRampAddress", 102); ("InvalidOffRampAddress", 103); ("InvalidMessageDestination", 104);
   ("MessageAlreadyExecuted", 105); ("InvalidExecutionState", 106); ("CCVLengthMismatch", 107);
   ("CCVQuorumNotMet", 108); ("ReceiverError", 109); ("GasLimitOverrideTooLow", 110);
   ("InvalidReceiverLength", 111); ("TokenHandlingError", 112); ("MessageDecodingError", 113);
   ("ReceiverDoesNotExist", 114); ("ReceiverNotWasmContract", 115); ("RequiredCCVMissing", 116);
   ("OnlyRegistryModuleOrOwner", 201); ("OnlyAdministrator", 202); ("OnlyPendingAdministrator", 203);
   ("TokenAlreadyRegistered", 204); ("InvalidTokenPoolToken", 205); ("PoolTokenMismatch", 301);
   ("ChainNotSupported", 302); ("CallerIsNotRamp", 303); ("InsufficientPoolLiquidity", 304);
   ("InvalidRemotePoolAddress", 305); ("InvalidRemoteChainConfig", 306); ("InvalidRemoteChainDecimals", 307);
   ("DecimalAmountOverflow", 308); ("InvalidPoolTokenDecimals", 309); ("BucketOverfilled", 310);
   ("TokenMaxCapacityExceeded", 311); ("TokenRateLimitReached", 312); ("InvalidRateLimitRate", 313);
   ("DisabledNonZeroRateLimit", 314); ("InvalidRequestedFinality", 315);
   ("RequestedFinalityCanOnlyHaveOneMode", 316); ("InvalidChainForClient", 317);
   ("RouterNotConfigured", 318); ("InvalidFeeCalculation", 801); ("InvalidFeeTokenConversion", 802);
   ("ZeroFeeAggregatorNotAllowed", 803)].

(** ** Events *)

Definition RoleGrantedEvent : Event := mkEvent "RoleGrantedEvent" ["auth_RoleGranted"]
  [mkField "role" RSymbol; mkField "account" RAddress; mkField "sender" RAddress].
Definition RoleRevokedEvent : Event := mkEvent "RoleRevokedEvent" ["auth_RoleRevoked"]
  [mkField "role" RSymbol; mkField "account" RAddress; mkField "sender" RAddress].
Definition AuthorizedCallerAddedEvent : Event := mkEvent "AuthorizedCallerAddedEvent" ["auth_CallerAdded"]
  [mkField "caller" RAddress].
Definition AuthorizedCallerRemovedEvent : Event := mkEvent "AuthorizedCallerRemovedEvent" ["auth_CallerRemoved"]
  [mkField "caller" RAddress].
Definition OwnershipTransferStartedEvent : Event := mkEvent "OwnershipTransferStartedEvent" ["auth_OwnerTransferStart"]
  [mkField "previous_owner" RAddress; mkField "new_owner" RAddress].
Definition StaticConfigSetEvent : Event := mkEvent "StaticConfigSetEvent" ["offramp_1_7_StaticConfigSet"]
  [mkField "static_config" (RNamed "StaticConfig")].
Definition SourceChainConfigSetEvent : Event := mkEvent "SourceChainConfigSetEvent" ["offramp_1_7_SrcChainCfgSet"]
  [mkField "source_chain_selector" U64; mkField "source_config" (RNamed "SourceChainConfig")].
Definition ExecutionStateChangedEvent : Event := mkEvent "ExecutionStateChangedEvent" ["offramp_1_7_ExecStateChanged"]
  [mkField "source_chain_selector" U64; mkField "sequence_number" U64; mkField "message_id" (RBytesN 32);
   mkField "state" (RNamed "MessageExecutionState"); mkField "return_data" RBytes].

(** ** Functions *)

Definition init : Function := mkFunction "init" [mkField "rmn_proxy" RAddress] RetVoid.
Definition owner : Function := mkFunction "owner" [] (RetType (ROption RAddress)).
Definition execute : Function := mkFunction "execute"
  [mkField "encoded_message" RBytes; mkField "ccvs" (RVec RAddress);
   mkField "verifier_results" (RVec RBytes); mkField "gas_limit_override" U32] RetVoid.
Definition is_owner : Function := mkFunction "is_owner" [mkField "addr" RAddress] (RetType RBool).
Definition is_cursed : Function := mkFunction "is_cursed" [] (RetType RBool).
Definition init_owner : Function := mkFunction "init_owner" [mkField "owner" RAddress] RetVoid.
Definition initialize : Function := mkFunction "initialize"
  [mkField "owner" RAddress; mkField "static_config" (RNamed "StaticConfig")] RetVoid.
Definition require_owner : Function := mkFunction "require_owner" [] (RetType RAddress).
Definition set_new_owner : Function := mkFunction "set_new_owner" [mkField "new_owner" RAddress] RetVoid.
Definition accept_ownership : Function := mkFunction "accept_ownership" [] RetVoid.
Definition type_and_version : Function := mkFunction "type_and_version" [] (RetType RString).
Definition get_pending_owner : Function := mkFunction "get_pending_owner" [] (RetType (ROption RAddress)).
Definition get_static_config : Function := mkFunction "get_static_config"
  [] (RetType (RNamed "StaticConfig")).
Definition is_subject_cursed : Function := mkFunction "is_subject_cursed"
  [mkField "subject" (RBytesN 16)] (RetType RBool).
Definition require_not_cursed : Function := mkFunction "require_not_cursed" [] RetVoid.
Definition transfer_ownership : Function := mkFunction "transfer_ownership"
  [mkField "new_owner" RAddress] RetVoid.
Definition get_execution_state : Function := mkFunction "get_execution_state"
  [mkField "message_id" (RBytesN 32)] (RetType (RNamed "MessageExecutionState")).
Definition get_source_chain_config : Function := mkFunction "get_source_chain_config"
  [mkField "source_chain_selector" U64] (RetType (RNamed "SourceChainConfig")).
Definition require_chain_not_cursed : Function := mkFunction "require_chain_not_cursed"
  [mkField "chain_selector" U64] RetVoid.
Definition cancel_ownership_transfer : Function := mkFunction "cancel_ownership_transfer" [] RetVoid.
Definition extend_execution_state_ttl : Function := mkFunction "extend_execution_state_ttl"
  [mkField "message_id" (RBytesN 32)] RetVoid.
Definition require_subject_not_cursed : Function := mkFunction "require_subject_not_cursed"
  [mkField "subject" (RBytesN 16)] RetVoid.
Definition get_all_source_chain_configs : Function := mkFunction "get_all_source_chain_configs"
  [] (RetTuple [RVec U64; RVec (RNamed "SourceChainConfig")]).
Definition apply_source_chain_cfg_updates : Function := mkFunction "apply_source_chain_cfg_updates"
  [mkField "source_chain_config_args" (RVec (RNamed "SourceChainConfigArgs"))] RetVoid.

(** The contract; a type comes after those that it mentions. *)
Definition contract : Contract := mkContract "OffRamp"
  [TStruct AllowListEntry; TStruct AllowListUpdate; TStruct TokenAmount; TStruct GenericExtraArgsV3;
   TStruct AnyToStellarMessage; TStruct StellarToAnyMessage; TStruct StaticConfig; TStruct SourceChainConfig;
   TStruct SourceChainConfigArgs; TEnum DataKey; TEnum MessageExecutionState]
  [init; owner; execute; is_owner; is_cursed; init_owner; initialize; require_owner; set_new_owner;
   accept_ownership; type_and_version; get_pending_owner; get_static_config; is_subject_cursed;
   require_not_cursed; transfer_ownership; get_execution_state; get_source_chain_config;
   require_chain_not_cursed; cancel_ownership_transfer; extend_execution_state_ttl;
   require_subject_not_cursed; get_all_source_chain_configs; apply_source_chain_cfg_updates]
  [CCIPError]
  [RoleGrantedEvent; RoleRevokedEvent; AuthorizedCallerAddedEvent; AuthorizedCallerRemovedEvent;
   OwnershipTransferStartedEvent; StaticConfigSetEvent; SourceChainConfigSetEvent;
   ExecutionStateChangedEvent].

(** ** The emitted code *)

Section client.
Context {UT : UnicodeTables} {XS : XdrSdk} (enumerate : list string → list string).
Definition types : string → option codec := package enumerate contract.

Definition AllowListEntry_ToScVal : value → gres ScVal := toScVal (struct_codec types enumerate AllowListEntry).
Definition AllowListEntryFromScVal : ScVal → gres value := fromScVal (struct_codec types enumerate AllowListEntry).
Definition AllowListUpdate_ToScVal : value → gres ScVal := toScVal (struct_codec types enumerate AllowListUpdate).
Definition AllowListUpdateFromScVal : ScVal → gres value := fromScVal (struct_codec types enumerate AllowListUpdate).
Definition TokenAmount_ToScVal : value → gres ScVal := toScVal (struct_codec types enumerate TokenAmount).
Definition TokenAmountFromScVal : ScVal → gres value := fromScVal (struct_codec types enumerate TokenAmount).
Definition GenericExtraArgsV3_ToScVal : value → gres ScVal := toScVal (struct_codec types enumerate GenericExtraArgsV3).
Definition GenericExtraArgsV3FromScVal : ScVal → gres value := fromScVal (struct_codec types enumerate GenericExtraArgsV3).
Definition AnyToStellarMessage_ToScVal : value → gres ScVal := toScVal (struct_codec types enumerate AnyToStellarMessage).
Definition AnyToStellarMessageFromScVal : ScVal → gres value := fromScVal (struct_codec types enumerate AnyToStellarMessage).
Definition StellarToAnyMessage_ToScVal : value → gres ScVal := toScVal (struct_codec types enumerate StellarToAnyMessage).
Definition StellarToAnyMessageFromScVal : ScVal → gres value := fromScVal (struct_codec types enumerate StellarToAnyMessage).
Definition StaticConfig_ToScVal : value → gres ScVal := toScVal (struct_codec types enumerate StaticConfig).
Definition StaticConfigFromScVal : ScVal → gres value := fromScVal (struct_codec types enumerate StaticConfig).
Definition SourceChainConfig_ToScVal : value → gres ScVal := toScVal (struct_codec types enumerate SourceChainConfig).
Definition SourceChainConfigFromScVal : ScVal → gres value := fromScVal (struct_codec types enumerate SourceChainConfig).
Definition SourceChainConfigArgs_ToScVal : value → gres ScVal := toScVal (struct_codec types enumerate SourceChainConfigArgs).
Definition SourceChainConfigArgsFromScVal : ScVal → gres value := fromScVal (struct_codec types enumerate SourceChainConfigArgs).
Definition DataKey_ToScVal : value → gres ScVal := toScVal (enum_codec types DataKey).
Definition DataKeyFromScVal : ScVal → gres value := fromScVal (enum_codec types DataKey).
Definition MessageExecutionState_ToScVal : value → gres ScVal := toScVal (enum_codec types MessageExecutionState).
Definition MessageExecutionStateFromScVal : ScVal → gres value := fromScVal (enum_codec types MessageExecutionState).
Definition CCIPErrorMessage : Z → option string := error_message CCIPError.

(** The methods, on a client for the contract [contractID]. *)
Section methods.
Context {W : Type} {E : Type → Type} {IV : Invoker W E} (contractID : string).
Definition OffRampClient_Init : list value → prog W E (gres (list value)) :=
  Client.method types contractID init.
Definition OffRampClient_Owner : list value → prog W E (gres (list value)) :=
  Client.method types contractID owner.
Definition OffRampClient_Execute : list value → prog W E (gres (list value)) :=
  Client.method types contractID execute.
Definition OffRampClient_IsOwner : list value → prog W E (gres (list value)) :=
  Client.method types contractID is_owner.
Definition OffRampClient_IsCursed : list value → prog W E (gres (list value)) :=
  Client.method types contractID is_cursed.
Definition OffRampClient_InitOwner : list value → prog W E (gres (list value)) :=
  Client.method types contractID init_owner.
Definition OffRampClient_Initialize : list value → prog W E (gres (list value)) :=
  Client.method types contractID initialize.
Definition OffRampClient_RequireOwner : list value → prog W E (gres (list value)) :=
  Client.method types contractID require_owner.
Definition OffRampClient_SetNewOwner : list value → prog W E (gres (list value)) :=
  Client.method types contractID set_new_owner.
Definition OffRampClient_AcceptOwnership : list value → prog W E (gres (list value)) :=
  Client.method types contractID accept_ownership.
Definition OffRampClient_TypeAndVersion : list value → prog W E (gres (list value)) :=
  Client.method types contractID type_and_version.
Definition OffRampClient_GetPendingOwner : list value → prog W E (gres (list value)) :=
  Client.method types contractID get_pending_owner.
Definition OffRampClient_GetStaticConfig : list value → prog W E (gres (list value)) :=
  Client.method types contractID get_static_config.
Definition OffRampClient_IsSubjectCursed : list value → prog W E (gres (list value)) :=
  Client.method types contractID is_subject_cursed.
Definition OffRampClient_RequireNotCursed : list value → prog W E (gres (list value)) :=
  Client.method types contractID require_not_cursed.
Definition OffRampClient_TransferOwnership : list value → prog W E (gres (list value)) :=
  Client.method types contractID transfer_ownership.
Definition OffRampClient_GetExecutionState : list value → prog W E (gres (list value)) :=
  Client.method types contractID get_execution_state.
Definition OffRampClient_GetSourceChainConfig : list value → prog W E (gres (list value)) :=
  Client.method types contractID get_source_chain_config.
Definition OffRampClient_RequireChainNotCursed : list value → prog W E (gres (list value)) :=
  Client.method types contractID require_chain_not_cursed.
Definition OffRampClient_CancelOwnershipTransfer : list value → prog W E (gres (list value)) :=
  Client.method types contractID cancel_ownership_transfer.
Definition OffRampClient_ExtendExecutionStateTtl : list value → prog W E (gres (list value)) :=
  Client.method types contractID extend_execution_state_ttl.
Definition OffRampClient_RequireSubjectNotCursed : list value → prog W E (gres (list value)) :=
  Client.method types contractID require_subject_not_cursed.
Definition OffRampClient_GetAllSourceChainConfigs : list value → prog W E (gres (list value)) :=
  Client.method types contractID get_all_source_chain_configs.
Definition OffRampClient_ApplySourceChainCfgUpdates : list value → prog W E (gres (list value)) :=
  Client.method types contractID apply_source_chain_cfg_updates.
End methods.

Definition ParseRoleGrantedEvent := ParseEvent types RoleGrantedEvent.
Definition WaitForRoleGrantedEvent (contractID : string) := Client.WaitFor types contractID RoleGrantedEvent.
Definition ParseRoleRevokedEvent := ParseEvent types RoleRevokedEvent.
Definition WaitForRoleRevokedEvent (contractID : string) := Client.WaitFor types contractID RoleRevokedEvent.
Definition ParseAuthorizedCallerAddedEvent := ParseEvent types AuthorizedCallerAddedEvent.
Definition WaitForAuthorizedCallerAddedEvent (contractID : string) := Client.WaitFor types contractID AuthorizedCallerAddedEvent.
Definition ParseAuthorizedCallerRemovedEvent := ParseEvent types AuthorizedCallerRemovedEvent.
Definition WaitForAuthorizedCallerRemovedEvent (contractID : string) := Client.WaitFor types contractID AuthorizedCallerRemovedEvent.
Definition ParseOwnershipTransferStartedEvent := ParseEvent types OwnershipTransferStartedEvent.
Definition WaitForOwnershipTransferStartedEvent (contractID : string) := Client.WaitFor types contractID OwnershipTransferStartedEvent.
Definition ParseStaticConfigSetEvent := ParseEvent types StaticConfigSetEvent.
Definition WaitForStaticConfigSetEvent (contractID : string) := Client.WaitFor types contractID StaticConfigSetEvent.
Definition ParseSourceChainConfigSetEvent := ParseEvent types SourceChainConfigSetEvent.
Definition WaitForSourceChainConfigSetEvent (contractID : string) := Client.WaitFor types contractID SourceChainConfigSetEvent.
Definition ParseExecutionStateChangedEvent := ParseEvent types ExecutionStateChangedEvent.
Definition WaitForExecutionStateChangedEvent (contractID : string) := Client.WaitFor types contractID ExecutionStateChangedEvent.
End client.
