(* ===== verification/RouterClient.v ===== *)
(** [bindings/contracts/router]: the generated types, errors, events and methods of the Router
    contract. The data are what the generator parsed; each function is the template of
    [Codec] or [Client] that emits it, on its data. *)

From stdpp Require Import base list strings.
From S2P Require Import Prelude GoStrings Prog Xdr ScVal TypeConverters Ccv Codec Client.
Import Xdr.

Local Open Scope Z_scope.

(** ** Types *)

Definition AllowListEntry : Struct := mkStruct "AllowListEntry"
  [mkField "allowlist" (RVec RAddress); mkField "allowlist_enabled" RBool].
Definition AllowListUpdate : Struct := mkStruct "AllowListUpdate"
  [mkField "added_allowlisted_senders" (RVec RAddress); mkField "allowlist_enabled" RBool;
   mkField "dest_chain_selector" U64; mkField "removed_allowlisted_senders" (RVec RAddress)].
Definition TokenAmount : Struct := mkStruct "TokenAmount" [mkField "amount" I128; mkField "token" RAddress].
Definition GenericExtraArgsV3 : Struct := mkStruct "GenericExtraArgsV3"
  [mkField "block_confirmations" U32; mkField "ccv_args" (RVec RBytes); mkField "ccvs" (RVec RAddress);
   mkField "executor" RAddress; mkField "executor_args" RBytes; mkField "gas_limit" U32;
   mkField "token_args" RBytes; mkField "token_receiver" RBytes].
Definition AnyToStellarMessage : Struct := mkStruct "AnyToStellarMessage"
  [mkField "data" RBytes; mkField "dest_token_amounts" (RVec (RNamed "TokenAmount"));
   mkField "message_id" (RBytesN 32); mkField "sender" RBytes; mkField "source_chain_selector" U64].
Definition StellarToAnyMessage : Struct := mkStruct "StellarToAnyMessage"
  [mkField "data" RBytes; mkField "extra_args" RBytes; mkField "fee_token" RAddress;
   mkField "receiver" RBytes; mkField "token_amounts" (RVec (RNamed "TokenAmount"))].
Definition OnRampEntry : Struct := mkStruct "OnRampEntry"
  [mkField "dest_chain_selector" U64; mkField "onramp" RAddress].
Definition OffRampEntry : Struct := mkStruct "OffRampEntry"
  [mkField "offramp" RAddress; mkField "source_chain_selector" U64].
Definition RouterConfig : Struct := mkStruct "RouterConfig" [mkField "rmn_proxy" RAddress].

(** ** Errors *)

Definition CCIPError : ErrorEnum := mkErrorEnum "CCIPError"
  [("NotInitialized", 1); ("AlreadyInitialized", 2); ("Unauthorized", 3); ("NotOwner", 4);
   ("NoPendingOwner", 5); ("CallerNotAuthorized", 6); ("CallerAlreadyAuthorized", 7); ("CallerNotFound", 8);
   ("RoleNotGranted", 9); ("FeatureNotEnabled", 10); ("RoleAlreadyGranted", 11); ("CannotRenounceRole", 12);
   ("InvalidVersionTag", 13); ("InvalidSignatureLength", 14); ("InvalidSignature", 15);
   ("InvalidSignatureCount", 16); ("InvalidSignatureThreshold", 17); ("InvalidSignaturePubkey", 18);
   ("SourceSignersNotConfigured", 19); ("InvalidVerifierResults", 20); ("ReentrantCall", 21);
   ("TokenNotSupported", 22); ("FeeTokenNotSupported", 23); ("NoGasPriceAvailable", 24);
   ("DestinationChainNotEnabled", 25); ("InvalidExtraArgsTag", 26); ("InvalidExtraArgsData", 27);
   ("MessageGasLimitTooHigh", 28); ("MessageTooLarge", 29); ("UnsupportedNumberOfTokens", 30);
   ("InvalidDestChainConfig", 31); ("MessageFeeTooHigh", 32); ("InvalidStaticConfig", 33);
   ("InvalidTokenReceiver", 34); ("SourceTokenDataTooLarge", 35); ("InvalidDestBytesOverhead", 36);
   ("DestinationChainNotSupported", 37); ("MustBeCalledByRouter", 38); ("RouterMustSetOriginalSender", 39);
   ("CannotSendZeroTokens", 40); ("CanOnlySendOneTokenPerMessage", 41); ("UnsupportedToken", 42);
   ("InvalidDestChainAddress", 43); ("FeeExceedsMaxAllowed", 44); ("InsufficientFeeTokenAmount", 45);
   ("TokenReceiverNotAllowed", 46); ("CursedByRMN", 47); ("RemoteChainNotSupported", 48);
   ("SenderNotAllowed", 49); ("InvalidTokenAmount", 50); ("InvalidReceiverAddress", 51);
   ("InvalidConfig", 52); ("InvalidVerifierResultsLength", 53); ("InboundImplementationNotFound", 54);
   ("OutboundImplementationNotFound", 55); ("InvalidAddress", 56); ("InvalidChainSelector", 57);
   ("InvalidVersion", 58); ("InvalidCCVVersion", 59); ("OffRampAlreadyExists", 60); ("OffRampMismatch", 61);
   ("BadRMNSignal", 62); ("UnsupportedDestinationChain", 63); ("AlreadyCursed", 64); ("ConfigNotSet", 65);
   ("DuplicateOnchainPublicKey", 66); ("InvalidSignerOrder", 67); ("NotEnoughSigners", 68);
   ("NotCursed", 69); ("OutOfOrderSignatures", 70); ("ThresholdNotMet", 71); ("UnexpectedSigner", 72);
   ("ZeroValueNotAllowed", 73); ("SourceChainNotEnabled", 100); ("InvalidSourceChainConfig", 101);
   ("InvalidOnRampAddress", 102); ("InvalidOffRampAddress", 103); ("InvalidMessageDestination", 104);
   ("MessageAlreadyExecuted", 105); ("InvalidExecutionState", 106); ("CCVLengthMismatch", 107);
   ("CCVQuorumNotMet", 108); ("ReceiverError", 109); ("GasLimitOverrideTooLow", 110);
   ("InvalidReceiverLength", 111); ("TokenHandlingError", 112); ("MessageDecodingError", 113);
   ("ReceiverDoesNotExist", 114); ("ReceiverNotWasmContract", 115); ("RequiredCCVMissing", 116);
   ("OnlyRegistryModuleOrOwner", 201); ("OnlyAdministrator", 202); ("OnlyPendingAdministrator", 203);
   ("TokenAlreadyRegistered", 204); ("InvalidTokenPoolToken", 205); ("PoolTokenMismatch", 301);
   ("ChainNotSupported", 302); ("CallerIsNotRamp", 303); ("InsufficientPoolLiquidity", 304);
   ("InvalidRemotePoolAddress", 305); ("InvalidRemoteChainConfig", 306); ("InvalidRemoteChainDecimals", 307);
   ("DecimalAmountOverflow", 308); ("InvalidPoolTokenDecimals", 309); ("BucketOverfilled", 310);
   ("TokenMaxCapacityExceeded", 311); ("TokenRateLimitReached", 312); ("InvalidRateLimitRate", 313);
   ("DisabledNonZeroRateLimit", 314); ("InvalidRequestedFinality", 315);
   ("RequestedFinalityCanOnlyHaveOneMode", 316); ("InvalidChainForClient", 317);
   ("RouterNotConfigured", 318); ("InvalidFeeCalculation", 801); ("InvalidFeeTokenConversion", 802);
   ("ZeroFeeAggregatorNotAllowed", 803)].

(** ** Events *)

Definition RoleGrantedEvent : Event := mkEvent "RoleGrantedEvent" ["auth_RoleGranted"]
  [mkField "role" RSymbol; mkField "account" RAddress; mkField "sender" RAddress].
Definition RoleRevokedEvent : Event := mkEvent "RoleRevokedEvent" ["auth_RoleRevoked"]
  [mkField "role" RSymbol; mkField "account" RAddress; mkField "sender" RAddress].
Definition AuthorizedCallerAddedEvent : Event := mkEvent "AuthorizedCallerAddedEvent" ["auth_CallerAdded"]
  [mkField "caller" RAddress].
Definition AuthorizedCallerRemovedEvent : Event := mkEvent "AuthorizedCallerRemovedEvent" ["auth_CallerRemoved"]
  [mkField "caller" RAddress].
Definition OwnershipTransferStartedEvent : Event := mkEvent "OwnershipTransferStartedEvent" ["auth_OwnerTransferStart"]
  [mkField "previous_owner" RAddress; mkField "new_owner" RAddress].
Definition OnRampSetEvent : Event := mkEvent "OnRampSetEvent" ["router_OnRampSet"]
  [mkField "dest_chain_selector" U64; mkField "onramp" RAddress].
Definition OffRampAddedEvent : Event := mkEvent "OffRampAddedEvent" ["router_OffRampAdded"]
  [mkField "source_chain_selector" U64; mkField "offramp" RAddress].
Definition OffRampRemovedEvent : Event := mkEvent "OffRampRemovedEvent" ["router_OffRampRemoved"]
  [mkField "source_chain_selector" U64; mkField "offramp" RAddress].
Definition MessageExecutedEvent : Event := mkEvent "MessageExecutedEvent" ["router_MessageExecuted"]
  [mkField "message_id" (RBytesN 32); mkField "source_chain_selector" U64; mkField "offramp" RAddress].
Definition CCIPSendRequestedEvent : Event := mkEvent "CCIPSendRequestedEvent" ["router_CCIPSendRequested"]
  [mkField "message_id" (RBytesN 32); mkField "dest_chain_selector" U64; mkField "sender" RAddress].

(** ** Functions *)

Definition owner : Function := mkFunction "owner" [] (RetType (ROption RAddress)).
Definition get_fee : Function := mkFunction "get_fee"
  [mkField "dest_chain_selector" U64; mkField "message" (RNamed "StellarToAnyMessage")] (RetType I128).
Definition is_owner : Function := mkFunction "is_owner" [mkField "addr" RAddress] (RetType RBool).
Definition ccip_send : Function := mkFunction "ccip_send"
  [mkField "sender" RAddress; mkField "dest_chain_selector" U64;
   mkField "message" (RNamed "StellarToAnyMessage"); mkField "fee_token_amount" I128] (RetType (RBytesN 32)).
Definition get_config : Function := mkFunction "get_config" [] (RetType (RNamed "RouterConfig")).
Definition get_onramp : Function := mkFunction "get_onramp"
  [mkField "dest_chain_selector" U64] (RetType RAddress).
Definition init_owner : Function := mkFunction "init_owner" [mkField "owner" RAddress] RetVoid.
Definition initialize : Function := mkFunction "initialize"
  [mkField "owner" RAddress; mkField "rmn_proxy" RAddress] RetVoid.
Definition is_offramp : Function := mkFunction "is_offramp"
  [mkField "source_chain_selector" U64; mkField "offramp" RAddress] (RetType RBool).
Definition set_onramp : Function := mkFunction "set_onramp"
  [mkField "dest_chain_selector" U64; mkField "onramp" RAddress] RetVoid.
Definition add_offramp : Function := mkFunction "add_offramp"
  [mkField "source_chain_selector" U64; mkField "offramp" RAddress] RetVoid.
Definition get_onramps : Function := mkFunction "get_onramps" [] (RetType (RVec (RNamed "OnRampEntry"))).
Definition get_offramps : Function := mkFunction "get_offramps" [] (RetType (RVec (RNamed "OffRampEntry"))).
Definition require_owner : Function := mkFunction "require_owner" [] (RetType RAddress).
Definition route_message : Function := mkFunction "route_message"
  [mkField "offramp" RAddress; mkField "source_chain_selector" U64; mkField "receiver" RAddress;
   mkField "message" (RNamed "AnyToStellarMessage")] RetVoid.
Definition set_new_owner : Function := mkFunction "set_new_owner" [mkField "new_owner" RAddress] RetVoid.
Definition remove_offramp : Function := mkFunction "remove_offramp"
  [mkField "source_chain_selector" U64; mkField "offramp" RAddress] RetVoid.
Definition accept_ownership : Function := mkFunction "accept_ownership" [] RetVoid.
Definition type_and_version : Function := mkFunction "type_and_version" [] (RetType RString).
Definition get_pending_owner : Function := mkFunction "get_pending_owner" [] (RetType (ROption RAddress)).
Definition apply_ramp_updates : Function := mkFunction "apply_ramp_updates"
  [mkField "onramp_updates" (RVec (RNamed "OnRampEntry"));
   mkField "offramp_removes" (RVec (RNamed "OffRampEntry"));
   mkField "offramp_adds" (RVec (RNamed "OffRampEntry"))] RetVoid.
Definition is_chain_supported : Function := mkFunction "is_chain_supported"
  [mkField "dest_chain_selector" U64] (RetType RBool).
Definition transfer_ownership : Function := mkFunction "transfer_ownership"
  [mkField "new_owner" RAddress] RetVoid.
Definition cancel_ownership_transfer : Function := mkFunction "cancel_ownership_transfer" [] RetVoid.

(** The contract; a type comes after those that it mentions. *)
Definition contract : Contract := mkContract "Router"
  [TStruct AllowListEntry; TStruct AllowListUpdate; TStruct TokenAmount; TStruct GenericExtraArgsV3;
   TStruct AnyToStellarMessage; TStruct StellarToAnyMessage; TStruct OnRampEntry; TStruct OffRampEntry;
   TStruct RouterConfig]
  [owner; get_fee; is_owner; ccip_send; get_config; get_onramp; init_owner; initialize; is_offramp;
   set_onramp; add_offramp; get_onramps; get_offramps; require_owner; route_message; set_new_owner;
   remove_offramp; accept_ownership; type_and_version; get_pending_owner; apply_ramp_updates;
   is_chain_supported; transfer_ownership; cancel_ownership_transfer]
  [CCIPError]
  [RoleGrantedEvent; RoleRevokedEvent; AuthorizedCallerAddedEvent; AuthorizedCallerRemovedEvent;
   OwnershipTransferStartedEvent; OnRampSetEvent; OffRampAddedEvent; OffRampRemovedEvent;
   MessageExecutedEvent; CCIPSendRequestedEvent].

(** ** The emitted code *)

Section client.
Context {UT : UnicodeTables} {XS : XdrSdk} (enumerate : list string → list string).
Definition types : string → option codec := package enumerate contract.

Definition AllowListEntry_ToScVal : value → gres ScVal := toScVal (struct_codec types enumerate AllowListEntry).
Definition AllowListEntryFromScVal : ScVal → gres value := fromScVal (struct_codec types enumerate AllowListEntry).
Definition AllowListUpdate_ToScVal : value → gres ScVal := toScVal (struct_codec types enumerate AllowListUpdate).
Definition AllowListUpdateFromScVal : ScVal → gres value := fromScVal (struct_codec types enumerate AllowListUpdate).
Definition TokenAmount_ToScVal : value → gres ScVal := toScVal (struct_codec types enumerate TokenAmount).
Definition TokenAmountFromScVal : ScVal → gres value := fromScVal (struct_codec types enumerate TokenAmount).
Definition GenericExtraArgsV3_ToScVal : value → gres ScVal := toScVal (struct_codec types enumerate GenericExtraArgsV3).
Definition GenericExtraArgsV3FromScVal : ScVal → gres value := fromScVal (struct_codec types enumerate GenericExtraArgsV3).
Definition AnyToStellarMessage_ToScVal : value → gres ScVal := toScVal (struct_codec types enumerate AnyToStellarMessage).
Definition AnyToStellarMessageFromScVal : ScVal → gres value := fromScVal (struct_codec types enumerate AnyToStellarMessage).
Definition StellarToAnyMessage_ToScVal : value → gres ScVal := toScVal (struct_codec types enumerate StellarToAnyMessage).
Definition StellarToAnyMessageFromScVal : ScVal → gres value := fromScVal (struct_codec types enumerate StellarToAnyMessage).
Definition OnRampEntry_ToScVal : value → gres ScVal := toScVal (struct_codec types enumerate OnRampEntry).
Definition OnRampEntryFromScVal : ScVal → gres value := fromScVal (struct_codec types enumerate OnRampEntry).
Definition OffRampEntry_ToScVal : value → gres ScVal := toScVal (struct_codec types enumerate OffRampEntry).
Definition OffRampEntryFromScVal : ScVal → gres value := fromScVal (struct_codec types enumerate OffRampEntry).
Definition RouterConfig_ToScVal : value → gres ScVal := toScVal (struct_codec types enumerate RouterConfig).
Definition RouterConfigFromScVal : ScVal → gres value := fromScVal (struct_codec types enumerate RouterConfig).
Definition CCIPErrorMessage : Z → option string := error_message CCIPError.

(** The methods, on a client for the contract [contractID]. *)
Section methods.
Context {W : Type} {E : Type → Type} {IV : Invoker W E} (contractID : string).
Definition RouterClient_Owner : list value → prog W E (gres (list value)) :=
  Client.method types contractID owner.
Definition RouterClient_GetFee : list value → prog W E (gres (list value)) :=
  Client.method types contractID get_fee.
Definition RouterClient_IsOwner : list value → prog W E (gres (list value)) :=
  Client.method types contractID is_owner.
Definition RouterClient_CcipSend : list value → prog W E (gres (list value)) :=
  Client.method types contractID ccip_send.
Definition RouterClient_GetConfig : list value → prog W E (gres (list value)) :=
  Client.method types contractID get_config.
Definition RouterClient_GetOnramp : list value → prog W E (gres (list value)) :=
  Client.method types contractID get_onramp.
Definition RouterClient_InitOwner : list value → prog W E (gres (list value)) :=
  Client.method types contractID init_owner.
Definition RouterClient_Initialize : list value → prog W E (gres (list value)) :=
  Client.method types contractID initialize.
Definition RouterClient_IsOfframp : list value → prog W E (gres (list value)) :=
  Client.method types contractID is_offramp.
Definition RouterClient_SetOnramp : list value → prog W E (gres (list value)) :=
  Client.method types contractID set_onramp.
Definition RouterClient_AddOfframp : list value → prog W E (gres (list value)) :=
  Client.method types contractID add_offramp.
Definition RouterClient_GetOnramps : list value → prog W E (gres (list value)) :=
  Client.method types contractID get_onramps.
Definition RouterClient_GetOfframps : list value → prog W E (gres (list value)) :=
  Client.method types contractID get_offramps.
Definition RouterClient_RequireOwner : list value → prog W E (gres (list value)) :=
  Client.method types contractID require_owner.
Definition RouterClient_RouteMessage : list value → prog W E (gres (list value)) :=
  Client.method types contractID route_message.
Definition RouterClient_SetNewOwner : list value → prog W E (gres (list value)) :=
  Client.method types contractID set_new_owner.
Definition RouterClient_RemoveOfframp : list value → prog W E (gres (list value)) :=
  Client.method types contractID remove_offramp.
Definition RouterClient_AcceptOwnership : list value → prog W E (gres (list value)) :=
  Client.method types contractID accept_ownership.
Definition RouterClient_TypeAndVersion : list value → prog W E (gres (list value)) :=
  Client.method types contractID type_and_version.
Definition RouterClient_GetPendingOwner : list value → prog W E (gres (list value)) :=
  Client.method types contractID get_pending_owner.
Definition RouterClient_ApplyRampUpdates : list value → prog W E (gres (list value)) :=
  Client.method types contractID apply_ramp_updates.
Definition RouterClient_IsChainSupported : list value → prog W E (gres (list value)) :=
  Client.method types contractID is_chain_supported.
Definition RouterClient_TransferOwnership : list value → prog W E (gres (list value)) :=
  Client.method types contractID transfer_ownership.
Definition RouterClient_CancelOwnershipTransfer : list value → prog W E (gres (list value)) :=
  Client.method types contractID cancel_ownership_transfer.
End methods.

Definition ParseRoleGrantedEvent := ParseEvent types RoleGrantedEvent.
Definition WaitForRoleGrantedEvent (contractID : string) := Client.WaitFor types contractID RoleGrantedEvent.
Definition ParseRoleRevokedEvent := ParseEvent types RoleRevokedEvent.
Definition WaitForRoleRevokedEvent (contractID : string) := Client.WaitFor types contractID RoleRevokedEvent.
Definition ParseAuthorizedCallerAddedEvent := ParseEvent types AuthorizedCallerAddedEvent.
Definition WaitForAuthorizedCallerAddedEvent (contractID : string) := Client.WaitFor types contractID AuthorizedCallerAddedEvent.
Definition ParseAuthorizedCallerRemovedEvent := ParseEvent types AuthorizedCallerRemovedEvent.
Definition WaitForAuthorizedCallerRemovedEvent (contractID : string) := Client.WaitFor types contractID AuthorizedCallerRemovedEvent.
Definition ParseOwnershipTransferStartedEvent := ParseEvent types OwnershipTransferStartedEvent.
Definition WaitForOwnershipTransferStartedEvent (contractID : string) := Client.WaitFor types contractID OwnershipTransferStartedEvent.
Definition ParseOnRampSetEvent := ParseEvent types OnRampSetEvent.
Definition WaitForOnRampSetEvent (contractID : string) := Client.WaitFor types contractID OnRampSetEvent.
Definition ParseOffRampAddedEvent := ParseEvent types OffRampAddedEvent.
Definition WaitForOffRampAddedEvent (contractID : string) := Client.WaitFor types contractID OffRampAddedEvent.
Definition ParseOffRampRemovedEvent := ParseEvent types OffRampRemovedEvent.
Definition WaitForOffRampRemovedEvent (contractID : string) := Client.WaitFor types contractID OffRampRemovedEvent.
Definition ParseMessageExecutedEvent := ParseEvent types MessageExecutedEvent.
Definition WaitForMessageExecutedEvent (contractID : string) := Client.WaitFor types contractID MessageExecutedEvent.
Definition ParseCCIPSendRequestedEvent := ParseEvent types CCIPSendRequestedEvent.
Definition WaitForCCIPSendRequestedEvent (contractID : string) := Client.WaitFor types contractID CCIPSendRequestedEvent.
End client.
