(* ===== verification/RampRegistryClient.v ===== *)
(** [bindings/contracts/ramp_registry]: the generated types, errors, events and methods of the RampRegistry
    contract. The data are what the generator parsed; each function is the template of
    [Codec] or [Client] that emits it, on its data. *)

From stdpp Require Import base list strings.
From S2P Require Import Prelude GoStrings Prog Xdr ScVal TypeConverters Ccv Codec Client.
Import Xdr.

Local Open Scope Z_scope.

(** ** Types *)

Definition OffRampKey : Struct := mkStruct "OffRampKey"
  [mkField "offramp" RAddress; mkField "source_chain_selector" U64].
Definition OnRampEntry : Struct := mkStruct "OnRampEntry"
  [mkField "dest_chain_selector" U64; mkField "onramp" RAddress].
Definition OffRampEntry : Struct := mkStruct "OffRampEntry"
  [mkField "offramp" RAddress; mkField "source_chain_selector" U64].
Definition OnRampUpdate : Struct := mkStruct "OnRampUpdate"
  [mkField "dest_chain_selector" U64; mkField "onramp" (ROption RAddress)].
Definition OffRampUpdate : Struct := mkStruct "OffRampUpdate"
  [mkField "enabled" RBool; mkField "offramp" RAddress; mkField "source_chain_selector" U64].

(** ** Events *)

Definition OnRampSetEvent : Event := mkEvent "OnRampSetEvent" ["ramp_reg_OnRampSet"]
  [mkField "dest_chain_selector" U64; mkField "onramp" RAddress].
Definition OffRampAddedEvent : Event := mkEvent "OffRampAddedEvent" ["ramp_reg_OffRampAdded"]
  [mkField "source_chain_selector" U64; mkField "offramp" RAddress].
Definition OnRampRemovedEvent : Event := mkEvent "OnRampRemovedEvent" ["ramp_reg_OnRampRemoved"]
  [mkField "dest_chain_selector" U64].
Definition OffRampRemovedEvent : Event := mkEvent "OffRampRemovedEvent" ["ramp_reg_OffRampRemoved"]
  [mkField "source_chain_selector" U64; mkField "offramp" RAddress].

(** ** Functions *)

Definition owner : Function := mkFunction "owner" [] (RetType (ROption RAddress)).
Definition is_owner : Function := mkFunction "is_owner" [mkField "addr" RAddress] (RetType RBool).
Definition get_onramp : Function := mkFunction "get_onramp"
  [mkField "dest_chain_selector" U64] (RetType RAddress).
Definition init_owner : Function := mkFunction "init_owner" [mkField "owner" RAddress] RetVoid.
Definition initialize : Function := mkFunction "initialize" [mkField "owner" RAddress] RetVoid.
Definition is_offramp : Function := mkFunction "is_offramp"
  [mkField "source_chain_selector" U64; mkField "offramp" RAddress] (RetType RBool).
Definition get_onramps : Function := mkFunction "get_onramps" [] (RetType (RVec (RNamed "OnRampEntry"))).
Definition get_offramps : Function := mkFunction "get_offramps" [] (RetType (RVec (RNamed "OffRampEntry"))).
Definition require_owner : Function := mkFunction "require_owner" [] (RetType RAddress).
Definition set_new_owner : Function := mkFunction "set_new_owner" [mkField "new_owner" RAddress] RetVoid.
Definition accept_ownership : Function := mkFunction "accept_ownership" [] RetVoid.
Definition type_and_version : Function := mkFunction "type_and_version" [] (RetType RString).
Definition get_pending_owner : Function := mkFunction "get_pending_owner" [] (RetType (ROption RAddress)).
Definition transfer_ownership : Function := mkFunction "transfer_ownership"
  [mkField "new_owner" RAddress] RetVoid.
Definition apply_onramp_updates : Function := mkFunction "apply_onramp_updates"
  [mkField "updates" (RVec (RNamed "OnRampUpdate"))] RetVoid.
Definition apply_offramp_updates : Function := mkFunction "apply_offramp_updates"
  [mkField "updates" (RVec (RNamed "OffRampUpdate"))] RetVoid.
Definition cancel_ownership_transfer : Function := mkFunction "cancel_ownership_transfer" [] RetVoid.

(** The contract; a type comes after those that it mentions. *)
Definition contract : Contract := mkContract "RampRegistry"
  [TStruct OffRampKey; TStruct OnRampEntry; TStruct OffRampEntry; TStruct OnRampUpdate; TStruct OffRampUpdate]
  [owner; is_owner; get_onramp; init_owner; initialize; is_offramp; get_onramps; get_offramps; require_owner;
   set_new_owner; accept_ownership; type_and_version; get_pending_owner; transfer_ownership;
   apply_onramp_updates; apply_offramp_updates; cancel_ownership_transfer]
  []
  [OnRampSetEvent; OffRampAddedEvent; OnRampRemovedEvent; OffRampRemovedEvent].

(** ** The emitted code *)

Section client.
Context {UT : UnicodeTables} {XS : XdrSdk} (enumerate : list string → list string).
Definition types : string → option codec := package enumerate contract.

Definition OffRampKey_ToScVal : value → gres ScVal := toScVal (struct_codec types enumerate OffRampKey).
Definition OffRampKeyFromScVal : ScVal → gres value := fromScVal (struct_codec types enumerate OffRampKey).
Definition OnRampEntry_ToScVal : value → gres ScVal := toScVal (struct_codec types enumerate OnRampEntry).
Definition OnRampEntryFromScVal : ScVal → gres value := fromScVal (struct_codec types enumerate OnRampEntry).
Definition OffRampEntry_ToScVal : value → gres ScVal := toScVal (struct_codec types enumerate OffRampEntry).
Definition OffRampEntryFromScVal : ScVal → gres value := fromScVal (struct_codec types enumerate OffRampEntry).
Definition OnRampUpdate_ToScVal : value → gres ScVal := toScVal (struct_codec types enumerate OnRampUpdate).
Definition OnRampUpdateFromScVal : ScVal → gres value := fromScVal (struct_codec types enumerate OnRampUpdate).
Definition OffRampUpdate_ToScVal : value → gres ScVal := toScVal (struct_codec types enumerate OffRampUpdate).
Definition OffRampUpdateFromScVal : ScVal → gres value := fromScVal (struct_codec types enumerate OffRampUpdate).

(** The methods, on a client for the contract [contractID]. *)
Section methods.
Context {W : Type} {E : Type → Type} {IV : Invoker W E} (contractID : string).
Definition RampRegistryClient_Owner : list value → prog W E (gres (list value)) :=
  Client.method types contractID owner.
Definition RampRegistryClient_IsOwner : list value → prog W E (gres (list value)) :=
  Client.method types contractID is_owner.
Definition RampRegistryClient_GetOnramp : list value → prog W E (gres (list value)) :=
  Client.method types contractID get_onramp.
Definition RampRegistryClient_InitOwner : list value → prog W E (gres (list value)) :=
  Client.method types contractID init_owner.
Definition RampRegistryClient_Initialize : list value → prog W E (gres (list value)) :=
  Client.method types contractID initialize.
Definition RampRegistryClient_IsOfframp : list value → prog W E (gres (list value)) :=
  Client.method types contractID is_offramp.
Definition RampRegistryClient_GetOnramps : list value → prog W E (gres (list value)) :=
  Client.method types contractID get_onramps.
Definition RampRegistryClient_GetOfframps : list value → prog W E (gres (list value)) :=
  Client.method types contractID get_offramps.
Definition RampRegistryClient_RequireOwner : list value → prog W E (gres (list value)) :=
  Client.method types contractID require_owner.
Definition RampRegistryClient_SetNewOwner : list value → prog W E (gres (list value)) :=
  Client.method types contractID set_new_owner.
Definition RampRegistryClient_AcceptOwnership : list value → prog W E (gres (list value)) :=
  Client.method types contractID accept_ownership.
Definition RampRegistryClient_TypeAndVersion : list value → prog W E (gres (list value)) :=
  Client.method types contractID type_and_version.
Definition RampRegistryClient_GetPendingOwner : list value → prog W E (gres (list value)) :=
  Client.method types contractID get_pending_owner.
Definition RampRegistryClient_TransferOwnership : list value → prog W E (gres (list value)) :=
  Client.method types contractID transfer_ownership.
Definition RampRegistryClient_ApplyOnrampUpdates : list value → prog W E (gres (list value)) :=
  Client.method types contractID apply_onramp_updates.
Definition RampRegistryClient_ApplyOfframpUpdates : list value → prog W E (gres (list value)) :=
  Client.method types contractID apply_offramp_updates.
Definition RampRegistryClient_CancelOwnershipTransfer : list value → prog W E (gres (list value)) :=
  Client.method types contractID cancel_ownership_transfer.
End methods.

Definition ParseOnRampSetEvent := ParseEvent types OnRampSetEvent.
Definition WaitForOnRampSetEvent (contractID : string) := Client.WaitFor types contractID OnRampSetEvent.
Definition ParseOffRampAddedEvent := ParseEvent types OffRampAddedEvent.
Definition WaitForOffRampAddedEvent (contractID : string) := Client.WaitFor types contractID OffRampAddedEvent.
Definition ParseOnRampRemovedEvent := ParseEvent types OnRampRemovedEvent.
Definition WaitForOnRampRemovedEvent (contractID : string) := Client.WaitFor types contractID OnRampRemovedEvent.
Definition ParseOffRampRemovedEvent := ParseEvent types OffRampRemovedEvent.
Definition WaitForOffRampRemovedEvent (contractID : string) := Client.WaitFor types contractID OffRampRemovedEvent.
End client.
