(* ===== verification/ExampleCcipReceiverClient.v ===== *)
(** [bindings/contracts/ccip_receiver]: the generated types, errors, events and methods of the ExampleCcipReceiver
    contract. The data are what the generator parsed; each function is the template of
    [Codec] or [Client] that emits it, on its data. *)

From stdpp Require Import base list strings.
From S2P Require Import Prelude GoStrings Prog Xdr ScVal TypeConverters Ccv Codec Client.
Import Xdr.

Local Open Scope Z_scope.

(** ** Types *)

Definition CcvConfigUpdate : Struct := mkStruct "CcvConfigUpdate"
  [mkField "source_chain_selector" U64; mkField "required_ccvs" (RVec RAddress);
   mkField "optional_ccvs" (RVec RAddress); mkField "optional_threshold" U32].
Definition CcvChainConfig : Struct := mkStruct "CcvChainConfig"
  [mkField "required_ccvs" (RVec RAddress); mkField "optional_ccvs" (RVec RAddress);
   mkField "optional_threshold" U32].
Definition RemoteChainConfig : Struct := mkStruct "RemoteChainConfig"
  [mkField "extra_args" RBytes; mkField "allowed_finality_config" U32].
Definition CcvsAndFinalityConfig : Struct := mkStruct "CcvsAndFinalityConfig"
  [mkField "required_ccvs" (RVec RAddress); mkField "optional_ccvs" (RVec RAddress);
   mkField "optional_threshold" U32; mkField "allowed_finality_config" U32].
Definition TokenAmount : Struct := mkStruct "TokenAmount" [mkField "amount" I128; mkField "token" RAddress].
Definition GenericExtraArgsV3 : Struct := mkStruct "GenericExtraArgsV3"
  [mkField "block_confirmations" U32; mkField "ccv_args" (RVec RBytes); mkField "ccvs" (RVec RAddress);
   mkField "executor" RAddress; mkField "executor_args" RBytes; mkField "gas_limit" U32;
   mkField "token_args" RBytes; mkField "token_receiver" RBytes].
Definition AnyToStellarMessage : Struct := mkStruct "AnyToStellarMessage"
  [mkField "data" RBytes; mkField "dest_token_amounts" (RVec (RNamed "TokenAmount"));
   mkField "message_id" (RBytesN 32); mkField "sender" RBytes; mkField "source_chain_selector" U64].
Definition StellarToAnyMessage : Struct := mkStruct "StellarToAnyMessage"
  [mkField "data" RBytes; mkField "extra_args" RBytes; mkField "fee_token" RAddress;
   mkField "receiver" RBytes; mkField "token_amounts" (RVec (RNamed "TokenAmount"))].

(** ** Errors *)

Definition CCIPError : ErrorEnum := mkErrorEnum "CCIPError"
  [("NotInitialized", 1); ("AlreadyInitialized", 2); ("Unauthorized", 3); ("NotOwner", 4);
   ("NoPendingOwner", 5); ("CallerNotAuthorized", 6); ("CallerAlreadyAuthorized", 7); ("CallerNotFound", 8);
   ("RoleNotGranted", 9); ("FeatureNotEnabled", 10); ("RoleAlreadyGranted", 11); ("CannotRenounceRole", 12);
   ("InvalidVersionTag", 13); ("InvalidSignatureLength", 14); ("InvalidSignature", 15);
   ("InvalidSignatureCount", 16); ("InvalidSignatureThreshold", 17); ("InvalidSignaturePubkey", 18);
   ("SourceSignersNotConfigured", 19); ("InvalidVerifierResults", 20); ("ReentrantCall", 21);
   ("TokenNotSupported", 22); ("FeeTokenNotSupported", 23); ("NoGasPriceAvailable", 24);
   ("DestinationChainNotEnabled", 25); ("InvalidExtraArgsTag", 26); ("InvalidExtraArgsData", 27);
   ("MessageGasLimitTooHigh", 28); ("MessageTooLarge", 29); ("UnsupportedNumberOfTokens", 30);
   ("InvalidDestChainConfig", 31); ("MessageFeeTooHigh", 32); ("InvalidStaticConfig", 33);
   ("InvalidTokenReceiver", 34); ("SourceTokenDataTooLarge", 35); ("InvalidDestBytesOverhead", 36);
   ("DestinationChainNotSupported", 37); ("MustBeCalledByRouter", 38); ("RouterMustSetOriginalSender", 39);
   ("CannotSendZeroTokens", 40); ("CanOnlySendOneTokenPerMessage", 41); ("UnsupportedToken", 42);
   ("InvalidDestChainAddress", 43); ("FeeExceedsMaxAllowed", 44); ("InsufficientFeeTokenAmount", 45);
   ("TokenReceiverNotAllowed", 46); ("CursedByRMN", 47); ("RemoteChainNotSupported", 48);
   ("SenderNotAllowed", 49); ("InvalidTokenAmount", 50); ("InvalidReceiverAddress", 51);
   ("InvalidConfig", 52); ("InvalidVerifierResultsLength", 53); ("InboundImplementationNotFound", 54);
   ("OutboundImplementationNotFound", 55); ("InvalidAddress", 56); ("InvalidChainSelector", 57);
   ("InvalidVersion", 58); ("InvalidCCVVersion", 59); ("OffRampAlreadyExists", 60); ("OffRampMismatch", 61);
   ("BadRMNSignal", 62); ("UnsupportedDestinationChain", 63); ("AlreadyCursed", 64); ("ConfigNotSet", 65);
   ("DuplicateOnchainPublicKey", 66); ("InvalidSignerOrder", 67); ("NotEnoughSigners", 68);
   ("NotCursed", 69); ("OutOfOrderSignatures", 70); ("ThresholdNotMet", 71); ("UnexpectedSigner", 72);
   ("ZeroValueNotAllowed", 73); ("SourceChainNotEnabled", 100); ("InvalidSourceChainConfig", 101);
   ("InvalidOnRampAddress", 102); ("InvalidOffRampAddress", 103); ("InvalidMessageDestination", 104);
   ("MessageAlreadyExecuted", 105); ("InvalidExecutionState", 106); ("CCVLengthMismatch", 107);
   ("CCVQuorumNotMet", 108); ("ReceiverError", 109); ("GasLimitOverrideTooLow", 110);
   ("InvalidReceiverLength", 111); ("TokenHandlingError", 112); ("MessageDecodingError", 113);
   ("ReceiverDoesNotExist", 114); ("ReceiverNotWasmContract", 115); ("RequiredCCVMissing", 116);
   ("OnlyRegistryModuleOrOwner", 201); ("OnlyAdministrator", 202); ("OnlyPendingAdministrator", 203);
   ("TokenAlreadyRegistered", 204); ("InvalidTokenPoolToken", 205); ("PoolTokenMismatch", 301);
   ("ChainNotSupported", 302); ("CallerIsNotRamp", 303); ("InsufficientPoolLiquidity", 304);
   ("InvalidRemotePoolAddress", 305); ("InvalidRemoteChainConfig", 306); ("InvalidRemoteChainDecimals", 307);
   ("DecimalAmountOverflow", 308); ("InvalidPoolTokenDecimals", 309); ("BucketOverfilled", 310);
   ("TokenMaxCapacityExceeded", 311); ("TokenRateLimitReached", 312); ("InvalidRateLimitRate", 313);
   ("DisabledNonZeroRateLimit", 314); ("InvalidRequestedFinality", 315);
   ("RequestedFinalityCanOnlyHaveOneMode", 316); ("InvalidChainForClient", 317);
   ("RouterNotConfigured", 318); ("InvalidFeeCalculation", 801); ("InvalidFeeTokenConversion", 802);
   ("ZeroFeeAggregatorNotAllowed", 803)].

(** ** Events *)

Definition CcipCcvConfigSetEvent : Event := mkEvent "CcipCcvConfigSetEvent" ["example_CcvCfg"]
  [mkField "source_chain_selector" U64; mkField "required_len" U32; mkField "optional_len" U32;
   mkField "optional_threshold" U32].
Definition CcipMessageReceivedEvent : Event := mkEvent "CcipMessageReceivedEvent" ["example_CcipMessageReceived"]
  [mkField "message_id" (RBytesN 32); mkField "source_chain_selector" U64; mkField "data_len" U32;
   mkField "sender_len" U32; mkField "dest_token_transfers" U32].
Definition CcipRemoteChainConfiguredEvent : Event := mkEvent "CcipRemoteChainConfiguredEvent" ["example_RemChCfg"]
  [mkField "dest_chain_selector" U64; mkField "extra_args_len" U32; mkField "allowed_finality_config" U32].

(** ** Functions *)

Definition owner : Function := mkFunction "owner" [] (RetType (ROption RAddress)).
Definition is_owner : Function := mkFunction "is_owner" [mkField "addr" RAddress] (RetType RBool).
Definition get_router : Function := mkFunction "get_router" [] (RetType RAddress).
Definition init_owner : Function := mkFunction "init_owner" [mkField "owner" RAddress] RetVoid.
Definition initialize : Function := mkFunction "initialize"
  [mkField "owner" RAddress; mkField "router" RAddress] RetVoid.
Definition ccip_receive : Function := mkFunction "ccip_receive"
  [mkField "message" (RNamed "AnyToStellarMessage")] RetVoid.
Definition require_owner : Function := mkFunction "require_owner" [] (RetType RAddress).
Definition set_new_owner : Function := mkFunction "set_new_owner" [mkField "new_owner" RAddress] RetVoid.
Definition get_ccv_config : Function := mkFunction "get_ccv_config"
  [mkField "source_chain_selector" U64] (RetType (RNamed "CcvChainConfig")).
Definition last_message_id : Function := mkFunction "last_message_id" [] (RetType (RBytesN 32)).
Definition accept_ownership : Function := mkFunction "accept_ownership" [] RetVoid.
Definition type_and_version : Function := mkFunction "type_and_version" [] (RetType RString).
Definition get_pending_owner : Function := mkFunction "get_pending_owner" [] (RetType (ROption RAddress)).
Definition transfer_ownership : Function := mkFunction "transfer_ownership"
  [mkField "new_owner" RAddress] RetVoid.
Definition enable_remote_chain : Function := mkFunction "enable_remote_chain"
  [mkField "caller" RAddress; mkField "dest_chain_selector" U64; mkField "extra_args" RBytes;
   mkField "allowed_finality_config" U32] RetVoid.
Definition disable_remote_chain : Function := mkFunction "disable_remote_chain"
  [mkField "caller" RAddress; mkField "dest_chain_selector" U64] RetVoid.
Definition get_remote_chain_config : Function := mkFunction "get_remote_chain_config"
  [mkField "chain_selector" U64] (RetType (RNamed "RemoteChainConfig")).
Definition send_data_pay_fee_token : Function := mkFunction "send_data_pay_fee_token"
  [mkField "caller" RAddress; mkField "dest_chain_selector" U64; mkField "receiver" RBytes;
   mkField "data" RBytes; mkField "fee_token" RAddress;
   mkField "fee_token_amount" I128] (RetType (RBytesN 32)).
Definition apply_ccv_config_updates : Function := mkFunction "apply_ccv_config_updates"
  [mkField "caller" RAddress; mkField "updates" (RVec (RNamed "CcvConfigUpdate"))] RetVoid.
Definition cancel_ownership_transfer : Function := mkFunction "cancel_ownership_transfer" [] RetVoid.
Definition get_remote_chain_selectors : Function := mkFunction "get_remote_chain_selectors"
  [] (RetType (RVec U64)).
Definition get_remote_chain_extra_args : Function := mkFunction "get_remote_chain_extra_args"
  [mkField "dest_chain_selector" U64] (RetType RBytes).
Definition get_ccvs_and_finality_config : Function := mkFunction "get_ccvs_and_finality_config"
  [mkField "source_chain_selector" U64; mkField "unused" RBytes] (RetType (RNamed "CcvsAndFinalityConfig")).

(** The contract; a type comes after those that it mentions. *)
Definition contract : Contract := mkContract "ExampleCcipReceiver"
  [TStruct CcvConfigUpdate; TStruct CcvChainConfig; TStruct RemoteChainConfig; TStruct CcvsAndFinalityConfig;
   TStruct TokenAmount; TStruct GenericExtraArgsV3; TStruct AnyToStellarMessage; TStruct StellarToAnyMessage]
  [owner; is_owner; get_router; init_owner; initialize; ccip_receive; require_owner; set_new_owner;
   get_ccv_config; last_message_id; accept_ownership; type_and_version; get_pending_owner;
   transfer_ownership; enable_remote_chain; disable_remote_chain; get_remote_chain_config;
   send_data_pay_fee_token; apply_ccv_config_updates; cancel_ownership_transfer; get_remote_chain_selectors;
   get_remote_chain_extra_args; get_ccvs_and_finality_config]
  [CCIPError]
  [CcipCcvConfigSetEvent; CcipMessageReceivedEvent; CcipRemoteChainConfiguredEvent].

(** ** The emitted code *)

Section client.
Context {UT : UnicodeTables} {XS : XdrSdk} (enumerate : list string → list string).
Definition types : string → option codec := package enumerate contract.

Definition CcvConfigUpdate_ToScVal : value → gres ScVal := toScVal (struct_codec types enumerate CcvConfigUpdate).
Definition CcvConfigUpdateFromScVal : ScVal → gres value := fromScVal (struct_codec types enumerate CcvConfigUpdate).
Definition CcvChainConfig_ToScVal : value → gres ScVal := toScVal (struct_codec types enumerate CcvChainConfig).
Definition CcvChainConfigFromScVal : ScVal → gres value := fromScVal (struct_codec types enumerate CcvChainConfig).
Definition RemoteChainConfig_ToScVal : value → gres ScVal := toScVal (struct_codec types enumerate RemoteChainConfig).
Definition RemoteChainConfigFromScVal : ScVal → gres value := fromScVal (struct_codec types enumerate RemoteChainConfig).
Definition CcvsAndFinalityConfig_ToScVal : value → gres ScVal := toScVal (struct_codec types enumerate CcvsAndFinalityConfig).
Definition CcvsAndFinalityConfigFromScVal : ScVal → gres value := fromScVal (struct_codec types enumerate CcvsAndFinalityConfig).
Definition TokenAmount_ToScVal : value → gres ScVal := toScVal (struct_codec types enumerate TokenAmount).
Definition TokenAmountFromScVal : ScVal → gres value := fromScVal (struct_codec types enumerate TokenAmount).
Definition GenericExtraArgsV3_ToScVal : value → gres ScVal := toScVal (struct_codec types enumerate GenericExtraArgsV3).
Definition GenericExtraArgsV3FromScVal : ScVal → gres value := fromScVal (struct_codec types enumerate GenericExtraArgsV3).
Definition AnyToStellarMessage_ToScVal : value → gres ScVal := toScVal (struct_codec types enumerate AnyToStellarMessage).
Definition AnyToStellarMessageFromScVal : ScVal → gres value := fromScVal (struct_codec types enumerate AnyToStellarMessage).
Definition StellarToAnyMessage_ToScVal : value → gres ScVal := toScVal (struct_codec types enumerate StellarToAnyMessage).
Definition StellarToAnyMessageFromScVal : ScVal → gres value := fromScVal (struct_codec types enumerate StellarToAnyMessage).
Definition CCIPErrorMessage : Z → option string := error_message CCIPError.

(** The methods, on a client for the contract [contractID]. *)
Section methods.
Context {W : Type} {E : Type → Type} {IV : Invoker W E} (contractID : string).
Definition ExampleCcipReceiverClient_Owner : list value → prog W E (gres (list value)) :=
  Client.method types contractID owner.
Definition ExampleCcipReceiverClient_IsOwner : list value → prog W E (gres (list value)) :=
  Client.method types contractID is_owner.
Definition ExampleCcipReceiverClient_GetRouter : list value → prog W E (gres (list value)) :=
  Client.method types contractID get_router.
Definition ExampleCcipReceiverClient_InitOwner : list value → prog W E (gres (list value)) :=
  Client.method types contractID init_owner.
Definition ExampleCcipReceiverClient_Initialize : list value → prog W E (gres (list value)) :=
  Client.method types contractID initialize.
Definition ExampleCcipReceiverClient_CcipReceive : list value → prog W E (gres (list value)) :=
  Client.method types contractID ccip_receive.
Definition ExampleCcipReceiverClient_RequireOwner : list value → prog W E (gres (list value)) :=
  Client.method types contractID require_owner.
Definition ExampleCcipReceiverClient_SetNewOwner : list value → prog W E (gres (list value)) :=
  Client.method types contractID set_new_owner.
Definition ExampleCcipReceiverClient_GetCcvConfig : list value → prog W E (gres (list value)) :=
  Client.method types contractID get_ccv_config.
Definition ExampleCcipReceiverClient_LastMessageId : list value → prog W E (gres (list value)) :=
  Client.method types contractID last_message_id.
Definition ExampleCcipReceiverClient_AcceptOwnership : list value → prog W E (gres (list value)) :=
  Client.method types contractID accept_ownership.
Definition ExampleCcipReceiverClient_TypeAndVersion : list value → prog W E (gres (list value)) :=
  Client.method types contractID type_and_version.
Definition ExampleCcipReceiverClient_GetPendingOwner : list value → prog W E (gres (list value)) :=
  Client.method types contractID get_pending_owner.
Definition ExampleCcipReceiverClient_TransferOwnership : list value → prog W E (gres (list value)) :=
  Client.method types contractID transfer_ownership.
Definition ExampleCcipReceiverClient_EnableRemoteChain : list value → prog W E (gres (list value)) :=
  Client.method types contractID enable_remote_chain.
Definition ExampleCcipReceiverClient_DisableRemoteChain : list value → prog W E (gres (list value)) :=
  Client.method types contractID disable_remote_chain.
Definition ExampleCcipReceiverClient_GetRemoteChainConfig : list value → prog W E (gres (list value)) :=
  Client.method types contractID get_remote_chain_config.
Definition ExampleCcipReceiverClient_SendDataPayFeeToken : list value → prog W E (gres (list value)) :=
  Client.method types contractID send_data_pay_fee_token.
Definition ExampleCcipReceiverClient_ApplyCcvConfigUpdates : list value → prog W E (gres (list value)) :=
  Client.method types contractID apply_ccv_config_updates.
Definition ExampleCcipReceiverClient_CancelOwnershipTransfer : list value → prog W E (gres (list value)) :=
  Client.method types contractID cancel_ownership_transfer.
Definition ExampleCcipReceiverClient_GetRemoteChainSelectors : list value → prog W E (gres (list value)) :=
  Client.method types contractID get_remote_chain_selectors.
Definition ExampleCcipReceiverClient_GetRemoteChainExtraArgs : list value → prog W E (gres (list value)) :=
  Client.method types contractID get_remote_chain_extra_args.
Definition ExampleCcipReceiverClient_GetCcvsAndFinalityConfig : list value → prog W E (gres (list value)) :=
  Client.method types contractID get_ccvs_and_finality_config.
End methods.

Definition ParseCcipCcvConfigSetEvent := ParseEvent types CcipCcvConfigSetEvent.
Definition WaitForCcipCcvConfigSetEvent (contractID : string) := Client.WaitFor types contractID CcipCcvConfigSetEvent.
Definition ParseCcipMessageReceivedEvent := ParseEvent types CcipMessageReceivedEvent.
Definition WaitForCcipMessageReceivedEvent (contractID : string) := Client.WaitFor types contractID CcipMessageReceivedEvent.
Definition ParseCcipRemoteChainConfiguredEvent := ParseEvent types CcipRemoteChainConfiguredEvent.
Definition WaitForCcipRemoteChainConfiguredEvent (contractID : string) := Client.WaitFor types contractID CcipRemoteChainConfiguredEvent.
End client.
