(* ===== verification/BurnMintPoolClient.v ===== *)
(** [bindings/contracts/burn_mint_pool]: the generated types, errors, events and methods of the BurnMintPool
    contract. The data are what the generator parsed; each function is the template of
    [Codec] or [Client] that emits it, on its data. *)

From stdpp Require Import base list strings.
From S2P Require Import Prelude GoStrings Prog Xdr ScVal TypeConverters Ccv Codec Client.
Import Xdr.

Local Open Scope Z_scope.

(** ** Types *)

Definition AllowListEntry : Struct := mkStruct "AllowListEntry"
  [mkField "allowlist" (RVec RAddress); mkField "allowlist_enabled" RBool].
Definition AllowListUpdate : Struct := mkStruct "AllowListUpdate"
  [mkField "added_allowlisted_senders" (RVec RAddress); mkField "allowlist_enabled" RBool;
   mkField "dest_chain_selector" U64; mkField "removed_allowlisted_senders" (RVec RAddress)].
Definition TokenAmount : Struct := mkStruct "TokenAmount" [mkField "amount" I128; mkField "token" RAddress].
Definition GenericExtraArgsV3 : Struct := mkStruct "GenericExtraArgsV3"
  [mkField "block_confirmations" U32; mkField "ccv_args" (RVec RBytes); mkField "ccvs" (RVec RAddress);
   mkField "executor" RAddress; mkField "executor_args" RBytes; mkField "gas_limit" U32;
   mkField "token_args" RBytes; mkField "token_receiver" RBytes].
Definition AnyToStellarMessage : Struct := mkStruct "AnyToStellarMessage"
  [mkField "data" RBytes; mkField "dest_token_amounts" (RVec (RNamed "TokenAmount"));
   mkField "message_id" (RBytesN 32); mkField "sender" RBytes; mkField "source_chain_selector" U64].
Definition StellarToAnyMessage : Struct := mkStruct "StellarToAnyMessage"
  [mkField "data" RBytes; mkField "extra_args" RBytes; mkField "fee_token" RAddress;
   mkField "receiver" RBytes; mkField "token_amounts" (RVec (RNamed "TokenAmount"))].
Definition RateLimitConfig : Struct := mkStruct "RateLimitConfig"
  [mkField "capacity" U128; mkField "is_enabled" RBool; mkField "rate" U128].
Definition ChainUpdate : Struct := mkStruct "ChainUpdate"
  [mkField "inbound_rate_limiter_config" (RNamed "RateLimitConfig");
   mkField "outbound_rate_limiter_config" (RNamed "RateLimitConfig"); mkField "remote_chain_selector" U64;
   mkField "remote_pool_addresses" RBytes; mkField "remote_token_address" RBytes].
Definition TokenBucket : Struct := mkStruct "TokenBucket"
  [mkField "capacity" U128; mkField "is_enabled" RBool; mkField "last_updated" U64; mkField "rate" U128;
   mkField "tokens" U128].
Definition LockOrBurnIn : Struct := mkStruct "LockOrBurnIn"
  [mkField "amount" I128; mkField "local_token" RAddress; mkField "original_sender" RAddress;
   mkField "receiver" RBytes; mkField "remote_chain_selector" U64].
Definition LockOrBurnOut : Struct := mkStruct "LockOrBurnOut"
  [mkField "dest_pool_data" RBytes; mkField "dest_token_address" RBytes].
Definition PoolFeeConfig : Struct := mkStruct "PoolFeeConfig"
  [mkField "fee_usd_cents" U32; mkField "is_enabled" RBool].
Definition PoolFeeResult : Struct := mkStruct "PoolFeeResult" [mkField "fee_usd_cents" U32].
Definition ReleaseOrMintIn : Struct := mkStruct "ReleaseOrMintIn"
  [mkField "amount" I128; mkField "local_token" RAddress; mkField "original_sender" RBytes;
   mkField "receiver" RAddress; mkField "remote_chain_selector" U64; mkField "source_pool_address" RBytes;
   mkField "source_pool_data" RBytes].
Definition PoolRequiredCCVs : Struct := mkStruct "PoolRequiredCCVs"
  [mkField "ccvs" (RVec RAddress); mkField "include_defaults" RBool].
Definition RateLimiterState : Struct := mkStruct "RateLimiterState"
  [mkField "inbound" (RNamed "TokenBucket"); mkField "outbound" (RNamed "TokenBucket")].
Definition ReleaseOrMintOut : Struct := mkStruct "ReleaseOrMintOut" [mkField "destination_amount" I128].
Definition RemoteChainConfig : Struct := mkStruct "RemoteChainConfig"
  [mkField "remote_pool_address" RBytes; mkField "remote_token_address" RBytes].
Definition PoolDataKey : Enum := mkEnum "PoolDataKey" [
  mkVariant "Token" EnumVariantUnit 0 [];
  mkVariant "RemoteChainConfig" EnumVariantTuple 0 [mkField "" U64];
  mkVariant "SupportedChains" EnumVariantUnit 1 [];
  mkVariant "TokenDecimals" EnumVariantUnit 2 [];
  mkVariant "OutboundRateLimit" EnumVariantTuple 0 [mkField "" U64];
  mkVariant "InboundRateLimit" EnumVariantTuple 0 [mkField "" U64];
  mkVariant "RateLimitAdmin" EnumVariantUnit 3 [];
  mkVariant "FtfOutboundRateLimit" EnumVariantTuple 0 [mkField "" U64];
  mkVariant "FtfInboundRateLimit" EnumVariantTuple 0 [mkField "" U64];
  mkVariant "AllowedFinalityConfig" EnumVariantUnit 4 [];
  mkVariant "RampRegistry" EnumVariantUnit 5 [];
  mkVariant "AdvancedPoolHooks" EnumVariantUnit 6 [];
  mkVariant "PoolFeeConfig" EnumVariantTuple 0 [mkField "" U64];
  mkVariant "Router" EnumVariantUnit 7 []].
Definition MessageDirection : Enum := mkEnum "MessageDirection" [
  mkVariant "Outbound" EnumVariantUnit 0 [];
  mkVariant "Inbound" EnumVariantUnit 1 []].

(** ** Errors *)

Definition CCIPError : ErrorEnum := mkErrorEnum "CCIPError"
  [("NotInitialized", 1); ("AlreadyInitialized", 2); ("Unauthorized", 3); ("NotOwner", 4);
   ("NoPendingOwner", 5); ("CallerNotAuthorized", 6); ("CallerAlreadyAuthorized", 7); ("CallerNotFound", 8);
   ("RoleNotGranted", 9); ("FeatureNotEnabled", 10); ("RoleAlreadyGranted", 11); ("CannotRenounceRole", 12);
   ("InvalidVersionTag", 13); ("InvalidSignatureLength", 14); ("InvalidSignature", 15);
   ("InvalidSignatureCount", 16); ("InvalidSignatureThreshold", 17); ("InvalidSignaturePubkey", 18);
   ("SourceSignersNotConfigured", 19); ("InvalidVerifierResults", 20); ("ReentrantCall", 21);
   ("TokenNotSupported", 22); ("FeeTokenNotSupported", 23); ("NoGasPriceAvailable", 24);
   ("DestinationChainNotEnabled", 25); ("InvalidExtraArgsTag", 26); ("InvalidExtraArgsData", 27);
   ("MessageGasLimitTooHigh", 28); ("MessageTooLarge", 29); ("UnsupportedNumberOfTokens", 30);
   ("InvalidDestChainConfig", 31); ("MessageFeeTooHigh", 32); ("InvalidStaticConfig", 33);
   ("InvalidTokenReceiver", 34); ("SourceTokenDataTooLarge", 35); ("InvalidDestBytesOverhead", 36);
   ("DestinationChainNotSupported", 37); ("MustBeCalledByRouter", 38); ("RouterMustSetOriginalSender", 39);
   ("CannotSendZeroTokens", 40); ("CanOnlySendOneTokenPerMessage", 41); ("UnsupportedToken", 42);
   ("InvalidDestChainAddress", 43); ("FeeExceedsMaxAllowed", 44); ("InsufficientFeeTokenAmount", 45);
   ("TokenReceiverNotAllowed", 46); ("CursedByRMN", 47); ("RemoteChainNotSupported", 48);
   ("SenderNotAllowed", 49); ("InvalidTokenAmount", 50); ("InvalidReceiverAddress", 51);
   ("InvalidConfig", 52); ("InvalidVerifierResultsLength", 53); ("InboundImplementationNotFound", 54);
   ("OutboundImplementationNotFound", 55); ("InvalidAddress", 56); ("InvalidChainSelector", 57);
   ("InvalidVersion", 58); ("InvalidCCVVersion", 59); ("OffRampAlreadyExists", 60); ("OffRampMismatch", 61);
   ("BadRMNSignal", 62); ("UnsupportedDestinationChain", 63); ("AlreadyCursed", 64); ("ConfigNotSet", 65);
   ("DuplicateOnchainPublicKey", 66); ("InvalidSignerOrder", 67); ("NotEnoughSigners", 68);
   ("NotCursed", 69); ("OutOfOrderSignatures", 70); ("ThresholdNotMet", 71); ("UnexpectedSigner", 72);
   ("ZeroValueNotAllowed", 73); ("SourceChainNotEnabled", 100); ("InvalidSourceChainConfig", 101);
   ("InvalidOnRampAddress", 102); ("InvalidOffRampAddress", 103); ("InvalidMessageDestination", 104);
   ("MessageAlreadyExecuted", 105); ("InvalidExecutionState", 106); ("CCVLengthMismatch", 107);
   ("CCVQuorumNotMet", 108); ("ReceiverError", 109); ("GasLimitOverrideTooLow", 110);
   ("InvalidReceiverLength", 111); ("TokenHandlingError", 112); ("MessageDecodingError", 113);
   ("ReceiverDoesNotExist", 114); ("ReceiverNotWasmContract", 115); ("RequiredCCVMissing", 116);
   ("OnlyRegistryModuleOrOwner", 201); ("OnlyAdministrator", 202); ("OnlyPendingAdministrator", 203);
   ("TokenAlreadyRegistered", 204); ("InvalidTokenPoolToken", 205); ("PoolTokenMismatch", 301);
   ("ChainNotSupported", 302); ("CallerIsNotRamp", 303); ("InsufficientPoolLiquidity", 304);
   ("InvalidRemotePoolAddress", 305); ("InvalidRemoteChainConfig", 306); ("InvalidRemoteChainDecimals", 307);
   ("DecimalAmountOverflow", 308); ("InvalidPoolTokenDecimals", 309); ("BucketOverfilled", 310);
   ("TokenMaxCapacityExceeded", 311); ("TokenRateLimitReached", 312); ("InvalidRateLimitRate", 313);
   ("DisabledNonZeroRateLimit", 314); ("InvalidRequestedFinality", 315);
   ("RequestedFinalityCanOnlyHaveOneMode", 316); ("InvalidChainForClient", 317);
   ("RouterNotConfigured", 318); ("InvalidFeeCalculation", 801); ("InvalidFeeTokenConversion", 802);
   ("ZeroFeeAggregatorNotAllowed", 803)].

(** ** Events *)

Definition RoleGrantedEvent : Event := mkEvent "RoleGrantedEvent" ["auth_RoleGranted"]
  [mkField "role" RSymbol; mkField "account" RAddress; mkField "sender" RAddress].
Definition RoleRevokedEvent : Event := mkEvent "RoleRevokedEvent" ["auth_RoleRevoked"]
  [mkField "role" RSymbol; mkField "account" RAddress; mkField "sender" RAddress].
Definition AuthorizedCallerAddedEvent : Event := mkEvent "AuthorizedCallerAddedEvent" ["auth_CallerAdded"]
  [mkField "caller" RAddress].
Definition AuthorizedCallerRemovedEvent : Event := mkEvent "AuthorizedCallerRemovedEvent" ["auth_CallerRemoved"]
  [mkField "caller" RAddress].
Definition OwnershipTransferStartedEvent : Event := mkEvent "OwnershipTransferStartedEvent" ["auth_OwnerTransferStart"]
  [mkField "previous_owner" RAddress; mkField "new_owner" RAddress].
Definition BurnedEvent : Event := mkEvent "BurnedEvent" ["pool_Burned"]
  [mkField "sender" RAddress; mkField "amount" I128].
Definition LockedEvent : Event := mkEvent "LockedEvent" ["pool_Locked"]
  [mkField "sender" RAddress; mkField "amount" I128].
Definition MintedEvent : Event := mkEvent "MintedEvent" ["pool_Minted"]
  [mkField "sender" RAddress; mkField "recipient" RAddress; mkField "amount" I128].
Definition ReleasedEvent : Event := mkEvent "ReleasedEvent" ["pool_Released"]
  [mkField "sender" RAddress; mkField "recipient" RAddress; mkField "amount" I128].
Definition ChainRemovedEvent : Event := mkEvent "ChainRemovedEvent" ["pool_ChainRemoved"]
  [mkField "remote_chain_selector" U64].
Definition ChainConfiguredEvent : Event := mkEvent "ChainConfiguredEvent" ["pool_ChainConfigured"]
  [mkField "remote_chain_selector" U64; mkField "remote_pool_address" RBytes;
   mkField "remote_token_address" RBytes; mkField "outbound_rate_limiter_config" (RNamed "RateLimitConfig");
   mkField "inbound_rate_limiter_config" (RNamed "RateLimitConfig")].
Definition FinalityConfigSetEvent : Event := mkEvent "FinalityConfigSetEvent" ["pool_FinalityConfigSet"]
  [mkField "allowed_finality" U32].
Definition FtfInboundConsumedEvent : Event := mkEvent "FtfInboundConsumedEvent" ["pool_FtfInboundConsumed"]
  [mkField "remote_chain_selector" U64; mkField "amount" I128].
Definition FtfOutboundConsumedEvent : Event := mkEvent "FtfOutboundConsumedEvent" ["pool_FtfOutboundConsumed"]
  [mkField "remote_chain_selector" U64; mkField "amount" I128].
Definition RateLimitConfiguredEvent : Event := mkEvent "RateLimitConfiguredEvent" ["pool_RateLimitConfigured"]
  [mkField "remote_chain_selector" U64; mkField "fast_finality" RBool;
   mkField "outbound_config" (RNamed "RateLimitConfig");
   mkField "inbound_config" (RNamed "RateLimitConfig")].
Definition AdvancedPoolHooksUpdatedEvent : Event := mkEvent "AdvancedPoolHooksUpdatedEvent" ["pool_HooksUpdated"]
  [mkField "old_hooks" (ROption RAddress); mkField "new_hooks" (ROption RAddress)].
Definition InboundRateLimitConsumedEvent : Event := mkEvent "InboundRateLimitConsumedEvent" ["pool_InboundRateLimitConsumed"]
  [mkField "remote_chain_selector" U64; mkField "amount" I128].
Definition OutboundRateLimitConsumedEvent : Event := mkEvent "OutboundRateLimitConsumedEvent" ["pool_OutboundRateLimitConsumed"]
  [mkField "remote_chain_selector" U64; mkField "amount" I128].

(** ** Functions *)

Definition owner : Function := mkFunction "owner" [] (RetType (ROption RAddress)).
Definition get_fee : Function := mkFunction "get_fee"
  [mkField "remote_chain_selector" U64] (RetType (RNamed "PoolFeeResult")).
Definition is_owner : Function := mkFunction "is_owner" [mkField "addr" RAddress] (RetType RBool).
Definition get_token : Function := mkFunction "get_token" [] (RetType RAddress).
Definition get_router : Function := mkFunction "get_router" [] (RetType (ROption RAddress)).
Definition init_owner : Function := mkFunction "init_owner" [mkField "owner" RAddress] RetVoid.
Definition initialize : Function := mkFunction "initialize"
  [mkField "owner" RAddress; mkField "token" RAddress; mkField "token_decimals" U32;
   mkField "router" RAddress; mkField "ramp_registry" RAddress] RetVoid.
Definition set_router : Function := mkFunction "set_router" [mkField "router" RAddress] RetVoid.
Definition lock_or_burn : Function := mkFunction "lock_or_burn"
  [mkField "caller" RAddress; mkField "input" (RNamed "LockOrBurnIn");
   mkField "requested_finality" U32] (RetType (RNamed "LockOrBurnOut")).
Definition require_owner : Function := mkFunction "require_owner" [] (RetType RAddress).
Definition set_new_owner : Function := mkFunction "set_new_owner" [mkField "new_owner" RAddress] RetVoid.
Definition get_remote_pool : Function := mkFunction "get_remote_pool"
  [mkField "remote_chain_selector" U64] (RetType RBytes).
Definition release_or_mint : Function := mkFunction "release_or_mint"
  [mkField "caller" RAddress; mkField "input" (RNamed "ReleaseOrMintIn");
   mkField "requested_finality" U32] (RetType (RNamed "ReleaseOrMintOut")).
Definition accept_ownership : Function := mkFunction "accept_ownership" [] RetVoid.
Definition get_remote_token : Function := mkFunction "get_remote_token"
  [mkField "remote_chain_selector" U64] (RetType RBytes).
Definition type_and_version : Function := mkFunction "type_and_version" [] (RetType RString).
Definition get_pending_owner : Function := mkFunction "get_pending_owner" [] (RetType (ROption RAddress)).
Definition get_ramp_registry : Function := mkFunction "get_ramp_registry" [] (RetType (ROption RAddress)).
Definition get_required_ccvs : Function := mkFunction "get_required_ccvs"
  [mkField "local_token" RAddress; mkField "remote_chain_selector" U64; mkField "amount" I128;
   mkField "requested_finality" U32; mkField "extra_data" RBytes;
   mkField "direction" (RNamed "MessageDirection")] (RetType (RNamed "PoolRequiredCCVs")).
Definition set_ramp_registry : Function := mkFunction "set_ramp_registry"
  [mkField "ramp_registry" RAddress] RetVoid.
Definition get_token_decimals : Function := mkFunction "get_token_decimals" [] (RetType U32).
Definition is_supported_chain : Function := mkFunction "is_supported_chain"
  [mkField "remote_chain_selector" U64] (RetType RBool).
Definition is_supported_token : Function := mkFunction "is_supported_token"
  [mkField "token" RAddress] (RetType RBool).
Definition transfer_ownership : Function := mkFunction "transfer_ownership"
  [mkField "new_owner" RAddress] RetVoid.
Definition apply_chain_updates : Function := mkFunction "apply_chain_updates"
  [mkField "adds" (RVec (RNamed "ChainUpdate")); mkField "removes" (RVec U64)] RetVoid.
Definition set_pool_fee_config : Function := mkFunction "set_pool_fee_config"
  [mkField "remote_chain_selector" U64; mkField "config" (RNamed "PoolFeeConfig")] RetVoid.
Definition get_rate_limit_admin : Function := mkFunction "get_rate_limit_admin"
  [] (RetType (ROption RAddress)).
Definition set_rate_limit_admin : Function := mkFunction "set_rate_limit_admin"
  [mkField "admin" RAddress] RetVoid.
Definition set_rate_limit_config : Function := mkFunction "set_rate_limit_config"
  [mkField "remote_chain_selector" U64; mkField "outbound_config" (RNamed "RateLimitConfig");
   mkField "inbound_config" (RNamed "RateLimitConfig"); mkField "fast_finality" RBool] RetVoid.
Definition get_advanced_pool_hooks : Function := mkFunction "get_advanced_pool_hooks"
  [] (RetType (ROption RAddress)).
Definition set_advanced_pool_hooks : Function := mkFunction "set_advanced_pool_hooks"
  [mkField "hooks" RAddress] RetVoid.
Definition cancel_ownership_transfer : Function := mkFunction "cancel_ownership_transfer" [] RetVoid.
Definition remove_advanced_pool_hooks : Function := mkFunction "remove_advanced_pool_hooks" [] RetVoid.
Definition get_allowed_finality_config : Function := mkFunction "get_allowed_finality_config"
  [] (RetType U32).
Definition set_allowed_finality_config : Function := mkFunction "set_allowed_finality_config"
  [mkField "allowed_finality" U32] RetVoid.
Definition get_current_rate_limiter_state : Function := mkFunction "get_current_rate_limiter_state"
  [mkField "remote_chain_selector" U64; mkField "fast_finality" RBool] (RetType (RNamed "RateLimiterState")).

(** The contract; a type comes after those that it mentions. *)
Definition contract : Contract := mkContract "BurnMintPool"
  [TStruct AllowListEntry; TStruct AllowListUpdate; TStruct TokenAmount; TStruct GenericExtraArgsV3;
   TStruct AnyToStellarMessage; TStruct StellarToAnyMessage; TStruct RateLimitConfig; TStruct ChainUpdate;
   TStruct TokenBucket; TStruct LockOrBurnIn; TStruct LockOrBurnOut; TStruct PoolFeeConfig;
   TStruct PoolFeeResult; TStruct ReleaseOrMintIn; TStruct PoolRequiredCCVs; TStruct RateLimiterState;
   TStruct ReleaseOrMintOut; TStruct RemoteChainConfig; TEnum PoolDataKey; TEnum MessageDirection]
  [owner; get_fee; is_owner; get_token; get_router; init_owner; initialize; set_router; lock_or_burn;
   require_owner; set_new_owner; get_remote_pool; release_or_mint; accept_ownership; get_remote_token;
   type_and_version; get_pending_owner; get_ramp_registry; get_required_ccvs; set_ramp_registry;
   get_token_decimals; is_supported_chain; is_supported_token; transfer_ownership; apply_chain_updates;
   set_pool_fee_config; get_rate_limit_admin; set_rate_limit_admin; set_rate_limit_config;
   get_advanced_pool_hooks; set_advanced_pool_hooks; cancel_ownership_transfer; remove_advanced_pool_hooks;
   get_allowed_finality_config; set_allowed_finality_config; get_current_rate_limiter_state]
  [CCIPError]
  [RoleGrantedEvent; RoleRevokedEvent; AuthorizedCallerAddedEvent; AuthorizedCallerRemovedEvent;
   OwnershipTransferStartedEvent; BurnedEvent; LockedEvent; MintedEvent; ReleasedEvent; ChainRemovedEvent;
   ChainConfiguredEvent; FinalityConfigSetEvent; FtfInboundConsumedEvent; FtfOutboundConsumedEvent;
   RateLimitConfiguredEvent; AdvancedPoolHooksUpdatedEvent; InboundRateLimitConsumedEvent;
   OutboundRateLimitConsumedEvent].

(** ** The emitted code *)

Section client.
Context {UT : UnicodeTables} {XS : XdrSdk} (enumerate : list string → list string).
Definition types : string → option codec := package enumerate contract.

Definition AllowListEntry_ToScVal : value → gres ScVal := toScVal (struct_codec types enumerate AllowListEntry).
Definition AllowListEntryFromScVal : ScVal → gres value := fromScVal (struct_codec types enumerate AllowListEntry).
Definition AllowListUpdate_ToScVal : value → gres ScVal := toScVal (struct_codec types enumerate AllowListUpdate).
Definition AllowListUpdateFromScVal : ScVal → gres value := fromScVal (struct_codec types enumerate AllowListUpdate).
Definition TokenAmount_ToScVal : value → gres ScVal := toScVal (struct_codec types enumerate TokenAmount).
Definition TokenAmountFromScVal : ScVal → gres value := fromScVal (struct_codec types enumerate TokenAmount).
Definition GenericExtraArgsV3_ToScVal : value → gres ScVal := toScVal (struct_codec types enumerate GenericExtraArgsV3).
Definition GenericExtraArgsV3FromScVal : ScVal → gres value := fromScVal (struct_codec types enumerate GenericExtraArgsV3).
Definition AnyToStellarMessage_ToScVal : value → gres ScVal := toScVal (struct_codec types enumerate AnyToStellarMessage).
Definition AnyToStellarMessageFromScVal : ScVal → gres value := fromScVal (struct_codec types enumerate AnyToStellarMessage).
Definition StellarToAnyMessage_ToScVal : value → gres ScVal := toScVal (struct_codec types enumerate StellarToAnyMessage).
Definition StellarToAnyMessageFromScVal : ScVal → gres value := fromScVal (struct_codec types enumerate StellarToAnyMessage).
Definition RateLimitConfig_ToScVal : value → gres ScVal := toScVal (struct_codec types enumerate RateLimitConfig).
Definition RateLimitConfigFromScVal : ScVal → gres value := fromScVal (struct_codec types enumerate RateLimitConfig).
Definition ChainUpdate_ToScVal : value → gres ScVal := toScVal (struct_codec types enumerate ChainUpdate).
Definition ChainUpdateFromScVal : ScVal → gres value := fromScVal (struct_codec types enumerate ChainUpdate).
Definition TokenBucket_ToScVal : value → gres ScVal := toScVal (struct_codec types enumerate TokenBucket).
Definition TokenBucketFromScVal : ScVal → gres value := fromScVal (struct_codec types enumerate TokenBucket).
Definition LockOrBurnIn_ToScVal : value → gres ScVal := toScVal (struct_codec types enumerate LockOrBurnIn).
Definition LockOrBurnInFromScVal : ScVal → gres value := fromScVal (struct_codec types enumerate LockOrBurnIn).
Definition LockOrBurnOut_ToScVal : value → gres ScVal := toScVal (struct_codec types enumerate LockOrBurnOut).
Definition LockOrBurnOutFromScVal : ScVal → gres value := fromScVal (struct_codec types enumerate LockOrBurnOut).
Definition PoolFeeConfig_ToScVal : value → gres ScVal := toScVal (struct_codec types enumerate PoolFeeConfig).
Definition PoolFeeConfigFromScVal : ScVal → gres value := fromScVal (struct_codec types enumerate PoolFeeConfig).
Definition PoolFeeResult_ToScVal : value → gres ScVal := toScVal (struct_codec types enumerate PoolFeeResult).
Definition PoolFeeResultFromScVal : ScVal → gres value := fromScVal (struct_codec types enumerate PoolFeeResult).
Definition ReleaseOrMintIn_ToScVal : value → gres ScVal := toScVal (struct_codec types enumerate ReleaseOrMintIn).
Definition ReleaseOrMintInFromScVal : ScVal → gres value := fromScVal (struct_codec types enumerate ReleaseOrMintIn).
Definition PoolRequiredCCVs_ToScVal : value → gres ScVal := toScVal (struct_codec types enumerate PoolRequiredCCVs).
Definition PoolRequiredCCVsFromScVal : ScVal → gres value := fromScVal (struct_codec types enumerate PoolRequiredCCVs).
Definition RateLimiterState_ToScVal : value → gres ScVal := toScVal (struct_codec types enumerate RateLimiterState).
Definition RateLimiterStateFromScVal : ScVal → gres value := fromScVal (struct_codec types enumerate RateLimiterState).
Definition ReleaseOrMintOut_ToScVal : value → gres ScVal := toScVal (struct_codec types enumerate ReleaseOrMintOut).
Definition ReleaseOrMintOutFromScVal : ScVal → gres value := fromScVal (struct_codec types enumerate ReleaseOrMintOut).
Definition RemoteChainConfig_ToScVal : value → gres ScVal := toScVal (struct_codec types enumerate RemoteChainConfig).
Definition RemoteChainConfigFromScVal : ScVal → gres value := fromScVal (struct_codec types enumerate RemoteChainConfig).
Definition PoolDataKey_ToScVal : value → gres ScVal := toScVal (enum_codec types PoolDataKey).
Definition PoolDataKeyFromScVal : ScVal → gres value := fromScVal (enum_codec types PoolDataKey).
Definition MessageDirection_ToScVal : value → gres ScVal := toScVal (enum_codec types MessageDirection).
Definition MessageDirectionFromScVal : ScVal → gres value := fromScVal (enum_codec types MessageDirection).
Definition CCIPErrorMessage : Z → option string := error_message CCIPError.

(** The methods, on a client for the contract [contractID]. *)
Section methods.
Context {W : Type} {E : Type → Type} {IV : Invoker W E} (contractID : string).
Definition BurnMintPoolClient_Owner : list value → prog W E (gres (list value)) :=
  Client.method types contractID owner.
Definition BurnMintPoolClient_GetFee : list value → prog W E (gres (list value)) :=
  Client.method types contractID get_fee.
Definition BurnMintPoolClient_IsOwner : list value → prog W E (gres (list value)) :=
  Client.method types contractID is_owner.
Definition BurnMintPoolClient_GetToken : list value → prog W E (gres (list value)) :=
  Client.method types contractID get_token.
Definition BurnMintPoolClient_GetRouter : list value → prog W E (gres (list value)) :=
  Client.method types contractID get_router.
Definition BurnMintPoolClient_InitOwner : list value → prog W E (gres (list value)) :=
  Client.method types contractID init_owner.
Definition BurnMintPoolClient_Initialize : list value → prog W E (gres (list value)) :=
  Client.method types contractID initialize.
Definition BurnMintPoolClient_SetRouter : list value → prog W E (gres (list value)) :=
  Client.method types contractID set_router.
Definition BurnMintPoolClient_LockOrBurn : list value → prog W E (gres (list value)) :=
  Client.method types contractID lock_or_burn.
Definition BurnMintPoolClient_RequireOwner : list value → prog W E (gres (list value)) :=
  Client.method types contractID require_owner.
Definition BurnMintPoolClient_SetNewOwner : list value → prog W E (gres (list value)) :=
  Client.method types contractID set_new_owner.
Definition BurnMintPoolClient_GetRemotePool : list value → prog W E (gres (list value)) :=
  Client.method types contractID get_remote_pool.
Definition BurnMintPoolClient_ReleaseOrMint : list value → prog W E (gres (list value)) :=
  Client.method types contractID release_or_mint.
Definition BurnMintPoolClient_AcceptOwnership : list value → prog W E (gres (list value)) :=
  Client.method types contractID accept_ownership.
Definition BurnMintPoolClient_GetRemoteToken : list value → prog W E (gres (list value)) :=
  Client.method types contractID get_remote_token.
Definition BurnMintPoolClient_TypeAndVersion : list value → prog W E (gres (list value)) :=
  Client.method types contractID type_and_version.
Definition BurnMintPoolClient_GetPendingOwner : list value → prog W E (gres (list value)) :=
  Client.method types contractID get_pending_owner.
Definition BurnMintPoolClient_GetRampRegistry : list value → prog W E (gres (list value)) :=
  Client.method types contractID get_ramp_registry.
Definition BurnMintPoolClient_GetRequiredCcvs : list value → prog W E (gres (list value)) :=
  Client.method types contractID get_required_ccvs.
Definition BurnMintPoolClient_SetRampRegistry : list value → prog W E (gres (list value)) :=
  Client.method types contractID set_ramp_registry.
Definition BurnMintPoolClient_GetTokenDecimals : list value → prog W E (gres (list value)) :=
  Client.method types contractID get_token_decimals.
Definition BurnMintPoolClient_IsSupportedChain : list value → prog W E (gres (list value)) :=
  Client.method types contractID is_supported_chain.
Definition BurnMintPoolClient_IsSupportedToken : list value → prog W E (gres (list value)) :=
  Client.method types contractID is_supported_token.
Definition BurnMintPoolClient_TransferOwnership : list value → prog W E (gres (list value)) :=
  Client.method types contractID transfer_ownership.
Definition BurnMintPoolClient_ApplyChainUpdates : list value → prog W E (gres (list value)) :=
  Client.method types contractID apply_chain_updates.
Definition BurnMintPoolClient_SetPoolFeeConfig : list value → prog W E (gres (list value)) :=
  Client.method types contractID set_pool_fee_config.
Definition BurnMintPoolClient_GetRateLimitAdmin : list value → prog W E (gres (list value)) :=
  Client.method types contractID get_rate_limit_admin.
Definition BurnMintPoolClient_SetRateLimitAdmin : list value → prog W E (gres (list value)) :=
  Client.method types contractID set_rate_limit_admin.
Definition BurnMintPoolClient_SetRateLimitConfig : list value → prog W E (gres (list value)) :=
  Client.method types contractID set_rate_limit_config.
Definition BurnMintPoolClient_GetAdvancedPoolHooks : list value → prog W E (gres (list value)) :=
  Client.method types contractID get_advanced_pool_hooks.
Definition BurnMintPoolClient_SetAdvancedPoolHooks : list value → prog W E (gres (list value)) :=
  Client.method types contractID set_advanced_pool_hooks.
Definition BurnMintPoolClient_CancelOwnershipTransfer : list value → prog W E (gres (list value)) :=
  Client.method types contractID cancel_ownership_transfer.
Definition BurnMintPoolClient_RemoveAdvancedPoolHooks : list value → prog W E (gres (list value)) :=
  Client.method types contractID remove_advanced_pool_hooks.
Definition BurnMintPoolClient_GetAllowedFinalityConfig : list value → prog W E (gres (list value)) :=
  Client.method types contractID get_allowed_finality_config.
Definition BurnMintPoolClient_SetAllowedFinalityConfig : list value → prog W E (gres (list value)) :=
  Client.method types contractID set_allowed_finality_config.
Definition BurnMintPoolClient_GetCurrentRateLimiterState : list value → prog W E (gres (list value)) :=
  Client.method types contractID get_current_rate_limiter_state.
End methods.

Definition ParseRoleGrantedEvent := ParseEvent types RoleGrantedEvent.
Definition WaitForRoleGrantedEvent (contractID : string) := Client.WaitFor types contractID RoleGrantedEvent.
Definition ParseRoleRevokedEvent := ParseEvent types RoleRevokedEvent.
Definition WaitForRoleRevokedEvent (contractID : string) := Client.WaitFor types contractID RoleRevokedEvent.
Definition ParseAuthorizedCallerAddedEvent := ParseEvent types AuthorizedCallerAddedEvent.
Definition WaitForAuthorizedCallerAddedEvent (contractID : string) := Client.WaitFor types contractID AuthorizedCallerAddedEvent.
Definition ParseAuthorizedCallerRemovedEvent := ParseEvent types AuthorizedCallerRemovedEvent.
Definition WaitForAuthorizedCallerRemovedEvent (contractID : string) := Client.WaitFor types contractID AuthorizedCallerRemovedEvent.
Definition ParseOwnershipTransferStartedEvent := ParseEvent types OwnershipTransferStartedEvent.
Definition WaitForOwnershipTransferStartedEvent (contractID : string) := Client.WaitFor types contractID OwnershipTransferStartedEvent.
Definition ParseBurnedEvent := ParseEvent types BurnedEvent.
Definition WaitForBurnedEvent (contractID : string) := Client.WaitFor types contractID BurnedEvent.
Definition ParseLockedEvent := ParseEvent types LockedEvent.
Definition WaitForLockedEvent (contractID : string) := Client.WaitFor types contractID LockedEvent.
Definition ParseMintedEvent := ParseEvent types MintedEvent.
Definition WaitForMintedEvent (contractID : string) := Client.WaitFor types contractID MintedEvent.
Definition ParseReleasedEvent := ParseEvent types ReleasedEvent.
Definition WaitForReleasedEvent (contractID : string) := Client.WaitFor types contractID ReleasedEvent.
Definition ParseChainRemovedEvent := ParseEvent types ChainRemovedEvent.
Definition WaitForChainRemovedEvent (contractID : string) := Client.WaitFor types contractID ChainRemovedEvent.
Definition ParseChainConfiguredEvent := ParseEvent types ChainConfiguredEvent.
Definition WaitForChainConfiguredEvent (contractID : string) := Client.WaitFor types contractID ChainConfiguredEvent.
Definition ParseFinalityConfigSetEvent := ParseEvent types FinalityConfigSetEvent.
Definition WaitForFinalityConfigSetEvent (contractID : string) := Client.WaitFor types contractID FinalityConfigSetEvent.
Definition ParseFtfInboundConsumedEvent := ParseEvent types FtfInboundConsumedEvent.
Definition WaitForFtfInboundConsumedEvent (contractID : string) := Client.WaitFor types contractID FtfInboundConsumedEvent.
Definition ParseFtfOutboundConsumedEvent := ParseEvent types FtfOutboundConsumedEvent.
Definition WaitForFtfOutboundConsumedEvent (contractID : string) := Client.WaitFor types contractID FtfOutboundConsumedEvent.
Definition ParseRateLimitConfiguredEvent := ParseEvent types RateLimitConfiguredEvent.
Definition WaitForRateLimitConfiguredEvent (contractID : string) := Client.WaitFor types contractID RateLimitConfiguredEvent.
Definition ParseAdvancedPoolHooksUpdatedEvent := ParseEvent types AdvancedPoolHooksUpdatedEvent.
Definition WaitForAdvancedPoolHooksUpdatedEvent (contractID : string) := Client.WaitFor types contractID AdvancedPoolHooksUpdatedEvent.
Definition ParseInboundRateLimitConsumedEvent := ParseEvent types InboundRateLimitConsumedEvent.
Definition WaitForInboundRateLimitConsumedEvent (contractID : string) := Client.WaitFor types contractID InboundRateLimitConsumedEvent.
Definition ParseOutboundRateLimitConsumedEvent := ParseEvent types OutboundRateLimitConsumedEvent.
Definition WaitForOutboundRateLimitConsumedEvent (contractID : string) := Client.WaitFor types contractID OutboundRateLimitConsumedEvent.
End client.
