(* ===== verification/TokenPoolClient.v ===== *)
(** [bindings/contracts/token_pool]: the generated types, errors, events and methods of the TokenPool
    contract. The data are what the generator parsed; each function is the template of
    [Codec] or [Client] that emits it, on its data. *)

From stdpp Require Import base list strings.
From S2P Require Import Prelude GoStrings Prog Xdr ScVal TypeConverters Ccv Codec Client.
Import Xdr.

Local Open Scope Z_scope.

(** ** Types *)

Definition PoolRequiredCCVs : Struct := mkStruct "PoolRequiredCCVs"
  [mkField "ccvs" (RVec RAddress); mkField "include_defaults" RBool].
Definition PoolFeeResult : Struct := mkStruct "PoolFeeResult" [mkField "fee_usd_cents" U32].
Definition LockOrBurnIn : Struct := mkStruct "LockOrBurnIn"
  [mkField "receiver" RBytes; mkField "remote_chain_selector" U64; mkField "original_sender" RAddress;
   mkField "amount" I128; mkField "local_token" RAddress].
Definition LockOrBurnOut : Struct := mkStruct "LockOrBurnOut"
  [mkField "dest_token_address" RBytes; mkField "dest_pool_data" RBytes].
Definition ReleaseOrMintIn : Struct := mkStruct "ReleaseOrMintIn"
  [mkField "original_sender" RBytes; mkField "remote_chain_selector" U64; mkField "receiver" RAddress;
   mkField "amount" I128; mkField "local_token" RAddress; mkField "source_pool_address" RBytes;
   mkField "source_pool_data" RBytes].
Definition ReleaseOrMintOut : Struct := mkStruct "ReleaseOrMintOut" [mkField "destination_amount" I128].
Definition RateLimitConfig : Struct := mkStruct "RateLimitConfig"
  [mkField "is_enabled" RBool; mkField "capacity" U128; mkField "rate" U128].
Definition TokenBucket : Struct := mkStruct "TokenBucket"
  [mkField "tokens" U128; mkField "last_updated" U64; mkField "is_enabled" RBool; mkField "capacity" U128;
   mkField "rate" U128].
Definition RateLimiterState : Struct := mkStruct "RateLimiterState"
  [mkField "outbound" (RNamed "TokenBucket"); mkField "inbound" (RNamed "TokenBucket")].
Definition ChainUpdate : Struct := mkStruct "ChainUpdate"
  [mkField "remote_chain_selector" U64; mkField "remote_pool_addresses" RBytes;
   mkField "remote_token_address" RBytes; mkField "outbound_rate_limiter_config" (RNamed "RateLimitConfig");
   mkField "inbound_rate_limiter_config" (RNamed "RateLimitConfig")].
Definition MessageDirection : Enum := mkEnum "MessageDirection" [
  mkVariant "Outbound" EnumVariantUnit 0 [];
  mkVariant "Inbound" EnumVariantUnit 1 []].

(** ** Errors *)

Definition CCIPError : ErrorEnum := mkErrorEnum "CCIPError"
  [("NotInitialized", 1); ("AlreadyInitialized", 2); ("Unauthorized", 3); ("NotOwner", 4);
   ("NoPendingOwner", 5); ("CallerNotAuthorized", 6); ("CallerAlreadyAuthorized", 7); ("CallerNotFound", 8);
   ("RoleNotGranted", 9); ("FeatureNotEnabled", 10); ("RoleAlreadyGranted", 11); ("CannotRenounceRole", 12);
   ("InvalidVersionTag", 13); ("InvalidSignatureLength", 14); ("InvalidSignature", 15);
   ("InvalidSignatureCount", 16); ("InvalidSignatureThreshold", 17); ("InvalidSignaturePubkey", 18);
   ("SourceSignersNotConfigured", 19); ("InvalidVerifierResults", 20); ("ReentrantCall", 21);
   ("TokenNotSupported", 22); ("FeeTokenNotSupported", 23); ("NoGasPriceAvailable", 24);
   ("DestinationChainNotEnabled", 25); ("InvalidExtraArgsTag", 26); ("InvalidExtraArgsData", 27);
   ("MessageGasLimitTooHigh", 28); ("MessageTooLarge", 29); ("UnsupportedNumberOfTokens", 30);
   ("InvalidDestChainConfig", 31); ("MessageFeeTooHigh", 32); ("InvalidStaticConfig", 33);
   ("InvalidTokenReceiver", 34); ("SourceTokenDataTooLarge", 35); ("InvalidDestBytesOverhead", 36);
   ("DestinationChainNotSupported", 37); ("MustBeCalledByRouter", 38); ("RouterMustSetOriginalSender", 39);
   ("CannotSendZeroTokens", 40); ("CanOnlySendOneTokenPerMessage", 41); ("UnsupportedToken", 42);
   ("InvalidDestChainAddress", 43); ("FeeExceedsMaxAllowed", 44); ("InsufficientFeeTokenAmount", 45);
   ("TokenReceiverNotAllowed", 46); ("CursedByRMN", 47); ("RemoteChainNotSupported", 48);
   ("SenderNotAllowed", 49); ("InvalidTokenAmount", 50); ("InvalidReceiverAddress", 51);
   ("InvalidConfig", 52); ("InvalidVerifierResultsLength", 53); ("InboundImplementationNotFound", 54);
   ("OutboundImplementationNotFound", 55); ("InvalidAddress", 56); ("InvalidChainSelector", 57);
   ("InvalidVersion", 58); ("InvalidCCVVersion", 59); ("OffRampAlreadyExists", 60); ("OffRampMismatch", 61);
   ("BadRMNSignal", 62); ("UnsupportedDestinationChain", 63); ("AlreadyCursed", 64); ("ConfigNotSet", 65);
   ("DuplicateOnchainPublicKey", 66); ("InvalidSignerOrder", 67); ("NotEnoughSigners", 68);
   ("NotCursed", 69); ("OutOfOrderSignatures", 70); ("ThresholdNotMet", 71); ("UnexpectedSigner", 72);
   ("ZeroValueNotAllowed", 73); ("SourceChainNotEnabled", 100); ("InvalidSourceChainConfig", 101);
   ("InvalidOnRampAddress", 102); ("InvalidOffRampAddress", 103); ("InvalidMessageDestination", 104);
   ("MessageAlreadyExecuted", 105); ("InvalidExecutionState", 106); ("CCVLengthMismatch", 107);
   ("CCVQuorumNotMet", 108); ("ReceiverError", 109); ("GasLimitOverrideTooLow", 110);
   ("InvalidReceiverLength", 111); ("TokenHandlingError", 112); ("MessageDecodingError", 113);
   ("ReceiverDoesNotExist", 114); ("ReceiverNotWasmContract", 115); ("OnlyRegistryModuleOrOwner", 201);
   ("OnlyAdministrator", 202); ("OnlyPendingAdministrator", 203); ("TokenAlreadyRegistered", 204);
   ("InvalidTokenPoolToken", 205); ("PoolTokenMismatch", 301); ("ChainNotSupported", 302);
   ("CallerIsNotRamp", 303); ("InsufficientPoolLiquidity", 304); ("InvalidRemotePoolAddress", 305);
   ("InvalidRemoteChainConfig", 306); ("InvalidRemoteChainDecimals", 307); ("DecimalAmountOverflow", 308);
   ("InvalidPoolTokenDecimals", 309); ("BucketOverfilled", 310); ("TokenMaxCapacityExceeded", 311);
   ("TokenRateLimitReached", 312); ("InvalidRateLimitRate", 313); ("DisabledNonZeroRateLimit", 314);
   ("InvalidRequestedFinality", 315); ("RequestedFinalityCanOnlyHaveOneMode", 316);
   ("RouterNotConfigured", 318); ("InvalidFeeCalculation", 801); ("InvalidFeeTokenConversion", 802)].

(** ** Functions *)

Definition initialize : Function := mkFunction "initialize"
  [mkField "owner" RAddress; mkField "token" RAddress; mkField "token_decimals" U32;
   mkField "router" RAddress; mkField "ramp_registry" RAddress] RetVoid.
Definition type_and_version : Function := mkFunction "type_and_version" [] (RetType RString).
Definition lock_or_burn : Function := mkFunction "lock_or_burn"
  [mkField "caller" RAddress; mkField "input" (RNamed "LockOrBurnIn");
   mkField "requested_finality" U32] (RetType (RNamed "LockOrBurnOut")).
Definition release_or_mint : Function := mkFunction "release_or_mint"
  [mkField "caller" RAddress; mkField "input" (RNamed "ReleaseOrMintIn");
   mkField "requested_finality" U32] (RetType (RNamed "ReleaseOrMintOut")).
Definition get_fee : Function := mkFunction "get_fee"
  [mkField "remote_chain_selector" U64] (RetType (RNamed "PoolFeeResult")).
Definition is_supported_token : Function := mkFunction "is_supported_token"
  [mkField "token" RAddress] (RetType RBool).
Definition is_supported_chain : Function := mkFunction "is_supported_chain"
  [mkField "remote_chain_selector" U64] (RetType RBool).
Definition get_token : Function := mkFunction "get_token" [] (RetType RAddress).
Definition get_token_decimals : Function := mkFunction "get_token_decimals" [] (RetType U32).
Definition get_remote_pool : Function := mkFunction "get_remote_pool"
  [mkField "remote_chain_selector" U64] (RetType RBytes).
Definition get_remote_token : Function := mkFunction "get_remote_token"
  [mkField "remote_chain_selector" U64] (RetType RBytes).
Definition apply_chain_updates : Function := mkFunction "apply_chain_updates"
  [mkField "adds" (RVec (RNamed "ChainUpdate")); mkField "removes" (RVec U64)] RetVoid.
Definition set_rate_limit_config : Function := mkFunction "set_rate_limit_config"
  [mkField "remote_chain_selector" U64; mkField "outbound_config" (RNamed "RateLimitConfig");
   mkField "inbound_config" (RNamed "RateLimitConfig"); mkField "fast_finality" RBool] RetVoid.
Definition set_rate_limit_admin : Function := mkFunction "set_rate_limit_admin"
  [mkField "admin" RAddress] RetVoid.
Definition get_current_rate_limiter_state : Function := mkFunction "get_current_rate_limiter_state"
  [mkField "remote_chain_selector" U64; mkField "fast_finality" RBool] (RetType (RNamed "RateLimiterState")).
Definition get_rate_limit_admin : Function := mkFunction "get_rate_limit_admin"
  [] (RetType (ROption RAddress)).
Definition set_allowed_finality_config : Function := mkFunction "set_allowed_finality_config"
  [mkField "allowed_finality" U32] RetVoid.
Definition get_allowed_finality_config : Function := mkFunction "get_allowed_finality_config"
  [] (RetType U32).
Definition get_advanced_pool_hooks : Function := mkFunction "get_advanced_pool_hooks"
  [] (RetType (ROption RAddress)).
Definition set_advanced_pool_hooks : Function := mkFunction "set_advanced_pool_hooks"
  [mkField "hooks" RAddress] RetVoid.
Definition remove_advanced_pool_hooks : Function := mkFunction "remove_advanced_pool_hooks" [] RetVoid.
Definition get_required_ccvs : Function := mkFunction "get_required_ccvs"
  [mkField "local_token" RAddress; mkField "remote_chain_selector" U64; mkField "amount" I128;
   mkField "requested_finality" U32; mkField "extra_data" RBytes;
   mkField "direction" (RNamed "MessageDirection")] (RetType (RNamed "PoolRequiredCCVs")).
Definition set_router : Function := mkFunction "set_router" [mkField "router" RAddress] RetVoid.
Definition get_router : Function := mkFunction "get_router" [] (RetType (ROption RAddress)).
Definition set_ramp_registry : Function := mkFunction "set_ramp_registry"
  [mkField "ramp_registry" RAddress] RetVoid.
Definition get_ramp_registry : Function := mkFunction "get_ramp_registry" [] (RetType (ROption RAddress)).

(** The contract; a type comes after those that it mentions. *)
Definition contract : Contract := mkContract "TokenPool"
  [TStruct PoolRequiredCCVs; TStruct PoolFeeResult; TStruct LockOrBurnIn; TStruct LockOrBurnOut;
   TStruct ReleaseOrMintIn; TStruct ReleaseOrMintOut; TStruct RateLimitConfig; TStruct TokenBucket;
   TStruct RateLimiterState; TStruct ChainUpdate; TEnum MessageDirection]
  [initialize; type_and_version; lock_or_burn; release_or_mint; get_fee; is_supported_token;
   is_supported_chain; get_token; get_token_decimals; get_remote_pool; get_remote_token; apply_chain_updates;
   set_rate_limit_config; set_rate_limit_admin; get_current_rate_limiter_state; get_rate_limit_admin;
   set_allowed_finality_config; get_allowed_finality_config; get_advanced_pool_hooks;
   set_advanced_pool_hooks; remove_advanced_pool_hooks; get_required_ccvs; set_router; get_router;
   set_ramp_registry; get_ramp_registry]
  [CCIPError]
  [].

(** ** The emitted code *)

Section client.
Context {UT : UnicodeTables} {XS : XdrSdk} (enumerate : list string → list string).
Definition types : string → option codec := package enumerate contract.

Definition PoolRequiredCCVs_ToScVal : value → gres ScVal := toScVal (struct_codec types enumerate PoolRequiredCCVs).
Definition PoolRequiredCCVsFromScVal : ScVal → gres value := fromScVal (struct_codec types enumerate PoolRequiredCCVs).
Definition PoolFeeResult_ToScVal : value → gres ScVal := toScVal (struct_codec types enumerate PoolFeeResult).
Definition PoolFeeResultFromScVal : ScVal → gres value := fromScVal (struct_codec types enumerate PoolFeeResult).
Definition LockOrBurnIn_ToScVal : value → gres ScVal := toScVal (struct_codec types enumerate LockOrBurnIn).
Definition LockOrBurnInFromScVal : ScVal → gres value := fromScVal (struct_codec types enumerate LockOrBurnIn).
Definition LockOrBurnOut_ToScVal : value → gres ScVal := toScVal (struct_codec types enumerate LockOrBurnOut).
Definition LockOrBurnOutFromScVal : ScVal → gres value := fromScVal (struct_codec types enumerate LockOrBurnOut).
Definition ReleaseOrMintIn_ToScVal : value → gres ScVal := toScVal (struct_codec types enumerate ReleaseOrMintIn).
Definition ReleaseOrMintInFromScVal : ScVal → gres value := fromScVal (struct_codec types enumerate ReleaseOrMintIn).
Definition ReleaseOrMintOut_ToScVal : value → gres ScVal := toScVal (struct_codec types enumerate ReleaseOrMintOut).
Definition ReleaseOrMintOutFromScVal : ScVal → gres value := fromScVal (struct_codec types enumerate ReleaseOrMintOut).
Definition RateLimitConfig_ToScVal : value → gres ScVal := toScVal (struct_codec types enumerate RateLimitConfig).
Definition RateLimitConfigFromScVal : ScVal → gres value := fromScVal (struct_codec types enumerate RateLimitConfig).
Definition TokenBucket_ToScVal : value → gres ScVal := toScVal (struct_codec types enumerate TokenBucket).
Definition TokenBucketFromScVal : ScVal → gres value := fromScVal (struct_codec types enumerate TokenBucket).
Definition RateLimiterState_ToScVal : value → gres ScVal := toScVal (struct_codec types enumerate RateLimiterState).
Definition RateLimiterStateFromScVal : ScVal → gres value := fromScVal (struct_codec types enumerate RateLimiterState).
Definition ChainUpdate_ToScVal : value → gres ScVal := toScVal (struct_codec types enumerate ChainUpdate).
Definition ChainUpdateFromScVal : ScVal → gres value := fromScVal (struct_codec types enumerate ChainUpdate).
Definition MessageDirection_ToScVal : value → gres ScVal := toScVal (enum_codec types MessageDirection).
Definition MessageDirectionFromScVal : ScVal → gres value := fromScVal (enum_codec types MessageDirection).
Definition CCIPErrorMessage : Z → option string := error_message CCIPError.

(** The methods, on a client for the contract [contractID]. *)
Section methods.
Context {W : Type} {E : Type → Type} {IV : Invoker W E} (contractID : string).
Definition TokenPoolClient_Initialize : list value → prog W E (gres (list value)) :=
  Client.method types contractID initialize.
Definition TokenPoolClient_TypeAndVersion : list value → prog W E (gres (list value)) :=
  Client.method types contractID type_and_version.
Definition TokenPoolClient_LockOrBurn : list value → prog W E (gres (list value)) :=
  Client.method types contractID lock_or_burn.
Definition TokenPoolClient_ReleaseOrMint : list value → prog W E (gres (list value)) :=
  Client.method types contractID release_or_mint.
Definition TokenPoolClient_GetFee : list value → prog W E (gres (list value)) :=
  Client.method types contractID get_fee.
Definition TokenPoolClient_IsSupportedToken : list value → prog W E (gres (list value)) :=
  Client.method types contractID is_supported_token.
Definition TokenPoolClient_IsSupportedChain : list value → prog W E (gres (list value)) :=
  Client.method types contractID is_supported_chain.
Definition TokenPoolClient_GetToken : list value → prog W E (gres (list value)) :=
  Client.method types contractID get_token.
Definition TokenPoolClient_GetTokenDecimals : list value → prog W E (gres (list value)) :=
  Client.method types contractID get_token_decimals.
Definition TokenPoolClient_GetRemotePool : list value → prog W E (gres (list value)) :=
  Client.method types contractID get_remote_pool.
Definition TokenPoolClient_GetRemoteToken : list value → prog W E (gres (list value)) :=
  Client.method types contractID get_remote_token.
Definition TokenPoolClient_ApplyChainUpdates : list value → prog W E (gres (list value)) :=
  Client.method types contractID apply_chain_updates.
Definition TokenPoolClient_SetRateLimitConfig : list value → prog W E (gres (list value)) :=
  Client.method types contractID set_rate_limit_config.
Definition TokenPoolClient_SetRateLimitAdmin : list value → prog W E (gres (list value)) :=
  Client.method types contractID set_rate_limit_admin.
Definition TokenPoolClient_GetCurrentRateLimiterState : list value → prog W E (gres (list value)) :=
  Client.method types contractID get_current_rate_limiter_state.
Definition TokenPoolClient_GetRateLimitAdmin : list value → prog W E (gres (list value)) :=
  Client.method types contractID get_rate_limit_admin.
Definition TokenPoolClient_SetAllowedFinalityConfig : list value → prog W E (gres (list value)) :=
  Client.method types contractID set_allowed_finality_config.
Definition TokenPoolClient_GetAllowedFinalityConfig : list value → prog W E (gres (list value)) :=
  Client.method types contractID get_allowed_finality_config.
Definition TokenPoolClient_GetAdvancedPoolHooks : list value → prog W E (gres (list value)) :=
  Client.method types contractID get_advanced_pool_hooks.
Definition TokenPoolClient_SetAdvancedPoolHooks : list value → prog W E (gres (list value)) :=
  Client.method types contractID set_advanced_pool_hooks.
Definition TokenPoolClient_RemoveAdvancedPoolHooks : list value → prog W E (gres (list value)) :=
  Client.method types contractID remove_advanced_pool_hooks.
Definition TokenPoolClient_GetRequiredCcvs : list value → prog W E (gres (list value)) :=
  Client.method types contractID get_required_ccvs.
Definition TokenPoolClient_SetRouter : list value → prog W E (gres (list value)) :=
  Client.method types contractID set_router.
Definition TokenPoolClient_GetRouter : list value → prog W E (gres (list value)) :=
  Client.method types contractID get_router.
Definition TokenPoolClient_SetRampRegistry : list value → prog W E (gres (list value)) :=
  Client.method types contractID set_ramp_registry.
Definition TokenPoolClient_GetRampRegistry : list value → prog W E (gres (list value)) :=
  Client.method types contractID get_ramp_registry.
End methods.
End client.
