(* ===== verification/McmsClient.v ===== *)
(** [bindings/contracts/mcms]: the generated types, errors, events and methods of the Mcms
    contract. The data are what the generator parsed; each function is the template of
    [Codec] or [Client] that emits it, on its data. *)

From stdpp Require Import base list strings.
From S2P Require Import Prelude GoStrings Prog Xdr ScVal TypeConverters Ccv Codec Client.
Import Xdr.

Local Open Scope Z_scope.

(** ** Types *)

Definition AllowListEntry : Struct := mkStruct "AllowListEntry"
  [mkField "allowlist" (RVec RAddress); mkField "allowlist_enabled" RBool].
Definition AllowListUpdate : Struct := mkStruct "AllowListUpdate"
  [mkField "added_allowlisted_senders" (RVec RAddress); mkField "allowlist_enabled" RBool;
   mkField "dest_chain_selector" U64; mkField "removed_allowlisted_senders" (RVec RAddress)].
Definition TokenAmount : Struct := mkStruct "TokenAmount" [mkField "amount" I128; mkField "token" RAddress].
Definition GenericExtraArgsV3 : Struct := mkStruct "GenericExtraArgsV3"
  [mkField "block_confirmations" U32; mkField "ccv_args" (RVec RBytes); mkField "ccvs" (RVec RAddress);
   mkField "executor" RAddress; mkField "executor_args" RBytes; mkField "gas_limit" U32;
   mkField "token_args" RBytes; mkField "token_receiver" RBytes].
Definition AnyToStellarMessage : Struct := mkStruct "AnyToStellarMessage"
  [mkField "data" RBytes; mkField "dest_token_amounts" (RVec (RNamed "TokenAmount"));
   mkField "message_id" (RBytesN 32); mkField "sender" RBytes; mkField "source_chain_selector" U64].
Definition StellarToAnyMessage : Struct := mkStruct "StellarToAnyMessage"
  [mkField "data" RBytes; mkField "extra_args" RBytes; mkField "fee_token" RAddress;
   mkField "receiver" RBytes; mkField "token_amounts" (RVec (RNamed "TokenAmount"))].
Definition Signer : Struct := mkStruct "Signer"
  [mkField "addr" (RBytesN 32); mkField "group" U32; mkField "index" U32].
Definition Config : Struct := mkStruct "Config"
  [mkField "group_parents" (RBytesN 32); mkField "group_quorums" (RBytesN 32);
   mkField "signers" (RVec (RNamed "Signer"))].
Definition Signature : Struct := mkStruct "Signature"
  [mkField "r" (RBytesN 32); mkField "s" (RBytesN 32); mkField "v" U32].
Definition StellarOp : Struct := mkStruct "StellarOp"
  [mkField "chain_id" (RBytesN 32); mkField "data" RBytes; mkField "multisig" (RBytesN 32);
   mkField "nonce" U64; mkField "to" (RBytesN 32); mkField "value" (RBytesN 32)].
Definition MerkleProof : Struct := mkStruct "MerkleProof" [mkField "inner" (RVec (RBytesN 32))].
Definition SignatureVec : Struct := mkStruct "SignatureVec" [mkField "inner" (RVec (RNamed "Signature"))].
Definition SignerGroups : Struct := mkStruct "SignerGroups" [mkField "inner" (RVec U32)].
Definition SignerAddresses : Struct := mkStruct "SignerAddresses" [mkField "inner" (RVec (RBytesN 32))].
Definition StellarRootMetadata : Struct := mkStruct "StellarRootMetadata"
  [mkField "chain_id" (RBytesN 32); mkField "multisig" (RBytesN 32); mkField "override_previous_root" RBool;
   mkField "post_op_count" U64; mkField "pre_op_count" U64].
Definition ExpiringRootAndOpCount : Struct := mkStruct "ExpiringRootAndOpCount"
  [mkField "op_count" U64; mkField "root" (RBytesN 32); mkField "valid_until" U32].

(** ** Errors *)

Definition CCIPError : ErrorEnum := mkErrorEnum "CCIPError"
  [("NotInitialized", 1); ("AlreadyInitialized", 2); ("Unauthorized", 3); ("NotOwner", 4);
   ("NoPendingOwner", 5); ("CallerNotAuthorized", 6); ("CallerAlreadyAuthorized", 7); ("CallerNotFound", 8);
   ("RoleNotGranted", 9); ("FeatureNotEnabled", 10); ("RoleAlreadyGranted", 11); ("CannotRenounceRole", 12);
   ("InvalidVersionTag", 13); ("InvalidSignatureLength", 14); ("InvalidSignature", 15);
   ("InvalidSignatureCount", 16); ("InvalidSignatureThreshold", 17); ("InvalidSignaturePubkey", 18);
   ("SourceSignersNotConfigured", 19); ("InvalidVerifierResults", 20); ("ReentrantCall", 21);
   ("TokenNotSupported", 22); ("FeeTokenNotSupported", 23); ("NoGasPriceAvailable", 24);
   ("DestinationChainNotEnabled", 25); ("InvalidExtraArgsTag", 26); ("InvalidExtraArgsData", 27);
   ("MessageGasLimitTooHigh", 28); ("MessageTooLarge", 29); ("UnsupportedNumberOfTokens", 30);
   ("InvalidDestChainConfig", 31); ("MessageFeeTooHigh", 32); ("InvalidStaticConfig", 33);
   ("InvalidTokenReceiver", 34); ("SourceTokenDataTooLarge", 35); ("InvalidDestBytesOverhead", 36);
   ("DestinationChainNotSupported", 37); ("MustBeCalledByRouter", 38); ("RouterMustSetOriginalSender", 39);
   ("CannotSendZeroTokens", 40); ("CanOnlySendOneTokenPerMessage", 41); ("UnsupportedToken", 42);
   ("InvalidDestChainAddress", 43); ("FeeExceedsMaxAllowed", 44); ("InsufficientFeeTokenAmount", 45);
   ("TokenReceiverNotAllowed", 46); ("CursedByRMN", 47); ("RemoteChainNotSupported", 48);
   ("SenderNotAllowed", 49); ("InvalidTokenAmount", 50); ("InvalidReceiverAddress", 51);
   ("InvalidConfig", 52); ("InvalidVerifierResultsLength", 53); ("InboundImplementationNotFound", 54);
   ("OutboundImplementationNotFound", 55); ("InvalidAddress", 56); ("InvalidChainSelector", 57);
   ("InvalidVersion", 58); ("InvalidCCVVersion", 59); ("OffRampAlreadyExists", 60); ("OffRampMismatch", 61);
   ("BadRMNSignal", 62); ("UnsupportedDestinationChain", 63); ("AlreadyCursed", 64); ("ConfigNotSet", 65);
   ("DuplicateOnchainPublicKey", 66); ("InvalidSignerOrder", 67); ("NotEnoughSigners", 68);
   ("NotCursed", 69); ("OutOfOrderSignatures", 70); ("ThresholdNotMet", 71); ("UnexpectedSigner", 72);
   ("ZeroValueNotAllowed", 73); ("SourceChainNotEnabled", 100); ("InvalidSourceChainConfig", 101);
   ("InvalidOnRampAddress", 102); ("InvalidOffRampAddress", 103); ("InvalidMessageDestination", 104);
   ("MessageAlreadyExecuted", 105); ("InvalidExecutionState", 106); ("CCVLengthMismatch", 107);
   ("CCVQuorumNotMet", 108); ("ReceiverError", 109); ("GasLimitOverrideTooLow", 110);
   ("InvalidReceiverLength", 111); ("TokenHandlingError", 112); ("MessageDecodingError", 113);
   ("ReceiverDoesNotExist", 114); ("ReceiverNotWasmContract", 115); ("RequiredCCVMissing", 116);
   ("OnlyRegistryModuleOrOwner", 201); ("OnlyAdministrator", 202); ("OnlyPendingAdministrator", 203);
   ("TokenAlreadyRegistered", 204); ("InvalidTokenPoolToken", 205); ("PoolTokenMismatch", 301);
   ("ChainNotSupported", 302); ("CallerIsNotRamp", 303); ("InsufficientPoolLiquidity", 304);
   ("InvalidRemotePoolAddress", 305); ("InvalidRemoteChainConfig", 306); ("InvalidRemoteChainDecimals", 307);
   ("DecimalAmountOverflow", 308); ("InvalidPoolTokenDecimals", 309); ("BucketOverfilled", 310);
   ("TokenMaxCapacityExceeded", 311); ("TokenRateLimitReached", 312); ("InvalidRateLimitRate", 313);
   ("DisabledNonZeroRateLimit", 314); ("InvalidRequestedFinality", 315);
   ("RequestedFinalityCanOnlyHaveOneMode", 316); ("InvalidChainForClient", 317);
   ("RouterNotConfigured", 318); ("InvalidFeeCalculation", 801); ("InvalidFeeTokenConversion", 802);
   ("ZeroFeeAggregatorNotAllowed", 803)].
Definition McmsError : ErrorEnum := mkErrorEnum "McmsError"
  [("NotInitialized", 1); ("AlreadyInitialized", 2); ("NotOwner", 3); ("OutOfBoundsNumOfSigners", 10);
   ("SignerGroupsLengthMismatch", 11); ("OutOfBoundsGroup", 12); ("GroupTreeNotWellFormed", 13);
   ("OutOfBoundsGroupQuorum", 14); ("SignerInDisabledGroup", 15);
   ("SignersAddressesMustBeStrictlyIncreasing", 16); ("SignedHashAlreadySeen", 20);
   ("SignersAddressesMustBeStrictlyIncreasingSigs", 21); ("InvalidSigner", 22); ("MissingConfig", 23);
   ("InsufficientSigners", 24); ("ValidUntilHasAlreadyPassed", 25); ("ProofCannotBeVerified", 26);
   ("WrongChainIdMeta", 27); ("WrongMultiSigMeta", 28); ("PendingOps", 29); ("WrongPreOpCount", 30);
   ("WrongPostOpCount", 31); ("PostOpCountReached", 40); ("WrongChainIdOp", 41); ("WrongMultiSigOp", 42);
   ("RootExpired", 43); ("WrongNonce", 44); ("CallReverted", 45); ("InvalidSignature", 46);
   ("InvalidSignatureEncoding", 47); ("NonceOverflow", 48); ("InvalidUint40", 49); ("InvalidInvokeData", 50);
   ("NonZeroValue", 51); ("MissingRootMetadata", 52); ("ValidUntilExceedsMaximum", 53);
   ("InvalidMinSecsPerLedger", 54)].

(** ** Events *)

Definition RoleGrantedEvent : Event := mkEvent "RoleGrantedEvent" ["auth_RoleGranted"]
  [mkField "role" RSymbol; mkField "account" RAddress; mkField "sender" RAddress].
Definition RoleRevokedEvent : Event := mkEvent "RoleRevokedEvent" ["auth_RoleRevoked"]
  [mkField "role" RSymbol; mkField "account" RAddress; mkField "sender" RAddress].
Definition AuthorizedCallerAddedEvent : Event := mkEvent "AuthorizedCallerAddedEvent" ["auth_CallerAdded"]
  [mkField "caller" RAddress].
Definition AuthorizedCallerRemovedEvent : Event := mkEvent "AuthorizedCallerRemovedEvent" ["auth_CallerRemoved"]
  [mkField "caller" RAddress].
Definition OwnershipTransferStartedEvent : Event := mkEvent "OwnershipTransferStartedEvent" ["auth_OwnerTransferStart"]
  [mkField "previous_owner" RAddress; mkField "new_owner" RAddress].
Definition NewRootEvent : Event := mkEvent "NewRootEvent" ["mcms_NewRoot"]
  [mkField "root" (RBytesN 32); mkField "valid_until" U32;
   mkField "metadata" (RNamed "StellarRootMetadata")].
Definition ConfigSetEvent : Event := mkEvent "ConfigSetEvent" ["mcms_ConfigSet"]
  [mkField "config" (RNamed "Config"); mkField "is_root_cleared" RBool].
Definition OpExecutedEvent : Event := mkEvent "OpExecutedEvent" ["mcms_OpExecuted"]
  [mkField "nonce" U64; mkField "to" (RBytesN 32); mkField "data" RBytes; mkField "value" (RBytesN 32)].
Definition MinSecsPerLedgerSetEvent : Event := mkEvent "MinSecsPerLedgerSetEvent" ["mcms_MinSecsPerLedgerSet"]
  [mkField "min_secs_per_ledger" U64].

(** ** Functions *)

Definition owner : Function := mkFunction "owner" [] (RetType (ROption RAddress)).
Definition execute : Function := mkFunction "execute"
  [mkField "op" (RNamed "StellarOp"); mkField "proof" (RNamed "MerkleProof")] RetVoid.
Definition get_root : Function := mkFunction "get_root" [] (RetTuple [RBytesN 32; U32]).
Definition is_owner : Function := mkFunction "is_owner" [mkField "addr" RAddress] (RetType RBool).
Definition set_root : Function := mkFunction "set_root"
  [mkField "root" (RBytesN 32); mkField "valid_until" U32; mkField "metadata" (RNamed "StellarRootMetadata");
   mkField "metadata_proof" (RNamed "MerkleProof"); mkField "signatures" (RNamed "SignatureVec")] RetVoid.
Definition get_config : Function := mkFunction "get_config" [] (RetType (RNamed "Config")).
Definition init_owner : Function := mkFunction "init_owner" [mkField "owner" RAddress] RetVoid.
Definition initialize : Function := mkFunction "initialize"
  [mkField "owner" RAddress; mkField "chain_network_id" (RBytesN 32)] RetVoid.
Definition set_config : Function := mkFunction "set_config"
  [mkField "signer_addresses" (RNamed "SignerAddresses"); mkField "signer_groups" (RNamed "SignerGroups");
   mkField "group_quorums" (RBytesN 32); mkField "group_parents" (RBytesN 32);
   mkField "clear_root" RBool] RetVoid.
Definition get_op_count : Function := mkFunction "get_op_count" [] (RetType U64).
Definition require_owner : Function := mkFunction "require_owner" [] (RetType RAddress).
Definition set_new_owner : Function := mkFunction "set_new_owner" [mkField "new_owner" RAddress] RetVoid.
Definition extend_all_ttls : Function := mkFunction "extend_all_ttls" [] RetVoid.
Definition accept_ownership : Function := mkFunction "accept_ownership" [] RetVoid.
Definition chain_network_id : Function := mkFunction "chain_network_id" [] (RetType (RBytesN 32)).
Definition get_pending_owner : Function := mkFunction "get_pending_owner" [] (RetType (ROption RAddress)).
Definition get_root_metadata : Function := mkFunction "get_root_metadata"
  [] (RetType (RNamed "StellarRootMetadata")).
Definition transfer_ownership : Function := mkFunction "transfer_ownership"
  [mkField "new_owner" RAddress] RetVoid.
Definition get_min_secs_per_ledger : Function := mkFunction "get_min_secs_per_ledger" [] (RetType U64).
Definition set_min_secs_per_ledger : Function := mkFunction "set_min_secs_per_ledger"
  [mkField "secs" U64] RetVoid.
Definition cancel_ownership_transfer : Function := mkFunction "cancel_ownership_transfer" [] RetVoid.

(** The contract; a type comes after those that it mentions. *)
Definition contract : Contract := mkContract "Mcms"
  [TStruct AllowListEntry; TStruct AllowListUpdate; TStruct TokenAmount; TStruct GenericExtraArgsV3;
   TStruct AnyToStellarMessage; TStruct StellarToAnyMessage; TStruct Signer; TStruct Config;
   TStruct Signature; TStruct StellarOp; TStruct MerkleProof; TStruct SignatureVec; TStruct SignerGroups;
   TStruct SignerAddresses; TStruct StellarRootMetadata; TStruct ExpiringRootAndOpCount]
  [owner; execute; get_root; is_owner; set_root; get_config; init_owner; initialize; set_config;
   get_op_count; require_owner; set_new_owner; extend_all_ttls; accept_ownership; chain_network_id;
   get_pending_owner; get_root_metadata; transfer_ownership; get_min_secs_per_ledger;
   set_min_secs_per_ledger; cancel_ownership_transfer]
  [CCIPError; McmsError]
  [RoleGrantedEvent; RoleRevokedEvent; AuthorizedCallerAddedEvent; AuthorizedCallerRemovedEvent;
   OwnershipTransferStartedEvent; NewRootEvent; ConfigSetEvent; OpExecutedEvent; MinSecsPerLedgerSetEvent].

(** ** The emitted code *)

Section client.
Context {UT : UnicodeTables} {XS : XdrSdk} (enumerate : list string → list string).
Definition types : string → option codec := package enumerate contract.

Definition AllowListEntry_ToScVal : value → gres ScVal := toScVal (struct_codec types enumerate AllowListEntry).
Definition AllowListEntryFromScVal : ScVal → gres value := fromScVal (struct_codec types enumerate AllowListEntry).
Definition AllowListUpdate_ToScVal : value → gres ScVal := toScVal (struct_codec types enumerate AllowListUpdate).
Definition AllowListUpdateFromScVal : ScVal → gres value := fromScVal (struct_codec types enumerate AllowListUpdate).
Definition TokenAmount_ToScVal : value → gres ScVal := toScVal (struct_codec types enumerate TokenAmount).
Definition TokenAmountFromScVal : ScVal → gres value := fromScVal (struct_codec types enumerate TokenAmount).
Definition GenericExtraArgsV3_ToScVal : value → gres ScVal := toScVal (struct_codec types enumerate GenericExtraArgsV3).
Definition GenericExtraArgsV3FromScVal : ScVal → gres value := fromScVal (struct_codec types enumerate GenericExtraArgsV3).
Definition AnyToStellarMessage_ToScVal : value → gres ScVal := toScVal (struct_codec types enumerate AnyToStellarMessage).
Definition AnyToStellarMessageFromScVal : ScVal → gres value := fromScVal (struct_codec types enumerate AnyToStellarMessage).
Definition StellarToAnyMessage_ToScVal : value → gres ScVal := toScVal (struct_codec types enumerate StellarToAnyMessage).
Definition StellarToAnyMessageFromScVal : ScVal → gres value := fromScVal (struct_codec types enumerate StellarToAnyMessage).
Definition Signer_ToScVal : value → gres ScVal := toScVal (struct_codec types enumerate Signer).
Definition SignerFromScVal : ScVal → gres value := fromScVal (struct_codec types enumerate Signer).
Definition Config_ToScVal : value → gres ScVal := toScVal (struct_codec types enumerate Config).
Definition ConfigFromScVal : ScVal → gres value := fromScVal (struct_codec types enumerate Config).
Definition Signature_ToScVal : value → gres ScVal := toScVal (struct_codec types enumerate Signature).
Definition SignatureFromScVal : ScVal → gres value := fromScVal (struct_codec types enumerate Signature).
Definition StellarOp_ToScVal : value → gres ScVal := toScVal (struct_codec types enumerate StellarOp).
Definition StellarOpFromScVal : ScVal → gres value := fromScVal (struct_codec types enumerate StellarOp).
Definition MerkleProof_ToScVal : value → gres ScVal := toScVal (struct_codec types enumerate MerkleProof).
Definition MerkleProofFromScVal : ScVal → gres value := fromScVal (struct_codec types enumerate MerkleProof).
Definition SignatureVec_ToScVal : value → gres ScVal := toScVal (struct_codec types enumerate SignatureVec).
Definition SignatureVecFromScVal : ScVal → gres value := fromScVal (struct_codec types enumerate SignatureVec).
Definition SignerGroups_ToScVal : value → gres ScVal := toScVal (struct_codec types enumerate SignerGroups).
Definition SignerGroupsFromScVal : ScVal → gres value := fromScVal (struct_codec types enumerate SignerGroups).
Definition SignerAddresses_ToScVal : value → gres ScVal := toScVal (struct_codec types enumerate SignerAddresses).
Definition SignerAddressesFromScVal : ScVal → gres value := fromScVal (struct_codec types enumerate SignerAddresses).
Definition StellarRootMetadata_ToScVal : value → gres ScVal := toScVal (struct_codec types enumerate StellarRootMetadata).
Definition StellarRootMetadataFromScVal : ScVal → gres value := fromScVal (struct_codec types enumerate StellarRootMetadata).
Definition ExpiringRootAndOpCount_ToScVal : value → gres ScVal := toScVal (struct_codec types enumerate ExpiringRootAndOpCount).
Definition ExpiringRootAndOpCountFromScVal : ScVal → gres value := fromScVal (struct_codec types enumerate ExpiringRootAndOpCount).
Definition CCIPErrorMessage : Z → option string := error_message CCIPError.
Definition McmsErrorMessage : Z → option string := error_message McmsError.

(** The methods, on a client for the contract [contractID]. *)
Section methods.
Context {W : Type} {E : Type → Type} {IV : Invoker W E} (contractID : string).
Definition McmsClient_Owner : list value → prog W E (gres (list value)) :=
  Client.method types contractID owner.
Definition McmsClient_Execute : list value → prog W E (gres (list value)) :=
  Client.method types contractID execute.
Definition McmsClient_GetRoot : list value → prog W E (gres (list value)) :=
  Client.method types contractID get_root.
Definition McmsClient_IsOwner : list value → prog W E (gres (list value)) :=
  Client.method types contractID is_owner.
Definition McmsClient_SetRoot : list value → prog W E (gres (list value)) :=
  Client.method types contractID set_root.
Definition McmsClient_GetConfig : list value → prog W E (gres (list value)) :=
  Client.method types contractID get_config.
Definition McmsClient_InitOwner : list value → prog W E (gres (list value)) :=
  Client.method types contractID init_owner.
Definition McmsClient_Initialize : list value → prog W E (gres (list value)) :=
  Client.method types contractID initialize.
Definition McmsClient_SetConfig : list value → prog W E (gres (list value)) :=
  Client.method types contractID set_config.
Definition McmsClient_GetOpCount : list value → prog W E (gres (list value)) :=
  Client.method types contractID get_op_count.
Definition McmsClient_RequireOwner : list value → prog W E (gres (list value)) :=
  Client.method types contractID require_owner.
Definition McmsClient_SetNewOwner : list value → prog W E (gres (list value)) :=
  Client.method types contractID set_new_owner.
Definition McmsClient_ExtendAllTtls : list value → prog W E (gres (list value)) :=
  Client.method types contractID extend_all_ttls.
Definition McmsClient_AcceptOwnership : list value → prog W E (gres (list value)) :=
  Client.method types contractID accept_ownership.
Definition McmsClient_ChainNetworkId : list value → prog W E (gres (list value)) :=
  Client.method types contractID chain_network_id.
Definition McmsClient_GetPendingOwner : list value → prog W E (gres (list value)) :=
  Client.method types contractID get_pending_owner.
Definition McmsClient_GetRootMetadata : list value → prog W E (gres (list value)) :=
  Client.method types contractID get_root_metadata.
Definition McmsClient_TransferOwnership : list value → prog W E (gres (list value)) :=
  Client.method types contractID transfer_ownership.
Definition McmsClient_GetMinSecsPerLedger : list value → prog W E (gres (list value)) :=
  Client.method types contractID get_min_secs_per_ledger.
Definition McmsClient_SetMinSecsPerLedger : list value → prog W E (gres (list value)) :=
  Client.method types contractID set_min_secs_per_ledger.
Definition McmsClient_CancelOwnershipTransfer : list value → prog W E (gres (list value)) :=
  Client.method types contractID cancel_ownership_transfer.
End methods.

Definition ParseRoleGrantedEvent := ParseEvent types RoleGrantedEvent.
Definition WaitForRoleGrantedEvent (contractID : string) := Client.WaitFor types contractID RoleGrantedEvent.
Definition ParseRoleRevokedEvent := ParseEvent types RoleRevokedEvent.
Definition WaitForRoleRevokedEvent (contractID : string) := Client.WaitFor types contractID RoleRevokedEvent.
Definition ParseAuthorizedCallerAddedEvent := ParseEvent types AuthorizedCallerAddedEvent.
Definition WaitForAuthorizedCallerAddedEvent (contractID : string) := Client.WaitFor types contractID AuthorizedCallerAddedEvent.
Definition ParseAuthorizedCallerRemovedEvent := ParseEvent types AuthorizedCallerRemovedEvent.
Definition WaitForAuthorizedCallerRemovedEvent (contractID : string) := Client.WaitFor types contractID AuthorizedCallerRemovedEvent.
Definition ParseOwnershipTransferStartedEvent := ParseEvent types OwnershipTransferStartedEvent.
Definition WaitForOwnershipTransferStartedEvent (contractID : string) := Client.WaitFor types contractID OwnershipTransferStartedEvent.
Definition ParseNewRootEvent := ParseEvent types NewRootEvent.
Definition WaitForNewRootEvent (contractID : string) := Client.WaitFor types contractID NewRootEvent.
Definition ParseConfigSetEvent := ParseEvent types ConfigSetEvent.
Definition WaitForConfigSetEvent (contractID : string) := Client.WaitFor types contractID ConfigSetEvent.
Definition ParseOpExecutedEvent := ParseEvent types OpExecutedEvent.
Definition WaitForOpExecutedEvent (contractID : string) := Client.WaitFor types contractID OpExecutedEvent.
Definition ParseMinSecsPerLedgerSetEvent := ParseEvent types MinSecsPerLedgerSetEvent.
Definition WaitForMinSecsPerLedgerSetEvent (contractID : string) := Client.WaitFor types contractID MinSecsPerLedgerSetEvent.
End client.
