(* ===== verification/TimelockClient.v ===== *)
(** [bindings/contracts/timelock]: the generated types, errors, events and methods of the Timelock
    contract. The data are what the generator parsed; each function is the template of
    [Codec] or [Client] that emits it, on its data. *)

From stdpp Require Import base list strings.
From S2P Require Import Prelude GoStrings Prog Xdr ScVal TypeConverters Ccv Codec Client.
Import Xdr.

Local Open Scope Z_scope.

(** ** Types *)

Definition TokenAmount : Struct := mkStruct "TokenAmount" [mkField "amount" I128; mkField "token" RAddress].
Definition GenericExtraArgsV3 : Struct := mkStruct "GenericExtraArgsV3"
  [mkField "block_confirmations" U32; mkField "ccv_args" (RVec RBytes); mkField "ccvs" (RVec RAddress);
   mkField "executor" RAddress; mkField "executor_args" RBytes; mkField "gas_limit" U32;
   mkField "token_args" RBytes; mkField "token_receiver" RBytes].
Definition AnyToStellarMessage : Struct := mkStruct "AnyToStellarMessage"
  [mkField "data" RBytes; mkField "dest_token_amounts" (RVec (RNamed "TokenAmount"));
   mkField "message_id" (RBytesN 32); mkField "sender" RBytes; mkField "source_chain_selector" U64].
Definition StellarToAnyMessage : Struct := mkStruct "StellarToAnyMessage"
  [mkField "data" RBytes; mkField "extra_args" RBytes; mkField "fee_token" RAddress;
   mkField "receiver" RBytes; mkField "token_amounts" (RVec (RNamed "TokenAmount"))].
Definition Call : Struct := mkStruct "Call" [mkField "data" RBytes; mkField "to" (RBytesN 32)].
Definition Calls : Struct := mkStruct "Calls" [mkField "inner" (RVec (RNamed "Call"))].
Definition TimelockDataKey : Enum := mkEnum "TimelockDataKey" [
  mkVariant "OpTime" EnumVariantTuple 0 [mkField "" (RBytesN 32)]].

(** ** Errors *)

Definition CCIPError : ErrorEnum := mkErrorEnum "CCIPError"
  [("NotInitialized", 1); ("AlreadyInitialized", 2); ("Unauthorized", 3); ("NotOwner", 4);
   ("NoPendingOwner", 5); ("CallerNotAuthorized", 6); ("CallerAlreadyAuthorized", 7); ("CallerNotFound", 8);
   ("RoleNotGranted", 9); ("FeatureNotEnabled", 10); ("RoleAlreadyGranted", 11); ("CannotRenounceRole", 12);
   ("InvalidVersionTag", 13); ("InvalidSignatureLength", 14); ("InvalidSignature", 15);
   ("InvalidSignatureCount", 16); ("InvalidSignatureThreshold", 17); ("InvalidSignaturePubkey", 18);
   ("SourceSignersNotConfigured", 19); ("InvalidVerifierResults", 20); ("ReentrantCall", 21);
   ("TokenNotSupported", 22); ("FeeTokenNotSupported", 23); ("NoGasPriceAvailable", 24);
   ("DestinationChainNotEnabled", 25); ("InvalidExtraArgsTag", 26); ("InvalidExtraArgsData", 27);
   ("MessageGasLimitTooHigh", 28); ("MessageTooLarge", 29); ("UnsupportedNumberOfTokens", 30);
   ("InvalidDestChainConfig", 31); ("MessageFeeTooHigh", 32); ("InvalidStaticConfig", 33);
   ("InvalidTokenReceiver", 34); ("SourceTokenDataTooLarge", 35); ("InvalidDestBytesOverhead", 36);
   ("DestinationChainNotSupported", 37); ("MustBeCalledByRouter", 38); ("RouterMustSetOriginalSender", 39);
   ("CannotSendZeroTokens", 40); ("CanOnlySendOneTokenPerMessage", 41); ("UnsupportedToken", 42);
   ("InvalidDestChainAddress", 43); ("FeeExceedsMaxAllowed", 44); ("InsufficientFeeTokenAmount", 45);
   ("TokenReceiverNotAllowed", 46); ("CursedByRMN", 47); ("RemoteChainNotSupported", 48);
   ("SenderNotAllowed", 49); ("InvalidTokenAmount", 50); ("InvalidReceiverAddress", 51);
   ("InvalidConfig", 52); ("InvalidVerifierResultsLength", 53); ("InboundImplementationNotFound", 54);
   ("OutboundImplementationNotFound", 55); ("InvalidAddress", 56); ("InvalidChainSelector", 57);
   ("InvalidVersion", 58); ("InvalidCCVVersion", 59); ("OffRampAlreadyExists", 60); ("OffRampMismatch", 61);
   ("BadRMNSignal", 62); ("UnsupportedDestinationChain", 63); ("AlreadyCursed", 64); ("ConfigNotSet", 65);
   ("DuplicateOnchainPublicKey", 66); ("InvalidSignerOrder", 67); ("NotEnoughSigners", 68);
   ("NotCursed", 69); ("OutOfOrderSignatures", 70); ("ThresholdNotMet", 71); ("UnexpectedSigner", 72);
   ("ZeroValueNotAllowed", 73); ("SourceChainNotEnabled", 100); ("InvalidSourceChainConfig", 101);
   ("InvalidOnRampAddress", 102); ("InvalidOffRampAddress", 103); ("InvalidMessageDestination", 104);
   ("MessageAlreadyExecuted", 105); ("InvalidExecutionState", 106); ("CCVLengthMismatch", 107);
   ("CCVQuorumNotMet", 108); ("ReceiverError", 109); ("GasLimitOverrideTooLow", 110);
   ("InvalidReceiverLength", 111); ("TokenHandlingError", 112); ("MessageDecodingError", 113);
   ("ReceiverDoesNotExist", 114); ("ReceiverNotWasmContract", 115); ("RequiredCCVMissing", 116);
   ("OnlyRegistryModuleOrOwner", 201); ("OnlyAdministrator", 202); ("OnlyPendingAdministrator", 203);
   ("TokenAlreadyRegistered", 204); ("InvalidTokenPoolToken", 205); ("PoolTokenMismatch", 301);
   ("ChainNotSupported", 302); ("CallerIsNotRamp", 303); ("InsufficientPoolLiquidity", 304);
   ("InvalidRemotePoolAddress", 305); ("InvalidRemoteChainConfig", 306); ("InvalidRemoteChainDecimals", 307);
   ("DecimalAmountOverflow", 308); ("InvalidPoolTokenDecimals", 309); ("BucketOverfilled", 310);
   ("TokenMaxCapacityExceeded", 311); ("TokenRateLimitReached", 312); ("InvalidRateLimitRate", 313);
   ("DisabledNonZeroRateLimit", 314); ("InvalidRequestedFinality", 315);
   ("RequestedFinalityCanOnlyHaveOneMode", 316); ("InvalidChainForClient", 317);
   ("RouterNotConfigured", 318); ("InvalidFeeCalculation", 801); ("InvalidFeeTokenConversion", 802);
   ("ZeroFeeAggregatorNotAllowed", 803)].
Definition TimelockError : ErrorEnum := mkErrorEnum "TimelockError"
  [("NotInitialized", 1); ("AlreadyInitialized", 2); ("NotAuthorized", 3); ("OperationAlreadyScheduled", 20);
   ("InsufficientDelay", 21); ("SelectorIsBlocked", 22); ("OperationNotReady", 30);
   ("MissingPredecessor", 31); ("CallReverted", 32); ("OperationCannotBeCancelled", 40);
   ("InvalidInvokeData", 50); ("IndexOutOfBounds", 51)].

(** ** Events *)

Definition CancelledEvent : Event := mkEvent "CancelledEvent" ["tl_Cancelled"] [mkField "id" (RBytesN 32)].
Definition RoleGrantedEvent : Event := mkEvent "RoleGrantedEvent" ["tl_RoleGranted"]
  [mkField "role" RSymbol; mkField "account" RAddress; mkField "sender" RAddress].
Definition RoleRevokedEvent : Event := mkEvent "RoleRevokedEvent" ["tl_RoleRevoked"]
  [mkField "role" RSymbol; mkField "account" RAddress; mkField "sender" RAddress].
Definition CallExecutedEvent : Event := mkEvent "CallExecutedEvent" ["tl_CallExecuted"]
  [mkField "id" (RBytesN 32); mkField "index" U32; mkField "to" (RBytesN 32); mkField "data" RBytes].
Definition CallScheduledEvent : Event := mkEvent "CallScheduledEvent" ["tl_CallScheduled"]
  [mkField "id" (RBytesN 32); mkField "index" U32; mkField "to" (RBytesN 32); mkField "data" RBytes;
   mkField "predecessor" (RBytesN 32); mkField "salt" (RBytesN 32); mkField "delay" U64].
Definition MinDelayChangeEvent : Event := mkEvent "MinDelayChangeEvent" ["tl_MinDelay"]
  [mkField "old_duration" U64; mkField "new_duration" U64].
Definition BypasserCallExecutedEvent : Event := mkEvent "BypasserCallExecutedEvent" ["tl_BypCallExec"]
  [mkField "index" U32; mkField "to" (RBytesN 32); mkField "data" RBytes].
Definition FunctionSelectorBlockedEvent : Event := mkEvent "FunctionSelectorBlockedEvent" ["tl_SelBlocked"]
  [mkField "selector" RSymbol].
Definition FunctionSelectorUnblockedEvent : Event := mkEvent "FunctionSelectorUnblockedEvent" ["tl_SelUnblock"]
  [mkField "selector" RSymbol].

(** ** Functions *)

Definition cancel : Function := mkFunction "cancel"
  [mkField "caller" RAddress; mkField "id" (RBytesN 32)] RetVoid.
Definition has_role : Function := mkFunction "has_role"
  [mkField "role" RSymbol; mkField "account" RAddress] (RetType RBool).
Definition grant_role : Function := mkFunction "grant_role"
  [mkField "caller" RAddress; mkField "role" RSymbol; mkField "account" RAddress] RetVoid.
Definition initialize : Function := mkFunction "initialize"
  [mkField "min_delay" U64; mkField "admin" RAddress; mkField "proposers" (RVec RAddress);
   mkField "executors" (RVec RAddress); mkField "cancellers" (RVec RAddress);
   mkField "bypassers" (RVec RAddress)] RetVoid.
Definition revoke_role : Function := mkFunction "revoke_role"
  [mkField "caller" RAddress; mkField "role" RSymbol; mkField "account" RAddress] RetVoid.
Definition is_operation : Function := mkFunction "is_operation" [mkField "id" (RBytesN 32)] (RetType RBool).
Definition update_delay : Function := mkFunction "update_delay"
  [mkField "caller" RAddress; mkField "new_delay" U64] RetVoid.
Definition execute_batch : Function := mkFunction "execute_batch"
  [mkField "caller" RAddress; mkField "calls" (RNamed "Calls"); mkField "predecessor" (RBytesN 32);
   mkField "salt" (RBytesN 32)] RetVoid.
Definition get_min_delay : Function := mkFunction "get_min_delay" [] (RetType U64).
Definition get_timestamp : Function := mkFunction "get_timestamp" [mkField "id" (RBytesN 32)] (RetType U64).
Definition renounce_role : Function := mkFunction "renounce_role"
  [mkField "account" RAddress; mkField "role" RSymbol] RetVoid.
Definition schedule_batch : Function := mkFunction "schedule_batch"
  [mkField "caller" RAddress; mkField "calls" (RNamed "Calls"); mkField "predecessor" (RBytesN 32);
   mkField "salt" (RBytesN 32); mkField "delay" U64] RetVoid.
Definition extend_all_ttls : Function := mkFunction "extend_all_ttls" [] RetVoid.
Definition get_role_member : Function := mkFunction "get_role_member"
  [mkField "role" RSymbol; mkField "index" U32] (RetType RAddress).
Definition is_operation_done : Function := mkFunction "is_operation_done"
  [mkField "id" (RBytesN 32)] (RetType RBool).
Definition extend_op_time_ttl : Function := mkFunction "extend_op_time_ttl"
  [mkField "id" (RBytesN 32)] RetVoid.
Definition is_operation_ready : Function := mkFunction "is_operation_ready"
  [mkField "id" (RBytesN 32)] (RetType RBool).
Definition hash_operation_batch : Function := mkFunction "hash_operation_batch"
  [mkField "calls" (RNamed "Calls"); mkField "predecessor" (RBytesN 32);
   mkField "salt" (RBytesN 32)] (RetType (RBytesN 32)).
Definition is_operation_pending : Function := mkFunction "is_operation_pending"
  [mkField "id" (RBytesN 32)] (RetType RBool).
Definition get_role_member_count : Function := mkFunction "get_role_member_count"
  [mkField "role" RSymbol] (RetType U32).
Definition bypasser_execute_batch : Function := mkFunction "bypasser_execute_batch"
  [mkField "caller" RAddress; mkField "calls" (RNamed "Calls")] RetVoid.
Definition block_function_selector : Function := mkFunction "block_function_selector"
  [mkField "caller" RAddress; mkField "selector" RSymbol] RetVoid.
Definition get_blocked_selector_at : Function := mkFunction "get_blocked_selector_at"
  [mkField "index" U32] (RetType RSymbol).
Definition unblock_function_selector : Function := mkFunction "unblock_function_selector"
  [mkField "caller" RAddress; mkField "selector" RSymbol] RetVoid.
Definition get_blocked_selector_count : Function := mkFunction "get_blocked_selector_count" [] (RetType U32).

(** The contract; a type comes after those that it mentions. *)
Definition contract : Contract := mkContract "Timelock"
  [TStruct TokenAmount; TStruct GenericExtraArgsV3; TStruct AnyToStellarMessage; TStruct StellarToAnyMessage;
   TStruct Call; TStruct Calls; TEnum TimelockDataKey]
  [cancel; has_role; grant_role; initialize; revoke_role; is_operation; update_delay; execute_batch;
   get_min_delay; get_timestamp; renounce_role; schedule_batch; extend_all_ttls; get_role_member;
   is_operation_done; extend_op_time_ttl; is_operation_ready; hash_operation_batch; is_operation_pending;
   get_role_member_count; bypasser_execute_batch; block_function_selector; get_blocked_selector_at;
   unblock_function_selector; get_blocked_selector_count]
  [CCIPError; TimelockError]
  [CancelledEvent; RoleGrantedEvent; RoleRevokedEvent; CallExecutedEvent; CallScheduledEvent;
   MinDelayChangeEvent; BypasserCallExecutedEvent; FunctionSelectorBlockedEvent;
   FunctionSelectorUnblockedEvent].

(** ** The emitted code *)

Section client.
Context {UT : UnicodeTables} {XS : XdrSdk} (enumerate : list string → list string).
Definition types : string → option codec := package enumerate contract.

Definition TokenAmount_ToScVal : value → gres ScVal := toScVal (struct_codec types enumerate TokenAmount).
Definition TokenAmountFromScVal : ScVal → gres value := fromScVal (struct_codec types enumerate TokenAmount).
Definition GenericExtraArgsV3_ToScVal : value → gres ScVal := toScVal (struct_codec types enumerate GenericExtraArgsV3).
Definition GenericExtraArgsV3FromScVal : ScVal → gres value := fromScVal (struct_codec types enumerate GenericExtraArgsV3).
Definition AnyToStellarMessage_ToScVal : value → gres ScVal := toScVal (struct_codec types enumerate AnyToStellarMessage).
Definition AnyToStellarMessageFromScVal : ScVal → gres value := fromScVal (struct_codec types enumerate AnyToStellarMessage).
Definition StellarToAnyMessage_ToScVal : value → gres ScVal := toScVal (struct_codec types enumerate StellarToAnyMessage).
Definition StellarToAnyMessageFromScVal : ScVal → gres value := fromScVal (struct_codec types enumerate StellarToAnyMessage).
Definition Call_ToScVal : value → gres ScVal := toScVal (struct_codec types enumerate Call).
Definition CallFromScVal : ScVal → gres value := fromScVal (struct_codec types enumerate Call).
Definition Calls_ToScVal : value → gres ScVal := toScVal (struct_codec types enumerate Calls).
Definition CallsFromScVal : ScVal → gres value := fromScVal (struct_codec types enumerate Calls).
Definition TimelockDataKey_ToScVal : value → gres ScVal := toScVal (enum_codec types TimelockDataKey).
Definition TimelockDataKeyFromScVal : ScVal → gres value := fromScVal (enum_codec types TimelockDataKey).
Definition CCIPErrorMessage : Z → option string := error_message CCIPError.
Definition TimelockErrorMessage : Z → option string := error_message TimelockError.

(** The methods, on a client for the contract [contractID]. *)
Section methods.
Context {W : Type} {E : Type → Type} {IV : Invoker W E} (contractID : string).
Definition TimelockClient_Cancel : list value → prog W E (gres (list value)) :=
  Client.method types contractID cancel.
Definition TimelockClient_HasRole : list value → prog W E (gres (list value)) :=
  Client.method types contractID has_role.
Definition TimelockClient_GrantRole : list value → prog W E (gres (list value)) :=
  Client.method types contractID grant_role.
Definition TimelockClient_Initialize : list value → prog W E (gres (list value)) :=
  Client.method types contractID initialize.
Definition TimelockClient_RevokeRole : list value → prog W E (gres (list value)) :=
  Client.method types contractID revoke_role.
Definition TimelockClient_IsOperation : list value → prog W E (gres (list value)) :=
  Client.method types contractID is_operation.
Definition TimelockClient_UpdateDelay : list value → prog W E (gres (list value)) :=
  Client.method types contractID update_delay.
Definition TimelockClient_ExecuteBatch : list value → prog W E (gres (list value)) :=
  Client.method types contractID execute_batch.
Definition TimelockClient_GetMinDelay : list value → prog W E (gres (list value)) :=
  Client.method types contractID get_min_delay.
Definition TimelockClient_GetTimestamp : list value → prog W E (gres (list value)) :=
  Client.method types contractID get_timestamp.
Definition TimelockClient_RenounceRole : list value → prog W E (gres (list value)) :=
  Client.method types contractID renounce_role.
Definition TimelockClient_ScheduleBatch : list value → prog W E (gres (list value)) :=
  Client.method types contractID schedule_batch.
Definition TimelockClient_ExtendAllTtls : list value → prog W E (gres (list value)) :=
  Client.method types contractID extend_all_ttls.
Definition TimelockClient_GetRoleMember : list value → prog W E (gres (list value)) :=
  Client.method types contractID get_role_member.
Definition TimelockClient_IsOperationDone : list value → prog W E (gres (list value)) :=
  Client.method types contractID is_operation_done.
Definition TimelockClient_ExtendOpTimeTtl : list value → prog W E (gres (list value)) :=
  Client.method types contractID extend_op_time_ttl.
Definition TimelockClient_IsOperationReady : list value → prog W E (gres (list value)) :=
  Client.method types contractID is_operation_ready.
Definition TimelockClient_HashOperationBatch : list value → prog W E (gres (list value)) :=
  Client.method types contractID hash_operation_batch.
Definition TimelockClient_IsOperationPending : list value → prog W E (gres (list value)) :=
  Client.method types contractID is_operation_pending.
Definition TimelockClient_GetRoleMemberCount : list value → prog W E (gres (list value)) :=
  Client.method types contractID get_role_member_count.
Definition TimelockClient_BypasserExecuteBatch : list value → prog W E (gres (list value)) :=
  Client.method types contractID bypasser_execute_batch.
Definition TimelockClient_BlockFunctionSelector : list value → prog W E (gres (list value)) :=
  Client.method types contractID block_function_selector.
Definition TimelockClient_GetBlockedSelectorAt : list value → prog W E (gres (list value)) :=
  Client.method types contractID get_blocked_selector_at.
Definition TimelockClient_UnblockFunctionSelector : list value → prog W E (gres (list value)) :=
  Client.method types contractID unblock_function_selector.
Definition TimelockClient_GetBlockedSelectorCount : list value → prog W E (gres (list value)) :=
  Client.method types contractID get_blocked_selector_count.
End methods.

Definition ParseCancelledEvent := ParseEvent types CancelledEvent.
Definition WaitForCancelledEvent (contractID : string) := Client.WaitFor types contractID CancelledEvent.
Definition ParseRoleGrantedEvent := ParseEvent types RoleGrantedEvent.
Definition WaitForRoleGrantedEvent (contractID : string) := Client.WaitFor types contractID RoleGrantedEvent.
Definition ParseRoleRevokedEvent := ParseEvent types RoleRevokedEvent.
Definition WaitForRoleRevokedEvent (contractID : string) := Client.WaitFor types contractID RoleRevokedEvent.
Definition ParseCallExecutedEvent := ParseEvent types CallExecutedEvent.
Definition WaitForCallExecutedEvent (contractID : string) := Client.WaitFor types contractID CallExecutedEvent.
Definition ParseCallScheduledEvent := ParseEvent types CallScheduledEvent.
Definition WaitForCallScheduledEvent (contractID : string) := Client.WaitFor types contractID CallScheduledEvent.
Definition ParseMinDelayChangeEvent := ParseEvent types MinDelayChangeEvent.
Definition WaitForMinDelayChangeEvent (contractID : string) := Client.WaitFor types contractID MinDelayChangeEvent.
Definition ParseBypasserCallExecutedEvent := ParseEvent types BypasserCallExecutedEvent.
Definition WaitForBypasserCallExecutedEvent (contractID : string) := Client.WaitFor types contractID BypasserCallExecutedEvent.
Definition ParseFunctionSelectorBlockedEvent := ParseEvent types FunctionSelectorBlockedEvent.
Definition WaitForFunctionSelectorBlockedEvent (contractID : string) := Client.WaitFor types contractID FunctionSelectorBlockedEvent.
Definition ParseFunctionSelectorUnblockedEvent := ParseEvent types FunctionSelectorUnblockedEvent.
Definition WaitForFunctionSelectorUnblockedEvent (contractID : string) := Client.WaitFor types contractID FunctionSelectorUnblockedEvent.
End client.
