(* ===== verification/ContractsProps.v ===== *)
(** The generated bindings of the eighteen contracts. Module [Contracts]: what holds of all of
    their types, methods and events, by computation on the data in [CommitteeVerifierClient] to
    [TimelockClient]. Module [ContractsProps]: the theorems, with witnesses on concrete
    contracts. *)

From Stdlib Require Import Strings.Byte Ascii.
From stdpp Require Import base gmap list strings pretty.
From S2P Require Import Prelude GoStrings Prog Xdr ScVal GoBytes ScValProps TypeConverters.
From S2P Require Import Ccv Bindings DemoCcv BindingsProps Codec CodecProps Client ClientProps.
From S2P Require Import CommitteeVerifierClient FeeQuoterClient VersionedVerifierResolverClient OnRampClient.
From S2P Require Import RmnProxyClient RmnRemoteClient OffRampClient RouterClient RampRegistryClient.
From S2P Require Import ExampleCcipReceiverClient TokenAdminRegistryClient LockReleasePoolClient.
From S2P Require Import BurnMintPoolClient TokenPoolClient TokenLockBoxClient SiloedLockReleasePoolClient.
From S2P Require Import McmsClient TimelockClient.
Import Xdr ScValProps CodecProps Client ClientProps.

Local Open Scope Z_scope.

Module Contracts.

Definition contracts : list Contract := [
  CommitteeVerifierClient.contract; FeeQuoterClient.contract; VersionedVerifierResolverClient.contract;
  OnRampClient.contract; RmnProxyClient.contract; RmnRemoteClient.contract; OffRampClient.contract;
  RouterClient.contract; RampRegistryClient.contract; ExampleCcipReceiverClient.contract;
  TokenAdminRegistryClient.contract; LockReleasePoolClient.contract; BurnMintPoolClient.contract;
  TokenPoolClient.contract; TokenLockBoxClient.contract; SiloedLockReleasePoolClient.contract;
  McmsClient.contract; TimelockClient.contract].

(** ** What is checked of the data *)

Definition known (c : Contract) : string → bool := declared (rev (Types c)).
Definition struct_known (c : Contract) : string → bool := declared_struct (rev (Types c)).

(** Every type, method and event is one for which the templates emit code that compiles. *)
Definition supported (c : Contract) : bool :=
  package_ok c && forallb (function_ok (known c) (struct_known c)) (Functions c) &&
  forallb (event_ok (known c)) (Events c).

(** A Soroban symbol: at most 32 letters, digits and underscores. *)
Definition symbol_byte (b : ascii) : bool :=
  let n := N_of_ascii b in
  ((48 <=? n) && (n <=? 57) || (65 <=? n) && (n <=? 90) || (n =? 95) || (97 <=? n) && (n <=? 122))%N.
Definition is_symbol (s : string) : bool := (String.length s <=? 32)%nat && string_forall symbol_byte s.
(** The symbols that the emitted code of a contract writes: keys, tags, functions, topics. *)
Definition decl_symbols (d : TypeDecl) : list string :=
  match d with
  | TStruct s => fieldName <$> structFields s
  | TEnum e => variantName <$> Variants e
  end.
Definition symbols (c : Contract) : list string :=
  (Types c ≫= decl_symbols) ++ (functionName <$> Functions c) ++ (Events c ≫= Topics).

(** The codes of an enum of errors are distinct u32, and so are the values of an enum. *)
Definition codes_ok (codes : list Z) : bool := bool_decide (NoDup codes) && forallb is_uint32 codes.
Definition decl_codes_ok (d : TypeDecl) : bool :=
  match d with TStruct _ => true | TEnum e => negb (IsUnit e) || codes_ok (Value <$> Variants e) end.
Definition names_ok (c : Contract) : bool :=
  forallb is_symbol (symbols c) && forallb decl_codes_ok (Types c) &&
  forallb (λ e, codes_ok (snd <$> ErrorVariants e)) (Errors c) &&
  bool_decide (NoDup (Events c ≫= Topics)) && bool_decide (NoDup (functionName <$> Functions c)).

Lemma contracts_supported : forallb supported contracts = true.
Proof. by vm_compute. Qed.
Lemma contracts_names : forallb names_ok contracts = true.
Proof. by vm_compute. Qed.

Lemma supported_in c : c ∈ contracts →
  types_ok (rev (Types c)) = true ∧
  (∀ fn, fn ∈ Functions c → function_ok (known c) (struct_known c) fn = true) ∧
  (∀ ev, ev ∈ Events c → event_ok (known c) ev = true).
Proof.
  intros Hc. pose proof contracts_supported as H. rewrite forallb_forall in H.
  apply list_elem_of_In, H in Hc. apply andb_true_iff in Hc as [[Ht Hf]%andb_true_iff He].
  rewrite forallb_forall in Hf, He. split; [exact Ht|]. split; intros x Hx; [apply Hf|apply He]; by apply list_elem_of_In.
Qed.
End Contracts.

Import Xdr ScValProps CodecProps Client ClientProps Contracts.

Module ContractsProps.

Section contracts.
Context {UT : UnicodeTables} {XS : XdrSdk} {XL : XdrLaws}.

(** The values of a contract's types. *)
Definition named_in (c : Contract) : string → value → Prop := value_typed (rev (Types c)).
(** The type [d] of the contract [c], as its package has it. *)
Definition generated (enumerate : list string → list string) (c : Contract) (d : TypeDecl) : codec :=
  decl_codec (package enumerate c) enumerate d.
(** An order of enumeration of a map's keys. *)
Definition enumerates (enumerate : list string → list string) : Prop := ∀ l, enumerate l ≡ₚ l.

Lemma elem_of_rev {A} (x : A) l : x ∈ l → x ∈ rev l.
Proof. rewrite !list_elem_of_In. apply in_rev. Qed.
Lemma named_env enumerate c : c ∈ contracts → enumerates enumerate →
  ∀ n v, known c n = true → named_in c n v → ∃ k, package enumerate c n = Some k ∧ roundtrips k v.
Proof. intros Hc He n v _ Hv. destruct (supported_in c Hc) as [Ht _]. by apply types_roundtrip. Qed.
Lemma safe_env enumerate c : c ∈ contracts →
  ∀ n, known c n = true → ∃ k, package enumerate c n = Some k ∧ safe k.
Proof. intros Hc n Hn. destruct (supported_in c Hc) as [Ht _]. by apply types_safe. Qed.
Lemma struct_env enumerate c : c ∈ contracts → ∀ n, struct_known c n = true →
  known c n = true ∧ ∃ k, package enumerate c n = Some k ∧ isStruct k = true ∧ ∀ v, toScVal k v ≠ GVal ScvVoid.
Proof.
  intros Hc n Hn. destruct (supported_in c Hc) as [Ht _]. split; [|by apply types_struct].
  unfold struct_known, declared_struct in Hn. rewrite existsb_exists in Hn. destruct Hn as ([s|e] & Hin & Hs); [|done].
  apply bool_decide_eq_true in Hs as <-. apply bool_decide_eq_true, list_elem_of_fmap.
  exists (TStruct s). split; [done|]. by apply list_elem_of_In.
Qed.

(** The codec that the package has for the type behaves as the type's emitted code. *)
Lemma generated_named enumerate c d : c ∈ contracts → d ∈ Types c →
  ∃ k, package enumerate c (decl_name d) = Some k ∧ codec_eq k (generated enumerate c d).
Proof.
  intros Hc Hd. destruct (supported_in c Hc) as [Ht _]. apply types_rev_decl; [done|].
  by apply elem_of_rev.
Qed.

(** C34. The generated types survive the wire. For every struct and enum of every contract and
    every value of its Go type (addresses are strkeys, one variant of an enum is set),
    [ToScVal] returns a value that does not depend on the order in which Go enumerates maps,
    and [FromScVal] reads the value back from it. *)
Theorem generated_types_roundtrip c d v enumerate enumerate' :
  c ∈ contracts → d ∈ Types c → named_in c (decl_name d) v → enumerates enumerate → enumerates enumerate' →
  ∃ sc, toScVal (generated enumerate c d) v = GVal sc ∧ toScVal (generated enumerate' c d) v = GVal sc ∧
    fromScVal (generated enumerate' c d) sc = GVal v.
Proof.
  intros Hc Hd Hv He He'. destruct (supported_in c Hc) as [Ht _].
  assert (declared (rev (Types c)) (decl_name d) = true) as Hn.
  { apply bool_decide_eq_true, list_elem_of_fmap. exists d. split; [done|]. by apply elem_of_rev. }
  destruct (named_env enumerate' c Hc He' _ v Hn Hv) as (k' & Hk' & sc & Hto & Hfrom).
  destruct (types_order_irrelevant enumerate enumerate' (rev (Types c)) (decl_name d)) as (k1 & k2 & E1 & E2 & Heq);
    [intros l; by rewrite (He l), (He' l)|done..|].
  destruct (generated_named enumerate c d Hc Hd) as (g & Hg & Hgeq).
  destruct (generated_named enumerate' c d Hc Hd) as (g' & Hg' & Hgeq').
  unfold package in *. simplify_eq. exists sc. rewrite <- (eq_to _ _ Hgeq), <- (eq_to _ _ Hgeq'), <- (eq_from _ _ Hgeq').
  by rewrite (eq_to _ _ Heq).
Qed.

(** C36. No generated reader panics on a value that came off the wire: neither [FromScVal] of
    any type, nor what a method makes of the contract's answer, nor the parser of any event. *)
Theorem generated_readers_never_panic c enumerate :
  c ∈ contracts →
  (∀ d sc, d ∈ Types c → valid sc = true → panics (fromScVal (generated enumerate c d) sc) = false) ∧
  (∀ fn result, fn ∈ Functions c → match result with Some sc => valid sc = true | None => True end →
     panics (results_of (package enumerate c) fn result) = false) ∧
  (∀ ev e, ev ∈ Events c → panics (ParseEvent (package enumerate c) ev e) = false).
Proof.
  intros Hc. destruct (supported_in c Hc) as (Ht & Hf & He). split_and!.
  - intros d sc Hd Hsc. destruct (generated_named enumerate c d Hc Hd) as (k & Hk & Heq).
    assert (known c (decl_name d) = true) as Hn.
    { apply bool_decide_eq_true, list_elem_of_fmap. exists d. split; [done|]. by apply elem_of_rev. }
    destruct (safe_env enumerate c Hc _ Hn) as (k' & Hk' & Hs). simplify_eq.
    rewrite <- (eq_from _ _ Heq). by apply Hs.
  - intros fn result Hfn Hr. eapply results_safe; [by apply safe_env|by apply struct_env|by apply Hf|done].
  - intros ev e Hev. eapply event_safe; [by apply safe_env|by apply He].
Qed.

(** C35. A generated method makes exactly one call, of the function that it is named after, on the
    client's contract: a simulation when the name says that the function only reads, a
    transaction otherwise. The arguments on the wire read back as the given ones, and the
    method returns what the answer decodes to, or the call's error with the function's name. *)
Theorem generated_method_one_call {W E} {IV : Invoker W E} c fn vs enumerate contractID :
  c ∈ contracts → fn ∈ Functions c → enumerates enumerate → fields_typed (named_in c) (Inputs fn) vs →
  ∃ args, carries (package enumerate c) (Inputs fn) vs args ∧
    method (package enumerate c) contractID fn vs =
      (result <-? gctx ("failed to call " +:+ functionName fn)
                    ((if isReadOnlyFunction fn then SimulateCall else Invoke) contractID (functionName fn) args);
       Ret (results_of (package enumerate c) fn result)).
Proof.
  intros Hc Hfn He Hv. destruct (supported_in c Hc) as (_ & Hf & _). specialize (Hf fn Hfn).
  unfold function_ok in Hf. apply andb_true_iff in Hf as [Hin _].
  exact (method_one_call _ _ _ (named_env enumerate c Hc He) contractID fn vs Hin Hv).
Qed.

(** What a contract returns is what the method returns: for any results of a function's
    types there is an answer that carries them, and from an answer that carries them the
    method decodes these results; a missing answer is an error unless the function returns
    nothing. *)
Theorem generated_results_roundtrip c fn vs enumerate :
  c ∈ contracts → fn ∈ Functions c → enumerates enumerate → replies_typed (named_in c) fn vs →
  (∃ result, answers (package enumerate c) fn vs result) ∧
  (∀ result, answers (package enumerate c) fn vs result →
     results_of (package enumerate c) fn result = GVal vs) ∧
  (Returns fn ≠ RetVoid →
     results_of (package enumerate c) fn None = GErr ("no return value from " +:+ functionName fn)).
Proof.
  intros Hc Hfn He Hv. destruct (supported_in c Hc) as (_ & Hf & _).
  destruct (results_roundtrip _ _ _ _ (named_env enumerate c Hc He) (struct_env enumerate c Hc) fn vs (Hf fn Hfn) Hv)
    as [Hex Hall].
  split; [done|]. split; [done|]. unfold results_of. by destruct (Returns fn).
Qed.

(** A parsed event has the emitted fields, whatever the order of the entries, with the
    ledger and the transaction of the event; and an event whose value is a map is never
    rejected, whatever its entries hold. *)
Theorem generated_event_parsed c ev enumerate e :
  c ∈ contracts → ev ∈ Events c → enumerates enumerate →
  (∀ vs kvs, fields_typed (named_in c) (eventFields ev) vs → emits (package enumerate c) (eventFields ev) vs kvs →
     UnmarshalScVal (TypeConverters.peValueXDR e) =
       Ok (ScvMap (Some (Some (prod_map ScVal.SymbolToScVal id <$> kvs)))) →
     ParseEvent (package enumerate c) ev e =
       GVal (vs, uint32 (TypeConverters.peLedger e), TypeConverters.peTransactionHash e)) ∧
  (∀ l, UnmarshalScVal (TypeConverters.peValueXDR e) = Ok (ScvMap (Some (Some l))) →
     ∃ vs, ParseEvent (package enumerate c) ev e =
       GVal (vs, uint32 (TypeConverters.peLedger e), TypeConverters.peTransactionHash e)).
Proof.
  intros Hc Hev He. destruct (supported_in c Hc) as (_ & _ & Hok). specialize (Hok ev Hev). split.
  - intros vs kvs Hv Hk Hu. by eapply event_parsed; [apply named_env|..].
  - intros l Hl. by eapply event_defined; [apply safe_env|..].
Qed.

(** Waiting for an event returns the first wanted one: the first event, of the last listing
    of the contract's events with the topic, that parses and passes the filter; no earlier
    listing had one. *)
Theorem generated_wait_first env ev contractID filter fuel startLedger timeout topic :
  head (Topics ev) = Some topic →
  traced (WaitFor env contractID ev fuel startLedger timeout filter) tt []
    (λ r _ h, wait_result env contractID ev filter startLedger topic r h).
Proof. apply wait_first. Qed.

(** C37. Waiting for an event ends: when the clock advances by at least [period] from a turn of the
    loop to the next and listings do not panic, it returns (an event, the timeout or the
    context's error) within [timeout / period + 2] turns. *)
Theorem generated_wait_ends c ev enumerate contractID filter startLedger timeout
    (answer : oracle (E := wait_ext)) period :
  c ∈ contracts → ev ∈ Events c → 0 <= timeout → 0 < period →
  (∀ i j, (i <= j)%nat → answer Z i Now <= answer Z j Now) →
  (∀ i j, (i + 3 <= j)%nat → answer Z i Now + period <= answer Z j Now) →
  (∀ n id start topics, panics (answer _ n (GetEvents id start topics)) = false) →
  ∃ r n, run answer (WaitFor (package enumerate c) contractID ev (Z.to_nat (timeout / period) + 2)
                       startLedger timeout filter) 0 tt = (Done (Some r), n, tt).
Proof.
  intros Hc Hev Ht Hp Hmono Hclock Hlist. destruct (supported_in c Hc) as (_ & _ & Hok). specialize (Hok ev Hev).
  rewrite Nat.add_succ_r. eapply wait_ends with (period := period); try done.
  - intros e. eapply event_safe; [by apply safe_env|done].
  - unfold event_ok in Hok. apply andb_true_iff in Hok as [_ Hok]. apply negb_true_iff, bool_decide_eq_false in Hok. done.
  - rewrite Nat2Z.inj_add, Z2Nat.id by (by apply Z.div_pos). pose proof (Z.div_mod timeout period). 
    pose proof (Z.mod_pos_bound timeout period Hp). nia.
Qed.

Lemma error_message_found (e : ErrorEnum) name code :
  NoDup (snd <$> ErrorVariants e) → (name, code) ∈ ErrorVariants e →
  error_message e code = Some (camelToSpaces name).
Proof.
  intros Hnd (i & Hi)%list_elem_of_lookup. unfold error_message.
  destruct (list_find (λ v : string * Z, snd v = code) (ErrorVariants e)) as [[j [n z]]|] eqn:Hf.
  - apply list_find_Some in Hf as (Hj & Hz & _). cbn in Hz. subst z.
    assert (i = j) as ->; [|rewrite Hi in Hj; by injection Hj as ->].
    eapply NoDup_lookup; [exact Hnd|by rewrite list_lookup_fmap, Hi|by rewrite list_lookup_fmap, Hj].
  - apply list_find_None in Hf. rewrite Forall_forall in Hf.
    by destruct (Hf (name, code)); [by eapply list_elem_of_lookup_2|].
Qed.

(** The names and the codes of the contracts. Every key, tag, function name and topic that
    the generated code writes is a Soroban symbol (at most 32 letters, digits and
    underscores); the values of an enum and the codes of an error are distinct u32, and each
    code has the message of its name; a contract's events have distinct topics, so that a
    listener's filter selects one kind of event. *)
Theorem generated_names c :
  c ∈ contracts →
  (∀ s, s ∈ symbols c → is_symbol s = true) ∧
  (∀ e, TEnum e ∈ Types c → IsUnit e = true → NoDup (Value <$> Variants e)) ∧
  (∀ e name code, e ∈ Errors c → (name, code) ∈ ErrorVariants e →
     is_uint32 code = true ∧ error_message e code = Some (camelToSpaces name)) ∧
  NoDup (Events c ≫= Topics) ∧ NoDup (functionName <$> Functions c).
Proof.
  intros Hc. pose proof contracts_names as H. rewrite forallb_forall in H. apply list_elem_of_In, H in Hc.
  unfold names_ok in Hc. rewrite !andb_true_iff, !forallb_forall, !bool_decide_eq_true in Hc.
  destruct Hc as ((((Hs & Hd) & He) & Ht) & Hf). split_and!; try done.
  - intros s Hin. by apply Hs, list_elem_of_In.
  - intros e Hin Hu. apply list_elem_of_In, Hd in Hin. cbn in Hin. rewrite Hu in Hin. cbn [negb orb] in Hin.
    by apply andb_true_iff in Hin as [Hin%bool_decide_eq_true _].
  - intros e name code Hin Hv. apply list_elem_of_In, He in Hin. apply andb_true_iff in Hin as [Hnd%bool_decide_eq_true Hr].
    split; [|by apply error_message_found]. rewrite forallb_forall in Hr. apply Hr, list_elem_of_In.
    apply list_elem_of_fmap. by exists (name, code).
Qed.

(** ** The bindings of the OffRamp and the RMN Remote, translated by hand *)

(** Programs that always run in the same way. *)
Definition same_run {W E A} (p q : prog W E A) : Prop := ∀ answer n w, run answer p n w = run answer q n w.
Lemma same_run_bind {W E A B} (p : prog W E A) (f g : A → prog W E B) :
  (∀ a, same_run (f a) (g a)) → same_run (p ≫= f) (p ≫= g).
Proof.
  intros Hfg answer. unfold mbind, prog_mbind.
  induction p as [a|m|X h k IH|X h k IH|X e k IH]; intros n w; cbn [prog_bind run].
  - apply Hfg.
  - done.
  - destruct (h w) as [x w']. apply IH.
  - destruct (h w) as [[x w']|]; [apply IH|done].
  - apply IH.
Qed.

Lemma same_run_assoc {W E A B C} (p : prog W E A) (f : A → prog W E B) (g : B → prog W E C) :
  same_run ((p ≫= f) ≫= g) (p ≫= λ a, f a ≫= g).
Proof.
  intros answer. unfold mbind, prog_mbind.
  induction p as [a|m|X h k IH|X h k IH|X e k IH]; intros n w; cbn [prog_bind run].
  - done.
  - done.
  - destruct (h w) as [x w']. apply IH.
  - destruct (h w) as [[x w']|]; [apply IH|done].
  - apply IH.
Qed.
(** The results of a program, as values. *)
Definition with_results {W E A} (e : A → list value) (p : prog W E (gres A)) : prog W E (gres (list value)) :=
  p ≫= λ x, Ret (fmap (M := gres) e x).
(** A method written out, and the template: the same call, and results that correspond. *)
Lemma method_agrees {W E A} (p : prog W E (gres (option ScVal))) ctx (e : A → list value)
    (k : option ScVal → prog W E (gres A)) (k' : option ScVal → gres (list value)) :
  (∀ r, same_run (with_results e (k r)) (Ret (k' r))) →
  same_run (with_results e (r <-? gctx ctx p; k r)) (r <-? gctx ctx p; Ret (k' r)).
Proof.
  intros Hk answer n w. unfold gthen, with_results. rewrite (same_run_assoc (gctx ctx p) _ _ answer n w).
  apply same_run_bind. intros [r|err|m] a i w'; [apply Hk|done..].
Qed.

Lemma gimapM_fmap {A B C} (f : nat → A → gres B) (g : B → C) l :
  gimapM (λ i x, fmap (M := gres) g (f i x)) l = fmap (M := gres) (fmap (M := list) g) (gimapM f l).
Proof.
  unfold gimapM. generalize 0%nat as i. induction l as [|x l IH]; intros i; [done|]. cbn [gimapM_from].
  destruct (f i x); cbn [fmap gres_fmap mbind gres_bind]; try done. rewrite IH.
  by destruct (gimapM_from f (S i) l).
Qed.
Lemma mapM_inj {A} (inj : A → value) (proj : value → option A) l :
  (∀ a, proj (inj a) = Some a) → mapM proj (inj <$> l) = Some l.
Proof. intros Hp. induction l as [|a l IH]; [done|]. cbn. rewrite Hp. cbn. by rewrite IH. Qed.

(** The loops over entries, when their switches correspond. *)
Lemma for_entries_embed {S T} (embed : S → T) (f : string → ScVal → S → gres S) (g : string → ScVal → T → gres T) l s :
  (∀ k v s, g k v (embed s) = fmap (M := gres) embed (f k v s)) →
  for_entries g l (embed s) = fmap (M := gres) embed (for_entries f l s).
Proof.
  intros Hfg. revert s. induction l as [|[k v] l IH]; intros s; [done|]. cbn [for_entries].
  destruct (GetSym k) as [[key|]| |]; cbn [mbind gres_bind]; [|apply IH|done..].
  rewrite Hfg. destruct (f key v s) as [s'| |]; cbn [fmap gres_fmap mbind gres_bind]; [apply IH|done..].
Qed.

Definition config_fields (c : OffRamp.SourceChainConfig) : list value :=
  [VSlice (VString <$> OffRamp.DefaultCcvs c); VBool (OffRamp.IsEnabled c);
   VSlice (VString <$> OffRamp.LaneMandatedCcvs c); VSlice (VBytes <$> OffRamp.OnRamps c);
   VString (OffRamp.Router c)].

Lemma config_to_agrees enumerate c :
  OffRampClient.SourceChainConfig_ToScVal enumerate (VStruct (config_fields c)) =
  OffRamp.SourceChainConfig_ToScVal (enumerate (fieldName <$> structFields OffRampClient.SourceChainConfig)) c.
Proof.
  unfold OffRampClient.SourceChainConfig_ToScVal, config_fields. cbn [struct_codec toScVal struct_to].
  cbn [structFields OffRampClient.SourceChainConfig struct_fields fieldType fieldName to_field].
  unfold strings_of, blobs_of. rewrite !mapM_inj by done. done.
Qed.

Lemma addresses_agree env l :
  fmap (M := gres) VSlice (gimapM (λ _ : nat, from_item env RAddress) l) =
  fmap (M := gres) (λ l, VSlice (VString <$> l)) (OffRamp.addresses_of l).
Proof.
  unfold OffRamp.addresses_of.
  change (gimapM (λ _ : nat, from_item env RAddress) l)
    with (gimapM (λ (_ : nat) item, fmap (M := gres) VString (ScVal.AddressFromScVal item)) l).
  rewrite (gimapM_fmap (λ _ item, ScVal.AddressFromScVal item) VString l).
  by destruct (gimapM _ l).
Qed.
Lemma blobs_agree env l :
  fmap (M := gres) VSlice (gimapM (λ _ : nat, from_item env RBytes) l) =
  fmap (M := gres) (λ l, VSlice (VBytes <$> l))
    (gimapM (λ _ item, b ← GetBytes item; nonnil "vec item is not bytes" b) l).
Proof.
  assert (gimapM (λ _ : nat, from_item env RBytes) l =
          gimapM (λ _ item, fmap (M := gres) VBytes (b ← GetBytes item; nonnil "vec item is not bytes" b)) l) as ->.
  { apply gimapM_ext. intros _ x. cbn [from_item]. by destruct (GetBytes x). }
  rewrite (gimapM_fmap (λ _ item, b ← GetBytes item; nonnil "vec item is not bytes" b) VBytes l).
  by destruct (gimapM _ l).
Qed.

Lemma config_from_agrees enumerate sc :
  OffRampClient.SourceChainConfigFromScVal enumerate sc =
  fmap (M := gres) (VStruct ∘ config_fields) (OffRamp.SourceChainConfigFromScVal sc).
Proof.
  unfold OffRampClient.SourceChainConfigFromScVal, OffRamp.SourceChainConfigFromScVal.
  cbn [struct_codec fromScVal]. unfold struct_from.
  destruct (got_map "not a map type" sc) as [l| |]; [|done..]. cbn [mbind gres_bind].
  change (struct_zero _ _) with (config_fields OffRamp.zeroSourceChainConfig).
  rewrite (for_entries_embed config_fields OffRamp.SourceChainConfig_field);
    [by destruct (for_entries _ l _)|].
  intros k v [d e m o r]. unfold struct_switch, OffRamp.SourceChainConfig_field, config_fields.
  cbn [structFields OffRampClient.SourceChainConfig fields_switch fieldType fieldName from_field
       OffRamp.DefaultCcvs OffRamp.IsEnabled OffRamp.LaneMandatedCcvs OffRamp.OnRamps OffRamp.Router].
  case_decide; [|case_decide; [|case_decide; [|case_decide; [|case_decide; [|done]]]]].
  all: try (change ("default_ccvs" +:+ " is not a vec") with "default_ccvs is not a vec";
            change ("lane_mandated_ccvs" +:+ " is not a vec") with "lane_mandated_ccvs is not a vec";
            change ("on_ramps" +:+ " is not a vec") with "on_ramps is not a vec").
  - destruct (got_vec _ v) as [w| |]; try done. cbn [mbind gres_bind].
    rewrite addresses_agree. by destruct (OffRamp.addresses_of w).
  - by destruct (GetB v) as [[]| |].
  - destruct (got_vec _ v) as [w| |]; try done. cbn [mbind gres_bind].
    rewrite addresses_agree. by destruct (OffRamp.addresses_of w).
  - destruct (got_vec _ v) as [w| |]; try done. cbn [mbind gres_bind].
    rewrite blobs_agree. by destruct (gimapM _ w).
  - by destruct (ScVal.AddressFromScVal v).
Qed.

Definition event_values (e : OffRamp.ExecutionStateChangedEvent) : list value :=
  [VNum (OffRamp.escSourceChainSelector e); VNum (OffRamp.escSequenceNumber e);
   VBytes (OffRamp.escMessageId e); VNum (OffRamp.escState e); VBytes (OffRamp.escReturnData e)].
Lemma event_agrees enumerate e :
  OffRampClient.ParseExecutionStateChangedEvent enumerate e =
  fmap (M := gres) (λ r, (event_values r, OffRamp.escLedger r, OffRamp.escTxHash r))
    (OffRamp.ParseExecutionStateChangedEvent e).
Proof.
  unfold OffRampClient.ParseExecutionStateChangedEvent, ParseEvent, OffRamp.ParseExecutionStateChangedEvent.
  destruct (gwrap _ _) as [v| |]; try done. cbn [mbind gres_bind].
  destruct (got_map _ v) as [l| |]; try done. cbn [mbind gres_bind].
  set (led := uint32 _). set (tx := TypeConverters.peTransactionHash e). clearbody led tx.
  set (s0 := OffRamp.mkExecutionStateChanged 0 0 (replicate 32 x00) 0 [] led tx).
  assert (for_entries (event_switch (OffRampClient.types enumerate) (eventFields OffRampClient.ExecutionStateChangedEvent)) l
            (struct_zero (OffRampClient.types enumerate) (eventFields OffRampClient.ExecutionStateChangedEvent))
          = fmap (M := gres) event_values (for_entries OffRamp.ExecutionStateChanged_field l s0)) as ->.
  { change (struct_zero _ _) with (event_values s0). apply for_entries_embed.
    intros k w [c n i st d led' tx']. unfold event_switch, OffRamp.ExecutionStateChanged_field, event_values.
    cbn [eventFields OffRampClient.ExecutionStateChangedEvent fields_switch fieldType fieldName event_field from_field
      OffRamp.escSourceChainSelector OffRamp.escSequenceNumber OffRamp.escMessageId OffRamp.escState OffRamp.escReturnData].
    case_decide; [|case_decide; [|case_decide; [|case_decide; [|case_decide; [|done]]]]].
    - by destruct (ScVal.Uint64FromScVal w).
    - by destruct (ScVal.Uint64FromScVal w).
    - change (fixed_from 32 w) with (fmap (M := gres) VBytes (ScVal.Bytes32FromScVal w)).
      by destruct (ScVal.Bytes32FromScVal w).
    - change (named_from (OffRampClient.types enumerate) "MessageExecutionState" w)
        with (v ← GetU32 w; VNum <$> nonnil "expected u32 for MessageExecutionState enum" v).
      unfold OffRamp.MessageExecutionStateFromScVal. by destruct (GetU32 w) as [[]| |].
    - by destruct (GetBytes w) as [[]| |]. }
  assert (∀ s s', for_entries OffRamp.ExecutionStateChanged_field l s = GVal s' →
            OffRamp.escLedger s' = OffRamp.escLedger s ∧ OffRamp.escTxHash s' = OffRamp.escTxHash s) as Hkeep.
  { clear. induction l as [|[k w] l IH]; intros s s'; cbn [for_entries]; [by intros [= ->]|].
    intros (key & _ & (s1 & Hs1 & Hl)%gbind_GVal)%gbind_GVal. apply IH in Hl as [-> ->].
    destruct key as [key|]; [|by injection Hs1 as ->]. destruct s as [c n i st d led' tx'].
    unfold OffRamp.ExecutionStateChanged_field in Hs1.
    repeat (case_decide; [apply gbind_GVal in Hs1 as (x & _ & [= <-]); done|]). by injection Hs1 as <-. }
  destruct (for_entries OffRamp.ExecutionStateChanged_field l s0) as [s'| |] eqn:Hs; try done.
  destruct (Hkeep _ _ Hs) as [Hled Htx]. cbn. by rewrite Hled, Htx.
Qed.

(** Two translations of the OffRamp's and the RMN Remote's bindings agree: the one written out
    from the Go files, which the [ccv] components call, and the generator's templates on the
    contract's data. The lane configuration is written and read in the same way, the event
    is parsed in the same way, and each method runs in the same way against any invoker. *)
Theorem bindings_agree {W E} {IV : Invoker W E} enumerate id :
  (∀ c, OffRampClient.SourceChainConfig_ToScVal enumerate (VStruct (config_fields c)) =
          OffRamp.SourceChainConfig_ToScVal (enumerate (fieldName <$> structFields OffRampClient.SourceChainConfig)) c) ∧
  (∀ sc, OffRampClient.SourceChainConfigFromScVal enumerate sc =
           fmap (M := gres) (VStruct ∘ config_fields) (OffRamp.SourceChainConfigFromScVal sc)) ∧
  (∀ e, OffRampClient.ParseExecutionStateChangedEvent enumerate e =
          fmap (M := gres) (λ r, (event_values r, OffRamp.escLedger r, OffRamp.escTxHash r))
            (OffRamp.ParseExecutionStateChangedEvent e)) ∧
  (∀ msg ccvs results gas,
     same_run (with_results (λ _, []) (OffRamp.Execute id msg ccvs results gas))
       (OffRampClient.OffRampClient_Execute enumerate id
          [VBytes msg; VSlice (VString <$> ccvs); VSlice (VBytes <$> results); VNum gas])) ∧
  (∀ messageId,
     same_run (with_results (λ st, [VNum st]) (OffRamp.GetExecutionState id messageId))
       (OffRampClient.OffRampClient_GetExecutionState enumerate id [VBytes messageId])) ∧
  (∀ selector,
     same_run (with_results (λ c, [VStruct (config_fields c)]) (OffRamp.GetSourceChainConfig id selector))
       (OffRampClient.OffRampClient_GetSourceChainConfig enumerate id [VNum selector])) ∧
  same_run (with_results (λ l, [VSlice (VBytes <$> l)]) (RmnRemote.GetCursedSubjects id))
    (RmnRemoteClient.RmnRemoteClient_GetCursedSubjects enumerate id []).
Proof.
  split; [apply config_to_agrees|]. split; [apply config_from_agrees|]. split; [apply event_agrees|]. split_and!.
  - intros msg ccvs results gas. unfold OffRampClient.OffRampClient_Execute, method.
    cbn [Inputs OffRampClient.execute args_to to_arg to_field fieldType].
    unfold strings_of, blobs_of. rewrite !mapM_inj by done. apply method_agrees. by intros r answer n w.
  - intros messageId. apply method_agrees. intros [v|] answer n w; [|done].
    change (results_of _ _ (Some v)) with
      (x ← (v ← GetU32 v; fmap (M := gres) VNum (nonnil "expected u32 for MessageExecutionState enum" v)); GVal [x]).
    unfold with_results, OffRamp.MessageExecutionStateFromScVal. by destruct (GetU32 v) as [[]| |].
  - intros selector. apply method_agrees. intros [v|] answer n w; [|done].
    unfold with_results. cbn [mbind prog_mbind prog_bind run].
    assert (results_of (OffRampClient.types enumerate) OffRampClient.get_source_chain_config (Some v)
            = fmap (M := gres) (λ c, [VStruct (config_fields c)]) (OffRamp.SourceChainConfigFromScVal v)) as <-; [|done].
    change (results_of _ _ (Some v)) with (x ← OffRampClient.SourceChainConfigFromScVal enumerate v; GVal [x]).
    rewrite config_from_agrees. by destruct (OffRamp.SourceChainConfigFromScVal v).
  - apply method_agrees. intros [v|] answer n w; [|done]. unfold with_results, RmnRemote.cursed_subjects_of.
    cbn [mbind prog_mbind prog_bind run]. do 3 f_equal.
    change (results_of _ _ (Some v)) with
      (x ← (l ← got_vec "expected vec return type" v;
            fmap (M := gres) VSlice (gimapM (λ (_ : nat) item, fmap (M := gres) VBytes (ScVal.Bytes16FromScVal item)) l));
       GVal [x]).
    destruct (got_vec _ v) as [l| |]; try done. cbn [mbind gres_bind].
    rewrite (gimapM_fmap (λ _ item, ScVal.Bytes16FromScVal item) VBytes l). by destruct (gimapM _ l).
Qed.
End contracts.

(** ** Witnesses: the OffRamp *)

Import DemoCcv BindingsProps.

Definition any_order : list string → list string := reverse.
Lemma any_order_enumerates : enumerates any_order.
Proof. exact (λ l, reverse_Permutation l). Qed.
Definition same_order : list string → list string := id.

Lemma offramp_in : OffRampClient.contract ∈ contracts.
Proof. do 6 apply list_elem_of_further. apply list_elem_of_here. Qed.
Definition demo_config : value := VStruct (config_fields demo_lane).
Lemma demo_config_typed named : decl_typed named (TStruct OffRampClient.SourceChainConfig) demo_config.
Proof.
  exists (config_fields demo_lane). split; [done|].
  repeat constructor; cbn; repeat constructor; apply demo_ccv_strkey.
Qed.
Lemma config_in : TStruct OffRampClient.SourceChainConfig ∈ Types OffRampClient.contract.
Proof. do 7 apply list_elem_of_further. apply list_elem_of_here. Qed.

Lemma generated_types_roundtrip_witness :
  let codec order := generated order OffRampClient.contract (TStruct OffRampClient.SourceChainConfig) in
  ∃ sc, toScVal (codec any_order) demo_config = GVal sc ∧ toScVal (codec same_order) demo_config = GVal sc ∧
    fromScVal (codec same_order) sc = GVal demo_config.
Proof.
  apply (generated_types_roundtrip OffRampClient.contract (TStruct OffRampClient.SourceChainConfig) demo_config
           any_order same_order).
  - apply offramp_in.
  - apply config_in.
  - exact (demo_config_typed _).
  - apply any_order_enumerates.
  - intros l. apply Permutation_refl.
Defined.

Lemma generated_readers_never_panic_witness :
  (∀ d sc, d ∈ Types OffRampClient.contract → valid sc = true →
     panics (fromScVal (generated any_order OffRampClient.contract d) sc) = false) ∧
  (∀ fn result, fn ∈ Functions OffRampClient.contract → match result with Some sc => valid sc = true | None => True end →
     panics (results_of (package any_order OffRampClient.contract) fn result) = false) ∧
  (∀ ev e, ev ∈ Events OffRampClient.contract → panics (ParseEvent (package any_order OffRampClient.contract) ev e) = false).
Proof. apply generated_readers_never_panic. apply offramp_in. Defined.

Lemma get_config_in : OffRampClient.get_source_chain_config ∈ Functions OffRampClient.contract.
Proof. do 17 apply list_elem_of_further. apply list_elem_of_here. Qed.

Lemma generated_method_one_call_witness :
  ∃ args, carries (package any_order OffRampClient.contract) (Inputs OffRampClient.get_source_chain_config) [VNum 7] args ∧
    method (W := unit) (E := ccv_ext) (package any_order OffRampClient.contract) "id"
        OffRampClient.get_source_chain_config [VNum 7] =
      (result <-? gctx "failed to call get_source_chain_config"
                    (SimulateCall "id" "get_source_chain_config" args);
       Ret (results_of (package any_order OffRampClient.contract) OffRampClient.get_source_chain_config result)).
Proof.
  apply (generated_method_one_call OffRampClient.contract OffRampClient.get_source_chain_config [VNum 7] any_order "id").
  - apply offramp_in.
  - apply get_config_in.
  - apply any_order_enumerates.
  - repeat constructor.
Defined.

Lemma generated_results_roundtrip_witness :
  (∃ result, answers (package any_order OffRampClient.contract) OffRampClient.get_source_chain_config [demo_config] result) ∧
  (∀ result, answers (package any_order OffRampClient.contract) OffRampClient.get_source_chain_config [demo_config] result →
     results_of (package any_order OffRampClient.contract) OffRampClient.get_source_chain_config result = GVal [demo_config]) ∧
  (Returns OffRampClient.get_source_chain_config ≠ RetVoid →
     results_of (package any_order OffRampClient.contract) OffRampClient.get_source_chain_config None =
       GErr "no return value from get_source_chain_config").
Proof.
  apply (generated_results_roundtrip OffRampClient.contract OffRampClient.get_source_chain_config [demo_config] any_order).
  - apply offramp_in.
  - apply get_config_in.
  - apply any_order_enumerates.
  - exists demo_config. split; [done|]. exact (demo_config_typed _).
Defined.

Lemma state_changed_in : OffRampClient.ExecutionStateChangedEvent ∈ Events OffRampClient.contract.
Proof. do 7 apply list_elem_of_further. apply list_elem_of_here. Qed.

Definition demo_event : TypeConverters.protocol_EventInfo :=
  TypeConverters.mkProtocolEvent "contract" 9 "" "id" "1" 0 0 "tx" ["topic"] "executed".
Lemma generated_event_parsed_witness :
  (∀ vs kvs, fields_typed (named_in OffRampClient.contract) (eventFields OffRampClient.ExecutionStateChangedEvent) vs →
     emits (package any_order OffRampClient.contract) (eventFields OffRampClient.ExecutionStateChangedEvent) vs kvs →
     UnmarshalScVal "executed" = Ok (ScvMap (Some (Some (prod_map ScVal.SymbolToScVal id <$> kvs)))) →
     ParseEvent (package any_order OffRampClient.contract) OffRampClient.ExecutionStateChangedEvent demo_event =
       GVal (vs, uint32 9, "tx")) ∧
  (∀ l, UnmarshalScVal "executed" = Ok (ScvMap (Some (Some l))) →
     ∃ vs, ParseEvent (package any_order OffRampClient.contract) OffRampClient.ExecutionStateChangedEvent demo_event =
       GVal (vs, uint32 9, "tx")).
Proof.
  apply (generated_event_parsed OffRampClient.contract OffRampClient.ExecutionStateChangedEvent any_order demo_event).
  - apply offramp_in.
  - apply state_changed_in.
  - apply any_order_enumerates.
Defined.

Lemma generated_wait_first_witness :
  traced (WaitFor (package any_order OffRampClient.contract) "id" OffRampClient.ExecutionStateChangedEvent 5 1 60 None) tt []
    (λ r _ h, wait_result (package any_order OffRampClient.contract) "id" OffRampClient.ExecutionStateChangedEvent None 1
                "offramp_1_7_ExecStateChanged" r h).
Proof.
  apply (generated_wait_first (package any_order OffRampClient.contract) OffRampClient.ExecutionStateChangedEvent
           "id" None 5 1 60 "offramp_1_7_ExecStateChanged").
  reflexivity.
Defined.

(** No event ever, and a clock that advances by two between ticks. *)
Definition demo_answers (X : Type) (n : nat) (e : wait_ext X) : X :=
  match e with
  | GetEvents _ _ _ => GVal []
  | Now => Z.of_nat n
  | Select => None
  end.
Lemma generated_wait_ends_witness :
  ∃ r n, run demo_answers (WaitFor (package any_order OffRampClient.contract) "id" OffRampClient.ExecutionStateChangedEvent
                       (Z.to_nat (60 / 2) + 2) 1 60 None) 0 tt = (Done (Some r), n, tt).
Proof.
  apply (generated_wait_ends OffRampClient.contract OffRampClient.ExecutionStateChangedEvent any_order "id" None 1 60
           demo_answers 2).
  - apply offramp_in.
  - apply state_changed_in.
  - lia.
  - lia.
  - intros i j Hij. cbn. lia.
  - intros i j Hij. cbn. lia.
  - done.
Defined.

Lemma generated_names_witness :
  (∀ s, s ∈ symbols OffRampClient.contract → is_symbol s = true) ∧
  (∀ e, TEnum e ∈ Types OffRampClient.contract → IsUnit e = true → NoDup (Value <$> Variants e)) ∧
  (∀ e name code, e ∈ Errors OffRampClient.contract → (name, code) ∈ ErrorVariants e →
     is_uint32 code = true ∧ error_message e code = Some (camelToSpaces name)) ∧
  NoDup (Events OffRampClient.contract ≫= Topics) ∧ NoDup (functionName <$> Functions OffRampClient.contract).
Proof. apply generated_names. apply offramp_in. Defined.
End ContractsProps.
