(* ===== verification/Deployer.v ===== *)
(** [deployment/deployer.go]: the invoker of the standalone services. It simulates, restores,
    assembles, signs and submits one transaction at a time and waits for it.

    A deployer's state is its sequence number and the heap of the operations it builds, which
    transactions share; [deploy_ext] lists the calls answered from outside. A [TxSigner] is a
    record of its two methods, with [keypairSigner] and [sdkTxSigner] as implementations, and
    [keystoreTxSigner] of [ccv/accessors/stellar_keystore_signer.go]. *)

From Stdlib Require Import Strings.Byte SpecFloat.
From Stdlib Require Strings.String.
From stdpp Require Import base gmap list strings pretty.
From S2P Require Import Prelude GoStrings Config Float Prog Sdk TxStore Tx Broadcast Xdr.
From S2P Require Import ScVal GoBytes TypeConverters InvokerAdapter Ccv.
Import Config Xdr.

Local Open Scope Z_scope.

(** ** What the SDK adds here *)

(** Host functions other than a contract call, a payment of the native asset, time bounds
    [NewTimebounds(min, max)], SHA-256, the preimage of an asset's contract id, and the
    sequence and balance of an account entry ([None]: another kind of entry). *)
Class DeployerSdk `{SdkTypes} := {
  Asset : Type;
  UploadContractWasm : bytes → HostFunction;
  CreateContractFromAddress : bytes → bytes → bytes → HostFunction;
  CreateContractFromAsset : Asset → HostFunction;
  Payment : string → string → OtherOperation;
  NewTimebounds : Z → Z → TimeBounds;
  Sum256 : bytes → bytes;
  MarshalContractIdPreimage : bytes → Asset → result bytes;
  UnmarshalAccountEntry : string → result (option (Z * Z))
}.

(** Documented behaviour: the decoder sets the arm of the version it read. *)
Definition valid_meta (m : TransactionMeta) : bool :=
  match m with MetaV3 (Some _) | MetaV4 (Some _) | MetaOther _ => true | _ => false end.
Class MetaLaws `{MetaSdk} : Prop := {
  UnmarshalMeta_valid s m : UnmarshalTransactionMeta s = Ok m → valid_meta m = true
}.

(** RPC answers; here the code reads statuses as text. *)
Record SendReply := mkSendReply {
  srStatus : string;
  srHash : string;
  srErrorResultXDR : string;
  srDiagnosticEventsXDR : list string
}.
Record GetReply := mkGetReply {
  grStatus : string;
  grResultXDR : string;
  grResultMetaXDR : string;
  grDiagnosticEventsXDR : list string
}.

(** [DTicks d]: how many ticks of the one-second ticker are served before the context is done
    (its error) or the timer of [d] fires. [DSignTransaction] is the keypair's [tx.Sign],
    [DKeystoreSign] the keystore's [Sign]. *)
Inductive deploy_ext `{SdkTypes} `{RpcSdk} : Type → Type :=
| DNow : deploy_ext Z
| DReadFile (path : string) : deploy_ext (result bytes)
| DSimulateTransaction (txXDR : string) : deploy_ext (result SimulateTransactionResponse)
| DSendTransaction (txXDR : string) : deploy_ext (result SendReply)
| DGetTransaction (hash : string) : deploy_ext (result GetReply)
| DGetLedgerEntries (key : string) : deploy_ext (result (list string))
| DGetEvents (req : TypeConverters.protocol_GetEventsRequest)
    : deploy_ext (result TypeConverters.protocol_GetEventsResponse)
| DSignTransaction (networkPassphrase : string) (tx : Transaction) : deploy_ext (result Transaction)
| DSignDecorated (hash : string) : deploy_ext (result DecoratedSignature)
| DKeystoreSign (keyName hash : string) : deploy_ext (result string)
| DTicks (remaining : Z) : deploy_ext (nat * option string).

Module Deployer.

Definition defaultTxnTimeBound : Z := 120 * Second.
Definition minFeeBuffer : Z := 10000.

(** [%v] of a list of texts. *)
Definition print_strings (l : list string) : string := "[" +:+ Strings.String.concat " " l +:+ "]".

Section deployer.
Context {ST : SdkTypes} {SD : Sdk} {UT : UnicodeTables} {XS : XdrSdk} {HF : HostFunctions}
  {MS : MetaSdk} {RS : RpcSdk} {FC : FloatConv} {DS : DeployerSdk}.

(** ** State *)

Record DeployerState := mkDeployerState {
  accountSequence : Z;
  ops : gmap loc Operation;
  nextOp : loc
}.
Definition set_sequence (n : Z) (w : DeployerState) : DeployerState :=
  mkDeployerState n (ops w) (nextOp w).
Definition set_ops (f : gmap loc Operation → gmap loc Operation) (w : DeployerState) : DeployerState :=
  mkDeployerState (accountSequence w) (f (ops w)) (nextOp w).
Definition deploy : Type → Type := prog DeployerState deploy_ext.

Record TxSigner := mkTxSigner {
  Address : string;
  SignTransaction : string → Transaction → deploy (gres Transaction)
}.
Definition keypairSigner (address : string) : TxSigner :=
  mkTxSigner address (λ networkPassphrase tx, gcall (DSignTransaction networkPassphrase tx)).
Definition sdkTxSigner (address : string) : TxSigner :=
  mkTxSigner address (λ networkPassphrase tx,
    h <-? Ret (of_result (wrap_err "hash transaction envelope" (tx_Hash tx networkPassphrase)));
    dec <-? gctx "sign decorated" (gcall (DSignDecorated h));
    Ret (of_result (AddSignatureDecorated tx dec))).

(** The last 4 bytes of the key. *)
Definition hint (publicKey : bytes) : gres bytes :=
  if (length publicKey <? 4)%nat then GPanic "slice bounds out of range"
  else GVal (copy_into 4 (drop (length publicKey - 4) publicKey)).
Definition keystoreTxSigner (keyName address : string) (publicKey : bytes) : TxSigner :=
  mkTxSigner address (λ networkPassphrase tx,
    h <-? Ret (of_result (wrap_err "hash transaction envelope" (tx_Hash tx networkPassphrase)));
    signature <-? gctx ("keystore sign with " +:+ Quote keyName) (gcall (DKeystoreSign keyName h));
    hint <-? Ret (hint publicKey);
    Ret (of_result (wrap_err "attach decorated signature"
           (AddSignatureDecorated tx (mkDecoratedSignature (String.string_of_list_byte hint) signature))))).

(** The fields that do not change. *)
Record Deployer := mkDeployer {
  networkPassphrase : string;
  signer : TxSigner;
  autoRestore : bool;
  feeBumpFactor : spec_float;
  txnTimeBound : Z
}.

Definition DeployerOption : Type := Deployer → Deployer.
Definition WithAutoRestore (enabled : bool) : DeployerOption :=
  λ d, mkDeployer (networkPassphrase d) (signer d) enabled (feeBumpFactor d) (txnTimeBound d).
Definition clamp_factor (factor : spec_float) : spec_float :=
  match factor with
  | S754_nan | S754_infinity _ => f64_one
  | _ => if SFltb factor f64_one then f64_one else factor
  end.
Definition WithFeeBumpFactor (factor : spec_float) : DeployerOption :=
  λ d, mkDeployer (networkPassphrase d) (signer d) (autoRestore d) (clamp_factor factor) (txnTimeBound d).
Definition WithTxnTimeBound (bound : Z) : DeployerOption :=
  λ d, if 0 <? bound
       then mkDeployer (networkPassphrase d) (signer d) (autoRestore d) (feeBumpFactor d) bound
       else d.

(** 1.25. *)
Definition f64_1_25 : spec_float := S754_finite false 5629499534213120 (-52).
Definition NewDeployerWithSigner (networkPassphrase : string) (signer : TxSigner)
    (opts : list DeployerOption) : Deployer * DeployerState :=
  (foldl (λ d opt, opt d) (mkDeployer networkPassphrase signer true f64_1_25 defaultTxnTimeBound) opts,
   mkDeployerState (-1) ∅ 1%positive).
Definition NewDeployer (networkPassphrase address : string) (opts : list DeployerOption)
  : Deployer * DeployerState :=
  NewDeployerWithSigner networkPassphrase (keypairSigner address) opts.
(** A chain's signer: its address, and whether it exposes a keypair. *)
Definition NewDeployerFromChain (networkPassphrase : string) (chSigner : option (string * bool))
    (opts : list DeployerOption) : result (Deployer * DeployerState) :=
  match chSigner with
  | None => Err "stellar chain Signer is nil"
  | Some (address, true) => Ok (NewDeployer networkPassphrase address opts)
  | Some (address, false) => Ok (NewDeployerWithSigner networkPassphrase (sdkTxSigner address) opts)
  end.

(** ** Operations, shared between transactions *)

Definition alloc_op (o : Operation) : deploy loc :=
  atomic (λ w, (nextOp w, mkDeployerState (accountSequence w) (<[nextOp w := o]> (ops w)) (Pos.succ (nextOp w)))).
Definition read_ops (ls : list loc) : deploy (list (loc * Operation)) :=
  o ← gets (λ w, mapM (M:=option) (λ l, option_map (pair l) (ops w !! l)) ls);
  match o with Some os => Ret os | None => Panic "nil pointer dereference" end.
Definition write_op (l : loc) (g : Operation → Operation) : deploy unit :=
  modify (set_ops (alter g l)).

(** [time.Now().Add(d.txnTimeBound)], [deadline.Unix()] and [time.Until(deadline)]. *)
Definition new_deadline (d : Deployer) : deploy Z :=
  now ← call DNow; Ret (now + txnTimeBound d).
Definition bounds_of (deadline : Z) : TimeBounds := NewTimebounds 0 (deadline / Second).
Definition time_until (now deadline : Z) : Z := Z.max min_int64 (Z.min max_int64 (deadline - now)).

Definition params (sourceAccount : SimpleAccount) (os : list (loc * Operation)) (baseFee deadline : Z)
  : TransactionParams :=
  mkTransactionParams sourceAccount true os baseFee (bounds_of deadline) None.

(** ** The pieces *)

Section methods.
Variable d : Deployer.

Definition first_entry (entries : list string) : option string :=
  match entries with
  | [] => None
  | e :: _ => if decide (e = "") then None else Some e
  end.

Definition getSourceAccount : deploy (gres SimpleAccount) :=
  match Sdk.AddressToAccountId (Address (signer d)) with
  | Err e => Panic e
  | Ok accountId =>
      keyXDR <-? Ret (of_result (wrap_err "failed to marshal account key" (MarshalAccountKey accountId)));
      entries <-? gctx "failed to get ledger entries" (gcall (DGetLedgerEntries keyXDR));
      seq <-? match first_entry entries with
              | None => Ret (GVal 0)
              | Some entryXDR =>
                  entry <-? Ret (of_result (wrap_err "failed to unmarshal account entry"
                                              (UnmarshalLedgerEntryData entryXDR)));
                  match entry with
                  | LedgerEntryAccount SeqNum => Ret (GVal SeqNum)
                  | LedgerEntryOther _ => Panic "arm Account is not set"
                  end
              end;
      modify (set_sequence seq);;
      Ret (GVal (mkSimpleAccount (Address (signer d)) seq))
  end.

(** Build a transaction of one operation and simulate it. The texts of the errors differ
    before and after a restore. *)
Definition simulate_op (build suffix : string) (sourceAccount : SimpleAccount) (op : loc) (deadline : Z)
  : deploy (gres (Transaction * SimulateTransactionResponse)) :=
  os ← read_ops [op];
  tx <-? Ret (of_result (wrap_err build (NewTransaction (params sourceAccount os MinBaseFee deadline))));
  txXDR <-? Ret (of_result (wrap_err ("failed to get transaction XDR" +:+ suffix) (tx_Base64 tx)));
  sim <-? gctx ("simulation failed" +:+ suffix) (gcall (DSimulateTransaction txXDR));
  if decide (simError sim = "") then Ret (GVal (tx, sim))
  else Ret (GErr ("simulation error" +:+ suffix +:+ ": " +:+ simError sim)).

(** Sign, send, and read the status; [what] is how the errors name the transaction. *)
Definition submitted (what : string) (r : SendReply) : gres string :=
  if decide (srStatus r = "PENDING" ∨ srStatus r = "DUPLICATE") then GVal (srHash r)
  else if decide (srStatus r = "TRY_AGAIN_LATER")
  then GErr (what +:+ " submission failed: server overloaded, try again later")
  else if decide (srStatus r = "ERROR") then
    if decide (srErrorResultXDR r = "") then GErr (what +:+ " rejected with status ERROR")
    else GErr (what +:+ " rejected: " +:+ srErrorResultXDR r +:+ " (diagnostics: " +:+
                 print_strings (srDiagnosticEventsXDR r) +:+ ")")
  else GErr ("unexpected " +:+ what +:+ " status: " +:+ srStatus r).
Definition sign_and_send (signing encoding submitting what : string) (tx : Transaction)
  : deploy (gres string) :=
  signedTx <-? gctx signing (SignTransaction (signer d) (networkPassphrase d) tx);
  signedXDR <-? Ret (of_result (wrap_err encoding (tx_Base64 signedTx)));
  r <-? gctx submitting (gcall (DSendTransaction signedXDR));
  Ret (submitted what r).

(** The polling loop: [n] ticks, and what ends it after them. *)
Fixpoint wait_loop (n : nat) (ctxErr : option string) (hash : string) : deploy (gres TransactionMeta) :=
  match n with
  | O =>
      Ret (GErr (match ctxErr with
                 | Some e => e
                 | None => "transaction timed out (hash: " +:+ hash +:+ ")"
                 end))
  | S n' =>
      result ← call (DGetTransaction hash);
      match result with
      | Err _ => wait_loop n' ctxErr hash
      | Ok result =>
          if decide (grStatus result = "SUCCESS") then
            if decide (grResultMetaXDR result = "") then Ret (GErr "no result meta XDR")
            else Ret (of_result (wrap_err "failed to decode result meta"
                                   (UnmarshalTransactionMeta (grResultMetaXDR result))))
          else if decide (grStatus result = "FAILED") then
            Ret (GErr ("transaction failed (hash: " +:+ hash +:+ ", resultXDR: " +:+
                         Quote (grResultXDR result) +:+ ", diagnostics: " +:+
                         print_strings (grDiagnosticEventsXDR result) +:+ ")"))
          else wait_loop n' ctxErr hash
      end
  end.
Definition waitForTransaction (hash : string) (deadline : Z) : deploy (gres TransactionMeta) :=
  now ← call DNow;
  let remaining := time_until now deadline in
  if remaining <=? 0 then Ret (GErr ("transaction deadline already elapsed (hash: " +:+ hash +:+ ")"))
  else
    ticks ← call (DTicks remaining);
    let '(n, ctxErr) := ticks in
    wait_loop n ctxErr hash.

Definition feeBumpExtra (minFee : Z) (factor : spec_float) : Z :=
  if minFee <=? 0 then 0
  else
    let x := f64_mul (f64_of_Z minFee) (SFsub 53 1024 factor f64_one) in
    match x with
    | S754_nan | S754_infinity _ => 0
    | _ => f64_to_int64 (Ceil x)
    end.
(** The fee with its buffer. *)
Definition bumped_fee (minFee : Z) : Z :=
  int64 (minFee + Z.max (feeBumpExtra minFee (feeBumpFactor d)) minFeeBuffer).

Definition restoreFootprint (preamble : RestorePreamble) : deploy (gres unit) :=
  restoreDeadline ← new_deadline d;
  sourceAccount <-? gctx "failed to get source account for restore" getSourceAccount;
  sorobanData <-? Ret (of_result (wrap_err "failed to decode restore preamble soroban data"
                                    (UnmarshalSorobanData (rpTransactionDataXDR preamble))));
  op ← alloc_op (RestoreFootprint (Address (signer d)) (Some sorobanData));
  os ← read_ops [op];
  tx <-? Ret (of_result (wrap_err "failed to build restore transaction"
               (NewTransaction (params sourceAccount os (bumped_fee (rpMinResourceFee preamble)) restoreDeadline))));
  hash <-? sign_and_send "failed to sign restore transaction"
             "failed to get signed restore transaction XDR" "failed to submit restore transaction"
             "restore transaction" tx;
  _ <-? gctx "restore transaction failed" (waitForTransaction hash restoreDeadline);
  Ret (GVal tt).

(** The simulation's data written into the first operation. *)
Definition inject (op0 : loc) (sim : SimulateTransactionResponse) : deploy (gres unit) :=
  if decide (TransactionDataXDR sim = "") then Ret (GVal tt)
  else
    sorobanData <-? Ret (of_result (wrap_err "failed to decode soroban data"
                                      (UnmarshalSorobanData (TransactionDataXDR sim))));
    op ← gets (λ w, ops w !! op0);
    match op with
    | Some (InvokeHostFunction _ _ _ _) =>
        write_op op0 (Broadcast.set_ext sorobanData);;
        match Broadcast.sim_auths sim with
        | [] => Ret (GVal tt)
        | auths =>
            auth <-? Ret (of_result (Broadcast.decode_auths auths));
            write_op op0 (Broadcast.set_auth auth);; Ret (GVal tt)
        end
    | _ => Ret (GVal tt)
    end.
Definition assembleTransaction (tx : Transaction) (sim : SimulateTransactionResponse) (deadline : Z)
  : deploy (gres Transaction) :=
  match tx_Operations tx with
  | [] => Ret (GVal tx)
  | op0 :: _ =>
      _ <-? inject op0 sim;
      if 0 <? simMinResourceFee sim then
        sourceAccount <-? getSourceAccount;
        os ← read_ops (tx_Operations tx);
        Ret (of_result (NewTransaction
               (params sourceAccount os (bumped_fee (simMinResourceFee sim)) deadline)))
      else Ret (GVal tx)
  end.

(** Simulate; when entries have expired, restore them, fetch the account again and simulate
    again, with the deadline that [redo] gives. *)
Definition with_restore (simulate : string → string → SimpleAccount → deploy (gres (Transaction * SimulateTransactionResponse * Z)))
    (sourceAccount : SimpleAccount) : deploy (gres (Transaction * SimulateTransactionResponse * Z)) :=
  r <-? simulate "failed to build transaction" "" sourceAccount;
  match simRestorePreamble (snd (fst r)) with
  | Some preamble =>
      if autoRestore d then
        _ <-? gctx "failed to restore expired ledger entries" (restoreFootprint preamble);
        sourceAccount <-? gctx "failed to get source account after restore" getSourceAccount;
        r <-? simulate "failed to rebuild transaction after restore" " after restore" sourceAccount;
        match simRestorePreamble (snd (fst r)) with
        | Some _ => Ret (GErr "simulation after restore still requires another restore: unexpected second RestorePreamble")
        | None => Ret (GVal r)
        end
      else Ret (GVal r)
  | None => Ret (GVal r)
  end.

Definition buildAndSubmitTransaction (sourceAccount : SimpleAccount) (op : loc)
  : deploy (gres TransactionMeta) :=
  r <-? with_restore (λ build suffix account,
          txnDeadline ← new_deadline d;
          r <-? simulate_op build suffix account op txnDeadline;
          Ret (GVal (r, txnDeadline))) sourceAccount;
  let '(tx, simResult, txnDeadline) := r in
  assembledTx <-? gctx "failed to assemble transaction" (assembleTransaction tx simResult txnDeadline);
  hash <-? sign_and_send "failed to sign transaction" "failed to get signed transaction XDR"
             "failed to submit transaction" "transaction" assembledTx;
  waitForTransaction hash txnDeadline.

(** ** Results *)

(** The return value's pointer, for the two operations that need one. *)
Definition soroban_return (meta : option TransactionMeta) : gres (option ScVal) :=
  match meta with
  | None => GErr "nil transaction meta"
  | Some (MetaV4 p) => v ← deref p; nonnil "no soroban meta" v
  | Some (MetaV3 p) => v ← deref p; rv ← nonnil "no soroban meta" v; GVal (Some rv)
  | Some (MetaOther n) => GErr ("unsupported version: " +:+ pretty n)
  end.
Definition extractWASMHash (meta : option TransactionMeta) : gres bytes :=
  p ← soroban_return meta;
  returnVal ← deref p;
  b ← GetBytes returnVal;
  b ← nonnil "return value is not bytes" b;
  GVal (copy_into 32 b).
Definition extractContractID (meta : option TransactionMeta) : gres string :=
  p ← soroban_return meta;
  returnVal ← deref p;
  a ← GetAddress returnVal;
  addr ← nonnil "return value is not address" a;
  match addr with
  | AddressTypeContract p =>
      contractID ← deref p;
      of_result (Encode VersionByteContract (copy_into 32 contractID))
  | _ => GErr "address is not contract type"
  end.
Definition extractReturnValue (meta : option TransactionMeta) : gres (option ScVal) :=
  match meta with
  | None => GVal None
  | Some (MetaV4 p) => v ← deref p; GVal (match v with None => None | Some rv => rv end)
  | Some (MetaV3 p) => v ← deref p; GVal v
  | Some (MetaOther n) => GErr ("unsupported transaction meta version: " +:+ pretty n)
  end.
Definition getResultXDR (r : SimulateHostFunctionResult) : option string :=
  match ReturnValueXDR r with
  | Some x => if decide (x = "") then None else Some x
  | None => None
  end.
Definition simulated_value (sim : SimulateTransactionResponse) : gres (option ScVal) :=
  match simResults sim with
  | [] => GVal None
  | r :: _ =>
      match getResultXDR r with
      | None => GVal None
      | Some resultXDR =>
          v ← gwrap "failed to decode result" (of_result (UnmarshalScVal resultXDR));
          GVal (Some v)
      end
  end.

(** ** The API *)

Definition uploadWASM (wasmBytes : bytes) : deploy (gres bytes) :=
  sourceAccount <-? gctx "failed to get source account" getSourceAccount;
  op ← alloc_op (InvokeHostFunction (UploadContractWasm wasmBytes) (Address (signer d)) [] None);
  meta <-? buildAndSubmitTransaction sourceAccount op;
  Ret (gwrap "failed to extract WASM hash" (extractWASMHash (Some meta))).

Definition createContractInstance (wasmHash salt : bytes) : deploy (gres string) :=
  sourceAccount <-? gctx "failed to get source account" getSourceAccount;
  pubKeyBytes <-? Ret (of_result (wrap_err "failed to decode public key"
                                    (Decode VersionByteAccountID (Address (signer d)))));
  op ← alloc_op (InvokeHostFunction (CreateContractFromAddress (copy_into 32 pubKeyBytes) salt wasmHash)
                   (Address (signer d)) [] None);
  meta <-? buildAndSubmitTransaction sourceAccount op;
  Ret (gwrap "failed to extract contract ID" (extractContractID (Some meta))).

Definition DeployContractBytes (wasmBytes salt : bytes) : deploy (gres string) :=
  wasmHash <-? gctx "failed to upload WASM" (uploadWASM wasmBytes);
  gctx "failed to create contract instance" (createContractInstance wasmHash salt).
Definition DeployContract (wasmPath : string) (salt : bytes) : deploy (gres string) :=
  wasmBytes <-? gctx "failed to read WASM file" (gcall (DReadFile wasmPath));
  DeployContractBytes wasmBytes salt.

Definition contract_function (contractID functionName : string) (args : list ScVal) : gres HostFunction :=
  contractBytes ← of_result (wrap_err "failed to decode contract ID" (Decode VersionByteContract contractID));
  contractAddr ← nonnil "failed to build contract address" (ScVal.BuildContractScAddress contractBytes);
  GVal (InvokeContractFunction (mkInvokeContractArgs contractAddr functionName args)).

Definition InvokeContract (contractID functionName : string) (args : list ScVal)
  : deploy (gres (option ScVal)) :=
  sourceAccount <-? gctx "failed to get source account" getSourceAccount;
  hostFn <-? Ret (contract_function contractID functionName args);
  op ← alloc_op (InvokeHostFunction hostFn (Address (signer d)) [] None);
  meta <-? buildAndSubmitTransaction sourceAccount op;
  Ret (gwrap "failed to extract return value" (extractReturnValue (Some meta))).

Definition SimulateContract (contractID functionName : string) (args : list ScVal)
  : deploy (gres (option ScVal)) :=
  hostFn <-? Ret (contract_function contractID functionName args);
  sourceAccount <-? gctx "failed to get source account" getSourceAccount;
  r <-? with_restore (λ build suffix account,
          op ← alloc_op (InvokeHostFunction hostFn (Address (signer d)) [] None);
          deadline ← new_deadline d;
          r <-? simulate_op build suffix account op deadline;
          Ret (GVal (r, deadline))) sourceAccount;
  Ret (simulated_value (snd (fst r))).

Definition topic_filter (topics : list string) : list TypeConverters.SegmentFilter :=
  ((λ t, TypeConverters.mkSegmentFilter None (ScVal.SymbolToScValPtr t)) <$> topics) ++
  [TypeConverters.mkSegmentFilter (Some WildCardZeroOrMore) None].
Definition GetEvents (contractID : string) (startLedger : Z) (topics : list string)
  : deploy (gres (list TypeConverters.protocol_EventInfo)) :=
  resp <-? gctx "failed to get events" (gcall (DGetEvents (TypeConverters.mkProtocolRequest _ startLedger 0
             [TypeConverters.mkProtocolFilter {[protocol_EventTypeContract]} [contractID]
                [topic_filter topics]] None "")));
  Ret (GVal (TypeConverters.psEvents resp)).

Definition GenerateDeterministicSalt (deployerAddress contractName : string) : bytes :=
  Sum256 (String.list_byte_of_string (deployerAddress +:+ "-" +:+ contractName)).

(** The balance, the sequence, and whether the account exists. *)
Definition NativeAccountState (rawAccountKey : bytes) : deploy (gres (Z * Z * bool)) :=
  if negb (length rawAccountKey =? 32)%nat
  then Ret (GErr ("expected 32-byte account key, got " +:+ pretty (length rawAccountKey)))
  else
    gAddr <-? Ret (of_result (wrap_err "encode account id" (Encode VersionByteAccountID rawAccountKey)));
    aid <-? Ret (of_result (wrap_err "account id from address" (Sdk.AddressToAccountId gAddr)));
    keyXDR <-? Ret (of_result (wrap_err "marshal account ledger key" (MarshalAccountKey aid)));
    entries <-? gctx "get ledger entries" (gcall (DGetLedgerEntries keyXDR));
    match first_entry entries with
    | None => Ret (GVal (0, 0, false))
    | Some entryXDR =>
        entry <-? Ret (of_result (wrap_err "unmarshal account entry" (UnmarshalAccountEntry entryXDR)));
        match entry with
        | None => Panic "arm Account is not set"
        | Some (seqN, balance) =>
            if seqN <? 0 then Ret (GErr ("invalid account sequence " +:+ pretty seqN))
            else Ret (GVal (balance, uint64 seqN, true))
        end
    end.

Definition SubmitClassicOperation (op : Operation) : deploy (gres unit) :=
  src <-? gctx "load source account" getSourceAccount;
  txnDeadline ← new_deadline d;
  op ← alloc_op op;
  os ← read_ops [op];
  tx <-? Ret (of_result (wrap_err "build transaction" (NewTransaction (params src os MinBaseFee txnDeadline))));
  hash <-? sign_and_send "sign transaction" "encode signed transaction" "submit transaction" "transaction" tx;
  _ <-? waitForTransaction hash txnDeadline;
  Ret (GVal tt).

Definition ComputeSACContractID (networkPassphrase : string) (asset : Asset) : result string :=
  let networkID := Sum256 (String.list_byte_of_string networkPassphrase) in
  b ← wrap_err "marshal preimage" (MarshalContractIdPreimage networkID asset);
  Encode VersionByteContract (Sum256 b).
Definition DeploySACToken (asset : Asset) : deploy (gres string) :=
  src <-? gctx "load source account" getSourceAccount;
  op ← alloc_op (InvokeHostFunction (CreateContractFromAsset asset) (Address (signer d)) [] None);
  _ <-? gctx "deploy SAC" (buildAndSubmitTransaction src op);
  Ret (of_result (wrap_err "compute SAC contract ID" (ComputeSACContractID (networkPassphrase d) asset))).

Definition SignerAddress : string := Address (signer d).

Definition SendNativePayment (destinationStrkey : string) (stroops : Z) : deploy (gres unit) :=
  if stroops <=? 0 then Ret (GErr "payment amount must be positive")
  else
    _ <-? Ret (of_result (wrap_err "invalid destination account" (Sdk.AddressToAccountId destinationStrkey)));
    src <-? gctx "load source account" getSourceAccount;
    op ← alloc_op (OtherOp (Payment destinationStrkey (pretty stroops)));
    _ <-? buildAndSubmitTransaction src op;
    Ret (GVal tt).
End methods.

(** A deployer is an invoker. *)
Definition deployer_invoker (d : Deployer) : Invoker DeployerState deploy_ext :=
  {| Invoke := InvokeContract d; SimulateCall := SimulateContract d |}.
End deployer.
End Deployer.
