(* ===== verification/DeployerProps.v ===== *)
(** Properties of the deployer: what it signs is fresh, what it returns happened on chain, and
    it sends at most one transaction and one restoration. *)

From Stdlib Require Import Ascii.
From Stdlib Require Import Strings.Byte SpecFloat.
From stdpp Require Import base gmap list strings pretty.
From S2P Require Import Prelude GoStrings Config Float Fee Prog Sdk TxStore Tx Broadcast Xdr.
From S2P Require Import ScVal GoBytes TypeConverters InvokerAdapter Ccv Deployer.
From S2P Require Import Demo Xdr TypeConvertersProps.
Import Config Xdr Deployer.

Local Open Scope Z_scope.

Module DeployerProps.

Section props.
Context {ST : SdkTypes} {SD : Sdk} {UT : UnicodeTables} {XS : XdrSdk} {HF : HostFunctions}
  {MS : MetaSdk} {RS : RpcSdk} {FC : FloatConv} {DS : DeployerSdk}.

(** ** What a history tells *)

(** The account's sequence in an answer. *)
Definition sequence_of (entries : list string) : option Z :=
  match first_entry entries with
  | None => Some 0
  | Some x => match UnmarshalLedgerEntryData x with Ok (LedgerEntryAccount n) => Some n | _ => None end
  end.
Definition sequence_event (ev : event (E := deploy_ext)) : option (option Z) :=
  let '(existT X (e, x)) := ev in
  match e in deploy_ext X return X → option (option Z) with
  | DGetLedgerEntries _ => λ r, Some (match r with Ok entries => sequence_of entries | Err _ => None end)
  | _ => λ _, None
  end x.
(** The sequence in the newest answer of a history. *)
Definition last_sequence (h : hist) : option Z :=
  foldl (λ acc ev, match sequence_event ev with Some s => s | None => acc end) None h.

Definition sending (ev : event (E := deploy_ext)) : option string :=
  let '(existT X (e, x)) := ev in
  match e with DSendTransaction x => Some x | _ => None end.
(** The signers of the code. *)
Definition known_signer (s : TxSigner) : Prop :=
  ∃ a, s = keypairSigner a ∨ s = sdkTxSigner a ∨ ∃ k pk, s = keystoreTxSigner k a pk ∧ length pk = 32%nat.
(** [signed] is [tx] with a signature for the network [pass] that was given in the history. *)
Definition signed_by (h : hist) (pass : string) (tx signed : Transaction) : Prop :=
  answered (E := deploy_ext) (DSignTransaction pass tx) (Ok signed) ∈ h ∨
  ∃ hash, tx_Hash tx pass = Ok hash ∧
    ((∃ dec, answered (E := deploy_ext) (DSignDecorated hash) (Ok dec) ∈ h ∧
        AddSignatureDecorated tx dec = Ok signed) ∨
     (∃ key sig dec, answered (E := deploy_ext) (DKeystoreSign key hash) (Ok sig) ∈ h ∧
        Signature dec = sig ∧ AddSignatureDecorated tx dec = Ok signed)).

Lemma last_sequence_snoc h ev :
  last_sequence (h ++ [ev]) = match sequence_event ev with Some s => s | None => last_sequence h end.
Proof. unfold last_sequence. by rewrite foldl_app. Qed.

Section deployer.
Context (d : Deployer).
Abbreviation addr := (Address (signer d)).

(** The operations in question: restorations are among them, and the simulation's data do not
    lead out of them. *)
Context (okop : Operation → Prop) (Hrestore : ∀ sd, okop (RestoreFootprint addr (Some sd)))
  (Hext : ∀ sd o, okop o → okop (Broadcast.set_ext sd o)) (Hauth : ∀ auth o, okop o → okop (Broadcast.set_auth auth o)).
Definition sendable (w : DeployerState) (l : loc) : Prop := ∃ o, ops w !! l = Some o ∧ okop o.
(** A transaction of one such operation, with the newest sequence and this deadline, which is
    [txnTimeBound] after some time the clock showed. *)
Definition fresh_tx (w : DeployerState) (h : hist) (deadline : Z) (tx : Transaction) : Prop :=
  (∃ seq, last_sequence h = Some seq ∧ tx_SourceAccount tx = mkSimpleAccount addr (int64 (seq + 1))) ∧
  tx_Timebounds tx = bounds_of deadline ∧ ∃ op, tx_Operations tx = [op] ∧ sendable w op.
Definition clocked (h : hist) (deadline : Z) : Prop :=
  ∃ now, answered (E := deploy_ext) DNow now ∈ h ∧ deadline = now + txnTimeBound d.
(** An envelope of a transaction that was signed for the network and is fresh. *)
Definition fresh_envelope (w : DeployerState) (h : hist) (x : string) : Prop :=
  ∃ tx signed deadline, signed_by h (networkPassphrase d) tx signed ∧ tx_Base64 signed = Ok x ∧
    clocked h deadline ∧ fresh_tx w h deadline tx.
(** Whatever was sent was that when it was sent. *)
Definition good (w : DeployerState) (h : hist) : Prop :=
  ∀ h1 ev h2 x, h = h1 ++ ev :: h2 → sending ev = Some x → fresh_envelope w h1 x.

Lemma clocked_grows h h2 dl : clocked h dl → clocked (h ++ h2) dl.
Proof. intros (now & ? & ->). exists now. rewrite elem_of_app. auto. Qed.

Lemma good_snoc w h ev :
  good w h → (∀ x, sending ev = Some x → fresh_envelope w h x) → good w (h ++ [ev]).
Proof.
  intros Hg He h1 ev' h2 x E Hs. destruct (decide (h2 = [])) as [->|Hne].
  - apply app_inj_tail in E as [-> ->]. by apply He.
  - destruct (exists_last Hne) as (h2' & ev2 & ->).
    change (h1 ++ ev' :: h2' ++ [ev2]) with (h1 ++ (ev' :: h2') ++ [ev2]) in E.
    rewrite app_assoc in E. apply app_inj_tail in E as [-> ->]. by eapply Hg.
Qed.
Lemma good_plain w h ev : good w h → sending ev = None → good w (h ++ [ev]).
Proof. intros Hg He. apply good_snoc; [done|]. by rewrite He. Qed.

(** How a part of the program changes the world: the operations stay what they are. *)
Definition keeps (w w' : DeployerState) : Prop :=
  (∀ l, sendable w l → sendable w' l) ∧ (nextOp w <= nextOp w')%positive ∧
  ∀ l o, (l < nextOp w)%positive → ops w !! l = Some (OtherOp o) → ops w' !! l = Some (OtherOp o).
Lemma keeps_refl w : keeps w w.
Proof. unfold keeps. split_and!; [done|lia|done]. Qed.
Lemma keeps_after w w1 w2 : keeps w w1 → keeps w1 w2 → keeps w w2.
Proof. intros (A & B & C) (A' & B' & C'). unfold keeps. split_and!; [auto|lia|]. intros l o Hl Ho. apply C'; [lia|auto]. Qed.
Lemma good_keeps w w' h : keeps w w' → good w h → good w' h.
Proof.
  intros (Hk & _) Hg h1 ev h2 x Hh Hs. destruct (Hg h1 ev h2 x Hh Hs) as (tx & signed & dl & ? & ? & ? & (? & ? & op & ? & Hop)).
  exists tx, signed, dl. do 3 (split; [done|]). do 2 (split; [done|]). exists op. split; [done|]. by apply Hk.
Qed.
(** ... and the history. *)
Definition evolves (w : DeployerState) (h : hist) (w' : DeployerState) (h' : hist) : Prop :=
  good w' h' ∧ (∃ h2, h' = h ++ h2) ∧ keeps w w'.

Lemma evolves_refl w h : good w h → evolves w h w h.
Proof. intros Hg. split_and!; [done| |apply keeps_refl]. exists []. by rewrite app_nil_r. Qed.
Lemma evolves_keeps w h w' : good w h → keeps w w' → evolves w h w' h.
Proof. intros Hg Hk. split_and!; [by eapply good_keeps| |done]. exists []. by rewrite app_nil_r. Qed.
Lemma evolves_trans w h w1 h1 w2 h2 : evolves w h w1 h1 → evolves w1 h1 w2 h2 → evolves w h w2 h2.
Proof.
  intros (_ & [x ->] & Ho) (Hg & [y ->] & Ho2). split_and!; [done| |by eapply keeps_after].
  exists (x ++ y). by rewrite app_assoc.
Qed.
Lemma evolves_call w h ev : good w h → sending ev = None → evolves w h w (h ++ [ev]).
Proof. intros Hg He. split_and!; [by apply good_plain|by eexists|apply keeps_refl]. Qed.
Lemma evolves_sendable w h w' h' l : evolves w h w' h' → sendable w l → sendable w' l.
Proof. intros (_ & _ & Hk & _). apply Hk. Qed.
Lemma evolves_clocked w h w' h' dl : evolves w h w' h' → clocked h dl → clocked h' dl.
Proof. intros (_ & [x ->] & _). apply clocked_grows. Qed.
Lemma evolves_answered w h w' h' (ev : event) : evolves w h w' h' → ev ∈ h → ev ∈ h'.
Proof. intros (_ & [x ->] & _) Hev. apply elem_of_app. by left. Qed.

(** ** The parts of a submission *)

(** The node's account entries are account entries. *)
Definition sane {X} (e : deploy_ext X) : X → Prop :=
  match e in deploy_ext X return X → Prop with
  | DGetLedgerEntries _ => λ r, match r with
      | Ok entries => match first_entry entries with
                      | Some x => ∀ typ, UnmarshalLedgerEntryData x ≠ Ok (LedgerEntryOther typ)
                      | None => True
                      end
      | Err _ => True
      end
  | _ => λ _, True
  end.

Context {SL : SdkLaws} {ML : MetaLaws}.
Context (Hsigner : known_signer (signer d)) (Haddr : is_ok (Sdk.AddressToAccountId addr) = true).
Abbreviation total := (total (@sane)).

(** An account with the newest sequence. *)
Definition fresh_account (h : hist) (a : SimpleAccount) : Prop :=
  AccountID a = addr ∧ last_sequence h = Some (accSequence a).

Lemma getSourceAccount_total w h : good w h →
  total (getSourceAccount d) w h (λ r w' h',
    evolves w h w' h' ∧ match r with GVal a => fresh_account h' a | GErr _ => True | _ => False end).
Proof.
  intros Hg. unfold getSourceAccount.
  destruct (Sdk.AddressToAccountId addr) as [acct|]; [|done]. unfold gthen at 1. cbn [mbind prog_mbind prog_bind].
  destruct (MarshalAccountKey acct) as [key|e]; cbn [wrap_err of_result];
    [|split; [by apply evolves_refl|done]].
  unfold gthen at 1, gctx, gcall, call. cbn [prog_bind mbind prog_mbind Prog.total]. intros r Hr.
  assert (evolves w h w (h ++ [answered (DGetLedgerEntries key) r])) as He by by apply evolves_call.
  destruct r as [entries|e]; cbn [of_result gwrap prog_bind Prog.total]; [|by split].
  unfold gthen. cbn [mbind prog_mbind prog_bind].
  assert (∀ seq, sequence_of entries = Some seq →
    evolves w h (set_sequence seq w) (h ++ [answered (DGetLedgerEntries key) (Ok entries)]) ∧
    fresh_account (h ++ [answered (DGetLedgerEntries key) (Ok entries)]) (mkSimpleAccount addr seq)) as Hdone.
  { intros seq Hseq. split; [eapply evolves_trans; [exact He|apply evolves_keeps; [apply He|exact (keeps_refl w)]]|].
    split; [done|]. rewrite last_sequence_snoc. cbn. by rewrite Hseq. }
  unfold sequence_of in Hdone. cbn in Hr.
  destruct (first_entry entries) as [x|]; cbn [prog_bind Prog.total mbind prog_mbind]; [|by apply Hdone].
  destruct (UnmarshalLedgerEntryData x) as [[n|typ]|e]; cbn [wrap_err of_result prog_bind Prog.total];
    [by apply Hdone|by edestruct Hr|by split].
Qed.

Lemma read_op_total (op : loc) w h Q :
  is_Some (ops w !! op) → (∀ o, ops w !! op = Some o → Q [(op, o)] w h) →
  total (read_ops [op]) w h Q.
Proof. intros [o Ho] HQ. unfold read_ops, gets. cbn. rewrite Ho. cbn. by apply HQ. Qed.

Lemma new_tx_fresh w h a op o baseFee deadline tx :
  NewTransaction (params a [(op, o)] baseFee deadline) = Ok tx → fresh_account h a → sendable w op →
  fresh_tx w h deadline tx ∧ tx_Operations tx = [op].
Proof.
  intros Hn [Ha Hs] Hop. assert (tx_Operations tx = [op]) as Hops by by rewrite (new_operations _ _ Hn).
  split; [split; [|split]|done].
  - exists (accSequence a). split; [done|]. rewrite (new_account _ _ Hn). cbn. by rewrite Ha.
  - by rewrite (new_timebounds _ _ Hn).
  - by exists op.
Qed.

Lemma simulate_op_total build suffix a op deadline w h :
  good w h → fresh_account h a → clocked h deadline → sendable w op →
  total (simulate_op build suffix a op deadline) w h (λ r w' h',
    evolves w h w' h' ∧
    match r with
    | GVal (tx, _) => fresh_tx w' h' deadline tx ∧ tx_Operations tx = [op]
    | GErr _ => True | _ => False
    end).
Proof.
  intros Hg Ha Hc Hop. unfold simulate_op. eapply total_seq; [apply read_op_total with (Q := λ os w' h', w' = w ∧ h' = h ∧ ∃ o, os = [(op, o)]); [by destruct Hop as (o & ? & _); exists o|eauto]|].
  intros os w1 h1 (-> & -> & o & ->). unfold gthen at 1. cbn [mbind prog_mbind prog_bind].
  destruct (NewTransaction _) as [tx|e] eqn:Hn; cbn [wrap_err of_result]; [|split; [by apply evolves_refl|done]].
  destruct (new_tx_fresh w _ _ _ _ _ _ _ Hn Ha Hop) as [Hf Hops]. unfold gthen at 1. cbn [mbind prog_mbind prog_bind].
  destruct (tx_Base64 tx) as [x|e]; cbn [wrap_err of_result]; [|split; [by apply evolves_refl|done]].
  unfold gthen, gctx, gcall, call. cbn [prog_bind mbind prog_mbind Prog.total]. intros r _.
  assert (evolves w h w (h ++ [answered (DSimulateTransaction x) r])) as He by by apply evolves_call.
  destruct r as [sim|e]; cbn [of_result gwrap prog_bind Prog.total]; [|by split].
  case_decide; cbn [Prog.total]; split; try done. split; [|done]. destruct Hf as [(seq & Hs & Hacc) Htb].
  split; [|done]. exists seq. by rewrite last_sequence_snoc.
Qed.

(** A transaction that was signed and sent, which the node accepted under [hash]. *)
Definition accepted_tx (h : hist) (tx : Transaction) (hash : string) : Prop :=
  ∃ signed x r, signed_by h (networkPassphrase d) tx signed ∧ tx_Base64 signed = Ok x ∧
    answered (E := deploy_ext) (DSendTransaction x) (Ok r) ∈ h ∧
    (srStatus r = "PENDING" ∨ srStatus r = "DUPLICATE") ∧ srHash r = hash.
Definition accepted (h : hist) (hash : string) : Prop :=
  ∃ tx signed x r, signed_by h (networkPassphrase d) tx signed ∧ tx_Base64 signed = Ok x ∧
    answered (E := deploy_ext) (DSendTransaction x) (Ok r) ∈ h ∧
    (srStatus r = "PENDING" ∨ srStatus r = "DUPLICATE") ∧ srHash r = hash.
Lemma accepted_of h tx hash : accepted_tx h tx hash → accepted h hash.
Proof. by exists tx. Qed.

Lemma signed_by_grows h h2 pass tx signed : signed_by h pass tx signed → signed_by (h ++ h2) pass tx signed.
Proof.
  unfold signed_by. setoid_rewrite elem_of_app. intros [?|(hash & ? & [(dec & ? & ?)|(k & sig & dec & ? & ? & ?)])]; [by eauto|..];
    right; exists hash; (split; [done|]); [left; by eauto|right; by eauto 10].
Qed.

(** Signing asks once, and gives the transaction with a signature. *)
Lemma sign_total pass tx w h : good w h →
  total (SignTransaction (signer d) pass tx) w h (λ r w' h',
    w' = w ∧ evolves w h w h' ∧ last_sequence h' = last_sequence h ∧
    match r with GVal signed => signed_by h' pass tx signed | GErr _ => True | _ => False end).
Proof.
  intros Hg. assert (∀ ev, sending ev = None → sequence_event ev = None →
    evolves w h w (h ++ [ev]) ∧ last_sequence (h ++ [ev]) = last_sequence h) as Hev.
  { intros ev Hs Hq. split; [by apply evolves_call|]. by rewrite last_sequence_snoc, Hq. }
  destruct Hsigner as (a & [-> | [-> | (k & pk & -> & Hpk)]]); cbn [SignTransaction keypairSigner sdkTxSigner keystoreTxSigner].
  - unfold gcall, call. cbn [prog_bind mbind prog_mbind Prog.total]. intros r _.
    destruct (Hev (answered (DSignTransaction pass tx) r)) as [He Hl]; [done..|].
    split_and!; try done. destruct r as [signed|e]; cbn; [|done]. left. apply elem_of_app. right. apply list_elem_of_here.
  - unfold gthen at 1. cbn [mbind prog_mbind prog_bind].
    destruct (tx_Hash tx pass) as [hash|e] eqn:Hh; cbn [wrap_err of_result Prog.total];
      [|split_and!; try done; by apply evolves_refl].
    unfold gthen, gctx, gcall, call. cbn [prog_bind mbind prog_mbind Prog.total]. intros r _.
    destruct (Hev (answered (DSignDecorated hash) r)) as [He Hl]; [done..|].
    destruct r as [dec|e]; cbn [of_result gwrap prog_bind Prog.total]; [|by split_and!].
    split_and!; try done. destruct (AddSignatureDecorated tx dec) as [signed|e] eqn:Ha; cbn; [|done].
    right. exists hash. split; [done|]. left. exists dec. split; [|done]. apply elem_of_app. right. apply list_elem_of_here.
  - unfold gthen at 1. cbn [mbind prog_mbind prog_bind].
    destruct (tx_Hash tx pass) as [hash|e] eqn:Hh; cbn [wrap_err of_result Prog.total];
      [|split_and!; try done; by apply evolves_refl].
    unfold gthen at 1, gctx, gcall, call. cbn [prog_bind mbind prog_mbind Prog.total]. intros r _.
    destruct (Hev (answered (DKeystoreSign k hash) r)) as [He Hl]; [done..|].
    destruct r as [sig|e]; cbn [of_result gwrap prog_bind Prog.total]; [|by split_and!].
    unfold hint. rewrite Hpk. cbn [Nat.ltb Nat.leb]. unfold gthen. cbn [mbind prog_mbind prog_bind Prog.total].
    split_and!; try done. destruct (AddSignatureDecorated tx _) as [signed|e] eqn:Ha; cbn; [|done].
    right. exists hash. split; [done|]. right. eexists k, sig, _. split; [|split; [|exact Ha]; done].
    apply elem_of_app. right. apply list_elem_of_here.
Qed.

Lemma sign_and_send_total s1 s2 s3 what tx deadline w h :
  good w h → fresh_tx w h deadline tx → clocked h deadline →
  total (sign_and_send d s1 s2 s3 what tx) w h (λ r w' h',
    evolves w h w' h' ∧ match r with GVal hash => accepted_tx h' tx hash | GErr _ => True | _ => False end).
Proof.
  intros Hg Hf Hc. unfold sign_and_send.
  eapply total_gctx_gthen; [by apply sign_total|]. intros r1 w1 h1 (-> & He & Hl & Hs).
  destruct r1 as [signed|e|m]; cbn in Hs; [|by split|done].
  unfold gthen at 1. cbn [mbind prog_mbind prog_bind].
  destruct (tx_Base64 signed) as [x|e] eqn:Hx; cbn [wrap_err of_result Prog.total]; [|by split].
  unfold gthen, gctx, gcall, call. cbn [prog_bind mbind prog_mbind Prog.total]. intros r2 _.
  assert (evolves w h w (h1 ++ [answered (DSendTransaction x) r2])) as He2.
  { eapply evolves_trans; [exact He|]. split_and!; [|by eexists|apply keeps_refl]. apply good_snoc; [apply He|].
    cbn. intros ? [= <-]. exists tx, signed, deadline. split_and!; try done; [by eapply evolves_clocked|].
    destruct Hf as [(seq & Hq & Hacc) Htb]. split; [|done]. exists seq. by rewrite Hl. }
  destruct r2 as [r|e]; cbn [of_result gwrap prog_bind Prog.total]; [|by split].
  split; [done|]. unfold submitted. repeat case_decide; try done.
  exists signed, x, r. split_and!; try done; [by apply signed_by_grows|]. apply elem_of_app. right. apply list_elem_of_here.
Qed.

(** What the deployer calls a success of [hash]. *)
Definition succeeded (h : hist) (hash : string) (meta : TransactionMeta) : Prop :=
  ∃ g, answered (E := deploy_ext) (DGetTransaction hash) (Ok g) ∈ h ∧ grStatus g = "SUCCESS" ∧
    UnmarshalTransactionMeta (grResultMetaXDR g) = Ok meta.

Lemma wait_loop_total n ctxErr hash w h :
  good w h → total (wait_loop n ctxErr hash) w h (λ r w' h',
    evolves w h w' h' ∧ match r with GVal meta => succeeded h' hash meta | GErr _ => True | _ => False end).
Proof.
  revert h. induction n as [|n IH]; intros h Hg; cbn [wait_loop].
  { split; [by apply evolves_refl|done]. }
  apply total_call. intros r _.
  assert (evolves w h w (h ++ [answered (DGetTransaction hash) r])) as He by by apply evolves_call.
  assert (total (wait_loop n ctxErr hash) w (h ++ [answered (DGetTransaction hash) r]) (λ r w' h',
    evolves w h w' h' ∧ match r with GVal meta => succeeded h' hash meta | GErr _ => True | _ => False end)) as Hnext.
  { eapply total_mono; [|apply IH, He]. intros r' w' h' [? ?]. split; [by eapply evolves_trans|done]. }
  destruct r as [g|e]; [|done]. case_decide as Hst.
  - case_decide; [by split|]. destruct (UnmarshalTransactionMeta _) as [m|e] eqn:Hm; cbn; [|by split].
    split; [done|]. exists g. split; [|done]. apply elem_of_app. right. apply list_elem_of_here.
  - case_decide; [by split|done].
Qed.

Lemma wait_total hash deadline w h :
  good w h → total (waitForTransaction hash deadline) w h (λ r w' h',
    evolves w h w' h' ∧ match r with GVal meta => succeeded h' hash meta | GErr _ => True | _ => False end).
Proof.
  intros Hg. unfold waitForTransaction. apply total_call. intros now _.
  assert (evolves w h w (h ++ [answered DNow now])) as He by by apply evolves_call.
  destruct (_ <=? 0); [by split|]. apply total_call. intros [n ctxErr] _.
  eapply total_mono; [|apply wait_loop_total, good_plain; [apply He|done]].
  intros r w' h' [? ?]. split; [|done]. eapply evolves_trans; [exact He|].
  eapply evolves_trans; [|done]. apply evolves_call; [apply He|done].
Qed.

(** ** Restoration, assembly, submission *)

Lemma new_deadline_total w h Q :
  good w h → (∀ dl h', evolves w h w h' → clocked h' dl → (∀ s, last_sequence h = s → last_sequence h' = s) → Q dl w h') →
  total (new_deadline d) w h Q.
Proof.
  intros Hg HQ. unfold new_deadline. apply total_call. intros now _. cbn [Prog.total]. apply HQ.
  - by apply evolves_call.
  - exists now. split; [|done]. apply elem_of_app. right. apply list_elem_of_here.
  - intros s <-. by rewrite last_sequence_snoc.
Qed.

Lemma alloc_op_total o w h Q :
  good w h → okop o →
  (∀ w' op, evolves w h w' h → ops w' !! op = Some o → (op < nextOp w')%positive → sendable w' op → Q op w' h) →
  total (alloc_op o) w h Q.
Proof.
  intros Hg Hok HQ. cbn.
  assert (ops (mkDeployerState (accountSequence w) (<[nextOp w := o]> (ops w)) (Pos.succ (nextOp w))) !! nextOp w = Some o) as Ho
    by apply lookup_insert_eq.
  apply HQ; [|done|cbn; lia|by exists o]. apply evolves_keeps; [done|]. split_and!; [|cbn; lia|].
  - intros l [o' [Hl Hok']]. destruct (decide (l = nextOp w)) as [->|]; [by exists o|].
    exists o'. split; [|done]. cbn. by rewrite lookup_insert_ne.
  - intros l o' Hl Ho'. cbn. rewrite lookup_insert_ne; [done|lia].
Qed.

Lemma write_op_evolves l g w h : good w h → (∀ o, okop o → okop (g o)) → (∀ o, g (OtherOp o) = OtherOp o) →
  evolves w h (set_ops (alter g l) w) h.
Proof.
  intros Hg Hok Hother. apply evolves_keeps; [done|]. split_and!; [|cbn; lia|].
  - intros l' [o [Ho Hok']]. unfold sendable. cbn. destruct (decide (l' = l)) as [->|].
    + rewrite lookup_alter_eq, Ho. eexists. split; [done|]. by apply Hok.
    + rewrite lookup_alter_ne by done. by exists o.
  - intros l' o _ Ho. cbn. destruct (decide (l' = l)) as [->|]; [|by rewrite lookup_alter_ne].
    rewrite lookup_alter_eq, Ho. cbn. by rewrite Hother.
Qed.

Lemma restoreFootprint_total preamble w h : good w h →
  total (restoreFootprint d preamble) w h (λ r w' h', evolves w h w' h' ∧ ∀ m, r ≠ GPanic m).
Proof.
  intros Hg. unfold restoreFootprint.
  eapply total_seq; [by eapply new_deadline_total with (Q := λ dl w' h', evolves w h w' h' ∧ clocked h' dl ∧ w' = w)|].
  intros dl w1 h1 (He1 & Hc & ->).
  eapply total_gctx_gthen; [apply getSourceAccount_total, He1|].
  intros r w2 h2 [He2 Ha]. destruct r as [a|e|m]; cbn in Ha; [|split; [by eapply evolves_trans|done]|done].
  pose proof (evolves_trans _ _ _ _ _ _ He1 He2) as He. unfold gthen at 1. cbn [mbind prog_mbind prog_bind].
  destruct (UnmarshalSorobanData _) as [sd|e]; cbn [wrap_err of_result Prog.total]; [|by split].
  eapply total_seq; [apply alloc_op_total with (Q := λ op w' h', evolves w2 h2 w' h' ∧ h' = h2 ∧ sendable w' op ∧ ∃ o, ops w' !! op = Some o);
    [apply He|apply Hrestore|eauto 8]|].
  intros op w3 h3 (He3 & -> & Hop & o & Ho).
  eapply total_seq; [apply read_op_total with (Q := λ os w' h', os = [(op, o)] ∧ w' = w3 ∧ h' = h2); [by eexists|]|].
  { intros o' Ho'. split_and!; [congruence|done..]. }
  intros os w4 h4 (-> & -> & ->). pose proof (evolves_trans _ _ _ _ _ _ He He3) as He4.
  unfold gthen at 1. cbn [mbind prog_mbind prog_bind].
  destruct (NewTransaction _) as [tx|e] eqn:Hn; cbn [wrap_err of_result Prog.total]; [|by split].
  destruct (new_tx_fresh w3 _ _ _ _ _ _ _ Hn Ha Hop) as [Hf _].
  eapply total_gthen; [eapply sign_and_send_total; [apply He4|exact Hf|exact (evolves_clocked _ _ _ _ _ He2 Hc)]|].
  intros r w5 h5 [He5 Hr]. pose proof (evolves_trans _ _ _ _ _ _ He4 He5) as He6.
  destruct r as [hash|e|m]; cbn in Hr; [|by split|done].
  eapply total_gctx_gthen; [apply wait_total, He6|]. intros r w6 h6 [He7 Hr'].
  pose proof (evolves_trans _ _ _ _ _ _ He6 He7). by destruct r as [meta|e|m]; cbn in Hr' |- *.
Qed.

Lemma inject_total op0 sim w h : good w h →
  total (inject op0 sim) w h (λ r w' h', evolves w h w' h' ∧ h' = h ∧ ∀ m, r ≠ GPanic m).
Proof.
  intros Hg. unfold inject. case_decide; [by split; [apply evolves_refl|]|].
  unfold gthen at 1. cbn [mbind prog_mbind prog_bind].
  destruct (UnmarshalSorobanData _) as [sd|e]; cbn [wrap_err of_result Prog.total];
    [|by split; [apply evolves_refl|]].
  apply total_gets. destruct (ops w !! op0) as [[hf src au ext|src ext|o]|]; try by split; [apply evolves_refl|].
  apply total_modify. pose proof (write_op_evolves op0 (Broadcast.set_ext sd) w h Hg (Hext sd) (λ _, eq_refl)) as He.
  destruct (Broadcast.sim_auths sim) as [|a auths]; [by split|].
  unfold gthen. cbn [mbind prog_mbind prog_bind].
  destruct (Broadcast.decode_auths (a :: auths)) as [auth|e]; cbn [of_result Prog.total]; [|by split].
  apply total_modify. split; [|done]. eapply evolves_trans; [exact He|]. by apply write_op_evolves; [apply He|apply Hauth|].
Qed.

Lemma assemble_total tx sim deadline op w h :
  good w h → tx_Operations tx = [op] → sendable w op →
  total (assembleTransaction d tx sim deadline) w h (λ r w' h',
    evolves w h w' h' ∧
    match r with
    | GVal t => tx_Operations t = [op] ∧ (fresh_tx w h deadline tx → fresh_tx w' h' deadline t)
    | GErr _ => True | _ => False
    end).
Proof.
  intros Hg Hops Hop. unfold assembleTransaction. rewrite Hops.
  eapply total_gthen; [by apply inject_total|]. intros r w1 h1 (He1 & -> & Hr).
  destruct r as [[]|e|m]; [|by split|by edestruct Hr].
  destruct (0 <? simMinResourceFee sim).
  2: { split; [done|]. split; [done|]. intros (? & ? & op' & ? & Hop'). split_and!; [done..|]. exists op'.
       split; [done|]. by eapply evolves_sendable. }
  eapply total_gthen; [apply getSourceAccount_total, He1|]. intros r w2 h2 [He2 Ha].
  pose proof (evolves_trans _ _ _ _ _ _ He1 He2) as He. destruct r as [a|e|m]; cbn in Ha; [|by split|done].
  assert (sendable w2 op) as Hop2 by by eapply evolves_sendable.
  eapply total_seq; [apply read_op_total with (Q := λ os w' h', w' = w2 ∧ h' = h2 ∧ ∃ o, os = [(op, o)]); [by destruct Hop2 as (o & ? & _); exists o|by eauto]|].
  intros os w3 h3 (-> & -> & o & ->). cbn [Prog.total]. split; [done|].
  destruct (NewTransaction _) as [t|e] eqn:Hn; [|done]. destruct (new_tx_fresh w2 _ _ _ _ _ _ _ Hn Ha Hop2). by split.
Qed.

(** What a simulation hands over to the assembly. *)
Definition prepared (P : loc → Prop) (w : DeployerState) (h : hist)
    (r : gres (Transaction * SimulateTransactionResponse * Z)) : Prop :=
  match r with
  | GVal (tx, _, dl) =>
      fresh_tx w h dl tx ∧ clocked h dl ∧ ∃ op, tx_Operations tx = [op] ∧ sendable w op ∧ P op
  | GErr _ => True
  | _ => False
  end.

Lemma with_restore_total P simulate a w h :
  good w h → fresh_account h a →
  (∀ build suffix a w1 h1, evolves w h w1 h1 → fresh_account h1 a →
     total (simulate build suffix a) w1 h1 (λ r w' h', evolves w1 h1 w' h' ∧ prepared P w' h' r)) →
  total (with_restore d simulate a) w h (λ r w' h', evolves w h w' h' ∧ prepared P w' h' r).
Proof.
  intros Hg Ha Hsim. unfold with_restore.
  eapply total_gthen; [apply Hsim; [by apply evolves_refl|done]|].
  intros r w1 h1 [He1 Hr]. destruct r as [[[tx sim] dl]|e|m]; [|by split|done]. cbn [fst snd].
  destruct (simRestorePreamble sim) as [preamble|]; [|by split]. destruct (autoRestore d); [|by split].
  eapply total_gctx_gthen; [apply restoreFootprint_total, He1|]. intros r w2 h2 [He2 Hr2].
  pose proof (evolves_trans _ _ _ _ _ _ He1 He2) as He. destruct r as [u|e|m]; cbn; [|by split|by edestruct Hr2].
  eapply total_gctx_gthen; [apply getSourceAccount_total, He|]. intros r w3 h3 [He3 Ha3].
  pose proof (evolves_trans _ _ _ _ _ _ He He3) as He4. destruct r as [a3|e|m]; cbn in Ha3; [|by split|done].
  eapply total_gthen; [by apply Hsim|]. intros r w4 h4 [He5 Hr5].
  pose proof (evolves_trans _ _ _ _ _ _ He4 He5) as He6. destruct r as [[[tx5 sim5] dl5]|e|m]; [|by split|done].
  cbn [fst snd]. by destruct (simRestorePreamble sim5).
Qed.

Lemma build_and_submit_total a op w h :
  good w h → fresh_account h a → sendable w op →
  total (buildAndSubmitTransaction d a op) w h (λ r w' h',
    evolves w h w' h' ∧
    match r with
    | GVal meta => ∃ tx hash, tx_Operations tx = [op] ∧ accepted_tx h' tx hash ∧ succeeded h' hash meta
    | GErr _ => True | _ => False
    end).
Proof.
  intros Hg Ha Hop. unfold buildAndSubmitTransaction.
  eapply total_gthen; [apply (with_restore_total (λ l, l = op)); [done..|]|].
  { intros build suffix a1 w1 h1 He1 Ha1.
    eapply total_seq; [apply new_deadline_total with (Q := λ dl w' h', w' = w1 ∧ evolves w1 h1 w1 h' ∧ clocked h' dl ∧ fresh_account h' a1);
      [apply He1|intros dl h2 He2 Hc Hl; exact (conj eq_refl (conj He2 (conj Hc (conj (proj1 Ha1) (Hl _ (proj2 Ha1))))))]|].
    intros dl w2 h2 (-> & He2 & Hc & Ha2).
    eapply total_gthen; [apply simulate_op_total; [apply He2|exact Ha2|exact Hc|exact (evolves_sendable _ _ _ _ _ He1 Hop)]|].
    intros r w3 h3 [He3 Hr]. pose proof (evolves_trans _ _ _ _ _ _ He2 He3) as He.
    destruct r as [[tx sim]|e|m]; [|by split|done]. destruct Hr as [Hf Hops]. split; [done|].
    split; [done|]. split; [exact (evolves_clocked _ _ _ _ _ He3 Hc)|]. exists op. split; [done|]. split; [|done].
    exact (evolves_sendable _ _ _ _ _ He3 (evolves_sendable _ _ _ _ _ He1 Hop)). }
  intros r w1 h1 [He1 Hr]. destruct r as [[[tx sim] dl]|e|m]; [|by split|done].
  destruct Hr as (Hf & Hc & op' & Hops & Hop' & ->).
  eapply total_gctx_gthen; [eapply assemble_total; [apply He1|exact Hops|exact Hop']|].
  intros r w2 h2 [He2 Hr]. pose proof (evolves_trans _ _ _ _ _ _ He1 He2) as He.
  destruct r as [t|e|m]; cbn in Hr; [|by split|done]. destruct Hr as [Hot Hr]. specialize (Hr Hf).
  eapply total_gthen; [eapply sign_and_send_total; [apply He|exact Hr|exact (evolves_clocked _ _ _ _ _ He2 Hc)]|].
  intros r w3 h3 [He3 Hr3]. pose proof (evolves_trans _ _ _ _ _ _ He He3) as He4.
  destruct r as [hash|e|m]; cbn in Hr3; [|by split|done].
  eapply total_mono; [|apply wait_total, He4]. intros r w4 h4 [He5 Hr5].
  split; [by eapply evolves_trans|]. destruct r as [meta|e|m]; [|done..]. exists t, hash. split; [done|]. split; [|done].
  destruct Hr3 as (signed & x & rep & ? & ? & ? & ? & ?). destruct He5 as (_ & [h5 ->] & _).
  exists signed, x, rep. split_and!; try done; [by apply signed_by_grows|]. apply elem_of_app. by left.
Qed.

(** ** The API *)

(** Every method that submits transactions; the flag tells those that deploy code. *)
Inductive api : bool → ∀ A, deploy (gres A) → Prop :=
| ApiInvoke contractID functionName args : api false _ (InvokeContract d contractID functionName args)
| ApiSimulate contractID functionName args : api false _ (SimulateContract d contractID functionName args)
| ApiClassic op : api false _ (SubmitClassicOperation d op)
| ApiDeploySAC asset : api false _ (DeploySACToken d asset)
| ApiPayment destination stroops : api false _ (SendNativePayment d destination stroops)
| ApiDeploy wasmPath salt : api true _ (DeployContract d wasmPath salt)
| ApiDeployBytes wasmBytes salt : api true _ (DeployContractBytes d wasmBytes salt).

(** The metadata carries a return value that the decoder can have made. *)
Definition readable_return (meta : TransactionMeta) : bool :=
  match meta with
  | MetaV4 (Some (Some None)) => false
  | MetaV4 (Some (Some (Some v))) | MetaV3 (Some (Some v)) => valid v
  | _ => true
  end.
(** The answers that a deployment relies on besides: a transaction that succeeded has one. *)
Definition readable_answer {X} (e : deploy_ext X) : X → Prop :=
  match e in deploy_ext X return X → Prop with
  | DGetTransaction _ => λ r, match r with
      | Ok g => grStatus g = "SUCCESS" →
                ∀ meta, UnmarshalTransactionMeta (grResultMetaXDR g) = Ok meta → readable_return meta = true
      | Err _ => True
      end
  | _ => λ _, True
  end.
Definition deploy_sane X (e : deploy_ext X) (x : X) : Prop := sane e x ∧ readable_answer e x.
Definition unreadable (h : hist) : Prop :=
  ∃ hash meta, succeeded h hash meta ∧ readable_return meta = false.
Lemma sane_readable h : answers_in deploy_sane h → ¬ unreadable h.
Proof.
  intros Hh (hash & meta & (g & Hin & Hs & Hm) & Hr). destruct (answers_elem _ _ _ _ Hh Hin) as [_ H].
  cbn in H. by rewrite (H Hs meta Hm) in Hr.
Qed.
Definition deployed {A} (w : DeployerState) (h : hist) (r : gres A) (w' : DeployerState) (h' : hist) : Prop :=
  evolves w h w' h' ∧ ∀ m, r = GPanic m → unreadable h'.

(** From the account to the submission of a new operation. *)
Lemma submit_op_total {A B} ctx (pre : gres B) (mk : B → Operation) (f : B → TransactionMeta → deploy (gres A)) w h Q :
  good w h → (∀ m, pre ≠ GPanic m) → (∀ b, okop (mk b)) →
  (∀ e w' h', evolves w h w' h' → Q (GErr e) w' h') →
  (∀ b meta op tx hash w' h', evolves w h w' h' → accepted_tx h' tx hash → succeeded h' hash meta →
     tx_Operations tx = [op] → (∀ o, mk b = OtherOp o → ops w' !! op = Some (OtherOp o)) →
     total (f b meta) w' h' Q) →
  total (sourceAccount <-? gctx ctx (getSourceAccount d);
         b <-? Ret pre;
         op ← alloc_op (mk b);
         meta <-? buildAndSubmitTransaction d sourceAccount op;
         f b meta) w h Q.
Proof.
  intros Hg Hpre Hok Herr Hf. eapply total_gctx_gthen; [by apply getSourceAccount_total|].
  intros r w1 h1 [He1 Ha]. destruct r as [a|e|m]; cbn in Ha; [|by apply Herr|done].
  unfold gthen at 1. cbn [mbind prog_mbind prog_bind].
  destruct pre as [b|e|m]; [|by apply Herr|by edestruct Hpre].
  eapply total_seq; [apply alloc_op_total with (Q := λ op w' h', evolves w1 h1 w' h' ∧ h' = h1 ∧ sendable w' op ∧
    (op < nextOp w')%positive ∧ ops w' !! op = Some (mk b)); [apply He1|done|by intros; split_and!]|].
  intros op w2 h2 (He2 & -> & Hop & Hlt & Ho). pose proof (evolves_trans _ _ _ _ _ _ He1 He2) as He.
  eapply total_gthen; [apply build_and_submit_total; [apply He|exact Ha|exact Hop]|].
  intros r w3 h3 [He3 Hr]. pose proof (evolves_trans _ _ _ _ _ _ He He3).
  destruct r as [meta|e|m]; [|by apply Herr|done]. destruct Hr as (tx & hash & ? & ? & ?). eapply Hf; [done..|].
  intros o Hmk. destruct He3 as (_ & _ & _ & _ & Hother). apply Hother; [done|]. by rewrite <- Hmk.
Qed.

(** A payment of the native asset: the text of its amount is that of the stroops. *)
Lemma SendNativePayment_total dest stroops w h :
  good w h → okop (OtherOp (Payment dest (pretty stroops))) →
  total (SendNativePayment d dest stroops) w h (λ r w' h', evolves w h w' h' ∧
    match r with
    | GVal _ => 0 < stroops ∧ ∃ tx op hash meta, tx_Operations tx = [op] ∧
        ops w' !! op = Some (OtherOp (Payment dest (pretty stroops))) ∧ accepted_tx h' tx hash ∧ succeeded h' hash meta
    | GErr _ => True | _ => False
    end).
Proof.
  intros Hg Hok. unfold SendNativePayment. destruct (Z.leb_spec stroops 0) as [|Hpos]; [by split; [apply evolves_refl|]|].
  unfold gthen at 1. cbn [mbind prog_mbind prog_bind].
  destruct (Sdk.AddressToAccountId dest); cbn [wrap_err of_result]; [|by split; [apply evolves_refl|]].
  eapply (submit_op_total _ (GVal tt) (λ _, OtherOp (Payment dest (pretty stroops))) (λ _ _, Ret (GVal tt))); [done..| |].
  { intros e w' h' He. by split. }
  intros _ meta op tx hash w' h' He Hacc Hsuc Hops Ho. split; [done|]. split; [done|].
  exists tx, op, hash, meta. split_and!; [done|by apply Ho|done..].
Qed.

(** The balance is that of the account entry that the node answers; an answer for an account
    key is an account entry, or none. *)
Definition account_answer {X} (e : deploy_ext X) : X → Prop :=
  match e in deploy_ext X return X → Prop with
  | DGetLedgerEntries _ => λ r, match r with
      | Ok entries => match first_entry entries with
                      | Some x => UnmarshalAccountEntry x ≠ Ok None
                      | None => True
                      end
      | Err _ => True
      end
  | _ => λ _, True
  end.
Definition account_sane X (e : deploy_ext X) (x : X) : Prop := sane e x ∧ account_answer e x.
Definition has_balance (h : hist) (bal : Z) : Prop :=
  ∃ key entries x seqN, answered (E := deploy_ext) (DGetLedgerEntries key) (Ok entries) ∈ h ∧
    first_entry entries = Some x ∧ UnmarshalAccountEntry x = Ok (Some (seqN, bal)).
Lemma has_balance_grows h h2 bal : has_balance h bal → has_balance (h ++ h2) bal.
Proof. intros (k & l & x & q & Hin & H). exists k, l, x, q. split; [|done]. apply elem_of_app. by left. Qed.

Lemma NativeAccountState_total raw w h : good w h →
  Prog.total account_sane (NativeAccountState raw) w h (λ r w' h', w' = w ∧ evolves w h w h' ∧ omap sending h' = omap sending h ∧
    match r with
    | GVal (bal, _, ex) => ex = true → has_balance h' bal
    | GErr _ => True
    | GPanic _ => False
    end).
Proof.
  intros Hg. unfold NativeAccountState. destruct (negb _); [split_and!; try done; by apply evolves_refl|].
  unfold gthen at 1. cbn [mbind prog_mbind prog_bind].
  destruct (Encode _ raw) as [g|e]; cbn [wrap_err of_result]; [|split_and!; try done; by apply evolves_refl].
  unfold gthen at 1. cbn [mbind prog_mbind prog_bind].
  destruct (Sdk.AddressToAccountId g) as [aid|e]; cbn [wrap_err of_result]; [|split_and!; try done; by apply evolves_refl].
  unfold gthen at 1. cbn [mbind prog_mbind prog_bind].
  destruct (MarshalAccountKey aid) as [key|e]; cbn [wrap_err of_result]; [|split_and!; try done; by apply evolves_refl].
  unfold gthen at 1, gctx, gcall, call. cbn [prog_bind mbind prog_mbind Prog.total]. intros r [_ Hr].
  assert (evolves w h w (h ++ [answered (DGetLedgerEntries key) r])) as He by by apply evolves_call.
  assert (omap sending (h ++ [answered (DGetLedgerEntries key) r]) = omap sending h) as Hs
    by (rewrite omap_app; cbn; by rewrite app_nil_r).
  destruct r as [entries|e]; cbn [of_result gwrap prog_bind Prog.total]; [|by split_and!].
  cbn in Hr. destruct (first_entry entries) as [x|] eqn:Hx; [|by split_and!].
  unfold gthen. cbn [mbind prog_mbind prog_bind].
  destruct (UnmarshalAccountEntry x) as [[[seqN bal]|]|e] eqn:Hu; cbn [wrap_err of_result]; [|done|by split_and!].
  destruct (seqN <? 0); [by split_and!|]. split_and!; try done. intros _. exists key, entries, x, seqN.
  split; [|done]. apply elem_of_app. right. apply list_elem_of_here.
Qed.

(** For the rest of the methods, any operation. *)
Context (Hany : ∀ o, okop o).
Lemma contract_function_no_panic c f args m : contract_function c f args ≠ GPanic m.
Proof.
  unfold contract_function. destruct (Decode _ _); cbn; [|done]. by destruct (ScVal.BuildContractScAddress _).
Qed.
Lemma extract_no_panic h hash meta : succeeded h hash meta →
  ∀ m, extractReturnValue (Some meta) ≠ GPanic m.
Proof. intros (g & _ & _ & Hm%UnmarshalMeta_valid) m. by destruct meta as [[?|]|[[?|]|]|]. Qed.

Lemma return_readable meta : valid_meta meta = true → readable_return meta = true →
  match soroban_return (Some meta) with
  | GVal None => False | GVal (Some v) => valid v = true | GErr _ => True | GPanic _ => False
  end.
Proof. by destruct meta as [[[v|]|]|[[[v|]|]|]|n]. Qed.
Lemma hash_readable meta m : valid_meta meta = true →
  extractWASMHash (Some meta) = GPanic m → readable_return meta = false.
Proof.
  intros Hv Hp. destruct (readable_return meta) eqn:Hr; [|done]. pose proof (return_readable _ Hv Hr) as H.
  unfold extractWASMHash in Hp. destruct (soroban_return (Some meta)) as [[v|]|e|m']; [|done..].
  destruct v as [ | | | | | | | | | | | | | [b|] | | | | | | | | | ]; done.
Qed.
Lemma id_readable meta m : valid_meta meta = true →
  extractContractID (Some meta) = GPanic m → readable_return meta = false.
Proof.
  intros Hv Hp. destruct (readable_return meta) eqn:Hr; [|done]. pose proof (return_readable _ Hv Hr) as H.
  unfold extractContractID in Hp. destruct (soroban_return (Some meta)) as [[v|]|e|m']; [|done..].
  destruct v as [ | | | | | | | | | | | | | | | | | | [a|] | | | | ]; try done.
  destruct a as [ |[b|]| | | | ]; try done. cbn in Hp. by destruct (Encode _ _).
Qed.

Lemma uploadWASM_total wasm w h : good w h → total (uploadWASM d wasm) w h (deployed w h).
Proof.
  intros Hg. unfold uploadWASM.
  eapply (submit_op_total _ (GVal tt) (λ _, InvokeHostFunction (UploadContractWasm wasm) (Address (signer d)) [] None)
    (λ _ meta, Ret (gwrap "failed to extract WASM hash" (extractWASMHash (Some meta))))); [done|done|by intros; apply Hany| |].
  { intros e w' h' He. by split. }
  intros _ meta op tx hash w' h' He _ Hsuc _ _. cbn [Prog.total]. split; [done|]. intros m Hm.
  exists hash, meta. split; [done|]. destruct Hsuc as (g & _ & _ & Hmeta%UnmarshalMeta_valid).
  eapply hash_readable; [done|]. by destruct (extractWASMHash (Some meta)).
Qed.
Lemma createContractInstance_total wasmHash salt w h : good w h →
  total (createContractInstance d wasmHash salt) w h (deployed w h).
Proof.
  intros Hg. unfold createContractInstance.
  eapply (submit_op_total _ _ (λ pubKeyBytes, InvokeHostFunction
      (CreateContractFromAddress (copy_into 32 pubKeyBytes) salt wasmHash) (Address (signer d)) [] None)
    (λ _ meta, Ret (gwrap "failed to extract contract ID" (extractContractID (Some meta))))); [done| |by intros; apply Hany| |].
  { intros m. by destruct (Decode _ _). }
  { intros e w' h' He. by split. }
  intros _ meta op tx hash w' h' He _ Hsuc _ _. cbn [Prog.total]. split; [done|]. intros m Hm.
  exists hash, meta. split; [done|]. destruct Hsuc as (g & _ & _ & Hmeta%UnmarshalMeta_valid).
  eapply id_readable; [done|]. by destruct (extractContractID (Some meta)).
Qed.

(** With those answers a deployment does not panic. *)
Lemma deployed_sane {A} (p : deploy (gres A)) w h :
  total p w h (deployed w h) → answers_in deploy_sane h →
  Prog.total deploy_sane p w h (λ r w' h',
    (evolves w h w' h' ∧ ∀ m, r ≠ GPanic m) ∧ answers_in deploy_sane h').
Proof.
  intros Hp Hh. eapply total_mono; [|apply total_answers; [eapply total_sub; [|exact Hp]; by intros X e x [? _]|exact Hh]].
  intros r w' h' [[He Hr] Ha]. split_and!; [done| |done]. intros m ->. by apply (sane_readable h'), (Hr m).
Qed.
Lemma DeployContractBytes_total wasm salt w h : good w h → answers_in deploy_sane h →
  Prog.total deploy_sane (DeployContractBytes d wasm salt) w h (λ r w' h', evolves w h w' h' ∧ ∀ m, r ≠ GPanic m).
Proof.
  intros Hg Hh. unfold DeployContractBytes.
  eapply total_gctx_gthen; [by apply deployed_sane; [apply uploadWASM_total|]|].
  intros r w1 h1 [[He1 Hr] Ha]. destruct r as [wasmHash|e|m]; [|by split|by destruct (Hr m)].
  apply total_gctx. eapply total_mono; [|by apply deployed_sane; [apply createContractInstance_total, He1|]].
  intros r w2 h2 [[He2 Hr2] _]. split; [by eapply evolves_trans|]. by destruct r as [|?|m].
Qed.
Lemma DeployContract_total path salt w h : good w h → answers_in deploy_sane h →
  Prog.total deploy_sane (DeployContract d path salt) w h (λ r w' h', evolves w h w' h' ∧ ∀ m, r ≠ GPanic m).
Proof.
  intros Hg Hh. unfold DeployContract, gctx at 1, gcall, call, gthen at 1.
  cbn [prog_bind mbind prog_mbind Prog.total]. intros r Hr.
  assert (evolves w h w (h ++ [answered (DReadFile path) r])) as He by by apply evolves_call.
  destruct r as [b|e]; cbn [of_result gwrap prog_bind Prog.total]; [|by split].
  eapply total_mono; [|apply DeployContractBytes_total; [apply He|by apply answers_snoc]].
  intros r w2 h2 [He2 Hr2]. split; [by eapply evolves_trans|done].
Qed.

Lemma InvokeContract_total c f args w h : good w h →
  total (InvokeContract d c f args) w h (λ r w' h',
    evolves w h w' h' ∧
    match r with
    | GVal v => ∃ hash meta, accepted h' hash ∧ succeeded h' hash meta ∧ extractReturnValue (Some meta) = GVal v
    | GErr _ => True | _ => False
    end).
Proof.
  intros Hg. unfold InvokeContract.
  eapply (submit_op_total _ _ (λ hostFn, InvokeHostFunction hostFn (Address (signer d)) [] None)
    (λ _ meta, Ret (gwrap "failed to extract return value" (extractReturnValue (Some meta)))));
    [done|apply contract_function_no_panic|by intros; apply Hany|done|].
  intros hf meta op tx hash w' h' He Hacc%accepted_of Hsuc _ _. cbn [Prog.total]. split; [done|].
  pose proof (extract_no_panic _ _ _ Hsuc) as Hn.
  destruct (extractReturnValue (Some meta)) as [v|e|m] eqn:Hx; cbn; [by exists hash, meta|done|by destruct (Hn m)].
Qed.

Lemma SimulateContract_total c f args w h : good w h →
  total (SimulateContract d c f args) w h (λ r w' h', evolves w h w' h' ∧ ∀ m, r ≠ GPanic m).
Proof.
  intros Hg. unfold SimulateContract. unfold gthen at 1. cbn [mbind prog_mbind prog_bind].
  destruct (contract_function c f args) as [hf|e|m] eqn:Hc;
    [|by split; [apply evolves_refl|]|by destruct (contract_function_no_panic _ _ _ _ Hc)].
  eapply total_gctx_gthen; [by apply getSourceAccount_total|].
  intros r w1 h1 [He1 Ha]. destruct r as [a|e|m]; cbn in Ha; [|by split|done].
  eapply total_gthen; [apply (with_restore_total (λ _, True)); [apply He1|exact Ha|]|].
  { intros build suffix a2 w2 h2 He2 Ha2.
    eapply total_seq; [apply alloc_op_total with (Q := λ op w' h', evolves w2 h2 w' h' ∧ h' = h2 ∧ sendable w' op);
      [apply He2|apply Hany|done]|].
    intros op w3 h3 (He3 & -> & Hop).
    eapply total_seq; [apply new_deadline_total with (Q := λ dl w' h', w' = w3 ∧ evolves w3 h2 w3 h' ∧ clocked h' dl ∧ fresh_account h' a2);
      [apply He3|intros dl h4 He4 Hcl Hl; exact (conj eq_refl (conj He4 (conj Hcl (conj (proj1 Ha2) (Hl _ (proj2 Ha2))))))]|].
    intros dl w4 h4 (-> & He4 & Hcl & Ha4). pose proof (evolves_trans _ _ _ _ _ _ He3 He4) as He5.
    eapply total_gthen; [apply simulate_op_total; [apply He5|exact Ha4|exact Hcl|exact (evolves_sendable _ _ _ _ _ He4 Hop)]|].
    intros r w5 h5 [He6 Hr]. pose proof (evolves_trans _ _ _ _ _ _ He5 He6) as He.
    destruct r as [[tx sim]|e|m]; [|by split|done]. destruct Hr as [Hf Hops]. split; [done|].
    split; [done|]. split; [exact (evolves_clocked _ _ _ _ _ He6 Hcl)|]. exists op. split; [done|]. split; [|done].
    exact (evolves_sendable _ _ _ _ _ He6 (evolves_sendable _ _ _ _ _ He4 Hop)). }
  intros r w2 h2 [He2 Hr]. pose proof (evolves_trans _ _ _ _ _ _ He1 He2) as He.
  destruct r as [[[tx sim] dl]|e|m]; [|by split|done]. split; [done|]. cbn [fst snd]. unfold simulated_value.
  intros m. destruct (simResults sim) as [|r rs]; [done|]. destruct (getResultXDR r); [|done].
  by destruct (UnmarshalScVal _).
Qed.

Lemma SubmitClassicOperation_total op w h : good w h →
  total (SubmitClassicOperation d op) w h (λ r w' h', evolves w h w' h' ∧ ∀ m, r ≠ GPanic m).
Proof.
  intros Hg. unfold SubmitClassicOperation.
  eapply total_gctx_gthen; [by apply getSourceAccount_total|].
  intros r w1 h1 [He1 Ha]. destruct r as [a|e|m]; cbn in Ha; [|by split|done].
  eapply total_seq; [apply new_deadline_total with (Q := λ dl w' h', w' = w1 ∧ evolves w1 h1 w1 h' ∧ clocked h' dl ∧ fresh_account h' a);
    [apply He1|intros dl h2 He2 Hc Hl; exact (conj eq_refl (conj He2 (conj Hc (conj (proj1 Ha) (Hl _ (proj2 Ha))))))]|].
  intros dl w2 h2 (-> & He2 & Hc & Ha2). pose proof (evolves_trans _ _ _ _ _ _ He1 He2) as He.
  eapply total_seq; [apply alloc_op_total with (Q := λ l w' h', evolves w1 h2 w' h' ∧ h' = h2 ∧ sendable w' l ∧ ∃ o, ops w' !! l = Some o);
    [apply He|apply Hany|eauto 8]|].
  intros l w3 h3 (He3 & -> & Hl & o & Ho). pose proof (evolves_trans _ _ _ _ _ _ He He3) as He4.
  eapply total_seq; [apply read_op_total with (Q := λ os w' h', os = [(l, o)] ∧ w' = w3 ∧ h' = h2); [by eexists|]|].
  { intros o' Ho'. split_and!; [congruence|done..]. }
  intros os w4 h4 (-> & -> & ->). unfold gthen at 1. cbn [mbind prog_mbind prog_bind].
  destruct (NewTransaction _) as [tx|e] eqn:Hn; cbn [wrap_err of_result Prog.total]; [|by split].
  destruct (new_tx_fresh w3 _ _ _ _ _ _ _ Hn Ha2 Hl) as [Hf _].
  eapply total_gthen; [eapply sign_and_send_total; [apply He4|exact Hf|exact Hc]|].
  intros r w5 h5 [He5 Hr]. pose proof (evolves_trans _ _ _ _ _ _ He4 He5) as He6.
  destruct r as [hash|e|m]; cbn in Hr; [|by split|done].
  eapply total_gthen; [apply wait_total, He6|]. intros r w6 h6 [He7 Hr'].
  pose proof (evolves_trans _ _ _ _ _ _ He6 He7). by destruct r as [meta|e|m]; cbn in Hr' |- *.
Qed.

Lemma api_total {A} deploys (p : deploy (gres A)) w : api deploys A p →
  Prog.total (if deploys then deploy_sane else @sane) p w [] (λ r w' h', evolves w [] w' h' ∧ ∀ m, r ≠ GPanic m).
Proof.
  intros Hp. assert (good w []) as Hg by (intros [|? ?]; done). remember [] as h eqn:Hh.
  destruct Hp as [c f args|c f args|op|asset|dest stroops|path salt|wasm salt].
  - eapply total_mono; [|by apply InvokeContract_total]. intros r w' h' [? Hr]. split; [done|]. by destruct r.
  - by apply SimulateContract_total.
  - by apply SubmitClassicOperation_total.
  - unfold DeploySACToken. eapply total_gctx_gthen; [by apply getSourceAccount_total|].
    intros r w1 h1 [He1 Ha]. destruct r as [a|e|m]; cbn in Ha; [|by split|done].
    eapply total_seq; [apply alloc_op_total with (Q := λ op w' h', evolves w1 h1 w' h' ∧ h' = h1 ∧ sendable w' op);
      [apply He1|apply Hany|done]|].
    intros op w2 h2 (He2 & -> & Hop). pose proof (evolves_trans _ _ _ _ _ _ He1 He2) as He.
    eapply total_gctx_gthen; [apply build_and_submit_total; [apply He|exact Ha|exact Hop]|].
    intros r w3 h3 [He3 Hr]. pose proof (evolves_trans _ _ _ _ _ _ He He3).
    destruct r as [meta|e|m]; [|by split|done]. split; [done|]. by destruct (ComputeSACContractID _ _).
  - eapply total_mono; [|by apply SendNativePayment_total]. intros r w' h' [? Hr]. split; [done|]. by destruct r.
  - apply DeployContract_total; [done|]. subst h. by apply answers_nil.
  - apply DeployContractBytes_total; [done|]. subst h. by apply answers_nil.
Qed.
End deployer.

Definition any_op (_ : Operation) : Prop := True.

(** ** How often it sends

    [costs k p]: [p] sends at most [k] transactions. *)

Definition send_cost (X : Type) (e : deploy_ext X) : nat :=
  match e with DSendTransaction _ => 1 | _ => 0 end.
Definition costs {A} (k : nat) (p : deploy A) : Prop :=
  ∀ n, spend send_cost p (k + n) (λ _ m, n ≤ m)%nat.

Lemma costs_ret {A} k (a : A) : costs k (Ret a).
Proof. intros n. cbn. lia. Qed.
Lemma costs_le {A} j k (p : deploy A) : (j ≤ k)%nat → costs j p → costs k p.
Proof.
  intros Hk Hp n. replace (k + n)%nat with (j + (k - j + n))%nat by lia.
  eapply spend_weaken; [apply Hp|]. cbn. intros _ m. lia.
Qed.
Lemma costs_bind {A B} j k (p : deploy A) (f : A → deploy B) :
  costs j p → (∀ a, costs k (f a)) → costs (j + k) (p ≫= f).
Proof.
  intros Hp Hf n. rewrite <- Nat.add_assoc. eapply spend_seq; [apply Hp|]. intros a m Hm.
  eapply spend_mono; [exact Hm| |apply Hf]. cbn. intros _ x y. lia.
Qed.
Lemma costs_gthen {A B} j k (p : deploy (gres A)) (f : A → deploy (gres B)) :
  costs j p → (∀ a, costs k (f a)) → costs (j + k) (gthen p f).
Proof.
  intros Hp Hf. apply costs_bind; [done|]. intros [a|e|m]; [apply Hf|apply costs_ret|]. by intros n.
Qed.
Lemma costs_gctx {A} k ctx (p : deploy (gres A)) : costs k p → costs k (gctx ctx p).
Proof.
  intros Hp. rewrite <- (Nat.add_0_r k). apply costs_bind; [done|]. intros. apply costs_ret.
Qed.
Lemma costs_call {X} (e : deploy_ext X) : costs (send_cost X e) (call e).
Proof. intros n. cbn. split; [lia|]. intros _. lia. Qed.
Lemma costs_gcall {A} (e : deploy_ext (result A)) : costs (send_cost _ e) (gcall e).
Proof. intros n. cbn. split; [lia|]. intros _. lia. Qed.
Lemma costs_step {X} (f : DeployerState → X * DeployerState) : costs 0 (atomic f).
Proof. intros n w. cbn. lia. Qed.
Lemma costs_gets {X} (f : DeployerState → X) : costs 0 (gets f).
Proof. intros n w. cbn. lia. Qed.
Lemma costs_modify f : costs 0 (modify f : deploy unit).
Proof. intros n w. cbn. lia. Qed.
Lemma costs_panic {A} k m : costs k (Panic m : deploy A).
Proof. by intros n. Qed.

(** Follow the program; what is left is a part with a lemma. *)
Ltac costs := repeat first
  [ apply costs_ret | apply costs_panic | apply costs_gets | apply costs_modify | apply costs_step
  | apply (costs_gthen 0 0) | apply (costs_bind 0 0) | apply costs_gctx
  | match goal with |- costs _ (gcall ?e) => exact (costs_gcall e) end
  | match goal with |- costs _ (call ?e) => exact (costs_call e) end | match goal with |- ∀ _, costs _ _ => intros ? end | assumption
  | match goal with |- costs _ (match ?x with _ => _ end) => destruct x end ].

Section sends.
Variable d : Deployer.
Hypothesis Hsign : ∀ pass tx, costs 0 (SignTransaction (signer d) pass tx).

Lemma costs_account : costs 0 (getSourceAccount d).
Proof. unfold getSourceAccount. costs. Qed.
Lemma costs_read_ops ls : costs 0 (read_ops ls).
Proof. unfold read_ops. costs. Qed.
Lemma costs_deadline : costs 0 (new_deadline d).
Proof. unfold new_deadline. costs. Qed.
Lemma costs_wait hash deadline : costs 0 (waitForTransaction hash deadline).
Proof.
  unfold waitForTransaction. apply (costs_bind 0 0); [costs|]. intros now.
  destruct (_ <=? 0); [apply costs_ret|]. apply (costs_bind 0 0); [costs|]. intros [n e].
  induction n as [|n IH]; cbn [wait_loop]; [apply costs_ret|]. costs.
Qed.
Lemma costs_simulate b s a op dl : costs 0 (simulate_op b s a op dl).
Proof. unfold simulate_op. apply (costs_bind 0 0); [apply costs_read_ops|]. costs. Qed.
Lemma costs_send s1 s2 s3 what tx : costs 1 (sign_and_send d s1 s2 s3 what tx).
Proof.
  unfold sign_and_send. apply (costs_gthen 0 1); [apply costs_gctx, Hsign|]. intros signed.
  apply (costs_gthen 0 1); [apply costs_ret|]. intros x.
  apply (costs_gthen 1 0); [apply costs_gctx, (costs_gcall (DSendTransaction x))|]. intros r. apply costs_ret.
Qed.
Lemma costs_restore preamble : costs 1 (restoreFootprint d preamble).
Proof.
  unfold restoreFootprint. apply (costs_bind 0 1); [apply costs_deadline|]. intros dl.
  apply (costs_gthen 0 1); [apply costs_gctx, costs_account|]. intros a.
  apply (costs_gthen 0 1); [apply costs_ret|]. intros sd.
  apply (costs_bind 0 1); [apply costs_step|]. intros op.
  apply (costs_bind 0 1); [apply costs_read_ops|]. intros os.
  apply (costs_gthen 0 1); [apply costs_ret|]. intros tx.
  apply (costs_gthen 1 0); [apply costs_send|]. intros hash.
  apply (costs_gthen 0 0); [apply costs_gctx, costs_wait|]. intros m. apply costs_ret.
Qed.
Lemma costs_assemble tx sim dl : costs 0 (assembleTransaction d tx sim dl).
Proof.
  unfold assembleTransaction. destruct (tx_Operations tx) as [|op ls]; [apply costs_ret|].
  apply (costs_gthen 0 0); [unfold inject, write_op; costs|]. intros u.
  destruct (0 <? _); [|apply costs_ret]. apply (costs_gthen 0 0); [apply costs_account|]. intros a.
  apply (costs_bind 0 0); [apply costs_read_ops|]. intros os. apply costs_ret.
Qed.

(** One for the restoration, when it is allowed. *)
Definition restorations : nat := if autoRestore d then 1 else 0.
Lemma costs_with_restore simulate a :
  (∀ b s a, costs 0 (simulate b s a)) → costs restorations (with_restore d simulate a).
Proof.
  intros Hs. unfold with_restore, restorations.
  assert (∀ k r, costs k (Ret r : deploy (gres (Transaction * SimulateTransactionResponse * Z)))) by (intros; apply costs_ret).
  apply (costs_gthen 0 _); [apply Hs|]. intros [[tx sim] dl]. cbn [fst snd].
  destruct (simRestorePreamble sim) as [p|]; [|done]. destruct (autoRestore d); [|done].
  apply (costs_gthen 1 0); [apply costs_gctx, costs_restore|]. intros u.
  apply (costs_gthen 0 0); [apply costs_gctx, costs_account|]. intros a'.
  apply (costs_gthen 0 0); [apply Hs|]. intros [[tx' sim'] dl']. cbn [fst snd].
  by destruct (simRestorePreamble sim').
Qed.
Lemma costs_build a op : costs (restorations + 1) (buildAndSubmitTransaction d a op).
Proof.
  unfold buildAndSubmitTransaction. apply costs_gthen.
  - apply costs_with_restore. intros b s a'. apply (costs_bind 0 0); [apply costs_deadline|]. intros dl.
    apply (costs_gthen 0 0); [apply costs_simulate|]. intros r. apply costs_ret.
  - intros [[tx sim] dl]. apply (costs_gthen 0 1); [apply costs_gctx, costs_assemble|]. intros t.
    apply (costs_gthen 1 0); [apply costs_send|]. intros hash. apply costs_wait.
Qed.
Lemma costs_invoke c f args : costs (restorations + 1) (InvokeContract d c f args).
Proof.
  unfold InvokeContract. apply (costs_gthen 0 (restorations + 1)); [apply costs_gctx, costs_account|]. intros a.
  apply (costs_gthen 0 (restorations + 1)); [apply costs_ret|]. intros hf.
  apply (costs_bind 0 (restorations + 1)); [apply costs_step|]. intros op.
  rewrite <- (Nat.add_0_r (restorations + 1)). apply costs_gthen; [apply costs_build|]. intros m. apply costs_ret.
Qed.
Lemma costs_simulate_contract c f args : costs restorations (SimulateContract d c f args).
Proof.
  unfold SimulateContract. apply (costs_gthen 0 restorations); [apply costs_ret|]. intros hf.
  apply (costs_gthen 0 restorations); [apply costs_gctx, costs_account|]. intros a.
  rewrite <- (Nat.add_0_r restorations). apply costs_gthen; [|intros r; apply costs_ret].
  apply costs_with_restore. intros b s a'. apply (costs_bind 0 0); [apply costs_step|]. intros op.
  apply (costs_bind 0 0); [apply costs_deadline|]. intros dl.
  apply (costs_gthen 0 0); [apply costs_simulate|]. intros r. apply costs_ret.
Qed.
End sends.

Lemma costs_signers s pass tx : known_signer s → costs 0 (SignTransaction s pass tx).
Proof.
  intros (a & [-> | [-> | (k & pk & -> & _)]]); cbn [SignTransaction keypairSigner sdkTxSigner keystoreTxSigner]; costs.
Qed.
(** ** Fees *)

(** [ceil(z/4)], what a factor of 1.25 adds to a fee [z]. *)
Definition ceil_4 (z : Z) : Z := (z + 3) / 4.

Lemma mul_quarter_exact q : Zpos q < 2 ^ 53 →
  f64_mul (f64_of_Z (Zpos q)) (SFsub 53 1024 f64_1_25 f64_one) = norm q (-2).
Proof.
  intros Hq. rewrite f64_of_pos by lia. assert (digits q <= 53) by (apply digits_le; lia).
  pose proof (digits_bounds q).
  replace (SFsub 53 1024 f64_1_25 f64_one) with (S754_finite false 4503599627370496 (-54)) by (vm_compute; reflexivity).
  unfold f64_mul, SFmul, norm. cbn [xorb].
  replace (shiftl_pos q (53 - digits q) * 4503599627370496)%positive with (shiftl_pos q (105 - digits q)).
  - rewrite round_exact by lia. unfold norm. f_equal. lia.
  - apply Pos2Z.inj. rewrite Pos2Z.inj_mul, !shiftl_pos_Z by lia.
    replace (105 - digits q) with (52 + (53 - digits q)) by lia.
    rewrite Z.pow_add_r by lia. lia.
Qed.

Lemma feeBumpExtra_quarter z : 0 < z < 2 ^ 51 → feeBumpExtra z f64_1_25 = ceil_4 z.
Proof.
  intros Hz. unfold feeBumpExtra. rewrite (proj2 (Z.leb_gt _ _)) by lia.
  destruct z as [|q|]; [lia| |lia]. rewrite mul_quarter_exact by lia. unfold norm at 1. cbn iota.
  rewrite norm_ceil; [|lia| |lia]; [|apply digits_le; lia]. replace (2 ^ - -2) with 4 by done.
  assert (- (- Zpos q / 4) = ceil_4 (Zpos q)) as ->.
  { unfold ceil_4. pose proof (Z.div_mod (- Zpos q) 4 ltac:(lia)).
    pose proof (Z.mod_pos_bound (- Zpos q) 4 ltac:(lia)).
    apply (Z.div_unique _ _ _ (Zpos q + 3 + 4 * (- Zpos q / 4))); lia. }
  apply f64_to_int64_of_Z. unfold ceil_4. split; [apply Z.div_str_pos; lia|].
  apply Z.div_lt_upper_bound; lia.
Qed.

Lemma bumped_fee_exact d m : feeBumpFactor d = f64_1_25 → 0 < m < 2 ^ 51 →
  bumped_fee d m = m + Z.max (ceil_4 m) minFeeBuffer.
Proof.
  intros Hf Hm. unfold bumped_fee. rewrite Hf, feeBumpExtra_quarter by done. apply int64_id, is_int64_spec.
  unfold ceil_4, minFeeBuffer. assert (0 <= (m + 3) / 4 < 2 ^ 51); [|lia].
  split; [apply Z.div_pos; lia|apply Z.div_lt_upper_bound; lia].
Qed.

Section fees.
Variable d : Deployer.

Lemma account_ops w h : traced (getSourceAccount d) w h (λ _ w' _, ops w' = ops w).
Proof.
  unfold getSourceAccount. destruct (Sdk.AddressToAccountId _) as [acct|]; [|done].
  unfold gthen at 1. cbn [mbind prog_mbind prog_bind].
  destruct (MarshalAccountKey acct) as [key|e]; cbn [wrap_err of_result]; [|done].
  unfold gthen, gctx, gcall, call. cbn [prog_bind mbind prog_mbind traced]. intros [entries|e]; cbn [of_result gwrap prog_bind traced]; [|done].
  destruct (first_entry entries) as [x|]; cbn [prog_bind traced mbind prog_mbind]; [|done].
  by destruct (UnmarshalLedgerEntryData x) as [[n|typ]|e].
Qed.

Lemma inject_carries_fee op0 sim sd hf src au ext w h :
  ops w !! op0 = Some (InvokeHostFunction hf src au ext) →
  TransactionDataXDR sim ≠ "" → UnmarshalSorobanData (TransactionDataXDR sim) = Ok sd →
  traced (inject op0 sim) w h (λ r w' _, r = GVal tt →
    ∃ o, ops w' !! op0 = Some o ∧ op_resource_fee o = ResourceFee sd).
Proof.
  intros Ho Hx Hsd. unfold inject. rewrite decide_False by done. rewrite Hsd.
  unfold gthen at 1. cbn [wrap_err of_result mbind prog_mbind prog_bind]. apply traced_gets. rewrite Ho. apply traced_modify.
  destruct (Broadcast.sim_auths sim) as [|a auths].
  { intros _. cbn. rewrite lookup_alter_eq, Ho. by eexists. }
  unfold gthen. cbn [mbind prog_mbind prog_bind].
  destruct (Broadcast.decode_auths (a :: auths)) as [auth|e]; cbn [of_result]; [|done].
  apply traced_modify. intros _. cbn. rewrite lookup_alter_eq, lookup_alter_eq, Ho. by eexists.
Qed.

Context {SL : SdkLaws}.
Lemma assembled_fee tx sim deadline op0 hf src au ext sd w h :
  tx_Operations tx = [op0] → ops w !! op0 = Some (InvokeHostFunction hf src au ext) →
  TransactionDataXDR sim ≠ "" → UnmarshalSorobanData (TransactionDataXDR sim) = Ok sd →
  0 < simMinResourceFee sim →
  traced (assembleTransaction d tx sim deadline) w h (λ r _ _,
    ∀ t, r = GVal t → tx_MaxFee t = bumped_fee d (simMinResourceFee sim) + ResourceFee sd).
Proof.
  intros Hops Ho Hx Hsd Hm. unfold assembleTransaction. rewrite Hops.
  eapply traced_gthen; [by eapply inject_carries_fee|]. intros [[]|e|m] w1 h1 H1; [|done..].
  destruct (H1 eq_refl) as (o & Ho1 & Hfee). rewrite (proj2 (Z.ltb_lt _ _)) by done.
  eapply traced_gthen; [apply account_ops|]. intros [a|e|m] w2 h2 H2; [|done..].
  unfold read_ops, gets. cbn. rewrite H2, Ho1. cbn. intros t Ht.
  destruct (NewTransaction _) as [t'|e] eqn:Hn; [|done]. cbn in Ht. injection Ht as <-.
  rewrite (new_fee _ _ Hn). cbn. rewrite Hfee. lia.
Qed.
End fees.
(** ** Options *)

Inductive option_value :=
| OptAutoRestore (enabled : bool) | OptFeeBumpFactor (factor : spec_float) | OptTxnTimeBound (bound : Z).
Definition option_of (o : option_value) : DeployerOption :=
  match o with
  | OptAutoRestore b => WithAutoRestore b
  | OptFeeBumpFactor f => WithFeeBumpFactor f
  | OptTxnTimeBound t => WithTxnTimeBound t
  end.
Definition finite_at_least_1 (f : spec_float) : Prop :=
  match f with S754_nan | S754_infinity _ => False | _ => SFltb f f64_one = false end.
Definition well_formed (d : Deployer) : Prop :=
  finite_at_least_1 (feeBumpFactor d) ∧ 0 < txnTimeBound d.

Lemma one_ok : finite_at_least_1 f64_one.
Proof. vm_compute. reflexivity. Qed.
Lemma clamp_factor_ok f : finite_at_least_1 (clamp_factor f).
Proof.
  unfold clamp_factor. destruct f as [s|s| |s m e]; try exact one_ok;
    (destruct (SFltb _ _) eqn:E; [exact one_ok|exact E]).
Qed.
Lemma options_well_formed opts d : well_formed d → well_formed (foldl (λ d o, option_of o d) d opts).
Proof.
  revert d. induction opts as [|o opts IH]; intros d Hd; [done|]. cbn. apply IH. destruct Hd as [Hf Hb].
  destruct o as [b|f|t]; cbn; [done|split; [apply clamp_factor_ok|done]|].
  unfold WithTxnTimeBound. destruct (Z.ltb_spec 0 t); by split.
Qed.

(** ** Theorems *)

Lemma f64_to_int64_range f : is_int64 (f64_to_int64 f) = true.
Proof. unfold f64_to_int64. destruct (f64_trunc f) as [z|]; [destruct (is_int64 z) eqn:E|]; auto with go. Qed.
Lemma feeBumpExtra_range m f : feeBumpExtra m f <= max_int64.
Proof.
  unfold feeBumpExtra. destruct (m <=? 0); [done|].
  pose proof (λ x, proj1 (is_int64_spec _) (f64_to_int64_range x)) as H. unfold max_int64.
  repeat case_match; try lia; match goal with |- f64_to_int64 ?x <= _ => specialize (H x); lia end.
Qed.

(** C16. Whatever options it is made with, a deployer has a finite fee factor of at least 1 and
    a positive time bound, and the fee it derives from a simulated minimum is the minimum plus
    the larger of the factor's share and 10000 stroops as long as that sum fits an int64: the fee
    exceeds the minimum by 10000 exactly then. Past it the sum wraps and the fee is negative,
    although the floor is documented as always applied: with a factor of 2^51, which the option
    accepts, a minimum of 4096 gives -2^63. With the default factor this does not happen below
    2^51 stroops, where the fee is the minimum plus a quarter (rounded up) or plus 10000. *)
Theorem deployer_well_formed networkPassphrase signer opts :
  let d := fst (NewDeployerWithSigner networkPassphrase signer (option_of <$> opts)) in
  well_formed d ∧
  (∀ m, 0 <= m <= max_int64 →
    let total := m + Z.max (feeBumpExtra m (feeBumpFactor d)) 10000 in
    (total <= max_int64 → bumped_fee d m = total) ∧
    (max_int64 < total → bumped_fee d m = total - 2 ^ 64 ∧ bumped_fee d m < 0) ∧
    (m + 10000 <= bumped_fee d m ↔ total <= max_int64)) ∧
  (∀ m, feeBumpFactor d = f64_1_25 → 0 < m < 2 ^ 51 →
    bumped_fee d m = m + Z.max ((m + 3) / 4) 10000) ∧
  (opts = [OptFeeBumpFactor (S754_finite false 4503599627370496 (-1))] → bumped_fee d 4096 = - 2 ^ 63).
Proof.
  intros d. split; [|split; [|split]].
  - unfold d, NewDeployerWithSigner. cbn [fst]. rewrite foldl_fmap. apply options_well_formed. by vm_compute.
  - intros m Hm total. pose proof (feeBumpExtra_range m (feeBumpFactor d)) as Hx.
    unfold bumped_fee, minFeeBuffer, max_int64 in *. fold total.
    assert (0 <= total <= 2 ^ 64 - 2) as Ht by (unfold total; lia).
    assert (total <= 2 ^ 63 - 1 → int64 total = total) as H1 by (intros; apply int64_id, is_int64_spec; lia).
    assert (2 ^ 63 - 1 < total → int64 total = total - 2 ^ 64) as H2.
    { intros. unfold int64, swrap. rewrite (Z.mod_eq _ (2 ^ 64)) by lia.
      rewrite <- (Z.div_unique (total + 2 ^ (64 - 1)) (2 ^ 64) 1 (total + 2 ^ (64 - 1) - 2 ^ 64)) by lia. lia. }
    split; [done|]. split; [intros H; rewrite (H2 H); lia|].
    split; [intros H; destruct (Z.le_gt_cases total (2 ^ 63 - 1)); [done|rewrite H2 in H; lia]|].
    intros H. rewrite (H1 H). unfold total. lia.
  - intros m Hf Hm. by apply bumped_fee_exact.
  - intros ->. vm_compute. reflexivity.
Qed.

(** C14. What InvokeContract returns happened on chain: the call returns, with any signer of the
    code and for any answers of a node that carry account entries, and a value means that a
    transaction was signed for the network and sent, that the node accepted it under a hash,
    that it answered SUCCESS for that hash, and that the value is the return value in that
    answer's metadata. *)
Theorem invoke_value_is_on_chain {SL : SdkLaws} {ML : MetaLaws} d c f args env n w :
  known_signer (signer d) → is_ok (Sdk.AddressToAccountId (Address (signer d))) = true →
  (∀ X i (e : deploy_ext X), sane e (env X i e)) →
  ∃ r h w', hrun env (InvokeContract d c f args) n w = (Done r, h, w') ∧
    ∀ v, r = GVal v →
      ∃ hash meta, accepted d h hash ∧ succeeded h hash meta ∧ extractReturnValue (Some meta) = GVal v.
Proof.
  intros Hs Ha Henv.
  destruct (total_hrun _ _ env n w [] _ Henv (InvokeContract_total d any_op (λ _, I) (λ _ _ _, I) (λ _ _ _, I) Hs Ha (λ _, I) c f args w []
    ltac:(intros [|? ?]; done))) as (r & h & w' & Hr & Hp).
  exists r, h, w'. split; [done|]. intros v ->. by destruct Hp.
Qed.

(** C15. Every envelope that a method of the deployer sends, the two of a deployment (the upload
    of the code and the creation of the instance) and those that restore included, is that of a
    transaction that was signed for its network before, with the account's sequence in the
    newest ledger entry read, plus one, and a time bound of [txnTimeBound] after a reading of the
    clock; this holds for every kind of signer, and the call returns and does not panic. Of a
    node it is assumed that account keys have account entries and, for a deployment, that the
    metadata of a successful transaction carries a return value. *)
Theorem sent_transactions_fresh {SL : SdkLaws} {ML : MetaLaws} d deploys {A} (p : deploy (gres A)) env n w :
  known_signer (signer d) → is_ok (Sdk.AddressToAccountId (Address (signer d))) = true →
  (∀ X i (e : deploy_ext X), sane e (env X i e)) →
  (deploys = true → ∀ X i (e : deploy_ext X), readable_answer e (env X i e)) →
  api d deploys A p →
  ∃ r h w', hrun env p n w = (Done r, h, w') ∧ (∀ m, r ≠ GPanic m) ∧
    ∀ h1 ev h2 x, h = h1 ++ ev :: h2 → sending ev = Some x →
      ∃ tx signed seq now, signed_by h1 (networkPassphrase d) tx signed ∧ tx_Base64 signed = Ok x ∧
        last_sequence h1 = Some seq ∧ answered (E := deploy_ext) DNow now ∈ h1 ∧
        tx_SourceAccount tx = mkSimpleAccount (Address (signer d)) (int64 (seq + 1)) ∧
        tx_Timebounds tx = NewTimebounds 0 ((now + txnTimeBound d) / Second).
Proof.
  intros Hs Ha Henv Hread Hp.
  assert (∀ X i e, (if deploys then deploy_sane else @sane) X e (env X i e)) as Hall.
  { intros X i e. destruct deploys; [split; [done|by apply Hread]|apply Henv]. }
  destruct (total_hrun _ _ env n w [] _ Hall (api_total d any_op (λ _, I) (λ _ _ _, I) (λ _ _ _, I) Hs Ha (λ _, I) deploys p w Hp))
    as (r & h & w' & Hr & (Hg & _) & Hn).
  exists r, h, w'. split_and!; [done..|]. intros h1 ev h2 x Hh Hsend.
  destruct (Hg h1 ev h2 x Hh Hsend) as (tx & signed & dl & Hsig & Hx & (now & Hnow & ->) & (seq & Hseq & Hacc) & Htb & _).
  by exists tx, signed, seq, now.
Qed.

(** An invocation sends at most one transaction besides one restoration, which it sends
    only when restoring is allowed; a simulation sends nothing but that. This holds for every
    kind of signer and whatever the answers. *)
Theorem deployer_sends_bounded d c f args interf env t n w :
  known_signer (signer d) →
  (trace_cost send_cost (snd (fst (irun interf env (InvokeContract d c f args) t n w)))
     ≤ (if autoRestore d then 2 else 1))%nat ∧
  (trace_cost send_cost (snd (fst (irun interf env (SimulateContract d c f args) t n w)))
     ≤ (if autoRestore d then 1 else 0))%nat.
Proof.
  intros Hs. assert (∀ pass tx, costs 0 (SignTransaction (signer d) pass tx)) as Hq.
  { intros pass tx. by apply costs_signers. }
  pose proof (costs_invoke d Hq c f args 0%nat) as H1. pose proof (costs_simulate_contract d Hq c f args 0%nat) as H2.
  apply (spend_irun _ _ _ _ interf env t n w) in H1, H2. unfold restorations in *. by destruct (autoRestore d).
Qed.

(** The fee of an invocation: with the default factor 1.25 its base fee is the simulated
    minimum [m] plus [ceil(m/4)], at least 10000; but the envelope's fee adds the resource fee
    of the simulation's data to that, so when the data declares [m], as a node does, the fee
    is at least twice the minimum and not a quarter above it. *)
Theorem deployer_fee_exact {SL : SdkLaws} {ML : MetaLaws} d tx sim deadline op0 hf src au ext sd env n w :
  is_ok (Sdk.AddressToAccountId (Address (signer d))) = true →
  (∀ X i (e : deploy_ext X), sane e (env X i e)) →
  feeBumpFactor d = f64_1_25 → 0 < simMinResourceFee sim < 2 ^ 51 →
  tx_Operations tx = [op0] → ops w !! op0 = Some (InvokeHostFunction hf src au ext) →
  TransactionDataXDR sim ≠ "" → UnmarshalSorobanData (TransactionDataXDR sim) = Ok sd →
  ResourceFee sd = simMinResourceFee sim →
  let m := simMinResourceFee sim in
  match fst (fst (hrun env (assembleTransaction d tx sim deadline) n w)) with
  | Done (GVal t) => tx_MaxFee t = m + Z.max ((m + 3) / 4) 10000 + m ∧ 2 * m < tx_MaxFee t
  | Done (GErr _) => True
  | _ => False
  end.
Proof.
  intros Ha Henv Hf Hm Hops Ho Hx Hsd Hfee.
  destruct (total_hrun _ _ env n w [] _ Henv (assemble_total d any_op (λ _ _ _, I) (λ _ _ _, I) Ha tx sim deadline op0 w []
    ltac:(intros [|? ?]; done) Hops ltac:(by eexists))) as (r & h & w' & Hr & _ & Hp).
  pose proof (traced_hrun _ env n w [] _ (assembled_fee d tx sim deadline op0 hf src au ext sd w []
    Hops Ho Hx Hsd (proj1 Hm))) as Ht.
  rewrite Hr in *. cbn [fst]. destruct r as [t|e|m]; [|done..].
  rewrite (Ht t eq_refl), (bumped_fee_exact d _ Hf Hm), Hfee. unfold ceil_4, minFeeBuffer. lia.
Qed.
End props.

(** ** Concrete inputs *)

Import DemoXdr TypeConvertersProps Demo.

#[export] Instance demo_host : HostFunctions (H := demo_types) :=
  {| InvokeContractFunction a := FunctionName a |}.
#[export] Instance demo_meta : MetaSdk :=
  {| UnmarshalTransactionMeta s :=
       if decide (s = "") then Err "EOF"
       else Ok (MetaV3 (Some (Some (
         if decide (s = "code") then Xdr.ScvBytes (Some key2)
         else if decide (s = "instance") then Xdr.ScvAddress (Some (Xdr.AddressTypeContract (Some key2)))
         else Xdr.ScvSymbol (Some s))))) |}.
#[export] Instance demo_meta_laws : MetaLaws.
Proof. constructor. cbn. intros s m. case_decide; [done|]. by intros [= <-]. Qed.
#[export] Instance demo_deployer_sdk : DeployerSdk (H := demo_types) := {|
  Asset := string;
  UploadContractWasm b := "upload";
  CreateContractFromAddress a s h := "create";
  CreateContractFromAsset a := a;
  Payment _ _ := tt;
  NewTimebounds _ max := max;
  Sum256 b := take 32 b;
  MarshalContractIdPreimage n a := Ok n;
  UnmarshalAccountEntry s := Ok (Some (41, 1000))
|}.

(** The node simulates (with a restoration first, when [expired] says so), accepts, and finds
    the transaction at the second poll. *)
Definition demo_node (expired : nat → bool) : oracle (E := deploy_ext) := λ X n e,
  match e in deploy_ext X return X with
  | DNow => 1000 * Second
  | DReadFile _ => Ok []
  | DSimulateTransaction _ =>
      Ok (mkSimResponse "" "data" 700 []
            (if expired n then Some (mkRestorePreamble "restore" 400) else None))
  | DSendTransaction x => Ok (mkSendReply "PENDING" x "" [])
  | DGetTransaction _ => Ok (mkGetReply (if Nat.even n then "SUCCESS" else "NOT_FOUND") "" "done" [])
  | DGetLedgerEntries _ => Ok ["entry"]
  | DGetEvents _ => Err "no events"
  | DSignTransaction _ tx => Ok tx
  | DSignDecorated _ => Err "no signature"
  | DKeystoreSign _ _ => Ok "signature"
  | DTicks _ => (119%nat, None)
  end.
Definition demo_deployer : Deployer := fst (NewDeployer "test network" "GALICE" []).
Definition demo_state : DeployerState := snd (NewDeployer "test network" "GALICE" []).
Definition demo_invocation : deploy (gres (option Xdr.ScVal)) :=
  InvokeContract (UT := DemoXdr.demo_unicode) demo_deployer (String "C"%char (String.string_of_list_byte key2)) "transfer" [].
Lemma demo_sane expired X i (e : deploy_ext X) : sane e (demo_node expired X i e).
Proof. by destruct e. Qed.

Lemma demo_known : known_signer (signer demo_deployer).
Proof. exists "GALICE". by left. Qed.

(** The entry of the contract has expired. *)
Definition expired_once (n : nat) : bool := (n =? 2)%nat.
Definition demo_result : outcome (gres (option Xdr.ScVal)) * hist * DeployerState :=
  hrun (demo_node expired_once) demo_invocation 0 demo_state.

Lemma invoke_value_is_on_chain_witness :
  ∃ h w' hash meta, demo_result = (Done (GVal (Some (Xdr.ScvSymbol (Some "done")))), h, w') ∧
    accepted demo_deployer h hash ∧ succeeded h hash meta.
Proof.
  destruct (invoke_value_is_on_chain (SD := demo_sdk) (UT := DemoXdr.demo_unicode) demo_deployer
    (String "C"%char (String.string_of_list_byte key2)) "transfer" [] (demo_node expired_once) 0 demo_state
    demo_known eq_refl (demo_sane _)) as (r & h & w' & Hr & Hv).
  assert (r = GVal (Some (Xdr.ScvSymbol (Some "done")))) as ->.
  { assert (fst (fst demo_result) = Done (GVal (Some (Xdr.ScvSymbol (Some "done"))))) as H
      by (vm_compute; reflexivity).
    change demo_result with (hrun (demo_node expired_once) demo_invocation 0 demo_state) in H.
    unfold demo_invocation in H. rewrite Hr in H. by injection H. }
  destruct (Hv _ eq_refl) as (hash & meta & Ha & Hs & _). exists h, w', hash, meta. by split_and!.
Defined.

(** The restoration and the invocation, both with the account's sequence plus one. *)
Definition demo_sent : list string := omap sending (snd (fst demo_result)).

(** A deployment: the first success is that of the upload, the second that of the creation. *)
Definition deploying_node : oracle (E := deploy_ext) := λ X n e,
  match e in deploy_ext X return X with
  | DGetTransaction _ => Ok (mkGetReply "SUCCESS" "" (if (n <? 10)%nat then "code" else "instance") [])
  | e => demo_node (λ _, false) _ n e
  end.
Definition demo_deployment : deploy (gres string) :=
  DeployContractBytes (UT := DemoXdr.demo_unicode) demo_deployer key2 key2.
Definition is_done {A} (o : outcome (gres A)) : bool := match o with Done (GVal _) => true | _ => false end.
Definition deployment_result : outcome (gres string) * hist * DeployerState :=
  hrun deploying_node demo_deployment 0 demo_state.
Lemma deploying_sane X i (e : deploy_ext X) : sane e (deploying_node X i e).
Proof. by destruct e. Qed.
Lemma deploying_readable X i (e : deploy_ext X) : readable_answer e (deploying_node X i e).
Proof.
  destruct e; try done. cbn [readable_answer deploying_node grStatus grResultMetaXDR]. intros _ meta.
  destruct (i <? 10)%nat; cbn; intros H; by injection H as <-.
Qed.

Lemma sent_transactions_fresh_witness :
  demo_sent = ["42/11100"; "42/11400"] ∧
  (∃ r h w', demo_result = (Done r, h, w') ∧
    ∀ h1 ev h2 x, h = h1 ++ ev :: h2 → sending ev = Some x →
      ∃ tx signed, signed_by h1 "test network" tx signed ∧ tx_Base64 signed = Ok x) ∧
  length (omap sending (snd (fst deployment_result))) = 2%nat ∧
  ∃ id h w', deployment_result = (Done (GVal id), h, w') ∧
    ∀ h1 ev h2 x, h = h1 ++ ev :: h2 → sending ev = Some x →
      ∃ tx signed, signed_by h1 "test network" tx signed ∧ tx_Base64 signed = Ok x.
Proof.
  split; [vm_compute; reflexivity|]. split; [|split; [vm_compute; reflexivity|]].
  - destruct (sent_transactions_fresh (SD := demo_sdk) (UT := DemoXdr.demo_unicode) demo_deployer false
      demo_invocation (demo_node expired_once) 0 demo_state
      demo_known eq_refl (demo_sane _) ltac:(done) (ApiInvoke _ _ _ _)) as (r & h & w' & Hr & _ & Hs).
    exists r, h, w'. split; [exact Hr|]. intros h1 ev h2 x Hh He.
    destruct (Hs h1 ev h2 x Hh He) as (tx & signed & _ & _ & ? & ? & _). by exists tx, signed.
  - destruct (sent_transactions_fresh (SD := demo_sdk) (UT := DemoXdr.demo_unicode) demo_deployer true
      demo_deployment deploying_node 0 demo_state
      demo_known eq_refl deploying_sane (λ _, deploying_readable) (ApiDeployBytes _ _ _)) as (r & h & w' & Hr & _ & Hs).
    assert (is_done (fst (fst deployment_result)) = true) as Hd by (vm_compute; reflexivity).
    unfold deployment_result in *. rewrite Hr in Hd. destruct r as [id|e|m]; try discriminate Hd.
    exists id, h, w'. split; [exact Hr|]. intros h1 ev h2 x Hh He.
    destruct (Hs h1 ev h2 x Hh He) as (tx & signed & _ & _ & ? & ? & _). by exists tx, signed.
Defined.

Lemma deployer_sends_bounded_witness :
  trace_cost send_cost (snd (fst (irun (λ _ w, w) (demo_node expired_once) demo_invocation 0 0 demo_state))) = 2%nat ∧
  (trace_cost send_cost (snd (fst (irun (λ _ w, w) (demo_node expired_once) demo_invocation 0 0 demo_state))) ≤ 2)%nat.
Proof.
  split; [vm_compute; reflexivity|].
  exact (proj1 (deployer_sends_bounded (SD := demo_sdk) (UT := DemoXdr.demo_unicode) demo_deployer
    (String "C"%char (String.string_of_list_byte key2)) "transfer" [] (λ _ w, w) (demo_node expired_once) 0 0 demo_state
    demo_known)).
Defined.

(** A minimum of 700 stroops: 10000 more, and 700 again. *)
Definition fee_state : DeployerState := set_ops (insert 1%positive demo_op) demo_state.
Definition fee_sim : SimulateTransactionResponse := mkSimResponse "" "data" 700 [] None.
Definition fee_tx : DemoTransaction := mkDemoTransaction [1%positive] (mkSimpleAccount "GALICE" 42) 1120 100 [].
Lemma deployer_fee_exact_witness :
  match fst (fst (hrun (demo_node expired_once) (assembleTransaction demo_deployer fee_tx fee_sim 0) 0 fee_state)) with
  | Done (GVal t) => d_fee t = 11400 ∧ 2 * 700 < d_fee t
  | _ => False
  end.
Proof.
  pose proof (deployer_fee_exact (SD := demo_sdk) demo_deployer fee_tx fee_sim 0 1%positive "call" "GALICE" [] None
    (mkSorobanData "footprint" 700) (demo_node expired_once) 0 fee_state eq_refl (demo_sane _) eq_refl
    ltac:(cbn; lia) eq_refl eq_refl ltac:(done) eq_refl eq_refl) as H.
  assert (∃ t, fst (fst (hrun (demo_node expired_once) (assembleTransaction demo_deployer fee_tx fee_sim 0) 0 fee_state))
    = Done (GVal t)) as [t Ht] by (eexists; vm_compute; reflexivity).
  rewrite Ht in *. exact H.
Defined.
End DeployerProps.
