(* ===== verification/Chain.v ===== *)
(** The relayer's configuration and wiring: [relayer/config/config.go], [txm/network.go],
    [relayer/chain/multinode_client.go], [relayer/chain/chain.go] and the plugin's factory in
    [cmd/chainlink-stellar/main.go].

    The multinode pool is a library: a pool is the record of what it is built from. The
    configuration is a pointer that [NewChain] completes in place, so it returns the
    configuration as well. *)

From Stdlib Require Import Strings.Byte.
From stdpp Require Import base gmap list strings pretty.
From S2P Require Import Prelude GoStrings Config Float Prog Sdk TxStore Tx Txm Xdr ScVal GoBytes.
From S2P Require Import TypeConverters InvokerAdapter StellarService.

Import Config.

Local Open Scope Z_scope.

(** ** Code outside the repository

    Texts of chainlink-common's config errors, chain ids and passphrases, go-toml's strict
    decoder (which leaves no nil node) and encoder, the metrics' constructors, and SHA-256. *)

Record Node (URL : Type) := mkNode { nName : option string; nURL : option URL; nOrder : option Z }.
Arguments mkNode {URL} _ _ _.
Arguments nName {URL} _.
Arguments nURL {URL} _.
Arguments nOrder {URL} _.

Record MultiNodeConfig := mkMultiNodeConfig {
  mnEnabled : option bool;
  PollFailureThreshold : option Z;
  PollInterval : option Z;
  SelectionMode : option string;
  SyncThreshold : option Z;
  NodeIsSyncingEnabled : option bool;
  LeaseDuration : option Z;
  NewHeadsPollInterval : option Z;
  FinalizedBlockPollInterval : option Z;
  EnforceRepeatableRead : option bool;
  DeathDeclarationDelay : option Z;
  VerifyChainID : option bool;
  NodeNoNewHeadsThreshold : option Z;
  NoNewFinalizedHeadsThreshold : option Z;
  FinalityDepth : option Z;
  FinalityTagEnabled : option bool;
  FinalizedBlockOffset : option Z
}.

(** [Nodes] is a slice of pointers. *)
Record TOMLConfig (URL : Type) := mkTOMLConfig {
  Enabled : option bool;
  ChainID : string;
  Nodes : list (option (Node URL));
  TxManager : Config.Config;
  MultiNode : MultiNodeConfig;
  RequestTimeout : option Z
}.
Arguments mkTOMLConfig {URL} _ _ _ _ _ _.
Arguments Enabled {URL} _.
Arguments ChainID {URL} _.
Arguments Nodes {URL} _.
Arguments TxManager {URL} _.
Arguments MultiNode {URL} _.
Arguments RequestTimeout {URL} _.

Record StellarChain := mkStellarChain { scChainID : string; scNetworkType : string; scName : string }.

Class ChainSdk := {
  URL : Type;
  URL_String : URL → string;
  ErrMissing : string → string → string;
  ErrEmpty : string → string → string;
  STELLAR_MAINNET : StellarChain;
  STELLAR_TESTNET : StellarChain;
  STELLAR_LOCALNET : StellarChain;
  StellarALL : list StellarChain;
  StellarPassphraseFromChainId : string → result string;
  PublicNetworkPassphrase : string;
  TestNetworkPassphrase : string;
  TomlDecode : string → result (TOMLConfig URL);
  TomlMarshal : TOMLConfig URL → result string;
  NewGenericMultiNodeMetrics : string → string → result unit;
  NewRPCClientMetrics : string → string → result unit;
  network_ID : string → bytes
}.

(** Documented behaviour: the decoder allocates every node; a public chain's id is the hex of
    its network id, the three networks have
    different ids, and are in the list of all. *)
Class ChainLaws `{ChainSdk} : Prop := {
  TomlDecode_nodes s c : TomlDecode s = Ok c → None ∉ Nodes c;
  mainnet_id : scChainID STELLAR_MAINNET = EncodeToString (network_ID PublicNetworkPassphrase);
  testnet_id : scChainID STELLAR_TESTNET = EncodeToString (network_ID TestNetworkPassphrase);
  networks_differ : NoDup (scChainID <$> [STELLAR_MAINNET; STELLAR_TESTNET; STELLAR_LOCALNET]);
  all_networks c : c ∈ [STELLAR_MAINNET; STELLAR_TESTNET; STELLAR_LOCALNET] → c ∈ StellarALL
}.

(** [errors.Join] of two errors: [None] is nil. *)
Definition Join (a b : option string) : option string :=
  match a, b with
  | Some x, Some y => Some (x +:+ String.String (Ascii.ascii_of_nat 10) y)
  | Some x, None => Some x
  | None, _ => b
  end.
(** The error of a call. *)
Definition err_of {A} (r : result A) : option string :=
  match r with Ok _ => None | Err e => Some e end.

Module RelayerConfig.
Section config.
Context {UT : UnicodeTables} {CS : ChainSdk}.
Abbreviation TOMLConfig := (TOMLConfig URL).
Abbreviation Node := (Node URL).

Definition ChainFamilyName : string := "stellar".
Definition DefaultRequestTimeout : Z := 30 * Second.

(** A nil node is dereferenced. *)
Definition Node_ValidateConfig (n : option Node) : gres (option string) :=
  n ← deref n;
  let err :=
    match nName n with
    | None => Some (ErrMissing "Name" "required for all nodes")
    | Some name => if decide (name = "") then Some (ErrEmpty "Name" "required for all nodes") else None
    end in
  GVal (match nURL n with
        | None => Join err (Some (ErrMissing "URL" "required for all nodes"))
        | Some _ => err
        end).

Definition setDefault {A} (p : option A) (val : A) : option A :=
  match p with None => Some val | Some _ => p end.

Definition SetDefaults (c : TOMLConfig) : TOMLConfig :=
  let m := MultiNode c in
  mkTOMLConfig (Enabled c) (ChainID c) (Nodes c) (TxManager c) {|
    mnEnabled := setDefault (mnEnabled m) true;
    PollFailureThreshold := setDefault (PollFailureThreshold m) 5;
    PollInterval := setDefault (PollInterval m) (10 * Second);
    SelectionMode := setDefault (SelectionMode m) "HighestHead";
    SyncThreshold := setDefault (SyncThreshold m) 5;
    NodeIsSyncingEnabled := setDefault (NodeIsSyncingEnabled m) false;
    LeaseDuration := setDefault (LeaseDuration m) 0;
    NewHeadsPollInterval := setDefault (NewHeadsPollInterval m) (3 * Second);
    FinalizedBlockPollInterval := setDefault (FinalizedBlockPollInterval m) (3 * Second);
    EnforceRepeatableRead := setDefault (EnforceRepeatableRead m) false;
    DeathDeclarationDelay := setDefault (DeathDeclarationDelay m) (20 * Second);
    VerifyChainID := setDefault (VerifyChainID m) true;
    NodeNoNewHeadsThreshold := setDefault (NodeNoNewHeadsThreshold m) (30 * Second);
    NoNewFinalizedHeadsThreshold := setDefault (NoNewFinalizedHeadsThreshold m) (30 * Second);
    FinalityDepth := setDefault (FinalityDepth m) 0;
    FinalityTagEnabled := setDefault (FinalityTagEnabled m) false;
    FinalizedBlockOffset := setDefault (FinalizedBlockOffset m) 0
  |} (setDefault (RequestTimeout c) DefaultRequestTimeout).

Definition IsEnabled (c : TOMLConfig) : bool :=
  match Enabled c with None => true | Some b => b end.

Definition known_chains : list string :=
  [scChainID STELLAR_MAINNET; scChainID STELLAR_TESTNET; scChainID STELLAR_LOCALNET].
(** The loop over the nodes. *)
Fixpoint validate_nodes (err : option string) (nodes : list (option Node)) : gres (option string) :=
  match nodes with
  | [] => GVal err
  | node :: nodes' => e ← Node_ValidateConfig node; validate_nodes (Join err e) nodes'
  end.
Definition ValidateConfig (c : TOMLConfig) : gres (option string) :=
  let err :=
    if bool_decide (ChainID c ∈ known_chains) then None
    else Some ("invalid chain ID " +:+ Quote (ChainID c)) in
  match Nodes c with
  | [] => GVal (Join err (Some (ErrMissing "Nodes" "must have at least one node")))
  | nodes => validate_nodes err nodes
  end.

Definition TOMLString (c : TOMLConfig) : result string := TomlMarshal c.

(** The validation's error as the function's. *)
Definition validated {A} (v : gres (option string)) (a : A) : gres A :=
  e ← v;
  match e with Some e => GErr ("invalid Stellar config: " +:+ e) | None => GVal a end.
Definition NewDecodedTOMLConfig (rawConfig : string) : gres TOMLConfig :=
  cfg ← of_result (wrap_err "failed to decode Stellar config TOML" (TomlDecode rawConfig));
  if negb (IsEnabled cfg)
  then GErr ("cannot create chain with ID " +:+ ChainID cfg +:+ ": config is disabled")
  else
    let cfg := SetDefaults cfg in
    validated (ValidateConfig cfg) cfg.

(** [txm/network.go]. *)
Definition NetworkPassphrase (chainID : string) : result string :=
  if decide (chainID = scChainID STELLAR_MAINNET) then Ok PublicNetworkPassphrase
  else if decide (chainID = scChainID STELLAR_TESTNET ∨ chainID = scChainID STELLAR_LOCALNET)
  then Ok TestNetworkPassphrase
  else Err ("unknown stellar chain ID " +:+ Quote chainID).
End config.
End RelayerConfig.

(** ** A node's client *)

Module MultiNodeClient.
Section client.
Context {UT : UnicodeTables} {CS : ChainSdk}.

(** [*Head]: [None] is nil. *)
Record Head := mkHead { Sequence : Z }.
Definition IsValid (h : option Head) : bool :=
  match h with None => false | Some h => 0 <? Sequence h end.
Definition BlockNumber (h : option Head) : Z :=
  if IsValid h then match h with Some h => Sequence h | None => 0 end else 0.

(** Its endpoint and timeout. *)
Record MultiNodeClient := mkMultiNodeClient { url : string; requestTimeout : Z }.
Definition NewMultiNodeClient (url : string) (requestTimeout : Z) : MultiNodeClient :=
  mkMultiNodeClient url requestTimeout.

Definition healthStatusHealthy : string := "healthy".

(** Each method is a function of the answer of the call that it makes: the status of
    [getHealth], the passphrase of [getNetwork], the version, the latest ledger. *)
Definition Dial (health : result string) : result unit :=
  status ← wrap_err "stellar rpc dial/health check failed" health;
  if decide (status = healthStatusHealthy) then Ok tt
  else Err ("stellar rpc dial/health check returned non-healthy status " +:+ Quote status).
Definition client_ChainID (net : result string) : result string :=
  passphrase ← wrap_err "failed to get network" net;
  Ok (EncodeToString (network_ID passphrase)).
Definition ClientVersion (version : result string) : result string := version.
Definition IsSyncing : result bool := Ok false.
Definition latestBlock (ledger : result StellarService.GetLatestLedgerResponse) : result Head :=
  ledger ← ledger; Ok (mkHead (StellarService.llSequence ledger)).
Definition latestFinalizedBlock (ledger : result StellarService.GetLatestLedgerResponse) : result Head :=
  latestBlock ledger.
End client.
End MultiNodeClient.

(** ** The chain *)

Module Chain.
Import RelayerConfig MultiNodeClient.
Section chain.
Context {ST : SdkTypes} {SD : Sdk} {UT : UnicodeTables} {XS : XdrSdk} {RS : RpcSdk}
  {HF : HostFunctions} {SV : ServiceSdk} {CS : ChainSdk}.
Abbreviation TOMLConfig := (TOMLConfig URL).

(** What the pool is built from: [multinode.NewNode] and [multinode.NewMultiNode]. *)
Record PoolNode := mkPoolNode {
  pnURL : URL;
  pnName : string;
  pnIndex : nat;
  pnChainID : string;
  pnOrder : Z;
  pnClient : MultiNodeClient
}.
Record MultiNodePool := mkPool {
  poolSelectionMode : string;
  poolLeaseDuration : Z;
  poolPrimaries : list PoolNode;
  poolChainID : string;
  poolDeathDeclarationDelay : Z
}.

(** The loop over the nodes; a field's accessor dereferences it. *)
Definition new_node (cfg : TOMLConfig) (i : nat) (node : option (Node URL)) : gres PoolNode :=
  node ← deref node;
  nodeURL ← deref (nURL node);
  timeout ← deref (RequestTimeout cfg);
  name ← deref (nName node);
  GVal (mkPoolNode nodeURL name i (ChainID cfg)
          (match nOrder node with Some o => o | None => 0 end)
          (NewMultiNodeClient (URL_String nodeURL) timeout)).
Definition newMultiNode (cfg : TOMLConfig) : gres MultiNodePool :=
  _ ← of_result (wrap_err "failed to create multinode metrics"
                   (NewGenericMultiNodeMetrics ChainFamilyName (ChainID cfg)));
  _ ← of_result (wrap_err "failed to create rpc client metrics"
                   (NewRPCClientMetrics ChainFamilyName (ChainID cfg)));
  primaries ← gimapM (new_node cfg) (Nodes cfg);
  mode ← deref (SelectionMode (MultiNode cfg));
  lease ← deref (LeaseDuration (MultiNode cfg));
  delay ← deref (DeathDeclarationDelay (MultiNode cfg));
  GVal (mkPool mode lease primaries (ChainID cfg) delay).

(** The manager of a chain: its resolved configuration, its network's passphrase, its state. *)
Record chain := mkChain {
  chainInfo : StellarChain;
  ch_cfg : TOMLConfig;
  multiNode : MultiNodePool;
  ch_txm : Resolved * string * Tx.World
}.
Definition Opts_Validate (has_logger has_keystore : bool) : option string :=
  if negb has_logger then Some "logger is required"
  else if negb has_keystore then Some "keystore is required" else None.

(** From the completed configuration on. *)
Definition build_chain (cfg : TOMLConfig) (info : StellarChain) : gres chain :=
  _ ← deref (mnEnabled (MultiNode cfg));
  mn ← gwrap "failed to create multinode pool" (newMultiNode cfg);
  t ← deref (Txm.New StellarPassphraseFromChainId (TxManager cfg) (scChainID info));
  t ← gwrap "failed to create txm" (of_result t);
  GVal (mkChain info cfg mn t).
Definition NewChain (cfg : TOMLConfig) (has_logger has_keystore : bool) (info : StellarChain)
  : TOMLConfig * gres chain :=
  if negb (IsEnabled cfg)
  then (cfg, GErr ("cannot create new chain with ID " +:+ ChainID cfg +:+ ": chain is disabled"))
  else
    match Opts_Validate has_logger has_keystore with
    | Some e => (cfg, GErr ("invalid ChainOpts: " +:+ e))
    | None =>
        let cfg := SetDefaults cfg in
        (cfg, cfg ← validated (ValidateConfig cfg) cfg; build_chain cfg info)
    end.

(** [Close]: both are closed whatever the first returns; [Ready] joins all three. *)
Definition Close (txmClose multiNodeClose : option string) : option string :=
  Join (option_map (λ e, "close txm: " +:+ e) txmClose)
    (option_map (λ e, "close multinode: " +:+ e) multiNodeClose).
Definition Ready (state multiNodeReady txmReady : option string) : option string :=
  Join (Join state multiNodeReady) txmReady.

Definition GetChainInfo (c : chain) : string * string * string * string :=
  (ChainFamilyName, scChainID (chainInfo c), scNetworkType (chainInfo c), scName (chainInfo c)).
Definition GetChainStatus (c : chain) : result (string * bool * string) :=
  tomlStr ← TOMLString (ch_cfg c);
  Ok (scChainID (chainInfo c), IsEnabled (ch_cfg c), tomlStr).

(** [types.Head]: height, hash, time. *)
Definition LatestHead (GetClient : result StellarService.RpcClient) : result (string * bytes * Z) :=
  client ← GetClient;
  ledger ← StellarService.rpc_GetLatestLedger client;
  hash ← wrap_err ("failed to decode ledger hash " +:+ Quote (StellarService.llHash ledger))
           (ScVal.Hex.DecodeString (StellarService.llHash ledger));
  Ok (pretty (StellarService.llSequence ledger), hash, uint64 (StellarService.llLedgerCloseTime ledger)).
Definition FinalizedHead (GetClient : result StellarService.RpcClient) : result (string * bytes * Z) :=
  LatestHead GetClient.

(** ** The plugin *)

(** The nodes that are reported, and the chain of the configured id: the last match. *)
Definition raw_nodes (cfg : TOMLConfig) : list string :=
  omap (λ n, match n with Some n => URL_String <$> nURL n | None => None end) (Nodes cfg).
Definition find_chain (id : string) : StellarChain :=
  foldl (λ acc sc, if decide (scChainID sc = id) then sc else acc) (mkStellarChain "" "" "") StellarALL.

(** [emitter] is the answer of the configuration emitter's [Start]; the relayer is its
    chain. *)
Definition NewRelayer (rawConfig : string) (has_logger has_keystore : bool)
    (emitter : string → list string → result unit) : gres chain :=
  cfg ← gwrap "failed to read Stellar config" (NewDecodedTOMLConfig rawConfig);
  _ ← of_result (wrap_err "failed to start config emitter" (emitter (ChainID cfg) (raw_nodes cfg)));
  gwrap "failed to create Stellar chain"
    (snd (NewChain cfg has_logger has_keystore (find_chain (ChainID cfg)))).
End chain.
End Chain.
