(* ===== verification/ChainProps.v ===== *)
(** Properties of the relayer's configuration and wiring. *)

From Stdlib Require Import Strings.Byte.
From stdpp Require Import base gmap list strings pretty.
From S2P Require Import Prelude GoStrings Config Float Prog Sdk TxStore Tx Txm TxmSafe Xdr ScVal GoBytes.
From S2P Require Import TypeConverters InvokerAdapter StellarService Demo Chain.
Import Config RelayerConfig MultiNodeClient Chain TxmInv.

Local Open Scope Z_scope.

Module ChainProps.

Section config.
Context {UT : UnicodeTables} {CS : ChainSdk}.

(** ** Defaults and validation *)

Lemma setDefault_Some {A} (p : option A) v : setDefault p v = Some (default v p).
Proof. by destruct p. Qed.

Definition mn_set (m : MultiNodeConfig) : bool :=
  match m with
  | mkMultiNodeConfig (Some _) (Some _) (Some _) (Some _) (Some _) (Some _) (Some _) (Some _)
      (Some _) (Some _) (Some _) (Some _) (Some _) (Some _) (Some _) (Some _) (Some _) => true
  | _ => false
  end.
(** Every field that the framework dereferences is set. *)
Definition complete (c : TOMLConfig URL) : bool :=
  mn_set (MultiNode c) && bool_decide (is_Some (RequestTimeout c)).

Lemma SetDefaults_id c : complete c = true → SetDefaults c = c.
Proof.
  destruct c as [en id ns tx m rt]. intros H. apply andb_prop in H as [Hm Hr].
  apply bool_decide_eq_true_1 in Hr as [r Hr]. cbn in Hr. unfold mn_set in Hm. cbn in Hm. rewrite Hr. destruct m as [a1 a2 a3 a4 a5 a6 a7 a8 a9 a10 a11 a12 a13 a14 a15 a16 a17].
  repeat match goal with H : match ?o with Some _ => _ | None => false end = true |- _ => destruct o; [|done] end.
  done.
Qed.
Lemma SetDefaults_complete c : complete (SetDefaults c) = true.
Proof.
  unfold complete, SetDefaults. cbn. by rewrite !setDefault_Some.
Qed.

(** A node that validation accepts. *)
Definition node_ok (n : Node URL) : Prop := is_Some (nURL n) ∧ ∃ name, nName n = Some name ∧ name ≠ "".

Lemma Node_ValidateConfig_spec n :
  ∃ e, Node_ValidateConfig (Some n) = GVal e ∧ (e = None ↔ node_ok n).
Proof.
  unfold Node_ValidateConfig, node_ok. cbn. eexists. split; [done|].
  destruct (nURL n) as [u|]; cbn.
  - destruct (nName n) as [name|]; [case_decide|]; (split; [try done|]).
    + intros (_ & name' & [= <-] & ?). done.
    + intros _. split; [by eexists|by exists name].
    + done.
    + by intros (_ & ? & ? & _).
  - destruct (nName n) as [name|]; [case_decide|]; split; try done; by intros [[? [=]] _].
Qed.

Lemma Join_None a b : Join a b = None ↔ a = None ∧ b = None.
Proof. destruct a, b; cbn; naive_solver. Qed.

Lemma validate_nodes_spec err nodes : None ∉ nodes →
  ∃ e, validate_nodes err nodes = GVal e ∧
    (e = None ↔ err = None ∧ ∀ n, Some n ∈ nodes → node_ok n).
Proof.
  revert err. induction nodes as [|[n|] nodes IH]; intros err Hn; cbn [validate_nodes].
  - exists err. split; [done|]. split; [|by intros [??]]. intros ->. split; [done|]. by intros n ?%elem_of_nil.
  - destruct (Node_ValidateConfig_spec n) as (e & -> & He). cbn [mbind gres_bind].
    destruct (IH (Join err e)) as (e' & -> & He'); [by intros ?; apply Hn; right|].
    exists e'. split; [done|]. rewrite He', Join_None, He. setoid_rewrite elem_of_cons. naive_solver.
  - by destruct Hn; left.
Qed.
Lemma ValidateConfig_spec c : None ∉ Nodes c →
  ∃ e, ValidateConfig c = GVal e ∧
    (e = None ↔ ChainID c ∈ known_chains ∧ Nodes c ≠ [] ∧ ∀ n, Some n ∈ Nodes c → node_ok n).
Proof.
  intros Hn. unfold ValidateConfig. destruct (Nodes c) as [|n ns] eqn:E.
  { eexists. split; [done|]. rewrite Join_None. naive_solver. }
  destruct (validate_nodes_spec (if bool_decide (ChainID c ∈ known_chains) then None
    else Some ("invalid chain ID " +:+ Quote (ChainID c))) (n :: ns) Hn) as (e & -> & He).
  exists e. split; [done|]. rewrite He. case_bool_decide; naive_solver.
Qed.

Lemma decoded_spec {CL : ChainLaws} s :
  match NewDecodedTOMLConfig s with
  | GVal c => IsEnabled c = true ∧ complete c = true ∧ ValidateConfig c = GVal None ∧
      ChainID c ∈ known_chains ∧ Nodes c ≠ [] ∧ None ∉ Nodes c ∧ ∀ n, Some n ∈ Nodes c → node_ok n
  | GErr _ => True
  | GPanic _ => False
  end.
Proof.
  unfold NewDecodedTOMLConfig. destruct (TomlDecode s) as [c|e] eqn:Hd; [|done]. cbn [wrap_err of_result mbind gres_bind].
  destruct (IsEnabled c) eqn:He; [|done]. cbn [negb]. pose proof (TomlDecode_nodes _ _ Hd) as Hn.
  destruct (ValidateConfig_spec (SetDefaults c) Hn) as (e & Hv & Hok). rewrite Hv. unfold validated. cbn.
  destruct e as [e|]; [done|]. destruct (proj1 Hok eq_refl) as (? & ? & ?).
  split_and!; try done. apply SetDefaults_complete.
Qed.
End config.

(** ** The chain *)

Lemma gimapM_from_lookup {A B} (f : nat → A → gres B) i l ys j x :
  gimapM_from f i l = GVal ys → l !! j = Some x → ∃ y, ys !! j = Some y ∧ f (i + j)%nat x = GVal y.
Proof.
  revert i ys j. induction l as [|x' l IH]; intros i ys j; [by destruct j|].
  intros (y & Hy & (ys' & Hys & [= <-])%gbind_GVal)%gbind_GVal. destruct j as [|j]; cbn.
  - intros [= <-]. exists y. by rewrite Nat.add_0_r.
  - intros Hj. destruct (IH _ _ _ Hys Hj) as (y' & ? & Hf). exists y'. split; [done|]. by rewrite <- Hf, Nat.add_succ_r.
Qed.

Section chain.
Context {ST : SdkTypes} {SD : Sdk} {UT : UnicodeTables} {XS : XdrSdk} {RS : RpcSdk}
  {HF : HostFunctions} {SV : ServiceSdk} {CS : ChainSdk} {CL : ChainLaws}.

Lemma known_in_all id : id ∈ known_chains → id ∈ scChainID <$> StellarALL.
Proof.
  unfold known_chains. intros H. apply list_elem_of_fmap.
  destruct (proj1 (list_elem_of_fmap scChainID [STELLAR_MAINNET; STELLAR_TESTNET; STELLAR_LOCALNET] id) H) as (c & -> & Hc).
  exists c. split; [done|]. by apply all_networks.
Qed.
Lemma find_chain_id id : id ∈ scChainID <$> StellarALL → scChainID (find_chain id) = id.
Proof.
  unfold find_chain. generalize (mkStellarChain "" "" "") as acc.
  assert (∀ l acc, (scChainID acc = id ∨ id ∈ scChainID <$> l) →
    scChainID (foldl (λ acc sc, if decide (scChainID sc = id) then sc else acc) acc l) = id) as H; [|by auto].
  induction l as [|c l IH]; intros acc; cbn; [by intros [?|?%elem_of_nil]|].
  intros [Ha|Hl]; apply IH; [case_decide; auto|]. rewrite elem_of_cons in Hl. case_decide; [by left|]. naive_solver.
Qed.

(** The pool's node for a configured one. *)
Definition pool_node_of (cfg : TOMLConfig URL) (i : nat) (n : option (Node URL)) (p : PoolNode) : Prop :=
  ∃ node timeout, n = Some node ∧ RequestTimeout cfg = Some timeout ∧
    nURL node = Some (pnURL p) ∧ nName node = Some (pnName p) ∧ pnIndex p = i ∧
    pnChainID p = ChainID cfg ∧ pnOrder p = default 0 (nOrder node) ∧
    pnClient p = mkMultiNodeClient (URL_String (pnURL p)) timeout.

Lemma new_node_spec cfg i node : node_ok node → is_Some (RequestTimeout cfg) →
  ∃ p, new_node cfg i (Some node) = GVal p ∧ pool_node_of cfg i (Some node) p.
Proof.
  intros ([u Hu] & name & Hn & _) [t Ht]. unfold new_node. cbn. rewrite Hu, Ht. cbn. rewrite Hn. cbn.
  eexists. split; [done|]. exists node, t. by split_and!.
Qed.

Lemma complete_fields (cfg : TOMLConfig URL) : complete cfg = true →
  is_Some (RequestTimeout cfg) ∧ is_Some (mnEnabled (MultiNode cfg)) ∧ is_Some (SelectionMode (MultiNode cfg)) ∧
  is_Some (LeaseDuration (MultiNode cfg)) ∧ is_Some (DeathDeclarationDelay (MultiNode cfg)).
Proof. intros <-%SetDefaults_id. cbn. rewrite !setDefault_Some. split_and!; by eexists. Qed.

Lemma newMultiNode_spec cfg : complete cfg = true → None ∉ Nodes cfg → (∀ n, Some n ∈ Nodes cfg → node_ok n) →
  match newMultiNode cfg with
  | GVal p => poolChainID p = ChainID cfg ∧ length (poolPrimaries p) = length (Nodes cfg) ∧
      (∀ i n, Nodes cfg !! i = Some n → ∃ pn, poolPrimaries p !! i = Some pn ∧ pool_node_of cfg i n pn)
  | GErr _ => True
  | GPanic _ => False
  end.
Proof.
  intros Hc Hn Hok. destruct (complete_fields _ Hc) as (Ht & _ & [m Hm] & [le Hle] & [de Hde]).
  unfold newMultiNode.
  destruct (NewGenericMultiNodeMetrics _ _); [|done]. destruct (NewRPCClientMetrics _ _); [|done].
  assert (∀ i n, n ∈ Nodes cfg → ∃ p, new_node cfg i n = GVal p ∧ pool_node_of cfg i n p) as Hnode.
  { intros i [n|] Hin; [|done]. by apply new_node_spec; [apply Hok|]. }
  destruct (gimapM_succeeds (new_node cfg) (λ _ _, True) (Nodes cfg)) as (ps & Hps & Hf).
  { intros j n Hin. destruct (Hnode j n Hin) as (p & ? & _). by exists p. }
  rewrite Hps. cbn [mbind gres_bind wrap_err of_result]. rewrite Hm, Hle, Hde. cbn.
  split; [done|]. split; [symmetry; by eapply Forall2_length|].
  intros i n Hi. destruct (gimapM_from_lookup _ _ _ _ _ _ Hps Hi) as (p & Hp & Hnew).
  exists p. split; [done|]. destruct (Hnode i n) as (p' & Hp' & Hof); [by eapply list_elem_of_lookup_2|].
  cbn in Hnew. congruence.
Qed.

(** ** Theorems *)

(** The plugin's factory returns on any raw configuration, keystore and emitter, without a
    panic; a relayer that it returns has an enabled and complete configuration, the chain of
    its id, a pool with one node per configured one, in order, with its name, endpoint,
    priority and timeout, and a manager for that chain's passphrase whose invariant holds. *)
Theorem new_relayer_wired rawConfig has_logger has_keystore emitter :
  match NewRelayer rawConfig has_logger has_keystore emitter with
  | GVal c =>
      has_logger = true ∧ has_keystore = true ∧
      NewDecodedTOMLConfig rawConfig = GVal (ch_cfg c) ∧ complete (ch_cfg c) = true ∧
      scChainID (chainInfo c) = ChainID (ch_cfg c) ∧ poolChainID (multiNode c) = ChainID (ch_cfg c) ∧
      length (poolPrimaries (multiNode c)) = length (Nodes (ch_cfg c)) ∧
      (∀ i n, Nodes (ch_cfg c) !! i = Some n →
         ∃ p, poolPrimaries (multiNode c) !! i = Some p ∧ pool_node_of (ch_cfg c) i n p) ∧
      let '(cfg, passphrase, w) := ch_txm c in
      deref_config (Resolve (TxManager (ch_cfg c))) = Some cfg ∧
      StellarPassphraseFromChainId (ChainID (ch_cfg c)) = Ok passphrase ∧ Inv cfg w
  | GErr _ => True
  | GPanic _ => False
  end.
Proof.
  unfold NewRelayer. pose proof (decoded_spec rawConfig) as Hd.
  destruct (NewDecodedTOMLConfig rawConfig) as [cfg|e|m]; cbn [gwrap mbind gres_bind]; [|done..].
  destruct Hd as (He & Hc & Hv & Hk & _ & Hn & Hok). destruct (emitter _ _); cbn [wrap_err of_result]; [|done].
  unfold NewChain. rewrite He, (SetDefaults_id _ Hc), Hv. cbn [negb].
  destruct has_logger, has_keystore; cbn [Opts_Validate negb snd gwrap]; try done.
  unfold validated, build_chain. cbn [mbind gres_bind].
  destruct (complete_fields _ Hc) as (_ & [en Hen] & _). rewrite Hen. cbn [deref].
  pose proof (newMultiNode_spec cfg Hc Hn Hok) as Hp.
  destruct (newMultiNode cfg) as [p|e|m]; cbn [gwrap]; [|done..]. destruct Hp as (Hid & Hlen & Hnodes).
  rewrite (find_chain_id _ (known_in_all _ Hk)).
  destruct (ConfigProps.Resolve_complete (TxManager cfg)) as (r & Hr & _).
  unfold Txm.New. rewrite Hr. cbn [mbind option_bind deref].
  destruct (StellarPassphraseFromChainId (ChainID cfg)) as [pass|e] eqn:Hpass; cbn; [|done].
  split_and!; try done; [apply find_chain_id, known_in_all, Hk|].
  apply (New_inv StellarPassphraseFromChainId (TxManager cfg) (ChainID cfg) r pass).
  unfold Txm.New. rewrite Hr. cbn. by rewrite Hpass.
Qed.
End chain.

Section config_theorems.
Context {UT : UnicodeTables} {CS : ChainSdk} {CL : ChainLaws}.

(** A configuration is accepted exactly when its text decodes, it is not disabled, its
    chain is one of the three networks, and it has a node and a name and a URL for each; what
    is returned is what was decoded, with every field that was set kept, and no field of the
    framework's left nil. *)
Theorem config_accepted_exactly rawConfig c :
  NewDecodedTOMLConfig rawConfig = GVal c ↔
  ∃ c0, TomlDecode rawConfig = Ok c0 ∧ c = SetDefaults c0 ∧ complete c = true ∧
    Enabled c0 ≠ Some false ∧ ChainID c0 ∈ known_chains ∧ Nodes c0 ≠ [] ∧
    ∀ n, n ∈ Nodes c0 → ∃ node, n = Some node ∧ node_ok node.
Proof.
  unfold NewDecodedTOMLConfig. destruct (TomlDecode rawConfig) as [c0|e] eqn:Hd; cbn [wrap_err of_result mbind gres_bind];
    [|split; [done|naive_solver]].
  pose proof (TomlDecode_nodes _ _ Hd) as Hn.
  assert (IsEnabled c0 = true ↔ Enabled c0 ≠ Some false) as He by (unfold IsEnabled; destruct (Enabled c0) as [[]|]; naive_solver).
  destruct (ValidateConfig_spec (SetDefaults c0) Hn) as (e & Hv & Hok). rewrite Hv. unfold validated. cbn [mbind gres_bind].
  assert ((∀ n, n ∈ Nodes c0 → ∃ node, n = Some node ∧ node_ok node) ↔ ∀ n, Some n ∈ Nodes c0 → node_ok n) as Hnodes.
  { split; [|intros H [n|]; naive_solver]. intros H n (node & [= <-] & ?)%H. done. }
  destruct (IsEnabled c0) eqn:E; cbn [negb]; [|split; [done|]]; cycle 1.
  { intros (c1 & [= <-] & _ & _ & H & _). by apply He in H. }
  assert (Enabled c0 ≠ Some false) as H0 by (by apply He). cbn in Hok. split.
  - intros H. destruct e; [done|]. injection H as <-. destruct (proj1 Hok eq_refl) as (? & ? & ?).
    exists c0. split_and!; try done; [apply SetDefaults_complete|by apply (proj2 Hnodes)].
  - intros (c1 & [= <-] & -> & _ & _ & ? & ? & Hx). pose proof (proj1 Hnodes Hx). by rewrite (proj2 Hok).
Qed.

(** A node on the network whose passphrase [NetworkPassphrase] gives for a chain answers
    that chain's id when its id is verified, for mainnet and testnet; for localnet, whose
    passphrase it takes to be testnet's, the node would have to answer another id. *)
Theorem network_ids_roundtrip chainID passphrase :
  NetworkPassphrase chainID = Ok passphrase →
  client_ChainID (Ok passphrase) =
    Ok (if decide (chainID = scChainID STELLAR_LOCALNET) then scChainID STELLAR_TESTNET else chainID) ∧
  scChainID STELLAR_TESTNET ≠ scChainID STELLAR_LOCALNET.
Proof.
  pose proof networks_differ as Hd. cbn in Hd. rewrite !NoDup_cons, !not_elem_of_cons in Hd.
  destruct Hd as ((H12 & H13 & _) & (H23 & _) & _). unfold NetworkPassphrase. intros H. split; [|done].
  case_decide as H1; [|case_decide as H2; [|done]]; injection H as <-; cbn.
  - rewrite decide_False by congruence. by rewrite <- mainnet_id, H1.
  - rewrite <- testnet_id. case_decide; [done|]. by destruct H2 as [->|].
Qed.
End config_theorems.

(** ** Concrete inputs *)

Definition demo_empty : MultiNodeConfig :=
  mkMultiNodeConfig None None None (Some "RoundRobin") None None None None None None None None None None None None None.
Definition demo_id (passphrase : string) : string := EncodeToString (String.list_byte_of_string passphrase).
Definition demo_config : TOMLConfig string :=
  mkTOMLConfig None (demo_id "test network")
    [Some (mkNode (Some "primary") (Some "https://a") None); Some (mkNode (Some "backup") (Some "https://b") (Some 2))]
    DefaultConfigSet demo_empty None.

(** A text is a chain's name, whose configuration has two nodes. *)
#[export] Instance demo_chains : ChainSdk := {|
  URL := string;
  URL_String u := u;
  ErrMissing n m := n +:+ ": missing: " +:+ m;
  ErrEmpty n m := n +:+ ": empty: " +:+ m;
  STELLAR_MAINNET := mkStellarChain (demo_id "public network") "mainnet" "stellar-mainnet";
  STELLAR_TESTNET := mkStellarChain (demo_id "test network") "testnet" "stellar-testnet";
  STELLAR_LOCALNET := mkStellarChain (demo_id "standalone") "testnet" "stellar-localnet";
  StellarALL :=
    [mkStellarChain (demo_id "public network") "mainnet" "stellar-mainnet";
     mkStellarChain (demo_id "test network") "testnet" "stellar-testnet";
     mkStellarChain (demo_id "standalone") "testnet" "stellar-localnet"];
  StellarPassphraseFromChainId _ := Ok "test network";
  PublicNetworkPassphrase := "public network";
  TestNetworkPassphrase := "test network";
  TomlDecode s := if decide (s = "") then Err "EOF" else Ok demo_config;
  TomlMarshal _ := Ok "toml";
  NewGenericMultiNodeMetrics _ _ := Ok tt;
  NewRPCClientMetrics _ _ := Ok tt;
  network_ID := String.list_byte_of_string
|}.
#[export] Instance demo_chain_laws : ChainLaws.
Proof.
  constructor; [|done|done| |].
  - intros s c. cbn. case_decide; [done|]. intros [= <-]. cbn. rewrite !elem_of_cons, elem_of_nil. naive_solver.
  - apply (bool_decide_unpack _). vm_compute. exact I.
  - intros c. cbn. by rewrite !elem_of_cons.
Qed.

Lemma new_relayer_wired_witness :
  match NewRelayer (ST := Demo.demo_types) (UT := Demo.demo_unicode) "Stellar" true true (λ _ _, Ok tt) with
  | GVal c => length (poolPrimaries (multiNode c)) = 2%nat ∧ snd (fst (ch_txm c)) = "test network"
  | _ => False
  end ∧
  match NewRelayer (ST := Demo.demo_types) (UT := Demo.demo_unicode) "Stellar" true true (λ _ _, Ok tt) with
  | GVal c => let '(cfg, _, w) := ch_txm c in Inv cfg w
  | GErr _ => True
  | GPanic _ => False
  end.
Proof.
  split; [vm_compute; by split|].
  pose proof (new_relayer_wired (ST := Demo.demo_types) (UT := Demo.demo_unicode) "Stellar" true true (λ _ _, Ok tt)) as H.
  destruct (NewRelayer _ _ _ _) as [c|e|m]; [|done..].
  destruct H as (_ & _ & _ & _ & _ & _ & _ & _ & H). destruct (ch_txm c) as [[cfg pass] w]. apply H.
Defined.

Lemma config_accepted_exactly_witness :
  NewDecodedTOMLConfig (UT := Demo.demo_unicode) "Stellar" = GVal (SetDefaults demo_config) ∧
  SelectionMode (MultiNode (SetDefaults demo_config)) = Some "RoundRobin" ∧
  ∃ c0, TomlDecode "Stellar" = Ok c0 ∧ SetDefaults demo_config = SetDefaults c0.
Proof.
  assert (NewDecodedTOMLConfig (UT := Demo.demo_unicode) "Stellar" = GVal (SetDefaults demo_config)) as H by (vm_compute; reflexivity).
  split; [exact H|]. split; [reflexivity|].
  destruct (proj1 (config_accepted_exactly (UT := Demo.demo_unicode) "Stellar" _) H) as (c0 & ? & ? & _). by exists c0.
Defined.

Lemma network_ids_roundtrip_witness :
  NetworkPassphrase (UT := Demo.demo_unicode) (demo_id "standalone") = Ok "test network" ∧
  client_ChainID (Ok "test network") = Ok (demo_id "test network").
Proof.
  assert (NetworkPassphrase (UT := Demo.demo_unicode) (demo_id "standalone") = Ok "test network") as H by (vm_compute; reflexivity).
  split; [exact H|]. exact (proj1 (network_ids_roundtrip (UT := Demo.demo_unicode) _ _ H)).
Defined.
End ChainProps.
