(* ===== verification/Accessors.v ===== *)
(** [ccv/accessors]: what a chain's components are built from, and when.

    [factory_constructor.go] merges the configuration of a chain from the Stellar file, the
    job and the deployed addresses; Go ranges over those maps in any order, so each loop takes
    the order as an argument. [factory.go] hands out accessors; an accessor builds its
    components when a keystore is injected. Every method of an accessor holds its lock, so a
    method is a function on its state. *)

From Stdlib Require Import Strings.Byte.
From stdpp Require Import base gmap list strings pretty.
From S2P Require Import Prelude GoStrings Config Float Prog Sdk TxStore Tx Xdr ScVal GoBytes.
From S2P Require Import TypeConverters InvokerAdapter Ccv Transmitter SourceReader Poller.
From S2P Require Import DestinationReader Deployer.
Import Xdr.

Local Open Scope Z_scope.

(** chain-selectors and the keystore: a key's type and public key; the type [Ed25519]; a
    keystore answers [GetKeys] of one name. *)
Record KeyInfo := mkKeyInfo { KeyType : string; PublicKey : bytes }.
Class AccessorSdk := {
  GetSelectorFamily : Z → result string;
  FamilyStellar : string;
  keystore_Ed25519 : string
}.
Definition Keystore : Type := string → result (list KeyInfo).

Module AccessorConfig.

Record ReaderConfig := mkReaderConfig {
  NetworkPassphrase : string;
  OnRampContractID : string;
  RMNRemoteContractID : string;
  SorobanRPCURL : string
}.
Definition zeroReaderConfig : ReaderConfig := mkReaderConfig "" "" "" "".
Record TransmitterConfig := mkTransmitterConfig {
  tcOffRampContractID : string;
  tcRMNRemoteAddress : string;
  tcCCIPStateChangedTopic : string
}.
Record DestReaderConfig := mkDestReaderConfig {
  drOffRampContractID : string;
  drRMNRemoteContractID : string
}.
(** The Stellar file. *)
Record FileConfig := mkFileConfig {
  ReaderConfigs : gmap string ReaderConfig;
  TransmitterConfigs : gmap string TransmitterConfig;
  DestinationReaderConfigs : gmap string DestReaderConfig
}.
(** The job: [chainaccess.GenericConfig]. *)
Record DestinationChainConfig := mkDestinationChainConfig {
  OffRampAddress : string;
  RmnAddress : string;
  TransmitterKeyName : string
}.
Record GenericConfig := mkGenericConfig {
  OnRampAddresses : gmap string string;
  RMNRemoteAddresses : gmap string string;
  ChainConfiguration : gmap string DestinationChainConfig;
  MaxRetryDuration : Z;
  StellarInfos : result (gmap string ReaderConfig)
}.
Record destinationConfig := mkDestinationConfig {
  offRampContractID : string;
  rmnRemoteContractID : string;
  stateChangedTopic : string;
  keyName : string
}.
Definition zeroDestinationConfig : destinationConfig := mkDestinationConfig "" "" "" "".

Section config.
Context {UT : UnicodeTables} {XS : XdrSdk}.

Definition StellarTransmitterKeyName (FamilyStellar : string) : string :=
  FamilyStellar +:+ "/tx/stellar_transmitter_ed25519_key".
Definition DefaultStellarConfigPath : string := "/etc/config/stellar.toml".
Definition StellarCCIPMessageSentTopic : string := "onramp_1_7_CCIPMessageSent".

(** [decoded]: the answer of [toml.DecodeFile], with the keys it did not decode, printed. *)
Definition loadStellarFileConfig (path : string) (decoded : result (FileConfig * option string))
  : result FileConfig :=
  '(cfg, undecoded) ← wrap_err ("failed to unmarshal config file " +:+ path) decoded;
  match undecoded with
  | Some keys => Err ("unknown fields in config: " +:+ keys)
  | None => Ok cfg
  end.
Definition stellarConfigPath (env : option string) : string :=
  match env with Some p => p | None => DefaultStellarConfigPath end.

(** A non-empty text wins. *)
Definition over (base overlay : string) : string := if decide (overlay = "") then base else overlay.
Definition mergeReaderConfig (base overlay : ReaderConfig) : ReaderConfig :=
  mkReaderConfig (over (NetworkPassphrase base) (NetworkPassphrase overlay))
    (over (OnRampContractID base) (OnRampContractID overlay))
    (over (RMNRemoteContractID base) (RMNRemoteContractID overlay))
    (over (SorobanRPCURL base) (SorobanRPCURL overlay)).

(** [m[sel]] of a Go map. *)
Definition get {A} (zero : A) (m : gmap string A) (sel : string) : A := default zero (m !! sel).

(** [for sel, x := range m { ... }] in the order [order]; [f] sees the present entry. *)
Definition range {A S} (order : list string) (m : gmap string A) (f : string → A → S → S) (s : S) : S :=
  foldl (λ s sel, match m !! sel with Some x => f sel x s | None => s end) s order.
Fixpoint range_err {A S} (order : list string) (m : S → gmap string A)
    (f : string → A → S → result S) (s : S) : result S :=
  match order with
  | [] => Ok s
  | sel :: order' =>
      match m s !! sel with
      | Some x => s' ← f sel x s; range_err order' m f s'
      | None => range_err order' m f s
      end
  end.

Definition mergeFileAndJobReaderConfigs (order : list string) (file job : gmap string ReaderConfig)
  : gmap string ReaderConfig :=
  range order job (λ sel jobCfg out,
    <[sel := mergeReaderConfig (get zeroReaderConfig out sel) jobCfg]> out) file.

(** An empty field, filled from a map of hexadecimal addresses. *)
Definition fill_hex (what sel current : string) (bySelector : gmap string string) : result string :=
  if decide (current = "") then
    match bySelector !! sel with
    | Some h =>
        if decide (h = "") then Ok current
        else wrap_err ("convert " +:+ what +:+ " hex to strkey for chain " +:+ sel) (ScVal.HexToContractStrkey h)
    | None => Ok current
    end
  else Ok current.
Definition override_one (onRamps rmns : gmap string string) (sel : string) (rc : ReaderConfig)
  : result ReaderConfig :=
  onramp ← fill_hex "OnRamp" sel (OnRampContractID rc) onRamps;
  rmn ← fill_hex "RMN Remote" sel (RMNRemoteContractID rc) rmns;
  Ok (mkReaderConfig (NetworkPassphrase rc) onramp rmn (SorobanRPCURL rc)).
Definition applyOnRampRMNHexOverrides (order : list string) (onRamps rmns : gmap string string)
    (readerConfigs : gmap string ReaderConfig) : result (gmap string ReaderConfig) :=
  range_err order id (λ sel rc out, rc' ← override_one onRamps rmns sel rc; Ok (<[sel := rc']> out))
    readerConfigs.

Definition loadStellarJobReaderInfos (g : GenericConfig) : result (gmap string ReaderConfig) :=
  wrap_err "get stellar blockchain_infos" (StellarInfos g).

(** The bodies of the three loops of [buildStellarDestConfigs], on one entry; [key] is the
    default key's name. *)
Definition dest_seed (key : string) (tc : TransmitterConfig) : destinationConfig :=
  mkDestinationConfig (tcOffRampContractID tc) (tcRMNRemoteAddress tc) (tcCCIPStateChangedTopic tc) key.
Definition fill (current other : string) : string :=
  if decide (current = "") then other else current.
Definition dest_reader (key : string) (drCfg : DestReaderConfig) (dc : destinationConfig) : destinationConfig :=
  mkDestinationConfig (fill (offRampContractID dc) (drOffRampContractID drCfg))
    (fill (rmnRemoteContractID dc) (drRMNRemoteContractID drCfg))
    (stateChangedTopic dc) (fill (keyName dc) key).
Definition fill_strkey (what sel current h : string) : result string :=
  if decide (current = "" ∧ h ≠ "")
  then wrap_err ("convert " +:+ what +:+ " hex to strkey for chain " +:+ sel) (ScVal.HexToContractStrkey h)
  else Ok current.
Definition dest_chain (key sel : string) (chainCfg : DestinationChainConfig) (dc : destinationConfig)
  : result destinationConfig :=
  offramp ← fill_strkey "OffRamp" sel (offRampContractID dc) (OffRampAddress chainCfg);
  rmn ← fill_strkey "RMN Remote" sel (rmnRemoteContractID dc) (RmnAddress chainCfg);
  Ok (mkDestinationConfig offramp rmn (stateChangedTopic dc)
        (over (fill (keyName dc) key) (TransmitterKeyName chainCfg))).
Definition usable (dc : destinationConfig) : bool :=
  negb (bool_decide (offRampContractID dc = "" ∨ stateChangedTopic dc = "")).

(** The orders of the four loops. *)
Record orders := mkOrders { oTransmitter : list string; oReader : list string; oChain : list string; oDrop : list string }.
Definition buildStellarDestConfigs (key : string) (os : orders) (file : FileConfig) (g : GenericConfig)
  : result (option (gmap string destinationConfig)) :=
  let out := range (oTransmitter os) (TransmitterConfigs file)
    (λ sel tc out, <[sel := dest_seed key tc]> out) ∅ in
  let out := range (oReader os) (DestinationReaderConfigs file)
    (λ sel drCfg out, <[sel := dest_reader key drCfg (get zeroDestinationConfig out sel)]> out) out in
  out ← range_err (oChain os) (λ _, ChainConfiguration g)
    (λ sel chainCfg out, dc ← dest_chain key sel chainCfg (get zeroDestinationConfig out sel);
                         Ok (<[sel := dc]> out)) out;
  let out := foldl (λ out sel, match out !! sel with
                               | Some dc => if usable dc then out else delete sel out
                               | None => out
                               end) out (oDrop os) in
  if decide (out = ∅) then Ok None else Ok (Some out).
End config.
End AccessorConfig.

Module Accessor.
Import AccessorConfig Deployer.
Section accessor.
Context {ST : SdkTypes} {SD : Sdk} {UT : UnicodeTables} {XS : XdrSdk} {HF : HostFunctions}
  {MS : MetaSdk} {RS : RpcSdk} {FC : FloatConv} {DS : DeployerSdk}
  {CP : CcvProtocol} {CX : CcvXdr} {LC : LruCache} {AS : AccessorSdk}.

(** ** The signer of a key *)

Definition LoadStellarKeystoreSigner (ks : option Keystore) (keyName : string) : result TxSigner :=
  match ks with
  | None => Err "keystore is required"
  | Some GetKeys =>
      if decide (keyName = "") then Err "keyName is required"
      else
        keys ← wrap_err ("get keystore key " +:+ Quote keyName) (GetKeys keyName);
        match keys with
        | [info] =>
            if negb (bool_decide (KeyType info = keystore_Ed25519))
            then Err ("keystore key " +:+ Quote keyName +:+ " has type " +:+ KeyType info +:+
                        ", expected " +:+ keystore_Ed25519)
            else if negb (length (PublicKey info) =? 32)%nat
            then Err ("keystore key " +:+ Quote keyName +:+ " has invalid Ed25519 public key length " +:+
                        pretty (length (PublicKey info)) +:+ " (want 32)")
            else
              address ← wrap_err "encode Stellar address from public key"
                          (Encode VersionByteAccountID (PublicKey info));
              Ok (keystoreTxSigner keyName address (PublicKey info))
        | _ => Err ("expected exactly one keystore key for " +:+ Quote keyName +:+ ", got " +:+
                      pretty (length keys))
        end
  end.

(** ** The factory *)

(** [None] is a nil map. *)
Record factory := mkFactory {
  readerConfig : option (gmap string ReaderConfig);
  destConfig : option (gmap string destinationConfig);
  f_attemptCacheExpiration : Z
}.
Definition NewFactory := mkFactory.
Definition NewReaderFactory (readerConfig : option (gmap string ReaderConfig)) : factory :=
  NewFactory readerConfig None 0.

(** A component is its state with the deployer that it calls through. *)
Record accessor := mkAccessor {
  readerCfg : ReaderConfig;
  hasReader : bool;
  destCfg : destinationConfig;
  hasDest : bool;
  attemptCacheExpiration : Z;
  sourceReader : option (SourceReader.SourceReader * Deployer);
  sourceReaderErr : option string;
  destinationReader : option (DestinationReader.DestinationReader * Poller.Poller * Deployer);
  destReaderErr : option string;
  contractTransmitter : option (string * Deployer);
  contractTransmitterErr : option string
}.

Definition errReaderConfigMissing : string :=
  "stellar reader config not present for this chain (committee/verifier path disabled)".
Definition errDestConfigMissing : string :=
  "stellar destination config not present for this chain (executor path disabled)".
Definition errKeystoreNotInjected : string :=
  "stellar accessor requires SetKeystore to be called before constructing keystore-backed components".

(** The check of the reader's configuration. *)
Definition reader_error (hasReader : bool) (rc : ReaderConfig) (chainSelector : Z) : option string :=
  if hasReader then
    if decide (SorobanRPCURL rc = "")
    then Some ("soroban rpc url is required for chain " +:+ pretty chainSelector)
    else if decide (NetworkPassphrase rc = "")
    then Some ("network passphrase is required for chain " +:+ pretty chainSelector)
    else None
  else Some errReaderConfigMissing.
Definition lookup_cfg {A} (m : option (gmap string A)) (sel : string) : option A := m ≫= (!!) sel.
Definition GetAccessor (f : factory) (chainSelector : Z) : result accessor :=
  match readerConfig f, destConfig f with
  | None, None => Err ("stellar ccip config is not set - can't get accessor for chain " +:+ pretty chainSelector)
  | _, _ =>
      family ← wrap_err ("failed to get selector family for " +:+ pretty chainSelector +:+
                           " - update chain-selectors library?") (GetSelectorFamily chainSelector);
      if negb (bool_decide (family = FamilyStellar))
      then Err ("skipping chain, only stellar is supported for chain " +:+ pretty chainSelector +:+
                  ", family " +:+ family)
      else
        let strSelector := pretty chainSelector in
        let rc := lookup_cfg (readerConfig f) strSelector in
        let dc := lookup_cfg (destConfig f) strSelector in
        let hasReader := bool_decide (is_Some rc) in
        let hasDest := bool_decide (is_Some dc) in
        if negb hasReader && negb hasDest
        then Err ("stellar config not found for chain " +:+ pretty chainSelector)
        else
          let err := if hasDest then None else Some errDestConfigMissing in
          Ok (mkAccessor (default zeroReaderConfig rc) hasReader (default zeroDestinationConfig dc) hasDest
                (f_attemptCacheExpiration f) None
                (reader_error hasReader (default zeroReaderConfig rc) chainSelector) None err None err)
  end.

(** ** Building the components *)

(** Clients, loggers and deployers are there. *)
Definition buildSourceReaderWithSigner (cfg : ReaderConfig) (signer : TxSigner)
  : result (SourceReader.SourceReader * Deployer) :=
  let deployer := fst (NewDeployerWithSigner (NetworkPassphrase cfg) signer []) in
  sr ← wrap_err "failed to create source reader"
         (SourceReader.NewSourceReaderWithClient true (OnRampContractID cfg) StellarCCIPMessageSentTopic
            (RMNRemoteContractID cfg) true);
  Ok (sr, deployer).
Definition buildDestinationComponents (dest : destinationConfig) (reader : ReaderConfig)
    (signer : TxSigner) (attemptCacheExpiration : Z)
  : result ((DestinationReader.DestinationReader * Poller.Poller * Deployer) * (string * Deployer)) :=
  if decide (offRampContractID dest = "") then Err "offramp contract id is required"
  else if decide (SorobanRPCURL reader = "")
  then Err ("soroban rpc url is required (set reader_configs[" +:+ Quote "selector" +:+ "].soroban_rpc_url)")
  else if decide (NetworkPassphrase reader = "")
  then Err ("network passphrase is required (set reader_configs[" +:+ Quote "selector" +:+ "].network_passphrase)")
  else
    let deployer := fst (NewDeployerWithSigner (NetworkPassphrase reader) signer []) in
    if decide (stateChangedTopic dest = "")
    then Err ("ccip state changed topic is required (set transmitter_configs[" +:+ Quote "selector" +:+
                "].ccip_state_changed_topic)")
    else
      ct ← wrap_err "failed to create contract transmitter"
             (Transmitter.NewContractTransmitterWithClient true (offRampContractID dest)
                (stateChangedTopic dest) true);
      dr ← wrap_err "failed to create destination reader"
             (DestinationReader.New true true (offRampContractID dest) (rmnRemoteContractID dest) true
                attemptCacheExpiration);
      Ok ((dr, deployer), (ct, deployer)).

(** ** Methods *)

Definition set_source (sr : option (SourceReader.SourceReader * Deployer)) (err : option string)
    (a : accessor) : accessor :=
  mkAccessor (readerCfg a) (hasReader a) (destCfg a) (hasDest a) (attemptCacheExpiration a) sr err
    (destinationReader a) (destReaderErr a) (contractTransmitter a) (contractTransmitterErr a).
Definition set_dest dr drErr ct ctErr (a : accessor) : accessor :=
  mkAccessor (readerCfg a) (hasReader a) (destCfg a) (hasDest a) (attemptCacheExpiration a)
    (sourceReader a) (sourceReaderErr a) dr drErr ct ctErr.
(** Errors recorded; what was built before stays. *)
Definition fail_dest (e : string) (a : accessor) : accessor :=
  set_dest (destinationReader a) (Some e) (contractTransmitter a) (Some e) a.

Definition key_name (a : accessor) : string :=
  if decide (keyName (destCfg a) = "") then StellarTransmitterKeyName FamilyStellar else keyName (destCfg a).
Definition signer_failed (e : string) (a : accessor) : accessor :=
  let e := "load stellar keystore signer: " +:+ e in
  let a := match sourceReaderErr a with
           | None => if hasReader a then set_source (sourceReader a) (Some e) a else a
           | Some _ => a
           end in
  if hasDest a then fail_dest e a else a.
Definition build_reader (signer : TxSigner) (a : accessor) : accessor :=
  match hasReader a, sourceReaderErr a with
  | true, None =>
      match buildSourceReaderWithSigner (readerCfg a) signer with
      | Err e => set_source (sourceReader a) (Some e) a
      | Ok sr => set_source (Some sr) None a
      end
  | _, _ => a
  end.
Definition build_dest (signer : TxSigner) (a : accessor) : accessor :=
  if hasDest a then
    match buildDestinationComponents (destCfg a) (readerCfg a) signer (attemptCacheExpiration a) with
    | Err e => fail_dest e a
    | Ok (dr, ct) => set_dest (Some dr) None (Some ct) None a
    end
  else a.
Definition SetKeystore (ks : option Keystore) (a : accessor) : accessor :=
  match ks with
  | None => a
  | Some _ =>
      match LoadStellarKeystoreSigner ks (key_name a) with
      | Err e => signer_failed e a
      | Ok signer => build_dest signer (build_reader signer a)
      end
  end.

Definition getter {A} (err : option string) (x : option A) : result A :=
  match err with
  | Some e => Err e
  | None => of_option errKeystoreNotInjected x
  end.
Definition get_SourceReader (a : accessor) : result (SourceReader.SourceReader * Deployer) :=
  getter (sourceReaderErr a) (sourceReader a).
Definition get_DestinationReader (a : accessor)
  : result (DestinationReader.DestinationReader * Poller.Poller * Deployer) :=
  getter (destReaderErr a) (destinationReader a).
Definition get_ContractTransmitter (a : accessor) : result (string * Deployer) :=
  getter (contractTransmitterErr a) (contractTransmitter a).

(** ** From the configuration to the factory *)

Record load_orders := mkLoadOrders { oJob : list string; oOverride : list string; oDest : orders }.
Definition CreateStellarAccessorFactory (env : option string)
    (DecodeFile : string → result (FileConfig * option string)) (g : GenericConfig) (os : load_orders)
  : result factory :=
  let configPath := stellarConfigPath env in
  file ← wrap_err "load stellar config" (loadStellarFileConfig configPath (DecodeFile configPath));
  jobInfos ← loadStellarJobReaderInfos g;
  let readerConfigs := mergeFileAndJobReaderConfigs (oJob os) (ReaderConfigs file) jobInfos in
  readerConfigs ← applyOnRampRMNHexOverrides (oOverride os) (OnRampAddresses g) (RMNRemoteAddresses g)
                    readerConfigs;
  destConfigs ← buildStellarDestConfigs (StellarTransmitterKeyName FamilyStellar) (oDest os) file g;
  Ok (NewFactory (Some readerConfigs) destConfigs (MaxRetryDuration g)).
End accessor.
End Accessor.
