(* ===== verification/AccessorProps.v ===== *)
(** Properties of the accessors: what the configuration of a chain is merged to, and what
    an accessor serves. *)

From Stdlib Require Import Strings.Byte.
From stdpp Require Import base gmap list strings pretty.
From S2P Require Import Prelude GoStrings Config Float Prog Sdk TxStore Tx Xdr ScVal GoBytes.
From S2P Require Import TypeConverters InvokerAdapter Ccv Transmitter SourceReader Poller.
From S2P Require Import DestinationReader Xdr DemoCcv Deployer DeployerProps Accessors.
Import Xdr AccessorConfig Accessor Deployer.

Local Open Scope Z_scope.

Module AccessorProps.

(** ** Loops over maps *)

(** A loop that changes the entry of the key it visits only; [g] says how, if at all. *)
Section fold.
Context {A : Type} (g : string → option A → option (result A)).
Definition step (sel : string) (s : gmap string A) : result (gmap string A) :=
  match g sel (s !! sel) with
  | None => Ok s
  | Some r => y ← r; Ok (<[sel := y]> s)
  end.
Fixpoint steps (order : list string) (s : gmap string A) : result (gmap string A) :=
  match order with [] => Ok s | sel :: order' => s' ← step sel s; steps order' s' end.

(** What it does to an entry. *)
Definition at_key (sel : string) (x : option A) : result (option A) :=
  match g sel x with None => Ok x | Some r => Some <$> r end.

Lemma steps_spec order s : NoDup order →
  match steps order s with
  | Ok s' => ∀ k, (k ∈ order → at_key k (s !! k) = Ok (s' !! k)) ∧ (k ∉ order → s' !! k = s !! k)
  | Err e => ∃ k, k ∈ order ∧ at_key k (s !! k) = Err e
  end.
Proof.
  intros Hn. revert s. induction Hn as [|sel order Hsel Hn IH]; intros s; cbn [steps].
  { intros k. split; [by intros ?%elem_of_nil|done]. }
  assert (match step sel s with
          | Ok s' => at_key sel (s !! sel) = Ok (s' !! sel) ∧ ∀ k, k ≠ sel → s' !! k = s !! k
          | Err e => at_key sel (s !! sel) = Err e
          end) as Hstep.
  { unfold step, at_key. destruct (g sel (s !! sel)) as [[y|e]|]; cbn; [|done|done].
    split; [by rewrite lookup_insert_eq|]. intros k Hk. by rewrite lookup_insert_ne. }
  destruct (step sel s) as [s1|e]; cbn [mbind result_bind]; [|exists sel; split; [left|done]].
  destruct Hstep as [H1 H2]. specialize (IH s1). destruct (steps order s1) as [s'|e].
  - intros k. destruct (IH k) as [Hin Hout]. rewrite elem_of_cons. split.
    + intros [->|Hk]; [by rewrite H1, Hout|]. rewrite <- Hin by done. by rewrite H2 by (by intros ->).
    + intros Hk. rewrite Hout by (intros ?; apply Hk; auto). apply H2. auto.
  - destruct IH as (k & Hk & He). exists k. split; [by right|]. by rewrite <- H2 by (by intros ->).
Qed.
End fold.

(** An order in which Go may range over a map. *)
Definition enumerates {A} (order : list string) (m : gmap string A) : Prop :=
  order ≡ₚ (map_to_list m).*1.
Lemma enumerates_NoDup {A} order (m : gmap string A) : enumerates order m → NoDup order.
Proof. intros ->. apply NoDup_fst_map_to_list. Qed.
Lemma enumerates_in {A} order (m : gmap string A) k : enumerates order m → k ∈ order ↔ is_Some (m !! k).
Proof.
  intros H. unfold enumerates in H. rewrite H, list_elem_of_fmap. split.
  - intros ([k' x] & -> & Hx%elem_of_map_to_list). by eexists.
  - intros [x Hx]. exists (k, x). split; [done|]. by apply elem_of_map_to_list.
Qed.

(** A loop over the entries of [m], which an entry without one leaves alone. *)
Lemma steps_over {A B} (m : gmap string B) (g : string → option A → option (result A)) order s :
  enumerates order m → (∀ k x, m !! k = None → g k x = None) →
  match steps g order s with
  | Ok s' => ∀ k, at_key g k (s !! k) = Ok (s' !! k)
  | Err e => ∃ k, at_key g k (s !! k) = Err e
  end.
Proof.
  intros Ho Hg. pose proof (steps_spec g order s (enumerates_NoDup _ _ Ho)) as H.
  destruct (steps g order s) as [s'|e]; [|destruct H as (k & _ & ?); by exists k].
  intros k. destruct (H k) as [Hin Hout]. destruct (decide (k ∈ order)) as [|Hk]; [by apply Hin|].
  rewrite Hout by done. unfold at_key. rewrite Hg; [done|].
  apply eq_None_not_Some. by rewrite <- (enumerates_in order m k Ho).
Qed.

Lemma range_steps {A B} (m : gmap string B) (h : string → B → option A → A) order s :
  steps (λ k x, (λ b, Ok (h k b x)) <$> m !! k) order s =
  Ok (range order m (λ k b s, <[k := h k b (s !! k)]> s) s).
Proof.
  revert s. induction order as [|k order IH]; intros s; cbn; [done|]. unfold step.
  destruct (m !! k) as [b|]; cbn; apply IH.
Qed.
Lemma range_err_steps {A B} (m : gmap string A → gmap string B) (h : string → B → option A → result A)
    (g : string → option A → option (result A)) order s :
  (∀ k s, g k (s !! k) = (λ b, h k b (s !! k)) <$> m s !! k) →
  range_err order m (λ k b s, y ← h k b (s !! k); Ok (<[k := y]> s)) s = steps g order s.
Proof.
  intros Hg. revert s. induction order as [|k order IH]; intros s; cbn [range_err steps]; [done|].
  unfold step. rewrite Hg. destruct (m s !! k) as [b|]; cbn; [|apply IH].
  destruct (h k b (s !! k)); cbn; [apply IH|done].
Qed.
Lemma range_spec {A B} (m : gmap string B) (h : string → B → option A → A) order (s : gmap string A) k :
  enumerates order m →
  range order m (λ k b s, <[k := h k b (s !! k)]> s) s !! k =
  match m !! k with Some b => Some (h k b (s !! k)) | None => s !! k end.
Proof.
  intros Ho. pose proof (steps_over m (λ k x, (λ b, Ok (h k b x)) <$> m !! k) order s Ho) as H.
  rewrite range_steps in H. unfold at_key in H.
  specialize (H ltac:(intros k' x ->; done) k). destruct (m !! k); cbn in H; congruence.
Qed.

(** ** The configuration of a chain *)

Section config.
Context {UT : UnicodeTables} {XS : XdrSdk}.

(** The reader's configuration of one chain, from the file, the job and the addresses. *)
Definition reader_at (file job : gmap string ReaderConfig) (onRamps rmns : gmap string string) (sel : string)
  : result (option ReaderConfig) :=
  let merged := match job !! sel with
                | Some j => Some (mergeReaderConfig (get zeroReaderConfig file sel) j)
                | None => file !! sel
                end in
  match merged with
  | Some rc => Some <$> override_one onRamps rmns sel rc
  | None => Ok None
  end.

Lemma merge_lookup order (file job : gmap string ReaderConfig) : enumerates order job → ∀ sel,
  mergeFileAndJobReaderConfigs order file job !! sel =
  match job !! sel with Some j => Some (mergeReaderConfig (get zeroReaderConfig file sel) j) | None => file !! sel end.
Proof.
  intros Ho sel. unfold mergeFileAndJobReaderConfigs.
  exact (range_spec job (λ _ j x, mergeReaderConfig (default zeroReaderConfig x) j) order file sel Ho).
Qed.
Lemma readers_spec order1 order2 file job onRamps rmns :
  enumerates order1 job → enumerates order2 (mergeFileAndJobReaderConfigs order1 file job) →
  match applyOnRampRMNHexOverrides order2 onRamps rmns (mergeFileAndJobReaderConfigs order1 file job) with
  | Ok out => ∀ sel, reader_at file job onRamps rmns sel = Ok (out !! sel)
  | Err e => ∃ sel, reader_at file job onRamps rmns sel = Err e
  end.
Proof.
  intros H1 H2. unfold applyOnRampRMNHexOverrides.
  pose proof (merge_lookup order1 file job H1) as Hm.
  set (m := mergeFileAndJobReaderConfigs order1 file job) in *. clearbody m.
  set (g := λ (k : string) (x : option ReaderConfig), override_one onRamps rmns k <$> x).
  assert (∀ sel, reader_at file job onRamps rmns sel = at_key g sel (m !! sel)) as Hat.
  { intros sel. unfold reader_at, at_key, g. rewrite <- Hm. by destruct (m !! sel). }
  assert (range_err order2 id (λ sel rc out, rc' ← override_one onRamps rmns sel rc; Ok (<[sel := rc']> out)) m
    = steps g order2 m) as ->.
  { apply (range_err_steps id (λ sel rc _, override_one onRamps rmns sel rc)). done. }
  pose proof (steps_spec g order2 m (enumerates_NoDup _ _ H2)) as H. destruct (steps g order2 m) as [out|e].
  - intros sel. rewrite Hat. destruct (H sel) as [Hin Hout]. destruct (decide (sel ∈ order2)) as [|Hs]; [by apply Hin|].
    rewrite Hout by done. unfold at_key, g. rewrite (enumerates_in order2 m sel H2) in Hs.
    apply eq_None_not_Some in Hs. by rewrite Hs.
  - destruct H as (sel & _ & He). exists sel. by rewrite Hat.
Qed.

(** The destination's configuration of one chain, before and after unusable ones are dropped. *)
Definition dest_at (key : string) (file : FileConfig) (chains : gmap string DestinationChainConfig) (sel : string)
  : result (option destinationConfig) :=
  let seed := dest_seed key <$> TransmitterConfigs file !! sel in
  let read := match DestinationReaderConfigs file !! sel with
              | Some dr => Some (dest_reader key dr (default zeroDestinationConfig seed))
              | None => seed
              end in
  match chains !! sel with
  | Some c => Some <$> dest_chain key sel c (default zeroDestinationConfig read)
  | None => Ok read
  end.
Definition if_usable (x : option destinationConfig) : option destinationConfig :=
  dc ← x; if usable dc then Some dc else None.

(** The orders of the four loops; the last ranges over what the others left. *)
Definition dest_orders (os : orders) (file : FileConfig) (chains : gmap string DestinationChainConfig) : Prop :=
  enumerates (oTransmitter os) (TransmitterConfigs file) ∧
  enumerates (oReader os) (DestinationReaderConfigs file) ∧ enumerates (oChain os) chains ∧
  NoDup (oDrop os) ∧
  ∀ sel, sel ∈ oDrop os ↔ sel ∈ dom (TransmitterConfigs file) ∪ dom (DestinationReaderConfigs file) ∪ dom chains.

Lemma drop_spec order (out : gmap string destinationConfig) : NoDup order → (∀ k, is_Some (out !! k) → k ∈ order) →
  ∀ k, foldl (λ out sel, match out !! sel with
                         | Some dc => if usable dc then out else delete sel out
                         | None => out
                         end) out order !! k = if_usable (out !! k).
Proof.
  intros Hn Hall. assert (∀ k, k ∉ order → if_usable (out !! k) = out !! k) as Hout.
  { intros k Hk. destruct (out !! k) as [dc|] eqn:E; [|done]. by destruct Hk; apply Hall; eexists. }
  clear Hall. revert out Hout. induction Hn as [|sel order Hsel Hn IH]; intros out Hout k; cbn.
  { rewrite Hout; [done|by intros ?%elem_of_nil]. }
  set (out1 := match out !! sel with Some dc => if usable dc then out else delete sel out | None => out end).
  assert (out1 !! sel = if_usable (out !! sel) ∧ ∀ k, k ≠ sel → out1 !! k = out !! k) as [H1 H2].
  { unfold out1, if_usable. destruct (out !! sel) as [dc|] eqn:E; cbn; [|by rewrite E].
    destruct (usable dc); [by rewrite E|]. split; [apply lookup_delete_eq|]. intros k' Hk'. by rewrite lookup_delete_ne. }
  rewrite IH.
  - destruct (decide (k = sel)) as [->|Hk]; [|by rewrite H2]. rewrite H1. unfold if_usable.
    destruct (out !! sel) as [dc|]; cbn; [|done]. destruct (usable dc) eqn:E; cbn; [by rewrite E|done].
  - intros k' Hk'. destruct (decide (k' = sel)) as [->|Hk'']; [|rewrite !H2 by done; apply Hout; rewrite elem_of_cons; naive_solver].
    rewrite H1. unfold if_usable. destruct (out !! sel) as [dc|]; cbn; [|done]. destruct (usable dc) eqn:E; cbn; [by rewrite E|done].
Qed.

Lemma dests_spec key os file g : dest_orders os file (ChainConfiguration g) →
  match buildStellarDestConfigs key os file g with
  | Ok m => ∀ sel, ∃ x, dest_at key file (ChainConfiguration g) sel = Ok x ∧ m ≫= lookup sel = if_usable x
  | Err e => ∃ sel, dest_at key file (ChainConfiguration g) sel = Err e
  end.
Proof.
  intros (H1 & H2 & H3 & H4 & H5). unfold buildStellarDestConfigs.
  set (out1 := range (oTransmitter os) _ _ _).
  assert (∀ sel, out1 !! sel = dest_seed key <$> TransmitterConfigs file !! sel) as Ho1.
  { intros sel. unfold out1. rewrite (range_spec (TransmitterConfigs file) (λ _ tc _, dest_seed key tc)) by done.
    by destruct (TransmitterConfigs file !! sel); [|rewrite lookup_empty]. }
  clearbody out1. set (out2 := range (oReader os) _ _ _).
  assert (∀ sel, out2 !! sel = match DestinationReaderConfigs file !! sel with
    | Some dr => Some (dest_reader key dr (default zeroDestinationConfig (out1 !! sel))) | None => out1 !! sel end) as Ho2.
  { intros sel. unfold out2.
    exact (range_spec (DestinationReaderConfigs file) (λ _ dr x, dest_reader key dr (default zeroDestinationConfig x)) _ _ _ H2). }
  clearbody out2. set (chains := ChainConfiguration g) in *.
  set (h := λ sel c (x : option destinationConfig), dest_chain key sel c (default zeroDestinationConfig x)).
  set (gk := λ k x, (λ c, h k c x) <$> chains !! k).
  assert (∀ sel, dest_at key file chains sel = at_key gk sel (out2 !! sel)) as Hat.
  { intros sel. unfold dest_at, at_key, gk. rewrite Ho2, Ho1. by destruct (chains !! sel). }
  assert (range_err (oChain os) (λ _, chains)
    (λ sel c out, dc ← dest_chain key sel c (get zeroDestinationConfig out sel); Ok (<[sel := dc]> out)) out2
    = steps gk (oChain os) out2) as ->.
  { by apply (range_err_steps (λ _, chains) h gk). }
  pose proof (steps_over chains gk (oChain os) out2 H3 ltac:(intros k x Hk; unfold gk; by rewrite Hk)) as H.
  destruct (steps gk (oChain os) out2) as [out3|e]; cbn [mbind result_bind]; [|destruct H as (k & He); exists k; by rewrite Hat].
  assert (∀ k, is_Some (out3 !! k) → k ∈ oDrop os) as Hall.
  { intros k Hk. apply H5. specialize (H k). rewrite <- Hat in H. unfold dest_at in H.
    rewrite !elem_of_union, !elem_of_dom. destruct (TransmitterConfigs file !! k); [eauto|].
    destruct (DestinationReaderConfigs file !! k); [eauto|]. destruct (chains !! k); [eauto|].
    cbn in H. injection H as H. rewrite <- H in Hk. by destruct Hk. }
  pose proof (drop_spec (oDrop os) out3 H4 Hall) as Hd. set (out4 := foldl _ out3 (oDrop os)) in *. clearbody out4.
  assert (∀ sel, (if decide (out4 = ∅) then None else Some out4) ≫= lookup sel = out4 !! sel) as Hm.
  { intros sel. case_decide as E; cbn; [by rewrite E, lookup_empty|done]. }
  assert (∀ sel, ∃ x, dest_at key file chains sel = Ok x ∧ out4 !! sel = if_usable x) as Hx.
  { intros sel. exists (out3 !! sel). by rewrite Hat. }
  replace (if decide (out4 = ∅) then Ok None else Ok (Some out4))
    with (Ok (if decide (out4 = ∅) then None else Some out4)) by (by case_decide).
  intros sel. destruct (Hx sel) as (x & ? & Hs). exists x. split; [done|]. by rewrite Hm.
Qed.
End config.

(** ** Theorems *)

Section accessor.
Context {ST : SdkTypes} {SD : Sdk} {UT : UnicodeTables} {XS : XdrSdk} {HF : HostFunctions}
  {MS : MetaSdk} {RS : RpcSdk} {FC : FloatConv} {DS : DeployerSdk}
  {CP : CcvProtocol} {CX : CcvXdr} {LC : LruCache} {AS : AccessorSdk}.

(** *** The reference

    The texts of a field, the preferred ones first: the first that is not empty. *)
Fixpoint first_text (texts : list string) : string :=
  match texts with [] => "" | t :: texts' => if decide (t = "") then first_text texts' else t end.
(** The text of a field in the entry of a chain, empty where there is none. *)
Definition text {A} (f : A → string) (m : gmap string A) (sel : string) : string :=
  match m !! sel with Some x => f x | None => "" end.
(** The contract that hexadecimal digits name, with or without the prefix. *)
Definition contract_of_hex (hex : string) : result string :=
  match ScVal.Hex.DecodeString (TrimPrefix hex "0x") with
  | Ok raw => Encode VersionByteContract raw
  | Err e => Err ("decode hex address " +:+ Quote hex +:+ ": " +:+ e)
  end.
(** An address: the texts come first; the digits are converted when all of them are empty. *)
Definition address (texts : list string) (hex : string) (s : string) : Prop :=
  if decide (first_text texts = "") then if decide (hex = "") then s = "" else contract_of_hex hex = Ok s
  else s = first_text texts.

Section reference.
Context (file : FileConfig) (job : gmap string ReaderConfig) (g : GenericConfig) (sel : string).
Definition known : Prop := is_Some (ReaderConfigs file !! sel) ∨ is_Some (job !! sel).
(** The sources of the four addresses of a chain: what they are called, texts and digits. *)
Definition onramp_texts : list string :=
  [text OnRampContractID job sel; text OnRampContractID (ReaderConfigs file) sel].
Definition rmn_texts : list string :=
  [text RMNRemoteContractID job sel; text RMNRemoteContractID (ReaderConfigs file) sel].
Definition offramp_texts : list string :=
  [text tcOffRampContractID (TransmitterConfigs file) sel; text drOffRampContractID (DestinationReaderConfigs file) sel].
Definition dest_rmn_texts : list string :=
  [text tcRMNRemoteAddress (TransmitterConfigs file) sel; text drRMNRemoteContractID (DestinationReaderConfigs file) sel].
Inductive source : string → list string → string → Prop :=
| source_onramp : known → source "OnRamp" onramp_texts (text id (OnRampAddresses g) sel)
| source_rmn : known → source "RMN Remote" rmn_texts (text id (RMNRemoteAddresses g) sel)
| source_offramp : source "OffRamp" offramp_texts (text OffRampAddress (ChainConfiguration g) sel)
| source_dest_rmn : source "RMN Remote" dest_rmn_texts (text RmnAddress (ChainConfiguration g) sel).

(** An address that is needed does not convert; the error. *)
Definition unconvertible (e : string) : Prop := ∃ what texts hex e0, source what texts hex ∧
  first_text texts = "" ∧ hex ≠ "" ∧ contract_of_hex hex = Err e0 ∧
  e = "convert " +:+ what +:+ " hex to strkey for chain " +:+ sel +:+ ": " +:+ e0.

Definition reader_given (rc : ReaderConfig) : Prop :=
  NetworkPassphrase rc =
    first_text [text NetworkPassphrase job sel; text NetworkPassphrase (ReaderConfigs file) sel] ∧
  SorobanRPCURL rc = first_text [text SorobanRPCURL job sel; text SorobanRPCURL (ReaderConfigs file) sel] ∧
  address onramp_texts (text id (OnRampAddresses g) sel) (OnRampContractID rc) ∧
  address rmn_texts (text id (RMNRemoteAddresses g) sel) (RMNRemoteContractID rc).
Definition dest_given (dc : destinationConfig) : Prop :=
  stateChangedTopic dc = text tcCCIPStateChangedTopic (TransmitterConfigs file) sel ∧
  keyName dc = first_text [text TransmitterKeyName (ChainConfiguration g) sel;
                           FamilyStellar +:+ "/tx/stellar_transmitter_ed25519_key"] ∧
  address offramp_texts (text OffRampAddress (ChainConfiguration g) sel) (offRampContractID dc) ∧
  address dest_rmn_texts (text RmnAddress (ChainConfiguration g) sel) (rmnRemoteContractID dc).
End reference.

(** The orders in which Go may range over the maps. *)
Definition valid_orders (os : load_orders) (file : FileConfig) (job : gmap string ReaderConfig) (g : GenericConfig) : Prop :=
  enumerates (oJob os) job ∧
  (NoDup (oOverride os) ∧ ∀ sel, sel ∈ oOverride os ↔ known file job sel) ∧
  dest_orders (oDest os) file (ChainConfiguration g).

(** *** The code's functions of one chain agree with it *)

Lemma first_text_skip texts : first_text ("" :: texts) = first_text texts.
Proof. reflexivity. Qed.
Lemma first_text_one t : first_text [t] = t.
Proof. cbn. by case_decide. Qed.
Lemma over_text base overlay : over base overlay = first_text [overlay; base].
Proof. unfold over. cbn. repeat case_decide; congruence. Qed.
Lemma fill_text current other : fill current other = first_text [current; other].
Proof. unfold fill. cbn. repeat case_decide; congruence. Qed.
Lemma convert_hex h : ScVal.HexToContractStrkey h = contract_of_hex h.
Proof. unfold ScVal.HexToContractStrkey, contract_of_hex. by destruct (ScVal.Hex.DecodeString _). Qed.

Lemma append_assoc (a b c : string) : (a +:+ b) +:+ c = a +:+ b +:+ c.
Proof. induction a as [|x a IH]; [done|].
  change (String x ((a +:+ b) +:+ c) = String x (a +:+ b +:+ c)). by rewrite IH.
Qed.

(** The two guards of a conversion. *)
Lemma fill_strkey_address what sel texts h :
  match fill_strkey what sel (first_text texts) h with
  | Ok s => ∀ s', address texts h s' ↔ s' = s
  | Err e => ∃ e0, first_text texts = "" ∧ h ≠ "" ∧ contract_of_hex h = Err e0 ∧
      e = "convert " +:+ what +:+ " hex to strkey for chain " +:+ sel +:+ ": " +:+ e0
  end.
Proof.
  unfold fill_strkey, address. rewrite convert_hex. destruct (decide (first_text texts = "" ∧ h ≠ "")) as [[Ht Hh]|Hn].
  - destruct (contract_of_hex h) as [s|e0] eqn:He; cbn [wrap_err].
    + intros s'. rewrite decide_True, decide_False by done. naive_solver.
    + exists e0. split_and!; try done. by rewrite !append_assoc.
  - intros s'. case_decide as Ht; [|done]. case_decide as Hh; [by rewrite Ht|tauto].
Qed.
Lemma fill_hex_strkey what sel current m : fill_hex what sel current m = fill_strkey what sel current (text id m sel).
Proof. unfold fill_hex, fill_strkey, text. destruct (m !! sel); cbn; repeat case_decide; naive_solver. Qed.

Lemma address_det texts hex s s' : address texts hex s → address texts hex s' → s = s'.
Proof. unfold address. repeat case_decide; congruence. Qed.
Lemma address_converts texts hex s e0 :
  address texts hex s → first_text texts = "" → hex ≠ "" → contract_of_hex hex ≠ Err e0.
Proof. unfold address. intros Ha Ht Hh. rewrite decide_True, decide_False in Ha by done. congruence. Qed.

(** The reader's entry after the two merges, before addresses are filled. *)
Lemma merged_texts file job sel :
  match (match job !! sel with
         | Some j => Some (mergeReaderConfig (get zeroReaderConfig (ReaderConfigs file) sel) j)
         | None => ReaderConfigs file !! sel
         end) with
  | Some m => known file job sel ∧
      ∀ f, f ∈ [NetworkPassphrase; SorobanRPCURL; OnRampContractID; RMNRemoteContractID] →
        f m = first_text [text f job sel; text f (ReaderConfigs file) sel]
  | None => ¬ known file job sel
  end.
Proof.
  unfold known, get, text. destruct (job !! sel) as [j|], (ReaderConfigs file !! sel) as [r|] eqn:Hr; cbn [default from_option].
  - split; [eauto|]. intros f Hf. repeat (apply elem_of_cons in Hf as [-> | Hf]; [apply over_text|]). by apply elem_of_nil in Hf.
  - split; [eauto|]. intros f Hf. repeat (apply elem_of_cons in Hf as [-> | Hf]; [apply over_text|]). by apply elem_of_nil in Hf.
  - split; [eauto|]. intros f _. by rewrite first_text_skip, first_text_one.
  - intros [[? ?]|[? ?]]; done.
Qed.
Lemma reader_at_given file job g sel :
  match reader_at (ReaderConfigs file) job (OnRampAddresses g) (RMNRemoteAddresses g) sel with
  | Ok x => (∀ rc, x = Some rc ↔ known file job sel ∧ reader_given file job g sel rc) ∧
      (known file job sel → is_Some x)
  | Err e => unconvertible file job g sel e
  end.
Proof.
  unfold reader_at. pose proof (merged_texts file job sel) as Hm.
  match type of Hm with match ?x with _ => _ end => destruct x as [m|] end.
  2: { split; [|tauto]. intros rc. split; [done|tauto]. }
  destruct Hm as [Hk Hf].
  pose proof (Hf _ ltac:(by left)) as Hn. pose proof (Hf _ ltac:(by right; left)) as Hu.
  pose proof (Hf _ ltac:(by do 2 right; left)) as Ho. pose proof (Hf _ ltac:(by do 3 right; left)) as Hr. clear Hf.
  unfold override_one. rewrite !fill_hex_strkey, Ho, Hr.
  pose proof (fill_strkey_address "OnRamp" sel (onramp_texts file job sel) (text id (OnRampAddresses g) sel)) as H1.
  unfold onramp_texts in H1.
  destruct (fill_strkey "OnRamp" _ _ _) as [on|e]; cbn [mbind result_bind fmap result_fmap].
  2: { destruct H1 as (e0 & ? & ? & ? & ->). eexists _, _, _, e0. by split; [by apply source_onramp|]. }
  pose proof (fill_strkey_address "RMN Remote" sel (rmn_texts file job sel) (text id (RMNRemoteAddresses g) sel)) as H2.
  unfold rmn_texts in H2.
  destruct (fill_strkey "RMN Remote" _ _ _) as [rm|e]; cbn [mbind result_bind fmap result_fmap].
  2: { destruct H2 as (e0 & ? & ? & ? & ->). eexists _, _, _, e0. by split; [by apply source_rmn|]. }
  split; [|by eexists]. intros rc. unfold reader_given, onramp_texts, rmn_texts. rewrite <- Hn, <- Hu, H1, H2. split.
  - by intros [= <-].
  - destruct rc; cbn. intros (_ & -> & -> & -> & ->). done.
Qed.

Lemma address_no_hex texts : address texts "" (first_text texts).
Proof. unfold address. by case_decide. Qed.
Lemma dest_given_det file g sel d d' : dest_given file g sel d → dest_given file g sel d' → d = d'.
Proof.
  destruct d, d'; unfold dest_given; cbn. intros (-> & -> & Ho & Hr) (-> & -> & Ho' & Hr').
  by rewrite (address_det _ _ _ _ Ho Ho'), (address_det _ _ _ _ Hr Hr').
Qed.
Lemma usable_given file g sel x :
  (∀ d, x = Some d → dest_given file g sel d) → (x = None → TransmitterConfigs file !! sel = None) →
  ∀ dc, if_usable x = Some dc ↔ dest_given file g sel dc ∧ offRampContractID dc ≠ "" ∧ stateChangedTopic dc ≠ "".
Proof.
  intros Hs Hn dc. unfold if_usable, usable. destruct x as [d|]; cbn.
  - specialize (Hs d eq_refl). destruct (bool_decide_reflect (offRampContractID d = "" ∨ stateChangedTopic d = "")) as [Hu|Hu]; cbn.
    + split; [done|]. intros (Hd & Ho & Ht). rewrite (dest_given_det _ _ _ _ _ Hs Hd) in Hu. tauto.
    + split; [intros [= <-]; tauto|]. intros (Hd & _). by rewrite (dest_given_det _ _ _ _ _ Hs Hd).
  - split; [done|]. intros ((Ht & _) & _ & Ht'). destruct Ht'. rewrite Ht. unfold text. by rewrite Hn.
Qed.
Lemma dest_at_given file job g sel :
  match dest_at (StellarTransmitterKeyName FamilyStellar) file (ChainConfiguration g) sel with
  | Ok x => (∀ dc, if_usable x = Some dc ↔
        dest_given file g sel dc ∧ offRampContractID dc ≠ "" ∧ stateChangedTopic dc ≠ "") ∧
      (is_Some (ChainConfiguration g !! sel) → ∃ dc, dest_given file g sel dc)
  | Err e => unconvertible file job g sel e
  end.
Proof.
  unfold dest_at. set (key := StellarTransmitterKeyName FamilyStellar).
  set (seed := dest_seed key <$> TransmitterConfigs file !! sel).
  set (read := match DestinationReaderConfigs file !! sel with
               | Some dr => Some (dest_reader key dr (default zeroDestinationConfig seed))
               | None => seed
               end).
  set (dc0 := default zeroDestinationConfig read).
  assert (offRampContractID dc0 = first_text (offramp_texts file sel) ∧
          rmnRemoteContractID dc0 = first_text (dest_rmn_texts file sel) ∧
          stateChangedTopic dc0 = text tcCCIPStateChangedTopic (TransmitterConfigs file) sel ∧
          fill (keyName dc0) key = key ∧ (is_Some read → keyName dc0 = key) ∧
          (∀ d, read = Some d → d = dc0) ∧ (read = None → TransmitterConfigs file !! sel = None))
    as (Ho & Hr & Ht & Hk & Hkr & Hd & Hn).
  { unfold dc0, read, seed, offramp_texts, dest_rmn_texts, text. 
    destruct (TransmitterConfigs file !! sel) as [tc|], (DestinationReaderConfigs file !! sel) as [dr|];
      cbn; rewrite ?fill_text.
    all: split_and!; try done; try (by intros [? ?]); try (by intros d [= <-]); cbn; repeat case_decide; try done; congruence. }
  clearbody dc0 read. clear seed.
  destruct (ChainConfiguration g !! sel) as [c|] eqn:Hc.
  2: { split; [|by intros [? ?]]. apply usable_given; [|done]. intros d E. rewrite (Hd d E). unfold dest_given.
       assert (∀ f, text f (ChainConfiguration g) sel = "") as Hf by (intros f; unfold text; by rewrite Hc).
       rewrite !Hf.
       rewrite Ho, Hr, Hkr by by eexists. split_and!; [done| |apply address_no_hex..].
       by rewrite first_text_skip, first_text_one. }
  assert (∀ f, text f (ChainConfiguration g) sel = f c) as Hf by (intros f; unfold text; by rewrite Hc).
  unfold dest_chain. rewrite Ho, Hr.
  pose proof (fill_strkey_address "OffRamp" sel (offramp_texts file sel) (OffRampAddress c)) as H1.
  destruct (fill_strkey "OffRamp" _ _ _) as [off|e]; cbn [mbind result_bind fmap result_fmap].
  2: { destruct H1 as (e0 & ? & ? & ? & ->). rewrite <- Hf in *. eexists _, _, _, e0. by split; [by apply (source_offramp file job)|]. }
  pose proof (fill_strkey_address "RMN Remote" sel (dest_rmn_texts file sel) (RmnAddress c)) as H2.
  destruct (fill_strkey "RMN Remote" _ _ _) as [rm|e]; cbn [mbind result_bind fmap result_fmap].
  2: { destruct H2 as (e0 & ? & ? & ? & ->). rewrite <- Hf in *. eexists _, _, _, e0. by split; [by apply (source_dest_rmn file job)|]. }
  assert (dest_given file g sel (mkDestinationConfig off rm (stateChangedTopic dc0)
    (over (fill (keyName dc0) key) (TransmitterKeyName c)))) as Hg.
  { unfold dest_given. rewrite !Hf. cbn [offRampContractID rmnRemoteContractID stateChangedTopic keyName].
    rewrite H1, H2, Hk, over_text. by split_and!. }
  split; [|by eexists]. apply usable_given; [|done]. by intros d [= <-].
Qed.

(** What the two functions give for a chain, when neither fails. *)
Definition given file job g sel (rc : option ReaderConfig) (dc : option destinationConfig) : Prop :=
  ((∀ x, rc = Some x ↔ known file job sel ∧ reader_given file job g sel x) ∧ (known file job sel → is_Some rc)) ∧
  (∀ x, dc = Some x ↔ dest_given file g sel x ∧ offRampContractID x ≠ "" ∧ stateChangedTopic x ≠ "") ∧
  (is_Some (ChainConfiguration g !! sel) → ∃ x, dest_given file g sel x).
Lemma given_converts file job g sel rc dc e : given file job g sel rc dc → ¬ unconvertible file job g sel e.
Proof.
  intros ((Hr & Hs) & _ & Hd) (what & texts & hex & e0 & Hsrc & Ht & Hh & He & _).
  assert (∃ s, address texts hex s) as [s Ha]; [|by eapply address_converts].
  destruct Hsrc as [Hk|Hk| |].
  - destruct (Hs Hk) as [x Hx]. destruct (proj1 (Hr x) Hx) as (_ & _ & _ & ? & _). by eexists.
  - destruct (Hs Hk) as [x Hx]. destruct (proj1 (Hr x) Hx) as (_ & _ & _ & _ & ?). by eexists.
  - destruct Hd as (x & _ & _ & ? & _); [|by eexists]. unfold text in Hh. destruct (ChainConfiguration g !! sel); [by eexists|done].
  - destruct Hd as (x & _ & _ & _ & ?); [|by eexists]. unfold text in Hh. destruct (ChainConfiguration g !! sel); [by eexists|done].
Qed.
Lemma merged_order os file job order :
  enumerates os job → NoDup order ∧ (∀ sel, sel ∈ order ↔ known file job sel) →
  enumerates order (mergeFileAndJobReaderConfigs os (ReaderConfigs file) job).
Proof.
  intros H1 [Hn Hin]. unfold enumerates. apply NoDup_Permutation; [done|apply NoDup_fst_map_to_list|].
  intros sel. rewrite Hin. set (m := mergeFileAndJobReaderConfigs _ _ _).
  transitivity (is_Some (m !! sel)); [|symmetry; by apply enumerates_in; unfold enumerates].
  unfold m, known. rewrite merge_lookup by done.
  destruct (job !! sel); [split; [by eexists|by right; eexists]|].
  split; [|by left]. intros [?|[? ?]]; done.
Qed.

(** C38. Creating the factory, whatever orders Go ranges over the maps in. It fails when the file
    cannot be read or has unknown fields, when the job's part cannot be read, and when an address
    that is needed, of any chain, does not convert; the error says so. Otherwise it succeeds, with
    the job's retry duration. It has a reader for exactly the chains of the file and of the job:
    each text is the job's or, where that is empty, the file's, and an address that is empty in
    both is converted from the hexadecimal one. It has a destination for exactly the chains whose
    OffRamp and topic come out not empty: the topic is the transmitter's; the two addresses are
    the transmitter's, or else the destination reader's, or else converted from the executor's
    configuration; the key is the one that configuration names, or else the default one. *)
Theorem configs_merged_exactly env DecodeFile g os :
  let path := match env with Some p => p | None => "/etc/config/stellar.toml" end in
  (∀ file job, DecodeFile path = Ok (file, None) → StellarInfos g = Ok job → valid_orders os file job g) →
  let created := CreateStellarAccessorFactory env DecodeFile g os in
  match DecodeFile path, StellarInfos g with
  | Err e, _ => created = Err ("load stellar config: failed to unmarshal config file " +:+ path +:+ ": " +:+ e)
  | Ok (_, Some keys), _ => created = Err ("load stellar config: unknown fields in config: " +:+ keys)
  | Ok (_, None), Err e => created = Err ("get stellar blockchain_infos: " +:+ e)
  | Ok (file, None), Ok job =>
      match created with
      | Ok f =>
          (∀ sel e, ¬ unconvertible file job g sel e) ∧
          f_attemptCacheExpiration f = MaxRetryDuration g ∧
          ∀ sel,
            (∀ rc, lookup_cfg (readerConfig f) sel = Some rc ↔ known file job sel ∧ reader_given file job g sel rc) ∧
            (∀ dc, lookup_cfg (destConfig f) sel = Some dc ↔
               dest_given file g sel dc ∧ offRampContractID dc ≠ "" ∧ stateChangedTopic dc ≠ "")
      | Err e => ∃ sel, unconvertible file job g sel e
      end
  end.
Proof.
  intros path Ho created. unfold created, CreateStellarAccessorFactory, loadStellarFileConfig, stellarConfigPath, DefaultStellarConfigPath, loadStellarJobReaderInfos.
  fold path. destruct (DecodeFile path) as [[file [keys|]]|e]; cbn [wrap_err mbind result_bind]; [done| |by rewrite append_assoc].
  destruct (StellarInfos g) as [job|e]; cbn [wrap_err mbind result_bind]; [|done].
  destruct (Ho file job eq_refl eq_refl) as (H1 & H2 & H3).
  pose proof (readers_spec _ _ _ _ (OnRampAddresses g) (RMNRemoteAddresses g) H1 (merged_order _ _ _ _ H1 H2)) as Hr.
  destruct (applyOnRampRMNHexOverrides _ _ _ _) as [rs|e]; cbn [mbind result_bind].
  2: { destruct Hr as [sel Hr]. exists sel. pose proof (reader_at_given file job g sel) as H. by rewrite Hr in H. }
  pose proof (dests_spec (StellarTransmitterKeyName FamilyStellar) (oDest os) file g H3) as Hd.
  destruct (buildStellarDestConfigs _ (oDest os) file g) as [ds|e]; cbn [mbind result_bind].
  2: { destruct Hd as [sel Hd]. exists sel. pose proof (dest_at_given file job g sel) as H. by rewrite Hd in H. }
  assert (∀ sel, given file job g sel (rs !! sel) (ds ≫= lookup sel)) as Hg.
  { intros sel. pose proof (reader_at_given file job g sel) as Hr'. rewrite (Hr sel) in Hr'.
    pose proof (dest_at_given file job g sel) as Hd'. destruct (Hd sel) as (x & Hx & ->). rewrite Hx in Hd'. by split. }
  split; [|split; [done|]].
  - intros sel e. eapply given_converts, Hg.
  - intros sel. destruct (Hg sel) as [[Hr' _] [Hd' _]]. by split.
Qed.

(** Keystores injected one after the other. *)
Definition injected (a : accessor) (kss : list (option Keystore)) : accessor :=
  foldl (λ a ks, SetKeystore ks a) a kss.
Lemma injected_snoc a kss ks : injected a (kss ++ [ks]) = SetKeystore ks (injected a kss).
Proof. unfold injected. by rewrite foldl_app. Qed.

(** A signer that one of them gave. *)
Definition signed_with (kss : list (option Keystore)) (name : string) (s : TxSigner) : Prop :=
  ∃ ks, Some ks ∈ kss ∧ LoadStellarKeystoreSigner (Some ks) name = Ok s.

(** What an accessor never changes. *)
Definition same_config (a b : accessor) : Prop :=
  readerCfg b = readerCfg a ∧ hasReader b = hasReader a ∧ destCfg b = destCfg a ∧ hasDest b = hasDest a ∧
  attemptCacheExpiration b = attemptCacheExpiration a.
Lemma same_config_trans a b c : same_config a b → same_config b c → same_config a c.
Proof. unfold same_config. intros (-> & -> & -> & -> & ->) (-> & -> & -> & -> & ->). done. Qed.

Lemma SetKeystore_config ks a : same_config a (SetKeystore ks a).
Proof.
  destruct ks as [ks|]; [|done]. cbn [SetKeystore].
  destruct (LoadStellarKeystoreSigner _ _) as [s|e].
  - unfold build_dest, build_reader. destruct (hasReader a) eqn:Hr, (sourceReaderErr a) eqn:He;
      try destruct (buildSourceReaderWithSigner _ _); cbn; try rewrite !Hr; case_match; try done;
      case_match; try done; case_match; done.
  - unfold signer_failed. destruct (sourceReaderErr a), (hasReader a) eqn:Hr, (hasDest a) eqn:Hd; cbn; rewrite ?Hd; done.
Qed.
Lemma injected_config a kss : same_config a (injected a kss).
Proof.
  induction kss as [|ks kss IH] using rev_ind; [done|]. rewrite injected_snoc.
  eapply same_config_trans; [exact IH|apply SetKeystore_config].
Qed.

(** What SetKeystore does to the source reader's part and to the destination's. *)
Lemma SetKeystore_source ks a :
  (sourceReader (SetKeystore ks a), sourceReaderErr (SetKeystore ks a)) =
  match ks with
  | None => (sourceReader a, sourceReaderErr a)
  | Some _ =>
      if hasReader a then
        match sourceReaderErr a with
        | Some e => (sourceReader a, Some e)
        | None =>
            match LoadStellarKeystoreSigner ks (key_name a) with
            | Err e => (sourceReader a, Some ("load stellar keystore signer: " +:+ e))
            | Ok s => match buildSourceReaderWithSigner (readerCfg a) s with
                      | Err e => (sourceReader a, Some e)
                      | Ok sr => (Some sr, None)
                      end
            end
        end
      else (sourceReader a, sourceReaderErr a)
  end.
Proof.
  destruct ks as [ks|]; [|done]. cbn [SetKeystore]. destruct (LoadStellarKeystoreSigner _ _) as [s|e].
  - assert (∀ b, (sourceReader (build_dest s b), sourceReaderErr (build_dest s b)) = (sourceReader b, sourceReaderErr b)) as ->.
    { intros b. unfold build_dest. destruct (hasDest b); [|done]. by destruct (buildDestinationComponents _ _ _ _) as [[??]|]. }
    unfold build_reader. destruct (hasReader a), (sourceReaderErr a) eqn:He; rewrite ?He; try done.
    by destruct (buildSourceReaderWithSigner _ _).
  - unfold signer_failed. destruct (sourceReaderErr a) eqn:He, (hasReader a) eqn:Hr; cbn;
      destruct (hasDest a) eqn:Hd; cbn; rewrite ?He, ?Hd; done.
Qed.

Definition dest_part (a : accessor) :=
  (destinationReader a, destReaderErr a, contractTransmitter a, contractTransmitterErr a).
Lemma SetKeystore_dest ks a :
  dest_part (SetKeystore ks a) =
  match ks with
  | None => dest_part a
  | Some _ =>
      if hasDest a then
        match (s ← wrap_err "load stellar keystore signer" (LoadStellarKeystoreSigner ks (key_name a));
               buildDestinationComponents (destCfg a) (readerCfg a) s (attemptCacheExpiration a)) with
        | Err e => (destinationReader a, Some e, contractTransmitter a, Some e)
        | Ok (dr, ct) => (Some dr, None, Some ct, None)
        end
      else dest_part a
  end.
Proof.
  destruct ks as [ks|]; [|done]. cbn [SetKeystore]. destruct (LoadStellarKeystoreSigner _ _) as [s|e]; cbn [wrap_err mbind result_bind].
  - assert (dest_part (build_reader s a) = dest_part a ∧ same_config a (build_reader s a)) as [Hd (Hc & _ & Hdc & Hhd & Hx)].
    { unfold build_reader, dest_part, same_config. destruct (hasReader a) eqn:?, (sourceReaderErr a) eqn:?; try done.
      by destruct (buildSourceReaderWithSigner _ _). }
    unfold build_dest. rewrite Hhd, Hdc, Hc, Hx. unfold dest_part in *. injection Hd as Hd1 Hd2 Hd3 Hd4.
    destruct (hasDest a); [|by rewrite Hd1, Hd2, Hd3, Hd4].
    destruct (buildDestinationComponents _ _ _ _) as [[dr ct]|e]; cbn; [done|by rewrite Hd1, Hd3].
  - unfold signer_failed, dest_part. destruct (sourceReaderErr a), (hasReader a), (hasDest a) eqn:Hd; cbn; rewrite ?Hd; done.
Qed.

Lemma signed_with_snoc kss ks n s : signed_with kss n s → signed_with (kss ++ [ks]) n s.
Proof. intros (k & Hk & ?). exists k. rewrite elem_of_app. auto. Qed.

(** What the components of an accessor come from. *)
Definition built (a0 : accessor) (kss : list (option Keystore)) (a : accessor) : Prop :=
  (sourceReaderErr a = None → sourceReaderErr a0 = None) ∧
  (∀ x, sourceReader a = Some x → sourceReaderErr a0 = None ∧ hasReader a0 = true ∧
     ∃ s, signed_with kss (key_name a0) s ∧ buildSourceReaderWithSigner (readerCfg a0) s = Ok x) ∧
  (is_Some (destinationReader a) ∨ is_Some (contractTransmitter a) → hasDest a0 = true ∧
     ∃ s dr ct, signed_with kss (key_name a0) s ∧ destinationReader a = Some dr ∧ contractTransmitter a = Some ct ∧
       buildDestinationComponents (destCfg a0) (readerCfg a0) s (attemptCacheExpiration a0) = Ok (dr, ct)).

Lemma injected_built a0 kss :
  sourceReader a0 = None → destinationReader a0 = None → contractTransmitter a0 = None → built a0 kss (injected a0 kss).
Proof.
  intros H1 H2 H3. induction kss as [|ks kss IH] using rev_ind.
  { split_and!; cbn; [done|by rewrite H1|]. rewrite H2, H3. by intros [[? ?]|[? ?]]. }
  rewrite injected_snoc. destruct IH as (He & Hs & Hd).
  destruct (injected_config a0 kss) as (Hrc & Hhr & Hdc & Hhd & Hx).
  set (a := injected a0 kss) in *. clearbody a.
  assert (key_name a = key_name a0) as Hk by (unfold key_name; by rewrite Hdc).
  assert (∀ s, LoadStellarKeystoreSigner ks (key_name a) = Ok s → signed_with (kss ++ [ks]) (key_name a0) s) as Hl.
  { intros s Hl. destruct ks as [ks|]; [|done]. exists ks. rewrite <- Hk. split; [|done].
    apply elem_of_app. right. apply list_elem_of_here. }
  split_and!.
  - pose proof (f_equal snd (SetKeystore_source ks a)) as E. cbn [snd] in E. rewrite E. clear E.
    destruct ks; [|done]. destruct (hasReader a); [|done]. destruct (sourceReaderErr a); [done|]. by auto.
  - intros x Hx'. pose proof (f_equal fst (SetKeystore_source ks a)) as E. cbn [fst] in E. rewrite E in Hx'. clear E.
    assert (sourceReader a = Some x → sourceReaderErr a0 = None ∧ hasReader a0 = true ∧
      ∃ s, signed_with (kss ++ [ks]) (key_name a0) s ∧ buildSourceReaderWithSigner (readerCfg a0) s = Ok x) as Hold.
    { intros Hx2. destruct (Hs x Hx2) as (? & ? & s & ? & ?). split_and!; [done..|]. exists s. split; [by apply signed_with_snoc|done]. }
    destruct ks as [ks|]; [|auto]. destruct (hasReader a) eqn:Hr; [|auto].
    destruct (sourceReaderErr a) eqn:Hse; [auto|].
    destruct (LoadStellarKeystoreSigner _ _) as [s|e] eqn:Hld; [|auto].
    destruct (buildSourceReaderWithSigner (readerCfg a) s) as [sr|e] eqn:Hb; [|auto]. injection Hx' as <-.
    split_and!; [by apply He|by rewrite <- Hhr|]. exists s. split; [by apply Hl|by rewrite <- Hrc].
  - pose proof (SetKeystore_dest ks a) as E. unfold dest_part in E.
    set (a' := SetKeystore ks a) in *. clearbody a'.
    assert (is_Some (destinationReader a) ∨ is_Some (contractTransmitter a) → hasDest a0 = true ∧
      ∃ s dr ct, signed_with (kss ++ [ks]) (key_name a0) s ∧ destinationReader a = Some dr ∧ contractTransmitter a = Some ct ∧
       buildDestinationComponents (destCfg a0) (readerCfg a0) s (attemptCacheExpiration a0) = Ok (dr, ct)) as Hold.
    { intros H. destruct (Hd H) as (? & s & dr & ct & ? & ? & ? & ?). split; [done|]. exists s, dr, ct. split_and!; try done. by apply signed_with_snoc. }
    destruct ks as [ks|]; [|injection E as -> _ -> _; auto]. destruct (hasDest a) eqn:Hha; [|injection E as -> _ -> _; auto].
    destruct (LoadStellarKeystoreSigner _ _) as [s|e] eqn:Hld; cbn [wrap_err mbind result_bind] in E;
      [|injection E as -> _ -> _; auto].
    destruct (buildDestinationComponents _ _ _ _) as [[dr ct]|e] eqn:Hb; [|injection E as -> _ -> _; auto].
    injection E as -> _ -> _. intros _. split; [by rewrite <- Hhd|]. exists s, dr, ct. split_and!; try done; [by apply Hl|].
    by rewrite <- Hdc, <- Hrc, <- Hx.
Qed.

Lemma GetAccessor_spec f sel a : GetAccessor f sel = Ok a →
  let rc := lookup_cfg (readerConfig f) (pretty sel) in
  let dc := lookup_cfg (destConfig f) (pretty sel) in
  readerCfg a = default zeroReaderConfig rc ∧ hasReader a = bool_decide (is_Some rc) ∧
  destCfg a = default zeroDestinationConfig dc ∧ hasDest a = bool_decide (is_Some dc) ∧
  attemptCacheExpiration a = f_attemptCacheExpiration f ∧
  sourceReader a = None ∧ destinationReader a = None ∧ contractTransmitter a = None ∧
  sourceReaderErr a = reader_error (hasReader a) (readerCfg a) sel ∧
  (hasDest a = true → destReaderErr a = None ∧ contractTransmitterErr a = None).
Proof.
  unfold GetAccessor. intros H.
  assert ((family ← wrap_err ("failed to get selector family for " +:+ pretty sel +:+ " - update chain-selectors library?")
             (GetSelectorFamily sel);
           if negb (bool_decide (family = FamilyStellar)) then Err ("skipping chain, only stellar is supported for chain " +:+ pretty sel +:+ ", family " +:+ family)
           else
             let rc := lookup_cfg (readerConfig f) (pretty sel) in
             let dc := lookup_cfg (destConfig f) (pretty sel) in
             if negb (bool_decide (is_Some rc)) && negb (bool_decide (is_Some dc))
             then Err ("stellar config not found for chain " +:+ pretty sel)
             else Ok (mkAccessor (default zeroReaderConfig rc) (bool_decide (is_Some rc)) (default zeroDestinationConfig dc)
                        (bool_decide (is_Some dc)) (f_attemptCacheExpiration f) None
                        (reader_error (bool_decide (is_Some rc)) (default zeroReaderConfig rc) sel) None
                        (if bool_decide (is_Some dc) then None else Some errDestConfigMissing) None
                        (if bool_decide (is_Some dc) then None else Some errDestConfigMissing))) = Ok a) as H'.
  { by destruct (readerConfig f), (destConfig f). }
  clear H. destruct (GetSelectorFamily sel); cbn [wrap_err mbind result_bind] in H'; [|done].
  case_bool_decide; cbn [negb] in H'; [|done]. cbn zeta in H'. destruct (_ && _); [done|]. injection H' as <-.
  cbn. split_and!; try done. by intros ->.
Qed.

Lemma signed_with_sound {XL : XdrLaws} kss n s : signed_with kss n s →
  DeployerProps.known_signer s ∧ ∃ pk, length pk = 32%nat ∧ Decode VersionByteAccountID (Address s) = Ok pk ∧
    s = keystoreTxSigner n (Address s) pk.
Proof.
  intros (ks & _ & Hl). unfold LoadStellarKeystoreSigner in Hl. case_decide; [done|].
  destruct (ks n) as [keys|]; cbn [wrap_err mbind result_bind] in Hl; [|done]. destruct keys as [|info [|]]; try done.
  destruct (bool_decide _); cbn [negb] in Hl; [|done]. destruct (Nat.eqb_spec (length (PublicKey info)) 32) as [Hk|]; cbn [negb] in Hl; [|done].
  destruct (Encode _ _) as [addr|] eqn:He; cbn [wrap_err mbind result_bind] in Hl; [|done]. injection Hl as <-. cbn [Address keystoreTxSigner].
  split; [exists addr; right; right; by exists n, (PublicKey info)|].
  exists (PublicKey info). split_and!; [done| |done]. by apply Decode_Encode.
Qed.

(** What is built from a configuration. *)
Lemma build_source_spec rc s sr d : buildSourceReaderWithSigner rc s = Ok (sr, d) →
  signer d = s ∧ networkPassphrase d = NetworkPassphrase rc ∧
  sr = SourceReader.mkSourceReader (OnRampContractID rc) StellarCCIPMessageSentTopic (RMNRemoteContractID rc).
Proof.
  unfold buildSourceReaderWithSigner, SourceReader.NewSourceReaderWithClient. cbn [negb].
  repeat (case_decide; [done|]). by intros [= <- <-].
Qed.
Lemma build_dest_spec dest rc s expiration dr p d1 ct d2 :
  buildDestinationComponents dest rc s expiration = Ok ((dr, p, d1), (ct, d2)) →
  signer d1 = s ∧ d2 = d1 ∧ networkPassphrase d1 = NetworkPassphrase rc ∧ NetworkPassphrase rc ≠ "" ∧
  offRampContractID dest ≠ "" ∧ ct = offRampContractID dest ∧
  DestinationReader.offrampClient dr = offRampContractID dest ∧
  DestinationReader.rmnRemoteAddress dr = rmnRemoteContractID dest.
Proof.
  unfold buildDestinationComponents. repeat (case_decide; [done|]).
  unfold Transmitter.NewContractTransmitterWithClient. cbn [negb]. repeat (case_decide; [done|]).
  unfold DestinationReader.New. cbn [negb]. repeat (case_decide; [done|]).
  unfold Poller.NewStellarExecutionAttemptPoller. cbn [negb]. repeat (case_decide; [done|]).
  cbn [wrap_err mbind result_bind]. by intros [= <- <- <- <- <-].
Qed.

(** Whatever keystores are injected, in whatever order and however they fail, what an
    accessor serves is the configuration of its chain: the source reader reads the chain's
    OnRamp, the destination reader and the transmitter its OffRamp, all through a deployer for
    the chain's network whose signer is a key of one of the keystores, under the chain's key
    name, with the address of that key. *)
Theorem accessor_serves_configuration {XL : XdrLaws} f sel a0 kss :
  GetAccessor f sel = Ok a0 →
  let a := injected a0 kss in
  let signed d := signed_with kss (key_name a0) (signer d) ∧ DeployerProps.known_signer (signer d) ∧
    ∃ pk, length pk = 32%nat ∧ Decode VersionByteAccountID (Address (signer d)) = Ok pk in
  (∀ sr d, get_SourceReader a = Ok (sr, d) → signed d ∧
     ∃ rc, lookup_cfg (readerConfig f) (pretty sel) = Some rc ∧ SorobanRPCURL rc ≠ "" ∧
       networkPassphrase d = NetworkPassphrase rc ∧ NetworkPassphrase rc ≠ "" ∧
       sr = SourceReader.mkSourceReader (OnRampContractID rc) StellarCCIPMessageSentTopic (RMNRemoteContractID rc)) ∧
  (∀ dr p d, get_DestinationReader a = Ok (dr, p, d) → signed d ∧
     ∃ dc, lookup_cfg (destConfig f) (pretty sel) = Some dc ∧ offRampContractID dc ≠ "" ∧
       networkPassphrase d = NetworkPassphrase (readerCfg a0) ∧ networkPassphrase d ≠ "" ∧
       DestinationReader.offrampClient dr = offRampContractID dc ∧
       DestinationReader.rmnRemoteAddress dr = rmnRemoteContractID dc) ∧
  (∀ ct d, get_ContractTransmitter a = Ok (ct, d) → signed d ∧
     ∃ dc, lookup_cfg (destConfig f) (pretty sel) = Some dc ∧ ct = offRampContractID dc ∧ ct ≠ "" ∧
       networkPassphrase d = NetworkPassphrase (readerCfg a0)).
Proof.
  intros Hf a signed.
  destruct (GetAccessor_spec _ _ _ Hf) as (Hrc & Hhr & Hdc & Hhd & _ & Hs & Hd & Hc & Hse & _).
  destruct (injected_built a0 kss Hs Hd Hc) as (_ & Hsr & Hdest). fold a in Hsr, Hdest.
  assert (∀ d s, signed_with kss (key_name a0) s → signer d = s → signed d) as Hsig.
  { intros d s Hw <-. split; [done|]. destruct (signed_with_sound _ _ _ Hw) as (? & pk & ? & ? & _). split; [done|]. by exists pk. }
  assert (hasDest a0 = true → lookup_cfg (destConfig f) (pretty sel) = Some (destCfg a0)) as Hdl.
  { rewrite Hhd, Hdc. by destruct (lookup_cfg (destConfig f) (pretty sel)). }
  split_and!.
  - intros sr d. unfold get_SourceReader, getter. destruct (sourceReaderErr a); [done|].
    destruct (sourceReader a) as [x|]; [|done]. intros [= ->]. destruct (Hsr _ eq_refl) as (He & Hh & s & Hw & Hbs).
    destruct (build_source_spec _ _ _ _ Hbs) as (? & ? & ?). split; [by eapply Hsig|]. exists (readerCfg a0).
    rewrite Hse in He. unfold reader_error in He. rewrite Hh in He. repeat (case_decide; [done|]).
    split_and!; try done. rewrite Hhr in Hh. rewrite Hrc. by destruct (lookup_cfg (readerConfig f) (pretty sel)).
  - intros dr p d. unfold get_DestinationReader, getter. destruct (destReaderErr a); [done|].
    destruct (destinationReader a) as [x|] eqn:Hx; [|done]. intros [= ->].
    destruct (Hdest ltac:(left; by eexists)) as (Hh & s & dr' & [ct d2] & Hw & [= <-] & _ & Hbd).
    destruct (build_dest_spec _ _ _ _ _ _ _ _ _ Hbd) as (? & _ & Hp & ? & ? & _ & ? & ?).
    split; [by eapply Hsig|]. exists (destCfg a0). rewrite Hp. split_and!; try done. by apply Hdl.
  - intros ct d. unfold get_ContractTransmitter, getter. destruct (contractTransmitterErr a); [done|].
    destruct (contractTransmitter a) as [x|] eqn:Hx; [|done]. intros [= ->].
    destruct (Hdest ltac:(right; by eexists)) as (Hh & s & [[dr p] d1] & ct' & Hw & _ & [= <-] & Hbd).
    destruct (build_dest_spec _ _ _ _ _ _ _ _ _ Hbd) as (? & -> & Hp & ? & ? & -> & _).
    split; [by eapply Hsig|]. exists (destCfg a0). split_and!; try done. by apply Hdl.
Qed.

(** A keystore that fails once: the destination's components recover with the next
    keystore that works, but the source reader never does, whatever is injected later. *)
Theorem source_reader_never_recovers f sel a0 ks e kss :
  GetAccessor f sel = Ok a0 → reader_error (hasReader a0) (readerCfg a0) sel = None →
  LoadStellarKeystoreSigner (Some ks) (key_name a0) = Err e →
  get_SourceReader (injected a0 (Some ks :: kss)) = Err ("load stellar keystore signer: " +:+ e) ∧
  ∀ ks' s, LoadStellarKeystoreSigner (Some ks') (key_name a0) = Ok s → hasDest a0 = true →
    is_ok (buildDestinationComponents (destCfg a0) (readerCfg a0) s (attemptCacheExpiration a0)) = true →
    is_ok (get_DestinationReader (injected a0 (Some ks :: kss ++ [Some ks']))) = true ∧
    is_ok (get_ContractTransmitter (injected a0 (Some ks :: kss ++ [Some ks']))) = true.
Proof.
  intros Hf Hr Hl. destruct (GetAccessor_spec _ _ _ Hf) as (_ & _ & _ & _ & _ & _ & _ & _ & Hse & _).
  assert (hasReader a0 = true) as Hh by (unfold reader_error in Hr; by destruct (hasReader a0)).
  assert (∀ kss, sourceReaderErr (injected a0 (Some ks :: kss)) = Some ("load stellar keystore signer: " +:+ e)) as Hstuck.
  { intros l. induction l as [|k l IH] using rev_ind.
    - pose proof (f_equal snd (SetKeystore_source (Some ks) a0)) as E. cbn [snd] in E.
      rewrite Hh, Hse, Hr, Hl in E. exact E.
    - change (Some ks :: l ++ [k]) with ((Some ks :: l) ++ [k]). rewrite injected_snoc.
      pose proof (f_equal snd (SetKeystore_source k (injected a0 (Some ks :: l)))) as E. cbn [snd] in E.
      rewrite E, IH. set (b := injected a0 (Some ks :: l)) in *. clearbody b.
      destruct k; cbn; [|done]. by destruct (hasReader b). }
  split; [unfold get_SourceReader, getter; by rewrite Hstuck|]. intros ks' s Hs Hd Hb.
  change (Some ks :: kss ++ [Some ks']) with ((Some ks :: kss) ++ [Some ks']). rewrite injected_snoc.
  destruct (injected_config a0 (Some ks :: kss)) as (Hrc & _ & Hdc & Hhd & Hx).
  set (a := injected a0 (Some ks :: kss)) in *. clearbody a.
  pose proof (SetKeystore_dest (Some ks') a) as E. set (a' := SetKeystore (Some ks') a) in *. clearbody a'.
  cbn iota in E. rewrite Hhd, Hd in E.
  assert (key_name a = key_name a0) as Hk by (unfold key_name; by rewrite Hdc).
  rewrite Hk, Hs, Hrc, Hdc, Hx in E. cbn [wrap_err mbind result_bind] in E.
  destruct (buildDestinationComponents _ _ _ _) as [[dr ct]|]; [|done]. unfold dest_part in E.
  injection E as E1 E2 E3 E4. unfold get_DestinationReader, get_ContractTransmitter, getter. by rewrite E1, E2, E3, E4.
Qed.
End accessor.

(** ** Concrete inputs *)

Import DemoCcv.

#[export] Instance demo_accessor_sdk : AccessorSdk :=
  {| GetSelectorFamily _ := Ok "stellar"; FamilyStellar := "stellar"; keystore_Ed25519 := "Ed25519" |}.

Definition demo_file : FileConfig := mkFileConfig
  {["7" := mkReaderConfig "test network" "" "" "https://rpc"]}
  {["7" := mkTransmitterConfig "" "" "state_changed"]}
  {["7" := mkDestReaderConfig "" "CRMN"]}.
Definition demo_job : GenericConfig := mkGenericConfig
  {["7" := "0x4f"]} {["7" := "0x52"]} {["7" := mkDestinationChainConfig "0x4f46" "0x52" "key7"]} 3600
  (Ok {["8" := mkReaderConfig "other network" "CON" "CRMN" "https://other"]}).
Definition demo_orders : load_orders := mkLoadOrders ["8"] ["7"; "8"] (mkOrders ["7"] ["7"] ["7"] ["7"]).
Definition demo_factory : result factory :=
  CreateStellarAccessorFactory None (λ _, Ok (demo_file, None)) demo_job demo_orders.

Lemma demo_orders_valid file job :
  Ok (demo_file, None) = Ok (file, @None string) → StellarInfos demo_job = Ok job →
  valid_orders demo_orders file job demo_job.
Proof.
  intros [= <-] [= <-]. unfold valid_orders, dest_orders, enumerates, known.
  split_and!; try (apply (bool_decide_unpack _); vm_compute; exact I); try (vm_compute; reflexivity).
  - intros sel. cbn. rewrite !elem_of_cons, elem_of_nil, !lookup_singleton_is_Some. naive_solver.
  - intros sel. cbn. rewrite !dom_singleton_L, list_elem_of_singleton, !elem_of_union, !elem_of_singleton. tauto.
Qed.

Lemma configs_merged_exactly_witness :
  match demo_factory with
  | Ok f =>
      lookup_cfg (readerConfig f) "7" = Some (mkReaderConfig "test network" "CO" "CR" "https://rpc") ∧
      lookup_cfg (destConfig f) "7" = Some (mkDestinationConfig "COF" "CRMN" "state_changed" "key7") ∧
      lookup_cfg (destConfig f) "8" = None ∧ f_attemptCacheExpiration f = 3600
  | Err _ => False
  end.
Proof.
  pose proof (configs_merged_exactly None (λ _, Ok (demo_file, None)) demo_job demo_orders demo_orders_valid) as H.
  cbv beta zeta in H. fold demo_factory in H. cbn [demo_job StellarInfos] in H.
  assert (is_ok demo_factory = true) as Ho by (vm_compute; reflexivity).
  destruct demo_factory as [f|e]; [|done]. destruct H as (_ & He & H). split_and!; [| | |exact He].
  - apply (proj1 (H "7")). split; [left; by eexists|]. by vm_compute.
  - apply (proj2 (H "7")). by vm_compute.
  - apply eq_None_not_Some. intros [dc Hdc]. apply (proj2 (H "8")) in Hdc as ((Ht & _) & _ & Hn). by destruct Hn.
Defined.

Import DeployerProps.
Definition demo_maps : factory := NewFactory
  (Some {["7" := mkReaderConfig "test network" "CON" "CRMN" "https://rpc"]})
  (Some {["7" := mkDestinationConfig "COFF" "CRMN" "state_changed" "key7"]}) 3600.
Definition demo_accessor : accessor := mkAccessor
  (mkReaderConfig "test network" "CON" "CRMN" "https://rpc") true
  (mkDestinationConfig "COFF" "CRMN" "state_changed" "key7") true 3600 None None None None None None.
Lemma demo_accessor_made : GetAccessor demo_maps 7 = Ok demo_accessor.
Proof. vm_compute. reflexivity. Qed.

(** A keystore that is locked, and the same one unlocked. *)
Definition demo_locked : Keystore := λ _, Err "locked".
Definition demo_unlocked : Keystore := λ _, Ok [mkKeyInfo "Ed25519" DemoXdr.key1].

Lemma accessor_serves_configuration_witness :
  ∃ ct d, get_ContractTransmitter (injected demo_accessor [None; Some demo_locked; Some demo_unlocked]) = Ok (ct, d) ∧
    ct = "COFF" ∧ networkPassphrase d = "test network" ∧ known_signer (signer d).
Proof.
  pose proof (accessor_serves_configuration demo_maps 7 demo_accessor [None; Some demo_locked; Some demo_unlocked]
    demo_accessor_made) as (_ & _ & H).
  assert (is_ok (get_ContractTransmitter (injected demo_accessor [None; Some demo_locked; Some demo_unlocked])) = true) as Ho
    by (vm_compute; reflexivity).
  destruct (get_ContractTransmitter _) as [[ct d]|]; [|done]. exists ct, d. split; [done|].
  destruct (H ct d eq_refl) as ((_ & Hk & _) & dc & Hdc & -> & _ & Hp).
  vm_compute in Hdc. injection Hdc as <-. split_and!; [done|exact Hp|exact Hk].
Defined.

Lemma source_reader_never_recovers_witness :
  get_SourceReader (injected demo_accessor [Some demo_locked; Some demo_unlocked; Some demo_unlocked])
    = Err ("load stellar keystore signer: get keystore key " +:+ Quote "key7" +:+ ": locked") ∧
  is_ok (get_DestinationReader (injected demo_accessor [Some demo_locked; Some demo_unlocked; Some demo_unlocked])) = true.
Proof.
  destruct (source_reader_never_recovers demo_maps 7 demo_accessor demo_locked _ [Some demo_unlocked] demo_accessor_made
    eq_refl eq_refl) as [_ H].
  destruct (source_reader_never_recovers demo_maps 7 demo_accessor demo_locked _ [Some demo_unlocked; Some demo_unlocked] demo_accessor_made
    eq_refl eq_refl) as [Hs _].
  split; [exact Hs|].
  assert (is_ok (LoadStellarKeystoreSigner (Some demo_unlocked) (key_name demo_accessor)) = true) as Ho by (vm_compute; reflexivity).
  destruct (LoadStellarKeystoreSigner (Some demo_unlocked) (key_name demo_accessor)) as [s|] eqn:Hl; [|done].
  exact (proj1 (H demo_unlocked s Hl eq_refl eq_refl)).
Defined.
End AccessorProps.
