(* ===== verification/ExtraArgs.v ===== *)
(** [ccv/common] and the part of the OnRamp's bindings that it uses: the extra arguments of a
    message, and addresses as bytes and texts. Also [deployment/mcmsutil/invoke_payload.go],
    the payload of a governance call, which is an XDR value in the same way. *)

From Stdlib Require Import Ascii.
From Stdlib Require Import Strings.Byte.
From stdpp Require Import base gmap list strings pretty.
From S2P Require Import Prelude GoStrings Config Float Prog Sdk TxStore Tx Xdr ScVal GoBytes.
From S2P Require Import TypeConverters InvokerAdapter Ccv Bindings Deployer.
Import Xdr.

Local Open Scope Z_scope.

(** [ScVal.MarshalBinary], which panics on a value with a nil arm, and [UnmarshalBinary]. *)
Class ScValBinary := {
  MarshalScVal : ScVal → gres bytes;
  UnmarshalScValBinary : bytes → result ScVal
}.
(** The values that the wire format holds: numbers within their width, symbols of at most 32
    characters, addresses of accounts and contracts, and at most 50 levels of vectors and
    maps, which is less than what the decoder follows. *)
Definition is_word (bits z : Z) : bool := (0 <=? z) && (z <? 2 ^ bits).
Definition is_signed (bits z : Z) : bool := (- 2 ^ (bits - 1) <=? z) && (z <? 2 ^ (bits - 1)).
Definition wire_address (a : ScAddress) : bool :=
  match a with
  | AddressTypeAccount (Some (PublicKeyTypeEd25519 k)) => is_hash k
  | AddressTypeContract h => is_hash h
  | _ => false
  end.
Fixpoint wire_depth (d : nat) (v : ScVal) : bool :=
  match d with
  | O => false
  | S d =>
      match v with
      | ScvBool (Some _) | ScvVoid => true
      | ScvU32 (Some z) => is_word 32 z
      | ScvU64 (Some z) => is_word 64 z
      | ScvU128 (Some p) => is_word 64 (u128Hi p) && is_word 64 (u128Lo p)
      | ScvI128 (Some p) => is_signed 64 (i128Hi p) && is_word 64 (i128Lo p)
      | ScvBytes (Some b) => is_word 32 (Z.of_nat (length b))
      | ScvString (Some s) => is_word 32 (Z.of_nat (String.length s))
      | ScvSymbol (Some s) => (String.length s <=? 32)%nat
      | ScvVec (Some (Some l)) => is_word 32 (Z.of_nat (length l)) && forallb (wire_depth d) l
      | ScvMap (Some (Some l)) =>
          is_word 32 (Z.of_nat (length l)) &&
          forallb (λ kv : ScVal * ScVal, wire_depth d (fst kv) && wire_depth d (snd kv)) l
      | ScvAddress (Some a) => wire_address a
      | _ => false
      end
  end.
Definition wire (v : ScVal) : Prop := ∃ d, (d <= 50)%nat ∧ wire_depth d v = true.

(** Documented behaviour: such a value has an encoding, which is not empty and decodes to it. *)
Class ScValBinaryLaws `{ScValBinary} : Prop := {
  Unmarshal_Marshal v : wire v →
    ∃ b, MarshalScVal v = GVal b ∧ b ≠ [] ∧ UnmarshalScValBinary b = Ok v
}.

Module OnRamp.
Record GenericExtraArgsV3 := mkGenericExtraArgsV3 {
  BlockConfirmations : Z;
  CcvArgs : list bytes;
  Ccvs : list string;
  Executor : string;
  ExecutorArgs : bytes;
  GasLimit : Z;
  TokenArgs : bytes;
  TokenReceiver : bytes
}.
Definition zeroGenericExtraArgsV3 : GenericExtraArgsV3 := mkGenericExtraArgsV3 0 [] [] "" [] 0 [] [].

Section onramp.
Context {UT : UnicodeTables} {XS : XdrSdk}.

Definition GenericExtraArgsV3_fields (s : GenericExtraArgsV3) : gmap string ScVal :=
  <["block_confirmations" := ScVal.Uint32ToScVal (BlockConfirmations s)]>
  (<["ccv_args" := ScVal.BytesSliceToScVal (CcvArgs s)]>
  (<["ccvs" := ScVal.AddressSliceToScVal (Ccvs s)]>
  (<["executor" := ScVal.AddressToScVal (Executor s)]>
  (<["executor_args" := ScVal.BytesToScVal (ExecutorArgs s)]>
  (<["gas_limit" := ScVal.Uint32ToScVal (GasLimit s)]>
  (<["token_args" := ScVal.BytesToScVal (TokenArgs s)]>
  (<["token_receiver" := ScVal.BytesToScVal (TokenReceiver s)]> ∅))))))).
(** [keys]: the order in which [range] enumerates the map of fields. *)
Definition GenericExtraArgsV3_ToScVal (keys : list string) (s : GenericExtraArgsV3) : gres ScVal :=
  ScVal.BuildStructScVal keys (GenericExtraArgsV3_fields s).

Definition GenericExtraArgsV3_field (key : string) (v : ScVal) (s : GenericExtraArgsV3)
  : gres GenericExtraArgsV3 :=
  let 'mkGenericExtraArgsV3 bc ca cs ex ea gl ta tr := s in
  if decide (key = "block_confirmations") then
    x ← GetU32 v; bc' ← nonnil "block_confirmations is not u32" x;
    GVal (mkGenericExtraArgsV3 bc' ca cs ex ea gl ta tr)
  else if decide (key = "ccv_args") then
    ca' ← (l ← got_vec "ccv_args is not a vec" v;
           gimapM (λ _ item, b ← GetBytes item; nonnil "vec item is not bytes" b) l);
    GVal (mkGenericExtraArgsV3 bc ca' cs ex ea gl ta tr)
  else if decide (key = "ccvs") then
    cs' ← (l ← got_vec "ccvs is not a vec" v; OffRamp.addresses_of l);
    GVal (mkGenericExtraArgsV3 bc ca cs' ex ea gl ta tr)
  else if decide (key = "executor") then
    ex' ← gwrap "executor" (ScVal.AddressFromScVal v);
    GVal (mkGenericExtraArgsV3 bc ca cs ex' ea gl ta tr)
  else if decide (key = "executor_args") then
    x ← GetBytes v; ea' ← nonnil "executor_args is not bytes" x;
    GVal (mkGenericExtraArgsV3 bc ca cs ex ea' gl ta tr)
  else if decide (key = "gas_limit") then
    x ← GetU32 v; gl' ← nonnil "gas_limit is not u32" x;
    GVal (mkGenericExtraArgsV3 bc ca cs ex ea gl' ta tr)
  else if decide (key = "token_args") then
    x ← GetBytes v; ta' ← nonnil "token_args is not bytes" x;
    GVal (mkGenericExtraArgsV3 bc ca cs ex ea gl ta' tr)
  else if decide (key = "token_receiver") then
    x ← GetBytes v; tr' ← nonnil "token_receiver is not bytes" x;
    GVal (mkGenericExtraArgsV3 bc ca cs ex ea gl ta tr')
  else GVal s.
Definition GenericExtraArgsV3FromScVal (val : ScVal) : gres GenericExtraArgsV3 :=
  scMap ← got_map "not a map type" val;
  for_entries GenericExtraArgsV3_field scMap zeroGenericExtraArgsV3.
End onramp.
End OnRamp.

Module CcvCommon.
Import OnRamp.
Section common.
Context {ST : SdkTypes} {UT : UnicodeTables} {XS : XdrSdk} {DS : DeployerSdk} {SB : ScValBinary}.

Definition HexEncode (b : bytes) : string := "0x" +:+ EncodeToString b.

Definition ToUnknownAddress (addr : string) : result bytes :=
  match addr with
  | EmptyString => Err "empty stellar address"
  | String c _ =>
      if Ascii.eqb c "C" then wrap_err "decode contract strkey" (Decode VersionByteContract addr)
      else if Ascii.eqb c "G" then wrap_err "decode account strkey" (Decode VersionByteAccountID addr)
      else Err ("unsupported stellar strkey prefix " +:+ Quote (String c "") +:+ " (want G or C)")
  end.

Definition EncodeExtraArgsV3 (keys : list string) (args : GenericExtraArgsV3) : gres bytes :=
  scVal ← gwrap "failed to convert extra args to ScVal" (GenericExtraArgsV3_ToScVal keys args);
  MarshalScVal scVal.

(** [stellarutil.MustGenerateMockContractID]. *)
Definition MustGenerateMockContractID (deployerAddress contractName : string) : gres string :=
  match Encode VersionByteContract (Deployer.GenerateDeterministicSalt deployerAddress contractName) with
  | Ok encoded => GVal encoded
  | Err e => GPanic ("failed to encode mock contract ID: " +:+ e)
  end.

(** [cciptestinterfaces.MessageOptions], the fields in use; a CCV is its address and its
    arguments. *)
Record MessageOptions := mkMessageOptions {
  CCVs : list (bytes * bytes);
  optExecutor : bytes;
  FinalityConfig : Z;
  optExecutorArgs : bytes;
  ExecutionGasLimit : Z;
  optTokenArgs : bytes
}.
(** The verifiers and their arguments. *)
Definition ccvs_of (vvrContractID : string) (opts : MessageOptions) : gres (list string * list bytes) :=
  match CCVs opts with
  | [] =>
      if decide (vvrContractID = "") then GErr "versioned verifier resolver contract id is empty"
      else GVal ([vvrContractID], [[]])
  | ccvs =>
      addrs ← gimapM (λ _ ccv, gwrap "encode ccv address" (of_result (Encode VersionByteContract (fst ccv)))) ccvs;
      GVal (addrs, snd <$> ccvs)
  end.
Definition executor_of (deployerGAddr : string) (opts : MessageOptions) : gres string :=
  executor ← MustGenerateMockContractID deployerGAddr "executor";
  match optExecutor opts with
  | [] => GVal executor
  | ex => gwrap "encode executor address" (of_result (Encode VersionByteContract ex))
  end.
Definition source_extra_args (deployerGAddr vvrContractID : string) (opts : MessageOptions)
  : gres GenericExtraArgsV3 :=
  ccvs ← ccvs_of vvrContractID opts;
  executor ← executor_of deployerGAddr opts;
  GVal (mkGenericExtraArgsV3 (uint32 (FinalityConfig opts)) (snd ccvs) (fst ccvs) executor
          (optExecutorArgs opts) (ExecutionGasLimit opts) (optTokenArgs opts) []).
Definition EncodeStellarSourceExtraArgsForOnRamp (keys : list string) (deployerGAddr vvrContractID : string)
    (opts : MessageOptions) : gres bytes :=
  v3 ← source_extra_args deployerGAddr vvrContractID opts;
  EncodeExtraArgsV3 keys v3.

(** The payload that a governance contract decodes to a function's name and arguments. *)
Definition EncodeSorobanMCMSInvokePayload (functionName : string) (argScVals : list ScVal) : gres bytes :=
  gwrap ("marshal soroban invoke payload " +:+ Quote functionName)
    (MarshalScVal (ScvVec (Some (Some (ScVal.SymbolToScVal functionName :: argScVals))))).

(** [decode_invoke_payload] of [contracts/common/helpers/src/soroban_invoke.rs]: [None] is
    [InvalidPayload]. *)
Definition decode_invoke_payload (data : bytes) : option (string * list ScVal) :=
  if decide (data = []) then None
  else
    match UnmarshalScValBinary data with
    | Ok (ScvVec (Some (Some (ScvSymbol (Some fn_sym) :: args)))) => Some (fn_sym, args)
    | _ => None
    end.
End common.
End CcvCommon.
