(* ===== verification/ExtraArgsProps.v ===== *)
(** Properties of the extra arguments, addresses and payloads. *)

From Stdlib Require Import Ascii.
From Stdlib Require Import Strings.Byte.
From stdpp Require Import base gmap list sorting strings pretty.
From S2P Require Import Prelude GoStrings Config Float Prog Sdk TxStore Tx Xdr ScVal GoBytes ScValProps.
From S2P Require Import TypeConverters InvokerAdapter Ccv Bindings BindingsProps Deployer Xdr DemoCcv ExtraArgs.
Import Xdr ScValProps OnRamp CcvCommon BindingsProps.

Local Open Scope Z_scope.

Module ExtraArgsProps.

Section props.
Context {ST : SdkTypes} {UT : UnicodeTables} {XS : XdrSdk} {XL : XdrLaws} {DS : DeployerSdk}
  {SB : ScValBinary} {SBL : ScValBinaryLaws}.

(** The fields' names, which are in order. *)
Definition args_keys : list string :=
  ["block_confirmations"; "ccv_args"; "ccvs"; "executor"; "executor_args"; "gas_limit";
   "token_args"; "token_receiver"].

(** The [switch] on a known key. *)
Ltac arg_step :=
  cbn [mbind gres_bind gres_fmap fmap]; repeat (rewrite decide_False by done); rewrite decide_True by done;
  cbn [mbind gres_bind GetU32 GetBytes ScVal.Uint32ToScVal ScVal.BytesToScVal arm deref fmap gres_fmap nonnil];
  cbn [got_vec ScVal.AddressSliceToScVal ScVal.BytesSliceToScVal ScVal.VecToScVal GetVec arm deref fmap
       gres_fmap mbind gres_bind].

(** The entries of the map, in the order of their keys. *)
Definition args_entries (s : GenericExtraArgsV3) : list (ScVal * ScVal) :=
  [(ScvSymbol (Some "block_confirmations"), ScVal.Uint32ToScVal (BlockConfirmations s));
   (ScvSymbol (Some "ccv_args"), ScVal.BytesSliceToScVal (CcvArgs s));
   (ScvSymbol (Some "ccvs"), ScVal.AddressSliceToScVal (Ccvs s));
   (ScvSymbol (Some "executor"), ScVal.AddressToScVal (Executor s));
   (ScvSymbol (Some "executor_args"), ScVal.BytesToScVal (ExecutorArgs s));
   (ScvSymbol (Some "gas_limit"), ScVal.Uint32ToScVal (GasLimit s));
   (ScvSymbol (Some "token_args"), ScVal.BytesToScVal (TokenArgs s));
   (ScvSymbol (Some "token_receiver"), ScVal.BytesToScVal (TokenReceiver s))].

Lemma extra_args_entries keys s : keys ≡ₚ args_keys →
  ScVal.struct_entries keys (GenericExtraArgsV3_fields s) = args_entries s.
Proof.
  intros Hk. unfold ScVal.struct_entries.
  assert (merge_sort String.le keys = args_keys) as ->; [|done].
  apply merge_sort_sorted; [done|]. repeat constructor; by apply (bool_decide_unpack _).
Qed.

Lemma extra_args_read s :
  Forall is_strkey (Executor s :: Ccvs s) →
  for_entries GenericExtraArgsV3_field (args_entries s) zeroGenericExtraArgsV3 = GVal s.
Proof.
  intros [He Hc]%Forall_cons_1. destruct s as [bc ca cs ex ea gl ta tr]. cbn [Executor Ccvs] in *.
  unfold args_entries. cbn [BlockConfirmations CcvArgs ExecutorArgs GasLimit TokenArgs TokenReceiver Ccvs Executor].
  cbn [for_entries GetSym arm deref fmap gres_fmap mbind gres_bind].
  unfold GenericExtraArgsV3_field, zeroGenericExtraArgsV3.
  arg_step. arg_step. rewrite (blobs_there_and_back ca). arg_step. rewrite (addresses_there_and_back cs) by done.
  arg_step. rewrite (address_there_and_back ex) by done. cbn [gwrap]. arg_step. arg_step. arg_step. arg_step.
  done.
Qed.

Lemma strkey_wire s d : is_strkey s → wire_depth (S d) (ScVal.AddressToScVal s) = true.
Proof.
  intros (v & key & Hk & He). rewrite (AddressToScVal_Encode v key) by done.
  destruct v; cbn; by apply Nat.eqb_eq.
Qed.

(** Whatever the order of the fields, the encoding reads back. *)
Definition args_sized (s : GenericExtraArgsV3) : Prop :=
  is_word 32 (BlockConfirmations s) = true ∧ is_word 32 (GasLimit s) = true ∧
  is_word 32 (Z.of_nat (length (Ccvs s))) = true ∧ is_word 32 (Z.of_nat (length (CcvArgs s))) = true ∧
  Forall (λ b : bytes, is_word 32 (Z.of_nat (length b)) = true)
    (ExecutorArgs s :: TokenArgs s :: TokenReceiver s :: CcvArgs s).

Lemma args_wire d s :
  Forall is_strkey (Executor s :: Ccvs s) → args_sized s →
  wire_depth (S (S (S d))) (ScvMap (Some (Some (args_entries s)))) = true.
Proof.
  intros [He Hc]%Forall_cons (Hb & Hg & Hcs & Hca & Hall).
  rewrite !Forall_cons in Hall. destruct Hall as (Hx & Ht & Hr & Hargs).
  cbn -[ScVal.AddressToScVal is_word].
  rewrite Hb, Hx, Hg, Ht, Hr, !length_map, Hcs, Hca.
  assert (forallb (wire_depth (S d)) (ScVal.AddressToScVal <$> Ccvs s) = true) as Hcw.
  { apply forallb_forall. intros w (a & <- & Ha)%in_map_iff. apply strkey_wire.
    rewrite Forall_forall in Hc. by apply Hc, list_elem_of_In. }
  assert (forallb (wire_depth (S d)) (ScVal.BytesToScVal <$> CcvArgs s) = true) as Haw.
  { apply forallb_forall. intros w (b & <- & Hb')%in_map_iff.
    rewrite Forall_forall in Hargs. by apply Hargs, list_elem_of_In. }
  cbn -[ScVal.AddressToScVal is_word] in Hcw, Haw. rewrite Hcw, Haw.
  pose proof (strkey_wire _ (S d) He) as Hew. cbn -[ScVal.AddressToScVal is_word] in Hew. by rewrite Hew.
Qed.

Lemma args_encoded keys s :
  keys ≡ₚ args_keys → Forall is_strkey (Executor s :: Ccvs s) → args_sized s →
  ∃ b v, EncodeExtraArgsV3 keys s = GVal b ∧ UnmarshalScValBinary b = Ok v ∧
    GenericExtraArgsV3FromScVal v = GVal s.
Proof.
  intros Hk Ha Hs.
  assert (wire (ScvMap (Some (Some (args_entries s))))) as Hw.
  { exists 3%nat. split; [lia|]. by apply (args_wire 0). }
  destruct (Unmarshal_Marshal _ Hw) as (b & Hb & _ & Hu).
  exists b, (ScvMap (Some (Some (args_entries s)))). split; [|split; [exact Hu|]].
  - unfold EncodeExtraArgsV3, GenericExtraArgsV3_ToScVal, ScVal.BuildStructScVal.
    by rewrite extra_args_entries.
  - unfold GenericExtraArgsV3FromScVal. cbn [got_map GetMap arm deref fmap gres_fmap mbind gres_bind].
    by apply extra_args_read.
Qed.

(** ** Addresses *)

Lemma ToUnknownAddress_Encode v key s : Encode v key = Ok s → ToUnknownAddress s = Ok key.
Proof.
  intros He. pose proof (Decode_Encode _ _ _ He) as Hd. destruct v.
  - destruct (Encode_account _ _ He) as [s' ->]. cbn. by rewrite Hd.
  - destruct (Encode_contract _ _ He) as [s' ->]. cbn. by rewrite Hd.
Qed.

(** The bytes of an address. [ToUnknownAddress] agrees with the encoder and the reader of
    address values, as its comment says: what one gives for a strkey of a 32-byte key, of
    either kind, is what the other gives. Where it reports an error, the encoder makes a
    value with a nil pointer; and whenever the reader gives bytes, it has succeeded too, with
    bytes that the reader cuts or pads to 32. *)
Theorem to_unknown_address_matches s :
  (∀ key, length key = 32%nat → ToUnknownAddress s = Ok key →
     ScVal.RawBytesFromAddressScVal (ScVal.AddressToScVal s) = GVal key) ∧
  (∀ key, ScVal.RawBytesFromAddressScVal (ScVal.AddressToScVal s) = GVal key →
     ∃ raw, ToUnknownAddress s = Ok raw ∧ key = copy_into 32 raw) ∧
  (∀ e, ToUnknownAddress s = Err e → ScVal.AddressToScVal s = ScvAddress None).
Proof.
  unfold ScVal.AddressToScVal, ScVal.ParseAddress, ToUnknownAddress.
  destruct s as [|c s]; [by split_and!|]. destruct (Ascii.eqb c "C") eqn:Ec; [|destruct (Ascii.eqb c "G") eqn:Eg].
  - destruct (Decode VersionByteContract (String c s)) as [raw|e] eqn:Ed; cbn [wrap_err]; [|by split_and!].
    unfold ScVal.BuildContractScAddress. destruct (Nat.eqb_spec (length raw) 32) as [Hl|Hl]; cbn [negb].
    + rewrite (Unmarshal_contract raw Hl). cbn -[copy_into]. split_and!; [|by intros key [= <-]; eexists|done].
      intros key Hk [= ->]. by rewrite copy_into_id.
    + split_and!; [|done..]. by intros key Hk [= ->].
  - destruct (Decode VersionByteAccountID (String c s)) as [raw|e] eqn:Ed; cbn [wrap_err]; [|by split_and!].
    cbn -[copy_into]. split_and!; [|intros key [= <-]; exists raw; split; [done|]|done].
    + intros key Hk [= ->]. by rewrite !copy_into_id by (rewrite ?copy_into_id; done).
    + apply copy_into_id. unfold copy_into. rewrite length_app, length_take, length_replicate. lia.
  - by split_and!.
Qed.

(** ** Payloads *)

Lemma payload_decodes functionName argScVals :
  wire (ScvVec (Some (Some (ScVal.SymbolToScVal functionName :: argScVals)))) →
  ∃ b, EncodeSorobanMCMSInvokePayload functionName argScVals = GVal b ∧ b ≠ [] ∧
    decode_invoke_payload b = Some (functionName, argScVals).
Proof.
  intros Hw. destruct (Unmarshal_Marshal _ Hw) as (b & Hb & Hn & Hu). exists b.
  unfold EncodeSorobanMCMSInvokePayload, decode_invoke_payload. rewrite Hb. split_and!; [done..|].
  rewrite decide_False by done. by rewrite Hu.
Qed.

(** The payload of a governance call. Encoded for a function and arguments that the wire
    holds, it decodes, in the contract, to that function and those arguments; a payload is
    never empty, and no value but a vector that starts with a symbol is taken for a call. *)
Theorem invoke_payload_roundtrip functionName argScVals :
  wire (ScvVec (Some (Some (ScVal.SymbolToScVal functionName :: argScVals)))) →
  ∃ b, EncodeSorobanMCMSInvokePayload functionName argScVals = GVal b ∧ b ≠ [] ∧
    decode_invoke_payload b = Some (functionName, argScVals) ∧
    (∀ v b', wire v → MarshalScVal v = GVal b' → ∀ f args, decode_invoke_payload b' = Some (f, args) →
       MarshalScVal v = EncodeSorobanMCMSInvokePayload f args).
Proof.
  intros Hw. destruct (payload_decodes functionName argScVals Hw) as (b & Hb & Hn & Hd). exists b.
  split_and!; [done..|].
  - clear Hd. unfold EncodeSorobanMCMSInvokePayload, decode_invoke_payload. intros v b' Hv Hb' f args Hd. destruct (Unmarshal_Marshal _ Hv) as (b2 & Hb2 & Hn2 & Hu2).
    assert (b2 = b') as -> by congruence. rewrite decide_False, Hu2 in Hd by done.
    destruct v as [| | | | | | | | | | | | | | | |[[[|[] l]|]|]| | | | | |]; try done.
    destruct Sym as [sym|]; [|done]. injection Hd as <- <-. unfold ScVal.SymbolToScVal. by rewrite Hb2.
Qed.

(** ** The extra arguments of a message *)

Definition opts_sized (opts : MessageOptions) : Prop :=
  is_word 32 (ExecutionGasLimit opts) = true ∧ is_word 32 (Z.of_nat (length (CCVs opts))) = true ∧
  Forall (λ b : bytes, is_word 32 (Z.of_nat (length b)) = true)
    (optExecutorArgs opts :: optTokenArgs opts :: (CCVs opts).*2).

(** The verifiers and the executor are strkeys of what was asked for. *)
Lemma ccvs_encoded vvr opts :
  (CCVs opts = [] → is_strkey vvr) → Forall (λ ccv, length (fst ccv) = 32%nat) (CCVs opts) →
  ∃ addrs args, ccvs_of vvr opts = GVal (addrs, args) ∧ Forall is_strkey addrs ∧
    ((CCVs opts = [] ∧ addrs = [vvr] ∧ args = [[]]) ∨
     (CCVs opts ≠ [] ∧ args = (CCVs opts).*2 ∧
      Forall2 (λ ccv addr, ToUnknownAddress addr = Ok (fst ccv)) (CCVs opts) addrs)).
Proof.
  intros Hv Hl. unfold ccvs_of. destruct (CCVs opts) as [|ccv ccvs].
  - specialize (Hv eq_refl). rewrite decide_False.
    + exists [vvr], [[]]. split_and!; [done|by constructor|by left].
    + destruct Hv as (v & key & _ & He). intros ->. apply ToUnknownAddress_Encode in He. done.
  - destruct (gimapM_succeeds
      (λ (_ : nat) ccv, gwrap "encode ccv address" (of_result (Encode VersionByteContract (fst ccv))))
      (λ (ccv : bytes * bytes) addr, is_strkey addr ∧ ToUnknownAddress addr = Ok (fst ccv)) (ccv :: ccvs)) as (addrs & Hg & Hf).
    + intros j [raw arg] Hin. rewrite Forall_forall in Hl. specialize (Hl _ Hin). cbn [fst] in *.
      pose proof (Encode_total VersionByteContract raw Hl) as Ht.
      destruct (Encode VersionByteContract raw) as [addr|] eqn:He; [|done].
      exists addr. split_and!; [done|by exists VersionByteContract, raw|by eapply ToUnknownAddress_Encode].
    + rewrite Hg. cbn [mbind gres_bind]. eexists _, _. split; [done|]. split.
      * clear -Hf. induction Hf as [|? ? ? ? [? _]]; by constructor.
      * right. split_and!; [done..|]. eapply Forall2_impl; [exact Hf|]. by intros ? ? [_ ?].
Qed.

Lemma executor_encoded deployer opts :
  (∀ b, length (Sum256 b) = 32%nat) → length (optExecutor opts) ∈ [0%nat; 32%nat] →
  ∃ executor, executor_of deployer opts = GVal executor ∧ is_strkey executor ∧
    ToUnknownAddress executor =
      Ok (match optExecutor opts with
          | [] => Deployer.GenerateDeterministicSalt deployer "executor"
          | raw => raw
          end).
Proof.
  intros Hsum Hl. unfold executor_of, MustGenerateMockContractID.
  set (salt := Deployer.GenerateDeterministicSalt deployer "executor").
  assert (length salt = 32%nat) as Hs by apply Hsum.
  pose proof (Encode_total VersionByteContract salt Hs) as Ht.
  destruct (Encode VersionByteContract salt) as [mock|] eqn:He; [|done]. cbn [mbind gres_bind].
  destruct (optExecutor opts) as [|x raw] eqn:Eo.
  - exists mock. split_and!; [done|by exists VersionByteContract, salt|by eapply ToUnknownAddress_Encode].
  - assert (length (x :: raw) = 32%nat) as Hr.
    { rewrite elem_of_cons, list_elem_of_singleton in Hl. cbn in *. lia. }
    pose proof (Encode_total VersionByteContract (x :: raw) Hr) as Ht'.
    destruct (Encode VersionByteContract (x :: raw)) as [ex|] eqn:He'; [|done].
    exists ex. split_and!; [done|by exists VersionByteContract, (x :: raw)|by eapply ToUnknownAddress_Encode].
Qed.

(** C39. The extra arguments of a message sent from Stellar. For options with 32-byte
    addresses (and, without verifiers, a resolver's strkey) the blob is made, whatever order
    Go enumerates the struct's fields in, and what the OnRamp's reader makes of it are the
    options: the block confirmations cut to 32 bits, the gas limit, the arguments; the
    verifiers in their order with their arguments, or else the resolver with none; the
    executor, or else the mock one derived from the deployer; and no token receiver. *)
Theorem extra_args_roundtrip keys deployer vvr opts :
  keys ≡ₚ args_keys → (∀ b, length (Sum256 b) = 32%nat) →
  (CCVs opts = [] → is_strkey vvr) → Forall (λ ccv, length (fst ccv) = 32%nat) (CCVs opts) →
  length (optExecutor opts) ∈ [0%nat; 32%nat] → opts_sized opts →
  ∃ b v a, EncodeStellarSourceExtraArgsForOnRamp keys deployer vvr opts = GVal b ∧
    UnmarshalScValBinary b = Ok v ∧ GenericExtraArgsV3FromScVal v = GVal a ∧
    BlockConfirmations a = uint32 (FinalityConfig opts) ∧ GasLimit a = ExecutionGasLimit opts ∧
    ExecutorArgs a = optExecutorArgs opts ∧ TokenArgs a = optTokenArgs opts ∧ TokenReceiver a = [] ∧
    ((CCVs opts = [] ∧ Ccvs a = [vvr] ∧ CcvArgs a = [[]]) ∨
     (CCVs opts ≠ [] ∧ CcvArgs a = (CCVs opts).*2 ∧
      Forall2 (λ ccv addr, ToUnknownAddress addr = Ok (fst ccv)) (CCVs opts) (Ccvs a))) ∧
    ToUnknownAddress (Executor a) =
      Ok (match optExecutor opts with
          | [] => Deployer.GenerateDeterministicSalt deployer "executor"
          | raw => raw
          end).
Proof.
  intros Hk Hsum Hv Hl Hex (Hg & Hn & Hs).
  destruct (ccvs_encoded vvr opts Hv Hl) as (addrs & args & Hc & Hcs & Hspec).
  destruct (executor_encoded deployer opts Hsum Hex) as (executor & He & Hes & Hex').
  set (a := mkGenericExtraArgsV3 (uint32 (FinalityConfig opts)) args addrs executor
          (optExecutorArgs opts) (ExecutionGasLimit opts) (optTokenArgs opts) []).
  rewrite !Forall_cons in Hs. destruct Hs as (Hsx & Hst & Hsa).
  assert (args_sized a) as Hsized.
  { unfold args_sized, a. cbn [BlockConfirmations GasLimit Ccvs CcvArgs ExecutorArgs TokenArgs TokenReceiver].
    rewrite !Forall_cons. split_and!; try done.
    - unfold is_word, uint32. apply andb_true_iff. rewrite Z.leb_le, Z.ltb_lt. apply Z.mod_pos_bound. lia.
    - destruct Hspec as [(_ & -> & _)|(_ & _ & Hf)]; [done|]. by rewrite <-(Forall2_length _ _ _ Hf).
    - destruct Hspec as [(_ & _ & ->)|(_ & -> & _)]; [done|]. by rewrite length_fmap.
    - destruct Hspec as [(_ & _ & ->)|(_ & -> & _)]; [by repeat constructor|done]. }
  destruct (args_encoded keys a Hk ltac:(by constructor) Hsized) as (b & v & Hb & Hu & Hr).
  exists b, v, a. unfold EncodeStellarSourceExtraArgsForOnRamp, source_extra_args.
  rewrite Hc. cbn [mbind gres_bind]. rewrite He. cbn [mbind gres_bind fst snd]. by split_and!.
Qed.
End props.

(** ** A codec, for the witnesses *)

(** A value as a tree of numbers and texts, and the tree's number as a list of bits. *)
Fixpoint to_tree (v : ScVal) : gen_tree (Z + string) :=
  match v with
  | ScvBool (Some b) => GenNode 0 [GenLeaf (inl (if b then 1 else 0))]
  | ScvVoid => GenNode 1 []
  | ScvU32 (Some z) => GenNode 2 [GenLeaf (inl z)]
  | ScvU64 (Some z) => GenNode 3 [GenLeaf (inl z)]
  | ScvU128 (Some p) => GenNode 4 [GenLeaf (inl (u128Hi p)); GenLeaf (inl (u128Lo p))]
  | ScvI128 (Some p) => GenNode 5 [GenLeaf (inl (i128Hi p)); GenLeaf (inl (i128Lo p))]
  | ScvBytes (Some b) => GenNode 6 [GenLeaf (inr (String.string_of_list_byte b))]
  | ScvString (Some s) => GenNode 7 [GenLeaf (inr s)]
  | ScvSymbol (Some s) => GenNode 8 [GenLeaf (inr s)]
  | ScvVec (Some (Some l)) => GenNode 9 (to_tree <$> l)
  | ScvMap (Some (Some l)) =>
      GenNode 10 ((λ kv : ScVal * ScVal, GenNode 0 [to_tree (fst kv); to_tree (snd kv)]) <$> l)
  | ScvAddress (Some (AddressTypeAccount (Some (PublicKeyTypeEd25519 (Some k))))) =>
      GenNode 11 [GenLeaf (inr (String.string_of_list_byte k))]
  | ScvAddress (Some (AddressTypeContract (Some h))) =>
      GenNode 12 [GenLeaf (inr (String.string_of_list_byte h))]
  | _ => GenNode 13 []
  end.
Fixpoint of_tree (t : gen_tree (Z + string)) : ScVal :=
  match t with
  | GenNode 0 [GenLeaf (inl z)] => ScvBool (Some (z =? 1))
  | GenNode 1 _ => ScvVoid
  | GenNode 2 [GenLeaf (inl z)] => ScvU32 (Some z)
  | GenNode 3 [GenLeaf (inl z)] => ScvU64 (Some z)
  | GenNode 4 [GenLeaf (inl h); GenLeaf (inl l)] => ScvU128 (Some (mkUInt128Parts h l))
  | GenNode 5 [GenLeaf (inl h); GenLeaf (inl l)] => ScvI128 (Some (mkInt128Parts h l))
  | GenNode 6 [GenLeaf (inr s)] => ScvBytes (Some (String.list_byte_of_string s))
  | GenNode 7 [GenLeaf (inr s)] => ScvString (Some s)
  | GenNode 8 [GenLeaf (inr s)] => ScvSymbol (Some s)
  | GenNode 9 l => ScvVec (Some (Some (of_tree <$> l)))
  | GenNode 10 l =>
      ScvMap (Some (Some ((λ t, match t with
                                | GenNode _ [k; v] => (of_tree k, of_tree v)
                                | _ => (ScvVoid, ScvVoid)
                                end) <$> l)))
  | GenNode 11 [GenLeaf (inr s)] =>
      ScvAddress (Some (AddressTypeAccount (Some (PublicKeyTypeEd25519 (Some (String.list_byte_of_string s))))))
  | GenNode 12 [GenLeaf (inr s)] => ScvAddress (Some (AddressTypeContract (Some (String.list_byte_of_string s))))
  | _ => ScvOther 0
  end.
Lemma of_to_tree d v : wire_depth d v = true → of_tree (to_tree v) = v.
Proof.
  revert v. induction d as [|d IH]; intros v Hv; [done|].
  destruct v as [[[]|]| | |[]| |[]| | | |[[]|]|[[]|]| | |[]|[]|[]|[[l|]|]|[[l|]|]|[a|]| | | |]; try done;
    cbn [to_tree of_tree u128Hi u128Lo i128Hi i128Lo];
    rewrite ?String.list_byte_of_string_of_list_byte; try done.
  - cbn -[is_word] in Hv. apply andb_true_iff in Hv as [_ Hl]. rewrite forallb_forall in Hl.
    do 3 f_equal. rewrite <-list_fmap_compose. rewrite <-(list_fmap_id l) at 2.
    apply list_fmap_ext. intros i x Hx%list_elem_of_lookup_2%list_elem_of_In. cbn. by apply IH, Hl.
  - cbn -[is_word] in Hv. apply andb_true_iff in Hv as [_ Hl]. rewrite forallb_forall in Hl.
    do 3 f_equal. rewrite <-list_fmap_compose. rewrite <-(list_fmap_id l) at 2.
    apply list_fmap_ext. intros i [k x] Hx%list_elem_of_lookup_2%list_elem_of_In. cbn.
    specialize (Hl _ Hx). apply andb_true_iff in Hl as [Hk Hx']. by rewrite !IH.
  - destruct a as [[[[k|]|]|]|[h|]| | | |]; try done; cbn [to_tree of_tree];
      by rewrite String.list_byte_of_string_of_list_byte.
Qed.

Fixpoint to_bits (p : positive) : bytes :=
  match p with xH => [x02] | xO p => x00 :: to_bits p | xI p => x01 :: to_bits p end.
Fixpoint of_bits (b : bytes) : option positive :=
  match b with
  | [x02] => Some xH
  | x00 :: b => xO <$> of_bits b
  | x01 :: b => xI <$> of_bits b
  | _ => None
  end.
Lemma of_to_bits p : of_bits (to_bits p) = Some p.
Proof. induction p as [p IH|p IH|]; cbn; [by rewrite IH..|done]. Qed.

Lemma to_bits_nonempty p : to_bits p ≠ [].
Proof. by destruct p. Qed.

Definition tree_number : gen_tree (Z + string) → positive := encode.
Definition tree_of_number : positive → option (gen_tree (Z + string)) := decode.
Lemma tree_of_to_number t : tree_of_number (tree_number t) = Some t.
Proof. apply decode_encode. Qed.

Definition to_wire (v : ScVal) : bytes := to_bits (tree_number (to_tree v)).
Definition of_wire (b : bytes) : result ScVal :=
  match of_bits b with
  | None => Err "not a value"
  | Some p => match tree_of_number p with None => Err "not a value" | Some t => Ok (of_tree t) end
  end.
Lemma of_to_wire d v : wire_depth d v = true → of_wire (to_wire v) = Ok v.
Proof. intros Hv. unfold of_wire, to_wire. by rewrite of_to_bits, tree_of_to_number, (of_to_tree d). Qed.

#[export] Instance demo_binary : ScValBinary :=
  {| MarshalScVal v := GVal (to_wire v); UnmarshalScValBinary := of_wire |}.
#[export] Instance demo_binary_laws : ScValBinaryLaws.
Proof.
  constructor. intros v (d & _ & Hv). exists (to_wire v). split; [done|].
  split; [apply to_bits_nonempty|]. by apply (of_to_wire d).
Qed.

(** ** Concrete inputs *)

Import DemoCcv.
#[export] Instance demo_hash : DeployerSdk (H := demo_types) := {|
  Asset := string;
  UploadContractWasm b := "upload";
  CreateContractFromAddress a s h := "create";
  CreateContractFromAsset a := a;
  Payment _ _ := tt;
  NewTimebounds _ max := max;
  Sum256 b := resize 32 x00 b;
  MarshalContractIdPreimage n a := Ok n;
  UnmarshalAccountEntry s := Err "EOF"
|}.

(** One verifier with arguments, and the executor by default. *)
Definition demo_opts : MessageOptions :=
  mkMessageOptions [(DemoXdr.key1, [x07; x08])] [] (2 ^ 32 + 3) [x11] 42 [x12].

Lemma extra_args_roundtrip_witness :
  ∃ b v a, EncodeStellarSourceExtraArgsForOnRamp (DS := demo_hash) (reverse args_keys) "GDEPLOYER" "" demo_opts = GVal b ∧
    UnmarshalScValBinary b = Ok v ∧ GenericExtraArgsV3FromScVal v = GVal a ∧
    BlockConfirmations a = 3 ∧ GasLimit a = 42 ∧
    ExecutorArgs a = [x11] ∧ TokenArgs a = [x12] ∧ TokenReceiver a = [] ∧
    ((CCVs demo_opts = [] ∧ Ccvs a = [""] ∧ CcvArgs a = [[]]) ∨
     (CCVs demo_opts ≠ [] ∧ CcvArgs a = [[x07; x08]] ∧
      Forall2 (λ ccv addr, ToUnknownAddress addr = Ok (fst ccv)) (CCVs demo_opts) (Ccvs a))) ∧
    ToUnknownAddress (Executor a) =
      Ok (Deployer.GenerateDeterministicSalt (DS := demo_hash) "GDEPLOYER" "executor").
Proof.
  apply (extra_args_roundtrip (DS := demo_hash) (reverse args_keys) "GDEPLOYER" "" demo_opts).
  - apply reverse_Permutation.
  - intros b. apply length_resize.
  - done.
  - repeat constructor.
  - by left.
  - split_and!; [done..|]. by repeat constructor.
Defined.

(** An allowance: approve a contract for 10 units. *)
Definition demo_call : list ScVal :=
  [ScVal.AddressToScVal demo_ccv; ScvI128 (Some (mkInt128Parts 0 10)); ScVal.Uint32ToScVal 7].
Lemma demo_call_wire : wire (ScvVec (Some (Some (ScVal.SymbolToScVal "approve" :: demo_call)))).
Proof. exists 2%nat. split; [lia|done]. Qed.
Lemma invoke_payload_roundtrip_witness :
  ∃ b, EncodeSorobanMCMSInvokePayload "approve" demo_call = GVal b ∧ b ≠ [] ∧
    decode_invoke_payload b = Some ("approve", demo_call).
Proof.
  destruct (invoke_payload_roundtrip "approve" demo_call demo_call_wire) as (b & H1 & H2 & H3 & _).
  by exists b.
Defined.

Lemma to_unknown_address_matches_witness :
  ToUnknownAddress demo_ccv = Ok DemoXdr.key1 ∧
  ScVal.RawBytesFromAddressScVal (ScVal.AddressToScVal demo_ccv) = GVal DemoXdr.key1.
Proof.
  assert (ToUnknownAddress demo_ccv = Ok DemoXdr.key1) as H by done. split; [exact H|].
  by apply (to_unknown_address_matches demo_ccv).
Defined.
End ExtraArgsProps.
