(* ===== verification/ServiceProps.v ===== *)
(** Properties of the invoker adapter and of the chain service, on top of the transaction
    manager. *)

From Stdlib Require Import Ascii.
From Stdlib Require Import Strings.Byte.
From stdpp Require Import base gmap list strings pretty.
From S2P Require Import Prelude GoStrings Config Float Prog Sdk TxStore Tx.
From S2P Require Import Txm Broadcast Confirm TxmSafe Demo.
From S2P Require Import Xdr ScVal TypeConverters TypeConvertersProps.
From S2P Require Import InvokerAdapter StellarService.
Import Config Tx InvokerAdapter StellarService.

Local Open Scope Z_scope.

Module ServiceProps.

(** ** The operation of a call *)

Section calls.
Context {ST : SdkTypes} {SD : Sdk} {UT : UnicodeTables} {XS : XdrSdk} {XL : XdrLaws}
  {RS : RpcSdk} {HF : HostFunctions}.

(** An operation is built exactly for a non-empty function of a contract whose strkey
    decodes to 32 bytes. *)
Lemma build_operation_iff contractID fn args from op :
  BuildInvokeContractOperation contractID fn args from = Ok op ↔
  contractID ≠ "" ∧ fn ≠ "" ∧ ∃ key, Decode VersionByteContract contractID = Ok key ∧
    length key = 32%nat ∧
    op = InvokeHostFunction (InvokeContractFunction
           (mkInvokeContractArgs (Xdr.AddressTypeContract (Some key)) fn args)) from [] None.
Proof.
  unfold BuildInvokeContractOperation, ScVal.BuildContractScAddress.
  case_decide; [naive_solver|]. case_decide; [naive_solver|].
  destruct (Decode VersionByteContract contractID) as [key|e]; cbn; [|naive_solver].
  destruct (Nat.eqb_spec (length key) 32) as [Hk|]; cbn; [|naive_solver].
  change (x00 :: x00 :: x00 :: x01 :: key) with ([x00; x00; x00; x01] ++ key).
  rewrite (Unmarshal_contract key Hk). naive_solver.
Qed.

(** The conversion of arguments returns values or errors, it never panics. *)
Lemma from_domain_no_panic v : ∀ m, TypeConverters.convertScValFromDomain v ≠ GPanic m.
Proof.
  assert (∀ A c (g : gres A) m, (∀ m, g ≠ GPanic m) → gwrap c g ≠ GPanic m) as Hwrap.
  { intros A c [| |p] m Hg; [done..|]. by destruct (Hg p). }
  assert (∀ A B (g : gres A) (f : A → gres B) m,
    (∀ m, g ≠ GPanic m) → (∀ a m, f a ≠ GPanic m) → (g ≫= f) ≠ GPanic m) as Hbind.
  { intros A B [a| |p] f m Hg Hf; cbn; [apply Hf|done|by destruct (Hg p)]. }
  induction v as [v Hv|l IH|l IH] using domain_nested_ind; intros m.
  - destruct v as [[]| | |[]|[]|[]|[]|[]|[]|[]|[]|[]|[]| |[]|[]|[]|[]|[[b|b| | | |]|]| | | |]; try done;
      cbn -[length]; destruct (negb _); try done.
    + apply Hbind; [|done]. intros m'. apply Hbind; [by destruct (Encode _ _)|]. intros s m''.
      apply Hbind; [by destruct (AddressToAccountId s)|done].
    + apply Hbind; [|done]. by destruct (ScVal.BuildContractScAddress b).
  - cbn [TypeConverters.convertScValFromDomain]. apply Hbind; [|done]. intros m'.
    apply gimapM_from_no_panic. rewrite Forall_forall in IH. intros j [e|] m'' Hin; [|done].
    apply Hwrap, (IH _ Hin).
  - cbn [TypeConverters.convertScValFromDomain]. apply Hbind; [|done]. intros m'.
    apply gimapM_from_no_panic. rewrite Forall_forall in IH. intros j [[k|] [w|]] m'' Hin; try done.
    destruct (IH _ Hin) as [Hk Hw]. apply Hbind; [intros ?; by apply Hwrap|]. intros k' m3.
    apply Hbind; [intros ?; by apply Hwrap|done].
Qed.

Lemma convert_args args :
  match TypeConverters.convertScValsToDomain args with
  | GVal xs => Forall2 (λ v x, Xdr.valid x = true ∧ TypeConverters.convertScValToDomain x = GVal v) args xs
  | GErr _ => True
  | GPanic _ => False
  end.
Proof.
  destruct (TypeConverters.convertScValsToDomain args) as [xs|e|p] eqn:E; [|done|].
  - eapply gimapM_from_Forall2; [|exact E]. intros j v x _ Hx%gwrap_GVal.
    by apply TypeConvertersProps.scval_from_to_roundtrip_lemma.
  - eapply gimapM_from_no_panic; [|exact E]. intros j v m _ Hp.
    pose proof (from_domain_no_panic v m). by destruct (TypeConverters.convertScValFromDomain v); simplify_eq/=.
Qed.

(** A submission either fails before it touches the manager, or enqueues exactly one
    operation: the invocation of the contract that the strkey names, with the requested
    function, source account, ledger bounds and idempotency key, and with arguments that
    are well-formed and convert back to the requested ones, in order. *)
Theorem submit_enqueues_request (TM : TxManager) req :
  (∃ e, SubmitTransaction (Some TM) req = Ret (GVal (None, Some ("submit transaction: " +:+ e)))) ∨
  (∃ key xargs,
     Decode VersionByteContract (bqContractID req) = Ok key ∧ length key = 32%nat ∧
     Forall2 (λ v x, Xdr.valid x = true ∧ TypeConverters.convertScValToDomain x = GVal v)
       (bqArgs req) xargs ∧
     SubmitTransaction (Some TM) req =
       (l ← alloc_op (InvokeHostFunction (InvokeContractFunction
               (mkInvokeContractArgs (Xdr.AddressTypeContract (Some key)) (bqFunction req) xargs))
               (bqFromAddress req) [] None);
        r ← EnqueueAndWait (mkTxRequest (bqIdempotencyKey req) (bqFromAddress req) [l]
               (bqLedgerBoundsOffset req));
        Ret (GVal (submit_answer r)))).
Proof.
  unfold SubmitTransaction. case_decide; [left; by eexists|]. case_decide; [left; by eexists|].
  pose proof (convert_args (bqArgs req)) as Ha.
  destruct (TypeConverters.convertScValsToDomain (bqArgs req)) as [xs|e|p]; [|left; by eexists|done].
  destruct (BuildInvokeContractOperation _ _ _ _) as [op|e] eqn:E; [|left; by eexists].
  apply build_operation_iff in E as (_ & _ & key & Hd & Hk & ->). right. by exists key, xs.
Qed.
End calls.

(** ** A submission end to end *)

Import Txm Broadcast Confirm DemoXdr TypeConvertersProps Demo.

#[export] Instance demo_host_functions : HostFunctions (H := demo_types) :=
  {| InvokeContractFunction a := FunctionName a |}.

Definition demo_contract : string := String "C"%char (String.string_of_list_byte key2).
Definition demo_submit : SubmitRequest :=
  mkSubmitRequest demo_contract "transfer" [Domain.ScValTypeU64 (Some 5)] "GALICE" "tx-1" 0.

Definition Reply : Type := gres (option SubmitReply * option string).
Definition demo_submission : txm Reply :=
  SubmitTransaction (UT := Demo.demo_unicode)
    (Some (stellar_txm (UT := Demo.demo_unicode) demo_cfg)) demo_submit.

(** The caller, the broadcast loop and the confirm loop, on a new manager. *)
Definition demo_system : list (txm Reply) :=
  [demo_submission;
   broadcastLoop (UT := Demo.demo_unicode) demo_cfg "passphrase" 1 4;; Ret (GErr "");
   confirmLoop demo_cfg 1;; Ret (GErr "")].
Definition demo_service (sch : list nat) : World * list (txm Reply) :=
  fst (sched demo_env sch (empty_manager demo_cfg, demo_system, 0%nat)).

(** What the caller is told: the status, the hash, the fee, and the error. *)
Definition told (w : World * list (txm Reply)) : option (TxStatus * string * option Z * option string) :=
  match snd w !! 0%nat with
  | Some (Ret (GVal (Some r, err))) => Some (brTxStatus r, brTxHash r, brTransactionFee r, err)
  | _ => None
  end.

Example demo_submission_succeeds :
  told (demo_service (replicate 40 0%nat ++ replicate 120 1%nat ++ replicate 120 2%nat ++
                      replicate 40 0%nat))
  = Some (TxSuccess, "42/20150", Some 12345, None).
Proof. vm_compute. reflexivity. Qed.

(** Successes and errors counted. *)
Definition is_success (m : metric) : bool := match m with IncrementSuccessTxs => true | _ => false end.
Definition is_error (m : metric) : bool := match m with IncrementErrorTxs _ => true | _ => false end.

(** The race on the status reaches the caller of the service: for a transaction that the
    ledger included with success, that was counted as a success and whose fee was
    recorded, SubmitTransaction can answer a fatal status with an error. *)
Theorem finalized_reported_fatal :
  ∃ w ps, reachable (empty_manager demo_cfg, demo_system) (w, ps) ∧
    told (w, ps) = Some (TxFatal, "42/20150", Some 12345,
      Some "submit transaction: unexpected terminal status status") ∧
    length (List.filter is_success (metrics w)) = 1%nat ∧
    List.filter is_error (metrics w) = [].
Proof.
  set (c := sched demo_env (replicate 40 0%nat ++ replicate 45 1%nat ++ replicate 120 2%nat ++
              replicate 120 1%nat ++ replicate 40 0%nat)
    (empty_manager demo_cfg, demo_system, 0%nat)).
  exists (fst (fst c)), (snd (fst c)). split; [apply sched_reachable|].
  split_and!; vm_compute; reflexivity.
Qed.

(** ** Witness *)

Lemma submit_enqueues_request_witness :
  ∃ key xargs, Decode VersionByteContract demo_contract = Ok key ∧
    Forall2 (λ v x, Xdr.valid x = true ∧ TypeConverters.convertScValToDomain x = GVal v)
      [Domain.ScValTypeU64 (Some 5)] xargs.
Proof.
  destruct (submit_enqueues_request (UT := Demo.demo_unicode)
    (stellar_txm (UT := Demo.demo_unicode) demo_cfg) demo_submit) as [[e He]|(key & xs & H1 & _ & H2 & _)].
  - exfalso. apply (f_equal (λ p : txm Reply, match p with Ret _ => true | _ => false end)) in He.
    vm_compute in He. discriminate He.
  - exists key, xs. exact (conj H1 H2).
Defined.
End ServiceProps.
