(* ===== verification/Operations.v ===== *)
(** [deployment/operations]: the operations of the deployment framework, each a thin wrapper
    around one method of a generated client, and the interface of the framework that runs
    them.

    An operation's input is its input structure, the contract's id first and then the
    arguments of the method in its order; its output, the results of the method. A contract's
    package is the prefix of the names. *)

From Stdlib Require Import Strings.Byte.
From stdpp Require Import base gmap list strings.
From S2P Require Import CommitteeVerifierClient FeeQuoterClient VersionedVerifierResolverClient OnRampClient.
From S2P Require Import RmnProxyClient RmnRemoteClient OffRampClient RouterClient RampRegistryClient.
From S2P Require Import ExampleCcipReceiverClient TokenAdminRegistryClient LockReleasePoolClient BurnMintPoolClient.
From S2P Require Import TokenPoolClient TokenLockBoxClient SiloedLockReleasePoolClient McmsClient TimelockClient.
From S2P Require Import Prelude GoStrings Prog Xdr ScVal TypeConverters Ccv Codec Client.

Local Open Scope Z_scope.

(** [stellardeps.StellarDeps]: [DeployContract(wasmPath, salt)], and the invoker. *)
Record StellarDeps (W : Type) (E : Type → Type) := mkStellarDeps {
  Deploy : string → bytes → prog W E (gres string);
  depsInvoker : Invoker W E
}.
Arguments mkStellarDeps {W E} Deploy depsInvoker.
Arguments Deploy {W E} s _ _.
Arguments depsInvoker {W E} s.

(** [cldfops.Operation]: what identifies it, and its handler. *)
Record Operation (W : Type) (E : Type → Type) := mkOperation {
  opID : string;
  opVersion : string;
  opDescription : string;
  opHandler : StellarDeps W E → list value → prog W E (gres (list value))
}.
Arguments mkOperation {W E} opID opVersion opDescription opHandler.
Arguments opID {W E} o.
Arguments opVersion {W E} o.
Arguments opDescription {W E} o.
Arguments opHandler {W E} o _ _.

Module Operations.

Definition ContractDeploymentVersion : string := "2.0.0".

Section operations.
Context {UT : UnicodeTables} {XS : XdrSdk} (enumerate : list string → list string).
Context {W : Type} {E : Type → Type}.
Abbreviation Operation := (Operation W E).

(** [DeployInput] is the path and the salt, [DeployOutput] the contract's id. *)
Definition NewDeployOperation (id description : string) : Operation :=
  mkOperation id ContractDeploymentVersion description (λ d input,
    match input with
    | [VString wasmPath; VBytes salt] =>
        cid <-? Deploy d wasmPath salt; Ret (GVal [VString cid])
    | _ => Ret ill_typed
    end).

(** An operation that calls the method of a client for [in.ContractID]. *)
Definition NewOperation (id description : string)
    (client : Invoker W E → string → list value → prog W E (gres (list value))) : Operation :=
  mkOperation id ContractDeploymentVersion description (λ d input,
    match input with
    | VString contractID :: args => client (depsInvoker d) contractID args
    | _ => Ret ill_typed
    end).

(** [operations/ramp_registry]. *)
Definition ramp_registry_ContractType : string := "RampRegistry".
Definition ramp_registry_Deploy : Operation := NewDeployOperation "ramp-registry:deploy"
  "Deploys the RampRegistry Soroban contract from WASM".
Definition ramp_registry_Initialize : Operation := NewOperation "ramp-registry:initialize"
  "Initializes RampRegistry with owner"
  (λ IV, RampRegistryClient.RampRegistryClient_Initialize enumerate (IV := IV)).
Definition ramp_registry_ApplyOnrampUpdates : Operation := NewOperation "ramp-registry:apply-onramp-updates"
  "Applies RampRegistry on-ramp map updates"
  (λ IV, RampRegistryClient.RampRegistryClient_ApplyOnrampUpdates enumerate (IV := IV)).
Definition ramp_registry_ApplyOfframpUpdates : Operation := NewOperation "ramp-registry:apply-offramp-updates"
  "Applies RampRegistry off-ramp map updates"
  (λ IV, RampRegistryClient.RampRegistryClient_ApplyOfframpUpdates enumerate (IV := IV)).
Definition ramp_registry_TransferOwnership : Operation := NewOperation "ramp-registry:transfer-ownership"
  "Transfers RampRegistry ownership to a pending new owner"
  (λ IV, RampRegistryClient.RampRegistryClient_TransferOwnership enumerate (IV := IV)).
Definition ramp_registry_AcceptOwnership : Operation := NewOperation "ramp-registry:accept-ownership"
  "Accepts RampRegistry ownership after transfer_ownership"
  (λ IV, RampRegistryClient.RampRegistryClient_AcceptOwnership enumerate (IV := IV)).

(** [operations/rmn_remote]. *)
Definition rmn_remote_ContractType : string := "RmnRemote".
Definition rmn_remote_Deploy : Operation := NewDeployOperation "rmn-remote:deploy"
  "Deploys the RMN Remote Soroban contract from WASM".
Definition rmn_remote_Initialize : Operation := NewOperation "rmn-remote:initialize"
  "Initializes RMN Remote with owner and curse admins"
  (λ IV, RmnRemoteClient.RmnRemoteClient_Initialize enumerate (IV := IV)).
Definition rmn_remote_TransferOwnership : Operation := NewOperation "rmn-remote:transfer-ownership"
  "Transfers RMN Remote ownership to a pending new owner"
  (λ IV, RmnRemoteClient.RmnRemoteClient_TransferOwnership enumerate (IV := IV)).
Definition rmn_remote_AcceptOwnership : Operation := NewOperation "rmn-remote:accept-ownership"
  "Accepts RMN Remote ownership after transfer_ownership"
  (λ IV, RmnRemoteClient.RmnRemoteClient_AcceptOwnership enumerate (IV := IV)).
Definition rmn_remote_Curse : Operation := NewOperation "rmn-remote:curse"
  "Curses subjects on Stellar RMN Remote"
  (λ IV, RmnRemoteClient.RmnRemoteClient_Curse enumerate (IV := IV)).
Definition rmn_remote_Uncurse : Operation := NewOperation "rmn-remote:uncurse"
  "Uncurses subjects on Stellar RMN Remote"
  (λ IV, RmnRemoteClient.RmnRemoteClient_Uncurse enumerate (IV := IV)).

(** [operations/rmn_proxy]. *)
Definition rmn_proxy_ContractType : string := "RmnProxy".
Definition rmn_proxy_Deploy : Operation := NewDeployOperation "rmn-proxy:deploy"
  "Deploys the RMN Proxy Soroban contract from WASM".
Definition rmn_proxy_Initialize : Operation := NewOperation "rmn-proxy:initialize"
  "Initializes RMN Proxy with owner and RMN Remote address"
  (λ IV, RmnProxyClient.RmnProxyClient_Initialize enumerate (IV := IV)).
Definition rmn_proxy_TransferOwnership : Operation := NewOperation "rmn-proxy:transfer-ownership"
  "Transfers RMN Proxy ownership to a pending new owner"
  (λ IV, RmnProxyClient.RmnProxyClient_TransferOwnership enumerate (IV := IV)).
Definition rmn_proxy_AcceptOwnership : Operation := NewOperation "rmn-proxy:accept-ownership"
  "Accepts RMN Proxy ownership after transfer_ownership"
  (λ IV, RmnProxyClient.RmnProxyClient_AcceptOwnership enumerate (IV := IV)).

(** [operations/router]. *)
Definition router_ContractType : string := "Router".
Definition router_Deploy : Operation := NewDeployOperation "router:deploy"
  "Deploys the Router Soroban contract from WASM".
Definition router_Initialize : Operation := NewOperation "router:initialize"
  "Initializes Router with owner and RMN proxy"
  (λ IV, RouterClient.RouterClient_Initialize enumerate (IV := IV)).
Definition router_ApplyRampUpdates : Operation := NewOperation "router:apply-ramp-updates"
  "Applies Router on-ramp and off-ramp map updates"
  (λ IV, RouterClient.RouterClient_ApplyRampUpdates enumerate (IV := IV)).
Definition router_TransferOwnership : Operation := NewOperation "router:transfer-ownership"
  "Transfers Router ownership to a pending new owner"
  (λ IV, RouterClient.RouterClient_TransferOwnership enumerate (IV := IV)).
Definition router_AcceptOwnership : Operation := NewOperation "router:accept-ownership"
  "Accepts Router ownership after transfer_ownership"
  (λ IV, RouterClient.RouterClient_AcceptOwnership enumerate (IV := IV)).

(** [operations/fee_quoter]. *)
Definition fee_quoter_ContractType : string := "FeeQuoter".
Definition fee_quoter_Deploy : Operation := NewDeployOperation "fee-quoter:deploy"
  "Deploys the FeeQuoter Soroban contract from WASM".
Definition fee_quoter_Initialize : Operation := NewOperation "fee-quoter:initialize"
  "Initializes FeeQuoter with owner, static config, and authorized callers"
  (λ IV, FeeQuoterClient.FeeQuoterClient_Initialize enumerate (IV := IV)).
Definition fee_quoter_ApplyDestChainConfigs : Operation := NewOperation "fee-quoter:apply-dest-chain-configs"
  "Applies FeeQuoter destination chain configurations"
  (λ IV, FeeQuoterClient.FeeQuoterClient_ApplyDestChainConfigs enumerate (IV := IV)).
Definition fee_quoter_UpdatePrices : Operation := NewOperation "fee-quoter:update-prices"
  "Updates gas and token prices on Stellar FeeQuoter"
  (λ IV, FeeQuoterClient.FeeQuoterClient_UpdatePrices enumerate (IV := IV)).
Definition fee_quoter_ApplyTokenFeeConfigs : Operation := NewOperation "fee-quoter:apply-token-fee-configs"
  "Applies per-token transfer fee configurations on Stellar FeeQuoter"
  (λ IV, FeeQuoterClient.FeeQuoterClient_ApplyTokenFeeConfigs enumerate (IV := IV)).
Definition fee_quoter_TransferOwnership : Operation := NewOperation "fee-quoter:transfer-ownership"
  "Transfers FeeQuoter ownership to a pending new owner"
  (λ IV, FeeQuoterClient.FeeQuoterClient_TransferOwnership enumerate (IV := IV)).
Definition fee_quoter_AcceptOwnership : Operation := NewOperation "fee-quoter:accept-ownership"
  "Accepts FeeQuoter ownership after transfer_ownership"
  (λ IV, FeeQuoterClient.FeeQuoterClient_AcceptOwnership enumerate (IV := IV)).

(** [operations/token_admin_registry]. *)
Definition token_admin_registry_ContractType : string := "TokenAdminRegistry".
Definition token_admin_registry_Deploy : Operation := NewDeployOperation "token-admin-registry:deploy"
  "Deploys the TokenAdminRegistry Soroban contract from WASM".
Definition token_admin_registry_Initialize : Operation := NewOperation "token-admin-registry:initialize"
  "Initializes TokenAdminRegistry with owner"
  (λ IV, TokenAdminRegistryClient.TokenAdminRegistryClient_Initialize enumerate (IV := IV)).
Definition token_admin_registry_ProposeAdministrator : Operation := NewOperation "token-admin-registry:propose-administrator"
  "Proposes a token administrator in TokenAdminRegistry"
  (λ IV, TokenAdminRegistryClient.TokenAdminRegistryClient_ProposeAdministrator enumerate (IV := IV)).
Definition token_admin_registry_AcceptAdminRole : Operation := NewOperation "token-admin-registry:accept-admin-role"
  "Accepts administrator role for a token in TokenAdminRegistry"
  (λ IV, TokenAdminRegistryClient.TokenAdminRegistryClient_AcceptAdminRole enumerate (IV := IV)).
Definition token_admin_registry_SetPool : Operation := NewOperation "token-admin-registry:set-pool"
  "Sets the default pool for a token in TokenAdminRegistry"
  (λ IV, TokenAdminRegistryClient.TokenAdminRegistryClient_SetPool enumerate (IV := IV)).
Definition token_admin_registry_TransferOwnership : Operation := NewOperation "token-admin-registry:transfer-ownership"
  "Transfers TokenAdminRegistry ownership to a pending new owner"
  (λ IV, TokenAdminRegistryClient.TokenAdminRegistryClient_TransferOwnership enumerate (IV := IV)).
Definition token_admin_registry_AcceptOwnership : Operation := NewOperation "token-admin-registry:accept-ownership"
  "Accepts TokenAdminRegistry ownership after transfer_ownership"
  (λ IV, TokenAdminRegistryClient.TokenAdminRegistryClient_AcceptOwnership enumerate (IV := IV)).

(** [operations/onramp]. *)
Definition onramp_ContractType : string := "OnRamp".
Definition onramp_Deploy : Operation := NewDeployOperation "onramp:deploy"
  "Deploys the OnRamp Soroban contract from WASM".
Definition onramp_Initialize : Operation := NewOperation "onramp:initialize"
  "Initializes OnRamp with owner, static, and dynamic configuration"
  (λ IV, OnRampClient.OnRampClient_Initialize enumerate (IV := IV)).
Definition onramp_ApplyDestChainConfigUpdates : Operation := NewOperation "onramp:apply-dest-chain-config-updates"
  "Applies OnRamp destination chain configuration updates"
  (λ IV, OnRampClient.OnRampClient_ApplyDestChainConfigUpdates enumerate (IV := IV)).
Definition onramp_TransferOwnership : Operation := NewOperation "onramp:transfer-ownership"
  "Transfers OnRamp ownership to a pending new owner"
  (λ IV, OnRampClient.OnRampClient_TransferOwnership enumerate (IV := IV)).
Definition onramp_AcceptOwnership : Operation := NewOperation "onramp:accept-ownership"
  "Accepts OnRamp ownership after transfer_ownership"
  (λ IV, OnRampClient.OnRampClient_AcceptOwnership enumerate (IV := IV)).

(** [operations/offramp]. *)
Definition offramp_ContractType : string := "OffRamp".
Definition offramp_Deploy : Operation := NewDeployOperation "offramp:deploy"
  "Deploys the OffRamp Soroban contract from a WASM file".
Definition offramp_Initialize : Operation := NewOperation "offramp:initialize"
  "Initializes OffRamp with owner and static configuration"
  (λ IV, OffRampClient.OffRampClient_Initialize enumerate (IV := IV)).
Definition offramp_ApplySourceChainCfgUpdates : Operation := NewOperation "offramp:apply-source-chain-cfg-updates"
  "Applies OffRamp source chain configuration updates"
  (λ IV, OffRampClient.OffRampClient_ApplySourceChainCfgUpdates enumerate (IV := IV)).
Definition offramp_Execute : Operation := NewOperation "offramp:execute"
  "Executes a single committed CCIP message on OffRamp"
  (λ IV, OffRampClient.OffRampClient_Execute enumerate (IV := IV)).
Definition offramp_TransferOwnership : Operation := NewOperation "offramp:transfer-ownership"
  "Transfers OffRamp ownership to a pending new owner"
  (λ IV, OffRampClient.OffRampClient_TransferOwnership enumerate (IV := IV)).
Definition offramp_AcceptOwnership : Operation := NewOperation "offramp:accept-ownership"
  "Accepts OffRamp ownership after transfer_ownership"
  (λ IV, OffRampClient.OffRampClient_AcceptOwnership enumerate (IV := IV)).

(** [operations/committee_verifier]. *)
Definition committee_verifier_ContractType : string := "CommitteeVerifier".
Definition committee_verifier_Deploy : Operation := NewDeployOperation "committee-verifier:deploy"
  "Deploys the Committee Verifier Soroban contract from WASM".
Definition committee_verifier_Initialize : Operation := NewOperation "committee-verifier:initialize"
  "Initializes Committee Verifier with owner, dynamic config, and RMN proxy"
  (λ IV, CommitteeVerifierClient.CommitteeVerifierClient_Initialize enumerate (IV := IV)).
Definition committee_verifier_ApplyRemoteChainCfgUpdates : Operation := NewOperation "committee-verifier:apply-remote-chain-cfg-updates"
  "Applies Committee Verifier remote chain configuration updates"
  (λ IV, CommitteeVerifierClient.CommitteeVerifierClient_ApplyRemoteChainCfgUpdates enumerate (IV := IV)).
Definition committee_verifier_ApplySignatureConfigs : Operation := NewOperation "committee-verifier:apply-signature-configs"
  "Applies Committee Verifier signature quorum configurations"
  (λ IV, CommitteeVerifierClient.CommitteeVerifierClient_ApplySignatureConfigs enumerate (IV := IV)).
Definition committee_verifier_WithdrawFeeTokens : Operation := NewOperation "committee-verifier:withdraw-fee-tokens"
  "Withdraws listed fee token balances to the Committee Verifier fee aggregator"
  (λ IV, CommitteeVerifierClient.CommitteeVerifierClient_WithdrawFeeTokens enumerate (IV := IV)).
Definition committee_verifier_TransferOwnership : Operation := NewOperation "committee-verifier:transfer-ownership"
  "Transfers Committee Verifier ownership to a pending new owner"
  (λ IV, CommitteeVerifierClient.CommitteeVerifierClient_TransferOwnership enumerate (IV := IV)).
Definition committee_verifier_AcceptOwnership : Operation := NewOperation "committee-verifier:accept-ownership"
  "Accepts Committee Verifier ownership after transfer_ownership"
  (λ IV, CommitteeVerifierClient.CommitteeVerifierClient_AcceptOwnership enumerate (IV := IV)).

(** [operations/versioned_verifier_resolver]. *)
Definition versioned_verifier_resolver_ContractType : string := "VersionedVerifierResolver".
Definition versioned_verifier_resolver_Deploy : Operation := NewDeployOperation "versioned-verifier-resolver:deploy"
  "Deploys the Versioned Verifier Resolver Soroban contract from WASM".
Definition versioned_verifier_resolver_Initialize : Operation := NewOperation "versioned-verifier-resolver:initialize"
  "Initializes Versioned Verifier Resolver with owner and fee aggregator"
  (λ IV, VersionedVerifierResolverClient.VersionedVerifierResolverClient_Initialize enumerate (IV := IV)).
Definition versioned_verifier_resolver_ApplyOutboundImplUpdates : Operation := NewOperation "versioned-verifier-resolver:apply-outbound-impl-updates"
  "Applies Versioned Verifier Resolver outbound implementation updates"
  (λ IV, VersionedVerifierResolverClient.VersionedVerifierResolverClient_ApplyOutboundImplUpdates enumerate (IV := IV)).
Definition versioned_verifier_resolver_ApplyInboundImplUpdates : Operation := NewOperation "versioned-verifier-resolver:apply-inbound-impl-updates"
  "Applies Versioned Verifier Resolver inbound implementation updates"
  (λ IV, VersionedVerifierResolverClient.VersionedVerifierResolverClient_ApplyInboundImplUpdates enumerate (IV := IV)).
Definition versioned_verifier_resolver_WithdrawFeeTokens : Operation := NewOperation "versioned-verifier-resolver:withdraw-fee-tokens"
  "Withdraws listed fee token balances to the Versioned Verifier Resolver fee aggregator"
  (λ IV, VersionedVerifierResolverClient.VersionedVerifierResolverClient_WithdrawFeeTokens enumerate (IV := IV)).
Definition versioned_verifier_resolver_TransferOwnership : Operation := NewOperation "versioned-verifier-resolver:transfer-ownership"
  "Transfers Versioned Verifier Resolver ownership to a pending new owner"
  (λ IV, VersionedVerifierResolverClient.VersionedVerifierResolverClient_TransferOwnership enumerate (IV := IV)).
Definition versioned_verifier_resolver_AcceptOwnership : Operation := NewOperation "versioned-verifier-resolver:accept-ownership"
  "Accepts Versioned Verifier Resolver ownership after transfer_ownership"
  (λ IV, VersionedVerifierResolverClient.VersionedVerifierResolverClient_AcceptOwnership enumerate (IV := IV)).

(** [operations/ccip_receiver]. *)
Definition ccip_receiver_ContractType : string := "CCIPReceiver".
Definition ccip_receiver_Deploy : Operation := NewDeployOperation "ccip-receiver:deploy"
  "Deploys the example CCIP receiver Soroban contract from WASM".
Definition ccip_receiver_Initialize : Operation := NewOperation "ccip-receiver:initialize"
  "Initializes CCIP example receiver with owner and router"
  (λ IV, ExampleCcipReceiverClient.ExampleCcipReceiverClient_Initialize enumerate (IV := IV)).
Definition ccip_receiver_EnableRemoteChain : Operation := NewOperation "ccip-receiver:enable-remote-chain"
  "Enables CCIP receiver processing for a remote chain selector"
  (λ IV, ExampleCcipReceiverClient.ExampleCcipReceiverClient_EnableRemoteChain enumerate (IV := IV)).
Definition ccip_receiver_TransferOwnership : Operation := NewOperation "ccip-receiver:transfer-ownership"
  "Transfers CCIP example receiver ownership to a pending new owner"
  (λ IV, ExampleCcipReceiverClient.ExampleCcipReceiverClient_TransferOwnership enumerate (IV := IV)).
Definition ccip_receiver_AcceptOwnership : Operation := NewOperation "ccip-receiver:accept-ownership"
  "Accepts CCIP example receiver ownership after transfer_ownership"
  (λ IV, ExampleCcipReceiverClient.ExampleCcipReceiverClient_AcceptOwnership enumerate (IV := IV)).

(** [operations/lock_release_pool]. *)
Definition lock_release_pool_ContractType : string := "LockReleasePool".
Definition lock_release_pool_Deploy : Operation := NewDeployOperation "lock-release-pool:deploy"
  "Deploys the lock-release pool Soroban contract from WASM".
Definition lock_release_pool_Initialize : Operation := NewOperation "lock-release-pool:initialize"
  "Initializes lock-release pool with owner, token, router, and ramp registry"
  (λ IV, LockReleasePoolClient.LockReleasePoolClient_Initialize enumerate (IV := IV)).
Definition lock_release_pool_TransferOwnership : Operation := NewOperation "lock-release-pool:transfer-ownership"
  "Transfers lock-release pool ownership to a pending new owner"
  (λ IV, LockReleasePoolClient.LockReleasePoolClient_TransferOwnership enumerate (IV := IV)).
Definition lock_release_pool_AcceptOwnership : Operation := NewOperation "lock-release-pool:accept-ownership"
  "Accepts lock-release pool ownership after transfer_ownership"
  (λ IV, LockReleasePoolClient.LockReleasePoolClient_AcceptOwnership enumerate (IV := IV)).
Definition lock_release_pool_SetRateLimitConfig : Operation := NewOperation "lock-release-pool:set-rate-limit-config"
  "Sets outbound and inbound rate limit configs for a remote chain on the lock-release pool"
  (λ IV, LockReleasePoolClient.LockReleasePoolClient_SetRateLimitConfig enumerate (IV := IV)).
Definition lock_release_pool_GetCurrentRateLimiterState : Operation := NewOperation "lock-release-pool:get-current-rate-limiter-state"
  "Reads the current outbound/inbound rate limiter bucket state for a remote chain"
  (λ IV, LockReleasePoolClient.LockReleasePoolClient_GetCurrentRateLimiterState enumerate (IV := IV)).

(** [operations/siloed_lock_release_pool]. *)
Definition siloed_lock_release_pool_ContractType : string := "SiloedLockReleasePool".
Definition siloed_lock_release_pool_Deploy : Operation := NewDeployOperation "siloed-lock-release-pool:deploy"
  "Deploys the siloed lock-release pool Soroban contract from WASM".
Definition siloed_lock_release_pool_Initialize : Operation := NewOperation "siloed-lock-release-pool:initialize"
  "Initializes siloed lock-release pool with owner, token, router, and ramp registry"
  (λ IV, SiloedLockReleasePoolClient.SiloedLockReleasePoolClient_Initialize enumerate (IV := IV)).
Definition siloed_lock_release_pool_TransferOwnership : Operation := NewOperation "siloed-lock-release-pool:transfer-ownership"
  "Transfers siloed lock-release pool ownership to a pending new owner"
  (λ IV, SiloedLockReleasePoolClient.SiloedLockReleasePoolClient_TransferOwnership enumerate (IV := IV)).
Definition siloed_lock_release_pool_AcceptOwnership : Operation := NewOperation "siloed-lock-release-pool:accept-ownership"
  "Accepts siloed lock-release pool ownership after transfer_ownership"
  (λ IV, SiloedLockReleasePoolClient.SiloedLockReleasePoolClient_AcceptOwnership enumerate (IV := IV)).
Definition siloed_lock_release_pool_ApplyChainUpdates : Operation := NewOperation "siloed-lock-release-pool:apply-chain-updates"
  "Adds or removes remote chain configs on the siloed lock-release pool"
  (λ IV, SiloedLockReleasePoolClient.SiloedLockReleasePoolClient_ApplyChainUpdates enumerate (IV := IV)).
Definition siloed_lock_release_pool_ConfigureLockBoxes : Operation := NewOperation "siloed-lock-release-pool:configure-lock-boxes"
  "Maps remote chain selectors to token lock box addresses on the siloed pool"
  (λ IV, SiloedLockReleasePoolClient.SiloedLockReleasePoolClient_ConfigureLockBoxes enumerate (IV := IV)).

(** [operations/burn_mint_pool]. *)
Definition burn_mint_pool_ContractType : string := "BurnMintPool".
Definition burn_mint_pool_Deploy : Operation := NewDeployOperation "burn-mint-pool:deploy"
  "Deploys the burn-mint pool Soroban contract from WASM".
Definition burn_mint_pool_Initialize : Operation := NewOperation "burn-mint-pool:initialize"
  "Initializes burn-mint pool with owner, token, router, and ramp registry"
  (λ IV, BurnMintPoolClient.BurnMintPoolClient_Initialize enumerate (IV := IV)).
Definition burn_mint_pool_TransferOwnership : Operation := NewOperation "burn-mint-pool:transfer-ownership"
  "Transfers burn-mint pool ownership to a pending new owner"
  (λ IV, BurnMintPoolClient.BurnMintPoolClient_TransferOwnership enumerate (IV := IV)).
Definition burn_mint_pool_AcceptOwnership : Operation := NewOperation "burn-mint-pool:accept-ownership"
  "Accepts burn-mint pool ownership after transfer_ownership"
  (λ IV, BurnMintPoolClient.BurnMintPoolClient_AcceptOwnership enumerate (IV := IV)).

(** [operations/token_pool]. *)
Definition token_pool_ContractType : string := "TokenPool".
Definition token_pool_Deploy : Operation := NewDeployOperation "token-pool:deploy"
  "Deploys a Soroban token pool contract from WASM".
Definition token_pool_Initialize : Operation := NewOperation "token-pool:initialize"
  "Initializes token pool with owner, token, router, and ramp registry"
  (λ IV, TokenPoolClient.TokenPoolClient_Initialize enumerate (IV := IV)).

(** [operations/token_lock_box]. *)
Definition token_lock_box_ContractType : string := "TokenLockBox".
Definition token_lock_box_Deploy : Operation := NewDeployOperation "token-lock-box:deploy"
  "Deploys the token lock box Soroban contract from WASM".
Definition token_lock_box_Initialize : Operation := NewOperation "token-lock-box:initialize"
  "Initializes token lock box with owner and token"
  (λ IV, TokenLockBoxClient.TokenLockBoxClient_Initialize enumerate (IV := IV)).
Definition token_lock_box_TransferOwnership : Operation := NewOperation "token-lock-box:transfer-ownership"
  "Transfers token lock box ownership to a pending new owner"
  (λ IV, TokenLockBoxClient.TokenLockBoxClient_TransferOwnership enumerate (IV := IV)).
Definition token_lock_box_AcceptOwnership : Operation := NewOperation "token-lock-box:accept-ownership"
  "Accepts token lock box ownership after transfer_ownership"
  (λ IV, TokenLockBoxClient.TokenLockBoxClient_AcceptOwnership enumerate (IV := IV)).
Definition token_lock_box_AddAllowedCallers : Operation := NewOperation "token-lock-box:add-allowed-callers"
  "Adds allowed caller addresses that may deposit or withdraw from the lock box"
  (λ IV, TokenLockBoxClient.TokenLockBoxClient_AddAllowedCallers enumerate (IV := IV)).
Definition token_lock_box_RemoveAllowedCallers : Operation := NewOperation "token-lock-box:remove-allowed-callers"
  "Removes allowed caller addresses from the lock box allowlist"
  (λ IV, TokenLockBoxClient.TokenLockBoxClient_RemoveAllowedCallers enumerate (IV := IV)).
Definition token_lock_box_Deposit : Operation := NewOperation "token-lock-box:deposit"
  "Deposits tokens from an allowed caller into the lock box"
  (λ IV, TokenLockBoxClient.TokenLockBoxClient_Deposit enumerate (IV := IV)).
Definition token_lock_box_Withdraw : Operation := NewOperation "token-lock-box:withdraw"
  "Withdraws tokens from the lock box to a recipient on behalf of an allowed caller"
  (λ IV, TokenLockBoxClient.TokenLockBoxClient_Withdraw enumerate (IV := IV)).

(** [operations/mcms]. *)
Definition mcms_ContractType : string := "MCMS".
Definition mcms_Deploy : Operation := NewDeployOperation "mcms:deploy"
  "Deploys the MCMS Soroban contract from WASM".
Definition mcms_Initialize : Operation := NewOperation "mcms:initialize"
  "Initializes MCMS with owner and chain network id"
  (λ IV, McmsClient.McmsClient_Initialize enumerate (IV := IV)).
Definition mcms_SetConfig : Operation := NewOperation "mcms:set-config"
  "Updates MCMS signer set, group hierarchy, and quorums"
  (λ IV, McmsClient.McmsClient_SetConfig enumerate (IV := IV)).
Definition mcms_GetOpCount : Operation := NewOperation "mcms:get-op-count"
  "Reads the current MCMS op count via simulation"
  (λ IV, McmsClient.McmsClient_GetOpCount enumerate (IV := IV)).
Definition mcms_GetConfig : Operation := NewOperation "mcms:get-config"
  "Reads the current MCMS signer/group configuration via simulation"
  (λ IV, McmsClient.McmsClient_GetConfig enumerate (IV := IV)).
Definition mcms_TransferOwnership : Operation := NewOperation "mcms:transfer-ownership"
  "Transfers MCMS ownership to a pending new owner"
  (λ IV, McmsClient.McmsClient_TransferOwnership enumerate (IV := IV)).
Definition mcms_AcceptOwnership : Operation := NewOperation "mcms:accept-ownership"
  "Accepts MCMS ownership after transfer_ownership"
  (λ IV, McmsClient.McmsClient_AcceptOwnership enumerate (IV := IV)).

(** [operations/timelock]. *)
Definition timelock_ContractType : string := "Timelock".
Definition timelock_Deploy : Operation := NewDeployOperation "timelock:deploy"
  "Deploys the Timelock Soroban contract from WASM".
Definition timelock_Initialize : Operation := NewOperation "timelock:initialize"
  "Initializes Timelock with delay, admin, and role holders"
  (λ IV, TimelockClient.TimelockClient_Initialize enumerate (IV := IV)).
Definition timelock_GrantRole : Operation := NewOperation "timelock:grant-role"
  "Grants a Timelock role (e.g. ADMIN_ROLE) to an account"
  (λ IV, TimelockClient.TimelockClient_GrantRole enumerate (IV := IV)).
Definition timelock_RevokeRole : Operation := NewOperation "timelock:revoke-role"
  "Revokes a Timelock role from an account"
  (λ IV, TimelockClient.TimelockClient_RevokeRole enumerate (IV := IV)).
Definition timelock_UpdateDelay : Operation := NewOperation "timelock:update-delay"
  "Updates Timelock minimum delay"
  (λ IV, TimelockClient.TimelockClient_UpdateDelay enumerate (IV := IV)).
Definition timelock_GetMinDelay : Operation := NewOperation "timelock:get-min-delay"
  "Reads the current Timelock minimum delay via simulation"
  (λ IV, TimelockClient.TimelockClient_GetMinDelay enumerate (IV := IV)).

(** [operations/sac_token]: the two calls of a Stellar asset contract, which has no client. *)
Definition sac_token_Transfer : Operation :=
  mkOperation "sac-token:transfer" ContractDeploymentVersion
    "Transfers SAC tokens between Stellar accounts/contracts" (λ d input,
    match input with
    | [VString contractID; VString from; VString to; VNum amount] =>
        _ <-? Invoke (Invoker := depsInvoker d) contractID "transfer"
                [ScVal.AddressToScVal from; ScVal.AddressToScVal to; ScVal.I128ToScVal amount];
        Ret (GVal [])
    | _ => Ret ill_typed
    end).
Definition sac_token_Approve : Operation :=
  mkOperation "sac-token:approve" ContractDeploymentVersion
    "Approves a SAC token spender up to expiration_ledger" (λ d input,
    match input with
    | [VString contractID; VString from; VString spender; VNum amount; VNum expirationLedger] =>
        _ <-? Invoke (Invoker := depsInvoker d) contractID "approve"
                [ScVal.AddressToScVal from; ScVal.AddressToScVal spender; ScVal.I128ToScVal amount;
                 ScVal.Uint32ToScVal expirationLedger];
        Ret (GVal [])
    | _ => Ret ill_typed
    end).
End operations.
End Operations.
