(* ===== verification/Ownership.v ===== *)
(** The ownership of the contracts: the [Ownable] trait of the contracts
    ([contracts/common/authorization/src/ownable.rs]), the dispatch on a contract's type
    ([deployment/ownership]), the two sequences ([deployment/sequences/transfer_ownership.go])
    and their adapter ([deployment/adapters/stellar_transfer_ownership_adapter.go]).

    The deployment framework is [Cldf]: it runs an operation or a sequence, or returns what an
    earlier run with the same input returned, and makes a batch of the writes that are still
    to be executed. [Host] runs the calls of a deployer in the world of the sequences. *)

From Stdlib Require Import Strings.Byte.
From stdpp Require Import base gmap list strings pretty.
From S2P Require Import Prelude GoStrings Prog Sdk Xdr ScVal TypeConverters InvokerAdapter Ccv Codec Client.
From S2P Require Import CommitteeVerifierClient FeeQuoterClient VersionedVerifierResolverClient OnRampClient.
From S2P Require Import RmnProxyClient RmnRemoteClient OffRampClient RouterClient RampRegistryClient.
From S2P Require Import ExampleCcipReceiverClient TokenAdminRegistryClient LockReleasePoolClient BurnMintPoolClient.
From S2P Require Import TokenLockBoxClient SiloedLockReleasePoolClient McmsClient.
From S2P Require Import Float Deployer ExtraArgs Operations.
Import Xdr CcvCommon.

Local Open Scope Z_scope.

(** ** The contracts *)

Module Ownable.
Record Ownable := mkOwnable { OWNER : option string; PENDING_OWNER : option string }.

(** [auth]: the addresses that authorised the invocation. A failed [require_auth] traps;
    either way the transaction has no effect. *)
Section trait.
Context (auth : string → bool).
Definition require_auth (addr : string) : result unit :=
  if auth addr then Ok tt else Err "require_auth".

Definition init_owner (owner : string) (st : Ownable) : result Ownable :=
  match OWNER st with
  | Some _ => Err "AlreadyInitialized"
  | None => Ok (mkOwnable (Some owner) (PENDING_OWNER st))
  end.
Definition owner (st : Ownable) : option string := OWNER st.
Definition is_owner (st : Ownable) (addr : string) : bool := bool_decide (OWNER st = Some addr).
Definition require_owner (st : Ownable) : result string :=
  match owner st with
  | None => Err "NotOwner"
  | Some o => match require_auth o with Ok _ => Ok o | Err e => Err e end
  end.
Definition transfer_ownership (new_owner : string) (st : Ownable) : result Ownable :=
  match require_owner st with
  | Ok _ => Ok (mkOwnable (OWNER st) (Some new_owner))
  | Err e => Err e
  end.
Definition accept_ownership (st : Ownable) : result Ownable :=
  match PENDING_OWNER st with
  | None => Err "NoPendingOwner"
  | Some pending =>
      match require_auth pending with
      | Ok _ => Ok (mkOwnable (Some pending) None)
      | Err e => Err e
      end
  end.
Definition get_pending_owner (st : Ownable) : option string := PENDING_OWNER st.
Definition cancel_ownership_transfer (st : Ownable) : result Ownable :=
  match require_owner st with
  | Ok _ => Ok (mkOwnable (OWNER st) None)
  | Err e => Err e
  end.
Definition set_new_owner (new_owner : string) (st : Ownable) : result Ownable :=
  match require_owner st with
  | Ok _ => Ok (mkOwnable (Some new_owner) (PENDING_OWNER st))
  | Err e => Err e
  end.
End trait.

(** A transaction's effect on one contract: which entry point, with which argument. *)
Inductive message :=
| Transfer (new_owner : string) | Accept | Cancel | SetNew (new_owner : string) | Init (new_owner : string).
Definition receive (auth : string → bool) (m : message) (st : Ownable) : result Ownable :=
  match m with
  | Transfer a => transfer_ownership auth a st
  | Accept => accept_ownership auth st
  | Cancel => cancel_ownership_transfer auth st
  | SetNew a => set_new_owner auth a st
  | Init a => init_owner a st
  end.

(** The contracts on chain, by id, and the two entry points that the sequences call. *)
Abbreviation ledger := (gmap string Ownable).
Section ledger.
Context {UT : UnicodeTables} {XS : XdrSdk}.
Definition message_of (functionName : string) (args : list ScVal) : option message :=
  if decide (functionName = "transfer_ownership") then
    match args with
    | [a] => match ScVal.AddressFromScVal a with GVal s => Some (Transfer s) | _ => None end
    | _ => None
    end
  else if decide (functionName = "accept_ownership") then
    match args with [] => Some Accept | _ => None end
  else None.
Definition invoke (auth : string → bool) (L : ledger) (contractID functionName : string) (args : list ScVal)
  : option ledger :=
  st ← L !! contractID;
  m ← message_of functionName args;
  match receive auth m st with Ok st' => Some (<[contractID := st']> L) | Err _ => None end.

(** [execute_call] of [contracts/timelock/src/lib.rs]: the timelock [gov] is the caller, so
    it authorises what the target requires of it; the target is named by its address. *)
Context {SB : ScValBinary}.
Definition execute_call (gov : string) (L : ledger) (to : string) (data : bytes) : option ledger :=
  '(fn_sym, args) ← decode_invoke_payload data;
  invoke (λ a, bool_decide (a = gov)) L to fn_sym args.
(** The loop of [execute_batch] and [bypasser_execute_batch]. *)
Fixpoint execute_calls (gov : string) (L : ledger) (calls : list (string * bytes)) : option ledger :=
  match calls with
  | [] => Some L
  | (to, data) :: calls' => L' ← execute_call gov L to data; execute_calls gov L' calls'
  end.
End ledger.
End Ownable.

(** ** The framework *)

(** [datastore.AddressRef]. *)
Record AddressRef := mkAddressRef {
  refChainSelector : Z;
  refType : string;
  refVersion : option string;
  refQualifier : string;
  refAddress : string
}.
(** [mcmstypes.Transaction], [mcmstypes.BatchOperation]. *)
Record Transaction := mkTransaction {
  txContractType : string;
  txTo : string;
  txData : bytes;
  AdditionalFields : string
}.
Record BatchOperation := mkBatchOperation { boChainSelector : Z; Transactions : list Transaction }.
(** [evmcontract.WriteOutput]; [ExecInfo] holds the hash. *)
Record WriteOutput := mkWriteOutput {
  woChainSelector : Z;
  woTx : Transaction;
  ExecInfo : option string
}.
Definition zeroTransaction : Transaction := mkTransaction "" "" [] "".
(** [seqcore.OnChainOutput], the fields in use. What accompanies an error is not read. *)
Record OnChainOutput := mkOnChainOutput { Addresses : list AddressRef; BatchOps : list BatchOperation }.
(** [cldfstellar.Chain]: the signer's address, and whether it exposes a keypair. *)
Record StellarChain := mkStellarChain {
  NetworkPassphrase : string;
  ChainSigner : option (string * bool)
}.
Abbreviation BlockChains := (gmap Z StellarChain).

(** [cldfops.Sequence]. *)
Record Sequence (W : Type) (E : Type → Type) (I O : Type) := mkSequence {
  seqID : string;
  seqDescription : string;
  seqHandler : BlockChains → I → prog W E (gres O)
}.
Arguments mkSequence {W E I O} seqID seqDescription seqHandler.
Arguments seqID {W E I O} s.
Arguments seqDescription {W E I O} s.
Arguments seqHandler {W E I O} s _ _.

Class Cldf (W : Type) (E : Type → Type) := {
  ExecuteOperation : Operation W E → StellarDeps W E → list value → prog W E (gres (list value));
  ExecuteSequence : ∀ I O, Sequence W E I O → BlockChains → I → prog W E (gres O);
  NewBatchOperationFromWrites : list WriteOutput → gres BatchOperation
}.
Arguments ExecuteSequence {W E Cldf I O} s chains input.

(** [switch x { case ...: ... default: ... }]. *)
Fixpoint switch {A} (x : string) (cases : list (string * A)) (otherwise : A) : A :=
  match cases with
  | [] => otherwise
  | (c, a) :: cases' => if decide (x = c) then a else switch x cases' otherwise
  end.

Module Ownership.
Import Operations.

Section ownership.
Context {UT : UnicodeTables} {XS : XdrSdk} (enumerate : list string → list string).
Context {W : Type} {E : Type → Type}.

(** ** [ownership/contract_owner.go] *)

Definition optionalStellarOwner (o : option string) : gres string :=
  match o with None => GErr "contract returned no owner" | Some o => GVal o end.

(** The [Owner] method of the client for each contract type. *)
Definition owner_clients : list (string * (StellarDeps W E → string → list value → prog W E (gres (list value)))) :=
  [ (mcms_ContractType, λ d, McmsClient.McmsClient_Owner enumerate (IV := depsInvoker d));
    (offramp_ContractType, λ d, OffRampClient.OffRampClient_Owner enumerate (IV := depsInvoker d));
    (onramp_ContractType, λ d, OnRampClient.OnRampClient_Owner enumerate (IV := depsInvoker d));
    (router_ContractType, λ d, RouterClient.RouterClient_Owner enumerate (IV := depsInvoker d));
    (fee_quoter_ContractType, λ d, FeeQuoterClient.FeeQuoterClient_Owner enumerate (IV := depsInvoker d));
    (rmn_remote_ContractType, λ d, RmnRemoteClient.RmnRemoteClient_Owner enumerate (IV := depsInvoker d));
    (rmn_proxy_ContractType, λ d, RmnProxyClient.RmnProxyClient_Owner enumerate (IV := depsInvoker d));
    (ramp_registry_ContractType, λ d, RampRegistryClient.RampRegistryClient_Owner enumerate (IV := depsInvoker d));
    (token_admin_registry_ContractType, λ d, TokenAdminRegistryClient.TokenAdminRegistryClient_Owner enumerate (IV := depsInvoker d));
    (committee_verifier_ContractType, λ d, CommitteeVerifierClient.CommitteeVerifierClient_Owner enumerate (IV := depsInvoker d));
    (versioned_verifier_resolver_ContractType, λ d, VersionedVerifierResolverClient.VersionedVerifierResolverClient_Owner enumerate (IV := depsInvoker d));
    (lock_release_pool_ContractType, λ d, LockReleasePoolClient.LockReleasePoolClient_Owner enumerate (IV := depsInvoker d));
    (siloed_lock_release_pool_ContractType, λ d, SiloedLockReleasePoolClient.SiloedLockReleasePoolClient_Owner enumerate (IV := depsInvoker d));
    (burn_mint_pool_ContractType, λ d, BurnMintPoolClient.BurnMintPoolClient_Owner enumerate (IV := depsInvoker d));
    (token_lock_box_ContractType, λ d, TokenLockBoxClient.TokenLockBoxClient_Owner enumerate (IV := depsInvoker d));
    (ccip_receiver_ContractType, λ d, ExampleCcipReceiverClient.ExampleCcipReceiverClient_Owner enumerate (IV := depsInvoker d))].
Definition ContractOwner (deps : StellarDeps W E) (ref : AddressRef) : prog W E (gres string) :=
  let cid := refAddress ref in
  switch (refType ref)
    ((λ '(ct, client),
        (ct, o <-? client deps cid [];
             Ret (match o with [VOptString o] => optionalStellarOwner o | _ => ill_typed end))) <$> owner_clients)
    (Ret (GErr ("stellar ownership: unsupported contract type " +:+ Quote (refType ref) +:+ " for " +:+ cid))).

(** ** [ownership/exec.go] *)

Context {CF : Cldf W E}.

Definition transfer_operations : list (string * Operation W E) :=
  [ (mcms_ContractType, mcms_TransferOwnership enumerate);
    (offramp_ContractType, offramp_TransferOwnership enumerate);
    (onramp_ContractType, onramp_TransferOwnership enumerate);
    (router_ContractType, router_TransferOwnership enumerate);
    (fee_quoter_ContractType, fee_quoter_TransferOwnership enumerate);
    (rmn_remote_ContractType, rmn_remote_TransferOwnership enumerate);
    (rmn_proxy_ContractType, rmn_proxy_TransferOwnership enumerate);
    (ramp_registry_ContractType, ramp_registry_TransferOwnership enumerate);
    (token_admin_registry_ContractType, token_admin_registry_TransferOwnership enumerate);
    (committee_verifier_ContractType, committee_verifier_TransferOwnership enumerate);
    (versioned_verifier_resolver_ContractType, versioned_verifier_resolver_TransferOwnership enumerate);
    (lock_release_pool_ContractType, lock_release_pool_TransferOwnership enumerate);
    (siloed_lock_release_pool_ContractType, siloed_lock_release_pool_TransferOwnership enumerate);
    (burn_mint_pool_ContractType, burn_mint_pool_TransferOwnership enumerate);
    (token_lock_box_ContractType, token_lock_box_TransferOwnership enumerate);
    (ccip_receiver_ContractType, ccip_receiver_TransferOwnership enumerate)].
Definition ExecuteTransferOwnership (deps : StellarDeps W E) (ref : AddressRef) (newOwner : string)
  : prog W E (gres unit) :=
  let cid := refAddress ref in
  let ct := refType ref in
  switch ct
    ((λ '(t, op),
        (t, _ <-? ExecuteOperation op deps [VString cid; VString newOwner]; Ret (GVal tt))) <$> transfer_operations)
    (Ret (GErr ("stellar transfer ownership: unsupported contract type " +:+ Quote ct +:+ " for " +:+ cid))).

Definition accept_operations : list (string * Operation W E) :=
  [ (mcms_ContractType, mcms_AcceptOwnership enumerate);
    (offramp_ContractType, offramp_AcceptOwnership enumerate);
    (onramp_ContractType, onramp_AcceptOwnership enumerate);
    (router_ContractType, router_AcceptOwnership enumerate);
    (fee_quoter_ContractType, fee_quoter_AcceptOwnership enumerate);
    (rmn_remote_ContractType, rmn_remote_AcceptOwnership enumerate);
    (rmn_proxy_ContractType, rmn_proxy_AcceptOwnership enumerate);
    (ramp_registry_ContractType, ramp_registry_AcceptOwnership enumerate);
    (token_admin_registry_ContractType, token_admin_registry_AcceptOwnership enumerate);
    (committee_verifier_ContractType, committee_verifier_AcceptOwnership enumerate);
    (versioned_verifier_resolver_ContractType, versioned_verifier_resolver_AcceptOwnership enumerate);
    (lock_release_pool_ContractType, lock_release_pool_AcceptOwnership enumerate);
    (siloed_lock_release_pool_ContractType, siloed_lock_release_pool_AcceptOwnership enumerate);
    (burn_mint_pool_ContractType, burn_mint_pool_AcceptOwnership enumerate);
    (token_lock_box_ContractType, token_lock_box_AcceptOwnership enumerate);
    (ccip_receiver_ContractType, ccip_receiver_AcceptOwnership enumerate)].
Definition ExecuteAcceptOwnership (deps : StellarDeps W E) (ref : AddressRef) : prog W E (gres unit) :=
  let cid := refAddress ref in
  let ct := refType ref in
  switch ct
    ((λ '(t, op), (t, _ <-? ExecuteOperation op deps [VString cid]; Ret (GVal tt))) <$> accept_operations)
    (Ret (GErr ("stellar accept ownership: unsupported contract type " +:+ Quote ct +:+ " for " +:+ cid))).
End ownership.

(** ** [sequences/transfer_ownership.go] *)

(** [StellarTransferOwnershipInput]: the chain, the contracts, the proposed owner, and the
    timelock's address. *)
Record StellarTransferOwnershipInput := mkStellarTransferOwnershipInput {
  inChainSelector : Z;
  ContractRef : list AddressRef;
  ProposedOwner : string;
  GovernanceAddr : string
}.
Definition quoted (s : string) : string := String dquote (s +:+ String dquote EmptyString).
Definition stellarMCMSTxAdditionalFields : string :=
  "{" +:+ quoted "version" +:+ ":1," +:+ quoted "family" +:+ ":" +:+ quoted "stellar" +:+ "}".

(** [stellardeps.FromDeployer]. *)
Section deps.
Context {ST : SdkTypes} {SD : Sdk} {UT : UnicodeTables} {XS : XdrSdk} {HF : HostFunctions}
  {MS : MetaSdk} {RS : RpcSdk} {FC : FloatConv} {DS : DeployerSdk}.
Definition FromDeployer (d : Deployer.Deployer) : StellarDeps Deployer.DeployerState deploy_ext :=
  mkStellarDeps (Deployer.DeployContract d) (Deployer.deployer_invoker d).

(** The world of the sequences runs the calls of a deployer, whose own state starts as given. *)
Class Host (W : Type) (E : Type → Type) :=
  host : Deployer.DeployerState → StellarDeps Deployer.DeployerState deploy_ext → StellarDeps W E.
End deps.

Section sequences.
Context {ST : SdkTypes} {SD : Sdk} {UT : UnicodeTables} {XS : XdrSdk} {HF : HostFunctions}
  {MS : MetaSdk} {RS : RpcSdk} {FC : FloatConv} {DS : DeployerSdk} {SB : ScValBinary}.
Context (enumerate : list string → list string).
Context {W : Type} {E : Type → Type} {CF : Cldf W E} {HO : Host W E}.

(** The chain's deployer: its address, and the calls on its behalf. *)
Definition deployer_of (chains : BlockChains) (selector : Z) : gres (string * StellarDeps W E) :=
  match chains !! selector with
  | None => GErr ("stellar chain " +:+ pretty selector +:+ " not found in environment")
  | Some ch =>
      dep ← of_result (Deployer.NewDeployerFromChain (NetworkPassphrase ch) (ChainSigner ch) []);
      GVal (Deployer.SignerAddress (fst dep), host (snd dep) (FromDeployer (fst dep)))
  end.

(** A write executed by the deployer, and one left to the timelock. *)
Definition direct_write (selector : Z) (hash : string) : WriteOutput :=
  mkWriteOutput selector zeroTransaction (Some hash).
Definition governance_write (selector : Z) (ref : AddressRef) (data : bytes) : WriteOutput :=
  mkWriteOutput selector
    (mkTransaction (refType ref) (refAddress ref) data stellarMCMSTxAdditionalFields) None.

Section loops.
Context (deps : StellarDeps W E) (deployerAddr : string) (inp : StellarTransferOwnershipInput).

(** The write for one contract. *)
Definition transfer_write (ref : AddressRef) (owner : string) : prog W E (gres WriteOutput) :=
  if decide (owner = deployerAddr) then
    _ <-? gctx ("transfer ownership " +:+ refAddress ref)
            (ExecuteTransferOwnership enumerate deps ref (ProposedOwner inp));
    Ret (GVal (direct_write (inChainSelector inp) "stellar-direct-transfer"))
  else if decide (owner = GovernanceAddr inp) then
    Ret (data ← EncodeSorobanMCMSInvokePayload "transfer_ownership" [ScVal.AddressToScVal (ProposedOwner inp)];
         GVal (governance_write (inChainSelector inp) ref data))
  else
    Ret (GErr ("contract " +:+ refAddress ref +:+ " owner " +:+ Quote owner +:+ " is neither deployer " +:+
               Quote deployerAddr +:+ " nor governance " +:+ Quote (GovernanceAddr inp))).
Definition accept_write (ref : AddressRef) (owner : string) : prog W E (gres WriteOutput) :=
  if decide (ProposedOwner inp = deployerAddr) then
    _ <-? gctx ("accept ownership " +:+ refAddress ref) (ExecuteAcceptOwnership enumerate deps ref);
    Ret (GVal (direct_write (inChainSelector inp) "stellar-direct-accept"))
  else if decide (ProposedOwner inp = GovernanceAddr inp) then
    Ret (data ← EncodeSorobanMCMSInvokePayload "accept_ownership" [];
         GVal (governance_write (inChainSelector inp) ref data))
  else
    Ret (GErr ("accept routing: proposed owner " +:+ Quote (ProposedOwner inp) +:+ " must be deployer " +:+
               Quote deployerAddr +:+ " or governance " +:+ Quote (GovernanceAddr inp) +:+ " for " +:+
               refAddress ref)).

(** [for _, ref := range in.ContractRef]: the batches, in order. *)
Fixpoint owned_refs (write : AddressRef → string → prog W E (gres WriteOutput)) (refs : list AddressRef)
    (batchOps : list BatchOperation) : prog W E (gres OnChainOutput) :=
  match refs with
  | [] => Ret (GVal (mkOnChainOutput [] batchOps))
  | ref :: refs' =>
      owner <-? gctx ("read owner " +:+ refAddress ref) (ContractOwner enumerate deps ref);
      if decide (owner = ProposedOwner inp) then owned_refs write refs' batchOps
      else
        wo <-? write ref owner;
        batchOp <-? Ret (NewBatchOperationFromWrites [wo]);
        owned_refs write refs' (batchOps ++ [batchOp])
  end.
End loops.

Definition StellarTransferOwnershipViaMCMS : Sequence W E StellarTransferOwnershipInput OnChainOutput :=
  mkSequence "stellar-seq-transfer-ownership-via-mcms"
    "Transfers Soroban contract ownership via MCMS or deployer" (λ chains inp,
    dep <-? Ret (deployer_of chains (inChainSelector inp));
    owned_refs (snd dep) inp (transfer_write (snd dep) (fst dep) inp) (ContractRef inp) []).
Definition StellarAcceptOwnership : Sequence W E StellarTransferOwnershipInput OnChainOutput :=
  mkSequence "stellar-seq-accept-ownership"
    "Accepts Soroban contract ownership via MCMS or deployer" (λ chains inp,
    dep <-? Ret (deployer_of chains (inChainSelector inp));
    owned_refs (snd dep) inp (accept_write (snd dep) (fst dep) inp) (ContractRef inp) []).

(** ** [adapters/stellar_transfer_ownership_adapter.go] *)

(** The adapter's cache of timelock addresses. *)
Abbreviation StellarTransferOwnershipAdapter := (gmap Z string).

(** [TransferOwnershipPerChainInput]. *)
Record TransferOwnershipPerChainInput := mkTransferOwnershipPerChainInput {
  pcChainSelector : Z;
  pcContractRef : list AddressRef;
  pcProposedOwner : string
}.

(** [reader] is the registered MCMS reader, [selectors] the order in which the chains are
    enumerated; the cache keeps what was written before an error. *)
Fixpoint initialize_chains (GetTimelockRef : Z → gres AddressRef) (selectors : list Z)
    (a : StellarTransferOwnershipAdapter) : gres unit * StellarTransferOwnershipAdapter :=
  match selectors with
  | [] => (GVal tt, a)
  | sel :: selectors' =>
      match GetTimelockRef sel with
      | GVal tlRef =>
          if decide (refAddress tlRef = "") then
            (GErr ("empty timelock governance address for stellar chain " +:+ pretty sel), a)
          else initialize_chains GetTimelockRef selectors' (<[sel := refAddress tlRef]> a)
      | GErr e => (GErr e, a)
      | GPanic m => (GPanic m, a)
      end
  end.
Definition InitializeTimelockAddress (reader : option (Z → gres AddressRef)) (selectors : list Z)
    (a : StellarTransferOwnershipAdapter) : gres unit * StellarTransferOwnershipAdapter :=
  match reader with
  | None => (GErr "no MCMS reader registered for stellar", a)
  | Some GetTimelockRef => initialize_chains GetTimelockRef selectors a
  end.

Definition governance_of (a : StellarTransferOwnershipAdapter) (selector : Z) : gres string :=
  match a !! selector with
  | None => GErr ("governance address not initialized for chain " +:+ pretty selector)
  | Some gov => GVal gov
  end.
Definition ShouldAcceptOwnershipWithTransferOwnership (a : StellarTransferOwnershipAdapter)
    (chains : BlockChains) (inp : TransferOwnershipPerChainInput) : gres bool :=
  gov ← governance_of a (pcChainSelector inp);
  dep ← deployer_of chains (pcChainSelector inp);
  GVal (bool_decide (pcProposedOwner inp = gov) || bool_decide (pcProposedOwner inp = fst dep)).
Definition wrapOwnershipSequence (a : StellarTransferOwnershipAdapter)
    (inner : Sequence W E StellarTransferOwnershipInput OnChainOutput)
  : Sequence W E TransferOwnershipPerChainInput OnChainOutput :=
  mkSequence (seqID inner) (seqDescription inner) (λ chains inp,
    gov <-? Ret (governance_of a (pcChainSelector inp));
    ExecuteSequence inner chains
      (mkStellarTransferOwnershipInput (pcChainSelector inp) (pcContractRef inp) (pcProposedOwner inp) gov)).
Definition SequenceTransferOwnershipViaMCMS (a : StellarTransferOwnershipAdapter) :=
  wrapOwnershipSequence a StellarTransferOwnershipViaMCMS.
Definition SequenceAcceptOwnership (a : StellarTransferOwnershipAdapter) :=
  wrapOwnershipSequence a StellarAcceptOwnership.
End sequences.
End Ownership.
