(* ===== verification/OwnershipProps.v ===== *)
(** Properties of the ownership of the contracts: of the [Ownable] trait, of the two sequences
    and of their composition with the timelock that executes the batches. *)

From Stdlib Require Import Ascii.
From Stdlib Require Import Strings.Byte.
From stdpp Require Import base gmap list strings pretty.
From S2P Require Import Prelude GoStrings Config Float Prog Sdk TxStore Tx Xdr ScVal GoBytes ScValProps.
From S2P Require Import TypeConverters InvokerAdapter Ccv Bindings BindingsProps Codec Client Deployer Xdr Demo DemoCcv TypeConvertersProps.
From S2P Require Import DeployerProps ExtraArgs ExtraArgsProps Operations Ownership.
Import Xdr ScValProps CcvCommon BindingsProps ExtraArgsProps Ownership.Ownership.

Local Open Scope Z_scope.

Module OwnershipProps.

(** ** The trait *)

Section trait.
Import Ownable.

(** A transaction: who authorised it, and what it calls. One that fails has no effect. *)
Definition tx : Type := (string → bool) * message.
Definition step (st : Ownable) (t : tx) : Ownable :=
  match receive (fst t) (snd t) st with Ok st' => st' | Err _ => st end.
Definition run (st : Ownable) (txs : list tx) : Ownable := foldl step st txs.

Lemma run_snoc st txs t : run st (txs ++ [t]) = step (run st txs) t.
Proof. unfold run. by rewrite foldl_app. Qed.

(** What a transaction may do to an owned contract. *)
Lemma step_owned st t o : OWNER st = Some o →
  step st t = st ∨
  (∃ n, snd t = Transfer n ∧ fst t o = true ∧ step st t = mkOwnable (Some o) (Some n)) ∨
  (∃ n, snd t = Accept ∧ PENDING_OWNER st = Some n ∧ fst t n = true ∧ step st t = mkOwnable (Some n) None) ∨
  (snd t = Cancel ∧ fst t o = true ∧ step st t = mkOwnable (Some o) None) ∨
  (∃ n, snd t = SetNew n ∧ fst t o = true ∧ step st t = mkOwnable (Some n) (PENDING_OWNER st)).
Proof.
  intros Ho. destruct t as [auth m]. unfold step. cbn [fst snd]. destruct m as [n| | |n|n]; cbn [receive];
    unfold transfer_ownership, accept_ownership, cancel_ownership_transfer, set_new_owner, init_owner,
      require_owner, owner, require_auth; rewrite ?Ho.
  - destruct (auth o) eqn:Ha; [|by left]. right; left. eauto.
  - destruct (PENDING_OWNER st) as [n|] eqn:Hp; [|by left].
    destruct (auth n) eqn:Ha; [|by left]. right; right; left. eauto 6.
  - destruct (auth o) eqn:Ha; [|by left]. do 3 right; left. eauto.
  - destruct (auth o) eqn:Ha; [|by left]. do 4 right. eauto.
  - by left.
Qed.

Lemma run_owned st txs : is_Some (OWNER st) → is_Some (OWNER (run st txs)).
Proof.
  intros Hst. induction txs as [|t txs IH] using rev_ind; [done|]. rewrite run_snoc.
  destruct IH as [o Ho].
  by destruct (step_owned _ t o Ho) as [->|[(n & _ & _ & ->)|[(n & _ & _ & _ & ->)|[(_ & _ & ->)|(n & _ & _ & ->)]]]].
Qed.

(** The owner of the time named [n] as its successor, in one of the transactions. *)
Definition named (st : Ownable) (txs : list tx) (n : string) : Prop :=
  ∃ pre auth post o, txs = pre ++ (auth, Transfer n) :: post ∧
    OWNER (run st pre) = Some o ∧ auth o = true.

Lemma named_snoc st txs t n : named st txs n → named st (txs ++ [t]) n.
Proof.
  intros (pre & auth & post & o & -> & H). exists pre, auth, (post ++ [t]), o.
  by rewrite <- app_assoc.
Qed.

Lemma pending_named st txs n : is_Some (OWNER st) → PENDING_OWNER st = None →
  PENDING_OWNER (run st txs) = Some n → named st txs n.
Proof.
  intros Hst Hp. revert n. induction txs as [|t txs IH] using rev_ind; intros n; [by cbn [run foldl]; rewrite Hp|].
  rewrite run_snoc. destruct (run_owned st txs Hst) as [o Ho].
  destruct (step_owned _ t o Ho) as [->|[(m & Hm & Ha & ->)|[(m & _ & _ & _ & ->)|[(_ & _ & ->)|(m & _ & _ & ->)]]]];
    cbn [PENDING_OWNER]; try done.
  - intros H. by apply named_snoc, IH.
  - intros [= ->]. destruct t as [auth m]; cbn in *; subst m. by exists txs, auth, [], o.
  - intros H. by apply named_snoc, IH.
Qed.

(** C19. The consent of both parties. In any history of transactions on a contract that was
    initialised with an owner, there always is an owner; it changes only by a transaction that
    the owner itself authorised ([set_new_owner]), or by one that the new owner authorised
    ([accept_ownership]) after the owner of an earlier time had authorised naming it. *)
Theorem ownable_consent st txs t :
  is_Some (OWNER st) → PENDING_OWNER st = None →
  ∃ o o', OWNER (run st txs) = Some o ∧ OWNER (run st (txs ++ [t])) = Some o' ∧
    (o ≠ o' →
       (snd t = SetNew o' ∧ fst t o = true) ∨
       (snd t = Accept ∧ fst t o' = true ∧ named st txs o')).
Proof.
  intros Hst Hp. destruct (run_owned st txs Hst) as [o Ho]. exists o.
  rewrite run_snoc. destruct (step_owned _ t o Ho) as
    [->|[(n & _ & _ & ->)|[(n & Hm & Hn & Ha & ->)|[(_ & _ & ->)|(n & Hm & Ha & ->)]]]].
  - by exists o.
  - by exists o.
  - exists n. split_and!; [done..|]. intros _. right. split_and!; [done..|]. by apply pending_named.
  - by exists o.
  - exists n. split_and!; [done..|]. by left.
Qed.

(** A direct transfer does not end a two-step one: whoever was pending when the owner
    handed the contract to [n] can still take it from [n], without [n]'s consent. *)
Theorem set_new_owner_keeps_pending st o n p auth auth' :
  OWNER st = Some o → PENDING_OWNER st = Some p → auth o = true → auth' p = true →
  OWNER (run st [(auth, SetNew n)]) = Some n ∧
  OWNER (run st [(auth, SetNew n); (auth', Accept)]) = Some p.
Proof.
  intros Ho Hp Ha Ha'. unfold run, step. cbn [foldl fst snd receive].
  unfold set_new_owner, require_owner, owner, require_auth. rewrite Ho, Ha. cbn [OWNER].
  split; [done|]. unfold accept_ownership, require_auth. cbn [PENDING_OWNER]. by rewrite Hp, Ha'.
Qed.
End trait.

(** ** The world of the sequences *)

Section sequences.
Context {ST : SdkTypes} {SD : Sdk} {UT : UnicodeTables} {XS : XdrSdk} {XL : XdrLaws} {HF : HostFunctions}
  {MS : MetaSdk} {RS : RpcSdk} {FC : FloatConv} {DS : DeployerSdk} {SB : ScValBinary} {SBL : ScValBinaryLaws}.
Context (enumerate : list string → list string).
Context {W : Type} {E : Type → Type} {CF : Cldf W E} {HO : Host W E}.

(** The chain's deployer, the calls on its behalf, and its address. *)
Context (d : Deployer.Deployer) (s : Deployer.DeployerState).
Let deps : StellarDeps W E := host s (FromDeployer d).
Let dep : string := Deployer.SignerAddress d.

Definition by_only (addr : string) : string → bool := λ a, bool_decide (a = addr).
Definition owner_at (L : Ownable.ledger) (id : string) : option string := L !! id ≫= Ownable.OWNER.

(** The contracts on chain, the successful reports of the framework by operation and input,
    and what the outside may answer. *)
Class World := {
  chain_of : W → Ownable.ledger;
  reports : W → string → list value → option (list value);
  answers : ∀ X, E X → X → Prop
}.

(** Documented behaviour: a simulation changes nothing; a transaction that the network
    confirms had its effect, with the deployer's authorisation, and one whose submission failed
    may have had it; the framework returns an earlier report of the same operation and input,
    or runs the handler and reports what succeeds; a batch holds the writes that are not
    executed yet. *)
Class WorldLaws `{World} : Prop := {
  simulate_owner contractID w :
    returns answers (SimulateCall (Invoker := depsInvoker (host s (FromDeployer d))) contractID "owner" []) w
      (λ r w', w' = w ∧
         match r with
         | GVal v => ∃ st, chain_of w !! contractID = Some st ∧
                      v = Some (ScVal.OptionalAddressToScVal (Ownable.OWNER st))
         | GErr _ => True
         | GPanic _ => False
         end);
  invoke_ownable contractID functionName args w : is_Some (Ownable.message_of functionName args) →
    let effect := Ownable.invoke (by_only (Deployer.SignerAddress d)) (chain_of w) contractID functionName args in
    returns answers
      (Invoke (Invoker := depsInvoker (host s (FromDeployer d))) contractID functionName args) w
      (λ r w', reports w' = reports w ∧
         match r with
         | GVal _ => effect = Some (chain_of w')
         | GErr _ => chain_of w' = chain_of w ∨ effect = Some (chain_of w')
         | GPanic _ => False
         end);
  execute_reported op inp out w : reports w (opID op) inp = Some out →
    returns answers (ExecuteOperation op (host s (FromDeployer d)) inp) w (λ r w', r = GVal out ∧ w' = w);
  execute_runs op inp w P : reports w (opID op) inp = None →
    returns answers (opHandler op (host s (FromDeployer d)) inp) w P →
    returns answers (ExecuteOperation op (host s (FromDeployer d)) inp) w (λ r w', ∃ r0 w0, P r0 w0 ∧ chain_of w' = chain_of w0 ∧
      match r with
      | GVal out => r0 = GVal out ∧ reports w' (opID op) inp = Some out ∧
                    ∀ i x, (i, x) ≠ (opID op, inp) → reports w' i x = reports w0 i x
      | GErr _ => reports w' = reports w0
      | GPanic m => r0 = GPanic m
      end);
  batch_of_write wo : ∃ b, NewBatchOperationFromWrites [wo] = GVal b ∧
    Transactions b = match ExecInfo wo with Some _ => [] | None => [woTx wo] end
}.
Context {WO : World} {WL : WorldLaws}.

(** ** What the dispatch calls *)

Definition supported (ct : string) : Prop := ct ∈ fst <$> owner_clients enumerate (W := W) (E := E).

Lemma switch_spec {A B} (x : string) (f : string * A → string * B) cases (otherwise : B) :
  (∀ c, fst (f c) = fst c) →
  (∃ a, (x, a) ∈ cases ∧ switch x (f <$> cases) otherwise = snd (f (x, a))) ∨
  (x ∉ fst <$> cases ∧ switch x (f <$> cases) otherwise = otherwise).
Proof.
  intros Hf. induction cases as [|[c a] cases IH]; [right; split; [by inversion 1|done]|].
  cbn [fmap list_fmap switch]. destruct (f (c, a)) as [c' b] eqn:Ec.
  assert (c' = c) as -> by (change c' with (fst (c', b)); rewrite <- Ec; apply (Hf (c, a))).
  destruct (decide (x = c)) as [->|Hne].
  - left. exists a. split; [by left|]. by rewrite Ec.
  - destruct IH as [(a' & Hin & ->)|[Hout ->]]; [left; exists a'; split; [by right|done]|right].
    split; [by intros [?|?]%elem_of_cons|done].
Qed.

Lemma owner_client_calls t client : (t, client) ∈ owner_clients enumerate (W := W) (E := E) → ∀ deps cid,
  client deps cid [] =
    (result <-? gctx "failed to call owner" (SimulateCall (Invoker := depsInvoker deps) cid "owner" []);
     Ret (Client.results_of (λ _, None) McmsClient.owner result)).
Proof.
  intros Hin deps' cid. unfold owner_clients in Hin.
  repeat (apply elem_of_cons in Hin as [[= -> ->]|Hin]; [reflexivity|]). by inversion Hin.
Qed.

Lemma transfer_operation_calls t op : (t, op) ∈ transfer_operations enumerate (W := W) (E := E) → ∀ deps cid new_owner,
  opHandler op deps [VString cid; VString new_owner] =
    (result <-? gctx "failed to call transfer_ownership"
                  (Invoke (Invoker := depsInvoker deps) cid "transfer_ownership" [ScVal.AddressToScVal new_owner]);
     Ret (GVal [])).
Proof.
  intros Hin deps' cid new_owner. unfold transfer_operations in Hin.
  repeat (apply elem_of_cons in Hin as [[= -> ->]|Hin]; [reflexivity|]). by inversion Hin.
Qed.

Lemma accept_operation_calls t op : (t, op) ∈ accept_operations enumerate (W := W) (E := E) → ∀ deps cid,
  opHandler op deps [VString cid] =
    (result <-? gctx "failed to call accept_ownership"
                  (Invoke (Invoker := depsInvoker deps) cid "accept_ownership" []);
     Ret (GVal [])).
Proof.
  intros Hin deps' cid. unfold accept_operations in Hin.
  repeat (apply elem_of_cons in Hin as [[= -> ->]|Hin]; [reflexivity|]). by inversion Hin.
Qed.

(** The three switches have the same cases. *)
Lemma same_cases :
  (fst <$> transfer_operations enumerate (W := W) (E := E)) = (fst <$> owner_clients enumerate (W := W) (E := E)) ∧
  (fst <$> accept_operations enumerate (W := W) (E := E)) = (fst <$> owner_clients enumerate (W := W) (E := E)).
Proof. by split. Qed.

(** ** Reading the owner *)

(** The addresses on chain are those of the network. *)
Definition owners_valid (L : Ownable.ledger) : Prop := ∀ id o, owner_at L id = Some o → is_strkey o.

Lemma owner_result o : (∀ a, o = Some a → is_strkey a) →
  Client.results_of (λ _, None) McmsClient.owner (Some (ScVal.OptionalAddressToScVal o)) =
  GVal [VOptString o].
Proof.
  intros Ho. destruct o as [a|]; [|done].
  change (Client.results_of _ _ _) with
    (v ← VOptString <$> (a ← ScVal.AddressFromScVal (ScVal.AddressToScVal a); GVal (Some a)); GVal [v]).
  by rewrite address_there_and_back by auto.
Qed.


Lemma contract_owner_read ref w : owners_valid (chain_of w) →
  returns answers (ContractOwner enumerate deps ref) w (λ r w', w' = w ∧
    match r with
    | GVal o => owner_at (chain_of w) (refAddress ref) = Some o ∧ supported (refType ref)
    | GErr e =>
        supported (refType ref) ∨
        e = "stellar ownership: unsupported contract type " +:+ Quote (refType ref) +:+ " for " +:+ refAddress ref
    | GPanic _ => False
    end).
Proof.
  intros Hv. unfold ContractOwner.
  match goal with |- returns _ (switch _ (?f <$> _) ?b) _ _ =>
    destruct (switch_spec (refType ref) f (owner_clients enumerate) b ltac:(by intros [])) as [(c & Hc & ->)|[Hc ->]]
  end; [|split; [done|by right]].
  assert (supported (refType ref)) as Hs by (apply list_elem_of_fmap; by exists (refType ref, c)).
  cbn [snd]. rewrite (owner_client_calls _ _ Hc).
  apply (returns_gthen _ _ _ _ (λ r w', w' = w ∧
    match r with
    | GVal l => ∃ st, chain_of w !! refAddress ref = Some st ∧ l = [VOptString (Ownable.OWNER st)]
    | GErr _ => True
    | GPanic _ => False
    end)).
  - eapply returns_gctx_gthen; [apply simulate_owner|].
    intros [v|e|m] w' [-> Hr]; [|by split|done]. destruct Hr as (st & Hst & ->).
    cbn [returns]. split; [done|]. rewrite owner_result; [eauto|].
    intros o Ho. apply (Hv (refAddress ref)). unfold owner_at. by rewrite Hst.
  - intros [l|e|m] w' [-> Hr]; [|by split; [|left]|done].
    destruct Hr as (st & Hst & ->). cbn [returns]. split; [done|].
    unfold owner_at. rewrite Hst. cbn [mbind option_bind].
    destruct (Ownable.OWNER st); cbn; [done|by left].
Qed.

(** ** Writing *)

Context (p : string) (Hp : is_strkey p).

(** What the framework reported already is so: the transfers to [p] are pending or done, and
    the acceptances done. In a fresh bundle there are no reports. *)
Definition reports_sound (w : W) : Prop :=
  (∀ t op id out, (t, op) ∈ transfer_operations enumerate (W := W) (E := E) →
     reports w (opID op) [VString id; VString p] = Some out →
     ∃ st, chain_of w !! id = Some st ∧ (Ownable.PENDING_OWNER st = Some p ∨ Ownable.OWNER st = Some p)) ∧
  (∀ t op id out, (t, op) ∈ accept_operations enumerate (W := W) (E := E) →
     reports w (opID op) [VString id] = Some out → owner_at (chain_of w) id = Some p).

(** A contract whose transfer to [p] is pending, and one that [p] owns. *)
Definition offered (o : string) : Ownable.Ownable := Ownable.mkOwnable (Some o) (Some p).
Definition settled : Ownable.Ownable := Ownable.mkOwnable (Some p) None.

Lemma invoke_transfer auth L id st o :
  L !! id = Some st → Ownable.OWNER st = Some o → auth o = true →
  Ownable.invoke auth L id "transfer_ownership" [ScVal.AddressToScVal p] = Some (<[id := offered o]> L).
Proof.
  intros Hst Ho Ha. unfold Ownable.invoke, Ownable.message_of.
  rewrite Hst, decide_True, address_there_and_back by done. cbn [mbind option_bind Ownable.receive].
  unfold Ownable.transfer_ownership, Ownable.require_owner, Ownable.owner, Ownable.require_auth.
  by rewrite Ho, Ha.
Qed.

Lemma invoke_accept auth L L' id :
  Ownable.invoke auth L id "accept_ownership" [] = Some L' →
  ∃ st n, L !! id = Some st ∧ Ownable.PENDING_OWNER st = Some n ∧ auth n = true ∧
    L' = <[id := Ownable.mkOwnable (Some n) None]> L.
Proof.
  unfold Ownable.invoke, Ownable.message_of. destruct (L !! id) as [st|] eqn:Hst; [|done].
  rewrite decide_False, decide_True by done. cbn [mbind option_bind Ownable.receive].
  unfold Ownable.accept_ownership, Ownable.require_auth.
  destruct (Ownable.PENDING_OWNER st) as [n|] eqn:Hn; [|done].
  destruct (auth n) eqn:Ha; [|done]. intros [= <-]. by exists st, n.
Qed.

(** A write to one contract that leaves the reports sound; [inp] is reported on the way. *)
Lemma reports_sound_step w w' id st' inp :
  reports_sound w → (∀ i x, x ≠ inp → reports w' i x = reports w i x) →
  chain_of w' = <[id := st']> (chain_of w) →
  (Ownable.PENDING_OWNER st' = Some p ∧ Ownable.OWNER st' = owner_at (chain_of w) id ∧
     inp = [VString id; VString p]) ∨
  (Ownable.OWNER st' = Some p ∧ inp = [VString id]) →
  reports_sound w'.
Proof.
  intros [H1 H2] Hr Hc Hst'. split; intros t op id' out Hin; rewrite Hc; intros Ho.
  - destruct (decide (id = id')) as [<-|Hne].
    + exists st'. rewrite lookup_insert_eq. split; [done|]. destruct Hst' as [(? & _)|(? & _)]; auto.
    + rewrite Hr in Ho by (intros Hx; destruct Hst' as [(_ & _ & ?)|(_ & ?)]; congruence).
      destruct (H1 t op id' out Hin Ho) as (st & Hst & Hd). exists st. by rewrite lookup_insert_ne.
  - destruct (decide (id = id')) as [<-|Hne]; unfold owner_at in *.
    + rewrite lookup_insert_eq. cbn. destruct Hst' as [(_ & Hst' & Hi)|(? & _)]; [|done].
      rewrite Hr in Ho by (intros Hx; congruence). rewrite Hst'. exact (H2 t op id out Hin Ho).
    + rewrite lookup_insert_ne by done. rewrite Hr in Ho; [exact (H2 t op id' out Hin Ho)|].
      intros Hx. destruct Hst' as [(_ & _ & ?)|(_ & ?)]; congruence.
Qed.

(** What the timelock does leaves them sound. *)
Lemma reports_sound_timelock w1 w2 L2 gov : reports_sound w1 → chain_of w2 = L2 → reports w2 = reports w1 →
  (∀ id, L2 !! id = chain_of w1 !! id ∨
         L2 !! id = Some (offered gov) ∧ owner_at (chain_of w1) id = Some gov) →
  reports_sound w2.
Proof.
  intros [H1 H2] Hc Hr HL. split; intros t op id out Hin Ho; rewrite Hr in Ho; rewrite Hc.
  - destruct (HL id) as [->|[-> _]]; [exact (H1 _ _ _ _ Hin Ho)|]. exists (offered gov). split; [done|by left].
  - unfold owner_at. destruct (HL id) as [->|[-> Hg]]; [exact (H2 _ _ _ _ Hin Ho)|].
    pose proof (H2 _ _ _ _ Hin Ho) as Hown. by rewrite Hg in Hown.
Qed.

(** An operation that is not reported yet, and whose handler is one call. *)
Lemma execute_invocation op inp ctx cid fn args w :
  opHandler op deps inp = (result <-? gctx ctx (Invoke (Invoker := depsInvoker deps) cid fn args); Ret (GVal [])) →
  is_Some (Ownable.message_of fn args) → reports w (opID op) inp = None →
  let effect := Ownable.invoke (by_only dep) (chain_of w) cid fn args in
  returns answers (ExecuteOperation op deps inp) w (λ r w',
    match r with
    | GVal _ => effect = Some (chain_of w') ∧ ∀ i x, x ≠ inp → reports w' i x = reports w i x
    | GErr _ => chain_of w' = chain_of w ∨ effect = Some (chain_of w')
    | GPanic _ => False
    end).
Proof.
  intros Hh Hm Hn effect.
  set (called (X : Type) := λ (r : gres X) w', reports w' = reports w ∧
    match r with
    | GVal _ => effect = Some (chain_of w')
    | GErr _ => chain_of w' = chain_of w ∨ effect = Some (chain_of w')
    | GPanic _ => False
    end).
  assert (returns answers (opHandler op deps inp) w (called _)) as Hcall.
  { rewrite Hh. eapply (returns_gctx_gthen _ _ _ _ _ (called _)); [by apply invoke_ownable|].
    intros [v|e|m] w' H; [exact H..|by destruct H]. }
  eapply returns_mono; [|exact (execute_runs _ _ _ _ Hn Hcall)].
  intros r w' (r0 & w0 & [Hr0 H0] & Hc & Hr). destruct r as [out|e|m].
  - destruct Hr as (-> & _ & Hrest). rewrite Hc. split; [exact H0|].
    intros i x Hx. rewrite Hrest by congruence. by rewrite Hr0.
  - rewrite Hc. destruct r0; [by right|done..].
  - by subst r0.
Qed.

(** The switch finds the operation of the type. *)
Lemma operation_found (table : list (string * Operation W E)) (f : Operation W E → prog W E (gres unit)) ct otherwise :
  (fst <$> table) = (fst <$> owner_clients enumerate (W := W) (E := E)) → supported ct →
  ∃ op, (ct, op) ∈ table ∧ switch ct ((λ '(t, op), (t, f op)) <$> table) otherwise = f op.
Proof.
  intros Ht Hs.
  destruct (switch_spec ct (λ '(t, op), (t, f op)) table otherwise ltac:(by intros [])) as [(op & Hop & Heq)|[Hout _]].
  - by exists op.
  - by rewrite Ht in Hout.
Qed.

Lemma execute_transfer ref st w :
  supported (refType ref) → chain_of w !! refAddress ref = Some st → Ownable.OWNER st = Some dep → dep ≠ p →
  reports_sound w →
  returns answers (ExecuteTransferOwnership enumerate deps ref p) w (λ r w',
    let done := <[refAddress ref := offered dep]> (chain_of w) in
    match r with
    | GVal _ => chain_of w' = done ∧ reports_sound w'
    | GErr _ => chain_of w' = chain_of w ∨ chain_of w' = done
    | GPanic _ => False
    end).
Proof.
  intros Hs Hst Ho Hne Hsound. unfold ExecuteTransferOwnership.
  destruct (operation_found (transfer_operations enumerate)
    (λ op, _ <-? ExecuteOperation op deps [VString (refAddress ref); VString p]; Ret (GVal tt))
    (refType ref) (Ret (GErr ("stellar transfer ownership: unsupported contract type " +:+ Quote (refType ref) +:+
       " for " +:+ refAddress ref))) (proj1 same_cases) Hs) as (op & Hop & ->).
  set (done := <[_ := _]> _). set (inp := [VString _; VString p]).
  apply (returns_gthen _ _ _ _ (λ r w', match r with
    | GVal _ => chain_of w' = done ∧ reports_sound w'
    | GErr _ => chain_of w' = chain_of w ∨ chain_of w' = done
    | GPanic _ => False
    end)); [|by intros [?|?|?] w' H].
  destruct (reports w (opID op) inp) as [out|] eqn:Hrep.
  - eapply returns_mono; [|by eapply execute_reported]. intros r w' [-> ->]. split; [|done].
    destruct (proj1 Hsound _ _ _ _ Hop Hrep) as (st' & Hst' & Hd). simplify_eq.
    symmetry. apply insert_id. rewrite Hst. destruct st as [o q]; cbn in *.
    unfold offered. destruct Hd as [->|Hd]; [by rewrite Ho|]. destruct Hne. congruence.
  - eapply returns_mono; [|apply (execute_invocation op inp _ _ _ _ w (transfer_operation_calls _ _ Hop _ _ _)); [|done]].
    + cbn zeta. rewrite (invoke_transfer _ _ _ st dep Hst Ho) by (by apply bool_decide_eq_true). fold done.
      intros [out|e|m] w' H; [|by destruct H as [H|[= H]]; [left|right]|done].
      destruct H as [[= H] Hr]. split; [done|].
      apply (reports_sound_step w w' (refAddress ref) (offered dep) inp); [done..|].
      left. split_and!; [done| |done]. unfold owner_at. by rewrite Hst.
    + unfold Ownable.message_of. rewrite decide_True, address_there_and_back by done. eauto.
Qed.

Lemma execute_accept ref w :
  supported (refType ref) → owner_at (chain_of w) (refAddress ref) ≠ Some p → dep = p →
  reports_sound w →
  returns answers (ExecuteAcceptOwnership enumerate deps ref) w (λ r w',
    let pending := chain_of w !! refAddress ref ≫= Ownable.PENDING_OWNER in
    let done := <[refAddress ref := settled]> (chain_of w) in
    match r with
    | GVal _ => chain_of w' = done ∧ pending = Some p ∧ reports_sound w'
    | GErr _ => chain_of w' = chain_of w ∨ (chain_of w' = done ∧ pending = Some p)
    | GPanic _ => False
    end).
Proof.
  intros Hs Ho Hdep Hsound. unfold ExecuteAcceptOwnership.
  destruct (operation_found (accept_operations enumerate)
    (λ op, _ <-? ExecuteOperation op deps [VString (refAddress ref)]; Ret (GVal tt))
    (refType ref) (Ret (GErr ("stellar accept ownership: unsupported contract type " +:+ Quote (refType ref) +:+
       " for " +:+ refAddress ref))) (proj2 same_cases) Hs) as (op & Hop & ->).
  set (pending := _ ≫= _). set (done := <[_ := _]> _). set (inp := [VString _]).
  assert (∀ L', Ownable.invoke (by_only dep) (chain_of w) (refAddress ref) "accept_ownership" [] = Some L' →
                L' = done ∧ pending = Some p) as Heff.
  { intros L' HL. destruct (invoke_accept _ _ _ _ HL) as (st & n & Hst & Hn & Ha & ->).
    apply bool_decide_eq_true in Ha. subst n pending done. rewrite Hst. unfold settled. by rewrite <- Hdep. }
  destruct (reports w (opID op) inp) as [out|] eqn:Hrep.
  { destruct Ho. exact (proj2 Hsound _ _ _ _ Hop Hrep). }
  apply (returns_gthen _ _ _ _ (λ r w', match r with
    | GVal _ => chain_of w' = done ∧ pending = Some p ∧ reports_sound w'
    | GErr _ => chain_of w' = chain_of w ∨ (chain_of w' = done ∧ pending = Some p)
    | GPanic _ => False
    end)); [|by intros [?|?|?] w' H].
  eapply returns_mono; [|apply (execute_invocation op inp _ _ _ _ w (accept_operation_calls _ _ Hop _ _)); [|done]].
  - cbn zeta. intros [out|e|m] w' H; [|destruct H as [H|H]; [by left|right; by apply Heff]|done].
    destruct H as [H Hr]. destruct (Heff _ H) as [Hc Hpend]. split_and!; [done..|].
    apply (reports_sound_step w w' (refAddress ref) settled inp); [done..|]. by right.
  - by eexists.
Qed.

(** ** The loop over the contracts *)

(** What the timelock has to execute, in order: the target and the payload. *)
Definition calls_of (bs : list BatchOperation) : list (string * bytes) :=
  (λ t, (txTo t, txData t)) <$> (bs ≫= Transactions).
Lemma calls_of_snoc bs b : calls_of (bs ++ [b]) = calls_of bs ++ ((λ t, (txTo t, txData t)) <$> Transactions b).
Proof. unfold calls_of. by rewrite bind_app, fmap_app, bind_singleton. Qed.

Lemma owned_refs_returns inp write (P : list AddressRef → list BatchOperation → W → Prop) (Perr : W → Prop)
    refs done acc w :
  (∀ done acc w, P done acc w → Perr w ∧ owners_valid (chain_of w)) →
  (∀ done ref acc w owner, P done acc w → ref ∈ refs → supported (refType ref) →
     owner_at (chain_of w) (refAddress ref) = Some owner →
     (owner = ProposedOwner inp → P (done ++ [ref]) acc w) ∧
     (owner ≠ ProposedOwner inp →
        returns answers (write ref owner) w (λ r w', match r with
          | GVal wo => ∀ b, NewBatchOperationFromWrites [wo] = GVal b →
                       Transactions b = match ExecInfo wo with Some _ => [] | None => [woTx wo] end →
                       P (done ++ [ref]) (acc ++ [b]) w'
          | GErr _ => Perr w'
          | GPanic _ => False
          end))) →
  P done acc w →
  returns answers (owned_refs enumerate deps inp write refs acc) w (λ r w', match r with
    | GVal out => Addresses out = [] ∧ P (done ++ refs) (BatchOps out) w'
    | GErr _ => Perr w'
    | GPanic _ => False
    end).
Proof.
  intros HP Hw. revert done acc w. induction refs as [|ref refs IH]; intros done acc w H; cbn [owned_refs].
  { cbn [returns BatchOps Addresses]. by rewrite app_nil_r. }
  destruct (HP _ _ _ H) as [Herr Hv].
  eapply returns_gctx_gthen; [by apply contract_owner_read|].
  intros [owner|e|m] w' [-> Ho]; [|done..]. destruct Ho as [Ho Hs].
  destruct (Hw done ref acc w owner H ltac:(left) Hs Ho) as [Hsame Hdiff].
  assert (∀ acc' w', P (done ++ [ref]) acc' w' → returns answers (owned_refs enumerate deps inp write refs acc') w'
    (λ r w', match r with
      | GVal out => Addresses out = [] ∧ P (done ++ ref :: refs) (BatchOps out) w'
      | GErr _ => Perr w'
      | GPanic _ => False
      end)) as Hrest.
  { intros acc' w' H'. change (ref :: refs) with ([ref] ++ refs). rewrite app_assoc. apply IH; [|done].
    intros d' r' a' v' o' HP' Hin. apply (Hw d' r' a' v' o' HP'). by right. }
  destruct (decide (owner = ProposedOwner inp)) as [Heq|Hne]; [by apply Hrest, Hsame|].
  eapply returns_gthen; [by apply Hdiff|].
  intros [wo|e|m] w' Hwo; [|done..].
  destruct (batch_of_write wo) as (b & Hb & Ht). rewrite Hb. cbn [gthen mbind prog_mbind prog_bind].
  by apply Hrest, Hwo.
Qed.

(** ** The transfer *)

Section transfer.
Context (inp : StellarTransferOwnershipInput) (Hinp : ProposedOwner inp = p).
Let gov : string := GovernanceAddr inp.
Context (L0 : gmap string Ownable.Ownable) (HL0 : owners_valid L0).

Definition addrs (refs : list AddressRef) : list string := refAddress <$> refs.

(** The contracts that the deployer owns are offered; nothing else changes. *)
Definition transfer_state (refs : list AddressRef) (L : gmap string Ownable.Ownable) : Prop :=
  ∀ id, L !! id =
    if decide (id ∈ addrs refs ∧ owner_at L0 id = Some dep ∧ dep ≠ p) then Some (offered dep) else L0 !! id.
(** The timelock is asked for the transfer of those that it owns. *)
Definition transfer_calls (data : bytes) (refs : list AddressRef) : list (string * bytes) :=
  (λ id, (id, data)) <$> filter (λ id, owner_at L0 id = Some gov ∧ gov ≠ p ∧ gov ≠ dep) (addrs refs).
(** Whatever happens, nobody loses or gains a contract, and the contracts that are not listed
    are not touched. *)
Definition untouched (L : gmap string Ownable.Ownable) : Prop :=
  ∀ id, owner_at L id = owner_at L0 id ∧ (id ∉ addrs (ContractRef inp) → L !! id = L0 !! id).

Lemma transfer_state_owner refs L id : transfer_state refs L → owner_at L id = owner_at L0 id.
Proof.
  intros HL. unfold owner_at. rewrite HL. destruct (decide _) as [(_ & Ho & _)|_]; [|done].
  unfold owner_at in Ho. by rewrite Ho.
Qed.
Lemma transfer_state_untouched refs L : refs ⊆ ContractRef inp → transfer_state refs L → untouched L.
Proof.
  intros Hsub HL id. split; [by eapply transfer_state_owner|]. intros Hid. rewrite HL.
  rewrite decide_False; [done|]. intros [Hin _]. destruct Hid. unfold addrs in *.
  apply list_elem_of_fmap in Hin as (ref & -> & Hin). apply list_elem_of_fmap. eauto.
Qed.
Lemma transfer_state_skip refs ref L owner : owner_at L0 (refAddress ref) = Some owner →
  owner ≠ dep ∨ dep = p → transfer_state refs L → transfer_state (refs ++ [ref]) L.
Proof.
  intros Ho Hne HL id. rewrite HL. apply decide_ext. unfold addrs. rewrite fmap_app, elem_of_app.
  cbn [fmap list_fmap]. rewrite list_elem_of_singleton. split; [tauto|].
  intros ([?| ->] & Hd & Hdp); [done|]. destruct Hne; congruence.
Qed.
Lemma transfer_state_direct refs ref L : owner_at L0 (refAddress ref) = Some dep → dep ≠ p →
  transfer_state refs L → transfer_state (refs ++ [ref]) (<[refAddress ref := offered dep]> L).
Proof.
  intros Ho Hne HL id. unfold addrs. rewrite fmap_app.
  destruct (decide (refAddress ref = id)) as [<-|Hid].
  - rewrite lookup_insert_eq, decide_True; [done|]. split_and!; [|done..].
    apply elem_of_app. right. by left.
  - rewrite lookup_insert_ne, HL by done. apply decide_ext. rewrite elem_of_app. cbn [fmap list_fmap].
    rewrite list_elem_of_singleton. naive_solver.
Qed.
Lemma transfer_calls_snoc data refs ref owner : owner_at L0 (refAddress ref) = Some owner →
  transfer_calls data (refs ++ [ref]) = transfer_calls data refs ++
    (if decide (owner = gov ∧ gov ≠ p ∧ gov ≠ dep) then [(refAddress ref, data)] else []).
Proof.
  intros Ho. unfold transfer_calls, addrs. rewrite fmap_app, filter_app, fmap_app. f_equal.
  cbn [fmap list_fmap]. destruct (decide _) as [(-> & ? & ?)|Hno].
  - by rewrite filter_cons_True.
  - rewrite filter_cons_False; [done|]. intros (Hg & ?). apply Hno. split; [congruence|done].
Qed.

Lemma transfer_loop data w :
  EncodeSorobanMCMSInvokePayload "transfer_ownership" [ScVal.AddressToScVal p] = GVal data →
  chain_of w = L0 → reports_sound w →
  returns answers (owned_refs enumerate deps inp (transfer_write enumerate deps dep inp) (ContractRef inp) []) w
    (λ r w', match r with
     | GVal out => Addresses out = [] ∧ reports_sound w' ∧ transfer_state (ContractRef inp) (chain_of w') ∧
         calls_of (BatchOps out) = transfer_calls data (ContractRef inp) ∧
         Forall (λ id, ∃ o, owner_at L0 id = Some o ∧ (o = p ∨ o = dep ∨ o = gov)) (addrs (ContractRef inp))
     | GErr _ => untouched (chain_of w')
     | GPanic _ => False
     end).
Proof.
  intros Hdata HL Hsound.
  set (P := λ done bs w', done ⊆ ContractRef inp ∧ reports_sound w' ∧ transfer_state done (chain_of w') ∧
    calls_of bs = transfer_calls data done ∧
    Forall (λ id, ∃ o, owner_at L0 id = Some o ∧ (o = p ∨ o = dep ∨ o = gov)) (addrs done)).
  eapply returns_mono; [|apply (owned_refs_returns inp _ P (λ w', untouched (chain_of w')) (ContractRef inp) [] [] w)].
  - intros [out|e|m] w' H; [|done..]. destruct H as (Ha & _ & H). by split.
  - intros done acc w' (Hsub & _ & HT & _). split; [by eapply transfer_state_untouched|].
    intros id o. rewrite (transfer_state_owner _ _ _ HT). apply HL0.
  - intros done ref acc w' owner (Hsub & Hs & HT & Hc & Hf) Hin Hsup Ho.
    assert (owner_at L0 (refAddress ref) = Some owner) as Ho0 by (by rewrite <- (transfer_state_owner _ _ _ HT)).
    assert (done ++ [ref] ⊆ ContractRef inp) as Hsub'.
    { intros x [?|Hx]%elem_of_app; [auto|]. by apply list_elem_of_singleton in Hx as ->. }
    assert (∀ o, o = p ∨ o = dep ∨ o = gov → owner = o → Forall (λ id, ∃ o, owner_at L0 id = Some o ∧
              (o = p ∨ o = dep ∨ o = gov)) (addrs (done ++ [ref]))) as Hf'.
    { intros o Hd ->. unfold addrs. rewrite fmap_app. apply Forall_app. split; [done|].
      constructor; [eauto|constructor]. }
    split.
    + rewrite Hinp. intros ->. split_and!; [done|done| | |by apply (Hf' p); [left|]].
      * eapply transfer_state_skip; [done| |done]. destruct (decide (dep = p)); [by right|left; congruence].
      * rewrite (transfer_calls_snoc _ _ _ _ Ho0), decide_False, app_nil_r by naive_solver. done.
    + rewrite Hinp. intros Hne. unfold transfer_write. rewrite Hinp.
      destruct (decide (owner = dep)) as [->|Hnd]; [|destruct (decide (owner = GovernanceAddr inp)) as [->|Hng]].
      * unfold owner_at in Ho. destruct (chain_of w' !! refAddress ref) as [st|] eqn:Hst; [|done].
        eapply returns_gctx_gthen; [by apply (execute_transfer ref st)|]. cbn zeta.
        intros [u|e|m] w2 H; [|cbn beta iota; destruct H as [->| ->]|done].
        -- destruct H as [Hw2 Hs2]. cbn [returns]. intros b Hb Ht. split_and!; [done|done| | |by apply (Hf' dep); [right; left|]].
           ++ rewrite Hw2. by apply transfer_state_direct.
           ++ rewrite calls_of_snoc, Ht. cbn [direct_write ExecInfo fmap list_fmap].
              rewrite (transfer_calls_snoc _ _ _ _ Ho0), decide_False by naive_solver. by rewrite !app_nil_r.
        -- exact (transfer_state_untouched _ _ Hsub HT).
        -- eapply transfer_state_untouched; [exact Hsub'|]. by apply transfer_state_direct.
      * rewrite Hdata. cbn [mbind gres_bind returns]. intros b Hb Ht.
        split_and!; [done|done| | |by apply (Hf' gov); [right; right|]].
        -- eapply transfer_state_skip; [exact Ho0| |done]. by left.
        -- rewrite calls_of_snoc, Ht, Hc, (transfer_calls_snoc _ _ _ _ Ho0), decide_True by done. done.
      * exact (transfer_state_untouched _ _ Hsub HT).
  - split_and!; [by intros ? ?%not_elem_of_nil|done| |done|constructor].
    intros id. rewrite HL, decide_False; [done|]. by intros [?%not_elem_of_nil _].
Qed.
End transfer.

(** ** The acceptance *)

Section accept.
Context (inp : StellarTransferOwnershipInput) (Hinp : ProposedOwner inp = p).
Let gov : string := GovernanceAddr inp.
Context (L0 : gmap string Ownable.Ownable) (HL0 : owners_valid L0).

(** When [p] is the deployer, the contracts that [p] does not own yet are settled. *)
Definition accept_state (refs : list AddressRef) (L : gmap string Ownable.Ownable) : Prop :=
  ∀ id, L !! id =
    if decide (dep = p ∧ id ∈ addrs refs ∧ owner_at L0 id ≠ Some p) then Some settled else L0 !! id.
(** Otherwise the timelock is asked to accept them. *)
Definition accept_calls (data : bytes) (refs : list AddressRef) : list (string * bytes) :=
  if decide (dep = p) then []
  else (λ id, (id, data)) <$> filter (λ id, owner_at L0 id ≠ Some p) (addrs refs).
(** What the deployer accepted was offered to it. *)
Definition was_offered (id : string) : Prop := L0 !! id ≫= Ownable.PENDING_OWNER = Some p.
Definition accepted_offers (L : gmap string Ownable.Ownable) : Prop :=
  ∀ id, L !! id = L0 !! id ∨
        (id ∈ addrs (ContractRef inp) ∧ dep = p ∧ was_offered id ∧ L !! id = Some settled).

(** Which contracts the sequence can do something about. *)
Definition acceptable (id : string) : Prop :=
  ∃ o, owner_at L0 id = Some o ∧ (o = p ∨ (dep = p ∧ was_offered id) ∨ (dep ≠ p ∧ gov = p)).

Lemma accept_state_offers refs L : refs ⊆ ContractRef inp → accept_state refs L →
  Forall acceptable (addrs refs) → accepted_offers L.
Proof.
  intros Hsub HL Hf id. rewrite HL. destruct (decide _) as [(Hd & Hin & Ho)|_]; [right|by left].
  pose proof (proj1 (List.Forall_forall _ _) Hf id) as Hid. rewrite <- list_elem_of_In in Hid.
  destruct (Hid Hin) as (o & Hid' & [->|[[_ Hoff]|[? _]]]); [done| |done]. split_and!; [|done..].
  unfold addrs in *. apply list_elem_of_fmap in Hin as (ref & -> & Hin). apply list_elem_of_fmap. eauto.
Qed.
Lemma accept_state_owner refs L id owner : accept_state refs L → owner_at L id = Some owner → owner ≠ p →
  L !! id = L0 !! id.
Proof.
  intros HL Ho Hne. unfold owner_at in Ho. rewrite HL in Ho |- *. destruct (decide _); [|done].
  injection Ho as <-. done.
Qed.
Lemma accept_state_valid refs L : accept_state refs L → owners_valid L.
Proof.
  intros HL id o Ho. destruct (decide (o = p)) as [->|Hne]; [done|]. apply (HL0 id). unfold owner_at in *.
  by rewrite <- (accept_state_owner _ _ _ _ HL Ho Hne).
Qed.
Lemma accept_state_skip refs ref L : accept_state refs L →
  dep ≠ p ∨ owner_at L (refAddress ref) = Some p → accept_state (refs ++ [ref]) L.
Proof.
  intros HL Hd id. unfold addrs. rewrite fmap_app. cbn [fmap list_fmap].
  destruct (decide (refAddress ref = id)) as [<-|Hne]; rewrite HL.
  - destruct (decide (dep = p ∧ refAddress ref ∈ addrs refs ∧ _)) as [(? & ? & ?)|Hno].
    + rewrite decide_True; [done|]. split_and!; [done| |done]. apply elem_of_app. by left.
    + rewrite decide_False; [done|]. intros (Hdp & _ & Hne). destruct Hd as [Hd|Hd]; [done|].
      unfold owner_at in Hd. rewrite HL, decide_False in Hd by done. by destruct Hne.
  - apply decide_ext. rewrite elem_of_app, list_elem_of_singleton. unfold addrs. naive_solver.
Qed.
Lemma accept_state_direct refs ref L : dep = p → owner_at L0 (refAddress ref) ≠ Some p →
  accept_state refs L → accept_state (refs ++ [ref]) (<[refAddress ref := settled]> L).
Proof.
  intros Hd Ho HL id. unfold addrs. rewrite fmap_app. cbn [fmap list_fmap].
  destruct (decide (refAddress ref = id)) as [<-|Hne].
  - rewrite lookup_insert_eq, decide_True; [done|]. split_and!; [done| |done]. apply elem_of_app. right. by left.
  - rewrite lookup_insert_ne, HL by done. apply decide_ext. rewrite elem_of_app, list_elem_of_singleton.
    unfold addrs. naive_solver.
Qed.
Lemma accept_calls_snoc data refs ref :
  accept_calls data (refs ++ [ref]) = accept_calls data refs ++
    (if decide (dep ≠ p ∧ owner_at L0 (refAddress ref) ≠ Some p) then [(refAddress ref, data)] else []).
Proof.
  unfold accept_calls. destruct (decide (dep = p)) as [Hd|Hd].
  - by rewrite decide_False by tauto.
  - unfold addrs. rewrite fmap_app, filter_app, fmap_app. f_equal. cbn [fmap list_fmap].
    destruct (decide (dep ≠ p ∧ _)) as [(_ & ?)|Hno].
    + by rewrite filter_cons_True.
    + rewrite filter_cons_False; [done|]. tauto.
Qed.

Lemma accept_loop data w :
  EncodeSorobanMCMSInvokePayload "accept_ownership" [] = GVal data →
  chain_of w = L0 → reports_sound w →
  returns answers (owned_refs enumerate deps inp (accept_write enumerate deps dep inp) (ContractRef inp) []) w
    (λ r w', match r with
     | GVal out => Addresses out = [] ∧ reports_sound w' ∧ accept_state (ContractRef inp) (chain_of w') ∧
         calls_of (BatchOps out) = accept_calls data (ContractRef inp) ∧
         Forall acceptable (addrs (ContractRef inp))
     | GErr _ => accepted_offers (chain_of w')
     | GPanic _ => False
     end).
Proof.
  intros Hdata HL Hsound.
  set (P := λ done bs w', done ⊆ ContractRef inp ∧ reports_sound w' ∧ accept_state done (chain_of w') ∧
    calls_of bs = accept_calls data done ∧ Forall acceptable (addrs done)).
  eapply returns_mono; [|apply (owned_refs_returns inp _ P (λ w', accepted_offers (chain_of w')) (ContractRef inp) [] [] w)].
  - intros [out|e|m] w' H; [|done..]. destruct H as (Ha & _ & H). by split.
  - intros done acc w' (Hsub & _ & HT & _ & Hf). split; [exact (accept_state_offers _ _ Hsub HT Hf)|].
    exact (accept_state_valid _ _ HT).
  - intros done ref acc w' owner (Hsub & Hs & HT & Hc & Hf) Hin Hsup Ho.
    assert (done ++ [ref] ⊆ ContractRef inp) as Hsub'.
    { intros x [?|Hx]%elem_of_app; [auto|]. by apply list_elem_of_singleton in Hx as ->. }
    assert (acceptable (refAddress ref) → Forall acceptable (addrs (done ++ [ref]))) as Hf'.
    { intros H. unfold addrs. rewrite fmap_app. apply Forall_app. split; [done|]. by constructor. }
    split; rewrite Hinp.
    + intros ->. split_and!; [done|done|eapply accept_state_skip; [done|by right]| |].
      * rewrite accept_calls_snoc. pose proof Ho as Ho'. unfold owner_at in Ho'. rewrite HT in Ho'.
        destruct (decide (dep = p ∧ _ ∧ _)) as [(Hd & _)|_]; rewrite decide_False, app_nil_r; try done; [tauto|].
        unfold owner_at. tauto.
      * pose proof Ho as Ho'. unfold owner_at in Ho'. rewrite HT in Ho'.
        destruct (decide (dep = p ∧ _ ∧ _)) as [(_ & Hid & _)|_]; [|apply Hf'; exists p; auto].
        apply Hf'. apply (proj1 (List.Forall_forall _ _) Hf). by apply list_elem_of_In.
    + intros Hne. unfold accept_write. rewrite Hinp.
      pose proof (accept_state_owner _ _ _ _ HT Ho Hne) as Hsame.
      assert (owner_at L0 (refAddress ref) = Some owner) as Ho0 by (unfold owner_at; by rewrite <- Hsame).
      destruct (decide (p = dep)) as [Hd|Hnd]; [|destruct (decide (p = GovernanceAddr inp)) as [Hg|Hng]].
      * eapply returns_gctx_gthen; [apply (execute_accept ref); [done|congruence|done|done]|]. cbn zeta.
        rewrite Hsame. intros [u|e|m] w2 H; [|cbn beta iota|done].
        -- destruct H as (Hw2 & Hoff & Hs2). cbn [returns]. intros b Hb Ht. split_and!; [done|done| | |].
           ++ rewrite Hw2. apply accept_state_direct; [done|congruence|done].
           ++ rewrite calls_of_snoc, Ht, accept_calls_snoc, decide_False by (intros [? _]; congruence).
              cbn [direct_write ExecInfo fmap list_fmap]. by rewrite !app_nil_r.
           ++ apply Hf'. exists owner. auto.
        -- destruct H as [->|[-> Hoff]]; [exact (accept_state_offers _ _ Hsub HT Hf)|].
           apply (accept_state_offers (done ++ [ref])); [done|apply accept_state_direct; [done|congruence|done]|].
           apply Hf'. exists owner. auto.
      * rewrite Hdata. cbn [mbind gres_bind returns]. intros b Hb Ht. split_and!; [done|done| | |].
        -- eapply accept_state_skip; [done|left; congruence].
        -- rewrite calls_of_snoc, Ht, Hc, accept_calls_snoc, decide_True by (split; congruence). done.
        -- apply Hf'. exists owner. split; [done|]. right; right. split; [congruence|by symmetry].
      * exact (accept_state_offers _ _ Hsub HT Hf).
  - split_and!; [by intros ? ?%not_elem_of_nil|done| | |constructor].
    + intros id. rewrite HL, decide_False; [done|]. by intros (_ & ?%not_elem_of_nil & _).
    + unfold accept_calls. by destruct (decide _).
Qed.
End accept.

(** ** The timelock *)

Definition transfer_payload : gres bytes :=
  EncodeSorobanMCMSInvokePayload "transfer_ownership" [ScVal.AddressToScVal p].
Definition accept_payload : gres bytes := EncodeSorobanMCMSInvokePayload "accept_ownership" [].
Lemma transfer_payload_decodes : ∃ b, transfer_payload = GVal b ∧
  decode_invoke_payload b = Some ("transfer_ownership", [ScVal.AddressToScVal p]).
Proof.
  destruct (payload_decodes "transfer_ownership" [ScVal.AddressToScVal p]) as (b & ? & _ & ?); [|by exists b].
  exists 2%nat. split; [lia|]. change (wire_depth 2 _) with (wire_depth 1 (ScVal.AddressToScVal p) && true).
  by rewrite (strkey_wire p 0 Hp).
Qed.
Lemma accept_payload_decodes : ∃ b, accept_payload = GVal b ∧
  decode_invoke_payload b = Some ("accept_ownership", []).
Proof.
  destruct (payload_decodes "accept_ownership" []) as (b & ? & _ & ?); [|by exists b].
  exists 2%nat. split; [lia|done].
Qed.

Lemma timelock_transfers gov data ids L :
  decode_invoke_payload data = Some ("transfer_ownership", [ScVal.AddressToScVal p]) →
  Forall (λ id, owner_at L id = Some gov) ids →
  ∃ L', Ownable.execute_calls gov L ((λ id, (id, data)) <$> ids) = Some L' ∧
    ∀ id, L' !! id = if decide (id ∈ ids) then Some (offered gov) else L !! id.
Proof.
  intros Hdec. revert L. induction ids as [|id ids IH]; intros L Hids; cbn [fmap list_fmap Ownable.execute_calls].
  { exists L. split; [done|]. intros id. by rewrite decide_False by apply not_elem_of_nil. }
  apply Forall_cons in Hids as [Hid Hids]. unfold Ownable.execute_call. rewrite Hdec.
  unfold owner_at in Hid. destruct (L !! id) as [st|] eqn:Hst; [|done].
  cbn [mbind option_bind]. rewrite (invoke_transfer _ _ _ st gov Hst Hid) by (by apply bool_decide_eq_true).
  destruct (IH (<[id := offered gov]> L)) as (L' & HL & HL').
  { eapply Forall_impl; [exact Hids|]. intros id' Hid'. unfold owner_at in *.
    destruct (decide (id = id')) as [<-|Hne]; [by rewrite lookup_insert_eq|by rewrite lookup_insert_ne]. }
  exists L'. split; [exact HL|]. intros id'. rewrite HL'.
  destruct (decide (id' ∈ ids)) as [Hin|Hin]; [by rewrite decide_True by (by right)|].
  destruct (decide (id = id')) as [<-|Hne].
  - by rewrite lookup_insert_eq, decide_True by left.
  - rewrite lookup_insert_ne, decide_False; [done| |done]. by intros [?|?]%elem_of_cons.
Qed.

Lemma timelock_accepts data ids L :
  decode_invoke_payload data = Some ("accept_ownership", []) → NoDup ids →
  Forall (λ id, L !! id ≫= Ownable.PENDING_OWNER = Some p) ids →
  ∃ L', Ownable.execute_calls p L ((λ id, (id, data)) <$> ids) = Some L' ∧
    ∀ id, L' !! id = if decide (id ∈ ids) then Some settled else L !! id.
Proof.
  intros Hdec Hnd. revert L. induction Hnd as [|id ids Hni Hnd IH]; intros L Hids;
    cbn [fmap list_fmap Ownable.execute_calls].
  { exists L. split; [done|]. intros id. by rewrite decide_False by apply not_elem_of_nil. }
  apply Forall_cons in Hids as [Hid Hids]. unfold Ownable.execute_call. rewrite Hdec.
  destruct (L !! id) as [st|] eqn:Hst; [|done]. cbn [mbind option_bind] in Hid |- *.
  assert (Ownable.invoke (λ a, bool_decide (a = p)) L id "accept_ownership" [] = Some (<[id := settled]> L)) as ->.
  { unfold Ownable.invoke, Ownable.message_of. rewrite Hst, decide_False, decide_True by done.
    cbn [mbind option_bind Ownable.receive]. unfold Ownable.accept_ownership, Ownable.require_auth.
    by rewrite Hid, bool_decide_true. }
  destruct (IH (<[id := settled]> L)) as (L' & HL & HL').
  { apply Forall_forall. intros id' Hin. rewrite lookup_insert_ne by (intros <-; done).
    apply (proj1 (Forall_forall _ _) Hids id' Hin). }
  exists L'. split; [exact HL|]. intros id'. rewrite HL'.
  destruct (decide (id' ∈ ids)) as [Hin|Hin]; [by rewrite decide_True by (by right)|].
  destruct (decide (id = id')) as [<-|Hne].
  - by rewrite lookup_insert_eq, decide_True by left.
  - rewrite lookup_insert_ne, decide_False; [done| |done]. by intros [?|?]%elem_of_cons.
Qed.

(** ** The sequences *)

Section flow.
Context (inp : StellarTransferOwnershipInput) (Hinp : ProposedOwner inp = p).
Context (chains : gmap Z StellarChain) (ch : StellarChain) (Hch : chains !! inChainSelector inp = Some ch).
Context (Hdep : Deployer.NewDeployerFromChain (NetworkPassphrase ch) (ChainSigner ch) [] = Ok (d, s)).
Let gov : string := GovernanceAddr inp.
Let listed : list string := addrs (ContractRef inp).

Lemma transfer_runs w Q :
  returns answers (owned_refs enumerate deps inp (transfer_write enumerate deps dep inp) (ContractRef inp) []) w Q →
  returns answers (seqHandler (StellarTransferOwnershipViaMCMS enumerate) chains inp) w Q.
Proof.
  intros H. cbn [StellarTransferOwnershipViaMCMS seqHandler]. unfold deployer_of. rewrite Hch, Hdep. exact H.
Qed.
Lemma accept_runs w Q :
  returns answers (owned_refs enumerate deps inp (accept_write enumerate deps dep inp) (ContractRef inp) []) w Q →
  returns answers (seqHandler (StellarAcceptOwnership enumerate) chains inp) w Q.
Proof.
  intros H. cbn [StellarAcceptOwnership seqHandler]. unfold deployer_of. rewrite Hch, Hdep. exact H.
Qed.

(** Once the timelock executed what the transfer asked of it, every listed contract that [p]
    does not own is offered to [p]. *)
Lemma after_transfer L0 L1 data :
  decode_invoke_payload data = Some ("transfer_ownership", [ScVal.AddressToScVal p]) →
  transfer_state L0 (ContractRef inp) L1 →
  Forall (λ id, ∃ o, owner_at L0 id = Some o ∧ (o = p ∨ o = dep ∨ o = gov)) listed →
  ∃ L2, Ownable.execute_calls gov L1 (transfer_calls inp L0 data (ContractRef inp)) = Some L2 ∧
    (∀ id, owner_at L2 id = owner_at L0 id) ∧
    (∀ id, id ∉ listed ∨ owner_at L0 id = Some p → L2 !! id = L0 !! id) ∧
    (∀ id, id ∈ listed → owner_at L0 id ≠ Some p → L2 !! id ≫= Ownable.PENDING_OWNER = Some p) ∧
    (∀ id, L2 !! id = L1 !! id ∨ L2 !! id = Some (offered gov) ∧ owner_at L0 id = Some gov).
Proof.
  intros Hdec HT Hf. unfold transfer_calls.
  destruct (timelock_transfers gov data (filter (λ id, owner_at L0 id = Some gov ∧ gov ≠ p ∧ gov ≠ dep) listed) L1 Hdec)
    as (L2 & HL2 & H2).
  { apply Forall_forall. intros id [[Ho _] _]%list_elem_of_filter. by rewrite (transfer_state_owner _ _ _ _ HT). }
  exists L2. split; [exact HL2|]. split_and!; intros id.
  - unfold owner_at at 1. rewrite H2. destruct (decide _) as [[[Ho _] _]%list_elem_of_filter|_]; [by rewrite Ho|].
    exact (transfer_state_owner _ _ _ _ HT).
  - intros Hid. rewrite H2, decide_False, HT, decide_False; [done| |].
    + intros (Hin & Ho & Hne). destruct Hid as [Hid|Hid]; [done|]. destruct Hne. congruence.
    + intros [(Ho & Hne & _) Hin]%list_elem_of_filter. destruct Hid as [Hid|Hid]; [done|]. destruct Hne. congruence.
  - intros Hin Hne. destruct (proj1 (Forall_forall _ _) Hf id Hin) as (o & Ho & Hd). rewrite H2.
    destruct (decide (id ∈ filter _ _)) as [_|Hno]; [done|]. rewrite HT.
    destruct (decide (o = dep)) as [->|Hnd].
    + rewrite decide_True; [done|]. split_and!; [done..|]. intros Heq. apply Hne. congruence.
    + destruct Hno. apply list_elem_of_filter. destruct Hd as [->|[->| ->]]; [done..|].
      split_and!; [done| |done|done]. intros Heq. apply Hne. congruence.
  - rewrite H2. destruct (decide _) as [[[Ho _] _]%list_elem_of_filter|_]; [by right|by left].
Qed.

(** Once it executed what the acceptance asked of it, [p] owns them all. *)
Lemma after_accept L2 L3 data : NoDup listed →
  decode_invoke_payload data = Some ("accept_ownership", []) →
  accept_state L2 (ContractRef inp) L3 → Forall (acceptable inp L2) listed →
  (∀ id, id ∈ listed → owner_at L2 id ≠ Some p → L2 !! id ≫= Ownable.PENDING_OWNER = Some p) →
  ∃ L4, Ownable.execute_calls gov L3 (accept_calls L2 data (ContractRef inp)) = Some L4 ∧
    ∀ id, L4 !! id = if decide (id ∈ listed ∧ owner_at L2 id ≠ Some p) then Some settled else L2 !! id.
Proof.
  intros Hnd Hdec HT Hf Hpend. unfold accept_calls. destruct (decide (dep = p)) as [Hd|Hd].
  { exists L3. split; [done|]. intros id. rewrite HT. apply decide_ext. tauto. }
  assert (L3 = L2) as -> by (apply map_eq; intros id; by rewrite HT, decide_False by tauto).
  set (ids := filter _ (addrs _)).
  assert (∀ id, id ∈ ids ↔ id ∈ listed ∧ owner_at L2 id ≠ Some p) as Hids.
  { intros id. subst ids. rewrite list_elem_of_filter. tauto. }
  assert (ids = [] ∨ gov = p) as [->|Hg].
  { destruct ids as [|id ids'] eqn:Ei; [by left|right].
    destruct (proj1 (Hids id)) as [Hin Hne]; [by left|].
    destruct (proj1 (Forall_forall _ _) Hf id Hin) as (o & Ho & [->|[[? _]|[_ ?]]]); done. }
  - exists L2. split; [done|]. intros id. rewrite decide_False; [done|].
    intros Hid%Hids. by apply not_elem_of_nil in Hid.
  - rewrite Hg. destruct (timelock_accepts data ids L2 Hdec) as (L4 & HL4 & H4).
    + subst ids. by apply NoDup_filter.
    + apply Forall_forall. intros id [Hin Hne]%Hids. by apply Hpend.
    + exists L4. split; [exact HL4|]. intros id. rewrite H4. by apply decide_ext.
Qed.

(** C17. The hand-over. Take the contracts listed, with no report of the framework that is not
    so: run the transfer, let the timelock execute the batches that it returned, run the
    acceptance, and let the timelock execute its batches. The timelock's calls all succeed, and
    then the proposed owner owns every listed contract with no transfer pending, whether the
    deployer or the timelock owned it and whichever of the two is to own it; no other contract
    changed. *)
Theorem ownership_handover w : owners_valid (chain_of w) → reports_sound w → NoDup listed →
  returns answers (seqHandler (StellarTransferOwnershipViaMCMS enumerate) chains inp) w (λ r w1,
    ∀ out1, r = GVal out1 →
    ∃ L2, Ownable.execute_calls gov (chain_of w1) (calls_of (BatchOps out1)) = Some L2 ∧
    ∀ w2, chain_of w2 = L2 → reports w2 = reports w1 →
    returns answers (seqHandler (StellarAcceptOwnership enumerate) chains inp) w2 (λ r w3,
      ∀ out2, r = GVal out2 →
      ∃ L4, Ownable.execute_calls gov (chain_of w3) (calls_of (BatchOps out2)) = Some L4 ∧
        (∀ id, id ∈ listed → owner_at L4 id = Some p) ∧
        ∀ id, L4 !! id = if decide (id ∈ listed ∧ owner_at (chain_of w) id ≠ Some p) then Some settled
                         else chain_of w !! id)).
Proof.
  intros Hv Hs Hnd. destruct transfer_payload_decodes as (dt & Hdt & Hdec).
  destruct accept_payload_decodes as (da & Hda & Hdeca).
  apply transfer_runs.
  eapply returns_mono; [|by apply (transfer_loop inp Hinp (chain_of w) Hv dt)].
  intros r w1 H out1 ->. destruct H as (_ & Hs1 & HT & Hc & Hf).
  destruct (after_transfer _ _ _ Hdec HT Hf) as (L2 & HL2 & Hown & Hrest & Hpend & Heach).
  exists L2. rewrite Hc. split; [exact HL2|]. intros w2 Hw2 Hr2.
  assert (owners_valid L2) as Hv2 by (intros id o; rewrite Hown; apply Hv).
  apply accept_runs.
  eapply returns_mono; [|apply (accept_loop inp Hinp L2 Hv2 da); [done..|]].
  - intros r w3 H out2 ->. destruct H as (_ & _ & HA & Hc2 & Hacc).
    destruct (after_accept L2 (chain_of w3) da Hnd Hdeca HA Hacc) as (L4 & HL4 & H4).
    { intros id Hin Hne. apply Hpend; [done|]. by rewrite <- Hown. }
    exists L4. rewrite Hc2. split; [exact HL4|].
    assert (∀ id, L4 !! id = if decide (id ∈ listed ∧ owner_at (chain_of w) id ≠ Some p) then Some settled
                             else chain_of w !! id) as Hall.
    { intros id. rewrite H4, Hown. destruct (decide _) as [_|Hno]; [done|]. apply Hrest.
      destruct (decide (id ∈ listed)); [right|by left]. destruct (decide (owner_at (chain_of w) id = Some p)); tauto. }
    split; [|exact Hall]. intros id Hin. unfold owner_at at 1. rewrite Hall.
    destruct (decide _) as [_|Hno]; [done|]. change (owner_at (chain_of w) id = Some p).
    destruct (decide (owner_at (chain_of w) id = Some p)); tauto.
  - apply (reports_sound_timelock w1 w2 L2 gov); [done..|].
    intros id. destruct (Heach id) as [->|[-> Ho]]; [by left|right]. split; [done|].
    by rewrite (transfer_state_owner _ _ _ _ HT).
Qed.

(** C18. The failures. Neither sequence panics or hangs. A transfer that fails, at whatever
    contract and for whatever reason, changed no owner; an acceptance that fails has settled
    only listed contracts that were offered to the deployer; and neither changed a contract
    that is not listed. *)
Theorem ownership_failures w : owners_valid (chain_of w) → reports_sound w →
  returns answers (seqHandler (StellarTransferOwnershipViaMCMS enumerate) chains inp) w (λ r w',
    match r with
    | GVal _ => True
    | GErr _ => ∀ id, owner_at (chain_of w') id = owner_at (chain_of w) id ∧
                      (id ∉ listed → chain_of w' !! id = chain_of w !! id)
    | GPanic _ => False
    end) ∧
  returns answers (seqHandler (StellarAcceptOwnership enumerate) chains inp) w (λ r w',
    match r with
    | GVal _ => True
    | GErr _ => ∀ id, chain_of w' !! id = chain_of w !! id ∨
                      (id ∈ listed ∧ dep = p ∧ chain_of w !! id ≫= Ownable.PENDING_OWNER = Some p ∧
                       chain_of w' !! id = Some settled)
    | GPanic _ => False
    end).
Proof.
  intros Hv Hs. destruct transfer_payload_decodes as (dt & Hdt & _). destruct accept_payload_decodes as (da & Hda & _).
  split; [apply transfer_runs|apply accept_runs].
  - eapply returns_mono; [|by apply (transfer_loop inp Hinp (chain_of w) Hv dt)]. by intros [out|e|m] w' H.
  - eapply returns_mono; [|by apply (accept_loop inp Hinp (chain_of w) Hv da)]. by intros [out|e|m] w' H.
Qed.

(** Without a right there is no transaction. When the deployer owns none of the listed
    contracts the transfer only reads, and when it is not the proposed owner the acceptance
    only reads: whatever the outcome the world is as before. *)
Theorem governance_only_reads w : owners_valid (chain_of w) →
  (Forall (λ id, owner_at (chain_of w) id ≠ Some dep) listed →
   returns answers (seqHandler (StellarTransferOwnershipViaMCMS enumerate) chains inp) w (λ _ w', w' = w)) ∧
  (dep ≠ p →
   returns answers (seqHandler (StellarAcceptOwnership enumerate) chains inp) w (λ _ w', w' = w)).
Proof.
  intros Hv. destruct transfer_payload_decodes as (dt & Hdt & _). destruct accept_payload_decodes as (da & Hda & _).
  unfold transfer_payload in Hdt. unfold accept_payload in Hda.
  split; [intros Hno; apply transfer_runs|intros Hne; apply accept_runs].
  - eapply returns_mono; [|apply (owned_refs_returns inp _ (λ _ _ w', w' = w) (λ w', w' = w) (ContractRef inp) [] [] w)].
    + by intros [out|e|m] w' H; [destruct H| |].
    + by intros done acc w' ->.
    + intros done ref acc w' owner -> Hin _ Ho. split; [done|]. intros _. unfold transfer_write.
      rewrite decide_False; [|intros ->; by apply (proj1 (Forall_forall _ _) Hno (refAddress ref));
                              [apply list_elem_of_fmap; eauto|]].
      rewrite Hinp. by destruct (decide _); [rewrite Hdt|].
    + done.
  - eapply returns_mono; [|apply (owned_refs_returns inp _ (λ _ _ w', w' = w) (λ w', w' = w) (ContractRef inp) [] [] w)].
    + by intros [out|e|m] w' H; [destruct H| |].
    + by intros done acc w' ->.
    + intros done ref acc w' owner -> Hin _ Ho. split; [done|]. intros _. unfold accept_write.
      rewrite Hinp, decide_False by congruence. by destruct (decide _); [rewrite Hda|].
    + done.
Qed.

(** The input of an acceptance is the contract alone, so an earlier one masks a later one:
    when the framework holds a report that this deployer accepted the contract before, the
    sequence returns success and nothing is accepted. *)
Theorem accept_report_masks ref w : owners_valid (chain_of w) →
  ContractRef inp = [ref] → dep = p → owner_at (chain_of w) (refAddress ref) ≠ Some p →
  (∀ op : Operation W E, (refType ref, op) ∈ accept_operations enumerate →
     is_Some (reports w (opID op) [VString (refAddress ref)])) →
  returns answers (seqHandler (StellarAcceptOwnership enumerate) chains inp) w (λ r w',
    w' = w ∧ match r with GVal out => calls_of (BatchOps out) = [] | GErr _ => True | GPanic _ => False end).
Proof.
  intros Hv Hrefs Hd Hne Hrep. apply accept_runs.
  eapply returns_mono; [|apply (owned_refs_returns inp _ (λ _ bs w', w' = w ∧ calls_of bs = []) (λ w', w' = w)
                                  (ContractRef inp) [] [] w)].
  - by intros [out'|e|m] w' H; [destruct H as (_ & -> & ?)| |].
  - by intros done acc w' [-> _].
  - rewrite Hrefs. intros done ref' acc w' owner [-> Hacc] Hin Hsup _. apply list_elem_of_singleton in Hin as ->.
    split; [done|]. intros _. unfold accept_write. rewrite Hinp, decide_True by done.
    unfold ExecuteAcceptOwnership.
    destruct (operation_found (accept_operations enumerate)
      (λ op, _ <-? ExecuteOperation op deps [VString (refAddress ref)]; Ret (GVal tt))
      (refType ref) (Ret (GErr ("stellar accept ownership: unsupported contract type " +:+ Quote (refType ref) +:+
         " for " +:+ refAddress ref))) (proj2 same_cases) Hsup) as (op & Hop & ->).
    destruct (Hrep op Hop) as [out Hout].
    eapply (returns_gctx_gthen _ _ _ _ _ (λ r w', r = GVal tt ∧ w' = w)).
    { eapply returns_gthen; [by apply execute_reported|]. by intros r w' [-> ->]. }
    intros r w' [-> ->]. cbn [returns]. intros b Hb Ht. split; [done|].
    by rewrite calls_of_snoc, Hacc, Ht.
  - done.
Qed.
End flow.

(** The adapter's cache: after an initialisation that succeeds, each chain's timelock is the
    address that the reader found, which is not empty. *)
Lemma timelock_cache reader selectors a a' :
  InitializeTimelockAddress (Some reader) selectors a = (GVal tt, a') →
  (∀ sel, sel ∈ selectors → ∃ ref, reader sel = GVal ref ∧ refAddress ref ≠ "" ∧
     governance_of a' sel = GVal (refAddress ref)) ∧
  ∀ sel, sel ∉ selectors → a' !! sel = a !! sel.
Proof.
  cbn [InitializeTimelockAddress]. revert a.
  induction selectors as [|sel selectors IH]; intros a; cbn [initialize_chains].
  { intros [= <-]. split; [|done]. by intros sel ?%not_elem_of_nil. }
  destruct (reader sel) as [ref|e|m] eqn:Hr; [|done..]. destruct (decide _) as [|Hne]; [done|]. intros Hi.
  destruct (IH _ Hi) as [Hin Hout]. split.
  - intros sel' Hs. destruct (decide (sel' ∈ selectors)) as [Hs'|Hs']; [by apply Hin|].
    apply elem_of_cons in Hs as [->|?]; [|done]. exists ref. split_and!; [done..|].
    unfold governance_of. by rewrite (Hout _ Hs'), lookup_insert_eq.
  - intros sel' [Hs Hs']%not_elem_of_cons. rewrite (Hout _ Hs'). by rewrite lookup_insert_ne.
Qed.
End sequences.

(** ** A concrete world *)

Import DemoXdr Demo TypeConvertersProps DeployerProps.

Record DemoWorld := mkDemoWorld {
  demo_chain : gmap string Ownable.Ownable;
  demo_reports : gmap (string * list string) (list value)
}.
(** Nothing outside. *)
Definition no_ext (X : Type) : Type := Empty_set.

Definition demo_dep : string := String "G" (String.string_of_list_byte key2).
Definition demo_gov : string := String "C" (String.string_of_list_byte key1).
Lemma demo_strkeys : is_strkey demo_dep ∧ is_strkey demo_gov.
Proof. split; [by exists VersionByteAccountID, key2|by exists VersionByteContract, key1]. Qed.

(** The chain executes what the deployer signs. *)
Definition demo_invoker : Invoker DemoWorld no_ext := {|
  Invoke := λ c f args, atomic (λ w,
    match Ownable.invoke (by_only demo_dep) (demo_chain w) c f args with
    | Some L => (GVal None, mkDemoWorld L (demo_reports w))
    | None => (GErr "transaction failed", w)
    end);
  SimulateCall := λ c f args, gets (λ w,
    match demo_chain w !! c with
    | Some st => GVal (Some (ScVal.OptionalAddressToScVal (Ownable.OWNER st)))
    | None => GErr "no such contract"
    end)
|}.
#[export] Instance demo_world_host : Host DemoWorld no_ext :=
  λ _ _, mkStellarDeps (λ _ _, Ret (GErr "no upload")) demo_invoker.

(** Inputs of texts are recorded; another one is not serializable. *)
Definition text_of (v : value) : option string := match v with VString s => Some s | _ => None end.
Lemma texts_inj x y l : mapM text_of x = Some l → mapM text_of y = Some l → x = y.
Proof.
  revert y l. induction x as [|a x IH]; intros y l; cbn.
  - intros [= <-] Hy. apply mapM_Some in Hy. by inversion Hy.
  - destruct a as [| |t| | | | | | |]; cbn; try done. destruct (mapM text_of x) as [l'|] eqn:Hx; [|done].
    intros [= <-] Hy. apply mapM_Some in Hy. inversion Hy as [|b y' ? ? Hb Hy']; subst.
    destruct b; try done. injection Hb as ->. f_equal. apply (IH _ l' eq_refl). by apply mapM_Some.
Qed.
Definition demo_report (w : DemoWorld) (id : string) (inp : list value) : option (list value) :=
  k ← mapM text_of inp; demo_reports w !! (id, k).
#[export] Instance demo_cldf : Cldf DemoWorld no_ext := {|
  ExecuteOperation := λ op deps inp,
    known ← gets (λ w, demo_report w (opID op) inp);
    match known with
    | Some out => Ret (GVal out)
    | None =>
        r ← opHandler op deps inp;
        match r, mapM text_of inp with
        | GVal out, Some k =>
            _ ← modify (λ w, mkDemoWorld (demo_chain w) (<[(opID op, k) := out]> (demo_reports w)));
            Ret (GVal out)
        | GVal out, None => Ret (GErr "not serializable")
        | GErr e, _ => Ret (GErr e)
        | GPanic m, _ => Ret (GPanic m)
        end
    end;
  ExecuteSequence := λ I O s chains inp, seqHandler s chains inp;
  NewBatchOperationFromWrites := λ wos,
    GVal (mkBatchOperation 0 (woTx <$> filter (λ wo, ExecInfo wo = None) wos))
|}.
#[export] Instance demo_world : World (W := DemoWorld) (E := no_ext) := {|
  chain_of := demo_chain;
  reports := demo_report;
  answers := λ _ _ _, True
|}.

Definition demo_chains : gmap Z StellarChain := {[ 5 := mkStellarChain "test network" (Some (demo_dep, true)) ]}.
Definition demo_signer : Deployer.Deployer * Deployer.DeployerState := Deployer.NewDeployer "test network" demo_dep [].

#[export] Instance demo_world_laws : WorldLaws (fst demo_signer) (snd demo_signer).
Proof.
  constructor.
  - intros c w. cbn. split; [done|]. destruct (demo_chain w !! c); [eauto|done].
  - intros c f args w _. cbn. by destruct (Ownable.invoke _ _ _ _ _) eqn:Hi; cbn; rewrite ?Hi; auto.
  - intros op inp out w. cbn. intros ->. by cbn.
  - intros op inp w P. cbn. intros -> HP. cbn.
    eapply returns_seq; [exact HP|]. intros [out|e|m] w0 H0; cbn.
    + destruct (mapM text_of inp) as [k|] eqn:Hk; cbn.
      * exists (GVal out), w0. split_and!; [done..| |].
        -- unfold demo_report. rewrite Hk. cbn. by rewrite lookup_insert_eq.
        -- intros i x Hne. unfold demo_report. destruct (mapM text_of x) as [k'|] eqn:Hk'; [|done]. cbn.
           rewrite lookup_insert_ne; [done|]. intros [= <- <-]. apply Hne. f_equal. by eapply texts_inj.
      * by exists (GVal out), w0.
    + by exists (GErr e), w0.
    + by exists (GPanic m), w0.
  - intros wo. eexists. split; [done|]. cbn. by destruct (ExecInfo wo).
Qed.

Definition same_keys : list string → list string := λ l, l.

(** A router of the deployer, an on-ramp of the timelock, and an off-ramp of someone else. *)
Definition demo_other : string := String "C" (String.string_of_list_byte key2).
Definition demo_ledger : gmap string Ownable.Ownable :=
  {[ "CROUTER" := Ownable.mkOwnable (Some demo_dep) None;
     "CONRAMP" := Ownable.mkOwnable (Some demo_gov) None;
     "COFFRAMP" := Ownable.mkOwnable (Some demo_other) None ]}.
Definition demo_fresh : DemoWorld := mkDemoWorld demo_ledger ∅.
Definition demo_refs : list AddressRef :=
  [mkAddressRef 5 "Router" (Some "2.0.0") "" "CROUTER"; mkAddressRef 5 "OnRamp" (Some "2.0.0") "" "CONRAMP"].
Definition demo_inp (proposed : string) : StellarTransferOwnershipInput :=
  mkStellarTransferOwnershipInput 5 demo_refs proposed demo_gov.

Lemma demo_owners_valid : owners_valid (chain_of demo_fresh).
Proof.
  intros id o. unfold owner_at. cbn [chain_of demo_world demo_fresh demo_chain demo_ledger].
  destruct demo_strkeys as [Hd Hg].
  unfold demo_ledger. rewrite !lookup_insert, lookup_singleton. repeat case_decide; intros [= <-]; [done..|].
  by exists VersionByteContract, key2.
Qed.
Lemma demo_fresh_sound p : reports_sound same_keys p demo_fresh.
Proof. split; intros t op id out _ Ho; unfold reports in Ho; cbn in Ho; by rewrite lookup_empty in Ho. Qed.
Lemma demo_chain_found : demo_chains !! 5 = Some (mkStellarChain "test network" (Some (demo_dep, true))).
Proof. exact (lookup_singleton_eq _ _). Qed.

Definition no_oracle : oracle (E := no_ext) := λ X n e, match e with end.
Definition succeeds {A B C} (r : outcome (gres A) * B * C) : bool :=
  match r with (Done (GVal _), _, _) => true | _ => false end.

(** A run that gives a value, from a triple. *)
Lemma value_of {A} (p : prog DemoWorld no_ext (gres A)) w Q :
  returns answers p w Q → succeeds (hrun no_oracle p 0 w) = true →
  ∃ a h w', hrun no_oracle p 0 w = (Done (GVal a), h, w') ∧ Q (GVal a) w'.
Proof.
  intros Hp Hs. destruct (returns_hrun answers p no_oracle 0 w Q) as (r & h & w' & Hr & HQ); [done..|].
  rewrite Hr in Hs. destruct r as [a|e|m]; [|done..]. by exists a, h, w'.
Qed.

Definition demo_transfer (p : string) : prog DemoWorld no_ext (gres OnChainOutput) :=
  seqHandler (StellarTransferOwnershipViaMCMS same_keys) demo_chains (demo_inp p).
Definition demo_accept (p : string) : prog DemoWorld no_ext (gres OnChainOutput) :=
  seqHandler (StellarAcceptOwnership same_keys) demo_chains (demo_inp p).
Lemma demo_transfer_succeeds : succeeds (hrun no_oracle (demo_transfer demo_gov) 0 demo_fresh) = true.
Proof. by vm_compute. Qed.

(** The transfer, the timelock, the acceptance, the timelock. *)
Definition demo_handover (p : string) (w : DemoWorld) : option (gmap string Ownable.Ownable) :=
  match hrun no_oracle (demo_transfer p) 0 w with
  | (Done (GVal out1), _, w1) =>
      L2 ← Ownable.execute_calls demo_gov (chain_of w1) (calls_of (BatchOps out1));
      match hrun no_oracle (demo_accept p) 0 (mkDemoWorld L2 (demo_reports w1)) with
      | (Done (GVal out2), _, w3) => Ownable.execute_calls demo_gov (chain_of w3) (calls_of (BatchOps out2))
      | _ => None
      end
  | _ => None
  end.
Lemma demo_handover_succeeds : bool_decide (is_Some (demo_handover demo_gov demo_fresh)) = true ∧
  bool_decide (is_Some (demo_handover demo_dep demo_fresh)) = true.
Proof. split; by vm_compute. Qed.

Lemma ownership_handover_witness : ∃ L4, demo_handover demo_gov demo_fresh = Some L4 ∧
  owner_at L4 "CROUTER" = Some demo_gov ∧ owner_at L4 "CONRAMP" = Some demo_gov ∧
  L4 !! "COFFRAMP" = demo_ledger !! "COFFRAMP".
Proof.
  pose proof (proj1 demo_handover_succeeds) as [L4 H4]%bool_decide_eq_true.
  exists L4. split; [exact H4|]. unfold demo_handover in H4.
  pose proof (ownership_handover same_keys (fst demo_signer) (snd demo_signer) demo_gov (proj2 demo_strkeys)
    (demo_inp demo_gov) eq_refl demo_chains _ demo_chain_found eq_refl demo_fresh demo_owners_valid
    (demo_fresh_sound demo_gov) ltac:(by apply (bool_decide_unpack _))) as H.
  change (seqHandler (StellarTransferOwnershipViaMCMS same_keys) demo_chains (demo_inp demo_gov))
    with (demo_transfer demo_gov) in H.
  apply (returns_hrun answers _ no_oracle 0) in H; [|done].
  destruct H as (r & h & w1 & Hr & H). rewrite Hr in H4. destruct r as [out1|e|m]; [|done..].
  destruct (H out1 eq_refl) as (L2 & HL2 & H2). change (GovernanceAddr (demo_inp demo_gov)) with demo_gov in HL2.
  rewrite HL2 in H4. cbn [mbind option_bind] in H4.
  specialize (H2 (mkDemoWorld L2 (demo_reports w1)) eq_refl eq_refl).
  change (seqHandler (StellarAcceptOwnership same_keys) demo_chains (demo_inp demo_gov))
    with (demo_accept demo_gov) in H2.
  apply (returns_hrun answers _ no_oracle 0) in H2; [|done].
  destruct H2 as (r2 & h2 & w3 & Hr2 & H2). rewrite Hr2 in H4. destruct r2 as [out2|e|m]; [|done..].
  destruct (H2 out2 eq_refl) as (L & HL & Hown & Hall). change (GovernanceAddr (demo_inp demo_gov)) with demo_gov in HL.
  assert (L4 = L) as -> by congruence.
  split_and!; [apply Hown; by left|apply Hown; by right; left|].
  rewrite Hall, decide_False; [done|]. intros [Hin _].
  apply elem_of_cons in Hin as [?|Hin]; [done|]. by apply elem_of_cons in Hin as [?|?%not_elem_of_nil].
Defined.

(** A transfer by the timelock of a contract that nobody deployed. *)
Definition demo_missing : StellarTransferOwnershipInput :=
  mkStellarTransferOwnershipInput 5 (demo_refs ++ [mkAddressRef 5 "FeeQuoter" (Some "2.0.0") "" "CNONE"]) demo_gov demo_gov.
Lemma ownership_failures_witness : ∃ e h w', hrun no_oracle
    (seqHandler (StellarTransferOwnershipViaMCMS same_keys) demo_chains demo_missing) 0 demo_fresh = (Done (GErr e), h, w') ∧
  ∀ id, owner_at (chain_of w') id = owner_at demo_ledger id.
Proof.
  pose proof (proj1 (ownership_failures same_keys (fst demo_signer) (snd demo_signer) demo_gov (proj2 demo_strkeys)
    demo_missing eq_refl demo_chains _ demo_chain_found eq_refl demo_fresh demo_owners_valid
    (demo_fresh_sound demo_gov))) as H.
  set (prog := seqHandler _ _ _) in *.
  assert (succeeds (hrun no_oracle prog 0 demo_fresh) = false) as Hf by (by vm_compute).
  apply (returns_hrun answers _ no_oracle 0) in H; [|done].
  destruct H as (r & h & w' & Hr & H). rewrite Hr in Hf. destruct r as [out|e|m]; [done| |done].
  exists e, h, w'. split; [exact Hr|]. intros id. exact (proj1 (H id)).
Defined.

Lemma governance_only_reads_witness :
  returns answers (demo_accept demo_gov) demo_fresh (λ _ w', w' = demo_fresh).
Proof.
  refine (proj2 (governance_only_reads same_keys (fst demo_signer) (snd demo_signer) demo_gov (proj2 demo_strkeys)
    (demo_inp demo_gov) eq_refl demo_chains _ demo_chain_found eq_refl demo_fresh demo_owners_valid) _).
  by apply (bool_decide_unpack _).
Defined.

Lemma ownable_consent_witness : ∃ o o',
  Ownable.OWNER (run (Ownable.mkOwnable (Some "ALICE") None) [(by_only "ALICE", Ownable.Transfer "BOB")]) = Some o ∧
  Ownable.OWNER (run (Ownable.mkOwnable (Some "ALICE") None)
    ([(by_only "ALICE", Ownable.Transfer "BOB")] ++ [(by_only "BOB", Ownable.Accept)])) = Some o' ∧ o ≠ o'.
Proof.
  destruct (ownable_consent (Ownable.mkOwnable (Some "ALICE") None) [(by_only "ALICE", Ownable.Transfer "BOB")]
    (by_only "BOB", Ownable.Accept)) as (o & o' & Ho & Ho' & _); [by eexists|done|].
  exists o, o'. split_and!; [done..|]. by vm_compute in Ho, Ho'; simplify_eq.
Defined.

(** Accepted once in this bundle, handed back to the timelock, and offered again. *)
Definition demo_again : DemoWorld :=
  mkDemoWorld {[ "CROUTER" := Ownable.mkOwnable (Some demo_gov) (Some demo_dep) ]}
    {[ ("router:accept-ownership", ["CROUTER"]) := [] ]}.
Definition demo_one : StellarTransferOwnershipInput :=
  mkStellarTransferOwnershipInput 5 [mkAddressRef 5 "Router" (Some "2.0.0") "" "CROUTER"] demo_dep demo_gov.
Lemma accept_report_masks_witness : ∃ out h,
  hrun no_oracle (seqHandler (StellarAcceptOwnership same_keys) demo_chains demo_one) 0 demo_again =
    (Done (GVal out), h, demo_again) ∧ owner_at (chain_of demo_again) "CROUTER" = Some demo_gov.
Proof.
  set (prog := seqHandler _ _ _).
  assert (returns answers prog demo_again (λ r w', w' = demo_again ∧
    match r with GVal out => calls_of (BatchOps out) = [] | GErr _ => True | GPanic _ => False end)) as H.
  { apply (accept_report_masks same_keys (fst demo_signer) (snd demo_signer) demo_dep demo_one eq_refl
      demo_chains _ demo_chain_found eq_refl (mkAddressRef 5 "Router" (Some "2.0.0") "" "CROUTER")); [|done..| |].
    - intros id o. unfold owner_at. cbn [chain_of demo_world demo_again demo_chain]. rewrite lookup_singleton.
      case_decide; [|done]. intros [= <-]. apply demo_strkeys.
    - by apply (bool_decide_unpack _).
    - intros op Hop. unfold accept_operations in Hop.
      do 16 (apply elem_of_cons in Hop as [Heq|Hop];
        [pose proof (f_equal fst Heq) as Ht; pose proof (f_equal snd Heq) as Hop2; cbn [fst snd] in Ht, Hop2; subst op; first [by vm_compute in Ht|by apply (bool_decide_unpack _); vm_compute]|]). by inversion Hop. }
  assert (succeeds (hrun no_oracle prog 0 demo_again) = true) as Hs by (by vm_compute).
  destruct (value_of prog demo_again _ H Hs) as (out & h & w' & Hr & -> & _). by exists out, h.
Defined.

Lemma set_new_owner_keeps_pending_witness :
  Ownable.OWNER (run (Ownable.mkOwnable (Some "ALICE") (Some "MALLORY"))
    [(by_only "ALICE", Ownable.SetNew "BOB"); (by_only "MALLORY", Ownable.Accept)]) = Some "MALLORY".
Proof.
  by apply (set_new_owner_keeps_pending (Ownable.mkOwnable (Some "ALICE") (Some "MALLORY")) "ALICE" "BOB" "MALLORY"
    (by_only "ALICE") (by_only "MALLORY")).
Defined.
End OwnershipProps.
