(* ===== verification/Mcms.v ===== *)
(** The governance contracts: the datastore references of the MCMS and of the timelock, their
    salts, WASM paths and signer configuration ([deployment/mcmsutil]), the sequences that
    deploy and configure them ([deployment/sequences/mcms.go]), and the MCMS reader
    ([deployment/adapters/stellar_mcms_reader.go]). *)

From Stdlib Require Import Ascii.
From Stdlib Require Import Strings.Byte.
From Stdlib Require Strings.String.
From stdpp Require Import base gmap list strings pretty.
From S2P Require Import Prelude GoStrings Prog Sdk Xdr ScVal GoBytes TypeConverters InvokerAdapter Ccv Codec Client.
From S2P Require Import Float Deployer ExtraArgs Operations Ownership.
Import Xdr Operations Ownership.Ownership.

Local Open Scope Z_scope.

(** The types of [chainlink-ccip] and [mcms] that the code relies on: how versions compare,
    the names under which the datastore knows the contracts, the lookup of one reference, and
    the signer configuration with its contract form: quorums, parents, addresses of 20 bytes,
    and a group for each. *)
Class CcipUtils := {
  Version_Equal : option string → option string → bool;
  MCMSVersion : option string;
  RBACTimelock : string;
  ProposerManyChainMultisig : string;
  BypasserManyChainMultisig : string;
  CancellerManyChainMultisig : string;
  (** [refs], chain, type, version, qualifier. *)
  GetAddressRef : list AddressRef → Z → string → option string → string → AddressRef;
  Config : Type;
  Config_Equals : Config → Config → bool;
  ExtractSetConfigInputs : Config → result (bytes * bytes * list bytes * list Z)
}.
(** [mcmstypes.TimelockAction]: a text. *)
Definition TimelockActionSchedule : string := "schedule".
Definition TimelockActionCancel : string := "cancel".
Definition TimelockActionBypass : string := "bypass".

Module McmsUtil.

(** ** [mcmsutil/paths.go] *)

Definition DefaultMCMSWasmRelative : string := "target/wasm32v1-none/release/mcms.wasm".
Definition DefaultTimelockWasmRelative : string := "target/wasm32v1-none/release/timelock.wasm".

(** [filepath.Join] of a directory and a relative path, on Unix: the empty elements and the
    dots go, and [..] takes back what it can. *)
Definition slash : Ascii.ascii := "/"%char.
Fixpoint components (s acc : string) : list string :=
  match s with
  | EmptyString => [acc]
  | String c s' =>
      if Ascii.eqb c slash then acc :: components s' "" else components s' (acc +:+ String c "")
  end.
Fixpoint clean (rooted : bool) (parts out : list string) : list string :=
  match parts with
  | [] => out
  | x :: parts' =>
      if decide (x = "" ∨ x = ".") then clean rooted parts' out
      else if decide (x = "..") then
        match reverse out with
        | y :: rest => if decide (y = "..") then clean rooted parts' (out ++ [".."]) else clean rooted parts' (reverse rest)
        | [] => clean rooted parts' (if rooted then [] else [".."])
        end
      else clean rooted parts' (out ++ [x])
  end.
Fixpoint join_with (parts : list string) : string :=
  match parts with
  | [] => ""
  | [x] => x
  | x :: parts' => x +:+ "/" +:+ join_with parts'
  end.
Definition filepath_Clean (path : string) : string :=
  match path with
  | EmptyString => "."
  | String c _ =>
      let rooted := Ascii.eqb c slash in
      let body := join_with (clean rooted (components path "") []) in
      if rooted then "/" +:+ body else if decide (body = "") then "." else body
  end.
Definition filepath_Join (dir rel : string) : string :=
  if decide (dir = "") then filepath_Clean rel else filepath_Clean (dir +:+ "/" +:+ rel).

(** [getenv] and [getwd] are the environment's. *)
Section paths.
Context (getenv : string → string) (getwd : result string).
Definition resolve_wasm (variable relative : string) : result string :=
  let p := getenv variable in
  if decide (p = "") then
    let root := getenv "CHAINLINK_STELLAR_ROOT" in
    if decide (root = "") then
      match getwd with Ok cwd => Ok (filepath_Join cwd relative) | Err e => Err e end
    else Ok (filepath_Join root relative)
  else Ok p.
Definition ResolveMCMSWasmPath : result string := resolve_wasm "STELLAR_MCMS_WASM" DefaultMCMSWasmRelative.
Definition ResolveTimelockWasmPath : result string :=
  resolve_wasm "STELLAR_TIMELOCK_WASM" DefaultTimelockWasmRelative.
End paths.

(** ** [mcmsutil/refs.go] *)

Section refs.
Context {CU : CcipUtils}.

Definition QualifierStr (q : option string) : string := default "" q.

Section hash.
Context {ST : SdkTypes} {DS : DeployerSdk}.
Definition bytes_of (s : string) : bytes := String.list_byte_of_string s.
Definition ChainNetworkID (passphrase : string) : bytes := Sum256 (bytes_of passphrase).
Definition MCMSDeploySalt (chainSelector : Z) (qual : string) : bytes :=
  Sum256 (bytes_of ("stellar-mcms:" +:+ pretty chainSelector +:+ ":" +:+ qual)).
Definition TimelockDeploySalt (chainSelector : Z) (qual : string) : bytes :=
  Sum256 (bytes_of ("stellar-timelock:" +:+ pretty chainSelector +:+ ":" +:+ qual)).
End hash.

Definition mcms_types : list string :=
  [mcms_ContractType; ProposerManyChainMultisig; BypasserManyChainMultisig; CancellerManyChainMultisig].
(** The first reference of the chain, qualifier and version that [wanted] accepts; the empty
    address with [false] otherwise. *)
Fixpoint find_ref (wanted : AddressRef → bool) (refs : list AddressRef) (chainSelector : Z) (qual : string)
  : string * bool :=
  match refs with
  | [] => ("", false)
  | r :: refs' =>
      if negb (refChainSelector r =? chainSelector) then find_ref wanted refs' chainSelector qual
      else if negb (bool_decide (refQualifier r = qual)) then find_ref wanted refs' chainSelector qual
      else if negb (Version_Equal (refVersion r) MCMSVersion) then find_ref wanted refs' chainSelector qual
      else if wanted r then (refAddress r, true) else find_ref wanted refs' chainSelector qual
  end.
Definition FindExistingStellarMCMS : list AddressRef → Z → string → string * bool :=
  find_ref (λ r, existsb (λ t, bool_decide (refType r = t) && negb (bool_decide (refAddress r = ""))) mcms_types).
Definition FindExistingStellarTimelock : list AddressRef → Z → string → string * bool :=
  find_ref (λ r, bool_decide (refType r = RBACTimelock) && negb (bool_decide (refAddress r = ""))).

Definition StellarMCMSDatastoreRefs (chainSelector : Z) (qual contractID : string) : list AddressRef :=
  (λ ct, mkAddressRef chainSelector ct MCMSVersion qual contractID) <$> mcms_types.
Definition StellarTimelockDatastoreRef (chainSelector : Z) (qual contractID : string) : AddressRef :=
  mkAddressRef chainSelector RBACTimelock MCMSVersion qual contractID.

(** ** [mcmsutil/address_ref.go] *)

Definition MCMSRefLookupOrder (action : string) : gres (list string) :=
  let order primary := GVal [primary; ProposerManyChainMultisig; BypasserManyChainMultisig;
                             CancellerManyChainMultisig; mcms_ContractType] in
  if decide (action = TimelockActionSchedule) then order ProposerManyChainMultisig
  else if decide (action = TimelockActionBypass) then order BypasserManyChainMultisig
  else if decide (action = TimelockActionCancel) then order CancellerManyChainMultisig
  else GErr ("unsupported timelock action: " +:+ action).

(** [mcmsutils.Input]. *)
Record Input := mkInput { TimelockAction : string; Qualifier : string }.
Context {UT : UnicodeTables}.
Fixpoint first_ref (refs : list AddressRef) (chainSelector : Z) (qual : string) (order : list string)
  : option AddressRef :=
  match order with
  | [] => None
  | addrType :: order' =>
      let ref := GetAddressRef refs chainSelector addrType MCMSVersion qual in
      if decide (refAddress ref = "") then first_ref refs chainSelector qual order' else Some ref
  end.
(** [refs] are the environment's references. *)
Definition FindStellarMCMSAddressRef (refs : list AddressRef) (chainSelector : Z) (inp : Input) : gres AddressRef :=
  order ← MCMSRefLookupOrder (TimelockAction inp);
  match first_ref refs chainSelector (Qualifier inp) order with
  | Some ref => GVal ref
  | None =>
      GErr ("no Stellar MCMS address found for chain " +:+ pretty chainSelector +:+ " qualifier " +:+
            Quote (Qualifier inp) +:+ " (expected EVM-style MCM alias types or " +:+ mcms_ContractType +:+ ")")
  end.
Definition FindStellarTimelockAddressRef (refs : list AddressRef) (chainSelector : Z) (inp : Input) : gres AddressRef :=
  let ref := GetAddressRef refs chainSelector RBACTimelock MCMSVersion (Qualifier inp) in
  if decide (refAddress ref = "") then FindStellarMCMSAddressRef refs chainSelector inp else GVal ref.

(** ** [mcmsutil/config.go] *)

Definition MergeTripleMCMSConfig (p b c : Config) : gres Config :=
  if negb (Config_Equals p b) || negb (Config_Equals b c)
  then GErr "stellar MCMS: Proposer, Bypasser, and Canceller configs must be identical for a single MCMS instance"
  else GVal p.
Definition evmAddressToPadded32 (a : bytes) : bytes := replicate 12 x00 ++ resize 20 x00 a.
(** The inputs of [set_config]: signers, groups, quorums, parents and whether to clear. *)
Record SetConfigArgs := mkSetConfigArgs {
  SignerAddresses : list bytes;
  SignerGroups : list Z;
  GroupQuorums : bytes;
  GroupParents : bytes;
  ClearRoot : bool
}.
Definition ConfigToStellarSetConfig (cfg : option Config) (clearRoot : bool) : gres SetConfigArgs :=
  match cfg with
  | None => GErr "nil MCMS config"
  | Some cfg =>
      '(gq, gp, addrs, groups) ← of_result (ExtractSetConfigInputs cfg);
      GVal (mkSetConfigArgs (evmAddressToPadded32 <$> addrs) (uint32 <$> groups) gq gp clearRoot)
  end.
End refs.
End McmsUtil.

(** ** [sequences/mcms.go] *)

Module McmsSequences.
Import McmsUtil.

(** [deploy.MCMSDeploymentConfigPerChainWithAddress]; [TimelockAdmin] is an address of 20 bytes. *)
Record MCMSDeploymentConfig `{CcipUtils} := mkMCMSDeploymentConfig {
  mdChainSelector : Z;
  mdQualifier : option string;
  Proposer : Config;
  Bypasser : Config;
  Canceller : Config;
  TimelockMinDelay : option Z;
  TimelockAdmin : bytes;
  ExistingAddresses : list AddressRef
}.
(** [deploy.UpdateMCMSConfigInputPerChainWithSelector]. *)
Record UpdateMCMSConfigInput `{CcipUtils} := mkUpdateMCMSConfigInput {
  umChainSelector : Z;
  MCMConfig : Config;
  MCMContracts : list AddressRef
}.
Arguments mkMCMSDeploymentConfig {_}.
Arguments mkUpdateMCMSConfigInput {_}.

Section sequences.
Context {ST : SdkTypes} {SD : Sdk} {UT : UnicodeTables} {XS : XdrSdk} {HF : HostFunctions}
  {MS : MetaSdk} {RS : RpcSdk} {FC : FloatConv} {DS : DeployerSdk} {CU : CcipUtils}.
Context (enumerate : list string → list string).
Context {W : Type} {E : Type → Type} {CF : Cldf W E} {HO : Host W E}.
Context (getenv : string → string) (getwd : result string).

(** The inputs of the operations. *)
Definition deploy_input (wasmPath : string) (salt : bytes) : list value := [VString wasmPath; VBytes salt].
Definition set_config_input (contractID : string) (c : SetConfigArgs) : list value :=
  [VString contractID; VStruct [VSlice (VBytes <$> SignerAddresses c)]; VStruct [VSlice (VNum <$> SignerGroups c)];
   VBytes (GroupQuorums c); VBytes (GroupParents c); VBool (ClearRoot c)].
Definition mcms_initialize_input (contractID owner : string) (chainNetworkID : bytes) : list value :=
  [VString contractID; VString owner; VBytes chainNetworkID].
Definition timelock_initialize_input (contractID : string) (minDelay : Z) (admin : string)
    (proposers executors cancellers bypassers : list string) : list value :=
  [VString contractID; VNum minDelay; VString admin; VSlice (VString <$> proposers); VSlice (VString <$> executors);
   VSlice (VString <$> cancellers); VSlice (VString <$> bypassers)].
(** [depOut.Output.ContractID]. *)
Definition deployed_id (out : list value) : gres string :=
  match out with [VString cid] => GVal cid | _ => ill_typed end.

Definition zeroAddress : bytes := replicate 20 x00.
Definition stellarTimelockAdmin (admin : bytes) (signerAddress : string) : gres string :=
  if decide (admin = zeroAddress) then GVal signerAddress
  else GErr ("timelockAdmin must be the zero address for Stellar RBACTimelock deploy (use chain signer); " +:+
             "non-zero EVM addresses are not supported").
Definition min_delay (d : option Z) : gres Z :=
  match d with
  | None => GVal 0
  | Some d => if is_uint64 d then GVal d else GErr "timelockMinDelay must fit uint64"
  end.

Section steps.
Context (deps : StellarDeps W E) (signerAddress networkPassphrase : string) (inp : MCMSDeploymentConfig) (qual : string).
Let sel : Z := mdChainSelector inp.

(** The MCMS that the datastore knows, or a new one. *)
Definition ensure_mcms : prog W E (gres string) :=
  let contractID := fst (FindExistingStellarMCMS (ExistingAddresses inp) sel qual) in
  if decide (contractID = "") then
    wasmPath <-? Ret (of_result (ResolveMCMSWasmPath getenv getwd));
    depOut <-? gctx "mcms deploy"
                 (ExecuteOperation mcms_Deploy deps (deploy_input wasmPath (MCMSDeploySalt sel qual)));
    contractID <-? Ret (deployed_id depOut);
    _ <-? gctx "mcms initialize"
            (ExecuteOperation (mcms_Initialize enumerate) deps
               (mcms_initialize_input contractID signerAddress (ChainNetworkID networkPassphrase)));
    Ret (GVal contractID)
  else Ret (GVal contractID).
(** The timelock likewise, with the MCMS in all the roles but the executors'. *)
Definition ensure_timelock (contractID : string) : prog W E (gres string) :=
  let mergedRefs := ExistingAddresses inp ++ StellarMCMSDatastoreRefs sel qual contractID in
  let '(tlID, haveTL) := FindExistingStellarTimelock mergedRefs sel qual in
  if haveTL then Ret (GVal tlID)
  else
    tlWasm <-? Ret (of_result (ResolveTimelockWasmPath getenv getwd));
    tlOut <-? gctx "timelock deploy"
                (ExecuteOperation timelock_Deploy deps (deploy_input tlWasm (TimelockDeploySalt sel qual)));
    tlID <-? Ret (deployed_id tlOut);
    admin <-? Ret (stellarTimelockAdmin (TimelockAdmin inp) signerAddress);
    minDelay <-? Ret (min_delay (TimelockMinDelay inp));
    _ <-? gctx "timelock initialize"
            (ExecuteOperation (timelock_Initialize enumerate) deps
               (timelock_initialize_input tlID minDelay admin [contractID] [] [contractID] [contractID]));
    Ret (GVal tlID).
Definition deploy_steps (cfg : SetConfigArgs) : prog W E (gres OnChainOutput) :=
  contractID <-? ensure_mcms;
  _ <-? gctx "mcms set_config"
          (ExecuteOperation (mcms_SetConfig enumerate) deps (set_config_input contractID cfg));
  tlID <-? ensure_timelock contractID;
  Ret (GVal (mkOnChainOutput
         (StellarMCMSDatastoreRefs sel qual contractID ++ [StellarTimelockDatastoreRef sel qual tlID]) [])).
End steps.

Definition DeployStellarMCMS : Sequence W E MCMSDeploymentConfig OnChainOutput :=
  mkSequence "stellar-deploy-mcms"
    "Deploy single Soroban MCMS, set config, then deploy and initialize RBACTimelock (MCMS as proposer/bypasser/canceller)"
    (λ chains inp,
    match chains !! mdChainSelector inp with
    | None => Ret (GErr ("stellar chain " +:+ pretty (mdChainSelector inp) +:+ " not found in environment"))
    | Some ch =>
        let qual := QualifierStr (mdQualifier inp) in
        merged <-? Ret (MergeTripleMCMSConfig (Proposer inp) (Bypasser inp) (Canceller inp));
        cfg <-? Ret (ConfigToStellarSetConfig (Some merged) true);
        dep <-? Ret (of_result (Deployer.NewDeployerFromChain (NetworkPassphrase ch) (ChainSigner ch) []));
        deploy_steps (host (snd dep) (FromDeployer (fst dep))) (default "" (fst <$> ChainSigner ch))
          (NetworkPassphrase ch) inp qual cfg
    end).
(** Nothing to do. *)
Definition FinalizeStellarDeployMCMS : Sequence W E MCMSDeploymentConfig OnChainOutput :=
  mkSequence "stellar-finalize-deploy-mcms"
    "No-op finalize for Stellar MCMS (initialize is synchronous with deploy)"
    (λ chains inp, Ret (GVal (mkOnChainOutput [] []))).
(** The chain selector is the input's only field in common. *)
Definition GrantAdminRoleToTimelockStellar : Sequence W E Z OnChainOutput :=
  mkSequence "stellar-grant-admin-role-to-timelock"
    "No-op: Stellar has no CallProxy executor grant step (EVM parity stub)"
    (λ chains inp, Ret (GVal (mkOnChainOutput [] []))).

(** [for _, ref := range in.MCMContracts]. *)
Fixpoint set_configs (deps : StellarDeps W E) (cfg : SetConfigArgs) (refs : list AddressRef)
  : prog W E (gres OnChainOutput) :=
  match refs with
  | [] => Ret (GVal (mkOnChainOutput [] []))
  | ref :: refs' =>
      if decide (refAddress ref = "") then set_configs deps cfg refs'
      else
        _ <-? gctx ("set_config on " +:+ refAddress ref)
                (ExecuteOperation (mcms_SetConfig enumerate) deps (set_config_input (refAddress ref) cfg));
        set_configs deps cfg refs'
  end.
Definition UpdateStellarMCMSConfig : Sequence W E UpdateMCMSConfigInput OnChainOutput :=
  mkSequence "stellar-update-mcms-config" "Updates signer config on Stellar MCMS (single instance)"
    (λ chains inp,
    dep <-? Ret (deployer_of chains (umChainSelector inp));
    cfg <-? Ret (ConfigToStellarSetConfig (Some (MCMConfig inp)) true);
    set_configs (snd dep) cfg (MCMContracts inp)).

(** ** [adapters/stellar_mcms_reader.go] *)

(** [mcmstypes.ChainMetadata]. *)
Record ChainMetadata := mkChainMetadata { StartingOpCount : Z; MCMAddress : string }.
Definition GetChainMetadata (refs : list AddressRef) (chains : BlockChains) (chainSelector : Z) (inp : Input)
  : prog W E (gres ChainMetadata) :=
  ref <-? Ret (FindStellarMCMSAddressRef refs chainSelector inp);
  match chains !! chainSelector with
  | None => Ret (GErr ("stellar chain " +:+ pretty chainSelector +:+ " not in environment"))
  | Some ch =>
      dep <-? gctx "deployer from chain"
                (Ret (of_result (Deployer.NewDeployerFromChain (NetworkPassphrase ch) (ChainSigner ch) [])));
      rep <-? gctx "get_op_count"
                (ExecuteOperation (mcms_GetOpCount enumerate) (host (snd dep) (FromDeployer (fst dep)))
                   [VString (refAddress ref)]);
      Ret (match rep with
           | [VNum opCount] => GVal (mkChainMetadata opCount (refAddress ref))
           | _ => ill_typed
           end)
  end.
Definition GetTimelockRef : list AddressRef → Z → Input → gres AddressRef := FindStellarTimelockAddressRef.
Definition GetMCMSRef : list AddressRef → Z → Input → gres AddressRef := FindStellarMCMSAddressRef.
End sequences.
End McmsSequences.
