(* ===== verification/McmsProps.v ===== *)
(** Properties of the deployment of the governance contracts: which operations a deployment
    executes, in which order and with which inputs; a repetition; what the reader finds. *)

From Stdlib Require Import Ascii.
From Stdlib Require Import Strings.Byte.
From stdpp Require Import base gmap list strings pretty.
From S2P Require Import Prelude GoStrings Config Float Prog Sdk TxStore Tx Xdr ScVal GoBytes.
From S2P Require Import TypeConverters InvokerAdapter Ccv Codec Client Deployer Xdr Demo DemoCcv TypeConvertersProps.
From S2P Require Import Bindings BindingsProps CodecProps ClientProps McmsClient ContractsProps.
From S2P Require Import DeployerProps ExtraArgs Operations Ownership OwnershipProps Mcms.
Import Xdr CodecProps ClientProps ContractsProps.Contracts ContractsProps Operations Ownership.Ownership McmsUtil McmsSequences.

Local Open Scope Z_scope.

Module McmsProps.

(** Documented behaviour: a version equals itself, the names are distinct, and the lookup
    returns a reference that matches, when there is one. *)
Definition matches `{CcipUtils} (sel : Z) (ty : string) (qual : string) (r : AddressRef) : Prop :=
  refChainSelector r = sel ∧ refType r = ty ∧ Version_Equal (refVersion r) MCMSVersion = true ∧ refQualifier r = qual.
Class CcipUtilsLaws `{CcipUtils} : Prop := {
  MCMSVersion_Equal : Version_Equal MCMSVersion MCMSVersion = true;
  timelock_not_mcms : RBACTimelock ∉ mcms_types;
  GetAddressRef_found refs sel ty qual r : r ∈ refs → matches sel ty qual r →
    GetAddressRef refs sel ty MCMSVersion qual ∈ refs ∧
    matches sel ty qual (GetAddressRef refs sel ty MCMSVersion qual);
  GetAddressRef_none refs sel ty qual :
    (∀ r, r ∈ refs → ¬ matches sel ty qual r) → refAddress (GetAddressRef refs sel ty MCMSVersion qual) = "";
  ExtractSetConfigInputs_sizes cfg gq gp addrs groups :
    ExtractSetConfigInputs cfg = Ok (gq, gp, addrs, groups) →
    length gq = 32%nat ∧ length gp = 32%nat ∧ Forall (λ a : bytes, length a = 20%nat) addrs ∧
    Forall (λ g, 0 <= g < 256) groups ∧ length groups = length addrs
}.

(** ** A framework that asks the outside for each operation *)

Inductive framework_ext : Type → Type :=
| Execute (id : string) (inp : list value) : framework_ext (result (list value)).
#[export] Instance asking_cldf : Cldf unit framework_ext := {|
  ExecuteOperation := λ op deps inp, gcall (Execute (opID op) inp);
  ExecuteSequence := λ I O s chains inp, seqHandler s chains inp;
  NewBatchOperationFromWrites := λ wos, GErr "no writes"
|}.
(** The operations that deploy return an id. *)
Definition deploy_answers (X : Type) (e : framework_ext X) : X → Prop :=
  match e in framework_ext X return X → Prop with
  | Execute id inp => λ r,
      id = "mcms:deploy" ∨ id = "timelock:deploy" → ∀ out, r = Ok out → ∃ cid, out = [VString cid]
  end.
Definition operation_of {X} (e : framework_ext X) : string := match e with Execute id _ => id end.
(** An operation that succeeded. *)
Definition done (id : string) (inp : list value) (out : list value) : event (E := framework_ext) :=
  answered (Execute id inp) (Ok out).
Definition failed (id : string) (inp : list value) (e : string) : event (E := framework_ext) :=
  answered (Execute id inp) (Err e).

Section deployment.
Context {ST : SdkTypes} {SD : Sdk} {UT : UnicodeTables} {XS : XdrSdk} {XL : XdrLaws} {HF : HostFunctions}
  {MS : MetaSdk} {RS : RpcSdk} {FC : FloatConv} {DS : DeployerSdk} {CU : CcipUtils} {CL : CcipUtilsLaws}.
Context (enumerate : list string → list string) {HO : Host unit framework_ext}.
Context (getenv : string → string) (getwd : result string).

Lemma gthen_val {A B} (a : A) (f : A → prog unit framework_ext (gres B)) : gthen (Ret (GVal a)) f = f a.
Proof. done. Qed.
Lemma gthen_assoc {A B C} (p : prog unit framework_ext (gres A)) (f : A → prog unit framework_ext (gres B))
    (g : B → prog unit framework_ext (gres C)) w h Q :
  total deploy_answers (gthen p (λ a, gthen (f a) g)) w h Q → total deploy_answers (gthen (gthen p f) g) w h Q.
Proof.
  revert w h. induction p as [[a|e|m]|msg|X k IH k'|X k IH k'|X e k IH]; intros w h; cbn; auto; try naive_solver.
Qed.
Lemma total_execute {A} ctx op deps i (f : list value → prog unit framework_ext (gres A)) h Q :
  (∀ r, deploy_answers _ (Execute (opID op) i) r →
     total deploy_answers (match r with Ok out => f out | Err e => Ret (GErr (ctx +:+ ": " +:+ e)) end) tt
       (h ++ [answered (Execute (opID op) i) r]) Q) →
  total deploy_answers (gthen (gctx ctx (ExecuteOperation op deps i)) f) tt h Q.
Proof. intros H r Hr. specialize (H r Hr). by destruct r. Qed.

(** ** References *)

Lemma find_ref_skip wanted refs refs' sel qual :
  find_ref wanted refs sel qual = ("", false) →
  find_ref wanted (refs ++ refs') sel qual = find_ref wanted refs' sel qual.
Proof.
  induction refs as [|r refs IH]; [done|]. cbn [find_ref app].
  repeat (case_match; [by apply IH|]). case_match; [|by apply IH].
  by intros [=].
Qed.

Lemma find_ref_here wanted r refs sel qual :
  refChainSelector r = sel → refQualifier r = qual → Version_Equal (refVersion r) MCMSVersion = true →
  find_ref wanted (r :: refs) sel qual = if wanted r then (refAddress r, true) else find_ref wanted refs sel qual.
Proof.
  intros Hs Hq Hv. cbn [find_ref]. by rewrite (proj2 (Z.eqb_eq _ _) Hs), bool_decide_true, Hv by done.
Qed.

Lemma found_mcms refs sel qual cid : cid ≠ "" →
  FindExistingStellarMCMS refs sel qual = ("", false) → ∀ rest,
  FindExistingStellarMCMS (refs ++ StellarMCMSDatastoreRefs sel qual cid ++ rest) sel qual = (cid, true).
Proof.
  intros Hc Hn rest. unfold FindExistingStellarMCMS. rewrite find_ref_skip by done.
  cbn [StellarMCMSDatastoreRefs mcms_types fmap list_fmap app].
  rewrite find_ref_here by (try done; apply MCMSVersion_Equal). cbn [refType refAddress existsb mcms_types].
  by rewrite bool_decide_true, (bool_decide_false (cid = "")) by done.
Qed.

(** No MCMS reference is taken for the timelock. *)
Lemma mcms_refs_no_timelock sel qual cid rest :
  FindExistingStellarTimelock (StellarMCMSDatastoreRefs sel qual cid ++ rest) sel qual =
  FindExistingStellarTimelock rest sel qual.
Proof.
  pose proof timelock_not_mcms as Hn. unfold mcms_types in Hn. rewrite !not_elem_of_cons in Hn.
  destruct Hn as (H1 & H2 & H3 & H4 & _). unfold FindExistingStellarTimelock.
  cbn [StellarMCMSDatastoreRefs mcms_types fmap list_fmap app].
  rewrite !find_ref_here by (try done; apply MCMSVersion_Equal). cbn [refType].
  rewrite !(bool_decide_false (_ = RBACTimelock)) by congruence. done.
Qed.

(** ** The signers *)

(** Signers and groups of the sizes that the contract's types require. *)
Definition sized (c : SetConfigArgs) : Prop :=
  Forall (λ b : bytes, length b = 32%nat) (SignerAddresses c) ∧ Forall (λ g, is_uint32 g = true) (SignerGroups c) ∧
  length (GroupQuorums c) = 32%nat ∧ length (GroupParents c) = 32%nat ∧
  length (SignerGroups c) = length (SignerAddresses c).

Lemma padded_address a : length a = 20%nat →
  length (evmAddressToPadded32 a) = 32%nat ∧ take 12 (evmAddressToPadded32 a) = replicate 12 x00 ∧
  drop 12 (evmAddressToPadded32 a) = a.
Proof.
  intros Ha. unfold evmAddressToPadded32. rewrite length_app, length_replicate, length_resize.
  split_and!; [done|by rewrite take_app_length' by (by rewrite length_replicate)|].
  rewrite drop_app_length' by (by rewrite length_replicate). by rewrite resize_all_alt.
Qed.

Lemma config_sized cfg0 clearRoot c : ConfigToStellarSetConfig (Some cfg0) clearRoot = GVal c → sized c.
Proof.
  unfold ConfigToStellarSetConfig. destruct (ExtractSetConfigInputs cfg0) as [[[[gq gp] addrs] groups]|e] eqn:He; [|done].
  cbn. intros [= <-]. destruct (ExtractSetConfigInputs_sizes _ _ _ _ _ He) as (Hq & Hp & Ha & Hg & Hl).
  split_and!; cbn [SignerAddresses SignerGroups GroupQuorums GroupParents]; [| |done|done|by rewrite !length_fmap].
  - apply Forall_fmap. eapply Forall_impl; [exact Ha|]. intros a H. by apply padded_address.
  - apply Forall_fmap. eapply Forall_impl; [exact Hg|]. intros g H. cbn in *. apply is_uint32_spec.
    rewrite uint32_id; [lia|]. apply is_uint32_spec. lia.
Qed.

Lemma mcms_known : McmsClient.contract ∈ contracts.
Proof. unfold contracts. do 16 right. left. Qed.
Lemma set_config_typed cid c : sized c →
  fields_typed (named_in McmsClient.contract) (Inputs McmsClient.set_config) (tail (set_config_input cid c)).
Proof.
  intros (Ha & Hg & Hq & Hp & _). unfold set_config_input, fields_typed. cbn [tail McmsClient.set_config Inputs].
  apply Forall2_cons; split; [|apply Forall2_cons; split].
  - refine (ex_intro _ [_] (conj eq_refl _)). constructor; [|constructor].
    cbn [fieldType typed]. apply Forall_fmap. exact Ha.
  - refine (ex_intro _ [_] (conj eq_refl _)). constructor; [|constructor].
    cbn [fieldType typed]. apply Forall_fmap. exact Hg.
  - by repeat constructor.
Qed.

(** The signers reach the contract. Every signer of a configuration becomes 32 bytes, its
    address of 20 bytes after 12 zeros, with its group; and the operation that sets them is one
    transaction, [set_config] of the MCMS, whose arguments on the wire carry these values. *)
Theorem signers_reach_contract cfg0 clearRoot c cid deps : enumerates enumerate →
  ConfigToStellarSetConfig (Some cfg0) clearRoot = GVal c →
  (∃ gq gp addrs groups, ExtractSetConfigInputs cfg0 = Ok (gq, gp, addrs, groups) ∧
     drop 12 <$> SignerAddresses c = addrs ∧ SignerGroups c = groups ∧ GroupQuorums c = gq ∧ GroupParents c = gp) ∧
  ∃ args, carries (package enumerate McmsClient.contract) (Inputs McmsClient.set_config) (tail (set_config_input cid c)) args ∧
    opHandler (mcms_SetConfig enumerate (W := unit) (E := framework_ext)) deps (set_config_input cid c) =
      (result <-? gctx "failed to call set_config" (Invoke (Invoker := depsInvoker deps) cid "set_config" args);
       Ret (Client.results_of (package enumerate McmsClient.contract) McmsClient.set_config result)).
Proof.
  intros Hen Hc. pose proof (config_sized _ _ _ Hc) as Hs. split.
  - unfold ConfigToStellarSetConfig in Hc.
    destruct (ExtractSetConfigInputs cfg0) as [[[[gq gp] addrs] groups]|e] eqn:He; [|done].
    injection Hc as <-. destruct (ExtractSetConfigInputs_sizes _ _ _ _ _ He) as (_ & _ & Ha & Hg & _).
    exists gq, gp, addrs, groups. cbn [SignerAddresses SignerGroups GroupQuorums GroupParents]. split_and!; [done| | |done..].
    + rewrite <- list_fmap_compose. rewrite <- (list_fmap_id addrs) at 2. apply list_fmap_ext.
      intros i a Hi. cbn. apply padded_address. by eapply (proj1 (Forall_lookup _ _) Ha).
    + rewrite <- (list_fmap_id groups) at 2. apply list_fmap_ext. intros i g Hi. cbn.
      apply uint32_id, is_uint32_spec. pose proof (proj1 (Forall_lookup _ _) Hg i g Hi) as H. cbn in H. lia.
  - destruct (method_one_call (package enumerate McmsClient.contract) (named_in McmsClient.contract) (known McmsClient.contract)
      (named_env enumerate McmsClient.contract mcms_known Hen)
      (IV := depsInvoker deps) cid McmsClient.set_config _ eq_refl (set_config_typed cid c Hs)) as (args & Hargs & Heq).
    exists args. split; [exact Hargs|]. exact Heq.
Qed.

(** ** Deploying *)

Context (inp : MCMSDeploymentConfig) (chains : gmap Z StellarChain) (ch : StellarChain)
  (address : string) (full : bool) (merged : Config) (cfg : SetConfigArgs).
Context (Hch : chains !! mdChainSelector inp = Some ch) (Hsigner : ChainSigner ch = Some (address, full)).
Context (Hmerged : MergeTripleMCMSConfig (Proposer inp) (Bypasser inp) (Canceller inp) = GVal merged).
Context (Hcfg : ConfigToStellarSetConfig (Some merged) true = GVal cfg).
Let sel : Z := mdChainSelector inp.
Let qual : string := QualifierStr (mdQualifier inp).

(** What a deployment executes, given the ids and the answers. *)
Definition mcms_deployed (wasm cid : string) (o : list value) : list (event (E := framework_ext)) :=
  [done "mcms:deploy" (deploy_input wasm (MCMSDeploySalt sel qual)) [VString cid];
   done "mcms:initialize" (mcms_initialize_input cid address (ChainNetworkID (NetworkPassphrase ch))) o].
Definition configured (cid : string) (o : list value) : list (event (E := framework_ext)) :=
  [done "mcms:set-config" (set_config_input cid cfg) o].
Definition timelock_deployed (wasm tid cid : string) (delay : Z) (o : list value) : list (event (E := framework_ext)) :=
  [done "timelock:deploy" (deploy_input wasm (TimelockDeploySalt sel qual)) [VString tid];
   done "timelock:initialize" (timelock_initialize_input tid delay address [cid] [] [cid] [cid]) o].
(** The references it returns. *)
Definition references (cid tid : string) : list AddressRef :=
  StellarMCMSDatastoreRefs sel qual cid ++ [StellarTimelockDatastoreRef sel qual tid].

(** The operations tried, in order. *)
Definition tried (h : list (event (E := framework_ext))) : list string :=
  (λ ev : event, operation_of (fst (projT2 ev))) <$> h.

Lemma deploy_runs Q :
  (∀ deps, total deploy_answers
     (deploy_steps enumerate getenv getwd deps address (NetworkPassphrase ch) inp qual cfg) tt [] Q) →
  total deploy_answers (seqHandler (DeployStellarMCMS enumerate getenv getwd) chains inp) tt [] Q.
Proof.
  intros H. cbn [DeployStellarMCMS seqHandler]. rewrite Hch. cbn zeta.
  rewrite Hmerged, gthen_val, Hcfg, gthen_val, Hsigner. destruct full; apply H.
Qed.

Lemma find_timelock cid :
  FindExistingStellarTimelock (ExistingAddresses inp) sel qual = ("", false) →
  FindExistingStellarTimelock (ExistingAddresses inp ++ StellarMCMSDatastoreRefs sel qual cid) sel qual = ("", false).
Proof.
  intros Hn. unfold FindExistingStellarTimelock. rewrite find_ref_skip by exact Hn.
  rewrite <- (app_nil_r (StellarMCMSDatastoreRefs _ _ _)). exact (mcms_refs_no_timelock sel qual cid []).
Qed.
(** The [k]-th operation failed. *)
Ltac stops k := exists k; split; [done|]; eexists _, _, _, _.

(** C20. A first deployment. When the framework executes what it is asked, it is asked, in this
    order, to deploy the MCMS, initialise it with the deployer as its owner, set its signers,
    deploy the timelock and initialise it with the deployer as its administrator and the MCMS
    as proposer, canceller and bypasser; the result is the five references. When one of them
    fails the sequence stops there with an error. It never panics. *)
Theorem first_deployment wasm tl_wasm delay :
  FindExistingStellarMCMS (ExistingAddresses inp) sel qual = ("", false) →
  FindExistingStellarTimelock (ExistingAddresses inp) sel qual = ("", false) →
  ResolveMCMSWasmPath getenv getwd = Ok wasm → ResolveTimelockWasmPath getenv getwd = Ok tl_wasm →
  TimelockAdmin inp = zeroAddress → min_delay (TimelockMinDelay inp) = GVal delay →
  total deploy_answers (seqHandler (DeployStellarMCMS enumerate getenv getwd) chains inp) tt [] (λ r _ h,
    match r with
    | GVal out => ∃ cid tid o1 o2 o3,
        h = mcms_deployed wasm cid o1 ++ configured cid o2 ++ timelock_deployed tl_wasm tid cid delay o3 ∧
        out = mkOnChainOutput (references cid tid) []
    | GErr _ => ∃ k, tried h = take (S k)
        ["mcms:deploy"; "mcms:initialize"; "mcms:set-config"; "timelock:deploy"; "timelock:initialize"] ∧
        ∃ h' id i e, h = h' ++ [failed id i e]
    | GPanic _ => False
    end).
Proof.
  intros Hm Ht Hw Htw Hadmin Hdelay. apply deploy_runs. intros deps.
  unfold deploy_steps, ensure_mcms. fold sel. rewrite Hm. cbn [fst]. rewrite decide_True, Hw by done.
  apply gthen_assoc. cbn [of_result]. rewrite gthen_val.
  apply gthen_assoc, total_execute. intros [out|e] Hr; [|by stops 0%nat].
  destruct (Hr (or_introl eq_refl) out eq_refl) as [cid ->]. cbn [deployed_id]. apply gthen_assoc. rewrite gthen_val.
  apply gthen_assoc, total_execute. intros [o1|e] _; [|by stops 1%nat]. rewrite gthen_val.
  apply total_execute. intros [o2|e] _; [|by stops 2%nat].
  unfold ensure_timelock. fold sel. rewrite find_timelock by done. rewrite Htw. cbn [of_result].
  apply gthen_assoc. rewrite gthen_val. apply gthen_assoc, total_execute. intros [out|e] Hr'; [|by stops 3%nat].
  destruct (Hr' (or_intror eq_refl) out eq_refl) as [tid ->]. cbn [deployed_id]. apply gthen_assoc. rewrite gthen_val.
  unfold stellarTimelockAdmin. rewrite decide_True by done. apply gthen_assoc. rewrite gthen_val, Hdelay.
  apply gthen_assoc. rewrite gthen_val. apply gthen_assoc, total_execute. intros [o3|e] _; [|by stops 4%nat].
  rewrite !gthen_val. cbn [total]. by exists cid, tid, o1, o2, o3.
Qed.

(** A repeated deployment. When the datastore holds the references that an earlier one
    returned, nothing is deployed or initialised again: the signers of the same MCMS are set
    and the same references are returned. *)
Theorem repeated_deployment existing cid tid : cid ≠ "" → tid ≠ "" →
  FindExistingStellarMCMS existing sel qual = ("", false) →
  FindExistingStellarTimelock existing sel qual = ("", false) →
  ExistingAddresses inp = existing ++ references cid tid →
  total deploy_answers (seqHandler (DeployStellarMCMS enumerate getenv getwd) chains inp) tt [] (λ r _ h,
    match r with
    | GVal out => ∃ o, h = configured cid o ∧ out = mkOnChainOutput (references cid tid) []
    | GErr _ => ∃ e, h = [failed "mcms:set-config" (set_config_input cid cfg) e]
    | GPanic _ => False
    end).
Proof.
  intros Hc Ht Hm Htl He. apply deploy_runs. intros deps.
  unfold deploy_steps, ensure_mcms. fold sel. rewrite He. unfold references. rewrite found_mcms by done.
  cbn [fst]. rewrite decide_False by done. rewrite gthen_val.
  apply total_execute. intros [o|e] _; [|by exists e].
  unfold ensure_timelock. fold sel. rewrite He. unfold references. rewrite <- !app_assoc.
  assert (FindExistingStellarTimelock (existing ++ StellarMCMSDatastoreRefs sel qual cid ++
            [StellarTimelockDatastoreRef sel qual tid] ++ StellarMCMSDatastoreRefs sel qual cid) sel qual = (tid, true)) as ->.
  { unfold FindExistingStellarTimelock. rewrite find_ref_skip by exact Htl.
    fold (FindExistingStellarTimelock (StellarMCMSDatastoreRefs sel qual cid ++ [StellarTimelockDatastoreRef sel qual tid] ++
      StellarMCMSDatastoreRefs sel qual cid) sel qual). rewrite mcms_refs_no_timelock. unfold FindExistingStellarTimelock.
    cbn [app]. rewrite find_ref_here by (try done; apply MCMSVersion_Equal). cbn [refType refAddress StellarTimelockDatastoreRef].
    by rewrite bool_decide_true, bool_decide_false by done. }
  rewrite gthen_val. cbn [total]. by exists o.
Qed.

(** The administrator is checked late. A deployment for another administrator than the
    deployer, which is not supported, fails only when the MCMS is deployed, initialised and
    configured and the timelock is deployed, without a reference to any of them. *)
Theorem late_admin_check wasm tl_wasm :
  FindExistingStellarMCMS (ExistingAddresses inp) sel qual = ("", false) →
  FindExistingStellarTimelock (ExistingAddresses inp) sel qual = ("", false) →
  ResolveMCMSWasmPath getenv getwd = Ok wasm → ResolveTimelockWasmPath getenv getwd = Ok tl_wasm →
  TimelockAdmin inp ≠ zeroAddress →
  total deploy_answers (seqHandler (DeployStellarMCMS enumerate getenv getwd) chains inp) tt [] (λ r _ h,
    match r with
    | GErr _ =>
        (∃ h' id i e, h = h' ++ [failed id i e]) ∨
        (∃ cid tid o1 o2, h = mcms_deployed wasm cid o1 ++ configured cid o2 ++
           [done "timelock:deploy" (deploy_input tl_wasm (TimelockDeploySalt sel qual)) [VString tid]])
    | _ => False
    end).
Proof.
  intros Hm Ht Hw Htw Hadmin. apply deploy_runs. intros deps.
  unfold deploy_steps, ensure_mcms. fold sel. rewrite Hm. cbn [fst]. rewrite decide_True, Hw by done.
  apply gthen_assoc. cbn [of_result]. rewrite gthen_val.
  apply gthen_assoc, total_execute. intros [out|e] Hr; [|left; by eexists _, _, _, _].
  destruct (Hr (or_introl eq_refl) out eq_refl) as [cid ->]. cbn [deployed_id]. apply gthen_assoc. rewrite gthen_val.
  apply gthen_assoc, total_execute. intros [o1|e] _; [|left; by eexists _, _, _, _]. rewrite gthen_val.
  apply total_execute. intros [o2|e] _; [|left; by eexists _, _, _, _].
  unfold ensure_timelock. fold sel. rewrite find_timelock by done. rewrite Htw. cbn [of_result].
  apply gthen_assoc. rewrite gthen_val. apply gthen_assoc, total_execute. intros [out|e] Hr'; [|left; by eexists _, _, _, _].
  destruct (Hr' (or_intror eq_refl) out eq_refl) as [tid ->]. cbn [deployed_id]. apply gthen_assoc. rewrite gthen_val.
  unfold stellarTimelockAdmin. rewrite decide_False by done. right. by exists cid, tid, o1, o2.
Qed.

(** What is deployed is found. In a datastore that holds the references of a deployment
    and no others for that chain and qualifier, the reader finds the deployed MCMS whatever
    the action of the proposal, and the deployed timelock; an unknown action is an error. *)
Theorem reader_finds_deployment existing cid tid action : cid ≠ "" → tid ≠ "" →
  (∀ r ty, r ∈ existing → ¬ matches sel ty qual r) →
  let refs := existing ++ references cid tid in
  action ∈ [TimelockActionSchedule; TimelockActionBypass; TimelockActionCancel] →
  (∃ r, GetMCMSRef refs sel (mkInput action qual) = GVal r ∧ refAddress r = cid) ∧
  (∃ r, GetTimelockRef refs sel (mkInput action qual) = GVal r ∧ refAddress r = tid).
Proof.
  intros Hc Ht Hex refs Hact.
  assert (∀ ty r, matches sel ty qual r → r ∈ refs → r ∈ references cid tid) as Hin.
  { intros ty r Hr [H|H]%elem_of_app; [by destruct (Hex r ty H)|done]. }
  pose proof timelock_not_mcms as Hno.
  assert (∀ ty, ty ∈ mcms_types → refAddress (GetAddressRef refs sel ty MCMSVersion qual) = cid) as Hmcms.
  { intros ty Hty. destruct (GetAddressRef_found refs sel ty qual (mkAddressRef sel ty MCMSVersion qual cid)) as [H1 H2].
    - apply elem_of_app. right. apply elem_of_app. left. apply list_elem_of_fmap. eauto.
    - split_and!; try done. apply MCMSVersion_Equal.
    - pose proof (Hin _ _ H2 H1) as [(ct & -> & _)%list_elem_of_fmap|H3]%elem_of_app; [done|].
      apply list_elem_of_singleton in H3. destruct H2 as (_ & Hb & _). rewrite H3 in Hb. cbn in Hb. congruence. }
  assert (∀ ty, refAddress (GetAddressRef refs sel ty MCMSVersion qual) = cid →
     refAddress (GetAddressRef refs sel ty MCMSVersion qual) ≠ "") as Hne by congruence.
  assert (RBACTimelock ∉ mcms_types → refAddress (GetAddressRef refs sel RBACTimelock MCMSVersion qual) = tid) as Htl.
  { intros _. destruct (GetAddressRef_found refs sel RBACTimelock qual (StellarTimelockDatastoreRef sel qual tid)) as [H1 H2].
    - apply elem_of_app. right. apply elem_of_app. right. by left.
    - split_and!; try done. apply MCMSVersion_Equal.
    - pose proof (Hin _ _ H2 H1) as [(ct & Heq & Hct)%list_elem_of_fmap|H3]%elem_of_app.
      + destruct H2 as (_ & Hb & _). rewrite Heq in Hb. cbn in Hb. subst ct. done.
      + apply list_elem_of_singleton in H3. by rewrite H3. }
  split.
  - unfold GetMCMSRef, FindStellarMCMSAddressRef, MCMSRefLookupOrder. cbn [TimelockAction Qualifier].
    assert (∀ ty, ty ∈ mcms_types → ∀ rest, first_ref refs sel qual (ty :: rest) =
              Some (GetAddressRef refs sel ty MCMSVersion qual)) as Hfirst.
    { intros ty Hty rest. cbn [first_ref]. rewrite decide_False; [done|]. rewrite Hmcms by done. done. }
    assert (ProposerManyChainMultisig ∈ mcms_types ∧ BypasserManyChainMultisig ∈ mcms_types ∧
            CancellerManyChainMultisig ∈ mcms_types) as (Hp & Hb & Hcn).
    { unfold mcms_types. rewrite !elem_of_cons. auto 8. }
    apply elem_of_cons in Hact as [->|[->|[->|?%not_elem_of_nil]%elem_of_cons]%elem_of_cons]; [| | |done];
      repeat (rewrite decide_False by done); rewrite decide_True by done; cbn [mbind gres_bind]; rewrite Hfirst by done;
      (eexists; split; [done|by apply Hmcms]).
  - unfold GetTimelockRef, FindStellarTimelockAddressRef. cbn [Qualifier].
    rewrite decide_False by (rewrite Htl by done; done). eexists. split; [done|by apply Htl].
Qed.
End deployment.

(** ** A concrete framework *)

Import DemoXdr Demo TypeConvertersProps DeployerProps.

Definition demo_matches (sel : Z) (ty : string) (v : option string) (qual : string) (r : AddressRef) : bool :=
  (refChainSelector r =? sel) && bool_decide (refType r = ty) && bool_decide (refVersion r = v) &&
  bool_decide (refQualifier r = qual).
(** A configuration is the list of its signers' addresses; the first reference is taken. *)
#[export] Instance demo_utils : CcipUtils := {|
  Version_Equal a b := bool_decide (a = b);
  MCMSVersion := Some "1.0.0";
  RBACTimelock := "RBACTimelock";
  ProposerManyChainMultisig := "Proposer";
  BypasserManyChainMultisig := "Bypasser";
  CancellerManyChainMultisig := "Canceller";
  GetAddressRef refs sel ty v qual :=
    default (mkAddressRef 0 "" None "" "") (snd <$> list_find (λ r, demo_matches sel ty v qual r = true) refs);
  Config := list bytes;
  Config_Equals a b := bool_decide (a = b);
  ExtractSetConfigInputs addrs :=
    if forallb (λ a : bytes, length a =? 20)%nat addrs
    then Ok (replicate 32 x01, replicate 32 x00, addrs, replicate (length addrs) 0)
    else Err "bad address"
|}.
Lemma demo_matches_spec sel ty qual r :
  demo_matches sel ty MCMSVersion qual r = true ↔ matches sel ty qual r.
Proof.
  unfold demo_matches, matches. rewrite !andb_true_iff, Z.eqb_eq, !bool_decide_eq_true. cbn [Version_Equal demo_utils].
  rewrite bool_decide_eq_true. tauto.
Qed.
#[export] Instance demo_utils_laws : CcipUtilsLaws.
Proof.
  constructor.
  - done.
  - by apply (bool_decide_unpack _).
  - intros refs sel ty qual r Hr Hm. cbn [GetAddressRef demo_utils].
    destruct (list_find _ refs) as [[i r']|] eqn:Hf.
    + apply list_find_Some in Hf as (Hi & Hm' & _). cbn. split; [by eapply list_elem_of_lookup_2|].
      by apply demo_matches_spec.
    + apply list_find_None in Hf. rewrite Forall_forall in Hf. destruct (Hf r Hr). by apply demo_matches_spec.
  - intros refs sel ty qual Hno. cbn [GetAddressRef demo_utils].
    destruct (list_find _ refs) as [[i r']|] eqn:Hf; [|done].
    apply list_find_Some in Hf as (Hi & Hm' & _). destruct (Hno r'); [by eapply list_elem_of_lookup_2|].
    by apply demo_matches_spec.
  - intros cfg gq gp addrs groups. cbn [ExtractSetConfigInputs demo_utils].
    destruct (forallb _ cfg) eqn:Hf; [|done]. intros [= <- <- <- <-]. split_and!; [done|done| | |by rewrite length_replicate].
    + apply Forall_forall. intros a Ha. rewrite forallb_forall in Hf. apply Nat.eqb_eq, Hf. by apply list_elem_of_In.
    + apply Forall_replicate. lia.
Qed.
#[export] Instance demo_host_unit : Host unit framework_ext :=
  λ _ _, mkStellarDeps (λ _ _, Ret (GErr "no upload"))
    {| Invoke := λ _ _ _, Ret (GErr "no chain"); SimulateCall := λ _ _ _, Ret (GErr "no chain") |}.
(** Everything works. *)
Definition demo_framework : oracle (E := framework_ext) := λ X n e,
  match e in framework_ext X return X with
  | Execute id inp =>
      if decide (id = "mcms:deploy") then Ok [VString "CMCMS"]
      else if decide (id = "timelock:deploy") then Ok [VString "CTIMELOCK"] else Ok []
  end.
Lemma demo_framework_answers X m e : deploy_answers X e (demo_framework X m e).
Proof.
  destruct e as [id inp]. cbn. intros [-> | ->] out; [rewrite decide_True by done|rewrite decide_False, decide_True by done];
    intros [= <-]; eauto.
Qed.

Definition demo_signers : list bytes := [replicate 20 x07].
Definition demo_deployment (admin : bytes) (existing : list AddressRef) : MCMSDeploymentConfig :=
  mkMCMSDeploymentConfig 5 (Some "q") demo_signers demo_signers demo_signers (Some 3600) admin existing.
Definition demo_mcms_chain : StellarChain := mkStellarChain "test network" (Some ("GALICE", true)).
Definition demo_mcms_chains : gmap Z StellarChain := {[ 5 := demo_mcms_chain ]}.
Lemma demo_mcms_found : demo_mcms_chains !! 5 = Some demo_mcms_chain.
Proof. exact (lookup_singleton_eq _ _). Qed.
Definition demo_env (variable : string) : string := if decide (variable = "CHAINLINK_STELLAR_ROOT") then "/repo/" else "".
Definition demo_cfg_args : SetConfigArgs :=
  mkSetConfigArgs [evmAddressToPadded32 (replicate 20 x07)] [0] (replicate 32 x01) (replicate 32 x00) true.
Definition demo_run (inp : MCMSDeploymentConfig) : prog unit framework_ext (gres OnChainOutput) :=
  seqHandler (DeployStellarMCMS OwnershipProps.same_keys demo_env (Err "no directory")) demo_mcms_chains inp.

Lemma deployed_value inp Q : total deploy_answers (demo_run inp) tt [] Q →
  OwnershipProps.succeeds (hrun demo_framework (demo_run inp) 0 tt) = true →
  ∃ out h, hrun demo_framework (demo_run inp) 0 tt = (Done (GVal out), h, tt) ∧ Q (GVal out) tt h.
Proof.
  intros H Hs. apply (total_hrun deploy_answers _ demo_framework 0) in H; [|apply demo_framework_answers].
  destruct H as (r & h & [] & Hr & H). rewrite Hr in Hs. destruct r as [out|e|m]; [|done..]. by exists out, h.
Qed.

Lemma first_deployment_witness : ∃ out h, hrun demo_framework (demo_run (demo_deployment zeroAddress [])) 0 tt = (Done (GVal out), h, tt) ∧
  tried h = ["mcms:deploy"; "mcms:initialize"; "mcms:set-config"; "timelock:deploy"; "timelock:initialize"] ∧
  length (Addresses out) = 5%nat.
Proof.
  pose proof (first_deployment OwnershipProps.same_keys demo_env (Err "no directory") (demo_deployment zeroAddress []) demo_mcms_chains
    demo_mcms_chain "GALICE" true demo_signers demo_cfg_args demo_mcms_found eq_refl eq_refl eq_refl
    "/repo/target/wasm32v1-none/release/mcms.wasm" "/repo/target/wasm32v1-none/release/timelock.wasm" 3600
    eq_refl eq_refl eq_refl eq_refl eq_refl eq_refl) as H.
  destruct (deployed_value _ _ H) as (out & h & Hr & cid & tid & o1 & o2 & o3 & Hh & ->); [by vm_compute|].
  exists (mkOnChainOutput (references (demo_deployment zeroAddress []) cid tid) []), h.
  split; [exact Hr|]. by rewrite Hh.
Defined.

Lemma repeated_deployment_witness : ∃ out h,
  hrun demo_framework (demo_run (demo_deployment zeroAddress (references (demo_deployment zeroAddress []) "CMCMS" "CTIMELOCK"))) 0 tt =
    (Done (GVal out), h, tt) ∧
  tried h = ["mcms:set-config"] ∧ Addresses out = references (demo_deployment zeroAddress []) "CMCMS" "CTIMELOCK".
Proof.
  pose proof (repeated_deployment OwnershipProps.same_keys demo_env (Err "no directory")
    (demo_deployment zeroAddress (references (demo_deployment zeroAddress []) "CMCMS" "CTIMELOCK")) demo_mcms_chains
    demo_mcms_chain "GALICE" true demo_signers demo_cfg_args demo_mcms_found eq_refl eq_refl eq_refl
    [] "CMCMS" "CTIMELOCK" ltac:(done) ltac:(done) eq_refl eq_refl eq_refl) as H.
  destruct (deployed_value _ _ H) as (out & h & Hr & o & Hh & ->); [by vm_compute|].
  eexists _, h. split; [exact Hr|]. by rewrite Hh.
Defined.

Lemma late_admin_check_witness : ∃ e h,
  hrun demo_framework (demo_run (demo_deployment (replicate 20 x09) [])) 0 tt = (Done (GErr e), h, tt).
Proof.
  pose proof (late_admin_check OwnershipProps.same_keys demo_env (Err "no directory") (demo_deployment (replicate 20 x09) []) demo_mcms_chains
    demo_mcms_chain "GALICE" true demo_signers demo_cfg_args demo_mcms_found eq_refl eq_refl eq_refl
    "/repo/target/wasm32v1-none/release/mcms.wasm" "/repo/target/wasm32v1-none/release/timelock.wasm"
    eq_refl eq_refl eq_refl eq_refl ltac:(by apply (bool_decide_unpack _))) as H.
  apply (total_hrun deploy_answers _ demo_framework 0) in H; [|apply demo_framework_answers].
  destruct H as ([out|e|m] & h & [] & Hr & H); [done| |done]. by exists e, h.
Defined.

Lemma reader_finds_deployment_witness : ∃ r r',
  GetMCMSRef (references (demo_deployment zeroAddress []) "CMCMS" "CTIMELOCK") 5 (mkInput "bypass" "q") = GVal r ∧
  GetTimelockRef (references (demo_deployment zeroAddress []) "CMCMS" "CTIMELOCK") 5 (mkInput "bypass" "q") = GVal r' ∧
  refAddress r = "CMCMS" ∧ refAddress r' = "CTIMELOCK".
Proof.
  destruct (reader_finds_deployment (demo_deployment zeroAddress []) [] "CMCMS" "CTIMELOCK" "bypass")
    as [(r & Hr & Ha) (r' & Hr' & Ha')]; [done|done|by intros r ty ?%not_elem_of_nil|by right; left|].
  by exists r, r'.
Defined.

Lemma signers_reach_contract_witness : ∃ args,
  carries (package OwnershipProps.same_keys McmsClient.contract) (Inputs McmsClient.set_config)
    (tail (set_config_input "CMCMS" demo_cfg_args)) args.
Proof.
  destruct (signers_reach_contract (CU := demo_utils) (CL := demo_utils_laws) OwnershipProps.same_keys demo_signers true demo_cfg_args "CMCMS"
    (host (Deployer.mkDeployerState 0 ∅ 1%positive) (mkStellarDeps (λ _ _, Ret (GErr "")) (Deployer.deployer_invoker demo_deployer)))
    (λ l, Permutation_refl l) eq_refl) as [_ (args & Hargs & _)].
  by exists args.
Defined.
End McmsProps.
