(* ===== verification/Lanes.v ===== *)
(** What a deployment records and looks up, and the lanes it configures: the utilities of
    [deployment/ccip/stellarutil] in the module [StellarUtil]; in the module [Lanes], the
    datastore's references, their writers and readers ([datastore_contract_ref.go],
    [stellar_datastore.go], [datastore_lookup.go]), the configurations of lanes
    ([lane_config.go]), and the adapter that answers for the chain
    ([adapters/stellar_chain_family_adapter.go]). *)

From Stdlib Require Import Ascii.
From Stdlib Require Import Strings.Byte.
From Stdlib Require Strings.String.
From stdpp Require Import base gmap list strings pretty sorting.
From S2P Require Import Prelude GoStrings Prog Sdk Xdr ScVal GoBytes TypeConverters InvokerAdapter Ccv.
From S2P Require Import Codec Client Float Deployer Accessors ExtraArgs Operations Ownership Mcms.
Import Xdr Operations.

Local Open Scope Z_scope.

(** [hexutil] of go-ethereum, the name of the EVM family, and [strings.TrimSpace] on texts with
    bytes beyond ASCII. *)
Class LaneSdk := {
  FamilyEVM : string;
  hexutil_Encode : bytes → string;
  hexutil_Decode : string → result bytes;
  unicode_TrimSpace : string → string
}.

(** The in-memory datastore of the framework: its references by chain, type, version and
    qualifier, and the shared lookup that formats the only match of a partial reference. *)
Class Datastore := {
  MemoryDataStore : Type;
  NewMemoryDataStore : MemoryDataStore;
  Upsert : AddressRef → MemoryDataStore → result MemoryDataStore;
  Add : AddressRef → MemoryDataStore → result MemoryDataStore;
  Get : MemoryDataStore → Z → string → option string → string → result AddressRef;
  Fetch : MemoryDataStore → result (list AddressRef);
  FindAndFormatRef : ∀ A, MemoryDataStore → AddressRef → Z → (AddressRef → result A) → result A
}.
Arguments FindAndFormatRef {Datastore A} ds ref chainSelector format.

(** Types and versions under which the shared tooling knows the contracts, and its two
    default qualifiers. *)
Class ContractKinds := {
  onrampoperations : string * option string;
  offrampoperations : string * option string;
  router_kind : string * option string;
  fee_quoter_kind : string * option string;
  rmn_remote_kind : string * option string;
  rmn_proxy_kind : string * option string;
  committee_verifier_kind : string * option string;
  CommitteeVerifierResolverType : string * option string;
  executor_kind : string * option string;
  proxy_kind : string * option string;
  DefaultCommitteeVerifierQualifier : string;
  DefaultExecutorQualifier : string
}.

Module StellarUtil.

(** [strings.TrimSpace]. *)
Definition ascii_space (c : ascii) : bool :=
  let n := N_of_ascii c in ((n =? 32) || ((9 <=? n) && (n <=? 13)))%N.
Fixpoint trim_left (s : string) : string :=
  match s with
  | String c s' => if ascii_space c then trim_left s' else s
  | EmptyString => EmptyString
  end.
Fixpoint trim_right (s : string) : string :=
  match s with
  | String c s' =>
      let r := trim_right s' in
      if ascii_space c && bool_decide (r = EmptyString) then EmptyString else String c r
  | EmptyString => EmptyString
  end.
Definition TrimSpace `{LaneSdk} (s : string) : string :=
  if string_forall is_ascii_byte s then trim_right (trim_left s) else unicode_TrimSpace s.

Section stellarutil.
Context {ST : SdkTypes} {UT : UnicodeTables} {XS : XdrSdk} {DS : DeployerSdk} {LS : LaneSdk}.

(** ** [selectors.go] *)

(** The loop: the selectors kept so far and the set of those seen. *)
Fixpoint remote_selectors (selectors : list Z) (localSelector : Z) (remote : list Z) (seen : gset Z) : list Z :=
  match selectors with
  | [] => remote
  | selector :: selectors' =>
      if (selector =? 0) || (selector =? localSelector) then remote_selectors selectors' localSelector remote seen
      else if decide (selector ∈ seen) then remote_selectors selectors' localSelector remote seen
      else remote_selectors selectors' localSelector (remote ++ [selector]) ({[selector]} ∪ seen)
  end.
Definition FilterRemoteSelectors (selectors : list Z) (localSelector : Z) : list Z :=
  merge_sort Z.le (remote_selectors selectors localSelector [] ∅).

(** ** [address.go] *)

Definition GenerateContractAddress (name networkPassphrase : string) : bytes :=
  let networkID := Sum256 (String.list_byte_of_string networkPassphrase) in
  Sum256 (networkID ++ String.list_byte_of_string name).

Definition first_is (c : ascii) (s : string) : bool :=
  match s with String c' _ => Ascii.eqb c' c | EmptyString => false end.
Definition ParseFeeAggregatorAddress (s : string) : result string :=
  let s := TrimSpace s in
  if decide (s = "") then Err "empty fee aggregator address"
  else if first_is "G" s then
    match Decode VersionByteAccountID s with
    | Err e => Err ("decode account strkey: " +:+ e)
    | Ok _ => Ok s
    end
  else if first_is "C" s then
    match Decode VersionByteContract s with
    | Err e => Err ("decode contract strkey: " +:+ e)
    | Ok _ => Ok s
    end
  else
    match ScVal.Hex.DecodeString (TrimPrefix s "0x") with
    | Err e => Err ("fee aggregator must be G/C strkey or 0x-hex: " +:+ e)
    | Ok raw =>
        if negb (length raw =? 32)%nat then Err ("hex fee aggregator must be 32 bytes, got " +:+ pretty (length raw))
        else wrap_err "encode account strkey" (Encode VersionByteAccountID raw)
    end.

Definition StrkeyToHex (addr : string) : result string :=
  let hex vb := hexutil_Encode <$> wrap_err ("decode strkey " +:+ addr) (Decode vb addr) in
  if first_is "C" addr then hex VersionByteContract
  else if first_is "G" addr then hex VersionByteAccountID
  else Err ("unsupported strkey prefix: " +:+ addr).

(** ** [topology.go] *)

(** The topology of the environment, the fields in use: the committees by name with their
    configuration by selector, and the signing addresses of a node operator by family
    ([GetNOP]). *)
Record ChainCommitteeConfig := mkChainCommitteeConfig { NOPAliases : list string; Threshold : Z }.
Record NOPTopology := mkNOPTopology {
  Committees : gmap string (gmap string ChainCommitteeConfig);
  GetNOP : string → option (gmap string string)
}.

Context {AS : AccessorSdk}.

Fixpoint signer_hex (signerByFamily : gmap string string) (families : list string) (seen : gset string) : string :=
  match families with
  | [] => ""
  | fam :: families' =>
      if decide (fam = "") then signer_hex signerByFamily families' seen
      else if decide (fam ∈ seen) then signer_hex signerByFamily families' seen
      else
        let h := default "" (signerByFamily !! fam) in
        if decide (h = "") then signer_hex signerByFamily families' ({[fam]} ∪ seen) else h
  end.
Definition committeeVerifierSignerHex (signerByFamily : gmap string string) (preferredFamily : string) : string :=
  if decide (signerByFamily = ∅) then ""
  else signer_hex signerByFamily [preferredFamily; FamilyEVM; FamilyStellar] ∅.
Definition decodeCommitteeVerifierSigner (addrHex : string) : option bytes :=
  match ScVal.Hex.DecodeString addrHex with
  | Ok decoded => if (length decoded =? 20)%nat then Some (replicate 12 x00 ++ decoded) else None
  | Err _ => None
  end.

(** [bytes.Compare(a, b) <= 0]. *)
Fixpoint bytes_leb (a b : bytes) : bool :=
  match a, b with
  | [], _ => true
  | _ :: _, [] => false
  | x :: a', y :: b' =>
      (byte_val x <? byte_val y) || ((byte_val x =? byte_val y) && bytes_leb a' b')
  end.
Definition bytes_le (a b : bytes) : Prop := bytes_leb a b = true.
#[export] Instance bytes_le_dec : RelDecision bytes_le := λ a b, bool_eq_dec (bytes_leb a b) true.

(** The signers of one committee's configuration, in the order of its aliases. *)
Definition alias_signer (topo : NOPTopology) (preferredFamily alias : string) : option bytes :=
  nop ← GetNOP topo alias;
  let addrHex := committeeVerifierSignerHex nop preferredFamily in
  if decide (addrHex = "") then None else decodeCommitteeVerifierSigner addrHex.
Fixpoint resolve_committees (topo : NOPTopology) (selectorStr preferredFamily : string) (names : list string)
  : list bytes * Z :=
  match names with
  | [] => ([], 0)
  | name :: names' =>
      match Committees topo !! name ≫= (λ c, c !! selectorStr) with
      | None => resolve_committees topo selectorStr preferredFamily names'
      | Some chainCfg =>
          let signers := omap (alias_signer topo preferredFamily) (NOPAliases chainCfg) in
          match signers with
          | [] => resolve_committees topo selectorStr preferredFamily names'
          | _ => (merge_sort bytes_le signers, uint32 (Threshold chainCfg))
          end
      end
  end.
(** Both functions of the file; [enumerate] is the order in which the committees are ranged. *)
Definition ResolveSignersFromTopology (enumerate : list string → list string)
    (topology : option (option NOPTopology)) (sourceChainSelector : Z) (preferredFamily : string) : list bytes * Z :=
  match topology with
  | Some (Some topo) =>
      resolve_committees topo (pretty sourceChainSelector) preferredFamily
        (enumerate (fst <$> map_to_list (Committees topo)))
  | _ => ([], 0)
  end.
Definition ResolveSignersFromOffchainTopology := ResolveSignersFromTopology.

(** ** [verifier_version.go] *)

Definition DefaultCommitteeVerifierVersionTag : bytes := [xe9; xa0; x5a; x20].
End stellarutil.
End StellarUtil.

Module Lanes.
Import StellarUtil.

(** ** [contract_types.go] *)

Definition CcipReceiverContractType : string := "CcipReceiverExample".
Definition TokenAdminRegistryContractType : string := "token_admin_registry".
Definition LockReleaseTokenPoolContractType : string := "lock_release_token_pool".
Definition SiloedLockReleaseTokenPoolContractType : string := "siloed_lock_release_token_pool".
Definition TokenLockBoxContractType : string := "token_lock_box".
Definition TestTokenContractType : string := "sac_token".
Definition DevenvTestTokenPoolQualifier : string := "TEST".
Definition DevenvLegacyLockReleasePoolQualifier : string := "LEGACY_LR".

Section lanes.
Context {ST : SdkTypes} {UT : UnicodeTables} {XS : XdrSdk} {DS : DeployerSdk} {LS : LaneSdk} {AS : AccessorSdk}.
Context {DT : Datastore} {CK : ContractKinds}.

(** ** Reading one reference ([lane_config.go]) *)

Definition LookupAddressRef (ds : MemoryDataStore) (selector : Z) (contractType : string)
    (version : option string) (qualifier : string) : result AddressRef :=
  Get ds selector contractType version qualifier.
Definition LookupStellarContractStrkey (ds : MemoryDataStore) (selector : Z) (contractType : string)
    (version : option string) (qualifier : string) : result string :=
  match LookupAddressRef ds selector contractType version qualifier with
  | Err e => Err e
  | Ok ref =>
      wrap_err ("convert " +:+ contractType +:+ " address " +:+ refAddress ref +:+ " to contract strkey")
        (ScVal.HexToContractStrkey (refAddress ref))
  end.

(** ** [stellar_datastore.go]: one reference *)

Fixpoint MergeExistingAddressRefs (print_version : option string → string) (ds : MemoryDataStore) (refs : list AddressRef)
  : result MemoryDataStore :=
  match refs with
  | [] => Ok ds
  | ref :: refs' =>
      match Upsert ref ds with
      | Err e => Err ("merge existing address ref (" +:+ refType ref +:+ " " +:+ print_version (refVersion ref) +:+ "): " +:+ e)
      | Ok ds' => MergeExistingAddressRefs print_version ds' refs'
      end
  end.
Definition UpsertDeployedStrKey (ds : MemoryDataStore) (chainSelector : Z) (typ : string) (version : option string)
    (qualifier contractStrkey : string) : result MemoryDataStore :=
  match StrkeyToHex contractStrkey with
  | Err e => Err ("strkey to hex for " +:+ typ +:+ ": " +:+ e)
  | Ok hexAddr =>
      wrap_err ("upsert address ref " +:+ typ)
        (Upsert (mkAddressRef chainSelector typ version qualifier hexAddr) ds)
  end.

(** ** [datastore_contract_ref.go] *)

Record DatastoreSorobanContractRef := mkDatastoreSorobanContractRef {
  dcType : string;
  dcVersion : option string;
  dcQualifier : string
}.
Definition PartialAddressRef (r : DatastoreSorobanContractRef) : AddressRef :=
  mkAddressRef 0 (dcType r) (dcVersion r) (dcQualifier r) "".
Definition LaneAddressRef (r : DatastoreSorobanContractRef) (chainSelector : Z) : AddressRef :=
  mkAddressRef chainSelector (dcType r) (dcVersion r) (dcQualifier r) "".
Definition FullAddressRef (r : DatastoreSorobanContractRef) (chainSelector : Z) (addressHex : string) : AddressRef :=
  mkAddressRef chainSelector (dcType r) (dcVersion r) (dcQualifier r) addressHex.
Definition LookupStrkey (r : DatastoreSorobanContractRef) (ds : MemoryDataStore) (chainSelector : Z) : result string :=
  LookupStellarContractStrkey ds chainSelector (dcType r) (dcVersion r) (dcQualifier r).
Definition ref_LookupAddressRef (r : DatastoreSorobanContractRef) (ds : MemoryDataStore) (chainSelector : Z)
  : result AddressRef :=
  LookupAddressRef ds chainSelector (dcType r) (dcVersion r) (dcQualifier r).
Definition ref_UpsertDeployedStrKey (r : DatastoreSorobanContractRef) (ds : MemoryDataStore) (chainSelector : Z)
    (contractStrkey : string) : result MemoryDataStore :=
  UpsertDeployedStrKey ds chainSelector (dcType r) (dcVersion r) (dcQualifier r) contractStrkey.

(** The references of the contracts. *)
Definition shared (k : string * option string) (qualifier : string) : DatastoreSorobanContractRef :=
  mkDatastoreSorobanContractRef (fst k) (snd k) qualifier.
Definition stellar (contractType qualifier : string) : DatastoreSorobanContractRef :=
  mkDatastoreSorobanContractRef contractType (Some ContractDeploymentVersion) qualifier.
Definition OnRampDatastoreRef := shared onrampoperations "".
Definition OffRampDatastoreRef := shared offrampoperations "".
Definition RouterDatastoreRef := shared router_kind "".
Definition FeeQuoterDatastoreRef := shared fee_quoter_kind "".
Definition RMNRemoteDatastoreRef := shared rmn_remote_kind "".
Definition RMNProxyDatastoreRef := shared rmn_proxy_kind "".
Definition TokenAdminRegistryDatastoreRef := stellar TokenAdminRegistryContractType "".
Definition VVRDatastoreRef := shared CommitteeVerifierResolverType DefaultCommitteeVerifierQualifier.
Definition CommitteeVerifierDatastoreRef := shared committee_verifier_kind DefaultCommitteeVerifierQualifier.
Definition RampRegistryDatastoreRef := stellar ramp_registry_ContractType "".
Definition CCIPReceiverDatastoreRef := stellar CcipReceiverContractType "".
Definition LegacyLockReleasePoolDevenvDatastoreRef :=
  stellar LockReleaseTokenPoolContractType DevenvLegacyLockReleasePoolQualifier.
Definition LockReleasePoolDevenvDatastoreRef := LegacyLockReleasePoolDevenvDatastoreRef.
Definition SiloedLockReleasePoolDevenvDatastoreRef :=
  stellar SiloedLockReleaseTokenPoolContractType DevenvTestTokenPoolQualifier.
Definition TokenLockBoxDevenvDatastoreRef := stellar TokenLockBoxContractType DevenvTestTokenPoolQualifier.
Definition DevenvTestTokenDatastoreRef := stellar TestTokenContractType DevenvTestTokenPoolQualifier.
Definition DefaultExecutorDatastoreRef := shared executor_kind DefaultExecutorQualifier.
Definition ExecutorProxyDatastoreRef (qualifier : string) := shared proxy_kind qualifier.

(** ** [stellar_datastore.go]: a writer for each contract *)

Definition RecordOnRamp := ref_UpsertDeployedStrKey OnRampDatastoreRef.
Definition RecordOffRamp := ref_UpsertDeployedStrKey OffRampDatastoreRef.
Definition RecordRouter := ref_UpsertDeployedStrKey RouterDatastoreRef.
Definition RecordFeeQuoter := ref_UpsertDeployedStrKey FeeQuoterDatastoreRef.
Definition RecordRMNRemote := ref_UpsertDeployedStrKey RMNRemoteDatastoreRef.
Definition RecordTokenAdminRegistry := ref_UpsertDeployedStrKey TokenAdminRegistryDatastoreRef.
Definition RecordVVR := ref_UpsertDeployedStrKey VVRDatastoreRef.
Definition RecordCommitteeVerifier := ref_UpsertDeployedStrKey CommitteeVerifierDatastoreRef.
Definition RecordRampRegistry := ref_UpsertDeployedStrKey RampRegistryDatastoreRef.
Definition RecordCCIPReceiver := ref_UpsertDeployedStrKey CCIPReceiverDatastoreRef.
Definition RecordLockReleasePool := ref_UpsertDeployedStrKey LegacyLockReleasePoolDevenvDatastoreRef.
Definition RecordSiloedLockReleasePool := ref_UpsertDeployedStrKey SiloedLockReleasePoolDevenvDatastoreRef.
Definition RecordTokenLockBox := ref_UpsertDeployedStrKey TokenLockBoxDevenvDatastoreRef.

(** [what] is the name in the texts of the errors. *)
Definition add_ref (what : string) (ref : DatastoreSorobanContractRef) (chainSelector : Z) (contractID : string)
    (ds : MemoryDataStore) : result MemoryDataStore :=
  match wrap_err ("convert " +:+ what +:+ " address") (StrkeyToHex contractID) with
  | Err e => Err e
  | Ok hexAddr => wrap_err ("add " +:+ what +:+ " address ref") (Add (FullAddressRef ref chainSelector hexAddr) ds)
  end.
Definition add_if (what : string) (ref : DatastoreSorobanContractRef) (chainSelector : Z) (contractID : string)
    (ds : MemoryDataStore) : result MemoryDataStore :=
  if decide (contractID = "") then Ok ds else add_ref what ref chainSelector contractID ds.
Definition LockReleasePoolAddressRefDataStore (chainSelector : Z) (poolContractID tokenContractID : string)
  : result MemoryDataStore :=
  ds ← add_ref "pool" LegacyLockReleasePoolDevenvDatastoreRef chainSelector poolContractID NewMemoryDataStore;
  add_if "token" DevenvTestTokenDatastoreRef chainSelector tokenContractID ds.
Definition DevenvTokenPoolsAddressRefDataStore (chainSelector : Z)
    (siloedPoolContractID legacyPoolContractID lockBoxContractID tokenContractID : string) : result MemoryDataStore :=
  let addRef ref := add_if (dcType ref) ref chainSelector in
  ds ← addRef SiloedLockReleasePoolDevenvDatastoreRef siloedPoolContractID NewMemoryDataStore;
  ds ← addRef LegacyLockReleasePoolDevenvDatastoreRef legacyPoolContractID ds;
  ds ← addRef TokenLockBoxDevenvDatastoreRef lockBoxContractID ds;
  add_if "token" DevenvTestTokenDatastoreRef chainSelector tokenContractID ds.

(** ** [datastore_lookup.go] *)

Definition GetOnRampStrkey := LookupStrkey OnRampDatastoreRef.
Definition GetOffRampStrkey := LookupStrkey OffRampDatastoreRef.
Definition GetRouterStrkey := LookupStrkey RouterDatastoreRef.
Definition GetFeeQuoterStrkey := LookupStrkey FeeQuoterDatastoreRef.
Definition GetTokenAdminRegistryStrkey := LookupStrkey TokenAdminRegistryDatastoreRef.
Definition GetVVRStrkey := LookupStrkey VVRDatastoreRef.
Definition GetCommitteeVerifierStrkey := LookupStrkey CommitteeVerifierDatastoreRef.
Definition GetRampRegistryStrkey := LookupStrkey RampRegistryDatastoreRef.
Definition GetRMNRemoteStrkey := LookupStrkey RMNRemoteDatastoreRef.

(** ** [lane_config.go] *)

Definition StellarAddressByteLen : Z := 32.
Definition AddressBytesLength (selector : Z) : result Z :=
  match GetSelectorFamily selector with
  | Err e => Err ("get selector family for " +:+ pretty selector +:+ ": " +:+ e)
  | Ok family => if decide (family = FamilyStellar) then Ok StellarAddressByteLen else Ok 20
  end.
Definition ZeroAddressBytes (selector : Z) : result bytes :=
  (λ n, replicate (Z.to_nat n) x00) <$> AddressBytesLength selector.
Definition AddressBytesHex (ref : AddressRef) (selector : Z) : result bytes :=
  match hexutil_Decode (refAddress ref) with
  | Err e => Err ("decode address " +:+ refAddress ref +:+ ": " +:+ e)
  | Ok raw =>
      expectedLen ← AddressBytesLength selector;
      if negb (Z.of_nat (length raw) =? expectedLen)
      then Err ("address " +:+ refAddress ref +:+ " has " +:+ pretty (length raw) +:+ " bytes, expected " +:+
                pretty expectedLen +:+ " for selector " +:+ pretty selector)
      else Ok raw
  end.
Definition CanonicalSourceOnRampBytes (ref : AddressRef) (selector : Z) : result bytes :=
  raw ← AddressBytesHex ref selector;
  family ← wrap_err ("get selector family for " +:+ pretty selector) (GetSelectorFamily selector);
  if decide (family = FamilyEVM) then Ok (replicate (32 - length raw) x00 ++ raw) else Ok raw.

(** [onrampbindings.DestChainConfigArgs], its fields in the order of the binding. *)
Definition dest_chain_config (rs addressBytesLength : Z) (offRampBytes : bytes)
    (defaultExecutor vvrContractID routerContractID : string) : value :=
  VStruct [VNum addressBytesLength; VNum 100000; VSlice [VString vvrContractID]; VString defaultExecutor;
           VNum rs; VNum 0; VSlice []; VNum 100; VBytes offRampBytes; VString routerContractID; VNum 50; VBool true].
Definition dest_config (ds : MemoryDataStore) (defaultExecutor : string) (useRemoteOffRamp : bool)
    (vvrContractID routerContractID : string) (rs : Z) : result value :=
  addressBytesLength ← AddressBytesLength rs;
  zero ← ZeroAddressBytes rs;
  offRampBytes ←
    (if useRemoteOffRamp then
       offRampRef ← wrap_err ("lookup remote offramp for " +:+ pretty rs) (ref_LookupAddressRef OffRampDatastoreRef ds rs);
       wrap_err ("resolve remote offramp bytes for " +:+ pretty rs) (AddressBytesHex offRampRef rs)
     else Ok zero);
  Ok (dest_chain_config rs addressBytesLength offRampBytes defaultExecutor vvrContractID routerContractID).
Definition BuildOnRampDestConfigs (ds : MemoryDataStore) (remoteSelectors : list Z) (defaultExecutor : string)
    (useRemoteOffRamp : bool) (vvrContractID routerContractID : string) : result (list value) :=
  imapM (λ _, dest_config ds defaultExecutor useRemoteOffRamp vvrContractID routerContractID) remoteSelectors.

(** [offrampbindings.SourceChainConfigArgs]. *)
Definition source_chain_config (rs : Z) (onRampBytes : bytes) (vvrContractID routerContractID : string) : value :=
  VStruct [VSlice [VString vvrContractID]; VBool true; VSlice []; VSlice [VBytes onRampBytes];
           VString routerContractID; VNum rs].
Definition source_config (ds : MemoryDataStore) (useRemoteOnRamp : bool) (vvrContractID routerContractID : string)
    (rs : Z) : result value :=
  onRampBytes ←
    (if useRemoteOnRamp then
       onRampRef ← wrap_err ("lookup remote onramp for " +:+ pretty rs) (ref_LookupAddressRef OnRampDatastoreRef ds rs);
       wrap_err ("resolve remote onramp bytes for " +:+ pretty rs) (CanonicalSourceOnRampBytes onRampRef rs)
     else Ok (replicate 32 x00));
  Ok (source_chain_config rs onRampBytes vvrContractID routerContractID).
Definition BuildOffRampSourceConfigs (ds : MemoryDataStore) (remoteSelectors : list Z) (useRemoteOnRamp : bool)
    (vvrContractID routerContractID : string) : result (list value) :=
  imapM (λ _, source_config ds useRemoteOnRamp vvrContractID routerContractID) remoteSelectors.

(** ** [adapters/stellar_chain_family_adapter.go] *)

Definition stellarFeeQuoterChainFamilySelector : bytes := [x28; x12; xd5; x2c].
Definition toStellarAddressBytes (ref : AddressRef) : result bytes :=
  wrap_err ("decode stellar hex address " +:+ Quote (refAddress ref))
    (ScVal.Hex.DecodeString (TrimPrefix (refAddress ref) "0x")).
Definition family_address (r : DatastoreSorobanContractRef) (ds : MemoryDataStore) (chainSelector : Z) : result bytes :=
  FindAndFormatRef ds (PartialAddressRef r) chainSelector toStellarAddressBytes.
Definition GetOnRampAddress := family_address OnRampDatastoreRef.
Definition GetOffRampAddress := family_address OffRampDatastoreRef.
Definition GetRouterAddress := family_address RouterDatastoreRef.
Definition GetFQAddress := family_address FeeQuoterDatastoreRef.
Definition GetTestRouter := GetRouterAddress.
Definition AddressRefToBytes := toStellarAddressBytes.
Definition ResolveExecutor (ds : MemoryDataStore) (chainSelector : Z) (qualifier : string) : result string :=
  FindAndFormatRef ds (PartialAddressRef (ExecutorProxyDatastoreRef qualifier)) chainSelector (λ ref, Ok (refAddress ref)).
Definition GetAddressBytesLength : Z := 32.
Definition GetChainFamilySelector : bytes := stellarFeeQuoterChainFamilySelector.
End lanes.
End Lanes.
