(* ===== verification/LanesProps.v ===== *)
(** Properties of what a deployment records and configures: the selectors and the committee's
    signers, the addresses recorded and found, the bytes of remote ramps in lanes. *)

From Stdlib Require Import Ascii.
From Stdlib Require Import Strings.Byte.
From Stdlib Require Strings.String.
From stdpp Require Import base gmap list strings pretty sorting.
From S2P Require Import Prelude GoStrings Prog Sdk Xdr ScVal GoBytes TypeConverters InvokerAdapter Ccv.
From S2P Require Import ScValProps DemoCcv BindingsProps Codec CodecProps Client ClientProps OnRampClient OffRampClient ContractsProps.
From S2P Require Import Float Deployer Accessors ExtraArgs Operations Ownership Mcms Lanes.
Import Xdr ScValProps BindingsProps CodecProps ClientProps ContractsProps ContractsProps.Contracts StellarUtil Lanes.Lanes.

Local Open Scope Z_scope.

(** Documented behaviour: [hexutil] writes [0x] and the hexadecimal digits, and reads what it
    wrote. *)
Class LaneLaws `{LaneSdk} : Prop := {
  hexutil_Encode_digits b : hexutil_Encode b = "0x" +:+ EncodeToString b;
  hexutil_Decode_Encode b : hexutil_Decode (hexutil_Encode b) = Ok b
}.
(** The datastore: a reference that is upserted is the one of its key, the others stay. The
    lookup of a partial reference formats the one that matches, when the key determines it. *)
Definition same_key (r : AddressRef) (sel : Z) (ty : string) (ver : option string) (q : string) : Prop :=
  refChainSelector r = sel ∧ refType r = ty ∧ refVersion r = ver ∧ refQualifier r = q.
Class DatastoreLaws `{Datastore} : Prop := {
  Get_Upsert r ds ds' : Upsert r ds = Ok ds' →
    Get ds' (refChainSelector r) (refType r) (refVersion r) (refQualifier r) = Ok r;
  Get_Upsert_other r ds ds' sel ty ver q : Upsert r ds = Ok ds' → ¬ same_key r sel ty ver q →
    Get ds' sel ty ver q = Get ds sel ty ver q
}.

Module LanesProps.

(** ** Selectors *)

Lemma remote_selectors_elem l local acc seen : (∀ x, x ∈ acc ↔ x ∈ seen) → NoDup acc →
  NoDup (remote_selectors l local acc seen) ∧
  ∀ x, x ∈ remote_selectors l local acc seen ↔ x ∈ acc ∨ (x ∈ l ∧ x ≠ 0 ∧ x ≠ local).
Proof.
  revert acc seen. induction l as [|s l IH]; intros acc seen Hs Hnd; cbn [remote_selectors].
  - split; [done|]. intros x. split; [by left|]. intros [?|[?%not_elem_of_nil _]]; done.
  - destruct (_ || _) eqn:Hb.
    { destruct (IH acc seen Hs Hnd) as [H1 H2]. split; [done|]. intros x. rewrite H2, elem_of_cons.
      apply orb_true_iff in Hb. rewrite !Z.eqb_eq in Hb. naive_solver. }
    apply orb_false_iff in Hb as [Hz Hl]. apply Z.eqb_neq in Hz. apply Z.eqb_neq in Hl.
    destruct (decide (s ∈ seen)) as [Hin|Hin].
    { destruct (IH acc seen Hs Hnd) as [H1 H2]. split; [done|]. intros x. rewrite H2, elem_of_cons.
      rewrite <- Hs in Hin. naive_solver. }
    destruct (IH (acc ++ [s]) ({[s]} ∪ seen)) as [H1 H2].
    { intros x. rewrite elem_of_app, list_elem_of_singleton, elem_of_union, elem_of_singleton, Hs. tauto. }
    { apply NoDup_app. split_and!; [done| |apply NoDup_singleton]. intros x Hx ->%list_elem_of_singleton.
      by apply Hin, Hs. }
    split; [done|]. intros x. rewrite H2, elem_of_app, list_elem_of_singleton, elem_of_cons. naive_solver.
Qed.

(** The remote selectors of a deployment: each selector that is neither zero nor the local
    one, once, in increasing order. *)
Theorem remote_selectors_exact l local :
  let remote := FilterRemoteSelectors l local in
  StronglySorted Z.lt remote ∧ ∀ x, x ∈ remote ↔ x ∈ l ∧ x ≠ 0 ∧ x ≠ local.
Proof.
  destruct (remote_selectors_elem l local [] ∅) as [Hnd Hel]; [by intros x; rewrite elem_of_nil, elem_of_empty|constructor|].
  assert (∀ x, x ∈ FilterRemoteSelectors l local ↔ x ∈ l ∧ x ≠ 0 ∧ x ≠ local) as Hin.
  { intros x. unfold FilterRemoteSelectors. rewrite merge_sort_Permutation, Hel, elem_of_nil. tauto. }
  split; [|exact Hin]. pose proof (StronglySorted_merge_sort Z.le (remote_selectors l local [] ∅)) as Hs.
  unfold FilterRemoteSelectors in *. assert (NoDup (merge_sort Z.le (remote_selectors l local [] ∅))) as Hnd'
    by by rewrite merge_sort_Permutation.
  clear Hin. induction Hs as [|x l' Hs IH Hx]; [constructor|]. apply NoDup_cons in Hnd' as [Hn Hnd'].
  constructor; [by apply IH|]. apply Forall_forall. intros y Hy.
  pose proof (proj1 (Forall_forall _ _) Hx y Hy). assert (x ≠ y) by by intros ->. lia.
Qed.

(** ** The committee's signers *)

Lemma byte_val_inj x y : byte_val x = byte_val y → x = y.
Proof. intros H. by rewrite <- (byte_of_val x), H, byte_of_val. Qed.
#[export] Instance bytes_le_total : Total bytes_le.
Proof.
  intros a. induction a as [|x a IH]; intros [|y b]; unfold bytes_le in *; cbn [bytes_leb]; auto.
  destruct (Z.lt_trichotomy (byte_val x) (byte_val y)) as [H|[H|H]].
  - left. by rewrite (proj2 (Z.ltb_lt _ _) H).
  - rewrite H, Z.eqb_refl, Z.ltb_irrefl. cbn. apply IH.
  - right. by rewrite (proj2 (Z.ltb_lt _ _) H).
Qed.
#[export] Instance bytes_le_trans : Transitive bytes_le.
Proof.
  intros a. induction a as [|x a IH]; intros [|y b] [|z c]; unfold bytes_le in *; cbn [bytes_leb]; try done.
  rewrite !orb_true_iff, !andb_true_iff, !Z.ltb_lt, !Z.eqb_eq. intros [H1|[H1 H1']] [H2|[H2 H2']]; [left; lia|left; lia|left; lia|].
  right. split; [lia|]. by apply (IH b).
Qed.
#[export] Instance bytes_le_antisymm : AntiSymm (=) bytes_le.
Proof.
  intros a. induction a as [|x a IH]; intros [|y b]; unfold bytes_le in *; cbn [bytes_leb]; try done.
  rewrite !orb_true_iff, !andb_true_iff, !Z.ltb_lt, !Z.eqb_eq. intros [H1|[H1 H1']] [H2|[H2 H2']]; try lia.
  f_equal; [by apply byte_val_inj|]. by apply IH.
Qed.

Section signers.
Context {AS : AccessorSdk} {LS : LaneSdk} (topo : NOPTopology) (sel : Z) (family : string).
Implicit Types (names : list string) (enumerate : list string → list string).

(** The signers that a committee resolves to for the chain, when it configures it. *)
Definition configured (name : string) : option ChainCommitteeConfig :=
  Committees topo !! name ≫= (λ c, c !! pretty sel).
Definition signers_of (c : ChainCommitteeConfig) : list bytes :=
  omap (alias_signer topo family) (NOPAliases c).
Definition resolved (enumerate : list string → list string) : list bytes * Z :=
  ResolveSignersFromTopology enumerate (Some (Some topo)) sel family.

Lemma resolve_cases names :
  (resolve_committees topo (pretty sel) family names = ([], 0) ∧
   ∀ name c, name ∈ names → configured name = Some c → signers_of c = []) ∨
  (∃ name c, name ∈ names ∧ configured name = Some c ∧ signers_of c ≠ [] ∧
     resolve_committees topo (pretty sel) family names = (merge_sort bytes_le (signers_of c), uint32 (Threshold c))).
Proof.
  induction names as [|name names IH]; cbn [resolve_committees]; [left; split; [done|]; by intros ? ? ?%not_elem_of_nil|].
  fold (configured name). destruct (configured name) as [c|] eqn:Hc.
  - fold (signers_of c). destruct (signers_of c) as [|x l] eqn:Hs.
    + destruct IH as [[-> H]|(n & c' & Hn & H)]; [left|right].
      * split; [done|]. intros n c' [->|Hn]%elem_of_cons; [|by apply H]. rewrite Hc. by intros [= <-].
      * exists n, c'. split; [by right|done].
    + right. exists name, c. rewrite Hs. split_and!; [by left|done..].
  - destruct IH as [[-> H]|(n & c' & Hn & H)]; [left|right].
    + split; [done|]. intros n c' [->|Hn]%elem_of_cons; [|by apply H]. by rewrite Hc.
    + exists n, c'. split; [by right|done].
Qed.

Lemma alias_signer_padded alias s : alias_signer topo family alias = Some s →
  ∃ a, length a = 20%nat ∧ s = replicate 12 x00 ++ a.
Proof.
  unfold alias_signer. destruct (GetNOP topo alias) as [nop|]; [|done]. cbn.
  destruct (decide _); [done|]. unfold decodeCommitteeVerifierSigner.
  destruct (ScVal.Hex.DecodeString _) as [b|e]; [|done]. destruct (length b =? 20)%nat eqn:Hl; [|done].
  intros [= <-]. exists b. split; [by apply Nat.eqb_eq|done].
Qed.

Lemma names_of enumerate name : enumerates enumerate →
  name ∈ enumerate (fst <$> map_to_list (Committees topo)) ↔ is_Some (Committees topo !! name).
Proof.
  intros He. rewrite (He _), list_elem_of_fmap. split.
  - intros ([n c] & -> & H%elem_of_map_to_list). by exists c.
  - intros [c H]. exists (name, c). split; [done|]. by apply elem_of_map_to_list.
Qed.
Lemma configured_known name c : configured name = Some c → is_Some (Committees topo !! name).
Proof. unfold configured. by destruct (Committees topo !! name). Qed.

(** C22. The signers of a chain. Whatever the order of Go's map, the result is the signers of
    one committee that configures the chain, in increasing order, with that committee's
    threshold, or nothing when no committee yields a signer; a signer is 32 bytes, an address
    of 20 bytes after 12 zeros. When a single committee yields signers for the chain the order
    does not matter. *)
Theorem committee_signers enumerate : enumerates enumerate →
  (let '(signers, threshold) := resolved enumerate in
   StronglySorted bytes_le signers ∧
   Forall (λ s, ∃ a, length a = 20%nat ∧ s = replicate 12 x00 ++ a) signers ∧
   ((signers = [] ∧ threshold = 0 ∧ ∀ name c, configured name = Some c → signers_of c = []) ∨
    (signers ≠ [] ∧ ∃ name c, configured name = Some c ∧ signers ≡ₚ signers_of c ∧ threshold = uint32 (Threshold c)))) ∧
  ∀ enumerate', enumerates enumerate' →
    (∀ name name' c c', configured name = Some c → configured name' = Some c' →
       signers_of c ≠ [] → signers_of c' ≠ [] → name = name') →
    resolved enumerate' = resolved enumerate.
Proof.
  intros He. set (names := enumerate (fst <$> map_to_list (Committees topo))).
  assert (∀ name c, configured name = Some c → name ∈ names) as Hin
    by (intros name c H; apply names_of, (configured_known _ c); done).
  split.
  - unfold resolved, ResolveSignersFromTopology. fold names.
    destruct (resolve_cases names) as [[-> H]|(name & c & Hn & Hc & Hne & ->)].
    + split_and!; [constructor|constructor|]. left. split_and!; [done..|]. intros name c Hc. by eapply H; [apply (Hin _ c)|].
    + split_and!; [apply (StronglySorted_merge_sort _)| |].
      * rewrite merge_sort_Permutation. apply Forall_forall. intros s (a & _ & Ha)%list_elem_of_omap.
        by apply (alias_signer_padded a).
      * right. split; [|by exists name, c; rewrite merge_sort_Permutation].
        intros Hnil. apply Hne, Permutation_nil_r. by rewrite <- Hnil, merge_sort_Permutation.
  - intros enumerate' He' Huniq. unfold resolved, ResolveSignersFromTopology. fold names.
    set (names' := enumerate' (fst <$> map_to_list (Committees topo))).
    assert (∀ name c, configured name = Some c → name ∈ names') as Hin'
      by (intros name c H; apply names_of, (configured_known _ c); done).
    destruct (resolve_cases names) as [[-> H]|(name & c & Hn & Hc & Hne & ->)];
      destruct (resolve_cases names') as [[-> H']|(name' & c' & Hn' & Hc' & Hne' & ->)]; [done| | |].
    + destruct Hne'. by eapply H; [apply (Hin _ c')|].
    + destruct Hne. by eapply H'; [apply (Hin' _ c)|].
    + rewrite (Huniq name name' c c') in Hc by done. congruence.
Qed.
End signers.

(** ** The datastore *)

Section lanes.
Context {ST : SdkTypes} {UT : UnicodeTables} {XS : XdrSdk} {XL : XdrLaws} {DS : DeployerSdk} {LS : LaneSdk} {LL : LaneLaws}
  {AS : AccessorSdk} {DT : Datastore} {DL : DatastoreLaws} {CK : ContractKinds}.

Lemma strkey_to_hex b s : Encode VersionByteContract b = Ok s → StrkeyToHex s = Ok (hexutil_Encode b).
Proof.
  intros He. unfold StrkeyToHex. destruct (Encode_contract b s He) as [s' ->]. cbn [first_is].
  rewrite Ascii.eqb_refl. by rewrite (Decode_Encode _ _ _ He).
Qed.
Lemma trimmed_hex b : TrimPrefix (hexutil_Encode b) "0x" = EncodeToString b.
Proof. rewrite hexutil_Encode_digits. apply TrimPrefix_app. Qed.
Lemma hex_to_strkey b s : Encode VersionByteContract b = Ok s → ScVal.HexToContractStrkey (hexutil_Encode b) = Ok s.
Proof. intros He. unfold ScVal.HexToContractStrkey. rewrite trimmed_hex, DecodeString_Encode. exact He. Qed.

(** The key of a contract on a chain. *)
Definition key_of (r : DatastoreSorobanContractRef) (sel : Z) : Z * string * option string * string :=
  (sel, dcType r, dcVersion r, dcQualifier r).

(** What is recorded is found. Recording a deployed contract under a reference makes the
    lookups of that reference return the contract: its strkey, and its 32 bytes to the
    adapter of the chain; every other reference, and every other chain, is found as before. A
    text that is no strkey is not recorded. *)
Theorem recorded_is_found r sel b s ds ds' : Encode VersionByteContract b = Ok s →
  ref_UpsertDeployedStrKey r ds sel s = Ok ds' →
  LookupStrkey r ds' sel = Ok s ∧
  (∃ ref, ref_LookupAddressRef r ds' sel = Ok ref ∧ toStellarAddressBytes ref = Ok b ∧ hexutil_Decode (refAddress ref) = Ok b) ∧
  ∀ r' sel', key_of r' sel' ≠ key_of r sel → LookupStrkey r' ds' sel' = LookupStrkey r' ds sel'.
Proof.
  intros He. unfold ref_UpsertDeployedStrKey, UpsertDeployedStrKey. rewrite (strkey_to_hex b s He).
  destruct (Upsert _ ds) as [ds''|e] eqn:Hu; [|done]. intros [= ->].
  pose proof (Get_Upsert _ _ _ Hu) as Hg. cbn [refChainSelector refType refVersion refQualifier] in Hg.
  split_and!.
  - unfold LookupStrkey, LookupStellarContractStrkey, LookupAddressRef. rewrite Hg. cbn [refAddress].
    by rewrite (hex_to_strkey b s He).
  - unfold ref_LookupAddressRef, LookupAddressRef. rewrite Hg. eexists. split; [done|].
    unfold toStellarAddressBytes. cbn [refAddress]. by rewrite trimmed_hex, DecodeString_Encode, hexutil_Decode_Encode.
  - intros r' sel' Hne. unfold LookupStrkey, LookupStellarContractStrkey, LookupAddressRef.
    rewrite (Get_Upsert_other _ _ _ sel' (dcType r') (dcVersion r') (dcQualifier r') Hu); [done|].
    unfold same_key. cbn. intros (E1 & E2 & E3 & E4). apply Hne. unfold key_of. congruence.
Qed.

(** ** Lanes *)

(** The ramp that the datastore has for a remote chain. *)
Definition recorded_ramp (r : DatastoreSorobanContractRef) (ds : MemoryDataStore) (rs : Z) (raw : bytes) : Prop :=
  ∃ ref, ref_LookupAddressRef r ds rs = Ok ref ∧ hexutil_Decode (refAddress ref) = Ok raw ∧
         AddressBytesLength rs = Ok (Z.of_nat (length raw)).
(** What a message from that chain names as its on-ramp. *)
Definition wire_ramp (rs : Z) (raw : bytes) : bytes :=
  match GetSelectorFamily rs with
  | Ok family => if decide (family = FamilyEVM) then replicate (32 - length raw) x00 ++ raw else raw
  | Err _ => raw
  end.

Lemma AddressBytesHex_Ok ref rs raw :
  AddressBytesHex ref rs = Ok raw ↔
  hexutil_Decode (refAddress ref) = Ok raw ∧ AddressBytesLength rs = Ok (Z.of_nat (length raw)).
Proof.
  unfold AddressBytesHex. destruct (hexutil_Decode _) as [b|e]; [|naive_solver].
  destruct (AddressBytesLength rs) as [n|e]; cbn; [|naive_solver].
  destruct (Z.eqb_spec (Z.of_nat (length b)) n); cbn; naive_solver.
Qed.
Lemma CanonicalSourceOnRampBytes_Ok ref rs b :
  CanonicalSourceOnRampBytes ref rs = Ok b ↔
  ∃ raw, AddressBytesHex ref rs = Ok raw ∧ b = wire_ramp rs raw.
Proof.
  unfold CanonicalSourceOnRampBytes, wire_ramp. destruct (AddressBytesHex ref rs) as [raw|e] eqn:Hr; cbn; [|naive_solver].
  apply AddressBytesHex_Ok in Hr as [_ Hl]. unfold AddressBytesLength in Hl.
  destruct (GetSelectorFamily rs) as [f|e]; cbn; [|done]. clear Hl.
  destruct (decide (f = FamilyEVM)) as [->|Hf]; naive_solver.
Qed.

Context (vvr router executor : string).
Context (Hvvr : is_strkey vvr) (Hrouter : is_strkey router) (Hexecutor : is_strkey executor).

Lemma source_typed rs b : is_uint64 rs = true →
  named_in OffRampClient.contract "SourceChainConfigArgs" (source_chain_config rs b vvr router).
Proof. intros Hrs. eexists. split; [reflexivity|]. repeat constructor; cbn; done. Qed.
Lemma dest_typed rs n b : is_uint64 rs = true → is_uint32 n = true →
  named_in OnRampClient.contract "DestChainConfigArgs" (dest_chain_config rs n b executor vvr router).
Proof. intros Hrs Hn. eexists. split; [reflexivity|]. repeat constructor; cbn; done. Qed.

Lemma address_length_u32 rs n : AddressBytesLength rs = Ok n → is_uint32 n = true.
Proof.
  unfold AddressBytesLength. destruct (GetSelectorFamily rs) as [f|e]; [|done].
  destruct (decide _); intros H; injection H as <-; done.
Qed.
Lemma ramp_or_default {A} (useRemote : bool) (r d : result A) x :
  (if useRemote then r else d) = Ok x → if useRemote then r = Ok x else d = Ok x.
Proof. by destruct useRemote. Qed.

(** The bytes of a remote ramp in a configuration, from the datastore or provisional. *)
Definition source_ramp (ds : MemoryDataStore) (useRemote : bool) (rs : Z) (b : bytes) : Prop :=
  if useRemote then ∃ raw, recorded_ramp OnRampDatastoreRef ds rs raw ∧ b = wire_ramp rs raw else b = replicate 32 x00.
Definition dest_ramp (ds : MemoryDataStore) (useRemote : bool) (rs : Z) (b : bytes) : Prop :=
  if useRemote then recorded_ramp OffRampDatastoreRef ds rs b else b = replicate (length b) x00.

Lemma source_config_Ok ds useRemote rs v : source_config ds useRemote vvr router rs = Ok v →
  ∃ b, v = source_chain_config rs b vvr router ∧ source_ramp ds useRemote rs b.
Proof.
  unfold source_config, source_ramp. destruct (if useRemote then _ else _) as [b|e] eqn:Hb; [|done].
  intros [= <-]. exists b. split; [done|]. apply ramp_or_default in Hb. destruct useRemote; [|congruence].
  destruct (ref_LookupAddressRef _ _ _) as [ref|e] eqn:Hl; [|done]. cbn in Hb.
  destruct (CanonicalSourceOnRampBytes ref rs) as [b'|e] eqn:Hc; [|done]. injection Hb as ->.
  apply CanonicalSourceOnRampBytes_Ok in Hc as (raw & [Hd Hlen]%AddressBytesHex_Ok & ->).
  exists raw. split; [|done]. by exists ref.
Qed.
Lemma dest_config_Ok ds useRemote rs v : dest_config ds executor useRemote vvr router rs = Ok v →
  ∃ b, v = dest_chain_config rs (Z.of_nat (length b)) b executor vvr router ∧
    AddressBytesLength rs = Ok (Z.of_nat (length b)) ∧ dest_ramp ds useRemote rs b.
Proof.
  unfold dest_config, ZeroAddressBytes, dest_ramp. destruct (AddressBytesLength rs) as [n|e] eqn:Hn; [|done]. cbn.
  pose proof (proj1 (is_uint32_spec _) (address_length_u32 _ _ Hn)) as [Hpos _].
  destruct (if useRemote then _ else _) as [b|e] eqn:Hb; [|done]. intros [= <-].
  apply ramp_or_default in Hb. destruct useRemote.
  - destruct (ref_LookupAddressRef _ _ _) as [ref|e] eqn:Hl; [|done]. cbn in Hb.
    destruct (AddressBytesHex ref rs) as [b'|e] eqn:Hc; [|done]. injection Hb as ->.
    apply AddressBytesHex_Ok in Hc as [Hd Hlen]. exists b. rewrite Hn in Hlen. injection Hlen as ->.
    split_and!; [done..|]. by exists ref.
  - injection Hb as <-. exists (replicate (Z.to_nat n) x00). rewrite length_replicate, Z2Nat.id by done. by split_and!.
Qed.
(** A value of a generated struct, its fields by name. *)
Definition struct_value (d : Struct) (fields : list (string * value)) (v : value) : Prop :=
  fst <$> fields = fieldName <$> structFields d ∧ v = VStruct (snd <$> fields).
(** The bytes recorded for a chain of a family under a contract's type and version: those of
    the only reference with that key, of the length of the family's addresses. *)
Definition remote_ramp (kind : string * option string) (ds : MemoryDataStore) (rs : Z) (family : string) (raw : bytes) : Prop :=
  ∃ ref, Get ds rs (fst kind) (snd kind) "" = Ok ref ∧ hexutil_Decode (refAddress ref) = Ok raw ∧
         length raw = (if decide (family = FamilyStellar) then 32 else 20)%nat.

(** A source lane of the off-ramp, field by field of the binding's struct: enabled, the
    verifier's resolver, the router, and one on-ramp. *)
Definition source_lane (ds : MemoryDataStore) (useRemote : bool) (rs : Z) (v : value) : Prop :=
  ∃ ramp,
    struct_value OffRampClient.SourceChainConfigArgs
      [("default_ccvs", VSlice [VString vvr]); ("is_enabled", VBool true); ("lane_mandated_ccvs", VSlice []);
       ("on_ramps", VSlice [VBytes ramp]); ("router", VString router); ("source_chain_selector", VNum rs)] v ∧
    if useRemote then ∃ family raw, GetSelectorFamily rs = Ok family ∧
        remote_ramp onrampoperations ds rs family raw ∧
        ramp = (if decide (family = FamilyEVM) then replicate (32 - length raw) x00 ++ raw else raw)
    else ramp = replicate 32 x00.
(** A destination lane of the on-ramp. *)
Definition dest_lane (ds : MemoryDataStore) (useRemote : bool) (rs : Z) (v : value) : Prop :=
  ∃ family ramp, GetSelectorFamily rs = Ok family ∧
    let addressLength := (if decide (family = FamilyStellar) then 32 else 20)%nat in
    struct_value OnRampClient.DestChainConfigArgs
      [("address_bytes_length", VNum (Z.of_nat addressLength)); ("base_execution_gas_cost", VNum 100000);
       ("default_ccvs", VSlice [VString vvr]); ("default_executor", VString executor);
       ("dest_chain_selector", VNum rs); ("execution_fee_usd_cents", VNum 0);
       ("lane_mandated_ccvs", VSlice []); ("message_network_fee_usd_cents", VNum 100);
       ("off_ramp", VBytes ramp); ("router", VString router);
       ("token_network_fee_usd_cents", VNum 50); ("token_receiver_allowed", VBool true)] v ∧
    if useRemote then remote_ramp offrampoperations ds rs family ramp
    else ramp = replicate addressLength x00.

Lemma recorded_ramp_family kind ds rs raw :
  recorded_ramp (shared kind "") ds rs raw ↔
  ∃ family, GetSelectorFamily rs = Ok family ∧ remote_ramp kind ds rs family raw.
Proof.
  unfold recorded_ramp, remote_ramp, AddressBytesLength, StellarAddressByteLen.
  destruct (GetSelectorFamily rs) as [family|e]; [|naive_solver].
  split.
  - intros (ref & Hg & Hd & Hl). exists family. split; [done|]. exists ref. split_and!; [done..|].
    case_decide; injection Hl; lia.
  - intros (f & [= <-] & ref & Hg & Hd & Hl). exists ref. split_and!; [done..|]. rewrite Hl. by case_decide.
Qed.
Lemma source_config_iff ds useRemote rs v :
  source_config ds useRemote vvr router rs = Ok v ↔
  ∃ b, v = source_chain_config rs b vvr router ∧ source_ramp ds useRemote rs b.
Proof.
  split; [apply source_config_Ok|]. intros (b & -> & Hb). unfold source_config, source_ramp in *.
  destruct useRemote; [|by rewrite Hb]. destruct Hb as (raw & (ref & -> & Hd & Hl) & ->). cbn.
  by rewrite (proj2 (CanonicalSourceOnRampBytes_Ok ref rs (wire_ramp rs raw))) by (exists raw; by rewrite AddressBytesHex_Ok).
Qed.
Lemma dest_config_iff ds useRemote rs v :
  dest_config ds executor useRemote vvr router rs = Ok v ↔
  ∃ b, v = dest_chain_config rs (Z.of_nat (length b)) b executor vvr router ∧
    AddressBytesLength rs = Ok (Z.of_nat (length b)) ∧ dest_ramp ds useRemote rs b.
Proof.
  split; [apply dest_config_Ok|]. intros (b & -> & Hl & Hb). unfold dest_config, ZeroAddressBytes, dest_ramp in *.
  rewrite Hl. cbn. destruct useRemote; [|by rewrite Nat2Z.id, <- Hb].
  destruct Hb as (ref & -> & Hd & _). cbn.
  by rewrite (proj2 (AddressBytesHex_Ok ref rs b)) by done.
Qed.
Lemma Forall2_iff {A B} (R R' : A → B → Prop) l k : (∀ x y, R x y ↔ R' x y) → Forall2 R l k ↔ Forall2 R' l k.
Proof. intros H. split; (intros HF; eapply Forall2_impl; [exact HF|intros; by apply H]). Qed.

Lemma source_configs_iff ds sels useRemote cfgs :
  BuildOffRampSourceConfigs ds sels useRemote vvr router = Ok cfgs ↔ Forall2 (source_lane ds useRemote) sels cfgs.
Proof.
  unfold BuildOffRampSourceConfigs. rewrite imapM_Forall2_iff. apply Forall2_iff. intros rs v.
  rewrite source_config_iff. unfold source_lane. apply exist_proper. intros ramp.
  unfold struct_value, source_chain_config. cbn [fmap list_fmap fst snd]. f_equiv; [tauto|].
  unfold source_ramp. destruct useRemote; [|done]. unfold OnRampDatastoreRef. setoid_rewrite recorded_ramp_family.
  unfold wire_ramp. split.
  + intros (raw & (family & Hf & Hr) & ->). exists family, raw. by rewrite Hf.
  + intros (family & raw & Hf & Hr & ->). exists raw. rewrite Hf. split; [by exists family|done].
Qed.
Lemma dest_configs_iff ds sels useRemote cfgs :
  BuildOnRampDestConfigs ds sels executor useRemote vvr router = Ok cfgs ↔ Forall2 (dest_lane ds useRemote) sels cfgs.
Proof.
  unfold BuildOnRampDestConfigs. rewrite imapM_Forall2_iff. apply Forall2_iff. intros rs v.
  rewrite dest_config_iff. unfold dest_lane, struct_value, dest_chain_config, dest_ramp, OffRampDatastoreRef, AddressBytesLength, StellarAddressByteLen.
  destruct useRemote; [setoid_rewrite recorded_ramp_family; unfold remote_ramp|];
    (destruct (GetSelectorFamily rs) as [family|e]; [|naive_solver]).
  + split.
    * intros (b & -> & _ & f & [= <-] & ref & Hg & Hd & Hl). exists family, b. rewrite <- Hl. eauto 10.
    * intros (f & b & [= <-] & (_ & ->) & ref & Hg & Hd & Hl). exists b. cbn. rewrite <- Hl. split_and!; [done| |eauto 10].
      rewrite Hl. by case_decide.
  + split.
    * intros (b & -> & Hl & Hb). exists family, b. split; [done|].
      assert (length b = (if decide (family = FamilyStellar) then 32 else 20)%nat) as E by (case_decide; injection Hl; lia).
      cbn. rewrite <- E. done.
    * intros (f & b & [= <-] & (_ & ->) & ->). eexists. cbn. rewrite length_replicate. split; [done|].
      split; [by case_decide|done].
Qed.
Lemma Forall2_second {A B} (P : B → Prop) (l : list A) k : Forall2 (λ _ y, P y) l k → Forall P k.
Proof. induction 1; by constructor. Qed.

(** C21. The lanes. The configurations built for the remote chains are exactly these, one for
    each chain, in order, field by field of the bindings' structs, and they are values of these
    types; the build fails exactly when some chain has none. A source lane ([source_lane]) is
    enabled, with the verifier's resolver as its only default verifier, none mandated, the local
    router and one on-ramp: 32 zeros before the remote ramps are known, and afterwards the one
    on-ramp that the datastore has for that chain, of the length of its family's addresses, an
    EVM address after 12 zeros and any other as it is. A destination lane ([dest_lane]) names the
    remote off-ramp as it is (or zeros of the family's length) with that length, the executor,
    resolver and router, fixed fees, and allows a token receiver. *)
Theorem lane_configs_exact ds sels useRemote :
  (∀ cfgs, BuildOffRampSourceConfigs ds sels useRemote vvr router = Ok cfgs ↔
     Forall2 (source_lane ds useRemote) sels cfgs) ∧
  (∀ cfgs, BuildOnRampDestConfigs ds sels executor useRemote vvr router = Ok cfgs ↔
     Forall2 (dest_lane ds useRemote) sels cfgs) ∧
  (Forall (λ rs, is_uint64 rs = true) sels →
   (∀ cfgs, BuildOffRampSourceConfigs ds sels useRemote vvr router = Ok cfgs →
      Forall (named_in OffRampClient.contract "SourceChainConfigArgs") cfgs) ∧
   (∀ cfgs, BuildOnRampDestConfigs ds sels executor useRemote vvr router = Ok cfgs →
      Forall (named_in OnRampClient.contract "DestChainConfigArgs") cfgs)).
Proof.
  split_and!; [intros cfgs; apply source_configs_iff|intros cfgs; apply dest_configs_iff|].
  intros Hu. assert (∀ rs, rs ∈ sels → is_uint64 rs = true) as Hu' by by apply Forall_forall.
  split; intros cfgs Hc.
  - eapply Forall2_second, imapM_Forall2; [|exact Hc].
    intros _ rs v Hin (b & -> & Hb)%source_config_Ok. by apply source_typed, Hu'.
  - eapply Forall2_second, imapM_Forall2; [|exact Hc].
    intros _ rs v Hin (b & -> & Hl & Hb)%dest_config_Ok. by eapply dest_typed, address_length_u32; [apply Hu'|].
Qed.
End lanes.

(** ** Fee aggregators *)

Section fee_aggregator.
Context {UT : UnicodeTables} {XS : XdrSdk} {XL : XdrLaws} {LS : LaneSdk} {LL : LaneLaws}.

Definition hex_char (c : ascii) : bool := is_ascii_byte c && negb (ascii_space c).
Lemma lower_hex_char n : (n < 16)%N → hex_char (lower_hex_digit n) = true.
Proof.
  rewrite <- (N2Nat.id n). intros H. assert (N.to_nat n < 16)%nat as Hk by lia. clear H. revert Hk.
  generalize (N.to_nat n). intros k Hk. do 16 (destruct k as [|k]; [done|]). lia.
Qed.
Lemma digits_plain b : string_forall hex_char (EncodeToString b) = true.
Proof.
  induction b as [|x b IH]; [done|]. cbn [EncodeToString string_forall].
  pose proof (Byte.to_N_bounded x). rewrite !lower_hex_char, IH; [done| |].
  - apply N.mod_lt. lia.
  - apply N.Div0.div_lt_upper_bound. lia.
Qed.
Lemma string_forall_impl (p q : ascii → bool) s : (∀ c, p c = true → q c = true) →
  string_forall p s = true → string_forall q s = true.
Proof. intros H. induction s as [|c s IH]; [done|]. cbn. rewrite !andb_true_iff. naive_solver. Qed.
Lemma TrimSpace_plain s : string_forall hex_char s = true → TrimSpace s = s.
Proof.
  intros H. unfold TrimSpace. rewrite (string_forall_impl hex_char is_ascii_byte) by
    (try done; by intros c [? _]%andb_true_iff).
  assert (trim_left s = s) as -> by (destruct s as [|c s]; [done|]; cbn in *; unfold hex_char in H; by destruct (ascii_space c); rewrite ?andb_false_r in H).
  induction s as [|c s IH]; [done|]. cbn in *. apply andb_true_iff in H as [Hc Hs]. rewrite (IH Hs).
  unfold hex_char in Hc. by destruct (ascii_space c); rewrite ?andb_false_r in Hc.
Qed.

(** A fee aggregator that is given as the hexadecimal text of a recorded address is taken
    as the account of these 32 bytes. For an account it is that account; for a contract it is
    an account that nobody holds the key of. *)
Theorem fee_aggregator_from_hex v b s g : length b = 32%nat →
  Encode v b = Ok s → Encode VersionByteAccountID b = Ok g →
  (h ← StrkeyToHex s; ParseFeeAggregatorAddress h) = Ok g ∧ (v = VersionByteAccountID → g = s) ∧
  (v = VersionByteContract → g ≠ s).
Proof.
  intros Hb Hs Hg. split.
  - assert (StrkeyToHex s = Ok (hexutil_Encode b)) as ->.
    { unfold StrkeyToHex. destruct v.
      - destruct (Encode_account b s Hs) as [s' ->]. cbn [first_is]. by rewrite (Decode_Encode _ _ _ Hs).
      - destruct (Encode_contract b s Hs) as [s' ->]. cbn [first_is]. by rewrite (Decode_Encode _ _ _ Hs). }
    cbn. unfold ParseFeeAggregatorAddress. rewrite hexutil_Encode_digits.
    rewrite TrimSpace_plain by (cbn; apply digits_plain). rewrite decide_False by done.
    cbn [first_is String.append Ascii.eqb Bool.eqb]. rewrite TrimPrefix_app, DecodeString_Encode, Hb. cbn. by rewrite Hg.
  - split; [intros ->; congruence|]. intros -> ->.
    destruct (Encode_account b s Hg) as [s1 ->]. destruct (Encode_contract b _ Hs) as [s2 [=]].
Qed.
End fee_aggregator.

(** ** Types *)

(** The contract types under which the deployment records the token admin registry, the
    receiver, the pools and the lock box are none of those that the ownership functions know:
    for a recorded reference to one of them they fail without a call. *)
Theorem recorded_types_have_no_owner {UT : UnicodeTables} {XS : XdrSdk} {W E} {CF : Cldf W E} enumerate
    (deps : StellarDeps W E) ref newOwner :
  refType ref ∈ [TokenAdminRegistryContractType; CcipReceiverContractType; LockReleaseTokenPoolContractType;
                 SiloedLockReleaseTokenPoolContractType; TokenLockBoxContractType] →
  (∃ e, Ownership.Ownership.ContractOwner enumerate deps ref = Ret (GErr e)) ∧
  (∃ e, Ownership.Ownership.ExecuteTransferOwnership enumerate deps ref newOwner = Ret (GErr e)) ∧
  (∃ e, Ownership.Ownership.ExecuteAcceptOwnership enumerate deps ref = Ret (GErr e)).
Proof.
  intros H. unfold Ownership.Ownership.ContractOwner, Ownership.Ownership.ExecuteTransferOwnership,
    Ownership.Ownership.ExecuteAcceptOwnership.
  rewrite !elem_of_cons, elem_of_nil in H. destruct H as [->|[->|[->|[->|[->|[]]]]]];
    (split_and!; eexists; cbn [Ownership.Ownership.owner_clients Ownership.Ownership.transfer_operations
       Ownership.Ownership.accept_operations fmap list_fmap switch]; rewrite !decide_False by done; reflexivity).
Qed.

(** ** A datastore and chains for the witnesses *)

Section demo.
Import DemoCcv.

#[export] Instance demo_lane : LaneSdk := {|
  FamilyEVM := "evm";
  hexutil_Encode := λ b, "0x" +:+ EncodeToString b;
  hexutil_Decode := λ s, if HasPrefix s "0x" then ScVal.Hex.DecodeString (TrimPrefix s "0x") else Err "missing 0x prefix";
  unicode_TrimSpace := λ s, s
|}.
#[export] Instance demo_lane_laws : LaneLaws.
Proof.
  constructor; [done|]. intros b. cbn [hexutil_Decode hexutil_Encode demo_lane].
  rewrite (proj2 (HasPrefix_spec _ "0x")) by by eexists. by rewrite TrimPrefix_app, DecodeString_Encode.
Qed.
(** Chain 1 is EVM, chain 2 is Stellar. *)
#[export] Instance demo_families : AccessorSdk := {|
  GetSelectorFamily := λ sel, if sel =? 1 then Ok "evm" else if sel =? 2 then Ok "stellar" else Err "unknown chain";
  FamilyStellar := "stellar";
  keystore_Ed25519 := "Ed25519"
|}.
Definition has_key (r : AddressRef) (sel : Z) (ty : string) (ver : option string) (q : string) : bool :=
  bool_decide (refChainSelector r = sel) && bool_decide (refType r = ty) &&
  bool_decide (refVersion r = ver) && bool_decide (refQualifier r = q).
Lemma has_key_spec r sel ty ver q : has_key r sel ty ver q = true ↔ same_key r sel ty ver q.
Proof. unfold has_key, same_key. rewrite !andb_true_iff, !bool_decide_eq_true. tauto. Qed.
Definition find_key (ds : list AddressRef) (sel : Z) (ty : string) (ver : option string) (q : string) : result AddressRef :=
  match List.find (λ r, has_key r sel ty ver q) ds with Some r => Ok r | None => Err "not found" end.
#[export] Instance demo_datastore : Datastore := {|
  MemoryDataStore := list AddressRef;
  NewMemoryDataStore := [];
  Upsert := λ r ds, Ok (r :: ds);
  Add := λ r ds, Ok (r :: ds);
  Get := find_key;
  Fetch := λ ds, Ok ds;
  FindAndFormatRef := λ A ds ref sel format,
    match find_key ds sel (refType ref) (refVersion ref) (refQualifier ref) with Ok r => format r | Err e => Err e end
|}.
#[export] Instance demo_datastore_laws : DatastoreLaws.
Proof.
  constructor.
  - intros r ds ds' [= <-]. cbn. unfold find_key. cbn.
    by rewrite (proj2 (has_key_spec r (refChainSelector r) (refType r) (refVersion r) (refQualifier r))).
  - intros r ds ds' sel ty ver q [= <-] Hne. cbn. unfold find_key. cbn.
    destruct (has_key r sel ty ver q) eqn:E; [|done]. by apply has_key_spec in E.
Qed.
#[export] Instance demo_kinds : ContractKinds := {|
  onrampoperations := ("OnRamp", Some "2.0.0"); offrampoperations := ("OffRamp", Some "2.0.0");
  router_kind := ("Router", Some "1.2.0"); fee_quoter_kind := ("FeeQuoter", Some "2.0.0");
  rmn_remote_kind := ("RMNRemote", Some "1.6.0"); rmn_proxy_kind := ("RMNProxy", Some "1.0.0");
  committee_verifier_kind := ("CommitteeVerifier", Some "2.0.0");
  CommitteeVerifierResolverType := ("CommitteeVerifierResolver", Some "2.0.0");
  executor_kind := ("Executor", Some "2.0.0"); proxy_kind := ("ExecutorProxy", Some "2.0.0");
  DefaultCommitteeVerifierQualifier := "default"; DefaultExecutorQualifier := "default"
|}.

(** Two committees; only one configures the chain 7. *)
Definition demo_topology : NOPTopology := mkNOPTopology
  {["a" := {["7" := mkChainCommitteeConfig ["n1"; "n2"; "bad"] 2]}; "b" := ∅]}
  (λ alias, if decide (alias = "n1") then Some {["evm" := "2222222222222222222222222222222222222222"]}
            else if decide (alias = "n2") then Some {["stellar" := "1111111111111111111111111111111111111111"]}
            else Some {["evm" := "0x1111111111111111111111111111111111111111"]}).

Lemma committee_signers_witness :
  resolved demo_topology 7 "evm" (λ l, l) =
    ([replicate 12 x00 ++ replicate 20 x11; replicate 12 x00 ++ replicate 20 x22], 2) ∧
  resolved demo_topology 7 "evm" reverse = resolved demo_topology 7 "evm" (λ l, l).
Proof.
  split; [by vm_compute|]. destruct (committee_signers demo_topology 7 "evm" (λ l, l)) as [_ H]; [by intros l|].
  apply H; [intros l; apply reverse_Permutation|]. intros name name' c c' Hc Hc' _ _.
  unfold configured, demo_topology in Hc, Hc'. cbn [Committees] in Hc, Hc'.
  assert (∀ n c0, ({["a" := {["7" := mkChainCommitteeConfig ["n1"; "n2"; "bad"] 2]}; "b" := ∅]} : gmap string (gmap string ChainCommitteeConfig)) !! n
      ≫= (λ c, c !! pretty 7) = Some c0 → n = "a") as Hn; [|by rewrite (Hn _ _ Hc), (Hn _ _ Hc')].
  intros n c0 E. destruct (decide (n = "a")) as [->|Ha]; [done|]. rewrite lookup_insert_ne in E by congruence.
  destruct (decide (n = "b")) as [->|Hb]; [by rewrite lookup_singleton_eq in E|].
  by rewrite lookup_singleton_ne in E by congruence.
Defined.

Definition demo_recorded : MemoryDataStore :=
  [mkAddressRef 2 "OnRamp" (Some "2.0.0") "" (hexutil_Encode DemoXdr.key1)].
Lemma recorded_is_found_witness : ∃ ds' s,
  ref_UpsertDeployedStrKey OnRampDatastoreRef NewMemoryDataStore 2 s = Ok ds' ∧ GetOnRampStrkey ds' 2 = Ok s.
Proof.
  destruct (recorded_is_found OnRampDatastoreRef 2 DemoXdr.key1 (String "C"%char (String.string_of_list_byte DemoXdr.key1)) NewMemoryDataStore
    demo_recorded) as [H _]; [done|by vm_compute|].
  eexists _, _. split; [|exact H]. by vm_compute.
Defined.

Definition demo_ramps : MemoryDataStore :=
  [mkAddressRef 1 "OnRamp" (Some "2.0.0") "" (hexutil_Encode (replicate 20 x05));
   mkAddressRef 1 "OffRamp" (Some "2.0.0") "" (hexutil_Encode (replicate 20 x06))].
Lemma lane_configs_exact_witness (s := String "C"%char (String.string_of_list_byte DemoXdr.key1)) :
  BuildOffRampSourceConfigs demo_ramps [1] true s s =
    Ok [VStruct [VSlice [VString s]; VBool true; VSlice [];
                 VSlice [VBytes (replicate 12 x00 ++ replicate 20 x05)]; VString s; VNum 1]] ∧
  (∀ cfgs, BuildOffRampSourceConfigs demo_ramps [1; 3] true s s ≠ Ok cfgs) ∧
  ∀ cfgs, BuildOffRampSourceConfigs demo_ramps [1] true s s = Ok cfgs →
    Forall (named_in OffRampClient.contract "SourceChainConfigArgs") cfgs.
Proof.
  assert (is_strkey s) as Hs by (exists VersionByteContract, DemoXdr.key1; by split).
  split; [|split].
  - apply (proj1 (lane_configs_exact s s s Hs Hs Hs demo_ramps [1] true)). constructor; [|done].
    exists (replicate 12 x00 ++ replicate 20 x05). split; [done|]. exists "evm", (replicate 20 x05).
    split_and!; [done| |done]. exists (mkAddressRef 1 "OnRamp" (Some "2.0.0") "" (hexutil_Encode (replicate 20 x05))).
    by split_and!; [vm_compute..|].
  - intros cfgs H%(proj1 (lane_configs_exact s s s Hs Hs Hs demo_ramps [1; 3] true)).
    inversion H as [|? ? ? ? _ H2]; subst. inversion H2 as [|? ? ? ? (_ & _ & f & _ & Hf & _) _]; subst. by vm_compute in Hf.
  - intros cfgs Hc. destruct (lane_configs_exact s s s Hs Hs Hs demo_ramps [1] true) as (_ & _ & H).
    by apply H; [repeat constructor|].
Defined.

Lemma fee_aggregator_from_hex_witness :
  (h ← StrkeyToHex (String "C"%char (String.string_of_list_byte DemoXdr.key1)); ParseFeeAggregatorAddress h) =
  Ok (String "G"%char (String.string_of_list_byte DemoXdr.key1)).
Proof. by apply (fee_aggregator_from_hex VersionByteContract DemoXdr.key1). Defined.
End demo.
End LanesProps.
