(* ===== verification/Rollout.v ===== *)
(** The deployment of the whole protocol on a chain and its operation: in the module
    [FullDeploy], [sequences/stellar_ccip_full_deploy.go] with the sequences around it
    ([deploy_stellar_ccip.go], [ccv_stellar_deploy.go], [deploy_topology_stash.go]), the host
    they run on ([ccip/ccip_devenv_host.go], [ccip/cldf_ccip_devenv_host.go]) and the test
    pools that follow ([ccip/token_pool_post_deploy.go]); in [Fees], the fees and their
    aggregator ([sequences/fee.go] with its adapters); in [Curse], curses
    ([sequences/curse.go] with its adapter); in [RmnRemote], the contract that records them
    ([contracts/rmn_remote]). *)

From Stdlib Require Import Ascii.
From Stdlib Require Import Strings.Byte.
From Stdlib Require Strings.String.
From stdpp Require Import base gmap list strings pretty sorting.
From S2P Require Import RmnRemoteClient RouterClient OnRampClient VersionedVerifierResolverClient CommitteeVerifierClient.
From S2P Require Import Prelude GoStrings Prog Sdk Xdr ScVal GoBytes TypeConverters InvokerAdapter Ccv.
From S2P Require Import Codec Client Float Deployer Accessors ExtraArgs Operations Ownership Mcms Lanes.
Import Xdr CcvCommon Operations Ownership.Ownership StellarUtil Lanes.Lanes.

Local Open Scope Z_scope.

(** [ccip.CCIPDevenvHost], the methods in use: the runtime of a deployment. The key pair is
    given by its address, a client by the id of its contract, the deployer by the calls made
    on its behalf. *)
Record CCIPDevenvHost (W : Type) (E : Type → Type) := mkCCIPDevenvHost {
  hostDeployer : StellarDeps W E;
  DeployerKeypair : string;
  hostNetworkPassphrase : string;
  FriendbotURL : string;
  SetOnRamp : string → prog W E unit;
  SetFeeQuoter : string → prog W E unit;
  SetTokenAdminRegistry : string → prog W E unit;
  TokenAdminRegistryClient : prog W E (option string);
  SetTokenPool : string → prog W E unit;
  SetLegacyLockReleasePool : string → prog W E unit;
  SetTokenLockBox : string → prog W E unit;
  LatestLedgerSequence : prog W E (gres Z);
  SetTestToken : string → prog W E unit;
  TestTokenContractID : prog W E string;
  SetOffRamp : string → prog W E unit;
  SetRouter : string → prog W E unit;
  RouterContractID : prog W E string;
  SetRampRegistry : string → prog W E unit;
  RampRegistryContractID : prog W E string;
  SetVVR : string → prog W E unit;
  SetCV : string → prog W E unit;
  SetReceiver : string → prog W E unit;
  SetFeeToken : string → prog W E unit;
  CreateFeeToken : string → prog W E (gres string);
  CreateTestToken : string → prog W E (gres string)
}.
Arguments mkCCIPDevenvHost {W E}.
Arguments hostDeployer {W E} c.
Arguments DeployerKeypair {W E} c.
Arguments hostNetworkPassphrase {W E} c.
Arguments FriendbotURL {W E} c.
Arguments SetOnRamp {W E} c _.
Arguments SetFeeQuoter {W E} c _.
Arguments SetTokenAdminRegistry {W E} c _.
Arguments TokenAdminRegistryClient {W E} c.
Arguments SetTokenPool {W E} c _.
Arguments SetLegacyLockReleasePool {W E} c _.
Arguments SetTokenLockBox {W E} c _.
Arguments LatestLedgerSequence {W E} c.
Arguments SetTestToken {W E} c _.
Arguments TestTokenContractID {W E} c.
Arguments SetOffRamp {W E} c _.
Arguments SetRouter {W E} c _.
Arguments RouterContractID {W E} c.
Arguments SetRampRegistry {W E} c _.
Arguments RampRegistryContractID {W E} c.
Arguments SetVVR {W E} c _.
Arguments SetCV {W E} c _.
Arguments SetReceiver {W E} c _.
Arguments SetFeeToken {W E} c _.
Arguments CreateFeeToken {W E} c _.
Arguments CreateTestToken {W E} c _.

(** [os.Stat] of a path. *)
Inductive file_info :=
| NotExist
| StatError (e : string)
| RegularFile
| IrregularFile (mode : string).

Module FullDeploy.
Import McmsUtil McmsSequences.

(** ** [ccip/cldf_ccip_devenv_host.go] *)

(** The fields of [CLDFStellarCCIPDevenvHost] that are written: ids and clients. *)
Inductive id_field :=
| onRampContractID | tarContractID | tokenPoolContractID | legacyLockReleasePoolID | tokenLockBoxContractID
| testTokenContractID | offRampContractID | routerContractID | rampRegistryContractID | vvrContractID
| cvContractID | receiverContractID | feeTokenContractID.
Inductive client_field :=
| onRampClient | feeQuoterClient | tarClient | tokenPoolClient | offRampClient | routerClient.
#[export] Instance id_field_eq_dec : EqDecision id_field.
Proof. solve_decision. Defined.
#[export] Instance client_field_eq_dec : EqDecision client_field.
Proof. solve_decision. Defined.
Record HostFields := mkHostFields {
  id_of : id_field → string;
  client_of : client_field → option string
}.
Definition set_id (f : id_field) (x : string) (s : HostFields) : HostFields :=
  mkHostFields (λ g, if decide (g = f) then x else id_of s g) (client_of s).
Definition set_client (f : client_field) (x : string) (s : HostFields) : HostFields :=
  mkHostFields (id_of s) (λ g, if decide (g = f) then Some x else client_of s g).
Definition no_fields : HostFields := mkHostFields (λ _, "") (λ _, None).

Section cldf_host.
Context {W : Type} {E : Type → Type}.
(** Where the host keeps its fields, and what it calls: its deployer, the node, and the
    creation of an asset contract ([DeployDevenvSACToken]) with a label for the issuer's seed
    and the asset's code. *)
Context (get : W → HostFields) (put : HostFields → W → W).
Context (dep : StellarDeps W E) (GetLatestLedger : option (prog W E (gres Z)))
  (DeployDevenvSACToken : string → string → string → prog W E (gres string)).

Definition write (f : HostFields → HostFields) : prog W E unit := modify (λ w, put (f (get w)) w).
Definition read {A} (f : HostFields → A) : prog W E A := gets (λ w, f (get w)).
(** A setter of an id and of the client for it. *)
Definition set_both (i : id_field) (c : client_field) (contractID : string) : prog W E unit :=
  write (set_client c contractID ∘ set_id i contractID).

(** [None] for a nil signer; the flag tells whether it has a key pair. *)
Definition NewCLDFStellarCCIPDevenvHost (ch : StellarChain) (friendbotURL : string) : result (CCIPDevenvHost W E) :=
  match ChainSigner ch with
  | None => Err "stellar chain Signer is nil"
  | Some (_, false) => Err "chain signer KeypairFull is nil"
  | Some (address, true) =>
      Ok (mkCCIPDevenvHost dep address (NetworkPassphrase ch) friendbotURL
        (set_both onRampContractID onRampClient)
        (λ contractID, write (set_client feeQuoterClient contractID))
        (set_both tarContractID tarClient)
        (read (λ s, client_of s tarClient))
        (set_both tokenPoolContractID tokenPoolClient)
        (λ contractID, write (set_id legacyLockReleasePoolID contractID))
        (λ contractID, write (set_id tokenLockBoxContractID contractID))
        (match GetLatestLedger with None => Ret (GErr "stellar rpc client is nil") | Some call => call end)
        (λ contractID, write (set_id testTokenContractID contractID))
        (read (λ s, id_of s testTokenContractID))
        (set_both offRampContractID offRampClient)
        (set_both routerContractID routerClient)
        (read (λ s, id_of s routerContractID))
        (λ contractID, write (set_id rampRegistryContractID contractID))
        (read (λ s, id_of s rampRegistryContractID))
        (λ contractID, write (set_id vvrContractID contractID))
        (λ contractID, write (set_id cvContractID contractID))
        (λ contractID, write (set_id receiverContractID contractID))
        (λ contractID, write (set_id feeTokenContractID contractID))
        (DeployDevenvSACToken ("fee-token-issuer-" +:+ NetworkPassphrase ch) "FEE")
        (DeployDevenvSACToken ("test-token-issuer-" +:+ NetworkPassphrase ch) "TEST"))
  end.
End cldf_host.

Section full_deploy.
Context {ST : SdkTypes} {SD : Sdk} {UT : UnicodeTables} {XS : XdrSdk} {HF : HostFunctions}
  {MS : MetaSdk} {RS : RpcSdk} {FC : FloatConv} {DS : DeployerSdk} {LS : LaneSdk} {AS : AccessorSdk}
  {DT : Datastore} {CK : ContractKinds}.
Context (enumerate : list string → list string) (print_version : option string → string).
Context {W : Type} {E : Type → Type} {CF : Cldf W E}.
(** The file system, and the root of the repository ([FindStellarRoot]). *)
Context (Stat : string → prog W E file_info) (FindStellarRoot : result string).

Definition statReleaseWasm (path displayName : string) : prog W E (gres unit) :=
  info ← Stat path;
  Ret (match info with
       | NotExist => GErr (displayName +:+ " WASM not found at " +:+ path +:+ ". Run 'make build'")
       | StatError e => GErr ("stat " +:+ displayName +:+ " WASM at " +:+ path +:+ ": " +:+ e)
       | RegularFile => GVal tt
       | IrregularFile mode =>
           GErr (displayName +:+ " WASM at " +:+ path +:+ " is not a regular file (mode " +:+ mode +:+ ")")
       end).

(** [DeployStellarCCIPInnerInput]. *)
Record DeployStellarCCIPInnerInput := mkInnerInput {
  iiChainSelector : Z;
  AllSelectors : list Z;
  iiExistingAddresses : list AddressRef
}.

(** The contracts of a deployment. *)
Record Foundation := mkFoundation {
  onramp : string; rmnRemote : string; rmnProxy : string; feeQuoter : string; feeToken : string; tar : string
}.
Record Ramps := mkRamps { offramp : string; router : string }.

Section phases.
Context (deps : StellarDeps W E) (h : CCIPDevenvHost W E) (root : string) (selector : Z)
  (allSelectors remoteSelectors : list Z).
Let owner : string := DeployerKeypair h.

Definition execStellarCCIPOp : Operation W E → list value → prog W E (gres (list value)) :=
  λ op inp, ExecuteOperation op deps inp.
Definition exec (what : string) (op : Operation W E) (inp : list value) : prog W E (gres unit) :=
  _ <-? gctx what (execStellarCCIPOp op inp); Ret (GVal tt).
Definition release_wasm (file : string) : string := filepath_Join root ("target/wasm32v1-none/release/" +:+ file).
(** The file is looked for, and the contract deployed under a salt of the deployer. *)
Definition deploy_contract (file displayName saltName : string) (op : Operation W E) : prog W E (gres string) :=
  _ <-? statReleaseWasm (release_wasm file) displayName;
  out <-? gctx ("deploy " +:+ displayName)
            (execStellarCCIPOp op (deploy_input (release_wasm file) (Deployer.GenerateDeterministicSalt owner saltName)));
  Ret (deployed_id out).
Definition recorded (r : result MemoryDataStore) : prog W E (gres MemoryDataStore) := Ret (of_result r).

(** *** Foundation *)

(** The token of the fees: a new asset contract, or a made-up id. *)
Definition fee_token : prog W E (gres string) :=
  if decide (FriendbotURL h = "") then Ret (MustGenerateMockContractID owner "fee-token")
  else
    feeTokenID <-? gctx "create fee token" (CreateFeeToken h (FriendbotURL h));
    _ ← SetFeeToken h feeTokenID;
    Ret (GVal feeTokenID).
Definition fee_quoter_initialize_input (feeQuoter feeToken : string) : list value :=
  [VString feeQuoter; VString owner; VStruct [VString feeToken; VNum 1000000000000000000]; VSlice [VString owner]].
Definition onramp_initialize_input (f : Foundation) : list value :=
  [VString (onramp f); VString owner; VStruct [VNum selector; VNum 10000; VString (rmnProxy f); VString (tar f)];
   VStruct [VString owner; VString (feeQuoter f)]].
Definition deploy_foundation (ds : MemoryDataStore) : prog W E (gres (Foundation * MemoryDataStore)) :=
  onrampID <-? deploy_contract "onramp.wasm" "OnRamp" "onramp" onramp_Deploy;
  ds <-? recorded (RecordOnRamp ds selector onrampID);
  _ ← SetOnRamp h onrampID;
  rmnRemoteID <-? deploy_contract "rmn_remote.wasm" "RMN Remote" "rmn-remote" rmn_remote_Deploy;
  ds <-? recorded (RecordRMNRemote ds selector rmnRemoteID);
  _ <-? exec "initialize RMN Remote" (rmn_remote_Initialize enumerate) [VString rmnRemoteID; VString owner; VSlice []];
  rmnProxyID <-? deploy_contract "rmn_proxy.wasm" "RMN Proxy" "rmn-proxy" rmn_proxy_Deploy;
  _ <-? exec "initialize RMN Proxy" (rmn_proxy_Initialize enumerate)
          [VString rmnProxyID; VString owner; VString rmnRemoteID];
  feeQuoterID <-? deploy_contract "fee_quoter.wasm" "FeeQuoter" "fee-quoter" fee_quoter_Deploy;
  ds <-? recorded (RecordFeeQuoter ds selector feeQuoterID);
  feeTokenID <-? fee_token;
  _ ← SetFeeQuoter h feeQuoterID;
  _ <-? exec "initialize FeeQuoter" (fee_quoter_Initialize enumerate) (fee_quoter_initialize_input feeQuoterID feeTokenID);
  tarID <-? deploy_contract "token_admin_registry.wasm" "TokenAdminRegistry" "token-admin-registry" token_admin_registry_Deploy;
  ds <-? recorded (RecordTokenAdminRegistry ds selector tarID);
  _ ← SetTokenAdminRegistry h tarID;
  _ <-? exec "initialize TokenAdminRegistry" (token_admin_registry_Initialize enumerate) [VString tarID; VString owner];
  let f := mkFoundation onrampID rmnRemoteID rmnProxyID feeQuoterID feeTokenID tarID in
  _ <-? exec "initialize OnRamp" (onramp_Initialize enumerate) (onramp_initialize_input f);
  Ret (GVal (f, ds)).

(** *** Verification, and the configuration of the fees *)

Definition cv_initialize_input (cv rmnProxy : string) : list value :=
  [VString cv; VString owner; VStruct [VOptString (Some owner); VOptString (Some owner)];
   VSlice [VBytes (GenerateContractAddress "storage-location" (hostNetworkPassphrase h))];
   VString rmnProxy; VBytes DefaultCommitteeVerifierVersionTag].
Definition deploy_verification (rmnProxy : string) (ds : MemoryDataStore)
  : prog W E (gres (string * string * MemoryDataStore)) :=
  vvr <-? deploy_contract "ccvs_versioned_verifier_resolver.wasm" "VVR" "versioned-verifier-resolver"
            versioned_verifier_resolver_Deploy;
  ds <-? recorded (RecordVVR ds selector vvr);
  _ ← SetVVR h vvr;
  _ <-? exec "initialize VVR" (versioned_verifier_resolver_Initialize enumerate) [VString vvr; VString owner; VString owner];
  cv <-? deploy_contract "ccvs_committee_verifier.wasm" "Committee Verifier" "committee-verifier" committee_verifier_Deploy;
  ds <-? recorded (RecordCommitteeVerifier ds selector cv);
  _ <-? exec "initialize Committee Verifier" (committee_verifier_Initialize enumerate) (cv_initialize_input cv rmnProxy);
  _ ← SetCV h cv;
  Ret (GVal (vvr, cv, ds)).

Definition outbound_input (vvr cv : string) : list value :=
  [VString vvr; VSlice ((λ rs, VStruct [VNum rs; VOptString (Some cv)]) <$> allSelectors)].
Definition inbound_input (vvr cv : string) : list value :=
  [VString vvr; VSlice [VStruct [VOptString (Some cv); VBytes DefaultCommitteeVerifierVersionTag]]].
(** The quorum of each chain's committee; Go's map order may differ from one to the next. *)
Definition quorum_config (orders : nat → list string → list string) (topology : NOPTopology) (i : nat) (rs : Z)
  : result value :=
  let '(signers, threshold) := ResolveSignersFromOffchainTopology (orders i) (Some (Some topology)) rs FamilyEVM in
  match signers with
  | [] => Err ("no signers found in topology for chain selector " +:+ pretty rs +:+ " and family " +:+ FamilyEVM)
  | _ => Ok (VStruct [VSlice (VBytes <$> signers); VNum rs; VNum threshold])
  end.
Definition configure_verification (orders : nat → list string → list string) (topology : NOPTopology) (vvr cv : string)
  : prog W E (gres unit) :=
  _ <-? exec "apply outbound implementation updates"
          (versioned_verifier_resolver_ApplyOutboundImplUpdates enumerate) (outbound_input vvr cv);
  _ <-? exec "apply inbound implementation updates"
          (versioned_verifier_resolver_ApplyInboundImplUpdates enumerate) (inbound_input vvr cv);
  configs <-? Ret (of_result (imapM (quorum_config orders topology) allSelectors));
  exec "apply signature quorum configs" (committee_verifier_ApplySignatureConfigs enumerate)
    [VString cv; VSlice []; VSlice configs].

(** [DestChainConfigArgs] of the FeeQuoter's bindings. *)
Definition default_dest_chain_config (rs : Z) : value :=
  VStruct [VStruct [VNum 50000; VNum 50; VNum 200000; VNum 350000; VNum 16; VBool true; VNum 90; VNum 50000;
                    VNum 4000000; VNum 100]; VNum rs].
Definition gas_price (rs : Z) : value := VStruct [VNum rs; VU128 (mkUInt128Parts 0 100000000000000)].
Definition token_price (token : string) : value := VStruct [VString token; VU128 (mkUInt128Parts 0 1000000000000000000)].
Definition prices_input (feeQuoter : string) (gas tokens : list value) : list value :=
  [VString feeQuoter; VString owner; VStruct [VSlice gas; VSlice tokens]].
Definition test_token_fee_config (token : string) (rs : Z) : value :=
  VStruct [VStruct [VNum 32; VNum 90000; VNum 25; VBool true]; VNum rs; VString token].
Definition configure_fees (feeQuoter feeToken : string) : prog W E (gres unit) :=
  _ <-? exec "apply dest chain configs on FeeQuoter" (fee_quoter_ApplyDestChainConfigs enumerate)
          [VString feeQuoter; VSlice (default_dest_chain_config <$> allSelectors)];
  _ <-? exec "update prices on FeeQuoter" (fee_quoter_UpdatePrices enumerate)
          (prices_input feeQuoter (gas_price <$> allSelectors) [token_price feeToken]);
  testToken ← TestTokenContractID h;
  if decide (testToken = "") then Ret (GVal tt)
  else
    _ <-? exec "set test token price on FeeQuoter" (fee_quoter_UpdatePrices enumerate)
            (prices_input feeQuoter [] [token_price testToken]);
    exec "apply token fee configs on FeeQuoter" (fee_quoter_ApplyTokenFeeConfigs enumerate)
      [VString feeQuoter; VSlice (test_token_fee_config testToken <$> allSelectors); VSlice []].

(** *** Ramps, router, registry and provisional lanes *)

Definition deploy_ramps (f : Foundation) (cv : string) (ds : MemoryDataStore) : prog W E (gres (Ramps * MemoryDataStore)) :=
  offrampID <-? deploy_contract "offramp.wasm" "OffRamp" "offramp" offramp_Deploy;
  ds <-? recorded (RecordOffRamp ds selector offrampID);
  _ ← SetOffRamp h offrampID;
  _ <-? exec "initialize OffRamp" (offramp_Initialize enumerate)
          [VString offrampID; VString owner; VStruct [VNum selector; VString (rmnProxy f); VString (tar f)]];
  routerID <-? deploy_contract "router.wasm" "Router" "router" router_Deploy;
  ds <-? recorded (RecordRouter ds selector routerID);
  _ <-? exec "initialize Router" (router_Initialize enumerate) [VString routerID; VString owner; VString (rmnProxy f)];
  _ ← SetRouter h routerID;
  _ <-? exec "apply remote chain config updates on committee verifier"
          (committee_verifier_ApplyRemoteChainCfgUpdates enumerate)
          [VString cv; VSlice ((λ rs, VStruct [VBool false; VNum 0; VNum 10000; VNum 0; VNum rs; VOptString (Some routerID)])
             <$> allSelectors)];
  Ret (GVal (mkRamps offrampID routerID, ds)).

Definition contractHexAddr (name : string) : string :=
  hexutil_Encode (GenerateContractAddress name (hostNetworkPassphrase h)).
Definition ramp_updates_input (f : Foundation) (r : Ramps) : list value :=
  [VString (router r); VSlice ((λ rs, VStruct [VNum rs; VString (onramp f)]) <$> remoteSelectors); VSlice [];
   VSlice ((λ rs, VStruct [VString (offramp r); VNum rs]) <$> remoteSelectors)].
(** The lanes before the remote ramps are known, and the router's maps. *)
Definition provisional_lanes (f : Foundation) (vvr : string) (r : Ramps) (ds : MemoryDataStore) : prog W E (gres unit) :=
  executorID <-? Ret (of_result (wrap_err "convert executor proxy placeholder address"
                        (ScVal.HexToContractStrkey (contractHexAddr "stellar-executor-proxy"))));
  dests <-? Ret (of_result (wrap_err "build provisional onramp dest configs"
                   (BuildOnRampDestConfigs ds remoteSelectors executorID false vvr (router r))));
  _ <-? exec "apply dest chain config updates on OnRamp" (onramp_ApplyDestChainConfigUpdates enumerate)
          [VString (onramp f); VSlice dests];
  sources <-? Ret (of_result (wrap_err "build provisional offramp source configs"
                     (BuildOffRampSourceConfigs ds remoteSelectors false vvr (router r))));
  _ <-? exec "apply source chain config updates on OffRamp" (offramp_ApplySourceChainCfgUpdates enumerate)
          [VString (offramp r); VSlice sources];
  exec "apply ramp updates on Router" (router_ApplyRampUpdates enumerate) (ramp_updates_input f r).
Definition registry_onramps_input (rr : string) (f : Foundation) : list value :=
  [VString rr; VSlice ((λ rs, VStruct [VNum rs; VOptString (Some (onramp f))]) <$> remoteSelectors)].
Definition registry_offramps_input (rr : string) (r : Ramps) : list value :=
  [VString rr; VSlice ((λ rs, VStruct [VBool true; VString (offramp r); VNum rs]) <$> remoteSelectors)].
Definition deploy_registry (f : Foundation) (r : Ramps) (ds : MemoryDataStore) : prog W E (gres MemoryDataStore) :=
  rr <-? deploy_contract "ccip_ramp_registry.wasm" "RampRegistry" "ramp-registry" ramp_registry_Deploy;
  ds <-? recorded (RecordRampRegistry ds selector rr);
  _ <-? exec "initialize RampRegistry" (ramp_registry_Initialize enumerate) [VString rr; VString owner];
  _ <-? exec "apply onramp updates on RampRegistry" (ramp_registry_ApplyOnrampUpdates enumerate) (registry_onramps_input rr f);
  _ <-? exec "apply offramp updates on RampRegistry" (ramp_registry_ApplyOfframpUpdates enumerate) (registry_offramps_input rr r);
  _ ← SetRampRegistry h rr;
  Ret (GVal ds).

(** *** Receiver, and the references for the shared tooling *)

(** [for _, rs := range remoteSelectors]. *)
Fixpoint enable_remote_chains (receiver : string) (remotes : list Z) : prog W E (gres unit) :=
  match remotes with
  | [] => Ret (GVal tt)
  | rs :: remotes' =>
      _ <-? exec ("ccip_receiver_example EnableRemoteChain for source chain " +:+ pretty rs)
              (ccip_receiver_EnableRemoteChain enumerate) [VString receiver; VString owner; VNum rs; VBytes [x01]; VNum 0];
      enable_remote_chains receiver remotes'
  end.
Definition deploy_receiver (router : string) (ds : MemoryDataStore) : prog W E (gres (string * MemoryDataStore)) :=
  receiver <-? deploy_contract "ccip_receiver_example.wasm" "ccip_receiver_example" "ccip-receiver-example" ccip_receiver_Deploy;
  ds <-? recorded (RecordCCIPReceiver ds selector receiver);
  _ <-? exec "initialize ccip_receiver_example" (ccip_receiver_Initialize enumerate)
          [VString receiver; VString owner; VString router];
  _ <-? enable_remote_chains receiver remoteSelectors;
  _ ← SetReceiver h receiver;
  Ret (GVal (receiver, ds)).

(** A reference to a deployed contract, and one to a made-up address. *)
Definition upsert_contract (what : string) (kind : string * option string) (qualifier contractID : string)
    (ds : MemoryDataStore) : result MemoryDataStore :=
  hex ← wrap_err ("convert " +:+ what +:+ " address") (StrkeyToHex contractID);
  Upsert (mkAddressRef selector (fst kind) (snd kind) qualifier hex) ds.
Definition upsert_placeholder (kind : string * option string) (name : string) (ds : MemoryDataStore) : result MemoryDataStore :=
  Upsert (mkAddressRef selector (fst kind) (snd kind) DefaultExecutorQualifier (contractHexAddr name)) ds.
Definition final_refs (f : Foundation) (vvr cv : string) (r : Ramps) (receiver : string) (ds : MemoryDataStore)
  : result MemoryDataStore :=
  ds ← upsert_contract "receiver" (CcipReceiverContractType, Some ContractDeploymentVersion) "" receiver ds;
  ds ← upsert_contract "OnRamp" onrampoperations "" (onramp f) ds;
  ds ← upsert_contract "OffRamp" offrampoperations "" (offramp r) ds;
  ds ← upsert_contract "Router" router_kind "" (router r) ds;
  ds ← upsert_contract "TokenAdminRegistry" (TokenAdminRegistryContractType, Some ContractDeploymentVersion) "" (tar f) ds;
  ds ← upsert_contract "VVR" CommitteeVerifierResolverType DefaultCommitteeVerifierQualifier vvr ds;
  ds ← upsert_contract "Committee Verifier" committee_verifier_kind DefaultCommitteeVerifierQualifier cv ds;
  ds ← upsert_placeholder executor_kind "stellar-executor" ds;
  ds ← upsert_placeholder proxy_kind "stellar-executor-proxy" ds;
  ds ← upsert_contract "RMN Remote" rmn_remote_kind "" (rmnRemote f) ds;
  upsert_contract "FeeQuoter" fee_quoter_kind "" (feeQuoter f) ds.

(** The phases, in order. *)
Definition all_phases (orders : nat → list string → list string) (topology : NOPTopology) (ds : MemoryDataStore)
  : prog W E (gres OnChainOutput) :=
  fd <-? deploy_foundation ds;
  let f := fst fd in
  vd <-? deploy_verification (rmnProxy f) (snd fd);
  let '(vvr, cv, ds) := vd in
  _ <-? configure_verification orders topology vvr cv;
  _ <-? configure_fees (feeQuoter f) (feeToken f);
  rd <-? deploy_ramps f cv ds;
  let r := fst rd in
  _ <-? provisional_lanes f vvr r (snd rd);
  ds <-? deploy_registry f r (snd rd);
  cd <-? deploy_receiver (router r) ds;
  ds <-? Ret (of_result (final_refs f vvr cv r (fst cd) (snd cd)));
  addrs <-? Ret (of_result (Fetch ds));
  Ret (GVal (mkOnChainOutput addrs [])).
End phases.

(** [None] for a nil host, for incomplete dependencies, and for nil topologies. *)
Definition RunStellarCCIPFullDeploy (deps : option (StellarDeps W E)) (h : option (CCIPDevenvHost W E))
    (orders : nat → list string → list string) (topology : option (option NOPTopology))
    (inp : DeployStellarCCIPInnerInput) : prog W E (gres OnChainOutput) :=
  match h, deps, topology with
  | None, _, _ => Ret (GErr "RunStellarCCIPFullDeploy: CCIPDevenvHost is nil")
  | _, None, _ => Ret (GErr "RunStellarCCIPFullDeploy: incomplete StellarDeps")
  | _, _, None => Ret (GErr ("RunStellarCCIPFullDeploy: offchain EnvironmentTopology is nil (committee verifier " +:+
      "signature quorum requires NOP topology; use CCV pre-deploy stash + StellarDeployChainContracts or " +:+
      "RunStellarCCIPFullDeployForCCV with a non-nil CCV topology)"))
  | _, _, Some None => Ret (GErr ("RunStellarCCIPFullDeploy: topology.NOPTopology is nil (cannot resolve committee " +:+
      "signers for ApplySignatureConfigs)"))
  | Some h, Some deps, Some (Some topology) =>
      ds <-? Ret (of_result (MergeExistingAddressRefs print_version NewMemoryDataStore (iiExistingAddresses inp)));
      root <-? Ret (of_result (wrap_err "locate chainlink-stellar root" FindStellarRoot));
      all_phases deps h root (iiChainSelector inp) (AllSelectors inp)
        (FilterRemoteSelectors (AllSelectors inp) (iiChainSelector inp)) orders topology ds
  end.

(** ** [sequences/ccv_stellar_deploy.go] *)

(** A JSON round trip of the topology ([CCVEnvironmentTopologyToOffchain]); the result can be
    nil only for nil. *)
Context (CCVTopology : Type) (json_topology : CCVTopology → result (option NOPTopology)).
Definition RunStellarCCIPFullDeployForCCV (deps : option (StellarDeps W E)) (h : option (CCIPDevenvHost W E))
    (orders : nat → list string → list string) (allSelectors : list Z) (selector : Z) (topology : option CCVTopology)
    (existingAddresses : list AddressRef) : prog W E (gres OnChainOutput) :=
  match topology with
  | None => Ret (GErr ("RunStellarCCIPFullDeployForCCV: CCV EnvironmentTopology is nil (required for Stellar " +:+
                       "committee verifier signature quorum config)"))
  | Some topology =>
      offTopo <-? Ret (of_result (json_topology topology));
      RunStellarCCIPFullDeploy deps h orders (Some offTopo) (mkInnerInput selector allSelectors existingAddresses)
  end.
Fixpoint upsert_all (refs : list AddressRef) (mem : MemoryDataStore) : result MemoryDataStore :=
  match refs with
  | [] => Ok mem
  | ref :: refs' => mem ← Upsert ref mem; upsert_all refs' mem
  end.
(** [withContext]: whether the bundle provides [GetContext]. *)
Definition DeployStellarCCIPContracts (withContext : bool) (h : option (CCIPDevenvHost W E))
    (orders : nat → list string → list string) (allSelectors : list Z) (selector : Z) (topology : option CCVTopology)
    (existingAddresses : list AddressRef) : prog W E (gres MemoryDataStore) :=
  match h with
  | None => Ret (GErr "stellar CCIP deploy host is nil")
  | Some host =>
      if negb withContext then Ret (GErr "stellar CCIP deploy: operations bundle must provide GetContext")
      else
        out <-? RunStellarCCIPFullDeployForCCV (Some (hostDeployer host)) h orders allSelectors selector topology
                  existingAddresses;
        Ret (of_result (upsert_all (Addresses out) NewMemoryDataStore))
  end.
(** [StellarCCIPDeploySession]: the arguments, checked when it is made. *)
Record StellarCCIPDeploySession := mkStellarCCIPDeploySession {
  sHost : CCIPDevenvHost W E;
  sAllSelectors : list Z;
  sSelector : Z;
  sTopology : option CCVTopology;
  sExistingAddresses : list AddressRef
}.
Definition NewStellarCCIPDeploySession (withContext : bool) (h : option (CCIPDevenvHost W E)) (allSelectors : list Z)
    (selector : Z) (topology : option CCVTopology) (existingAddresses : list AddressRef) : result StellarCCIPDeploySession :=
  match h with
  | None => Err "stellar CCIP deploy host is nil"
  | Some h =>
      if negb withContext then Err "stellar CCIP deploy: operations bundle must provide GetContext"
      else Ok (mkStellarCCIPDeploySession h allSelectors selector topology existingAddresses)
  end.
Definition RunAllPhasesAndSeal (orders : nat → list string → list string) (s : StellarCCIPDeploySession)
  : prog W E (gres MemoryDataStore) :=
  DeployStellarCCIPContracts true (Some (sHost s)) orders (sAllSelectors s) (sSelector s) (sTopology s) (sExistingAddresses s).

(** ** [ccip/token_pool_post_deploy.go] *)

Definition initialPoolLiquidity : Z := 1000000000.
Definition testTokenPoolDecimals : Z := 7.
Definition sacApproveLedgerBuffer : Z := 1000.

Section pools.
Context (h : CCIPDevenvHost W E) (tokenContractID : string).
Let deployerAddr : string := DeployerKeypair h.
Let deps : StellarDeps W E := hostDeployer h.

(** Only a missing file is an error. *)
Definition wasm_exists (path name : string) : prog W E (gres unit) :=
  info ← Stat path;
  Ret (match info with
       | NotExist => GErr (name +:+ " WASM not found at " +:+ path +:+ ". Run 'make build'.")
       | _ => GVal tt
       end).
Definition deploy_pool (what file saltName root : string) (op : Operation W E) : prog W E (gres string) :=
  out <-? gctx what (ExecuteOperation op deps
            (deploy_input (release_wasm root file) (Deployer.GenerateDeterministicSalt deployerAddr saltName)));
  Ret (deployed_id out).
Definition pool_initialize_input (pool router rampRegistry : string) : list value :=
  [VString pool; VString deployerAddr; VString tokenContractID; VNum testTokenPoolDecimals; VString router;
   VString rampRegistry].
Definition deployLegacyLockReleasePool : prog W E (gres unit) :=
  root <-? Ret (of_result (wrap_err "find stellar root" FindStellarRoot));
  _ <-? wasm_exists (release_wasm root "pools_lock_release_pool.wasm") "LockReleasePool";
  pool <-? deploy_pool "failed to deploy legacy LockRelease pool" "pools_lock_release_pool.wasm" "lock-release-pool" root
             token_pool_Deploy;
  _ ← SetLegacyLockReleasePool h pool;
  router ← RouterContractID h;
  if decide (router = "") then
    Ret (GErr "router contract ID is empty; token pool initialize requires router (deploy core CCIP first)")
  else
    rampRegistry ← RampRegistryContractID h;
    if decide (rampRegistry = "") then
      Ret (GErr "ramp registry contract ID is empty; token pool initialize requires ramp registry (deploy core CCIP first)")
    else
      _ <-? exec deps "failed to initialize legacy pool with token" (token_pool_Initialize enumerate)
              (pool_initialize_input pool router rampRegistry);
      exec deps "fund legacy pool with SAC liquidity" sac_token_Transfer
        [VString tokenContractID; VString deployerAddr; VString pool; VNum initialPoolLiquidity].

(** The box that holds the liquidity, and the pool. *)
Definition deploy_lock_box (root : string) : prog W E (gres string) :=
  lockBox <-? deploy_pool "deploy token lock box" "pools_token_lock_box.wasm" "token-lock-box" root token_lock_box_Deploy;
  _ <-? exec deps "initialize token lock box" (token_lock_box_Initialize enumerate)
          [VString lockBox; VString deployerAddr; VString tokenContractID];
  _ ← SetTokenLockBox h lockBox;
  Ret (GVal lockBox).
Definition deploy_siloed (root : string) : prog W E (gres string) :=
  pool <-? deploy_pool "deploy siloed lock-release pool" "pools_siloed_lock_release_pool.wasm" "siloed-lock-release-pool" root
             siloed_lock_release_pool_Deploy;
  router ← RouterContractID h;
  rampRegistry ← RampRegistryContractID h;
  _ <-? exec deps "initialize siloed pool" (siloed_lock_release_pool_Initialize enumerate)
          (pool_initialize_input pool router rampRegistry);
  Ret (GVal pool).
Definition expiration_ledger : prog W E (gres Z) :=
  latest ← LatestLedgerSequence h;
  match latest with
  | GVal l => Ret (GVal (uint32 (l + sacApproveLedgerBuffer)))
  | GErr _ => Ret (GVal 9999999)
  | GPanic m => Panic m
  end.
Definition fund_lock_box (lockBox pool : string) : prog W E (gres unit) :=
  _ <-? exec deps "add siloed pool and deployer as lock box callers" (token_lock_box_AddAllowedCallers enumerate)
          [VString lockBox; VSlice [VString pool; VString deployerAddr]];
  expirationLedger <-? expiration_ledger;
  _ <-? exec deps "approve lock box to pull SAC for deposit" sac_token_Approve
          [VString tokenContractID; VString deployerAddr; VString lockBox; VNum initialPoolLiquidity; VNum expirationLedger];
  exec deps "deposit SAC liquidity into lock box" (token_lock_box_Deposit enumerate)
    [VString lockBox; VString deployerAddr; VNum initialPoolLiquidity].
Definition register_pool (tarID pool : string) : prog W E (gres unit) :=
  _ <-? exec deps "propose administrator in TokenAdminRegistry" (token_admin_registry_ProposeAdministrator enumerate)
          [VString tarID; VString deployerAddr; VString tokenContractID; VString deployerAddr];
  _ <-? exec deps "accept admin role in TokenAdminRegistry" (token_admin_registry_AcceptAdminRole enumerate)
          [VString tarID; VString tokenContractID];
  exec deps "register siloed pool in TokenAdminRegistry" (token_admin_registry_SetPool enumerate)
    [VString tarID; VString tokenContractID; VOptString (Some pool)].
Definition deploySiloedLockReleaseTestTokenPool (tarID : string) : prog W E (gres unit) :=
  root <-? Ret (of_result (wrap_err "find stellar root" FindStellarRoot));
  _ <-? wasm_exists (release_wasm root "pools_token_lock_box.wasm") "TokenLockBox";
  _ <-? wasm_exists (release_wasm root "pools_siloed_lock_release_pool.wasm") "SiloedLockReleasePool";
  lockBox <-? deploy_lock_box root;
  pool <-? deploy_siloed root;
  _ <-? fund_lock_box lockBox pool;
  _ ← SetTokenPool h pool;
  register_pool tarID pool.
End pools.
Definition DeployLockReleaseTestTokenPool (h : CCIPDevenvHost W E) : prog W E (gres unit) :=
  tarClient ← TokenAdminRegistryClient h;
  match tarClient with
  | None => Ret (GErr "token admin registry client is nil before pool token setup")
  | Some tarID =>
      if decide (FriendbotURL h = "") then Ret (GVal tt)
      else
        token <-? gctx "failed to create test token" (CreateTestToken h (FriendbotURL h));
        _ ← SetTestToken h token;
        _ <-? deployLegacyLockReleasePool h token;
        deploySiloedLockReleaseTestTokenPool h token tarID
  end.

(** ** [sequences/deploy_topology_stash.go] and [deploy_stellar_ccip.go] *)

(** The stash of topologies by chain. *)
Definition Stash : Type := gmap Z (option NOPTopology).
Definition RegisterStellarDeployOffchainTopologyForSelector (selector : Z) (topo : option (option NOPTopology))
    (s : Stash) : Stash :=
  match topo with None => s | Some t => <[selector := t]> s end.
Definition TakeStellarDeployOffchainTopologyForSelector (selector : Z) (s : Stash) : option (option NOPTopology) * Stash :=
  (s !! selector, delete selector s).
Definition ClearStellarDeployOffchainTopologyForSelector (selector : Z) (s : Stash) : Stash := delete selector s.

(** [chains.All()] in the order of Go's map. *)
Definition allSelectorsFromBlockChains (all : list Z) : list Z := merge_sort Z.le all.

Section sequence.
Context {HO : Host W E} (getFields : W → HostFields) (putFields : HostFields → W → W)
  (getStash : W → Stash) (putStash : Stash → W → W).
Context (GetLatestLedger : option (prog W E (gres Z))) (DeployDevenvSACToken : string → string → string → prog W E (gres string)).
(** The friendbot of a chain, and all chains, also those of other families. *)
Context (friendbotURL : Z → string) (all : list Z).

(** [DeployChainContractsInput], the fields in use. *)
Record DeployChainContractsInput := mkDeployChainContractsInput {
  dcChainSelector : Z;
  dcExistingAddresses : list AddressRef
}.
Definition StellarDeployChainContracts (orders : nat → list string → list string)
  : Sequence W E DeployChainContractsInput OnChainOutput :=
  mkSequence "stellar-deploy-chain-contracts"
    ("Deploys Stellar Soroban CCIP contracts via CLDF Stellar chain (adapter path); uses pre-stashed offchain " +:+
     "topology from CCV pre-deploy when present.") (λ chains inp,
    match chains !! dcChainSelector inp with
    | None => Ret (GErr ("stellar chain not found for selector " +:+ pretty (dcChainSelector inp)))
    | Some ch =>
        dep <-? gctx "stellar deployer from chain"
                  (Ret (of_result (Deployer.NewDeployerFromChain (NetworkPassphrase ch) (ChainSigner ch) [])));
        let deps := host (snd dep) (FromDeployer (fst dep)) in
        h <-? gctx "stellar devenv host" (Ret (of_result (NewCLDFStellarCCIPDevenvHost getFields putFields deps
                  GetLatestLedger DeployDevenvSACToken ch (friendbotURL (dcChainSelector inp)))));
        _ ← write getFields putFields (λ _, no_fields);
        offTopo ← atomic (λ w, let '(t, s) := TakeStellarDeployOffchainTopologyForSelector (dcChainSelector inp) (getStash w) in
                               (t, putStash s w));
        match offTopo with
        | None => Ret (GErr ("stellar deploy chain contracts: offchain topology required for selector " +:+
            pretty (dcChainSelector inp) +:+ " (CCV PreDeployContractsForSelector must call " +:+
            "RegisterStellarDeployOffchainTopologyForSelector before DeployChainContracts so committee verifier " +:+
            "signature config can be applied)"))
        | Some topo =>
            RunStellarCCIPFullDeploy (Some deps) (Some h) orders (Some topo)
              (mkInnerInput (dcChainSelector inp) (allSelectorsFromBlockChains all) (dcExistingAddresses inp))
        end
    end).
End sequence.
End full_deploy.
End FullDeploy.

Module Fees.

(** [fees.TokenTransferFeeArgs] and [lanes.FeeQuoterDestChainConfig], the fields in use;
    [None] for a nil [V2Params]. *)
Record TokenTransferFeeArgs := mkTokenTransferFeeArgs {
  DestBytesOverhead : Z;
  ttDestGasOverhead : Z;
  MinFeeUSDCents : Z;
  MaxFeeUSDCents : Z;
  DeciBps : Z;
  ttIsEnabled : bool
}.
Record FeeQuoterDestChainConfig := mkFeeQuoterDestChainConfig {
  dccIsEnabled : bool;
  MaxDataBytes : Z;
  MaxPerMsgGasLimit : Z;
  dccDestGasOverhead : Z;
  DestGasPerPayloadByteBase : Z;
  DefaultTokenFeeUSDCents : Z;
  DefaultTokenDestGasOverhead : Z;
  DefaultTxGasLimit : Z;
  NetworkFeeUSDCents : Z;
  LinkFeeMultiplierPercent : option Z
}.
(** [SetTokenTransferFeeSequenceInput] and [ApplyDestChainConfigSequenceInput]: maps by
    destination, the first by token, with nil pointers. *)
Record SetTokenTransferFeeInput := mkSetTokenTransferFeeInput {
  ttSelector : Z;
  ttSettings : gmap Z (gmap string (option TokenTransferFeeArgs))
}.
Record ApplyDestChainConfigInput := mkApplyDestChainConfigInput {
  dccSelector : Z;
  dccSettings : gmap Z FeeQuoterDestChainConfig
}.
(** [FeeAggregatorForChain]: of the contracts, only their types are read. *)
Record FeeAggregatorForChain := mkFeeAggregatorForChain {
  faChainSelector : Z;
  FeeAggregator : string;
  faContracts : list AddressRef
}.

Section fees.
Context {ST : SdkTypes} {SD : Sdk} {UT : UnicodeTables} {XS : XdrSdk} {HF : HostFunctions}
  {MS : MetaSdk} {RS : RpcSdk} {FC : FloatConv} {DS : DeployerSdk} {LS : LaneSdk} {AS : AccessorSdk}
  {DT : Datastore} {CK : ContractKinds}.
Context (enumerate : list string → list string).
Context {W : Type} {E : Type → Type} {CF : Cldf W E} {HO : Host W E}.

(** ** [sequences/fee.go] *)

Definition chain_deps (ctx : string → string) (chains : BlockChains) (selector : Z) : gres (StellarDeps W E) :=
  match chains !! selector with
  | None => GErr (ctx (pretty selector))
  | Some ch =>
      dep ← of_result (Deployer.NewDeployerFromChain (NetworkPassphrase ch) (ChainSigner ch) []);
      GVal (host (snd dep) (FromDeployer (fst dep)))
  end.
Definition not_found (selector : string) : string := "stellar chain " +:+ selector +:+ " not found".

Definition token_fee_config (destSel : Z) (token : string) (feeArgs : TokenTransferFeeArgs) : value :=
  VStruct [VStruct [VNum (DestBytesOverhead feeArgs); VNum (ttDestGasOverhead feeArgs); VNum (MinFeeUSDCents feeArgs);
                    VBool (ttIsEnabled feeArgs)]; VNum destSel; VString token].
(** [dests] and [tokens] are the orders in which Go ranges over the maps. *)
Definition token_fee_configs (dests : list Z → list Z) (tokens : Z → list string → list string)
    (settings : gmap Z (gmap string (option TokenTransferFeeArgs))) : list value :=
  destSel ← dests (fst <$> map_to_list settings);
  let tokenFees := default ∅ (settings !! destSel) in
  omap (λ token, token_fee_config destSel token <$> mjoin (tokenFees !! token))
    (tokens destSel (fst <$> map_to_list tokenFees)).
Definition StellarSetTokenTransferFee (dests : list Z → list Z) (tokens : Z → list string → list string)
  : Sequence W E (SetTokenTransferFeeInput * string) OnChainOutput :=
  mkSequence "stellar-set-token-transfer-fee" "Set per-token transfer fees on Stellar FeeQuoter" (λ chains inp,
    let '(inp, fqContractID) := inp in
    deps <-? Ret (chain_deps not_found chains (ttSelector inp));
    match token_fee_configs dests tokens (ttSettings inp) with
    | [] => Ret (GVal (mkOnChainOutput [] []))
    | cfgArgs =>
        _ <-? gctx ("apply token fee configs on chain " +:+ pretty (ttSelector inp))
                (ExecuteOperation (fee_quoter_ApplyTokenFeeConfigs enumerate) deps
                   [VString fqContractID; VSlice cfgArgs; VSlice []]);
        Ret (GVal (mkOnChainOutput [] []))
    end).

(** A nil [V2Params] is dereferenced. *)
Definition dest_chain_config (destSel : Z) (cfg : FeeQuoterDestChainConfig) : gres value :=
  match LinkFeeMultiplierPercent cfg with
  | None => GPanic "nil pointer dereference"
  | Some linkPremium =>
      GVal (VStruct [VStruct [VNum (DefaultTokenDestGasOverhead cfg); VNum (uint32 (DefaultTokenFeeUSDCents cfg));
        VNum (DefaultTxGasLimit cfg); VNum (dccDestGasOverhead cfg); VNum (uint32 (DestGasPerPayloadByteBase cfg));
        VBool (dccIsEnabled cfg); VNum (uint32 linkPremium); VNum (MaxDataBytes cfg); VNum (MaxPerMsgGasLimit cfg);
        VNum (uint32 (NetworkFeeUSDCents cfg))]; VNum destSel])
  end.
Definition dest_chain_configs (dests : list Z → list Z) (settings : gmap Z FeeQuoterDestChainConfig) : gres (list value) :=
  gimapM (λ _ destSel, match settings !! destSel with Some cfg => dest_chain_config destSel cfg | None => ill_typed end)
    (dests (fst <$> map_to_list settings)).
Definition StellarApplyDestChainConfig (dests : list Z → list Z)
  : Sequence W E (ApplyDestChainConfigInput * string) OnChainOutput :=
  mkSequence "stellar-apply-dest-chain-config" "Apply dest chain config updates on Stellar FeeQuoter" (λ chains inp,
    let '(inp, fqContractID) := inp in
    deps <-? Ret (chain_deps not_found chains (dccSelector inp));
    cfgArgs <-? Ret (dest_chain_configs dests (dccSettings inp));
    match cfgArgs with
    | [] => Ret (GVal (mkOnChainOutput [] []))
    | _ =>
        _ <-? gctx ("apply dest chain configs on chain " +:+ pretty (dccSelector inp))
                (ExecuteOperation (fee_quoter_ApplyDestChainConfigs enumerate) deps [VString fqContractID; VSlice cfgArgs]);
        Ret (GVal (mkOnChainOutput [] []))
    end).

(** The three contracts that hold fees, each with its update. *)
Section aggregator.
Context (deps : StellarDeps W E) (ds : MemoryDataStore) (selector : Z) (feeAgg : string).
Definition update_onramp : prog W E (gres unit) :=
  onID <-? gctx "resolve OnRamp" (Ret (of_result (GetOnRampStrkey ds selector)));
  dyn <-? gctx "onramp get dynamic config"
            (OnRampClient.OnRampClient_GetDynamicConfig enumerate (IV := depsInvoker deps) onID []);
  match dyn with
  | [VPtr None] => Ret (GErr "onramp dynamic config is nil")
  | [VStruct [_; feeQuoter]] =>
      _ <-? gctx "onramp set dynamic config"
              (OnRampClient.OnRampClient_SetDynamicConfig enumerate (IV := depsInvoker deps) onID
                 [VStruct [VString feeAgg; feeQuoter]]);
      Ret (GVal tt)
  | _ => Ret ill_typed
  end.
Definition update_vvr : prog W E (gres unit) :=
  vvrID <-? gctx "resolve VVR" (Ret (of_result (GetVVRStrkey ds selector)));
  _ <-? gctx "vvr set_fee_aggregator"
          (VersionedVerifierResolverClient.VersionedVerifierResolverClient_SetFeeAggregator enumerate
             (IV := depsInvoker deps) vvrID [VString feeAgg]);
  Ret (GVal tt).
Definition update_committee_verifier : prog W E (gres unit) :=
  cvID <-? gctx "resolve CommitteeVerifier" (Ret (of_result (GetCommitteeVerifierStrkey ds selector)));
  dyn <-? gctx "committee verifier get dynamic config"
            (CommitteeVerifierClient.CommitteeVerifierClient_GetDynamicConfig enumerate (IV := depsInvoker deps) cvID []);
  match dyn with
  | [VPtr None] => Ret (GErr "committee verifier dynamic config is nil")
  | [VStruct [allowlistAdmin; _]] =>
      _ <-? gctx "committee verifier set dynamic config"
              (CommitteeVerifierClient.CommitteeVerifierClient_SetDynamicConfig enumerate (IV := depsInvoker deps) cvID
                 [VStruct [allowlistAdmin; VOptString (Some feeAgg)]]);
      Ret (GVal tt)
  | _ => Ret ill_typed
  end.
End aggregator.
(** The types of the contracts to update: those of the input, or all three. *)
Definition wanted_types (contracts : list AddressRef) : list string :=
  match contracts with
  | [] => [dcType OnRampDatastoreRef; dcType VVRDatastoreRef; dcType CommitteeVerifierDatastoreRef]
  | _ => refType <$> contracts
  end.
Definition when_wanted (types : list string) (r : DatastoreSorobanContractRef) (p : prog W E (gres unit)) : prog W E (gres unit) :=
  if decide (dcType r ∈ types) then p else Ret (GVal tt).
(** [None] for an environment without a datastore. *)
Definition ApplyStellarFeeAggregator (chains : BlockChains) (env : option MemoryDataStore) (inp : FeeAggregatorForChain)
  : prog W E (gres OnChainOutput) :=
  match env with
  | None => Ret (GErr "environment DataStore is nil")
  | Some ds =>
      feeAgg <-? Ret (of_result (ParseFeeAggregatorAddress (FeeAggregator inp)));
      match chains !! faChainSelector inp with
      | None => Ret (GErr ("stellar chain " +:+ pretty (faChainSelector inp) +:+ " not found in environment"))
      | Some ch =>
          dep <-? gctx "stellar deployer from chain"
                    (Ret (of_result (Deployer.NewDeployerFromChain (NetworkPassphrase ch) (ChainSigner ch) [])));
          let deps := host (snd dep) (FromDeployer (fst dep)) in
          let want := wanted_types (faContracts inp) in
          _ <-? when_wanted want OnRampDatastoreRef (update_onramp deps ds (faChainSelector inp) feeAgg);
          _ <-? when_wanted want VVRDatastoreRef (update_vvr deps ds (faChainSelector inp) feeAgg);
          _ <-? when_wanted want CommitteeVerifierDatastoreRef (update_committee_verifier deps ds (faChainSelector inp) feeAgg);
          Ret (GVal (mkOnChainOutput [] []))
      end
  end.

(** ** [adapters/stellar_fee_adapter.go] *)

Definition GetFeeContractRef (ds : MemoryDataStore) (src : Z) : result AddressRef :=
  FindAndFormatRef ds (mkAddressRef 0 (fst fee_quoter_kind) (snd fee_quoter_kind) "" "") src Ok.
(** A sequence on the strkey of the FeeQuoter that the datastore has in hexadecimal. *)
Definition on_fee_quoter {I} (selector : I → Z) (fq : AddressRef) (inner : Sequence W E (I * string) OnChainOutput)
  : Sequence W E I OnChainOutput :=
  mkSequence (seqID inner) (seqDescription inner) (λ chains inp,
    fqStrkey <-? gctx ("fee quoter datastore address to strkey for chain " +:+ pretty (selector inp))
                   (Ret (of_result (ScVal.HexToContractStrkey (refAddress fq))));
    ExecuteSequence inner chains (inp, fqStrkey)).
Definition SetTokenTransferFee (dests : list Z → list Z) (tokens : Z → list string → list string) (fq : AddressRef) :=
  on_fee_quoter ttSelector fq (StellarSetTokenTransferFee dests tokens).
Definition ApplyDestChainConfigUpdates (dests : list Z → list Z) (feeRef : AddressRef) :=
  on_fee_quoter dccSelector feeRef (StellarApplyDestChainConfig dests).
Definition GetDefaultTokenTransferFeeConfig : TokenTransferFeeArgs := mkTokenTransferFeeArgs 0 50000 50 500 0 true.
Definition Validate (feeRef : AddressRef) : result unit :=
  if decide (refAddress feeRef = "") then Err "fee quoter address is empty"
  else (λ _, tt) <$> wrap_err ("invalid fee quoter address " +:+ Quote (refAddress feeRef))
                       (ScVal.HexToContractStrkey (refAddress feeRef)).
(** [GetFeeQuoterDestChainConfig] of the chain family adapter. *)
Definition GetDefaultDestChainConfig : FeeQuoterDestChainConfig :=
  mkFeeQuoterDestChainConfig true 50000 4000000 350000 16 50 50000 200000 100 (Some 90).

(** ** [adapters/stellar_fee_aggregator_adapter.go] *)

Definition SetFeeAggregator (env : option MemoryDataStore) : Sequence W E FeeAggregatorForChain OnChainOutput :=
  mkSequence "stellar-set-fee-aggregator" "Sets fee aggregator on Stellar OnRamp, VVR, and CommitteeVerifier"
    (λ chains inp, ApplyStellarFeeAggregator chains env inp).
Definition GetFeeAggregator (chains : BlockChains) (env : option MemoryDataStore) (chainSelector : Z) : prog W E (gres string) :=
  match env with
  | None => Ret (GErr "environment DataStore is nil")
  | Some ds =>
      match chains !! chainSelector with
      | None => Ret (GErr ("stellar chain " +:+ pretty chainSelector +:+ " not found in environment"))
      | Some ch =>
          dep <-? gctx "stellar deployer from chain"
                    (Ret (of_result (Deployer.NewDeployerFromChain (NetworkPassphrase ch) (ChainSigner ch) [])));
          vvrID <-? gctx ("resolve VVR for chain " +:+ pretty chainSelector) (Ret (of_result (GetVVRStrkey ds chainSelector)));
          r <-? VersionedVerifierResolverClient.VersionedVerifierResolverClient_GetFeeAggregator enumerate
                  (IV := depsInvoker (host (snd dep) (FromDeployer (fst dep)))) vvrID [];
          Ret (match r with [VString a] => GVal a | _ => ill_typed end)
      end
  end.
End fees.
End Fees.

Module Curse.

(** The shared tooling: which families can be cursed, and subjects of 16 bytes. *)
Class FastCurse := {
  IsFamilyRegistered : string → bool;
  GenericSubjectToSelector : bytes → result Z;
  GenericSelectorToSubject : Z → bytes
}.
(** [fastcurse.CurseInput]. *)
Record CurseInput := mkCurseInput { cuChainSelector : Z; Subjects : list bytes }.
(** [StellarCurseAdapter]: its two caches; [None] for a nil map. *)
Record StellarCurseAdapter := mkStellarCurseAdapter {
  rmnContractID : option (gmap Z string);
  routerContractID : option (gmap Z string)
}.

Section curse.
Context {ST : SdkTypes} {SD : Sdk} {UT : UnicodeTables} {XS : XdrSdk} {HF : HostFunctions}
  {MS : MetaSdk} {RS : RpcSdk} {FC : FloatConv} {DS : DeployerSdk} {LS : LaneSdk} {AS : AccessorSdk}
  {DT : Datastore} {CK : ContractKinds} {FK : FastCurse}.
Context (enumerate : list string → list string).
Context {W : Type} {E : Type → Type} {CF : Cldf W E} {HO : Host W E}.

(** ** [sequences/curse.go] *)

(** The address of the deployer with its dependencies. *)
Definition curse_deployer (missing : string) (chains : BlockChains) (selector : Z) : gres (string * StellarDeps W E) :=
  match chains !! selector with
  | None => GErr missing
  | Some ch =>
      dep ← of_result (Deployer.NewDeployerFromChain (NetworkPassphrase ch) (ChainSigner ch) []);
      GVal (Deployer.SignerAddress (fst dep), host (snd dep) (FromDeployer (fst dep)))
  end.
Definition chain_not_found (selector : Z) : string := "stellar chain " +:+ pretty selector +:+ " not found".
Definition curse_input (rmn caller : string) (subjects : list bytes) : list value :=
  [VString rmn; VString caller; VSlice (VBytes <$> subjects)].
Definition uncurse_input (rmn : string) (subjects : list bytes) : list value :=
  [VString rmn; VSlice (VBytes <$> subjects)].
Definition StellarCurse : Sequence W E (CurseInput * string) OnChainOutput :=
  mkSequence "stellar-curse-rmn-remote" "Curse subjects on Stellar RMN Remote" (λ chains inp,
    let '(inp, rmn) := inp in
    dep <-? Ret (curse_deployer (chain_not_found (cuChainSelector inp)) chains (cuChainSelector inp));
    _ <-? gctx ("curse on chain " +:+ pretty (cuChainSelector inp))
            (ExecuteOperation (rmn_remote_Curse enumerate) (snd dep) (curse_input rmn (fst dep) (Subjects inp)));
    Ret (GVal (mkOnChainOutput [] []))).
Definition StellarUncurse : Sequence W E (CurseInput * string) OnChainOutput :=
  mkSequence "stellar-uncurse-rmn-remote" "Uncurse subjects on Stellar RMN Remote" (λ chains inp,
    let '(inp, rmn) := inp in
    dep <-? Ret (curse_deployer (chain_not_found (cuChainSelector inp)) chains (cuChainSelector inp));
    _ <-? gctx ("uncurse on chain " +:+ pretty (cuChainSelector inp))
            (ExecuteOperation (rmn_remote_Uncurse enumerate) (snd dep) (uncurse_input rmn (Subjects inp)));
    Ret (GVal (mkOnChainOutput [] []))).

(** ** [adapters/stellar_curse_adapter.go] *)

Definition NewStellarCurseAdapter : StellarCurseAdapter := mkStellarCurseAdapter None None.
Definition stellarContractIDOnChain (ds : MemoryDataStore) (selector : Z) (ref : DatastoreSorobanContractRef) : result string :=
  hexAddr ← FindAndFormatRef ds (PartialAddressRef ref) selector (λ r, Ok (refAddress r));
  ScVal.HexToContractStrkey hexAddr.
(** One cache: kept when it has the chain, filled otherwise. *)
Definition ensure_cached (what : string) (ds : MemoryDataStore) (selector : Z) (ref : DatastoreSorobanContractRef)
    (cache : gmap Z string) : result (gmap Z string) :=
  match cache !! selector with
  | Some _ => Ok cache
  | None =>
      addr ← wrap_err ("resolve " +:+ what +:+ " on chain " +:+ pretty selector) (stellarContractIDOnChain ds selector ref);
      Ok (<[selector := addr]> cache)
  end.
(** The adapter keeps what it cached before an error. *)
Definition Initialize (chains : BlockChains) (ds : MemoryDataStore) (selector : Z) (a : StellarCurseAdapter)
  : result unit * StellarCurseAdapter :=
  match chains !! selector with
  | None => (Err ("stellar chain " +:+ pretty selector +:+ " not found in environment"), a)
  | Some _ =>
      let rmn := default ∅ (rmnContractID a) in
      let routers := default ∅ (routerContractID a) in
      match ensure_cached "RMN Remote" ds selector RMNRemoteDatastoreRef rmn with
      | Err e => (Err e, mkStellarCurseAdapter (Some rmn) (Some routers))
      | Ok rmn =>
          match ensure_cached "Router" ds selector RouterDatastoreRef routers with
          | Err e => (Err e, mkStellarCurseAdapter (Some rmn) (Some routers))
          | Ok routers => (Ok tt, mkStellarCurseAdapter (Some rmn) (Some routers))
          end
      end
  end.
Definition cached (what : string) (cache : option (gmap Z string)) (selector : Z) : gres string :=
  match default ∅ cache !! selector with
  | None => GErr ("no " +:+ what +:+ " cached for chain " +:+ pretty selector)
  | Some id => GVal id
  end.
Definition not_in_environment (selector : Z) : string := "stellar chain " +:+ pretty selector +:+ " not in environment".
Definition a_bool (r : list value) : gres bool := match r with [VBool b] => GVal b | _ => ill_typed end.
Definition IsSubjectCursedOnChain (a : StellarCurseAdapter) (chains : BlockChains) (selector : Z) (subject : bytes)
  : prog W E (gres bool) :=
  rmnID <-? Ret (cached "RMN Remote" (rmnContractID a) selector);
  dep <-? Ret (curse_deployer (not_in_environment selector) chains selector);
  r <-? RmnRemoteClient.RmnRemoteClient_IsCursedBySubject enumerate (IV := depsInvoker (snd dep)) rmnID [VBytes subject];
  Ret (a_bool r).
Definition IsChainConnectedToTargetChain (a : StellarCurseAdapter) (chains : BlockChains) (selector targetSel : Z)
  : prog W E (gres bool) :=
  routerID <-? Ret (cached "Router" (routerContractID a) selector);
  dep <-? Ret (curse_deployer (not_in_environment selector) chains selector);
  r <-? RouterClient.RouterClient_IsChainSupported enumerate (IV := depsInvoker (snd dep)) routerID [VNum targetSel];
  Ret (a_bool r).
Definition IsCurseEnabledForChain (a : StellarCurseAdapter) (selector : Z) : bool :=
  bool_decide (is_Some (default ∅ (rmnContractID a) !! selector)).
Definition SubjectToSelector : bytes → result Z := GenericSubjectToSelector.
Definition SelectorToSubject : Z → bytes := GenericSelectorToSubject.
Definition DeriveCurseAdapterVersion : string := ContractDeploymentVersion.
Definition wrapCurseSequence (a : StellarCurseAdapter) (inner : Sequence W E (CurseInput * string) OnChainOutput)
  : Sequence W E CurseInput OnChainOutput :=
  mkSequence (seqID inner) (seqDescription inner) (λ chains inp,
    rmnID <-? Ret (cached "RMN Remote" (rmnContractID a) (cuChainSelector inp));
    ExecuteSequence inner chains (inp, rmnID)).
Definition adapter_Curse (a : StellarCurseAdapter) := wrapCurseSequence a StellarCurse.
Definition adapter_Uncurse (a : StellarCurseAdapter) := wrapCurseSequence a StellarUncurse.

(** The sources of the router's off-ramps of known families, each once. *)
Fixpoint connected_chains (offRamps : list value) (connected : list Z) : gres (list Z) :=
  match offRamps with
  | [] => GVal connected
  | VStruct [VString offramp; VNum sel] :: offRamps' =>
      if decide (offramp = "") then connected_chains offRamps' connected
      else
        match GetSelectorFamily sel with
        | Err _ => connected_chains offRamps' connected
        | Ok family =>
            if negb (IsFamilyRegistered family) then connected_chains offRamps' connected
            else if decide (sel ∈ connected) then connected_chains offRamps' connected
            else connected_chains offRamps' (connected ++ [sel])
        end
  | _ => ill_typed
  end.
Definition ListConnectedChains (a : StellarCurseAdapter) (chains : BlockChains) (selector : Z) : prog W E (gres (list Z)) :=
  routerID <-? Ret (cached "Router" (routerContractID a) selector);
  dep <-? Ret (curse_deployer (not_in_environment selector) chains selector);
  r <-? gctx ("get offramps on chain " +:+ pretty selector)
          (RouterClient.RouterClient_GetOfframps enumerate (IV := depsInvoker (snd dep)) routerID []);
  Ret (match r with [VSlice offRamps] => connected_chains offRamps [] | _ => ill_typed end).
End curse.
End Curse.

(** The contract that curses are recorded in: [contracts/rmn_remote/src/lib.rs]. *)
Module RmnRemote.

Record Rmn := mkRmn {
  INITIALIZED : bool;
  ownable : Ownable.Ownable;
  CURSED : option (gset string);
  CURSE_ADMINS : option (list string)
}.

(** [BytesN<16>], and a [Map<BytesN<16>, bool>], in which only [true] is stored, by its keys:
    a key is the bytes as a text. *)
Definition subject (b : bytes) : string := String.string_of_list_byte b.
Definition GLOBAL_CURSE_SUBJECT : bytes := [x01] ++ replicate 14 x00 ++ [x01].

Section contract.
Context (auth : string → bool).

Definition require_initialized (st : Rmn) : result unit := if INITIALIZED st then Ok tt else Err "NotInitialized".
Definition load_curse_admins (st : Rmn) : list string := default [] (CURSE_ADMINS st).
Definition is_curse_admin (st : Rmn) (addr : string) : bool := bool_decide (addr ∈ load_curse_admins st).
Definition require_can_curse (st : Rmn) (caller : string) : result unit :=
  if Ownable.is_owner (ownable st) caller then Ownable.require_auth auth caller
  else if is_curse_admin st caller then Ownable.require_auth auth caller
  else Err "CallerNotAuthorized".
(** [for admin in curse_admins.iter()]. *)
Fixpoint add_admins (added admins : list string) : list string :=
  match added with
  | [] => admins
  | a :: added' => add_admins added' (if bool_decide (a ∈ admins) then admins else admins ++ [a])
  end.
Fixpoint remove_admins (removed admins : list string) : list string :=
  match removed with
  | [] => admins
  | a :: removed' => remove_admins removed' (filter (λ b, b ≠ a) admins)
  end.
Definition initialize (owner : string) (curse_admins : list string) (st : Rmn) : result Rmn :=
  if INITIALIZED st then Err "AlreadyInitialized"
  else
    o ← Ownable.init_owner owner (ownable st);
    Ok (mkRmn true o (Some ∅) (Some (add_admins curse_admins []))).
Definition apply_curse_admin_updates (added removed : list string) (st : Rmn) : result Rmn :=
  _ ← require_initialized st;
  _ ← Ownable.require_owner auth (ownable st);
  Ok (mkRmn (INITIALIZED st) (ownable st) (CURSED st)
        (Some (add_admins added (remove_admins removed (load_curse_admins st))))).

(** The loops: the map with the newly cursed subjects, and the map without the uncursed. *)
Fixpoint curse_loop (subjects : list bytes) (cursed : gset string) (newly : list bytes) : gset string * list bytes :=
  match subjects with
  | [] => (cursed, newly)
  | s :: subjects' =>
      if decide (subject s ∈ cursed) then curse_loop subjects' cursed newly
      else curse_loop subjects' ({[subject s]} ∪ cursed) (newly ++ [s])
  end.
Fixpoint uncurse_loop (subjects : list bytes) (cursed : gset string) : result (gset string) :=
  match subjects with
  | [] => Ok cursed
  | s :: subjects' =>
      if decide (subject s ∈ cursed) then uncurse_loop subjects' (cursed ∖ {[subject s]}) else Err "NotCursed"
  end.
Definition set_cursed (c : gset string) (st : Rmn) : Rmn := mkRmn (INITIALIZED st) (ownable st) (Some c) (CURSE_ADMINS st).
(** With the subjects of the event, when one is published. *)
Definition curse (caller : string) (subjects : list bytes) (st : Rmn) : result (Rmn * option (list bytes)) :=
  _ ← require_initialized st;
  _ ← require_can_curse st caller;
  match CURSED st with
  | None => Err "NotInitialized"
  | Some cursed =>
      match curse_loop subjects cursed [] with
      | (_, []) => Ok (st, None)
      | (cursed', newly) => Ok (set_cursed cursed' st, Some newly)
      end
  end.
Definition uncurse (subjects : list bytes) (st : Rmn) : result (Rmn * option (list bytes)) :=
  _ ← require_initialized st;
  _ ← Ownable.require_owner auth (ownable st);
  match CURSED st with
  | None => Err "NotInitialized"
  | Some cursed => cursed' ← uncurse_loop subjects cursed; Ok (set_cursed cursed' st, Some subjects)
  end.
Definition is_cursed (st : Rmn) : bool :=
  match CURSED st with None => false | Some c => bool_decide (subject GLOBAL_CURSE_SUBJECT ∈ c) end.
Definition is_cursed_by_subject (s : bytes) (st : Rmn) : bool :=
  match CURSED st with
  | None => false
  | Some c => bool_decide (subject s ∈ c) || bool_decide (subject GLOBAL_CURSE_SUBJECT ∈ c)
  end.
End contract.

(** A transaction's effect, for the two entry points that the sequences call. *)
Inductive message := Curse (caller : string) (subjects : list bytes) | Uncurse (subjects : list bytes).
Definition receive (auth : string → bool) (m : message) (st : Rmn) : result Rmn :=
  fst <$> match m with Curse c ss => curse auth c ss st | Uncurse ss => uncurse auth ss st end.
Section ledger.
Context {UT : UnicodeTables} {XS : XdrSdk}.
Definition subjects_of (v : ScVal) : option (list bytes) :=
  match v with
  | ScvVec (Some (Some l)) => mapM (λ v, match ScVal.Bytes16FromScVal v with GVal b => Some b | _ => None end) l
  | _ => None
  end.
Definition message_of (functionName : string) (args : list ScVal) : option message :=
  if decide (functionName = "curse") then
    match args with
    | [a; v] => match ScVal.AddressFromScVal a with GVal s => Curse s <$> subjects_of v | _ => None end
    | _ => None
    end
  else if decide (functionName = "uncurse") then
    match args with [v] => Uncurse <$> subjects_of v | _ => None end
  else None.
Definition invoke (auth : string → bool) (L : gmap string Rmn) (contractID functionName : string) (args : list ScVal)
  : option (gmap string Rmn) :=
  st ← L !! contractID;
  m ← message_of functionName args;
  match receive auth m st with Ok st' => Some (<[contractID := st']> L) | Err _ => None end.
End ledger.
End RmnRemote.
