(* ===== verification/RolloutProps.v ===== *)
(** Properties of the deployment of the protocol and of its operation: the order in which
    contracts are deployed, initialised and used, what the datastore and the host know at the
    end, the fees and their aggregator, and curses. *)

From Stdlib Require Import Ascii.
From Stdlib Require Import Strings.Byte.
From Stdlib Require Strings.String.
From stdpp Require Import base gmap list strings pretty sorting.
From S2P Require Import Prelude GoStrings Prog Sdk Xdr ScVal GoBytes TypeConverters InvokerAdapter Ccv.
From S2P Require Import ScValProps Demo DemoCcv TypeConvertersProps BindingsProps Codec CodecProps Client ClientProps OnRampClient ContractsProps.
From S2P Require Import Float Deployer DeployerProps Accessors ExtraArgs Operations Ownership Mcms Lanes LanesProps Rollout.
Import Xdr CcvCommon ScValProps BindingsProps CodecProps ClientProps ContractsProps ContractsProps.Contracts.
Import Operations Ownership.Ownership StellarUtil Lanes.Lanes LanesProps Mcms.McmsSequences.

Local Open Scope Z_scope.

Module RolloutProps.
Import FullDeploy.

(** ** The order of a deployment *)

(** A framework that asks the outside for each operation, and a host that asks it for the
    files, the ledger and new asset contracts. *)
Inductive rollout_ext : Type → Type :=
| Execute (id : string) (inp : list value) : rollout_ext (result (list value))
| StatFile (path : string) : rollout_ext file_info
| LatestLedger : rollout_ext (result Z)
| CreateToken (label code url : string) : rollout_ext (result string).
#[export] Instance rollout_cldf {W} : Cldf W rollout_ext := {|
  ExecuteOperation := λ op deps inp, gcall (Execute (opID op) inp);
  ExecuteSequence := λ I O s chains inp, seqHandler s chains inp;
  NewBatchOperationFromWrites := λ wos, GErr "no writes"
|}.
Abbreviation hist := (hist (E := rollout_ext)).

(** What comes after the colon in the name of an operation. *)
Fixpoint action (id : string) : string :=
  match id with
  | EmptyString => ""
  | String c id' => if Ascii.eqb c ":"%char then id' else action id'
  end.
(** The addresses in an argument. *)
Fixpoint addresses (v : value) : list string :=
  match v with
  | VString s | VOptString (Some s) => [s]
  | VSlice l | VStruct l => List.flat_map addresses l
  | VUnion vs => List.flat_map (λ o, match o with Some l => List.flat_map addresses l | None => [] end) vs
  | VPtr (Some v) => addresses v
  | _ => []
  end.

(** A list without the first occurrence of an element that it has. *)
Fixpoint take_out (x : string) (l : list string) : option (list string) :=
  match l with
  | [] => None
  | y :: l' => if decide (x = y) then Some l' else cons y <$> take_out x l'
  end.
Lemma take_out_head x l : take_out x (x :: l) = Some l.
Proof. cbn. by rewrite decide_True. Qed.

Definition named_owner (args : list value) : option string :=
  match args with VString o :: _ => Some o | _ => None end.

(** The contracts of a run: those that await their initialisation, those that are ready, and
    every deployment with its id, in order. *)
Record net := mkNet { pending : list string; ready : list string; made : list (string * string) }.
Definition no_contracts : net := mkNet [] [] [].

Section protocol.
(** The deployer, and the addresses that are known from the start. *)
Context (owner : string) (known : list string).

(** What an operation that succeeded makes of them; [None] when it is out of order. A
    deployment returns one id. Any other operation names only known addresses and contracts
    that are ready, and the contract it is sent to is ready; but an initialisation is sent to
    a contract that awaits it, and gives it to the deployer. *)
Definition op_step (n : net) (id : string) (inp out : list value) : option net :=
  if decide (action id = "deploy") then
    match out with
    | [VString cid] => Some (mkNet (cid :: pending n) (ready n) (made n ++ [(id, cid)]))
    | _ => None
    end
  else
    match inp with
    | VString cid :: args =>
        if decide (Forall (λ s, s ∈ known ++ ready n) (List.flat_map addresses args)) then
          if decide (action id = "initialize") then
            if decide (named_owner args = Some owner) then
              p ← take_out cid (pending n); Some (mkNet p (cid :: ready n) (made n))
            else None
          else if decide (cid ∈ ready n) then Some n else None
        else None
    | _ => None
    end.
(** What failed changes nothing; a new asset contract is ready. *)
Definition event_step (n : net) (ev : event (E := rollout_ext)) : option net :=
  (match fst (projT2 ev) in rollout_ext X return X → option net with
   | Execute id inp => λ r, match r with Ok out => op_step n id inp out | Err _ => Some n end
   | CreateToken _ _ _ => λ r, match r with Ok t => Some (mkNet (pending n) (t :: ready n) (made n)) | Err _ => Some n end
   | _ => λ _, Some n
   end) (snd (projT2 ev)).
Definition check (h : hist) : option net := foldl (λ on ev, n ← on; event_step n ev) (Some no_contracts) h.

Lemma check_snoc h ev n : check h = Some n → check (h ++ [ev]) = event_step n ev.
Proof. intros H. unfold check in *. by rewrite foldl_app, H. Qed.

(** A result, with the run in order also when it is an error; a panic is excluded. *)
Definition good {W A} (P : A → W → hist → Prop) (r : gres A) (w : W) (h : hist) : Prop :=
  match r with GVal a => P a w h | GErr _ => is_Some (check h) | GPanic _ => False end.
(** The state of the world, and the contracts so far. *)
Definition holds {W} (w : W) (n : net) (w' : W) (h : hist) : Prop := w' = w ∧ check h = Some n.

(** The id of a contract is the strkey of 32 bytes. *)
Definition contract_id `{XdrSdk} (s : string) : Prop := ∃ b, length b = 32%nat ∧ Encode VersionByteContract b = Ok s.
Definition answers `{XdrSdk} (X : Type) (e : rollout_ext X) : X → Prop :=
  match e in rollout_ext X return X → Prop with
  | Execute id _ => λ r, action id = "deploy" → ∀ out, r = Ok out → ∃ cid, out = [VString cid] ∧ contract_id cid
  | _ => λ _, True
  end.

Section rules.
Context {XS : XdrSdk} {W : Type}.
Implicit Types (w : W) (h : hist) (n : net).
Abbreviation ends p w h P := (total answers p w h (good P)).

Lemma ends_then {A B} (p : prog W rollout_ext (gres A)) (f : A → prog W rollout_ext (gres B)) w h P Q :
  ends p w h P → (∀ a w' h', P a w' h' → ends (f a) w' h' Q) → ends (gthen p f) w h Q.
Proof. intros Hp Hf. eapply total_gthen; [exact Hp|]. intros [a|e|m] w' h' H; [by apply Hf|exact H|exact H]. Qed.
Lemma ends_ctx {A} ctx (p : prog W rollout_ext (gres A)) w h P : ends p w h P → ends (gctx ctx p) w h P.
Proof. intros Hp. apply total_gctx. eapply total_mono; [|exact Hp]. by intros [a|e|m] w' h' H. Qed.
Lemma ends_mono {A} (p : prog W rollout_ext (gres A)) w h (P Q : A → W → hist → Prop) :
  ends p w h P → (∀ a w' h', P a w' h' → Q a w' h') → ends p w h Q.
Proof. intros Hp H. eapply total_mono; [|exact Hp]. intros [a|e|m] w' h' Ha; [by apply H|exact Ha|exact Ha]. Qed.
(** A result that is at hand. *)
Lemma ends_result {A B} (r : result A) (f : A → prog W rollout_ext (gres B)) w h n Q :
  check h = Some n → (∀ a, r = Ok a → ends (f a) w h Q) → ends (gthen (Ret (of_result r)) f) w h Q.
Proof. intros Hh Hf. destruct r as [a|e]; [by apply Hf|]. by exists n. Qed.

(** *** Operations *)

Lemma ends_execute (op : Operation W rollout_ext) deps inp w h n (P : list value → W → hist → Prop) :
  check h = Some n → (action (opID op) = "deploy" → ∀ cid, contract_id cid → ∀ h', check h' =
     Some (mkNet (cid :: pending n) (ready n) (made n ++ [(opID op, cid)])) → P [VString cid] w h') →
  (action (opID op) ≠ "deploy" → ∀ out h', check h' = op_step n (opID op) inp out → P out w h') →
  ends (ExecuteOperation op deps inp) w h P.
Proof.
  intros Hh Hd Hu r Hr. destruct r as [out|e].
  - cbn. destruct (decide (action (opID op) = "deploy")) as [Ha|Ha].
    + destruct (Hr Ha out eq_refl) as (cid & -> & Hc). apply Hd; [done..|].
      rewrite (check_snoc _ _ _ Hh). cbn. unfold op_step. by rewrite decide_True.
    + apply Hu; [done|]. by rewrite (check_snoc _ _ _ Hh).
  - exists n. by rewrite (check_snoc _ _ _ Hh).
Qed.

Lemma ends_exec deps what op inp w h n n' :
  check h = Some n → action (opID op) ≠ "deploy" → (∀ out, op_step n (opID op) inp out = Some n') →
  ends (exec (W := W) deps what op inp) w h (λ _, holds w n').
Proof.
  intros Hh Ha Hs. unfold exec. eapply (ends_then _ _ _ _ (λ _, holds w n')).
  - apply ends_ctx. unfold execStellarCCIPOp. apply (ends_execute _ _ _ _ _ n); [done|by intros|]. intros _ out h' H'. split; [done|].
    by rewrite H', Hs.
  - by intros _ w' h' H.
Qed.
(** An operation on a contract that is ready, and an initialisation. *)
Lemma ends_use deps what op cid args w h n :
  check h = Some n → action (opID op) ≠ "deploy" → action (opID op) ≠ "initialize" → cid ∈ ready n →
  Forall (λ s, s ∈ known ++ ready n) (List.flat_map addresses args) →
  ends (exec (W := W) deps what op (VString cid :: args)) w h (λ _, holds w n).
Proof.
  intros Hh Ha Hi Hc Hk. apply (ends_exec _ _ _ _ _ _ n n); [done..|]. intros out. unfold op_step.
  by rewrite decide_False, decide_True, decide_False, decide_True by done.
Qed.
Lemma ends_init deps what op cid args w h p r m :
  check h = Some (mkNet (cid :: p) r m) → action (opID op) = "initialize" →
  Forall (λ s, s ∈ known ++ r) (owner :: List.flat_map addresses args) →
  ends (exec (W := W) deps what op (VString cid :: VString owner :: args)) w h (λ _, holds w (mkNet p (cid :: r) m)).
Proof.
  intros Hh Ha Hk. eapply ends_exec; [done|by rewrite Ha|]. intros out. unfold op_step. cbn [List.flat_map addresses app].
  rewrite Ha. rewrite decide_False, decide_True by done. cbn [pending named_owner].
  by rewrite decide_True, decide_True, take_out_head by done.
Qed.
End rules.
End protocol.

(** ** What the datastore finds *)

Inductive kind :=
| KOnRamp | KRMNRemote | KRMNProxy | KFeeQuoter | KTokenAdminRegistry | KVVR | KCommitteeVerifier | KOffRamp
| KRouter | KRampRegistry | KReceiver.
#[export] Instance kind_eq_dec : EqDecision kind.
Proof. solve_decision. Defined.
Definition ref_of `{ContractKinds} (k : kind) : DatastoreSorobanContractRef :=
  match k with
  | KOnRamp => OnRampDatastoreRef | KRMNRemote => RMNRemoteDatastoreRef | KRMNProxy => RMNProxyDatastoreRef
  | KFeeQuoter => FeeQuoterDatastoreRef | KTokenAdminRegistry => TokenAdminRegistryDatastoreRef
  | KVVR => VVRDatastoreRef | KCommitteeVerifier => CommitteeVerifierDatastoreRef | KOffRamp => OffRampDatastoreRef
  | KRouter => RouterDatastoreRef | KRampRegistry => RampRegistryDatastoreRef | KReceiver => CCIPReceiverDatastoreRef
  end.
(** The names of the shared tooling are distinct. *)
Definition kind_key `{ContractKinds} (r : DatastoreSorobanContractRef) : string * option string * string :=
  (dcType r, dcVersion r, dcQualifier r).
Class KindLaws `{ContractKinds} : Prop := {
  ref_of_key k k' : kind_key (ref_of k) = kind_key (ref_of k') → k = k';
  executor_other k : kind_key (ref_of k) ≠ kind_key DefaultExecutorDatastoreRef ∧
                     kind_key (ref_of k) ≠ kind_key (ExecutorProxyDatastoreRef DefaultExecutorQualifier)
}.

Section finds.
Context {ST : SdkTypes} {UT : UnicodeTables} {XS : XdrSdk} {XL : XdrLaws} {LS : LaneSdk} {LL : LaneLaws}
  {DT : Datastore} {DL : DatastoreLaws} {CK : ContractKinds} {KL : KindLaws}.
Context (selector : Z) (ds0 : MemoryDataStore).
Definition put (k : kind) (id : string) (ids : kind → option string) : kind → option string :=
  λ k', if decide (k' = k) then Some id else ids k'.
(** The ids recorded since [ds0]; the others are found as there. *)
Definition finds (ds : MemoryDataStore) (ids : kind → option string) : Prop :=
  ∀ k, LookupStrkey (ref_of k) ds selector =
       match ids k with Some id => Ok id | None => LookupStrkey (ref_of k) ds0 selector end.

Lemma finds_ext ds ids ids' : (∀ k, ids k = ids' k) → finds ds ids → finds ds ids'.
Proof. intros He Hf k. by rewrite <- He, Hf. Qed.
Lemma finds_key ds ds' ids k id hex : contract_id id → StrkeyToHex id = Ok hex →
  Upsert (mkAddressRef selector (dcType (ref_of k)) (dcVersion (ref_of k)) (dcQualifier (ref_of k)) hex) ds = Ok ds' →
  finds ds ids → finds ds' (put k id ids).
Proof.
  intros (b & _ & Hb) Hx Hu Hf k'. rewrite (strkey_to_hex b id Hb) in Hx. injection Hx as <-.
  unfold put. destruct (decide (k' = k)) as [->|Hne].
  - unfold LookupStrkey, LookupStellarContractStrkey, LookupAddressRef.
    pose proof (Get_Upsert _ _ _ Hu) as Hg. cbn in Hg. rewrite Hg. cbn [refAddress]. by rewrite (hex_to_strkey b id Hb).
  - rewrite <- (Hf k'). unfold LookupStrkey, LookupStellarContractStrkey, LookupAddressRef.
    rewrite (Get_Upsert_other _ _ _ selector (dcType (ref_of k')) (dcVersion (ref_of k')) (dcQualifier (ref_of k')) Hu); [done|].
    unfold same_key. cbn. intros (_ & E1 & E2 & E3). apply Hne, ref_of_key. unfold kind_key. congruence.
Qed.
Lemma finds_recorded ds ds' ids k id : contract_id id →
  ref_UpsertDeployedStrKey (ref_of k) ds selector id = Ok ds' → finds ds ids → finds ds' (put k id ids).
Proof.
  intros Hc. unfold ref_UpsertDeployedStrKey, UpsertDeployedStrKey.
  destruct (StrkeyToHex id) as [hex|e] eqn:Hx; [|done]. destruct (Upsert _ ds) as [ds''|e] eqn:Hu; [|done].
  intros [= ->]. by apply (finds_key ds ds' ids k id hex).
Qed.
Lemma finds_upserted what ds ds' ids k id : contract_id id →
  upsert_contract selector what (dcType (ref_of k), dcVersion (ref_of k)) (dcQualifier (ref_of k)) id ds = Ok ds' →
  finds ds ids → finds ds' (put k id ids).
Proof.
  intros Hc. unfold upsert_contract. destruct (StrkeyToHex id) as [hex|e] eqn:Hx; [|done]. cbn. intros Hu.
  by apply (finds_key ds ds' ids k id hex).
Qed.
Lemma finds_other ds ds' ids ty ver q hex : (∀ k, kind_key (ref_of k) ≠ (ty, ver, q)) →
  Upsert (mkAddressRef selector ty ver q hex) ds = Ok ds' → finds ds ids → finds ds' ids.
Proof.
  intros Hk Hu Hf k. rewrite <- (Hf k). unfold LookupStrkey, LookupStellarContractStrkey, LookupAddressRef.
  rewrite (Get_Upsert_other _ _ _ selector (dcType (ref_of k)) (dcVersion (ref_of k)) (dcQualifier (ref_of k)) Hu); [done|].
  unfold same_key. cbn. intros (_ & E1 & E2 & E3). apply (Hk k). unfold kind_key. congruence.
Qed.
End finds.

(** ** The phases *)

(** What the setters of the host do to its fields. *)
Definition set_pair (i : id_field) (c : client_field) (id : string) (w : HostFields) : HostFields :=
  set_client c id (set_id i id w).
Definition host_of {E} (deps : StellarDeps HostFields E) (ledger : prog HostFields E (gres Z))
    (create : string → string → string → prog HostFields E (gres string)) (ch : StellarChain) (url : string) :=
  NewCLDFStellarCCIPDevenvHost (λ w, w) (λ s _, s) deps (Some ledger) create ch url.

Section phases.
Context {ST : SdkTypes} {SD : Sdk} {UT : UnicodeTables} {XS : XdrSdk} {XL : XdrLaws} {HF : HostFunctions}
  {MS : MetaSdk} {RS : RpcSdk} {FC : FloatConv} {DS : DeployerSdk} {LS : LaneSdk} {LL : LaneLaws} {AS : AccessorSdk}
  {DT : Datastore} {DL : DatastoreLaws} {CK : ContractKinds} {KL : KindLaws}.
Context (enumerate : list string → list string) (root : string) (selector : Z) (allSelectors remoteSelectors : list Z).
(** The framework's dependencies, the chain with its signer, its friendbot, and the host. *)
Context (deps : StellarDeps HostFields rollout_ext) (ch : StellarChain) (url : string) (h : CCIPDevenvHost HostFields rollout_ext).
Context (Hh : host_of deps (gcall LatestLedger) (λ l c u, gcall (CreateToken l c u)) ch url = Ok h).
(** The made-up ids, and the test token that the host may have. *)
Context (mock executor testToken : string).
Context (Hmock : MustGenerateMockContractID (DeployerKeypair h) "fee-token" = GVal mock)
  (Hexecutor : ScVal.HexToContractStrkey (contractHexAddr h "stellar-executor-proxy") = Ok executor).
Abbreviation owner := (DeployerKeypair h).
Abbreviation known := [owner; mock; executor; testToken].
Abbreviation check := (check owner known).
Abbreviation ends p w hh P := (total answers p w hh (good owner known P)).
Abbreviation stat := (λ path, call (StatFile path)).
Implicit Types (w : HostFields) (hh : hist) (r : list string) (m : list (string * string)).

(** The run is in order, nothing is pending, and these contracts are ready. *)
Definition settled (r : list string) (m : list (string * string)) (hh : hist) : Prop :=
  ∃ r', check hh = Some (mkNet [] r' m) ∧ r ⊆ r'.

Lemma ends_deploy file name salt op w hh p r m : action (opID op) = "deploy" →
  check hh = Some (mkNet p r m) →
  ends (deploy_contract stat deps h root file name salt op) w hh (λ cid w' hh', w' = w ∧ contract_id cid ∧
    check hh' = Some (mkNet (cid :: p) r (m ++ [(opID op, cid)]))).
Proof.
  intros Ha Hc. unfold deploy_contract.
  apply (ends_then _ _ _ _ _ _ (λ _ w' hh', w' = w ∧ check hh' = Some (mkNet p r m))).
  { intros info _. pose proof (check_snoc owner known hh (answered (StatFile (release_wasm root file)) info) _ Hc) as Hs.
    destruct info; first [exact (conj eq_refl Hs)|exact (ex_intro _ _ Hs)]. }
  intros _ w' hh' [-> Hc']. apply (ends_then _ _ _ _ _ _ (λ out w' hh', ∃ cid, out = [VString cid] ∧ w' = w ∧ contract_id cid ∧
    check hh' = Some (mkNet (cid :: p) r (m ++ [(opID op, cid)])))).
  - apply ends_ctx. unfold execStellarCCIPOp. apply (ends_execute _ _ _ _ _ _ _ (mkNet p r m)); [done| |by intros].
    intros _ cid Hcid hh'' Hh''. by exists cid.
  - intros out w' hh'' (cid & -> & -> & Hcid & Hc''). cbn. by split_and!.
Qed.

(** *** The host *)

Ltac host_is := unfold host_of, NewCLDFStellarCCIPDevenvHost in Hh;
  destruct (ChainSigner ch) as [[? []]|]; [by injection Hh as <-|done|done].
Lemma FriendbotURL_is : FriendbotURL h = url. Proof. host_is. Qed.
Lemma CreateFeeToken_is u : ∃ label, CreateFeeToken h u = gcall (CreateToken label "FEE" u).
Proof. exists ("fee-token-issuer-" +:+ NetworkPassphrase ch). host_is. Qed.
Lemma SetOnRamp_is id : SetOnRamp h id = modify (set_pair onRampContractID onRampClient id). Proof. host_is. Qed.
Lemma SetFeeQuoter_is id : SetFeeQuoter h id = modify (set_client feeQuoterClient id). Proof. host_is. Qed.
Lemma SetFeeToken_is id : SetFeeToken h id = modify (set_id feeTokenContractID id). Proof. host_is. Qed.
Lemma SetTokenAdminRegistry_is id : SetTokenAdminRegistry h id = modify (set_pair tarContractID tarClient id).
Proof. host_is. Qed.
Lemma SetVVR_is id : SetVVR h id = modify (set_id vvrContractID id). Proof. host_is. Qed.
Lemma SetCV_is id : SetCV h id = modify (set_id cvContractID id). Proof. host_is. Qed.
Lemma SetOffRamp_is id : SetOffRamp h id = modify (set_pair offRampContractID offRampClient id). Proof. host_is. Qed.
Lemma SetRouter_is id : SetRouter h id = modify (set_pair routerContractID routerClient id). Proof. host_is. Qed.
Lemma SetRampRegistry_is id : SetRampRegistry h id = modify (set_id rampRegistryContractID id). Proof. host_is. Qed.
Lemma SetReceiver_is id : SetReceiver h id = modify (set_id receiverContractID id). Proof. host_is. Qed.
Lemma TestTokenContractID_is : TestTokenContractID h = gets (λ w, id_of w testTokenContractID). Proof. host_is. Qed.

(** A phase goes on: after a deployment, a recording, a setter, an initialisation, a use. *)
Ltac names := cbn [List.flat_map addresses app]; repeat (apply Forall_cons; split); try apply Forall_nil; try exact I; set_solver.
Ltac deploys H id Hid := eapply ends_then; [eapply ends_deploy; [reflexivity|exact H]|];
  clear H; intros id ? ? (-> & Hid & H).
Ltac records H k Hid Hf := eapply ends_result; [exact H|];
  let Hr := fresh in intros ? Hr; apply (λ Hf', finds_recorded _ _ _ _ _ k _ Hid Hr Hf') in Hf; clear Hr.
Ltac sets lem := rewrite lem; apply total_modify.
Ltac initialises H := eapply ends_then; [eapply ends_init; [exact H|reflexivity|names]|];
  clear H; intros _ ? ? [-> H].

(** *** Foundation *)

Definition fee_fields (tok : string) (w : HostFields) : HostFields :=
  if decide (url = "") then w else set_id feeTokenContractID tok w.
Lemma ends_fee_token w hh p r m : check hh = Some (mkNet p r m) →
  ends (fee_token h) w hh (λ tok w' hh', w' = fee_fields tok w ∧
    ∃ r', check hh' = Some (mkNet p r' m) ∧ r ⊆ r' ∧ tok ∈ known ++ r').
Proof.
  intros Hc. unfold fee_token, fee_fields. rewrite FriendbotURL_is. destruct (decide (url = "")) as [Hu|Hu].
  - rewrite Hmock. split; [done|]. exists r. split_and!; [done..|set_solver].
  - destruct (CreateFeeToken_is url) as [label ->].
    eapply (ends_then _ _ _ _ _ _ (λ tok w' hh', w' = w ∧ check hh' = Some (mkNet p (tok :: r) m))).
    + apply ends_ctx. intros [tok|e] _; [|eexists; by rewrite (check_snoc _ _ _ _ _ Hc)].
      cbn. split; [done|]. by rewrite (check_snoc _ _ _ _ _ Hc).
    + intros tok w' hh' [-> Hc']. rewrite SetFeeToken_is. apply total_modify. split; [done|].
      exists (tok :: r). split_and!; [done|set_solver|set_solver].
Qed.

Definition foundation_fields (f : Foundation) (w : HostFields) : HostFields :=
  set_pair tarContractID tarClient (tar f) (set_client feeQuoterClient (feeQuoter f)
    (fee_fields (feeToken f) (set_pair onRampContractID onRampClient (onramp f) w))).
Definition foundation_ids (f : Foundation) (ids : kind → option string) : kind → option string :=
  put KTokenAdminRegistry (tar f) (put KFeeQuoter (feeQuoter f) (put KRMNRemote (rmnRemote f) (put KOnRamp (onramp f) ids))).
Definition foundation_made (f : Foundation) : list (string * string) :=
  [("onramp:deploy", onramp f); ("rmn-remote:deploy", rmnRemote f); ("rmn-proxy:deploy", rmnProxy f);
   ("fee-quoter:deploy", feeQuoter f); ("token-admin-registry:deploy", tar f)].
Definition foundation_contracts (f : Foundation) : list string := [onramp f; rmnRemote f; rmnProxy f; feeQuoter f; tar f].
Lemma ends_foundation ds0 ds ids w hh r m : check hh = Some (mkNet [] r m) → finds selector ds0 ds ids →
  ends (deploy_foundation enumerate stat deps h root selector ds) w hh (λ fd w' hh',
    let f := fst fd in
    Forall contract_id (foundation_contracts f) ∧ finds selector ds0 (snd fd) (foundation_ids f ids) ∧
    w' = foundation_fields f w ∧
    ∃ r', check hh' = Some (mkNet [] r' (m ++ foundation_made f)) ∧ r ⊆ r' ∧ foundation_contracts f ⊆ r' ∧
          feeToken f ∈ known ++ r').
Proof.
  intros Hc Hf. unfold deploy_foundation.
  deploys Hc on Hon. records Hc KOnRamp Hon Hf. sets SetOnRamp_is.
  deploys Hc rmn Hrmn. records Hc KRMNRemote Hrmn Hf. initialises Hc.
  deploys Hc proxy Hproxy. initialises Hc.
  deploys Hc fq Hfq. records Hc KFeeQuoter Hfq Hf.
  eapply ends_then; [apply ends_fee_token; exact Hc|]. clear Hc. intros tok ? ? (-> & r' & Hc & Hsub & Htok).
  sets SetFeeQuoter_is. initialises Hc.
  deploys Hc reg Hreg. records Hc KTokenAdminRegistry Hreg Hf. sets SetTokenAdminRegistry_is. initialises Hc.
  eapply ends_then; [eapply ends_init; [exact Hc|reflexivity|names]|]. clear Hc. intros _ ? ? [-> Hc].
  cbn. split_and!; [by repeat constructor|exact Hf|done|]. rewrite <- !app_assoc in Hc. eexists. split; [exact Hc|].
  set_solver.
Qed.

(** *** Verification, and the configuration of the fees *)

Lemma names_map {X} (K : string → Prop) (f : X → value) (l : list X) :
  (∀ x, Forall K (addresses (f x))) → Forall K (List.flat_map addresses (f <$> l)).
Proof. intros Hf. induction l as [|x l IH]; [constructor|]. cbn. by apply Forall_app. Qed.
Lemma names_imapM {X} (K : string → Prop) (f : nat → X → result value) (l : list X) vs :
  (∀ i x v, f i x = Ok v → Forall K (addresses v)) → imapM f l = Ok vs → Forall K (List.flat_map addresses vs).
Proof.
  intros Hf Hvs. apply (imapM_Forall2 _ (λ _ v, Forall K (addresses v))) in Hvs; [|by intros i x v _; apply Hf].
  induction Hvs as [|x v l' vs Hv _ IH]; [constructor|]. cbn. by apply Forall_app.
Qed.
(** The arguments of a use, an address or a list at a time. *)
Ltac names_in := cbn [List.flat_map addresses app]; repeat lazymatch goal with
  | |- Forall _ [] => apply Forall_nil; exact I
  | |- Forall _ (_ :: _) => apply Forall_cons; split; [set_solver|]
  | |- Forall _ (_ ++ _) => apply Forall_app; split
  | |- Forall _ (List.flat_map addresses (_ <$> _)) => apply names_map; intros ?
  | |- Forall _ (addresses ?v) => let v' := eval hnf in v in change v with v'; cbn [List.flat_map addresses app]
  end.
Ltac uses H := eapply ends_then; [eapply ends_use; [exact H|by vm_compute|by vm_compute|set_solver|names_in]|];
  clear H; intros _ ? ? [-> H].

Ltac last_use H := eapply ends_use; [exact H|by vm_compute|by vm_compute|set_solver|names_in].

Definition verification_fields (vvr cv : string) (w : HostFields) : HostFields :=
  set_id cvContractID cv (set_id vvrContractID vvr w).
Definition verification_made (vvr cv : string) : list (string * string) :=
  [("versioned-verifier-resolver:deploy", vvr); ("committee-verifier:deploy", cv)].
Lemma ends_verification rmnProxy ds0 ds ids w hh r m : check hh = Some (mkNet [] r m) → rmnProxy ∈ r →
  finds selector ds0 ds ids →
  ends (deploy_verification enumerate stat deps h root selector rmnProxy ds) w hh (λ vd w' hh',
    let '(vvr, cv, ds') := vd in
    contract_id vvr ∧ contract_id cv ∧ finds selector ds0 ds' (put KCommitteeVerifier cv (put KVVR vvr ids)) ∧
    w' = verification_fields vvr cv w ∧
    ∃ r', check hh' = Some (mkNet [] r' (m ++ verification_made vvr cv)) ∧ r ⊆ r' ∧ [vvr; cv] ⊆ r').
Proof.
  intros Hc Hp Hf. unfold deploy_verification.
  deploys Hc v Hv. records Hc KVVR Hv Hf. sets SetVVR_is. initialises Hc.
  deploys Hc c Hcv. records Hc KCommitteeVerifier Hcv Hf. initialises Hc. sets SetCV_is.
  split_and!; [done..|]. rewrite <- !app_assoc in Hc. eexists. split; [exact Hc|]. set_solver.
Qed.

Lemma quorum_config_names K orders topology i rs v : quorum_config orders topology i rs = Ok v → Forall K (addresses v).
Proof.
  unfold quorum_config. destruct (ResolveSignersFromOffchainTopology _ _ _ _) as [[|s signers] threshold]; [done|].
  intros [= <-]. cbn. rewrite app_nil_r. refine (names_map K VBytes signers _). intros ?. constructor.
Qed.
Lemma ends_configure_verification orders topology vvr cv w hh r m : check hh = Some (mkNet [] r m) →
  vvr ∈ r → cv ∈ r →
  ends (configure_verification enumerate deps allSelectors orders topology vvr cv) w hh
    (λ _, holds owner known w (mkNet [] r m)).
Proof.
  intros Hc Hv Hcv. unfold configure_verification. uses Hc. uses Hc.
  eapply ends_result; [exact Hc|]. intros cfgs Hcfgs. last_use Hc.
  eapply names_imapM; [|exact Hcfgs]. intros i rs v. apply quorum_config_names.
Qed.

Lemma ends_configure_fees feeQuoter feeToken w hh r m : check hh = Some (mkNet [] r m) →
  feeQuoter ∈ r → feeToken ∈ known ++ r → id_of w testTokenContractID = testToken →
  ends (configure_fees enumerate deps h allSelectors feeQuoter feeToken) w hh (λ _, holds owner known w (mkNet [] r m)).
Proof.
  intros Hc Hq Ht Hw. unfold configure_fees. uses Hc. uses Hc.
  rewrite TestTokenContractID_is. apply total_gets. rewrite Hw. destruct (decide (testToken = "")); [done|].
  uses Hc. last_use Hc.
Qed.

(** *** Ramps, router and registry *)

Definition ramps_fields (r : Ramps) (w : HostFields) : HostFields :=
  set_pair routerContractID routerClient (router r) (set_pair offRampContractID offRampClient (offramp r) w).
Definition ramps_made (r : Ramps) : list (string * string) :=
  [("offramp:deploy", offramp r); ("router:deploy", router r)].
Lemma ends_ramps f cv ds0 ds ids w hh r m : check hh = Some (mkNet [] r m) → foundation_contracts f ⊆ r → cv ∈ r →
  finds selector ds0 ds ids →
  ends (deploy_ramps enumerate stat deps h root selector allSelectors f cv ds) w hh (λ rd w' hh',
    let rs := fst rd in
    contract_id (offramp rs) ∧ contract_id (router rs) ∧
    finds selector ds0 (snd rd) (put KRouter (router rs) (put KOffRamp (offramp rs) ids)) ∧
    w' = ramps_fields rs w ∧
    ∃ r', check hh' = Some (mkNet [] r' (m ++ ramps_made rs)) ∧ r ⊆ r' ∧ [offramp rs; router rs] ⊆ r').
Proof.
  intros Hc Hfd Hcv Hf. unfold deploy_ramps. unfold foundation_contracts in Hfd.
  deploys Hc off Hoff. records Hc KOffRamp Hoff Hf. sets SetOffRamp_is. initialises Hc.
  deploys Hc rt Hrt. records Hc KRouter Hrt Hf. initialises Hc. sets SetRouter_is. uses Hc.
  cbn. split_and!; [done..|]. rewrite <- !app_assoc in Hc. eexists. split; [exact Hc|]. set_solver.
Qed.

Lemma dest_names K sels vvr rt v : K vvr → K rt → K executor → ∀ ds rs,
  dest_config ds executor sels vvr rt rs = Ok v → Forall K (addresses v).
Proof. intros H1 H2 H3 ds rs (b & -> & _)%dest_config_Ok. cbn. by repeat constructor. Qed.
Lemma source_names K sels vvr rt v : K vvr → K rt → ∀ ds rs,
  source_config ds sels vvr rt rs = Ok v → Forall K (addresses v).
Proof. intros H1 H2 ds rs (b & -> & _)%source_config_Ok. cbn. by repeat constructor. Qed.
Lemma ends_lanes f vvr rs ds w hh r m : check hh = Some (mkNet [] r m) → foundation_contracts f ⊆ r → vvr ∈ r →
  [offramp rs; router rs] ⊆ r →
  ends (provisional_lanes enumerate deps h remoteSelectors f vvr rs ds) w hh (λ _, holds owner known w (mkNet [] r m)).
Proof.
  intros Hc Hfd Hv Hr. unfold provisional_lanes, foundation_contracts in *. rewrite Hexecutor.
  eapply ends_result; [exact Hc|]. intros ex Hex. cbn in Hex. injection Hex as <-.
  eapply ends_result; [exact Hc|]. intros dests Hd.
  destruct (BuildOnRampDestConfigs _ _ _ _ _ _) as [dests'|e] eqn:Hb; [|done]. injection Hd as ->.
  eapply ends_then; [eapply ends_use; [exact Hc|by vm_compute|by vm_compute|set_solver|]|].
  { names_in. eapply names_imapM; [|exact Hb]. intros ? rs' v. apply dest_names; set_solver. }
  clear Hc. intros _ ? ? [-> Hc]. eapply ends_result; [exact Hc|]. intros sources Hs.
  destruct (BuildOffRampSourceConfigs _ _ _ _ _) as [sources'|e] eqn:Hb'; [|done]. injection Hs as ->.
  eapply ends_then; [eapply ends_use; [exact Hc|by vm_compute|by vm_compute|set_solver|]|].
  { names_in. eapply names_imapM; [|exact Hb']. intros ? rs' v. apply source_names; set_solver. }
  clear Hc. intros _ ? ? [-> Hc]. last_use Hc.
Qed.

Definition registry_fields (rr : string) (w : HostFields) : HostFields := set_id rampRegistryContractID rr w.
Lemma ends_registry f rs ds0 ds ids w hh r m : check hh = Some (mkNet [] r m) → foundation_contracts f ⊆ r →
  [offramp rs; router rs] ⊆ r → finds selector ds0 ds ids →
  ends (deploy_registry enumerate stat deps h root selector remoteSelectors f rs ds) w hh (λ ds' w' hh',
    ∃ rr, contract_id rr ∧ finds selector ds0 ds' (put KRampRegistry rr ids) ∧ w' = registry_fields rr w ∧
    check hh' = Some (mkNet [] (rr :: r) (m ++ [("ramp-registry:deploy", rr)]))).
Proof.
  intros Hc Hfd Hr Hf. unfold deploy_registry, foundation_contracts in *.
  deploys Hc rr Hrr. records Hc KRampRegistry Hrr Hf. initialises Hc. uses Hc. uses Hc.
  sets SetRampRegistry_is. exists rr. by split_and!.
Qed.

(** *** Receiver and final references *)

Lemma ends_enable receiver remotes w hh n : check hh = Some n → receiver ∈ ready n →
  ends (enable_remote_chains enumerate deps h receiver remotes) w hh (λ _, holds owner known w n).
Proof.
  revert hh. induction remotes as [|rs remotes IH]; intros hh Hc Hr; cbn [enable_remote_chains]; [by split|].
  uses Hc. by apply IH.
Qed.
Definition receiver_fields (rc : string) (w : HostFields) : HostFields := set_id receiverContractID rc w.
Lemma ends_receiver rt ds0 ds ids w hh r m : check hh = Some (mkNet [] r m) → rt ∈ r → finds selector ds0 ds ids →
  ends (deploy_receiver enumerate stat deps h root selector remoteSelectors rt ds) w hh (λ cd w' hh',
    contract_id (fst cd) ∧ finds selector ds0 (snd cd) (put KReceiver (fst cd) ids) ∧ w' = receiver_fields (fst cd) w ∧
    check hh' = Some (mkNet [] (fst cd :: r) (m ++ [("ccip-receiver:deploy", fst cd)]))).
Proof.
  intros Hc Hr Hf. unfold deploy_receiver.
  deploys Hc rc Hrc. records Hc KReceiver Hrc Hf. initialises Hc.
  eapply ends_then; [apply (ends_enable _ _ _ _ _ Hc); set_solver|]. clear Hc. intros _ ? ? [-> Hc].
  sets SetReceiver_is. by split_and!.
Qed.

Lemma finds_again ds0 ds ds' ids what kd q k id : finds selector ds0 ds ids → ids k = Some id → contract_id id →
  fst kd = dcType (ref_of k) → snd kd = dcVersion (ref_of k) → q = dcQualifier (ref_of k) →
  upsert_contract selector what kd q id ds = Ok ds' → finds selector ds0 ds' ids.
Proof.
  intros Hf Hk Hid E1 E2 -> Hu. apply (finds_ext _ _ _ (put k id ids)).
  - intros k'. unfold put. by destruct (decide (k' = k)) as [->|].
  - destruct kd as [ty ver]. cbn in E1, E2. subst ty ver. by apply (finds_upserted _ _ what ds).
Qed.
Ltac again k Hf Hx := let d := fresh "d" in let E := fresh in apply bind_Ok in Hx as (d & E & Hx);
  apply (finds_again _ _ _ _ _ _ _ k _ Hf) in E; [|done..]; clear Hf; rename E into Hf.
(** The ids of a deployment. *)
Definition all_ids (f : Foundation) (vvr cv : string) (r : Ramps) (rr receiver : string) (k : kind) : option string :=
  match k with
  | KOnRamp => Some (onramp f) | KRMNRemote => Some (rmnRemote f) | KRMNProxy => None | KFeeQuoter => Some (feeQuoter f)
  | KTokenAdminRegistry => Some (tar f) | KVVR => Some vvr | KCommitteeVerifier => Some cv | KOffRamp => Some (offramp r)
  | KRouter => Some (router r) | KRampRegistry => Some rr | KReceiver => Some receiver
  end.
Lemma finds_final f vvr cv rs rr rc ds0 ds ds' : Forall contract_id (foundation_contracts f ++ [vvr; cv; offramp rs; router rs; rc]) →
  finds selector ds0 ds (all_ids f vvr cv rs rr rc) → final_refs h selector f vvr cv rs rc ds = Ok ds' →
  finds selector ds0 ds' (all_ids f vvr cv rs rr rc).
Proof.
  intros Hids Hf. unfold foundation_contracts in Hids. cbn [app] in Hids. rewrite !Forall_cons in Hids.
  destruct Hids as (Hon & Hrm & _ & Hfq & Htar & Hvvr & Hcv & Hoff & Hrt & Hrc & _). unfold final_refs.
  intros Hx. again KReceiver Hf Hx. again KOnRamp Hf Hx. again KOffRamp Hf Hx. again KRouter Hf Hx.
  again KTokenAdminRegistry Hf Hx. again KVVR Hf Hx. again KCommitteeVerifier Hf Hx.
  apply bind_Ok in Hx as (x1 & E1 & Hx). apply bind_Ok in Hx as (x2 & E2 & Hx).
  apply (finds_other _ _ _ _ _ _ _ _ _ (λ k, proj1 (executor_other k)) E1) in Hf. clear E1.
  apply (finds_other _ _ _ _ _ _ _ _ _ (λ k, proj2 (executor_other k)) E2) in Hf. clear E2.
  again KRMNRemote Hf Hx. by apply (finds_again _ _ _ _ _ _ _ KFeeQuoter _ Hf) in Hx.
Qed.

(** *** The whole deployment *)

Definition deployment_made (f : Foundation) (vvr cv : string) (rs : Ramps) (rr rc : string) : list (string * string) :=
  foundation_made f ++ verification_made vvr cv ++ ramps_made rs ++
  [("ramp-registry:deploy", rr); ("ccip-receiver:deploy", rc)].
Definition deployment_fields (f : Foundation) (vvr cv : string) (rs : Ramps) (rr rc : string) (w : HostFields) : HostFields :=
  receiver_fields rc (registry_fields rr (ramps_fields rs (verification_fields vvr cv (foundation_fields f w)))).
(** What a deployment that succeeds leaves. *)
Definition deployed (ds0 : MemoryDataStore) (w : HostFields) (r : list string) (m : list (string * string))
    (out : OnChainOutput) (w' : HostFields) (hh' : hist) : Prop :=
  ∃ f vvr cv rs rr rc ds r', Fetch ds = Ok (Addresses out) ∧ BatchOps out = [] ∧
    finds selector ds0 ds (all_ids f vvr cv rs rr rc) ∧ w' = deployment_fields f vvr cv rs rr rc w ∧
    check hh' = Some (mkNet [] r' (m ++ deployment_made f vvr cv rs rr rc)) ∧
    r ⊆ r' ∧ foundation_contracts f ++ [vvr; cv; offramp rs; router rs; rr; rc] ⊆ r' ∧
    Forall contract_id (foundation_contracts f ++ [vvr; cv; offramp rs; router rs; rr; rc]).

Lemma keeps_test_token f vvr cv w :
  id_of (verification_fields vvr cv (foundation_fields f w)) testTokenContractID = id_of w testTokenContractID.
Proof. unfold foundation_fields, fee_fields. by destruct (decide (url = "")). Qed.

Lemma ends_all_phases orders topology ds0 w hh r m : check hh = Some (mkNet [] r m) → id_of w testTokenContractID = testToken →
  ends (all_phases enumerate stat deps h root selector allSelectors remoteSelectors orders topology ds0) w hh
    (deployed ds0 w r m).
Proof.
  intros Hc Hw. unfold all_phases.
  assert (finds selector ds0 ds0 (λ _, None)) as Hf by done.
  eapply ends_then; [eapply ends_foundation; [exact Hc|exact Hf]|]. clear Hc Hf.
  intros [f ds1] ? ? (Hids1 & Hf & -> & r1 & Hc & Hr1 & Hin1 & Htok). cbn [fst snd] in *.
  assert (rmnProxy f ∈ r1 ∧ feeQuoter f ∈ r1) as [Hp Hq] by (unfold foundation_contracts in Hin1; set_solver).
  eapply ends_then; [eapply ends_verification; [exact Hc|exact Hp|exact Hf]|].
  clear Hc Hf. intros [[vvr cv] ds2] ? ? (Hv & Hcv & Hf & -> & r2 & Hc & Hr2 & Hin2).
  assert (vvr ∈ r2 ∧ cv ∈ r2) as [Hvr Hcvr] by (clear -Hin2; set_solver).
  assert (feeToken f ∈ known ++ r2) as Htok2 by (clear -Htok Hr2; set_solver).
  pose proof (Hr2 _ Hq) as Hq2.
  eapply ends_then; [eapply ends_configure_verification; [exact Hc|exact Hvr|exact Hcvr]|].
  clear Hc. intros _ ? ? [-> Hc].
  eapply ends_then; [eapply ends_configure_fees; [exact Hc|exact Hq2|exact Htok2|by rewrite keeps_test_token]|].
  clear Hc. intros _ ? ? [-> Hc].
  eapply ends_then; [eapply ends_ramps; [exact Hc|by transitivity r1|exact Hcvr|exact Hf]|].
  clear Hc Hf. intros [rs ds3] ? ? (Hoff & Hrt & Hf & -> & r3 & Hc & Hr3 & Hin3). cbn [fst snd] in *.
  assert (foundation_contracts f ⊆ r3) as Hin1' by (transitivity r1; [done|by transitivity r2]).
  eapply ends_then; [eapply ends_lanes; [exact Hc|exact Hin1'|exact (Hr3 _ Hvr)|exact Hin3]|].
  clear Hc. intros _ ? ? [-> Hc].
  eapply ends_then; [eapply ends_registry; [exact Hc|exact Hin1'|exact Hin3|exact Hf]|].
  clear Hc Hf. intros ds4 ? ? (rr & Hrr & Hf & -> & Hc).
  eapply ends_then; [eapply ends_receiver; [exact Hc|clear -Hin3; set_solver|exact Hf]|].
  clear Hc Hf. intros [rc ds5] ? ? (Hrc & Hf & -> & Hc). cbn [fst snd] in *.
  eapply ends_result; [exact Hc|]. intros ds6 Hfin.
  apply (finds_final f vvr cv rs rr rc ds0) in Hfin; [| |apply (finds_ext _ _ _ _ (all_ids f vvr cv rs rr rc)) in Hf; [exact Hf|by intros []]].
  2: { apply Forall_app. split; [done|]. by repeat constructor. }
  eapply ends_result; [exact Hc|]. intros addrs Hfetch. rewrite <- !app_assoc in Hc.
  exists f, vvr, cv, rs, rr, rc, ds6. eexists. split; [exact Hfetch|]. split; [done|]. split; [exact Hfin|].
  split; [done|]. split; [exact Hc|].
  pose proof (Hr3 _ Hvr). pose proof (Hr3 _ Hcvr).
  assert (r ⊆ r3) by (transitivity r1; [done|by transitivity r2]).
  split_and!; [clear -H1; set_solver|clear -H H0 Hin1' Hin3; set_solver|]. apply Forall_app. split; [done|]. by repeat constructor.
Qed.

(** *** The test pools *)

Lemma CreateTestToken_is u : ∃ label, CreateTestToken h u = gcall (CreateToken label "TEST" u).
Proof. exists ("test-token-issuer-" +:+ NetworkPassphrase ch). host_is. Qed.
Lemma TokenAdminRegistryClient_is : TokenAdminRegistryClient h = gets (λ w, client_of w tarClient). Proof. host_is. Qed.
Lemma RouterContractID_is : RouterContractID h = gets (λ w, id_of w routerContractID). Proof. host_is. Qed.
Lemma RampRegistryContractID_is : RampRegistryContractID h = gets (λ w, id_of w rampRegistryContractID). Proof. host_is. Qed.
Lemma LatestLedgerSequence_is : LatestLedgerSequence h = gcall LatestLedger. Proof. host_is. Qed.
Lemma SetTestToken_is id : SetTestToken h id = modify (set_id testTokenContractID id). Proof. host_is. Qed.
Lemma SetTokenPool_is id : SetTokenPool h id = modify (set_pair tokenPoolContractID tokenPoolClient id). Proof. host_is. Qed.
Lemma SetLegacy_is id : SetLegacyLockReleasePool h id = modify (set_id legacyLockReleasePoolID id). Proof. host_is. Qed.
Lemma SetTokenLockBox_is id : SetTokenLockBox h id = modify (set_id tokenLockBoxContractID id). Proof. host_is. Qed.

Lemma ends_wasm_exists path name w hh n : check hh = Some n →
  ends (wasm_exists stat path name) w hh (λ _, holds owner known w n).
Proof.
  intros Hc info _. pose proof (check_snoc owner known hh (answered (StatFile path) info) _ Hc) as Hs.
  destruct info; first [exact (conj eq_refl Hs)|exact (ex_intro _ _ Hs)].
Qed.
Lemma ends_deploy_pool what file salt rt op w hh p r m : action (opID op) = "deploy" → check hh = Some (mkNet p r m) →
  ends (deploy_pool h what file salt rt op) w hh (λ cid w' hh', w' = w ∧ contract_id cid ∧
    check hh' = Some (mkNet (cid :: p) r (m ++ [(opID op, cid)]))).
Proof.
  intros Ha Hc. unfold deploy_pool. apply (ends_then _ _ _ _ _ _ (λ out w' hh', ∃ cid, out = [VString cid] ∧ w' = w ∧ contract_id cid ∧
    check hh' = Some (mkNet (cid :: p) r (m ++ [(opID op, cid)])))).
  - apply ends_ctx. apply (ends_execute _ _ _ _ _ _ _ (mkNet p r m)); [done| |by intros].
    intros _ cid Hcid hh'' Hh''. by exists cid.
  - intros out w' hh'' (cid & -> & -> & Hcid & Hc''). cbn. by split_and!.
Qed.
Ltac deploys_pool H id Hid := eapply ends_then; [eapply ends_deploy_pool; [reflexivity|exact H]|];
  clear H; intros id ? ? (-> & Hid & H).

Section pools.
Context (findRoot : result string) (tok : string).

Lemma ends_legacy w hh r m : check hh = Some (mkNet [] r m) → tok ∈ r → id_of w routerContractID ∈ r →
  id_of w rampRegistryContractID ∈ r →
  ends (deployLegacyLockReleasePool enumerate stat findRoot h tok) w hh (λ _ w' hh', ∃ pool, contract_id pool ∧
    w' = set_id legacyLockReleasePoolID pool w ∧
    check hh' = Some (mkNet [] (pool :: r) (m ++ [("token-pool:deploy", pool)]))).
Proof.
  intros Hc Ht Hrt Hrr. unfold deployLegacyLockReleasePool.
  eapply ends_result; [exact Hc|]. intros rt _.
  eapply ends_then; [eapply ends_wasm_exists; exact Hc|]. clear Hc. intros _ ? ? [-> Hc].
  deploys_pool Hc pool Hpool. sets SetLegacy_is.
  rewrite RouterContractID_is. apply total_gets. destruct (decide _); [eexists; exact Hc|].
  rewrite RampRegistryContractID_is. apply total_gets. destruct (decide _); [eexists; exact Hc|].
  change (id_of (set_id legacyLockReleasePoolID pool w) routerContractID) with (id_of w routerContractID).
  change (id_of (set_id legacyLockReleasePoolID pool w) rampRegistryContractID) with (id_of w rampRegistryContractID).
  initialises Hc. eapply ends_mono; [last_use Hc|]. intros _ ? ? [-> Hc']. by exists pool.
Qed.

Lemma ends_expiration w hh n : check hh = Some n → ends (expiration_ledger h) w hh (λ _, holds owner known w n).
Proof.
  intros Hc. unfold expiration_ledger. rewrite LatestLedgerSequence_is. intros l _.
  pose proof (check_snoc owner known hh (answered LatestLedger l) _ Hc) as Hs. by destruct l.
Qed.
Definition siloed_fields (box pool : string) (w : HostFields) : HostFields :=
  set_pair tokenPoolContractID tokenPoolClient pool (set_id tokenLockBoxContractID box w).
Lemma ends_siloed tarID w hh r m : check hh = Some (mkNet [] r m) → tok ∈ r → tarID ∈ r → id_of w routerContractID ∈ r →
  id_of w rampRegistryContractID ∈ r →
  ends (deploySiloedLockReleaseTestTokenPool enumerate stat findRoot h tok tarID) w hh (λ _ w' hh', ∃ box pool,
    contract_id box ∧ contract_id pool ∧ w' = siloed_fields box pool w ∧
    check hh' = Some (mkNet [] (pool :: box :: r) (m ++ [("token-lock-box:deploy", box); ("siloed-lock-release-pool:deploy", pool)]))).
Proof.
  intros Hc Ht Htar Hrt Hrr. unfold deploySiloedLockReleaseTestTokenPool.
  eapply ends_result; [exact Hc|]. intros rt _.
  do 2 (eapply ends_then; [eapply ends_wasm_exists; exact Hc|]; clear Hc; intros _ ? ? [-> Hc]).
  eapply (ends_then _ _ _ _ _ _ (λ box w' hh', contract_id box ∧ w' = set_id tokenLockBoxContractID box w ∧
    check hh' = Some (mkNet [] (box :: r) (m ++ [("token-lock-box:deploy", box)])))).
  { unfold deploy_lock_box. deploys_pool Hc box Hbox. initialises Hc. sets SetTokenLockBox_is. by split_and!. }
  clear Hc. intros box ? ? (Hbox & -> & Hc).
  eapply (ends_then _ _ _ _ _ _ (λ pool w' hh', contract_id pool ∧ w' = set_id tokenLockBoxContractID box w ∧
    check hh' = Some (mkNet [] (pool :: box :: r) (m ++ [("token-lock-box:deploy", box); ("siloed-lock-release-pool:deploy", pool)])))).
  { unfold deploy_siloed. deploys_pool Hc pool Hpool. rewrite RouterContractID_is, RampRegistryContractID_is.
    do 2 apply total_gets. rewrite <- app_assoc in Hc.
    change (id_of (set_id tokenLockBoxContractID box w) routerContractID) with (id_of w routerContractID).
    change (id_of (set_id tokenLockBoxContractID box w) rampRegistryContractID) with (id_of w rampRegistryContractID).
    initialises Hc. by split_and!. }
  clear Hc. intros pool ? ? (Hpool & -> & Hc).
  eapply (ends_then _ _ _ _ _ _ (λ _, holds owner known (set_id tokenLockBoxContractID box w)
    (mkNet [] (pool :: box :: r) (m ++ [("token-lock-box:deploy", box); ("siloed-lock-release-pool:deploy", pool)])))).
  { unfold fund_lock_box. uses Hc. eapply ends_then; [eapply ends_expiration; exact Hc|]. clear Hc. intros l ? ? [-> Hc].
    uses Hc. last_use Hc. }
  clear Hc. intros _ ? ? [-> Hc]. sets SetTokenPool_is. unfold register_pool.
  uses Hc. uses Hc. eapply ends_mono; [last_use Hc|]. intros _ ? ? [-> Hc']. by exists box, pool.
Qed.
End pools.

(** What the test pools leave, with a friendbot or without. *)
Definition pools_fields (token legacy box pool : string) (w : HostFields) : HostFields :=
  siloed_fields box pool (set_id legacyLockReleasePoolID legacy (set_id testTokenContractID token w)).
Definition pools_made (legacy box pool : string) : list (string * string) :=
  [("token-pool:deploy", legacy); ("token-lock-box:deploy", box); ("siloed-lock-release-pool:deploy", pool)].
Definition with_pools (w : HostFields) (r : list string) (m : list (string * string)) (w' : HostFields) (hh' : hist) : Prop :=
  if decide (url = "") then w' = w ∧ check hh' = Some (mkNet [] r m)
  else ∃ token legacy box pool, w' = pools_fields token legacy box pool w ∧
         check hh' = Some (mkNet [] (pool :: box :: legacy :: token :: r) (m ++ pools_made legacy box pool)).
Lemma ends_pools findRoot tarID w hh r m : check hh = Some (mkNet [] r m) → client_of w tarClient = Some tarID → tarID ∈ r →
  id_of w routerContractID ∈ r → id_of w rampRegistryContractID ∈ r →
  ends (DeployLockReleaseTestTokenPool enumerate stat findRoot h) w hh (λ _, with_pools w r m).
Proof.
  intros Hc Hcl Htar Hrt Hrr. unfold DeployLockReleaseTestTokenPool, with_pools.
  rewrite TokenAdminRegistryClient_is. apply total_gets. rewrite Hcl, FriendbotURL_is.
  destruct (decide (url = "")) as [Hu|Hu]; [done|].
  destruct (CreateTestToken_is url) as [label ->].
  eapply (ends_then _ _ _ _ _ _ (λ tok w' hh', w' = w ∧ check hh' = Some (mkNet [] (tok :: r) m))).
  { apply ends_ctx. intros [tok|e] _; [|eexists; by rewrite (check_snoc _ _ _ _ _ Hc)].
    cbn. split; [done|]. by rewrite (check_snoc _ _ _ _ _ Hc). }
  clear Hc. intros tok ? ? [-> Hc]. sets SetTestToken_is.
  eapply ends_then; [eapply ends_legacy; [exact Hc|by constructor|by constructor|by constructor]|].
  clear Hc. intros _ ? ? (legacy & _ & -> & Hc).
  eapply ends_mono; [eapply ends_siloed; [exact Hc|set_solver|set_solver|by do 2 constructor|by do 2 constructor]|].
  intros _ ? ? (box & pool & _ & _ & -> & Hc'). exists tok, legacy, box, pool. split; [done|].
  rewrite Hc'. by rewrite <- app_assoc.
Qed.
End phases.

(** *** The sequence, and the pools after it *)

Section deployment.
Context {ST : SdkTypes} {SD : Sdk} {UT : UnicodeTables} {XS : XdrSdk} {XL : XdrLaws} {HF : HostFunctions}
  {MS : MetaSdk} {RS : RpcSdk} {FC : FloatConv} {DS : DeployerSdk} {LS : LaneSdk} {LL : LaneLaws} {AS : AccessorSdk}
  {DT : Datastore} {DL : DatastoreLaws} {CK : ContractKinds} {KL : KindLaws}.
Context (enumerate : list string → list string) (print_version : option string → string) (findRoot : result string).
Context (deps : StellarDeps HostFields rollout_ext) (ch : StellarChain) (url : string) (h : CCIPDevenvHost HostFields rollout_ext).
Context (Hh : host_of deps (gcall LatestLedger) (λ l c u, gcall (CreateToken l c u)) ch url = Ok h).
Context (mock executor testToken : string).
Context (Hmock : MustGenerateMockContractID (DeployerKeypair h) "fee-token" = GVal mock)
  (Hexecutor : ScVal.HexToContractStrkey (contractHexAddr h "stellar-executor-proxy") = Ok executor).
Abbreviation owner := (DeployerKeypair h).
Abbreviation known := [owner; mock; executor; testToken].
Abbreviation stat := (λ path, call (StatFile path)).
Abbreviation check := (check owner known).
Abbreviation good := (good owner known).
Abbreviation deployed selector := (deployed selector url h mock executor testToken).
Abbreviation with_pools := (with_pools url h mock executor testToken).

Lemma ends_full_deploy orders topo inp w : id_of w testTokenContractID = testToken →
  total answers (RunStellarCCIPFullDeploy enumerate print_version stat findRoot (Some deps) (Some h) orders topo inp) w []
    (good (λ out w' hh', ∃ ds0, MergeExistingAddressRefs print_version NewMemoryDataStore (iiExistingAddresses inp) = Ok ds0 ∧
       deployed (iiChainSelector inp) ds0 w [] [] out w' hh')).
Proof.
  intros Hw. destruct topo as [[topo|]|]; [|by eexists..]. unfold RunStellarCCIPFullDeploy.
  assert (check [] = Some (mkNet [] [] [])) as Hc by done.
  eapply ends_result; [exact Hc|]. intros ds0 Hds. eapply ends_result; [exact Hc|]. intros root _.
  eapply ends_mono; [by eapply ends_all_phases|]. intros out w' hh' Hd. by exists ds0.
Qed.

(** C23. A deployment of the whole protocol, on the host of the shared tooling and with any
    answers of the node and the file system, never panics. When it succeeds, every contract
    was deployed and initialised exactly once, for the deployer, and none was used, nor given
    to another as an address, before its own initialisation; nothing is left pending; the
    datastore gives the id of each contract deployed but the RMN proxy, whose reference is
    that of the existing addresses; the output is what the datastore has; and the fields of
    the host are the contracts. When it fails, the calls until then were in that order. *)
Theorem full_deployment orders topo inp w : id_of w testTokenContractID = testToken →
  total answers (RunStellarCCIPFullDeploy enumerate print_version stat findRoot (Some deps) (Some h) orders topo inp) w []
    (good (λ out w' hh', ∃ ds0, MergeExistingAddressRefs print_version NewMemoryDataStore (iiExistingAddresses inp) = Ok ds0 ∧
       deployed (iiChainSelector inp) ds0 w [] [] out w' hh')).
Proof. apply ends_full_deploy. Qed.

(** C24. The test pools that follow a deployment find what they need in the host that it
    leaves: they are deployed, initialised and used in order, with the token that the test
    creates; no pool is deployed without a friendbot. *)
Theorem pools_after_deployment orders topo inp w : id_of w testTokenContractID = testToken →
  total answers (out <-? RunStellarCCIPFullDeploy enumerate print_version stat findRoot (Some deps) (Some h) orders topo inp;
                 _ <-? DeployLockReleaseTestTokenPool enumerate stat findRoot h; Ret (GVal out)) w []
    (good (λ out w' hh', ∃ ds0 w1 hh1 r m, deployed (iiChainSelector inp) ds0 w [] [] out w1 hh1 ∧
       check hh1 = Some (mkNet [] r m) ∧ with_pools w1 r m w' hh')).
Proof.
  intros Hw. eapply ends_then; [by apply ends_full_deploy|]. intros out w1 hh1 (ds0 & _ & Hd). pose proof Hd as Hd'.
  destruct Hd as (f & vvr & cv & rs & rr & rc & ds & r' & _ & _ & _ & Hw1 & Hc & _ & Hin & _).
  assert (tar f ∈ r' ∧ router rs ∈ r' ∧ rr ∈ r') as (Ht & Hrt & Hrr) by (clear -Hin; unfold foundation_contracts in Hin; set_solver).
  eapply ends_then; [eapply (ends_pools enumerate) with (tarID := tar f);
    first [eassumption|by rewrite Hw1]|].
  intros [] w2 hh2 Hp. exists ds0, w1, hh1, r', ([] ++ deployment_made f vvr cv rs rr rc). by split_and!.
Qed.
End deployment.

(** ** Curses *)

Section rmn.
Import RmnRemote.

Lemma subject_inj b b' : subject b = subject b' → b = b'.
Proof. intros H. apply (f_equal String.list_byte_of_string) in H. by rewrite !String.list_byte_of_string_of_list_byte in H. Qed.
Definition texts (ss : list bytes) : gset string := list_to_set (subject <$> ss).

(** The subjects that are not there, each at its first occurrence. *)
Fixpoint first_new (ss : list bytes) (c : gset string) : list bytes :=
  match ss with
  | [] => []
  | s :: ss' => if decide (subject s ∈ c) then first_new ss' c else s :: first_new ss' ({[subject s]} ∪ c)
  end.
Lemma curse_loop_spec ss : ∀ c newly, curse_loop ss c newly = (c ∪ texts ss, newly ++ first_new ss c).
Proof.
  induction ss as [|s ss IH]; intros c newly; cbn [curse_loop first_new].
  - unfold texts. cbn. rewrite app_nil_r. f_equal. set_solver.
  - unfold texts in *. cbn. destruct (decide (subject s ∈ c)); rewrite IH.
    + f_equal. set_solver.
    + rewrite <- app_assoc. f_equal. set_solver.
Qed.
Lemma first_new_spec ss : ∀ c, NoDup (first_new ss c) ∧ ∀ s, s ∈ first_new ss c ↔ s ∈ ss ∧ subject s ∉ c.
Proof.
  induction ss as [|s ss IH]; intros c; cbn [first_new]; [split; [constructor|set_solver]|].
  destruct (decide (subject s ∈ c)) as [Hs|Hs].
  - destruct (IH c) as [H1 H2]. split; [done|]. intros s'. rewrite H2, elem_of_cons. split; [tauto|].
    intros [[->|?] ?]; [done|tauto].
  - destruct (IH ({[subject s]} ∪ c)) as [H1 H2]. split.
    + constructor; [|done]. rewrite H2. set_solver.
    + intros s'. rewrite !elem_of_cons, H2. split.
      * intros [->|[? Hn]]; [tauto|]. split; [tauto|set_solver].
      * intros [[->|Hin] Hn]; [by left|]. destruct (decide (s' = s)) as [->|Hne]; [by left|right].
        split; [done|]. intros [->%elem_of_singleton%subject_inj|?]%elem_of_union; done.
Qed.
Lemma first_new_nil ss c : first_new ss c = [] → texts ss ⊆ c.
Proof.
  intros H. intros x Hx. apply elem_of_list_to_set, list_elem_of_fmap in Hx as (s & -> & Hs).
  destruct (decide (subject s ∈ c)) as [|Hn]; [done|].
  assert (s ∈ first_new ss c) as Hin by by apply first_new_spec. rewrite H in Hin. by inversion Hin.
Qed.
Lemma uncurse_loop_spec ss : ∀ c, uncurse_loop ss c =
  if decide (NoDup ss ∧ texts ss ⊆ c) then Ok (c ∖ texts ss) else Err "NotCursed".
Proof.
  induction ss as [|s ss IH]; intros c; cbn [uncurse_loop].
  - unfold texts. cbn. rewrite decide_True by (split; [constructor|set_solver]). f_equal. set_solver.
  - assert (texts (s :: ss) = {[subject s]} ∪ texts ss) as -> by (unfold texts; set_solver).
    assert (subject s ∈ texts ss ↔ s ∈ ss) as Hs.
    { unfold texts. rewrite elem_of_list_to_set, list_elem_of_fmap. split; [|eauto].
      by intros (s' & ->%subject_inj & ?). }
    destruct (decide (subject s ∈ c)) as [Hc|Hc].
    + rewrite IH. destruct (decide (NoDup ss ∧ _)) as [[Hn Hsub]|Hn];
        destruct (decide (NoDup (s :: ss) ∧ _)) as [[[Hs' Hn']%NoDup_cons Hsub']|Hn'].
      * f_equal. set_solver.
      * destruct Hn'. split; [constructor; [rewrite <- Hs|done]; set_solver|set_solver].
      * destruct Hn. split; [done|]. rewrite <- Hs in Hs'. set_solver.
      * done.
    + rewrite decide_False; [done|]. intros [_ Hsub]. set_solver.
Qed.

Context (auth : string → bool).
(** Who may curse, and who may lift a curse. *)
Definition may_curse (st : Rmn) (caller : string) : Prop :=
  auth caller = true ∧ (Ownable.OWNER (ownable st) = Some caller ∨ caller ∈ load_curse_admins st).
Definition may_uncurse (st : Rmn) : Prop := ∃ o, Ownable.OWNER (ownable st) = Some o ∧ auth o = true.
Lemma require_can_curse_spec st caller : require_can_curse auth st caller = Ok tt ↔ may_curse st caller.
Proof.
  unfold require_can_curse, may_curse, is_curse_admin, Ownable.is_owner, Ownable.require_auth.
  destruct (auth caller), (bool_decide (Ownable.OWNER (ownable st) = Some caller)) eqn:E1,
    (bool_decide (caller ∈ load_curse_admins st)) eqn:E2;
    first [apply bool_decide_eq_true in E1|apply bool_decide_eq_false in E1];
    first [apply bool_decide_eq_true in E2|apply bool_decide_eq_false in E2]; split; intros; naive_solver.
Qed.
Lemma require_owner_spec o : is_Some (match Ownable.require_owner auth o with Ok a => Some a | Err _ => None end) ↔
  ∃ a, Ownable.OWNER o = Some a ∧ auth a = true.
Proof.
  unfold Ownable.require_owner, Ownable.owner, Ownable.require_auth. destruct (Ownable.OWNER o) as [a|].
  - destruct (auth a) eqn:Ha; split; [by intros _; exists a|done|by intros []|intros (a' & [= <-] & H); congruence].
  - split; [by intros []|by intros (a & ? & _)].
Qed.

(** C26. On an RMN contract that is initialised, a curse succeeds exactly for the owner or a
    curse admin who authorises it; then exactly the subjects given are cursed besides those
    that were, and the event names, once each, those that were not. Lifting a curse succeeds
    exactly when the owner authorises it and every subject is cursed and given once; then
    exactly these are no longer cursed. Neither changes anything else. *)
Theorem rmn_curses_exact st c : INITIALIZED st = true → CURSED st = Some c →
  (∀ caller ss, may_curse st caller → ∃ ev, curse auth caller ss st = Ok (set_cursed (c ∪ texts ss) st, ev) ∧
     NoDup (default [] ev) ∧ ∀ s, s ∈ default [] ev ↔ s ∈ ss ∧ subject s ∉ c) ∧
  (∀ caller ss, ¬ may_curse st caller → ∃ e, curse auth caller ss st = Err e) ∧
  (∀ ss, may_uncurse st ∧ NoDup ss ∧ texts ss ⊆ c → uncurse auth ss st = Ok (set_cursed (c ∖ texts ss) st, Some ss)) ∧
  (∀ ss, ¬ (may_uncurse st ∧ NoDup ss ∧ texts ss ⊆ c) → ∃ e, uncurse auth ss st = Err e).
Proof.
  intros Hi Hc. unfold curse, uncurse, require_initialized. rewrite Hi, Hc. cbn [mbind result_bind].
  split; [|split; [|split]].
  - intros caller ss Hm%require_can_curse_spec. rewrite Hm. cbn [mbind result_bind].
    rewrite curse_loop_spec, app_nil_l. destruct (first_new_spec ss c) as [Hn Hin].
    destruct (first_new ss c) as [|s newly] eqn:Hf.
    + exists None. pose proof (first_new_nil ss c Hf) as Hsub. split; [|split; [constructor|exact Hin]].
      assert (c ∪ texts ss = c) as -> by set_solver. unfold set_cursed. rewrite <- Hc. by destruct st.
    + by exists (Some (s :: newly)).
  - intros caller ss Hm. destruct (require_can_curse auth st caller) as [[]|e] eqn:Hr; [|by exists e].
    by apply require_can_curse_spec in Hr.
  - intros ss ((o & Ho & Ha) & Hn & Hs). unfold Ownable.require_owner, Ownable.owner, Ownable.require_auth.
    rewrite Ho, Ha. cbn [mbind result_bind]. by rewrite uncurse_loop_spec, decide_True.
  - intros ss Hn. pose proof (require_owner_spec (ownable st)) as Hs.
    destruct (Ownable.require_owner auth (ownable st)) as [o|e]; [|by exists e]. cbn [mbind result_bind].
    rewrite uncurse_loop_spec. rewrite decide_False; [by eexists|]. intros [? ?]. apply Hn. split; [|done].
    apply Hs. by eexists.
Qed.
End rmn.

(** *** A curse in a bundle *)

Section bundle.
Import RmnRemote.
Context {ST : SdkTypes} {SD : Sdk} {UT : UnicodeTables} {XS : XdrSdk} {XL : XdrLaws} {HF : HostFunctions}
  {MS : MetaSdk} {RS : RpcSdk} {FC : FloatConv} {DS : DeployerSdk}.
Context (enumerate : list string → list string).
Context {W : Type} {E : Type → Type} {CF : Cldf W E} {HO : Host W E}.
Context (d : Deployer.Deployer) (s : Deployer.DeployerState).
Abbreviation cdeps := (host s (FromDeployer d)).
Abbreviation signer := (Deployer.SignerAddress d).
Definition only (addr : string) : string → bool := λ a, bool_decide (a = addr).

(** The RMN contracts on chain, the successful reports of the bundle, and what the outside may
    answer. *)
Class CurseWorld := {
  rmns : W → gmap string Rmn;
  curse_reports : W → string → list value → option (list value);
  curse_answers : ∀ X, E X → X → Prop
}.
(** Documented behaviour: a transaction that the network confirms had its effect, with the
    deployer's authorisation, and one whose submission failed may have had it; the framework
    returns an earlier report of the same operation and input, or runs the handler and
    reports what succeeds. *)
Class CurseWorldLaws `{CurseWorld} : Prop := {
  invoke_rmn contractID functionName args w : is_Some (message_of functionName args) →
    let effect := RmnRemote.invoke (only signer) (rmns w) contractID functionName args in
    returns curse_answers (Invoke (Invoker := depsInvoker cdeps) contractID functionName args) w
      (λ r w', curse_reports w' = curse_reports w ∧
         match r with
         | GVal _ => effect = Some (rmns w')
         | GErr _ => rmns w' = rmns w ∨ effect = Some (rmns w')
         | GPanic _ => False
         end);
  curse_reported op inp out w : curse_reports w (opID op) inp = Some out →
    returns curse_answers (ExecuteOperation op cdeps inp) w (λ r w', r = GVal out ∧ w' = w);
  curse_runs op inp w P : curse_reports w (opID op) inp = None →
    returns curse_answers (opHandler op cdeps inp) w P →
    returns curse_answers (ExecuteOperation op cdeps inp) w (λ r w', ∃ r0 w0, P r0 w0 ∧ rmns w' = rmns w0 ∧
      match r with
      | GVal out => r0 = GVal out ∧ curse_reports w' (opID op) inp = Some out ∧
                    ∀ i x, (i, x) ≠ (opID op, inp) → curse_reports w' i x = curse_reports w0 i x
      | GErr _ => curse_reports w' = curse_reports w0
      | GPanic m => r0 = GPanic m
      end)
}.
Context {CW : CurseWorld} {CL : CurseWorldLaws}.

Lemma subjects_there_and_back ss : Forall (λ b, length b = 16%nat) ss →
  subjects_of (ScVal.BytesSliceToScVal ss) = Some ss.
Proof.
  intros Hs. unfold ScVal.BytesSliceToScVal, ScVal.VecToScVal, subjects_of.
  induction Hs as [|b ss Hb _ IH]; [done|]. cbn [fmap list_fmap mapM].
  unfold ScVal.Bytes16FromScVal in *. rewrite (proj2 (fixed_bytes_exact 16 (ScVal.BytesToScVal b) b)) by done.
  cbn [mbind option_bind]. by rewrite IH.
Qed.
Lemma blobs_there ss : blobs_of (VBytes <$> ss) = Some ss.
Proof. unfold blobs_of. by rewrite mapM_inj. Qed.
Lemma curse_calls (deps : StellarDeps W E) rmn caller ss :
  opHandler (rmn_remote_Curse enumerate) deps (Curse.curse_input rmn caller ss) =
    (result <-? gctx "failed to call curse" (Invoke (Invoker := depsInvoker deps) rmn "curse"
                  [ScVal.AddressToScVal caller; ScVal.BytesSliceToScVal ss]);
     Ret (GVal [])).
Proof.
  change (opHandler (rmn_remote_Curse enumerate) deps (Curse.curse_input rmn caller ss)) with
    (args <-? Ret (xs ← (x ← slice ScVal.BytesSliceToScVal (blobs_of (VBytes <$> ss)); GVal [x]);
                   GVal (ScVal.AddressToScVal caller :: xs));
     result <-? gctx "failed to call curse" (Invoke (Invoker := depsInvoker deps) rmn "curse" args); Ret (GVal [] : gres (list value))).
  by rewrite blobs_there.
Qed.
Lemma uncurse_calls (deps : StellarDeps W E) rmn ss :
  opHandler (rmn_remote_Uncurse enumerate) deps (Curse.uncurse_input rmn ss) =
    (result <-? gctx "failed to call uncurse" (Invoke (Invoker := depsInvoker deps) rmn "uncurse" [ScVal.BytesSliceToScVal ss]);
     Ret (GVal [])).
Proof.
  change (opHandler (rmn_remote_Uncurse enumerate) deps (Curse.uncurse_input rmn ss)) with
    (args <-? Ret (x ← slice ScVal.BytesSliceToScVal (blobs_of (VBytes <$> ss)); GVal [x]);
     result <-? gctx "failed to call uncurse" (Invoke (Invoker := depsInvoker deps) rmn "uncurse" args); Ret (GVal [] : gres (list value))).
  by rewrite blobs_there.
Qed.

Lemma curse_effect ss caller L L' rmn : is_strkey caller → Forall (λ b, length b = 16%nat) ss →
  RmnRemote.invoke (only signer) L rmn "curse" [ScVal.AddressToScVal caller; ScVal.BytesSliceToScVal ss] = Some L' →
  ∃ st c, L' !! rmn = Some st ∧ CURSED st = Some (c ∪ texts ss).
Proof.
  intros Hk Hs. unfold RmnRemote.invoke, message_of.
  rewrite decide_True, address_there_and_back, subjects_there_and_back by done.
  destruct (L !! rmn) as [st|]; [|done]. cbn [mbind option_bind fmap option_fmap option_map receive].
  unfold curse. destruct (require_initialized st); [|done]. cbn [mbind result_bind].
  destruct (require_can_curse _ st caller); [|done]. cbn [mbind result_bind].
  destruct (CURSED st) as [c|] eqn:Hc; [|done]. rewrite curse_loop_spec, app_nil_l.
  destruct (first_new ss c) as [|x newly] eqn:Hf; cbn; intros [= <-]; rewrite lookup_insert_eq.
  - exists st, c. split; [done|]. rewrite Hc. f_equal. pose proof (first_new_nil ss c Hf). set_solver.
  - by eexists _, c.
Qed.
Lemma uncurse_effect ss L L' rmn : Forall (λ b, length b = 16%nat) ss →
  RmnRemote.invoke (only signer) L rmn "uncurse" [ScVal.BytesSliceToScVal ss] = Some L' →
  ∃ st c, L' !! rmn = Some st ∧ CURSED st = Some c ∧ c ## texts ss.
Proof.
  intros Hs. unfold RmnRemote.invoke, message_of.
  rewrite decide_False, decide_True, subjects_there_and_back by done.
  destruct (L !! rmn) as [st|]; [|done]. cbn [mbind option_bind fmap option_fmap option_map receive].
  unfold uncurse. destruct (require_initialized st); [|done]. cbn [mbind result_bind].
  destruct (Ownable.require_owner _ _); [|done]. cbn [mbind result_bind].
  destruct (CURSED st) as [c|] eqn:Hc; [|done]. rewrite uncurse_loop_spec.
  destruct (decide _); [|done]. cbn. intros [= <-]. rewrite lookup_insert_eq.
  eexists _, _. split; [done|]. split; [done|]. set_solver.
Qed.

Context (chains : BlockChains) (inp : Curse.CurseInput) (rmn : string) (ch : StellarChain).
Abbreviation ss := (Curse.Subjects inp).
Context (Hch : chains !! Curse.cuChainSelector inp = Some ch)
  (Hd : Deployer.NewDeployerFromChain (NetworkPassphrase ch) (ChainSigner ch) [] = Ok (d, s)).
Context (Hsigner : is_strkey signer) (Hss : Forall (λ b, length b = 16%nat) ss).
Abbreviation curse_reported_as := (λ w, curse_reports w "rmn-remote:curse" (Curse.curse_input rmn signer ss)).
Abbreviation uncurse_reported_as := (λ w, curse_reports w "rmn-remote:uncurse" (Curse.uncurse_input rmn ss)).
(** Whether all the subjects are cursed, and whether none of them is. *)
Definition all_cursed (w : W) : Prop := ∃ st c, rmns w !! rmn = Some st ∧ CURSED st = Some c ∧ texts ss ⊆ c.
Definition none_cursed (w : W) : Prop := ∃ st c, rmns w !! rmn = Some st ∧ CURSED st = Some c ∧ c ## texts ss.

Lemma curse_sequence_is : seqHandler (Curse.StellarCurse enumerate) chains (inp, rmn) =
  (_ <-? gctx ("curse on chain " +:+ pretty (Curse.cuChainSelector inp))
         (ExecuteOperation (rmn_remote_Curse enumerate) cdeps (Curse.curse_input rmn signer ss));
   Ret (GVal (mkOnChainOutput [] []))).
Proof. unfold Curse.StellarCurse, Curse.curse_deployer. cbn [seqHandler]. rewrite Hch, Hd. done. Qed.
Lemma uncurse_sequence_is : seqHandler (Curse.StellarUncurse enumerate) chains (inp, rmn) =
  (_ <-? gctx ("uncurse on chain " +:+ pretty (Curse.cuChainSelector inp))
         (ExecuteOperation (rmn_remote_Uncurse enumerate) cdeps (Curse.uncurse_input rmn ss));
   Ret (GVal (mkOnChainOutput [] []))).
Proof. unfold Curse.StellarUncurse, Curse.curse_deployer. cbn [seqHandler]. rewrite Hch, Hd. done. Qed.

(** What a result promises; no panic. *)
Definition outcome_ok {A} (P : W → Prop) (r : gres A) (w : W) : Prop :=
  match r with GVal _ => P w | GErr _ => True | GPanic _ => False end.
Lemma curse_run w : curse_reported_as w = None →
  returns curse_answers (seqHandler (Curse.StellarCurse enumerate) chains (inp, rmn)) w
    (outcome_ok (λ w', all_cursed w' ∧ is_Some (curse_reported_as w') ∧ (uncurse_reported_as w = None → uncurse_reported_as w' = None))).
Proof.
  intros Hr. rewrite curse_sequence_is. eapply returns_gctx_gthen.
  { apply (curse_runs _ _ _ (λ r0 w0, curse_reports w0 = curse_reports w ∧ outcome_ok all_cursed r0 w0)); [exact Hr|].
    rewrite curse_calls. eapply returns_gctx_gthen.
    { apply invoke_rmn. unfold message_of.
      rewrite decide_True, address_there_and_back, subjects_there_and_back by done. by eexists. }
    intros [v|e|m] w0 [H1 H2]; [|by split|done]. cbn. split; [done|].
    destruct (curse_effect _ _ _ _ _ Hsigner Hss H2) as (st & c & ? & ?). exists st, (c ∪ texts ss).
    split_and!; [done..|set_solver]. }
  intros [v|e|m] w' (r0 & w0 & (Hw0 & Hall) & Hl & H); [|done|by rewrite H in Hall].
  destruct H as (-> & Hrep & Hother). cbn. split; [|split; [by eexists|]].
  - unfold all_cursed in *. by rewrite Hl.
  - intros Hu. rewrite Hother by done. by rewrite Hw0.
Qed.
Lemma uncurse_run w : uncurse_reported_as w = None → is_Some (curse_reported_as w) →
  returns curse_answers (seqHandler (Curse.StellarUncurse enumerate) chains (inp, rmn)) w
    (outcome_ok (λ w', none_cursed w' ∧ is_Some (curse_reported_as w'))).
Proof.
  intros Hr Hc. rewrite uncurse_sequence_is. eapply returns_gctx_gthen.
  { apply (curse_runs _ _ _ (λ r0 w0, curse_reports w0 = curse_reports w ∧ outcome_ok none_cursed r0 w0)); [exact Hr|].
    rewrite uncurse_calls. eapply returns_gctx_gthen.
    { apply invoke_rmn. unfold message_of. rewrite decide_False, decide_True, subjects_there_and_back by done. by eexists. }
    intros [v|e|m] w0 [H1 H2]; [|by split|done]. cbn. split; [done|].
    by apply (uncurse_effect _ _ _ _ Hss H2). }
  intros [v|e|m] w' (r0 & w0 & (Hw0 & Hnone) & Hl & H); [|done|by rewrite H in Hnone].
  destruct H as (-> & Hrep & Hother). cbn. split.
  - unfold none_cursed in *. by rewrite Hl.
  - rewrite Hother by done. by rewrite Hw0.
Qed.

(** C25. In a bundle without reports of them, a curse that succeeds has cursed all its
    subjects on chain. But when it is lifted and then put again in the same bundle, the last
    curse returns success from the report of the first and nothing reaches the contract: none
    of the subjects is cursed. *)
Theorem repeated_curse_is_lost w : curse_reported_as w = None → uncurse_reported_as w = None →
  returns curse_answers (seqHandler (Curse.StellarCurse enumerate) chains (inp, rmn)) w (outcome_ok all_cursed) ∧
  returns curse_answers (_ <-? seqHandler (Curse.StellarCurse enumerate) chains (inp, rmn);
                         _ <-? seqHandler (Curse.StellarUncurse enumerate) chains (inp, rmn);
                         seqHandler (Curse.StellarCurse enumerate) chains (inp, rmn)) w (outcome_ok none_cursed).
Proof.
  intros Hc Hu. split; [eapply returns_mono; [|by apply curse_run]; by intros [?|?|?] w' H; [apply H|..]|].
  eapply returns_gthen; [by apply curse_run|]. intros [o|e|m] w1 H1; [|done..].
  destruct H1 as (_ & Hc1 & Hu1). eapply returns_gthen; [by apply uncurse_run; [apply Hu1|]|].
  intros [o'|e|m] w2 H2; [|done..]. destruct H2 as [Hnone [out Hc2]].
  rewrite curse_sequence_is. eapply returns_gctx_gthen; [by apply curse_reported|]. intros r w3 [-> ->]. exact Hnone.
Qed.
End bundle.

(** *** The chains that a curse concerns *)

Section connected.
Context {AS : AccessorSdk} {FK : Curse.FastCurse}.
Definition concerned (l : list (string * Z)) (sel : Z) : Prop :=
  ∃ o family, (o, sel) ∈ l ∧ o ≠ "" ∧ GetSelectorFamily sel = Ok family ∧ Curse.IsFamilyRegistered family = true.
Definition off_ramps (l : list (string * Z)) : list value := (λ p, VStruct [VString (fst p); VNum (snd p)]) <$> l.
Lemma connected_from l : ∀ acc, NoDup acc →
  ∃ r, Curse.connected_chains (off_ramps l) acc = GVal r ∧ NoDup r ∧ ∀ sel, sel ∈ r ↔ sel ∈ acc ∨ concerned l sel.
Proof.
  assert (∀ o n sel, concerned [(o, n)] sel ↔ sel = n ∧ o ≠ "" ∧ ∃ f, GetSelectorFamily n = Ok f ∧ Curse.IsFamilyRegistered f = true) as Hone.
  { intros o n sel. unfold concerned. setoid_rewrite list_elem_of_singleton. naive_solver. }
  assert (∀ o n l sel, concerned ((o, n) :: l) sel ↔ concerned [(o, n)] sel ∨ concerned l sel) as Hsplit.
  { intros o n l' sel. rewrite Hone. unfold concerned. setoid_rewrite elem_of_cons. naive_solver. }
  induction l as [|[o n] l IH]; intros acc Ha; cbn [off_ramps fmap list_fmap Curse.connected_chains fst snd].
  { exists acc. split_and!; [done..|]. intros sel. split; [by left|]. by intros [?|(? & ? & ?%not_elem_of_nil & _)]. }
  assert (∀ acc', NoDup acc' → (∀ sel, sel ∈ acc' ↔ sel ∈ acc ∨ concerned [(o, n)] sel) →
    ∃ r, Curse.connected_chains (off_ramps l) acc' = GVal r ∧ NoDup r ∧ ∀ sel, sel ∈ r ↔ sel ∈ acc ∨ concerned ((o, n) :: l) sel) as Hgo.
  { intros acc' Hn Hacc. destruct (IH acc' Hn) as (r & Hr & Hnd & Hin). exists r. split_and!; [done..|].
    intros sel. rewrite Hin, Hsplit, Hacc. tauto. }
  assert (¬ (o ≠ "" ∧ ∃ f, GetSelectorFamily n = Ok f ∧ Curse.IsFamilyRegistered f = true) ∨ n ∈ acc →
    ∀ sel, sel ∈ acc ↔ sel ∈ acc ∨ concerned [(o, n)] sel) as Hskip.
  { intros Hn sel. rewrite Hone. split; [by left|]. intros [?|[-> ?]]; [done|]. by destruct Hn. }
  destruct (decide (o = "")) as [->|Ho]; [apply Hgo; [done|apply Hskip; left; by intros [? _]]|].
  destruct (GetSelectorFamily n) as [f|e] eqn:Hf; [|apply Hgo; [done|apply Hskip; left; by intros (_ & f & ? & _)]].
  destruct (Curse.IsFamilyRegistered f) eqn:Hreg; cbn [negb];
    [|apply Hgo; [done|apply Hskip; left; intros (_ & f' & [= <-] & ?); congruence]].
  destruct (decide (n ∈ acc)) as [Hin|Hin]; apply Hgo; [done|apply Hskip; by right| |].
  - apply NoDup_app. split_and!; [done| |by apply NoDup_singleton]. intros x Hx Hx'%list_elem_of_singleton. congruence.
  - intros sel. rewrite elem_of_app, list_elem_of_singleton, Hone. split; [|tauto]. intros [Hs|Hs]; [by left|right; eauto].
Qed.

(** The chains that a router is connected to, for curses, are exactly the sources of its
    off-ramps whose family is known and registered, an off-ramp without address aside; each
    is listed once. *)
Theorem connected_chains_exact l : ∃ r, Curse.connected_chains (off_ramps l) [] = GVal r ∧ NoDup r ∧
  ∀ sel, sel ∈ r ↔ concerned l sel.
Proof.
  destruct (connected_from l [] NoDup_nil_2) as (r & Hr & Hn & Hin). exists r. split_and!; [done..|].
  intros sel. rewrite Hin. split; [|by right]. by intros [?%not_elem_of_nil|].
Qed.
End connected.

(** ** Fees *)

Section fees.
Context {ST : SdkTypes} {SD : Sdk} {UT : UnicodeTables} {XS : XdrSdk} {HF : HostFunctions}
  {MS : MetaSdk} {RS : RpcSdk} {FC : FloatConv} {DS : DeployerSdk}.
Context (enumerate : list string → list string) {W : Type} {HO : Host W rollout_ext}.
(** Any orders in which Go ranges over the maps. *)
Context (dests : list Z → list Z) (tokens : Z → list string → list string).
Context (Hdests : ∀ l, dests l ≡ₚ l) (Htokens : ∀ sel l, tokens sel l ≡ₚ l).

(** The settings, one by one, the missing ones left out. *)
Definition fee_entries (settings : gmap Z (gmap string (option Fees.TokenTransferFeeArgs)))
  : list (Z * string * Fees.TokenTransferFeeArgs) :=
  '(sel, m) ← map_to_list settings; omap (λ '(token, args), pair (sel, token) <$> args) (map_to_list m).
Definition fee_entry (e : Z * string * Fees.TokenTransferFeeArgs) : value :=
  let '(sel, token, a) := e in
  VStruct [VStruct [VNum (Fees.DestBytesOverhead a); VNum (Fees.ttDestGasOverhead a); VNum (Fees.MinFeeUSDCents a);
                    VBool (Fees.ttIsEnabled a)]; VNum sel; VString token].

Lemma bind_pointwise {A B} (f g : A → list B) l : (∀ x, x ∈ l → f x ≡ₚ g x) → l ≫= f ≡ₚ l ≫= g.
Proof.
  induction l as [|x l IH]; intros H; [done|]. rewrite !bind_cons. apply Permutation_app; [apply H; left|].
  apply IH. intros y Hy. apply H. by right.
Qed.
Lemma fmap_bind_in {A B C} (h : B → C) (f : A → list B) l : h <$> (l ≫= f) = l ≫= (λ x, h <$> f x).
Proof. induction l as [|x l IH]; [done|]. by rewrite !bind_cons, fmap_app, IH. Qed.
Lemma omap_fst {K A B C} (g : K → option C) (h : B → C) (k : K * A → option B) (l : list (K * A)) :
  (∀ x, x ∈ l → g (fst x) = h <$> k x) → omap g (fst <$> l) = h <$> omap k l.
Proof.
  induction l as [|x l IH]; intros H; [done|]. cbn. rewrite (H x) by left. rewrite IH by (intros y Hy; apply H; by right).
  by destruct (k x).
Qed.
Lemma token_configs settings : Fees.token_fee_configs dests tokens settings ≡ₚ fee_entry <$> fee_entries settings.
Proof.
  unfold Fees.token_fee_configs. rewrite Hdests, list_fmap_bind. unfold fee_entries. rewrite fmap_bind_in.
  apply bind_pointwise. intros [sel m] Hm%elem_of_map_to_list. cbn [compose fst]. rewrite Hm. cbn [default].
  rewrite Htokens. erewrite omap_fst; [done|]. intros [t o] Ht%elem_of_map_to_list. cbn [fst]. rewrite Ht. by destruct o.
Qed.

(** The entries are the settings that are not nil. *)
Lemma fee_entries_exact settings sel t a : (sel, t, a) ∈ fee_entries settings ↔
  ∃ m, settings !! sel = Some m ∧ m !! t = Some (Some a).
Proof.
  unfold fee_entries. rewrite list_elem_of_bind. split.
  - intros ([sel' m] & Hin & Hm%elem_of_map_to_list). apply list_elem_of_omap in Hin as ([t' o] & Ho%elem_of_map_to_list & He).
    destruct o as [a'|]; [|done]. injection He as -> -> ->. by exists m.
  - intros (m & Hm & Ht). exists (sel, m). split; [|by apply elem_of_map_to_list].
    apply list_elem_of_omap. exists (t, Some a). split; [by apply elem_of_map_to_list|done].
Qed.

(** A destination's configuration, narrowed to the widths of the contract. *)
Definition dest_entry (p : Z * Fees.FeeQuoterDestChainConfig) : option value :=
  let '(sel, cfg) := p in
  (λ premium, VStruct [VStruct [VNum (Fees.DefaultTokenDestGasOverhead cfg); VNum (uint32 (Fees.DefaultTokenFeeUSDCents cfg));
     VNum (Fees.DefaultTxGasLimit cfg); VNum (Fees.dccDestGasOverhead cfg); VNum (uint32 (Fees.DestGasPerPayloadByteBase cfg));
     VBool (Fees.dccIsEnabled cfg); VNum (uint32 premium); VNum (Fees.MaxDataBytes cfg); VNum (Fees.MaxPerMsgGasLimit cfg);
     VNum (uint32 (Fees.NetworkFeeUSDCents cfg))]; VNum sel]) <$> Fees.LinkFeeMultiplierPercent cfg.
Lemma dest_entry_is sel cfg : dest_entry (sel, cfg) = match Fees.dest_chain_config sel cfg with GVal v => Some v | _ => None end.
Proof. unfold dest_entry, Fees.dest_chain_config. by destruct (Fees.LinkFeeMultiplierPercent cfg). Qed.
Lemma dest_configs settings : (∀ sel cfg, settings !! sel = Some cfg → is_Some (Fees.LinkFeeMultiplierPercent cfg)) →
  ∃ l, Fees.dest_chain_configs dests settings = GVal l ∧ l ≡ₚ omap dest_entry (map_to_list settings).
Proof.
  intros Hs. unfold Fees.dest_chain_configs.
  assert (∀ sel, sel ∈ dests (fst <$> map_to_list settings) → ∃ cfg v, settings !! sel = Some cfg ∧
    Fees.dest_chain_config sel cfg = GVal v) as Hin.
  { intros sel Hi. rewrite Hdests, list_elem_of_fmap in Hi. destruct Hi as ([sel' cfg] & -> & Hc%elem_of_map_to_list).
    exists cfg. destruct (Hs _ _ Hc) as [p Hp]. cbn [fst]. unfold Fees.dest_chain_config. rewrite Hp. by eexists. }
  exists (omap (λ sel, settings !! sel ≫= λ cfg, dest_entry (sel, cfg)) (dests (fst <$> map_to_list settings))). split.
  - revert Hin. generalize (dests (fst <$> map_to_list settings)). intros l. unfold gimapM. generalize 0%nat.
    induction l as [|sel l IH]; intros n Hin; [done|]. destruct (Hin sel) as (cfg & v & Hc & Hv); [left|].
    cbn [gimapM_from omap list_omap]. rewrite Hc. cbn [mbind option_bind]. rewrite dest_entry_is, Hv.
    cbn [mbind gres_bind]. rewrite IH by (intros sel' Hi; apply Hin; by right). done.
  - rewrite Hdests. erewrite (omap_fst _ id dest_entry); [by rewrite list_fmap_id|].
    intros [sel cfg] Hc%elem_of_map_to_list. cbn [fst]. rewrite Hc. change (dest_entry (sel, cfg) = id <$> dest_entry (sel, cfg)). by destruct (dest_entry (sel, cfg)).
Qed.

(** One operation, or none when there is nothing to set. *)
Definition sent (id : string) (inp : list value → list value) (l : list value) (r : gres OnChainOutput) (h : hist) : Prop :=
  (l = [] ∧ h = [] ∧ r = GVal (mkOnChainOutput [] [])) ∨
  l ≠ [] ∧ ∃ l' out, l' ≡ₚ l ∧ h = [answered (Execute id (inp l')) out] ∧
    match out with Ok _ => r = GVal (mkOnChainOutput [] []) | Err _ => ∃ e, r = GErr e end.
Lemma sends ctx (op : Operation W rollout_ext) deps inp l l' w : l' ≡ₚ l →
  total answers (match l' with
    | [] => Ret (GVal (mkOnChainOutput [] []))
    | v :: vs => _ <-? gctx ctx (ExecuteOperation op deps (inp (v :: vs))); Ret (GVal (mkOnChainOutput [] []))
    end) w [] (λ r w' h, w' = w ∧ sent (opID op) inp l r h).
Proof.
  intros Hl. destruct l' as [|v l'].
  - apply Permutation_nil_l in Hl as <-. split; [done|]. by left.
  - intros out _. assert (l ≠ []) as Hn by (intros ->; by apply Permutation_nil_r in Hl).
    destruct out as [out|e]; (split; [done|]); right; (split; [done|]); exists (v :: l'); eexists; (split; [done|]); (split; [done|]).
    + done.
    + by eexists.
Qed.

(** C27. Whatever the order of Go's maps, the sequences that set token fees and destination
    configurations send the FeeQuoter one operation with exactly the settings given (for the
    tokens, those that are not nil), each for its destination and its token, or none when
    there are none; they fail only with it. *)
Theorem fees_exact chains fq w deps :
  (∀ inp, Fees.chain_deps Fees.not_found chains (Fees.ttSelector inp) = GVal deps →
    total answers (seqHandler (Fees.StellarSetTokenTransferFee enumerate dests tokens) chains (inp, fq)) w []
      (λ r w' h, w' = w ∧ sent "fee-quoter:apply-token-fee-configs" (λ l, [VString fq; VSlice l; VSlice []])
         (fee_entry <$> fee_entries (Fees.ttSettings inp)) r h)) ∧
  (∀ inp, Fees.chain_deps Fees.not_found chains (Fees.dccSelector inp) = GVal deps →
    (∀ sel cfg, Fees.dccSettings inp !! sel = Some cfg → is_Some (Fees.LinkFeeMultiplierPercent cfg)) →
    total answers (seqHandler (Fees.StellarApplyDestChainConfig enumerate dests) chains (inp, fq)) w []
      (λ r w' h, w' = w ∧ sent "fee-quoter:apply-dest-chain-configs" (λ l, [VString fq; VSlice l])
         (omap dest_entry (map_to_list (Fees.dccSettings inp))) r h)).
Proof.
  split.
  - intros inp Hd. unfold Fees.StellarSetTokenTransferFee. cbn [seqHandler]. rewrite Hd.
    exact (sends _ (fee_quoter_ApplyTokenFeeConfigs enumerate) deps (λ l, [VString fq; VSlice l; VSlice []]) _ _ w
      (token_configs (Fees.ttSettings inp))).
  - intros inp Hd Hs. unfold Fees.StellarApplyDestChainConfig. cbn [seqHandler]. rewrite Hd.
    destruct (dest_configs _ Hs) as (l & Hl & Hp).
    change (gthen (Ret (GVal deps)) ?k) with (k deps). cbv beta. rewrite Hl.
    pose proof (λ ctx, sends ctx (fee_quoter_ApplyDestChainConfigs enumerate) deps (λ l, [VString fq; VSlice l]) _ _ w Hp) as Ht.
    destruct l as [|v l]; [apply (Ht "")|apply Ht].
Qed.
End fees.

(** ** Concrete inputs *)

Section demo.
Import DemoCcv.
Let demo_hash : DeployerSdk (H := demo_types) := {|
  Asset := string;
  UploadContractWasm b := "upload";
  CreateContractFromAddress a s h := "create";
  CreateContractFromAsset a := a;
  Payment _ _ := tt;
  NewTimebounds _ max := max;
  Sum256 b := resize 32 x00 b;
  MarshalContractIdPreimage n a := Ok n;
  UnmarshalAccountEntry s := Err "EOF"
|}.
Local Existing Instance demo_hash.
#[export] Instance demo_kind_laws : KindLaws (H := demo_kinds).
Proof. constructor; [intros [] []|intros []]; vm_compute; try (by intros); intuition congruence. Qed.

Definition demo_deps : StellarDeps HostFields rollout_ext :=
  mkStellarDeps (λ _ _, Ret (GErr "no upload"))
    {| Invoke := λ _ _ _, Ret (GErr "offline"); SimulateCall := λ _ _ _, Ret (GErr "offline") |}.
Definition demo_chain : StellarChain := mkStellarChain "testnet" (Some ("GDEPLOYER", true)).
Definition demo_host : result (CCIPDevenvHost HostFields rollout_ext) :=
  host_of demo_deps (gcall LatestLedger) (λ l c u, gcall (CreateToken l c u)) demo_chain
    "http://friendbot".
Definition demo_mock : string := match MustGenerateMockContractID "GDEPLOYER" "fee-token" with GVal m => m | _ => "" end.
Definition demo_executor (h : CCIPDevenvHost HostFields rollout_ext) : string :=
  default "" (match ScVal.HexToContractStrkey (contractHexAddr h "stellar-executor-proxy") with Ok e => Some e | Err _ => None end).
Lemma full_deployment_witness : match demo_host with Err _ => False | Ok h =>
  total answers (RunStellarCCIPFullDeploy (λ l, l) (λ _, "") (λ path, call (StatFile path)) (Ok "/repo") (Some demo_deps) (Some h)
    (λ _ l, l) (Some (Some demo_topology)) (mkInnerInput 2 [1; 2; 7] [])) no_fields []
    (good "GDEPLOYER" ["GDEPLOYER"; demo_mock; demo_executor h; ""] (λ out w' hh',
       ∃ ds0, MergeExistingAddressRefs (λ _, "") NewMemoryDataStore [] = Ok ds0 ∧
         deployed 2 "http://friendbot" h demo_mock (demo_executor h) "" ds0 no_fields [] [] out w' hh')) end.
Proof.
  exact (full_deployment (λ l, l) (λ _, "") (Ok "/repo") demo_deps demo_chain "http://friendbot" _ eq_refl
    demo_mock _ "" ltac:(by vm_compute) ltac:(by vm_compute) (λ _ l, l) (Some (Some demo_topology)) (mkInnerInput 2 [1; 2; 7] [])
    no_fields eq_refl).
Defined.

(** A node that deploys the [n]-th contract as the key [n]. *)
Definition demo_answers : oracle (E := rollout_ext) := λ X n e,
  match e in rollout_ext X return X with
  | Execute id _ => Ok (if decide (action id = "deploy") then
      [VString (String "C" (String.string_of_list_byte (resize 32 x00 (String.list_byte_of_string (pretty n)))))] else [])
  | StatFile _ => RegularFile
  | LatestLedger => Ok 100
  | CreateToken _ code _ => Ok code
  end.
Lemma rollout_demo_sane X n (e : rollout_ext X) : answers X e (demo_answers X n e).
Proof.
  destruct e as [id inp|path| |label code u]; [|done..]. intros Ha out [= <-]. rewrite decide_True by done.
  eexists. split; [done|]. eexists. by split; [apply length_resize|].
Qed.
(** The deployment with its pools, and the names of what was deployed. *)
Definition demo_committee : NOPTopology :=
  mkNOPTopology {["a" := {["1" := mkChainCommitteeConfig ["n1"] 1]}]} (GetNOP demo_topology).
Definition demo_program (h : CCIPDevenvHost HostFields rollout_ext) : prog HostFields rollout_ext (gres OnChainOutput) :=
  out <-? RunStellarCCIPFullDeploy (λ l, l) (λ _, "") (λ path, call (StatFile path)) (Ok "/repo") (Some demo_deps) (Some h)
    (λ _ l, l) (Some (Some demo_committee)) (mkInnerInput 2 [1] []);
  _ <-? DeployLockReleaseTestTokenPool (λ l, l) (λ path, call (StatFile path)) (Ok "/repo") h; Ret (GVal out).
Definition succeeds (r : outcome (gres OnChainOutput) * hist * HostFields) : Prop :=
  match r with (Done (GVal _), _, _) => True | _ => False end.
Lemma pools_after_deployment_witness : match demo_host with Err _ => False | Ok h =>
  ∃ out hh w ds0 w1 hh1 r m, hrun demo_answers (demo_program h) 0 no_fields = (Done (GVal out), hh, w) ∧
    deployed 2 "http://friendbot" h demo_mock (demo_executor h) "" ds0 no_fields [] [] out w1 hh1 ∧
    check "GDEPLOYER" ["GDEPLOYER"; demo_mock; demo_executor h; ""] hh1 = Some (mkNet [] r m) ∧
    with_pools "http://friendbot" h demo_mock (demo_executor h) "" w1 r m w hh end.
Proof.
  assert (match demo_host with Err _ => False | Ok h => succeeds (hrun demo_answers (demo_program h) 0 no_fields) end) as Hs
    by by vm_compute.
  destruct demo_host as [h|e] eqn:Eh; [|exact Hs].
  assert (DeployerKeypair h = "GDEPLOYER" ∧ MustGenerateMockContractID "GDEPLOYER" "fee-token" = GVal demo_mock ∧
    ScVal.HexToContractStrkey (contractHexAddr h "stellar-executor-proxy") = Ok (demo_executor h)) as (Ho & Hm & Hx).
  { unfold demo_host, host_of, NewCLDFStellarCCIPDevenvHost in Eh. cbn [ChainSigner demo_chain] in Eh. injection Eh as <-.
    split; [done|]. split; by vm_compute. }
  rewrite <- Ho in Hm.
  pose proof (pools_after_deployment (λ l, l) (λ _, "") (Ok "/repo") demo_deps demo_chain "http://friendbot" h Eh
    demo_mock (demo_executor h) "" Hm Hx (λ _ l, l) (Some (Some demo_committee)) (mkInnerInput 2 [1] []) no_fields eq_refl) as Ht.
  apply (total_hrun answers _ demo_answers 0) in Ht; [|exact rollout_demo_sane]. destruct Ht as (o & hh & w & Hr & HQ).
  unfold demo_program in *. rewrite Hr in Hs |- *. destruct o as [out|e|e]; [|done..].
  destruct HQ as (ds0 & w1 & hh1 & r & m & H1 & H2 & H3). rewrite Ho in H2.
  exists out, hh, w, ds0, w1, hh1, r, m. by split_and!.
Defined.
End demo.

(** *** A concrete bundle *)

Section demo_curses.
Import DemoXdr Demo TypeConvertersProps DeployerProps RmnRemote.

Definition no_calls (X : Type) : Type := Empty_set.
Record DemoBundle := mkDemoBundle {
  demo_rmns : gmap string Rmn;
  demo_bundle_reports : gmap (string * list (list string)) (list value)
}.
(** Inputs of texts and of lists of bytes are recorded. *)
Definition bytes_of (v : value) : option string := match v with VBytes b => Some (subject b) | _ => None end.
Definition key_of (v : value) : option (list string) :=
  match v with VString s => Some ["text"; s] | VSlice l => cons "list" <$> mapM bytes_of l | _ => None end.
Lemma mapM_injective {A B} (f : A → option B) : (∀ a a' b, f a = Some b → f a' = Some b → a = a') →
  ∀ x y l, mapM f x = Some l → mapM f y = Some l → x = y.
Proof.
  intros Hf x y l Hx%mapM_Some Hy%mapM_Some. revert y Hy. induction Hx as [|a b x l Ha _ IH]; intros y Hy; inversion Hy; subst; [done|].
  f_equal; eauto.
Qed.
Lemma key_of_inj v v' k : key_of v = Some k → key_of v' = Some k → v = v'.
Proof.
  destruct v as [| |s| | | |l| | |], v' as [| |s'| | | |l'| | |]; cbn; try done; try congruence.
  - intros [= <-] H. destruct (mapM bytes_of l'); [done|discriminate].
  - intros H [= <-]. destruct (mapM bytes_of l); [done|discriminate].
  - destruct (mapM bytes_of l) as [x|] eqn:H1; [|done]. destruct (mapM bytes_of l') as [x'|] eqn:H2; [|done].
    cbn. intros [= <-] [= ->]. f_equal. eapply mapM_injective; [|exact H1|exact H2].
    intros [] [] t; cbn; try done. intros [= <-] [= E]. f_equal. by symmetry; apply subject_inj.
Qed.
Definition demo_reported (w : DemoBundle) (id : string) (inp : list value) : option (list value) :=
  k ← mapM key_of inp; demo_bundle_reports w !! (id, k).
Local Instance demo_bundle_cldf : Cldf DemoBundle no_calls := {|
  ExecuteOperation := λ op deps inp,
    known ← gets (λ w, demo_reported w (opID op) inp);
    match known with
    | Some out => Ret (GVal out)
    | None =>
        r ← opHandler op deps inp;
        match r, mapM key_of inp with
        | GVal out, Some k =>
            _ ← modify (λ w, mkDemoBundle (demo_rmns w) (<[(opID op, k) := out]> (demo_bundle_reports w)));
            Ret (GVal out)
        | GVal out, None => Ret (GErr "not serializable")
        | GErr e, _ => Ret (GErr e)
        | GPanic m, _ => Ret (GPanic m)
        end
    end;
  ExecuteSequence := λ I O s chains inp, seqHandler s chains inp;
  NewBatchOperationFromWrites := λ wos, GErr "no writes"
|}.
Definition demo_curser : string := String "G" (String.string_of_list_byte key2).
Local Instance demo_bundle_host : Host DemoBundle no_calls := λ _ _,
  mkStellarDeps (λ _ _, Ret (GErr "no upload"))
    {| Invoke := λ c f args, atomic (λ w,
         match RmnRemote.invoke (only demo_curser) (demo_rmns w) c f args with
         | Some L => (GVal None, mkDemoBundle L (demo_bundle_reports w))
         | None => (GErr "transaction failed", w)
         end);
       SimulateCall := λ c f args, Ret (GErr "no simulation") |}.
Local Instance demo_curse_world : CurseWorld (W := DemoBundle) (E := no_calls) :=
  {| rmns := demo_rmns; curse_reports := demo_reported; curse_answers := λ _ _ _, True |}.
Definition demo_curser_deployer : Deployer.Deployer * Deployer.DeployerState :=
  Deployer.NewDeployer "test network" demo_curser [].
#[local] Instance demo_curse_laws : CurseWorldLaws (fst demo_curser_deployer) (snd demo_curser_deployer).
Proof.
  constructor.
  - intros c f args w _. cbn. by destruct (RmnRemote.invoke _ _ _ _ _) eqn:Hi; cbn; rewrite ?Hi; auto.
  - intros op inp out w. cbn. intros ->. by cbn.
  - intros op inp w P. cbn. intros -> HP. cbn.
    eapply returns_seq; [exact HP|]. intros [out|e|m] w0 H0; cbn.
    + destruct (mapM key_of inp) as [k|] eqn:Hk; cbn.
      * exists (GVal out), w0. split_and!; [done..| |].
        -- unfold demo_reported. rewrite Hk. cbn. by rewrite lookup_insert_eq.
        -- intros i x Hne. unfold demo_reported. destruct (mapM key_of x) as [k'|] eqn:Hk'; [|done]. cbn.
           rewrite lookup_insert_ne; [done|]. intros [= <- <-]. apply Hne. f_equal.
           eapply mapM_injective; [exact key_of_inj|exact Hk'|exact Hk].
      * by exists (GVal out), w0.
    + by exists (GErr e), w0.
    + by exists (GPanic m), w0.
Qed.

Definition demo_rmn : Rmn := mkRmn true (Ownable.mkOwnable (Some demo_curser) None) (Some ∅) (Some []).
Definition demo_subjects : list bytes := [replicate 16 x05; GLOBAL_CURSE_SUBJECT].
Lemma rmn_curses_exact_witness :
  (∃ ev, curse (only demo_curser) demo_curser demo_subjects demo_rmn = Ok (set_cursed (∅ ∪ texts demo_subjects) demo_rmn, ev)) ∧
  ∃ e, uncurse (only demo_curser) demo_subjects demo_rmn = Err e.
Proof.
  destruct (rmn_curses_exact (only demo_curser) demo_rmn ∅ eq_refl eq_refl) as (H1 & _ & _ & H4). split.
  - destruct (H1 demo_curser demo_subjects) as (ev & H & _); [|by exists ev].
    split; [by apply bool_decide_eq_true_2|by left].
  - apply H4. intros (_ & _ & Hsub). specialize (Hsub (subject GLOBAL_CURSE_SUBJECT)).
    apply (not_elem_of_empty (C := gset string) (subject GLOBAL_CURSE_SUBJECT)), Hsub. unfold texts, demo_subjects. set_solver.
Defined.

Lemma demo_curser_strkey : is_strkey demo_curser.
Proof. by exists VersionByteAccountID, key2. Qed.
Definition demo_bundle : DemoBundle := mkDemoBundle {[ "CRMN" := demo_rmn ]} ∅.
Definition demo_curse_chains : BlockChains := {[ 5 := mkStellarChain "test network" (Some (demo_curser, true)) ]}.
Definition demo_curse_input : Curse.CurseInput := Curse.mkCurseInput 5 demo_subjects.
(** Each of the three returns success, and no subject is cursed at the end. *)
Definition demo_thrice : prog DemoBundle no_calls (gres OnChainOutput) :=
  _ <-? seqHandler (Curse.StellarCurse (λ l, l)) demo_curse_chains (demo_curse_input, "CRMN");
  _ <-? seqHandler (Curse.StellarUncurse (λ l, l)) demo_curse_chains (demo_curse_input, "CRMN");
  seqHandler (Curse.StellarCurse (λ l, l)) demo_curse_chains (demo_curse_input, "CRMN").
Definition no_answer : oracle (E := no_calls) := λ X n e, match e with end.
Lemma repeated_curse_is_lost_witness : ∃ out h w, hrun no_answer demo_thrice 0 demo_bundle = (Done (GVal out), h, w) ∧
  none_cursed demo_curse_input "CRMN" w.
Proof.
  destruct (repeated_curse_is_lost (λ l, l) (fst demo_curser_deployer) (snd demo_curser_deployer) demo_curse_chains demo_curse_input
    "CRMN" (mkStellarChain "test network" (Some (demo_curser, true))) (lookup_singleton_eq _ _) eq_refl
    demo_curser_strkey) with (w := demo_bundle) as [_ H];
    [by repeat constructor|done|done|].
  apply (returns_hrun curse_answers _ no_answer 0) in H; [|done]. destruct H as (r & h & w & Hr & H).
  assert (match fst (fst (hrun no_answer demo_thrice 0 demo_bundle)) with Done (GVal _) => True | _ => False end) as Hs by by vm_compute.
  unfold demo_thrice in *. rewrite Hr in Hs |- *. destruct r as [out|e|m]; [|destruct Hs..].
  exists out, h, w. split; [exact eq_refl|exact H].
Defined.
End demo_curses.

Section demo_fees.
Import DemoXdr Demo TypeConvertersProps DeployerProps.
Local Instance demo_fee_host : Host unit rollout_ext := λ _ _,
  mkStellarDeps (λ _ _, Ret (GErr "no upload"))
    {| Invoke := λ c f args, Ret (GErr "offline"); SimulateCall := λ c f args, Ret (GErr "offline") |}.
Definition demo_fee_chains : BlockChains := {[ 5 := mkStellarChain "test network" (Some ("GDEPLOYER", true)) ]}.
(** A token for the chain 9, and one whose settings are missing. *)
Definition demo_fees : Fees.SetTokenTransferFeeInput := Fees.mkSetTokenTransferFeeInput 5
  {[ 9 := {[ "CTOKEN" := Some Fees.GetDefaultTokenTransferFeeConfig; "COTHER" := None ]} ]}.
Definition demo_dests : Fees.ApplyDestChainConfigInput :=
  Fees.mkApplyDestChainConfigInput 5 {[ 9 := Fees.GetDefaultDestChainConfig ]}.
Lemma fees_exact_witness :
  total answers (seqHandler (Fees.StellarSetTokenTransferFee (λ l, l) reverse (λ _, reverse)) demo_fee_chains (demo_fees, "CFQ")) tt []
    (λ r w' h, w' = tt ∧ sent "fee-quoter:apply-token-fee-configs" (λ l, [VString "CFQ"; VSlice l; VSlice []])
       [fee_entry (9, "CTOKEN", Fees.GetDefaultTokenTransferFeeConfig)] r h) ∧
  total answers (seqHandler (Fees.StellarApplyDestChainConfig (λ l, l) reverse) demo_fee_chains (demo_dests, "CFQ")) tt []
    (λ r w' h, w' = tt ∧ sent "fee-quoter:apply-dest-chain-configs" (λ l, [VString "CFQ"; VSlice l])
       (omap dest_entry [(9, Fees.GetDefaultDestChainConfig)]) r h).
Proof.
  destruct (fees_exact (λ l, l) reverse (λ _, reverse) reverse_Permutation (λ _, reverse_Permutation) demo_fee_chains "CFQ" tt
    (host (Deployer.mkDeployerState 0 ∅ 1%positive) (FromDeployer (fst (Deployer.NewDeployer "test network" "GDEPLOYER" []))))) as [H1 H2].
  split.
  - apply (H1 demo_fees). done.
  - apply (H2 demo_dests); [done|]. intros sel cfg Hc. cbn in Hc. apply lookup_singleton_Some in Hc as [_ <-]. by eexists.
Defined.
End demo_fees.
End RolloutProps.
