(* ===== verification/CcvChain.v ===== *)
(** The development environment's chain ([ccv/chain]): an object that holds the contracts of
    one Stellar chain, is filled by a deployment or from a datastore
    ([stellar_ccip_host.go], [impl_factory.go]), connects the chain to others ([chain.go],
    [evm_stellar_token_transfer.go]), and sends, confirms and executes messages
    ([composable.go], [chain.go]). *)

From Stdlib Require Import Ascii.
From Stdlib Require Import Strings.Byte.
From Stdlib Require Strings.String.
From stdpp Require Import base gmap list strings pretty sorting.
From S2P Require Import RouterClient OnRampClient OffRampClient FeeQuoterClient TokenPoolClient.
From S2P Require Import Prelude GoStrings Prog Sdk Xdr ScVal GoBytes TypeConverters InvokerAdapter Ccv.
From S2P Require Import Codec Client Float Deployer Accessors ExtraArgs Operations Ownership Mcms Lanes Rollout.
Import Xdr CcvCommon Operations Ownership.Ownership StellarUtil Lanes.Lanes.

Local Open Scope Z_scope.

(** Key pairs by the address of the key, classic assets, and errors of the environment. *)
Class DevenvSdk `{DeployerSdk} := {
  FromRawSeed : bytes → result string;
  CreditAssetXDR : string → string → result Asset;
  ErrInsufficientNativeBalance : string
}.

(** What the tooling of EVM chains offers: addresses, and operations on a pool of a chain. *)
Record EvmChainUpdate := mkEvmChainUpdate {
  evmRemoteChainSelector : Z;
  evmRemotePoolAddresses : list bytes;
  evmRemoteTokenAddress : bytes;
  evmOutboundLimit : bool * Z * Z;
  evmInboundLimit : bool * Z * Z
}.
Class EvmTooling (W : Type) (E : Type → Type) := {
  IsHexAddress : string → bool;
  HexToAddress : string → bytes;
  AddressHex : bytes → string;
  evmtar_ContractType : string;
  GetSupportedChains : Z → bytes → prog W E (gres (list Z));
  GetRemotePools : Z → bytes → Z → prog W E (gres (list bytes));
  GetRemoteToken : Z → bytes → Z → prog W E (gres bytes);
  ApplyChainUpdates : Z → bytes → list EvmChainUpdate → prog W E (gres unit);
  RegisterToken : Z → bytes → bytes → bytes → prog W E (gres unit)
}.

(** A program over one set of calls, run in a world where each of them is a program. *)
Fixpoint embed {W : Type} {E F : Type → Type} {A} (h : ∀ X, F X → prog W E X) (p : prog unit F A) : prog W E A :=
  match p with
  | Ret a => Ret a
  | Panic m => Panic m
  | Step f k => embed h (k (fst (f tt)))
  | Block f k =>
      match f tt with
      | Some (x, _) => embed h (k x)
      | None => Block (λ _, None) (λ x : Empty_set, match x with end)
      end
  | Call e k => x ← h _ e; embed h (k x)
  end.

Module CcvChain.

(** ** [type Chain] *)

(** The fields that are written after the chain has its deployer: ids of contracts, and
    clients, a client by the id of its contract. The issuers' key pairs are not read. *)
Inductive chain_id :=
| onRampContractID | offRampContractID | routerContractID | rampRegistryContractID | vvrContractID | cvContractID
| receiverContractID | rmnProxyContractID | rmnRemoteContractID | tokenAdminRegistryContractID | tokenPoolContractID
| legacyLockReleasePoolID | tokenLockBoxContractID | testTokenContractID | feeTokenContractID.
Inductive chain_client :=
| onRampClient | offRampClient | routerClient | feeQuoterClient | rmnProxyClient | tokenAdminRegistryClient
| tokenPoolClient.
#[export] Instance chain_id_eq_dec : EqDecision chain_id.
Proof. solve_decision. Defined.
#[export] Instance chain_client_eq_dec : EqDecision chain_client.
Proof. solve_decision. Defined.
Record ChainFields := mkChainFields {
  id_of : chain_id → string;
  client_of : chain_client → option string
}.
Definition no_fields : ChainFields := mkChainFields (λ _, "") (λ _, None).
Definition set_id (f : chain_id) (x : string) (s : ChainFields) : ChainFields :=
  mkChainFields (λ g, if decide (g = f) then x else id_of s g) (client_of s).
Definition set_client (k : chain_client) (x : string) (s : ChainFields) : ChainFields :=
  mkChainFields (id_of s) (λ g, if decide (g = k) then Some x else client_of s g).
Definition set_both (f : chain_id) (k : chain_client) (x : string) : ChainFields → ChainFields :=
  set_client k x ∘ set_id f x.

(** The deployer of the chain, by what is called of it, and the fields that are set once. *)
Record ChainDeployer (W : Type) (E : Type → Type) := mkChainDeployer {
  chainDeps : StellarDeps W E;
  NativeAccountState : bytes → prog W E (gres (Z * Z * bool));
  SendNativePayment : string → Z → prog W E (gres unit)
}.
Arguments mkChainDeployer {W E}.
Arguments chainDeps {W E} c.
Arguments NativeAccountState {W E} c _.
Arguments SendNativePayment {W E} c _ _.
Record Chain (W : Type) (E : Type → Type) := mkChain {
  chainSelector : Z;
  networkPassphrase : string;
  deployerKeypair : option string;
  deployer : option (ChainDeployer W E);
  rpcClient : option (prog W E (gres Z));
  friendbotURL : string
}.
Arguments mkChain {W E}.
Arguments chainSelector {W E} c.
Arguments networkPassphrase {W E} c.
Arguments deployerKeypair {W E} c.
Arguments deployer {W E} c.
Arguments rpcClient {W E} c.
Arguments friendbotURL {W E} c.
(** [New]. *)
Definition New {W : Type} {E : Type → Type} (selector : Z) : Chain W E := mkChain selector "" None None None "".

Definition nil_pointer : string := "invalid memory address or nil pointer dereference".

(** ** [evm_stellar_token_transfer.go]: the choice of a pool *)

Definition evmBurnMintTokenPoolType : string := "BurnMintTokenPool".
Definition remotePoolContractTypes : list string := ["BurnMintTokenPool"; "LockReleaseTokenPool"].
Definition remoteTokenContractTypes : list string :=
  ["BurnMintERC20WithDripToken"; "BurnMintERC20WithDrip"; "BurnMintERC20Token"].

(** [strings.Contains]. *)
Definition Contains (s substr : string) : bool :=
  match String.index 0 substr s with Some _ => true | None => false end.
Definition evmStellarPoolPreference (ref : AddressRef) : Z :=
  let q := refQualifier ref in
  if Contains q "BurnMintTokenPool" && Contains q "to LockReleaseTokenPool" then 0
  else if HasPrefix q DevenvTestTokenPoolQualifier then 1
  else 2.
Definition versionString (v : option string) : string := default "" v.
Definition compareEVMStellarPoolRefs (a b : AddressRef) : Z :=
  let pa := evmStellarPoolPreference a in let pb := evmStellarPoolPreference b in
  if negb (pa =? pb) then if pa <? pb then -1 else 1
  else
    let av := versionString (refVersion a) in let bv := versionString (refVersion b) in
    if negb (bool_decide (av = bv)) then if String.ltb av bv then -1 else 1
    else if negb (bool_decide (refQualifier a = refQualifier b))
         then if String.ltb (refQualifier a) (refQualifier b) then -1 else 1
    else if String.ltb (refAddress a) (refAddress b) then -1
    else if String.ltb (refAddress b) (refAddress a) then 1
    else 0.
(** The stable sort by [compareEVMStellarPoolRefs(a, b) < 0]: [b] goes before an earlier [a]
    only when it is less. *)
Definition pool_le (a b : AddressRef) : Prop := ¬ compareEVMStellarPoolRefs b a < 0.
#[export] Instance pool_le_dec : RelDecision pool_le.
Proof. intros a b. unfold pool_le. apply _. Defined.

Definition is_evm_pool (chainSelector : Z) (ref : AddressRef) : bool :=
  (refChainSelector ref =? chainSelector) && bool_decide (refType ref = evmBurnMintTokenPoolType).
Definition is_token (chainSelector : Z) (qualifier tokenType : string) (ref : AddressRef) : bool :=
  (refChainSelector ref =? chainSelector) && bool_decide (refType ref = tokenType) &&
  bool_decide (refQualifier ref = qualifier).
Fixpoint find_token (refs : list AddressRef) (chainSelector : Z) (qualifier : string) (types : list string)
  : option AddressRef :=
  match types with
  | [] => None
  | tokenType :: types' =>
      match find (is_token chainSelector qualifier tokenType) refs with
      | Some ref => Some ref
      | None => find_token refs chainSelector qualifier types'
      end
  end.
Definition findEVMTokenForPool (refs : list AddressRef) (chainSelector : Z) (qualifier : string) : option AddressRef :=
  find_token refs chainSelector qualifier remoteTokenContractTypes.
Fixpoint first_with_token (refs : list AddressRef) (chainSelector : Z) (pools : list AddressRef)
  : option (AddressRef * AddressRef) :=
  match pools with
  | [] => None
  | candidate :: pools' =>
      match findEVMTokenForPool refs chainSelector (refQualifier candidate) with
      | Some token => Some (candidate, token)
      | None => first_with_token refs chainSelector pools'
      end
  end.
Definition ResolveEVMTokenPoolForStellar (refs : list AddressRef) (chainSelector : Z) : option (AddressRef * AddressRef) :=
  first_with_token refs chainSelector (merge_sort pool_le (List.filter (is_evm_pool chainSelector) refs)).

Section chain.
Context {ST : SdkTypes} {SD : Sdk} {UT : UnicodeTables} {XS : XdrSdk} {HF : HostFunctions}
  {MS : MetaSdk} {RS : RpcSdk} {FC : FloatConv} {DS : DeployerSdk} {LS : LaneSdk} {AS : AccessorSdk}
  {DT : Datastore} {CK : ContractKinds} {SB : ScValBinary} {CP : CcvProtocol} {DV : DevenvSdk}.
(** The order in which Go ranges over the fields of a generated type, by their names. *)
Context (enumerate : list string → list string).

(** ** The profiles of the chain ([chain.go]) *)

(** [lanes.FeeQuoterDestChainConfig] and [lanes.ChainDefinition], the fields that are written. *)
Record FeeQuoterV2Params := mkFeeQuoterV2Params { v2LinkFeeMultiplierPercent : Z; v2USDPerUnitGas : Z }.
Record FeeQuoterDestChainConfig := mkFeeQuoterDestChainConfig {
  fqIsEnabled : bool;
  fqMaxDataBytes : Z;
  fqMaxPerMsgGasLimit : Z;
  fqDestGasOverhead : Z;
  fqDefaultTokenFeeUSDCents : Z;
  fqDestGasPerPayloadByteBase : Z;
  fqDefaultTokenDestGasOverhead : Z;
  fqDefaultTxGasLimit : Z;
  fqNetworkFeeUSDCents : Z;
  fqChainFamilySelector : Z;
  fqV2Params : option FeeQuoterV2Params
}.
Definition stellarFeeQuoterDestChainConfigOverride (cfg : FeeQuoterDestChainConfig) : FeeQuoterDestChainConfig :=
  mkFeeQuoterDestChainConfig true 30000 3000000 300000 25 16 90000 200000 10 (SetBytes stellarFeeQuoterChainFamilySelector)
    (Some (mkFeeQuoterV2Params 90 1000000)).
Record ChainDefinition := mkChainDefinition {
  cdSelector : Z;
  cdAddressBytesLength : Z;
  cdBaseExecutionGasCost : Z;
  cdFeeQuoterOverrides : FeeQuoterDestChainConfig → FeeQuoterDestChainConfig;
  cdDefaultInboundCCVs : list AddressRef;
  cdDefaultOutboundCCVs : list AddressRef;
  cdDefaultExecutor : AddressRef;
  cdExecutorEnabled : bool
}.
(** With the gas for verification of the committee's configuration. *)
Definition GetConnectionProfile (selector : Z) : ChainDefinition * Z :=
  (mkChainDefinition selector StellarAddressByteLen 100000 stellarFeeQuoterDestChainConfigOverride
     [LaneAddressRef VVRDatastoreRef selector] [LaneAddressRef VVRDatastoreRef selector]
     (LaneAddressRef (ExecutorProxyDatastoreRef DefaultExecutorQualifier) selector) true, 10000).

(** [cciptestinterfaces.ChainLaneProfile]: the overrides are those of the fields given. *)
Record FeeQuoterDestChainConfigOverrides := mkFeeQuoterOverrides {
  foIsEnabled : option bool;
  foMaxDataBytes : option Z;
  foMaxPerMsgGasLimit : option Z;
  foDestGasPerPayloadByteBase : option Z;
  foDefaultTokenFeeUSDCents : option Z;
  foDefaultTokenDestGasOverhead : option Z;
  foDefaultTxGasLimit : option Z;
  foNetworkFeeUSDCents : option Z;
  foLinkFeeMultiplierPercent : option Z;
  foUSDPerUnitGas : option Z
}.
Record ChainLaneProfile := mkChainLaneProfile {
  lpBaseExecutionGasCost : option Z;
  lpFeeQuoterDestChainConfig : FeeQuoterDestChainConfigOverrides;
  lpExecutorUSDCentsFee : Z;
  lpExecutorEnabled : bool;
  lpDefaultExecutorQualifier : string;
  lpDefaultInboundCCVs : list AddressRef;
  lpDefaultOutboundCCVs : list AddressRef;
  lpGasForVerification : option Z
}.
Definition GetChainLaneProfile (selector : Z) : ChainLaneProfile :=
  mkChainLaneProfile (Some 100000)
    (mkFeeQuoterOverrides (Some true) (Some 30000) (Some 3000000) (Some 16) (Some 25) (Some 90000) (Some 200000)
       (Some 10) (Some 90) (Some 1000000))
    0 true DefaultExecutorQualifier [LaneAddressRef VVRDatastoreRef selector] [LaneAddressRef VVRDatastoreRef selector]
    (Some 10000).

(** ** Fee aggregators of the topology ([chain.go]) *)

(** The topology of chainlink-ccv: committees by name (their configuration by selector, or a
    nil map), or a nil topology of operators; and what else it has. *)
Record ccvChainConfig := mkCcvChainConfig { committeeConfig : ChainCommitteeConfig; FeeAggregator : string }.
Context (Rest : Type).
Record EnvironmentTopology := mkEnvironmentTopology {
  NOPCommittees : option (gmap string (option (gmap string ccvChainConfig)));
  topologyRest : Rest
}.
(** [strconv.ParseUint(s, 10, 64)]. *)
Context (ParseUint64 : string → result Z).
Definition DeployerAddressHex (keypair : option string) (unset decoding : string) : result string :=
  match keypair with
  | None => Err unset
  | Some address => HexEncode <$> wrap_err decoding (Decode VersionByteAccountID address)
  end.
Definition stellarFeeAggregatorHexForTopology (keypair : option string) : result string :=
  DeployerAddressHex keypair "deployer keypair not set" "decode deployer account for fee aggregator hex".
Definition evmStyleFallback : string := "0x0000000000000000000000000000000000000001".
(** The keys of the loops are in any order; each turn writes the entry of its key. *)
Definition fill_config (feeAggHex : string) (m : gmap string ccvChainConfig) (chainKey : string) : gmap string ccvChainConfig :=
  match m !! chainKey with
  | None => m
  | Some chainCfg =>
      if decide (FeeAggregator chainCfg ≠ "") then m
      else
        match ParseUint64 chainKey with
        | Err _ => m
        | Ok sel =>
            match GetSelectorFamily sel with
            | Err _ => m
            | Ok fam =>
                if decide (fam = FamilyStellar)
                then <[chainKey := mkCcvChainConfig (committeeConfig chainCfg) feeAggHex]> m
                else m
            end
        end
  end.
Definition fill_committee (order : list string → list string) (feeAggHex : string)
    (m : gmap string (option (gmap string ccvChainConfig))) (name : string)
  : gmap string (option (gmap string ccvChainConfig)) :=
  match m !! name with
  | Some (Some cfgs) => <[name := Some (foldl (fill_config feeAggHex) cfgs (order (fst <$> map_to_list cfgs)))]> m
  | _ => m
  end.
Definition ensureStellarFeeAggregatorsInTopology (order : list string → list string) (keypair : option string)
    (topology : option EnvironmentTopology) : option EnvironmentTopology :=
  match topology with
  | Some (mkEnvironmentTopology (Some committees) rest) =>
      let feeAggHex :=
        match stellarFeeAggregatorHexForTopology keypair with Ok h => h | Err _ => evmStyleFallback end in
      Some (mkEnvironmentTopology
              (Some (foldl (fill_committee order feeAggHex) committees (order (fst <$> map_to_list committees)))) rest)
  | _ => topology
  end.

(** ** The chain from a datastore ([impl_factory.go]) *)

Definition load (r : DatastoreSorobanContractRef) (put : string → ChainFields → ChainFields) (ds : MemoryDataStore)
    (selector : Z) (s : ChainFields) : ChainFields :=
  match ref_LookupAddressRef r ds selector with
  | Err _ => s
  | Ok ref =>
      if decide (refAddress ref = "") then s
      else match ScVal.HexToContractStrkey (refAddress ref) with Ok id => put id s | Err _ => s end
  end.
(** An id that a lookup gives, unless it is empty. *)
Definition found (r : DatastoreSorobanContractRef) (ds : MemoryDataStore) (selector : Z) : option string :=
  match LookupStrkey r ds selector with
  | Ok id => if decide (id = "") then None else Some id
  | Err _ => None
  end.
Definition fill {A} (o : option A) (put : A → ChainFields → ChainFields) (s : ChainFields) : ChainFields :=
  match o with Some a => put a s | None => s end.
(** [hydrateDevenvClientsFromDataStore], on a chain that has a deployer. *)
Definition hydrate_registry (ds : MemoryDataStore) (selector : Z) (s : ChainFields) : ChainFields :=
  match client_of s tokenAdminRegistryClient with
  | None =>
      fill (found TokenAdminRegistryDatastoreRef ds selector) (set_both tokenAdminRegistryContractID tokenAdminRegistryClient) s
  | Some _ => s
  end.
Definition hydrate_fee_quoter (ds : MemoryDataStore) (selector : Z) (s : ChainFields) : ChainFields :=
  match client_of s feeQuoterClient with
  | None => fill (found FeeQuoterDatastoreRef ds selector) (set_client feeQuoterClient) s
  | Some _ => s
  end.
Definition hydrate_router (ds : MemoryDataStore) (selector : Z) (s : ChainFields) : ChainFields :=
  if decide (id_of s routerContractID = "") then
    fill (found RouterDatastoreRef ds selector) (set_both routerContractID routerClient) s
  else
    match client_of s routerClient with
    | None => set_client routerClient (id_of s routerContractID) s
    | Some _ => s
    end.
Definition hydrate_ramp_registry (ds : MemoryDataStore) (selector : Z) (s : ChainFields) : ChainFields :=
  if decide (id_of s rampRegistryContractID = "") then
    fill (found RampRegistryDatastoreRef ds selector) (set_id rampRegistryContractID) s
  else s.
Definition hydrated (ds : MemoryDataStore) (selector : Z) (s : ChainFields) : ChainFields :=
  hydrate_ramp_registry ds selector (hydrate_router ds selector (hydrate_fee_quoter ds selector (hydrate_registry ds selector s))).

Definition loaded (ds : MemoryDataStore) (selector : Z) (s : ChainFields) : ChainFields :=
  let s := load OnRampDatastoreRef (set_both onRampContractID onRampClient) ds selector s in
  let s := load OffRampDatastoreRef (set_both offRampContractID offRampClient) ds selector s in
  let s := load RouterDatastoreRef (set_both routerContractID routerClient) ds selector s in
  let s := load FeeQuoterDatastoreRef (set_client feeQuoterClient) ds selector s in
  let s := load VVRDatastoreRef (set_id vvrContractID) ds selector s in
  let s := load CommitteeVerifierDatastoreRef (set_id cvContractID) ds selector s in
  let s := load CCIPReceiverDatastoreRef (set_id receiverContractID) ds selector s in
  let s := load RMNProxyDatastoreRef (set_both rmnProxyContractID rmnProxyClient) ds selector s in
  let s := load RMNRemoteDatastoreRef (set_id rmnRemoteContractID) ds selector s in
  let s := load SiloedLockReleasePoolDevenvDatastoreRef (set_both tokenPoolContractID tokenPoolClient) ds selector s in
  let s := load LegacyLockReleasePoolDevenvDatastoreRef (set_id legacyLockReleasePoolID) ds selector s in
  let s := load TokenLockBoxDevenvDatastoreRef (set_id tokenLockBoxContractID) ds selector s in
  hydrated ds selector s.

Definition testTokenAssetCode : string := "TEST".
Definition feeTokenAssetCode : string := "FEE".
(** The key pair of a label's hash, and the id of an asset of that issuer. *)
Definition seeded (label : string) : result string := FromRawSeed (Sum256 (String.list_byte_of_string label)).
Definition derived_token (networkPassphrase label code : string) : result string :=
  issuer ← seeded label;
  asset ← CreditAssetXDR code issuer;
  Deployer.ComputeSACContractID networkPassphrase asset.
Definition derive (f : chain_id) (networkPassphrase label code : string) (s : ChainFields) : ChainFields :=
  match derived_token networkPassphrase label code with Ok id => set_id f id s | Err _ => s end.
Definition derived (networkPassphrase : string) (s : ChainFields) : ChainFields :=
  derive feeTokenContractID networkPassphrase ("fee-token-issuer-" +:+ networkPassphrase) feeTokenAssetCode
    (derive testTokenContractID networkPassphrase ("test-token-issuer-" +:+ networkPassphrase) testTokenAssetCode s).
Definition generateAccountAddress (seed : string) : result string :=
  wrap_err "failed to create keypair from seed" (seeded seed).

Section programs.
Context {W : Type} {E : Type → Type} {CF : Cldf W E} {EV : EvmTooling W E}.
Context (get : W → ChainFields) (put : ChainFields → W → W) (c : Chain W E).

Definition write (f : ChainFields → ChainFields) : prog W E unit := modify (λ w, put (f (get w)) w).
Definition read {A} (f : ChainFields → A) : prog W E A := gets (λ w, f (get w)).
(** A method of a client, which calls through the chain's deployer. *)
Definition client_call (m : Invoker W E → string → list value → prog W E (gres (list value))) (client : option string)
    (args : list value) : prog W E (gres (list value)) :=
  match client, deployer c with
  | Some contractID, Some d => m (depsInvoker (chainDeps d)) contractID args
  | _, _ => Panic nil_pointer
  end.

(** ** Local contracts ([chain.go]) *)

Definition ensure_id (f : chain_id) (what : string) (r : DatastoreSorobanContractRef) (ds : MemoryDataStore) (selector : Z)
  : prog W E (gres unit) :=
  id ← read (λ s, id_of s f);
  if decide (id = "") then
    match LookupStrkey r ds selector with
    | Err e => Ret (GErr ("lookup local " +:+ what +:+ ": " +:+ e))
    | Ok id => _ ← write (set_id f id); Ret (GVal tt)
    end
  else Ret (GVal tt).
Definition ensure_client (k : chain_client) (f : chain_id) : prog W E unit :=
  write (λ s, match client_of s k with None => set_client k (id_of s f) s | Some _ => s end).
Definition ensureLocalContracts (ds : MemoryDataStore) (selector : Z) : prog W E (gres unit) :=
  match deployer c with
  | None => Ret (GErr "deployer not initialized")
  | Some _ =>
      _ <-? ensure_id onRampContractID "onramp" OnRampDatastoreRef ds selector;
      _ <-? ensure_id offRampContractID "offramp" OffRampDatastoreRef ds selector;
      _ <-? ensure_id routerContractID "router" RouterDatastoreRef ds selector;
      _ <-? ensure_id vvrContractID "versioned verifier resolver" VVRDatastoreRef ds selector;
      _ ← ensure_client onRampClient onRampContractID;
      _ ← ensure_client offRampClient offRampContractID;
      _ ← ensure_client routerClient routerContractID;
      Ret (GVal tt)
  end.
Definition hydrateDevenvClientsFromDataStore (ds : option MemoryDataStore) (selector : Z) : prog W E unit :=
  match ds, deployer c with
  | Some ds, Some _ => write (hydrated ds selector)
  | _, _ => Ret tt
  end.

(** ** Pools of other chains ([chain.go]) *)

Definition by_key (remoteSelector : Z) (refs : list AddressRef) : gmap (string * string) AddressRef :=
  foldl (λ m ref, if refChainSelector ref =? remoteSelector then <[(refType ref, refQualifier ref) := ref]> m else m) ∅ refs.
(** The first pool of the first type that has one; [orders i] is the order of the map in the
    [i]th loop over it. *)
Fixpoint first_pool (orders : nat → list (string * string) → list (string * string)) (i : nat)
    (m : gmap (string * string) AddressRef) (types : list string) : option AddressRef :=
  match types with
  | [] => None
  | ct :: types' =>
      match find (λ key : string * string, bool_decide (fst key = ct)) (orders i (fst <$> map_to_list m)) with
      | Some key => m !! key
      | None => first_pool orders (S i) m types'
      end
  end.
Fixpoint first_token (m : gmap (string * string) AddressRef) (qualifier : string) (remoteSelector : Z)
    (types : list string) : option bytes :=
  match types with
  | [] => None
  | ct :: types' =>
      match m !! (ct, qualifier) with
      | Some ref =>
          match AddressBytesHex ref remoteSelector with
          | Ok tb => Some tb
          | Err _ => first_token m qualifier remoteSelector types'
          end
      | None => first_token m qualifier remoteSelector types'
      end
  end.
Definition pair_bytes (pool token : AddressRef) (remoteSelector : Z) (zero : bytes) : bytes * bytes :=
  match AddressBytesHex pool remoteSelector, AddressBytesHex token remoteSelector with
  | Ok p, Ok t => (p, t)
  | _, _ => (zero, zero)
  end.
Definition resolveRemotePoolAndToken (orders : nat → list (string * string) → list (string * string))
    (ds : MemoryDataStore) (remoteSelector : Z) : result (bytes * bytes) :=
  addrLen ← AddressBytesLength remoteSelector;
  let zero := replicate (Z.to_nat addrLen) x00 in
  match Fetch ds with
  | Err _ => Ok (zero, zero)
  | Ok allRefs =>
      let others :=
        let m := by_key remoteSelector allRefs in
        match first_pool orders 0 m remotePoolContractTypes with
        | None => (zero, zero)
        | Some poolRef =>
            match AddressBytesHex poolRef remoteSelector with
            | Err _ => (zero, zero)
            | Ok poolBytes =>
                (poolBytes, default zero (first_token m (refQualifier poolRef) remoteSelector remoteTokenContractTypes))
            end
        end in
      match GetSelectorFamily remoteSelector with
      | Ok family =>
          if decide (family = FamilyEVM) then
            match ResolveEVMTokenPoolForStellar allRefs remoteSelector with
            | Some (poolRef, tokenRef) => Ok (pair_bytes poolRef tokenRef remoteSelector zero)
            | None => Ok others
            end
          else Ok others
      | Err _ => Ok others
      end
  end.
Definition no_rate_limit : value := VStruct [VBool false; VU128 (mkUInt128Parts 0 0); VU128 (mkUInt128Parts 0 0)].
(** [tokenpoolbindings.ChainUpdate]; a different order of a map for each chain. *)
Definition pool_chain_update (orders : nat → nat → list (string * string) → list (string * string)) (ds : MemoryDataStore)
    (i : nat) (rs : Z) : result value :=
  remote ← wrap_err ("resolve remote pool/token for " +:+ pretty rs) (resolveRemotePoolAndToken (orders i) ds rs);
  Ok (VStruct [VNum rs; VBytes (fst remote); VBytes (snd remote); no_rate_limit; no_rate_limit]).
Definition buildPoolChainUpdates (orders : nat → nat → list (string * string) → list (string * string))
    (ds : MemoryDataStore) (remoteSelectors : list Z) : result (list value) :=
  imapM (pool_chain_update orders ds) remoteSelectors.

Definition lock_box_entry (lockBox : string) (rs : Z) : value := VStruct [VString lockBox; VNum rs].
Definition configureSiloedPoolLockBoxes (remoteSelectors : list Z) : prog W E (gres unit) :=
  s ← read id;
  match deployer c with
  | None => Ret (GErr "siloed pool lock box wiring incomplete")
  | Some d =>
      if decide (id_of s tokenPoolContractID = "" ∨ id_of s tokenLockBoxContractID = "")
      then Ret (GErr "siloed pool lock box wiring incomplete")
      else
        _ <-? ExecuteOperation (siloed_lock_release_pool_ConfigureLockBoxes enumerate) (chainDeps d)
                [VString (id_of s tokenPoolContractID);
                 VSlice (lock_box_entry (id_of s tokenLockBoxContractID) <$> remoteSelectors)];
        Ret (GVal tt)
  end.

(** ** Transfers from EVM chains ([evm_stellar_token_transfer.go]) *)

(** [deployment.Environment], the fields in use: the datastore (or nil), and the chains. *)
Record Environment := mkEnvironment {
  envDataStore : option MemoryDataStore;
  EVMChains : gset Z
}.
(** [%q] of a qualifier is [Quote]. *)
Definition evmAddressFromRef (ref : AddressRef) : result bytes :=
  if negb (IsHexAddress (refAddress ref))
  then Err ("invalid EVM address for " +:+ refType ref +:+ " " +:+ Quote (refQualifier ref) +:+ ": " +:+ refAddress ref)
  else Ok (HexToAddress (refAddress ref)).
Definition paddedAddressBytes (ref : AddressRef) : result bytes :=
  raw ← wrap_err ("decode address " +:+ refAddress ref) (hexutil_Decode (refAddress ref));
  Ok (replicate (32 - length raw) x00 ++ raw).
Definition uint64SliceContains (values : list Z) (target : Z) : bool := existsb (Z.eqb target) values.
Definition bytesSliceContains (values : list bytes) (target : bytes) : bool :=
  existsb (λ v, bool_decide (v = target)) values.
Definition registerEVMTokenPool (env : Environment) (ds : MemoryDataStore) (evmSelector : Z) (evmPool evmToken : AddressRef)
  : prog W E (gres unit) :=
  if decide (evmSelector ∈ EVMChains env) then
    tokenAdminRegistry <-? Ret (of_result (wrap_err ("lookup EVM TokenAdminRegistry for chain " +:+ pretty evmSelector)
                              (LookupAddressRef ds evmSelector evmtar_ContractType (Some "1.5.0") "")));
    tokenAddress <-? Ret (of_result (evmAddressFromRef evmToken));
    poolAddress <-? Ret (of_result (evmAddressFromRef evmPool));
    registryAddress <-? Ret (of_result (evmAddressFromRef tokenAdminRegistry));
    gctx ("register EVM token " +:+ refAddress evmToken +:+ " with pool " +:+ refAddress evmPool +:+ " on chain " +:+
          pretty evmSelector) (RegisterToken evmSelector tokenAddress poolAddress registryAddress)
  else Ret (GErr ("EVM chain " +:+ pretty evmSelector +:+ " not found in environment")).
Definition evmPoolHasRemote (evmSelector : Z) (poolAddress : bytes) (stellarSelector : Z) (stellarPool stellarToken : bytes)
  : prog W E (gres bool) :=
  supportedChains <-? GetSupportedChains evmSelector poolAddress;
  if negb (uint64SliceContains supportedChains stellarSelector) then Ret (GVal false)
  else
    remotePools <-? GetRemotePools evmSelector poolAddress stellarSelector;
    remoteToken <-? GetRemoteToken evmSelector poolAddress stellarSelector;
    if bool_decide (remoteToken = stellarToken) && bytesSliceContains remotePools stellarPool then Ret (GVal true)
    else Ret (GErr ("pool " +:+ AddressHex poolAddress +:+ " already has remote chain " +:+ pretty stellarSelector +:+
                    " configured with different pool/token")).
Definition disabledRL : bool * Z * Z := (false, 0, 0).
Definition configureEVMPoolRemote (env : Environment) (evmSelector stellarSelector : Z)
    (evmPool stellarPool stellarToken : AddressRef) : prog W E (gres unit) :=
  if decide (evmSelector ∈ EVMChains env) then
    poolAddress <-? Ret (of_result (evmAddressFromRef evmPool));
    remotePoolBytes <-? Ret (of_result (paddedAddressBytes stellarPool));
    remoteTokenBytes <-? Ret (of_result (paddedAddressBytes stellarToken));
    alreadyConfigured <-? gctx ("check EVM pool remote config for pool " +:+ refAddress evmPool +:+ " on chain " +:+
                                pretty evmSelector)
                            (evmPoolHasRemote evmSelector poolAddress stellarSelector remotePoolBytes remoteTokenBytes);
    if (alreadyConfigured : bool) then Ret (GVal tt)
    else
      gctx ("apply EVM pool remote for pool " +:+ refAddress evmPool +:+ " to Stellar chain " +:+ pretty stellarSelector)
        (ApplyChainUpdates evmSelector poolAddress
           [mkEvmChainUpdate stellarSelector [remotePoolBytes] remoteTokenBytes disabledRL disabledRL])
  else Ret (GErr ("EVM chain " +:+ pretty evmSelector +:+ " not found in environment")).
(** The body of the loop, and the loop. *)
Definition configure_evm_remote (env : Environment) (ds : MemoryDataStore) (allRefs : list AddressRef) (stellarSelector : Z)
    (stellarPool stellarToken : AddressRef) (remoteSelector : Z) : prog W E (gres unit) :=
  family <-? Ret (of_result (wrap_err ("get selector family for " +:+ pretty remoteSelector) (GetSelectorFamily remoteSelector)));
  if decide (family = FamilyEVM) then
    match ResolveEVMTokenPoolForStellar allRefs remoteSelector with
    | None => Ret (GVal tt)
    | Some (evmPool, evmToken) =>
        _ <-? registerEVMTokenPool env ds remoteSelector evmPool evmToken;
        configureEVMPoolRemote env remoteSelector stellarSelector evmPool stellarPool stellarToken
    end
  else Ret (GVal tt).
Fixpoint configure_evm_remotes (env : Environment) (ds : MemoryDataStore) (allRefs : list AddressRef) (stellarSelector : Z)
    (stellarPool stellarToken : AddressRef) (remoteSelectors : list Z) : prog W E (gres unit) :=
  match remoteSelectors with
  | [] => Ret (GVal tt)
  | rs :: remoteSelectors' =>
      _ <-? configure_evm_remote env ds allRefs stellarSelector stellarPool stellarToken rs;
      configure_evm_remotes env ds allRefs stellarSelector stellarPool stellarToken remoteSelectors'
  end.
Definition configureEVMToStellarTokenTransfers (env : Environment) (ds : MemoryDataStore) (stellarSelector : Z)
    (remoteSelectors : list Z) : prog W E (gres unit) :=
  allRefs <-? Ret (of_result (wrap_err "fetch datastore addresses" (Fetch ds)));
  stellarPool <-? Ret (of_result (wrap_err "lookup Stellar siloed lock-release pool"
                         (ref_LookupAddressRef LockReleasePoolDevenvDatastoreRef ds stellarSelector)));
  stellarToken <-? Ret (of_result (wrap_err "lookup Stellar SAC token"
                          (ref_LookupAddressRef DevenvTestTokenDatastoreRef ds stellarSelector)));
  configure_evm_remotes env ds allRefs stellarSelector stellarPool stellarToken remoteSelectors.

(** ** [PostConnect] *)

Definition onramp_entry (onramp : string) (rs : Z) : value := VStruct [VNum rs; VString onramp].
Definition offramp_entry (offramp : string) (rs : Z) : value := VStruct [VString offramp; VNum rs].
(** The lanes of the ramps and of the router. *)
Definition connect_lanes (ds : MemoryDataStore) (selector : Z) (remoteSelectors : list Z) : prog W E (gres unit) :=
  defaultExecutor <-? Ret (of_result (wrap_err "resolve default executor proxy"
                             (LookupStrkey (ExecutorProxyDatastoreRef DefaultExecutorQualifier) ds selector)));
  s ← read id;
  onRampDestConfigs <-? Ret (of_result (wrap_err "build onramp dest configs"
      (BuildOnRampDestConfigs ds remoteSelectors defaultExecutor true (id_of s vvrContractID) (id_of s routerContractID))));
  _ <-? gctx "apply onramp dest configs in post-connect"
          (client_call (λ IV, OnRampClient.OnRampClient_ApplyDestChainConfigUpdates enumerate (IV := IV))
             (client_of s onRampClient) [VSlice onRampDestConfigs]);
  offRampSourceConfigs <-? Ret (of_result (wrap_err "build offramp source configs"
      (BuildOffRampSourceConfigs ds remoteSelectors true (id_of s vvrContractID) (id_of s routerContractID))));
  _ <-? gctx "apply offramp source configs in post-connect"
          (client_call (λ IV, OffRampClient.OffRampClient_ApplySourceChainCfgUpdates enumerate (IV := IV))
             (client_of s offRampClient) [VSlice offRampSourceConfigs]);
  _ <-? gctx "apply router ramp updates in post-connect"
          (client_call (λ IV, RouterClient.RouterClient_ApplyRampUpdates enumerate (IV := IV)) (client_of s routerClient)
             [VSlice (onramp_entry (id_of s onRampContractID) <$> remoteSelectors); VSlice [];
              VSlice (offramp_entry (id_of s offRampContractID) <$> remoteSelectors)]);
  Ret (GVal tt).
(** The pool, when there is one. *)
Definition connect_pool (orders : nat → nat → list (string * string) → list (string * string)) (env : Environment)
    (ds : MemoryDataStore) (selector : Z) (remoteSelectors : list Z) : prog W E (gres unit) :=
  s ← read id;
  match client_of s tokenPoolClient with
  | None => Ret (GVal tt)
  | Some pool =>
      if decide (id_of s testTokenContractID = "") then Ret (GVal tt)
      else
        chainUpdates <-? Ret (of_result (wrap_err "build pool chain updates" (buildPoolChainUpdates orders ds remoteSelectors)));
        _ <-? gctx "apply pool chain updates in post-connect"
                (client_call (λ IV, TokenPoolClient.TokenPoolClient_ApplyChainUpdates enumerate (IV := IV)) (Some pool)
                   [VSlice chainUpdates; VSlice []]);
        _ <-? (if decide (id_of s tokenLockBoxContractID = "") then Ret (GVal tt)
               else gctx "configure siloed pool lock boxes" (configureSiloedPoolLockBoxes remoteSelectors));
        gctx "configure EVM-to-Stellar token transfers" (configureEVMToStellarTokenTransfers env ds selector remoteSelectors)
  end.
Definition PostConnect (orders : nat → nat → list (string * string) → list (string * string)) (env : option Environment)
    (selector : Z) (remoteSelectors : list Z) : prog W E (gres unit) :=
  match env with
  | None => Ret (GErr "environment is nil")
  | Some env =>
      match envDataStore env with
      | None => Ret (GErr "environment datastore is nil")
      | Some ds =>
          match FilterRemoteSelectors remoteSelectors selector with
          | [] => Ret (GVal tt)
          | remotes =>
              _ <-? gctx "ensure local stellar contracts" (ensureLocalContracts ds selector);
              _ <-? connect_lanes ds selector remotes;
              connect_pool orders env ds selector remotes
          end
      end
  end.

(** ** Messages ([composable.go], [chain.go]) *)

(** [cciptestinterfaces.MessageFields]: the amount of a token (or nil) and its address. *)
Record MessageFields := mkMessageFields {
  mfReceiver : bytes;
  mfData : bytes;
  mfFeeToken : bytes;
  mfAmount : option Z;
  mfTokenAddress : bytes
}.
(** [cciptestinterfaces.GenericChainMessage]: a message of the Router's bindings, or a value
    of another type, with the name of the type. *)
Inductive GenericChainMessage :=
| RouterMessage (m : value)
| OtherMessage (typeName : string).
Definition token_amount (amount : Z) (token : string) : value := VStruct [VNum amount; VString token].
Definition StellarToAnyMessage (data extraArgs : bytes) (feeToken : string) (receiver : bytes) (tokenAmounts : list value)
  : value :=
  VStruct [VBytes data; VBytes extraArgs; VString feeToken; VBytes receiver; VSlice tokenAmounts].
Definition default_options : MessageOptions := mkMessageOptions [] [] 0 [] 0 [].
Definition message_token_amounts (fields : MessageFields) : gres (list value) :=
  match mfAmount fields with
  | Some amount =>
      if (0 <? amount) && (0 <? Z.of_nat (length (mfTokenAddress fields))) then
        if negb (is_int64 amount) then GErr ("token amount out of int64 range: " +:+ pretty amount)
        else
          tokenAddr ← gwrap "encode token address for send" (of_result (Encode VersionByteContract (mfTokenAddress fields)));
          GVal [token_amount amount tokenAddr]
      else GVal []
  | None => GVal []
  end.
(** [keys]: the order of the fields of the extra arguments. *)
Definition build_message (keys : list string) (sender : string) (s : ChainFields) (fields : MessageFields) : gres value :=
  encodedExtraArgs ← gwrap "encode extra args for Stellar OnRamp"
      (EncodeStellarSourceExtraArgsForOnRamp keys sender (id_of s vvrContractID) default_options);
  if decide (id_of s feeTokenContractID = "") then GErr "fee token not deployed; run DeployContractsForSelector first"
  else
    feeToken ← match mfFeeToken fields with
               | [] => GVal (id_of s feeTokenContractID)
               | ft => gwrap "encode fee token address" (of_result (Encode VersionByteContract ft))
               end;
    tokenAmounts ← message_token_amounts fields;
    GVal (StellarToAnyMessage (mfData fields) encodedExtraArgs feeToken (mfReceiver fields) tokenAmounts).
Definition BuildChainMessage (keys : list string) (fields : MessageFields) : prog W E (gres GenericChainMessage) :=
  match deployerKeypair c with
  | None => Panic nil_pointer
  | Some sender =>
      s ← read id;
      match build_message keys sender s fields with
      | GVal m => Ret (GVal (RouterMessage m))
      | GErr e => Ret (GErr e)
      | GPanic m => Panic m
      end
  end.
(** [cciptestinterfaces.MessageSentEvent]: the sender is the bytes of the text of its address. *)
Record MessageSentEvent := mkMessageSentEvent { seMessageID : bytes; seSender : bytes }.
Definition address_text (s : string) : bytes := String.list_byte_of_string s.
(** The only result of a call. *)
Definition result_num (l : list value) : gres Z := match l with [VNum z] => GVal z | _ => ill_typed end.
Definition result_bytes (l : list value) : gres bytes := match l with [VBytes b] => GVal b | _ => ill_typed end.
Definition SendChainMessage (destChain : Z) (msg : GenericChainMessage) : prog W E (gres MessageSentEvent) :=
  match msg with
  | OtherMessage t => Ret (GErr ("expected routerbindings.StellarToAnyMessage, got " +:+ t))
  | RouterMessage routerMsg =>
      router ← read (λ s, client_of s routerClient);
      match router, deployerKeypair c with
      | None, _ => Ret (GErr "Router client not initialized")
      | Some _, None => Panic nil_pointer
      | Some _, Some sender =>
          fee <-? gctx "get fee from Router"
                    (client_call (λ IV, RouterClient.RouterClient_GetFee enumerate (IV := IV)) router
                       [VNum destChain; routerMsg]);
          requiredFee <-? Ret (result_num fee);
          sent <-? gctx "ccip_send"
                     (client_call (λ IV, RouterClient.RouterClient_CcipSend enumerate (IV := IV)) router
                        [VString sender; VNum destChain; routerMsg; VNum requiredFee]);
          messageID <-? Ret (result_bytes sent);
          Ret (GVal (mkMessageSentEvent messageID (address_text sender)))
      end
  end.
Definition SendMessage (keys : list string) (dest : Z) (fields : MessageFields) : prog W E (gres MessageSentEvent) :=
  msg <-? BuildChainMessage keys fields;
  SendChainMessage dest msg.

(** *** Confirmation *)

(** How the world serves a wait for an event, and the turns that its ticker has; a result of
    [None] is a wait that has not ended in these turns. *)
Context (waiting : ∀ X, Client.wait_ext X → prog W E X) (turns : nat).
(** [MessageEventKey]: the id, zero when it is not set, and the sequence number. *)
Record MessageEventKey := mkMessageEventKey { keyMessageID : bytes; keySeqNum : Z }.
Definition no_message_id : bytes := replicate 32 x00.
(** The filter of both confirmations, on the other chain's selector, the number and the id. *)
Definition key_matches (selector : Z) (key : MessageEventKey) (evSelector evSequence : Z) (evMessageID : bytes) : bool :=
  (evSelector =? selector) &&
  (if decide (keyMessageID key ≠ no_message_id) then bool_decide (evMessageID = keyMessageID key)
   else evSequence =? keySeqNum key).
(** The fields of the events, in the order of the bindings. *)
Definition sent_matches (to : Z) (key : MessageEventKey) (p : Client.parsed_event) : bool :=
  match fst (fst p) with
  | VNum dest :: VNum seqNo :: VString _ :: VBytes messageId :: _ => key_matches to key dest seqNo messageId
  | _ => false
  end.
Definition executed_matches (from : Z) (key : MessageEventKey) (p : Client.parsed_event) : bool :=
  match fst (fst p) with
  | VNum source :: VNum seqNo :: VBytes messageId :: _ => key_matches from key source seqNo messageId
  | _ => false
  end.
Record ExecutionStateChangedEvent := mkExecutionStateChangedEvent {
  exSourceChainSelector : Z;
  exMessageID : bytes;
  exMessageNumber : Z;
  exState : Z;
  exReturnData : bytes
}.
Definition sent_event (p : Client.parsed_event) : gres MessageSentEvent :=
  match fst (fst p) with
  | VNum _ :: VNum _ :: VString sender :: VBytes messageId :: _ => GVal (mkMessageSentEvent messageId (address_text sender))
  | _ => ill_typed
  end.
Definition executed_event (p : Client.parsed_event) : gres ExecutionStateChangedEvent :=
  match fst (fst p) with
  | [VNum source; VNum seqNo; VBytes messageId; VNum state; VBytes returnData] =>
      GVal (mkExecutionStateChangedEvent source messageId seqNo state returnData)
  | _ => ill_typed
  end.
(** Waiting from the latest ledger, with a node; [read_event] makes the result of the event. *)
Definition wait_from_latest {A} (rpc : prog W E (gres Z))
    (wait : Z → prog unit Client.wait_ext (option (gres Client.parsed_event))) (ctx : string)
    (read_event : Client.parsed_event → gres A) : prog W E (gres (option A)) :=
  latestLedger <-? gctx "failed to get latest ledger" rpc;
  event ← embed waiting (wait latestLedger);
  match event with
  | None => Ret (GVal None)
  | Some event => e <-? gctx ctx (Ret event); a <-? Ret (read_event e); Ret (GVal (Some a))
  end.
Definition key_is_set (key : MessageEventKey) : bool :=
  negb (bool_decide (keyMessageID key = no_message_id) && (keySeqNum key =? 0)).
Definition ConfirmSendOnSource (to : Z) (key : MessageEventKey) (timeout : Z) : prog W E (gres (option MessageSentEvent)) :=
  if negb (key_is_set key) then Ret (GErr "MessageEventKey must set MessageID or SeqNum")
  else
    client ← read (λ s, client_of s onRampClient);
    match client, rpcClient c with
    | None, _ => Ret (GErr "OnRamp client not initialized")
    | Some _, None => Panic nil_pointer
    | Some onRamp, Some rpc =>
        wait_from_latest rpc
          (λ latest, OnRampClient.WaitForCCIPMessageSentEvent enumerate onRamp turns latest timeout (Some (sent_matches to key)))
          "failed waiting for sent event" sent_event
    end.
Definition ConfirmExecOnDest (from : Z) (key : MessageEventKey) (timeout : Z)
  : prog W E (gres (option ExecutionStateChangedEvent)) :=
  if negb (key_is_set key) then Ret (GErr "MessageEventKey must set MessageID or SeqNum")
  else
    client ← read (λ s, client_of s offRampClient);
    match client, rpcClient c with
    | None, _ => Ret (GErr "OffRamp client not initialized")
    | Some _, None => Panic nil_pointer
    | Some offRamp, Some rpc =>
        wait_from_latest rpc
          (λ latest, OffRampClient.WaitForExecutionStateChangedEvent enumerate offRamp turns latest timeout
             (Some (executed_matches from key)))
          "failed waiting for execution event" executed_event
    end.

(** [Message.SequenceNumber], and two minutes. *)
Context (SequenceNumber : Message → Z).
Definition execution_timeout : Z := 120 * 1000000000.
Definition executed_message (message : Message) (p : Client.parsed_event) : bool :=
  match fst (fst p) with
  | VNum source :: VNum seqNo :: _ => (source =? SourceChainSelector message) && (seqNo =? SequenceNumber message)
  | _ => false
  end.
Definition ManuallyExecuteMessage (message : Message) (gasLimit : Z) (ccvs verifierResults : list bytes)
  : prog W E (gres (option ExecutionStateChangedEvent)) :=
  client ← read (λ s, client_of s offRampClient);
  match client, rpcClient c with
  | None, _ => Ret (GErr "OffRamp client not initialized")
  | Some _, None => Ret (GErr "RPC client not initialized")
  | Some offRamp, Some rpc =>
      if 4294967295 <? gasLimit then Ret (GErr "gas limit overflows uint32")
      else
        encoded <-? Ret (of_result (wrap_err "encode message" (EncodeMessage message)));
        ccvStrs <-? Ret (of_result (imapM (λ _ a, wrap_err "encode ccv address" (Encode VersionByteContract a)) ccvs));
        _ <-? gctx "offramp execute"
                (client_call (λ IV, OffRampClient.OffRampClient_Execute enumerate (IV := IV)) client
                   [VBytes encoded; VSlice (VString <$> ccvStrs); VSlice (VBytes <$> verifierResults); VNum gasLimit]);
        wait_from_latest rpc
          (λ latest, OffRampClient.WaitForExecutionStateChangedEvent enumerate offRamp turns latest execution_timeout
             (Some (executed_message message)))
          "failed waiting for execution event" executed_event
  end.

(** ** What is read of the contracts and of accounts ([chain.go]) *)

Definition raw_contract (f : chain_id) : prog W E (gres bytes) :=
  s ← read id;
  if decide (id_of s f = "") then Ret (GErr "ccip_receiver contract not deployed; run DeployContractsForSelector first")
  else Ret (of_result (wrap_err "failed to decode receiver contract address" (Decode VersionByteContract (id_of s f)))).
Definition GetEOAReceiverAddress : prog W E (gres bytes) := raw_contract receiverContractID.
Definition GetReceiverContractAddress : prog W E (gres string) :=
  s ← read id;
  Ret (if decide (id_of s receiverContractID = "")
       then GErr "ccip_receiver contract not deployed; run DeployContractsForSelector first"
       else GVal (id_of s receiverContractID)).
Definition GetTokenAddress : prog W E (gres string) :=
  s ← read id;
  Ret (if decide (id_of s testTokenContractID = "")
       then GErr "test token not deployed; run DeployContractsForSelector first"
       else GVal (id_of s testTokenContractID)).
Definition FeeQuoterClient : prog W E (option string) := read (λ s, client_of s feeQuoterClient).
Definition GetExpectedNextSequenceNumber (to : Z) : prog W E (gres Z) :=
  client ← read (λ s, client_of s onRampClient);
  match client with
  | None => Ret (GErr "OnRamp client not initialized")
  | Some _ =>
      seqNo <-? gctx "failed to get next sequence number"
                  (client_call (λ IV, OnRampClient.OnRampClient_GetExpectedNextMessageNumber enumerate (IV := IV)) client [VNum to]);
      Ret (result_num seqNo)
  end.
(** [MaxDataBytes], the eighth field of the configuration. *)
Definition max_data_bytes (l : list value) : gres Z :=
  match l with
  | [VStruct fields] => match fields !! 7%nat with Some (VNum z) => GVal z | _ => ill_typed end
  | _ => ill_typed
  end.
Definition GetMaxDataBytes (remoteChainSelector : Z) : prog W E (gres Z) :=
  client ← read (λ s, client_of s feeQuoterClient);
  match client with
  | None => Ret (GErr "FeeQuoter client not initialized")
  | Some _ =>
      cfg <-? gctx "failed to get fee quoter dest chain config"
                (client_call (λ IV, FeeQuoterClient.FeeQuoterClient_GetDestChainConfig enumerate (IV := IV)) client
                   [VNum remoteChainSelector]);
      Ret (max_data_bytes cfg)
  end.
Definition GetSenderAddress : result bytes :=
  match deployerKeypair c with
  | None => Err "deployer keypair not initialized"
  | Some address => wrap_err "failed to decode sender address" (Decode VersionByteAccountID address)
  end.
Definition GetTokenBalanceForAddress (holderAddress : string) (tokenAddress : bytes) : prog W E (gres Z) :=
  match deployer c with
  | None => Ret (GErr "deployer not initialized")
  | Some d =>
      tokenStrkey <-? Ret (of_result (wrap_err "encode token address" (Encode VersionByteContract tokenAddress)));
      match ScVal.AddressToScVal holderAddress with
      | ScvAddress (Some _) =>
          result <-? gctx "query token balance"
                       (SimulateCall (Invoker := depsInvoker (chainDeps d)) tokenStrkey "balance"
                          [ScVal.AddressToScVal holderAddress]);
          match result with
          | None => Panic nil_pointer
          | Some result => Ret (gwrap "parse balance" (ScVal.I128FromScVal result))
          end
      | _ => Ret (GErr ("invalid holder address: " +:+ holderAddress))
      end
  end.
Definition GetTokenBalance (address tokenAddress : bytes) : prog W E (gres Z) :=
  addrStrkey <-? Ret (of_result (wrap_err "encode account holder address" (Encode VersionByteAccountID address)));
  GetTokenBalanceForAddress addrStrkey tokenAddress.
Definition NativeBalance (address : bytes) : prog W E (gres Z) :=
  match deployer c with
  | None => Ret (GErr "deployer not initialized")
  | Some d => bal <-? NativeAccountState d address; Ret (GVal (fst (fst bal)))
  end.

(** What a transfer sends: a balance but for the reserve, or the amount given. *)
Definition native_reserve : Z := MinBaseFee * 10.
Definition spendable (bal : Z) (exists_ : bool) : result Z :=
  if negb exists_ then Err (ErrInsufficientNativeBalance +:+ ": account has no ledger entry")
  else if bal <=? native_reserve
  then Err (ErrInsufficientNativeBalance +:+ ": balance " +:+ pretty bal +:+ " stroops, reserve " +:+
            pretty native_reserve +:+ " stroops")
  else
    let send := bal - native_reserve in
    if negb (is_int64 send) || (send <=? 0)
    then Err (ErrInsufficientNativeBalance +:+ ": spendable amount does not fit transfer")
    else Ok send.
Definition given_amount (amount : Z) : result Z :=
  if amount <=? 0 then Err "transfer amount must be positive"
  else if negb (is_int64 amount) then Err "amount must fit int64 stroops"
  else Ok amount.
Definition TransferNative (from to : bytes) (amount : option Z) : prog W E (gres unit) :=
  match deployer c, deployerKeypair c with
  | Some d, Some address =>
      deployerRaw <-? Ret (of_result (wrap_err "decode deployer account" (Decode VersionByteAccountID address)));
      if decide (deployerRaw = from) then
        toStr <-? Ret (of_result (wrap_err "encode destination account" (Encode VersionByteAccountID to)));
        stroops <-? match amount with
                    | None =>
                        state <-? NativeAccountState d deployerRaw;
                        let '(bal, _, exists_) := state in
                        Ret (of_result (spendable bal exists_))
                    | Some amount => Ret (of_result (given_amount amount))
                    end;
        SendNativePayment d toStr stroops
      else Ret (GErr ("address " +:+ EncodeToString from +:+ " is not a configured account in this environment"))
  | _, _ => Ret (GErr "deployer not initialized")
  end.

(** ** Funding ([chain.go]) *)

(** A request answers with a status, and whether it is 200. *)
Context (HttpGet : string → prog W E (result (bool * string))) (Sleep : Z → prog W E unit).
Definition maxRetries : nat := 9.
Definition retryInterval : Z := 20 * 1000000000.
Fixpoint friendbot_attempts (attempts : nat) (faucetURL lastErr : string) : prog W E (gres unit) :=
  match attempts with
  | O => Ret (GErr ("friendbot not ready after " +:+ pretty maxRetries +:+ " attempts: " +:+ lastErr))
  | S attempts =>
      resp ← HttpGet faucetURL;
      match resp with
      | Ok (true, _) => Ret (GVal tt)
      | Ok (false, status) =>
          _ ← Sleep retryInterval;
          friendbot_attempts attempts faucetURL ("friendbot returned status " +:+ status)
      | Err e =>
          _ ← Sleep retryInterval;
          friendbot_attempts attempts faucetURL ("friendbot request failed: " +:+ e)
      end
  end.
Definition fundViaFriendbot (friendbotURL address : string) : prog W E (gres unit) :=
  friendbot_attempts maxRetries (friendbotURL +:+ "?addr=" +:+ address) "<nil>".
Fixpoint FundAddresses (addresses : list bytes) : prog W E (gres unit) :=
  match addresses with
  | [] => Ret (GVal tt)
  | addr :: addresses' =>
      if negb (Z.of_nat (length addr) =? StellarAddressByteLen) then FundAddresses addresses'
      else
        match Encode VersionByteAccountID addr with
        | Err e => Panic e
        | Ok addrStr =>
            _ <-? gctx ("fund address " +:+ addrStr) (fundViaFriendbot (friendbotURL c) addrStr);
            FundAddresses addresses'
        end
  end.

(** ** The chain as the host of a deployment ([stellar_ccip_host.go]) *)

(** The creation of an asset contract ([DeployDevenvSACToken]), by the label of the issuer's
    seed, the asset's code and the friendbot. *)
Context (DeployDevenvSACToken : string → string → string → prog W E (gres string)).
Definition createTestToken : string → prog W E (gres string) :=
  DeployDevenvSACToken ("test-token-issuer-" +:+ networkPassphrase c) testTokenAssetCode.
Definition createFeeToken : string → prog W E (gres string) :=
  DeployDevenvSACToken ("fee-token-issuer-" +:+ networkPassphrase c) feeTokenAssetCode.
(** Of a chain with its key pair and its deployer. *)
Definition CCIPDevenvHost (address : string) (d : ChainDeployer W E) : CCIPDevenvHost W E :=
  mkCCIPDevenvHost (chainDeps d) address (networkPassphrase c) (friendbotURL c)
    (λ id, write (set_both onRampContractID onRampClient id))
    (λ id, write (set_client feeQuoterClient id))
    (λ id, write (set_both tokenAdminRegistryContractID tokenAdminRegistryClient id))
    (read (λ s, client_of s tokenAdminRegistryClient))
    (λ id, write (set_both tokenPoolContractID tokenPoolClient id))
    (λ id, write (set_id legacyLockReleasePoolID id))
    (λ id, write (set_id tokenLockBoxContractID id))
    (match rpcClient c with None => Ret (GErr "rpc client is nil") | Some rpc => rpc end)
    (λ id, write (set_id testTokenContractID id))
    (read (λ s, id_of s testTokenContractID))
    (λ id, write (set_both offRampContractID offRampClient id))
    (λ id, write (set_both routerContractID routerClient id))
    (read (λ s, id_of s routerContractID))
    (λ id, write (set_id rampRegistryContractID id))
    (read (λ s, id_of s rampRegistryContractID))
    (λ id, write (set_id vvrContractID id))
    (λ id, write (set_id cvContractID id))
    (λ id, write (set_id receiverContractID id))
    (λ id, write (set_id feeTokenContractID id))
    createFeeToken createTestToken.

(** ** Before, during and after a deployment ([chain.go]) *)

Context (json_topology : EnvironmentTopology → result (option NOPTopology)).
Context (getStash : W → gmap Z (option NOPTopology)) (putStash : gmap Z (option NOPTopology) → W → W).
(** [None] for a nil topology; the topology is changed in place, and given back. *)
Definition PreDeployContractsForSelector (order : list string → list string) (selector : Z)
    (topology : option EnvironmentTopology) : prog W E (gres (option EnvironmentTopology)) :=
  _ ← modify (λ w, putStash (FullDeploy.ClearStellarDeployOffchainTopologyForSelector selector (getStash w)) w);
  _ ← match topology with
      | None => Ret tt
      | Some t =>
          match json_topology t with
          | Err _ => Ret tt
          | Ok offTopo =>
              modify (λ w, putStash (FullDeploy.RegisterStellarDeployOffchainTopologyForSelector selector (Some offTopo)
                                       (getStash w)) w)
          end
      end;
  Ret (GVal (ensureStellarFeeAggregatorsInTopology order (deployerKeypair c) topology)).
(** [DeployChainContractsPerChainCfg]: the deployer, which is owned by its key. *)
Definition GetDeployChainContractsCfg : result (string * bool) :=
  hex ← DeployerAddressHex (deployerKeypair c)
          "stellar chain deployer not initialized; call DeployLocalNetwork first" "decode stellar deployer";
  Ok (hex, true).

(** [ApplyFeeQuoterTestTokenConfig] of [deployment/ccip/fee_quoter_test_token.go]. *)
Definition ApplyFeeQuoterTestTokenConfig (feeQuoter : option string) (priceUpdater testToken : string)
    (allSelectors : list Z) : prog W E (gres unit) :=
  match feeQuoter with
  | None => Ret (GErr "fee quoter client is nil")
  | Some _ =>
      if decide (testToken = "") then Ret (GErr "test token contract id is empty")
      else if decide (priceUpdater = "") then Ret (GErr "price updater address is empty")
      else
        _ <-? gctx "failed to set test token price on FeeQuoter"
                (client_call (λ IV, FeeQuoterClient.FeeQuoterClient_UpdatePrices enumerate (IV := IV)) feeQuoter
                   [VString priceUpdater; VStruct [VSlice []; VSlice [FullDeploy.token_price testToken]]]);
        _ <-? gctx "failed to apply token fee configs on FeeQuoter"
                (client_call (λ IV, FeeQuoterClient.FeeQuoterClient_ApplyTokenFeeConfigs enumerate (IV := IV)) feeQuoter
                   [VSlice (FullDeploy.test_token_fee_config testToken <$> allSelectors); VSlice []]);
        Ret (GVal tt)
  end.

(** The file system, and the root of the repository. *)
Context (Stat : string → prog W E file_info) (FindStellarRoot : result string).
(** A deployer that is nil; the key pair is set with it. *)
Definition nil_deployer : ChainDeployer W E :=
  mkChainDeployer
    (mkStellarDeps (λ _ _, Panic nil_pointer) {| Invoke := λ _ _ _, Panic nil_pointer; SimulateCall := λ _ _ _, Panic nil_pointer |})
    (λ _, Panic nil_pointer) (λ _ _, Panic nil_pointer).
Definition this_host : Rollout.CCIPDevenvHost W E :=
  CCIPDevenvHost (default "" (deployerKeypair c)) (default nil_deployer (deployer c)).
(** [None] for a nil environment; [chains] are the selectors of all its chains. The result
    is nil without a pool. *)
Definition PostDeployContractsForSelector (env : option Environment) (chains : list Z) (selector : Z)
  : prog W E (gres (option MemoryDataStore)) :=
  _ ← modify (λ w, putStash (FullDeploy.ClearStellarDeployOffchainTopologyForSelector selector (getStash w)) w);
  match env with
  | None => Ret (GErr "environment is nil")
  | Some env =>
      _ ← match envDataStore env with
          | Some ds => hydrateDevenvClientsFromDataStore (Some ds) selector
          | None => Ret tt
          end;
      _ <-? gctx "deploy lock-release test token pool"
              (FullDeploy.DeployLockReleaseTestTokenPool enumerate Stat FindStellarRoot this_host);
      s ← read id;
      _ <-? match client_of s feeQuoterClient with
            | None => Ret (GVal tt)
            | Some fq =>
                if decide (id_of s testTokenContractID = "") then Ret (GVal tt)
                else
                  match deployerKeypair c with
                  | None => Panic nil_pointer
                  | Some address =>
                      gctx "apply fee quoter test token config"
                        (ApplyFeeQuoterTestTokenConfig (Some fq) address (id_of s testTokenContractID) (merge_sort Z.le chains))
                  end
            end;
      if decide (id_of s tokenPoolContractID = "") then Ret (GVal None)
      else
        Ret (Some <$> of_result (DevenvTokenPoolsAddressRefDataStore selector (id_of s tokenPoolContractID)
                                   (id_of s legacyLockReleasePoolID) (id_of s tokenLockBoxContractID)
                                   (id_of s testTokenContractID)))
  end.
Definition selectorsFromBlockChains (all : list Z) : list Z := merge_sort Z.le all.
(** [stellardeps.FromDeployer] gives incomplete dependencies for a nil deployer. *)
Definition StellarDepsForDeploy : option (StellarDeps W E) := chainDeps <$> deployer c.
Definition DeployStellarCCIPContracts (print_version : option string → string) (orders : nat → list string → list string)
    (allSelectors : list Z) (selector : Z) (topology : option EnvironmentTopology) (existingAddresses : list AddressRef)
  : prog W E (gres OnChainOutput) :=
  FullDeploy.RunStellarCCIPFullDeployForCCV enumerate print_version Stat FindStellarRoot EnvironmentTopology json_topology
    StellarDepsForDeploy (Some this_host) orders allSelectors selector topology existingAddresses.

(** What the chain leaves to others. *)
Definition GetSupportedPools : list string := [].
Definition GetTokenExpansionConfigs : list string := [].
Definition PostTokenDeploy : result unit := Ok tt.
Definition GetTokenTransferConfigs : list string := [].
Definition FundNodes : result unit := Ok tt.
Definition GetExecutorArgs : option bytes := None.
Definition GetTokenReceiver : option bytes := None.
Definition GetTokenArgs : option bytes := None.
End programs.

(** ** Chains ([impl_factory.go], [chain.go]) *)

Section factory.
Context {W : Type} {E : Type → Type}.
(** A deployer for a network's passphrase and a key pair, on the client of the network, and
    the client's query. *)
Context (NewDeployer : string → string → ChainDeployer W E) (GetLatestLedger : prog W E (gres Z)).

(** [ImplFactory.New]: the network of the chain in the environment, and the datastore. *)
Definition deployer_label (networkPassphrase : string) : string := "deployer-" +:+ networkPassphrase.
Definition factory_New (networks : gmap Z string) (ds : option MemoryDataStore) (selector : Z)
  : result (Chain W E * ChainFields) :=
  match networks !! selector with
  | None => Err ("stellar chain " +:+ pretty selector +:+ " not found in CLDF environment")
  | Some passphrase =>
      deployerKP ← wrap_err ("derive deployer keypair for Stellar chain " +:+ pretty selector) (seeded (deployer_label passphrase));
      let c := mkChain selector passphrase (Some deployerKP) (Some (NewDeployer passphrase deployerKP))
                 (Some GetLatestLedger) "" in
      let s := match ds with Some ds => loaded ds selector no_fields | None => no_fields end in
      Ok (c, derived passphrase s)
  end.
(** [DefaultSignerKey] of the bootstrap keys' ECDSA address. *)
Definition DefaultSignerKey (ECDSAAddress : string) : string := ECDSAAddress.
Definition DefaultFeeAggregator (signers : gmap Z (option string)) (selector : Z) : string :=
  match signers !! selector with Some (Some address) => address | _ => "" end.
Definition SupportsFunding : bool := true.

(** [DeployLocalNetwork], with the passphrase and the friendbot of the network that is started:
    the chain as it is left, also by a failure. *)
Context (HttpGet : string → prog W E (result (bool * string))) (Sleep : Z → prog W E unit).
Definition DeployLocalNetwork (c : Chain W E) (network : result (string * string)) : prog W E (Chain W E * gres unit) :=
  match network with
  | Err e => Ret (c, GErr ("failed to create Stellar blockchain network: " +:+ e))
  | Ok (passphrase, friendbot) =>
      let with_deployer kp d := mkChain (chainSelector c) passphrase kp d (Some GetLatestLedger) friendbot in
      match seeded (deployer_label passphrase) with
      | Err e => Ret (with_deployer (deployerKeypair c) (deployer c), GErr ("failed to create deployer keypair: " +:+ e))
      | Ok kp =>
          funded ← (if decide (friendbot = "") then Ret (GVal tt)
                    else gctx "failed to fund deployer account" (fundViaFriendbot HttpGet Sleep friendbot kp));
          Ret (match funded with
               | GVal _ => (with_deployer (Some kp) (Some (NewDeployer passphrase kp)), GVal tt)
               | failed => (with_deployer (Some kp) (deployer c), failed)
               end)
      end
  end.
End factory.
End chain.
End CcvChain.
