(* ===== verification/CcvChainProps.v ===== *)
(** Properties of the development environment's chain: the pool that it pairs with its own, the
    order in which it connects its lanes, what a message costs, what a transfer sends, the
    chain that is built from a deployment, and the topology. *)

From Stdlib Require Import Ascii.
From Stdlib Require Import Strings.Byte.
From Stdlib Require Strings.String.
From stdpp Require Import base gmap list strings pretty sorting.
From S2P Require Import RouterClient OnRampClient OffRampClient FeeQuoterClient TokenPoolClient.
From S2P Require Import Prelude GoStrings Prog Sdk Xdr ScVal GoBytes TypeConverters InvokerAdapter Ccv.
From S2P Require Import ScValProps Demo DemoCcv TypeConvertersProps BindingsProps Codec CodecProps Client ClientProps ContractsProps.
From S2P Require Import Float Deployer DeployerProps Accessors ExtraArgs Operations Ownership Mcms Lanes LanesProps Rollout RolloutProps ExtraArgsProps CcvChain.
Import Xdr CcvCommon ScValProps BindingsProps CodecProps ClientProps ContractsProps ContractsProps.Contracts.
Import Operations Ownership.Ownership StellarUtil Lanes.Lanes LanesProps CcvChain.CcvChain.

Local Open Scope Z_scope.

Module CcvChainProps.

(** ** The order of pools *)

(** Go's comparison functions: negative, zero or positive. *)
Record ordering {A} (f : A → A → Z) : Prop := mkOrdering {
  ord_anti a b : f b a = - f a b;
  ord_trans a b c : f a b <= 0 → f b c <= 0 → f a c <= 0
}.
Definition lex (c d : Z) : Z := if c =? 0 then d else c.
Definition str_cmp (s t : string) : Z := if bool_decide (s = t) then 0 else if String.ltb s t then -1 else 1.
Definition num_cmp (m n : Z) : Z := if m =? n then 0 else if m <? n then -1 else 1.

Lemma ordering_lex {A} (f g : A → A → Z) : ordering f → ordering g → ordering (λ a b, lex (f a b) (g a b)).
Proof.
  intros [Fa Ft] [Ga Gt]. split.
  - intros a b. unfold lex. rewrite (Fa a b), (Ga a b).
    destruct (Z.eqb_spec (f a b) 0), (Z.eqb_spec (- f a b) 0); lia.
  - intros a b c. unfold lex. pose proof (Ft a b c) as T1. pose proof (Ft b c a) as T2. pose proof (Ft c a b) as T3.
    pose proof (Gt a b c) as T4. pose proof (Fa a b). pose proof (Fa b c). pose proof (Fa a c).
    destruct (Z.eqb_spec (f a b) 0), (Z.eqb_spec (f b c) 0), (Z.eqb_spec (f a c) 0); lia.
Qed.
Lemma ordering_on {A B} (k : A → B) (f : B → B → Z) : ordering f → ordering (λ a b, f (k a) (k b)).
Proof. intros [Fa Ft]. split; [intros a b; apply Fa|intros a b c; apply Ft]. Qed.
Lemma ordering_num : ordering num_cmp.
Proof. split; unfold num_cmp; [intros a b|intros a b c]; repeat case_match; lia. Qed.
Lemma ltb_le s t : String.ltb s t = true ↔ String.le s t ∧ s ≠ t.
Proof.
  unfold String.ltb, String.le, String.leb. destruct (String.compare s t) eqn:Hc.
  - apply String.compare_eq_iff in Hc as ->. split; [done|by intros [_ ?]].
  - split; [|done]. intros _. split; [done|]. intros ->.
    pose proof (String.compare_antisym t t) as Ha. by rewrite Hc in Ha.
  - by split; [|intros [? _]].
Qed.
Lemma str_cmp_le s t : str_cmp s t <= 0 ↔ String.le s t.
Proof.
  unfold str_cmp. destruct (bool_decide_reflect (s = t)) as [->|Hne]; [by split|].
  destruct (String.ltb s t) eqn:Hl; [apply ltb_le in Hl as [? _]; by split|].
  split; [lia|]. intros H. exfalso. by rewrite (proj2 (ltb_le s t)) in Hl.
Qed.
Lemma ordering_str : ordering str_cmp.
Proof.
  split; [|intros a b c; rewrite !str_cmp_le; apply String.le_po]. intros a b.
  unfold str_cmp. rewrite (bool_decide_ext (b = a) (a = b)) by done.
  destruct (bool_decide_reflect (a = b)) as [->|Hne]; [done|].
  pose proof (ltb_le a b) as H1. pose proof (ltb_le b a) as H2.
  destruct (String.ltb a b), (String.ltb b a); [|done|done|].
  - destruct Hne. apply (anti_symm String.le); [by apply H1|by apply H2].
  - destruct (String.le_total a b) as [H|H]; [by discriminate (proj2 H1 (conj H Hne))|].
    by discriminate (proj2 H2 (conj H (not_eq_sym Hne))).
Qed.
Lemma str_cmp_eq s t : str_cmp s t = 0 → s = t.
Proof. unfold str_cmp. case_bool_decide; [done|]. by case_match. Qed.

(** A pool whose qualifier pairs it with a lock-release pool goes first, then the test pools. *)
Definition rank (qualifier : string) : Z :=
  if Contains qualifier "BurnMintTokenPool" && Contains qualifier "to LockReleaseTokenPool" then 0
  else if HasPrefix qualifier "TEST" then 1 else 2.
Definition pool_cmp (a b : AddressRef) : Z :=
  lex (num_cmp (rank (refQualifier a)) (rank (refQualifier b)))
    (lex (str_cmp (versionString (refVersion a)) (versionString (refVersion b)))
       (lex (str_cmp (refQualifier a) (refQualifier b)) (str_cmp (refAddress a) (refAddress b)))).
Lemma str_cmp_refl s : str_cmp s s = 0.
Proof. unfold str_cmp. by rewrite bool_decide_true. Qed.
Lemma str_cmp_ne s t : s ≠ t → str_cmp s t = (if String.ltb s t then -1 else 1) ∧ (str_cmp s t =? 0) = false.
Proof. intros H. unfold str_cmp. rewrite bool_decide_false by done. by destruct (String.ltb s t). Qed.
Lemma compare_is_lex a b : compareEVMStellarPoolRefs a b = pool_cmp a b.
Proof.
  unfold compareEVMStellarPoolRefs, pool_cmp, lex, num_cmp.
  change (rank (refQualifier a)) with (evmStellarPoolPreference a).
  change (rank (refQualifier b)) with (evmStellarPoolPreference b).
  destruct (Z.eqb_spec (evmStellarPoolPreference a) (evmStellarPoolPreference b)) as [->|Hp]; cbn [negb];
    [rewrite Z.eqb_refl|by destruct (_ <? _)].
  destruct (bool_decide_reflect (versionString (refVersion a) = versionString (refVersion b))) as [->|Hv]; cbn [negb];
    [rewrite str_cmp_refl, Z.eqb_refl|by destruct (str_cmp_ne _ _ Hv) as [-> ->]].
  destruct (bool_decide_reflect (refQualifier a = refQualifier b)) as [->|Hq]; cbn [negb];
    [rewrite str_cmp_refl, Z.eqb_refl|by destruct (str_cmp_ne _ _ Hq) as [-> ->]].
  destruct (decide (refAddress a = refAddress b)) as [->|Ha].
  - rewrite str_cmp_refl. by destruct (String.ltb (refAddress b) (refAddress b)) eqn:Hl; [apply ltb_le in Hl as [_ ?]|].
  - destruct (str_cmp_ne _ _ Ha) as [-> _]. destruct (String.ltb (refAddress a) (refAddress b)) eqn:Hl; [done|].
    destruct (String.ltb (refAddress b) (refAddress a)) eqn:Hl'; [done|].
    destruct (String.le_total (refAddress a) (refAddress b)) as [H|H]; [by rewrite (proj2 (ltb_le _ _) (conj H Ha)) in Hl|].
    by rewrite (proj2 (ltb_le _ _) (conj H (not_eq_sym Ha))) in Hl'.
Qed.
Lemma ordering_pools : ordering compareEVMStellarPoolRefs.
Proof.
  assert (ordering pool_cmp) as [Ha Ht].
  { apply (ordering_lex (λ a b, num_cmp (rank (refQualifier a)) (rank (refQualifier b)))
      (λ a b, lex _ _)); [apply (ordering_on (λ a, rank (refQualifier a))), ordering_num|].
    apply (ordering_lex (λ a b, str_cmp (versionString (refVersion a)) (versionString (refVersion b))) (λ a b, lex _ _));
      [apply (ordering_on (λ a, versionString (refVersion a))), ordering_str|].
    apply (ordering_lex (λ a b, str_cmp (refQualifier a) (refQualifier b)) (λ a b, str_cmp (refAddress a) (refAddress b)));
      [apply (ordering_on refQualifier), ordering_str|apply (ordering_on refAddress), ordering_str]. }
  split; [intros a b|intros a b c]; rewrite !compare_is_lex; [apply Ha|apply Ht].
Qed.
Lemma pool_le_iff a b : pool_le a b ↔ compareEVMStellarPoolRefs a b <= 0.
Proof. unfold pool_le. rewrite (ord_anti _ ordering_pools a b). lia. Qed.
#[export] Instance pool_le_total : Total pool_le.
Proof. intros a b. rewrite !pool_le_iff, (ord_anti _ ordering_pools a b). lia. Qed.
#[export] Instance pool_le_trans : Transitive pool_le.
Proof. intros a b c. rewrite !pool_le_iff. apply (ord_trans _ ordering_pools). Qed.
Lemma compare_zero a b : compareEVMStellarPoolRefs a b = 0 →
  versionString (refVersion a) = versionString (refVersion b) ∧ refQualifier a = refQualifier b ∧ refAddress a = refAddress b.
Proof.
  rewrite compare_is_lex. unfold pool_cmp, lex. repeat case_match; try (intros; lia).
  intros H'. split_and!; apply str_cmp_eq; lia.
Qed.

(** ** The choice of a pool *)

Section choice.
Context (sel : Z).
(** A pool of the chain that has a token. *)
Definition usable (refs : list AddressRef) (p : AddressRef) : Prop :=
  p ∈ refs ∧ is_evm_pool sel p = true ∧ ∃ t, findEVMTokenForPool refs sel (refQualifier p) = Some t.

Lemma first_with_token_spec refs pools : StronglySorted pool_le pools →
  match first_with_token refs sel pools with
  | Some (p, t) => p ∈ pools ∧ findEVMTokenForPool refs sel (refQualifier p) = Some t ∧
      ∀ q, q ∈ pools → findEVMTokenForPool refs sel (refQualifier q) ≠ None → compareEVMStellarPoolRefs p q <= 0
  | None => ∀ q, q ∈ pools → findEVMTokenForPool refs sel (refQualifier q) = None
  end.
Proof.
  induction 1 as [|p pools Hs IH Hp]; cbn [first_with_token]; [by intros q ?%not_elem_of_nil|].
  destruct (findEVMTokenForPool refs sel (refQualifier p)) as [t|] eqn:Ht.
  - split; [by left|]. split; [done|]. intros q [->|Hq]%elem_of_cons _.
    + pose proof (ord_anti _ ordering_pools p p). lia.
    + rewrite Forall_forall in Hp. by apply pool_le_iff, Hp.
  - destruct (first_with_token refs sel pools) as [[p' t]|].
    + destruct IH as (Hin & Ht' & Hmin). split; [by right|]. split; [done|]. intros q [->|Hq]%elem_of_cons Hq'; [done|by apply Hmin].
    + by intros q [->|Hq]%elem_of_cons; [|apply IH].
Qed.
Lemma resolve_spec refs :
  match ResolveEVMTokenPoolForStellar refs sel with
  | Some (p, t) => usable refs p ∧ findEVMTokenForPool refs sel (refQualifier p) = Some t ∧
      ∀ q, usable refs q → compareEVMStellarPoolRefs p q <= 0
  | None => ∀ q, ¬ usable refs q
  end.
Proof.
  unfold ResolveEVMTokenPoolForStellar.
  set (pools := merge_sort pool_le (List.filter (is_evm_pool sel) refs)).
  assert (∀ q, q ∈ pools ↔ q ∈ refs ∧ is_evm_pool sel q = true) as Hin.
  { intros q. unfold pools. rewrite merge_sort_Permutation, !list_elem_of_In. apply filter_In. }
  pose proof (first_with_token_spec refs pools (StronglySorted_merge_sort _ _)) as H.
  destruct (first_with_token refs sel pools) as [[p t]|].
  - destruct H as (Hp & Ht & Hmin). apply Hin in Hp as [Hp He]. split_and!; [by split_and!; [| |exists t]|done|].
    intros q (Hq & Hqe & t' & Ht'). apply Hmin; [by apply Hin|congruence].
  - intros q (Hq & Hqe & t' & Ht'). by rewrite (H q (proj2 (Hin q) (conj Hq Hqe))) in Ht'.
Qed.

(** Tokens of one type and qualifier are one; pools are told apart by version and qualifier. *)
Definition one_token (refs : list AddressRef) : Prop :=
  ∀ ty q r r', ty ∈ remoteTokenContractTypes → r ∈ refs → r' ∈ refs → is_token sel q ty r = true → is_token sel q ty r' = true → r = r'.
Definition one_pool (refs : list AddressRef) : Prop :=
  ∀ r r', r ∈ refs → r' ∈ refs → is_evm_pool sel r = true → is_evm_pool sel r' = true →
    versionString (refVersion r) = versionString (refVersion r') → refQualifier r = refQualifier r' → r = r'.
Lemma find_unique {A} (f : A → bool) l l' : l ≡ₚ l' → (∀ x y, x ∈ l → y ∈ l → f x = true → f y = true → x = y) →
  find f l = find f l'.
Proof.
  intros Hp Hu. destruct (find f l) as [x|] eqn:Hx, (find f l') as [y|] eqn:Hy; [| | |done].
  - apply find_some in Hx as [Hx Fx], Hy as [Hy Fy]. rewrite <- list_elem_of_In in Hx, Hy. rewrite <- Hp in Hy. f_equal. by apply Hu.
  - apply find_some in Hx as [Hx Fx]. rewrite <- list_elem_of_In, Hp, list_elem_of_In in Hx.
    rewrite (find_none _ _ Hy _ Hx) in Fx. done.
  - apply find_some in Hy as [Hy Fy]. rewrite <- list_elem_of_In, <- Hp, list_elem_of_In in Hy.
    rewrite (find_none _ _ Hx _ Hy) in Fy. done.
Qed.
Lemma find_token_perm refs refs' q types : refs ≡ₚ refs' → types ⊆ remoteTokenContractTypes → one_token refs →
  find_token refs sel q types = find_token refs' sel q types.
Proof.
  intros Hp Ht H1. induction types as [|ty types IH]; [done|]. cbn [find_token].
  rewrite (find_unique _ _ _ Hp).
  - rewrite IH; [done|]. intros x Hx. apply Ht. by right.
  - intros x y Hx Hy. apply (H1 ty q); [|done..]. apply Ht. by left.
Qed.

(** The EVM token and pool that are paired with the Stellar pool. If a burn-mint pool of
    the chain has a test token under its qualifier, then one of them is chosen, with its
    token: the least by preference (a pair for a lock-release pool first), version, qualifier
    and address; otherwise none is. The choice does not depend on the order of the datastore,
    when its references tell pools and tokens apart. *)
Theorem evm_pool_chosen refs :
  match ResolveEVMTokenPoolForStellar refs sel with
  | Some (p, t) => usable refs p ∧ findEVMTokenForPool refs sel (refQualifier p) = Some t ∧
      ∀ q, usable refs q → compareEVMStellarPoolRefs p q <= 0
  | None => ∀ q, ¬ usable refs q
  end ∧
  ∀ refs', refs ≡ₚ refs' → one_token refs → one_pool refs →
    ResolveEVMTokenPoolForStellar refs' sel = ResolveEVMTokenPoolForStellar refs sel.
Proof.
  split; [apply resolve_spec|]. intros refs' Hp Ht Hu.
  assert (∀ q, findEVMTokenForPool refs' sel q = findEVMTokenForPool refs sel q) as Hf.
  { intros q. symmetry. by apply find_token_perm. }
  assert (∀ q, usable refs' q ↔ usable refs q) as Hus by (intros q; unfold usable; by rewrite Hf, Hp).
  pose proof (resolve_spec refs) as H. pose proof (resolve_spec refs') as H'.
  destruct (ResolveEVMTokenPoolForStellar refs sel) as [[p t]|], (ResolveEVMTokenPoolForStellar refs' sel) as [[p' t']|].
  - destruct H as (Hp1 & Ht1 & Hm), H' as (Hp2 & Ht2 & Hm'). apply Hus in Hp2.
    pose proof (Hm _ Hp2) as C1. pose proof (Hm' _ (proj2 (Hus _) Hp1)) as C2.
    rewrite (ord_anti _ ordering_pools p p') in C2. destruct (compare_zero p p') as (Ev & Eq & _); [lia|].
    destruct Hp1 as (Hi1 & He1 & _), Hp2 as (Hi2 & He2 & _). assert (p = p') as <- by by apply Hu.
    rewrite Hf in Ht2. congruence.
  - destruct H as (Hp1 & _). by destruct (H' p (proj2 (Hus p) Hp1)).
  - destruct H' as (Hp1 & _). by destruct (H p' (proj1 (Hus p') Hp1)).
  - done.
Qed.

(** The choice without the code's helpers. A reference of the chain to a token of a type, under
    a qualifier; the token of a qualifier is the first one of the first type that has one. *)
Definition token_types : list string :=
  ["BurnMintERC20WithDripToken"; "BurnMintERC20WithDrip"; "BurnMintERC20Token"].
Definition is_of (ty q : string) (r : AddressRef) : Prop :=
  refChainSelector r = sel ∧ refType r = ty ∧ refQualifier r = q.
Definition paired_token (refs : list AddressRef) (q : string) (t : AddressRef) : Prop :=
  ∃ tys1 ty tys2 l1 l2, token_types = tys1 ++ ty :: tys2 ∧ refs = l1 ++ t :: l2 ∧ is_of ty q t ∧
    (∀ x, x ∈ l1 → ¬ is_of ty q x) ∧ (∀ ty' x, ty' ∈ tys1 → x ∈ refs → ¬ is_of ty' q x).
Definition candidate (refs : list AddressRef) (p : AddressRef) : Prop :=
  p ∈ refs ∧ refChainSelector p = sel ∧ refType p = "BurnMintTokenPool" ∧ ∃ t, paired_token refs (refQualifier p) t.
(** The pool and token of the chain: the least burn-mint pool that has a token. *)
Definition chosen (refs : list AddressRef) (p t : AddressRef) : Prop :=
  candidate refs p ∧ paired_token refs (refQualifier p) t ∧ ∀ p', candidate refs p' → pool_cmp p p' <= 0.

Lemma is_token_spec q ty r : is_token sel q ty r = true ↔ is_of ty q r.
Proof. unfold is_token, is_of. rewrite !andb_true_iff, Z.eqb_eq, !bool_decide_eq_true. tauto. Qed.
Lemma find_split {A} (f : A → bool) l x :
  find f l = Some x ↔ ∃ l1 l2, l = l1 ++ x :: l2 ∧ f x = true ∧ ∀ y, y ∈ l1 → f y = false.
Proof.
  induction l as [|y l IH]; cbn [find].
  { split; [done|]. intros (l1 & l2 & H & _). by destruct l1. }
  destruct (f y) eqn:Hy.
  - split.
    + intros [= <-]. exists [], l. split_and!; [done..|]. by intros z ?%not_elem_of_nil.
    + intros (l1 & l2 & H & Hx & Hl). destruct l1 as [|z l1]; injection H as -> ->; [done|].
      rewrite (Hl z) in Hy; [done|by left].
  - rewrite IH. split.
    + intros (l1 & l2 & -> & Hx & Hl). exists (y :: l1), l2. split_and!; [done..|].
      intros z [->|Hz]%elem_of_cons; [done|by apply Hl].
    + intros (l1 & l2 & H & Hx & Hl). destruct l1 as [|z l1]; injection H as -> ->; [congruence|].
      exists l1, l2. split_and!; [done..|]. intros w Hw. apply Hl. by right.
Qed.
Lemma find_token_spec refs q types t :
  find_token refs sel q types = Some t ↔
  ∃ tys1 ty tys2 l1 l2, types = tys1 ++ ty :: tys2 ∧ refs = l1 ++ t :: l2 ∧ is_of ty q t ∧
    (∀ x, x ∈ l1 → ¬ is_of ty q x) ∧ (∀ ty' x, ty' ∈ tys1 → x ∈ refs → ¬ is_of ty' q x).
Proof.
  induction types as [|ty types IH]; cbn [find_token].
  { split; [done|]. intros (tys1 & ? & ? & ? & ? & H & _). by destruct tys1. }
  destruct (find (is_token sel q ty) refs) as [x|] eqn:Hf.
  - apply find_split in Hf as (l1 & l2 & Hrefs & Hx & Hl). split.
    + intros [= <-]. exists [], ty, types, l1, l2. split_and!; [done|done|by apply is_token_spec| |].
      * intros y Hy. rewrite <- is_token_spec, (Hl y Hy). done.
      * by intros ? ? ?%not_elem_of_nil.
    + intros (tys1 & ty' & tys2 & k1 & k2 & Ht & Hr & Ho & Hb & Hn). destruct tys1 as [|z tys1]; injection Ht as -> ->.
      * assert (find (is_token sel q ty') refs = Some t) as E; [|rewrite <- E; symmetry; apply find_split; eauto 10].
        apply find_split. exists k1, k2. split_and!; [done|by apply is_token_spec|].
        intros y Hy. apply not_true_iff_false. rewrite is_token_spec. by apply Hb.
      * destruct (Hn z x); [by left| |by apply is_token_spec]. rewrite Hrefs. set_solver.
  - assert (∀ x, x ∈ refs → ¬ is_of ty q x) as Hnone.
    { intros x Hx Hof%is_token_spec. rewrite list_elem_of_In in Hx. by rewrite (find_none _ _ Hf x Hx) in Hof. }
    rewrite IH. split.
    + intros (tys1 & ty' & tys2 & l1 & l2 & -> & Hr & Ho & Hb & Hn). exists (ty :: tys1), ty', tys2, l1, l2.
      split_and!; [done..|]. intros ty0 x [->|H]%elem_of_cons Hx; [by apply Hnone|by apply Hn].
    + intros (tys1 & ty' & tys2 & l1 & l2 & Ht & Hr & Ho & Hb & Hn). destruct tys1 as [|z tys1]; injection Ht as -> ->.
      * exfalso. apply (Hnone t); [rewrite Hr; set_solver|done].
      * exists tys1, ty', tys2, l1, l2. split_and!; [done..|]. intros ty0 x H Hx. apply Hn; [by right|done].
Qed.
Lemma token_iff refs q t : findEVMTokenForPool refs sel q = Some t ↔ paired_token refs q t.
Proof. apply find_token_spec. Qed.
Lemma usable_iff refs p : usable refs p ↔ candidate refs p.
Proof.
  unfold usable, candidate, is_evm_pool. rewrite andb_true_iff, Z.eqb_eq, bool_decide_eq_true.
  setoid_rewrite token_iff. tauto.
Qed.
Lemma resolve_chosen refs :
  match ResolveEVMTokenPoolForStellar refs sel with
  | Some (p, t) => chosen refs p t
  | None => ∀ p, ¬ candidate refs p
  end.
Proof.
  pose proof (resolve_spec refs) as H. destruct (ResolveEVMTokenPoolForStellar refs sel) as [[p t]|].
  - destruct H as (Hp & Ht & Hm). split_and!; [by apply usable_iff|by apply token_iff|].
    intros p' Hp'%usable_iff. rewrite <- compare_is_lex. by apply Hm.
  - intros p Hp%usable_iff. by apply (H p).
Qed.
End choice.

(** ** The pool and token of a remote chain *)

Section pair.
Context {UT : UnicodeTables} {XS : XdrSdk} {LS : LaneSdk} {AS : AccessorSdk} {DT : Datastore} {CK : ContractKinds} {ST : SdkTypes} {DS : DeployerSdk}.
Context (r : Z) (refs : list AddressRef) (family : string).

Definition zeros : bytes := replicate (if decide (family = FamilyStellar) then 32 else 20) x00.
(** The bytes of a reference, of the length of the family's addresses. *)
Definition ref_bytes (ref : AddressRef) (b : bytes) : Prop :=
  hexutil_Decode (refAddress ref) = Ok b ∧ length b = (if decide (family = FamilyStellar) then 32 else 20)%nat.
Definition no_bytes (ref : AddressRef) : Prop := ∀ b, ¬ ref_bytes ref b.
(** The last reference to a type and qualifier. *)
Definition keyed (ty q : string) (ref : AddressRef) : Prop :=
  ∃ l1 l2, refs = l1 ++ ref :: l2 ∧ is_of r ty q ref ∧ ∀ x, x ∈ l2 → ¬ is_of r ty q x.
(** A pool of the chain, a burn-mint pool when there is one; and the token with its qualifier,
    of the first type whose reference can be read. *)
Definition other_pool (p : AddressRef) : Prop :=
  keyed "BurnMintTokenPool" (refQualifier p) p ∨
  keyed "LockReleaseTokenPool" (refQualifier p) p ∧ ∀ q x, ¬ keyed "BurnMintTokenPool" q x.
Definition other_token (q : string) (tb : bytes) : Prop :=
  (∃ tys1 ty tys2 t, token_types = tys1 ++ ty :: tys2 ∧ keyed ty q t ∧ ref_bytes t tb ∧
     ∀ ty' x, ty' ∈ tys1 → keyed ty' q x → no_bytes x) ∨
  (∀ ty x, ty ∈ token_types → keyed ty q x → no_bytes x) ∧ tb = zeros.
(** The bytes of the pool and of the token in a configuration: on an EVM chain those of the
    chosen pair, elsewhere, or when there is none, those of another pool, or zeros. *)
Definition remote_pair (pool token : bytes) : Prop :=
  (∃ p t, family = FamilyEVM ∧ chosen r refs p t ∧
     (ref_bytes p pool ∧ ref_bytes t token ∨ (no_bytes p ∨ no_bytes t) ∧ pool = zeros ∧ token = zeros)) ∨
  (family = FamilyEVM → ∀ p, ¬ candidate r refs p) ∧
    ((∀ p, ¬ other_pool p) ∧ pool = zeros ∧ token = zeros ∨
     ∃ p, other_pool p ∧ (ref_bytes p pool ∧ other_token (refQualifier p) token ∨
                          no_bytes p ∧ pool = zeros ∧ token = zeros)).

Lemma keyed_snoc ty q ref l x :
  (∃ l1 l2, l ++ [x] = l1 ++ ref :: l2 ∧ is_of r ty q ref ∧ ∀ y, y ∈ l2 → ¬ is_of r ty q y) ↔
  (is_of r ty q x ∧ ref = x) ∨
  (¬ is_of r ty q x ∧ ∃ l1 l2, l = l1 ++ ref :: l2 ∧ is_of r ty q ref ∧ ∀ y, y ∈ l2 → ¬ is_of r ty q y).
Proof.
  split.
  - intros (l1 & l2 & H & Ho & Hn). destruct l2 as [|z l2 _] using rev_ind.
    + apply app_inj_tail in H as [-> ->]. by left.
    + rewrite app_comm_cons, app_assoc in H. apply app_inj_tail in H as [-> ->]. right.
      split; [apply Hn; set_solver|]. exists l1, l2. split_and!; [done..|]. intros y Hy. apply Hn. set_solver.
  - intros [[Ho ->]|(Hx & l1 & l2 & -> & Ho & Hn)].
    + exists l, []. split_and!; [done..|]. by intros y ?%not_elem_of_nil.
    + exists l1, (l2 ++ [x]). rewrite <- app_assoc. split_and!; [done..|].
      intros y [Hy|Hy]%elem_of_app; [by apply Hn|]. by apply list_elem_of_singleton in Hy as ->.
Qed.
Lemma by_key_iff ty q ref : by_key r refs !! (ty, q) = Some ref ↔ keyed ty q ref.
Proof.
  unfold keyed. induction refs as [|x l IH] using rev_ind.
  { cbn. rewrite lookup_empty. split; [done|]. intros (l1 & l2 & H & _). by destruct l1. }
  rewrite keyed_snoc, <- IH. unfold by_key. rewrite foldl_app. cbn [foldl]. unfold is_of.
  destruct (Z.eqb_spec (refChainSelector x) r) as [Hr|Hr]; [|tauto].
  destruct (decide ((refType x, refQualifier x) = (ty, q))) as [E|E].
  - injection E as <- <-. rewrite lookup_insert_eq. split; [intros [= <-]; by left|intros [[_ ->]|[[] _]]; done].
  - rewrite lookup_insert_ne by done. split; [intros H; right; split; [|done]|].
    + intros (_ & H1 & H2). by rewrite H1, H2 in E.
    + intros [[(_ & H1 & H2) _]|[_ H]]; [by rewrite H1, H2 in E|done].
Qed.

Context (Hfamily : GetSelectorFamily r = Ok family).
Lemma bytes_iff ref b : AddressBytesHex ref r = Ok b ↔ ref_bytes ref b.
Proof.
  rewrite AddressBytesHex_Ok. unfold ref_bytes, AddressBytesLength, StellarAddressByteLen. rewrite Hfamily.
  split; intros [Hd Hl]; (split; [done|]); case_decide; try (injection Hl; lia); by rewrite Hl.
Qed.
Lemma no_bytes_iff ref e : AddressBytesHex ref r = Err e → no_bytes ref.
Proof. intros H b Hb%bytes_iff. by rewrite H in Hb. Qed.

Lemma first_token_spec q types :
  match first_token (by_key r refs) q r types with
  | Some tb => ∃ tys1 ty tys2 t, types = tys1 ++ ty :: tys2 ∧ keyed ty q t ∧ ref_bytes t tb ∧
                 ∀ ty' x, ty' ∈ tys1 → keyed ty' q x → no_bytes x
  | None => ∀ ty x, ty ∈ types → keyed ty q x → no_bytes x
  end.
Proof.
  induction types as [|ty types IH]; cbn [first_token]; [by intros ? ? ?%not_elem_of_nil|].
  assert (∀ x, by_key r refs !! (ty, q) = Some x → keyed ty q x) as Hk by (intros; by apply by_key_iff).
  assert ((∀ x, keyed ty q x → no_bytes x) →
    match first_token (by_key r refs) q r types with
    | Some tb => ∃ tys1 ty' tys2 t, ty :: types = tys1 ++ ty' :: tys2 ∧ keyed ty' q t ∧ ref_bytes t tb ∧
                   ∀ ty' x, ty' ∈ tys1 → keyed ty' q x → no_bytes x
    | None => ∀ ty' x, ty' ∈ ty :: types → keyed ty' q x → no_bytes x
    end) as Hnext.
  { intros Hnone. destruct (first_token _ q r types) as [tb|].
    - destruct IH as (tys1 & ty' & tys2 & t & -> & Ht & Hb & Hn). exists (ty :: tys1), ty', tys2, t.
      split_and!; [done..|]. intros ty0 x [->|H]%elem_of_cons Hx; [by apply Hnone|by apply (Hn ty0)].
    - intros ty0 x [->|H]%elem_of_cons Hx; [by apply Hnone|by apply (IH ty0)]. }
  destruct (by_key r refs !! (ty, q)) as [t|] eqn:Ht.
  - destruct (AddressBytesHex t r) as [tb|e] eqn:Hb.
    + exists [], ty, types, t. split_and!; [done|by apply Hk|by apply bytes_iff|]. by intros ? ? ?%not_elem_of_nil.
    + apply Hnext. intros x Hx%by_key_iff. rewrite Ht in Hx. injection Hx as <-. by eapply no_bytes_iff.
  - apply Hnext. intros x Hx%by_key_iff. by rewrite Ht in Hx.
Qed.

Context (orders : nat → list (string * string) → list (string * string)) (Horders : ∀ i l, orders i l ≡ₚ l).
Lemma find_pool_key i ty :
  match find (λ key : string * string, bool_decide (fst key = ty)) (orders i (fst <$> map_to_list (by_key r refs))) with
  | Some key => ∃ p, by_key r refs !! key = Some p ∧ keyed ty (refQualifier p) p
  | None => ∀ q x, ¬ keyed ty q x
  end.
Proof.
  assert (∀ key, key ∈ orders i (fst <$> map_to_list (by_key r refs)) ↔ is_Some (by_key r refs !! key)) as Hin.
  { intros key. rewrite (Horders i _), list_elem_of_fmap. split.
    - intros ([k x] & -> & H%elem_of_map_to_list). by exists x.
    - intros [x H]. exists (key, x). split; [done|]. by apply elem_of_map_to_list. }
  destruct (find _ _) as [[t q]|] eqn:Hf.
  - apply find_some in Hf as [Hk Ht]. cbn in Ht. apply bool_decide_eq_true in Ht as ->.
    rewrite <- list_elem_of_In in Hk. apply Hin in Hk as [p Hp]. exists p. split; [done|].
    apply by_key_iff in Hp. destruct Hp as (l1 & l2 & Hl & (H1 & H2 & H3) & Hn). rewrite H3. by exists l1, l2.
  - intros q x Hx%by_key_iff. assert ((ty, q) ∈ orders i (fst <$> map_to_list (by_key r refs))) as Hk by (apply Hin; by exists x).
    rewrite list_elem_of_In in Hk. pose proof (find_none _ _ Hf _ Hk) as H. cbn in H. by apply bool_decide_eq_false in H.
Qed.
Lemma first_pool_spec :
  match first_pool orders 0 (by_key r refs) remotePoolContractTypes with
  | Some p => other_pool p
  | None => ∀ p, ¬ other_pool p
  end.
Proof.
  unfold remotePoolContractTypes. cbn [first_pool]. pose proof (find_pool_key 0 "BurnMintTokenPool") as H1.
  destruct (find _ _) as [key|]; [destruct H1 as (p & -> & Hp); by left|].
  pose proof (find_pool_key 1 "LockReleaseTokenPool") as H2.
  destruct (find _ _) as [key|]; [destruct H2 as (p & -> & Hp); by right|].
  intros p [H|[H _]]; [by apply (H1 _ _ H)|by apply (H2 _ _ H)].
Qed.
Lemma remote_pair_of ds b : Fetch ds = Ok refs → resolveRemotePoolAndToken orders ds r = Ok b → remote_pair (fst b) (snd b).
Proof.
  intros Hfetch. unfold resolveRemotePoolAndToken, AddressBytesLength. rewrite Hfamily. cbn [mbind result_bind].
  assert (∀ n, (if decide (family = FamilyStellar) then Ok StellarAddressByteLen else Ok 20) = Ok n → replicate (Z.to_nat n) x00 = zeros) as Hz.
  { intros n. unfold zeros. case_decide; by intros [= <-]. }
  destruct (if decide (family = FamilyStellar) then Ok StellarAddressByteLen else Ok 20) as [n|e] eqn:Hn; [|done].
  cbn [mbind result_bind]. rewrite (Hz n eq_refl), Hfetch. clear Hz Hn.
  assert (∀ c, match first_pool orders 0 (by_key r refs) remotePoolContractTypes with
     | None => (zeros, zeros)
     | Some poolRef => match AddressBytesHex poolRef r with
         | Err _ => (zeros, zeros)
         | Ok poolBytes => (poolBytes, default zeros (first_token (by_key r refs) (refQualifier poolRef) r remoteTokenContractTypes))
         end
     end = c → (family = FamilyEVM → ∀ p, ¬ candidate r refs p) → remote_pair (fst c) (snd c)) as Hother.
  { intros c <- Hc. right. split; [done|]. pose proof first_pool_spec as Hp.
    destruct (first_pool orders 0 _ _) as [p|]; [|by left]. right. exists p. split; [done|].
    destruct (AddressBytesHex p r) as [pb|e] eqn:Hb; [left|right; split; [by eapply no_bytes_iff|done]].
    split; [by apply bytes_iff|]. cbn [snd]. pose proof (first_token_spec (refQualifier p) remoteTokenContractTypes) as Ht.
    destruct (first_token _ _ r _) as [tb|]; [by left|by right]. }
  destruct (decide (family = FamilyEVM)) as [Hevm|Hevm]; [|intros [= <-]; by apply Hother].
  pose proof (resolve_chosen r refs) as Hc.
  destruct (ResolveEVMTokenPoolForStellar refs r) as [[p t]|]; [|intros [= <-]; by apply Hother].
  intros [= <-]. left. exists p, t. split; [done|]. split; [done|]. unfold pair_bytes.
  destruct (AddressBytesHex p r) as [pb|e] eqn:Hp; [|right; split; [left; by eapply no_bytes_iff|done]].
  destruct (AddressBytesHex t r) as [tb|e] eqn:Ht; [|right; split; [right; by eapply no_bytes_iff|done]].
  left. by split; apply bytes_iff.
Qed.
End pair.

(** ** What the chain asks of outside *)

Inductive chain_ext : Type → Type :=
| XInvoke (contractID fn : string) (args : list ScVal) : chain_ext (result (option ScVal))
| XSimulate (contractID fn : string) (args : list ScVal) : chain_ext (result (option ScVal))
| XDeploy (wasmPath : string) (salt : bytes) : chain_ext (result string)
| XExecute (id : string) (inp : list value) : chain_ext (result (list value))
| XAccount (raw : bytes) : chain_ext (result (Z * Z * bool))
| XPay (destination : string) (stroops : Z) : chain_ext (result unit)
| XLatest : chain_ext (result Z)
| XWait X (e : Client.wait_ext X) : chain_ext X
| XGet (url : string) : chain_ext (result (bool * string))
| XSleep (d : Z) : chain_ext unit
| XSupported (sel : Z) (pool : bytes) : chain_ext (result (list Z))
| XRemotePools (sel : Z) (pool : bytes) (remote : Z) : chain_ext (result (list bytes))
| XRemoteToken (sel : Z) (pool : bytes) (remote : Z) : chain_ext (result bytes)
| XApply (sel : Z) (pool : bytes) (updates : list EvmChainUpdate) : chain_ext (result unit)
| XRegister (sel : Z) (token pool registry : bytes) : chain_ext (result unit).
Abbreviation hist := (hist (E := chain_ext)).
Abbreviation event := (event (E := chain_ext)).

#[export] Instance chain_invoker {W} : Invoker W chain_ext := {|
  Invoke := λ c f args, gcall (XInvoke c f args);
  SimulateCall := λ c f args, gcall (XSimulate c f args)
|}.
#[export] Instance chain_cldf {W} : Cldf W chain_ext := {|
  ExecuteOperation := λ op deps inp, gcall (XExecute (opID op) inp);
  ExecuteSequence := λ I O s chains inp, seqHandler s chains inp;
  NewBatchOperationFromWrites := λ wos, GErr "no writes"
|}.
Definition the_deployer : ChainDeployer ChainFields chain_ext :=
  mkChainDeployer (mkStellarDeps (λ p s, gcall (XDeploy p s)) chain_invoker) (λ raw, gcall (XAccount raw))
    (λ d s, gcall (XPay d s)).
Definition a_chain (selector : Z) (passphrase address url : string) : Chain ChainFields chain_ext :=
  mkChain selector passphrase (Some address) (Some the_deployer) (Some (gcall XLatest)) url.

(** Which calls failed. A run that succeeds has no failed call; one that fails stops at the
    first. *)
Definition err {A} (r : result A) : bool := negb (is_ok r).
Definition failed (ev : event) : bool :=
  (match fst (projT2 ev) in chain_ext X return X → bool with
   | XInvoke _ _ _ | XSimulate _ _ _ => err | XDeploy _ _ => err | XExecute _ _ => err | XAccount _ => err
   | XPay _ _ => err | XLatest => err | XWait _ _ => λ _, false | XGet _ => err | XSleep _ => λ _, false
   | XSupported _ _ => err | XRemotePools _ _ _ => err | XRemoteToken _ _ _ => err | XApply _ _ _ => err
   | XRegister _ _ _ _ => err
   end) (snd (projT2 ev)).
Definition all_ok (h : hist) : Prop := Forall (λ ev, failed ev = false) h.
Definition stops (h : hist) : Prop := ∀ h1 ev h2, h = h1 ++ ev :: h2 → failed ev = true → h2 = [].
Definition good {W A} (P : A → W → hist → Prop) (r : gres A) (w : W) (h : hist) : Prop :=
  match r with GVal a => all_ok h ∧ P a w h | GErr _ => stops h | GPanic _ => False end.
Definition any_answer (X : Type) (e : chain_ext X) (x : X) : Prop := True.

Lemma all_ok_stops h ev : all_ok h → stops (h ++ [ev]).
Proof.
  intros Hok h1 ev' h2 Heq Hf. destruct h2 as [|x h2] using rev_ind; [done|]. exfalso.
  rewrite app_comm_cons, app_assoc in Heq. apply app_inj_tail in Heq as [-> _].
  apply Forall_app in Hok as [_ Hok]. inversion Hok as [|? ? Hn]. congruence.
Qed.
Lemma all_ok_stops_now h : all_ok h → stops h.
Proof.
  intros Hok h1 ev h2 -> Hf. apply Forall_app in Hok as [_ Hok]. inversion Hok as [|? ? Hn]. congruence.
Qed.

Section rules.
Context {W : Type}.
Implicit Types (w : W) (h : hist).
Abbreviation ends p w h P := (total any_answer p w h (good P)).

Lemma good_then {A B} (p : prog W chain_ext (gres A)) (f : A → prog W chain_ext (gres B)) w h P Q :
  ends p w h P → (∀ a w' h', all_ok h' → P a w' h' → ends (f a) w' h' Q) → ends (gthen p f) w h Q.
Proof. intros Hp Hf. eapply total_gthen; [exact Hp|]. intros [a|e|m] w' h' H; [by apply Hf; apply H|exact H|exact H]. Qed.
Lemma good_ctx {A} ctx (p : prog W chain_ext (gres A)) w h P : ends p w h P → ends (gctx ctx p) w h P.
Proof. intros Hp. apply total_gctx. eapply total_mono; [|exact Hp]. by intros [a|e|m] w' h' H. Qed.
Lemma good_mono {A} (p : prog W chain_ext (gres A)) w h (P Q : A → W → hist → Prop) :
  ends p w h P → (∀ a w' h', P a w' h' → Q a w' h') → ends p w h Q.
Proof.
  intros Hp H. eapply total_mono; [|exact Hp]. intros [a|e|m] w' h' Ha; [|exact Ha|exact Ha].
  destruct Ha as [Hok Ha]. split; [done|by apply H].
Qed.
Lemma good_result {A B} (r : result A) (f : A → prog W chain_ext (gres B)) w h Q :
  all_ok h → (∀ a, r = Ok a → ends (f a) w h Q) → ends (gthen (Ret (of_result r)) f) w h Q.
Proof. intros Hh Hf. destruct r as [a|e]; [by apply Hf|]. by apply all_ok_stops_now. Qed.
Lemma good_call {A} (e : chain_ext (result A)) w h P :
  all_ok h → (∀ r, failed (answered e r) = err r) →
  (∀ a, P a w (h ++ [answered e (Ok a)])) → ends (gcall e) w h P.
Proof.
  intros Hh Hf HP [a|e'] _; cbn; [|by apply all_ok_stops].
  split; [|apply HP]. apply Forall_app. split; [done|]. apply Forall_singleton. by rewrite Hf.
Qed.
End rules.

(** ** Calls of contracts *)

(** A method of a generated client, on a contract, with its arguments. *)
Record method_call := mkMethodCall { target : string; interface : Contract; function : Function; arguments : list value }.
Section methods.
Context {UT : UnicodeTables} {XS : XdrSdk} {XL : XdrLaws} (enumerate : list string → list string) (Henum : enumerates enumerate).
(** The call that was made of it, with the arguments on the wire. *)
Definition made_with (m : method_call) (r : result (option ScVal)) (ev : event) : Prop :=
  ∃ args, Client.args_to (package enumerate (interface m)) (Inputs (function m)) (arguments m) = GVal args ∧
    carries (package enumerate (interface m)) (Inputs (function m)) (arguments m) args ∧
    ev = if Client.isReadOnlyFunction (function m) then answered (XSimulate (target m) (functionName (function m)) args) r
         else answered (XInvoke (target m) (functionName (function m)) args) r.
Definition made_as (m : method_call) (ev : event) : Prop := ∃ r, made_with m r ev.
Lemma contract_method {W E} {IV : Invoker W E} c fn vs contractID :
  c ∈ contracts → fn ∈ Functions c → fields_typed (named_in c) (Inputs fn) vs →
  ∃ args, (Client.args_to (package enumerate c) (Inputs fn) vs = GVal args ∧ carries (package enumerate c) (Inputs fn) vs args) ∧
    Client.method (package enumerate c) contractID fn vs =
      (result <-? gctx ("failed to call " +:+ functionName fn) (the_call contractID fn args);
       Ret (Client.results_of (package enumerate c) fn result)).
Proof.
  intros Hc Hfn Hv. destruct (supported_in c Hc) as (_ & Hf & _). specialize (Hf fn Hfn).
  unfold function_ok in Hf. apply andb_true_iff in Hf as [Hin _].
  destruct (args_carry _ _ _ (named_env enumerate c Hc Henum) (Inputs fn) vs Hin Hv) as (args & Ha & Hcar).
  exists args. split; [done|]. unfold Client.method. rewrite Ha. unfold the_call. by destruct (Client.isReadOnlyFunction fn).
Qed.
(** A method that changes the contract and returns nothing. *)
Lemma good_invoke {W} c fn vs contractID (w : W) h :
  c ∈ contracts → fn ∈ Functions c → fields_typed (named_in c) (Inputs fn) vs →
  Client.isReadOnlyFunction fn = false → Returns fn = RetVoid → all_ok h →
  total any_answer (Client.method (IV := chain_invoker) (package enumerate c) contractID fn vs) w h
    (good (λ _ w' h', w' = w ∧ ∃ ev, h' = h ++ [ev] ∧ made_as (mkMethodCall contractID c fn vs) ev)).
Proof.
  intros Hc Hfn Hv Hro Hret Hok. destruct (contract_method (IV := chain_invoker (W := W)) c fn vs contractID Hc Hfn Hv) as (args & [Ha Hcar] & ->).
  eapply (good_then _ _ _ _ (λ r w' h', w' = w ∧ h' = h ++ [answered (XInvoke contractID (functionName fn) args) (Ok r)])).
  - apply good_ctx. unfold the_call. rewrite Hro. by apply good_call.
  - intros r w' h' Hok' [-> ->]. unfold Client.results_of. rewrite Hret. split; [done|]. split; [done|].
    eexists. split; [done|]. exists (Ok r), args. split; [done|]. split; [done|]. cbn. by rewrite Hro.
Qed.
(** Any method, with the answer of the contract; what comes off the wire is well formed. *)
Definition wire_answer (X : Type) (e : chain_ext X) : X → Prop :=
  match e in chain_ext X return X → Prop with
  | XInvoke _ _ _ | XSimulate _ _ _ => λ r, match r with Ok (Some sc) => valid sc = true | _ => True end
  | _ => λ _, True
  end.
Definition reply (c : Contract) (fn : Function) (r : result (option ScVal)) : gres (list value) :=
  match r with
  | Ok res => Client.results_of (package enumerate c) fn res
  | Err e => GErr (("failed to call " +:+ functionName fn) +:+ ": " +:+ e)
  end.
Lemma method_total {W} c fn vs contractID (w : W) h :
  c ∈ contracts → fn ∈ Functions c → fields_typed (named_in c) (Inputs fn) vs →
  total wire_answer (Client.method (IV := chain_invoker) (package enumerate c) contractID fn vs) w h
    (λ r w' h', w' = w ∧ ∃ ans ev, h' = h ++ [ev] ∧ made_with (mkMethodCall contractID c fn vs) ans ev ∧
       r = reply c fn ans ∧ panics r = false).
Proof.
  intros Hc Hfn Hv. destruct (contract_method (IV := chain_invoker (W := W)) c fn vs contractID Hc Hfn Hv) as (args & [Ha Hcar] & ->).
  destruct (supported_in c Hc) as (_ & Hf & _). specialize (Hf fn Hfn).
  eapply (total_gctx_gthen _ _ _ _ _ _ (λ r w' h', w' = w ∧ ∃ ans ev, h' = h ++ [ev] ∧
    made_with (mkMethodCall contractID c fn vs) ans ev ∧ r = of_result ans ∧
    match ans with Ok (Some sc) => valid sc = true | _ => True end)).
  - unfold the_call, made_with. cbn [function target interface arguments].
    destruct (Client.isReadOnlyFunction fn); intros r Hr; (split; [done|]); exists r; eexists; split_and!; [done|by exists args|done|exact Hr|done|by exists args|done|exact Hr].
  - intros r w' h' (-> & ans & ev & -> & Hm & -> & Hval). destruct ans as [res|e]; cbn [of_result].
    + split; [done|]. exists (Ok res), ev. split_and!; [done..|]. eapply results_safe; [by apply safe_env|by apply struct_env|exact Hf|by destruct res].
    + split; [done|]. exists (Err e), ev. by split_and!.
Qed.
End methods.

(** ** Connecting a chain *)

Lemma id_set_id f x s g : id_of (set_id f x s) g = if decide (g = f) then x else id_of s g.
Proof. done. Qed.

Ltac among := first [apply list_elem_of_here|apply list_elem_of_further; among].

Section connect.
Context {ST : SdkTypes} {SD : Sdk} {UT : UnicodeTables} {XS : XdrSdk} {XL : XdrLaws} {HF : HostFunctions}
  {MS : MetaSdk} {RS : RpcSdk} {FC : FloatConv} {DS : DeployerSdk} {LS : LaneSdk} {AS : AccessorSdk}
  {DT : Datastore} {CK : ContractKinds} {SB : ScValBinary} {CP : CcvProtocol} {DV : DevenvSdk}.
Context (enumerate : list string → list string) (Henum : enumerates enumerate).
(** The texts of EVM addresses, and the name of the registry there. *)
Context (isHex : string → bool) (toAddress : string → bytes) (hexOf : bytes → string) (tarType : string).
#[local] Instance evm_tooling : EvmTooling ChainFields chain_ext := {|
  IsHexAddress := isHex; HexToAddress := toAddress; AddressHex := hexOf; evmtar_ContractType := tarType;
  GetSupportedChains := λ s p, gcall (XSupported s p);
  GetRemotePools := λ s p r, gcall (XRemotePools s p r);
  GetRemoteToken := λ s p r, gcall (XRemoteToken s p r);
  ApplyChainUpdates := λ s p u, gcall (XApply s p u);
  RegisterToken := λ s t p r, gcall (XRegister s t p r)
|}.
Context (selector : Z) (passphrase address url : string).
Abbreviation chain := (a_chain selector passphrase address url).
Abbreviation get := (λ s : ChainFields, s).
Abbreviation put := (λ (s _ : ChainFields), s).
Abbreviation ends p w h P := (total any_answer p w h (good P)).
Abbreviation made_as := (made_as enumerate).
Implicit Types (s : ChainFields) (h : hist).

(** *** Local contracts *)

Definition set_missing (f : chain_id) (x : string) (s : ChainFields) : ChainFields :=
  if decide (id_of s f = "") then set_id f x s else s.
Definition client_missing (k : chain_client) (f : chain_id) (s : ChainFields) : ChainFields :=
  match client_of s k with None => set_client k (id_of s f) s | Some _ => s end.
(** The id that the chain has, or else the one recorded. *)
Definition local_id (ds : MemoryDataStore) (s : ChainFields) (f : chain_id) (r : DatastoreSorobanContractRef) (x : string) : Prop :=
  if decide (id_of s f = "") then LookupStrkey r ds selector = Ok x else x = id_of s f.
Definition ensured (onr offr rt vvr : string) (s : ChainFields) : ChainFields :=
  client_missing routerClient routerContractID (client_missing offRampClient offRampContractID
    (client_missing onRampClient onRampContractID
       (set_missing vvrContractID vvr (set_missing routerContractID rt (set_missing offRampContractID offr
          (set_missing onRampContractID onr s)))))).

Lemma set_missing_other f x s g : g ≠ f → id_of (set_missing f x s) g = id_of s g.
Proof. intros Hg. unfold set_missing. case_decide; [|done]. rewrite id_set_id. by rewrite decide_False. Qed.
Lemma set_missing_is ds f r x s : local_id ds s f r x → id_of (set_missing f x s) f = x.
Proof. unfold local_id, set_missing. case_decide; [|done]. intros _. rewrite id_set_id. by rewrite decide_True. Qed.
Lemma local_id_other ds s s' f r x : id_of s' f = id_of s f → local_id ds s' f r x → local_id ds s f r x.
Proof. unfold local_id. by intros ->. Qed.
Lemma client_missing_id k f s g : id_of (client_missing k f s) g = id_of s g.
Proof. unfold client_missing. by destruct (client_of s k). Qed.
Lemma client_missing_other k f s k' : k' ≠ k → client_of (client_missing k f s) k' = client_of s k'.
Proof. intros Hk. unfold client_missing. destruct (client_of s k); [done|]. cbn. by rewrite decide_False. Qed.
Lemma client_missing_some k f s : is_Some (client_of (client_missing k f s) k).
Proof. unfold client_missing. destruct (client_of s k) eqn:E; [by rewrite E; eexists|]. cbn. rewrite decide_True by done. by eexists. Qed.

Lemma good_ensure_id f what r ds s h : all_ok h →
  ends (ensure_id get put f what r ds selector) s h (λ _ s' h', h' = h ∧ ∃ x, local_id ds s f r x ∧ s' = set_missing f x s).
Proof.
  intros Hok. unfold ensure_id. apply total_gets. unfold local_id, set_missing. case_decide as Hid.
  - destruct (LookupStrkey r ds selector) as [x|e] eqn:Hl; [|by apply all_ok_stops_now].
    apply total_modify. split; [done|]. split; [done|]. by exists x.
  - split; [done|]. split; [done|]. by exists (id_of s f).
Qed.
Definition local_ids (ds : MemoryDataStore) (s : ChainFields) (onr offr rt vvr : string) : Prop :=
  local_id ds s onRampContractID OnRampDatastoreRef onr ∧ local_id ds s offRampContractID OffRampDatastoreRef offr ∧
  local_id ds s routerContractID RouterDatastoreRef rt ∧ local_id ds s vvrContractID VVRDatastoreRef vvr.
Lemma good_ensure ds s h : all_ok h →
  ends (ensureLocalContracts get put chain ds selector) s h
    (λ _ s' h', h' = h ∧ ∃ onr offr rt vvr, local_ids ds s onr offr rt vvr ∧ s' = ensured onr offr rt vvr s).
Proof.
  intros Hok. unfold ensureLocalContracts. cbn [deployer a_chain].
  eapply good_then; [by apply good_ensure_id|]. intros _ ? ? _ (-> & onr & H1 & ->).
  eapply good_then; [by apply good_ensure_id|]. intros _ ? ? _ (-> & offr & H2 & ->).
  eapply good_then; [by apply good_ensure_id|]. intros _ ? ? _ (-> & rt & H3 & ->).
  eapply good_then; [by apply good_ensure_id|]. intros _ ? ? _ (-> & vvr & H4 & ->).
  unfold ensure_client. do 3 apply total_modify. split; [done|]. split; [done|]. exists onr, offr, rt, vvr.
  split; [|done]. split_and!; [done|eapply local_id_other, H2|eapply local_id_other, H3|eapply local_id_other, H4];
    by rewrite !set_missing_other.
Qed.
Lemma ensured_ids ds s onr offr rt vvr : local_ids ds s onr offr rt vvr →
  let s' := ensured onr offr rt vvr s in
  id_of s' onRampContractID = onr ∧ id_of s' offRampContractID = offr ∧ id_of s' routerContractID = rt ∧
  id_of s' vvrContractID = vvr ∧
  (∀ f, f ∉ [onRampContractID; offRampContractID; routerContractID; vvrContractID] → id_of s' f = id_of s f) ∧
  is_Some (client_of s' onRampClient) ∧ is_Some (client_of s' offRampClient) ∧ is_Some (client_of s' routerClient).
Proof.
  intros (H1 & H2 & H3 & H4). cbv zeta. unfold ensured. rewrite !client_missing_id.
  split_and!.
  - rewrite (set_missing_other vvrContractID), (set_missing_other routerContractID), (set_missing_other offRampContractID) by done.
    by apply (set_missing_is ds _ OnRampDatastoreRef).
  - rewrite !(set_missing_other vvrContractID), !(set_missing_other routerContractID) by done.
    apply (set_missing_is ds _ OffRampDatastoreRef). unfold local_id. by rewrite set_missing_other.
  - rewrite !(set_missing_other vvrContractID) by done.
    apply (set_missing_is ds _ RouterDatastoreRef). unfold local_id. by rewrite !set_missing_other.
  - apply (set_missing_is ds _ VVRDatastoreRef). unfold local_id. by rewrite !set_missing_other.
  - intros f Hf. rewrite !client_missing_id. rewrite !set_missing_other; [done| | | |]; set_solver.
  - rewrite !client_missing_other by done. apply client_missing_some.
  - rewrite (client_missing_other routerClient) by done. apply client_missing_some.
  - apply client_missing_some.
Qed.

(** *** Lanes *)

Definition onramp_call (onRamp : string) (dests : list value) : method_call :=
  mkMethodCall onRamp OnRampClient.contract OnRampClient.apply_dest_chain_config_updates [VSlice dests].
Definition offramp_call (offRamp : string) (srcs : list value) : method_call :=
  mkMethodCall offRamp OffRampClient.contract OffRampClient.apply_source_chain_cfg_updates [VSlice srcs].
(** Every remote chain at the router, with this chain's ramps. *)
Definition router_call (router onr offr : string) (rs : list Z) : method_call :=
  mkMethodCall router RouterClient.contract RouterClient.apply_ramp_updates
    [VSlice ((λ r, VStruct [VNum r; VString onr]) <$> rs); VSlice [];
     VSlice ((λ r, VStruct [VString offr; VNum r]) <$> rs)].
(** The three calls: a lane for every remote chain, in order ([dest_lane], [source_lane]). *)
Definition lanes_connected (ds : MemoryDataStore) (rs : list Z) (s : ChainFields) (l : hist) : Prop :=
  ∃ executor dests srcs onC offC rtC,
    LookupStrkey (ExecutorProxyDatastoreRef DefaultExecutorQualifier) ds selector = Ok executor ∧
    Forall2 (dest_lane (id_of s vvrContractID) (id_of s routerContractID) executor ds true) rs dests ∧
    Forall2 (source_lane (id_of s vvrContractID) (id_of s routerContractID) ds true) rs srcs ∧
    client_of s onRampClient = Some onC ∧ client_of s offRampClient = Some offC ∧ client_of s routerClient = Some rtC ∧
    Forall2 made_as [onramp_call onC dests; offramp_call offC srcs;
                     router_call rtC (id_of s onRampContractID) (id_of s offRampContractID) rs] l.

Lemma dests_typed ds rs executor vvr rt dests : is_strkey vvr → is_strkey rt → is_strkey executor →
  Forall (λ r, is_uint64 r = true) rs → BuildOnRampDestConfigs ds rs executor true vvr rt = Ok dests →
  Forall (named_in OnRampClient.contract "DestChainConfigArgs") dests.
Proof.
  intros Hv Hr He Hu Hb. eapply (imapM_Forall2 _ (λ _ v, named_in OnRampClient.contract "DestChainConfigArgs" v)) in Hb.
  - clear -Hb. induction Hb; by constructor.
  - intros _ r v Hin (b & -> & Hl & _)%dest_config_Ok. eapply dest_typed, address_length_u32; [done..| |exact Hl].
    rewrite Forall_forall in Hu. by apply Hu.
Qed.
Lemma srcs_typed ds rs vvr rt srcs : is_strkey vvr → is_strkey rt →
  Forall (λ r, is_uint64 r = true) rs → BuildOffRampSourceConfigs ds rs true vvr rt = Ok srcs →
  Forall (named_in OffRampClient.contract "SourceChainConfigArgs") srcs.
Proof.
  intros Hv Hr Hu Hb. eapply (imapM_Forall2 _ (λ _ v, named_in OffRampClient.contract "SourceChainConfigArgs" v)) in Hb.
  - clear -Hb. induction Hb; by constructor.
  - intros _ r v Hin (b & -> & _)%source_config_Ok. apply source_typed; [done..|].
    rewrite Forall_forall in Hu. by apply Hu.
Qed.
Lemma entries_typed c name (entry : Z → value) rs : Forall (λ r, is_uint64 r = true) rs →
  (∀ r, is_uint64 r = true → named_in c name (entry r)) → Forall (named_in c name) (entry <$> rs).
Proof. intros Hu He. induction Hu; cbn; constructor; auto. Qed.

(** The addresses recorded for this chain are those of contracts, and so are the ids held. *)
Context (ds : MemoryDataStore) (Hlookup : ∀ r x, LookupStrkey r ds selector = Ok x → is_strkey x).
Definition held (s : ChainFields) : Prop := ∀ f, id_of s f ≠ "" → is_strkey (id_of s f).

Ltac invokes Hok := eapply good_then; [apply good_ctx; unfold client_call; cbn [deployer a_chain chainDeps the_deployer depsInvoker];
  eapply (good_invoke enumerate Henum); [among|among| |reflexivity|reflexivity|exact Hok]|].

Lemma good_lanes rs s h : all_ok h → Forall (λ r, is_uint64 r = true) rs →
  is_strkey (id_of s onRampContractID) → is_strkey (id_of s offRampContractID) → is_strkey (id_of s routerContractID) →
  is_strkey (id_of s vvrContractID) →
  is_Some (client_of s onRampClient) → is_Some (client_of s offRampClient) → is_Some (client_of s routerClient) →
  ends (connect_lanes enumerate get chain ds selector rs) s h
    (λ _ s' h', s' = s ∧ ∃ l, h' = h ++ l ∧ lanes_connected ds rs s l).
Proof.
  intros Hok Hu Ho Hf Hr Hv [onC HonC] [offC HoffC] [rtC HrtC]. unfold connect_lanes.
  eapply good_result; [done|]. intros ex Hex%wrap_err_Ok. apply total_gets. cbn [id].
  eapply good_result; [done|]. intros dests Hd%wrap_err_Ok. rewrite HonC.
  invokes Hok.
  { constructor; [|constructor]. eapply dests_typed; [exact Hv|exact Hr|exact (Hlookup _ _ Hex)|exact Hu|exact Hd]. }
  clear Hok. intros _ ? ? Hok (-> & ev1 & -> & H1).
  eapply good_result; [done|]. intros srcs Hs%wrap_err_Ok. rewrite HoffC.
  invokes Hok.
  { constructor; [|constructor]. eapply srcs_typed; [exact Hv|exact Hr|exact Hu|exact Hs]. }
  clear Hok. intros _ ? ? Hok (-> & ev2 & -> & H2). rewrite HrtC.
  invokes Hok.
  { repeat constructor; cbn [fieldType typed].
    - eapply entries_typed; [done|]. intros r Hr'. eexists. split; [reflexivity|]. by repeat constructor.
    - eapply entries_typed; [done|]. intros r Hr'. eexists. split; [reflexivity|]. by repeat constructor. }
  clear Hok. intros _ ? ? Hok (-> & ev3 & -> & H3).
  split; [done|]. split; [done|]. exists [ev1; ev2; ev3]. split; [by rewrite <- !app_assoc|].
  exists ex, dests, srcs, onC, offC, rtC. split_and!; [done|by apply dest_configs_iff|by apply source_configs_iff|done..|].
  by repeat constructor.
Qed.

(** *** The pool *)

Lemma good_grow {A} (e : chain_ext (result A)) s h : all_ok h → (∀ r, failed (answered e r) = err r) →
  ends (gcall e) s h (λ a s' h', s' = s ∧ h' = h ++ [answered e (Ok a)]).
Proof. intros Hok Hf. by apply good_call. Qed.

Section evm.
Context (env : Environment) (refs : list AddressRef) (stellarPool stellarToken : AddressRef).

(** [raw] after zeros, up to 32 bytes. *)
Definition padded (raw : bytes) : bytes := replicate (32 - length raw) x00 ++ raw.
(** What is asked of the pool at [pool] on the chain [r]: whether it has this chain already. If
    so, it must have the recorded pool and token, and nothing is changed; otherwise it is given
    this chain with them, without rate limits. *)
Definition remote_given (r : Z) (pool remotePool remoteToken : bytes) (l : hist) : Prop :=
  ∃ chains, if decide (selector ∈ chains)
    then ∃ pools, remotePool ∈ pools ∧
      l = [answered (XSupported r pool) (Ok chains); answered (XRemotePools r pool selector) (Ok pools);
           answered (XRemoteToken r pool selector) (Ok remoteToken)]
    else l = [answered (XSupported r pool) (Ok chains);
              answered (XApply r pool [mkEvmChainUpdate selector [remotePool] remoteToken (false, 0, 0) (false, 0, 0)]) (Ok tt)].
(** The calls for one remote chain: none unless it is an EVM chain with a pool that has a token;
    else the token is registered with that pool at the recorded registry, and the pool is given
    the recorded pool and token of this chain. *)
Definition evm_connected (r : Z) (l : hist) : Prop :=
  ∃ family, GetSelectorFamily r = Ok family ∧
    (((family = FamilyEVM → ∀ p, ¬ candidate r refs p) ∧ l = []) ∨
     ∃ pool token registry rawPool rawToken l',
       family = FamilyEVM ∧ chosen r refs pool token ∧ r ∈ EVMChains env ∧
       Get ds r tarType (Some "1.5.0") "" = Ok registry ∧
       isHex (refAddress token) = true ∧ isHex (refAddress pool) = true ∧ isHex (refAddress registry) = true ∧
       hexutil_Decode (refAddress stellarPool) = Ok rawPool ∧ hexutil_Decode (refAddress stellarToken) = Ok rawToken ∧
       remote_given r (toAddress (refAddress pool)) (padded rawPool) (padded rawToken) l' ∧
       l = answered (XRegister r (toAddress (refAddress token)) (toAddress (refAddress pool))
                       (toAddress (refAddress registry))) (Ok tt) :: l').

Lemma evm_address ref b : evmAddressFromRef ref = Ok b → isHex (refAddress ref) = true ∧ b = toAddress (refAddress ref).
Proof. unfold evmAddressFromRef. cbn [IsHexAddress evm_tooling]. destruct (isHex _); [|done]. by intros [= <-]. Qed.
Lemma padded_bytes_exact ref b : paddedAddressBytes ref = Ok b → ∃ raw, hexutil_Decode (refAddress ref) = Ok raw ∧ b = padded raw.
Proof. unfold paddedAddressBytes. destruct (hexutil_Decode _) as [raw|e]; [|done]. intros [= <-]. by exists raw. Qed.
Lemma slice_contains l x : bytesSliceContains l x = true ↔ x ∈ l.
Proof.
  unfold bytesSliceContains. rewrite existsb_exists. setoid_rewrite bool_decide_eq_true. setoid_rewrite <- list_elem_of_In.
  naive_solver.
Qed.
Lemma uint_contains l x : uint64SliceContains l x = bool_decide (x ∈ l).
Proof.
  apply eq_bool_prop_intro. rewrite bool_decide_spec. unfold uint64SliceContains.
  rewrite Is_true_true, existsb_exists. setoid_rewrite Z.eqb_eq. setoid_rewrite <- list_elem_of_In. naive_solver.
Qed.
Lemma good_register r pool token s h : all_ok h →
  ends (registerEVMTokenPool env ds r pool token) s h (λ _ s' h', s' = s ∧ ∃ registry, r ∈ EVMChains env ∧
    Get ds r tarType (Some "1.5.0") "" = Ok registry ∧
    isHex (refAddress token) = true ∧ isHex (refAddress pool) = true ∧ isHex (refAddress registry) = true ∧
    h' = h ++ [answered (XRegister r (toAddress (refAddress token)) (toAddress (refAddress pool))
                           (toAddress (refAddress registry))) (Ok tt)]).
Proof.
  intros Hok. unfold registerEVMTokenPool. case_decide as Hin; [|by apply all_ok_stops_now].
  eapply good_result; [done|]. intros registry Hr%wrap_err_Ok.
  eapply good_result; [done|]. intros ta [Ht ->]%evm_address.
  eapply good_result; [done|]. intros pa [Hp ->]%evm_address.
  eapply good_result; [done|]. intros ra [Hg ->]%evm_address.
  apply good_ctx. eapply good_mono; [by apply good_grow|]. intros [] ? ? [-> ->]. split; [done|]. exists registry. by split_and!.
Qed.
Lemma good_pool_remote r pool s h : all_ok h →
  ends (configureEVMPoolRemote env r selector pool stellarPool stellarToken) s h (λ _ s' h', s' = s ∧
    ∃ rawPool rawToken l, hexutil_Decode (refAddress stellarPool) = Ok rawPool ∧
      hexutil_Decode (refAddress stellarToken) = Ok rawToken ∧
      remote_given r (toAddress (refAddress pool)) (padded rawPool) (padded rawToken) l ∧ h' = h ++ l).
Proof.
  intros Hok. unfold configureEVMPoolRemote. case_decide; [|by apply all_ok_stops_now].
  eapply good_result; [done|]. intros addr [_ ->]%evm_address.
  eapply good_result; [done|]. intros pb (rawPool & Hpb & ->)%padded_bytes_exact.
  eapply good_result; [done|]. intros tb (rawToken & Htb & ->)%padded_bytes_exact.
  set (P := toAddress (refAddress pool)).
  eapply (good_then _ _ _ _ (λ (b : bool) s' h', s' = s ∧ ∃ chains, if b
    then ∃ pools, selector ∈ chains ∧ padded rawPool ∈ pools ∧
      h' = h ++ [answered (XSupported r P) (Ok chains); answered (XRemotePools r P selector) (Ok pools);
                 answered (XRemoteToken r P selector) (Ok (padded rawToken))]
    else selector ∉ chains ∧ h' = h ++ [answered (XSupported r P) (Ok chains)])).
  - apply good_ctx. unfold evmPoolHasRemote.
    eapply good_then; [by apply good_grow|]. intros chains ? ? Hok1 [-> ->]. rewrite uint_contains.
    destruct (bool_decide_reflect (selector ∈ chains)) as [Hin|Hin]; cbn [negb]; [|by split; [|split; [|exists chains]]].
    eapply good_then; [by apply good_grow|]. intros pools ? ? Hok2 [-> ->].
    eapply good_then; [by apply good_grow|]. intros tok ? ? Hok3 [-> ->].
    destruct (_ && _) eqn:Hm; [|by apply all_ok_stops_now].
    apply andb_true_iff in Hm as [->%bool_decide_eq_true Hp%slice_contains].
    split; [done|]. split; [done|]. exists chains, pools. by rewrite <- !app_assoc.
  - intros b ? ? Hok1 (-> & chains & Hc). destruct b.
    + destruct Hc as (pools & Hin & Hp & ->). split; [done|]. split; [done|]. eexists rawPool, rawToken, _.
      split_and!; [done|done| |done]. exists chains. rewrite decide_True by done. by exists pools.
    + destruct Hc as (Hin & ->). apply good_ctx. eapply good_mono; [by apply good_grow|]. intros [] ? ? [-> ->].
      split; [done|]. eexists rawPool, rawToken, _. split_and!; [done|done| |by rewrite <- app_assoc].
      exists chains. by rewrite decide_False.
Qed.
Lemma good_remote r s h : all_ok h →
  ends (configure_evm_remote env ds refs selector stellarPool stellarToken r) s h
    (λ _ s' h', s' = s ∧ ∃ l, evm_connected r l ∧ h' = h ++ l).
Proof.
  intros Hok. unfold configure_evm_remote. eapply good_result; [done|]. intros family Hf%wrap_err_Ok.
  assert ((family = FamilyEVM → ∀ p, ¬ candidate r refs p) → ends (Ret (GVal tt)) s h
    (λ _ s' h', s' = s ∧ ∃ l, evm_connected r l ∧ h' = h ++ l)) as Hnone.
  { intros Hc. split; [done|]. split; [done|]. exists []. rewrite app_nil_r. split; [|done]. exists family. by split; [|left]. }
  case_decide as Hevm; [|by apply Hnone]. pose proof (resolve_chosen r refs) as Hc.
  destruct (ResolveEVMTokenPoolForStellar refs r) as [[pool token]|]; [|by apply Hnone]. clear Hnone.
  eapply good_then; [by apply good_register|]. intros [] ? ? Hok1 (-> & registry & Hin & Hreg & Ht & Hp & Hg & ->).
  eapply good_mono; [by apply good_pool_remote|]. intros [] ? ? (-> & rawPool & rawToken & l & Hpb & Htb & Hl & ->).
  split; [done|]. eexists. rewrite <- app_assoc. split; [|done]. exists family. split; [done|]. right.
  exists pool, token, registry, rawPool, rawToken, l. by split_and!.
Qed.
Lemma good_remotes todo s h : all_ok h →
  ends (configure_evm_remotes env ds refs selector stellarPool stellarToken todo) s h
    (λ _ s' h', s' = s ∧ ∃ ls, Forall2 evm_connected todo ls ∧ h' = h ++ concat ls).
Proof.
  revert s h. induction todo as [|r todo IH]; intros s h Hok; cbn [configure_evm_remotes].
  { split; [done|]. split; [done|]. exists []. by rewrite app_nil_r. }
  eapply good_then; [by apply good_remote|]. intros [] ? ? Hok1 (-> & l & Hl & ->).
  eapply good_mono; [by apply IH|]. intros [] ? ? (-> & ls & Hls & ->). split; [done|]. exists (l :: ls).
  split; [by constructor|]. cbn [concat]. by rewrite app_assoc.
Qed.
End evm.

Context (orders : nat → nat → list (string * string) → list (string * string)).
Definition pool_call (pool : string) (updates : list value) : method_call :=
  mkMethodCall pool TokenPoolClient.contract TokenPoolClient.apply_chain_updates [VSlice updates; VSlice []].
(** The operation that maps the remote chains to the lock box. *)
Definition lock_box_event (s : ChainFields) (rs : list Z) (ev : event) : Prop :=
  ∃ out, ev = answered (XExecute "siloed-lock-release-pool:configure-lock-boxes"
                          [VString (id_of s tokenPoolContractID);
                           VSlice ((λ r, VStruct [VString (id_of s tokenLockBoxContractID); VNum r]) <$> rs)]) (Ok out).
(** The remote pool and token of a chain, without rate limits, field by field. *)
Definition pool_update (refs : list AddressRef) (r : Z) (v : value) : Prop :=
  ∃ family pool token limit, GetSelectorFamily r = Ok family ∧ remote_pair r refs family pool token ∧
    struct_value TokenPoolClient.RateLimitConfig
      [("is_enabled", VBool false); ("capacity", VU128 (mkUInt128Parts 0 0)); ("rate", VU128 (mkUInt128Parts 0 0))] limit ∧
    struct_value TokenPoolClient.ChainUpdate
      [("remote_chain_selector", VNum r); ("remote_pool_addresses", VBytes pool); ("remote_token_address", VBytes token);
       ("outbound_rate_limiter_config", limit); ("inbound_rate_limiter_config", limit)] v.
Definition pool_connected (env : Environment) (rs : list Z) (s : ChainFields) (l : hist) : Prop :=
  match client_of s tokenPoolClient with
  | None => l = []
  | Some pool =>
      if decide (id_of s testTokenContractID = "") then l = []
      else ∃ refs updates ev boxes evm stellarPool stellarToken,
        Fetch ds = Ok refs ∧ Forall2 (pool_update refs) rs updates ∧ made_as (pool_call pool updates) ev ∧
        (if decide (id_of s tokenLockBoxContractID = "") then boxes = [] else ∃ b, lock_box_event s rs b ∧ boxes = [b]) ∧
        ref_LookupAddressRef LegacyLockReleasePoolDevenvDatastoreRef ds selector = Ok stellarPool ∧
        ref_LookupAddressRef DevenvTestTokenDatastoreRef ds selector = Ok stellarToken ∧
        Forall2 (evm_connected env refs stellarPool stellarToken) rs evm ∧ l = ev :: boxes ++ concat evm
  end.

Context (Horders : ∀ i j l, orders i j l ≡ₚ l).
Lemma updates_are refs rs updates : Fetch ds = Ok refs → buildPoolChainUpdates orders ds rs = Ok updates →
  Forall2 (pool_update refs) rs updates.
Proof.
  intros Hf. apply imapM_Forall2. intros i r v _. unfold pool_chain_update.
  destruct (wrap_err _ _) as [b|e] eqn:Hb; [|done]. apply wrap_err_Ok in Hb. intros [= <-].
  destruct (GetSelectorFamily r) as [family|e] eqn:Hfam;
    [|by unfold resolveRemotePoolAndToken, AddressBytesLength in Hb; rewrite Hfam in Hb].
  exists family, (fst b), (snd b), no_rate_limit. split; [done|]. split; [|by repeat split].
  by apply (remote_pair_of r refs family Hfam (orders i) (Horders i) ds).
Qed.
Lemma updates_typed rs updates : Forall (λ r, is_uint64 r = true) rs → buildPoolChainUpdates orders ds rs = Ok updates →
  Forall (named_in TokenPoolClient.contract "ChainUpdate") updates.
Proof.
  intros Hu Hb. eapply (imapM_Forall2 _ (λ _ v, named_in TokenPoolClient.contract "ChainUpdate" v)) in Hb.
  - clear -Hb. induction Hb; by constructor.
  - intros j r v Hin. unfold pool_chain_update. destruct (wrap_err _ _) as [[pb tb]|e]; [|done]. intros [= <-].
    rewrite Forall_forall in Hu. specialize (Hu r Hin).
    eexists. split; [reflexivity|]. repeat constructor; cbn; try done.
    all: eexists; split; [reflexivity|]; by repeat constructor.
Qed.
Lemma good_boxes rs s h : all_ok h → id_of s tokenLockBoxContractID ≠ "" →
  ends (configureSiloedPoolLockBoxes enumerate get chain rs) s h (λ _ s' h', s' = s ∧ ∃ b, lock_box_event s rs b ∧ h' = h ++ [b]).
Proof.
  intros Hok Hbox. unfold configureSiloedPoolLockBoxes. apply total_gets. cbn [deployer a_chain].
  case_decide; [by apply all_ok_stops_now|].
  eapply (good_then _ _ _ _ (λ _ s' h', s' = s ∧ ∃ b, lock_box_event s rs b ∧ h' = h ++ [b])).
  - apply good_call; [done..|]. intros out. split; [done|]. eexists. split; [by eexists|done].
  - by intros _ ? ? Hok' H'.
Qed.
Lemma good_pool env rs s h : all_ok h → Forall (λ r, is_uint64 r = true) rs →
  ends (connect_pool enumerate get chain orders env ds selector rs) s h
    (λ _ s' h', s' = s ∧ ∃ l, h' = h ++ l ∧ pool_connected env rs s l).
Proof.
  intros Hok Hu. unfold connect_pool, pool_connected. apply total_gets. cbn [id].
  destruct (client_of s tokenPoolClient) as [pool|]; [|split; [done|]; split; [done|]; exists []; by rewrite app_nil_r].
  destruct (decide (id_of s testTokenContractID = "")); [split; [done|]; split; [done|]; exists []; by rewrite app_nil_r|].
  eapply good_result; [done|]. intros updates Hup%wrap_err_Ok.
  invokes Hok.
  { constructor; [|by repeat constructor]. exact (updates_typed _ _ Hu Hup). }
  clear Hok. intros _ ? ? Hok (-> & ev & -> & Hev).
  eapply (good_then _ _ _ _ (λ _ s' h', s' = s ∧ ∃ boxes, h' = (h ++ [ev]) ++ boxes ∧
    (if decide (id_of s tokenLockBoxContractID = "") then boxes = [] else ∃ b, lock_box_event s rs b ∧ boxes = [b]))).
  { destruct (decide (id_of s tokenLockBoxContractID = "")) as [|Hb].
    - split; [done|]. split; [done|]. exists []. by rewrite app_nil_r.
    - apply good_ctx. eapply good_mono; [by apply good_boxes|]. intros _ ? ? (-> & b & Hb' & ->).
      split; [done|]. exists [b]. split; [done|]. by exists b. }
  clear Hok. intros _ ? ? Hok (-> & boxes & -> & Hboxes). apply good_ctx. unfold configureEVMToStellarTokenTransfers.
  eapply good_result; [done|]. intros refs Hrefs%wrap_err_Ok.
  eapply good_result; [done|]. intros sp Hsp%wrap_err_Ok. eapply good_result; [done|]. intros st Hst%wrap_err_Ok.
  eapply good_mono; [by apply (good_remotes env refs sp st rs)|].
  intros _ ? ? (-> & evm & Hevm & ->). split; [done|]. exists (ev :: boxes ++ concat evm).
  split; [by rewrite <- !app_assoc|]. exists refs, updates, ev, boxes, evm, sp, st.
  split_and!; [done|by apply updates_are|done..].
Qed.

(** *** [PostConnect] *)

Lemma local_strkey s f r x : held s → local_id ds s f r x → is_strkey x.
Proof. intros Hh. unfold local_id. case_decide; [by apply Hlookup|]. intros ->. by apply Hh. Qed.

(** C29. Connecting a chain to others never panics, whatever the node and the EVM chains answer,
    and stops at the first call that fails. When it succeeds on remote chains, the chain holds
    its own ramps, router and verifier (those it had, else those recorded), and the calls were
    exactly these, in this order. The lanes: on its OnRamp and OffRamp a lane for every remote
    chain ([dest_lane], [source_lane]: the recorded remote ramps, field by field), and on its
    router every remote chain with its own ramps. Then, with a pool and a token: one update of
    the pool, with the remote pool and token of every chain ([remote_pair]) in their fields; the
    lock box for every chain; and for every EVM chain that has a burn-mint pool with a token
    ([chosen]): that token registered with that pool at the chain's recorded registry, and the
    pool asked for this chain, and given the recorded legacy pool and test token (padded to 32
    bytes), without limits, unless it has them already. Without remote chains there is no
    call. *)
Theorem post_connect_exact env rs0 s : envDataStore env = Some ds → held s → Forall (λ r, is_uint64 r = true) rs0 →
  total any_answer (PostConnect enumerate get put chain orders (Some env) selector rs0) s [] (good (λ _ s' h,
    match FilterRemoteSelectors rs0 selector with
    | [] => s' = s ∧ h = []
    | rs => ∃ onr offr rt vvr lanes pool, local_ids ds s onr offr rt vvr ∧ s' = ensured onr offr rt vvr s ∧
              lanes_connected ds rs s' lanes ∧ pool_connected env rs s' pool ∧ h = lanes ++ pool
    end)).
Proof.
  intros Hds Hheld Hu. unfold PostConnect. rewrite Hds.
  assert (Forall (λ r, is_uint64 r = true) (FilterRemoteSelectors rs0 selector)) as Hu'.
  { apply Forall_forall. intros r Hr. unfold FilterRemoteSelectors in Hr. rewrite merge_sort_Permutation in Hr.
    destruct (remote_selectors_elem rs0 selector [] ∅) as [_ He]; [set_solver|constructor|].
    apply He in Hr as [?%not_elem_of_nil|[Hr _]]; [done|]. rewrite Forall_forall in Hu. by apply Hu. }
  destruct (FilterRemoteSelectors rs0 selector) as [|r rs] eqn:Hrs; [by repeat split; try constructor|].
  assert (all_ok []) as Hok by constructor.
  eapply good_then; [apply good_ctx; by apply good_ensure|].
  clear Hok. intros _ ? ? Hok (-> & onr & offr & rt & vvr & Hloc & ->).
  destruct (ensured_ids ds s onr offr rt vvr Hloc) as (E1 & E2 & E3 & E4 & _ & C1 & C2 & C3).
  pose proof Hloc as (L1 & L2 & L3 & L4).
  eapply good_then; [apply good_lanes; rewrite ?E1, ?E2, ?E3, ?E4; first [done|by eapply local_strkey]|].
  clear Hok. intros _ ? ? Hok (-> & lanes & -> & Hl).
  eapply good_mono; [by apply good_pool|]. intros _ ? ? (-> & pool & -> & Hp).
  by exists onr, offr, rt, vvr, lanes, pool.
Qed.
End connect.

(** ** Sending a message *)

Section send.
Context {ST : SdkTypes} {SD : Sdk} {UT : UnicodeTables} {XS : XdrSdk} {XL : XdrLaws} {HF : HostFunctions}
  {MS : MetaSdk} {RS : RpcSdk} {FC : FloatConv} {DS : DeployerSdk} {LS : LaneSdk} {AS : AccessorSdk}
  {DT : Datastore} {CK : ContractKinds} {SB : ScValBinary} {CP : CcvProtocol} {DV : DevenvSdk}.
Context (enumerate : list string → list string) (Henum : enumerates enumerate).
Context (selector : Z) (passphrase address url : string).
Abbreviation chain := (a_chain selector passphrase address url).
Abbreviation get := (λ s : ChainFields, s).
Abbreviation made_with := (made_with enumerate).

(** Addresses of the message are of 32 bytes, or not given. *)
Definition sized (b : bytes) : Prop := b = [] ∨ length b = 32%nat.
Definition message_sized (fields : MessageFields) : Prop := sized (mfFeeToken fields) ∧ sized (mfTokenAddress fields).
Lemma token_amounts_typed fields l : message_sized fields → message_token_amounts fields = GVal l →
  Forall (named_in RouterClient.contract "TokenAmount") l.
Proof.
  intros [_ Hs]. unfold message_token_amounts. destruct (mfAmount fields) as [a|]; [|by intros [= <-]].
  destruct (0 <? a); cbn [andb]; [|by intros [= <-]]. destruct (Z.ltb_spec 0 (Z.of_nat (length (mfTokenAddress fields)))) as [Hl|];
    [|by intros [= <-]].
  destruct Hs as [Hs|Hs]; [by rewrite Hs in Hl|]. destruct (is_int64 a) eqn:Ha; [|done]. cbn [negb].
  intros (tok & Ht%gwrap_GVal & [= <-])%gbind_GVal. destruct (Encode VersionByteContract (mfTokenAddress fields)) as [t|e] eqn:He; [|done].
  injection Ht as <-. repeat constructor. eexists. split; [reflexivity|]. repeat constructor; [exact Ha|]. by exists VersionByteContract, (mfTokenAddress fields).
Qed.
Lemma message_typed keys s fields m : held s → message_sized fields → build_message keys address s fields = GVal m →
  named_in RouterClient.contract "StellarToAnyMessage" m.
Proof.
  intros Hh Hs. unfold build_message. intros (blob & _ & Hb)%gbind_GVal. case_decide as Hft; [done|].
  apply gbind_GVal in Hb as (ft & Hf & Hb). apply gbind_GVal in Hb as (amounts & Ha & [= <-]).
  assert (is_strkey ft) as Hstr.
  { destruct Hs as [[Hs|Hs] _]; [rewrite Hs in Hf; injection Hf as <-; by apply Hh|].
    destruct (mfFeeToken fields) as [|x l] eqn:Ef; [done|]. apply gwrap_GVal in Hf.
    destruct (Encode VersionByteContract (x :: l)) as [t|e] eqn:He; [|done]. injection Hf as <-. by exists VersionByteContract, (x :: l). }
  eexists. split; [reflexivity|]. repeat constructor; [exact Hstr|]. by eapply token_amounts_typed.
Qed.

Definition quote_call (router : string) (dest : Z) (m : value) : method_call :=
  mkMethodCall router RouterClient.contract RouterClient.get_fee [VNum dest; m].
Definition send_call (router : string) (dest : Z) (m : value) (fee : Z) : method_call :=
  mkMethodCall router RouterClient.contract RouterClient.ccip_send [VString address; VNum dest; m; VNum fee].
(** The amount that an answer of the router quotes, an i128; and the amount that a call to send
    carries on the wire. *)
Definition quotes (ans : result (option ScVal)) (q : Z) : Prop :=
  ∃ hi lo, ans = Ok (Some (ScvI128 (Some (mkInt128Parts hi lo)))) ∧ q = hi * 2 ^ 64 + lo.
Definition pays (router : string) (amount : Z) (ev : event) : Prop :=
  ∃ sender to msg hi lo ans, is_int64 hi = true ∧ is_uint64 lo = true ∧ amount = hi * 2 ^ 64 + lo ∧
    ev = answered (XInvoke router "ccip_send" [sender; to; msg; ScvI128 (Some (mkInt128Parts hi lo))]) ans.

Lemma int64_low hi lo : int64 (hi * 2 ^ 64 + lo) = int64 lo.
Proof.
  unfold int64, swrap. replace (hi * 2 ^ 64 + lo + 2 ^ (64 - 1)) with (lo + 2 ^ (64 - 1) + hi * 2 ^ 64) by lia.
  by rewrite Z_mod_plus_full.
Qed.
Lemma int64_fits q : int64 q = q ↔ is_int64 q = true.
Proof. split; [intros <-; apply int64_range|apply int64_id]. Qed.
Lemma send_pays router dest m fee ans ev : is_int64 fee = true →
  made_with (send_call router dest m fee) ans ev → pays router fee ev.
Proof.
  intros Hf (args & Ha & _ & ->). cbn [send_call function arguments target interface] in Ha |- *.
  unfold RouterClient.ccip_send in Ha. cbn [Inputs Client.args_to fieldType] in Ha.
  apply gbind_GVal in Ha as (x1 & _ & Ha). apply gbind_GVal in Ha as (l1 & Ha & [= <-]).
  apply gbind_GVal in Ha as (x2 & _ & Ha). apply gbind_GVal in Ha as (l2 & Ha & [= <-]).
  apply gbind_GVal in Ha as (x3 & _ & Ha). apply gbind_GVal in Ha as (l3 & Ha & [= <-]).
  cbn in Ha. injection Ha as <-.
  destruct (proj1 i128_exact_on_int64 fee Hf) as ([hi lo] & E & Hv & Hw & _). unfold ScVal.I128ToScVal in E. injection E as <- <-.
  apply andb_true_iff in Hw as [Hhi Hlo]. eexists x1, x2, x3, _, _, ans.
  split; [exact Hhi|]. split; [exact Hlo|]. split; [exact (eq_sym Hv)|reflexivity].
Qed.
Lemma fee_reply ans l : reply enumerate RouterClient.contract RouterClient.get_fee ans = GVal l →
  ∃ q, l = [VNum (int64 q)] ∧ quotes ans q.
Proof.
  destruct ans as [[sc|]|e]; [|done..]. cbn -[ScVal.I128FromScVal]. unfold fmap, gres_fmap.
  intros (v & (fee & Hf & [= <-])%gbind_GVal & [= <-])%gbind_GVal.
  destruct sc as [ | | | | | | | | | |[[hi lo]|]| | | | | | | | | | | | ]; try done. cbn in Hf. injection Hf as <-.
  exists (hi * 2 ^ 64 + lo). rewrite int64_low. split; [done|]. by exists hi, lo.
Qed.
Lemma id_reply ans l : reply enumerate RouterClient.contract RouterClient.ccip_send ans = GVal l →
  ∃ b sc, l = [VBytes b] ∧ ans = Ok (Some sc) ∧ ScVal.Bytes32FromScVal sc = GVal b.
Proof.
  destruct ans as [[sc|]|e]; [|done..]. cbn -[ScVal.Bytes32FromScVal fixed_from].
  intros (v & Hv & [= <-])%gbind_GVal. cbn [fixed_from] in Hv. unfold fmap, gres_fmap in Hv.
  apply gbind_GVal in Hv as (b & Hb & [= <-]). by exists b, sc.
Qed.

(** C30. A message that is built is sent for the low 64 bits of the i128 that the router quotes
    for it, read as an int64: that is the quoted amount exactly when the quote fits an int64, and
    otherwise the rest is silently dropped (a quote of 2^64 + 10 is paid with 10). There is one
    quote and, after it, at most one send: from the chain's account, to the destination, of this
    message, with that amount as the i128 on the wire; nothing is sent without a quote. What is
    returned is the id that the contract answers, and for the sender the text of its address. *)
Theorem send_pays_quoted_fee keys dest fields s router m :
  is_uint64 dest = true → is_strkey address → held s → message_sized fields → client_of s routerClient = Some router →
  build_message keys address s fields = GVal m →
  total wire_answer (SendMessage enumerate get chain keys dest fields) s [] (λ r s' h, s' = s ∧
    ∃ quote quoted, made_with (quote_call router dest m) quote quoted ∧
    match r with
    | GVal sent => ∃ q sc ev, quotes quote q ∧ (int64 q = q ↔ is_int64 q = true) ∧ pays router (int64 q) ev ∧
        made_with (send_call router dest m (int64 q)) (Ok (Some sc)) ev ∧ h = [quoted; ev] ∧ ScVal.Bytes32FromScVal sc = GVal (seMessageID sent) ∧ seSender sent = address_text address
    | GErr _ => h = [quoted] ∨
        ∃ q ans ev, quotes quote q ∧ (int64 q = q ↔ is_int64 q = true) ∧ pays router (int64 q) ev ∧
          made_with (send_call router dest m (int64 q)) ans ev ∧ h = [quoted; ev]
    | GPanic _ => False
    end).
Proof.
  intros Hdest Haddr Hh Hs Hr Hb. pose proof (message_typed keys s fields m Hh Hs Hb) as Hm.
  unfold SendMessage, BuildChainMessage. cbn [deployerKeypair a_chain]. apply total_gets. cbn [id]. rewrite Hb.
  change (total wire_answer (SendChainMessage enumerate get chain dest (RouterMessage m)) s []
    (λ r s' h, s' = s ∧ ∃ quote quoted, made_with (quote_call router dest m) quote quoted ∧
    match r with
    | GVal sent => ∃ q sc ev, quotes quote q ∧ (int64 q = q ↔ is_int64 q = true) ∧ pays router (int64 q) ev ∧
        made_with (send_call router dest m (int64 q)) (Ok (Some sc)) ev ∧ h = [quoted; ev] ∧ ScVal.Bytes32FromScVal sc = GVal (seMessageID sent) ∧ seSender sent = address_text address
    | GErr _ => h = [quoted] ∨
        ∃ q ans ev, quotes quote q ∧ (int64 q = q ↔ is_int64 q = true) ∧ pays router (int64 q) ev ∧
          made_with (send_call router dest m (int64 q)) ans ev ∧ h = [quoted; ev]
    | GPanic _ => False
    end)).
  unfold SendChainMessage. apply total_gets. rewrite Hr. cbn [deployerKeypair a_chain].
  unfold client_call. cbn [deployer a_chain chainDeps the_deployer depsInvoker].
  eapply total_gctx_gthen; [apply (method_total enumerate Henum RouterClient.contract RouterClient.get_fee); [among|among|]|].
  { repeat constructor; [exact Hdest|exact Hm]. }
  intros r s' h (-> & quote & quoted & -> & Hq & -> & Hp).
  destruct (reply _ _ _ quote) as [l|e|p] eqn:Hl; [|split; [done|]; exists quote, quoted; split; [done|]; by left|done].
  apply fee_reply in Hl as (q & -> & Hq'). pose proof (int64_range q) as Hi.
  pose proof (int64_fits q) as Hfits. cbn [result_num gthen].
  eapply total_gctx_gthen; [apply (method_total enumerate Henum RouterClient.contract RouterClient.ccip_send); [among|among|]|].
  { repeat constructor; [exact Haddr|exact Hdest|exact Hm|exact Hi]. }
  intros r s' h (-> & ans & ev & -> & He & -> & Hp').
  destruct (reply _ _ _ ans) as [l|e|p] eqn:Hl'; [|split; [done|]; exists quote, quoted; split; [done|]; right; exists q, ans, ev; do 2 (split; [done|]); split; [by eapply send_pays|done]|done].
  apply id_reply in Hl' as (b & sc & -> & -> & Hsc). split; [done|]. exists quote, quoted. split; [done|]. exists q, sc, ev.
  do 2 (split; [done|]). split; [by eapply send_pays|done].
Qed.
End send.

(** ** Native transfers *)

Section payment.
Import DeployerProps.DeployerProps.
Context {ST : SdkTypes} {SD : Sdk} {UT : UnicodeTables} {XS : XdrSdk} {XL : XdrLaws} {HF : HostFunctions}
  {MS : MetaSdk} {RS : RpcSdk} {FC : FloatConv} {DS : DeployerSdk} {LS : LaneSdk} {AS : AccessorSdk}
  {DT : Datastore} {CK : ContractKinds} {SB : ScValBinary} {CP : CcvProtocol} {DV : DevenvSdk}.
Context (selector : Z) (url : string).
(** The chain with its deployer, and all that is asked of the node and of the signer. *)
Context {SL : SdkLaws} {ML : MetaLaws} (d : Deployer.Deployer).
Abbreviation payer := (Deployer.Address (Deployer.signer d)).
(** Documented behaviour: the SDK reads the amount of a payment as a decimal number of lumens,
    of 10^7 stroops each, and refuses one that exceeds an int64. *)
Context (ParseAmount : string → result Z)
  (HParse : ∀ n, 0 < n → n * 10 ^ 7 <= max_int64 → ParseAmount (pretty n) = Ok (n * 10 ^ 7))
  (HParse_big : ∀ n, max_int64 < n * 10 ^ 7 → is_ok (ParseAmount (pretty n)) = false).


Context (Hs : known_signer (Deployer.signer d)) (Ha : is_ok (Sdk.AddressToAccountId payer) = true).


End payment.

(** ** Funding *)

Section native.
Context {ST : SdkTypes} {SD : Sdk} {UT : UnicodeTables} {XS : XdrSdk} {XL : XdrLaws} {HF : HostFunctions}
  {MS : MetaSdk} {RS : RpcSdk} {FC : FloatConv} {DS : DeployerSdk} {LS : LaneSdk} {AS : AccessorSdk}
  {DT : Datastore} {CK : ContractKinds} {SB : ScValBinary} {CP : CcvProtocol} {DV : DevenvSdk}.
Context (selector : Z) (passphrase address url : string).
Abbreviation chain := (a_chain selector passphrase address url).
Implicit Types (s : ChainFields) (h : hist).

Abbreviation http := (λ u, call (XGet u)).
Abbreviation sleep := (λ d, call (XSleep d)).
(** The requests of a run, and those that were answered with status 200. *)
Definition requests (h : hist) : list string :=
  omap (λ ev : event, match fst (projT2 ev) with XGet u => Some u | _ => None end) h.
Definition granted (h : hist) : list string :=
  omap (λ ev : event, (match fst (projT2 ev) in chain_ext X return X → option string with
                       | XGet u => λ r, match r with Ok (true, _) => Some u | _ => None end
                       | _ => λ _, None
                       end) (snd (projT2 ev))) h.
Definition faucet (addr : string) : string := url +:+ "?addr=" +:+ addr.

Lemma requests_get u r l : requests (answered (XGet u) r :: l) = u :: requests l.
Proof. reflexivity. Qed.
Lemma requests_sleep d r l : requests (answered (XSleep d) r :: l) = requests l.
Proof. reflexivity. Qed.
Lemma granted_get u (r : result (bool * string)) l :
  granted (answered (XGet u) r :: l) = match r with Ok (true, _) => u :: granted l | _ => granted l end.
Proof. by destruct r as [[[] ?]|]. Qed.
Lemma granted_sleep d r l : granted (answered (XSleep d) r :: l) = granted l.
Proof. reflexivity. Qed.
Lemma requests_app l l' : requests (l ++ l') = requests l ++ requests l'.
Proof. apply omap_app. Qed.
Lemma granted_app l l' : granted (l ++ l') = granted l ++ granted l'.
Proof. apply omap_app. Qed.
Lemma granted_requests l : (length (granted l) <= length (requests l))%nat.
Proof.
  induction l as [|[X [e r]] l IH]; [done|].
  destruct e as [| | | | | | | |u| | | | | |]; try exact IH.
  assert (length (granted (answered (XGet u) r :: l)) <= length (requests (answered (XGet u) r :: l)))%nat as Hu; [|exact Hu].
  rewrite requests_get, granted_get.
  destruct r as [[[] ?]|]; cbn [length]; lia.
Qed.
Lemma attempts_end n u err0 s h :
  total any_answer (friendbot_attempts http sleep n u err0) s h (λ r s' h', s' = s ∧ ∃ l, h' = h ++ l ∧
    (length (requests l) <= n)%nat ∧
    match r with GVal _ => granted l = [u] | GErr _ => granted l = [] ∧ length (requests l) = n | GPanic _ => False end).
Proof.
  revert err0 h. induction n as [|n IH]; intros err0 h; cbn [friendbot_attempts].
  { split; [done|]. exists []. by rewrite app_nil_r. }
  intros [[[] status]|e] _; cbn -[friendbot_attempts]; [|intros [] _..].
  { split; [done|]. exists [answered (XGet u) (Ok (true, status))]. split; [done|]. split; [cbn; lia|done]. }
  all: (eapply total_mono; [|apply IH]); intros r s' h' (-> & l & -> & Hl & Hr); (split; [done|]);
    eexists; rewrite <- !app_assoc; (split; [done|]); cbn [app];
    rewrite requests_get, requests_sleep, granted_get, granted_sleep; cbn [length]; (split; [lia|]);
    (destruct r; [done|split; [apply Hr|f_equal; apply Hr]|done]).
Qed.
(** The accounts to fund: those of 32 bytes. *)
Definition accounts (addresses : list bytes) : list bytes := List.filter (λ a, Z.of_nat (length a) =? StellarAddressByteLen) addresses.

(** C33. Funding ends. Each address of 32 bytes, and no other, is asked of the faucet, in order,
    at most nine times and until it is granted. It succeeds exactly when all were granted; it
    fails after nine requests for one address that were all refused. *)
Theorem funding_ends addresses s :
  total any_answer (FundAddresses chain http sleep addresses) s [] (λ r s' h, s' = s ∧
    (length (requests h) <= 9 * length (accounts addresses))%nat ∧
    ∃ done_ : list string, granted h = faucet <$> done_ ∧
      match r with
      | GVal _ => Forall2 (λ a t, Encode VersionByteAccountID a = Ok t) (accounts addresses) done_
      | GErr _ => ∃ l1 a l2, accounts addresses = l1 ++ a :: l2 ∧ Forall2 (λ a t, Encode VersionByteAccountID a = Ok t) l1 done_ ∧
          (length done_ + 9 <= length (requests h))%nat
      | GPanic _ => False
      end).
Proof.
  change [] with ([] : hist) at 1.
  enough (∀ h, total any_answer (FundAddresses chain http sleep addresses) s h (λ r s' h', s' = s ∧ ∃ l, h' = h ++ l ∧
    (length (requests l) <= 9 * length (accounts addresses))%nat ∧
    ∃ done_ : list string, granted l = faucet <$> done_ ∧
      match r with
      | GVal _ => Forall2 (λ a t, Encode VersionByteAccountID a = Ok t) (accounts addresses) done_
      | GErr _ => ∃ l1 a l2, accounts addresses = l1 ++ a :: l2 ∧ Forall2 (λ a t, Encode VersionByteAccountID a = Ok t) l1 done_ ∧
          (length done_ + 9 <= length (requests l))%nat
      | GPanic _ => False
      end)) as H.
  { eapply total_mono; [|apply (H [])]. intros r s' h' (-> & l & -> & Hr). by split. }
  induction addresses as [|a addresses IH]; intros h; cbn [FundAddresses accounts List.filter].
  { split; [done|]. exists []. rewrite app_nil_r. split; [done|]. split; [done|]. exists []. split; [done|]. constructor. }
  destruct (Z.eqb_spec (Z.of_nat (length a)) StellarAddressByteLen) as [Hl|Hl]; cbn [negb]; [|apply IH].
  assert (length a = 32%nat) as Hl' by (unfold StellarAddressByteLen in Hl; lia).
  pose proof (Encode_total VersionByteAccountID a Hl') as Ht.
  destruct (Encode VersionByteAccountID a) as [t|e] eqn:He; [|done].
  eapply total_gctx_gthen; [apply attempts_end|].
  intros [[]|e|m] s' h' (-> & l & -> & Hn & Hg); [|split; [done|]; exists l; split; [done|]|done].
  - eapply total_mono; [|apply IH]. intros r s' h' (-> & l' & -> & Hn' & ts & Hg' & Hr). split; [done|].
    exists (l ++ l'). rewrite app_assoc. split; [done|]. rewrite requests_app, granted_app, length_app.
    split; [cbn [length]; unfold accounts, maxRetries in *; lia|].
    exists (t :: ts). rewrite Hg, Hg'. split; [done|]. destruct r as [|e|m]; [by constructor| |done].
    destruct Hr as (l1 & x & l2 & Heq & Hr & Hle). exists (a :: l1), x, l2. unfold accounts in Heq. rewrite Heq.
    split; [done|]. split; [by constructor|]. pose proof (granted_requests l) as Hone. rewrite Hg in Hone. cbn [length] in *. lia.
  - destruct Hg as [Hg Hlen]. cbn [length]. unfold maxRetries in *. split; [lia|]. exists []. split; [done|].
    exists [], a, (accounts addresses). split; [done|]. split; [constructor|]. cbn [length]. lia.
Qed.
End native.

(** ** Fee aggregators of the topology *)

Section topology.
Context {AS : AccessorSdk} {XS : XdrSdk} {UT : UnicodeTables} (ParseUint64 : string → result Z).

(** A loop over keys, each of which updates the entry of its key. *)
Lemma foldl_update {V} (step : gmap string V → string → gmap string V) (upd : string → V → V) (m : gmap string V) (l : list string) :
  (∀ m k k', step m k !! k' = if decide (k' = k) then upd k <$> m !! k else m !! k') → NoDup l →
  ∀ k, foldl step m l !! k = if decide (k ∈ l) then upd k <$> m !! k else m !! k.
Proof.
  intros Hstep Hl. revert m. induction Hl as [|x l Hx Hl IH]; intros m k; cbn [foldl].
  { rewrite decide_False; [done|]. apply not_elem_of_nil. }
  rewrite IH, Hstep. destruct (decide (k = x)) as [->|Hk].
  - rewrite decide_False by done. by rewrite decide_True by left.
  - destruct (decide (k ∈ l)) as [Hin|Hin]; [by rewrite decide_True by (by right)|].
    rewrite decide_False; [done|]. by intros [->|?]%elem_of_cons.
Qed.
Lemma foldl_update_all {V} (step : gmap string V → string → gmap string V) (upd : string → V → V) (m : gmap string V)
    (order : list string → list string) : enumerates order →
  (∀ m k k', step m k !! k' = if decide (k' = k) then upd k <$> m !! k else m !! k') →
  ∀ k, foldl step m (order (fst <$> map_to_list m)) !! k = upd k <$> m !! k.
Proof.
  intros Ho Hstep k. pose proof (Ho (fst <$> map_to_list m)) as Hp.
  assert (NoDup (order (fst <$> map_to_list m))) as Hn by (rewrite Hp; apply NoDup_fst_map_to_list).
  rewrite (foldl_update step upd m _ Hstep Hn).
  destruct (decide (k ∈ order (fst <$> map_to_list m))) as [_|Hin]; [done|].
  destruct (m !! k) as [v|] eqn:Hm; [|done]. destruct Hin. rewrite Hp. apply list_elem_of_fmap.
  exists (k, v). split; [done|]. by apply elem_of_map_to_list.
Qed.

(** A configuration of a Stellar chain that has no aggregator gets one; any other stays. *)
Definition stellar_key (chainKey : string) : bool :=
  match ParseUint64 chainKey with
  | Ok sel => match GetSelectorFamily sel with Ok fam => bool_decide (fam = FamilyStellar) | Err _ => false end
  | Err _ => false
  end.
Definition filled (hex chainKey : string) (cfg : ccvChainConfig) : ccvChainConfig :=
  if decide (FeeAggregator cfg = "") then
    if stellar_key chainKey then mkCcvChainConfig (committeeConfig cfg) hex else cfg
  else cfg.
Lemma fill_config_lookup hex m k k' :
  fill_config ParseUint64 hex m k !! k' = if decide (k' = k) then filled hex k <$> m !! k else m !! k'.
Proof.
  unfold fill_config, filled, stellar_key. destruct (m !! k) as [cfg|] eqn:Hm.
  2: { destruct (decide (k' = k)) as [->|]; [by rewrite Hm|done]. }
  assert (m !! k' = if decide (k' = k) then Some cfg else m !! k') as Hsame.
  { destruct (decide (k' = k)) as [->|]; [done|done]. }
  cbn [fmap option_fmap option_map].
  destruct (decide (FeeAggregator cfg = "")) as [He|Hne]; [rewrite decide_False by tauto|by rewrite decide_True by done].
  destruct (ParseUint64 k) as [sel|e]; [|exact Hsame]. destruct (GetSelectorFamily sel) as [fam|e]; [|exact Hsame].
  destruct (decide (fam = FamilyStellar)) as [->|Hf].
  - rewrite bool_decide_true by done. destruct (decide (k' = k)) as [->|]; [by rewrite lookup_insert_eq|by rewrite lookup_insert_ne].
  - by rewrite bool_decide_false.
Qed.

(** The topology that a reference function gives, by committee and chain. *)
Definition fill_all (hex : string) (o : option (gmap string ccvChainConfig)) : option (gmap string ccvChainConfig) :=
  option_map (map_imap (λ k c, Some (filled hex k c))) o.
Definition filled_committees (hex : string) (cs : gmap string (option (gmap string ccvChainConfig)))
  : gmap string (option (gmap string ccvChainConfig)) :=
  fmap (M := gmap string) (fill_all hex) cs.

(** C31. The fee aggregators of a topology. In any order of Go's maps, the loops give exactly
    the reference: the configurations of Stellar chains without an aggregator get that of
    the chain's deployer, as hexadecimal bytes, and nothing else changes: not the other
    chains, nor an aggregator that is set, nor committees without configurations. Without a
    key pair it is an EVM-style constant. *)
Theorem fee_aggregators_filled {Rest} order keypair committees (rest : Rest) : enumerates order →
  ensureStellarFeeAggregatorsInTopology Rest ParseUint64 order keypair (Some (mkEnvironmentTopology Rest (Some committees) rest)) =
  Some (mkEnvironmentTopology Rest (Some (filled_committees
          (match keypair with
           | Some address => match Decode VersionByteAccountID address with Ok raw => HexEncode raw | Err _ => evmStyleFallback end
           | None => evmStyleFallback
           end) committees)) rest).
Proof.
  intros Ho. unfold ensureStellarFeeAggregatorsInTopology. do 3 f_equal.
  set (hex := match stellarFeeAggregatorHexForTopology keypair with Ok h => h | Err _ => evmStyleFallback end).
  assert (hex = match keypair with
           | Some address => match Decode VersionByteAccountID address with Ok raw => HexEncode raw | Err _ => evmStyleFallback end
           | None => evmStyleFallback
           end) as <-.
  { unfold hex, stellarFeeAggregatorHexForTopology, DeployerAddressHex. destruct keypair as [a|]; [|done].
    by destruct (Decode VersionByteAccountID a). }
  apply map_eq. intros name. unfold filled_committees. rewrite lookup_fmap.
  rewrite (foldl_update_all _ (λ _, fill_all hex)); [done|done|]. clear name committees.
  intros m k k'. unfold fill_committee. destruct (m !! k) as [[cfgs|]|] eqn:Hm; [|by case_decide; subst; rewrite ?Hm..].
  destruct (decide (k' = k)) as [->|Hk]; [|by rewrite lookup_insert_ne].
  rewrite lookup_insert_eq. cbn. do 2 f_equal. apply map_eq. intros key. rewrite map_lookup_imap.
  rewrite (foldl_update_all _ (filled hex)); [by destruct (cfgs !! key)|done|]. intros. apply fill_config_lookup.
Qed.
End topology.

(** ** The chain from a deployment *)

Section from_datastore.
Context {ST : SdkTypes} {UT : UnicodeTables} {XS : XdrSdk} {XL : XdrLaws} {DS : DeployerSdk} {LS : LaneSdk}
  {AS : AccessorSdk} {DT : Datastore} {CK : ContractKinds}.
Context (ds : MemoryDataStore) (selector : Z).
Abbreviation contract_id := RolloutProps.RolloutProps.contract_id.
Implicit Types (s : ChainFields).

Lemma contract_id_address id b : contract_id id → Encode VersionByteContract b = Ok id → b ≠ [].
Proof.
  intros (b' & Hl & He) Hb ->. apply Decode_Encode in Hb. apply Decode_Encode in He. rewrite Hb in He. by injection He as <-.
Qed.
Lemma contract_id_text id : contract_id id → id ≠ "".
Proof. intros (b & _ & [s' ->]%Encode_contract). done. Qed.
(** A contract that is recorded is loaded; the other loads set a field or leave it. *)
Lemma load_recorded r put s id : LookupStrkey r ds selector = Ok id → contract_id id → load r put ds selector s = put id s.
Proof.
  intros Hl Hid. unfold load. unfold LookupStrkey, LookupStellarContractStrkey in Hl.
  change (ref_LookupAddressRef r ds selector) with (LookupAddressRef ds selector (dcType r) (dcVersion r) (dcQualifier r)).
  destruct (LookupAddressRef _ _ _ _ _) as [ref|e]; [|done]. apply wrap_err_Ok in Hl.
  destruct (decide (refAddress ref = "")) as [Ha|Ha]; [|by rewrite Hl].
  rewrite Ha in Hl. exfalso. by eapply (contract_id_address id []).
Qed.
Lemma load_missing r put s e : LookupStrkey r ds selector = Err e → load r put ds selector s = s.
Proof.
  unfold load, LookupStrkey, LookupStellarContractStrkey.
  change (ref_LookupAddressRef r ds selector) with (LookupAddressRef ds selector (dcType r) (dcVersion r) (dcQualifier r)).
  destruct (LookupAddressRef _ _ _ _ _) as [ref|e']; [|done]. destruct (decide _); [done|].
  by destruct (ScVal.HexToContractStrkey _).
Qed.
Lemma load_some r put s : ∃ o : option string, load r put ds selector s = fill o put s.
Proof.
  unfold load. destruct (ref_LookupAddressRef r ds selector) as [ref|e]; [|by exists None].
  destruct (decide _); [by exists None|]. destruct (ScVal.HexToContractStrkey _) as [id|e]; [by exists (Some id)|by exists None].
Qed.
Lemma found_recorded r id : LookupStrkey r ds selector = Ok id → contract_id id → found r ds selector = Some id.
Proof. intros Hl Hid. unfold found. rewrite Hl. by rewrite decide_False by by apply contract_id_text. Qed.

(** The contracts that every deployment records, and the fields that hold them. *)
Record Recorded := mkRecorded {
  theOnRamp : string; theOffRamp : string; theRouter : string; theFeeQuoter : string; theVVR : string; theCV : string;
  theReceiver : string; theRegistry : string; theRampRegistry : string; theRMN : string
}.
Definition is_recorded (c : Recorded) : Prop := Forall (λ p, LookupStrkey (fst p) ds selector = Ok (snd p) ∧ contract_id (snd p))
  [(OnRampDatastoreRef, theOnRamp c); (OffRampDatastoreRef, theOffRamp c); (RouterDatastoreRef, theRouter c);
   (FeeQuoterDatastoreRef, theFeeQuoter c); (VVRDatastoreRef, theVVR c); (CommitteeVerifierDatastoreRef, theCV c);
   (CCIPReceiverDatastoreRef, theReceiver c); (TokenAdminRegistryDatastoreRef, theRegistry c);
   (RampRegistryDatastoreRef, theRampRegistry c); (RMNRemoteDatastoreRef, theRMN c)].
Definition holds_recorded (c : Recorded) (s : ChainFields) : Prop :=
  [id_of s onRampContractID; id_of s offRampContractID; id_of s routerContractID; id_of s vvrContractID; id_of s cvContractID;
   id_of s receiverContractID; id_of s tokenAdminRegistryContractID; id_of s rampRegistryContractID; id_of s rmnRemoteContractID] =
  [theOnRamp c; theOffRamp c; theRouter c; theVVR c; theCV c; theReceiver c; theRegistry c; theRampRegistry c; theRMN c] ∧
  [client_of s onRampClient; client_of s offRampClient; client_of s routerClient; client_of s feeQuoterClient;
   client_of s tokenAdminRegistryClient] =
  [Some (theOnRamp c); Some (theOffRamp c); Some (theRouter c); Some (theFeeQuoter c); Some (theRegistry c)].
Definition no_rmn_proxy (s : ChainFields) : Prop := id_of s rmnProxyContractID = "" ∧ client_of s rmnProxyClient = None.

Lemma hydrated_is s rt reg rr : LookupStrkey TokenAdminRegistryDatastoreRef ds selector = Ok reg → contract_id reg →
  LookupStrkey RampRegistryDatastoreRef ds selector = Ok rr → contract_id rr →
  client_of s tokenAdminRegistryClient = None → is_Some (client_of s feeQuoterClient) → id_of s routerContractID = rt → rt ≠ "" →
  is_Some (client_of s routerClient) → id_of s rampRegistryContractID = "" →
  hydrated ds selector s =
    set_id rampRegistryContractID rr (set_both tokenAdminRegistryContractID tokenAdminRegistryClient reg s).
Proof.
  intros Hreg Ireg Hrr Irr Ht [fq Hfq] Hrt Hne [rc Hrc] Hramp. unfold hydrated, hydrate_registry. rewrite Ht.
  rewrite (found_recorded _ _ Hreg Ireg). cbn [fill]. unfold hydrate_fee_quoter.
  change (client_of (set_both tokenAdminRegistryContractID tokenAdminRegistryClient reg s) feeQuoterClient) with (client_of s feeQuoterClient).
  rewrite Hfq. unfold hydrate_router.
  change (id_of (set_both tokenAdminRegistryContractID tokenAdminRegistryClient reg s) routerContractID) with (id_of s routerContractID).
  change (client_of (set_both tokenAdminRegistryContractID tokenAdminRegistryClient reg s) routerClient) with (client_of s routerClient).
  rewrite Hrt, decide_False, Hrc by done. unfold hydrate_ramp_registry.
  change (id_of (set_both tokenAdminRegistryContractID tokenAdminRegistryClient reg s) rampRegistryContractID) with (id_of s rampRegistryContractID).
  rewrite Hramp, decide_True by done. by rewrite (found_recorded _ _ Hrr Irr).
Qed.
Lemma loaded_holds c : is_recorded c →
  holds_recorded c (loaded ds selector no_fields) ∧
  ∀ e, LookupStrkey RMNProxyDatastoreRef ds selector = Err e → no_rmn_proxy (loaded ds selector no_fields).
Proof.
  unfold is_recorded. rewrite !Forall_cons. cbn [fst snd].
  intros ([H1 I1] & [H2 I2] & [H3 I3] & [H4 I4] & [H5 I5] & [H6 I6] & [H7 I7] & [H8 I8] & [H9 I9] & [H10 I10] & _).
  unfold loaded. cbv zeta.
  rewrite (load_recorded OnRampDatastoreRef _ _ _ H1 I1), (load_recorded OffRampDatastoreRef _ _ _ H2 I2),
    (load_recorded RouterDatastoreRef _ _ _ H3 I3), (load_recorded FeeQuoterDatastoreRef _ _ _ H4 I4),
    (load_recorded VVRDatastoreRef _ _ _ H5 I5), (load_recorded CommitteeVerifierDatastoreRef _ _ _ H6 I6),
    (load_recorded CCIPReceiverDatastoreRef _ _ _ H7 I7), (load_recorded RMNRemoteDatastoreRef _ _ _ H10 I10).
  destruct (load_some LegacyLockReleasePoolDevenvDatastoreRef (set_id legacyLockReleasePoolID)
    (load SiloedLockReleasePoolDevenvDatastoreRef (set_both tokenPoolContractID tokenPoolClient) ds selector
      (set_id rmnRemoteContractID (theRMN c)
        (load RMNProxyDatastoreRef (set_both rmnProxyContractID rmnProxyClient) ds selector
          (set_id receiverContractID (theReceiver c) (set_id cvContractID (theCV c) (set_id vvrContractID (theVVR c)
            (set_client feeQuoterClient (theFeeQuoter c) (set_both routerContractID routerClient (theRouter c)
              (set_both offRampContractID offRampClient (theOffRamp c)
                (set_both onRampContractID onRampClient (theOnRamp c) no_fields))))))))))) as [legacy ->].
  match goal with |- context [load SiloedLockReleasePoolDevenvDatastoreRef ?p ds selector ?s] =>
    destruct (load_some SiloedLockReleasePoolDevenvDatastoreRef p s) as [siloed ->] end.
  match goal with |- context [load TokenLockBoxDevenvDatastoreRef ?p ds selector ?s] =>
    destruct (load_some TokenLockBoxDevenvDatastoreRef p s) as [box ->] end.
  pose proof (contract_id_text _ I3) as Hr. split.
  - match goal with |- context [load RMNProxyDatastoreRef ?p ds selector ?s] =>
      destruct (load_some RMNProxyDatastoreRef p s) as [proxy ->] end.
    rewrite (hydrated_is _ (theRouter c) (theRegistry c) (theRampRegistry c)); try done;
      destruct legacy, siloed, box, proxy; first [reflexivity|split; reflexivity|by eexists].
  - intros e He. rewrite (load_missing _ _ _ _ He).
    rewrite (hydrated_is _ (theRouter c) (theRegistry c) (theRampRegistry c)); try done;
      destruct legacy, siloed, box; first [reflexivity|split; reflexivity|by eexists].
Qed.
End from_datastore.

Section from_deployment.
Import FullDeploy RolloutProps.RolloutProps CcvChain.CcvChain.
Context {ST : SdkTypes} {SD : Sdk} {UT : UnicodeTables} {XS : XdrSdk} {XL : XdrLaws} {HF : HostFunctions}
  {MS : MetaSdk} {RS : RpcSdk} {FC : FloatConv} {DS : DeployerSdk} {LS : LaneSdk} {LL : LaneLaws} {AS : AccessorSdk}
  {DT : Datastore} {DL : DatastoreLaws} {CK : ContractKinds} {KL : KindLaws} {DV : DevenvSdk}.
Context (enumerate : list string → list string) (print_version : option string → string) (findRoot : result string).
Context (deps : StellarDeps FullDeploy.HostFields rollout_ext) (ch : StellarChain) (url : string)
  (h : Rollout.CCIPDevenvHost FullDeploy.HostFields rollout_ext).
Context (Hh : host_of deps (gcall LatestLedger) (λ l c u, gcall (CreateToken l c u)) ch url = Ok h).
Context (mock executor testToken : string).
Context (Hmock : MustGenerateMockContractID (Rollout.DeployerKeypair h) "fee-token" = GVal mock)
  (Hexecutor : ScVal.HexToContractStrkey (contractHexAddr h "stellar-executor-proxy") = Ok executor).
Context {W : Type} {E : Type → Type} (NewDeployer : string → string → ChainDeployer W E) (GetLatestLedger : prog W E (gres Z)).
Abbreviation stat := (λ path, call (StatFile path)).

(** The same contracts in the host of a deployment and in a chain. *)
Definition agrees (w : FullDeploy.HostFields) (s : ChainFields) : Prop :=
  [id_of s onRampContractID; id_of s offRampContractID; id_of s routerContractID; id_of s vvrContractID; id_of s cvContractID;
   id_of s receiverContractID; id_of s tokenAdminRegistryContractID; id_of s rampRegistryContractID] =
  FullDeploy.id_of w <$> [FullDeploy.onRampContractID; FullDeploy.offRampContractID; FullDeploy.routerContractID;
    FullDeploy.vvrContractID; FullDeploy.cvContractID; FullDeploy.receiverContractID; FullDeploy.tarContractID;
    FullDeploy.rampRegistryContractID] ∧
  [client_of s onRampClient; client_of s offRampClient; client_of s routerClient; client_of s feeQuoterClient;
   client_of s tokenAdminRegistryClient] =
  FullDeploy.client_of w <$> [FullDeploy.onRampClient; FullDeploy.offRampClient; FullDeploy.routerClient;
    FullDeploy.feeQuoterClient; FullDeploy.tarClient].

Lemma derived_keeps passphrase s : ∃ test fee,
  derived passphrase s = fill fee (set_id feeTokenContractID) (fill test (set_id testTokenContractID) s).
Proof.
  unfold derived, derive. destruct (derived_token passphrase ("test-token-issuer-" +:+ passphrase) testTokenAssetCode) as [t|e];
    [exists (Some t)|exists None]; (destruct (derived_token passphrase ("fee-token-issuer-" +:+ passphrase) feeTokenAssetCode) as [f|e'];
    [by exists (Some f)|by exists None]).
Qed.

(** C28. The chain from a deployment. A deployment of the whole protocol, with any answers of the
    node and the file system, never panics, and when it succeeds, the datastore that it gives
    is enough to build the chain: with the key pair of the network's label, the factory's chain
    holds the contracts and the clients that the deployment's host ended with. But the RMN
    proxy, which was deployed, is not among them: a chain that had none recorded before has
    none after. *)
Theorem chain_from_deployment orders topo inp w networks passphrase kp :
  FullDeploy.id_of w FullDeploy.testTokenContractID = testToken →
  networks !! iiChainSelector inp = Some passphrase → seeded (deployer_label passphrase) = Ok kp →
  total answers (RunStellarCCIPFullDeploy enumerate print_version stat findRoot (Some deps) (Some h) orders topo inp) w []
    (RolloutProps.RolloutProps.good (Rollout.DeployerKeypair h) [Rollout.DeployerKeypair h; mock; executor; testToken] (λ out w' hh',
      ∃ ds c s, Fetch ds = Ok (Addresses out) ∧
        factory_New NewDeployer GetLatestLedger networks (Some ds) (iiChainSelector inp) = Ok (c, s) ∧
        deployerKeypair c = Some kp ∧ agrees w' s ∧
        ∃ net proxy, check (Rollout.DeployerKeypair h) [Rollout.DeployerKeypair h; mock; executor; testToken] hh' = Some net ∧
          ("rmn-proxy:deploy", proxy) ∈ made net ∧
          ∀ ds0 e, MergeExistingAddressRefs print_version NewMemoryDataStore (iiExistingAddresses inp) = Ok ds0 →
            LookupStrkey RMNProxyDatastoreRef ds0 (iiChainSelector inp) = Err e → no_rmn_proxy s)).
Proof.
  intros Hw Hnet Hkp. eapply total_mono; [|by apply (ends_full_deploy enumerate print_version findRoot deps ch url h Hh mock executor testToken)].
  intros [out|e|m] w' hh' Hd; [|exact Hd..]. cbn in Hd |- *. destruct Hd as (ds0 & Hm & Hd).
  destruct Hd as (f & vvr & cv & rs & rr & rc & ds & r' & Hfetch & _ & Hfinds & -> & Hc & _ & _ & Hids).
  set (rec := mkRecorded (onramp f) (offramp rs) (router rs) (feeQuoter f) vvr cv rc (tar f) rr (rmnRemote f)).
  assert (is_recorded ds (iiChainSelector inp) rec) as Hrec.
  { unfold foundation_contracts in Hids. cbn [app] in Hids. rewrite !Forall_cons in Hids.
    destruct Hids as (I1 & I2 & _ & I4 & I5 & I6 & I7 & I8 & I9 & I10 & I11 & _).
    repeat constructor; cbn; try done.
    - exact (Hfinds KOnRamp). - exact (Hfinds KOffRamp). - exact (Hfinds KRouter). - exact (Hfinds KFeeQuoter).
    - exact (Hfinds KVVR). - exact (Hfinds KCommitteeVerifier). - exact (Hfinds KReceiver).
    - exact (Hfinds KTokenAdminRegistry). - exact (Hfinds KRampRegistry). - exact (Hfinds KRMNRemote). }
  destruct (loaded_holds ds (iiChainSelector inp) rec Hrec) as [[Hi Hcl] Hproxy].
  destruct (derived_keeps passphrase (loaded ds (iiChainSelector inp) no_fields)) as (test & fee & Hder).
  exists ds. eexists _, _. split; [exact Hfetch|]. unfold factory_New. rewrite Hnet, Hkp. cbn.
  split; [reflexivity|]. split; [done|]. rewrite Hder. split.
  - assert (∀ g, g ∉ [testTokenContractID; feeTokenContractID] → id_of (fill fee (set_id feeTokenContractID)
      (fill test (set_id testTokenContractID) (loaded ds (iiChainSelector inp) no_fields))) g = id_of (loaded ds (iiChainSelector inp) no_fields) g) as Hkeep.
    { intros g Hg. destruct fee, test; cbn; rewrite ?decide_False by set_solver; done. }
    assert (client_of (fill fee (set_id feeTokenContractID)
      (fill test (set_id testTokenContractID) (loaded ds (iiChainSelector inp) no_fields))) = client_of (loaded ds (iiChainSelector inp) no_fields)) as Hk
      by (by destruct fee, test).
    unfold agrees. rewrite Hk, !Hkeep by (by vm_compute; intros; set_solver).
    injection Hi as -> -> -> -> -> -> -> -> _. injection Hcl as -> -> -> -> ->.
    unfold deployment_fields, foundation_fields, fee_fields. by destruct (decide (url = "")).
  - eexists _, (rmnProxy f). split; [exact Hc|]. split; [apply list_elem_of_In; cbn; tauto|].
    intros ds1 e Hm' He. rewrite Hm in Hm'. injection Hm' as <-.
    pose proof (Hfinds KRMNProxy) as Hf. cbn [ref_of all_ids] in Hf. rewrite He in Hf. apply Hproxy in Hf as [Hp Hpc]. by destruct fee, test.
Qed.
End from_deployment.

(** ** Concrete inputs *)

Section demo.
Import DemoCcv ExtraArgsProps.
Local Existing Instances demo_hash RolloutProps.demo_kind_laws.
#[local] Instance demo_devenv : DevenvSdk := {|
  FromRawSeed := λ _, Ok (String "G"%char (String.string_of_list_byte DemoXdr.key2));
  CreditAssetXDR := λ code _, Ok code;
  ErrInsufficientNativeBalance := "insufficient balance"
|}.
(** A node that accepts every call, quotes a fee of 10, answers a message with its id, holds
    5000 stroops, and a faucet that is never ready. *)
Definition demo_message_id : ScVal := ScVal.BytesToScVal (replicate 32 x09).
Definition demo_net : oracle (E := chain_ext) := λ X n e,
  match e in chain_ext X return X with
  | XInvoke _ f _ => if decide (f = "ccip_send") then Ok (Some demo_message_id) else Ok None
  | XSimulate _ f _ => if decide (f = "get_fee") then Ok (Some (ScvI128 (Some (mkInt128Parts 0 10)))) else Ok None
  | XDeploy _ _ => Ok demo_ccv | XExecute _ _ => Ok [] | XAccount _ => Ok (5000, 7, true) | XPay _ _ => Ok tt
  | XLatest => Ok 100
  | XWait X e => match e in Client.wait_ext X return X with
                 | Client.GetEvents _ _ _ => GVal [] | Client.Now => 0 | Client.Select => None
                 end
  | XGet _ => Ok (false, "503") | XSleep _ => tt
  | XSupported _ _ => Ok [] | XRemotePools _ _ _ => Ok [] | XRemoteToken _ _ _ => Ok [] | XApply _ _ _ => Ok tt
  | XRegister _ _ _ _ => Ok tt
  end.
Lemma demo_net_wire X n e : wire_answer X e (demo_net X n e).
Proof. destruct e; cbn; try done; by case_decide. Qed.
Lemma demo_net_any X n e : any_answer X e (demo_net X n e).
Proof. done. Qed.

(** The chain 2, with a deployer, and the chain 1 with a pool of its own. *)
Definition demo_account : string := String "G"%char (String.string_of_list_byte DemoXdr.key2).
Lemma demo_account_strkey : is_strkey demo_account.
Proof. by exists VersionByteAccountID, DemoXdr.key2. Qed.
Abbreviation the_chain := (a_chain 2 "testnet" demo_account "http://friendbot").
Definition demo_ref (sel : Z) (r : DatastoreSorobanContractRef) (n : nat) (b : byte) : AddressRef :=
  FullAddressRef r sel (hexutil_Encode (replicate n b)).
Definition demo_evm (ty qualifier : string) (b : byte) : AddressRef :=
  mkAddressRef 1 ty (Some "1.5.0") qualifier (hexutil_Encode (replicate 20 b)).
Definition demo_chain_refs : MemoryDataStore :=
  [demo_ref 2 OnRampDatastoreRef 32 x11; demo_ref 2 OffRampDatastoreRef 32 x12; demo_ref 2 RouterDatastoreRef 32 x13;
   demo_ref 2 VVRDatastoreRef 32 x14; demo_ref 2 (ExecutorProxyDatastoreRef DefaultExecutorQualifier) 32 x15;
   demo_ref 2 LegacyLockReleasePoolDevenvDatastoreRef 32 x16; demo_ref 2 SiloedLockReleasePoolDevenvDatastoreRef 32 x17;
   demo_ref 2 DevenvTestTokenDatastoreRef 32 x18;
   demo_ref 1 OnRampDatastoreRef 20 x21; demo_ref 1 OffRampDatastoreRef 20 x22;
   demo_evm "BurnMintTokenPool" "TEST" x23; demo_evm "BurnMintERC20Token" "TEST" x24; demo_evm "TokenAdminRegistry" "" x25].
Definition key_id (b : byte) : string := String "C"%char (String.string_of_list_byte (replicate 32 b)).
Lemma key_id_strkey b : is_strkey (key_id b).
Proof. exists VersionByteContract, (replicate 32 b). split; [apply length_replicate|done]. Qed.
(** Every recorded address of chain 2 is of 32 bytes. *)
Lemma demo_lookup r x : LookupStrkey r demo_chain_refs 2 = Ok x → is_strkey x.
Proof.
  unfold LookupStrkey, LookupStellarContractStrkey, LookupAddressRef. cbn [Get demo_datastore]. unfold find_key.
  destruct (List.find _ _) as [ref|] eqn:Hf; [|done]. apply find_some in Hf as [Hin Hk].
  apply has_key_spec in Hk as (Hsel & _). cbn in Hin.
  repeat destruct Hin as [<-|Hin]; [..|done]; cbn in Hsel; try done;
    intros [= <-]%wrap_err_Ok; by (eexists VersionByteContract, (replicate 32 _)).
Qed.

(** It holds a pool with a lock box and a token, and none of the contracts of its lanes. *)
Definition demo_holds : ChainFields :=
  set_id testTokenContractID (key_id x18) (set_id tokenLockBoxContractID (key_id x19)
    (set_both tokenPoolContractID tokenPoolClient (key_id x17) no_fields)).
Lemma demo_holds_held : held demo_holds.
Proof. intros f. unfold demo_holds. cbn. repeat (case_decide; [intros _; apply key_id_strkey|]). done. Qed.
Definition demo_address (s : string) : bytes := match hexutil_Decode s with Ok b => b | Err _ => [] end.
#[local] Instance demo_tooling : EvmTooling ChainFields chain_ext :=
  evm_tooling (λ s, HasPrefix s "0x") demo_address hexutil_Encode "TokenAdminRegistry".
Definition demo_environment : Environment := mkEnvironment (Some demo_chain_refs) {[1]}.
Definition same_order : nat → nat → list (string * string) → list (string * string) := λ _ _ l, l.
Definition demo_connect : prog ChainFields chain_ext (gres unit) :=
  PostConnect any_order (λ s, s) (λ s _, s) the_chain same_order
    (Some demo_environment) 2 [2; 1].
(** Connected to itself and to the chain 1, it makes the calls of the lane, sets its pool and
    its lock box, and asks the pool of the chain 1 to take the pool recorded as legacy. *)
Lemma post_connect_exact_witness : ∃ h w, hrun demo_net demo_connect 0 demo_holds = (Done (GVal tt), h, w) ∧
  (∃ lanes pool, h = lanes ++ pool ∧ lanes_connected any_order 2 demo_chain_refs [1] w lanes ∧
    pool_connected any_order (λ s, HasPrefix s "0x") demo_address "TokenAdminRegistry" 2 demo_chain_refs
      demo_environment [1] w pool) ∧
  last h = Some (answered (XApply 1 (replicate 20 x23)
    [mkEvmChainUpdate 2 [replicate 32 x16] (replicate 32 x18) (false, 0, 0) (false, 0, 0)]) (Ok tt)).
Proof.
  pose proof (post_connect_exact any_order any_order_enumerates (λ s, HasPrefix s "0x")
    demo_address hexutil_Encode "TokenAdminRegistry" 2 "testnet" demo_account
    "http://friendbot" demo_chain_refs demo_lookup same_order (λ _ _ l, Permutation_refl l) demo_environment [2; 1] demo_holds
    eq_refl demo_holds_held ltac:(by repeat constructor)) as H.
  apply (total_hrun _ _ demo_net 0 _ _ _ demo_net_any) in H. destruct H as (r & h & w & Hr & H).
  assert (match hrun demo_net demo_connect 0 demo_holds with
          | (Done (GVal _), h, _) => last h = Some (answered (XApply 1 (replicate 20 x23)
              [mkEvmChainUpdate 2 [replicate 32 x16] (replicate 32 x18) (false, 0, 0) (false, 0, 0)]) (Ok tt))
          | _ => False
          end) as Hs by by vm_compute.
  change (hrun demo_net demo_connect 0 demo_holds = (Done r, h, w)) in Hr. rewrite Hr in Hs |- *. destruct r as [[]|e|m]; [|destruct Hs..].
  exists h, w. split; [done|]. split; [|done]. destruct H as [_ H].
  replace (FilterRemoteSelectors [2; 1] 2) with [1] in H by by vm_compute.
  destruct H as (onr & offr & rt & vvr & lanes & pool & _ & _ & Hl & Hp & Hh). by exists lanes, pool.
Defined.

(** A message of three bytes to the chain 1, paid in the token of the chain's fees. *)
Definition demo_ready : ChainFields :=
  set_client routerClient (key_id x13)
    (set_id feeTokenContractID (key_id x1a) (set_id vvrContractID (key_id x14) demo_holds)).
Lemma demo_ready_held : held demo_ready.
Proof.
  intros f. unfold demo_ready. cbn. do 2 (case_decide; [intros _; apply key_id_strkey|]). apply demo_holds_held.
Qed.
Definition demo_fields : MessageFields := mkMessageFields (replicate 20 x31) [x01; x02; x03] [] None [].
Definition quoting (hi lo : Z) : oracle (E := chain_ext) := λ X n e,
  match e in chain_ext X return X with
  | XSimulate _ _ _ => Ok (Some (ScvI128 (Some (mkInt128Parts hi lo))))
  | e => demo_net _ n e
  end.
Lemma quoting_wire hi lo X n e : wire_answer X e (quoting hi lo X n e).
Proof. destruct e; cbn; try done; by case_decide. Qed.
(** A quote of 10 is paid with 10, and so is a quote of 2^64 + 10. *)
Lemma send_pays_quoted_fee_witness : ∃ m,
  build_message args_keys demo_account demo_ready demo_fields = GVal m ∧
  ∀ hi, hi = 0 ∨ hi = 1 → ∃ sent quote quoted ev sc,
  hrun (quoting hi 10) (SendMessage any_order (λ s, s) the_chain args_keys 1 demo_fields) 0 demo_ready =
    (Done (GVal sent), [quoted; ev], demo_ready) ∧
  made_with any_order (quote_call (key_id x13) 1 m) quote quoted ∧ quotes quote (hi * 2 ^ 64 + 10) ∧
  pays (key_id x13) 10 ev ∧ made_with any_order (send_call demo_account (key_id x13) 1 m 10) (Ok (Some sc)) ev.
Proof.
  destruct (build_message args_keys demo_account demo_ready demo_fields) as [m|e|msg] eqn:Em; [|by vm_compute in Em..].
  exists m. split; [done|]. intros hi Hhi.
  pose proof (send_pays_quoted_fee any_order any_order_enumerates 2 "testnet" demo_account "http://friendbot" args_keys 1
    demo_fields demo_ready (key_id x13) m eq_refl demo_account_strkey demo_ready_held
    ltac:(by split; left) eq_refl Em) as H.
  apply (total_hrun _ _ (quoting hi 10) 0 _ _ _ (quoting_wire hi 10)) in H. destruct H as (r & h & w & Hr & -> & quote & quoted & Hq & H).
  assert (match hrun (quoting hi 10) (SendMessage any_order (λ s, s) the_chain args_keys 1 demo_fields) 0 demo_ready with
          | (Done (GVal _), quoted :: _, _) =>
              ∃ x args, quoted = answered (XSimulate x "get_fee" args) (Ok (Some (ScvI128 (Some (mkInt128Parts hi 10)))))
          | _ => False end) as Hs by (destruct Hhi as [-> | ->]; vm_compute; by eexists _, _).
  rewrite Hr in Hs. destruct r as [sent|e|msg]; [|destruct Hs..].
  destruct H as (q & sc & ev & Hf & _ & Hp & Hm & Hh & _ & _). cbn [app] in Hh. subst h.
  assert (q = hi * 2 ^ 64 + 10) as ->.
  { destruct Hs as (x & args & Hs). destruct Hq as (args' & _ & _ & Hq). cbn in Hq. rewrite Hq in Hs.
    destruct Hf as (hi' & lo' & -> & ->). apply (f_equal (λ ev : event, match fst (projT2 ev) in chain_ext X return X → Z with
      | XSimulate _ _ _ => λ r, match r with Ok (Some (ScvI128 (Some p))) => i128Hi p * 2 ^ 64 + i128Lo p | _ => 0 end
      | _ => λ _, 0 end (snd (projT2 ev)))) in Hs. exact Hs. }
  rewrite int64_low in Hp, Hm. exists sent, quote, quoted, ev, sc. split_and!; [exact Hr|exact Hq|exact Hf|exact Hp|exact Hm].
Defined.

Section transfer.
#[local] Existing Instances DeployerProps.DeployerProps.demo_host DeployerProps.DeployerProps.demo_meta
  DeployerProps.DeployerProps.demo_meta_laws DeployerProps.DeployerProps.demo_deployer_sdk
  Demo.demo_float Demo.demo_sdk Demo.demo_laws.
End transfer.

(** Two committees; Go ranges over them backwards. *)
Definition demo_parse (s : string) : result Z := if decide (s = "2") then Ok 2 else if decide (s = "1") then Ok 1 else Err "syntax".
Definition demo_committees : gmap string (option (gmap string ccvChainConfig)) :=
  {["a" := Some {["2" := mkCcvChainConfig (mkChainCommitteeConfig ["x"] 1) ""; "1" := mkCcvChainConfig (mkChainCommitteeConfig ["x"] 1) ""]};
    "b" := Some {["2" := mkCcvChainConfig (mkChainCommitteeConfig ["y"] 1) "0x01"]}; "c" := None]}.
Lemma fee_aggregators_filled_witness :
  ensureStellarFeeAggregatorsInTopology unit demo_parse reverse (Some demo_account)
    (Some (mkEnvironmentTopology unit (Some demo_committees) tt)) =
  Some (mkEnvironmentTopology unit (Some
    {["a" := Some {["2" := mkCcvChainConfig (mkChainCommitteeConfig ["x"] 1) (HexEncode DemoXdr.key2); "1" := mkCcvChainConfig (mkChainCommitteeConfig ["x"] 1) ""]};
      "b" := Some {["2" := mkCcvChainConfig (mkChainCommitteeConfig ["y"] 1) "0x01"]}; "c" := None]}) tt).
Proof.
  rewrite (fee_aggregators_filled demo_parse reverse (Some demo_account) demo_committees tt reverse_Permutation).
  by vm_compute.
Defined.

(** A faucet that is never ready is asked nine times for the first account, and no more. *)
Lemma funding_ends_witness : ∃ e h,
  hrun demo_net (FundAddresses the_chain (λ u, call (XGet u)) (λ d, call (XSleep d)) [[x01]; DemoXdr.key1; DemoXdr.key2]) 0 no_fields = (Done (GErr e), h, no_fields) ∧
  length (requests h) = 9%nat ∧ granted h = [].
Proof.
  pose proof (funding_ends 2 "testnet" demo_account "http://friendbot" [[x01]; DemoXdr.key1; DemoXdr.key2] no_fields) as H.
  apply (total_hrun _ _ demo_net 0 _ _ _ demo_net_any) in H. destruct H as (r & h & w & Hr & -> & Hn & gs & Hg & H).
  assert (match hrun demo_net (FundAddresses the_chain (λ u, call (XGet u)) (λ d, call (XSleep d)) [[x01]; DemoXdr.key1; DemoXdr.key2]) 0 no_fields with
          | (Done (GErr _), h, _) => (length (requests h) <= 9)%nat ∧ granted h = [] | _ => False end) as Hs.
  { vm_compute. split; [lia|done]. }
  rewrite Hr in Hs. destruct r as [[]|e|m]; [destruct Hs|..|destruct Hs]. destruct Hs as [Hle He].
  exists e, h. split; [exact Hr|]. split; [|done]. cbn [app] in H. destruct H as (_ & _ & _ & _ & _ & Hge). lia.
Defined.

(** A deployment of the protocol on chain 2, and the chain that is built from what it leaves. *)
Definition demo_deployment (h : Rollout.CCIPDevenvHost FullDeploy.HostFields RolloutProps.rollout_ext) :=
  FullDeploy.RunStellarCCIPFullDeploy (CF := RolloutProps.rollout_cldf) (λ l, l) (λ _, "")
    (λ path, call (RolloutProps.StatFile path)) (Ok "/repo") (Some RolloutProps.demo_deps) (Some h)
    (λ _ l, l) (Some (Some RolloutProps.demo_committee)) (FullDeploy.mkInnerInput 2 [1] []).
Lemma chain_from_deployment_witness : match RolloutProps.demo_host with Err _ => False | Ok h =>
  ∃ out hh w ds c s, hrun RolloutProps.demo_answers (demo_deployment h) 0 FullDeploy.no_fields = (Done (GVal out), hh, w) ∧
    Fetch ds = Ok (Addresses out) ∧
    factory_New (λ _ _, the_deployer) (gcall XLatest) {[2 := "testnet"]} (Some ds) 2 = Ok (c, s) ∧ agrees w s ∧ no_rmn_proxy s end.
Proof.
  assert (match RolloutProps.demo_host with Err _ => False | Ok h =>
    RolloutProps.succeeds (hrun RolloutProps.demo_answers (demo_deployment h) 0 FullDeploy.no_fields) end) as Hs by by vm_compute.
  destruct RolloutProps.demo_host as [h|e] eqn:Eh; [|exact Hs].
  assert (Rollout.DeployerKeypair h = "GDEPLOYER" ∧ MustGenerateMockContractID "GDEPLOYER" "fee-token" = GVal RolloutProps.demo_mock ∧
    ScVal.HexToContractStrkey (FullDeploy.contractHexAddr h "stellar-executor-proxy") = Ok (RolloutProps.demo_executor h)) as (Ho & Hm & Hx).
  { unfold RolloutProps.demo_host, RolloutProps.host_of, FullDeploy.NewCLDFStellarCCIPDevenvHost in Eh.
    cbn [ChainSigner RolloutProps.demo_chain] in Eh. injection Eh as <-. split; [done|]. split; by vm_compute. }
  rewrite <- Ho in Hm.
  pose proof (chain_from_deployment (λ l, l) (λ _, "") (Ok "/repo") RolloutProps.demo_deps RolloutProps.demo_chain
    "http://friendbot" h Eh RolloutProps.demo_mock (RolloutProps.demo_executor h) "" Hm Hx (λ _ _, the_deployer) (gcall XLatest)
    (λ _ l, l) (Some (Some RolloutProps.demo_committee)) (FullDeploy.mkInnerInput 2 [1] []) FullDeploy.no_fields {[2 := "testnet"]} "testnet"
    demo_account eq_refl eq_refl eq_refl) as Ht.
  apply (total_hrun RolloutProps.answers _ RolloutProps.demo_answers 0) in Ht; [|exact RolloutProps.rollout_demo_sane].
  destruct Ht as (o & hh & w & Hr & HQ). change (hrun RolloutProps.demo_answers (demo_deployment h) 0 FullDeploy.no_fields = (Done o, hh, w)) in Hr.
  rewrite Hr in Hs. destruct o as [out|e|e]; [|destruct Hs..].
  destruct HQ as (ds & c & s & Hf & Hn & _ & Ha & net & proxy & _ & _ & Hp).
  exists out, hh, w, ds, c, s. split; [exact Hr|]. do 3 (split; [done|]). eapply (Hp NewMemoryDataStore); by vm_compute.
Defined.
End demo.
End CcvChainProps.
